(* ===== verification/_CoqProject ===== *)
-Q . S2P
Prelude.v
Periods.v
Refusals.v
Tables.v
Repositories.v
Session.v
ScopedEnforcement.v
Ledger.v
Reservations.v
Fixtures.v
SessionLogic.v
Margins.v
Coverage.v
Growth.v
Concurrency.v
Admission.v
Settlement.v
Clamping.v
CeilingOrder.v
Moves.v
MovesProofs.v
RateWindows.v
RateStores.v
RateRules.v
RateAdmission.v
Idempotency.v
IdempotencySafety.v
IdempotencyOutcomes.v
Text.v
ModelAccess.v
Routing.v
RoutingPlans.v
AutomaticRouter.v
Attempts.v
AttemptsProofs.v
MeteredPricing.v
PricingBounds.v
UsagePricing.v
UsagePricingProofs.v
ToolPricing.v
PriceLookup.v
PriceLookupProofs.v
PriceWrites.v
PriceCache.v
UnitOfWork.v
Tenancy.v
TenancyRepositories.v
Organizations.v
Invitations.v
Workspaces.v
TransactionLogic.v
RosterInvariant.v
RosterSafety.v
TenancyFixtures.v
RosterProofs.v
Overlaps.v
RankProofs.v
WorkspacesProofs.v
CredentialsProofs.v
BlockLogic.v
RosterMoves.v
RosterRequests.v
Dependants.v
MemberPolicies.v
ContentShares.v
MemberKeys.v
DependantSteps.v
StepsKeep.v
DependantRequests.v
DeploymentProofs.v
ContentSharesProofs.v
SessionOwners.v
Streaming.v
ToolTally.v
StreamSettlement.v
LogWriters.v
LogWritersProofs.v
ToolLoop.v
ToolLoopProofs.v
ChatStream.v
