(* ===== verification/Prelude.v ===== *)
(** * A verification development for the gateway

    The program is a model gateway ([src/src/gateway/]): it authenticates a request, decides which models may
    serve it and in which order, holds its estimated cost against every budget that applies, calls a provider,
    and settles what the call cost.  Around it, organizations decide who belongs to them and what each may
    manage.  This library models the parts that decide, count, charge and admit; the theorems say that they
    cannot be raced, double-charged, bypassed or left holding money, nor an organization left without an owner.

    ** How a request passes through the parts

    - An idempotency key is claimed ([Idempotency]) and the rate limits count the request ([RateRules]).
    - The caller's allow-lists ([ModelAccess]) and the routing policy ([Routing]) make an ordered plan;
      the offerings of a catalogue are ordered by what this worker saw of them ([AutomaticRouter]).
    - Its price is looked up ([PriceLookup], [PriceCache]) and its estimate computed ([UsagePricing]).
    - The estimate is held on the user's budget and on every ceiling ([Reservations], [ScopedEnforcement]), and
      recorded in a ledger ([Ledger]) a timer sweeps.
    - The plan is walked until a candidate serves ([Attempts]); falling over to another provider moves the hold
      onto that provider's ceilings ([Moves]).
    - What was used is priced ([MeteredPricing], [UsagePricing], [ToolPricing]) and settles the hold.  A streamed
      response goes through one generator ([Streaming]), which calls back what settles its request as the stream
      ends ([StreamSettlement]); the tools the gateway ran meanwhile are counted in a tally ([ToolTally]).
    - A request that declares the gateway's tools is answered through a loop that runs them and asks the provider
      again ([ToolLoop]); of a streamed answer the client is sent what is its own ([ChatStream]).
    - The usage row of each attempt goes to a writer, which may queue it ([LogWriters]).
    - Beside the requests, the dashboard changes the roster: every service writes through a Unit of Work
      ([UnitOfWork]) over the tenancy tables ([Tenancy], [TenancyRepositories]), resolves the organization its
      caller acts in and checks their role ([Organizations], [Invitations], [Workspaces]), and tells the other
      domains through the [MembershipListener] interface, in the same transaction.

    ** The files and the code they model

    - This file: the result type, list and option lemmas, sums, automation.  [Text]: Python's string operations.
    - Budgets, [services/budgets/].  [Periods]: [_periods.py].  [Refusals]: [_refusals.py].  [Tables],
      [Repositories]: the rows and the guarded UPDATEs of [models/] and [repositories/budgets/].  [Session]:
      programs over a database session, each statement and commit of which may fail, a commit also after it
      landed.  [ScopedEnforcement], [Ledger], [Reservations], [Moves]: the files of those names.
      Proofs: [SessionLogic] (a weakest precondition with rely and guarantee over interleaved sessions),
      [Margins] (each statement in its terms), [Coverage], [Growth], [Concurrency] (every program, any
      interleaving), [Admission], [Settlement], [Clamping], [CeilingOrder], [MovesProofs] (functional behaviour).
      [Fixtures]: the deployment the witnesses run.
    - Rate limits, [rate_limit.py] and its store: [RateWindows], [RateStores], [RateRules];
      [RateAdmission].
    - Idempotency keys, [services/inference/_idempotency.py]: [Idempotency]; [IdempotencySafety],
      [IdempotencyOutcomes].
    - Access and routing: [ModelAccess] ([services/model_access.py], and the check of a key's lists as they are written,
      of [services/api_keys/_service.py]), [Routing] ([models/routing.py],
      [services/routing/]), [AutomaticRouter] ([services/routing/_automatic.py]), [Attempts] ([api/routes/_attempts.py]);
      [RoutingPlans], [AttemptsProofs].
    - Prices: [MeteredPricing] ([core/metered_pricing.py]), [UsagePricing] and [ToolPricing]
      ([services/pricing/]), [PriceLookup], [PriceWrites] and [PriceCache] ([services/pricing_service.py],
      [services/organization_pricing_service.py]); [PricingBounds], [UsagePricingProofs],
      [PriceLookupProofs].
    - Streams, [streaming.py]: [Streaming].  [ToolTally] ([services/tool_usage.py]).
      [StreamSettlement]: [record_usage] and the callbacks of [build_streaming_response] in
      [api/routes/_pipeline.py], as programs of [Session], and the streamed response they and [Streaming] make.
    - Tools: [ToolLoop] ([services/_tool_loop.py], of [services/mcp_loop.py] what a response that is not streamed goes
      through, [services/tools/_use_budget.py], [services/tools/_combined_backend.py]); [ToolLoopProofs].
      [ChatStream]: [observe] and the end of a streamed round, of [services/mcp_loop.py], and the loop of such rounds.
    - Usage rows: [LogWriters] ([services/log_writer.py], a machine whose steps are what may happen between two
      waits); [LogWritersProofs].
    - Units of work, [core/unit_of_work.py]: [UnitOfWork].  ([Moves] has its own block, over
      the sessions of the budgets.)
    - Tenancy: [Tenancy] ([models/tenancy.py], [services/tenancy/membership_listener.py]),
      [TenancyRepositories] ([repositories/tenancy/]), [Organizations] and [Invitations]
      ([services/tenancy/organization_service.py], the join by domain of [organization_domain_service.py] and
      the sign-in of [services/identity/_service.py]), [Workspaces] ([authorization.py],
      [workspace_service.py]).  Proofs: [TransactionLogic] (a program logic whose assertions hold of the
      transaction and whose invariant holds at every commit, and each statement in its terms),
      [RosterInvariant], [RosterSafety] (the invariant of a roster, through every request),
      [RosterProofs], [Overlaps] (membership changes that interleave), [RankProofs], [CredentialsProofs],
      [WorkspacesProofs].  [TenancyFixtures]: the organizations the witnesses run.
    - What other domains keep for members.  [Dependants]: their rows, the four listeners of
      [services/budgets/_member_policies.py], [services/api_keys/_membership.py],
      [services/traces/_membership.py] and [services/tools/_mcp_grant_membership.py], and their composition, an
      instance of [MembershipListener].  [MemberPolicies] (the policies of the first of those files),
      [MemberKeys] ([api/routes/organization_keys.py] with [services/api_keys/]), [ContentShares] and
      [SessionOwners] ([services/traces/_service.py], [api/deps.py]).
      Proofs: [BlockLogic] (a program logic that knows whether a block is open); [RosterMoves] (the committed
      changes of a roster as a relation, with what the listener is told), [RosterRequests] (each request is a run
      of moves, for any listener); [DependantSteps] (the steps of a whole deployment), [StepsKeep] (what a step
      keeps), [DependantRequests] (each request is a run of steps), [DeploymentProofs] (any sequence of them),
      [ContentSharesProofs].

    ** What the theorems show

    - Concurrency safety of holds: whatever requests, retried settlements and sweeps interleave and whatever
      fails, a counter holds at least what the live ledger rows record ([Concurrency]); a settlement counts
      once, a refund gives back once ([Settlement]); a move is all or nothing ([MovesProofs]).
    - Admission: the guarded UPDATEs admit exactly within the caps, all ceilings or none, in one order
      ([Admission], [CeilingOrder]); the rate limits count all or nothing ([RateAdmission]).
    - Refinement: the pruned window log answers as its full history, the in-process store as one that never
      forgets, an admission's statements as one look at the row ([RateWindows], [RateStores],
      [IdempotencyOutcomes]).
    - Liveness and termination: an abandoned key comes back after one lease; a sweep expires the longest
      overdue rows and gives every counter back what they recorded on it ([IdempotencyOutcomes], [Clamping]).
    - Access: a key narrows its user as its lists are written, not a user narrowed later ([ModelAccess]); a plan accounts
      for each candidate of its policy, with a place or with what keeps it from one ([RoutingPlans]); a walk takes them in
      order, serves once and gives back every admission, and a refusal moves it on even after lock-in
      ([AttemptsProofs]); an automatic ranking prefers what it says and counts every outstanding call ([AutomaticRouter]).
    - Streams: a stream loses, repeats and reorders nothing, and calls one settling callback however it ends
      ([Streaming]); its request's hold is ended exactly once and its end billed for, and a database fault as a
      completed stream settles does not leave the hold ([StreamSettlement]); no tool call is lost or billed twice ([ToolTally]).
    - Tools: the loop answers within its rounds, every request tells the provider exactly the calls it made before and
      one answer to each, no cap on calls is passed, and no round's usage is forgotten where the last reports one
      ([ToolLoopProofs]); a client reads the rounds of a stream as one answer, and puts together from it exactly its
      own calls, where each round's stream is one that can be followed ([ChatStream]).
    - Usage rows: a batch writer writes each row at most once, in order, and leaves none uncounted, and a stop returns
      ([LogWritersProofs]).
    - Transactions: a block is one transaction however blocks and savepoints nest in it ([UnitOfWork]).
    - Membership: whatever is asked, refused or lost at a commit, an organization with members keeps an active
      owner and a pending link stands on a membership that waits ([RosterProofs]); removals that overlap keep
      one too, unless somebody is made an owner between one's reads and its writes ([Overlaps]); a manager who
      is no owner touches no owner ([RankProofs]); only a link claims an account, one nobody used
      ([CredentialsProofs]); the rules of what a caller sees, opens and manages agree ([WorkspacesProofs]).
    - Memberships and what hangs on them: every request is a run of membership moves, each committed together
      with what the listeners write of it; so after any requests a personal key that may authenticate belongs
      to an active member, a running share to somebody who still sees its workspace, and every active member is
      capped under every policy ([DeploymentProofs]).  A session opens only to whom it should, on record
      ([ContentSharesProofs]), and the batched question who sees a workspace has the single one's answers
      ([SessionOwners]).
    - Money: a settled amount is explained token by token, as is what it passes its hold by, and a rate that is admitted is one
      that settles ([PricingBounds], [UsagePricingProofs]); tool charges add up ([ToolPricing]); every
      statement of the lookup order agrees, no organization prices what the deployment pays for, and a cached
      rate is recent ([PriceLookupProofs], [PriceWrites], [PriceCache]).

    ** Conventions

    An amount of money is an integer of micro-dollars where it is stored, a rational before it is rounded; an
    instant is an integer.  A database statement is a function of the tables it reads; what runs between two
    statements of one session is any number of steps of the others.  A query's row order that the code does not
    ask for is the table's.  What a part reads from another that is not modelled is an argument; a provider or a
    tool answers as a function of what the run has done.

    The requests of the tenancy services run one after another, each at one reading of the clock; a row lock is
    then no statement.  [Overlaps] lets the read before the lock and the write after it be apart.  A constraint
    the database checks is a refusal of the write.  The services are those a request builds, with a listener
    and a Unit of Work.

    Fuel: the sweeps are given the batches they may run, enough when the rows they would delete are fewer than
    the batches' rows ([Idempotency.sweep_loop], [Ledger]); the digits of an amount are grouped with as much fuel
    as there are digits ([Refusals]); the pages of a workspace's members with one turn more than there are
    members, each page having one ([MemberPolicies]); a drained queue is cut into chunks with as much fuel as it has rows,
    each chunk taking one ([LogWriters]); the tool loop counts its rounds down.  Every other recursion is structural.

    ** What is not modelled

    The FastAPI handlers and the rest of the pipeline around these parts: a request the deployment pays for, whose
    organization's funds are charged beside its hold, and the hold for a stream's first chunk among them; translation
    between the providers' wire formats; what proves who signs in (passwords, passkeys, identity providers, sessions)
    and the accounts' own administration; the tools themselves, MCP servers and code execution; guardrails; usage
    reports and the recording of traces; storage, mail, configuration and migrations: input and output, or mappings
    of documents.  Of the modelled parts: the Redis store of the rate limits, the weighted router, the resolution of
    a selector by the configuration, the administration of budgets, the tool loop of the messages and responses formats, the chunks that report a stream's calls, and the reader of the published price catalogue;
    of tenancy, renames, listings, mail, the provisioning of a signup and domain claims; of keys, the operator's routes
    (an operator may switch a key on whatever its owner's place), federation rules, display columns and the
    signal of a first key; of a session, its spans' sealed content. *)
From stdpp Require Import gmap strings list fin_maps.
From Stdlib Require Import ZArith Lia.

Declare Scope otari_scope.
Delimit Scope otari_scope with otari.
Open Scope Z_scope.

(** ** Results of fallible code *)

Inductive result (E A : Type) : Type :=
| Ok (a : A)
| Err (e : E).
Arguments Ok {E A} a.
Arguments Err {E A} e.

Definition result_bind {E A B} (r : result E A) (f : A -> result E B) : result E B :=
  match r with
  | Ok a => f a
  | Err e => Err e
  end.

Notation "'let?' x ':=' r 'in' k" := (result_bind r (fun x => k))
  (at level 10, x pattern, r at level 100, k at level 200) : otari_scope.

(** ** Automation *)

(** Split every [if]/[match] whose scrutinee is not itself a match. *)
Ltac split_match :=
  match goal with
  | |- context [match ?x with _ => _ end] =>
      lazymatch x with
      | context [match _ with _ => _ end] => fail
      | _ => let E := fresh "E" in destruct x eqn:E; simplify_eq/=
      end
  end.

Ltac split_match_in H :=
  match type of H with
  | context [match ?x with _ => _ end] =>
      lazymatch x with
      | context [match _ with _ => _ end] => fail
      | _ => let E := fresh "E" in destruct x eqn:E; simplify_eq/=
      end
  end.

Ltac split_matches := repeat split_match.
Ltac split_matches_in H := repeat (split_match_in H).

(** Turn boolean tests of the code into the propositions they decide. *)
Ltac reflect_bools :=
  repeat match goal with
  | H : (_ && _)%bool = true |- _ => apply andb_prop in H; destruct H
  | H : (_ || _)%bool = false |- _ => apply orb_false_elim in H; destruct H
  | H : negb _ = true |- _ => apply negb_true_iff in H
  | H : negb _ = false |- _ => apply negb_false_iff in H
  | H : (_ <=? _)%Z = true |- _ => apply Z.leb_le in H
  | H : (_ <=? _)%Z = false |- _ => apply Z.leb_gt in H
  | H : (_ <? _)%Z = true |- _ => apply Z.ltb_lt in H
  | H : (_ <? _)%Z = false |- _ => apply Z.ltb_ge in H
  | H : (_ =? _)%Z = true |- _ => apply Z.eqb_eq in H
  | H : (_ =? _)%Z = false |- _ => apply Z.eqb_neq in H
  | H : bool_decide _ = true |- _ => apply bool_decide_eq_true in H
  | H : bool_decide _ = false |- _ => apply bool_decide_eq_false in H
  end.

(** Case analysis on an or-ed boolean, the dual that [reflect_bools] leaves. *)
Lemma orb_true_cases (a b : bool) : (a || b)%bool = true -> a = true \/ b = true.
Proof. destruct a; auto. Qed.

Lemma andb_false_cases (a b : bool) : (a && b)%bool = false -> a = false \/ b = false.
Proof. destruct a; auto. Qed.

Definition is_set {A} (o : option A) : bool := match o with Some _ => true | None => false end.

(** ** Sums over lists *)

Definition sumZ {A} (f : A -> Z) (l : list A) : Z :=
  foldr (fun x acc => f x + acc) 0 l.

Lemma sumZ_nil {A} (f : A -> Z) : sumZ f [] = 0.
Proof. reflexivity. Qed.

Lemma sumZ_cons {A} (f : A -> Z) x l : sumZ f (x :: l) = f x + sumZ f l.
Proof. reflexivity. Qed.

Lemma sumZ_app {A} (f : A -> Z) l1 l2 : sumZ f (l1 ++ l2) = sumZ f l1 + sumZ f l2.
Proof. induction l1 as [|x l1 IH]; simpl; [done|]. rewrite IH. lia. Qed.

Lemma sumZ_nonneg {A} (f : A -> Z) l : (forall x, x ∈ l -> 0 <= f x) -> 0 <= sumZ f l.
Proof.
  induction l as [|x l IH]; intros H; simpl; [lia|].
  pose proof (H x ltac:(left)).
  assert (0 <= sumZ f l) by (apply IH; intros y Hy; apply H; by right). lia.
Qed.

Lemma sumZ_ext {A} (f g : A -> Z) l : (forall x, x ∈ l -> f x = g x) -> sumZ f l = sumZ g l.
Proof.
  induction l as [|x l IH]; intros H; simpl; [done|].
  rewrite (H x) by left. rewrite IH; [done|]. intros y Hy; apply H; by right.
Qed.

Lemma sumZ_le {A} (f g : A -> Z) l : (forall x, x ∈ l -> f x <= g x) -> sumZ f l <= sumZ g l.
Proof.
  induction l as [|x l IH]; intros H; simpl; [lia|].
  pose proof (H x ltac:(left)).
  assert (sumZ f l <= sumZ g l) by (apply IH; intros y Hy; apply H; by right). lia.
Qed.

Lemma sumZ_perm {A} (f : A -> Z) l1 l2 : l1 ≡ₚ l2 -> sumZ f l1 = sumZ f l2.
Proof. induction 1; simpl; lia. Qed.

Lemma sumZ_elem_le {A} (f : A -> Z) l x :
  x ∈ l -> (forall y, y ∈ l -> 0 <= f y) -> f x <= sumZ f l.
Proof.
  intros Hx Hn. apply list_elem_of_split in Hx as (l1 & l2 & ->).
  rewrite sumZ_app, sumZ_cons.
  assert (0 <= sumZ f l1) by (apply sumZ_nonneg; intros; apply Hn; set_solver).
  assert (0 <= sumZ f l2) by (apply sumZ_nonneg; intros; apply Hn; set_solver).
  lia.
Qed.

(** ** Sums over finite maps *)

Section msum.
Context {K V : Type} `{Countable K}.
Implicit Types (m : gmap K V) (f g : K -> V -> Z).

Definition msum f m : Z := map_fold (fun k v acc => f k v + acc) 0 m.

Lemma msum_empty f : msum f ∅ = 0.
Proof. apply map_fold_empty. Qed.

Lemma msum_insert f m k v : m !! k = None -> msum f (<[k := v]> m) = f k v + msum f m.
Proof. intros Hk. unfold msum. rewrite (map_fold_insert_L (fun k v acc => f k v + acc)); [done|intros; lia|done]. Qed.

Lemma msum_delete f m k v : m !! k = Some v -> msum f m = f k v + msum f (delete k m).
Proof.
  intros Hk. rewrite <- (insert_delete_id m k v Hk) at 1.
  apply msum_insert, lookup_delete_eq.
Qed.

Lemma msum_update f m k v w :
  m !! k = Some v -> msum f (<[k := w]> m) = msum f m - f k v + f k w.
Proof.
  intros Hk. rewrite (msum_delete f m k v Hk).
  rewrite <- insert_delete_eq, msum_insert by apply lookup_delete_eq. lia.
Qed.

Lemma msum_ext f g m : (forall k v, m !! k = Some v -> f k v = g k v) -> msum f m = msum g m.
Proof.
  induction m as [|k v m Hk IH] using map_ind; intros Hfg.
  - by rewrite !msum_empty.
  - rewrite !msum_insert by done. rewrite (Hfg k v) by apply lookup_insert_eq.
    rewrite IH; [done|]. intros k' v' Hk'. apply Hfg.
    rewrite lookup_insert_ne; [done|]. intros ->. congruence.
Qed.

Lemma msum_nonneg f m : (forall k v, m !! k = Some v -> 0 <= f k v) -> 0 <= msum f m.
Proof.
  induction m as [|k v m Hk IH] using map_ind; intros Hf.
  - by rewrite msum_empty.
  - rewrite msum_insert by done.
    assert (0 <= f k v) by (apply Hf, lookup_insert_eq).
    assert (0 <= msum f m); [|lia].
    apply IH. intros k' v' Hk'. apply Hf. rewrite lookup_insert_ne; [done|congruence].
Qed.

Lemma msum_lookup_le f m k v :
  m !! k = Some v -> (forall k v, m !! k = Some v -> 0 <= f k v) -> f k v <= msum f m.
Proof.
  intros Hk Hf. rewrite (msum_delete f m k v Hk).
  assert (0 <= msum f (delete k m)); [|lia].
  apply msum_nonneg. intros k' v' [_ Hk']%lookup_delete_Some. by apply Hf.
Qed.

End msum.

(** ** Lists *)

(** Keep the first occurrence of each element, as [dict.fromkeys] does. *)
Fixpoint dedup {A} `{EqDecision A} (seen l : list A) : list A :=
  match l with
  | [] => []
  | x :: l' => if bool_decide (x ∈ seen) then dedup seen l' else x :: dedup (x :: seen) l'
  end.

Lemma dedup_elem {A} `{EqDecision A} (seen l : list A) x :
  x ∈ dedup seen l <-> x ∈ l /\ x ∉ seen.
Proof.
  revert seen. induction l as [|y l IH]; intros seen; simpl.
  { rewrite elem_of_nil. tauto. }
  case_bool_decide as Hy; rewrite ?elem_of_cons, IH, ?not_elem_of_cons;
    destruct (decide (x = y)) as [->|]; tauto.
Qed.

Lemma dedup_nodup {A} `{EqDecision A} (seen l : list A) : NoDup (dedup seen l).
Proof.
  revert seen. induction l as [|y l IH]; intros seen; simpl; [constructor|].
  case_bool_decide; [done|]. constructor; [|done].
  rewrite dedup_elem, not_elem_of_cons. tauto.
Qed.

Create HintDb otari.
#[export] Hint Resolve sumZ_nonneg msum_nonneg : otari.
Create Rewrite HintDb otari.
#[export] Hint Rewrite @sumZ_nil @sumZ_cons @sumZ_app : otari.
