(* ===== verification/Periods.v ===== *)
(** How a budget's reset cadence becomes a window
    ([src/src/gateway/services/budgets/_periods.py]).

    An instant is a [Z] of microseconds since 0001-01-01T00:00:00 UTC, the
    origin of Python's [datetime]; the calendar part models the [datetime]
    fields the code reads ([weekday], [replace(day=1)], [replace(month=...)])
    with the proleptic Gregorian calendar of the standard library. *)
From S2P Require Import Prelude.
From stdpp Require Import strings list.
From Stdlib Require Import ZArith Lia.
Open Scope Z_scope.

(** ** The calendar *)

Definition SECOND : Z := 1000000.
Definition DAY : Z := 86400 * SECOND.

Definition is_leap (y : Z) : bool :=
  (y mod 4 =? 0) && (negb (y mod 100 =? 0) || (y mod 400 =? 0)).

Definition leap_day (y : Z) : Z := if is_leap y then 1 else 0.

(** Days before January 1st of year [y]. *)
Definition days_before_year (y : Z) : Z :=
  let p := y - 1 in p * 365 + p / 4 - p / 100 + p / 400.

(** Days in year [y] before the first of month [m]. *)
Definition days_before_month (y m : Z) : Z :=
  let l := leap_day y in
  if m <=? 1 then 0 else if m <=? 2 then 31 else if m <=? 3 then 59 + l
  else if m <=? 4 then 90 + l else if m <=? 5 then 120 + l else if m <=? 6 then 151 + l
  else if m <=? 7 then 181 + l else if m <=? 8 then 212 + l else if m <=? 9 then 243 + l
  else if m <=? 10 then 273 + l else if m <=? 11 then 304 + l else 334 + l.

Definition ymd2ord (y m d : Z) : Z := days_before_year y + days_before_month y m + d.

Definition ordinal (t : Z) : Z := t / DAY + 1.
Definition midnight (n : Z) : Z := (n - 1) * DAY.

(** The year an ordinal falls in: an estimate at the mean Gregorian year, off by at most one. *)
Definition year_of (n : Z) : Z :=
  let g := (n - 1) * 400 / 146097 + 1 in
  if n <=? days_before_year g then g - 1
  else if n <=? days_before_year (g + 1) then g else g + 1.

Definition month_of (n : Z) : Z :=
  let y := year_of n in
  let d := n - days_before_year y in
  let l := leap_day y in
  if d <=? 31 then 1 else if d <=? 59 + l then 2 else if d <=? 90 + l then 3
  else if d <=? 120 + l then 4 else if d <=? 151 + l then 5 else if d <=? 181 + l then 6
  else if d <=? 212 + l then 7 else if d <=? 243 + l then 8 else if d <=? 273 + l then 9
  else if d <=? 304 + l then 10 else if d <=? 334 + l then 11 else 12.

(** Monday is 0, as [datetime.weekday] counts. *)
Definition weekday (n : Z) : Z := (n + 6) mod 7.

(** ** Windows *)

Definition ALIGN_DAY : string := "calendar_day".
Definition ALIGN_WEEK : string := "calendar_week".
Definition ALIGN_MONTH : string := "calendar_month".

(** The one error of the module: an alignment this code does not know. *)
Inductive period_error : Type := UnknownAlignment (alignment : string).

Definition aligned_window (alignment : string) (now : Z) : result period_error (Z * Z) :=
  let day := midnight (ordinal now) in
  if decide (alignment = ALIGN_DAY) then Ok (day, day + DAY)
  else if decide (alignment = ALIGN_WEEK) then
    let start := day - weekday (ordinal now) * DAY in Ok (start, start + 7 * DAY)
  else if decide (alignment = ALIGN_MONTH) then
    let y := year_of (ordinal now) in
    let m := month_of (ordinal now) in
    let start := midnight (ymd2ord y m 1) in
    let end_ := if m =? 12 then midnight (ymd2ord (y + 1) 1 1) else midnight (ymd2ord y (m + 1) 1) in
    Ok (start, end_)
  else Err (UnknownAlignment alignment).

Definition period_window (now : Z) (duration : option Z) (alignment : option string)
  : result period_error (option (Z * Z)) :=
  match alignment with
  | Some a =>
      match aligned_window a now with
      | Ok w => Ok (Some w)
      | Err e => Err e
      end
  | None =>
      match duration with
      | Some d => if d =? 0 then Ok None else Ok (Some (now, now + d * SECOND))
      | None => Ok None
      end
  end.

Definition rolled_window (now : Z) (duration : option Z) (alignment : option string)
  : result period_error (Z * option Z) :=
  match period_window now duration alignment with
  | Ok (Some (s, e)) => Ok (s, Some e)
  | Ok None => Ok (now, None)
  | Err e => Err e
  end.

Definition period_has_ended (period_end : option Z) (now : Z) : bool :=
  match period_end with
  | Some e => e <=? now
  | None => false
  end.

Definition effective_period (period_end : option Z) (now : Z) (duration : option Z)
    (alignment : option string) : result period_error (option (Z * option Z)) :=
  if negb (period_has_ended period_end now) then Ok None
  else match rolled_window now duration alignment with
       | Ok w => Ok (Some w)
       | Err e => Err e
       end.

(** [math.ceil((end - now).total_seconds())], never less than one. *)
Definition seconds_until (end_ now : Z) : Z := Z.max (- ((now - end_) / SECOND)) 1.

Definition MAX_BUDGET_DURATION_SEC : Z := 10 * 365 * 24 * 3600.

(** ** Calendar lemmas *)

Lemma days_before_year_succ y : days_before_year (y + 1) = days_before_year y + 365 + leap_day y.
Proof.
  unfold days_before_year, leap_day, is_leap.
  destruct (y mod 4 =? 0) eqn:E4, (y mod 100 =? 0) eqn:E100, (y mod 400 =? 0) eqn:E400;
    simpl; reflect_bools; Z.to_euclidean_division_equations; lia.
Qed.

Lemma leap_day_bounds y : 0 <= leap_day y <= 1.
Proof. unfold leap_day. destruct (is_leap y); lia. Qed.

Lemma days_before_year_mono y1 y2 : y1 < y2 -> days_before_year y1 < days_before_year y2.
Proof. unfold days_before_year. intros. Z.to_euclidean_division_equations. lia. Qed.

Lemma year_of_spec n : days_before_year (year_of n) < n <= days_before_year (year_of n + 1).
Proof.
  unfold year_of. set (g := (n - 1) * 400 / 146097 + 1).
  assert (Hlo : days_before_year (g - 1) < n).
  { unfold days_before_year, g. Z.to_euclidean_division_equations. lia. }
  assert (Hhi : n <= days_before_year (g + 2)).
  { unfold days_before_year, g. Z.to_euclidean_division_equations. lia. }
  destruct (n <=? days_before_year g) eqn:E1; reflect_bools.
  - replace (g - 1 + 1) with g by lia. lia.
  - destruct (n <=? days_before_year (g + 1)) eqn:E2; reflect_bools; [lia|].
    replace (g + 1 + 1) with (g + 2) by lia. lia.
Qed.

Lemma year_of_unique n y :
  days_before_year y < n <= days_before_year (y + 1) -> year_of n = y.
Proof.
  intros Hy. pose proof (year_of_spec n) as Hs.
  destruct (Z.lt_trichotomy (year_of n) y) as [Hlt|[->|Hgt]]; [|done|].
  - assert (days_before_year (year_of n + 1) <= days_before_year y); [|lia].
    destruct (Z.eq_dec (year_of n + 1) y) as [->|]; [lia|].
    apply Z.lt_le_incl, days_before_year_mono. lia.
  - assert (days_before_year (y + 1) <= days_before_year (year_of n)); [|lia].
    destruct (Z.eq_dec (year_of n) (y + 1)) as [->|]; [lia|].
    apply Z.lt_le_incl, days_before_year_mono. lia.
Qed.

(** The first ordinal of the month after month [m] of year [y]. *)
Definition month_end (y m : Z) : Z :=
  if m =? 12 then ymd2ord (y + 1) 1 1 else ymd2ord y (m + 1) 1.

Ltac split_tests :=
  repeat match goal with
  | |- context [if ?b then _ else _] => destruct b eqn:?
  | H : context [if ?b then _ else _] |- _ => destruct b eqn:?
  end.

Lemma month_of_range n : 1 <= month_of n <= 12.
Proof. unfold month_of. cbv zeta. split_tests; lia. Qed.

Lemma month_of_spec n :
  ymd2ord (year_of n) (month_of n) 1 <= n < month_end (year_of n) (month_of n).
Proof.
  pose proof (year_of_spec n) as Hy. pose proof (days_before_year_succ (year_of n)) as Hs.
  unfold month_end, ymd2ord, days_before_month, month_of in *. cbv zeta in *.
  pose proof (leap_day_bounds (year_of n)).
  split_tests; reflect_bools; simpl in *; lia.
Qed.

Lemma month_unique n y m :
  1 <= m <= 12 -> ymd2ord y m 1 <= n < month_end y m -> year_of n = y /\ month_of n = m.
Proof.
  intros Hm Hn. pose proof (days_before_year_succ y) as Hs.
  assert (Hy : year_of n = y).
  { apply year_of_unique. unfold month_end, ymd2ord, days_before_month in Hn. cbv zeta in Hn.
    pose proof (leap_day_bounds y). split_tests; reflect_bools; simpl in *; lia. }
  split; [done|]. unfold month_of. rewrite Hy. cbv zeta.
  unfold month_end, ymd2ord, days_before_month in Hn. cbv zeta in Hn.
  assert (m = 1 \/ m = 2 \/ m = 3 \/ m = 4 \/ m = 5 \/ m = 6 \/ m = 7 \/ m = 8 \/ m = 9
          \/ m = 10 \/ m = 11 \/ m = 12) as Hcases by lia.
  pose proof (leap_day_bounds y).
  destruct Hcases as [->|[->|[->|[->|[->|[->|[->|[->|[->|[->|[->| ->]]]]]]]]]]];
    simpl in Hn; split_tests; reflect_bools; lia.
Qed.

Lemma ordinal_bounds t n : ordinal t = n <-> midnight n <= t < midnight (n + 1).
Proof.
  unfold ordinal, midnight, DAY, SECOND. split; intros H; Z.to_euclidean_division_equations; lia.
Qed.

Lemma ordinal_range t a b : midnight a <= t < midnight b <-> a <= ordinal t < b.
Proof.
  unfold ordinal, midnight, DAY, SECOND. split; intros H; Z.to_euclidean_division_equations; lia.
Qed.

Lemma midnight_add n k : midnight (n + k) = midnight n + k * DAY.
Proof. unfold midnight. lia. Qed.

(** The window of each known alignment as a range of ordinals. *)
Definition window_days (alignment : string) (n : Z) : option (Z * Z) :=
  if decide (alignment = ALIGN_DAY) then Some (n, n + 1)
  else if decide (alignment = ALIGN_WEEK) then Some (n - weekday n, n - weekday n + 7)
  else if decide (alignment = ALIGN_MONTH)
  then Some (ymd2ord (year_of n) (month_of n) 1, month_end (year_of n) (month_of n))
  else None.

Lemma aligned_window_days a t :
  aligned_window a t =
    match window_days a (ordinal t) with
    | Some (lo, hi) => Ok (midnight lo, midnight hi)
    | None => Err (UnknownAlignment a)
    end.
Proof.
  unfold aligned_window, window_days, month_end. repeat case_decide; try done.
  - by rewrite midnight_add, Z.mul_1_l.
  - cbv zeta. replace (ordinal t - weekday (ordinal t)) with (ordinal t + - weekday (ordinal t)) by lia.
    rewrite !midnight_add. do 2 f_equal; lia.
  - cbv zeta. by destruct (_ =? 12).
Qed.

Lemma window_days_contains a n lo hi : window_days a n = Some (lo, hi) -> lo <= n < hi.
Proof.
  unfold window_days. repeat case_decide; intros; simplify_eq.
  - lia.
  - unfold weekday. pose proof (Z.mod_pos_bound (n + 6) 7). lia.
  - apply month_of_spec.
Qed.

Lemma window_days_stable a n n' lo hi :
  window_days a n = Some (lo, hi) -> lo <= n' < hi -> window_days a n' = Some (lo, hi).
Proof.
  intros Hw Hn. revert Hw. unfold window_days. repeat case_decide; intros; simplify_eq.
  - repeat f_equal; lia.
  - assert (n - weekday n = n' - weekday n') as ->; [|done].
    unfold weekday in *. Z.to_euclidean_division_equations. lia.
  - destruct (month_unique n' (year_of n) (month_of n)) as [-> ->]; auto using month_of_range.
Qed.

Lemma aligned_window_contains a now s e : aligned_window a now = Ok (s, e) -> s <= now < e.
Proof.
  rewrite aligned_window_days. destruct (window_days a (ordinal now)) as [[lo hi]|] eqn:E; [|done].
  intros H; simplify_eq. apply ordinal_range. by apply window_days_contains with a.
Qed.

(** ** Properties *)

(** a calendar window contains the instant it was derived from, it is not
    empty, and every instant inside it derives that same window. *)
Theorem aligned_window_partition a now s e :
  aligned_window a now = Ok (s, e) ->
  s <= now < e /\ (forall t, s <= t < e -> aligned_window a t = Ok (s, e)).
Proof.
  intros H. split; [by apply aligned_window_contains with a|].
  revert H. rewrite aligned_window_days.
  destruct (window_days a (ordinal now)) as [[lo hi]|] eqn:E; [|done].
  intros H; simplify_eq.
  - intros t Ht%ordinal_range. rewrite aligned_window_days.
    by rewrite (window_days_stable _ _ _ _ _ E Ht).
Qed.

Lemma aligned_window_partition_witness :
  aligned_window ALIGN_MONTH (midnight (ymd2ord 2024 2 29)) =
    Ok (midnight (ymd2ord 2024 2 1), midnight (ymd2ord 2024 3 1))
  /\ aligned_window ALIGN_MONTH (midnight (ymd2ord 2024 2 10)) =
    Ok (midnight (ymd2ord 2024 2 1), midnight (ymd2ord 2024 3 1)).
Proof.
  split; [vm_compute; reflexivity|].
  apply (proj2 (aligned_window_partition ALIGN_MONTH (midnight (ymd2ord 2024 2 29)) _ _
    ltac:(vm_compute; reflexivity))).
  vm_compute. split; congruence.
Defined.

(** Calendar windows tile time: the instant a window ends is the instant the next one starts. *)
Theorem aligned_window_tiles a now s e :
  aligned_window a now = Ok (s, e) -> exists e', aligned_window a e = Ok (e, e').
Proof.
  rewrite !aligned_window_days. destruct (window_days a (ordinal now)) as [[lo hi]|] eqn:E; [|done].
  intros H; simplify_eq.
  assert (ordinal (midnight hi) = hi) as ->.
  { apply ordinal_bounds. rewrite midnight_add. unfold DAY, SECOND. lia. }
  destruct (window_days a hi) as [[lo' hi']|] eqn:E'.
  2: { exfalso. revert E E'. unfold window_days. repeat case_decide; congruence. }
  pose proof (window_days_contains _ _ _ _ E'). pose proof (window_days_contains _ _ _ _ E).
  exists (midnight hi'). destruct (decide (lo' = hi)) as [->|]; [done|].
  assert (window_days a (hi - 1) = Some (lo, hi)) by (apply (window_days_stable _ _ _ _ _ E); lia).
  assert (window_days a (hi - 1) = Some (lo', hi')) by (apply (window_days_stable _ _ _ _ _ E'); lia).
  simplify_eq. lia.
Qed.

Lemma aligned_window_tiles_witness :
  exists e', aligned_window ALIGN_WEEK (midnight (ymd2ord 2024 1 1)) =
               Ok (midnight (ymd2ord 2024 1 1), midnight (ymd2ord 2024 1 8))
             /\ aligned_window ALIGN_WEEK (midnight (ymd2ord 2024 1 8)) =
               Ok (midnight (ymd2ord 2024 1 8), e').
Proof.
  destruct (aligned_window_tiles ALIGN_WEEK (midnight (ymd2ord 2024 1 4))
    (midnight (ymd2ord 2024 1 1)) (midnight (ymd2ord 2024 1 8)) ltac:(vm_compute; reflexivity)) as [e' He'].
  exists e'. split; [vm_compute; reflexivity|exact He'].
Defined.

(** A window a rolling cadence derives contains [now] for a positive duration, whatever the cadence. *)
Lemma period_window_contains now duration alignment s e :
  match duration with Some d => 0 <= d | None => True end ->
  period_window now duration alignment = Ok (Some (s, e)) -> s <= now < e.
Proof.
  unfold period_window. intros Hd. destruct alignment as [a|].
  - destruct (aligned_window a now) as [[s' e']|] eqn:E; [|done]. intros; simplify_eq.
    by apply aligned_window_contains in E.
  - destruct duration as [d|]; [|done]. destruct (d =? 0) eqn:E0; [done|]. intros; simplify_eq.
    reflect_bools. unfold SECOND. lia.
Qed.

(** A stored period that ran out is replaced by one that has not ended: after a roll at
    [now] the gate never finds the window ended again at that instant, and a
    period still running (or one that never ends) is left as it is. *)
Theorem effective_period_not_ended period_end now duration alignment w :
  match duration with Some d => 0 <= d | None => True end ->
  effective_period period_end now duration alignment = Ok w ->
  match w with
  | Some (s, e) => period_has_ended period_end now = true /\ s <= now /\ period_has_ended e now = false
  | None => period_has_ended period_end now = false
  end.
Proof.
  intros Hd. unfold effective_period, rolled_window.
  destruct (period_has_ended period_end now) eqn:Ee; simpl; [|by intros; simplify_eq].
  destruct (period_window now duration alignment) as [[[s e]|]|] eqn:E; intros; simplify_eq.
  - apply period_window_contains in E; [|done]. simpl. rewrite Z.leb_gt. lia.
  - simpl. lia.
Qed.

Lemma effective_period_not_ended_witness :
  effective_period (Some 5) (midnight (ymd2ord 2025 12 31)) None (Some ALIGN_MONTH) =
    Ok (Some (midnight (ymd2ord 2025 12 1), Some (midnight (ymd2ord 2026 1 1))))
  /\ period_has_ended (Some (midnight (ymd2ord 2026 1 1))) (midnight (ymd2ord 2025 12 31)) = false.
Proof.
  split; [vm_compute; reflexivity|].
  apply (effective_period_not_ended (Some 5) (midnight (ymd2ord 2025 12 31)) None (Some ALIGN_MONTH)
    (Some (midnight (ymd2ord 2025 12 1), Some (midnight (ymd2ord 2026 1 1)))) I ltac:(vm_compute; reflexivity)).
Defined.

(** Waiting [seconds_until] whole seconds reaches the end of the window and, when it
    is more than the one-second minimum, no shorter wait does. *)
Lemma seconds_until_spec end_ now :
  1 <= seconds_until end_ now
  /\ end_ <= now + seconds_until end_ now * SECOND
  /\ (1 < seconds_until end_ now -> now + (seconds_until end_ now - 1) * SECOND < end_).
Proof. unfold seconds_until, SECOND. Z.to_euclidean_division_equations. lia. Qed.
