(* ===== verification/Refusals.v ===== *)
(** What a budget refusal says, for the per-user budget and every scoped ceiling alike
    ([src/src/gateway/services/budgets/_refusals.py]).

    Dollar amounts are integers of micro-dollars, the scale of every [UsdCost]
    column and of every estimate [quantize_cost] returns; token and request
    amounts are plain integers.  [Decimal(str(x))] on either is then the
    identity, and so is quantizing to [_MICRO_DOLLAR] in either direction. *)
From S2P Require Import Prelude Periods.
From stdpp Require Import strings list pretty.
From Stdlib Require Import ZArith Lia Ascii.
Open Scope Z_scope.

(** ** The refused axis *)

Record BlockedAxis := mkBlockedAxis {
  name : string;
  remaining : option Z;
  held : option Z;
  exceeds_cap : bool;
  resets_at : option Z
}.

Definition blocked (n : string) : BlockedAxis := mkBlockedAxis n None None false None.

Definition with_resets_at (b : BlockedAxis) (at_ : option Z) : BlockedAxis :=
  mkBlockedAxis (name b) (remaining b) (held b) (exceeds_cap b) at_.

Definition retry_after (b : BlockedAxis) (now : Z) : option Z :=
  match resets_at b with
  | None => None
  | Some at_ => if exceeds_cap b then None else Some (seconds_until at_ now)
  end.

Definition blocked_on (n : string) (committed cap wanted : Z) (new_request : bool)
  : option BlockedAxis :=
  let exceeds := cap <? wanted in
  if cap <? committed + wanted then
    if bool_decide (n = "budget"%string) && (committed <? cap)
    then Some (mkBlockedAxis n (Some (cap - committed)) (Some wanted) exceeds None)
    else Some (mkBlockedAxis n None None exceeds None)
  else if new_request && (cap <=? committed) then Some (mkBlockedAxis n None None exceeds None)
  else None.

(** The first capped axis that refuses, in the order the gates are built. *)
Fixpoint first_blocked (axes : list (string * option Z * Z * Z)) (new_request : bool)
  : option BlockedAxis :=
  match axes with
  | [] => None
  | (n, cap, committed, wanted) :: rest =>
      match cap with
      | None => first_blocked rest new_request
      | Some c =>
          match blocked_on n committed c wanted new_request with
          | Some b => Some b
          | None => first_blocked rest new_request
          end
      end
  end.

(** ** Its text *)

Definition digit (d : Z) : ascii := ascii_of_nat (Z.to_nat (48 + d)).

(** The six fraction digits of a micro-dollar amount. *)
Definition fraction_digits (f : Z) : list ascii :=
  [digit (f / 100000 mod 10); digit (f / 10000 mod 10); digit (f / 1000 mod 10);
   digit (f / 100 mod 10); digit (f / 10 mod 10); digit (f mod 10)].

Definition zero_char : ascii := "0"%char.

(** [s.rstrip('0')]. *)
Fixpoint rstrip0 (l : list ascii) : list ascii :=
  match l with
  | [] => []
  | c :: l' =>
      match rstrip0 l' with
      | [] => if decide (c = zero_char) then [] else [c]
      | l'' => c :: l''
      end
  end.

(** [s.ljust(2, '0')]. *)
Definition ljust2 (l : list ascii) : list ascii := l ++ replicate (2 - length l) zero_char.

Definition usd (amount : Z) : string :=
  let a := Z.abs amount in
  ("$" ++ (if (amount <? 0)%Z then "-" else "") ++ pretty (Z.to_N (a / 1000000)%Z) ++ "."
   ++ String.string_of_list_ascii (ljust2 (rstrip0 (fraction_digits (a mod 1000000)%Z))))%string.

Definition refusal_detail (subject : string) (b : BlockedAxis) (new_request : bool)
    (reserved_output_tokens : option Z) : string :=
  match remaining b, held b with
  | Some r, Some h =>
      let estimate := usd h in
      let rest := usd r in
      if negb new_request then
        (subject ++ " has " ++ rest ++ " of budget remaining, less than the " ++ estimate
         ++ " this request's estimated cost grew by")%string
      else
        let detail :=
          (subject ++ " has " ++ rest ++ " of budget remaining, less than this request's estimated cost of "
           ++ estimate)%string in
        match reserved_output_tokens with
        | Some n =>
            if (0 <? n)%Z then
              (detail ++ ". The estimate assumes " ++ pretty (Z.to_N n) ++ " output tokens; "
               ++ "a lower output token limit on the request may let it fit")%string
            else detail
        | None => detail
        end
  | _, _ => (subject ++ " has exceeded " ++ name b ++ " limit")%string
  end.

Example usd_examples :
  usd 1500000 = "$1.50"%string /\ usd 123456 = "$0.123456"%string /\ usd 0 = "$0.00"%string
  /\ usd 12000100 = "$12.0001"%string.
Proof. vm_compute. auto. Qed.

(** ** The axis test *)

(** One axis of a gate, both clauses: the hold fits, and an arrival finds room at all. *)
Definition admits (new_request : bool) (committed wanted : Z) (cap : option Z) : bool :=
  match cap with
  | None => true
  | Some c => (committed + wanted <=? c) && (negb new_request || (committed <? c))
  end.

Lemma blocked_on_admits n committed cap wanted new_request :
  blocked_on n committed cap wanted new_request = None
  <-> admits new_request committed wanted (Some cap) = true.
Proof.
  unfold blocked_on, admits. destruct new_request; simpl;
    destruct (cap <? committed + wanted) eqn:E1, (cap <=? committed) eqn:E2,
      (committed <? cap) eqn:E3; simpl; reflect_bools; try lia;
    destruct (bool_decide (n = "budget"%string)); simpl;
    rewrite ?andb_true_r, ?andb_false_r, ?Z.leb_le; (split; intros; try done; lia).
Qed.

Lemma first_blocked_none axes new_request :
  first_blocked axes new_request = None
  <-> Forall (fun '(_, cap, committed, wanted) => admits new_request committed wanted cap = true) axes.
Proof.
  induction axes as [|[[[n cap] committed] wanted] axes IH]; simpl; [done|].
  rewrite Forall_cons. destruct cap as [c|].
  - rewrite <- (blocked_on_admits n).
    destruct (blocked_on n committed c wanted new_request); [|tauto].
    split; [done|]. intros [? _]. done.
  - tauto.
Qed.

Lemma first_blocked_some axes new_request b :
  first_blocked axes new_request = Some b ->
  exists n c committed wanted,
    (n, Some c, committed, wanted) ∈ axes
    /\ blocked_on n committed c wanted new_request = Some b
    /\ admits new_request committed wanted (Some c) = false.
Proof.
  induction axes as [|[[[n cap] committed] wanted] axes IH]; simpl; [done|].
  destruct cap as [c|].
  - destruct (blocked_on n committed c wanted new_request) as [b'|] eqn:E.
    + intros [= ->]. exists n, c, committed, wanted. split; [left|]. split; [done|].
      destruct (admits new_request committed wanted (Some c)) eqn:Ea; [|done].
      apply (blocked_on_admits n committed c wanted new_request) in Ea. congruence.
    + intros (n' & c' & cm & w & ? & ?)%IH. exists n', c', cm, w. split; [by right|done].
  - intros (n' & c' & cm & w & ? & ?)%IH. exists n', c', cm, w. split; [by right|done].
Qed.

Lemma blocked_on_shape n committed cap wanted new_request b :
  blocked_on n committed cap wanted new_request = Some b ->
  name b = n /\ resets_at b = None /\ exceeds_cap b = (cap <? wanted)
  /\ (forall r h, remaining b = Some r -> held b = Some h ->
        n = "budget"%string /\ h = wanted /\ r = cap - committed /\ 0 < r < h).
Proof.
  unfold blocked_on. intros H. split_matches_in H; simpl; repeat split; intros; simplify_eq;
    reflect_bools; auto; lia.
Qed.

(** ** The amounts a refusal prints are different strings *)

Lemma digit_inj a b : 0 <= a < 10 -> 0 <= b < 10 -> digit a = digit b -> a = b.
Proof.
  unfold digit. intros Ha Hb H.
  apply (f_equal nat_of_ascii) in H. rewrite !nat_ascii_embedding in H by lia. lia.
Qed.

Lemma fraction_digits_inj f g :
  0 <= f < 1000000 -> 0 <= g < 1000000 -> fraction_digits f = fraction_digits g -> f = g.
Proof.
  unfold fraction_digits. intros Hf Hg H. injection H as H1 H2 H3 H4 H5 H6.
  apply digit_inj in H1, H2, H3, H4, H5, H6; try (apply Z.mod_pos_bound; lia).
  Z.to_euclidean_division_equations. lia.
Qed.

Lemma rstrip0_spec l : exists n, l = rstrip0 l ++ replicate n zero_char.
Proof.
  induction l as [|c l [n IH]]; [by exists 0%nat|]. simpl.
  destruct (rstrip0 l) as [|d t].
  - case_decide as Hc.
    + exists (S n). simpl in *. by rewrite <- IH, Hc.
    + exists n. simpl in *. by rewrite <- IH.
  - exists n. simpl in *. by rewrite <- IH.
Qed.

Lemma rstrip0_app_zeros l n : rstrip0 (l ++ replicate n zero_char) = rstrip0 l.
Proof.
  induction l as [|c l IH]; simpl; [|by rewrite IH].
  induction n as [|n IH]; simpl; [done|]. by rewrite IH.
Qed.

Lemma rstrip0_idemp l : rstrip0 (rstrip0 l) = rstrip0 l.
Proof.
  destruct (rstrip0_spec l) as [n Hl]. apply (f_equal rstrip0) in Hl.
  by rewrite rstrip0_app_zeros in Hl.
Qed.

Lemma fraction_text_inj l1 l2 :
  length l1 = length l2 -> ljust2 (rstrip0 l1) = ljust2 (rstrip0 l2) -> l1 = l2.
Proof.
  unfold ljust2. intros Hl H. apply (f_equal rstrip0) in H.
  rewrite !rstrip0_app_zeros, !rstrip0_idemp in H.
  destruct (rstrip0_spec l1) as [n1 H1], (rstrip0_spec l2) as [n2 H2].
  rewrite H in H1. remember (rstrip0 l2) as t eqn:Ht. clear Ht H. subst l1 l2.
  rewrite !length_app, !length_replicate in Hl. by replace n1 with n2 by lia.
Qed.

(** The characters of a string before its first dot. *)
Fixpoint before_dot (s : string) : string :=
  match s with
  | EmptyString => EmptyString
  | String c s' => if decide (c = "."%char) then EmptyString else String c (before_dot s')
  end.

Fixpoint no_dot (s : string) : Prop :=
  match s with
  | EmptyString => True
  | String c s' => c <> "."%char /\ no_dot s'
  end.

Lemma before_dot_app s t : no_dot s -> before_dot (s ++ String "." t) = s.
Proof.
  induction s as [|c s IH]; simpl; [done|]. intros [Hc Hs].
  rewrite decide_False by done. by rewrite IH.
Qed.

Lemma no_dot_pretty_go x s : no_dot s -> no_dot (pretty_N_go x s).
Proof.
  revert s. induction (N.lt_wf_0 x) as [x _ IH]. intros s Hs.
  assert (x = 0 \/ 0 < x)%N as [->|Hx] by lia; [by rewrite pretty_N_go_0|].
  rewrite pretty_N_go_step by done. apply IH; [apply N.div_lt; lia|].
  simpl. split; [|done]. unfold pretty_N_char. by repeat case_match.
Qed.

Lemma no_dot_pretty (n : N) : no_dot (pretty n).
Proof.
  destruct (decide (n = 0%N)) as [->|Hn]; [by vm_compute|].
  unfold pretty, pretty_N. rewrite decide_False by done. by apply no_dot_pretty_go.
Qed.

Lemma string_app_inj_l s t u : (s ++ t = s ++ u)%string -> t = u.
Proof. induction s as [|c s IH]; simpl; [done|]. intros [=]. auto. Qed.

Lemma string_tail_inj c s t : String c s = String c t -> s = t.
Proof. by intros [=]. Qed.

Lemma usd_nonneg a : 0 <= a ->
  usd a = String "$" (pretty (Z.to_N (a / 1000000)) ++ String "."
    (String.string_of_list_ascii (ljust2 (rstrip0 (fraction_digits (a mod 1000000)))))).
Proof.
  intros Ha. unfold usd. rewrite Z.abs_eq by done. by rewrite (proj2 (Z.ltb_ge a 0) Ha).
Qed.

Lemma usd_inj a b : 0 <= a -> 0 <= b -> usd a = usd b -> a = b.
Proof.
  intros Ha Hb. rewrite !usd_nonneg by done. intros H%string_tail_inj. pose proof H as Hw.
  apply (f_equal before_dot) in Hw.
  rewrite !before_dot_app in Hw by apply no_dot_pretty.
  rewrite Hw in H. apply string_app_inj_l, string_tail_inj in H.
  apply (f_equal String.list_ascii_of_string) in H.
  rewrite !String.list_ascii_of_string_of_list_ascii in H.
  apply fraction_text_inj in H; [|done].
  apply fraction_digits_inj in H; try (apply Z.mod_pos_bound; lia).
  apply (inj pretty) in Hw.
  Z.to_euclidean_division_equations. lia.
Qed.

(** ** Properties *)

(** A refusal that names amounts does so for the dollar axis only, and prints a
    hold strictly larger than the remainder as a different string. *)
Theorem refusal_amounts_differ n committed cap wanted new_request b r h :
  0 <= wanted ->
  blocked_on n committed cap wanted new_request = Some b ->
  remaining b = Some r -> held b = Some h ->
  n = "budget"%string /\ r < h /\ usd r <> usd h.
Proof.
  intros Hw Hb Hr Hh. apply blocked_on_shape in Hb as (_ & _ & _ & Hs).
  destruct (Hs r h Hr Hh) as (-> & -> & -> & ?). repeat split; [lia|].
  intros Heq%usd_inj; lia.
Qed.

Lemma refusal_amounts_differ_witness :
  blocked_on "budget" 900000 1000000 250000 true =
    Some (mkBlockedAxis "budget" (Some 100000) (Some 250000) false None)
  /\ usd 100000 <> usd 250000.
Proof.
  split; [vm_compute; reflexivity|].
  apply (refusal_amounts_differ "budget" 900000 1000000 250000 true
    (mkBlockedAxis "budget" (Some 100000) (Some 250000) false None) 100000 250000);
    [lia|vm_compute; reflexivity|reflexivity|reflexivity].
Defined.

(** [Retry-After] is offered exactly when a fresh window could admit the hold: it is
    given only for a budget that resets and a hold that fits the bare cap, and the wait
    it names reaches the end of the window. *)
Theorem retry_after_sound n committed cap wanted new_request b at_ now secs :
  blocked_on n committed cap wanted new_request = Some b ->
  retry_after (with_resets_at b (Some at_)) now = Some secs ->
  admits false 0 wanted (Some cap) = true /\ at_ <= now + secs * SECOND /\ 1 <= secs.
Proof.
  intros Hb Hr. apply blocked_on_shape in Hb as (_ & _ & He & _).
  unfold retry_after, with_resets_at in Hr. simpl in Hr. rewrite He in Hr.
  destruct (cap <? wanted) eqn:E; [done|]. injection Hr as <-.
  destruct (seconds_until_spec at_ now) as (? & ? & _). reflect_bools.
  split; [|lia]. unfold admits. simpl. rewrite andb_true_r. apply Z.leb_le. lia.
Qed.

Lemma retry_after_sound_witness :
  retry_after (with_resets_at (mkBlockedAxis "token" None None false None) (Some 2500000)) 0 = Some 3
  /\ 2500000 <= 0 + 3 * SECOND.
Proof.
  split; [vm_compute; reflexivity|].
  apply (retry_after_sound "token" 100 100 1 true (mkBlockedAxis "token" None None false None)
    2500000 0 3); vm_compute; reflexivity.
Defined.
