(* ===== verification/Tables.v ===== *)
(** The rows the budget code reads and writes ([src/src/gateway/models/budgets.py],
    [src/src/gateway/models/users.py]) and what the reservation ledger records against
    them.

    A row's three counter pairs, one per axis a budget can cap, are kept as two
    [HeldAmounts]: [used] is (spend, current_tokens, current_requests) and [held] is
    (reserved, reserved_tokens, reserved_requests).  Dollar amounts are integers of
    micro-dollars, the scale of the [UsdCost] columns.  A reservation's lines, a table
    of their own keyed on the reservation, are a list inside the row. *)
From S2P Require Import Prelude.
From stdpp Require Import gmap strings list fin_maps.
From Stdlib Require Import ZArith Lia.
Open Scope Z_scope.

(** ** Amounts on the three axes *)

Inductive axis : Type := Usd | Tok | Req.

Record HeldAmounts := mkHeld { amount : Z; tokens : Z; requests : Z }.

#[export] Instance HeldAmounts_eq_dec : EqDecision HeldAmounts.
Proof. solve_decision. Defined.

Definition at_axis (h : HeldAmounts) (a : axis) : Z :=
  match a with Usd => amount h | Tok => tokens h | Req => requests h end.

Definition zero_held : HeldAmounts := mkHeld 0 0 0.

Definition add_held (h k : HeldAmounts) : HeldAmounts :=
  mkHeld (amount h + amount k) (tokens h + tokens k) (requests h + requests k).

Definition held_nonneg (h : HeldAmounts) : Prop := forall a, 0 <= at_axis h a.

(** ** Rows *)

Record User := mkUser {
  user_budget_id : option string;
  user_used : HeldAmounts;
  user_held : HeldAmounts;
  user_blocked : bool;
  user_deleted : bool;
  budget_started_at : option Z;
  next_budget_reset_at : option Z;
  user_updated_at : option Z
}.

Record Budget := mkBudget {
  max_budget : option Z;
  token_limit : option Z;
  request_limit : option Z;
  budget_duration_sec : option Z;
  reset_alignment : option string
}.

Inductive ScopeType : Type :=
| SCOPE_ORGANIZATION | SCOPE_WORKSPACE | SCOPE_ORG_MEMBER | SCOPE_WORKSPACE_MEMBER | SCOPE_API_TOKEN.

#[export] Instance ScopeType_eq_dec : EqDecision ScopeType.
Proof. solve_decision. Defined.

Record ScopedBudget := mkScoped {
  scope_type : ScopeType;
  scope_id : string;
  provider_key_id : option string;
  ceiling_budget_id : string;
  ceiling_used : HeldAmounts;
  ceiling_held : HeldAmounts;
  period_start : option Z;
  period_end : option Z;
  ceiling_updated_at : option Z
}.

Inductive ReservationStatus : Type :=
| RESERVATION_ACTIVE | RESERVATION_SETTLED | RESERVATION_RELEASED | RESERVATION_EXPIRED.

#[export] Instance ReservationStatus_eq_dec : EqDecision ReservationStatus.
Proof. solve_decision. Defined.

Record ReservationLine := mkLine { line_budget_id : string; line_held : HeldAmounts }.

(** [estimate], [token_estimate] and [request_estimate] are [row_held]. *)
Record BudgetReservation := mkReservation {
  row_user_id : string;
  row_held : HeldAmounts;
  user_reserved : bool;
  status : ReservationStatus;
  expires_at : Z;
  lines : list ReservationLine
}.

Record BudgetResetLog := mkResetLog {
  log_user_id : string;
  log_budget_id : string;
  previous_spend : Z;
  reset_at : Z;
  next_reset_at : option Z
}.

(** [ever_inserted] is not a column: it remembers the reservation ids ever inserted, which
    no statement reads, so that the logic can say that a uuid is never inserted twice. *)
Record database := mkDb {
  users : gmap string User;
  budgets : gmap string Budget;
  ceilings : gmap string ScopedBudget;
  reservations : gmap nat BudgetReservation;
  reset_logs : list BudgetResetLog;
  ever_inserted : gset nat
}.

Definition set_users (d : database) m : database :=
  mkDb m (budgets d) (ceilings d) (reservations d) (reset_logs d) (ever_inserted d).
Definition set_ceilings (d : database) m : database :=
  mkDb (users d) (budgets d) m (reservations d) (reset_logs d) (ever_inserted d).
Definition set_reservations (d : database) m : database :=
  mkDb (users d) (budgets d) (ceilings d) m (reset_logs d) (ever_inserted d).
Definition add_reset_log (d : database) l : database :=
  mkDb (users d) (budgets d) (ceilings d) (reservations d) (l :: reset_logs d) (ever_inserted d).
Definition insert_reservation (d : database) (i : nat) (r : BudgetReservation) : database :=
  mkDb (users d) (budgets d) (ceilings d) (<[i := r]> (reservations d)) (reset_logs d) ({[i]} ∪ ever_inserted d).

Definition set_user_counters (u : User) (now : Z) (used held : HeldAmounts) : User :=
  mkUser (user_budget_id u) used held (user_blocked u) (user_deleted u) (budget_started_at u)
    (next_budget_reset_at u) (Some now).

Definition set_ceiling_counters (c : ScopedBudget) (now : Z) (used held : HeldAmounts) : ScopedBudget :=
  mkScoped (scope_type c) (scope_id c) (provider_key_id c) (ceiling_budget_id c) used held
    (period_start c) (period_end c) (Some now).

Definition set_status (r : BudgetReservation) (s : ReservationStatus) : BudgetReservation :=
  mkReservation (row_user_id r) (row_held r) (user_reserved r) s (expires_at r) (lines r).

(** ** What the ledger records against a counter *)

Inductive counter : Type := CUser (user_id : string) | CCeiling (scoped_budget_id : string).

#[export] Instance counter_eq_dec : EqDecision counter.
Proof. solve_decision. Defined.

Definition lines_hold (ls : list ReservationLine) (s : string) (a : axis) : Z :=
  sumZ (fun l => if decide (line_budget_id l = s) then at_axis (line_held l) a else 0) ls.

(** What one row holds on one counter, whatever its status. *)
Definition row_holds (r : BudgetReservation) (c : counter) (a : axis) : Z :=
  match c with
  | CUser u => if bool_decide (row_user_id r = u) && user_reserved r then at_axis (row_held r) a else 0
  | CCeiling s => lines_hold (lines r) s a
  end.

Definition active_holds (r : BudgetReservation) (c : counter) (a : axis) : Z :=
  if decide (status r = RESERVATION_ACTIVE) then row_holds r c a else 0.

(** The sum over the active rows, which [reconcile_orphaned_holds] compares a counter with. *)
Definition recorded (d : database) (c : counter) (a : axis) : Z :=
  msum (fun _ r => active_holds r c a) (reservations d).

(** The hold a counter carries, for a user who is not deleted and a ceiling that exists. *)
Definition counter_held (d : database) (c : counter) : option HeldAmounts :=
  match c with
  | CUser u => r ← users d !! u; if user_deleted r then None else Some (user_held r)
  | CCeiling s => r ← ceilings d !! s; Some (ceiling_held r)
  end.

Definition counter_used (d : database) (c : counter) : option HeldAmounts :=
  match c with
  | CUser u => r ← users d !! u; if user_deleted r then None else Some (user_used r)
  | CCeiling s => r ← ceilings d !! s; Some (ceiling_used r)
  end.

(** The budget a counter is gated by. *)
Definition counter_budget (d : database) (c : counter) : option Budget :=
  match c with
  | CUser u => r ← users d !! u; b ← user_budget_id r; budgets d !! b
  | CCeiling s => r ← ceilings d !! s; budgets d !! ceiling_budget_id r
  end.

Definition cap_on (b : Budget) (a : axis) : option Z :=
  match a with Usd => max_budget b | Tok => token_limit b | Req => request_limit b end.

(** ** Well-formed ledgers *)

Record row_wf (r : BudgetReservation) : Prop := {
  row_held_nonneg : held_nonneg (row_held r);
  row_lines_nonneg : Forall (fun l => held_nonneg (line_held l)) (lines r)
}.

Definition rows_wf (d : database) : Prop :=
  forall i r, reservations d !! i = Some r -> row_wf r /\ i ∈ ever_inserted d.

(** ** Lemmas *)

Lemma at_axis_add h k a : at_axis (add_held h k) a = at_axis h a + at_axis k a.
Proof. by destruct a. Qed.

Lemma held_nonneg_zero : held_nonneg zero_held.
Proof. by intros []. Qed.

Lemma held_nonneg_add h k : held_nonneg h -> held_nonneg k -> held_nonneg (add_held h k).
Proof. intros H1 H2 a. rewrite at_axis_add. specialize (H1 a). specialize (H2 a). lia. Qed.

Lemma mkHeld_nonneg x y z : 0 <= x -> 0 <= y -> 0 <= z -> held_nonneg (mkHeld x y z).
Proof. by intros ??? []. Qed.

Lemma held_ext h k : (forall a, at_axis h a = at_axis k a) -> h = k.
Proof.
  intros H. destruct h, k. pose proof (H Usd). pose proof (H Tok). pose proof (H Req).
  simpl in *. by subst.
Qed.

Lemma lines_hold_nonneg ls s a :
  Forall (fun l => held_nonneg (line_held l)) ls -> 0 <= lines_hold ls s a.
Proof.
  intros H. apply sumZ_nonneg. intros l Hl. rewrite Forall_forall in H.
  case_decide; [by apply H|lia].
Qed.

Lemma row_holds_nonneg r c a : row_wf r -> 0 <= row_holds r c a.
Proof.
  intros [H1 H2]. destruct c as [u|s]; simpl; [|by apply lines_hold_nonneg].
  destruct (_ && _); [apply H1|lia].
Qed.

Lemma active_holds_nonneg r c a : row_wf r -> 0 <= active_holds r c a.
Proof. intros. unfold active_holds. case_decide; [by apply row_holds_nonneg|lia]. Qed.

Lemma recorded_nonneg d c a : rows_wf d -> 0 <= recorded d c a.
Proof. intros H. apply msum_nonneg. intros i r Hr. by eapply active_holds_nonneg, (H i). Qed.

Lemma recorded_insert d i r c a :
  reservations d !! i = None ->
  recorded (insert_reservation d i r) c a = recorded d c a + active_holds r c a.
Proof. intros H. unfold recorded. simpl. rewrite msum_insert by done. lia. Qed.

Lemma recorded_update d i r r' c a :
  reservations d !! i = Some r ->
  recorded (set_reservations d (<[i := r']> (reservations d))) c a =
    recorded d c a - active_holds r c a + active_holds r' c a.
Proof. intros H. unfold recorded. simpl. by rewrite (msum_update _ _ _ r) by done. Qed.

Lemma recorded_same_reservations d d' c a :
  reservations d' = reservations d -> recorded d' c a = recorded d c a.
Proof. unfold recorded. by intros ->. Qed.

Lemma lines_hold_map ids h s a :
  NoDup ids ->
  lines_hold ((fun i => mkLine i h) <$> ids) s a = if decide (s ∈ ids) then at_axis h a else 0.
Proof.
  induction 1 as [|i ids Hi Hnd IH].
  { rewrite decide_False; [done|]. intros Hin. inversion Hin. }
  unfold lines_hold in *. rewrite fmap_cons, sumZ_cons. cbn [line_budget_id line_held].
  rewrite IH. destruct (decide (i = s)) as [->|Hne].
  - rewrite decide_False by done. rewrite decide_True by left. lia.
  - destruct (decide (s ∈ ids)).
    + rewrite decide_True by (by right). lia.
    + rewrite decide_False; [lia|]. rewrite elem_of_cons. naive_solver.
Qed.

#[export] Hint Resolve held_nonneg_zero held_nonneg_add mkHeld_nonneg row_holds_nonneg
  active_holds_nonneg recorded_nonneg : otari.
