(* ===== verification/Repositories.v ===== *)
(** The statements the budget services run
    ([src/src/gateway/repositories/budgets/scoped_budget_repository.py],
    [src/src/gateway/repositories/budgets/reservation_repository.py]), each a function of
    the database its transaction sees.  A statement the source guards with a WHERE clause
    and reads [rowcount] of returns that answer; [now] is the clock its [onupdate] and
    [expires_at] tests read. *)
From S2P Require Import Prelude Periods Refusals Tables.
From stdpp Require Import gmap strings list fin_maps sorting.
From Stdlib Require Import ZArith Lia.
Open Scope Z_scope.

Definition map_axes (f : axis -> Z -> Z) (h : HeldAmounts) : HeldAmounts :=
  mkHeld (f Usd (amount h)) (f Tok (tokens h)) (f Req (requests h)).

(** A hold less [amt], clamped at zero. *)
Definition release_expression (column amt : Z) : Z :=
  if column - amt <? 0 then 0 else column - amt.

(** Subtract on every axis with a positive amount. *)
Definition released (amounts held : HeldAmounts) : HeldAmounts :=
  map_axes (fun a cur => if 0 <? at_axis amounts a then release_expression cur (at_axis amounts a) else cur) held.

(** Add on every axis with a positive amount. *)
Definition added (amounts used : HeldAmounts) : HeldAmounts :=
  map_axes (fun a cur => if 0 <? at_axis amounts a then cur + at_axis amounts a else cur) used.

Definition any_positive (h : HeldAmounts) : bool := (0 <? amount h) || (0 <? tokens h) || (0 <? requests h).

(** [updated_at IS NULL OR updated_at < quiet_before]. *)
Definition quiet (updated_at : option Z) (quiet_before : Z) : bool :=
  match updated_at with None => true | Some t => t <? quiet_before end.

Module CeilingRepo.

Record ApplicableCeiling := mkApplicable {
  scoped_budget_id : string;
  ac_scope_type : ScopeType;
  ac_provider_key_id : option string;
  ac_budget_duration_sec : option Z;
  ac_reset_alignment : option string;
  ac_period_end : option Z;
  ac_token_limit : option Z;
  ac_request_limit : option Z;
  ac_max_budget : option Z;
  current_spend : Z;
  reserved_spend : Z
}.

Record CeilingUsage := mkUsage {
  usage_budget : Budget;
  usage_used : HeldAmounts;
  usage_held : HeldAmounts;
  usage_period_end : option Z
}.

Record ScopeIdSets := mkScopes {
  organization_ids : list string;
  workspace_ids : list string;
  organization_member_ids : list string;
  workspace_member_ids : list string;
  api_key_ids : list string
}.

Definition in_scopes (scopes : ScopeIdSets) (c : ScopedBudget) : bool :=
  bool_decide (scope_id c ∈
    match scope_type c with
    | SCOPE_ORGANIZATION => organization_ids scopes
    | SCOPE_WORKSPACE => workspace_ids scopes
    | SCOPE_ORG_MEMBER => organization_member_ids scopes
    | SCOPE_WORKSPACE_MEMBER => workspace_member_ids scopes
    | SCOPE_API_TOKEN => api_key_ids scopes
    end).

Definition list_applicable (d : database) (scopes : ScopeIdSets) : list ApplicableCeiling :=
  omap (fun '(id, c) =>
    if in_scopes scopes c then
      b ← budgets d !! ceiling_budget_id c;
      Some (mkApplicable id (scope_type c) (provider_key_id c) (budget_duration_sec b)
        (reset_alignment b) (period_end c) (token_limit b) (request_limit b) (max_budget b)
        (amount (ceiling_used c)) (amount (ceiling_held c)))
    else None) (map_to_list (ceilings d)).

Definition update_counters (now : Z) (ids : list string) (f : ScopedBudget -> HeldAmounts * HeldAmounts)
    (d : database) : database :=
  set_ceilings d (map_imap (fun id c => Some
    (if bool_decide (id ∈ ids) then set_ceiling_counters c now (f c).1 (f c).2 else c)) (ceilings d)).

(** One axis of the gate: an arrival needs room at all and room for its hold, a top-up
    only the second, and an axis with no cap admits both. *)
Definition gate_admits (new_request : bool) (committed held : Z) (cap : option Z) : bool :=
  match cap with
  | None => true
  | Some c =>
      let fits := committed + held <=? c in
      if new_request then (committed <? c) && fits else fits
  end.

Definition hold_gates (c : ScopedBudget) (b : option Budget) (amt : option Z) (tok req : Z)
    (new_request : bool) : bool :=
  let committed a := at_axis (ceiling_used c) a + at_axis (ceiling_held c) a in
  let cap a := b ← b; cap_on b a in
  match amt with
  | None => true
  | Some x => gate_admits new_request (committed Usd) x (cap Usd)
  end
  && gate_admits new_request (committed Tok) tok (cap Tok)
  && gate_admits new_request (committed Req) req (cap Req).

Definition hold (now : Z) (id : string) (amt : option Z) (tok req : Z) (new_request : bool)
    (d : database) : bool * database :=
  match ceilings d !! id with
  | None => (false, d)
  | Some c =>
      if hold_gates c (budgets d !! ceiling_budget_id c) amt tok req new_request then
        let held := add_held (ceiling_held c) (mkHeld (default 0 amt) tok req) in
        (true, set_ceilings d (<[id := set_ceiling_counters c now (ceiling_used c) held]> (ceilings d)))
      else (false, d)
  end.

Definition get_usage (d : database) (id : string) : option CeilingUsage :=
  c ← ceilings d !! id;
  b ← budgets d !! ceiling_budget_id c;
  Some (mkUsage b (ceiling_used c) (ceiling_held c) (period_end c)).

Definition release_holds (now : Z) (ids : list string) (amounts : HeldAmounts) (d : database) : database :=
  if bool_decide (ids = []) || negb (any_positive amounts) then d
  else update_counters now ids (fun c => (ceiling_used c, released amounts (ceiling_held c))) d.

Definition settle (now : Z) (ids : list string) (used held : HeldAmounts) (d : database) : database :=
  if bool_decide (ids = []) || negb (any_positive used || any_positive held) then d
  else update_counters now ids
    (fun c => (added used (ceiling_used c), released held (ceiling_held c))) d.

Definition roll_period (clock now : Z) (id : string) (start : Z) (end_ : option Z) (d : database) : database :=
  match ceilings d !! id with
  | Some c =>
      match period_end c with
      | Some e =>
          if e <=? now then
            set_ceilings d (<[id := mkScoped (scope_type c) (scope_id c) (provider_key_id c)
              (ceiling_budget_id c) zero_held (ceiling_held c) (Some start) end_ (Some clock)]> (ceilings d))
          else d
      | None => d
      end
  | None => d
  end.

Definition lock_quiet_holds (d : database) (id : string) (quiet_before : Z) : option HeldAmounts :=
  c ← ceilings d !! id;
  if quiet (ceiling_updated_at c) quiet_before then Some (ceiling_held c) else None.

(** Each named counter set to its value, the others left alone. *)
Definition clamp_to (values : axis -> option Z) (held : HeldAmounts) : HeldAmounts :=
  map_axes (fun a cur => default cur (values a)) held.

Definition clamp_holds (now : Z) (id : string) (values : axis -> option Z) (d : database) : database :=
  update_counters now [id] (fun c => (ceiling_used c, clamp_to values (ceiling_held c))) d.

Definition list_quiet_held (d : database) (quiet_before : Z) (limit : nat) : list string :=
  take limit (omap (fun '(id, c) =>
    if any_positive (ceiling_held c) && quiet (ceiling_updated_at c) quiet_before
    then Some id else None) (map_to_list (ceilings d))).

End CeilingRepo.

Module ReservationRepo.

Definition held_lines (held : HeldAmounts) (ids : list string) : list ReservationLine :=
  (fun i => mkLine i held) <$> ids.

(** [None] is the database's refusal of a duplicate primary key. *)
Definition add (id : nat) (user : string) (reserved : bool) (held ceiling_held : HeldAmounts)
    (scoped_budget_ids : list string) (expires : Z) (d : database) : option database :=
  match reservations d !! id with
  | Some _ => None
  | None => Some (insert_reservation d id (mkReservation user held reserved RESERVATION_ACTIVE
              expires (held_lines ceiling_held scoped_budget_ids)))
  end.

Definition add_released (now : Z) (id : nat) (user : string) (d : database) : option database :=
  match reservations d !! id with
  | Some _ => None
  | None => Some (insert_reservation d id
              (mkReservation user zero_held false RESERVATION_RELEASED now []))
  end.

Definition delete_by_ids (ids : list nat) (d : database) : database :=
  set_reservations d (foldr delete (reservations d) ids).

Definition grow (id : nat) (user_delta : Z) (user_grew : bool) (scoped_delta token_delta scoped_token_delta : Z)
    (d : database) : bool * database :=
  match reservations d !! id with
  | Some r =>
      if decide (status r = RESERVATION_ACTIVE) then
        let held := add_held (row_held r) (mkHeld user_delta token_delta 0) in
        let grown :=
          if (0 <? scoped_delta) || (0 <? scoped_token_delta)
          then (fun l => mkLine (line_budget_id l)
                  (add_held (line_held l) (mkHeld scoped_delta scoped_token_delta 0))) <$> lines r
          else lines r in
        (true, set_reservations d (<[id := mkReservation (row_user_id r) held
          (if user_grew then true else user_reserved r) (status r) (expires_at r) grown]> (reservations d)))
      else (false, d)
  | None => (false, d)
  end.

Definition active_user_held (d : database) (user : string) : HeldAmounts :=
  mkHeld (recorded d (CUser user) Usd) (recorded d (CUser user) Tok) (recorded d (CUser user) Req).

Definition active_ceiling_held (d : database) (id : string) : HeldAmounts :=
  mkHeld (recorded d (CCeiling id) Usd) (recorded d (CCeiling id) Tok) (recorded d (CCeiling id) Req).

(** [ORDER BY expires_at]; rows that tie come in the order the map lists them. *)
Definition older (x y : nat * BudgetReservation) : Prop := expires_at x.2 <= expires_at y.2.
#[export] Instance older_dec x y : Decision (older x y).
Proof. unfold older. apply _. Defined.

Definition is_expired (now : Z) (user : option string) (r : BudgetReservation) : bool :=
  bool_decide (status r = RESERVATION_ACTIVE) && (expires_at r <? now)
  && match user with Some u => bool_decide (row_user_id r = u) | None => true end.

Definition list_expired (d : database) (now : Z) (limit : nat) (user : option string)
  : list (nat * BudgetReservation) :=
  take limit (merge_sort older
    (filter (fun x => is_expired now user x.2 = true) (map_to_list (reservations d)))).

Definition list_lines (d : database) (id : nat) : list ReservationLine :=
  match reservations d !! id with Some r => lines r | None => [] end.

Definition is_terminal (s : ReservationStatus) : bool := negb (bool_decide (s = RESERVATION_ACTIVE)).

Definition list_terminal_ids (d : database) (expired_before : Z) (limit : nat) : list nat :=
  take limit (omap (fun '(id, r) =>
    if is_terminal (status r) && (expires_at r <? expired_before) then Some id else None)
    (map_to_list (reservations d))).

Definition lock_active (d : database) (id : nat) : bool :=
  match reservations d !! id with
  | Some r => bool_decide (status r = RESERVATION_ACTIVE)
  | None => false
  end.

Definition move_lines (id : nat) (dropped added : list string) (held : HeldAmounts) (d : database) : database :=
  match reservations d !! id with
  | Some r =>
      let kept := filter (fun l => line_budget_id l ∉ dropped) (lines r) in
      set_reservations d (<[id := mkReservation (row_user_id r) (row_held r) (user_reserved r) (status r)
        (expires_at r) (((fun l => mkLine (line_budget_id l) held) <$> kept) ++ held_lines held added)]>
        (reservations d))
  | None => d
  end.

Definition transition (id : nat) (current new : ReservationStatus) (d : database) : bool * database :=
  match reservations d !! id with
  | Some r =>
      if decide (status r = current) then
        (true, set_reservations d (<[id := set_status r new]> (reservations d)))
      else (false, d)
  | None => (false, d)
  end.

Definition try_terminate (id : nat) (new : ReservationStatus) : database -> bool * database :=
  transition id RESERVATION_ACTIVE new.

Definition try_settle_reclaimed (id : nat) : database -> bool * database :=
  transition id RESERVATION_EXPIRED RESERVATION_SETTLED.

End ReservationRepo.

(** ** The UPDATE statements the services write on [users] *)

Module UserRows.

Definition get_active_user (d : database) (user : string) : option User :=
  u ← users d !! user; if user_deleted u then None else Some u.

Definition active_user_with_budget (d : database) (user : string) : option (User * option Budget) :=
  u ← get_active_user d user;
  Some (u, b ← user_budget_id u; budgets d !! b).

(** [UPDATE users SET <counters> WHERE user_id = :user AND deleted_at IS NULL AND <guard>]. *)
Definition update_user (now : Z) (user : string) (guard : User -> bool)
    (f : User -> HeldAmounts * HeldAmounts) (d : database) : bool * database :=
  match get_active_user d user with
  | Some u =>
      if guard u then
        (true, set_users d (<[user := set_user_counters u now (f u).1 (f u).2]> (users d)))
      else (false, d)
  | None => (false, d)
  end.

Definition add_hold (held : HeldAmounts) (u : User) : HeldAmounts * HeldAmounts :=
  (user_used u, add_held (user_held u) held).

(** The guarded reset: zero what the window counts, leave every hold. *)
Definition reset_user (clock now : Z) (user : string) (started_at : Z) (next_reset : option Z) (d : database)
  : bool * database :=
  match get_active_user d user with
  | Some u =>
      if match next_budget_reset_at u with Some t => t <=? now | None => false end then
        (true, set_users d (<[user := mkUser (user_budget_id u) zero_held (user_held u) (user_blocked u)
          (user_deleted u) (Some started_at) next_reset (Some clock)]> (users d)))
      else (false, d)
  | None => (false, d)
  end.

Definition clamp_user (now : Z) (user : string) (values : axis -> option Z) (d : database) : database :=
  match users d !! user with
  | Some u => set_users d (<[user := set_user_counters u now (user_used u)
                (CeilingRepo.clamp_to values (user_held u))]> (users d))
  | None => d
  end.

End UserRows.

(** A release of no positive amount is no release. *)
Lemma released_nothing amounts h : any_positive amounts = false -> released amounts h = h.
Proof.
  unfold any_positive, released, map_axes. rewrite !orb_false_iff. intros [[H1 H2] H3]. cbn [at_axis]. rewrite H1, H2, H3. by destruct h.
Qed.
