(* ===== verification/Session.v ===== *)
(** Programs over a database session, and what they may do to each other.

    A coroutine of the budget code is a [prog]: it reads the clock, draws uuids, runs
    statements in its session's open transaction, commits and rolls back, and raises.
    [step] lets every statement and every commit fail, a commit also after it landed;
    [run] executes a program against a list of such faults.  A transaction's writes reach
    the other sessions at its commit and no two transactions write at once, which is what
    the row locks of the guarded UPDATEs give the code.

    [wp] is the logic the safety proofs use: a session's in-flight holds are a ghost
    amount per counter, and a program is verified against every change the other sessions
    may make between its transactions. *)
From S2P Require Import Prelude Tables.
From stdpp Require Import gmap strings list fin_maps.
From Stdlib Require Import ZArith Lia.
Open Scope Z_scope.

(** ** Exceptions *)

Inductive exn : Type :=
| SQLAlchemyError
| IntegrityError
| TimeoutError
| ValueError
| HTTPException (status_code : Z) (detail : string) (budget_scope : string) (retry_after : option Z).

(** [DATABASE_ERRORS]; [IntegrityError] is an [SQLAlchemyError]. *)
Definition is_database_error (e : exn) : bool :=
  match e with SQLAlchemyError | IntegrityError | TimeoutError => true | _ => false end.

Definition is_sqlalchemy_error (e : exn) : bool :=
  match e with SQLAlchemyError | IntegrityError => true | _ => false end.

Definition is_http_exception (e : exn) : bool :=
  match e with HTTPException _ _ _ _ => true | _ => false end.

(** What a statement or a commit that the database fails raises. *)
Inductive fault_error : exn -> Prop :=
| fault_sqlalchemy : fault_error SQLAlchemyError
| fault_timeout : fault_error TimeoutError.

(** ** Programs *)

(** Where a commit stands in the code, for a fault policy to name. *)
Inductive commit_site : Type := LedgerRecord | OtherCommit.

Inductive prog (A : Type) : Type :=
| Ret (a : A)
| Raise (e : exn)
| Now (k : Z -> prog A)
| NewId (k : nat -> prog A)
| Read (B : Type) (q : Z -> database -> B) (k : exn + B -> prog A)
| Write (B : Type) (s : Z -> database -> (exn + B) * database) (k : exn + B -> prog A)
| Commit (site : commit_site) (k : option exn -> prog A)
| Rollback (k : option exn -> prog A).
Arguments Ret {A} a.
Arguments Raise {A} e.
Arguments Now {A} k.
Arguments NewId {A} k.
Arguments Read {A} B q k.
Arguments Write {A} B s k.
Arguments Commit {A} site k.
Arguments Rollback {A} k.

(** Run [p]; go on with [h] on its result, or its exception. *)
Fixpoint handle {A B} (p : prog A) (h : exn + A -> prog B) : prog B :=
  match p with
  | Ret a => h (inr a)
  | Raise e => h (inl e)
  | Now k => Now (fun t => handle (k t) h)
  | NewId k => NewId (fun i => handle (k i) h)
  | Read C q k => Read C q (fun r => handle (k r) h)
  | Write C s k => Write C s (fun r => handle (k r) h)
  | Commit site k => Commit site (fun r => handle (k r) h)
  | Rollback k => Rollback (fun r => handle (k r) h)
  end.

Definition bind {A B} (p : prog A) (f : A -> prog B) : prog B :=
  handle p (fun r => match r with inr a => f a | inl e => Raise e end).

(** [try: p except <caught> as e: h e]. *)
Definition try_except {A} (p : prog A) (caught : exn -> bool) (h : exn -> prog A) : prog A :=
  handle p (fun r => match r with
    | inr a => Ret a
    | inl e => if caught e then h e else Raise e
    end).

(** The exception as a value, for a caller that keeps what the callee changed before raising. *)
Definition attempt {A} (p : prog A) : prog (exn + A) := handle p Ret.

Definition suppress (caught : exn -> bool) (p : prog unit) : prog unit :=
  try_except p caught (fun _ => Ret tt).

Notation "'let!' x ':=' p 'in' k" := (bind p (fun x => k))
  (at level 10, x pattern, p at level 100, k at level 200) : otari_scope.
Notation "p ';;!' k" := (bind p (fun _ => k)) (at level 100, right associativity) : otari_scope.
Open Scope otari_scope.

Definition of_reply {B} (r : exn + B) : prog B :=
  match r with inr b => Ret b | inl e => Raise e end.

Definition now : prog Z := Now Ret.
Definition uuid4 : prog nat := NewId Ret.
Definition query {B} (q : Z -> database -> B) : prog B := Read B q of_reply.
Definition execute {B} (s : Z -> database -> (exn + B) * database) : prog B := Write B s of_reply.

(** A statement that cannot be refused, and one whose [rowcount] is read. *)
Definition update (s : Z -> database -> database) : prog unit :=
  execute (fun t d => (inr tt, s t d)).
Definition update_rowcount (s : Z -> database -> bool * database) : prog bool :=
  execute (fun t d => (inr (s t d).1, (s t d).2)).
(** An insert, which a row with its key refuses. *)
Definition insert_row (s : Z -> database -> option database) : prog unit :=
  execute (fun t d => match s t d with Some d' => (inr tt, d') | None => (inl IntegrityError, d) end).

Definition commit_at (site : commit_site) : prog unit :=
  Commit site (fun r => match r with None => Ret tt | Some e => Raise e end).
Definition commit : prog unit := commit_at OtherCommit.
Definition rollback : prog unit := Rollback (fun r => match r with None => Ret tt | Some e => Raise e end).

(** A statement that reads and changes nothing the model keeps, and can fail:
    [defer_commit_flush]'s [SET LOCAL], and a flush with nothing pending. *)
Definition defer_commit_flush : prog unit := query (fun _ _ => tt).
Definition flush : prog unit := query (fun _ _ => tt).

(** A SELECT ... FOR UPDATE: it reads, and keeps its rows locked until the transaction ends. *)
Definition locking_query {B} (q : Z -> database -> B) : prog B :=
  execute (fun t d => (inr (q t d), d)).

Fixpoint for_each {A} (l : list A) (f : A -> prog unit) : prog unit :=
  match l with
  | [] => Ret tt
  | x :: l' => f x ;;! for_each l' f
  end.

(** ** What a session does to the shared database *)

(** A session's transaction: none that wrote, one that wrote [w], one that failed. *)
Inductive tx : Type := Clean | Dirty (w : database) | Poisoned.

Record world := mkWorld { db : database; clock : Z; next_id : nat }.

Definition set_db (w : world) (d : database) : world := mkWorld d (clock w) (next_id w).

(** Which commits may land and still report failure. *)
Definition policy := commit_site -> bool.

Definition reads_from (x : tx) (w : world) : option database :=
  match x with Clean => Some (db w) | Dirty d => Some d | Poisoned => None end.

Inductive step (landed_ok : policy) {A} : world -> tx -> prog A -> world -> tx -> prog A -> Prop :=
| step_now w x k : step landed_ok w x (Now k) w x (k (clock w))
| step_id w x k :
    step landed_ok w x (NewId k) (mkWorld (db w) (clock w) (S (next_id w))) x (k (next_id w))
| step_read w x d B q k :
    reads_from x w = Some d -> step landed_ok w x (Read B q k) w x (k (inr (q (clock w) d)))
| step_read_fails w x B q k e :
    fault_error e -> step landed_ok w x (Read B q k) w Poisoned (k (inl e))
| step_write w x d B s k b d' :
    reads_from x w = Some d -> s (clock w) d = (inr b, d') ->
    step landed_ok w x (Write B s k) w (Dirty d') (k (inr b))
| step_write_refused w x d B s k e d' :
    reads_from x w = Some d -> s (clock w) d = (inl e, d') ->
    step landed_ok w x (Write B s k) w Poisoned (k (inl e))
| step_write_fails w x B s k e :
    fault_error e -> step landed_ok w x (Write B s k) w Poisoned (k (inl e))
| step_commit_nothing w site k : step landed_ok w Clean (Commit site k) w Clean (k None)
| step_commit w d site k : step landed_ok w (Dirty d) (Commit site k) (set_db w d) Clean (k None)
| step_commit_lost w x site k e :
    fault_error e -> step landed_ok w x (Commit site k) w Poisoned (k (Some e))
| step_commit_landed w d site k e :
    landed_ok site = true -> fault_error e ->
    step landed_ok w (Dirty d) (Commit site k) (set_db w d) Poisoned (k (Some e))
| step_rollback w x k : step landed_ok w x (Rollback k) w Clean (k None)
| step_rollback_fails w x k e :
    fault_error e -> step landed_ok w x (Rollback k) w Poisoned (k (Some e)).

(** ** Running a program *)

Inductive fault : Type := NoFault | Fails | TimesOut | Landed.

Definition fault_exn (f : fault) : exn := match f with TimesOut => TimeoutError | _ => SQLAlchemyError end.

Definition next_fault (fs : list fault) : fault * list fault :=
  match fs with [] => (NoFault, []) | f :: fs' => (f, fs') end.

(** One session alone: each statement, commit and rollback takes the next fault, none once
    the list is spent. *)
Fixpoint run {A} (p : prog A) (fs : list fault) (x : tx) (w : world) : (exn + A) * tx * world :=
  match p with
  | Ret a => (inr a, x, w)
  | Raise e => (inl e, x, w)
  | Now k => run (k (clock w)) fs x w
  | NewId k => run (k (next_id w)) fs x (mkWorld (db w) (clock w) (S (next_id w)))
  | Read B q k =>
      let '(f, fs) := next_fault fs in
      match f, reads_from x w with
      | NoFault, Some d => run (k (inr (q (clock w) d))) fs x w
      | _, _ => run (k (inl (fault_exn f))) fs Poisoned w
      end
  | Write B s k =>
      let '(f, fs) := next_fault fs in
      match f, reads_from x w with
      | NoFault, Some d =>
          match s (clock w) d with
          | (inr b, d') => run (k (inr b)) fs (Dirty d') w
          | (inl e, _) => run (k (inl e)) fs Poisoned w
          end
      | _, _ => run (k (inl (fault_exn f))) fs Poisoned w
      end
  | Commit site k =>
      let '(f, fs) := next_fault fs in
      match f, x with
      | NoFault, Clean => run (k None) fs Clean w
      | NoFault, Dirty d => run (k None) fs Clean (set_db w d)
      | Landed, Dirty d => run (k (Some SQLAlchemyError)) fs Poisoned (set_db w d)
      | _, _ => run (k (Some (fault_exn f))) fs Poisoned w
      end
  | Rollback k =>
      let '(f, fs) := next_fault fs in
      match f with
      | NoFault => run (k None) fs Clean w
      | _ => run (k (Some (fault_exn f))) fs Poisoned w
      end
  end.

(** A run no fault disturbs, from and to a session with no transaction open. *)
Definition run_quiet {A} (p : prog A) (w : world) : (exn + A) * tx * world := run p [] Clean w.

Lemma run_handle_quiet {A B} (p : prog A) (h : exn + A -> prog B) x w :
  run (handle p h) [] x w = let '(r, x', w') := run p [] x w in run (h r) [] x' w'.
Proof.
  revert x w. induction p as [a|e|k IH|k IH|C q k IH|C s k IH|site k IH|k IH]; intros x w; simpl;
    try done; try apply IH.
  - destruct (reads_from x w); apply IH.
  - destruct (reads_from x w) as [d|]; [|apply IH].
    destruct (s (clock w) d) as [[] ?]; apply IH.
  - destruct x; apply IH.
Qed.

Lemma run_bind_quiet {A B} (p : prog A) (f : A -> prog B) x w :
  run (bind p f) [] x w =
    let '(r, x', w') := run p [] x w in
    match r with inr a => run (f a) [] x' w' | inl e => (inl e, x', w') end.
Proof. unfold bind. rewrite run_handle_quiet. destruct (run p [] x w) as [[[e|a] x'] w']; done. Qed.

Lemma run_try_quiet {A} (p : prog A) caught h x w :
  run (try_except p caught h) [] x w =
    let '(r, x', w') := run p [] x w in
    match r with
    | inr a => (inr a, x', w')
    | inl e => if caught e then run (h e) [] x' w' else (inl e, x', w')
    end.
Proof.
  unfold try_except. rewrite run_handle_quiet. destruct (run p [] x w) as [[[e|a] x'] w']; [|done].
  by destruct (caught e).
Qed.
