(* ===== verification/ScopedEnforcement.v ===== *)
(** The tenancy-scoped ceilings a request must pass
    ([src/src/gateway/services/budgets/_scoped_enforcement.py]).

    The scopes a request bills to arrive resolved: [BudgetScopeRequest] carries the
    [ScopeIdSets] that [_resolve_identities] reads from the tenancy tables. *)
From S2P Require Import Prelude Periods Refusals Tables Repositories Session.
From stdpp Require Import gmap strings list fin_maps sorting.
From Stdlib Require Import ZArith Lia.
Import CeilingRepo.
Open Scope Z_scope.

Definition SCOPE_PRECEDENCE (s : ScopeType) : Z :=
  match s with
  | SCOPE_WORKSPACE_MEMBER => 0
  | SCOPE_ORG_MEMBER => 1
  | SCOPE_API_TOKEN => 2
  | SCOPE_WORKSPACE => 3
  | SCOPE_ORGANIZATION => 4
  end.

Definition scope_subject (s : ScopeType) : string :=
  match s with
  | SCOPE_ORGANIZATION => "Organization"
  | SCOPE_WORKSPACE => "Workspace"
  | SCOPE_WORKSPACE_MEMBER => "Member"
  | SCOPE_ORG_MEMBER => "Member"
  | SCOPE_API_TOKEN => "API key"
  end.

(** The scope's name as the column stores it. *)
Definition scope_name (s : ScopeType) : string :=
  match s with
  | SCOPE_ORGANIZATION => "organization"
  | SCOPE_WORKSPACE => "workspace"
  | SCOPE_WORKSPACE_MEMBER => "workspace_member"
  | SCOPE_ORG_MEMBER => "org_member"
  | SCOPE_API_TOKEN => "api_token"
  end.

Record BudgetScopeRequest := mkScopeRequest {
  scope_ids : ScopeIdSets;
  provider_instance : option string
}.

Record ApplicableBudget := mkApplicableBudget {
  budget_id : string;
  ab_scope_type : ScopeType;
  ab_provider_key_id : option string;
  ab_token_limit : option Z;
  ab_request_limit : option Z
}.

Definition caps_counts (b : ApplicableBudget) : bool := is_set (ab_token_limit b) || is_set (ab_request_limit b).

Definition subject (b : ApplicableBudget) : string := scope_subject (ab_scope_type b).

(** ** Which ceilings a request passes, and in which order *)

Definition roll_ended_windows (cs : list ApplicableCeiling) (t : Z) : prog unit :=
  for_each cs (fun c =>
    match ac_period_end c with
    | None => Ret tt
    | Some e =>
        if t <? e then Ret tt
        else match period_window t (ac_budget_duration_sec c) (ac_reset_alignment c) with
             | Err _ => Ret tt
             | Ok window =>
                 let '(start, next_end) :=
                   match window with Some (s, e') => (s, Some e') | None => (t, None) end in
                 update (fun clk => roll_period clk t (scoped_budget_id c) start next_end)
             end
    end).

Definition to_applicable_budget (c : ApplicableCeiling) : ApplicableBudget :=
  mkApplicableBudget (scoped_budget_id c) (ac_scope_type c) (ac_provider_key_id c)
    (ac_token_limit c) (ac_request_limit c).

Definition window_ended (t : Z) (c : ApplicableCeiling) : bool :=
  match ac_period_end c with Some e => e <=? t | None => false end.

Definition roll_and_list_applicable (cs : list ApplicableCeiling) : prog (list ApplicableBudget) :=
  let! t := now in
  (if existsb (window_ended t) cs then roll_ended_windows cs t ;;! commit else Ret tt) ;;!
  Ret (to_applicable_budget <$> cs).

(** The sort key, compared as Python compares the tuple. *)
Definition narrowed (c : ApplicableCeiling) : Z := if is_set (ac_provider_key_id c) then 0 else 1.

Definition key_leb (x y : ApplicableCeiling) : bool :=
  let px := SCOPE_PRECEDENCE (ac_scope_type x) in
  let py := SCOPE_PRECEDENCE (ac_scope_type y) in
  if px <? py then true
  else if py <? px then false
  else if narrowed x <? narrowed y then true
  else if narrowed y <? narrowed x then false
  else String.leb (scoped_budget_id x) (scoped_budget_id y).

Definition key_le (x y : ApplicableCeiling) : Prop := key_leb x y = true.
#[export] Instance key_le_dec x y : Decision (key_le x y).
Proof. unfold key_le. apply _. Defined.

Definition binds (provider : option string) (c : ApplicableCeiling) : Prop :=
  ac_provider_key_id c = None \/ ac_provider_key_id c = provider.
#[export] Instance binds_dec p c : Decision (binds p c).
Proof. unfold binds. apply _. Defined.

Definition get_provider_ceilings (cs : list ApplicableCeiling) (provider : option string)
  : list ApplicableCeiling :=
  merge_sort key_le (filter (binds provider) cs).

Definition get_scope_ceilings (scope : BudgetScopeRequest) : prog (list ApplicableCeiling) :=
  query (fun _ d => list_applicable d (scope_ids scope)).

(** ** Holds *)

Definition release (ids : list string) (held : HeldAmounts) (commits : bool) : prog unit :=
  if bool_decide (ids = []) || negb (any_positive held) then Ret tt
  else
    (if commits then defer_commit_flush else Ret tt) ;;!
    update (fun t => release_holds t ids held) ;;!
    (if commits then commit else Ret tt).

(** What a release of [amt] dollars, if any, and these counts gives back. *)
Definition to_release (amt : option Z) (tok req : Z) : HeldAmounts := mkHeld (default 0 amt) tok req.

Fixpoint reserve_after (taken : list string) (bs : list ApplicableBudget) (amt : option Z)
    (tok req : Z) (new_request : bool) : prog (option ApplicableBudget) :=
  match bs with
  | [] => Ret None
  | b :: rest =>
      let! held :=
        try_except
          (defer_commit_flush ;;!
           let! held := update_rowcount (fun t => hold t (budget_id b) amt tok req new_request) in
           commit ;;! Ret held)
          is_database_error
          (fun e =>
             suppress is_database_error (rollback ;;! release taken (to_release amt tok req) true) ;;!
             Raise e) in
      if held then reserve_after (taken ++ [budget_id b]) rest amt tok req new_request
      else release taken (to_release amt tok req) true ;;! Ret (Some b)
  end.

Definition reserve (bs : list ApplicableBudget) (amt : option Z) (tok req : Z) (new_request : bool)
  : prog (option ApplicableBudget) :=
  reserve_after [] bs amt tok req new_request.

(** ** Which axis refused *)

Definition usage_axes (u : CeilingUsage) (amt : option Z) (tok req : Z) : list (string * option Z * Z * Z) :=
  let committed a := at_axis (usage_used u) a + at_axis (usage_held u) a in
  [ ("budget"%string, if is_set amt then max_budget (usage_budget u) else None, committed Usd, default 0 amt);
    ("token"%string, token_limit (usage_budget u), committed Tok, tok);
    ("request"%string, request_limit (usage_budget u), committed Req, req) ].

Definition refused_axis (usage : option CeilingUsage) (amt : option Z) (tok req : Z) (new_request : bool)
  : BlockedAxis :=
  match usage with
  | None => blocked "budget"
  | Some u =>
      match first_blocked (usage_axes u amt tok req) new_request with
      | Some b => with_resets_at b (usage_period_end u)
      | None => blocked "budget"
      end
  end.

Definition blocked_axis (b : ApplicableBudget) (amt : option Z) (tok req : Z) (new_request : bool)
  : prog BlockedAxis :=
  let! usage := query (fun _ d => get_usage d (budget_id b)) in
  Ret (refused_axis usage amt tok req new_request).

(** ** Settlement *)

Definition settle (ids : list string) (actual_cost : Z) (actual_tokens reqs : Z) (held : HeldAmounts)
    (counts_toward_budget commits : bool) : prog unit :=
  let used := if counts_toward_budget then mkHeld actual_cost actual_tokens reqs else zero_held in
  if bool_decide (ids = []) || negb (any_positive used || any_positive held) then Ret tt
  else
    (if commits then defer_commit_flush else Ret tt) ;;!
    update (fun t => CeilingRepo.settle t ids used held) ;;!
    (if commits then commit else Ret tt).
