(* ===== verification/Ledger.v ===== *)
(** The reservation ledger and its sweep
    ([src/src/gateway/services/budgets/_ledger.py]). *)
From S2P Require Import Prelude Periods Refusals Tables Repositories Session ScopedEnforcement.
From stdpp Require Import gmap strings list fin_maps.
From Stdlib Require Import ZArith Lia.
Open Scope Z_scope.

Definition record (user : string) (reserved : bool) (user_amounts : HeldAmounts)
    (scoped : list ApplicableBudget) (ceiling_amounts : HeldAmounts) (ttl_seconds : Z) (commits : bool)
  : prog (option nat) :=
  if negb reserved && bool_decide (budget_id <$> scoped = []) then Ret None
  else
    let! id := uuid4 in
    let! t := now in
    insert_row (fun _ => ReservationRepo.add id user reserved
      (if reserved then user_amounts else mkHeld (amount user_amounts) (tokens user_amounts) 0)
      ceiling_amounts (budget_id <$> scoped) (t + ttl_seconds * SECOND)) ;;!
    (if commits then commit_at LedgerRecord else Ret tt) ;;!
    Ret (Some id).

Definition is_integrity_error (e : exn) : bool := match e with IntegrityError => true | _ => false end.

Definition release_unrecorded (id : nat) (user : string) (scoped_budget_ids : list string) (held : HeldAmounts)
  : prog bool :=
  try_except
    (defer_commit_flush ;;!
     insert_row (fun t => ReservationRepo.add_released t id user) ;;!
     release scoped_budget_ids held false ;;!
     commit ;;!
     Ret true)
    is_integrity_error
    (fun _ => rollback ;;! Ret false).

Definition grow (id : option nat) (user_delta : Z) (user_grew : bool)
    (scoped_delta token_delta scoped_token_delta : Z) : prog bool :=
  match id with
  | None => Ret true
  | Some i =>
      let! active := update_rowcount (fun _ =>
        ReservationRepo.grow i user_delta user_grew scoped_delta token_delta scoped_token_delta) in
      if active then commit ;;! Ret true else Ret false
  end.

Definition try_terminate (id : option nat) (s : ReservationStatus) : prog bool :=
  match id with
  | None => Ret true
  | Some i => update_rowcount (fun _ => ReservationRepo.try_terminate i s)
  end.

Definition try_settle_reclaimed (id : option nat) : prog bool :=
  match id with
  | None => Ret false
  | Some i => update_rowcount (fun _ => ReservationRepo.try_settle_reclaimed i)
  end.

(** ** Reclaiming a row *)

(** [by_amounts.setdefault(held, []).append(id)], in insertion order. *)
Fixpoint add_to_group (h : HeldAmounts) (id : string) (gs : list (HeldAmounts * list string))
  : list (HeldAmounts * list string) :=
  match gs with
  | [] => [(h, [id])]
  | (h', ids) :: gs' => if decide (h' = h) then (h', ids ++ [id]) :: gs' else (h', ids) :: add_to_group h id gs'
  end.

Definition by_amounts (ls : list ReservationLine) : list (HeldAmounts * list string) :=
  foldl (fun gs l => if any_positive (line_held l) then add_to_group (line_held l) (line_budget_id l) gs else gs)
    [] ls.

(** [row] is the row as [list_expired] read it; its lines are read again here. *)
Definition release_row_holds (id : nat) (row : BudgetReservation) : prog unit :=
  let! ls := query (fun _ d => ReservationRepo.list_lines d id) in
  (if user_reserved row && any_positive (row_held row) then
     update_rowcount (fun t => UserRows.update_user t (row_user_id row) (fun _ => true)
       (fun u => (user_used u, released (row_held row) (user_held u)))) ;;! Ret tt
   else Ret tt) ;;!
  for_each (by_amounts ls) (fun '(held, ids) => release ids held false).

Fixpoint reclaim (expired : list (nat * BudgetReservation)) : prog Z :=
  match expired with
  | [] => Ret 0
  | (id, row) :: rest =>
      defer_commit_flush ;;!
      let! claimed := try_terminate (Some id) RESERVATION_EXPIRED in
      if claimed then
        release_row_holds id row ;;! commit ;;!
        let! n := reclaim rest in Ret (n + 1)
      else commit ;;! reclaim rest
  end.

Definition reclaim_expired_for_user (user : string) (limit : nat) : prog Z :=
  let! expired := query (fun t d => ReservationRepo.list_expired d t limit (Some user)) in
  reclaim expired.

Definition sweep_expired (batch_size : nat) : prog Z :=
  let! expired := query (fun t d => ReservationRepo.list_expired d t batch_size None) in
  reclaim expired.

(** ** Holds no row records *)

(** The counters that exceed what the active rows hold, each brought down to that sum. *)
Definition clamped (counters held : HeldAmounts) (a : axis) : option Z :=
  if at_axis held a <? at_axis counters a then Some (at_axis held a) else None.

Definition any_clamped (counters held : HeldAmounts) : bool :=
  is_set (clamped counters held Usd) || is_set (clamped counters held Tok) || is_set (clamped counters held Req).

Definition reconcile_user (user : string) (cutoff : Z) : prog bool :=
  defer_commit_flush ;;!
  let! counters := locking_query (fun _ d =>
    match UserRows.get_active_user d user with
    | Some u => if quiet (user_updated_at u) cutoff then Some (user_held u) else None
    | None => None
    end) in
  match counters with
  | None => commit ;;! Ret false
  | Some cs =>
      let! held := query (fun _ d => ReservationRepo.active_user_held d user) in
      (if any_clamped cs held
       then update (fun t => UserRows.clamp_user t user (clamped cs held)) else Ret tt) ;;!
      commit ;;!
      Ret (any_clamped cs held)
  end.

Definition reconcile_scoped (id : string) (cutoff : Z) : prog bool :=
  defer_commit_flush ;;!
  let! counters := locking_query (fun _ d => CeilingRepo.lock_quiet_holds d id cutoff) in
  match counters with
  | None => commit ;;! Ret false
  | Some cs =>
      let! held := query (fun _ d => ReservationRepo.active_ceiling_held d id) in
      (if any_clamped cs held
       then update (fun t => CeilingRepo.clamp_holds t id (clamped cs held)) else Ret tt) ;;!
      commit ;;!
      Ret (any_clamped cs held)
  end.

Fixpoint count_moved {A} (l : list A) (f : A -> prog bool) : prog Z :=
  match l with
  | [] => Ret 0
  | x :: l' =>
      let! moved := f x in
      let! n := count_moved l' f in
      Ret (Z.b2z moved + n)
  end.

Definition quiet_users (d : database) (cutoff : Z) (batch_size : nat) : list string :=
  take batch_size (omap (fun '(id, u) =>
    if negb (user_deleted u) && any_positive (user_held u) && quiet (user_updated_at u) cutoff
    then Some id else None) (map_to_list (users d))).

Definition reconcile_orphaned_holds (quiet_sec : Z) (batch_size : nat) : prog Z :=
  let! t := now in
  let cutoff := t - quiet_sec * SECOND in
  let! user_ids := query (fun _ d => quiet_users d cutoff batch_size) in
  let! scoped_ids := query (fun _ d => CeilingRepo.list_quiet_held d cutoff batch_size) in
  commit ;;!
  let! m := count_moved user_ids (fun u => reconcile_user u cutoff) in
  let! n := count_moved scoped_ids (fun s => reconcile_scoped s cutoff) in
  Ret (m + n).

(** ** Retention and the timer *)

Definition prune_terminal (older_than_sec : Z) (batch_size : nat) : prog Z :=
  if older_than_sec <=? 0 then Ret 0
  else
    let! t := now in
    let! ids := query (fun _ d =>
      ReservationRepo.list_terminal_ids d (t - older_than_sec * SECOND) batch_size) in
    if bool_decide (ids = []) then Ret 0
    else
      update (fun _ => ReservationRepo.delete_by_ids ids) ;;!
      commit ;;!
      Ret (Z.of_nat (length ids)).

Definition MAX_SWEEP_PASSES : nat := 10.

(** [for _ in range(passes): if await f() < batch_size: break]. *)
Fixpoint drain (passes : nat) (f : prog Z) (batch_size : nat) : prog unit :=
  match passes with
  | O => Ret tt
  | S n => let! k := f in if k <? Z.of_nat batch_size then Ret tt else drain n f batch_size
  end.

(** One tick of [run_reservation_sweeper], between two sleeps. *)
Definition sweeper_tick (batch_size : nat) (retention_sec ttl_sec : Z) : prog unit :=
  try_except
    (drain MAX_SWEEP_PASSES (sweep_expired batch_size) batch_size ;;!
     reconcile_orphaned_holds ttl_sec batch_size ;;!
     drain MAX_SWEEP_PASSES (prune_terminal retention_sec batch_size) batch_size)
    (fun _ => true)
    (fun _ => Ret tt).
