(* ===== verification/Reservations.v ===== *)
(** Budget reservations: pre-debit an estimate on every budget that applies, settle it or
    give it back ([src/src/gateway/services/budgets/_reservations.py]).

    [estimate] and [amount] arguments are micro-dollars.  A mutable [ReservationHandle]
    is passed and returned; where a caller sees a handle its callee changed before
    raising, the exception is returned beside it. *)
From S2P Require Import Prelude Periods Refusals Tables Repositories Session ScopedEnforcement Ledger.
From stdpp Require Import gmap strings list fin_maps pretty.
From Stdlib Require Import ZArith Lia Ascii.
Import CeilingRepo UserRows.
Open Scope Z_scope.

Definition MAX_COUNT_LIMIT : Z := 1000000000000000.
Definition DEFAULT_RESERVATION_TTL_SEC : Z := 900.

(** ** The strategy's name *)

Definition lower_char (c : ascii) : ascii :=
  let n := nat_of_ascii c in
  if (65 <=? Z.of_nat n) && (Z.of_nat n <=? 90) then ascii_of_nat (n + 32) else c.

Fixpoint lower (s : string) : string :=
  match s with EmptyString => EmptyString | String c s' => String (lower_char c) (lower s') end.

Definition is_space (c : ascii) : bool :=
  let n := Z.of_nat (nat_of_ascii c) in (n =? 32) || ((9 <=? n) && (n <=? 13)) || ((28 <=? n) && (n <=? 31)).

Fixpoint lstrip (s : string) : string :=
  match s with
  | String c s' => if is_space c then lstrip s' else s
  | EmptyString => EmptyString
  end.

Fixpoint rstrip (s : string) : string :=
  match s with
  | EmptyString => EmptyString
  | String c s' =>
      match rstrip s' with
      | EmptyString => if is_space c then EmptyString else String c EmptyString
      | r => String c r
      end
  end.

Definition normalize_strategy (strategy : option string) : string :=
  let s := match strategy with None | Some EmptyString => "for_update"%string | Some s => s end in
  let normalized := lower (rstrip (lstrip s)) in
  if bool_decide (normalized ∈ ["for_update"; "cas"; "disabled"]%string) then normalized else "for_update".

(** ** Handles *)

Record ReservationHandle := mkHandle {
  user_id : string;
  estimate : Z;
  reserved : bool;
  strategy : string;
  counts_toward_budget : bool;
  scoped_budgets : list ApplicableBudget;
  scoped_estimate : Z;
  token_estimate : Z;
  scoped_token_estimate : Z;
  request_estimate : Z;
  scoped_request_estimate : Z;
  reservation_id : option nat;
  reservation_ttl_sec : Z;
  scope_ceilings : list ApplicableCeiling
}.

Definition scoped_budget_ids (h : ReservationHandle) : list string := budget_id <$> scoped_budgets h.

(** What each leg of a handle holds on each axis. *)
Definition user_leg (h : ReservationHandle) : HeldAmounts :=
  mkHeld (estimate h) (token_estimate h) (request_estimate h).
Definition scoped_leg (h : ReservationHandle) : HeldAmounts :=
  mkHeld (scoped_estimate h) (scoped_token_estimate h) (scoped_request_estimate h).

Definition set_scoped_leg (h : ReservationHandle) (amt tok : Z) : ReservationHandle :=
  mkHandle (user_id h) (estimate h) (reserved h) (strategy h) (counts_toward_budget h)
    (scoped_budgets h) amt (token_estimate h) tok (request_estimate h)
    (scoped_request_estimate h) (reservation_id h) (reservation_ttl_sec h) (scope_ceilings h).

Definition set_user_leg (h : ReservationHandle) (amt tok : Z) (holds : bool) : ReservationHandle :=
  mkHandle (user_id h) amt holds (strategy h) (counts_toward_budget h)
    (scoped_budgets h) (scoped_estimate h) tok (scoped_token_estimate h) (request_estimate h)
    (scoped_request_estimate h) (reservation_id h) (reservation_ttl_sec h) (scope_ceilings h).

(** A handle that holds nothing. *)
Definition empty_handle (user strategy : string) (counts : bool) (ttl : Z) (cs : list ApplicableCeiling)
  : ReservationHandle :=
  mkHandle user 0 false strategy counts [] 0 0 0 0 0 None ttl cs.

(** ** Estimates *)

Definition estimate_tokens (prompt_chars : Z) (max_output_tokens : option Z) (default_output_tokens : Z) : Z :=
  let prompt_tokens := (Z.max prompt_chars 0 + 3) / 4 in
  let output_tokens := match max_output_tokens with Some n => n | None => default_output_tokens end in
  prompt_tokens + Z.max output_tokens 0.

Definition estimate_output_tokens (streamed_chars : Z) : Z := (Z.max streamed_chars 0 + 3) / 4.

Record CompletionUsage := mkCompletionUsage { prompt_tokens : Z; completion_tokens : Z; total_tokens : Z }.

Definition estimate_abandoned_stream_usage (policy : string) (prompt_chars : option Z) (streamed_chars : Z)
  : option CompletionUsage :=
  if bool_decide (policy = "estimate"%string) then
    match prompt_chars with
    | None => None
    | Some n =>
        let p := estimate_tokens n (Some 0) 0 in
        let o := estimate_output_tokens streamed_chars in
        Some (mkCompletionUsage p o (p + o))
    end
  else None.

Record AbandonedStreamRow := mkAbandoned {
  usage : option CompletionUsage; incomplete : bool; error : option string
}.

Definition settle_abandoned_stream (policy : string) (prompt_chars : option Z) (streamed_chars : Z)
    (reported_usage : option CompletionUsage) (has_tool_work : bool)
  : option AbandonedStreamRow :=
  let estimated :=
    if is_set reported_usage then None
    else estimate_abandoned_stream_usage policy prompt_chars streamed_chars in
  if negb (has_tool_work || is_set reported_usage || is_set estimated) then None
  else Some (mkAbandoned (match reported_usage with Some u => Some u | None => estimated end)
         (is_set estimated) (if is_set estimated then None else Some "client disconnected before the stream completed"%string)).

(** ** The per-user budget *)

(** [budget_window]: a budget's window, off its two columns. *)
Definition budget_window (t : Z) (b : Budget) : result period_error (option (Z * Z)) :=
  period_window t (budget_duration_sec b) (reset_alignment b).

Definition cas_reset_user_budget (user : string) (u : User) (b : Budget) (t : Z) : prog User :=
  match budget_window t b with
  | Err _ => Raise ValueError
  | Ok window =>
      let '(started_at, next_reset_at) :=
        match window with Some (s, e) => (s, Some e) | None => (t, None) end in
      defer_commit_flush ;;!
      let! won := update_rowcount (fun clk => reset_user clk t user started_at next_reset_at) in
      if won then
        try_except
          (update (fun _ d => add_reset_log d
             (mkResetLog user (default "" (user_budget_id u)) (amount (user_used u)) t next_reset_at)) ;;!
           commit)
          is_sqlalchemy_error
          (fun e => rollback ;;! Raise e) ;;!
        let! refreshed := query (fun _ d => get_active_user d user) in
        Ret (default u refreshed)
      else
        commit ;;!
        let! refreshed := query (fun _ d => users d !! user) in
        Ret (default u refreshed)
  end.

Definition user_axes (b : Budget) (u : User) (amt : option Z) (tok req : Z) : list (string * option Z * Z * Z) :=
  let committed a := at_axis (user_used u) a + at_axis (user_held u) a in
  [ ("budget"%string, if is_set amt then max_budget b else None, committed Usd, default 0 amt);
    ("token"%string, token_limit b, committed Tok, tok);
    ("request"%string, request_limit b, committed Req, req) ].

(** [_blocked_axis]. *)
Definition user_blocked_axis (b : Budget) (u : User) (amt : option Z) (tok req : Z) (new_request : bool)
  : BlockedAxis :=
  match first_blocked (user_axes b u amt tok req) new_request with
  | Some x => with_resets_at x (next_budget_reset_at u)
  | None => blocked "budget"
  end.

Definition budget_exceeded {A} (detail : string) (b : BlockedAxis) (budget_scope : string) : prog A :=
  let! t := now in
  Raise (HTTPException 403 detail budget_scope (retry_after b t)).

(** ** Taking a hold *)

Definition best_effort_rollback (caught : exn -> bool) : prog unit := suppress caught rollback.

(** [_held_handle]: build the handle of a hold that has been taken, and ledger it. *)
Definition held_handle (user : string) (user_reserved : bool) (user_amounts : HeldAmounts) (strategy : string)
    (counts : bool) (scoped : list ApplicableBudget) (ceiling_amounts : HeldAmounts)
    (cs : list ApplicableCeiling) (ttl_seconds : Z) (record_reservation user_hold_uncommitted : bool)
  : prog ReservationHandle :=
  let ids := budget_id <$> scoped in
  let! id :=
    if user_hold_uncommitted then
      let! id :=
        try_except
          (let! id :=
             (if record_reservation
              then record user user_reserved user_amounts scoped ceiling_amounts ttl_seconds false
              else Ret None) in
           flush ;;! Ret id)
          is_database_error
          (fun e =>
             best_effort_rollback is_database_error ;;!
             (if bool_decide (scoped = []) then Ret tt else release ids ceiling_amounts true) ;;!
             Raise e) in
      try_except
        commit
        is_database_error
        (fun e =>
           best_effort_rollback is_database_error ;;!
           match id with
           | Some i =>
               if bool_decide (scoped = []) then Ret tt
               else try_except
                      (release_unrecorded i user ids ceiling_amounts ;;! Ret tt)
                      is_database_error
                      (fun _ => best_effort_rollback is_database_error)
           | None => Ret tt
           end ;;!
           Raise e) ;;!
      Ret id
    else if record_reservation then
      try_except
        (record user user_reserved user_amounts scoped ceiling_amounts ttl_seconds true)
        is_sqlalchemy_error
        (fun _ => best_effort_rollback is_sqlalchemy_error ;;! Ret None)
    else Ret None in
  Ret (mkHandle user (amount user_amounts) user_reserved strategy counts scoped (amount ceiling_amounts)
    (tokens user_amounts) (tokens ceiling_amounts) (requests user_amounts) (requests ceiling_amounts)
    id ttl_seconds cs).

(** [_hold_on_user]: the per-user hold, giving the ceilings' holds back if the database fails it. *)
Definition hold_on_user (statement : Z -> database -> bool * database) (scoped : list ApplicableBudget)
    (held : HeldAmounts) : prog bool :=
  try_except
    (defer_commit_flush ;;! update_rowcount statement)
    is_database_error
    (fun e =>
       suppress is_database_error
         (rollback ;;!
          if bool_decide (scoped = []) then Ret tt else release (budget_id <$> scoped) held true) ;;!
       Raise e).

Definition ceiling_held_of (scoped : list ApplicableBudget) (usd : option Z) (tok req : Z) : HeldAmounts :=
  if bool_decide (scoped = []) then zero_held else mkHeld (default 0 usd) tok req.

(** The clauses of one capped axis in the per-user UPDATE. *)
Definition guards_for (new_request : bool) (committed held_amount cap : Z) : bool :=
  (committed + held_amount <=? cap) && (if new_request then committed <? cap else true).

Definition user_guards (b : Budget) (usd : option Z) (tok req : Z) (new_request : bool) (u : User) : bool :=
  let committed a := at_axis (user_used u) a + at_axis (user_held u) a in
  match max_budget b, usd with
  | Some cap, Some x => guards_for new_request (committed Usd) x cap
  | _, _ => true
  end
  && match token_limit b with Some cap => guards_for new_request (committed Tok) tok cap | None => true end
  && match request_limit b with Some cap => guards_for new_request (committed Req) req cap | None => true end.

Record reserve_args := mkReserve {
  a_user_id : string;
  a_estimate : Z;
  a_estimated_tokens : Z;
  a_requests : Z;
  a_new_request : bool;
  a_strategy : option string;
  a_counts_toward_budget : bool;
  a_scope : option BudgetScopeRequest;
  a_model_is_free : bool;   (** the caller's answer, or [_is_model_free]'s for its model *)
  a_reservation_ttl_sec : Z;
  a_record_reservation : bool;
  a_reserved_output_tokens : option Z
}.

(** The uncapped and the capped per-user leg, after every ceiling has been held. *)
Definition reserve_user_leg (a : reserve_args) (strategy : string) (b : Budget) (usd : option Z)
    (tok req : Z) (scoped : list ApplicableBudget) (cs : list ApplicableCeiling) : prog ReservationHandle :=
  let held := mkHeld (default 0 usd) tok req in
  let build :=
    held_handle (a_user_id a) true held strategy (a_counts_toward_budget a) scoped
      (ceiling_held_of scoped usd tok req) cs (a_reservation_ttl_sec a) (a_record_reservation a) true in
  match max_budget b, token_limit b, request_limit b with
  | None, None, None =>
      hold_on_user (fun t => update_user t (a_user_id a) (fun _ => true) (add_hold held)) scoped held ;;!
      build
  | _, _, _ =>
      let! admitted :=
        hold_on_user (fun t => update_user t (a_user_id a)
          (user_guards b usd tok req (a_new_request a)) (add_hold held)) scoped held in
      if admitted then build
      else
        commit ;;!
        release (budget_id <$> scoped) held true ;;!
        let! refused_on := query (fun _ d => get_active_user d (a_user_id a)) in
        let x := match refused_on with
                 | Some u => user_blocked_axis b u usd tok req (a_new_request a)
                 | None => blocked "budget"
                 end in
        budget_exceeded
          (refusal_detail ("User '" ++ a_user_id a ++ "'") x (a_new_request a) (a_reserved_output_tokens a))
          x "user"
  end.

Definition holds_nothing (budget : option Budget) (u : User) : bool :=
  is_set budget && bool_decide (user_held u = zero_held).

(** From the first hold on: the ceilings, then the per-user leg. *)
Definition reserve_holds (a : reserve_args) (strategy : string) (u : User) (budget : option Budget)
    (usd : option Z) (tok req : Z) (scoped : list ApplicableBudget) (cs : list ApplicableCeiling)
  : prog ReservationHandle :=
  (if a_record_reservation a && negb (holds_nothing budget u)
   then reclaim_expired_for_user (a_user_id a) 20 ;;! Ret tt else Ret tt) ;;!
  let! refused :=
    if bool_decide (scoped = []) then Ret None
    else ScopedEnforcement.reserve scoped usd tok req (a_new_request a) in
  match refused with
  | Some r =>
      let! x := blocked_axis r usd tok req (a_new_request a) in
      budget_exceeded (refusal_detail (subject r) x (a_new_request a) (a_reserved_output_tokens a))
        x (scope_name (ab_scope_type r))
  | None =>
      match budget with
      | None =>
          held_handle (a_user_id a) false zero_held strategy (a_counts_toward_budget a) scoped
            (mkHeld (default 0 usd) tok req) cs (a_reservation_ttl_sec a) (a_record_reservation a) false
      | Some b => reserve_user_leg a strategy b usd tok req scoped cs
      end
  end.

(** The period roll and the ceilings, for a user the checks let through. *)
Definition reserve_checked (a : reserve_args) (strategy : string) (u : User) (budget : option Budget)
  : prog ReservationHandle :=
  let held := Z.max (a_estimate a) 0 in
  let tok := Z.min (Z.max (a_estimated_tokens a) 0) MAX_COUNT_LIMIT in
  let req := Z.max (a_requests a) 0 in
  let! u :=
    match budget with
    | Some b =>
        let! t := now in
        match next_budget_reset_at u with
        | Some r => if r <=? t then cas_reset_user_budget (a_user_id a) u b t else Ret u
        | None => Ret u
        end
    | None => Ret u
    end in
  let! (cs, scoped) :=
    match a_scope a with
    | Some s =>
        let! cs := get_scope_ceilings s in
        let! scoped := roll_and_list_applicable (get_provider_ceilings cs (provider_instance s)) in
        Ret (cs, scoped)
    | None => Ret ([], [])
    end in
  let no_reservation := empty_handle (a_user_id a) strategy true (a_reservation_ttl_sec a) cs in
  if negb (is_set budget) && bool_decide (scoped = []) then Ret no_reservation
  else
    let budget_caps_counts :=
      match budget with Some b => is_set (token_limit b) || is_set (request_limit b) | None => false end in
    if a_model_is_free a && negb budget_caps_counts && negb (existsb caps_counts scoped)
    then Ret no_reservation
    else reserve_holds a strategy u budget (if a_model_is_free a then None else Some held) tok req scoped cs.

Definition reserve_budget (a : reserve_args) : prog ReservationHandle :=
  let normalized := normalize_strategy (a_strategy a) in
  let! loaded := query (fun _ d => active_user_with_budget d (a_user_id a)) in
  match loaded with
  | None => Raise (HTTPException 404 ("User '" ++ a_user_id a ++ "' not found") "" None)
  | Some (u, budget) =>
      if user_blocked u then Raise (HTTPException 403 ("User '" ++ a_user_id a ++ "' is blocked") "" None)
      else if negb (a_counts_toward_budget a)
      then Ret (empty_handle (a_user_id a) normalized false DEFAULT_RESERVATION_TTL_SEC [])
      else if bool_decide (normalized = "disabled"%string)
      then Ret (empty_handle (a_user_id a) normalized true DEFAULT_RESERVATION_TTL_SEC [])
      else reserve_checked a normalized u budget
  end.

(** ** Settling and giving back *)

(** [release_reserved_expression] on dollars, and on each count the handle holds. *)
Definition release_leg (h : ReservationHandle) (held : HeldAmounts) : HeldAmounts :=
  mkHeld (release_expression (amount held) (estimate h))
    (if token_estimate h =? 0 then tokens held else release_expression (tokens held) (token_estimate h))
    (if request_estimate h =? 0 then requests held else release_expression (requests held) (request_estimate h)).

Definition reconcile_reservation (h : ReservationHandle) (actual_cost actual_tokens : Z) : prog unit :=
  defer_commit_flush ;;!
  let! claimed := try_terminate (reservation_id h) RESERVATION_SETTLED in
  let! late := if claimed then Ret false else try_settle_reclaimed (reservation_id h) in
  if negb claimed && negb late then commit
  else
    let reclaimed_early := late in
    let spent := Z.max actual_cost 0 in
    let settled_tokens := Z.max actual_tokens 0 in
    let spends := negb (spent =? 0) && counts_toward_budget h in
    let windows := reserved h && counts_toward_budget h in
    let releases := reserved h && negb reclaimed_early in
    (if spends || (windows && (negb (settled_tokens =? 0) || negb (request_estimate h =? 0))) || releases
     then
       update_rowcount (fun t => update_user t (user_id h) (fun _ => true) (fun u =>
         (add_held (user_used u) (mkHeld (if spends then spent else 0) (if windows then settled_tokens else 0)
            (if windows then request_estimate h else 0)),
          if releases then release_leg h (user_held u) else user_held u))) ;;! Ret tt
     else Ret tt) ;;!
    ScopedEnforcement.settle (scoped_budget_ids h) spent settled_tokens (scoped_request_estimate h)
      (if reclaimed_early then zero_held else scoped_leg h) (counts_toward_budget h) false ;;!
    commit.

Definition record_external_spend (user : string) (cost : Z) : prog unit :=
  reconcile_reservation (empty_handle user "disabled" true DEFAULT_RESERVATION_TTL_SEC []) cost 0.

Definition refund_reservation (h : ReservationHandle) : prog unit :=
  defer_commit_flush ;;!
  let! claimed := try_terminate (reservation_id h) RESERVATION_RELEASED in
  if negb claimed then commit
  else
    (if reserved h then
       update_rowcount (fun t => update_user t (user_id h) (fun _ => true)
         (fun u => (user_used u, release_leg h (user_held u)))) ;;! Ret tt
     else Ret tt) ;;!
    release (scoped_budget_ids h) (scoped_leg h) false ;;!
    commit.

(** ** Growing a hold *)

(** Go on with the handle where [p] returned, stop with the handle as it stands where [p] raised. *)
Definition or_raised {A} (h : ReservationHandle) (p : prog A)
    (f : A -> prog (ReservationHandle * option exn)) : prog (ReservationHandle * option exn) :=
  let! r := attempt p in
  match r with
  | inl e => Ret (h, Some e)
  | inr x => f x
  end.

(** Give a top-up's delta back when its row turned out to be reclaimed. *)
Definition return_delta (h : ReservationHandle) (delta : option ReservationHandle) (additional grown_tokens : Z)
  : prog (ReservationHandle * option exn) :=
  let scoped_grew := (0 <? additional) || (0 <? grown_tokens) in
  or_raised h
    (if scoped_grew then release (scoped_budget_ids h) (mkHeld additional grown_tokens 0) true else Ret tt)
    (fun _ =>
       let h := if scoped_grew
                then set_scoped_leg h (scoped_estimate h - additional) (scoped_token_estimate h - grown_tokens)
                else h in
       match delta with
       | None => Ret (h, None)
       | Some x =>
           or_raised h
             (defer_commit_flush ;;!
              update_rowcount (fun t => update_user t (user_id h) (fun _ => true) (fun u =>
                (user_used u,
                 mkHeld (release_expression (amount (user_held u)) (estimate x))
                   (if token_estimate x =? 0 then tokens (user_held u)
                    else release_expression (tokens (user_held u)) (token_estimate x))
                   (requests (user_held u))))) ;;!
              commit)
             (fun _ => Ret (set_user_leg h (estimate h - estimate x) (token_estimate h - token_estimate x)
                (reserved h), None))
       end).

(** The top-up's own arguments to [reserve_budget]: no scope, and no ledger row. *)
Definition top_up_args (h : ReservationHandle) (amt tok : Z) (model_is_free : bool) (strategy : option string)
  : reserve_args :=
  mkReserve (user_id h) amt tok 0 false strategy true None model_is_free DEFAULT_RESERVATION_TTL_SEC false None.

Definition increase_reservation (h : ReservationHandle) (new_estimate new_tokens : Z) (model_is_free : bool)
    (strategy : option string) : prog (ReservationHandle * option exn) :=
  let size := Z.max new_estimate 0 in
  let size_tokens := Z.min (Z.max new_tokens 0) MAX_COUNT_LIMIT in
  let scoped := negb (bool_decide (scoped_budgets h = [])) in
  let additional := if scoped then Z.max (size - scoped_estimate h) 0 else 0 in
  let grown_tokens := if scoped then Z.max (size_tokens - scoped_token_estimate h) 0 else 0 in
  let user_additional := Z.max (size - estimate h) 0 in
  let user_grown_tokens := Z.max (size_tokens - token_estimate h) 0 in
  if (additional <=? 0) && (grown_tokens =? 0) && (user_additional <=? 0) && (user_grown_tokens =? 0)
  then Ret (h, None)
  else if negb (counts_toward_budget h) then Ret (h, None)
  else
    let scoped_grows := (0 <? additional) || (0 <? grown_tokens) in
    or_raised h
      (if scoped_grows then
         let! refused := ScopedEnforcement.reserve (scoped_budgets h) (Some additional) grown_tokens 0 false in
         match refused with
         | Some r =>
             let! x := blocked_axis r (Some additional) grown_tokens 0 false in
             budget_exceeded (refusal_detail (subject r) x false None) x (scope_name (ab_scope_type r))
         | None => Ret tt
         end
       else Ret tt)
      (fun _ =>
         let h := if scoped_grows
                  then set_scoped_leg h (scoped_estimate h + additional) (scoped_token_estimate h + grown_tokens)
                  else h in
         or_raised h
           (if (0 <? user_additional) || (0 <? user_grown_tokens)
            then let! x := reserve_budget (top_up_args h user_additional user_grown_tokens model_is_free strategy) in
                 Ret (if reserved x then Some x else None)
            else Ret None)
           (fun delta =>
              let h := match delta with
                       | Some x => set_user_leg h (estimate h + estimate x) (token_estimate h + token_estimate x) true
                       | None => h
                       end in
              if negb (is_set delta) && (additional <=? 0) && (grown_tokens =? 0) then Ret (h, None)
              else
                let d_usd := match delta with Some x => estimate x | None => 0 end in
                let d_tok := match delta with Some x => token_estimate x | None => 0 end in
                or_raised h
                  (grow (reservation_id h) d_usd (is_set delta) additional d_tok grown_tokens)
                  (fun grown => if grown then Ret (h, None) else return_delta h delta additional grown_tokens))).

(** The amount held, [None] where a budget had no room, and what a database error left. *)
Definition hold_tool_call (h : ReservationHandle) (amt : Z) (strategy : string) (calls : Z)
  : prog (ReservationHandle * (exn + option Z)) :=
  let held := Z.max amt 0 * calls in
  let before := h in
  let! (h, raised) :=
    increase_reservation h (Z.max (estimate h) (scoped_estimate h) + held) 0 false (Some strategy) in
  let! outcome :=
    match raised with
    | Some e =>
        if is_http_exception e then
          let! r := attempt (release (scoped_budget_ids h)
            (mkHeld (scoped_estimate h - scoped_estimate before) 0 0) false ;;! commit) in
          Ret (match r with
               | inl e' => (h, inl e')
               | inr _ => (set_scoped_leg h (scoped_estimate before) (scoped_token_estimate h), inr None)
               end)
        else Ret (h, inl e)
    | None =>
        let! r := attempt commit in
        Ret (h, match r with inl e' => inl e' | inr _ => inr (Some held) end)
    end in
  Ret (match outcome with
       | (h', inl e) => (if is_database_error e then before else h', inl e)
       | other => other
       end).
