(* ===== verification/Fixtures.v ===== *)
(** A small deployment that the witnesses run: one organisation with a ceiling, one user on a
    budget, and requests of 400 micro-dollars, 20 tokens and one request each. *)
From S2P Require Import Prelude Periods Refusals Tables Repositories Session ScopedEnforcement Reservations.
From stdpp Require Import gmap strings list fin_maps.
From Stdlib Require Import ZArith Lia.
Open Scope Z_scope.

Definition small_budget : Budget := mkBudget (Some 1000) (Some 100) (Some 5) None None.
Definition ann : User := mkUser (Some "b"%string) zero_held zero_held false false None None None.
Definition acme : ScopedBudget :=
  mkScoped SCOPE_ORGANIZATION "acme" None "b" zero_held zero_held None None None.
Definition team : ScopedBudget :=
  mkScoped SCOPE_WORKSPACE "team" None "b" zero_held zero_held None None None.

Definition small_db : database :=
  mkDb {["ann"%string := ann]} {["b"%string := small_budget]}
    {["org-ceiling"%string := acme; "team-ceiling"%string := team]} ∅ [] ∅.
Definition small_world : world := mkWorld small_db 0 0.

Definition acme_scope : BudgetScopeRequest :=
  mkScopeRequest (CeilingRepo.mkScopes ["acme"%string] ["team"%string] [] [] []) None.

Definition request_of (usd tok : Z) : reserve_args :=
  mkReserve "ann" usd tok 1 true (Some "for_update"%string) true (Some acme_scope) false 600 true None.

(** Every commit may land and still report failure, but the ledger's own insert. *)
Definition lossy : policy := fun site => match site with LedgerRecord => false | OtherCommit => true end.

Lemma no_rows_wf d : reservations d = ∅ -> rows_wf d.
Proof. intros H i r Hr. rewrite H in Hr. by rewrite lookup_empty in Hr. Qed.

Lemma no_rows_recorded d c a : reservations d = ∅ -> recorded d c a = 0.
Proof. intros H. unfold recorded. rewrite H. apply map_fold_empty. Qed.

Lemma small_db_held c h : counter_held small_db c = Some h -> h = zero_held.
Proof.
  destruct c as [u|s]; simpl; intros (r & Hr & H)%bind_Some.
  - apply lookup_singleton_Some in Hr as [_ <-]. by simplify_eq/=.
  - apply lookup_insert_Some in Hr as [[_ <-]|[_ Hr]]; [by simplify_eq/=|].
    apply lookup_singleton_Some in Hr as [_ <-]. by simplify_eq/=.
Qed.

(** A user with no budget of their own, whom only the ceilings hold back. *)
Definition bob : User := mkUser None zero_held zero_held false false None None None.
Definition open_db : database :=
  mkDb {["bob"%string := bob]} {["b"%string := small_budget]} {["org-ceiling"%string := acme]} ∅ [] ∅.
Definition open_world : world := mkWorld open_db 0 0.
Definition bob_request : reserve_args :=
  mkReserve "bob" 400 20 1 true (Some "for_update"%string) true
    (Some (mkScopeRequest (CeilingRepo.mkScopes ["acme"%string] [] [] [] []) None)) false 600 true None.

(** ** Tests that decide a concrete database's invariants *)

Definition axes : list axis := [Usd; Tok; Req].

Definition covers_ledger (d : database) : bool :=
  bool_decide (map_Forall (fun s r => Forall (fun a => recorded d (CCeiling s) a <= at_axis (ceiling_held r) a) axes)
                 (ceilings d))
  && bool_decide (map_Forall (fun u r => Forall (fun a => recorded d (CUser u) a <= at_axis (user_held r) a) axes) (users d)).

Lemma covers_ledger_spec d c x a :
  covers_ledger d = true -> counter_held d c = Some x -> recorded d c a <= at_axis x a.
Proof.
  unfold covers_ledger. intros H Hx. apply andb_true_iff in H as [H1 H2].
  apply bool_decide_eq_true in H1, H2. destruct c as [u|s].
  - apply bind_Some in Hx as (r & Hr & Hd). destruct (user_deleted r); [done|]. injection Hd as <-.
    specialize (H2 u r Hr). cbv beta in H2. rewrite Forall_forall in H2. apply H2. destruct a; set_solver.
  - apply bind_Some in Hx as (r & Hr & [= <-]). specialize (H1 s r Hr). cbv beta in H1.
    rewrite Forall_forall in H1. apply H1. destruct a; set_solver.
Qed.

Definition ledger_wf (d : database) : bool :=
  bool_decide (map_Forall (fun i r =>
    Forall (fun a => 0 <= at_axis (row_held r) a) axes
    /\ Forall (fun l => Forall (fun a => 0 <= at_axis (line_held l) a) axes) (lines r)
    /\ i ∈ ever_inserted d) (reservations d)).

Lemma ledger_wf_spec d : ledger_wf d = true -> rows_wf d.
Proof.
  unfold ledger_wf. intros H. apply bool_decide_eq_true in H. intros i r Hr.
  destruct (H i r Hr) as (H1 & H2 & H3). split; [|done].
  assert (Hax : forall h, Forall (fun a => 0 <= at_axis h a) axes -> held_nonneg h).
  { intros h Hh a. rewrite Forall_forall in Hh. apply Hh. destruct a; set_solver. }
  split; [by apply Hax|]. eapply Forall_impl; [exact H2|]. intros l Hl. by apply Hax.
Qed.

(** ** A deployment with two providers, each with a ceiling of its own *)

Definition on_provider (p : string) : ScopedBudget :=
  mkScoped SCOPE_ORGANIZATION "acme" (Some p) "b" zero_held zero_held None None None.
Definition two_providers : world :=
  mkWorld (mkDb {["bob"%string := bob]} {["b"%string := small_budget]}
    {["org-ceiling"%string := acme; "p-ceiling"%string := on_provider "p"; "q-ceiling"%string := on_provider "q"]} ∅ [] ∅) 0 0.
Definition request_on_p : reserve_args :=
  mkReserve "bob" 400 20 1 true (Some "for_update"%string) true
    (Some (mkScopeRequest (CeilingRepo.mkScopes ["acme"%string] [] [] [] []) (Some "p"%string))) false 600 true None.

Definition handle_of (r : exn + ReservationHandle) : ReservationHandle :=
  match r with inr h => h | inl _ => empty_handle "" "" true 0 [] end.

Definition on_p_handle : ReservationHandle :=
  Eval vm_compute in handle_of (run_quiet (reserve_budget request_on_p) two_providers).1.1.
Definition on_p_world : world := Eval vm_compute in (run_quiet (reserve_budget request_on_p) two_providers).2.
