(* ===== verification/SessionLogic.v ===== *)
(** The program logic of [Session]: what a session may rely on and must guarantee, the
    weakest precondition of a program, and its soundness for sessions interleaved in any
    order with any faults. *)
From S2P Require Import Prelude Tables Session.
From stdpp Require Import gmap strings list fin_maps.
From Stdlib Require Import ZArith Lia.
Open Scope Z_scope.

(** ** Holds in flight *)

(** What a session holds on each counter that no active row records. *)
Definition pend : Type := counter -> axis -> Z.

Definition padd (P R : pend) : pend := fun c a => P c a + R c a.
Definition psub (P R : pend) : pend := fun c a => P c a - R c a.
Definition pzero : pend := fun _ _ => 0.
Definition ple (P R : pend) : Prop := forall c a, P c a <= R c a.
Definition pnonneg (P : pend) : Prop := ple pzero P.

(** Every counter carries at least what the active rows record and the sessions hold. *)
Definition covered (P : pend) (d : database) : Prop :=
  rows_wf d
  /\ forall c a h, counter_held d c = Some h -> recorded d c a + P c a <= at_axis h a.

Lemma covered_weaken P R d : ple R P -> covered P d -> covered R d.
Proof.
  intros Hle [Hwf H]. split; [done|]. intros c a h Hc.
  pose proof (H c a h Hc). pose proof (Hle c a). lia.
Qed.

(** ** What one transaction does *)

(** The margin of every counter over the ledger grows by at least [delta]. *)
Definition margin (d w : database) (delta : pend) : Prop :=
  forall c a,
    match counter_held d c, counter_held w c with
    | Some h, Some h' => at_axis h a - recorded d c a + delta c a <= at_axis h' a - recorded w c a
    | None, None => True
    | _, _ => False
    end.

Lemma margin_refl d : margin d d pzero.
Proof. intros c a. destruct (counter_held d c); [unfold pzero; lia|done]. Qed.

Lemma margin_trans d1 d2 d3 x y :
  margin d1 d2 x -> margin d2 d3 y -> margin d1 d3 (padd x y).
Proof.
  intros H1 H2 c a. specialize (H1 c a). specialize (H2 c a). unfold padd.
  destruct (counter_held d1 c), (counter_held d2 c), (counter_held d3 c); try done. lia.
Qed.

Lemma margin_weaken d w x y : ple y x -> margin d w x -> margin d w y.
Proof.
  intros Hle H c a. specialize (H c a). specialize (Hle c a).
  destruct (counter_held d c), (counter_held w c); try done. lia.
Qed.

Lemma margin_covered d w P P' F delta :
  covered (padd P F) d -> margin d w delta -> rows_wf w -> ple P' (padd P delta) ->
  covered (padd P' F) w.
Proof.
  intros [_ H] Hm Hwf Hle. split; [done|]. intros c a h Hc. specialize (Hm c a). rewrite Hc in Hm.
  destruct (counter_held d c) as [h0|] eqn:E; [|done].
  pose proof (H c a h0 E). pose proof (Hle c a). unfold padd in *. lia.
Qed.

(** What may become of another session's row: nothing, or its expiry. *)
Definition descends (o o' : option BudgetReservation) : Prop :=
  forall r', o' = Some r' -> exists r, o = Some r
    /\ (r' = r \/ (status r = RESERVATION_ACTIVE /\ r' = set_status r RESERVATION_EXPIRED)).

Lemma descends_refl o : descends o o.
Proof. intros r ->. eauto. Qed.

Lemma descends_trans o1 o2 o3 : descends o1 o2 -> descends o2 o3 -> descends o1 o3.
Proof.
  intros H1 H2 r3 Hr3. destruct (H2 r3 Hr3) as (r2 & Hr2 & H32). destruct (H1 r2 Hr2) as (r1 & Hr1 & H21).
  exists r1. split; [done|]. destruct H32 as [->|[Ha ->]], H21 as [->|[Hb ->]]; try tauto.
Qed.

(** What may become of any row, its owner's included: while it is active it only grows. *)
Definition matures (o o' : option BudgetReservation) : Prop :=
  forall r', o' = Some r' -> exists r, o = Some r
    /\ (status r' = RESERVATION_ACTIVE ->
          status r = RESERVATION_ACTIVE /\ row_user_id r' = row_user_id r
          /\ (user_reserved r = true -> user_reserved r' = true)
          /\ forall a, at_axis (row_held r) a <= at_axis (row_held r') a).

Lemma matures_refl o : matures o o.
Proof. intros r ->. exists r. repeat split; auto. lia. Qed.

Lemma matures_trans o1 o2 o3 : matures o1 o2 -> matures o2 o3 -> matures o1 o3.
Proof.
  intros H1 H2 r3 Hr3. destruct (H2 r3 Hr3) as (r2 & Hr2 & H32). destruct (H1 r2 Hr2) as (r1 & Hr1 & H21).
  exists r1. split; [done|]. intros Ha. destruct (H32 Ha) as (Ha2 & ? & ? & Hle).
  destruct (H21 Ha2) as (? & ? & ? & Hle'). repeat split; [done|congruence|auto|].
  intros a. specialize (Hle a). specialize (Hle' a). lia.
Qed.

(** [w] is a later state of [d] in which the rows of [S] only descended, and every row matured. *)
Record evolves (S : nat -> Prop) (d w : database) : Prop := {
  ev_counters : forall c, is_Some (counter_held d c) -> is_Some (counter_held w c);
  ev_descends : forall i, S i -> descends (reservations d !! i) (reservations w !! i);
  ev_inserted : ever_inserted d ⊆ ever_inserted w;
  ev_fresh : forall i, S i -> i ∈ ever_inserted w -> i ∈ ever_inserted d;
  ev_present : forall i, is_Some (reservations d !! i) -> is_Some (reservations w !! i);
  ev_matures : forall i, i ∈ ever_inserted d -> matures (reservations d !! i) (reservations w !! i)
}.

Lemma evolves_refl S d : evolves S d d.
Proof. split; intros; auto using descends_refl, matures_refl. Qed.

Lemma evolves_trans S d1 d2 d3 : evolves S d1 d2 -> evolves S d2 d3 -> evolves S d1 d3.
Proof.
  intros [H1 H2 H3 Hf Hp H4] [H5 H6 H7 Hg Hq H8]. split; [auto| |set_solver|auto|auto|].
  - intros i Hi. eapply descends_trans; eauto.
  - intros i Hi. eapply matures_trans; eauto.
Qed.

Lemma evolves_weaken (S T : nat -> Prop) d w : (forall i, T i -> S i) -> evolves S d w -> evolves T d w.
Proof. intros H []. split; auto. Qed.

(** What the owner of [O] relies on of the others, and guarantees them. *)
Definition rely (O : gset nat) : database -> database -> Prop := evolves (fun i => i ∈ O).
Definition guarantee (O : gset nat) : database -> database -> Prop := evolves (fun i => i ∉ O).

(** ** Views *)

(** What a session knows of the database: [Seen d] was current at its last step; within a
    transaction, the others' holds [F], the state [d] it began on and the state [w] it sees. *)
Inductive tx_view : Type :=
| VClean (d : database)
| VDirty (F : pend) (d w : database)
| VPoisoned (d : database).

Record view := mkView { vt : tx_view; vp : pend; vo : gset nat }.

Definition base (v : tx_view) : database :=
  match v with VClean d => d | VDirty _ d _ => d | VPoisoned d => d end.

Definition set_vt (v : view) (t : tx_view) : view := mkView t (vp v) (vo v).

(** A state the others may have left, with their holds [F]. *)
Definition current (v : view) (d : database) (F : pend) (d' : database) : Prop :=
  rely (vo v) d d' /\ pnonneg F /\ covered (padd (vp v) F) d'.

Fixpoint wp (landed_ok : policy) {A} (p : prog A) (Q : exn + A -> view -> Prop) (v : view) : Prop :=
  let fails {B} (k : exn + B -> prog A) :=
    forall e, fault_error e -> wp landed_ok (k (inl e)) Q (set_vt v (VPoisoned (base (vt v)))) in
  match p with
  | Ret a => Q (inr a) v
  | Raise e => Q (inl e) v
  | Now k => forall t, wp landed_ok (k t) Q v
  | NewId k =>
      forall i, i ∉ vo v ->
      match vt v with
      | VClean d => forall d', rely (vo v) d d' -> i ∉ ever_inserted d' ->
          wp landed_ok (k i) Q (mkView (VClean d') (vp v) ({[i]} ∪ vo v))
      | VPoisoned d => forall d', rely (vo v) d d' -> i ∉ ever_inserted d' ->
          wp landed_ok (k i) Q (mkView (VPoisoned d') (vp v) ({[i]} ∪ vo v))
      | VDirty F d w => i ∉ ever_inserted d -> i ∉ ever_inserted w ->
          wp landed_ok (k i) Q (mkView (VDirty F d w) (vp v) ({[i]} ∪ vo v))
      end
  | Read B q k =>
      fails k /\
      match vt v with
      | VClean d => forall F d' t, current v d F d' ->
          wp landed_ok (k (inr (q t d'))) Q (set_vt v (VClean d'))
      | VDirty F d w => forall t, wp landed_ok (k (inr (q t w))) Q v
      | VPoisoned d => True
      end
  | Write B s k =>
      fails k /\
      match vt v with
      | VClean d => forall F d' t, current v d F d' ->
          match s t d' with
          | (inr b, w) => guarantee (vo v) d' w /\ wp landed_ok (k (inr b)) Q (set_vt v (VDirty F d' w))
          | (inl e, _) => wp landed_ok (k (inl e)) Q (set_vt v (VPoisoned d'))
          end
      | VDirty F d w => forall t,
          match s t w with
          | (inr b, w') => guarantee (vo v) d w' /\ wp landed_ok (k (inr b)) Q (set_vt v (VDirty F d w'))
          | (inl e, _) => wp landed_ok (k (inl e)) Q (set_vt v (VPoisoned d))
          end
      | VPoisoned d => True
      end
  | Commit site k =>
      (forall e, fault_error e -> wp landed_ok (k (Some e)) Q (set_vt v (VPoisoned (base (vt v))))) /\
      match vt v with
      | VClean d => wp landed_ok (k None) Q v
      | VDirty F d w =>
          (exists P, pnonneg P /\ covered (padd P F) w /\
             wp landed_ok (k None) Q (mkView (VClean w) P (vo v))) /\
          (landed_ok site = true -> forall e, fault_error e ->
             exists P, pnonneg P /\ covered (padd P F) w /\
               wp landed_ok (k (Some e)) Q (mkView (VPoisoned w) P (vo v)))
      | VPoisoned d => True
      end
  | Rollback k =>
      (forall e, fault_error e -> wp landed_ok (k (Some e)) Q (set_vt v (VPoisoned (base (vt v))))) /\
      wp landed_ok (k None) Q (set_vt v (VClean (base (vt v))))
  end.

Lemma wp_handle ok {A B} (p : prog A) (h : exn + A -> prog B) Q v :
  wp ok p (fun r v' => wp ok (h r) Q v') v -> wp ok (handle p h) Q v.
Proof.
  revert v. induction p as [a|e|k IH|k IH|C q k IH|C s k IH|site k IH|k IH]; intros v; simpl; intros H.
  - done.
  - done.
  - auto.
  - intros i Hi. specialize (H i Hi). destruct (vt v); auto.
  - destruct H as [H1 H2]. split; [auto|]. destruct (vt v); eauto.
  - destruct H as [H1 H2]. split; [auto|]. destruct (vt v) as [d|F d w|d]; [| |done].
    + intros F d' t Hc. specialize (H2 F d' t Hc). destruct (s t d') as [[] ?]; [auto|].
      destruct H2. auto.
    + intros t. specialize (H2 t). destruct (s t w) as [[] ?]; [auto|]. destruct H2. auto.
  - destruct H as [H1 H2]. split; [auto|]. destruct (vt v) as [d|F d w|d]; [auto| |done].
    destruct H2 as [(P & HP & Hc & H2) H3]. split; [exists P; auto|].
    intros Hok e He. destruct (H3 Hok e He) as (P' & ? & ? & ?). exists P'. auto.
  - destruct H. auto.
Qed.

Lemma wp_mono ok {A} (p : prog A) (Q R : exn + A -> view -> Prop) v :
  wp ok p Q v -> (forall r v', Q r v' -> R r v') -> wp ok p R v.
Proof.
  intros H HQ. revert v H.
  induction p as [a|e|k IH|k IH|C q k IH|C s k IH|site k IH|k IH]; intros v; simpl; intros H.
  - auto.
  - auto.
  - auto.
  - intros i Hi. specialize (H i Hi). destruct (vt v); auto.
  - destruct H as [H1 H2]. split; [auto|]. destruct (vt v); eauto.
  - destruct H as [H1 H2]. split; [auto|]. destruct (vt v) as [d|F d w|d]; [| |done].
    + intros F d' t Hc. specialize (H2 F d' t Hc). destruct (s t d') as [[] ?]; [auto|].
      destruct H2. auto.
    + intros t. specialize (H2 t). destruct (s t w) as [[] ?]; [auto|]. destruct H2. auto.
  - destruct H as [H1 H2]. split; [auto|]. destruct (vt v) as [d|F d w|d]; [auto| |done].
    destruct H2 as [(P & HP & Hc & H2) H3]. split; [exists P; auto|].
    intros Hok e He. destruct (H3 Hok e He) as (P' & ? & ? & ?). exists P'. auto.
  - destruct H. auto.
Qed.

(** ** Sessions side by side *)

Definition session : Type := tx * prog unit.

Definition is_dirty (x : tx) : bool := match x with Dirty _ => true | _ => false end.

(** One session steps, or time passes.  A session writes only while no other has written. *)
Inductive pool_step (ok : policy) : world * list session -> world * list session -> Prop :=
| pool_session w ts i x p w' x' p' :
    ts !! i = Some (x, p) -> step ok w x p w' x' p' ->
    (is_dirty x' = true -> forall j y q, ts !! j = Some (y, q) -> j <> i -> is_dirty y = false) ->
    pool_step ok (w, ts) (w', <[i := (x', p')]> ts)
| pool_tick w ts t :
    clock w <= t -> pool_step ok (w, ts) (mkWorld (db w) t (next_id w), ts).

Definition total (vs : list view) : pend := fun c a => sumZ (fun v => vp v c a) vs.

Definition rows_below (n : nat) (d : database) : Prop :=
  forall i, i ∈ ever_inserted d -> (i < n)%nat.

(** What the pool knows of one session: its view is accurate, and its program safe from it. *)
Definition accurate (w : world) (vs : list view) (x : tx) (v : view) : Prop :=
  match x, vt v with
  | Clean, VClean d => rely (vo v) d (db w) /\ rows_below (next_id w) d
  | Poisoned, VPoisoned d => rely (vo v) d (db w) /\ rows_below (next_id w) d
  | Dirty d', VDirty F d w' =>
      d = db w /\ w' = d' /\ guarantee (vo v) d w'
      /\ (forall c a, padd (vp v) F c a = total vs c a) /\ pnonneg F
  | _, _ => False
  end.

Definition top {A} (r : exn + A) (v : view) : Prop := True.

Record pool_ok (ok : policy) (w : world) (ts : list session) (vs : list view) : Prop := {
  po_length : length ts = length vs;
  po_session : forall i x p v, ts !! i = Some (x, p) -> vs !! i = Some v ->
    accurate w vs x v /\ wp ok p top v /\ pnonneg (vp v) /\ (forall k, k ∈ vo v -> (k < next_id w)%nat);
  po_disjoint : forall i j v u, vs !! i = Some v -> vs !! j = Some u -> i <> j -> vo v ## vo u;
  po_covered : covered (total vs) (db w);
  po_rows : rows_below (next_id w) (db w);
  po_locked : forall i j x p y q, ts !! i = Some (x, p) -> ts !! j = Some (y, q) ->
    is_dirty x = true -> is_dirty y = true -> i = j
}.

Lemma sumZ_list_insert {A} (f : A -> Z) l i x y :
  l !! i = Some x -> sumZ f (<[i := y]> l) = sumZ f l - f x + f y.
Proof.
  revert i. induction l as [|z l IH]; intros [|i]; simpl; intros H; simplify_eq; [lia|].
  rewrite (IH _ H). lia.
Qed.

Lemma total_insert vs i v u c a :
  vs !! i = Some v -> total (<[i := u]> vs) c a = total vs c a - vp v c a + vp u c a.
Proof. intros. unfold total. by rewrite (sumZ_list_insert _ _ _ v). Qed.

Lemma total_others_nonneg ok w ts vs i v :
  pool_ok ok w ts vs -> vs !! i = Some v -> pnonneg (psub (total vs) (vp v)).
Proof.
  intros Hok Hi c a. unfold psub, pzero.
  assert (forall u, u ∈ vs -> 0 <= vp u c a) as Hn.
  { intros u Hu. apply list_elem_of_lookup in Hu as [j Hj].
    destruct (lookup_lt_is_Some_2 ts j) as [[y q] Hy].
    { rewrite (po_length _ _ _ _ Hok). by eapply lookup_lt_Some. }
    destruct (po_session _ _ _ _ Hok j y q u Hy Hj) as (_ & _ & Hp & _). apply Hp. }
  pose proof (sumZ_elem_le (fun u => vp u c a) vs v) as H. unfold total.
  assert (v ∈ vs) by by eapply list_elem_of_lookup_2. specialize (H ltac:(done) Hn). cbn beta in H. lia.
Qed.

(** Replace one session and its view, the database unchanged. *)
Lemma pool_ok_local ok w ts vs i x p v x' p' v' n' :
  pool_ok ok w ts vs -> ts !! i = Some (x, p) -> vs !! i = Some v ->
  (next_id w <= n')%nat -> vp v' = vp v ->
  (forall k, k ∈ vo v' -> k ∈ vo v \/ (next_id w <= k < n')%nat) ->
  (is_dirty x' = true -> forall j y q, ts !! j = Some (y, q) -> j <> i -> is_dirty y = false) ->
  accurate (mkWorld (db w) (clock w) n') vs x' v' -> wp ok p' top v' ->
  pool_ok ok (mkWorld (db w) (clock w) n') (<[i := (x', p')]> ts) (<[i := v']> vs).
Proof.
  intros Hok Hi Hv Hn Hp Ho Hl Ha Hwp.
  assert (Htot : forall c a, total (<[i := v']> vs) c a = total vs c a).
  { intros c a. rewrite (total_insert _ _ v) by done. rewrite Hp. lia. }
  assert (Hacc : forall m y u, accurate (mkWorld (db w) (clock w) m) vs y u ->
     accurate (mkWorld (db w) (clock w) m) (<[i := v']> vs) y u).
  { intros m y u. unfold accurate. destruct y, (vt u); try done.
    intros (? & ? & ? & H & ?). do 3 (split; [done|]). split; [|done]. intros c a. by rewrite Htot. }
  split.
  - rewrite !length_insert. apply (po_length _ _ _ _ Hok).
  - intros j y q u Hj Hu. destruct (decide (j = i)) as [->|Hne].
    + rewrite list_lookup_insert_eq in Hj by by eapply lookup_lt_Some.
      rewrite list_lookup_insert_eq in Hu by by eapply lookup_lt_Some. simplify_eq.
      destruct (po_session _ _ _ _ Hok i x p v Hi Hv) as (_ & _ & Hnn & Hown).
      split; [by apply Hacc|]. split; [done|]. rewrite Hp. split; [done|].
      intros k [Hk|Hk]%Ho; simpl; [|lia]. specialize (Hown k Hk). lia.
    + rewrite list_lookup_insert_ne in Hj by done. rewrite list_lookup_insert_ne in Hu by done.
      destruct (po_session _ _ _ _ Hok j y q u Hj Hu) as (Hacc' & ? & ? & Hown).
      split; [|split; [done|split; [done|]]].
      * apply Hacc. revert Hacc'. unfold accurate. destruct y, (vt u); try done; simpl.
        all: intros [? Hrb]; split; [done|]; intros k Hk; specialize (Hrb k Hk); lia.
      * intros k Hk. specialize (Hown k Hk). simpl. lia.
  - intros j k u1 u2 H1 H2 Hne.
    assert (forall m u, m <> i -> vs !! m = Some u -> vo v' ## vo u) as Hd.
    { intros m u Hm Hu k' Hk1 Hk2. destruct (Ho k' Hk1) as [Hin|Hge].
      - pose proof (po_disjoint _ _ _ _ Hok i m v u Hv Hu ltac:(done)) as Hdis. set_solver.
      - destruct (lookup_lt_is_Some_2 ts m) as [[y q] Hy].
        { rewrite (po_length _ _ _ _ Hok). by eapply lookup_lt_Some. }
        destruct (po_session _ _ _ _ Hok m y q u Hy Hu) as (_ & _ & _ & Hown).
        specialize (Hown k' Hk2). lia. }
    destruct (decide (j = i)) as [->|Hj], (decide (k = i)) as [->|Hk]; try done.
    + rewrite list_lookup_insert_eq in H1 by by eapply lookup_lt_Some.
      rewrite list_lookup_insert_ne in H2 by done. simplify_eq. by apply (Hd k).
    + rewrite list_lookup_insert_eq in H2 by by eapply lookup_lt_Some.
      rewrite list_lookup_insert_ne in H1 by done. simplify_eq. symmetry. by apply (Hd j).
    + rewrite list_lookup_insert_ne in H1 by done. rewrite list_lookup_insert_ne in H2 by done.
      by apply (po_disjoint _ _ _ _ Hok j k).
  - apply covered_weaken with (total vs); [intros c a; by rewrite Htot|apply (po_covered _ _ _ _ Hok)].
  - intros k Hk. pose proof (po_rows _ _ _ _ Hok k Hk). simpl. lia.
  - intros j k y q z r Hj Hk Hy Hz. destruct (decide (j = i)) as [->|Hji], (decide (k = i)) as [->|Hki]; try done.
    + rewrite list_lookup_insert_eq in Hj by by eapply lookup_lt_Some.
      rewrite list_lookup_insert_ne in Hk by done. simplify_eq.
      rewrite (Hl Hy k z r Hk) in Hz; done.
    + rewrite list_lookup_insert_eq in Hk by by eapply lookup_lt_Some.
      rewrite list_lookup_insert_ne in Hj by done. simplify_eq.
      rewrite (Hl Hz j y q Hj) in Hy; done.
    + rewrite list_lookup_insert_ne in Hj by done. rewrite list_lookup_insert_ne in Hk by done.
      by apply (po_locked _ _ _ _ Hok j k y q z r).
Qed.

(** The commit of a transaction: the database becomes what it wrote. *)
Lemma pool_ok_commit ok w ts vs i d p v F d0 P x' p' :
  pool_ok ok w ts vs -> ts !! i = Some (Dirty d, p) -> vs !! i = Some v ->
  vt v = VDirty F d0 d -> pnonneg P -> covered (padd P F) d ->
  is_dirty x' = false ->
  let v' := mkView (match x' with Clean => VClean d | _ => VPoisoned d end) P (vo v) in
  wp ok p' top v' ->
  pool_ok ok (set_db w d) (<[i := (x', p')]> ts) (<[i := v']> vs).
Proof.
  intros Hok Hi Hv Hvt HP Hcov Hx v' Hwp.
  destruct (po_session _ _ _ _ Hok i _ _ v Hi Hv) as (Hacc & _ & Hnn & Hown).
  unfold accurate in Hacc. rewrite Hvt in Hacc. destruct Hacc as (-> & _ & Hg & HF & HFn).
  assert (Hrows : rows_below (next_id w) d).
  { intros k Hk. destruct (decide (k ∈ vo v)) as [Hin|Hout]; [by apply Hown|].
    apply (po_rows _ _ _ _ Hok k). by apply (ev_fresh _ _ _ Hg). }
  assert (Htot : forall c a, total (<[i := v']> vs) c a = padd P F c a).
  { intros c a. rewrite (total_insert _ _ v) by done. rewrite <- HF. unfold padd. simpl. lia. }
  split.
  - rewrite !length_insert. apply (po_length _ _ _ _ Hok).
  - intros j y q u Hj Hu. destruct (decide (j = i)) as [->|Hne].
    + rewrite list_lookup_insert_eq in Hj by by eapply lookup_lt_Some.
      rewrite list_lookup_insert_eq in Hu by by eapply lookup_lt_Some. simplify_eq.
      split; [|done]. unfold accurate. destruct y; try done; simpl; split; auto using evolves_refl.
      all: apply evolves_refl.
    + rewrite list_lookup_insert_ne in Hj by done. rewrite list_lookup_insert_ne in Hu by done.
      destruct (po_session _ _ _ _ Hok j y q u Hj Hu) as (Hacc' & ? & ? & Hown').
      split; [|done].
      assert (Hdis : forall k, k ∈ vo u -> k ∉ vo v).
      { intros k Hk1 Hk2. pose proof (po_disjoint _ _ _ _ Hok i j v u Hv Hu ltac:(done)). set_solver. }
      assert (forall d1, rely (vo u) d1 (db w) -> rely (vo u) d1 d) as Hstep.
      { intros d1 Hr. eapply evolves_trans; [exact Hr|]. eapply evolves_weaken; [|exact Hg]. done. }
      revert Hacc'. unfold accurate. destruct y, (vt u); try done; simpl.
      * intros [? ?]. auto.
      * exfalso. apply Hne. by apply (po_locked _ _ _ _ Hok j i _ _ _ _ Hj Hi).
      * intros [? ?]. auto.
  - intros j k u1 u2 H1 H2 Hne.
    assert (forall m u', (<[i := v']> vs) !! m = Some u' -> exists u0, vs !! m = Some u0 /\ vo u' = vo u0) as Hold.
    { intros m u' Hm. destruct (decide (m = i)) as [->|].
      - rewrite list_lookup_insert_eq in Hm by by eapply lookup_lt_Some. simplify_eq. by exists v.
      - rewrite list_lookup_insert_ne in Hm by done. by exists u'. }
    destruct (Hold _ _ H1) as (w1 & Hw1 & ->), (Hold _ _ H2) as (w2 & Hw2 & ->).
    by apply (po_disjoint _ _ _ _ Hok j k).
  - apply covered_weaken with (padd P F); [intros c a; by rewrite Htot|done].
  - done.
  - intros j k y q z r Hj Hk Hy Hz. destruct (decide (j = i)) as [->|Hji], (decide (k = i)) as [->|Hki]; try done.
    + rewrite list_lookup_insert_eq in Hj by by eapply lookup_lt_Some. simplify_eq. by rewrite Hx in Hy.
    + rewrite list_lookup_insert_eq in Hk by by eapply lookup_lt_Some. simplify_eq. by rewrite Hx in Hz.
    + rewrite list_lookup_insert_ne in Hj by done. rewrite list_lookup_insert_ne in Hk by done.
      by apply (po_locked _ _ _ _ Hok j k y q z r).
Qed.

Lemma pool_step_preserves ok w ts w' ts' :
  pool_step ok (w, ts) (w', ts') -> forall vs, pool_ok ok w ts vs -> exists vs', pool_ok ok w' ts' vs'.
Proof.
  intros Hstep vs Hok. remember (w, ts) as c1. remember (w', ts') as c2.
  destruct Hstep as [w0 ts0 i x p w1 x' p' Hi Hst Hl | w0 ts0 t Ht]; simplify_eq.
  2: { exists vs. destruct Hok; split; auto. }
  destruct (lookup_lt_is_Some_2 vs i) as [v Hv].
  { rewrite <- (po_length _ _ _ _ Hok). by eapply lookup_lt_Some. }
  destruct (po_session _ _ _ _ Hok i x p v Hi Hv) as (Hacc & Hwp & Hnn & Hown).
  assert (Hlocal : forall v', vp v' = vp v -> vo v' = vo v -> db w' = db w -> clock w' = clock w ->
     next_id w' = next_id w -> accurate w vs x' v' -> wp ok p' top v' ->
     exists vs', pool_ok ok w' (<[i := (x', p')]> ts) vs').
  { intros v' Hp Ho Hd Hc Hn Ha Hw. exists (<[i := v']> vs).
    assert (w' = mkWorld (db w) (clock w) (next_id w)) as -> by (destruct w, w'; simpl in *; congruence).
    eapply pool_ok_local; eauto. intros k Hk. left. by rewrite <- Ho. }
  assert (Hbase : rely (vo v) (base (vt v)) (db w) /\ rows_below (next_id w) (base (vt v))).
  { unfold accurate in Hacc. destruct x, (vt v); try done; simpl.
    destruct Hacc as (-> & _). split; [apply evolves_refl|apply (po_rows _ _ _ _ Hok)]. }
  assert (Hpois : accurate w vs Poisoned (set_vt v (VPoisoned (base (vt v))))) by done.
  assert (Hcur : forall d, vt v = VClean d -> current v d (psub (total vs) (vp v)) (db w)).
  { intros d Hd. rewrite Hd in Hbase. split; [apply Hbase|]. split; [by eapply total_others_nonneg|].
    eapply covered_weaken; [|apply (po_covered _ _ _ _ Hok)]. intros c a. unfold padd, psub. lia. }
  inversion Hst; subst; simpl in Hwp.
  - (* Now *) apply (Hlocal v); auto.
  - (* NewId *)
    assert (Hfresh : next_id w ∉ vo v) by (intros Hin; specialize (Hown _ Hin); lia).
    assert (Habs : forall d, rows_below (next_id w) d -> next_id w ∉ ever_inserted d).
    { intros d Hd Hin. specialize (Hd _ Hin). lia. }
    specialize (Hwp _ Hfresh). unfold accurate in Hacc.
    assert (Hown' : forall k, k ∈ {[next_id w]} ∪ vo v -> k ∈ vo v \/ (next_id w <= k < S (next_id w))%nat).
    { intros j Hj. apply elem_of_union in Hj as [->%elem_of_singleton|]; [right; lia|by left]. }
    assert (Hgrow : forall n d, rows_below n d -> rows_below (S n) d).
    { intros n d Hd j Hj. specialize (Hd j Hj). lia. }
    pose proof (po_rows _ _ _ _ Hok) as Hrw.
    destruct x', (vt v) as [d|F d w2|d] eqn:Evt; try done; simpl in Hbase.
    + destruct Hbase as [Hr Hb]. eexists (<[i := _]> vs).
      eapply (pool_ok_local ok w ts vs i _ _ v _ _ _ (S (next_id w)) Hok Hi Hv).
      6: apply (Hwp (db w) Hr); by apply Habs. all: simpl; auto. split; [apply evolves_refl|by apply Hgrow].
    + destruct Hacc as (-> & -> & Hg & HF & HFn). eexists (<[i := _]> vs).
      eapply (pool_ok_local ok w ts vs i _ _ v _ _ _ (S (next_id w)) Hok Hi Hv).
      6: apply Hwp; [by apply Habs|]. all: simpl; auto.
      2: { intros Hin. apply (ev_fresh _ _ _ Hg) in Hin; [by apply (Habs (db w))|done]. }
      do 2 (split; [done|]). split; [|done]. eapply evolves_weaken; [|exact Hg]. set_solver.
    + destruct Hbase as [Hr Hb]. eexists (<[i := _]> vs).
      eapply (pool_ok_local ok w ts vs i _ _ v _ _ _ (S (next_id w)) Hok Hi Hv).
      6: apply (Hwp (db w) Hr); by apply Habs. all: simpl; auto. split; [apply evolves_refl|by apply Hgrow].
  - (* Read *) destruct Hwp as [_ Hwp]. unfold accurate in Hacc.
    destruct x', (vt v) as [d2|F d2 w2|d2] eqn:Evt; try done; simpl in *; simplify_eq.
    + eapply Hlocal; [| | | | | |apply (Hwp _ _ (clock _) (Hcur _ eq_refl))]; try done.
      split; [apply evolves_refl|apply (po_rows _ _ _ _ Hok)].
    + destruct Hacc as (-> & -> & Hrest). eapply (Hlocal v); try done. unfold accurate. by rewrite Evt.
  - (* Read fails *) destruct Hwp as [Hwp _]. eapply Hlocal; [| | | | |exact Hpois|]; auto.
  - (* Write *) destruct Hwp as [_ Hwp]. unfold accurate in Hacc.
    destruct x, (vt v) as [d1|F d1 w1|d1] eqn:Evt; try done; simpl in *; simplify_eq.
    + match goal with H : s (clock ?W) _ = _ |- _ =>
        specialize (Hwp _ _ (clock W) (Hcur _ eq_refl)); rewrite H in Hwp end. destruct Hwp as [Hg Hwp].
      eapply Hlocal; [| | | | | |exact Hwp]; try done. simpl. do 3 (split; [done|]).
      split; [intros c a; unfold padd, psub; lia|by eapply total_others_nonneg].
    + destruct Hacc as (-> & -> & Hg0 & Hrest).
      match goal with H : s (clock ?W) _ = _ |- _ => specialize (Hwp (clock W)); rewrite H in Hwp end. destruct Hwp as [Hg Hwp].
      eapply Hlocal; [| | | | | |exact Hwp]; try done.
  - (* Write refused *) destruct Hwp as [_ Hwp]. unfold accurate in Hacc.
    destruct x, (vt v) as [d1|F d1 w1|d1] eqn:Evt; try done; simpl in *; simplify_eq.
    + match goal with H : s (clock ?W) _ = _ |- _ =>
        specialize (Hwp _ _ (clock W) (Hcur _ eq_refl)); rewrite H in Hwp end.
      eapply Hlocal; [| | | | | |exact Hwp]; try done.
      split; [apply evolves_refl|apply (po_rows _ _ _ _ Hok)].
    + destruct Hacc as (-> & -> & Hg0 & Hrest).
      match goal with H : s (clock ?W) _ = _ |- _ => specialize (Hwp (clock W)); rewrite H in Hwp end.
      eapply Hlocal; [| | | | | |exact Hwp]; try done.
  - (* Write fails *) destruct Hwp as [Hwp _]. eapply Hlocal; [| | | | |exact Hpois|]; auto.
  - (* Commit nothing *) destruct Hwp as [_ Hwp]. unfold accurate in Hacc.
    destruct (vt v) eqn:Evt; try done. eapply (Hlocal v); try done. unfold accurate. by rewrite Evt.
  - (* Commit *) destruct Hwp as [_ Hwp]. unfold accurate in Hacc.
    destruct (vt v) as [|F d0 w1|] eqn:Evt; try done. destruct Hacc as (-> & -> & _).
    destruct Hwp as [(P & HP & Hc & Hwp) _]. eexists. by eapply (pool_ok_commit ok w ts vs i d _ v F _ P Clean).
  - (* Commit lost *) destruct Hwp as [Hwp _]. eapply Hlocal; [| | | | |exact Hpois|]; auto.
  - (* Commit landed *) destruct Hwp as [_ Hwp]. unfold accurate in Hacc.
    destruct (vt v) as [|F d0 w1|] eqn:Evt; try done. destruct Hacc as (-> & -> & _).
    destruct Hwp as [_ Hwp]. destruct (Hwp ltac:(done) e ltac:(done)) as (P & HP & Hc & Hwp').
    eexists. by eapply (pool_ok_commit ok w ts vs i d _ v F _ P Poisoned).
  - (* Rollback *) destruct Hwp as [_ Hwp]. eapply Hlocal; [| | | | | |exact Hwp]; done.
  - (* Rollback fails *) destruct Hwp as [Hwp _]. eapply Hlocal; [| | | | |exact Hpois|]; auto.
Qed.

(** ** Rules *)

Lemma wp_bind ok {A B} (p : prog A) (f : A -> prog B) (Q : exn + B -> view -> Prop) v :
  wp ok p (fun r v' => match r with inr a => wp ok (f a) Q v' | inl e => Q (inl e) v' end) v ->
  wp ok (bind p f) Q v.
Proof. intros H. apply wp_handle. eapply wp_mono; [exact H|]. by intros [e|a] v' HQ. Qed.

Lemma wp_try ok {A} (p : prog A) (caught : exn -> bool) (h : exn -> prog A)
    (Q : exn + A -> view -> Prop) v :
  wp ok p (fun r v' => match r with
    | inr a => Q (inr a) v'
    | inl e => if caught e then wp ok (h e) Q v' else Q (inl e) v'
    end) v ->
  wp ok (try_except p caught h) Q v.
Proof.
  intros H. apply wp_handle. eapply wp_mono; [exact H|].
  intros [e|a] v' HQ; [by destruct (caught e)|done].
Qed.

Lemma wp_attempt ok {A} (p : prog A) (Q : exn + (exn + A) -> view -> Prop) v :
  wp ok p (fun r v' => Q (inr r) v') v -> wp ok (attempt p) Q v.
Proof. intros H. unfold attempt. by apply wp_handle. Qed.

(** Between transactions: none open, or one that failed. *)
Definition idle (v : view) (d : database) : Prop := vt v = VClean d \/ vt v = VPoisoned d.

Lemma idle_base v d : idle v d -> base (vt v) = d.
Proof. by intros [-> | ->]. Qed.

(** One or more statements of a transaction: they leave every counter's margin up by [delta]. *)
Record effect (O : gset nat) (d w : database) (delta : pend) : Prop := {
  ef_margin : margin d w delta;
  ef_guarantee : guarantee O d w;
  ef_wf : rows_wf d -> rows_wf w
}.

Lemma effect_refl O d : effect O d d pzero.
Proof. split; auto using margin_refl. apply evolves_refl. Qed.

Lemma effect_trans O d1 d2 d3 x y :
  effect O d1 d2 x -> effect O d2 d3 y -> effect O d1 d3 (padd x y).
Proof.
  intros [] []. split; [by eapply margin_trans|by eapply evolves_trans|auto].
Qed.

Lemma effect_mono O O' d w x : O ⊆ O' -> effect O d w x -> effect O' d w x.
Proof. intros HO [? Hg ?]. split; auto. eapply evolves_weaken; [|exact Hg]. set_solver. Qed.

(** A transaction that changes no row of its session but those of [O] keeps what the
    session relies on. *)
Lemma effect_rely O O' d w x : O ## O' -> effect O d w x -> rely O' d w.
Proof. intros HO [? Hg ?]. eapply evolves_weaken; [|exact Hg]. set_solver. Qed.

(** In a transaction that began on [d], sees [w], and has changed no rows but those of [O]. *)
Record in_tx (v : view) (O : gset nat) (F : pend) (d w : database) (delta : pend) : Prop := {
  it_view : vt v = VDirty F d w;
  it_nonneg : pnonneg F;
  it_covered : covered (padd (vp v) F) d;
  it_owned : O ⊆ vo v;
  it_effect : effect O d w delta
}.

Lemma in_tx_step v O F d w w' delta delta' :
  in_tx v O F d w delta -> effect O w w' delta' ->
  in_tx (set_vt v (VDirty F d w')) O F d w' (padd delta delta').
Proof. intros [] ?. split; auto. by eapply effect_trans. Qed.

Lemma in_tx_mono v O O' F d w delta :
  O ⊆ O' -> O' ⊆ vo v -> in_tx v O F d w delta -> in_tx v O' F d w delta.
Proof. intros ? ? []. split; auto. by eapply effect_mono. Qed.

Lemma in_tx_wf v O F d w delta : in_tx v O F d w delta -> rows_wf w.
Proof. intros [_ _ [Hwf _] _ [_ _ H]]. auto. Qed.

Section rules.
Context (ok : policy).

Lemma wp_query_idle {B} (q : Z -> database -> B) v d (Q : exn + B -> view -> Prop) :
  idle v d ->
  (forall F d' t, vt v = VClean d -> current v d F d' -> Q (inr (q t d')) (set_vt v (VClean d'))) ->
  (forall e, fault_error e -> Q (inl e) (set_vt v (VPoisoned d))) ->
  wp ok (query q) Q v.
Proof.
  intros Hi H1 H2. simpl. rewrite (idle_base _ _ Hi).
  split; [exact H2|]. destruct Hi as [Hv|Hv]; rewrite Hv; [|done]. intros. eapply H1; eauto.
Qed.

Lemma wp_query_tx {B} (q : Z -> database -> B) v O F d w delta (Q : exn + B -> view -> Prop) :
  in_tx v O F d w delta ->
  (forall t, Q (inr (q t w)) v) ->
  (forall e, fault_error e -> Q (inl e) (set_vt v (VPoisoned d))) ->
  wp ok (query q) Q v.
Proof. intros Hi H1 H2. simpl. rewrite (it_view _ _ _ _ _ _ Hi). auto. Qed.

Lemma wp_execute_idle {B} (s : Z -> database -> (exn + B) * database) v d (Q : exn + B -> view -> Prop) :
  idle v d ->
  (forall F d' t, vt v = VClean d -> current v d F d' ->
     match s t d' with
     | (inr b, w) => exists O delta, O ⊆ vo v /\ effect O d' w delta
         /\ (in_tx (set_vt v (VDirty F d' w)) O F d' w delta -> Q (inr b) (set_vt v (VDirty F d' w)))
     | (inl e, _) => Q (inl e) (set_vt v (VPoisoned d'))
     end) ->
  (forall e, fault_error e -> Q (inl e) (set_vt v (VPoisoned d))) ->
  wp ok (execute s) Q v.
Proof.
  intros Hi H1 H2. simpl. rewrite (idle_base _ _ Hi).
  split; [exact H2|]. destruct Hi as [Hv|Hv]; rewrite Hv; [|done]. intros F d' t Hc.
  specialize (H1 F d' t Hv Hc). destruct (s t d') as [[e|b] w]; [done|].
  destruct H1 as (O & delta & HO & He & HQ).
  split; [apply (ef_guarantee _ _ _ _ (effect_mono _ _ _ _ _ HO He))|]. apply HQ. destruct Hc as (? & ? & ?). by split.
Qed.

Lemma wp_execute_tx {B} (s : Z -> database -> (exn + B) * database) v O F d w delta (Q : exn + B -> view -> Prop) :
  in_tx v O F d w delta ->
  (forall t,
     match s t w with
     | (inr b, w') => exists delta', effect O w w' delta'
         /\ (in_tx (set_vt v (VDirty F d w')) O F d w' (padd delta delta') ->
             Q (inr b) (set_vt v (VDirty F d w')))
     | (inl e, _) => Q (inl e) (set_vt v (VPoisoned d))
     end) ->
  (forall e, fault_error e -> Q (inl e) (set_vt v (VPoisoned d))) ->
  wp ok (execute s) Q v.
Proof.
  intros Hi H1 H2. simpl. rewrite (it_view _ _ _ _ _ _ Hi). split; [exact H2|]. intros t.
  specialize (H1 t). destruct (s t w) as [[e|b] w']; [done|].
  destruct H1 as (delta' & He & HQ). pose proof (in_tx_step _ _ _ _ _ _ _ _ Hi He) as Hin.
  split; [|by apply HQ]. destruct Hin as [_ _ _ HO He']. apply (ef_guarantee _ _ _ _ (effect_mono _ _ _ _ _ HO He')).
Qed.

Lemma wp_commit_idle site v d (Q : exn + unit -> view -> Prop) :
  idle v d ->
  (vt v = VClean d -> Q (inr tt) v) ->
  (forall e, fault_error e -> Q (inl e) (set_vt v (VPoisoned d))) ->
  wp ok (commit_at site) Q v.
Proof.
  intros Hi H1 H2. simpl. rewrite (idle_base _ _ Hi). split; [exact H2|].
  destruct Hi as [Hv|Hv]; rewrite Hv; auto.
Qed.

Lemma wp_commit_tx site v O F d w delta P (Q : exn + unit -> view -> Prop) :
  in_tx v O F d w delta ->
  pnonneg P -> ple P (padd (vp v) delta) ->
  Q (inr tt) (mkView (VClean w) P (vo v)) ->
  (forall e, fault_error e -> Q (inl e) (set_vt v (VPoisoned d))) ->
  (ok site = true -> forall e, fault_error e -> Q (inl e) (mkView (VPoisoned w) P (vo v))) ->
  wp ok (commit_at site) Q v.
Proof.
  intros Hi HP Hle H1 H2 H3. simpl. rewrite (it_view _ _ _ _ _ _ Hi). simpl. split; [exact H2|].
  assert (Hc : covered (padd P F) w).
  { destruct Hi as [_ _ Hcov _ [Hm _ Hwf]]. eapply margin_covered; [exact Hcov|exact Hm| |exact Hle].
    apply Hwf, Hcov. }
  split; [exists P; auto|]. intros Hok e He. exists P. auto.
Qed.

Lemma wp_rollback v (Q : exn + unit -> view -> Prop) :
  Q (inr tt) (set_vt v (VClean (base (vt v)))) ->
  (forall e, fault_error e -> Q (inl e) (set_vt v (VPoisoned (base (vt v))))) ->
  wp ok rollback Q v.
Proof. intros H1 H2. simpl. auto. Qed.

End rules.

(** A program that is safe from any state, holding nothing. *)
Definition verified (ok : policy) (p : prog unit) : Prop :=
  forall d, wp ok p top (mkView (VClean d) pzero ∅).

Definition fresh_sessions (ps : list (prog unit)) : list session := (fun p => (Clean, p)) <$> ps.

Lemma pool_ok_start ok w ps :
  (forall p, p ∈ ps -> verified ok p) -> covered pzero (db w) -> rows_below (next_id w) (db w) ->
  pool_ok ok w (fresh_sessions ps) ((fun _ => mkView (VClean (db w)) pzero ∅) <$> ps).
Proof.
  intros Hps Hc Hr. unfold fresh_sessions. split.
  - by rewrite !length_fmap.
  - intros i x p v Hi Hv. rewrite list_lookup_fmap in Hi. rewrite list_lookup_fmap in Hv.
    destruct (ps !! i) as [q|] eqn:E; simplify_eq/=.
    split; [split; [apply evolves_refl|done]|]. split; [apply Hps; by eapply list_elem_of_lookup_2|].
    split; [by intros ??|set_solver].
  - intros i j v u Hi Hj _. rewrite list_lookup_fmap in Hi.
    destruct (ps !! i); simplify_eq/=. set_solver.
  - eapply covered_weaken; [|exact Hc]. intros c a. unfold total, pzero.
    clear. induction ps as [|p ps IH]; [done|].
    rewrite fmap_cons, sumZ_cons. cbn. unfold pzero in *. lia.
  - done.
  - intros i j x p y q Hi Hj Hx Hy. rewrite list_lookup_fmap in Hi.
    destruct (ps !! i); simplify_eq/=.
Qed.

Lemma pool_covered ok w ps w' ts' :
  (forall p, p ∈ ps -> verified ok p) -> covered pzero (db w) -> rows_below (next_id w) (db w) ->
  rtc (pool_step ok) (w, fresh_sessions ps) (w', ts') ->
  exists vs, pool_ok ok w' ts' vs.
Proof.
  intros Hps Hc Hr Hs.
  assert (H : forall x y, rtc (pool_step ok) x y ->
    (exists vs, pool_ok ok x.1 x.2 vs) -> exists vs, pool_ok ok y.1 y.2 vs).
  { induction 1 as [|[w1 t1] [w2 t2] z Hst _ IH]; [done|]. intros [vs Hvs]. apply IH.
    by eapply pool_step_preserves. }
  apply (H _ _ Hs). eexists. by apply pool_ok_start.
Qed.
