(* ===== verification/Margins.v ===== *)
(** What each statement of [Repositories] does to the margin of every counter over the
    ledger, in the terms of [SessionLogic]. *)
From S2P Require Import Prelude Refusals Tables Repositories Session SessionLogic.
From stdpp Require Import gmap strings list fin_maps.
From Stdlib Require Import ZArith Lia.
Import CeilingRepo ReservationRepo UserRows.
Open Scope Z_scope.

(** A hold of [h] on each ceiling of [ids], and one on a user. *)
Definition ceiling_pend (ids : list string) (h : HeldAmounts) : pend := fun c a =>
  match c with CCeiling s => lines_hold (held_lines h ids) s a | CUser _ => 0 end.

Definition user_pend (u : string) (h : HeldAmounts) : pend := fun c a =>
  if decide (c = CUser u) then at_axis h a else 0.

(** What a row that is active records. *)
Definition row_pend (r : BudgetReservation) : pend := fun c a => row_holds r c a.

Definition pneg (P : pend) : pend := fun c a => - P c a.

(** ** Holds on a list of ceilings *)

Lemma lines_hold_cons l ls s a :
  lines_hold (l :: ls) s a = (if decide (line_budget_id l = s) then at_axis (line_held l) a else 0) + lines_hold ls s a.
Proof. reflexivity. Qed.

Lemma lines_hold_app l1 l2 s a : lines_hold (l1 ++ l2) s a = lines_hold l1 s a + lines_hold l2 s a.
Proof. apply sumZ_app. Qed.

Lemma ceiling_pend_nonneg ids h : held_nonneg h -> pnonneg (ceiling_pend ids h).
Proof.
  intros Hh [u|s] a; unfold pzero; simpl; [lia|]. apply lines_hold_nonneg, Forall_fmap, Forall_true. intros; apply Hh.
Qed.

Lemma ceiling_pend_elem ids h s a :
  held_nonneg h -> s ∈ ids -> at_axis h a <= ceiling_pend ids h (CCeiling s) a.
Proof.
  intros Hh Hin. simpl. induction Hin as [s ids|s i ids Hin IH].
  - unfold held_lines. rewrite fmap_cons, lines_hold_cons. cbn [line_budget_id line_held]. rewrite decide_True by done.
    pose proof (ceiling_pend_nonneg ids h Hh (CCeiling s) a). unfold pzero in *. simpl in *.
    unfold held_lines in *. lia.
  - unfold held_lines in *. rewrite fmap_cons, lines_hold_cons. cbn [line_budget_id line_held].
    specialize (Hh a). case_decide; lia.
Qed.

Lemma ceiling_pend_not_elem ids h s a : s ∉ ids -> ceiling_pend ids h (CCeiling s) a = 0.
Proof.
  intros Hin. simpl. induction ids as [|i ids IH]; [done|].
  unfold held_lines in *. rewrite fmap_cons, lines_hold_cons. cbn [line_budget_id line_held].
  rewrite decide_False by set_solver. rewrite IH by set_solver. lia.
Qed.

Lemma ceiling_pend_app ids ids' h c a :
  ceiling_pend (ids ++ ids') h c a = ceiling_pend ids h c a + ceiling_pend ids' h c a.
Proof. destruct c; simpl; [lia|]. unfold held_lines. by rewrite fmap_app, lines_hold_app. Qed.

Lemma ceiling_pend_nil h c a : ceiling_pend [] h c a = 0.
Proof. by destruct c. Qed.

Lemma ceiling_pend_one s h c a :
  ceiling_pend [s] h c a = if decide (c = CCeiling s) then at_axis h a else 0.
Proof.
  unfold ceiling_pend. destruct c as [u|s']; [by rewrite decide_False|].
  unfold held_lines. rewrite fmap_cons, lines_hold_cons. cbn [line_budget_id line_held].
  destruct (decide (s = s')) as [->|]; [rewrite decide_True by done|rewrite decide_False by congruence];
    cbn; lia.
Qed.

Lemma ceiling_pend_zero ids c a : ceiling_pend ids zero_held c a = 0.
Proof.
  destruct c as [u|s]; [done|]. destruct (decide (s ∈ ids)) as [Hin|]; [|by apply ceiling_pend_not_elem].
  simpl. clear Hin. induction ids as [|i ids IH]; [done|]. unfold held_lines in *.
  rewrite fmap_cons, lines_hold_cons, IH. simpl. case_decide; destruct a; simpl; lia.
Qed.

Lemma ceiling_pend_mono ids h k : (forall a, at_axis h a <= at_axis k a) -> ple (ceiling_pend ids h) (ceiling_pend ids k).
Proof.
  intros Hle [u|s] a; simpl; [lia|]. induction ids as [|i ids IH]; [done|]. unfold held_lines in *.
  rewrite !fmap_cons, !lines_hold_cons. cbn [line_budget_id line_held]. specialize (Hle a). case_decide; lia.
Qed.

Lemma ceiling_pend_add ids h k c a :
  ceiling_pend ids (add_held h k) c a = ceiling_pend ids h c a + ceiling_pend ids k c a.
Proof.
  destruct c as [u|s]; simpl; [lia|]. induction ids as [|i ids IH]; [done|]. unfold held_lines in *.
  rewrite !fmap_cons, !lines_hold_cons, IH. simpl. rewrite at_axis_add. case_decide; lia.
Qed.

Lemma user_pend_nonneg u h : held_nonneg h -> pnonneg (user_pend u h).
Proof. intros Hh c a. unfold pzero, user_pend. specialize (Hh a). case_decide; lia. Qed.

(** ** Amounts taken off a hold *)

Lemma at_map_axes f h a : at_axis (map_axes f h) a = f a (at_axis h a).
Proof. by destruct a. Qed.

Lemma release_expression_ge cur x : cur - x <= release_expression cur x.
Proof. unfold release_expression. destruct (cur - x <? 0) eqn:E; reflect_bools; lia. Qed.

Lemma released_ge amounts held a :
  held_nonneg amounts -> at_axis held a - at_axis amounts a <= at_axis (released amounts held) a.
Proof.
  intros Hn. unfold released. rewrite at_map_axes. specialize (Hn a).
  destruct (0 <? at_axis amounts a); [apply release_expression_ge|lia].
Qed.

Lemma any_positive_false h a : held_nonneg h -> any_positive h = false -> at_axis h a = 0.
Proof.
  unfold any_positive. intros Hn H. reflect_bools. specialize (Hn a). destruct a; simpl in *; lia.
Qed.

(** ** Statements on counters *)

Lemma recorded_ext d w c a : reservations w = reservations d -> recorded w c a = recorded d c a.
Proof. apply recorded_same_reservations. Qed.

Lemma effect_counters O d w delta :
  reservations w = reservations d -> ever_inserted w = ever_inserted d ->
  (forall c a, match counter_held d c, counter_held w c with
     | Some h, Some h' => at_axis h a + delta c a <= at_axis h' a
     | None, None => True
     | _, _ => False
     end) ->
  effect O d w delta.
Proof.
  intros Hr He H. split.
  - intros c a. specialize (H c a). rewrite (recorded_ext d w) by done.
    destruct (counter_held d c), (counter_held w c); try done. lia.
  - split.
    + intros c [h Hc]. specialize (H c Usd). rewrite Hc in H. destruct (counter_held w c); [eauto|done].
    + intros. rewrite Hr. apply descends_refl.
    + by rewrite He.
    + intros i _. by rewrite He.
    + by rewrite Hr.
    + intros. rewrite Hr. apply matures_refl.
  - unfold rows_wf. by rewrite Hr, He.
Qed.

Lemma effect_weaken O d w x y : ple y x -> effect O d w x -> effect O d w y.
Proof. intros H []. split; auto. by eapply margin_weaken. Qed.

Lemma effect_update_counters O t ids f d x :
  (forall c a, at_axis (ceiling_held c) a + x a <= at_axis (f c).2 a) ->
  effect O d (update_counters t ids f d)
    (fun c a => match c with CCeiling s => if bool_decide (s ∈ ids) then x a else 0 | CUser _ => 0 end).
Proof.
  intros Hf. apply effect_counters; [done|done|]. intros [u|s] a; simpl.
  - destruct (users d !! u) as [us|]; simpl; [|done]. destruct (user_deleted us); [done|lia].
  - rewrite map_lookup_imap. destruct (ceilings d !! s) as [c|]; simpl; [|done].
    case_bool_decide; simpl; [apply Hf|lia].
Qed.

Lemma effect_release_holds O t ids h d :
  held_nonneg h -> effect O d (release_holds t ids h d) (pneg (ceiling_pend ids h)).
Proof.
  intros Hh. unfold release_holds. destruct (_ || _).
  - eapply effect_weaken; [|apply effect_refl]. intros c a. unfold pzero, pneg.
    pose proof (ceiling_pend_nonneg ids h Hh c a). unfold pzero in *. lia.
  - eapply effect_weaken; [|apply (effect_update_counters _ _ _ _ _ (fun a => - at_axis h a))].
    + intros [u|s] a; unfold pneg; simpl; [lia|]. case_bool_decide as Hs.
      * pose proof (ceiling_pend_elem ids h s a Hh Hs). simpl in *. lia.
      * pose proof (ceiling_pend_nonneg ids h Hh (CCeiling s) a). unfold pzero in *. simpl in *. lia.
    + intros c a. simpl. pose proof (released_ge h (ceiling_held c) a Hh). lia.
Qed.

Lemma effect_settle O t ids used h d :
  held_nonneg h -> effect O d (settle t ids used h d) (pneg (ceiling_pend ids h)).
Proof.
  intros Hh. unfold settle. destruct (_ || _).
  - eapply effect_weaken; [|apply effect_refl]. intros c a. unfold pzero, pneg.
    pose proof (ceiling_pend_nonneg ids h Hh c a). unfold pzero in *. lia.
  - eapply effect_weaken; [|apply (effect_update_counters _ _ _ _ _ (fun a => - at_axis h a))].
    + intros [u|s] a; unfold pneg; simpl; [lia|]. case_bool_decide as Hs.
      * pose proof (ceiling_pend_elem ids h s a Hh Hs). simpl in *. lia.
      * pose proof (ceiling_pend_nonneg ids h Hh (CCeiling s) a). unfold pzero in *. simpl in *. lia.
    + intros c a. simpl. pose proof (released_ge h (ceiling_held c) a Hh). lia.
Qed.

Lemma effect_set_ceiling O d s c c' x :
  ceilings d !! s = Some c -> (forall a, at_axis (ceiling_held c) a + x a <= at_axis (ceiling_held c') a) ->
  effect O d (set_ceilings d (<[s := c']> (ceilings d)))
    (fun k a => if decide (k = CCeiling s) then x a else 0).
Proof.
  intros Hc Hx. apply effect_counters; [done|done|]. intros k a.
  destruct (decide (k = CCeiling s)) as [->|Hne].
  - simpl. rewrite lookup_insert_eq, Hc. apply Hx.
  - destruct k as [u|s']; simpl.
    + destruct (users d !! u) as [us|]; simpl; [|done]. destruct (user_deleted us); [done|lia].
    + rewrite lookup_insert_ne by congruence. destruct (ceilings d !! s'); simpl; [lia|done].
Qed.

Lemma effect_hold O t s amt tok req nr d w :
  hold t s amt tok req nr d = (true, w) ->
  effect O d w (ceiling_pend [s] (mkHeld (default 0 amt) tok req)).
Proof.
  unfold hold. destruct (ceilings d !! s) as [c|] eqn:E; [|done].
  destruct (hold_gates _ _ _ _ _ _); [|done]. intros [= <-].
  eapply effect_weaken; [|apply (effect_set_ceiling _ _ _ c _ (at_axis (mkHeld (default 0 amt) tok req)))].
  - intros k a. by rewrite ceiling_pend_one.
  - done.
  - intros a. cbn [ceiling_held set_ceiling_counters]. rewrite at_axis_add. lia.
Qed.

Lemma hold_refused t s amt tok req nr d w : hold t s amt tok req nr d = (false, w) -> w = d.
Proof.
  unfold hold. destruct (ceilings d !! s); [|by intros [=]]. destruct (hold_gates _ _ _ _ _ _); by intros [=].
Qed.

Lemma effect_roll_period O t now s start e d : effect O d (roll_period t now s start e d) pzero.
Proof.
  unfold roll_period. destruct (ceilings d !! s) as [c|] eqn:E; [|apply effect_refl].
  destruct (period_end c) as [pe|]; [|apply effect_refl]. destruct (pe <=? now); [|apply effect_refl].
  eapply effect_weaken; [|apply (effect_set_ceiling _ _ _ c _ (fun _ => 0))].
  - intros k a. unfold pzero. case_decide; lia.
  - done.
  - intros a. simpl. lia.
Qed.

(** ** Statements on users *)

Lemma effect_set_user O d u us us' x :
  users d !! u = Some us -> user_deleted us' = user_deleted us ->
  (forall a, at_axis (user_held us) a + x a <= at_axis (user_held us') a) ->
  effect O d (set_users d (<[u := us']> (users d))) (fun k a => if decide (k = CUser u) then x a else 0).
Proof.
  intros Hu Hdel Hx. apply effect_counters; [done|done|]. intros k a.
  destruct (decide (k = CUser u)) as [->|Hne].
  - simpl. rewrite lookup_insert_eq, Hu. simpl. rewrite Hdel. destruct (user_deleted us); [done|apply Hx].
  - destruct k as [u'|s]; simpl.
    + rewrite lookup_insert_ne by congruence. destruct (users d !! u') as [z|]; simpl; [|done].
      destruct (user_deleted z); [done|lia].
    + destruct (ceilings d !! s); simpl; [lia|done].
Qed.

Lemma get_active_user_some d u us : get_active_user d u = Some us -> users d !! u = Some us /\ user_deleted us = false.
Proof.
  unfold get_active_user. intros H. apply bind_Some in H as (x & Hx & H).
  destruct (user_deleted x) eqn:E; by simplify_eq.
Qed.

Lemma effect_update_user O t u guard f d x b w :
  (forall us a, at_axis (user_held us) a + x a <= at_axis (f us).2 a) ->
  update_user t u guard f d = (b, w) ->
  if b then effect O d w (fun k a => if decide (k = CUser u) then x a else 0) else w = d.
Proof.
  intros Hx. unfold update_user. destruct (get_active_user d u) as [us|] eqn:E; [|by intros [= <- <-]].
  destruct (guard us); [|by intros [= <- <-]]. intros [= <- <-].
  apply get_active_user_some in E as [E _]. by apply (effect_set_user _ _ _ us).
Qed.

Lemma effect_add_hold O t u guard h d b w :
  update_user t u guard (add_hold h) d = (b, w) -> if b then effect O d w (user_pend u h) else w = d.
Proof.
  intros H. apply (effect_update_user O _ _ _ _ _ (at_axis h)) in H; [|intros us a; simpl; by rewrite at_axis_add].
  destruct b; exact H.
Qed.

(** A statement that takes at most [h] off a user's hold, whether or not it finds the user. *)
Lemma effect_user_release O t u f h d :
  held_nonneg h -> (forall us a, at_axis (user_held us) a - at_axis h a <= at_axis (f us).2 a) ->
  effect O d (update_user t u (fun _ => true) f d).2 (pneg (user_pend u h)).
Proof.
  intros Hh Hf. destruct (update_user t u (fun _ => true) f d) as [b w] eqn:E. simpl.
  apply (effect_update_user O _ _ _ _ _ (fun a => - at_axis h a)) in E.
  2: { intros us a. specialize (Hf us a). lia. }
  destruct b.
  - eapply effect_weaken; [|exact E]. intros c a. unfold pneg, user_pend. case_decide; lia.
  - subst. eapply effect_weaken; [|apply effect_refl]. intros c a.
    pose proof (user_pend_nonneg u h Hh c a). unfold pneg, pzero in *. lia.
Qed.

Lemma effect_reset_user O t now u s e d b w :
  reset_user t now u s e d = (b, w) -> effect O d w pzero.
Proof.
  unfold reset_user. destruct (get_active_user d u) as [us|] eqn:E; [|intros [= _ <-]; apply effect_refl].
  destruct (match next_budget_reset_at us with Some t0 => t0 <=? now | None => false end);
    [|intros [= _ <-]; apply effect_refl].
  intros [= _ <-]. apply get_active_user_some in E as [E _].
  eapply effect_weaken; [|apply (effect_set_user _ _ _ us _ (fun _ => 0)); [done|done|]].
  - intros k a. unfold pzero. case_decide; lia.
  - intros a. simpl. lia.
Qed.

Lemma effect_reset_log O d l : effect O d (add_reset_log d l) pzero.
Proof.
  apply effect_counters; [done|done|]. intros c a. unfold pzero. destruct c as [u|s]; simpl.
  - destruct (users d !! u) as [us|]; simpl; [|done]. destruct (user_deleted us); [done|lia].
  - destruct (ceilings d !! s); simpl; [lia|done].
Qed.

(** ** Statements on reservation rows *)

Lemma counter_held_set_reservations d m c : counter_held (set_reservations d m) c = counter_held d c.
Proof. by destruct c. Qed.

Lemma counter_held_insert d i r c : counter_held (insert_reservation d i r) c = counter_held d c.
Proof. by destruct c. Qed.

(** The owner of a row, or the sweep when the row only expires, replaces it. *)
Lemma effect_set_row O d i r r' :
  reservations d !! i = Some r -> i ∈ ever_inserted d ->
  (i ∈ O \/ descends (Some r) (Some r')) -> matures (Some r) (Some r') ->
  (row_wf r -> row_wf r') ->
  effect O d (set_reservations d (<[i := r']> (reservations d)))
    (fun c a => active_holds r c a - active_holds r' c a).
Proof.
  intros Hr Hi Hown Hm Hwf. split.
  - intros c a. rewrite counter_held_set_reservations, (recorded_update _ _ r) by done.
    destruct (counter_held d c); [lia|done].
  - split; simpl; try done.
    + intros j Hj. destruct (decide (j = i)) as [->|Hne].
      * rewrite lookup_insert_eq, Hr. destruct Hown; [done|]. done.
      * rewrite lookup_insert_ne by done. apply descends_refl.
    + intros j Hj. destruct (decide (j = i)) as [->|Hne].
      * rewrite lookup_insert_eq. eauto.
      * by rewrite lookup_insert_ne.
    + intros j _. destruct (decide (j = i)) as [->|Hne].
      * by rewrite lookup_insert_eq, Hr.
      * rewrite lookup_insert_ne by done. apply matures_refl.
  - intros H j r0. simpl. destruct (decide (j = i)) as [->|Hne].
    + rewrite lookup_insert_eq. intros [= <-]. split; [|done]. apply Hwf, (H i r Hr).
    + rewrite lookup_insert_ne by done. apply H.
Qed.

Lemma effect_insert_row O d i r :
  i ∈ O -> i ∉ ever_inserted d -> rows_wf d -> row_wf r ->
  effect O d (insert_reservation d i r) (fun c a => - active_holds r c a).
Proof.
  intros Hi Hnew Hd Hwf.
  assert (Hnone : reservations d !! i = None).
  { destruct (reservations d !! i) eqn:E; [|done]. by apply Hd in E as [_ ?]. }
  split.
  - intros c a. rewrite counter_held_insert, recorded_insert by done.
    destruct (counter_held d c); [lia|done].
  - split; simpl.
    + intros c. by rewrite counter_held_insert.
    + intros j Hj. rewrite lookup_insert_ne by congruence. apply descends_refl.
    + set_solver.
    + intros j Hj. rewrite elem_of_union, elem_of_singleton. intros [->|]; done.
    + intros j Hj. destruct (decide (j = i)) as [->|Hne]; [rewrite lookup_insert_eq; eauto|].
      by rewrite lookup_insert_ne.
    + intros j Hj. rewrite lookup_insert_ne by congruence. apply matures_refl.
  - intros _ j r0. simpl. destruct (decide (j = i)) as [->|Hne].
    + rewrite lookup_insert_eq. intros [= <-]. split; [done|set_solver].
    + rewrite lookup_insert_ne by done. intros Hj. destruct (Hd j r0 Hj). split; [done|set_solver].
Qed.

Lemma held_lines_wf h ids : held_nonneg h -> Forall (fun l => held_nonneg (line_held l)) (held_lines h ids).
Proof. intros H. apply Forall_fmap, Forall_true. by intros. Qed.

Lemma effect_add O d w i u b h ch ids e :
  i ∈ O -> i ∉ ever_inserted d -> rows_wf d -> held_nonneg h -> held_nonneg ch ->
  add i u b h ch ids e d = Some w ->
  effect O d w (pneg (padd (user_pend u (if b then h else zero_held)) (ceiling_pend ids ch))).
Proof.
  intros Hi Hnew Hd Hh Hch. unfold add. destruct (reservations d !! i); [done|]. intros [= <-].
  eapply effect_weaken; [|apply effect_insert_row; try done; split; [exact Hh|by apply held_lines_wf]].
  intros c a. unfold active_holds. rewrite decide_True by done. unfold pneg, padd, user_pend.
  destruct c as [u'|s]; unfold row_holds, ceiling_pend; simpl row_user_id; simpl user_reserved;
    simpl lines; simpl row_held.
  - destruct (decide (CUser u' = CUser u)) as [Heq|Hne].
    + injection Heq as ->. rewrite bool_decide_eq_true_2 by done. destruct b, a; simpl; lia.
    + rewrite bool_decide_eq_false_2 by congruence. simpl. lia.
  - rewrite decide_False by done. lia.
Qed.

Lemma effect_add_released O t d w i u :
  i ∈ O -> i ∉ ever_inserted d -> rows_wf d ->
  add_released t i u d = Some w -> effect O d w pzero.
Proof.
  intros Hi Hnew Hd. unfold add_released. destruct (reservations d !! i); [done|]. intros [= <-].
  eapply effect_weaken; [|apply effect_insert_row; try done; split; [apply held_nonneg_zero|by constructor]].
  intros c a. unfold active_holds, pzero. simpl. lia.
Qed.

Lemma row_wf_status r s : row_wf r -> row_wf (set_status r s).
Proof. by intros [H1 H2]. Qed.

Lemma matures_status r s : s <> RESERVATION_ACTIVE -> matures (Some r) (Some (set_status r s)).
Proof. intros Hs r' [= <-]. exists r. split; [done|]. simpl. done. Qed.

(** Claiming an active row: the margin grows by what it recorded. *)
Lemma effect_terminate O d w i r s :
  reservations d !! i = Some r -> rows_wf d -> s <> RESERVATION_ACTIVE ->
  (i ∈ O \/ s = RESERVATION_EXPIRED) ->
  try_terminate i s d = (true, w) ->
  effect O d w (row_pend r) /\ status r = RESERVATION_ACTIVE.
Proof.
  intros Hr Hd Hs Hown. unfold try_terminate, transition. rewrite Hr.
  destruct (decide (status r = RESERVATION_ACTIVE)) as [Ha|]; [|done]. intros [= <-].
  split; [|done]. eapply effect_weaken; [|apply (effect_set_row O d i r); try done].
  - intros c a. unfold active_holds. rewrite decide_True by done. rewrite decide_False by done.
    unfold row_pend. lia.
  - by apply (Hd i r).
  - destruct Hown as [| ->]; [by left|right]. intros r' [= <-]. exists r. auto.
  - by apply matures_status.
  - apply row_wf_status.
Qed.

Lemma terminate_some d w i s : try_terminate i s d = (true, w) -> exists r, reservations d !! i = Some r.
Proof. unfold try_terminate, transition. destruct (reservations d !! i); [eauto|done]. Qed.

Lemma transition_false i s s' d w : transition i s s' d = (false, w) -> w = d.
Proof.
  unfold transition. destruct (reservations d !! i); [|by intros [=]]. case_decide; by intros [=].
Qed.

Lemma effect_settle_reclaimed O d i :
  rows_wf d -> i ∈ O -> effect O d (try_settle_reclaimed i d).2 pzero.
Proof.
  intros Hd Hi. unfold try_settle_reclaimed, transition. destruct (reservations d !! i) as [r|] eqn:Hr;
    [|apply effect_refl].
  destruct (decide (status r = RESERVATION_EXPIRED)) as [Ha|]; [|apply effect_refl]. simpl.
  eapply effect_weaken; [|apply (effect_set_row O d i r); try done].
  - intros c a. unfold active_holds, pzero. rewrite !decide_False; [lia|done|congruence].
  - by apply (Hd i r).
  - by left.
  - by apply matures_status.
  - apply row_wf_status.
Qed.

(** A top-up's delta folded into a row. *)
Definition grow_pend (u : string) (ids : list string) (du dc : HeldAmounts) : pend :=
  padd (user_pend u du) (ceiling_pend ids dc).

Lemma lines_hold_grow ls dc s a :
  Forall (fun l => held_nonneg (line_held l)) ls ->
  lines_hold ((fun l => mkLine (line_budget_id l) (add_held (line_held l) dc)) <$> ls) s a =
    lines_hold ls s a + ceiling_pend (line_budget_id <$> ls) dc (CCeiling s) a.
Proof.
  simpl. induction 1 as [|l ls Hl Hls IH]; [done|]. unfold held_lines in *.
  rewrite !fmap_cons, !lines_hold_cons, IH. cbn [line_budget_id line_held]. rewrite at_axis_add.
  case_decide; lia.
Qed.

(** A row of [u] that holds on [ids]. *)
Definition row_shape (u : string) (ids : list string) (r : BudgetReservation) : Prop :=
  row_user_id r = u /\ line_budget_id <$> lines r = ids.

Lemma effect_grow O d w i r u ids ud grew sd td std :
  reservations d !! i = Some r -> rows_wf d -> i ∈ O -> row_shape u ids r ->
  0 <= ud -> 0 <= sd -> 0 <= td -> 0 <= std ->
  (grew = false -> ud = 0 /\ td = 0) -> (user_reserved r = false -> row_held r = zero_held) ->
  grow i ud grew sd td std d = (true, w) ->
  effect O d w (pneg (grow_pend u ids (mkHeld ud td 0) (mkHeld sd std 0)))
  /\ status r = RESERVATION_ACTIVE.
Proof.
  intros Hr Hd Hi [Hu Hids] Hud Hsd Htd Hstd Hgrew Hres. unfold grow. rewrite Hr.
  destruct (decide (status r = RESERVATION_ACTIVE)) as [Ha|]; [|done]. intros [= <-].
  split; [|done]. destruct (Hd i r Hr) as [[Hh Hl] Hin].
  eapply effect_weaken; [|apply (effect_set_row O d i r); try done; [by left| |]].
  - intros c a. unfold active_holds. rewrite !decide_True by done. unfold pneg, grow_pend, padd.
    destruct c as [u'|s]; unfold row_holds, user_pend.
    + cbn [row_user_id user_reserved row_held ceiling_pend].
      destruct (decide (CUser u' = CUser u)) as [Heq|Hne].
      * injection Heq as ->. rewrite bool_decide_eq_true_2 by done. rewrite at_axis_add.
        destruct grew; simpl.
        -- destruct (user_reserved r) eqn:Er; [lia|]. rewrite Hres by done. destruct a; simpl; lia.
        -- destruct (Hgrew eq_refl) as [-> ->]. destruct (user_reserved r); destruct a; simpl; lia.
      * rewrite bool_decide_eq_false_2 by congruence. simpl. lia.
    + rewrite decide_False by done. cbn [lines].
      destruct ((0 <? sd) || (0 <? std)) eqn:E.
      * rewrite lines_hold_grow by done. rewrite Hids. lia.
      * reflect_bools. assert (sd = 0) as -> by lia. assert (std = 0) as -> by lia.
        pose proof (ceiling_pend_zero ids (CCeiling s) a) as Hz.
        change (mkHeld 0 0 0) with zero_held. lia.
  - intros r' [= <-]. exists r. split; [done|]. cbn. intros _. repeat split; try done.
    + by destruct grew.
    + intros a. rewrite at_axis_add. destruct a; simpl; lia.
  - intros _. split; cbn.
    + apply held_nonneg_add; [done|]. apply mkHeld_nonneg; lia.
    + destruct (_ || _); [|done]. apply Forall_fmap. eapply Forall_impl; [exact Hl|].
      intros l Hln. cbn. apply held_nonneg_add; [done|]. apply mkHeld_nonneg; lia.
Qed.

Lemma grow_false i ud grew sd td std d w : grow i ud grew sd td std d = (false, w) -> w = d.
Proof. unfold grow. destruct (reservations d !! i); [|by intros [=]]. case_decide; by intros [=]. Qed.
