(* ===== verification/Coverage.v ===== *)
(** No hold is released twice: every program of the reservation services, interleaved with
    any number of others and under any faults, keeps each counter at least at what the
    active ledger rows record. *)
From S2P Require Import Prelude Periods Refusals Tables Repositories Session SessionLogic Margins.
From S2P Require Import ScopedEnforcement Ledger Reservations.
From stdpp Require Import gmap strings list fin_maps sorting.
From Stdlib Require Import ZArith Lia.
Open Scope Z_scope.

Lemma fault_is_database_error e : fault_error e -> is_database_error e = true.
Proof. by destruct 1. Qed.

(** Between transactions of one program: the owner of [O], which saw [d], is at [v'], and what
    it relied on went on to hold. *)
Record moved (O : gset nat) (d : database) (v' : view) (d' : database) : Prop := {
  mv_idle : idle v' d';
  mv_owned : O ⊆ vo v';
  mv_rely : rely O d d';
  mv_nonneg : pnonneg (vp v')
}.

Lemma moved_refl v d : idle v d -> pnonneg (vp v) -> moved (vo v) d v d.
Proof. intros. split; auto. apply evolves_refl. Qed.

Lemma moved_trans O d v1 d1 v2 d2 : moved O d v1 d1 -> moved (vo v1) d1 v2 d2 -> moved O d v2 d2.
Proof.
  intros [H1 H2 H3 H4] [H5 H6 H7 H8]. split; [done|set_solver| |done].
  eapply evolves_trans; [exact H3|]. eapply evolves_weaken; [|exact H7]. set_solver.
Qed.

Lemma moved_fails O d v d' : moved O d v d' -> moved O d (set_vt v (VPoisoned d')) d'.
Proof. intros []. split; [by right|done..]. Qed.

Lemma moved_clean O d v d' : moved O d v d' -> moved O d (set_vt v (VClean d')) d'.
Proof. intros []. split; [by left|done..]. Qed.

Lemma moved_current O d v d1 F d' :
  moved O d v d1 -> current v d1 F d' -> moved O d (set_vt v (VClean d')) d'.
Proof.
  intros [H1 H2 H3 H4] (Hr & _). split; [by left|done| |done].
  eapply evolves_trans; [exact H3|]. eapply evolves_weaken; [|exact Hr]. set_solver.
Qed.

Lemma ple_refl P : ple P P.
Proof. intros c a. lia. Qed.

Lemma ple_trans P R S : ple P R -> ple R S -> ple P S.
Proof. intros H1 H2 c a. specialize (H1 c a). specialize (H2 c a). lia. Qed.

Lemma pnonneg_ple P R : pnonneg P -> ple P R -> pnonneg R.
Proof. intros. by eapply ple_trans. Qed.

Lemma psub_pend_ple P ids h : held_nonneg h -> ple (psub P (ceiling_pend ids h)) P.
Proof. intros Hh c a. pose proof (ceiling_pend_nonneg ids h Hh c a). unfold psub, pzero in *. lia. Qed.

(** Pointwise linear arithmetic on pending amounts. *)
Ltac pends :=
  repeat match goal with H : ple _ _ |- _ => unfold ple in H | H : pnonneg _ |- _ => unfold pnonneg, ple in H end;
  unfold pnonneg, ple; let c := fresh "c" in let a := fresh "a" in intros c a;
  repeat match goal with H : forall (_ : counter) (_ : axis), _ |- _ => specialize (H c a) end;
  unfold pzero, padd, psub, pneg in *; cbn [vp set_vt] in *; lia.

(** A transaction that changed no row of [O] commits. *)
Lemma moved_commit_rows E O d v d1 F d' w delta P :
  E ## O -> moved O d v d1 -> current v d1 F d' -> effect E d' w delta -> pnonneg P ->
  moved O d (mkView (VClean w) P (vo v)) w /\ moved O d (mkView (VPoisoned w) P (vo v)) w.
Proof.
  intros HE Hm Hc He HP. destruct (moved_current _ _ _ _ _ _ Hm Hc) as [_ H2 H3 _].
  assert (rely O d w).
  { eapply evolves_trans; [exact H3|]. by apply (effect_rely E _ _ _ delta). }
  split; split; try done; [by left|by right].
Qed.

Lemma moved_commit O d v d1 F d' w delta P :
  moved O d v d1 -> current v d1 F d' -> effect ∅ d' w delta -> pnonneg P ->
  moved O d (mkView (VClean w) P (vo v)) w /\ moved O d (mkView (VPoisoned w) P (vo v)) w.
Proof.
  intros. eapply (moved_commit_rows ∅); eauto. set_solver.
Qed.

Section coverage.
Context {ok : policy}.

(** ** The session's own steps *)

Lemma wp_defer O d0 v d (Q : exn + unit -> view -> Prop) :
  moved O d0 v d ->
  (forall r x d', moved O d0 (set_vt v x) d' -> (forall e, r = inl e -> fault_error e) -> Q r (set_vt v x)) ->
  wp ok defer_commit_flush Q v.
Proof.
  intros Hm HQ. apply (wp_query_idle _ _ _ d); [apply Hm| |].
  - intros F d' t _ Hc. eapply HQ; [by eapply moved_current|done].
  - intros e He. eapply HQ; [by apply moved_fails|by intros ? [= ->]].
Qed.

Lemma wp_best_effort_rollback caught O d0 v x0 d (Q : exn + unit -> view -> Prop) :
  moved O d0 (set_vt v x0) d -> base (vt v) = d ->
  (forall r x, moved O d0 (set_vt v x) d -> (forall e, r = inl e -> fault_error e) -> Q r (set_vt v x)) ->
  wp ok (best_effort_rollback caught) Q v.
Proof.
  intros Hm <- HQ. apply wp_try, wp_rollback.
  - apply HQ; [by apply moved_clean in Hm|done].
  - intros e He. apply moved_fails in Hm. destruct (caught e); apply (HQ _ _ Hm); [done|by intros ? [= ->]].
Qed.

(** ** Releasing ceilings *)

Lemma wp_release O d0 v d ids h (Q : exn + unit -> view -> Prop) :
  moved O d0 v d -> held_nonneg h -> pnonneg (psub (vp v) (ceiling_pend ids h)) ->
  (forall r v' d', moved O d0 v' d' -> vo v' = vo v -> ple (psub (vp v) (ceiling_pend ids h)) (vp v') ->
     (forall e, r = inl e -> fault_error e) -> Q r v') ->
  wp ok (release ids h true) Q v.
Proof.
  intros Hm Hh HP HQ. pose proof (psub_pend_ple (vp v) ids h Hh) as Hle.
  unfold release. destruct (_ || _); [by apply (HQ _ _ d)|].
  apply wp_bind, (wp_defer O d0 _ d); [done|]. intros [e|[]] x d1 Hm1 Herr.
  { by apply (HQ _ _ d1). }
  apply wp_bind, (wp_execute_idle _ _ _ d1); [apply Hm1| |].
  - intros F d2 t Hx Hc. pose proof (effect_release_holds ∅ t ids h d2 Hh) as He.
    exists ∅, (pneg (ceiling_pend ids h)). split; [set_solver|]. split; [done|]. intros Hin.
    destruct (moved_commit _ _ _ _ _ _ _ _ _ Hm1 Hc He HP) as [Hm2 Hm3].
    pose proof (moved_fails _ _ _ _ (moved_current _ _ _ _ _ _ Hm1 Hc)) as Hm4.
    apply (wp_commit_tx ok OtherCommit _ _ _ _ _ _ (psub (vp v) (ceiling_pend ids h)) _ Hin);
      [done|pends| | |].
    + apply (HQ _ _ _ Hm2); [done|apply ple_refl|done].
    + intros e Hf. apply (HQ _ _ _ Hm4); [done|done|by intros ? [= ->]].
    + intros _ e Hf. apply (HQ _ _ _ Hm3); [done|apply ple_refl|by intros ? [= ->]].
  - intros e He. apply (HQ _ _ _ (moved_fails _ _ _ _ Hm1)); [done|done|by intros ? [= ->]].
Qed.

(** [suppress (rollback; p)] leaves what [p] does, or nothing. *)
Lemma wp_rollback_then O d0 v d (p : prog unit) (R : view -> database -> Prop) (Q : exn + unit -> view -> Prop) :
  moved O d0 v d ->
  (forall x, moved O d0 (set_vt v x) d -> R (set_vt v x) d) ->
  (forall x (Q' : exn + unit -> view -> Prop), moved O d0 (set_vt v x) d ->
     (forall r v' d', R v' d' -> (forall e, r = inl e -> fault_error e) -> Q' r v') ->
     wp ok p Q' (set_vt v x)) ->
  (forall v' d', R v' d' -> Q (inr tt) v') ->
  wp ok (suppress is_database_error (rollback ;;! p)) Q v.
Proof.
  intros Hm HR Hp HQ. pose proof (mv_idle _ _ _ _ Hm) as Hi.
  apply wp_try, wp_bind, wp_rollback; rewrite (idle_base _ _ Hi).
  - apply Hp; [by apply moved_clean|]. intros [e|[]] v' d' HR' He.
    + rewrite (fault_is_database_error e) by auto. by eapply HQ.
    + by eapply HQ.
  - intros e He. rewrite (fault_is_database_error e) by done.
    eapply HQ, HR. by apply moved_fails.
Qed.

Lemma wp_hold_one O d0 v d s amt tok req nr (Q : exn + bool -> view -> Prop) :
  let h := to_release amt tok req in
  moved O d0 v d -> held_nonneg h ->
  (forall r v' d', moved O d0 v' d' -> vo v' = vo v -> ple (vp v) (vp v') ->
     match r with
     | inr true => ple (padd (vp v) (ceiling_pend [s] h)) (vp v')
     | inr false => True
     | inl e => fault_error e
     end -> Q r v') ->
  wp ok (defer_commit_flush ;;!
         let! held := update_rowcount (fun t => CeilingRepo.hold t s amt tok req nr) in
         commit ;;! Ret held) Q v.
Proof.
  intros h Hm Hh HQ. pose proof (ceiling_pend_nonneg [s] h Hh) as Hn.
  pose proof (mv_nonneg _ _ _ _ Hm) as Hv.
  apply wp_bind, (wp_defer O d0 _ d); [done|]. intros [e|[]] x d1 Hm1 Herr.
  { apply (HQ _ _ _ Hm1); [done|apply ple_refl|by apply Herr]. }
  apply wp_bind, (wp_execute_idle _ _ _ d1); [apply Hm1| |].
  2: { intros e He. apply (HQ _ _ _ (moved_fails _ _ _ _ Hm1)); [done|apply ple_refl|done]. }
  intros F d2 t Hx Hc.
  pose proof (moved_fails _ _ _ _ (moved_current _ _ _ _ _ _ Hm1 Hc)) as Hm4.
  destruct (CeilingRepo.hold t s amt tok req nr d2) as [held w] eqn:E. cbn [fst snd]. destruct held.
  - pose proof (effect_hold ∅ _ _ _ _ _ _ _ _ E) as He. exists ∅, (ceiling_pend [s] h).
    split; [set_solver|]. split; [exact He|]. intros Hin.
    assert (HP : pnonneg (padd (vp v) (ceiling_pend [s] h))) by pends.
    destruct (moved_commit _ _ _ _ _ _ _ _ _ Hm1 Hc He HP) as [Hm2 Hm3].
    apply wp_bind, (wp_commit_tx ok OtherCommit _ _ _ _ _ _ _ _ Hin HP); [apply ple_refl| | |].
    + apply (HQ _ _ _ Hm2); [done|simpl; pends|apply ple_refl].
    + intros e Hf. apply (HQ _ _ _ Hm4); [done|apply ple_refl|done].
    + intros _ e Hf. apply (HQ _ _ _ Hm3); [done|simpl; pends|done].
  - apply hold_refused in E as ->. exists ∅, pzero. split; [set_solver|]. split; [apply effect_refl|].
    intros Hin. destruct (moved_commit _ _ _ _ _ _ _ _ (vp v) Hm1 Hc (effect_refl ∅ d2) Hv) as [Hm2 Hm3].
    apply wp_bind, (wp_commit_tx ok OtherCommit _ _ _ _ _ _ (vp v) _ Hin); [done|pends| | |].
    + apply (HQ _ _ _ Hm2); [done|apply ple_refl|done].
    + intros e Hf. apply (HQ _ _ _ Hm4); [done|apply ple_refl|done].
    + intros _ e Hf. apply (HQ _ _ _ Hm3); [done|apply ple_refl|done].
Qed.

Lemma wp_reserve_after O d0 taken bs amt tok req nr P0 v d (Q : exn + option ApplicableBudget -> view -> Prop) :
  let h := to_release amt tok req in
  moved O d0 v d -> held_nonneg h -> pnonneg P0 -> ple (padd P0 (ceiling_pend taken h)) (vp v) ->
  (forall r v' d', moved O d0 v' d' -> vo v' = vo v -> ple P0 (vp v') ->
     match r with
     | inr None => ple (padd P0 (ceiling_pend (taken ++ (budget_id <$> bs)) h)) (vp v')
     | inr (Some _) => True
     | inl e => fault_error e
     end -> Q r v') ->
  wp ok (reserve_after taken bs amt tok req nr) Q v.
Proof.
  intros h Hm Hh HP0. subst h. revert taken v d Hm. induction bs as [|b bs IH]; intros taken v d Hm Hple HQ.
  { pose proof (ceiling_pend_nonneg taken _ Hh). apply (HQ _ _ _ Hm); [done|pends|].
    simpl. by rewrite app_nil_r. }
  pose proof (ceiling_pend_nonneg taken _ Hh) as Hn.
  cbn [reserve_after]. apply wp_bind, wp_try, (wp_hold_one O d0 v d); [done|done|].
  intros r v1 d1 Hm1 Ho1 Hle1 Hr. destruct r as [e|[]].
  - rewrite (fault_is_database_error e) by done.
    assert (Hp1 : ple P0 (vp v1)) by pends.
    apply wp_bind, (wp_rollback_then O d0 _ d1 _ (fun v' d' => moved O d0 v' d' /\ vo v' = vo v /\ ple P0 (vp v')));
      [done|done| |].
    + intros x Q' Hm2 HQ'. apply (wp_release O d0 _ d1); [done|done|pends|].
      intros r v' d' Hm3 Ho3 Hle3 Herr. apply (HQ' _ _ d'); [|done]. split; [done|].
      split; [by rewrite Ho3|pends].
    + intros v' d' (Hm3 & Ho3 & Hle3). by apply (HQ _ _ _ Hm3).
  - eapply (IH _ v1 d1 Hm1).
    + intros c a. unfold padd. rewrite ceiling_pend_app.
      specialize (Hr c a). specialize (Hple c a). unfold padd in *. lia.
    + intros r v' d' Hm3 Ho3 Hle3 Hr3. apply (HQ _ _ _ Hm3); [by rewrite Ho3|done|].
      destruct r as [e|[b'|]]; try done. by rewrite <- app_assoc in Hr3.
  - apply wp_bind, (wp_release O d0 _ d1); [done|done|pends|].
    intros r v' d' Hm3 Ho3 Hle3 Herr. assert (ple P0 (vp v')) by pends.
    destruct r as [e|[]]; apply (HQ _ _ _ Hm3); try done; try congruence. by apply Herr.
Qed.

Lemma wp_query {B} (q : Z -> database -> B) O d0 v d (Q : exn + B -> view -> Prop) :
  moved O d0 v d ->
  (forall r x d', moved O d0 (set_vt v x) d' ->
     match r with
     | inr b => (exists t, b = q t d') /\ rows_wf d' /\ x = VClean d'
     | inl e => fault_error e
     end -> Q r (set_vt v x)) ->
  wp ok (query q) Q v.
Proof.
  intros Hm HQ. apply (wp_query_idle _ _ _ d); [apply Hm| |].
  - intros F d' t _ Hc. eapply HQ; [by eapply moved_current|]. split; [by exists t|].
    split; [|done]. apply Hc.
  - intros e He. eapply HQ; [by apply moved_fails|done].
Qed.

(** ** Statements inside a transaction *)

Lemma in_tx_weaken v O F d w x y : ple y x -> in_tx v O F d w x -> in_tx v O F d w y.
Proof. intros H []. split; auto. by eapply effect_weaken. Qed.

Lemma wp_update_tx (s : Z -> database -> database) v O F d w x y (Q : exn + unit -> view -> Prop) :
  in_tx v O F d w x ->
  (forall t, effect O w (s t w) y) ->
  (forall w' v', v' = set_vt v (VDirty F d w') -> in_tx v' O F d w' (padd x y) -> Q (inr tt) v') ->
  (forall e, fault_error e -> Q (inl e) (set_vt v (VPoisoned d))) ->
  wp ok (update s) Q v.
Proof.
  intros Hi Hs H1 H2. apply (wp_execute_tx _ _ _ _ _ _ _ _ _ Hi); [|done]. intros t.
  exists y. split; [apply Hs|]. intros. by eapply H1.
Qed.

Lemma wp_update_rowcount_tx (s : Z -> database -> bool * database) v O F d w x y (Q : exn + bool -> view -> Prop) :
  in_tx v O F d w x ->
  (forall t, effect O w (s t w).2 y) ->
  (forall b w' v', v' = set_vt v (VDirty F d w') -> in_tx v' O F d w' (padd x y) -> Q (inr b) v') ->
  (forall e, fault_error e -> Q (inl e) (set_vt v (VPoisoned d))) ->
  wp ok (update_rowcount s) Q v.
Proof.
  intros Hi Hs H1 H2. apply (wp_execute_tx _ _ _ _ _ _ _ _ _ Hi); [|done]. intros t.
  exists y. split; [apply Hs|]. intros. by eapply H1.
Qed.

Lemma wp_release_tx v O F d w x ids h (Q : exn + unit -> view -> Prop) :
  in_tx v O F d w x -> held_nonneg h ->
  (forall w' v', v' = set_vt v (VDirty F d w') -> in_tx v' O F d w' (padd x (pneg (ceiling_pend ids h))) ->
     Q (inr tt) v') ->
  (forall e, fault_error e -> Q (inl e) (set_vt v (VPoisoned d))) ->
  wp ok (release ids h false) Q v.
Proof.
  intros Hi Hh H1 H2. unfold release. destruct (_ || _).
  - eapply (H1 w); [destruct v; simpl; by rewrite <- (it_view _ _ _ _ _ _ Hi)|].
    eapply in_tx_weaken; [|exact Hi]. pose proof (ceiling_pend_nonneg ids h Hh). pends.
  - cbn [bind handle]. apply wp_bind, (wp_update_tx _ _ _ _ _ _ _ _ _ Hi
      (fun t => effect_release_holds O t ids h w Hh)); [exact H1|exact H2].
Qed.

Definition groups_pend (gs : list (HeldAmounts * list string)) : pend := fun c a =>
  sumZ (fun g => ceiling_pend g.2 g.1 c a) gs.

Lemma wp_release_groups_tx gs v O F d w x (Q : exn + unit -> view -> Prop) :
  in_tx v O F d w x -> Forall (fun g => held_nonneg g.1) gs ->
  (forall w' v', v' = set_vt v (VDirty F d w') -> in_tx v' O F d w' (padd x (pneg (groups_pend gs))) ->
     Q (inr tt) v') ->
  (forall e, fault_error e -> Q (inl e) (set_vt v (VPoisoned d))) ->
  wp ok (for_each gs (fun '(held, ids) => release ids held false)) Q v.
Proof.
  intros Hi Hgs. revert v w x Hi. induction Hgs as [|[h ids] gs Hh Hgs IH]; intros v w x Hi H1 H2.
  { eapply (H1 w); [destruct v; simpl; by rewrite <- (it_view _ _ _ _ _ _ Hi)|].
    eapply in_tx_weaken; [|exact Hi]. intros c a. unfold padd, pneg, groups_pend. rewrite sumZ_nil. lia. }
  cbn [for_each]. apply wp_bind, (wp_release_tx _ _ _ _ _ _ _ _ _ Hi Hh); [|exact H2].
  intros w1 v1 -> Hi1. eapply (IH _ _ _ Hi1); [|exact H2]. intros w2 v2 -> Hi2. eapply H1; [done|].
  eapply in_tx_weaken; [|exact Hi2]. intros c a. unfold padd, pneg, groups_pend.
  rewrite sumZ_cons. simpl. lia.
Qed.

Lemma groups_pend_add h id gs c a :
  groups_pend (add_to_group h id gs) c a = groups_pend gs c a + ceiling_pend [id] h c a.
Proof.
  unfold groups_pend. induction gs as [|[h' ids] gs IH]; cbn [add_to_group].
  - rewrite sumZ_cons. simpl. lia.
  - case_decide as Hd; rewrite !sumZ_cons; cbn [fst snd].
    + subst. rewrite ceiling_pend_app. lia.
    + rewrite IH. lia.
Qed.

Lemma groups_nonneg_add h id gs :
  held_nonneg h -> Forall (fun g => held_nonneg g.1) gs ->
  Forall (fun g : HeldAmounts * list string => held_nonneg g.1) (add_to_group h id gs).
Proof.
  intros Hh. induction 1 as [|[h' ids] gs Hg Hgs IH]; cbn [add_to_group]; [by repeat constructor|].
  case_decide; by constructor.
Qed.

Lemma by_amounts_spec ls :
  Forall (fun l => held_nonneg (line_held l)) ls ->
  Forall (fun g => held_nonneg g.1) (by_amounts ls)
  /\ forall s a, groups_pend (by_amounts ls) (CCeiling s) a = lines_hold ls s a.
Proof.
  intros Hls. unfold by_amounts.
  assert (H : forall gs, Forall (fun g : HeldAmounts * list string => held_nonneg g.1) gs ->
    let gs' := foldl (fun gs l => if any_positive (line_held l)
                 then add_to_group (line_held l) (line_budget_id l) gs else gs) gs ls in
    Forall (fun g => held_nonneg g.1) gs'
    /\ forall s a, groups_pend gs' (CCeiling s) a = groups_pend gs (CCeiling s) a + lines_hold ls s a).
  { induction Hls as [|l ls Hl Hls IH]; intros gs Hgs; cbn [foldl].
    { split; [done|]. intros s a. unfold lines_hold. rewrite sumZ_nil. lia. }
    destruct (any_positive (line_held l)) eqn:E.
    - destruct (IH _ (groups_nonneg_add _ (line_budget_id l) _ Hl Hgs)) as [H1 H2]. split; [done|].
      intros s a. rewrite H2, groups_pend_add, lines_hold_cons, ceiling_pend_one.
      destruct (decide (line_budget_id l = s)) as [->|]; [rewrite decide_True by done; lia|].
      rewrite decide_False by congruence. lia.
    - destruct (IH _ Hgs) as [H1 H2]. split; [done|]. intros s a. rewrite H2, lines_hold_cons.
      rewrite (any_positive_false _ a Hl E). case_decide; lia. }
  destruct (H [] (Forall_nil_2 _)) as [H1 H2]. split; [done|]. intros s a. by rewrite H2.
Qed.

(** ** The sweep *)

Lemma groups_pend_user gs u a : groups_pend gs (CUser u) a = 0.
Proof. unfold groups_pend. induction gs as [|g gs IH]; [done|]. rewrite sumZ_cons, IH. done. Qed.

(** Releasing what a reclaimed row recorded costs no more than its claim gave. *)
Lemma wp_release_row id row r v O F d w x (Q : exn + unit -> view -> Prop) :
  in_tx v O F d w x ->
  reservations w !! id = Some (set_status r RESERVATION_EXPIRED) -> row_wf row -> row_wf r ->
  matures (Some row) (Some r) -> status r = RESERVATION_ACTIVE -> ple (row_pend r) x ->
  (forall w' v', v' = set_vt v (VDirty F d w') -> in_tx v' O F d w' pzero -> Q (inr tt) v') ->
  (forall e, fault_error e -> Q (inl e) (set_vt v (VPoisoned d))) ->
  wp ok (release_row_holds id row) Q v.
Proof.
  intros Hi Hr [Hh _] [_ Hl] Hm Ha Hx H1 H2.
  destruct (Hm r eq_refl) as (row' & [= <-] & Hrow). destruct (Hrow Ha) as (_ & Hu & Hres & Hle).
  unfold release_row_holds. apply wp_bind, (wp_query_tx _ _ _ _ _ _ _ _ _ Hi); [|exact H2]. intros _.
  unfold ReservationRepo.list_lines. rewrite Hr. cbn [lines set_status].
  destruct (by_amounts_spec (lines r) Hl) as [Hg Hgp].
  set (up := if user_reserved row && any_positive (row_held row)
             then user_pend (row_user_id row) (row_held row) else pzero).
  assert (Hend : ple pzero (padd (padd x (pneg up)) (pneg (groups_pend (by_amounts (lines r)))))).
  { intros [u|s] a; specialize (Hx); unfold padd, pneg, pzero in *.
    - rewrite groups_pend_user. specialize (Hx (CUser u) a). unfold row_pend, row_holds in Hx.
      subst up. unfold user_pend, pzero. specialize (Hle a). specialize (Hh a).
      destruct (user_reserved row) eqn:Er; simpl.
      2: { assert (0 <= x (CUser u) a); [|lia]. destruct (_ && _) in Hx; lia. }
      rewrite Hres in Hx by done.
      destruct (any_positive (row_held row)); [|destruct (_ && _) in Hx; lia].
      destruct (decide (CUser u = CUser (row_user_id row))) as [Heq|Hne].
      + injection Heq as ->. rewrite bool_decide_eq_true_2 in Hx by done. simpl in Hx. lia.
      + destruct (_ && _) in Hx; lia.
    - rewrite Hgp. specialize (Hx (CCeiling s) a). unfold row_pend, row_holds in Hx.
      subst up. unfold user_pend, pzero. destruct (_ && _); [rewrite decide_False by done|]; lia. }
  assert (Hfin : forall w1 v1, v1 = set_vt v (VDirty F d w1) -> in_tx v1 O F d w1 (padd x (pneg up)) ->
     wp ok (for_each (by_amounts (lines r)) (fun '(held, ids) => release ids held false)) Q v1).
  { intros w1 v1 -> Hi1. apply (wp_release_groups_tx _ _ _ _ _ _ _ _ Hi1 Hg); [|exact H2].
    intros w2 v2 -> Hi2. eapply H1; [done|]. eapply in_tx_weaken; [|exact Hi2]. exact Hend. }
  apply wp_bind. subst up. destruct (user_reserved row && any_positive (row_held row)).
  - apply wp_bind, (wp_update_rowcount_tx _ _ _ _ _ _ _ _ _ Hi
      (fun t => effect_user_release O t (row_user_id row)
         (fun u => (user_used u, released (row_held row) (user_held u))) (row_held row) w Hh
         (fun us a => released_ge (row_held row) (user_held us) a Hh))); [|exact H2].
    intros b w1 v1 Hv1 Hi1. by apply (Hfin w1 v1 Hv1).
  - apply (Hfin w v); [destruct v; simpl; by rewrite <- (it_view _ _ _ _ _ _ Hi)|].
    eapply in_tx_weaken; [|exact Hi]. pends.
Qed.

(** The rows a sweep listed, as the database was then. *)
Definition listed (d : database) (rows : list (nat * BudgetReservation)) : Prop :=
  Forall (fun x => reservations d !! x.1 = Some x.2) rows.

Lemma wp_reclaim O d0 rows v d (Q : exn + Z -> view -> Prop) :
  moved O d0 v d -> rows_wf d -> listed d rows ->
  (forall r v' d', moved O d0 v' d' -> vo v' = vo v -> ple (vp v) (vp v') ->
     (forall e, r = inl e -> fault_error e) -> Q r v') ->
  wp ok (reclaim rows) Q v.
Proof.
  intros Hm0 Hwf Hrows.
  assert (H : forall v1 d1 Q, moved O d0 v1 d1 -> rely ∅ d d1 ->
    (forall r v' d', moved O d0 v' d' -> vo v' = vo v1 -> ple (vp v1) (vp v') ->
       (forall e, r = inl e -> fault_error e) -> Q r v') ->
    wp ok (reclaim rows) Q v1).
  2: { intros HQ. apply (H v d); [done|apply evolves_refl|done]. }
  clear Q Hm0 v. induction Hrows as [|[id row] rows Hrow Hrows IH]; intros v d1 Q Hm Hrel HQ.
  { apply (HQ _ _ d1); [done|done|apply ple_refl|done]. }
  assert (Hm1 : moved (vo v) d1 v d1) by (apply moved_refl; apply Hm).
  assert (Hrely : forall v' d', moved (vo v) d1 v' d' -> rely ∅ d d').
  { intros v' d' [_ _ H _]. eapply evolves_trans; [exact Hrel|]. eapply evolves_weaken; [|exact H]. set_solver. }
  cbn [fst snd] in Hrow. cbn [reclaim]. apply wp_bind, (wp_defer (vo v) d1 _ d1); [done|]. intros [e|[]] x d2 Hm2 Herr.
  { apply (HQ _ _ _ (moved_trans _ _ _ _ _ _ Hm Hm2)); [done|apply ple_refl|].
    intros ? [= ->]. by apply Herr. }
  apply wp_bind, (wp_execute_idle _ _ _ d2); [apply Hm2| |].
  2: { intros e He. apply (HQ _ _ _ (moved_trans _ _ _ _ _ _ Hm (moved_fails _ _ _ _ Hm2)));
         [done|apply ple_refl|by intros ? [= ->]]. }
  intros F d3 t Hx Hc. pose proof (moved_current _ _ _ _ _ _ Hm2 Hc) as Hm3.
  pose proof (moved_trans _ _ _ _ _ _ Hm (moved_fails _ _ _ _ Hm3)) as Hm4.
  destruct (ReservationRepo.try_terminate id RESERVATION_EXPIRED d3) as [claimed w] eqn:E. cbn [fst snd].
  assert (Hwf3 : rows_wf d3) by apply Hc.
  (* the end of this row: commit, and the rows that are left *)
  assert (Hnext : forall w' v' (k : prog Z), v' = set_vt v (VDirty F d3 w') -> in_tx v' ∅ F d3 w' pzero ->
    (forall v2 d2', moved O d0 v2 d2' -> rely ∅ d d2' -> vo v2 = vo v -> ple (vp v) (vp v2) -> wp ok k Q v2) ->
    wp ok (commit ;;! k) Q v').
  { intros w' v' k -> Hin Hk.
    destruct (moved_commit _ _ _ _ _ _ _ _ (vp v) Hm2 Hc (it_effect _ _ _ _ _ _ Hin) (mv_nonneg _ _ _ _ Hm))
      as [Hm5 Hm6].
    apply wp_bind, (wp_commit_tx ok OtherCommit _ _ _ _ _ _ (vp v) _ Hin); [apply Hm|pends| | |].
    - apply (Hk _ w'); [exact (moved_trans _ _ _ _ _ _ Hm Hm5)|exact (Hrely _ _ Hm5)|done|apply ple_refl].
    - intros e He. apply (HQ _ _ _ Hm4); [done|apply ple_refl|by intros ? [= ->]].
    - intros _ e He. apply (HQ _ _ _ (moved_trans _ _ _ _ _ _ Hm Hm6)); [done|apply ple_refl|by intros ? [= ->]]. }
  assert (Hrest : forall v2 d2' (Q' : exn + Z -> view -> Prop),
    moved O d0 v2 d2' -> rely ∅ d d2' -> vo v2 = vo v -> ple (vp v) (vp v2) ->
    (forall r v3, (forall r', (forall e, r' = inl e -> r = inl e) -> Q r' v3) -> Q' r v3) ->
    wp ok (reclaim rows) Q' v2).
  { intros v2 d2' Q' Hm' Hr' Ho' Hp' HQ'. apply (IH _ d2'); [done|done|].
    intros r v3 d3' Hm7 Ho7 Hp7 He7. apply HQ'. intros r' Hrr.
    apply (HQ _ _ _ Hm7); [congruence|by eapply ple_trans|auto]. }
  destruct claimed.
  - destruct (terminate_some _ _ _ _ E) as [r Hr].
    destruct (effect_terminate ∅ d3 w id r RESERVATION_EXPIRED Hr Hwf3 ltac:(done) (or_intror eq_refl) E) as [He Ha].
    exists ∅, (row_pend r). split; [set_solver|]. split; [done|]. intros Hin.
    assert (Hid : id ∈ ever_inserted d) by exact (proj2 (Hwf id row Hrow)).
    assert (Hmat : matures (Some row) (Some r)).
    { rewrite <- Hrow, <- Hr. apply (ev_matures _ _ _ (Hrely _ _ Hm3)). done. }
    assert (Hw : reservations w !! id = Some (set_status r RESERVATION_EXPIRED)).
    { revert E. unfold ReservationRepo.try_terminate, ReservationRepo.transition. rewrite Hr, decide_True by done.
      intros [= <-]. apply lookup_insert_eq. }
    apply wp_bind, (wp_release_row _ _ r _ _ _ _ _ _ _ Hin Hw); try done; [exact (proj1 (Hwf id row Hrow))|exact (proj1 (Hwf3 id r Hr))|apply ple_refl| |].
    + intros w' v' Hv' Hin'. eapply (Hnext w'); [exact Hv'|done|]. intros v2 d2' ????.
      apply wp_bind. eapply Hrest; [done..|]. intros [e|n] v3 HQ3; apply HQ3; [by intros ? [= ->]|done].
    + intros e Hf. apply (HQ _ _ _ Hm4); [done|apply ple_refl|by intros ? [= ->]].
  - apply transition_false in E as ->. exists ∅, pzero. split; [set_solver|]. split; [apply effect_refl|].
    intros Hin. cbn in Hin. eapply (Hnext d3); [done|done|]. intros v2 d2' ????. eapply Hrest; [done..|].
    intros r v3 HQ3. by apply HQ3.
Qed.

Lemma list_expired_listed d t limit user : listed d (ReservationRepo.list_expired d t limit user).
Proof.
  unfold listed, ReservationRepo.list_expired. apply Forall_take, Forall_forall. intros [i r] Hin.
  rewrite merge_sort_Permutation in Hin. apply list_elem_of_filter in Hin as [_ Hin].
  by apply elem_of_map_to_list in Hin.
Qed.

Lemma wp_list_and_reclaim limit user O d0 v d (Q : exn + Z -> view -> Prop) :
  moved O d0 v d ->
  (forall r v' d', moved O d0 v' d' -> vo v' = vo v -> ple (vp v) (vp v') ->
     (forall e, r = inl e -> fault_error e) -> Q r v') ->
  wp ok (let! expired := query (fun t d => ReservationRepo.list_expired d t limit user) in reclaim expired) Q v.
Proof.
  intros Hm HQ. apply wp_bind, (wp_query _ O d0 _ d); [done|]. intros [e|rows] x d1 Hm1 Hr.
  - apply (HQ _ _ _ Hm1); [done|apply ple_refl|by intros ? [= ->]].
  - destruct Hr as ([t ->] & Hwf & _). by apply (wp_reclaim O d0 _ _ d1 _ Hm1 Hwf (list_expired_listed _ _ _ _)).
Qed.

(** ** Recording a hold *)

Lemma wp_uuid_tx v O F d w x (Q : exn + nat -> view -> Prop) :
  in_tx v O F d w x ->
  (forall i v', i ∉ vo v -> i ∉ ever_inserted w -> v' = mkView (VDirty F d w) (vp v) ({[i]} ∪ vo v) ->
     in_tx v' ({[i]} ∪ O) F d w x -> Q (inr i) v') ->
  wp ok uuid4 Q v.
Proof.
  intros Hi HQ i Hown. rewrite (it_view _ _ _ _ _ _ Hi). intros _ Hw.
  apply HQ; [done|done|done|]. destruct Hi as [? ? ? ? He]. split; try done; simpl; [set_solver|].
  eapply effect_mono; [|exact He]. set_solver.
Qed.

Lemma wp_uuid O d0 v d (Q : exn + nat -> view -> Prop) :
  moved O d0 v d ->
  (forall i v' d', i ∉ vo v -> i ∉ ever_inserted d' -> moved O d0 v' d' -> vo v' = {[i]} ∪ vo v ->
     vp v' = vp v -> Q (inr i) v') ->
  wp ok uuid4 Q v.
Proof.
  intros [Hi Ho Hr Hp] HQ i Hown. destruct Hi as [Hv|Hv]; rewrite Hv; intros d' Hd' Hnew;
    apply (HQ i _ d'); try done; (split; [by (left + right)|simpl; set_solver| |done]);
    (eapply evolves_trans; [exact Hr|]); (eapply evolves_weaken; [|exact Hd']); set_solver.
Qed.

Definition recorded_row (user : string) (reserved : bool) (ua : HeldAmounts) (ids : list string)
    (ca : HeldAmounts) (r : BudgetReservation) : Prop :=
  row_user_id r = user /\ line_budget_id <$> lines r = ids
  /\ user_reserved r = reserved /\ row_held r = ua /\ lines r = ReservationRepo.held_lines ca ids.

Lemma line_ids_held_lines h ids : line_budget_id <$> ReservationRepo.held_lines h ids = ids.
Proof.
  unfold ReservationRepo.held_lines. rewrite <- list_fmap_compose.
  rewrite (list_fmap_ext _ id); [by rewrite list_fmap_id|done].
Qed.

Lemma add_row i u b h ch ids e d w :
  ReservationRepo.add i u b h ch ids e d = Some w ->
  exists r, reservations w !! i = Some r /\ recorded_row u b h ids ch r.
Proof.
  unfold ReservationRepo.add. destruct (reservations d !! i); [done|]. intros [= <-].
  eexists. split; [apply lookup_insert_eq|]. repeat split. apply line_ids_held_lines.
Qed.

Lemma add_fresh i u b h ch ids e d :
  rows_wf d -> i ∉ ever_inserted d -> exists w, ReservationRepo.add i u b h ch ids e d = Some w.
Proof.
  intros Hwf Hi. unfold ReservationRepo.add. destruct (reservations d !! i) eqn:E; [|eauto].
  by apply Hwf in E as [_ ?].
Qed.

(** The row of a hold whose per-user leg is still uncommitted, staged in its transaction. *)
Lemma wp_record_tx user ua scoped ca ttl v O F d w x (Q : exn + option nat -> view -> Prop) :
  in_tx v O F d w x -> held_nonneg ua -> held_nonneg ca ->
  (forall i w' v' r, i ∉ vo v -> reservations w' !! i = Some r ->
     recorded_row user true ua (budget_id <$> scoped) ca r ->
     v' = mkView (VDirty F d w') (vp v) ({[i]} ∪ vo v) ->
     in_tx v' ({[i]} ∪ O) F d w'
       (padd x (pneg (padd (user_pend user ua) (ceiling_pend (budget_id <$> scoped) ca)))) ->
     i ∉ ever_inserted d ->
     Q (inr (Some i)) v') ->
  (forall v' O', fault_error SQLAlchemyError -> vo v ⊆ O' -> v' = mkView (VPoisoned d) (vp v) O' ->
     forall e, fault_error e -> Q (inl e) v') ->
  wp ok (record user true ua scoped ca ttl false) Q v.
Proof.
  intros Hi Hua Hca H1 H2. unfold record. cbn [negb andb].
  apply wp_bind, (wp_uuid_tx _ _ _ _ _ _ _ Hi). intros i v1 Hown Hnew -> Hi1.
  assert (Hd : i ∉ ever_inserted d).
  { intros Hin. apply Hnew. by apply (ev_inserted _ _ _ (ef_guarantee _ _ _ _ (it_effect _ _ _ _ _ _ Hi))). }
  apply wp_bind. intros t. apply wp_bind, (wp_execute_tx _ _ _ _ _ _ _ _ _ Hi1).
  - intros t'. pose proof (in_tx_wf _ _ _ _ _ _ Hi) as Hwf.
    destruct (add_fresh i user true ua ca (budget_id <$> scoped) (t + ttl * SECOND) w Hwf Hnew) as [w' Hw'].
    rewrite Hw'. exists (pneg (padd (user_pend user ua) (ceiling_pend (budget_id <$> scoped) ca))).
    split; [by apply (effect_add _ _ _ i user true ua ca (budget_id <$> scoped) (t + ttl * SECOND)); try done; set_solver|].
    intros Hin. destruct (add_row _ _ _ _ _ _ _ _ _ Hw') as (r & Hr & Hrow).
    by apply (H1 i w' _ r).
  - intros e He. eapply (H2 _ ({[i]} ∪ vo v)); [constructor|set_solver|done|done].
Qed.

(** The fence: a row that landed keeps its holds, one that did not gives them back. *)
Lemma wp_release_unrecorded i user ids h P0 O d0 v d (Q : exn + bool -> view -> Prop) :
  moved O d0 v d -> i ∈ vo v -> {[i]} ## O -> held_nonneg h -> pnonneg P0 -> ple P0 (vp v) ->
  ((i ∉ ever_inserted d /\ ple (padd P0 (ceiling_pend ids h)) (vp v)) \/ is_Some (reservations d !! i)) ->
  (forall r v' d', moved O d0 v' d' -> vo v' = vo v -> ple P0 (vp v') ->
     (forall e, r = inl e -> is_database_error e = true) -> Q r v') ->
  wp ok (release_unrecorded i user ids h) Q v.
Proof.
  intros Hm Hi HiO Hh HP0 Hle0 Hcase HQ. pose proof (ceiling_pend_nonneg ids h Hh) as Hn.
  assert (Hm1 : moved (vo v) d v d) by (apply moved_refl; apply Hm).
  assert (Hfault : forall x d', moved (vo v) d (set_vt v x) d' -> forall e, fault_error e ->
     if is_integrity_error e then wp ok (rollback ;;! Ret false) Q (set_vt v (VPoisoned d'))
     else Q (inl e) (set_vt v (VPoisoned d'))).
  { intros x d' Hm' e He. pose proof (moved_trans _ _ _ _ _ _ Hm (moved_fails _ _ _ _ Hm')) as Hm2.
    destruct He; cbn [is_integrity_error]; by apply (HQ _ _ _ Hm2); try done; intros ? [= <-]. }
  unfold release_unrecorded. apply wp_try, wp_bind, (wp_defer (vo v) d _ d); [done|].
  intros [e|[]] x d1 Hm2 Herr.
  { pose proof (moved_trans _ _ _ _ _ _ Hm Hm2) as Hm3. specialize (Herr e eq_refl).
    destruct Herr; cbn [is_integrity_error]; apply (HQ _ _ _ Hm3); try done; intros ? [= <-]; done. }
  apply wp_bind, (wp_execute_idle _ _ _ d1); [apply Hm2| |].
  2: { intros e He. by apply (Hfault x). }
  intros F d2 t Hx Hc. pose proof (moved_current _ _ _ _ _ _ Hm2 Hc) as Hm3.
  destruct (mv_rely _ _ _ _ Hm3) as [_ _ _ Hfresh Hpres _].
  unfold ReservationRepo.add_released. destruct (reservations d2 !! i) as [r|] eqn:E.
  { (* the row landed *) cbn [is_integrity_error]. apply wp_bind, wp_rollback.
    - apply (HQ _ _ d2); [|done|done|done].
      exact (moved_trans _ _ _ _ _ _ Hm (moved_clean _ _ _ _ Hm3)).
    - intros e He. apply (HQ _ _ d2); [|done|done|intros ? [= <-]; by apply fault_is_database_error].
      exact (moved_trans _ _ _ _ _ _ Hm (moved_fails _ _ _ _ Hm3)). }
  destruct Hcase as [[Hnew Hle]|Hsome].
  2: { destruct (Hpres i Hsome) as [? ?]. congruence. }
  assert (Hnew2 : i ∉ ever_inserted d2) by (intros Hin; apply Hnew; by apply Hfresh).
  assert (Hadd : ReservationRepo.add_released t i user d2 =
    Some (insert_reservation d2 i (mkReservation user zero_held false RESERVATION_RELEASED t []))).
  { unfold ReservationRepo.add_released. by rewrite E. }
  pose proof (effect_add_released {[i]} _ _ _ _ _ (proj2 (elem_of_singleton i i) eq_refl) Hnew2 (proj1 (proj2 (proj2 Hc))) Hadd) as He1.
  exists {[i]}, pzero. split; [simpl; set_solver|]. split; [exact He1|]. intros Hin.
  apply wp_bind, (wp_release_tx _ _ _ _ _ _ _ _ _ Hin Hh).
  2: { intros e He. exact (Hfault _ _ Hm3 e He). }
  intros w' v' -> Hin2.
  destruct (moved_commit_rows {[i]} O _ _ _ _ _ _ _ P0 HiO (moved_trans _ _ _ _ _ _ Hm Hm2) Hc
    (it_effect _ _ _ _ _ _ Hin2) HP0) as [Hm5 Hm6].
  apply wp_bind, (wp_commit_tx ok OtherCommit _ _ _ _ _ _ P0 _ Hin2 HP0); [pends| | |].
  - apply (HQ _ _ _ Hm5); [done|apply ple_refl|done].
  - intros e He. exact (Hfault _ _ Hm3 e He).
  - intros _ e He. destruct He; cbn [is_integrity_error]; apply (HQ _ _ _ Hm6); try apply ple_refl; try done;
      intros ? [= <-]; done.
Qed.

(** ** Handles *)

(** What a handle's two legs hold. *)
Definition leg_pend (h : ReservationHandle) : pend :=
  padd (if reserved h then user_pend (user_id h) (user_leg h) else pzero)
    (ceiling_pend (scoped_budget_ids h) (scoped_leg h)).

(** A row the handle's holds are recorded on, but for what its session has in flight. *)
Record row_backs (h : ReservationHandle) (P : pend) (r : BudgetReservation) : Prop := {
  rb_shape : row_shape (user_id h) (scoped_budget_ids h) r;
  rb_unreserved : user_reserved r = false -> row_held r = zero_held;
  rb_legs : ple (leg_pend h) (padd P (row_pend r))
}.

(** Settling the handle releases no more than its session holds, in flight or on its row. *)
Record handle_ok (O : gset nat) (P : pend) (d : database) (h : ReservationHandle) : Prop := {
  ho_user : held_nonneg (user_leg h);
  ho_scoped : held_nonneg (scoped_leg h);
  ho_legs :
    match reservation_id h with
    | None => ple (leg_pend h) P
    | Some i => i ∈ O
        /\ forall r, reservations d !! i = Some r -> status r = RESERVATION_ACTIVE -> row_backs h P r
    end
}.

Lemma leg_pend_nonneg h : held_nonneg (user_leg h) -> held_nonneg (scoped_leg h) -> pnonneg (leg_pend h).
Proof.
  intros Hu Hs. pose proof (ceiling_pend_nonneg (scoped_budget_ids h) _ Hs) as Hc.
  pose proof (user_pend_nonneg (user_id h) _ Hu) as Hp. unfold leg_pend. destruct (reserved h); pends.
Qed.

Lemma row_backs_ple h P P' r : ple P P' -> row_backs h P r -> row_backs h P' r.
Proof. intros Hle [H1 H2 H3]. split; [done|done|]. pends. Qed.

Lemma handle_ok_later O O' P P' d d' h :
  handle_ok O P d h -> rely O d d' -> O ⊆ O' -> ple P P' -> handle_ok O' P' d' h.
Proof.
  intros [H1 H2 H3] Hr HO HP. split; [done|done|]. destruct (reservation_id h) as [i|]; [|by eapply ple_trans].
  destruct H3 as (Hi & Hrow). split; [set_solver|].
  intros r Hr' Ha. destruct (ev_descends _ _ _ Hr i Hi r Hr') as (r0 & Hr0 & [-> |[_ ->]]); [|done].
  eapply row_backs_ple; [exact HP|]. by apply Hrow.
Qed.

Lemma handle_ok_moved O P d h v' d' :
  handle_ok O P d h -> moved O d v' d' -> ple P (vp v') -> handle_ok (vo v') (vp v') d' h.
Proof. intros H [_ ? ? _] ?. by eapply handle_ok_later. Qed.

(** A handle just built: its holds are in flight on top of [P0], or all on its row. *)
Record new_handle (P0 : pend) (v : view) (d : database) (h : ReservationHandle) : Prop := {
  nh_user : held_nonneg (user_leg h);
  nh_scoped : held_nonneg (scoped_leg h);
  nh_keeps : ple P0 (vp v);
  nh_legs :
    match reservation_id h with
    | None => ple (padd P0 (leg_pend h)) (vp v)
    | Some i => i ∈ vo v
        /\ forall r, reservations d !! i = Some r -> status r = RESERVATION_ACTIVE -> row_backs h pzero r
    end
}.

Lemma new_handle_ok P0 v d h : pnonneg P0 -> new_handle P0 v d h -> handle_ok (vo v) (vp v) d h.
Proof.
  intros HP [H1 H2 H3 H4]. split; [done|done|]. destruct (reservation_id h) as [i|]; [|pends].
  destruct H4 as (? & H4). split; [done|]. intros r Hr Ha.
  eapply row_backs_ple; [|by apply H4]. by eapply pnonneg_ple.
Qed.

Definition handle_shape (h : ReservationHandle) (user : string) (res : bool) (ua : HeldAmounts)
    (scoped : list ApplicableBudget) (ca : HeldAmounts) (counts : bool) : Prop :=
  user_id h = user /\ reserved h = res /\ user_leg h = ua /\ scoped_budgets h = scoped
  /\ scoped_leg h = ca /\ counts_toward_budget h = counts.

Lemma recorded_row_backs h ua ca r :
  recorded_row (user_id h) (reserved h) ua (scoped_budget_ids h) ca r ->
  user_leg h = ua -> scoped_leg h = ca -> (reserved h = false -> ua = zero_held) ->
  row_backs h pzero r.
Proof.
  intros (H1 & H2 & H3 & H4 & H5) Hu Hs Hz. split; [done|rewrite H3, H4; exact Hz|].
  intros c a. unfold leg_pend, padd, pzero, row_pend, row_holds, user_pend, ceiling_pend.
  rewrite Hu, Hs, <- H5. destruct c as [u|s].
  - rewrite H1, H3, H4. destruct (reserved h); simpl.
    + destruct (decide (CUser u = CUser (user_id h))) as [[= ->]|Hne].
      * rewrite bool_decide_eq_true_2 by done. simpl. lia.
      * rewrite bool_decide_eq_false_2 by congruence. simpl. lia.
    + rewrite andb_false_r. simpl. lia.
  - destruct (reserved h); [rewrite decide_False by done|unfold pzero]; lia.
Qed.

Section held_handle.
Context (user : string) (ua ca : HeldAmounts) (scoped : list ApplicableBudget) (strategy : string)
  (counts : bool) (cs : list CeilingRepo.ApplicableCeiling) (ttl : Z).
Context (P0 : pend) (O : gset nat) (d0 : database).
Context (Hua : held_nonneg ua) (Hca : held_nonneg ca) (HP0 : pnonneg P0).
Local Abbreviation ids := (budget_id <$> scoped).
Local Abbreviation the_handle res id := (mkHandle user (amount ua) res strategy counts scoped (amount ca) (tokens ua)
  (tokens ca) (requests ua) (requests ca) id ttl cs).

Lemma the_handle_shape res id : handle_shape (the_handle res id) user res ua scoped ca counts.
Proof. unfold handle_shape, user_leg, scoped_leg. simpl. by destruct ua, ca. Qed.

Lemma the_handle_legs res id : leg_pend (the_handle res id) =
  padd (if res then user_pend user ua else pzero) (ceiling_pend ids ca).
Proof. unfold leg_pend, user_leg, scoped_leg, scoped_budget_ids. simpl. by destruct ua, ca. Qed.

(** The commit of the per-user hold with its row, and what happens when it reports failure. *)
Lemma wp_commit_held id v E F d w x (Q : exn + unit -> view -> Prop) :
  moved O d0 (set_vt v (VClean d)) d -> in_tx v E F d w x -> E ## O ->
  ple (padd P0 (ceiling_pend ids ca)) (vp v) ->
  match id with
  | None => E = ∅ /\ ple (user_pend user ua) x
  | Some i => E = {[i]} /\ i ∉ ever_inserted d /\ ple P0 (padd (vp v) x) /\ is_Some (reservations w !! i)
  end ->
  let P := match id with
           | None => padd P0 (padd (user_pend user ua) (ceiling_pend ids ca))
           | Some _ => P0
           end in
  (moved O d0 (mkView (VClean w) P (vo v)) w -> Q (inr tt) (mkView (VClean w) P (vo v))) ->
  (forall v' d' e, moved O d0 v' d' -> vo v' = vo v -> ple P0 (vp v') -> is_database_error e = true ->
     Q (inl e) v') ->
  wp ok (try_except commit is_database_error (fun e =>
           best_effort_rollback is_database_error ;;!
           match id with
           | Some i =>
               if bool_decide (scoped = []) then Ret tt
               else try_except (release_unrecorded i user ids ca ;;! Ret tt) is_database_error
                      (fun _ => best_effort_rollback is_database_error)
           | None => Ret tt
           end ;;!
           Raise e)) Q v.
Proof.
  intros Hm Hin HE Hle Hid P H1 H2.
  pose proof (ceiling_pend_nonneg ids ca Hca) as Hn. pose proof (user_pend_nonneg user ua Hua) as Hun.
  assert (HP : pnonneg P) by (subst P; destruct id; [done|pends]).
  assert (HPle : ple P (padd (vp v) x)).
  { subst P. destruct id as [i|]; [apply Hid|]. destruct Hid as [_ Hx]. pends. }
  assert (HPP0 : ple P0 P) by (subst P; destruct id; [apply ple_refl|pends]).
  assert (Hcur : current (set_vt v (VClean d)) d F d).
  { split; [apply evolves_refl|]. destruct Hin as [_ Hnn Hc _ _]. by split. }
  destruct (moved_commit_rows E O d0 _ d F d w x P HE Hm Hcur (it_effect _ _ _ _ _ _ Hin) HP) as [Hm1 Hm2].
  (* the handler, from the state the failed commit left *)
  assert (Hexn : forall v1 d1 e, moved O d0 v1 d1 -> vo v1 = vo v -> ple P0 (vp v1) -> fault_error e ->
    (match id with
     | Some i => (i ∉ ever_inserted d1 /\ ple (padd P0 (ceiling_pend ids ca)) (vp v1)) \/ is_Some (reservations d1 !! i)
     | None => True
     end) ->
    wp ok (best_effort_rollback is_database_error ;;!
           match id with
           | Some i =>
               if bool_decide (scoped = []) then Ret tt
               else try_except (release_unrecorded i user ids ca ;;! Ret tt) is_database_error
                      (fun _ => best_effort_rollback is_database_error)
           | None => Ret tt
           end ;;!
           Raise e) Q v1).
  { intros v1 d1 e Hv1 Ho1 Hp1 He Hc1. pose proof (fault_is_database_error e He) as Hdb.
    apply wp_bind, (wp_best_effort_rollback _ O d0 v1 (vt v1) d1);
      [by destruct v1|by apply idle_base, Hv1|].
    intros [e'|[]] x1 Hv2 Herr.
    { apply (H2 _ d1); [done|done|done|]. by apply fault_is_database_error, Herr. }
    apply wp_bind. destruct id as [i|]; [|by apply (H2 _ d1)].
    destruct (bool_decide (scoped = [])); [by apply (H2 _ d1)|].
    destruct Hid as (-> & _). apply wp_try, wp_bind.
    apply (wp_release_unrecorded i user ids ca P0 O d0 _ d1); try done.
    { simpl. rewrite Ho1. apply (it_owned _ _ _ _ _ _ Hin). set_solver. }
    intros r v2 d2 Hv3 Ho3 Hp3 He3. assert (Ho : vo v2 = vo v) by (rewrite Ho3; exact Ho1).
    destruct r as [e'|b]; [|by apply (H2 _ d2)]. rewrite He3 by done.
    apply (wp_best_effort_rollback _ O d0 v2 (vt v2) d2); [by destruct v2|by apply idle_base, Hv3|].
    intros [e2|[]] x2 Hv4 Herr4; apply (H2 _ d2); try done. by apply fault_is_database_error, Herr4. }
  apply wp_try, (wp_commit_tx ok OtherCommit _ _ _ _ _ _ P _ Hin HP HPle).
  - by apply H1.
  - intros e He. rewrite (fault_is_database_error e He).
    apply (Hexn _ d); [by apply (moved_fails _ _ (set_vt v (VClean d)))|done|simpl; pends|done|].
    destruct id as [i|]; [left|done]. destruct Hid as (_ & ? & _). done.
  - intros _ e He. rewrite (fault_is_database_error e He). apply (Hexn _ w); try done.
    destruct id as [i|]; [right|done]. apply Hid.
Qed.

(** The handle of a per-user hold still in this transaction. *)
Lemma wp_held_handle_uncommitted rec v F d w (Q : exn + ReservationHandle -> view -> Prop) :
  moved O d0 (set_vt v (VClean d)) d -> in_tx v ∅ F d w (user_pend user ua) ->
  ple (padd P0 (ceiling_pend ids ca)) (vp v) ->
  (forall h v' d', moved O d0 v' d' -> new_handle P0 v' d' h -> handle_shape h user true ua scoped ca counts ->
     (rec = false -> reservation_id h = None) -> Q (inr h) v') ->
  (forall e v' d', moved O d0 v' d' -> ple P0 (vp v') -> is_database_error e = true -> Q (inl e) v') ->
  wp ok (held_handle user true ua strategy counts scoped ca cs ttl rec true) Q v.
Proof.
  intros Hm Hin Hle H1 H2.
  pose proof (ceiling_pend_nonneg ids ca Hca) as Hn. pose proof (user_pend_nonneg user ua Hua) as Hun.
  assert (Hshape := the_handle_shape true).
  (* a statement before the commit failed *)
  assert (Hexn : forall e O', vo v ⊆ O' -> is_database_error e = true ->
    wp ok (best_effort_rollback is_database_error ;;!
           (if bool_decide (scoped = []) then Ret tt else release ids ca true) ;;! Raise e)
      (fun (r : exn + option nat) v' => match r with inr _ => False | inl e => Q (inl e) v' end)
      (mkView (VPoisoned d) (vp v) O')).
  { intros e O' HO' He.
    assert (Hm' : moved O d0 (mkView (VPoisoned d) (vp v) O') d).
    { destruct Hm as [_ ? ? ?]. split; [by right|simpl in *; set_solver|done|done]. }
    apply wp_bind, (wp_best_effort_rollback _ O d0 _ (VPoisoned d) d); [done|done|].
    intros [e'|[]] x Hm1 Herr.
    { apply (H2 _ _ d); [done|simpl; pends|]. by apply fault_is_database_error, Herr. }
    apply wp_bind. destruct (bool_decide (scoped = [])); [apply (H2 _ _ d); [done|simpl; pends|done]|].
    apply (wp_release O d0 _ d); [done|done|simpl; pends|]. intros r v' d' Hm2 Ho2 Hp2 Herr2.
    assert (ple P0 (vp v')) by (simpl in Hp2; pends).
    destruct r as [e'|[]]; apply (H2 _ _ d'); try done. by apply fault_is_database_error, Herr2. }
  unfold held_handle. apply wp_bind, wp_bind, wp_try. destruct rec.
  - (* the row is staged with the hold *)
    apply wp_bind, (wp_record_tx _ _ _ _ _ _ _ _ _ _ _ _ Hin Hua Hca).
    2: { intros v' O' _ HO' -> e He. rewrite (fault_is_database_error e He).
         eapply wp_mono; [by apply Hexn, fault_is_database_error|]. intros [e'|?] v' HQ; [done|by destruct HQ]. }
    intros i w1 v1 r Hown Hr Hrow -> Hin1 Hnew.
    apply wp_bind, (wp_query_tx _ _ _ _ _ _ _ _ _ Hin1).
    2: { intros e He. rewrite (fault_is_database_error e He).
         eapply wp_mono; [apply Hexn; [set_solver|by apply fault_is_database_error]|].
         intros [e'|?] v' HQ; [done|by destruct HQ]. }
    intros _. apply wp_bind.
    assert (Hm1 : moved O d0 (set_vt (mkView (VDirty F d w1) (vp v) ({[i]} ∪ vo v)) (VClean d)) d).
    { destruct Hm as [_ ? ? ?]. split; [by left|simpl in *; set_solver|done|done]. }
    assert (Hdisj : {[i]} ∪ ∅ ## O).
    { destruct Hm as [_ HO _ _]. simpl in HO. set_solver. }
    apply (wp_commit_held (Some i) _ _ _ _ _ _ _ Hm1 Hin1 Hdisj); [done| | |].
    + split; [set_solver|]. split; [done|]. split; [pends|by eexists].
    + intros Hm2. apply (H1 _ _ w1); [done| |apply Hshape|done].
      split; [unfold user_leg; simpl; by destruct ua|unfold scoped_leg; simpl; by destruct ca|apply ple_refl|].
      simpl. split; [set_solver|].
      intros r' Hr' _. simplify_eq.
      apply (recorded_row_backs _ ua ca); [exact Hrow|by destruct ua|by destruct ca|done].
    + intros v' d' e Hm2 Ho2 Hp2 He. by apply (H2 _ _ d').
  - (* a top-up writes no row *)
    apply wp_bind. cbn [wp]. apply wp_bind, (wp_query_tx _ _ _ _ _ _ _ _ _ Hin).
    2: { intros e He. rewrite (fault_is_database_error e He).
         eapply wp_mono; [apply Hexn; [done|by apply fault_is_database_error]|].
         intros [e'|?] v' HQ; [done|by destruct HQ]. }
    intros _. apply wp_bind.
    apply (wp_commit_held None _ _ _ _ _ _ _ Hm Hin); [set_solver|done|split; [done|apply ple_refl]| |].
    + intros Hm2. apply (H1 _ _ w); [done| |apply Hshape|done].
      split; [unfold user_leg; simpl; by destruct ua|unfold scoped_leg; simpl; by destruct ca|simpl; pends|].
      cbn [reservation_id]. rewrite the_handle_legs. apply ple_refl.
    + intros v' d' e Hm2 Ho2 Hp2 He. by apply (H2 _ _ d').
Qed.

(** The handle of a request that holds on its ceilings alone. *)
Lemma wp_held_handle_ceilings rec v d (Q : exn + ReservationHandle -> view -> Prop) :
  ok LedgerRecord = false -> ua = zero_held ->
  moved O d0 v d -> ple (padd P0 (ceiling_pend ids ca)) (vp v) ->
  (forall h v' d', moved O d0 v' d' -> new_handle P0 v' d' h -> handle_shape h user false ua scoped ca counts ->
     (rec = false -> reservation_id h = None) -> Q (inr h) v') ->
  (forall e v' d', moved O d0 v' d' -> ple P0 (vp v') -> is_database_error e = true -> Q (inl e) v') ->
  wp ok (held_handle user false ua strategy counts scoped ca cs ttl rec false) Q v.
Proof.
  intros Hok Hz Hm Hle H1 H2. pose proof (ceiling_pend_nonneg ids ca Hca) as Hn.
  assert (Hnone : forall v1 d1, moved O d0 v1 d1 -> ple (vp v) (vp v1) ->
    Q (inr (the_handle false None)) v1).
  { intros v1 d1 Hm1 Hp1. apply (H1 _ _ d1); [done| |apply the_handle_shape|done].
    split; [unfold user_leg; simpl; by destruct ua|unfold scoped_leg; simpl; by destruct ca|pends|].
    cbn [reservation_id]. rewrite the_handle_legs. pends. }
  unfold held_handle. apply wp_bind. destruct rec; [|by apply (Hnone v d); [|apply ple_refl]].
  (* any failure leaves the hold live and unledgered *)
  assert (Hexn : forall e v1 d1, moved O d0 v1 d1 -> ple (vp v) (vp v1) -> fault_error e ->
    wp ok (if is_sqlalchemy_error e then best_effort_rollback is_sqlalchemy_error ;;! Ret None else Raise e)
      (fun (r : exn + option nat) v' => match r with
         | inr id => Q (inr (the_handle false id)) v'
         | inl e => Q (inl e) v'
         end) v1).
  { intros e v1 d1 Hm1 Hp1 He. destruct (is_sqlalchemy_error e).
    2: { apply (H2 _ _ d1); [done|pends|by apply fault_is_database_error]. }
    apply wp_bind, (wp_best_effort_rollback _ O d0 v1 (vt v1) d1); [by destruct v1|by apply idle_base, Hm1|].
    intros [e'|[]] x Hm2 Herr; [|by apply (Hnone _ d1)].
    apply (H2 _ _ d1); [done|simpl; pends|]. by apply fault_is_database_error, Herr. }
  apply wp_try. unfold record. cbn [negb andb].
  destruct (bool_decide (ids = [])); [by apply (Hnone v d); [|apply ple_refl]|].
  apply wp_bind, (wp_uuid O d0 _ d); [done|]. intros i v1 d1 Hown Hnew Hm1 Ho1 Hp1.
  assert (Hpe : ple (vp v) (vp v1)) by (rewrite Hp1; apply ple_refl).
  apply wp_bind. intros t. apply wp_bind.
  assert (Hm1' : moved (vo v1) d1 v1 d1) by (apply moved_refl; apply Hm1).
  apply (wp_execute_idle _ _ _ d1); [apply Hm1| |].
  2: { intros e He. pose proof (Hexn e _ d1 (moved_fails _ _ _ _ Hm1) Hpe He) as Hx.
       by destruct (is_sqlalchemy_error e). }
  intros F d2 t' Hx Hc. pose proof (moved_current _ _ _ _ _ _ Hm1 Hc) as Hm2.
  assert (Hwf : rows_wf d2) by apply Hc.
  assert (Hnew2 : i ∉ ever_inserted d2).
  { intros Hin. apply Hnew. destruct Hc as [Hr _]. apply (ev_fresh _ _ _ Hr); [rewrite Ho1; set_solver|done]. }
  destruct (add_fresh i user false (mkHeld (amount ua) (tokens ua) 0) ca ids (t + ttl * SECOND) d2 Hwf Hnew2)
    as [w Hw]. rewrite Hw.
  assert (Hua' : held_nonneg (mkHeld (amount ua) (tokens ua) 0)) by (rewrite Hz; by intros []).
  pose proof (effect_add {[i]} _ _ _ _ _ _ _ _ _ (proj2 (elem_of_singleton i i) eq_refl) Hnew2 Hwf Hua' Hca Hw) as He.
  exists {[i]}, (pneg (ceiling_pend ids ca)). split; [rewrite Ho1; set_solver|].
  assert (He' : effect {[i]} d2 w (pneg (ceiling_pend ids ca))).
  { eapply effect_weaken; [|exact He]. intros c a. unfold pneg, padd, user_pend.
    case_decide; [destruct a; simpl; lia|lia]. }
  split; [exact He'|]. intros Hin.
  assert (HiO : {[i]} ## O).
  { pose proof (mv_owned _ _ _ _ Hm). set_solver. }
  destruct (moved_commit_rows {[i]} O _ _ _ _ _ _ _ P0 HiO Hm1 Hc He' HP0) as [Hm5 _].
  apply wp_bind, (wp_commit_tx ok LedgerRecord _ _ _ _ _ _ P0 _ Hin HP0); [rewrite <- Hp1 in Hle; pends| | |].
  - destruct (add_row _ _ _ _ _ _ _ _ _ Hw) as (r & Hr & Hrow).
    apply (H1 _ _ w); [done| |apply the_handle_shape|done].
    split; [unfold user_leg; simpl; by destruct ua|unfold scoped_leg; simpl; by destruct ca|apply ple_refl|].
    cbn [reservation_id vo set_vt]. split; [rewrite Ho1; set_solver|].
    intros r' Hr' _. simplify_eq. eapply (recorded_row_backs _ zero_held ca); [exact Hrow|done|by destruct ca|done].
  - intros e He2. pose proof (Hexn e _ d2 (moved_fails _ _ _ _ Hm2) Hpe He2) as Hx'.
    by destruct (is_sqlalchemy_error e).
  - intros Habs. congruence.
Qed.

End held_handle.

(** ** Transactions that hold and release nothing *)

(** Between transactions, or in one that moved no margin. *)
Record steady (O : gset nat) (d0 : database) (P : pend) (V : gset nat) (v : view) : Prop := {
  st_owned : vo v = V;
  st_keeps : ple P (vp v);
  st_view : (exists d, moved O d0 v d)
    \/ (exists F d w, in_tx v ∅ F d w pzero /\ moved O d0 (set_vt v (VClean d)) d)
}.

(** The same, with no transaction open. *)
Definition resting (O : gset nat) (d0 : database) (P : pend) (V : gset nat) (v : view) : Prop :=
  vo v = V /\ ple P (vp v) /\ exists d, moved O d0 v d.

Lemma resting_steady O d0 P V v : resting O d0 P V v -> steady O d0 P V v.
Proof. intros (? & ? & ?). split; auto. Qed.

Lemma moved_resting O d0 v d : moved O d0 v d -> resting O d0 (vp v) (vo v) v.
Proof. intros. split; [done|]. split; [apply ple_refl|eauto]. Qed.

Lemma steady_fails O d0 P V v :
  steady O d0 P V v -> resting O d0 P V (set_vt v (VPoisoned (base (vt v)))).
Proof.
  intros [Ho Hp [[d Hm]|(F & d & w & Hin & Hm)]]; split; try done; split; try done; exists d.
  - rewrite (idle_base _ _ (mv_idle _ _ _ _ Hm)). by apply moved_fails.
  - rewrite (it_view _ _ _ _ _ _ Hin). by apply (moved_fails _ _ _ _ Hm).
Qed.

Section steady.
Context (O : gset nat) (d0 : database) (P : pend) (V : gset nat).

Lemma wp_steady_execute {B} (s : Z -> database -> (exn + B) * database) v (Q : exn + B -> view -> Prop) :
  steady O d0 P V v ->
  (forall t d, rows_wf d -> exists b, (s t d).1 = inr b /\ effect ∅ d (s t d).2 pzero) ->
  (forall b v', steady O d0 P V v' -> Q (inr b) v') ->
  (forall e v', resting O d0 P V v' -> fault_error e -> Q (inl e) v') ->
  wp ok (execute s) Q v.
Proof.
  intros Hs He H1 H2. pose proof (steady_fails _ _ _ _ _ Hs) as Hf.
  destruct Hs as [Ho Hp [[d Hm]|(F & d & w & Hin & Hm)]].
  - rewrite (idle_base _ _ (mv_idle _ _ _ _ Hm)) in Hf.
    apply (wp_execute_idle _ _ _ d); [apply Hm| |by eauto]. intros F d' t Hv Hc.
    destruct (He t d' (proj1 (proj2 (proj2 Hc)))) as (b & Hb & Hef).
    destruct (s t d') as [r w]. simpl in *. subst r. exists ∅, pzero. split; [set_solver|]. split; [done|].
    intros Hin. apply H1. split; [done|done|]. right. exists F, d', w. split; [done|].
    by apply (moved_current _ _ _ _ _ _ Hm Hc).
  - rewrite (it_view _ _ _ _ _ _ Hin) in Hf. apply (wp_execute_tx _ _ _ _ _ _ _ _ _ Hin); [|by eauto].
    intros t. destruct (He t w (in_tx_wf _ _ _ _ _ _ Hin)) as (b & Hb & Hef).
    destruct (s t w) as [r w']. simpl in *. subst r. exists pzero. split; [done|]. intros Hin'.
    apply H1. split; [done|done|]. right. exists F, d, w'. split; [|done].
    eapply in_tx_weaken; [|exact Hin']. pends.
Qed.

Lemma wp_steady_query {B} (q : Z -> database -> B) v (Q : exn + B -> view -> Prop) :
  steady O d0 P V v ->
  (forall b v', steady O d0 P V v' -> (resting O d0 P V v -> resting O d0 P V v') -> Q (inr b) v') ->
  (forall e v', resting O d0 P V v' -> fault_error e -> Q (inl e) v') ->
  wp ok (query q) Q v.
Proof.
  intros Hs H1 H2. pose proof (steady_fails _ _ _ _ _ Hs) as Hf.
  destruct Hs as [Ho Hp [[d Hm]|(F & d & w & Hin & Hm)]].
  - rewrite (idle_base _ _ (mv_idle _ _ _ _ Hm)) in Hf.
    apply (wp_query_idle _ _ _ d); [apply Hm| |by eauto]. intros F d' t Hv Hc.
    pose proof (moved_current _ _ _ _ _ _ Hm Hc) as Hm'.
    apply H1; [split; [done|done|left; eauto]|]. intros _. split; [done|]. split; [done|eauto].
  - rewrite (it_view _ _ _ _ _ _ Hin) in Hf. apply (wp_query_tx _ _ _ _ _ _ _ _ _ Hin); [|by eauto].
    intros t. apply H1; [|done]. split; [done|done|]. right. by exists F, d, w.
Qed.

Lemma wp_steady_commit site v (Q : exn + unit -> view -> Prop) :
  steady O d0 P V v ->
  (forall v', resting O d0 P V v' -> Q (inr tt) v') ->
  (forall e v', resting O d0 P V v' -> fault_error e -> Q (inl e) v') ->
  wp ok (commit_at site) Q v.
Proof.
  intros Hs H1 H2. pose proof (steady_fails _ _ _ _ _ Hs) as Hf.
  destruct Hs as [Ho Hp [[d Hm]|(F & d & w & Hin & Hm)]].
  - rewrite (idle_base _ _ (mv_idle _ _ _ _ Hm)) in Hf.
    apply (wp_commit_idle _ _ _ d); [apply Hm| |by eauto]. intros _. apply H1. split; [done|eauto].
  - rewrite (it_view _ _ _ _ _ _ Hin) in Hf.
    assert (Hcur : current (set_vt v (VClean d)) d F d).
    { split; [apply evolves_refl|]. destruct Hin as [_ Hnn Hc _ _]. by split. }
    destruct (moved_commit O d0 _ d F d w pzero (vp v) Hm Hcur (it_effect _ _ _ _ _ _ Hin)
      (mv_nonneg _ _ _ _ Hm)) as [Hm1 Hm2].
    apply (wp_commit_tx ok site _ _ _ _ _ _ (vp v) _ Hin); [apply Hm|pends| |by eauto|].
    + apply H1. split; [done|]. split; [done|]. by exists w.
    + intros _ e He. apply H2; [|done]. split; [done|]. split; [done|]. by exists w.
Qed.

Lemma wp_steady_rollback v (Q : exn + unit -> view -> Prop) :
  steady O d0 P V v ->
  (forall r v', resting O d0 P V v' -> (forall e, r = inl e -> fault_error e) -> Q r v') ->
  wp ok rollback Q v.
Proof.
  intros Hs H1. destruct (steady_fails _ _ _ _ _ Hs) as (Ho & Hp & d & Hm). apply wp_rollback.
  - apply H1; [|done]. split; [done|]. split; [done|].
    pose proof (idle_base _ _ (mv_idle _ _ _ _ Hm)) as Hb. simpl in Hb. subst. exists (base (vt v)).
    by apply (moved_clean _ _ _ _ Hm).
  - intros e He. apply H1; [|by intros ? [= ->]]. split; [done|]. split; [done|eauto].
Qed.

Lemma wp_roll_ended_windows cs t v (Q : exn + unit -> view -> Prop) :
  steady O d0 P V v ->
  (forall v', steady O d0 P V v' -> Q (inr tt) v') ->
  (forall e v', resting O d0 P V v' -> fault_error e -> Q (inl e) v') ->
  wp ok (roll_ended_windows cs t) Q v.
Proof.
  revert v. induction cs as [|c cs IH]; intros v Hs H1 H2; [by apply H1|].
  unfold roll_ended_windows in *. cbn [for_each]. apply wp_bind.
  destruct (CeilingRepo.ac_period_end c) as [e|]; [|by apply IH].
  destruct (t <? e); [by apply IH|].
  destruct (period_window t _ _) as [win|]; [|by apply IH].
  destruct (match win with Some (s, e') => (s, Some e') | None => (t, None) end) as [start next].
  apply (wp_steady_execute _ _ _ Hs); [|intros [] v' Hs'; by apply IH|done].
  intros clk d _. exists tt. split; [done|]. apply effect_roll_period.
Qed.

Lemma wp_roll_and_list cs v (Q : exn + list ApplicableBudget -> view -> Prop) :
  resting O d0 P V v ->
  (forall v', resting O d0 P V v' -> Q (inr (to_applicable_budget <$> cs)) v') ->
  (forall e v', resting O d0 P V v' -> fault_error e -> Q (inl e) v') ->
  wp ok (roll_and_list_applicable cs) Q v.
Proof.
  intros Hs H1 H2. apply wp_bind. intros t. apply wp_bind. destruct (existsb _ _); [|by apply H1].
  apply wp_bind, wp_roll_ended_windows; [by apply resting_steady| |done].
  intros v' Hs'. by apply wp_steady_commit.
Qed.

Lemma wp_cas_reset user u b t v (Q : exn + User -> view -> Prop) :
  resting O d0 P V v ->
  (forall r v', resting O d0 P V v' -> Q r v') ->
  wp ok (cas_reset_user_budget user u b t) Q v.
Proof.
  intros Hs HQ. unfold cas_reset_user_budget. destruct (budget_window t b) as [win|]; [|by apply HQ].
  destruct (match win with Some (s, e) => (s, Some e) | None => (t, None) end) as [start next].
  apply wp_bind, wp_steady_query; [by apply resting_steady| |by eauto]. intros _ v1 Hs1 _.
  apply wp_bind, (wp_steady_execute _ _ _ Hs1); [| |by eauto].
  { intros clk d _. eexists. split; [reflexivity|]. cbn [snd].
    destruct (UserRows.reset_user clk t user start next d) as [x w] eqn:E.
    by apply (effect_reset_user ∅) in E. }
  intros won v2 Hs2. destruct won.
  - apply wp_bind, wp_try, wp_bind, (wp_steady_execute _ _ _ Hs2).
    + intros clk d _. exists tt. split; [done|]. apply effect_reset_log.
    + intros [] v3 Hs3. apply wp_steady_commit; [done| |].
      * intros v4 Hr4. apply wp_bind, wp_steady_query; [by apply resting_steady| |by eauto].
        intros r v5 _ Hr5. by apply HQ, Hr5.
      * intros e v4 Hr4 He. destruct (is_sqlalchemy_error e); [|by apply HQ].
        apply wp_bind, wp_steady_rollback; [by apply resting_steady|]. intros [e'|[]] v5 Hr5 _; by apply HQ.
    + intros e v3 Hr3 He. destruct (is_sqlalchemy_error e); [|by apply HQ].
      apply wp_bind, wp_steady_rollback; [by apply resting_steady|]. intros [e'|[]] v5 Hr5 _; by apply HQ.
  - apply wp_bind, wp_steady_commit; [done| |by eauto]. intros v3 Hr3.
    apply wp_bind, wp_steady_query; [by apply resting_steady| |by eauto].
    intros r v5 _ Hr5. by apply HQ, Hr5.
Qed.

End steady.

(** ** Reserving *)

Lemma counter_held_user d u : is_Some (counter_held d (CUser u)) <-> is_Some (UserRows.get_active_user d u).
Proof.
  unfold counter_held, UserRows.get_active_user. destruct (users d !! u) as [r|]; simpl; [|done].
  destruct (user_deleted r); [done|]. split; eauto.
Qed.

Lemma wp_hold_on_user (s : Z -> database -> bool * database) user scoped h P0 O d0 v d
    (Q : exn + bool -> view -> Prop) :
  moved O d0 v d -> held_nonneg h -> pnonneg P0 ->
  ple (padd P0 (ceiling_pend (budget_id <$> scoped) h)) (vp v) ->
  (forall t d, if (s t d).1 then effect ∅ d (s t d).2 (user_pend user h) else (s t d).2 = d) ->
  (forall (b : bool) F d' w v', v' = set_vt v (VDirty F d' w) -> moved O d0 (set_vt v (VClean d')) d' ->
     in_tx v' ∅ F d' w (if b then user_pend user h else pzero) ->
     (exists t, (s t d').1 = b) -> Q (inr b) v') ->
  (forall e v' d', moved O d0 v' d' -> ple P0 (vp v') -> is_database_error e = true -> Q (inl e) v') ->
  wp ok (hold_on_user s scoped h) Q v.
Proof.
  intros Hm Hh HP0 Hle Hs H1 H2. set (ids := budget_id <$> scoped) in *.
  pose proof (ceiling_pend_nonneg ids h Hh) as Hn.
  assert (Hexn : forall v1 d1 e, moved O d0 v1 d1 -> vp v1 = vp v -> fault_error e ->
    wp ok (suppress is_database_error
             (rollback ;;! if bool_decide (scoped = []) then Ret tt else release ids h true) ;;! Raise e) Q v1).
  { intros v1 d1 e Hm1 Hp1 He.
    apply wp_bind, (wp_rollback_then O d0 _ d1 _ (fun v' d' => moved O d0 v' d' /\ ple P0 (vp v'))); [done| | |].
    - intros x Hx. split; [done|simpl; rewrite Hp1; pends].
    - intros x Q' Hx HQ'. destruct (bool_decide (scoped = [])).
      + apply (HQ' _ _ d1); [|done]. split; [done|simpl; rewrite Hp1; pends].
      + apply (wp_release O d0 _ d1); [done|done|simpl; rewrite Hp1; pends|].
        intros r v' d' Hm2 Ho2 Hp2 Herr. apply (HQ' _ _ d'); [|done]. split; [done|].
        simpl in Hp2. rewrite Hp1 in Hp2. pends.
    - intros v' d' [Hm2 Hp2]. apply (H2 _ _ d'); [done|done|by apply fault_is_database_error]. }
  unfold hold_on_user. apply wp_try, wp_bind, (wp_defer O d0 _ d); [done|].
  intros [e|[]] x d1 Hm1 Herr.
  { rewrite (fault_is_database_error e) by auto. apply (Hexn _ d1); [done|done|by apply Herr]. }
  apply (wp_execute_idle _ _ _ d1); [apply Hm1| |].
  2: { intros e He. rewrite (fault_is_database_error e He).
       by apply (Hexn _ d1); [apply (moved_fails _ _ _ _ Hm1)| |]. }
  intros F d2 t Hx Hc. pose proof (moved_current _ _ _ _ _ _ Hm1 Hc) as Hm2.
  exists ∅, (if (s t d2).1 then user_pend user h else pzero). split; [set_solver|]. split.
  - specialize (Hs t d2). destruct (s t d2) as [[] w]; simpl in *; [done|subst; apply effect_refl].
  - intros Hin. eapply (H1 _ F d2 (s t d2).2); [done|done|done|eauto].
Qed.

Section reserve.
Context (a : reserve_args) (O : gset nat) (d0 : database).
Context (Hok : ok LedgerRecord = false).
Local Abbreviation user := (a_user_id a).

(** What a reservation leaves: a handle for what it holds, or nothing more than before. *)
Definition reserve_post (P0 : pend) (Q : exn + ReservationHandle -> view -> Prop) : Prop :=
  (forall h v' d', moved O d0 v' d' -> new_handle P0 v' d' h -> user_id h = user ->
     (reserved h = false -> user_leg h = zero_held) ->
     (a_scope a = None -> scoped_budgets h = []) ->
     (a_record_reservation a = false -> reservation_id h = None) -> Q (inr h) v')
  /\ (forall e v' d', moved O d0 v' d' -> ple P0 (vp v') -> Q (inl e) v').

Lemma wp_refuse {A} detail x scope P v (Q : exn + A -> view -> Prop) :
  (exists d, moved O d0 v d) -> ple P (vp v) ->
  (forall e v' d', moved O d0 v' d' -> ple P (vp v') -> Q (inl e) v') ->
  wp ok (budget_exceeded detail x scope) Q v.
Proof. intros [d Hm] Hp HQ t. by apply (HQ _ _ d). Qed.

Lemma ceiling_held_of_pend scoped usd tok req c x :
  ceiling_pend (budget_id <$> scoped) (ceiling_held_of scoped usd tok req) c x =
    ceiling_pend (budget_id <$> scoped) (mkHeld (default 0 usd) tok req) c x.
Proof.
  unfold ceiling_held_of. destruct (bool_decide (scoped = [])) eqn:E; [|done].
  apply bool_decide_eq_true in E as ->. by destruct c.
Qed.

Lemma wp_reserve_user_leg strategy b usd tok req scoped cs P0 v d (Q : exn + ReservationHandle -> view -> Prop) :
  let held := mkHeld (default 0 usd) tok req in
  is_Some (counter_held d0 (CUser user)) ->
  moved O d0 v d -> held_nonneg held -> pnonneg P0 ->
  ple (padd P0 (ceiling_pend (budget_id <$> scoped) held)) (vp v) ->
  (a_scope a = None -> scoped = []) ->
  reserve_post P0 Q ->
  wp ok (reserve_user_leg a strategy b usd tok req scoped cs) Q v.
Proof.
  intros held Hlive Hm Hh HP0 Hle Hscope [H1 H2].
  pose proof (ceiling_pend_nonneg (budget_id <$> scoped) held Hh) as Hn.
  assert (Hhc : held_nonneg (ceiling_held_of scoped usd tok req)).
  { unfold ceiling_held_of. destruct (bool_decide _); [apply held_nonneg_zero|done]. }
  assert (Hbuild : forall v1 F d1 w, moved O d0 (set_vt v1 (VClean d1)) d1 ->
    in_tx v1 ∅ F d1 w (user_pend user held) -> vp v1 = vp v ->
    wp ok (held_handle user true held strategy (a_counts_toward_budget a) scoped
      (ceiling_held_of scoped usd tok req) cs (a_reservation_ttl_sec a) (a_record_reservation a) true) Q v1).
  { intros v1 F d1 w Hm1 Hin Hp1.
    apply (wp_held_handle_uncommitted _ _ _ _ _ _ _ _ P0 O d0 Hh Hhc HP0 _ _ _ _ _ _ Hm1 Hin).
    - rewrite Hp1. intros c x. unfold padd. rewrite ceiling_held_of_pend. apply Hle.
    - intros h v' d' Hm2 Hnew (Hu & Hr & Hl & Hsc & _) Hid. apply (H1 _ _ d'); try done; [congruence|].
      intros Hs. rewrite Hsc. auto.
    - intros e v' d' Hm2 Hp2 _. by apply (H2 _ _ d'). }
  assert (Hstmt : forall guard t d1,
    if (UserRows.update_user t user guard (UserRows.add_hold held) d1).1
    then effect ∅ d1 (UserRows.update_user t user guard (UserRows.add_hold held) d1).2 (user_pend user held)
    else (UserRows.update_user t user guard (UserRows.add_hold held) d1).2 = d1).
  { intros guard t d1. destruct (UserRows.update_user t user guard (UserRows.add_hold held) d1) as [x w] eqn:E.
    by apply (effect_add_hold ∅) in E. }
  assert (Hdone : forall e v' d', moved O d0 v' d' -> ple P0 (vp v') -> is_database_error e = true -> Q (inl e) v').
  { intros e v' d' ? ? _. by apply (H2 _ _ d'). }
  assert (Hcapped : wp ok
      (let! admitted :=
        hold_on_user (fun t => UserRows.update_user t user (user_guards b usd tok req (a_new_request a))
          (UserRows.add_hold held)) scoped held in
      if admitted then held_handle user true held strategy (a_counts_toward_budget a) scoped
        (ceiling_held_of scoped usd tok req) cs (a_reservation_ttl_sec a) (a_record_reservation a) true
      else
        commit ;;!
        release (budget_id <$> scoped) held true ;;!
        let! refused_on := query (fun _ d => UserRows.get_active_user d user) in
        let x := match refused_on with
                 | Some u => user_blocked_axis b u usd tok req (a_new_request a)
                 | None => blocked "budget"
                 end in
        budget_exceeded
          (refusal_detail ("User '" ++ user ++ "'") x (a_new_request a) (a_reserved_output_tokens a))
          x "user") Q v).
  { apply wp_bind, (wp_hold_on_user _ user _ _ P0 O d0 _ d); try done; [apply Hstmt|].
    intros [] F d1 w v1 -> Hm1 Hin _; [by eapply Hbuild|].
    assert (Hs1 : steady O d0 (vp v) (vo v) (set_vt v (VDirty F d1 w))).
    { split; [done|apply ple_refl|]. right. by exists F, d1, w. }
    apply wp_bind, (wp_steady_commit O d0 (vp v) (vo v)); [done| |].
    - intros v2 (Ho2 & Hp2 & d2 & Hm2). apply wp_bind, (wp_release O d0 _ d2); [done|done|pends|].
      intros r v3 d3 Hm3 Ho3 Hp3 _. assert (Hp03 : ple P0 (vp v3)) by pends.
      destruct r as [e|[]]; [by apply (H2 _ _ d3)|].
      apply wp_bind, (wp_query _ O d0 _ d3); [done|]. intros [e|r] x d4 Hm4 _; [by apply (H2 _ _ d4)|].
      apply (wp_refuse _ _ _ P0); [eauto|done|]. intros e v' d' ? ?. by apply (H2 _ _ d').
    - intros e v2 (Ho2 & Hp2 & d2 & Hm2) _. apply (H2 _ _ d2); [done|pends]. }
  unfold reserve_user_leg. destruct (max_budget b), (token_limit b), (request_limit b); try exact Hcapped.
  apply wp_bind, (wp_hold_on_user _ user _ _ P0 O d0 _ d); try done; [apply Hstmt|].
  intros x F d1 w v1 -> Hm1 Hin [t Ht]. cbn [set_vt vp vo vt].
  assert (x = true) as ->; [|by eapply Hbuild].
  destruct (proj1 (counter_held_user d1 user)) as [us Hus].
  { by apply (ev_counters _ _ _ (mv_rely _ _ _ _ Hm1)). }
  revert Ht. unfold UserRows.update_user. by rewrite Hus.
Qed.

Lemma wp_reserve_holds strategy u budget usd tok req scoped cs P0 v d (Q : exn + ReservationHandle -> view -> Prop) :
  is_Some (counter_held d0 (CUser user)) ->
  moved O d0 v d -> held_nonneg (mkHeld (default 0 usd) tok req) -> pnonneg P0 -> ple P0 (vp v) ->
  (a_scope a = None -> scoped = []) ->
  reserve_post P0 Q ->
  wp ok (reserve_holds a strategy u budget usd tok req scoped cs) Q v.
Proof.
  intros Hlive Hm Hh HP0 Hle Hscope Hpost. pose proof Hpost as [H1 H2].
  assert (Hleg : forall v1 d1, moved O d0 v1 d1 ->
    ple (padd P0 (ceiling_pend (budget_id <$> scoped) (mkHeld (default 0 usd) tok req))) (vp v1) ->
    wp ok (match budget with
      | None =>
          held_handle user false zero_held strategy (a_counts_toward_budget a) scoped
            (mkHeld (default 0 usd) tok req) cs (a_reservation_ttl_sec a) (a_record_reservation a) false
      | Some b => reserve_user_leg a strategy b usd tok req scoped cs
      end) Q v1).
  { intros v1 d1 Hm1 Hle1. destruct budget as [b|]; [by apply (wp_reserve_user_leg _ _ _ _ _ _ _ P0 _ d1)|].
    apply (wp_held_handle_ceilings _ zero_held _ _ _ _ _ _ P0 O d0 held_nonneg_zero Hh HP0 _ _ d1); try done.
    - intros h v' d' Hm2 Hnew (Hu & Hr & Hl & Hsc & _) Hid. apply (H1 _ _ d'); try done.
      intros Hs. rewrite Hsc. auto.
    - intros e v' d' ? ? _. by apply (H2 _ _ d'). }
  assert (Hrest : forall v1 d1, moved O d0 v1 d1 -> ple P0 (vp v1) ->
    wp ok
      (let! refused :=
         if bool_decide (scoped = []) then Ret None
         else ScopedEnforcement.reserve scoped usd tok req (a_new_request a) in
       match refused with
       | Some r =>
           let! x := blocked_axis r usd tok req (a_new_request a) in
           budget_exceeded (refusal_detail (subject r) x (a_new_request a) (a_reserved_output_tokens a))
             x (scope_name (ab_scope_type r))
       | None =>
           match budget with
           | None =>
               held_handle user false zero_held strategy (a_counts_toward_budget a) scoped
                 (mkHeld (default 0 usd) tok req) cs (a_reservation_ttl_sec a) (a_record_reservation a) false
           | Some b => reserve_user_leg a strategy b usd tok req scoped cs
           end
       end) Q v1).
  { intros v1 d1 Hm1 Hp1. apply wp_bind. destruct (bool_decide (scoped = [])) eqn:Es.
    - apply bool_decide_eq_true in Es. apply (Hleg _ d1); [done|]. rewrite Es.
      intros c x. specialize (Hp1 c x). unfold padd. rewrite fmap_nil, ceiling_pend_nil. lia.
    - apply (wp_reserve_after O d0 [] scoped usd tok req _ P0 v1 d1); try done.
      { intros c x. specialize (Hp1 c x). unfold padd. rewrite ceiling_pend_nil. lia. }
      intros r v2 d2 Hm2 Ho2 Hp2 Hr. destruct r as [e|[r|]]; [by apply (H2 _ _ d2)| |].
      + unfold blocked_axis. apply wp_bind, wp_bind, (wp_query _ O d0 _ d2); [done|].
        intros [e|y] x d3 Hm3 _; [by apply (H2 _ _ d3)|]. cbn [wp].
        apply (wp_refuse _ _ _ P0); [eauto|done|]. intros e v' d' ? ?. by apply (H2 _ _ d').
      + by apply (Hleg _ d2). }
  unfold reserve_holds. apply wp_bind. destruct (_ && _); [|by apply (Hrest _ d)].
  apply wp_bind, (wp_list_and_reclaim 20 (Some user) O d0 _ d); [done|].
  intros r v1 d1 Hm1 Ho1 Hp1 _. destruct r as [e|n]; [apply (H2 _ _ d1)|apply (Hrest _ d1)]; try done; pends.
Qed.

Lemma new_handle_empty P0 v d u strategy counts ttl cs :
  ple P0 (vp v) -> new_handle P0 v d (empty_handle u strategy counts ttl cs).
Proof.
  intros Hp. split; [by intros []|by intros []|done|]. simpl. intros c x. specialize (Hp c x).
  unfold padd, leg_pend, scoped_budget_ids. simpl. unfold padd, pzero.
  change (user_pend u zero_held) with (user_pend u zero_held).
  rewrite ceiling_pend_nil. lia.
Qed.

Lemma wp_reserve_checked strategy u budget P0 v d (Q : exn + ReservationHandle -> view -> Prop) :
  is_Some (counter_held d0 (CUser user)) ->
  moved O d0 v d -> pnonneg P0 -> ple P0 (vp v) -> reserve_post P0 Q ->
  wp ok (reserve_checked a strategy u budget) Q v.
Proof.
  intros Hlive Hm HP0 Hle Hpost. pose proof Hpost as [H1 H2].
  (* from the ceilings on *)
  assert (Hrest : forall u' cs scoped v1, resting O d0 (vp v) (vo v) v1 ->
    (a_scope a = None -> scoped = []) ->
    wp ok
      (let no_reservation := empty_handle user strategy true (a_reservation_ttl_sec a) cs in
       if negb (is_set budget) && bool_decide (scoped = []) then Ret no_reservation
       else
         let budget_caps_counts :=
           match budget with Some b => is_set (token_limit b) || is_set (request_limit b) | None => false end in
         if a_model_is_free a && negb budget_caps_counts && negb (existsb caps_counts scoped)
         then Ret no_reservation
         else reserve_holds a strategy u' budget (if a_model_is_free a then None else Some (Z.max (a_estimate a) 0))
                (Z.min (Z.max (a_estimated_tokens a) 0) MAX_COUNT_LIMIT) (Z.max (a_requests a) 0) scoped cs) Q v1).
  { intros u' cs scoped v1 (Ho1 & Hp1 & d1 & Hm1) Hsc. cbv zeta.
    assert (Hempty : wp ok (Ret (empty_handle user strategy true (a_reservation_ttl_sec a) cs)) Q v1).
    { apply (H1 _ _ d1); try done. apply new_handle_empty. pends. }
    destruct (negb (is_set budget) && _); [exact Hempty|]. destruct (_ && negb (existsb _ _)); [exact Hempty|].
    apply (wp_reserve_holds _ _ _ _ _ _ _ _ P0 _ d1); try done; [|pends].
    apply mkHeld_nonneg; [destruct (a_model_is_free a); simpl; lia| |]; unfold MAX_COUNT_LIMIT; lia. }
  assert (Hscope : forall u' v1, resting O d0 (vp v) (vo v) v1 ->
    wp ok
      (let! (cs, scoped) :=
         match a_scope a with
         | Some s =>
             let! cs := get_scope_ceilings s in
             let! scoped := roll_and_list_applicable (get_provider_ceilings cs (provider_instance s)) in
             Ret (cs, scoped)
         | None => Ret ([], [])
         end in
       let no_reservation := empty_handle user strategy true (a_reservation_ttl_sec a) cs in
       if negb (is_set budget) && bool_decide (scoped = []) then Ret no_reservation
       else
         let budget_caps_counts :=
           match budget with Some b => is_set (token_limit b) || is_set (request_limit b) | None => false end in
         if a_model_is_free a && negb budget_caps_counts && negb (existsb caps_counts scoped)
         then Ret no_reservation
         else reserve_holds a strategy u' budget (if a_model_is_free a then None else Some (Z.max (a_estimate a) 0))
                (Z.min (Z.max (a_estimated_tokens a) 0) MAX_COUNT_LIMIT) (Z.max (a_requests a) 0) scoped cs) Q v1).
  { intros u' v1 Hr1. apply wp_bind. destruct (a_scope a) as [s|] eqn:Es; [|by apply Hrest].
    apply wp_bind, (wp_steady_query O d0 (vp v) (vo v)); [by apply resting_steady| |].
    - intros cs v2 _ Hr2. apply wp_bind, (wp_roll_and_list O d0 (vp v) (vo v)); [by apply Hr2| |].
      + intros v3 Hr3. by apply Hrest.
      + intros e v3 (_ & Hp3 & d3 & Hm3) _. apply (H2 _ _ d3); [done|pends].
    - intros e v3 (_ & Hp3 & d3 & Hm3) _. apply (H2 _ _ d3); [done|pends]. }
  assert (Hr : resting O d0 (vp v) (vo v) v) by (split; [done|]; split; [apply ple_refl|eauto]).
  unfold reserve_checked. cbv zeta. apply wp_bind. destruct budget as [b|]; [|cbn [wp]; exact (Hscope _ _ Hr)].
  apply wp_bind. intros t. cbn [wp]. destruct (next_budget_reset_at u) as [r|]; [|cbn [wp]; exact (Hscope _ _ Hr)].
  destruct (r <=? t); [|cbn [wp]; exact (Hscope _ _ Hr)].
  apply (wp_cas_reset O d0 (vp v) (vo v)); [done|]. intros [e|u'] v1 Hr1; [|cbv beta iota; exact (Hscope _ _ Hr1)].
  destruct Hr1 as (_ & Hp1 & d1 & Hm1). apply (H2 _ _ d1); [done|pends].
Qed.

End reserve.

Lemma reserve_post_trans a O d0 v x d1 P Q :
  moved O d0 (set_vt v x) d1 -> reserve_post a O d0 P Q -> reserve_post a (vo v) d1 P Q.
Proof.
  intros Hm [H1 H2]. split.
  - intros h v' d' Hm' ????. apply (H1 _ _ d'); try done. by eapply moved_trans.
  - intros e v' d' Hm' ?. apply (H2 _ _ d'); try done. by eapply moved_trans.
Qed.

Lemma wp_reserve_budget a O d0 v d (Q : exn + ReservationHandle -> view -> Prop) :
  ok LedgerRecord = false -> moved O d0 v d -> reserve_post a O d0 (vp v) Q ->
  wp ok (reserve_budget a) Q v.
Proof.
  intros Hok Hm Hpost. pose proof Hpost as [H1 H2]. unfold reserve_budget.
  apply wp_bind, (wp_query _ O d0 _ d); [done|]. intros [e|loaded] x d1 Hm1 Hr.
  { apply (H2 _ _ d1); [done|apply ple_refl]. }
  destruct loaded as [[u budget]|]; [|apply (H2 _ _ d1); [done|apply ple_refl]].
  destruct (user_blocked u); [apply (H2 _ _ d1); [done|apply ple_refl]|].
  destruct (negb (a_counts_toward_budget a)); [apply (H1 _ _ d1); try done; apply new_handle_empty, ple_refl|].
  destruct (bool_decide _); [apply (H1 _ _ d1); try done; apply new_handle_empty, ple_refl|].
  apply (wp_reserve_checked a (vo v) d1 Hok _ _ _ (vp v) _ d1); [| | |apply ple_refl|].
  - destruct Hr as ([t Hr] & _). symmetry in Hr. apply bind_Some in Hr as (us & Hus & _).
    apply counter_held_user. eauto.
  - apply (moved_refl (set_vt v x) d1); apply Hm1.
  - apply Hm.
  - by eapply reserve_post_trans.
Qed.

(** ** Giving a hold back *)

(** [R] is left to release, from what the session has in flight and what its transaction
    freed; [K] is what the transaction made of the rows. *)
Definition spending (v : view) (d : database) (E : gset nat) (R : pend)
    (K : gmap nat BudgetReservation -> Prop) : Prop :=
  (idle v d /\ E = ∅ /\ ple R (vp v) /\ forall m, K m)
  \/ (exists F w delta, in_tx v E F d w delta /\ ple R (padd (vp v) delta) /\ K (reservations w)).

(** Where a session is after a statement or a commit that failed and changed nothing. *)
Definition unchanged (v : view) (d : database) (v' : view) (d' : database) : Prop :=
  idle v' d' /\ vo v' = vo v /\ vp v' = vp v /\ rely (vo v) d d'.

Lemma unchanged_fails v d : unchanged v d (set_vt v (VPoisoned d)) d.
Proof. split; [by right|]. split; [done|]. split; [done|apply evolves_refl]. Qed.

(** A statement that takes [X] at most off the counters and touches no row. *)
Definition takes {B} (s : Z -> database -> (exn + B) * database) (X : pend) : Prop :=
  forall t w, (exists b, (s t w).1 = inr b) /\ effect ∅ w (s t w).2 (pneg X)
    /\ reservations (s t w).2 = reservations w.

Lemma wp_spend {B} (s : Z -> database -> (exn + B) * database) X v d E R K (Q : exn + B -> view -> Prop) :
  spending v d E R K -> takes s X ->
  (forall b v' d', vo v' = vo v -> vp v' = vp v -> rely (vo v) d d' -> spending v' d' E (psub R X) K -> Q (inr b) v') ->
  (forall e v' d', unchanged v d v' d' -> fault_error e -> Q (inl e) v') ->
  wp ok (execute s) Q v.
Proof.
  intros Hs He H1 H2. destruct Hs as [(Hi & -> & HR & HK)|(F & w & delta & Hin & HR & HK)].
  - apply (wp_execute_idle _ _ _ d); [done| |].
    2: { intros e Hf. apply (H2 _ _ d); [|done]. apply unchanged_fails. }
    intros F d' t Hv Hc. destruct (He t d') as ([b Hb] & Hef & Hres).
    destruct (s t d') as [r w]. simpl in *. subst r. exists ∅, (pneg X). split; [set_solver|]. split; [done|].
    intros Hin. apply (H1 _ _ d'); [done|done|apply Hc|]. right. exists F, w, (pneg X).
    split; [done|split; [pends|done]].
  - apply (wp_execute_tx _ _ _ _ _ _ _ _ _ Hin).
    2: { intros e Hf. apply (H2 _ _ d); [|done]. apply unchanged_fails. }
    intros t. destruct (He t w) as ([b Hb] & Hef & Hres).
    destruct (s t w) as [r w']. simpl in *. subst r. exists (pneg X).
    split; [eapply effect_mono; [|exact Hef]; set_solver|].
    intros Hin'. apply (H1 _ _ d); [done|done|apply evolves_refl|]. right.
    exists F, w', (padd delta (pneg X)). split; [done|]. split; [pends|by rewrite Hres].
Qed.

Lemma spending_weaken v d E R R' K : ple R' R -> spending v d E R K -> spending v d E R' K.
Proof.
  intros Hle [(Hi & -> & HR & HK)|(F & w & delta & Hin & HR & HK)].
  - left. split; [done|]. split; [done|]. split; [by eapply ple_trans|done].
  - right. exists F, w, delta. split; [done|]. split; [by eapply ple_trans|done].
Qed.

Lemma wp_spend_commit v d E R K (Q : exn + unit -> view -> Prop) :
  spending v d E R K -> pnonneg R ->
  (forall r v' d', idle v' d' -> vo v' = vo v -> ple R (vp v') -> (E = ∅ \/ K (reservations d')) ->
     (forall e, r = inl e -> fault_error e) -> Q r v') ->
  (forall e v' d', unchanged v d v' d' -> fault_error e -> Q (inl e) v') ->
  wp ok commit Q v.
Proof.
  intros Hs HR H1 H2. destruct Hs as [(Hi & -> & Hle & HK)|(F & w & delta & Hin & Hle & HK)].
  - apply (wp_commit_idle _ _ _ d); [done| |].
    + intros Hv. apply (H1 _ _ d); auto. done.
    + intros e Hf. apply (H2 _ _ d); [|done]. apply unchanged_fails.
  - apply (wp_commit_tx ok OtherCommit _ _ _ _ _ _ R _ Hin HR Hle).
    + apply (H1 _ _ w); [by left|done|apply ple_refl|by right|done].
    + intros e Hf. apply (H2 _ _ d); [|done]. apply unchanged_fails.
    + intros _ e Hf. apply (H1 _ _ w); [by right|done|apply ple_refl|by right|by intros ? [= ->]].
Qed.

Lemma takes_nothing {B} (f : Z -> database -> database) (b : B) :
  (forall t w, effect ∅ w (f t w) pzero /\ reservations (f t w) = reservations w) ->
  takes (fun t w => (inr b, f t w)) pzero.
Proof.
  intros H t w. destruct (H t w) as [He Hr]. split; [eauto|]. split; [|done].
  eapply effect_weaken; [|exact He]. pends.
Qed.

Lemma takes_release ids h :
  held_nonneg h -> takes (fun t d => (inr tt, CeilingRepo.release_holds t ids h d)) (ceiling_pend ids h).
Proof.
  intros Hh t w. split; [by exists tt|]. split; [by apply effect_release_holds|].
  unfold CeilingRepo.release_holds. by destruct (_ || _).
Qed.

Lemma takes_settle ids used h :
  held_nonneg h -> takes (fun t d => (inr tt, CeilingRepo.settle t ids used h d)) (ceiling_pend ids h).
Proof.
  intros Hh t w. split; [by exists tt|]. split; [by apply effect_settle|].
  unfold CeilingRepo.settle. by destruct (_ || _).
Qed.

Lemma takes_user u f h :
  held_nonneg h -> (forall us a, at_axis (user_held us) a - at_axis h a <= at_axis (f us).2 a) ->
  takes (fun t d => (inr (UserRows.update_user t u (fun _ => true) f d).1,
                     (UserRows.update_user t u (fun _ => true) f d).2)) (user_pend u h).
Proof.
  intros Hh Hf t w. split; [by eexists|]. split; [by apply effect_user_release|].
  unfold UserRows.update_user. by destruct (UserRows.get_active_user w u).
Qed.

(** The last statement of a settlement, on the ceilings, and its commit. *)
Lemma wp_finish_ceilings (p : prog unit) ids h v d E R K (Q : exn + unit -> view -> Prop) :
  spending v d E R K -> held_nonneg h -> pnonneg (psub R (ceiling_pend ids h)) ->
  (exists f, takes (fun t d => (inr tt, f t d)) (ceiling_pend ids h) /\
     (p = (Ret tt ;;! update f ;;! Ret tt) \/ p = Ret tt)) ->
  (forall r v' d', idle v' d' -> vo v' = vo v -> pnonneg (vp v') -> (E = ∅ \/ K (reservations d')) ->
     (forall e, r = inl e -> fault_error e) -> Q r v') ->
  (forall e v' d', unchanged v d v' d' -> fault_error e -> Q (inl e) v') ->
  wp ok (p ;;! commit) Q v.
Proof.
  intros Hs Hh HR (f & Hf & Hp) H1 H2. apply wp_bind.
  assert (Hc : forall v1 d1, vo v1 = vo v -> vp v1 = vp v -> rely (vo v) d d1 ->
    spending v1 d1 E (psub R (ceiling_pend ids h)) K -> wp ok commit Q v1).
  { intros v1 d1 Ho1 Hp1 Hr1 Hs1. apply (wp_spend_commit _ _ _ _ _ _ Hs1 HR).
    - intros r v2 d2 Hi2 Ho2 Hp2 HK2 He2. apply (H1 _ _ d2); try done; [congruence|by eapply pnonneg_ple].
    - intros e v2 d2 (Hi2 & Ho2 & Hp2 & Hr2) He. apply (H2 _ _ d2); [|done]. split; [done|].
      split; [congruence|]. split; [congruence|]. rewrite Ho1 in Hr2. by eapply evolves_trans. }
  destruct Hp as [-> | ->].
  - apply wp_bind. cbn [wp]. apply wp_bind, (wp_spend _ _ _ _ _ _ _ _ Hs Hf); [|done].
    intros [] v1 d1 ????. by apply (Hc _ d1).
  - apply (Hc v d); [done|done|apply evolves_refl|]. eapply spending_weaken; [|done].
    pose proof (ceiling_pend_nonneg ids h Hh). pends.
Qed.

Definition is_finished (i : nat) (m : gmap nat BudgetReservation) : Prop :=
  forall r, m !! i = Some r -> status r <> RESERVATION_ACTIVE.

(** What a settlement leaves of its handle, whether it claimed it, lost the claim or failed. *)
Definition settled_post (h : ReservationHandle) (O : gset nat) (Q : exn + unit -> view -> Prop) : Prop :=
  forall r v' d', idle v' d' -> vo v' = O -> pnonneg (vp v') ->
    (reservation_id h <> None -> handle_ok (vo v') (vp v') d' h) ->
    (forall e, r = inl e -> fault_error e) -> Q r v'.

Lemma settled_unchanged h v d v' d' Q (r : exn + unit) :
  handle_ok (vo v) (vp v) d h -> pnonneg (vp v) -> settled_post h (vo v) Q -> unchanged v d v' d' ->
  (forall e, r = inl e -> fault_error e) -> Q r v'.
Proof.
  intros Hh Hp HQ (Hi & Ho & Hv & Hr) He. apply (HQ _ _ d'); try done; [by rewrite Hv|].
  intros _. rewrite Ho, Hv. eapply handle_ok_later; try done. apply ple_refl.
Qed.

Lemma finished_handle_ok i h v' d' :
  reservation_id h = Some i -> held_nonneg (user_leg h) -> held_nonneg (scoped_leg h) -> i ∈ vo v' ->
  is_finished i (reservations d') -> handle_ok (vo v') (vp v') d' h.
Proof.
  intros Hid Hu Hs Hi Hf. split; [done|done|]. rewrite Hid. split; [done|]. intros r Hr Ha.
  by apply Hf in Hr.
Qed.

(** What the claim of a handle leaves to release, by the row it names. *)
Definition claim_rows (h : ReservationHandle) (m : gmap nat BudgetReservation) : Prop :=
  match reservation_id h with None => True | Some i => is_finished i m end.
Definition claim_set (h : ReservationHandle) : gset nat :=
  match reservation_id h with None => ∅ | Some i => {[i]} end.

Lemma wp_claim h s v d (Q : exn + bool -> view -> Prop) :
  idle v d -> pnonneg (vp v) -> handle_ok (vo v) (vp v) d h -> s <> RESERVATION_ACTIVE ->
  (forall v' d', vo v' = vo v -> vp v' = vp v -> rely (vo v) d d' ->
     spending v' d' (claim_set h) (leg_pend h) (claim_rows h) -> Q (inr true) v') ->
  (forall F d' i, reservation_id h = Some i -> current v d F d' -> is_finished i (reservations d') ->
     in_tx (set_vt v (VDirty F d' d')) {[i]} F d' d' pzero -> Q (inr false) (set_vt v (VDirty F d' d'))) ->
  (forall e v' d', unchanged v d v' d' -> fault_error e -> Q (inl e) v') ->
  wp ok (try_terminate (reservation_id h) s) Q v.
Proof.
  intros Hi Hp Hh Hs H1 H2 H3. unfold try_terminate, claim_set, claim_rows in *.
  pose proof (ho_legs _ _ _ _ Hh) as Hlegs.
  destruct (reservation_id h) as [i|] eqn:Hid.
  2: { apply (H1 v d); [done|done|apply evolves_refl|]. left. done. }
  destruct Hlegs as [Hown _]. apply (wp_execute_idle _ _ _ d); [done| |].
  2: { intros e He. apply (H3 _ _ d); [|done]. apply unchanged_fails. }
  intros F d' t Hv Hc. pose proof (proj1 (proj2 (proj2 Hc))) as Hwf.
  assert (Hh' : handle_ok (vo v) (vp v) d' h).
  { eapply handle_ok_later; [exact Hh|apply Hc|done|apply ple_refl]. }
  destruct (ReservationRepo.try_terminate i s d') as [[] w] eqn:E; cbn [fst snd].
  - destruct (terminate_some _ _ _ _ E) as [r Hr].
    destruct (effect_terminate {[i]} d' w i r s Hr Hwf Hs ltac:(left; set_solver) E) as [He Ha].
    exists {[i]}, (row_pend r). split; [set_solver|]. split; [exact He|]. intros Hin.
    apply (H1 _ d'); [done|done|apply Hc|]. right. exists F, w, (row_pend r). split; [done|].
    destruct Hh' as [_ _ Hl]. rewrite Hid in Hl. destruct Hl as [_ Hl]. split; [by apply Hl|].
    revert E. unfold ReservationRepo.try_terminate, ReservationRepo.transition. rewrite Hr, decide_True by done.
    intros [= <-] r' Hr'. simpl in Hr'. rewrite lookup_insert_eq in Hr'. by injection Hr' as <-.
  - assert (w = d') as -> by by apply transition_false in E.
    exists {[i]}, pzero. split; [set_solver|]. split; [apply effect_refl|]. intros Hin.
    apply (H2 F d' i); try done. intros r Hr Ha. revert E.
    unfold ReservationRepo.try_terminate, ReservationRepo.transition. by rewrite Hr, decide_True.
Qed.

Lemma release_leg_ge h held a :
  at_axis held a - at_axis (user_leg h) a <= at_axis (release_leg h held) a.
Proof.
  unfold release_leg, user_leg. destruct a; simpl; [apply release_expression_ge| |].
  - destruct (token_estimate h =? 0) eqn:E; reflect_bools; [lia|apply release_expression_ge].
  - destruct (request_estimate h =? 0) eqn:E; reflect_bools; [lia|apply release_expression_ge].
Qed.

Lemma release_shape ids h : exists f, takes (fun t d => (inr tt, f t d)) (ceiling_pend ids h) /\
  (release ids h false = (Ret tt ;;! update f ;;! Ret tt) \/ release ids h false = Ret tt) \/ ~ held_nonneg h.
Proof.
  exists (fun t => CeilingRepo.release_holds t ids h).
  destruct (decide (0 <= amount h)), (decide (0 <= tokens h)), (decide (0 <= requests h));
    try (right; intros Hn; pose proof (Hn Usd); pose proof (Hn Tok); pose proof (Hn Req); simpl in *; lia).
  left. split; [apply takes_release; by apply mkHeld_nonneg|].
  unfold release. destruct (_ || _); auto.
Qed.

(** The transaction of a settlement, from its claim on. *)
Lemma wp_settle_tx h v d E R K X (user_update : prog unit) (ceilings : prog unit) held (Q : exn + unit -> view -> Prop)
    d_start v_start :
  spending v d E R K ->
  pnonneg (vp v) -> held_nonneg held ->
  handle_ok (vo v_start) (vp v_start) d_start h -> vo v = vo v_start -> vp v = vp v_start ->
  rely (vo v_start) d_start d ->
  pnonneg (psub (psub R X) (ceiling_pend (scoped_budget_ids h) held)) -> pnonneg X ->
  (exists (B : Type) (s : Z -> database -> (exn + B) * database), takes s X /\
     (user_update = (execute s ;;! Ret tt) \/ user_update = Ret tt)) ->
  (exists f, takes (fun t d => (inr tt, f t d)) (ceiling_pend (scoped_budget_ids h) held) /\
     (ceilings = (Ret tt ;;! update f ;;! Ret tt) \/ ceilings = Ret tt)) ->
  (match reservation_id h with Some i => (forall m, K m -> is_finished i m) /\ E <> ∅ | None => True end) ->
  settled_post h (vo v_start) Q ->
  wp ok (user_update ;;! ceilings ;;! commit) Q v.
Proof.
  intros Hs Hp Hh Hok0 Ho Hpv Hrel HR HX (B & s & Hts & Huser) Hceil HK HQ.
  assert (Hunch : forall e v1 d1 v2 d2, vo v1 = vo v -> vp v1 = vp v -> rely (vo v) d d1 ->
     unchanged v1 d1 v2 d2 -> fault_error e -> Q (inl e) v2).
  { intros e v1 d1 v2 d2 Ho1 Hp1 Hr1 (Hi & Ho2 & Hp2 & Hr2) He.
    apply (settled_unchanged h v_start d_start v2 d2); try done; [by rewrite <- Hpv| |by intros ? [= ->]].
    split; [done|]. split; [congruence|]. split; [congruence|].
    eapply evolves_trans; [exact Hrel|]. rewrite <- Ho. eapply evolves_trans; [exact Hr1|]. by rewrite <- Ho1. }
  assert (Hceilings : forall v1 d1, vo v1 = vo v -> vp v1 = vp v -> rely (vo v) d d1 ->
    spending v1 d1 E (psub R X) K -> wp ok (ceilings ;;! commit) Q v1).
  { intros v1 d1 Ho1 Hp1 Hr1 Hs1.
    apply (wp_finish_ceilings _ _ _ _ _ _ _ _ _ Hs1 Hh HR Hceil).
    - intros r v2 d2 Hi2 Ho2 Hp2 HK2 He2. apply (HQ _ _ d2); try done; [congruence|].
      intros Hid. destruct (reservation_id h) as [i|] eqn:Ei; [|done]. destruct HK as [HK HE].
      destruct HK2 as [HK2|HK2]; [done|].
      apply (finished_handle_ok i); [done|apply Hok0|apply Hok0| |by apply HK].
      pose proof (ho_legs _ _ _ _ Hok0) as Hl. rewrite Ei in Hl. rewrite Ho2, Ho1, Ho. apply Hl.
    - intros e v2 d2 Hun He. by apply (Hunch e v1 d1 v2 d2). }
  apply wp_bind. destruct Huser as [-> | ->].
  - apply wp_bind, (wp_spend _ _ _ _ _ _ _ _ Hs Hts).
    + intros b v1 d1 Ho1 Hp1 Hr1 Hs1. by apply (Hceilings v1 d1).
    + intros e v2 d2 Hun He. apply (Hunch e v d v2 d2); try done. apply evolves_refl.
  - apply (Hceilings v d); [done|done|apply evolves_refl|]. eapply spending_weaken; [|exact Hs]. pends.
Qed.

Lemma leg_pend_split h c a :
  leg_pend h c a - (if reserved h then user_pend (user_id h) (user_leg h) c a else 0)
    - ceiling_pend (scoped_budget_ids h) (scoped_leg h) c a = 0.
Proof. unfold leg_pend, padd. destruct (reserved h); unfold pzero; lia. Qed.

Lemma wp_refund h v d (Q : exn + unit -> view -> Prop) :
  idle v d -> pnonneg (vp v) -> handle_ok (vo v) (vp v) d h -> settled_post h (vo v) Q ->
  wp ok (refund_reservation h) Q v.
Proof.
  intros Hi Hp Hh HQ. unfold refund_reservation.
  apply wp_bind, (wp_defer (vo v) d v d); [by apply moved_refl|]. intros r x d1 Hm1 Herr.
  assert (Hun : unchanged v d (set_vt v x) d1) by (split; [apply Hm1|split; [done|split; [done|apply Hm1]]]).
  destruct r as [e|[]]; [by apply (settled_unchanged h v d _ d1)|].
  assert (Hh1 : handle_ok (vo v) (vp v) d1 h).
  { eapply handle_ok_later; [exact Hh|apply Hm1|done|apply ple_refl]. }
  assert (HQ1 : settled_post h (vo (set_vt v x)) Q) by done.
  apply wp_bind, (wp_claim h RESERVATION_RELEASED (set_vt v x) d1); [apply Hm1|done|done|done| | |].
  - intros v1 d2 Ho1 Hp1 Hr1 Hs1. cbn [negb].
    set (X := if reserved h then user_pend (user_id h) (user_leg h) else pzero).
    apply (wp_settle_tx h v1 d2 (claim_set h) (leg_pend h) (claim_rows h) X _ _ (scoped_leg h) Q d1 (set_vt v x));
      try done.
    + by rewrite Hp1.
    + apply Hh.
    + intros c a. pose proof (leg_pend_split h c a). subst X. unfold psub, pzero. destruct (reserved h); simpl in *; unfold pzero; lia.
    + subst X. destruct (reserved h); [apply user_pend_nonneg, Hh|apply ple_refl].
    + subst X. destruct (reserved h).
      * eexists _, _. split; [|by left]. apply takes_user; [apply Hh|]. intros us a. apply release_leg_ge.
      * exists unit, (fun _ d => (inr tt, d)). split; [|by right].
        apply (takes_nothing (fun _ d => d) tt). intros t w. split; [apply effect_refl|done].
    + destruct (release_shape (scoped_budget_ids h) (scoped_leg h)) as [f [Hf|Hf]]; [by exists f|].
      destruct Hf. apply Hh.
    + unfold claim_rows, claim_set. destruct (reservation_id h); [|done]. split; [done|set_solver].
  - intros F d2 i Hid Hc Hfin Hin. cbn [negb].
    assert (Hcl : forall r' (x' : tx_view), x' = VClean d2 \/ x' = VPoisoned d2 ->
      (forall e, r' = inl e -> fault_error e) -> Q r' (mkView x' (vp v) (vo v))).
    { intros r' x' Hx' He. assert (Hidle : idle (mkView x' (vp v) (vo v)) d2).
      { destruct Hx' as [-> | ->]; [by left|by right]. }
      apply (HQ _ _ d2 Hidle); [done|done| |done].
      intros _. apply (finished_handle_ok i); [done|apply Hh|apply Hh| |done].
      pose proof (ho_legs _ _ _ _ Hh) as Hl. rewrite Hid in Hl. apply Hl. }
    apply (wp_commit_tx ok OtherCommit _ _ _ _ _ _ (vp v) _ Hin); [done|pends| | |].
    + apply (Hcl _ (VClean d2)); [by left|done].
    + intros e He. apply (Hcl _ (VPoisoned d2)); [by right|by intros ? [= ->]].
    + intros _ e He. apply (Hcl _ (VPoisoned d2)); [by right|by intros ? [= ->]].
  - intros e v2 d2 Hun2 He. apply (settled_unchanged h (set_vt v x) d1 v2 d2); try done. by intros ? [= ->].
Qed.

Lemma settle_shape ids cost tok req h counts :
  held_nonneg h ->
  exists f, takes (fun t d => (inr tt, f t d)) (ceiling_pend ids h) /\
    (ScopedEnforcement.settle ids cost tok req h counts false = (Ret tt ;;! update f ;;! Ret tt)
     \/ ScopedEnforcement.settle ids cost tok req h counts false = Ret tt).
Proof.
  intros Hh.
  exists (fun t => CeilingRepo.settle t ids (if counts then mkHeld cost tok req else zero_held) h).
  split; [by apply takes_settle|]. unfold ScopedEnforcement.settle. destruct (_ || _); auto.
Qed.

Lemma wp_reconcile h cost tok v d (Q : exn + unit -> view -> Prop) :
  idle v d -> pnonneg (vp v) -> handle_ok (vo v) (vp v) d h -> settled_post h (vo v) Q ->
  wp ok (reconcile_reservation h cost tok) Q v.
Proof.
  intros Hi Hp Hh HQ. unfold reconcile_reservation.
  apply wp_bind, (wp_defer (vo v) d v d); [by apply moved_refl|]. intros r x d1 Hm1 Herr.
  assert (Hun : unchanged v d (set_vt v x) d1) by (split; [apply Hm1|split; [done|split; [done|apply Hm1]]]).
  destruct r as [e|[]]; [by apply (settled_unchanged h v d _ d1)|].
  assert (Hh1 : handle_ok (vo v) (vp v) d1 h).
  { eapply handle_ok_later; [exact Hh|apply Hm1|done|apply ple_refl]. }
  assert (HQ1 : settled_post h (vo (set_vt v x)) Q) by done.
  apply wp_bind, (wp_claim h RESERVATION_SETTLED (set_vt v x) d1); [apply Hm1|done|done|done| | |].
  - (* this call claimed the row, or there is none *)
    intros v1 d2 Ho1 Hp1 Hr1 Hs1. apply wp_bind. cbn [wp negb andb].
    set (X := if reserved h then user_pend (user_id h) (user_leg h) else pzero).
    apply (wp_settle_tx h v1 d2 (claim_set h) (leg_pend h) (claim_rows h) X _ _ (scoped_leg h) Q d1 (set_vt v x));
      try done.
    + by rewrite Hp1.
    + apply Hh.
    + intros c a. pose proof (leg_pend_split h c a). subst X. unfold psub, pzero.
      destruct (reserved h); simpl in *; unfold pzero; lia.
    + subst X. destruct (reserved h); [apply user_pend_nonneg, Hh|apply ple_refl].
    + eexists _, _. split; [|match goal with |- (if ?b then _ else _) = _ \/ _ => destruct b end; [by left|by right]].
      subst X. destruct (reserved h); simpl.
      * apply takes_user; [apply Hh|]. intros us a. simpl. apply release_leg_ge.
      * match goal with |- takes (fun t d => (inr (UserRows.update_user t ?u _ ?f d).1, _)) _ =>
          pose proof (takes_user u f zero_held held_nonneg_zero) as Ht end.
        intros t w. destruct (Ht ltac:(intros us a; destruct a; simpl; lia) t w) as (H1 & H2 & H3).
        split; [done|]. split; [|done]. eapply effect_weaken; [|exact H2].
        intros c a. unfold pneg, pzero, user_pend. case_decide; [destruct a; simpl; lia|lia].
    + apply settle_shape, Hh.
    + unfold claim_rows, claim_set. destruct (reservation_id h); [|done]. split; [done|set_solver].
  - (* another settlement, or the sweep, had it *)
    intros F d2 i Hid Hc Hfin Hin. apply wp_bind. rewrite Hid. unfold try_settle_reclaimed.
    pose proof (ho_legs _ _ _ _ Hh) as Hl. rewrite Hid in Hl. destruct Hl as [Hown _].
    assert (Hrel : rely (vo v) d d2) by (eapply evolves_trans; [apply Hm1|apply Hc]).
    apply (wp_execute_tx _ _ _ _ _ _ _ _ _ Hin).
    2: { intros e He. apply (settled_unchanged h v d (set_vt v (VPoisoned d2)) d2 Q); try done; [|by intros ? [= ->]].
         split; [by right|done]. }
    intros t. exists pzero. cbn [fst snd].
    split; [apply effect_settle_reclaimed; [exact (in_tx_wf _ _ _ _ _ _ Hin)|set_solver]|].
    intros Hin2. set (w2 := (ReservationRepo.try_settle_reclaimed i d2).2) in *.
    set (v1 := set_vt (set_vt (set_vt v x) (VDirty F d2 d2)) (VDirty F d2 w2)) in *.
    assert (Hfin2 : is_finished i (reservations w2)).
    { subst w2. unfold ReservationRepo.try_settle_reclaimed, ReservationRepo.transition.
      destruct (reservations d2 !! i) as [r|] eqn:Er; [|intros r' Hr'; by apply Hfin].
      case_decide; [|intros r' Hr'; by apply Hfin]. intros r' Hr'. simpl in Hr'.
      rewrite lookup_insert_eq in Hr'. by injection Hr' as <-. }
    assert (Hs1 : spending v1 d2 {[i]} (vp v) (is_finished i)).
    { right. exists F, w2, (padd pzero pzero).
      split; [exact Hin2|]. split; [|exact Hfin2]. simpl. pends. }
    destruct (ReservationRepo.try_settle_reclaimed i d2).1; cbn [negb andb].
    + rewrite andb_false_r, orb_false_r.
      apply (wp_settle_tx h v1 d2 {[i]} (vp v) (is_finished i) pzero _ _ zero_held Q d (set_vt v x));
        try done.
      * apply held_nonneg_zero.
      * intros c a. specialize (Hp c a). unfold psub, pzero. rewrite ceiling_pend_zero. unfold pzero in Hp. lia.
      * eexists _, _. split; [|match goal with |- (if ?b then _ else _) = _ \/ _ => destruct b end; [by left|by right]].
        cbv beta. simpl.
        match goal with |- takes (fun t d => (inr (UserRows.update_user t ?u _ ?f d).1, _)) _ =>
          pose proof (takes_user u f zero_held held_nonneg_zero) as Ht end.
        intros t' w. destruct (Ht ltac:(intros us a; destruct a; simpl; lia) t' w) as (H1 & H2 & H3).
        split; [done|]. split; [|done]. eapply effect_weaken; [|exact H2].
        intros c a. unfold pneg, pzero, user_pend. case_decide; [destruct a; simpl; lia|lia].
      * apply settle_shape, held_nonneg_zero.
      * rewrite Hid. split; [done|set_solver].
    + apply (wp_spend_commit _ _ _ _ _ _ Hs1 Hp).
      * intros r v2 d3 Hi2 Ho2 Hp2 HK2 He2. apply (HQ _ _ d3); try done; [by eapply pnonneg_ple|].
        intros _. destruct HK2 as [HK2|HK2]; [set_solver|].
        apply (finished_handle_ok i); [done|apply Hh|apply Hh|by rewrite Ho2|done].
      * intros e v2 d3 (Hi2 & Ho2 & Hp2 & Hr2) He.
        apply (settled_unchanged h v d v2 d3); try done; [|by intros ? [= ->]].
        split; [done|]. split; [done|]. split; [done|]. by eapply evolves_trans.
  - intros e v2 d2 Hun2 He. apply (settled_unchanged h (set_vt v x) d1 v2 d2); try done. by intros ? [= ->].
Qed.

End coverage.
