(* ===== verification/Growth.v ===== *)
(** Growing a hold keeps the handle sound: whatever [increase_reservation] and [hold_tool_call]
    return, settling the handle they leave releases no more than is held for it. *)
From S2P Require Import Prelude Periods Refusals Tables Repositories Session SessionLogic Margins.
From S2P Require Import ScopedEnforcement Ledger Reservations Coverage.
From stdpp Require Import gmap strings list fin_maps.
From Stdlib Require Import ZArith Lia.
Open Scope Z_scope.

(** A handle with no per-user hold holds nothing on its per-user leg. *)
Definition unreserved_empty (h : ReservationHandle) : Prop := reserved h = false -> user_leg h = zero_held.

Definition grown_scoped (h : ReservationHandle) (amt tok : Z) : ReservationHandle :=
  set_scoped_leg h (scoped_estimate h + amt) (scoped_token_estimate h + tok).

Definition grown_user (h x : ReservationHandle) : ReservationHandle :=
  set_user_leg h (estimate h + estimate x) (token_estimate h + token_estimate x) true.

Lemma scoped_leg_grown h amt tok : scoped_leg (grown_scoped h amt tok) = add_held (scoped_leg h) (mkHeld amt tok 0).
Proof. unfold scoped_leg, add_held. simpl. f_equal; lia. Qed.

Lemma user_leg_grown h x :
  user_leg (grown_user h x) = add_held (user_leg h) (mkHeld (estimate x) (token_estimate x) 0).
Proof. unfold user_leg, add_held. simpl. f_equal; lia. Qed.

Lemma leg_pend_grown_scoped h amt tok c a :
  leg_pend (grown_scoped h amt tok) c a =
    leg_pend h c a + ceiling_pend (scoped_budget_ids h) (mkHeld amt tok 0) c a.
Proof.
  unfold leg_pend, padd. rewrite scoped_leg_grown.
  change (scoped_budget_ids (grown_scoped h amt tok)) with (scoped_budget_ids h).
  change (user_leg (grown_scoped h amt tok)) with (user_leg h).
  rewrite ceiling_pend_add. simpl. lia.
Qed.

Lemma user_pend_add u h k c a : user_pend u (add_held h k) c a = user_pend u h c a + user_pend u k c a.
Proof. unfold user_pend. case_decide; [apply at_axis_add|lia]. Qed.

Lemma user_pend_zero u c a : user_pend u zero_held c a = 0.
Proof. unfold user_pend. case_decide; [by destruct a|done]. Qed.

Lemma leg_pend_grown_user h x c a :
  unreserved_empty h ->
  leg_pend (grown_user h x) c a =
    leg_pend h c a + user_pend (user_id h) (mkHeld (estimate x) (token_estimate x) 0) c a.
Proof.
  intros Hu. unfold leg_pend, padd. rewrite user_leg_grown.
  change (scoped_budget_ids (grown_user h x)) with (scoped_budget_ids h).
  change (scoped_leg (grown_user h x)) with (scoped_leg h).
  change (user_id (grown_user h x)) with (user_id h).
  change (reserved (grown_user h x)) with true. cbv iota.
  rewrite user_pend_add. destruct (reserved h) eqn:E; [lia|]. rewrite (Hu E), user_pend_zero. unfold pzero. lia.
Qed.

(** A handle whose legs grew by what its session took. *)
Lemma handle_ok_grown O P P' d h h' :
  handle_ok O P d h -> user_id h' = user_id h -> scoped_budgets h' = scoped_budgets h ->
  reservation_id h' = reservation_id h -> held_nonneg (user_leg h') -> held_nonneg (scoped_leg h') ->
  ple (padd P (psub (leg_pend h') (leg_pend h))) P' -> handle_ok O P' d h'.
Proof.
  intros [H1 H2 H3] Hu Hs Hid Hnu Hns HP. split; [done|done|]. rewrite Hid.
  destruct (reservation_id h) as [i|]; [|pends].
  destruct H3 as [Hi H3]. split; [done|]. intros r Hr Ha. destruct (H3 r Hr Ha) as [[R1 R2] R3 R4].
  split; [split; [congruence|]|done|pends]. rewrite R2. unfold scoped_budget_ids. by rewrite Hs.
Qed.

Lemma handle_ok_grown_scoped O P P' d h amt tok :
  handle_ok O P d h -> 0 <= amt -> 0 <= tok ->
  ple (padd P (ceiling_pend (scoped_budget_ids h) (mkHeld amt tok 0))) P' ->
  handle_ok O P' d (grown_scoped h amt tok).
Proof.
  intros Hh Ha Ht HP. eapply handle_ok_grown; [exact Hh|done|done|done|apply Hh| |].
  - rewrite scoped_leg_grown. apply held_nonneg_add; [apply Hh|apply mkHeld_nonneg; lia].
  - intros c a. specialize (HP c a). unfold padd, psub in *. rewrite leg_pend_grown_scoped. lia.
Qed.

Lemma handle_ok_grown_user O P P' d h x :
  handle_ok O P d h -> unreserved_empty h -> held_nonneg (user_leg x) ->
  ple (padd P (user_pend (user_id h) (mkHeld (estimate x) (token_estimate x) 0))) P' ->
  handle_ok O P' d (grown_user h x).
Proof.
  intros Hh Hu Hx HP. eapply handle_ok_grown; [exact Hh|done|done|done| |apply Hh|].
  - rewrite user_leg_grown. apply held_nonneg_add; [apply Hh|].
    pose proof (Hx Usd). pose proof (Hx Tok). apply mkHeld_nonneg; simpl in *; lia.
  - intros c a. specialize (HP c a). unfold padd, psub in *. rewrite leg_pend_grown_user by done. lia.
Qed.

Lemma grow_row i ud grew sd td std d w r u ids :
  ReservationRepo.grow i ud grew sd td std d = (true, w) -> reservations d !! i = Some r -> rows_wf d ->
  row_shape u ids r -> 0 <= ud -> 0 <= sd -> 0 <= td -> 0 <= std ->
  (grew = false -> ud = 0 /\ td = 0) -> (user_reserved r = false -> row_held r = zero_held) ->
  exists r', reservations w !! i = Some r' /\ row_shape u ids r' /\ (user_reserved r' = false -> row_held r' = zero_held)
    /\ ple (padd (row_pend r) (grow_pend u ids (mkHeld ud td 0) (mkHeld sd std 0))) (row_pend r').
Proof.
  intros Hg Hr Hd [Hu Hids] Hud Hsd Htd Hstd Hgrew Hres. revert Hg. unfold ReservationRepo.grow. rewrite Hr.
  destruct (decide _) as [Ha|]; [|done]. intros [= <-]. destruct (Hd i r Hr) as [[Hh Hl] Hin].
  eexists. split; [apply lookup_insert_eq|]. split; [|split].
  - split; cbn; [done|]. rewrite <- Hids. destruct (_ || _); [|done]. rewrite <- list_fmap_compose. done.
  - cbn. destruct grew; [done|]. intros E. rewrite (Hres E). destruct (Hgrew eq_refl) as [-> ->]. done.
  - intros c a. unfold padd, row_pend, grow_pend, padd. destruct c as [u'|s]; unfold row_holds, user_pend.
    + cbn [row_user_id user_reserved row_held ceiling_pend]. rewrite Hu.
      destruct (decide (CUser u' = CUser u)) as [Heq|Hne].
      * injection Heq as ->. rewrite bool_decide_eq_true_2 by done. rewrite at_axis_add.
        destruct grew; simpl.
        -- destruct (user_reserved r) eqn:Er; [lia|]. rewrite Hres by done. destruct a; simpl; lia.
        -- destruct (Hgrew eq_refl) as [-> ->]. destruct (user_reserved r); destruct a; simpl; lia.
      * rewrite bool_decide_eq_false_2 by congruence. simpl. lia.
    + rewrite decide_False by done. cbn [lines].
      destruct ((0 <? sd) || (0 <? std)) eqn:E.
      * rewrite lines_hold_grow by done. rewrite Hids. lia.
      * reflect_bools. assert (sd = 0) as -> by lia. assert (std = 0) as -> by lia.
        pose proof (ceiling_pend_zero ids (CCeiling s) a) as Hz.
        change (mkHeld 0 0 0) with zero_held. lia.
Qed.

Lemma grow_active i ud grew sd td std d w :
  ReservationRepo.grow i ud grew sd td std d = (true, w) ->
  exists r, reservations d !! i = Some r /\ status r = RESERVATION_ACTIVE.
Proof.
  unfold ReservationRepo.grow. destruct (reservations d !! i) as [r|]; [|by intros [=]].
  case_decide; [eauto|by intros [=]].
Qed.

Lemma grow_refused i ud grew sd td std d w :
  ReservationRepo.grow i ud grew sd td std d = (false, w) -> is_finished i (reservations d).
Proof.
  unfold ReservationRepo.grow. intros H r Hr. rewrite Hr in H. by case_decide.
Qed.

Section growth.
Context {ok : policy}.

(** The guard of a ledger row, for a handle whose legs have already grown. *)
Lemma wp_grow h ud grew sd td std P0 v d (Q : exn + bool -> view -> Prop) :
  idle v d -> pnonneg (vp v) -> handle_ok (vo v) (vp v) d h ->
  0 <= ud -> 0 <= sd -> 0 <= td -> 0 <= std -> (grew = false -> ud = 0 /\ td = 0) -> pnonneg P0 ->
  ple (padd P0 (grow_pend (user_id h) (scoped_budget_ids h) (mkHeld ud td 0) (mkHeld sd std 0))) (vp v) ->
  (forall (r : exn + bool) v' d', idle v' d' -> pnonneg (vp v') -> vo v' = vo v -> handle_ok (vo v') (vp v') d' h ->
     match r with
     | inr true => True
     | inr false => False
     | inl e => fault_error e
     end -> Q r v') ->
  (forall i v' F d', reservation_id h = Some i -> vo v' = vo v -> vp v' = vp v ->
     in_tx v' ∅ F d' d' pzero -> is_finished i (reservations d') -> Q (inr false) v') ->
  wp ok (grow (reservation_id h) ud grew sd td std) Q v.
Proof.
  intros Hi Hp Hh Hud Hsd Htd Hstd Hgrew HP0 Hle HQ HQ'. pose proof (moved_refl v d Hi Hp) as Hm.
  set (G := grow_pend _ _ _ _) in *.
  assert (HG : pnonneg G).
  { pose proof (user_pend_nonneg (user_id h) (mkHeld ud td 0) (mkHeld_nonneg _ _ _ Hud Htd (Z.le_refl 0))).
    pose proof (ceiling_pend_nonneg (scoped_budget_ids h) (mkHeld sd std 0) (mkHeld_nonneg _ _ _ Hsd Hstd (Z.le_refl 0))).
    subst G. unfold grow_pend. pends. }
  unfold grow. destruct (reservation_id h) as [i|] eqn:Hid; [|by apply (HQ _ _ d)].
  pose proof (ho_legs _ _ _ _ Hh) as Hl. rewrite Hid in Hl. destruct Hl as [Hown _].
  apply wp_bind, (wp_execute_idle _ _ _ d); [done| |].
  2: { intros e He. apply (HQ _ _ d); try done; by right. }
  intros F d2 t Hv Hc. pose proof (moved_current _ _ _ _ _ _ Hm Hc) as Hm2.
  pose proof (proj1 (proj2 (proj2 Hc))) as Hwf.
  assert (Hh2 : handle_ok (vo v) (vp v) d2 h) by by apply (handle_ok_moved _ _ _ _ _ _ Hh Hm2 (ple_refl _)).
  destruct (ReservationRepo.grow i ud grew sd td std d2) as [[] w] eqn:E; cbn [fst snd].
  - destruct (grow_active _ _ _ _ _ _ _ _ E) as (r & Hr & Ha).
    pose proof (ho_legs _ _ _ _ Hh2) as Hl. rewrite Hid in Hl. destruct (proj2 Hl r Hr Ha) as [R1 R2 R3].
    destruct (effect_grow {[i]} d2 w i r _ _ ud grew sd td std Hr Hwf ltac:(set_solver) R1 Hud Hsd Htd Hstd Hgrew R2 E)
      as [He _].
    destruct (grow_row _ _ _ _ _ _ _ _ _ _ _ E Hr Hwf R1 Hud Hsd Htd Hstd Hgrew R2) as (r' & Hr' & R1' & R2' & R3').
    exists {[i]}, (pneg G). split; [set_solver|]. split; [exact He|]. intros Hin.
    assert (HP : pnonneg (psub (vp v) G)) by pends.
    assert (HP' : pnonneg (psub (vp v) G)) by pends.
    assert (Hdone : forall x, handle_ok (vo v) (psub (vp v) G) w h
      /\ (x = VClean w \/ x = VPoisoned w -> idle (mkView x (psub (vp v) G) (vo v)) w)).
    { intros x. split; [|by intros [-> | ->]; [left|right]]. split; [apply Hh|apply Hh|]. rewrite Hid.
      split; [done|]. intros r0 Hr0 Ha0. simplify_eq. split; [done|done|].
      clear HQ Hh Hh2 Hl Hm Hm2 He Hin. subst G. pends. }
    apply wp_bind, (wp_commit_tx ok OtherCommit _ _ _ _ _ _ (psub (vp v) G) _ Hin); [done|pends| | |].
    + destruct (Hdone (VClean w)). apply (HQ _ _ w); auto.
    + intros e Hf. apply (HQ _ (set_vt v (VPoisoned d2)) d2); [by right|done|done|done|done].
    + intros _ e Hf. destruct (Hdone (VPoisoned w)). apply (HQ _ _ w); auto.
  - apply grow_refused in E as Hf. apply grow_false in E as ->.
    exists ∅, pzero. split; [set_solver|]. split; [apply effect_refl|]. intros Hin.
    by apply (HQ' i _ F d2).
Qed.

Lemma is_finished_later i O d d' :
  rely O d d' -> i ∈ O -> is_finished i (reservations d) -> is_finished i (reservations d').
Proof.
  intros Hr Hi Hf r Hr'. destruct (ev_descends _ _ _ Hr i Hi r Hr') as (r0 & Hr0 & [-> |[_ ->]]); [|done].
  by apply Hf.
Qed.

(** The row has been terminated by the sweep; [R] is held for it still. *)
Definition late (i : nat) (v : view) (R : pend) : Prop :=
  i ∈ vo v /\ ple R (vp v) /\
  exists d, is_finished i (reservations d) /\ (idle v d \/ exists F, in_tx v ∅ F d d pzero).

Lemma wp_late_release {B} (s : Z -> database -> (exn + B) * database) X i v R (Q : exn + unit -> view -> Prop) :
  late i v R -> takes s X -> pnonneg X -> pnonneg (psub R X) ->
  (forall r v', vo v' = vo v -> late i v' (psub R X) -> (exists d, idle v' d) ->
     (forall e, r = inl e -> fault_error e) -> Q r v') ->
  wp ok (defer_commit_flush ;;! execute s ;;! commit) Q v.
Proof.
  intros (Hi & HR & d & Hf & Hs) Ht HX HRX HQ.
  assert (Hfail : forall e d', fault_error e -> is_finished i (reservations d') ->
    Q (inl e) (set_vt v (VPoisoned d'))).
  { intros e d' He Hf'. assert (idle (set_vt v (VPoisoned d')) d') by by right.
    apply HQ; [done| |by exists d'|by intros ? [= ->]]. split; [done|]. split; [pends|]. exists d'. auto. }
  assert (Hcommit : forall F d1 w delta, is_finished i (reservations d1) -> is_finished i (reservations w) ->
    ple (pneg X) delta -> in_tx (set_vt v (VDirty F d1 w)) ∅ F d1 w delta ->
    wp ok commit Q (set_vt v (VDirty F d1 w))).
  { intros F d1 w delta Hf1 Hfw Hle Hin.
    assert (Hend : forall r (x : tx_view), x = VClean w \/ x = VPoisoned w ->
      (forall e, r = inl e -> fault_error e) -> Q r (mkView x (psub R X) (vo v))).
    { intros r x Hx Hr. assert (idle (mkView x (psub R X) (vo v)) w) by (destruct Hx as [-> | ->]; [by left|by right]).
      apply HQ; [done| |by exists w|done]. split; [done|]. split; [apply ple_refl|]. exists w. auto. }
    apply (wp_commit_tx ok OtherCommit _ _ _ _ _ _ (psub R X) _ Hin); [done|pends| | |].
    - apply Hend; [by left|done].
    - intros e He. by apply Hfail.
    - intros _ e He. apply Hend; [by right|by intros ? [= ->]]. }
  apply wp_bind. destruct Hs as [Hs|[F Hin]].
  - apply (wp_query_idle _ _ _ d); [done| |intros e He; by apply Hfail].
    intros F d1 t Hv Hc. pose proof (is_finished_later i (vo v) d d1 (proj1 Hc) Hi Hf) as Hf1.
    apply wp_bind, (wp_execute_idle _ _ _ d1); [by left| |intros e He; by apply Hfail].
    intros F2 d2 t2 _ Hc2. pose proof (is_finished_later i (vo v) d1 d2 (proj1 Hc2) Hi Hf1) as Hf2.
    destruct (Ht t2 d2) as ([b Hb] & He & Hres). destruct (s t2 d2) as [r w]. simpl in *. subst r.
    exists ∅, (pneg X). split; [set_solver|]. split; [done|]. intros Hin.
    apply (Hcommit F2 d2 w (pneg X)); [done|by rewrite Hres|apply ple_refl|done].
  - assert (Hv : v = set_vt v (VDirty F d d)) by (destruct v; simpl; by rewrite <- (it_view _ _ _ _ _ _ Hin)).
    apply (wp_query_tx _ _ _ _ _ _ _ _ _ Hin); [|intros e He; by apply Hfail].
    intros t. apply wp_bind, (wp_execute_tx _ _ _ _ _ _ _ _ _ Hin); [|intros e He; by apply Hfail].
    intros t2. destruct (Ht t2 d) as ([b Hb] & He & Hres). destruct (s t2 d) as [r w]. simpl in *. subst r.
    exists (pneg X). split; [done|]. intros Hin2.
    apply (Hcommit F d w (padd pzero (pneg X))); [done|by rewrite Hres| |exact Hin2]. pends.
Qed.

(** [h] is [h'] with no more on either leg. *)
Record smaller (h h' : ReservationHandle) : Prop := {
  sm_user_id : user_id h' = user_id h;
  sm_scoped : scoped_budgets h' = scoped_budgets h;
  sm_id : reservation_id h' = reservation_id h;
  sm_user : held_nonneg (user_leg h);
  sm_scoped_leg : held_nonneg (scoped_leg h);
  sm_legs : ple (leg_pend h) (leg_pend h')
}.

Lemma smaller_refl h : held_nonneg (user_leg h) -> held_nonneg (scoped_leg h) -> smaller h h.
Proof. intros. split; try done. apply ple_refl. Qed.

Lemma smaller_ok O P d h h' : smaller h h' -> handle_ok O P d h' -> handle_ok O P d h.
Proof.
  intros [E1 E2 E3 E4 E5 E6] [H1 H2 H3]. split; [done|done|]. rewrite E3 in H3.
  destruct (reservation_id h) as [i|]; [|pends]. destruct H3 as [Hi H3]. split; [done|].
  intros r Hr Ha. destruct (H3 r Hr Ha) as [[R1 R2] R3 R4]. split; [split; [congruence|]|done|pends].
  rewrite R2. unfold scoped_budget_ids. by rewrite E2.
Qed.

(** What a budget's refusal leaves of a growing handle: at most its ceilings' growth, still in
    flight on top of [P0], which backs the handle as it was. *)
Definition refused_growth (P0 : pend) (h h' : ReservationHandle) (v' : view) (d' : database) : Prop :=
  handle_ok (vo v') P0 d' h /\ exists amt tok, 0 <= amt /\ 0 <= tok /\ h' = grown_scoped h amt tok
    /\ ple (padd P0 (ceiling_pend (scoped_budget_ids h) (mkHeld amt tok 0))) (vp v').

(** What a growing handle's session keeps, whatever came back: the handle it leaves is sound,
    and so is the one it began with. *)
Definition grown_post (P0 : pend) (h : ReservationHandle)
    (Q : exn + (ReservationHandle * option exn) -> view -> Prop) : Prop :=
  forall h' e v' d', idle v' d' -> pnonneg (vp v') -> handle_ok (vo v') (vp v') d' h' ->
    handle_ok (vo v') (vp v') d' h -> unreserved_empty h' -> reservation_id h' = reservation_id h ->
    (forall e', e = Some e' -> is_http_exception e' = true -> refused_growth P0 h h' v' d') ->
    Q (inr (h', e)) v'.

Lemma fault_not_http e : fault_error e -> is_http_exception e = false.
Proof. by destruct 1. Qed.

Lemma wp_or_raised {A} h (p : prog A) f v (Q : exn + (ReservationHandle * option exn) -> view -> Prop) :
  wp ok p (fun r v' => match r with
    | inl e => Q (inr (h, Some e)) v'
    | inr x => wp ok (f x) Q v'
    end) v ->
  wp ok (or_raised h p f) Q v.
Proof.
  intros H. unfold or_raised. apply wp_bind, wp_attempt. eapply wp_mono; [exact H|].
  intros [e|x] v' Hv; exact Hv.
Qed.

Lemma late_post i base P h' v R e Q :
  late i v R -> (exists d, idle v d) -> pnonneg R -> reservation_id base = Some i -> grown_post P base Q ->
  held_nonneg (user_leg base) -> held_nonneg (scoped_leg base) ->
  reservation_id h' = Some i -> held_nonneg (user_leg h') -> held_nonneg (scoped_leg h') ->
  unreserved_empty h' -> (forall e', e = Some e' -> fault_error e') -> Q (inr (h', e)) v.
Proof.
  intros (Hi & HR & d & Hf & Hs) [d0 H0] Hn Hid HQ Hub Hsb Hid' Hu Hsc He Hex.
  assert (idle v d) as Hd.
  { destruct Hs as [Hs|[F Hin]]; [done|]. exfalso. pose proof (it_view _ _ _ _ _ _ Hin) as Hv.
    destruct H0 as [H0|H0]; by rewrite Hv in H0. }
  apply (HQ _ _ _ d); [done|by eapply pnonneg_ple| | |done|congruence|].
  - by apply (finished_handle_ok i).
  - by apply (finished_handle_ok i).
  - intros e' -> H. by rewrite (fault_not_http e') in H by by apply Hex.
Qed.

(** The row turned out reclaimed: the delta goes back. *)
Lemma wp_return_delta i base P h delta amt tok P0 v (Q : exn + (ReservationHandle * option exn) -> view -> Prop) :
  let du x := mkHeld (estimate x) (token_estimate x) 0 in
  late i v (padd P0 (padd (match delta with Some x => user_pend (user_id h) (du x) | None => pzero end)
                          (ceiling_pend (scoped_budget_ids h) (mkHeld amt tok 0)))) ->
  pnonneg P0 -> reservation_id h = Some i -> grown_post P base Q -> smaller base h -> 0 <= amt -> 0 <= tok ->
  amt <= scoped_estimate h -> tok <= scoped_token_estimate h ->
  (match delta with
   | Some x => reserved h = true /\ 0 <= estimate x <= estimate h /\ 0 <= token_estimate x <= token_estimate h
   | None => 0 < amt \/ 0 < tok
   end) ->
  scoped_budgets h <> [] \/ (amt = 0 /\ tok = 0) ->
  held_nonneg (user_leg h) -> held_nonneg (scoped_leg h) -> unreserved_empty h ->
  wp ok (return_delta h delta amt tok) Q v.
Proof.
  intros du Hl HP0 Hid HQ Hsm Ha Ht Hae Hte Hd Hsc Hu Hs He. unfold return_delta.
  destruct Hsm as [B1 B2 B3 B4 B5 _]. assert (Hidb : reservation_id base = Some i) by congruence.
  set (C := ceiling_pend _ _) in *. set (U := match delta with Some x => _ | None => _ end) in *.
  assert (HC : pnonneg C) by (apply ceiling_pend_nonneg, mkHeld_nonneg; lia).
  assert (HU : pnonneg U).
  { subst U. destruct delta as [x|]; [|apply ple_refl]. apply user_pend_nonneg, mkHeld_nonneg; simpl; lia. }
  (* from the per-user leg on *)
  assert (Hrest : forall h' v', late i v' (padd P0 U) -> (delta = None -> exists d, idle v' d) ->
    user_id h' = user_id h -> reservation_id h' = Some i -> reserved h' = reserved h -> user_leg h' = user_leg h ->
    held_nonneg (scoped_leg h') ->
    wp ok (match delta with
      | None => Ret (h', None)
      | Some x =>
          or_raised h'
            (defer_commit_flush ;;!
             update_rowcount (fun t => UserRows.update_user t (user_id h') (fun _ => true) (fun u =>
               (user_used u,
                mkHeld (release_expression (amount (user_held u)) (estimate x))
                  (if token_estimate x =? 0 then tokens (user_held u)
                   else release_expression (tokens (user_held u)) (token_estimate x))
                  (requests (user_held u))))) ;;!
             commit)
            (fun _ => Ret (set_user_leg h' (estimate h' - estimate x) (token_estimate h' - token_estimate x)
               (reserved h'), None))
      end) Q v').
  { intros h' v' Hl' Hidle Huid Hid' Hres Huser Hsc'.
    assert (Hleg : held_nonneg (user_leg h')) by by rewrite Huser.
    destruct delta as [x|].
    - destruct Hd as (Hr & Hx1 & Hx2). apply wp_or_raised.
      apply (wp_late_release _ U i _ (padd P0 U)); [done| |done|pends|].
      + subst U. rewrite <- Huid. apply takes_user; [apply mkHeld_nonneg; simpl; lia|].
        intros us a. destruct a; simpl; [apply release_expression_ge| |lia].
        destruct (token_estimate x =? 0) eqn:E; reflect_bools; [lia|apply release_expression_ge].
      + intros r v2 Ho2 Hl2 Hidle2 Hr2. injection Huser as E1 E2 E3.
        pose proof (Hu Usd). pose proof (Hu Tok). pose proof (Hu Req). simpl in *.
        destruct r as [e|[]]; eapply (late_post i base P); try done; try pends; try (intros ?; simpl in *; congruence).
        { intros e' [= <-]. by apply Hr2. }
        apply mkHeld_nonneg; simpl; lia.
    - apply (late_post i base P h' v' (padd P0 U) None Q); try done; [by apply Hidle|pends|].
      intros E. rewrite Huser. apply He. congruence. }
  destruct ((0 <? amt) || (0 <? tok)) eqn:E; reflect_bools.
  - apply wp_or_raised. unfold release.
    destruct (bool_decide _ || _) eqn:E2.
    { exfalso. destruct Hsc as [Hsc|]; [|lia]. apply orb_true_iff in E2 as [E2|E2].
      - apply bool_decide_eq_true in E2. by apply fmap_nil_inv in E2.
      - revert E2. unfold any_positive. simpl. intros E2. reflect_bools; lia. }
    apply (wp_late_release _ C i _ (padd P0 (padd U C))); [done| |done|pends|].
    + apply takes_release, mkHeld_nonneg; lia.
    + intros r v' Ho Hl' Hidle Hr. destruct r as [e|[]].
      * eapply (late_post i base P); try done; [pends|]. intros e' [= <-]. by apply Hr.
      * apply Hrest; try done.
        -- destruct Hl' as (H1 & H2 & H3). split; [done|]. split; [pends|done].
        -- pose proof (Hs Req). apply mkHeld_nonneg; simpl in *; lia.
  - apply wp_or_raised. cbn [wp]. apply Hrest; try done.
    + destruct Hl as (H1 & H2 & H3). split; [done|]. split; [pends|done].
    + intros ->. lia.
Qed.

(** The ledger's guard and what follows it, both legs' growth already on the handle. *)
Lemma wp_grow_row base P h delta amt tok P0 v d (Q : exn + (ReservationHandle * option exn) -> view -> Prop) :
  let du x := mkHeld (estimate x) (token_estimate x) 0 in
  idle v d -> pnonneg (vp v) -> handle_ok (vo v) (vp v) d h -> unreserved_empty h -> pnonneg P0 ->
  grown_post P base Q -> smaller base h -> 0 <= amt -> 0 <= tok -> amt <= scoped_estimate h -> tok <= scoped_token_estimate h ->
  (match delta with
   | Some x => reserved h = true /\ 0 <= estimate x <= estimate h /\ 0 <= token_estimate x <= token_estimate h
   | None => 0 < amt \/ 0 < tok
   end) ->
  scoped_budgets h <> [] \/ (amt = 0 /\ tok = 0) ->
  ple (padd P0 (padd (match delta with Some x => user_pend (user_id h) (du x) | None => pzero end)
                     (ceiling_pend (scoped_budget_ids h) (mkHeld amt tok 0)))) (vp v) ->
  wp ok (or_raised h
    (grow (reservation_id h) (match delta with Some x => estimate x | None => 0 end) (is_set delta) amt
       (match delta with Some x => token_estimate x | None => 0 end) tok)
    (fun grown => if grown then Ret (h, None) else return_delta h delta amt tok)) Q v.
Proof.
  intros du Hi Hp Hh He HP0 HQ Hsm Ha Ht Hae Hte Hd Hsc Hle. apply wp_or_raised.
  assert (Hud : 0 <= match delta with Some x => estimate x | None => 0 end) by (destruct delta; lia).
  assert (Htd : 0 <= match delta with Some x => token_estimate x | None => 0 end) by (destruct delta; lia).
  apply (wp_grow h _ _ _ _ _ P0 v d); try done.
  - intros Hn. by destruct delta.
  - intros c a. specialize (Hle c a). unfold padd, grow_pend, padd in *. destruct delta as [x|]; [done|].
    change (mkHeld 0 0 0) with zero_held. rewrite user_pend_zero. by unfold pzero in Hle.
  - intros r v' d' Hi' Hp' Ho' Hh' Hr. destruct r as [e|[]].
    + apply (HQ _ _ _ d'); try done; [by eapply smaller_ok|apply Hsm|].
      intros e' [= <-] H. by rewrite (fault_not_http e Hr) in H.
    + apply (HQ _ _ _ d'); try done; [by eapply smaller_ok|apply Hsm].
    + destruct Hr.
  - intros i v' F d' Hid Ho' Hp' Hin Hf. apply (wp_return_delta i base P h delta amt tok P0); try done; try apply Hh.
    split; [|split; [by rewrite Hp'|exists d'; split; [done|right; by exists F]]].
    pose proof (ho_legs _ _ _ _ Hh) as Hl. rewrite Hid in Hl. rewrite Ho'. apply Hl.
Qed.

Lemma wp_increase h new_estimate new_tokens free strategy v d
    (Q : exn + (ReservationHandle * option exn) -> view -> Prop) :
  ok LedgerRecord = false ->
  idle v d -> pnonneg (vp v) -> handle_ok (vo v) (vp v) d h -> unreserved_empty h -> grown_post (vp v) h Q ->
  wp ok (increase_reservation h new_estimate new_tokens free strategy) Q v.
Proof.
  intros Hok Hi Hp Hh He HQ. unfold increase_reservation. cbv zeta.
  set (size := Z.max new_estimate 0). set (size_tokens := Z.min (Z.max new_tokens 0) MAX_COUNT_LIMIT).
  set (scoped := negb (bool_decide (scoped_budgets h = []))).
  set (amt := if scoped then _ else 0). set (tok := if scoped then Z.max (size_tokens - _) 0 else 0).
  assert (Hsc : scoped_budgets h <> [] \/ (amt = 0 /\ tok = 0)).
  { subst amt tok scoped. destruct (bool_decide _) eqn:E; [by right|]. left. by apply bool_decide_eq_false in E. }
  assert (0 <= amt) by (subst amt; destruct scoped; lia). assert (0 <= tok) by (subst tok; destruct scoped; lia).
  pose proof (smaller_refl h (ho_user _ _ _ _ Hh) (ho_scoped _ _ _ _ Hh)) as Hsm.
  destruct (_ && (Z.max (size_tokens - token_estimate h) 0 =? 0)); [by apply (HQ _ _ _ d)|].
  destruct (negb (counts_toward_budget h)); [by apply (HQ _ _ _ d)|].
  set (C := ceiling_pend (scoped_budget_ids h) (mkHeld amt tok 0)).
  assert (HC : pnonneg C) by (apply ceiling_pend_nonneg, mkHeld_nonneg; lia).
  (* from the per-user leg on *)
  set (h1 := grown_scoped h amt tok).
  assert (Hsm1 : smaller h h1).
  { destruct Hsm. split; try done. intros c a. unfold h1. rewrite leg_pend_grown_scoped.
    specialize (HC c a). unfold C, pzero in HC. lia. }
  assert (Ha1 : amt <= scoped_estimate h1) by (pose proof (ho_scoped _ _ _ _ Hh Usd); simpl in *; lia).
  assert (Ht1 : tok <= scoped_token_estimate h1) by (pose proof (ho_scoped _ _ _ _ Hh Tok); simpl in *; lia).
  assert (Hrest : forall v1 d1, moved (vo v) d v1 d1 -> ple (padd (vp v) C) (vp v1) ->
    wp ok
      (or_raised h1
         (if (0 <? Z.max (size - estimate h) 0) || (0 <? Z.max (size_tokens - token_estimate h) 0)
          then let! x := reserve_budget (top_up_args h1 (Z.max (size - estimate h) 0)
                           (Z.max (size_tokens - token_estimate h) 0) free strategy) in
               Ret (if reserved x then Some x else None)
          else Ret None)
         (fun delta =>
            let h := match delta with
                     | Some x => set_user_leg h1 (estimate h1 + estimate x) (token_estimate h1 + token_estimate x) true
                     | None => h1
                     end in
            if negb (is_set delta) && (amt <=? 0) && (tok =? 0) then Ret (h, None)
            else
              let d_usd := match delta with Some x => estimate x | None => 0 end in
              let d_tok := match delta with Some x => token_estimate x | None => 0 end in
              or_raised h
                (grow (reservation_id h) d_usd (is_set delta) amt d_tok tok)
                (fun grown => if grown then Ret (h, None) else return_delta h delta amt tok))) Q v1).
  { intros v1 d1 Hm1 Hp1. apply wp_or_raised.
    assert (Hh0 : handle_ok (vo v1) (vp v) d1 h).
    { eapply handle_ok_later; [exact Hh|apply Hm1|apply Hm1|apply ple_refl]. }
    assert (Hh1 : handle_ok (vo v1) (vp v1) d1 h1) by by apply (handle_ok_grown_scoped _ (vp v)).
    assert (He1 : unreserved_empty h1) by exact He.
    assert (Hsc1 : scoped_budgets h1 <> [] \/ (amt = 0 /\ tok = 0)) by exact Hsc.
    assert (Hids : scoped_budget_ids h1 = scoped_budget_ids h) by done.
    assert (Hnone : forall v2 d2, moved (vo v1) d1 v2 d2 -> ple (vp v1) (vp v2) ->
      wp ok (if negb (is_set (@None ReservationHandle)) && (amt <=? 0) && (tok =? 0) then Ret (h1, None)
             else or_raised h1 (grow (reservation_id h1) 0 (is_set (@None ReservationHandle)) amt 0 tok)
                    (fun grown => if grown then Ret (h1, None) else return_delta h1 None amt tok)) Q v2).
    { intros v2 d2 Hm2 Hp2. pose proof (handle_ok_moved _ _ _ _ _ _ Hh1 Hm2 Hp2) as Hh2.
      destruct (negb _ && _ && _) eqn:E.
      { apply (HQ _ _ _ d2); try done; [apply Hm2|apply Hm2|by eapply smaller_ok]. }
      apply (wp_grow_row h (vp v) h1 None amt tok (vp v) v2 d2); try done; try apply Hm2.
      - revert E. simpl. intros E. reflect_bools; lia.
      - rewrite Hids. fold C. pends. }
    destruct (_ || _).
    2: { cbn [wp]. apply (Hnone v1 d1); [|apply ple_refl]. by apply (moved_refl v1 d1); apply Hm1. }
    apply wp_bind, (wp_reserve_budget _ (vo v1) d1 v1 d1 _ Hok); [by apply (moved_refl v1 d1); apply Hm1|].
    split.
    2: { intros e v2 d2 Hm2 Hp2. pose proof (handle_ok_moved _ _ _ _ _ _ Hh1 Hm2 Hp2) as Hh2.
      apply (HQ _ _ _ d2); try done; [apply Hm2|apply Hm2|by eapply smaller_ok|]. intros e' _ _. split.
      - eapply handle_ok_later; [exact Hh0|apply Hm2|apply Hm2|apply ple_refl].
      - exists amt, tok. do 3 (split; [done|]). by eapply ple_trans. }
    intros x v2 d2 Hm2 Hnew Hux Hux0 Hxs Hxid. cbn [wp]. destruct (reserved x) eqn:Er.
    2: { apply (Hnone v2 d2 Hm2). apply Hnew. }
    destruct Hnew as [Nu Ns Nk Nl]. rewrite (Hxid eq_refl) in Nl.
    pose proof (Nu Usd) as N1. pose proof (Nu Tok) as N2. simpl in N1, N2.
    pose proof (ho_user _ _ _ _ Hh1) as Hn1. pose proof (Hn1 Usd) as N3. pose proof (Hn1 Tok) as N4. simpl in N3, N4.
    set (du := mkHeld (estimate x) (token_estimate x) 0).
    assert (Hpx : ple (padd (vp v1) (user_pend (user_id h1) du)) (vp v2)).
    { intros c a. specialize (Nl c a). unfold padd, leg_pend in *. rewrite Er, Hux in Nl.
      unfold padd, scoped_budget_ids in Nl. rewrite (Hxs eq_refl), fmap_nil, ceiling_pend_nil in Nl.
      assert (user_pend (user_id h1) du c a <= user_pend (a_user_id (top_up_args h1 (Z.max (size - estimate h) 0)
        (Z.max (size_tokens - token_estimate h) 0) free strategy)) (user_leg x) c a); [|lia].
      unfold user_pend, du. simpl. case_decide; [|lia]. pose proof (Nu Req). destruct a; simpl in *; lia. }
    assert (Hm2' : pnonneg (vp v2)) by apply Hm2.
    pose proof (handle_ok_moved _ _ _ _ _ _ Hh1 Hm2 Nk) as Hh2.
    assert (Hh2' : handle_ok (vo v2) (vp v2) d2 (grown_user h1 x)).
    { assert (handle_ok (vo v2) (vp v1) d2 h1) as Hh3.
      { eapply handle_ok_later; [exact Hh1|apply Hm2|apply Hm2|apply ple_refl]. }
      by apply (handle_ok_grown_user _ _ _ _ _ _ Hh3). }
    assert (Hsm2 : smaller h (grown_user h1 x)).
    { destruct Hsm1. split; try done. eapply ple_trans; [done|]. intros c a.
      rewrite leg_pend_grown_user by done. pose proof (user_pend_nonneg (user_id h1) du) as Hn.
      specialize (Hn ltac:(apply mkHeld_nonneg; lia) c a). unfold pzero, du in Hn. lia. }
    cbn [is_set negb andb]. fold (grown_user h1 x).
    apply (wp_grow_row h (vp v) (grown_user h1 x) (Some x) amt tok (vp v) v2 d2); try done; try apply Hm2; try (simpl; lia).
    change (scoped_budget_ids (grown_user h1 x)) with (scoped_budget_ids h1). rewrite Hids. fold C.
    change (user_id (grown_user h1 x)) with (user_id h1). fold du. clear Nl. pends. }
  apply wp_or_raised. destruct ((0 <? amt) || (0 <? tok)) eqn:E.
  - apply wp_bind, (wp_reserve_after (vo v) d [] (scoped_budgets h) (Some amt) tok 0 _ (vp v) v d).
    + by apply moved_refl.
    + apply mkHeld_nonneg; simpl; lia.
    + done.
    + intros c a. unfold padd. rewrite ceiling_pend_nil. lia.
    + intros r v1 d1 Hm1 Ho1 Hp1 Hr. pose proof (handle_ok_moved _ _ _ _ _ _ Hh Hm1 Hp1) as Hh1.
      assert (Hkeep : forall e v2 d2, moved (vo v) d v2 d2 -> ple (vp v) (vp v2) -> Q (inr (h, Some e)) v2).
      { intros e v2 d2 Hm2 Hp2. pose proof (handle_ok_moved _ _ _ _ _ _ Hh Hm2 Hp2).
        apply (HQ _ _ _ d2); try done; [apply Hm2|apply Hm2|]. intros e' _ _. split.
        - eapply handle_ok_later; [exact Hh|apply Hm2|apply Hm2|apply ple_refl].
        - exists 0, 0. split; [done|]. split; [done|]. split.
          + unfold grown_scoped, set_scoped_leg. rewrite !Z.add_0_r. by destruct h.
          + intros c a. specialize (Hp2 c a). unfold padd. change (mkHeld 0 0 0) with zero_held.
            rewrite ceiling_pend_zero. lia. }
      destruct r as [e|[b|]]; [by apply (Hkeep _ _ d1)| |].
      * unfold blocked_axis. apply wp_bind, wp_bind, (wp_query _ (vo v) d _ d1); [done|].
        intros [e|y] x d2 Hm2 _; [by apply (Hkeep _ _ d2)|].
        cbn [wp]. apply (wp_refuse (vo v) d _ _ _ (vp v)); [by exists d2|done|].
        intros e v' d' Hm3 Hp3. by apply (Hkeep _ _ d').
      * cbn [wp]. by apply (Hrest v1 d1).
  - reflect_bools. assert (amt = 0) as Ea by lia. assert (tok = 0) as Et by lia.
    assert (Eh : h = h1).
    { unfold h1, grown_scoped, set_scoped_leg. rewrite Ea, Et, !Z.add_0_r. by destruct h. }
    cbn [wp]. rewrite Eh at 1. rewrite Eh. apply (Hrest v d); [by apply moved_refl|].
    intros c a. unfold padd, C. rewrite Ea, Et. change (mkHeld 0 0 0) with zero_held. rewrite ceiling_pend_zero. lia.
Qed.

(** Any call on a handle that is given back: the handle it leaves is sound. *)
Definition held_post {A} (h : ReservationHandle) (Q : exn + (ReservationHandle * A) -> view -> Prop) : Prop :=
  forall h' r v' d', idle v' d' -> pnonneg (vp v') -> handle_ok (vo v') (vp v') d' h' ->
    unreserved_empty h' -> reservation_id h' = reservation_id h -> Q (inr (h', r)) v'.

(** [release] in the caller's transaction, and its commit. *)
Lemma wp_release_commit ids h v d (Q : exn + unit -> view -> Prop) :
  idle v d -> held_nonneg h -> pnonneg (psub (vp v) (ceiling_pend ids h)) ->
  (forall r v' d', idle v' d' -> vo v' = vo v -> ple (psub (vp v) (ceiling_pend ids h)) (vp v') ->
     rely (vo v) d d' -> (forall e, r = inl e -> fault_error e) -> Q r v') ->
  wp ok (release ids h false ;;! commit) Q v.
Proof.
  intros Hi Hh HP HQ. pose proof (ceiling_pend_nonneg ids h Hh) as HC.
  assert (Hfail : forall e v1 d1, fault_error e -> idle v1 d1 -> vo v1 = vo v -> vp v1 = vp v -> rely (vo v) d d1 ->
    Q (inl e) v1).
  { intros e v1 d1 He Hi1 Ho1 Hp1 Hr1. apply (HQ _ _ d1); try done; [rewrite Hp1; pends|by intros ? [= ->]]. }
  apply wp_bind. unfold release. destruct (_ || _).
  - cbn [wp]. apply (wp_commit_idle _ _ _ d); [done| |].
    + intros Hv. apply (HQ _ _ d); try done; [pends|apply evolves_refl].
    + intros e He. apply (Hfail _ _ d); try done; [by right|apply evolves_refl].
  - apply wp_bind. cbn [wp]. apply wp_bind, (wp_execute_idle _ _ _ d); [done| |].
    2: { intros e He. apply (Hfail _ _ d); try done; [by right|apply evolves_refl]. }
    intros F d1 t Hv Hc. exists ∅, (pneg (ceiling_pend ids h)). split; [set_solver|].
    pose proof (effect_release_holds ∅ t ids h d1 Hh) as He. split; [done|]. intros Hin. cbn [wp].
    assert (Hr : rely (vo v) d (CeilingRepo.release_holds t ids h d1)).
    { eapply evolves_trans; [apply Hc|]. eapply (effect_rely ∅); [set_solver|exact He]. }
    apply (wp_commit_tx ok OtherCommit _ _ _ _ _ _ (psub (vp v) (ceiling_pend ids h)) _ Hin); [done|simpl; pends| | |].
    + eapply HQ; [by left|done|apply ple_refl|done|done].
    + intros e Hf. apply (Hfail _ _ d1); try done; [by right|apply Hc].
    + intros _ e Hf. eapply HQ; [by right|done|apply ple_refl|done|by intros ? [= ->]].
Qed.

Lemma wp_hold_tool_call h amt strategy calls v d (Q : exn + (ReservationHandle * (exn + option Z)) -> view -> Prop) :
  ok LedgerRecord = false ->
  idle v d -> pnonneg (vp v) -> handle_ok (vo v) (vp v) d h -> unreserved_empty h -> held_post h Q ->
  wp ok (hold_tool_call h amt strategy calls) Q v.
Proof.
  intros Hok Hi Hp Hh He HQ. unfold hold_tool_call. apply wp_bind, (wp_increase h _ _ _ _ v d); try done.
  intros h1 raised v1 d1 Hi1 Hp1 Hh1 Hh1' He1 Hid1 Hhttp. apply wp_bind. destruct raised as [e|].
  - destruct (is_http_exception e) eqn:Eh.
    + destruct (Hhttp e eq_refl Eh) as (Hh0 & x & tok & Hx & Ht & -> & Hle).
      set (ids := scoped_budget_ids (grown_scoped h x tok)).
      replace (scoped_estimate (grown_scoped h x tok) - scoped_estimate h) with x by (simpl; lia).
      pose proof (ceiling_pend_nonneg ids (mkHeld 0 tok 0)) as HC2.
      specialize (HC2 ltac:(apply mkHeld_nonneg; lia)).
      assert (Hsplit : forall c a, ceiling_pend ids (mkHeld x tok 0) c a =
        ceiling_pend ids (mkHeld x 0 0) c a + ceiling_pend ids (mkHeld 0 tok 0) c a).
      { intros c a. rewrite <- ceiling_pend_add. unfold add_held. simpl. by rewrite Z.add_0_r. }
      assert (Hle' : ple (padd (vp v) (ceiling_pend ids (mkHeld 0 tok 0))) (psub (vp v1) (ceiling_pend ids (mkHeld x 0 0)))).
      { intros c a. specialize (Hle c a). unfold padd, psub in *.
        change (scoped_budget_ids h) with ids in Hle. rewrite Hsplit in Hle. lia. }
      apply wp_bind, wp_attempt, (wp_release_commit ids _ _ d1); [done|apply mkHeld_nonneg; lia|pends|].
      intros r v2 d2 Hi2 Ho2 Hp2 Hr2 Hf2. cbn [wp].
      assert (Hh2 : handle_ok (vo v2) (vp v) d2 h).
      { eapply handle_ok_later; [exact Hh0|exact Hr2|by rewrite Ho2|apply ple_refl]. }
      assert (Hp2' : pnonneg (vp v2)) by pends.
      destruct r as [e'|[]]; cbn [wp].
      * rewrite (fault_is_database_error e') by auto. apply (HQ _ _ _ d2); try done.
        eapply handle_ok_later; [exact Hh2|apply evolves_refl|done|pends].
      * apply (HQ _ _ _ d2); try done.
        replace (set_scoped_leg _ _ _) with (grown_scoped h 0 tok)
          by (unfold grown_scoped, set_scoped_leg; simpl; by rewrite Z.add_0_r).
        apply (handle_ok_grown_scoped _ (vp v)); try done. eapply ple_trans; [exact Hle'|done].
    + cbn [wp]. destruct (is_database_error e); by apply (HQ _ _ _ d1).
  - apply wp_bind, wp_attempt, (wp_commit_idle _ _ _ d1); [done| |].
    + intros Hv. cbn [wp]. by apply (HQ _ _ _ d1).
    + intros e Hf. cbn [wp]. rewrite (fault_is_database_error e) by done. apply (HQ _ _ _ d1); try done. by right.
Qed.

End growth.
