(* ===== verification/Concurrency.v ===== *)
(** Any number of requests and sweepers at once: whatever their order and whatever fails, each
    counter holds at least what the live reservations record.

    A thread is what one session of the gateway runs: a request from its reservation to its
    settlement, spend recorded without a reservation, or the reclaim passes of the timer.
    The timer's orphan clamp and its retention pass are not among them: the clamp takes a
    counter down to the ledger's sum, which is sound only because it waits until no hold can
    be between its counter and its row ([Clamping]), and a retention pass deletes rows. *)
From S2P Require Import Prelude Periods Refusals Tables Repositories Session SessionLogic Margins.
From S2P Require Import ScopedEnforcement Ledger Reservations Fixtures Coverage Growth.
From stdpp Require Import gmap strings list fin_maps.
From Stdlib Require Import ZArith Lia.
Open Scope Z_scope.

(** ** What a session runs *)

(** What a request asks of its hold between its reservation and its settlement. *)
Inductive growth : Type :=
| Increase (new_estimate new_tokens : Z) (model_is_free : bool) (strategy : option string)
| ToolCall (amt : Z) (strategy : string) (calls : Z).

(** How it ends; an abandoned request leaves its hold to the sweep. *)
Inductive ending : Type :=
| Reconcile (actual_cost actual_tokens : Z)
| Refund
| Abandon.

Inductive thread : Type :=
| Request (a : reserve_args) (growths : list growth) (first : ending) (retries : list ending)
| ExternalSpend (user : string) (cost : Z)
| Sweep (limit passes : nat).

(** A request's own handler rolls its session back whatever was raised. *)
Definition recover : prog unit := suppress (fun _ => true) rollback.

Definition run_growth (h : ReservationHandle) (g : growth) : prog ReservationHandle :=
  let! h := match g with
            | Increase e t free s => let! (h, _) := increase_reservation h e t free s in Ret h
            | ToolCall x s n => let! (h, _) := hold_tool_call h x s n in Ret h
            end in
  recover ;;! Ret h.

Fixpoint run_growths (h : ReservationHandle) (gs : list growth) : prog ReservationHandle :=
  match gs with
  | [] => Ret h
  | g :: gs => let! h := run_growth h g in run_growths h gs
  end.

Definition run_ending (h : ReservationHandle) (e : ending) : prog unit :=
  suppress (fun _ => true)
    match e with
    | Reconcile cost tok => reconcile_reservation h cost tok
    | Refund => refund_reservation h
    | Abandon => Ret tt
    end ;;!
  recover.

(** A handle with a ledger row may be settled again: its row lets one settlement through. *)
Definition run_endings (h : ReservationHandle) (first : ending) (retries : list ending) : prog unit :=
  run_ending h first ;;!
  if is_set (reservation_id h) then for_each retries (run_ending h) else Ret tt.

Definition run_request (a : reserve_args) (gs : list growth) (first : ending) (retries : list ending) : prog unit :=
  let! r := attempt (reserve_budget a) in
  recover ;;!
  match r with
  | inl _ => Ret tt
  | inr h => let! h := run_growths h gs in run_endings h first retries
  end.

Definition run_thread (t : thread) : prog unit :=
  match t with
  | Request a gs first retries => run_request a gs first retries
  | ExternalSpend user cost => suppress (fun _ => true) (record_external_spend user cost)
  | Sweep limit passes => suppress (fun _ => true) (drain passes (sweep_expired limit) limit)
  end.

(** ** Each thread is safe *)

Section threads.
Context {ok : policy}.

(** A session between calls, with a handle it may settle. *)
Definition with_handle (h : ReservationHandle) (v : view) : Prop :=
  exists d, idle v d /\ pnonneg (vp v) /\ handle_ok (vo v) (vp v) d h /\ unreserved_empty h.

Lemma wp_recover v d (Q : exn + unit -> view -> Prop) :
  idle v d -> (forall x, idle (set_vt v x) d -> Q (inr tt) (set_vt v x)) -> wp ok recover Q v.
Proof.
  intros Hi HQ. apply wp_try, wp_rollback; rewrite (idle_base _ _ Hi).
  - apply HQ. by left.
  - intros e He. apply HQ. by right.
Qed.

Lemma with_handle_tx h v d x :
  pnonneg (vp v) -> handle_ok (vo v) (vp v) d h -> unreserved_empty h -> idle (set_vt v x) d ->
  with_handle h (set_vt v x).
Proof. intros. by exists d. Qed.

Lemma wp_run_growth h g v (Q : exn + ReservationHandle -> view -> Prop) :
  ok LedgerRecord = false -> with_handle h v ->
  (forall h' v', with_handle h' v' -> reservation_id h' = reservation_id h -> Q (inr h') v') ->
  wp ok (run_growth h g) Q v.
Proof.
  intros Hok (d & Hi & Hp & Hh & He) HQ. unfold run_growth.
  assert (Hend : forall h' v' d', idle v' d' -> pnonneg (vp v') -> handle_ok (vo v') (vp v') d' h' ->
    unreserved_empty h' -> reservation_id h' = reservation_id h -> wp ok (recover ;;! Ret h') Q v').
  { intros h' v' d' ?????. apply wp_bind, (wp_recover _ d'); [done|]. intros x Hx. apply HQ; [by exists d'|done]. }
  apply wp_bind. destruct g as [e t free s|x s n]; apply wp_bind.
  - apply (wp_increase h _ _ _ _ v d); try done. intros h' r v' d' ???????. by apply (Hend _ _ d').
  - apply (wp_hold_tool_call h _ _ _ v d); try done. intros h' r v' d' ?????. by apply (Hend _ _ d').
Qed.

Lemma wp_run_growths gs h v (Q : exn + ReservationHandle -> view -> Prop) :
  ok LedgerRecord = false -> with_handle h v ->
  (forall h' v', with_handle h' v' -> Q (inr h') v') ->
  wp ok (run_growths h gs) Q v.
Proof.
  intros Hok. revert h v. induction gs as [|g gs IH]; intros h v Hv HQ; [by apply HQ|].
  cbn [run_growths]. apply wp_bind, wp_run_growth; [done|done|]. intros h' v' Hv' _. by apply IH.
Qed.

Lemma wp_run_ending h e v (Q : exn + unit -> view -> Prop) :
  with_handle h v ->
  (forall v', (reservation_id h <> None -> with_handle h v') -> Q (inr tt) v') ->
  wp ok (run_ending h e) Q v.
Proof.
  intros (d & Hi & Hp & Hh & He) HQ. unfold run_ending.
  assert (Hrec : forall v' d', idle v' d' -> pnonneg (vp v') ->
    (reservation_id h <> None -> handle_ok (vo v') (vp v') d' h) -> wp ok recover Q v').
  { intros v' d' Hi' Hp' Hh'. apply (wp_recover _ d'); [done|]. intros x Hx. apply HQ. intros Hid. exists d'. auto. }
  apply wp_bind, wp_try. destruct e as [cost tok| |].
  - apply (wp_reconcile h cost tok v d); [done|done|done|]. intros r v' d' Hi' Ho Hp' Hh' _.
    destruct r as [e|[]]; by apply (Hrec _ d').
  - apply (wp_refund h v d); [done|done|done|]. intros r v' d' Hi' Ho Hp' Hh' _.
    destruct r as [e|[]]; by apply (Hrec _ d').
  - by apply (Hrec v d).
Qed.

Lemma wp_run_endings h first retries v (Q : exn + unit -> view -> Prop) :
  with_handle h v -> (forall v', Q (inr tt) v') -> wp ok (run_endings h first retries) Q v.
Proof.
  intros Hv HQ. unfold run_endings. apply wp_bind, wp_run_ending; [done|]. intros v1 Hv1.
  destruct (reservation_id h) as [i|] eqn:Hid; [|by apply HQ]. specialize (Hv1 ltac:(done)). cbn [is_set].
  revert v1 Hv1. induction retries as [|e es IH]; intros v1 Hv1; [by apply HQ|].
  cbn [for_each]. apply wp_bind, wp_run_ending; [done|]. intros v2 Hv2. apply IH, Hv2. congruence.
Qed.

Lemma empty_handle_ok O P d u strategy counts ttl cs :
  pnonneg P -> handle_ok O P d (empty_handle u strategy counts ttl cs).
Proof.
  intros HP. pose proof (new_handle_empty P (mkView (VClean d) P O) d u strategy counts ttl cs (ple_refl _)) as Hn.
  by apply new_handle_ok in Hn.
Qed.

Lemma wp_drain_sweep passes limit k v d (Q : exn + unit -> view -> Prop) :
  idle v d -> pnonneg (vp v) -> (forall r v', Q r v') -> wp ok (drain passes (sweep_expired limit) k) Q v.
Proof.
  intros Hi Hp HQ. revert v d Hi Hp. induction passes as [|n IH]; intros v d Hi Hp; [by apply HQ|].
  cbn [drain]. apply wp_bind, (wp_list_and_reclaim limit None (vo v) d _ d); [by apply moved_refl|].
  intros r v' d' Hm' _ _ _. destruct r as [e|m]; [by apply HQ|].
  destruct (m <? Z.of_nat k); [by apply HQ|]. apply (IH _ d'); apply Hm'.
Qed.

Lemma thread_verified t : ok LedgerRecord = false -> verified ok (run_thread t).
Proof.
  intros Hok d. set (v := mkView (VClean d) pzero ∅).
  assert (Hi : idle v d) by by left. assert (Hp : pnonneg (vp v)) by apply ple_refl.
  destruct t as [a gs first retries|user cost|limit passes]; cbn [run_thread].
  - unfold run_request. apply wp_bind, wp_attempt, (wp_reserve_budget a ∅ d v d _ Hok); [by apply (moved_refl v d)|].
    split.
    + intros h v1 d1 Hm1 Hnew Hu Hun _ _. apply wp_bind, (wp_recover _ d1); [apply Hm1|]. intros x Hx.
      apply wp_bind, wp_run_growths; [done| |].
      * exists d1. split; [done|]. split; [apply Hm1|]. split; [|done]. exact (new_handle_ok (vp v) v1 d1 h Hp Hnew).
      * intros h' v' Hh'. by apply wp_run_endings.
    + intros e v1 d1 Hm1 _. apply wp_bind, (wp_recover _ d1); [apply Hm1|]. intros x Hx. done.
  - unfold record_external_spend. apply wp_try, (wp_reconcile _ _ _ v d); [done|done|by apply empty_handle_ok|].
    intros r v' d' _ _ _ _ _. by destruct r.
  - apply wp_try, (wp_drain_sweep _ _ _ v d); [done|done|]. intros r v'. by destruct r.
Qed.

End threads.

(** ** The pool *)

(** Every live counter, on every axis, carries at least what the active rows record. *)
Definition holds_cover_ledger (d : database) : Prop :=
  forall c a h, counter_held d c = Some h -> recorded d c a <= at_axis h a.

(** A database to start from: its rows are well formed, its holds cover its ledger, and no
    reservation id is yet to be drawn. *)
Definition fit_to_serve (w : world) : Prop :=
  rows_wf (db w) /\ holds_cover_ledger (db w) /\ rows_below (next_id w) (db w).

(** C1: no interleaving of requests, tool calls, retried settlements and sweeps, and no failure
    of a statement, a commit or a rollback, releases a hold twice: in every state the pool
    reaches, each live counter still holds at least the sum the active reservations record
    against it, on dollars, tokens and requests.  A commit may fail after it landed, but for
    the ledger insert of a hold on ceilings alone. *)
Theorem holds_cover_ledger_always (ok : policy) (threads : list thread) w w' ts' :
  ok LedgerRecord = false ->
  fit_to_serve w ->
  rtc (pool_step ok) (w, fresh_sessions (run_thread <$> threads)) (w', ts') ->
  holds_cover_ledger (db w').
Proof.
  intros Hok (Hwf & Hc & Hb) Hs.
  destruct (pool_covered ok w (run_thread <$> threads) w' ts') as [vs Hvs]; [|split; [done|]|done|done|].
  - intros p (t & -> & _)%list_elem_of_fmap. by apply thread_verified.
  - intros c a h Hh. specialize (Hc c a h Hh). unfold pzero. lia.
  - intros c a h Hh. destruct (po_covered _ _ _ _ Hvs) as [_ Hcov]. specialize (Hcov c a h Hh).
    unfold padd, pzero in Hcov. assert (0 <= SessionLogic.total vs c a); [|lia]. clear Hcov. unfold SessionLogic.total.
    assert (Hn : Forall (fun v => 0 <= vp v c a) vs).
    2: { clear -Hn. induction Hn as [|v vs Hv Hn IH]; [done|]. rewrite sumZ_cons. lia. }
    apply Forall_lookup. intros i v Hi.
    destruct (lookup_lt_is_Some_2 ts' i) as [[x p] Hx].
    { rewrite (po_length _ _ _ _ Hvs). by eapply lookup_lt_Some. }
    destruct (po_session _ _ _ _ Hvs i x p v Hx Hi) as (_ & _ & Hp & _). apply Hp.
Qed.

(** A session running alone, undisturbed, is a run of the pool. *)
Lemma run_in_pool ok p x w r x' w' ts i :
  ts !! i = Some (x, p) -> (forall j y q, ts !! j = Some (y, q) -> j <> i -> is_dirty y = false) ->
  run p [] x w = (r, x', w') ->
  rtc (pool_step ok) (w, ts) (w', <[i := (x', match r with inr u => Ret u | inl e => Raise e end)]> ts).
Proof.
  revert x w ts. induction p as [u|e|k IH|k IH|C q k IH|C s k IH|site k IH|k IH]; intros x w ts Hi Hc Hr;
    cbn [run next_fault] in Hr.
  1,2: simplify_eq; rewrite list_insert_id by done; apply rtc_refl.
  all: assert (Hgo : forall w1 x1 p1, step ok w x _ w1 x1 p1 ->
    rtc (pool_step ok) (w1, <[i := (x1, p1)]> ts)
      (w', <[i := (x', match r with inr u => Ret u | inl e => Raise e end)]> (<[i := (x1, p1)]> ts)) ->
    rtc (pool_step ok) (w, ts) (w', <[i := (x', match r with inr u => Ret u | inl e => Raise e end)]> ts))
    by (intros w1 x1 p1 Hs Hrtc; rewrite list_insert_insert_eq in Hrtc; eapply rtc_l; [|exact Hrtc];
        eapply pool_session; [exact Hi|exact Hs|by intros _]).
  all: assert (Hnext : forall x1 p1, (<[i := (x1, p1)]> ts) !! i = Some (x1, p1)
      /\ (forall j y q, (<[i := (x1, p1)]> ts) !! j = Some (y, q) -> j <> i -> is_dirty y = false))
    by (intros x1 p1; split; [apply list_lookup_insert_eq; by eapply lookup_lt_Some|];
        intros j y q0 Hj Hne; rewrite list_lookup_insert_ne in Hj by done; by eapply Hc).
  - eapply Hgo; [constructor|]. eapply IH; [apply Hnext|apply Hnext|exact Hr].
  - eapply Hgo; [constructor|]. eapply IH; [apply Hnext|apply Hnext|exact Hr].
  - destruct (reads_from x w) as [d|] eqn:E.
    + eapply Hgo; [by constructor|]. eapply IH; [apply Hnext|apply Hnext|exact Hr].
    + eapply Hgo; [by apply step_read_fails, fault_sqlalchemy|]. eapply IH; [apply Hnext|apply Hnext|exact Hr].
  - destruct (reads_from x w) as [d|] eqn:E.
    + destruct (s (clock w) d) as [[e|b] d'] eqn:Es.
      * eapply Hgo; [by eapply step_write_refused|]. eapply IH; [apply Hnext|apply Hnext|exact Hr].
      * eapply Hgo; [by eapply step_write|]. eapply IH; [apply Hnext|apply Hnext|exact Hr].
    + eapply Hgo; [by apply step_write_fails, fault_sqlalchemy|]. eapply IH; [apply Hnext|apply Hnext|exact Hr].
  - destruct x as [|d|].
    + eapply Hgo; [apply step_commit_nothing|]. eapply IH; [apply Hnext|apply Hnext|exact Hr].
    + eapply Hgo; [apply step_commit|]. eapply IH; [apply Hnext|apply Hnext|exact Hr].
    + eapply Hgo; [by apply step_commit_lost, fault_sqlalchemy|]. eapply IH; [apply Hnext|apply Hnext|exact Hr].
  - eapply Hgo; [apply step_rollback|]. eapply IH; [apply Hnext|apply Hnext|exact Hr].
Qed.

(** Run the sessions named to their ends, one after the other. *)
Definition play_one (c : world * list session) (i : nat) : world * list session :=
  match c.2 !! i with
  | Some (x, p) =>
      let '(r, x', w') := run p [] x c.1 in
      if is_dirty x' then c else (w', <[i := (x', match r with inr u => Ret u | inl e => Raise e end)]> c.2)
  | None => c
  end.

Definition play (order : list nat) (c : world * list session) : world * list session := foldl play_one c order.

Lemma play_pool ok order c :
  (forall j y q, c.2 !! j = Some (y, q) -> is_dirty y = false) -> rtc (pool_step ok) c (play order c).
Proof.
  revert c. induction order as [|i order IH]; intros c Hc; [apply rtc_refl|].
  assert (rtc (pool_step ok) c (play_one c i)
    /\ forall j y q, (play_one c i).2 !! j = Some (y, q) -> is_dirty y = false) as [H1 H2].
  { destruct c as [w ts]. unfold play_one. cbn [fst snd] in *. destruct (ts !! i) as [[x p]|] eqn:Hi; [|by split].
    destruct (run p [] x w) as [[r x'] w'] eqn:E. destruct (is_dirty x') eqn:Ed; [by split|]. split.
    - by apply (run_in_pool ok p x w r x' w' ts i Hi (fun j y q H _ => Hc j y q H)).
    - intros j y q Hj. destruct (decide (j = i)) as [->|].
      + cbn [snd] in Hj. rewrite list_lookup_insert_eq in Hj by by eapply lookup_lt_Some. by simplify_eq.
      + cbn [snd] in Hj. rewrite list_lookup_insert_ne in Hj by done. by eapply Hc. }
  etrans; [exact H1|]. by apply IH.
Qed.

Definition busy_pool : list thread :=
  [Request (request_of 400 20) [] Abandon []; Request (request_of 300 10) [] (Reconcile 250 8) []; Sweep 5 2].

(** One request in flight, one settled, after the sweep passed. *)
Lemma holds_cover_ledger_always_witness :
  let c := play [0; 1; 2]%nat (small_world, fresh_sessions (run_thread <$> busy_pool)) in
  recorded (db c.1) (CUser "ann") Usd = 400
  /\ counter_held (db c.1) (CUser "ann") = Some (mkHeld 400 20 1)
  /\ holds_cover_ledger (db c.1).
Proof.
  cbv zeta. split; [vm_compute; reflexivity|]. split; [vm_compute; reflexivity|].
  apply (holds_cover_ledger_always lossy busy_pool small_world _
    (play [0; 1; 2]%nat (small_world, fresh_sessions (run_thread <$> busy_pool))).2).
  - reflexivity.
  - split; [by apply no_rows_wf|]. split.
    + intros c a h Hh. rewrite no_rows_recorded by done. by rewrite (small_db_held c h Hh); destruct a.
    + intros i Hi. by apply not_elem_of_empty in Hi.
  - rewrite <- surjective_pairing. apply play_pool. intros j y q Hj. cbn [snd] in Hj.
    unfold fresh_sessions in Hj. rewrite list_lookup_fmap in Hj.
    destruct ((run_thread <$> busy_pool) !! j); [|done]. by injection Hj as <- _.
Defined.

(** ** The one commit left out *)

Definition at_clock (w : world) (t : Z) : world := mkWorld (db w) t (next_id w).

(** Every statement answers but the ledger's insert, whose commit lands and reports failure. *)
Definition lost_ack : list fault := repeat NoFault 7 ++ [Landed].

(** Bob's first request, served on an unledgered hold and refunded; his second, a second later. *)
Definition after_refund : world :=
  at_clock (run (let! h := reserve_budget bob_request in refund_reservation h) lost_ack Clean open_world).2 SECOND.
Definition second_in_flight : world := (run_quiet (reserve_budget bob_request) after_refund).2.
(** The sweep, once the first row's deadline has passed and before the second's. *)
Definition after_sweep : world := (run_quiet (sweep_expired 10) (at_clock second_in_flight (600 * SECOND + 1))).2.

(** The hypothesis on the ledger insert is needed.  A hold on ceilings alone whose insert
    commits and reports failure is handed to the caller without its row: the refund gives the
    ceiling back, the live row is swept at its deadline and gives it back again, and what it
    takes is the hold of the next request, still in flight. *)
Theorem lost_insert_acknowledgement_releases_twice :
  holds_cover_ledger (db open_world)
  /\ counter_held (db second_in_flight) (CCeiling "org-ceiling") = Some (mkHeld 400 20 1)
  /\ ReservationRepo.lock_active (db after_sweep) 1 = true
  /\ recorded (db after_sweep) (CCeiling "org-ceiling") Usd = 400
  /\ counter_held (db after_sweep) (CCeiling "org-ceiling") = Some zero_held
  /\ ~ holds_cover_ledger (db after_sweep).
Proof.
  split.
  { intros c a h Hh. rewrite no_rows_recorded by done. destruct c as [u|s]; simpl in Hh.
    - apply bind_Some in Hh as (r & Hr & Hh). apply lookup_singleton_Some in Hr as [_ <-]. simplify_eq/=. by destruct a.
    - apply bind_Some in Hh as (r & Hr & Hh). apply lookup_singleton_Some in Hr as [_ <-]. simplify_eq/=. by destruct a. }
  split; [vm_compute; reflexivity|]. split; [vm_compute; reflexivity|].
  assert (H1 : recorded (db after_sweep) (CCeiling "org-ceiling") Usd = 400) by (vm_compute; reflexivity).
  assert (H2 : counter_held (db after_sweep) (CCeiling "org-ceiling") = Some zero_held) by (vm_compute; reflexivity).
  split; [exact H1|]. split; [exact H2|]. intros H. specialize (H _ Usd _ H2). rewrite H1 in H. simpl in H. lia.
Qed.
