(* ===== verification/Admission.v ===== *)
(** What the gates admit: the conditional UPDATEs against the caps, the message's account of
    a refusal against the gate, and a scoped reservation that holds every ceiling or none. *)
From S2P Require Import Prelude Periods Refusals Tables Repositories Session ScopedEnforcement Ledger Reservations.
From S2P Require Import Fixtures.
From stdpp Require Import gmap strings list fin_maps.
From Stdlib Require Import ZArith Lia.
Import CeilingRepo.
Open Scope Z_scope.

(** ** One gate *)

Definition ceiling_cap (d : database) (s : string) (a : axis) : option Z :=
  b ← counter_budget d (CCeiling s); cap_on b a.

(** What a hold asks of one axis; a free model's asks nothing of the dollars. *)
Definition wanted (amt : option Z) (tok req : Z) (a : axis) : option Z :=
  match a with Usd => amt | Tok => Some tok | Req => Some req end.

Lemma gate_admits_admits nr committed w cap : gate_admits nr committed w cap = admits nr committed w cap.
Proof. unfold gate_admits, admits. destruct cap, nr; simpl; [apply andb_comm|by rewrite andb_true_r|done..]. Qed.

Definition committed_on (used held : HeldAmounts) (a : axis) : Z := at_axis used a + at_axis held a.

Lemma hold_gates_admits c b amt tok req nr :
  hold_gates c b amt tok req nr = true <->
  forall a w, wanted amt tok req a = Some w ->
    admits nr (committed_on (ceiling_used c) (ceiling_held c) a) w (b ← b; cap_on b a) = true.
Proof.
  unfold hold_gates. rewrite !gate_admits_admits, !andb_true_iff. split.
  - intros [[H1 H2] H3] [] w Hw; simpl in Hw; [|by injection Hw as <-..].
    destruct amt; simplify_eq. by rewrite gate_admits_admits in H1.
  - intros H. split; [split|].
    + destruct amt as [x|]; [|done]. rewrite gate_admits_admits. by apply (H Usd).
    + by apply (H Tok).
    + by apply (H Req).
Qed.

(** C24: the ceiling UPDATE takes its hold exactly when every axis the budget caps has room for
    it (and, for an arrival, room at all); it then adds the hold and nothing else to that
    ceiling, so no gated axis is committed past its cap, and a refusal writes nothing. *)
Theorem hold_within_caps t s amt tok req nr d c :
  ceilings d !! s = Some c ->
  let room a w := forall cap, ceiling_cap d s a = Some cap ->
    committed_on (ceiling_used c) (ceiling_held c) a + w <= cap
    /\ (nr = true -> committed_on (ceiling_used c) (ceiling_held c) a < cap) in
  let fits := forall a w, wanted amt tok req a = Some w -> room a w in
  match hold t s amt tok req nr d with
  | (true, d') => fits /\ exists c', d' = set_ceilings d (<[s := c']> (ceilings d))
      /\ ceiling_used c' = ceiling_used c
      /\ ceiling_held c' = add_held (ceiling_held c) (mkHeld (default 0 amt) tok req)
  | (false, d') => ~ fits /\ d' = d
  end.
Proof.
  intros Hc room fits. unfold hold. rewrite Hc.
  assert (Hfits : hold_gates c (budgets d !! ceiling_budget_id c) amt tok req nr = true <-> fits).
  { rewrite hold_gates_admits. subst fits room. cbv beta.
    assert (forall a w, admits nr (committed_on (ceiling_used c) (ceiling_held c) a) w
              (b ← budgets d !! ceiling_budget_id c; cap_on b a) = true <->
            forall cap, ceiling_cap d s a = Some cap ->
              committed_on (ceiling_used c) (ceiling_held c) a + w <= cap
              /\ (nr = true -> committed_on (ceiling_used c) (ceiling_held c) a < cap)) as Heq.
    { intros a w. unfold ceiling_cap, counter_budget. rewrite Hc. simpl.
      destruct (budgets d !! ceiling_budget_id c) as [b|]; simpl; [|split; [by intros _ ?|done]].
      destruct (cap_on b a) as [cap|]; simpl; [|split; [by intros _ ?|done]].
      rewrite andb_true_iff, orb_true_iff, negb_true_iff, Z.leb_le, Z.ltb_lt. split.
      - intros [H1 H2] cap' [= <-]. split; [done|]. intros ->. by destruct H2.
      - intros H. destruct (H cap eq_refl) as [H1 H2]. split; [done|]. destruct nr; auto. }
    setoid_rewrite Heq. done. }
  destruct (hold_gates _ _ _ _ _ _).
  - split; [by apply Hfits|]. eexists. split; [reflexivity|]. done.
  - split; [|done]. intros H. by apply Hfits in H.
Qed.

Lemma hold_within_caps_witness :
  exists d', hold 0 "org-ceiling" (Some 400) 20 1 true small_db = (true, d')
    /\ hold 0 "org-ceiling" (Some 1001) 20 1 true small_db = (false, small_db)
    /\ (forall w, wanted (Some 400) 20 1 Usd = Some w -> 0 + w <= 1000).
Proof.
  pose proof (hold_within_caps 0 "org-ceiling" (Some 400) 20 1 true small_db acme eq_refl) as H1.
  pose proof (hold_within_caps 0 "org-ceiling" (Some 1001) 20 1 true small_db acme eq_refl) as H2.
  destruct (hold 0 "org-ceiling" (Some 400) 20 1 true small_db) as [[] d'] eqn:E1; [|by vm_compute in E1].
  destruct (hold 0 "org-ceiling" (Some 1001) 20 1 true small_db) as [[] d2] eqn:E2; [by vm_compute in E2|].
  exists d'. split; [done|]. split; [by destruct H2 as [_ ->]|].
  intros w Hw. destruct H1 as [H1 _]. by apply (H1 Usd w Hw 1000).
Defined.

(** ** The refusal's own account *)

(** The message agrees with the gate: the axes re-read for a refusal name one that blocks
    exactly when the ceiling UPDATE would refuse, and the axis named is one with no room. *)
Theorem refused_axis_agrees t s amt tok req nr d u :
  get_usage d s = Some u ->
  ((hold t s amt tok req nr d).1 = false <-> exists x, first_blocked (usage_axes u amt tok req) nr = Some x)
  /\ ((hold t s amt tok req nr d).1 = false ->
      exists n cap committed w, (n, Some cap, committed, w) ∈ usage_axes u amt tok req
        /\ name (refused_axis (Some u) amt tok req nr) = n
        /\ admits nr committed w (Some cap) = false).
Proof.
  unfold get_usage. intros (c & Hc & (b & Hb & [= <-])%bind_Some)%bind_Some.
  set (u := mkUsage b (ceiling_used c) (ceiling_held c) (period_end c)).
  assert (Hiff : (hold t s amt tok req nr d).1 = true <-> first_blocked (usage_axes u amt tok req) nr = None).
  { unfold hold. rewrite Hc, Hb. rewrite first_blocked_none.
    transitivity (hold_gates c (Some b) amt tok req nr = true); [by destruct (hold_gates _ _ _ _ _ _)|].
    unfold hold_gates, usage_axes. rewrite !gate_admits_admits, !andb_true_iff, !Forall_cons, Forall_nil.
    destruct amt as [x|]; simpl; rewrite ?gate_admits_admits; tauto. }
  assert (Hnot : (hold t s amt tok req nr d).1 = false <-> exists x, first_blocked (usage_axes u amt tok req) nr = Some x).
  { destruct (hold t s amt tok req nr d).1, (first_blocked (usage_axes u amt tok req) nr) eqn:E; split; intros H;
      try done; try (by destruct H); try (by eexists); by destruct Hiff as [H1 H2]; first [specialize (H1 eq_refl)|specialize (H2 eq_refl)]. }
  split; [exact Hnot|]. intros [x Hx]%Hnot.
  destruct (first_blocked_some _ _ _ Hx) as (n & cap & committed & w & Hin & Hb' & Ha).
  exists n, cap, committed, w. split; [done|]. split; [|done].
  unfold refused_axis. rewrite Hx. apply blocked_on_shape in Hb' as (Hn & _). by destruct x.
Qed.

Lemma refused_axis_agrees_witness :
  (hold 0 "org-ceiling" (Some 400) 101 1 true small_db).1 = false
  /\ name (refused_axis (get_usage small_db "org-ceiling") (Some 400) 101 1 true) = "token"%string
  /\ exists x, first_blocked (usage_axes (mkUsage small_budget zero_held zero_held None) (Some 400) 101 1) true = Some x.
Proof.
  split; [vm_compute; reflexivity|]. split; [vm_compute; reflexivity|].
  apply (refused_axis_agrees 0 "org-ceiling" (Some 400) 101 1 true small_db _ eq_refl). vm_compute. reflexivity.
Defined.

(** the same of a user's own budget: the axes re-read for the message block exactly when
    the clauses of the per-user UPDATE refuse, and the axis named is one with no room. *)
Theorem user_blocked_axis_agrees b usd tok req nr u :
  (user_guards b usd tok req nr u = false <-> exists x, first_blocked (user_axes b u usd tok req) nr = Some x)
  /\ (user_guards b usd tok req nr u = false ->
      exists n cap committed w, (n, Some cap, committed, w) ∈ user_axes b u usd tok req
        /\ name (user_blocked_axis b u usd tok req nr) = n
        /\ admits nr committed w (Some cap) = false).
Proof.
  assert (Hg : forall committed w cap, guards_for nr committed w cap = admits nr committed w (Some cap)).
  { intros. unfold guards_for, admits. by destruct nr. }
  assert (Hiff : user_guards b usd tok req nr u = true <-> first_blocked (user_axes b u usd tok req) nr = None).
  { rewrite first_blocked_none. unfold user_guards, user_axes.
    rewrite !andb_true_iff, !Forall_cons, Forall_nil.
    destruct (max_budget b), (token_limit b), (request_limit b), usd; simpl; rewrite ?Hg; simpl; tauto. }
  assert (Hnot : user_guards b usd tok req nr u = false <-> exists x, first_blocked (user_axes b u usd tok req) nr = Some x).
  { destruct (user_guards b usd tok req nr u), (first_blocked (user_axes b u usd tok req) nr) eqn:E; split; intros H;
      try done; try (by destruct H); try (by eexists); by destruct Hiff as [H1 H2]; first [specialize (H1 eq_refl)|specialize (H2 eq_refl)]. }
  split; [exact Hnot|]. intros [x Hx]%Hnot.
  destruct (first_blocked_some _ _ _ Hx) as (n & cap & committed & w & Hin & Hb' & Ha).
  exists n, cap, committed, w. split; [done|]. split; [|done].
  unfold user_blocked_axis. rewrite Hx. apply blocked_on_shape in Hb' as (Hn & _). by destruct x.
Qed.

(** ** A list of ceilings *)

(** [d'] is [d] with the holds of each ceiling sent through [f], and nothing else but the
    times of the touched rows. *)
Record holds_become (f : string -> HeldAmounts -> HeldAmounts) (d d' : database) : Prop := {
  hb_users : users d' = users d;
  hb_budgets : budgets d' = budgets d;
  hb_reservations : reservations d' = reservations d;
  hb_ceiling : forall s,
    match ceilings d !! s with
    | Some c => exists c', ceilings d' !! s = Some c' /\ ceiling_used c' = ceiling_used c
        /\ ceiling_held c' = f s (ceiling_held c) /\ ceiling_budget_id c' = ceiling_budget_id c
    | None => ceilings d' !! s = None
    end
}.

Lemma holds_become_refl d : holds_become (fun _ h => h) d d.
Proof. split; try done. intros s. destruct (ceilings d !! s); eauto. Qed.

Lemma holds_become_trans f g d1 d2 d3 :
  holds_become f d1 d2 -> holds_become g d2 d3 -> holds_become (fun s h => g s (f s h)) d1 d3.
Proof.
  intros [A1 A2 A3 A4] [B1 B2 B3 B4]. split; try congruence. intros s. specialize (A4 s). specialize (B4 s).
  destruct (ceilings d1 !! s) as [c|]; [|by rewrite A4 in B4].
  destruct A4 as (c2 & E2 & U2 & H2 & I2). rewrite E2 in B4. destruct B4 as (c3 & E3 & U3 & H3 & I3).
  exists c3. repeat split; congruence.
Qed.

Lemma holds_become_ext f g d d' :
  (forall s c, ceilings d !! s = Some c -> f s (ceiling_held c) = g s (ceiling_held c)) ->
  holds_become f d d' -> holds_become g d d'.
Proof.
  intros Hfg [A1 A2 A3 A4]. split; try done. intros s. specialize (A4 s).
  destruct (ceilings d !! s) as [c|] eqn:E; [|done]. destruct A4 as (c' & ? & ? & H & ?).
  exists c'. rewrite <- (Hfg s c E). done.
Qed.

Definition held_on (ids : list string) (amounts : HeldAmounts) (s : string) (h : HeldAmounts) : HeldAmounts :=
  if decide (s ∈ ids) then add_held h amounts else h.

Definition released_on (ids : list string) (amounts : HeldAmounts) (s : string) (h : HeldAmounts) : HeldAmounts :=
  if decide (s ∈ ids) then released amounts h else h.

Lemma hold_becomes t s amt tok req nr d d' :
  hold t s amt tok req nr d = (true, d') -> holds_become (held_on [s] (to_release amt tok req)) d d'.
Proof.
  unfold hold. destruct (ceilings d !! s) as [c|] eqn:Hc; [|done]. destruct (hold_gates _ _ _ _ _ _); [|done].
  intros [= <-]. split; try done. intros s'. unfold held_on. destruct (decide (s' = s)) as [->|Hne].
  - rewrite Hc. simpl. rewrite lookup_insert_eq. eexists. split; [done|]. simpl.
    rewrite decide_True by set_solver. done.
  - simpl. rewrite lookup_insert_ne by done. destruct (ceilings d !! s') as [c'|]; [|done].
    exists c'. rewrite decide_False by set_solver. done.
Qed.

Lemma release_becomes t ids amounts d : holds_become (released_on ids amounts) d (release_holds t ids amounts d).
Proof.
  unfold release_holds. destruct (bool_decide (ids = []) || negb (any_positive amounts)) eqn:E.
  - eapply holds_become_ext; [|apply holds_become_refl]. intros s c Hc. unfold released_on.
    apply orb_true_iff in E as [E|E].
    + apply bool_decide_eq_true in E as ->. by rewrite decide_False by set_solver.
    + apply negb_true_iff in E. case_decide; [by rewrite released_nothing|done].
  - split; try done. intros s. simpl. rewrite map_lookup_imap. destruct (ceilings d !! s) as [c|]; simpl; [|done].
    unfold released_on. destruct (decide (s ∈ ids)) as [Hin|Hin];
      [rewrite bool_decide_eq_true_2 by done|rewrite bool_decide_eq_false_2 by done]; eauto 6.
Qed.

Lemma released_added amounts h :
  held_nonneg amounts -> held_nonneg h -> released amounts (add_held h amounts) = h.
Proof.
  intros Ha Hh. apply held_ext. intros a. specialize (Ha a). specialize (Hh a). unfold released, map_axes.
  destruct a; simpl in *;
    (match goal with |- (if ?b then _ else _) = _ => destruct b eqn:E end; reflect_bools;
      [unfold release_expression; rewrite (proj2 (Z.ltb_ge _ _)) by lia; lia|lia]).
Qed.

(** What a release alone leaves. *)
Lemma run_release ids amounts w :
  exists d', run (release ids amounts true) [] Clean w = (inr tt, Clean, set_db w d')
    /\ holds_become (released_on ids amounts) (db w) d'.
Proof.
  pose proof (release_becomes (clock w) ids amounts (db w)) as H.
  unfold release, release_holds in *. destruct (bool_decide (ids = []) || negb (any_positive amounts)).
  - exists (db w). split; [by destruct w|done].
  - eexists. split; [reflexivity|done].
Qed.

Lemma run_hold_one s amt tok req nr w :
  let '(ok, d') := hold (clock w) s amt tok req nr (db w) in
  run (defer_commit_flush ;;!
       let! held := update_rowcount (fun t => hold t s amt tok req nr) in
       commit ;;! Ret held) [] Clean w = (inr ok, Clean, set_db w d').
Proof. simpl. destruct (hold (clock w) s amt tok req nr (db w)); done. Qed.

Lemma run_reserve_after taken bs amt tok req nr w d0 :
  let amounts := to_release amt tok req in
  held_nonneg amounts -> (forall s c, ceilings d0 !! s = Some c -> held_nonneg (ceiling_held c)) ->
  NoDup (taken ++ (budget_id <$> bs)) ->
  holds_become (held_on taken amounts) d0 (db w) ->
  exists r d', run (reserve_after taken bs amt tok req nr) [] Clean w = (inr r, Clean, set_db w d')
    /\ match r with
       | None => holds_become (held_on (taken ++ (budget_id <$> bs)) amounts) d0 d'
       | Some b => b ∈ bs /\ (forall t, (hold t (budget_id b) amt tok req nr d0).1 = false)
           /\ holds_become (fun _ h => h) d0 d'
       end.
Proof.
  intros amounts Ha H0. subst amounts. revert taken w.
  induction bs as [|b bs IH]; intros taken w Hnd Hb; cbn [reserve_after].
  { exists None, (db w). split; [by destruct w|]. simpl. by rewrite app_nil_r. }
  rewrite run_bind_quiet, run_try_quiet. pose proof (run_hold_one (budget_id b) amt tok req nr w) as Hrun.
  rewrite fmap_cons in Hnd. apply NoDup_app in Hnd as Hnd'. destruct Hnd' as (_ & Hdis & _).
  assert (Hb_new : budget_id b ∉ taken) by (intros Hin; apply (Hdis _ Hin); left).
  destruct (hold (clock w) (budget_id b) amt tok req nr (db w)) as [[] d1] eqn:E; rewrite Hrun.
  - destruct (IH (taken ++ [budget_id b]) (set_db w d1)) as (r & d' & Hr & Hpost).
    + by rewrite <- app_assoc.
    + eapply holds_become_ext; [|eapply holds_become_trans; [exact Hb|exact (hold_becomes _ _ _ _ _ _ _ _ E)]].
      intros s c Hc. unfold held_on. destruct (decide (s = budget_id b)) as [->|Hne].
      * rewrite (decide_False (P := budget_id b ∈ taken)) by done.
        rewrite decide_True by set_solver. rewrite decide_True by set_solver. done.
      * destruct (decide (s ∈ taken)); rewrite decide_False by set_solver;
          [rewrite decide_True by set_solver|rewrite decide_False by set_solver]; done.
    + exists r, d'. split; [exact Hr|]. destruct r as [b'|].
      * destruct Hpost as (Hin & Href & Hbec). split; [by right|done].
      * by rewrite <- app_assoc in Hpost.
  - rewrite run_bind_quiet. destruct (run_release taken (to_release amt tok req) (set_db w d1)) as (d' & -> & Hrel).
    simpl in Hrel. exists (Some b), d'. split; [done|]. split; [left|].
    assert (d1 = db w) as ->.
    { revert E. unfold hold. destruct (ceilings (db w) !! budget_id b) as [c|]; [|by intros [= <-]].
      destruct (hold_gates _ _ _ _ _ _); [done|by intros [= <-]]. }
    split.
    + intros t. revert E. destruct Hb as [_ Hbud _ Hceil]. specialize (Hceil (budget_id b)). unfold hold.
      destruct (ceilings d0 !! budget_id b) as [c|]; [|done]. destruct Hceil as (c' & -> & Hu & Hh & Hid).
      assert (hold_gates c' (budgets (db w) !! ceiling_budget_id c') amt tok req nr
              = hold_gates c (budgets d0 !! ceiling_budget_id c) amt tok req nr) as ->.
      { unfold held_on in Hh. rewrite decide_False in Hh by done. unfold hold_gates. by rewrite Hu, Hh, Hid, Hbud. }
      by destruct (hold_gates _ _ _ _ _ _).
    + eapply holds_become_ext; [|eapply holds_become_trans; [exact Hb|exact Hrel]].
      intros s c Hc. unfold held_on, released_on. destruct (decide (s ∈ taken)); [|done].
      apply released_added; [done|by eapply H0].
Qed.

(** Reserving a request's ceilings is all or nothing: with nothing failing, either every one of
    them ends holding the request's amounts on top of what it held, or one whose gate refuses
    the request is named and every ceiling holds exactly what it held. *)
Theorem reserve_all_or_nothing bs amt tok req nr w :
  held_nonneg (to_release amt tok req) ->
  (forall s c, ceilings (db w) !! s = Some c -> held_nonneg (ceiling_held c)) ->
  NoDup (budget_id <$> bs) ->
  exists r d', run_quiet (ScopedEnforcement.reserve bs amt tok req nr) w = (inr r, Clean, set_db w d')
    /\ match r with
       | None => holds_become (held_on (budget_id <$> bs) (to_release amt tok req)) (db w) d'
       | Some b => b ∈ bs /\ (forall t, (hold t (budget_id b) amt tok req nr (db w)).1 = false)
           /\ holds_become (fun _ h => h) (db w) d'
       end.
Proof.
  intros Ha Hn Hnd. apply (run_reserve_after [] bs amt tok req nr w (db w)); try done.
  eapply holds_become_ext; [|apply holds_become_refl]. intros s c _. unfold held_on.
  by rewrite decide_False by set_solver.
Qed.

Lemma reserve_all_or_nothing_witness :
  let bs := [mkApplicableBudget "team-ceiling" SCOPE_WORKSPACE None (Some 100) (Some 5);
             mkApplicableBudget "org-ceiling" SCOPE_ORGANIZATION None (Some 100) (Some 5)] in
  exists d', run_quiet (ScopedEnforcement.reserve bs (Some 400) 20 1 true) small_world = (inr None, Clean, set_db small_world d')
    /\ holds_become (held_on (budget_id <$> bs) (mkHeld 400 20 1)) small_db d'.
Proof.
  intros bs.
  assert (Hn : forall s c, ceilings (db small_world) !! s = Some c -> held_nonneg (ceiling_held c)).
  { intros s c Hc. assert (counter_held small_db (CCeiling s) = Some (ceiling_held c)) as H.
    { simpl. simpl in Hc. by rewrite Hc. }
    apply small_db_held in H as ->. apply held_nonneg_zero. }
  destruct (reserve_all_or_nothing bs (Some 400) 20 1 true small_world) as (r & d' & Hrun & H);
    [apply mkHeld_nonneg; simpl; lia|exact Hn|by apply (bool_decide_unpack _); vm_compute|].
  assert (r = None) as -> by (apply (f_equal (fun x => x.1.1)) in Hrun; vm_compute in Hrun; congruence).
  by exists d'.
Defined.
