(* ===== verification/Settlement.v ===== *)
(** The life of one hold with nothing failing: what a reservation writes, what its settlement,
    its refund and a late settlement leave, and that only one of them counts. *)
From S2P Require Import Prelude Periods Refusals Tables Repositories Session ScopedEnforcement Ledger Reservations.
From S2P Require Import Fixtures.
From stdpp Require Import gmap strings list fin_maps.
From Stdlib Require Import ZArith Lia.
Open Scope Z_scope.

(** ** Taking a hold on a user's own budget *)

(** What a request holds: its amounts clamped, and no dollars for a free model. *)
Definition request_amounts (a : reserve_args) : HeldAmounts :=
  mkHeld (if a_model_is_free a then 0 else Z.max (a_estimate a) 0)
    (Z.min (Z.max (a_estimated_tokens a) 0) MAX_COUNT_LIMIT) (Z.max (a_requests a) 0).

Definition request_usd (a : reserve_args) : option Z :=
  if a_model_is_free a then None else Some (Z.max (a_estimate a) 0).

(** A request that reaches the per-user gate of a live user in a running budget window. *)
Record gated_by_user (a : reserve_args) (w : world) (u : User) (b : Budget) : Prop := {
  gu_user : UserRows.active_user_with_budget (db w) (a_user_id a) = Some (u, Some b);
  gu_open : user_blocked u = false;
  gu_counts : a_counts_toward_budget a = true;
  gu_strategy : normalize_strategy (a_strategy a) <> "disabled"%string;
  gu_window : match next_budget_reset_at u with Some r => clock w < r | None => True end;
  gu_scope : a_scope a = None;
  gu_records : a_record_reservation a = true;
  gu_priced : a_model_is_free a = true -> is_set (token_limit b) || is_set (request_limit b) = true;
  gu_swept : ReservationRepo.list_expired (db w) (clock w) 20 (Some (a_user_id a)) = [];
  gu_fresh : reservations (db w) !! next_id w = None
}.

Definition user_admits (a : reserve_args) (b : Budget) (u : User) : bool :=
  user_guards b (request_usd a) (tokens (request_amounts a)) (requests (request_amounts a)) (a_new_request a) u.

(** The user's row with a hold more, and the row that records it. *)
Definition held_db (a : reserve_args) (w : world) (u : User) : database :=
  insert_reservation
    (set_users (db w) (<[a_user_id a := set_user_counters u (clock w) (user_used u)
       (add_held (user_held u) (request_amounts a))]> (users (db w))))
    (next_id w)
    (mkReservation (a_user_id a) (request_amounts a) true RESERVATION_ACTIVE
       (clock w + a_reservation_ttl_sec a * SECOND) []).

Definition held_handle_of (a : reserve_args) (w : world) : ReservationHandle :=
  mkHandle (a_user_id a) (amount (request_amounts a)) true (normalize_strategy (a_strategy a)) true []
    0 (tokens (request_amounts a)) 0 (requests (request_amounts a)) 0 (Some (next_id w))
    (a_reservation_ttl_sec a) [].

Lemma run_hold_on_user st w amounts :
  run (hold_on_user st [] amounts) [] Clean w
  = (inr (st (clock w) (db w)).1, Dirty (st (clock w) (db w)).2, w).
Proof. reflexivity. Qed.

Lemma run_user_handle a w d :
  reservations d !! next_id w = None ->
  let amounts := request_amounts a in
  run (held_handle (a_user_id a) true amounts (normalize_strategy (a_strategy a)) true [] zero_held []
         (a_reservation_ttl_sec a) true true) [] (Dirty d) w
  = (inr (held_handle_of a w), Clean,
     mkWorld (insert_reservation d (next_id w) (mkReservation (a_user_id a) amounts true RESERVATION_ACTIVE
       (clock w + a_reservation_ttl_sec a * SECOND) [])) (clock w) (S (next_id w))).
Proof. intros Hd amounts. simpl. unfold ReservationRepo.add. rewrite Hd. reflexivity. Qed.

Lemma run_reserve_user_leg a w u b :
  gated_by_user a w u b ->
  let amounts := request_amounts a in
  let p := reserve_user_leg a (normalize_strategy (a_strategy a)) b (request_usd a) (tokens amounts) (requests amounts) [] [] in
  if user_admits a b u
  then run p [] Clean w = (inr (held_handle_of a w), Clean, mkWorld (held_db a w u) (clock w) (S (next_id w)))
  else exists e, run p [] Clean w = (inl e, Clean, w) /\ is_http_exception e = true.
Proof.
  intros [H1 _ H3 _ _ _ H7 _ _ H10] amounts.
  apply bind_Some in H1 as (u' & Hu & [= <- _]).
  assert (Heq : mkHeld (default 0 (request_usd a)) (tokens amounts) (requests amounts) = amounts).
  { unfold amounts, request_usd, request_amounts. simpl. by destruct (a_model_is_free a). }
  assert (Hadmit : forall guard, guard u' = true ->
    run (let! held := hold_on_user (fun t => UserRows.update_user t (a_user_id a) guard (UserRows.add_hold amounts)) [] amounts in
         held_handle (a_user_id a) true amounts (normalize_strategy (a_strategy a)) true [] zero_held []
           (a_reservation_ttl_sec a) true true) [] Clean w
    = (inr (held_handle_of a w), Clean, mkWorld (held_db a w u') (clock w) (S (next_id w)))).
  { intros guard Hg. rewrite run_bind_quiet, run_hold_on_user. unfold UserRows.update_user. rewrite Hu, Hg. cbn [fst snd].
    by apply run_user_handle. }
  unfold reserve_user_leg. rewrite Heq, H3, H7. unfold user_admits. fold amounts.
  change (ceiling_held_of [] (request_usd a) (tokens amounts) (requests amounts)) with zero_held.
  destruct (max_budget b) as [m|] eqn:Em, (token_limit b) as [tl|] eqn:Et, (request_limit b) as [rl|] eqn:Er.
  8: { unfold user_guards. rewrite Em, Et, Er. by apply (Hadmit (fun _ => true)). }
  all: destruct (user_guards _ _ _ _ _ _) eqn:Eg; rewrite run_bind_quiet, run_hold_on_user;
    unfold UserRows.update_user; rewrite Hu, Eg; cbn [fst snd]; [by apply run_user_handle|];
    simpl; rewrite Hu; simpl; eexists; split; [by destruct w|done].
Qed.

(** A reservation with nothing failing: the hold and its row, or a 403 and nothing. *)
Lemma run_reserve_user a w u b :
  gated_by_user a w u b ->
  if user_admits a b u
  then run_quiet (reserve_budget a) w
         = (inr (held_handle_of a w), Clean, mkWorld (held_db a w u) (clock w) (S (next_id w)))
  else exists e, run_quiet (reserve_budget a) w = (inl e, Clean, w) /\ is_http_exception e = true.
Proof.
  intros Hg. pose proof (run_reserve_user_leg a w u b Hg) as Hleg.
  destruct Hg as [H1 H2 H3 H4 H5 H6 H7 H8 H9 H10]. cbv zeta in Hleg.
  assert (run_quiet (reserve_budget a) w = run (reserve_user_leg a (normalize_strategy (a_strategy a)) b (request_usd a)
    (tokens (request_amounts a)) (requests (request_amounts a)) [] []) [] Clean w) as ->; [|exact Hleg].
  unfold run_quiet, reserve_budget. rewrite run_bind_quiet. cbn [run query next_fault reads_from]. simpl.
  rewrite H1. rewrite H2, H3. simpl. rewrite bool_decide_eq_false_2 by done. unfold reserve_checked.
  rewrite run_bind_quiet.
  assert (run (let! t := now in match next_budget_reset_at u with
      | Some r => if r <=? t then cas_reset_user_budget (a_user_id a) u b t else Ret u
      | None => Ret u end) [] Clean w = (inr u, Clean, w)) as ->.
  { simpl. destruct (next_budget_reset_at u) as [r|]; [|done]. by rewrite (proj2 (Z.leb_gt _ _) H5). }
  rewrite H6. cbn [bind handle]. cbv zeta. cbn [is_set negb andb existsb].
  assert (a_model_is_free a && negb (is_set (token_limit b) || is_set (request_limit b)) && true = false) as ->.
  { destruct (a_model_is_free a); [|done]. by rewrite H8. }
  unfold reserve_holds. rewrite H7. rewrite run_bind_quiet.
  assert (forall c : bool, run (if true && c then reclaim_expired_for_user (a_user_id a) 20 ;;! Ret tt else Ret tt) [] Clean w
            = (inr tt, Clean, w)) as ->.
  { intros []; [|done]. simpl. by rewrite H9. }
  reflexivity.
Qed.

(** ** Settling a hold *)

Lemma counter_users_same d d' c :
  users d' = users d -> ceilings d' = ceilings d ->
  counter_used d' c = counter_used d c /\ counter_held d' c = counter_held d c.
Proof. intros Hu Hc. destruct c; simpl; by rewrite ?Hu, ?Hc. Qed.

(** What an update of one user's counters does to every counter. *)
Lemma counters_update_user t u (fu fh : HeldAmounts -> HeldAmounts) d d' :
  (UserRows.update_user t u (fun _ => true) (fun r => (fu (user_used r), fh (user_held r))) d).2 = d' ->
  reservations d' = reservations d
  /\ forall c, counter_used d' c = (if decide (c = CUser u) then fu else id) <$> counter_used d c
      /\ counter_held d' c = (if decide (c = CUser u) then fh else id) <$> counter_held d c.
Proof.
  intros <-. unfold UserRows.update_user, UserRows.get_active_user.
  destruct (users d !! u) as [r|] eqn:Hr; simpl; [destruct (user_deleted r) eqn:Hd; simpl|].
  - split; [done|]. intros c. destruct (decide (c = CUser u)) as [->|]; [|by rewrite !option_fmap_id].
    simpl. rewrite Hr. simpl. by rewrite Hd.
  - split; [done|]. intros [u'|s]; simpl; [|by rewrite !option_fmap_id].
    destruct (decide (CUser u' = CUser u)) as [[= ->]|Hne].
    + rewrite lookup_insert_eq, Hr. simpl. by rewrite Hd.
    + rewrite lookup_insert_ne by congruence. by rewrite !option_fmap_id.
  - split; [done|]. intros c. destruct (decide (c = CUser u)) as [->|]; [|by rewrite !option_fmap_id].
    simpl. by rewrite Hr.
Qed.

Lemma added_add amounts h : held_nonneg amounts -> added amounts h = add_held h amounts.
Proof.
  intros Hn. apply held_ext. intros a. specialize (Hn a). unfold added, map_axes.
  destruct a; simpl in *; match goal with |- (if ?b then _ else _) = _ => destruct b eqn:E end; reflect_bools; lia.
Qed.

Lemma released_zero amounts h : held_nonneg amounts -> any_positive amounts = false -> released amounts h = h.
Proof.
  intros _. unfold any_positive. intros H. reflect_bools. apply held_ext. intros a. unfold released, map_axes.
  destruct a; simpl; rewrite (proj2 (Z.ltb_ge _ _)) by lia; done.
Qed.

Lemma counters_settle t ids used held d :
  held_nonneg used -> held_nonneg held ->
  let d' := CeilingRepo.settle t ids used held d in
  reservations d' = reservations d
  /\ forall c,
      counter_used d' c = match c with
        | CCeiling s => (if decide (s ∈ ids) then fun x => add_held x used else id) <$> counter_used d c
        | CUser _ => counter_used d c end
      /\ counter_held d' c = match c with
        | CCeiling s => (if decide (s ∈ ids) then released held else id) <$> counter_held d c
        | CUser _ => counter_held d c end.
Proof.
  intros Hu Hh. unfold CeilingRepo.settle. destruct (bool_decide (ids = []) || _) eqn:E; cbv zeta.
  - split; [done|]. intros [u|s]; [done|]. apply orb_true_iff in E as [E|E].
    { apply bool_decide_eq_true in E as ->. rewrite decide_False by set_solver. by rewrite !option_fmap_id. }
    apply negb_true_iff, orb_false_iff in E as [E1 E2].
    assert (forall x, add_held x used = x) as Hadd.
    { intros x. rewrite <- added_add by done. apply held_ext. intros a. unfold any_positive in E1. reflect_bools.
      unfold added, map_axes. destruct a; simpl; rewrite (proj2 (Z.ltb_ge _ _)) by lia; done. }
    destruct (decide (s ∈ ids)); [|by rewrite !option_fmap_id]. split.
    + destruct (counter_used d (CCeiling s)); [|done]. cbn [fmap option_fmap option_map]. by rewrite Hadd.
    + destruct (counter_held d (CCeiling s)); [|done]. cbn [fmap option_fmap option_map]. by rewrite released_zero.
  - split; [done|]. intros [u|s]; [done|]. simpl. rewrite map_lookup_imap.
    destruct (ceilings d !! s) as [c|]; simpl; [|by destruct (decide (s ∈ ids))].
    destruct (decide (s ∈ ids)) as [Hin|Hin];
      [rewrite bool_decide_eq_true_2 by done|rewrite bool_decide_eq_false_2 by done]; simpl; [|done].
    by rewrite added_add.
Qed.

(** What a settlement of [h] spends on a counter, and what it gives back of its hold. *)
Definition spends_on (h : ReservationHandle) (cost tok : Z) (c : counter) : HeldAmounts :=
  if counts_toward_budget h then
    match c with
    | CUser u =>
        if decide (u = user_id h) then
          mkHeld (Z.max cost 0) (if reserved h then Z.max tok 0 else 0) (if reserved h then request_estimate h else 0)
        else zero_held
    | CCeiling s =>
        if decide (s ∈ scoped_budget_ids h)
        then mkHeld (Z.max cost 0) (Z.max tok 0) (scoped_request_estimate h) else zero_held
    end
  else zero_held.

Definition gives_back (h : ReservationHandle) (c : counter) (held : HeldAmounts) : HeldAmounts :=
  match c with
  | CUser u => if decide (u = user_id h) then (if reserved h then release_leg h held else held) else held
  | CCeiling s => if decide (s ∈ scoped_budget_ids h) then released (scoped_leg h) held else held
  end.

Lemma add_held_zero x : add_held x zero_held = x.
Proof. unfold add_held. simpl. rewrite !Z.add_0_r. by destruct x. Qed.

(** The statements of a settlement after its claim: the user's row, then the ceilings. *)
Definition after_settlement (h : ReservationHandle) (cost tok : Z) (frees : bool) (d d' : database) : Prop :=
  reservations d' = reservations d /\
  forall c,
    counter_used d' c = (fun x => add_held x (spends_on h cost tok c)) <$> counter_used d c
    /\ counter_held d' c = (if frees then gives_back h c else id) <$> counter_held d c.

Lemma run_settlement_body (b : bool) u f ids cost tok req held counts d w :
  run ((if b then update_rowcount (fun t => UserRows.update_user t u (fun _ => true) f) ;;! Ret tt else Ret tt) ;;!
       ScopedEnforcement.settle ids cost tok req held counts false ;;! commit) [] (Dirty d) w
  = (inr tt, Clean, set_db w (CeilingRepo.settle (clock w) ids (if counts then mkHeld cost tok req else zero_held) held
       (if b then (UserRows.update_user (clock w) u (fun _ => true) f d).2 else d))).
Proof.
  unfold ScopedEnforcement.settle, CeilingRepo.settle.
  destruct b, (bool_decide (ids = []) || negb (any_positive (if counts then mkHeld cost tok req else zero_held) || any_positive held));
    reflexivity.
Qed.

Lemma settlement_counters h cost tok (late : bool) t d :
  held_nonneg (user_leg h) -> held_nonneg (scoped_leg h) ->
  let spent := Z.max cost 0 in
  let settled_tokens := Z.max tok 0 in
  let spends := negb (spent =? 0) && counts_toward_budget h in
  let windows := reserved h && counts_toward_budget h in
  let releases := reserved h && negb late in
  after_settlement h cost tok (negb late) d
    (CeilingRepo.settle t (scoped_budget_ids h)
       (if counts_toward_budget h then mkHeld spent settled_tokens (scoped_request_estimate h) else zero_held)
       (if late then zero_held else scoped_leg h)
       (if spends || (windows && (negb (settled_tokens =? 0) || negb (request_estimate h =? 0))) || releases
        then (UserRows.update_user t (user_id h) (fun _ => true) (fun u =>
         (add_held (user_used u) (mkHeld (if spends then spent else 0) (if windows then settled_tokens else 0)
            (if windows then request_estimate h else 0)),
          if releases then release_leg h (user_held u) else user_held u)) d).2
        else d)).
Proof.
  intros Hu Hs spent settled spends windows releases.
  pose proof (Hu Req) as Hreq. pose proof (Hs Req) as Hsreq. simpl in Hreq, Hsreq.
  set (held := if late then zero_held else scoped_leg h).
  set (used := if counts_toward_budget h then _ else zero_held).
  assert (Hheld : held_nonneg held) by (subst held; destruct late; [apply held_nonneg_zero|done]).
  assert (Hused : held_nonneg used).
  { subst used. destruct (counts_toward_budget h); [|apply held_nonneg_zero]. apply mkHeld_nonneg; lia. }
  set (fu := fun x => add_held x (mkHeld (if spends then spent else 0) (if windows then settled else 0)
            (if windows then request_estimate h else 0))).
  set (fh := fun x => if releases then release_leg h x else x).
  set (touches := spends || _ || _).
  set (d1 := if touches then _ else d).
  assert (H1 : reservations d1 = reservations d /\ forall c,
    counter_used d1 c = (if decide (c = CUser (user_id h)) then fu else id) <$> counter_used d c
    /\ counter_held d1 c = (if decide (c = CUser (user_id h)) then fh else id) <$> counter_held d c).
  { subst d1. destruct touches eqn:Et; [by apply (counters_update_user t _ fu fh)|]. split; [done|]. intros c.
    subst touches. apply orb_false_iff in Et as [Et Er]. apply orb_false_iff in Et as [Es Ew].
    assert (forall x, fu x = x) as Hfu.
    { intros x. subst fu. cbv beta. rewrite Es. replace (mkHeld _ _ _) with zero_held; [apply add_held_zero|].
      unfold zero_held. destruct windows; [|done]. simpl in Ew. reflect_bools. by rewrite H, H0. }
    destruct (decide _); [|by rewrite !option_fmap_id]. subst fh. cbv beta. rewrite Er. split.
    - destruct (counter_used d c); [|done]. cbn [fmap option_fmap option_map]. by rewrite Hfu.
    - by destruct (counter_held d c). }
  destruct H1 as [R1 C1]. destruct (counters_settle t (scoped_budget_ids h) used held d1 Hused Hheld) as [R2 C2].
  split; [by rewrite R2|]. intros c. specialize (C1 c). specialize (C2 c). destruct C1 as [U1 W1], C2 as [U2 W2].
  rewrite U2, W2, U1, W1. destruct c as [u|s].
  - split.
    + destruct (counter_used d (CUser u)) as [x|]; [|by destruct (decide _)].
      unfold spends_on. destruct (decide (CUser u = CUser (user_id h))) as [[= ->]|Hne]; simpl.
      * rewrite decide_True by done. f_equal. subst fu. cbv beta. subst spends windows.
        destruct (counts_toward_budget h), (reserved h); simpl; rewrite ?andb_false_r, ?andb_true_r; try done.
        all: destruct (spent =? 0) eqn:E; reflect_bools; simpl; f_equal; f_equal; lia.
      * rewrite decide_False by congruence. by destruct (counts_toward_budget h); rewrite add_held_zero.
    + destruct (counter_held d (CUser u)) as [x|]; [|by destruct (decide _), late].
      destruct (decide (CUser u = CUser (user_id h))) as [[= ->]|Hne]; simpl.
      * subst fh releases. destruct late; simpl; [by rewrite andb_false_r|]. rewrite decide_True by done.
        by rewrite andb_true_r.
      * destruct late; simpl; [done|]. by rewrite decide_False by congruence.
  - rewrite !(decide_False (P := CCeiling s = CUser (user_id h))) by done. rewrite !option_fmap_id. split.
    + unfold spends_on. subst used. destruct (counter_used d (CCeiling s)) as [x|]; [|by destruct (decide _)].
      destruct (counts_toward_budget h), (decide (s ∈ scoped_budget_ids h)); simpl; by rewrite ?add_held_zero.
    + subst held. destruct (counter_held d (CCeiling s)) as [x|]; [|by destruct (decide _), late].
      destruct late; cbn [negb]; unfold gives_back; destruct (decide (s ∈ _));
        cbn [fmap option_fmap option_map]; try done.
      by rewrite released_zero by (try apply held_nonneg_zero; done).
Qed.

Lemma set_db_same w : set_db w (db w) = w.
Proof. by destruct w. Qed.

(** A settlement of a handle whose row is neither active nor expired writes nothing. *)
Lemma run_reconcile_finished h cost tok i w :
  reservation_id h = Some i ->
  (forall r, reservations (db w) !! i = Some r -> status r <> RESERVATION_ACTIVE /\ status r <> RESERVATION_EXPIRED) ->
  run_quiet (reconcile_reservation h cost tok) w = (inr tt, Clean, w).
Proof.
  intros Hid Hr. unfold run_quiet, reconcile_reservation. rewrite Hid. simpl.
  unfold ReservationRepo.try_terminate, ReservationRepo.try_settle_reclaimed, ReservationRepo.transition.
  destruct (reservations (db w) !! i) as [r|] eqn:E; [|simpl; rewrite E; simpl; by rewrite set_db_same].
  destruct (Hr r eq_refl) as [H1 H2]. rewrite !decide_False by done. simpl. rewrite E, !decide_False by done.
  simpl. by rewrite set_db_same.
Qed.

Lemma run_refund_finished h i w :
  reservation_id h = Some i ->
  (forall r, reservations (db w) !! i = Some r -> status r <> RESERVATION_ACTIVE) ->
  run_quiet (refund_reservation h) w = (inr tt, Clean, w).
Proof.
  intros Hid Hr. unfold run_quiet, refund_reservation. rewrite Hid. simpl.
  unfold ReservationRepo.try_terminate, ReservationRepo.transition.
  destruct (reservations (db w) !! i) as [r|] eqn:E; [|simpl; by rewrite set_db_same].
  rewrite !decide_False by by apply Hr. simpl. by rewrite set_db_same.
Qed.

(** The row of [i], and what a settlement finds it to be. *)
Definition row_status (d : database) (i : nat) : option ReservationStatus := status <$> reservations d !! i.

Lemma run_reconcile h cost tok i w :
  reservation_id h = Some i -> held_nonneg (user_leg h) -> held_nonneg (scoped_leg h) ->
  exists d', run_quiet (reconcile_reservation h cost tok) w = (inr tt, Clean, set_db w d')
    /\ (forall j, j <> i -> reservations d' !! j = reservations (db w) !! j)
    /\ match row_status (db w) i with
       | Some RESERVATION_ACTIVE => row_status d' i = Some RESERVATION_SETTLED
           /\ forall c, counter_used d' c = (fun x => add_held x (spends_on h cost tok c)) <$> counter_used (db w) c
                /\ counter_held d' c = gives_back h c <$> counter_held (db w) c
       | Some RESERVATION_EXPIRED => row_status d' i = Some RESERVATION_SETTLED
           /\ forall c, counter_used d' c = (fun x => add_held x (spends_on h cost tok c)) <$> counter_used (db w) c
                /\ counter_held d' c = counter_held (db w) c
       | _ => d' = db w
       end.
Proof.
  intros Hid Hu Hs. unfold row_status at 1.
  destruct (reservations (db w) !! i) as [r|] eqn:Er; simpl.
  2: { exists (db w). rewrite (run_reconcile_finished h cost tok i w Hid); [by rewrite set_db_same|congruence]. }
  destruct (status r) eqn:Es.
  2,3: exists (db w); rewrite (run_reconcile_finished h cost tok i w Hid); [by rewrite set_db_same|];
       intros r' Hr'; rewrite Er in Hr'; injection Hr' as <-; by rewrite Es.
  - set (d1 := set_reservations (db w) (<[i := set_status r RESERVATION_SETTLED]> (reservations (db w)))).
    destruct (settlement_counters h cost tok false (clock w) d1 Hu Hs) as [R C].
    match type of R with reservations ?D = _ => exists D end. split; [|split; [|split]].
    + unfold run_quiet, reconcile_reservation. rewrite Hid. simpl.
      unfold ReservationRepo.try_terminate, ReservationRepo.transition. rewrite Er, decide_True by done.
      cbn [fst snd negb andb]. exact (run_settlement_body _ _ _ _ _ _ _ _ _ d1 w).
    + intros j Hj. rewrite R. simpl. by rewrite lookup_insert_ne.
    + unfold row_status. rewrite R. simpl. by rewrite lookup_insert_eq.
    + intros c. destruct (counter_users_same (db w) d1 c eq_refl eq_refl) as [<- <-]. apply C.
  - set (d1 := set_reservations (db w) (<[i := set_status r RESERVATION_SETTLED]> (reservations (db w)))).
    destruct (settlement_counters h cost tok true (clock w) d1 Hu Hs) as [R C].
    match type of R with reservations ?D = _ => exists D end. split; [|split; [|split]].
    + unfold run_quiet, reconcile_reservation. rewrite Hid. simpl.
      unfold ReservationRepo.try_terminate, ReservationRepo.try_settle_reclaimed, ReservationRepo.transition.
      rewrite Er, decide_False by congruence. simpl. rewrite Er, decide_True by done.
      cbn [fst snd negb andb]. exact (run_settlement_body _ _ _ _ _ _ _ _ _ d1 w).
    + intros j Hj. rewrite R. simpl. by rewrite lookup_insert_ne.
    + unfold row_status. rewrite R. simpl. by rewrite lookup_insert_eq.
    + intros c. destruct (counter_users_same (db w) d1 c eq_refl eq_refl) as [<- <-]. destruct (C c) as [? C2].
      split; [done|]. rewrite C2. by rewrite option_fmap_id.
Qed.

Lemma run_refund h i w :
  reservation_id h = Some i -> held_nonneg (scoped_leg h) ->
  exists d', run_quiet (refund_reservation h) w = (inr tt, Clean, set_db w d')
    /\ (forall j, j <> i -> reservations d' !! j = reservations (db w) !! j)
    /\ match row_status (db w) i with
       | Some RESERVATION_ACTIVE => row_status d' i = Some RESERVATION_RELEASED
           /\ forall c, counter_used d' c = counter_used (db w) c
                /\ counter_held d' c = gives_back h c <$> counter_held (db w) c
       | _ => d' = db w
       end.
Proof.
  intros Hid Hs. unfold row_status at 1.
  destruct (reservations (db w) !! i) as [r|] eqn:Er; simpl.
  2: { exists (db w). rewrite (run_refund_finished h i w Hid); [by rewrite set_db_same|congruence]. }
  destruct (status r) eqn:Es.
  2-4: exists (db w); rewrite (run_refund_finished h i w Hid); [by rewrite set_db_same|];
       intros r' Hr'; rewrite Er in Hr'; injection Hr' as <-; by rewrite Es.
  set (d1 := set_reservations (db w) (<[i := set_status r RESERVATION_RELEASED]> (reservations (db w)))).
  set (d2 := if reserved h then (UserRows.update_user (clock w) (user_id h) (fun _ => true)
               (fun u => (user_used u, release_leg h (user_held u))) d1).2 else d1).
  set (d3 := CeilingRepo.release_holds (clock w) (scoped_budget_ids h) (scoped_leg h) d2).
  assert (Hsettle : d3 = CeilingRepo.settle (clock w) (scoped_budget_ids h) zero_held (scoped_leg h) d2).
  { subst d3. unfold CeilingRepo.release_holds, CeilingRepo.settle.
    change (any_positive zero_held || any_positive (scoped_leg h)) with (any_positive (scoped_leg h)).
    destruct (bool_decide (scoped_budget_ids h = []) || negb (any_positive (scoped_leg h))); [done|].
    unfold CeilingRepo.update_counters. f_equal. apply map_eq. intros s. rewrite !map_lookup_imap.
    destruct (ceilings d2 !! s) as [c|]; [|done]. simpl. destruct (bool_decide _); [|done].
    by rewrite added_add, add_held_zero by apply held_nonneg_zero. }
  assert (H2 : reservations d2 = reservations d1 /\ forall c, counter_used d2 c = counter_used d1 c
    /\ counter_held d2 c = (if decide (c = CUser (user_id h)) then (if reserved h then release_leg h else id) else id)
         <$> counter_held d1 c).
  { subst d2. destruct (reserved h).
    - destruct (counters_update_user (clock w) (user_id h) id (release_leg h) d1 _ eq_refl) as [R C]. split; [done|].
      intros c. destruct (C c) as [C1 C2]. split; [|exact C2]. etrans; [exact C1|]. destruct (decide _); by rewrite option_fmap_id.
    - split; [done|]. intros c. split; [done|]. destruct (decide _); by rewrite option_fmap_id. }
  destruct H2 as [R2 C2]. destruct (counters_settle (clock w) (scoped_budget_ids h) zero_held (scoped_leg h) d2
    held_nonneg_zero Hs) as [R3 C3]. rewrite <- Hsettle in R3, C3.
  exists d3. split; [|split; [|split]].
  - unfold run_quiet, refund_reservation. rewrite Hid. simpl.
    unfold ReservationRepo.try_terminate, ReservationRepo.transition. rewrite Er, decide_True by done.
    cbn [fst snd negb andb]. subst d3 d2. unfold ScopedEnforcement.release, CeilingRepo.release_holds.
    destruct (reserved h), (bool_decide (scoped_budget_ids h = []) || negb (any_positive (scoped_leg h))); reflexivity.
  - intros j Hj. rewrite R3, R2. simpl. by rewrite lookup_insert_ne.
  - unfold row_status. rewrite R3, R2. simpl. by rewrite lookup_insert_eq.
  - intros c. destruct (counter_users_same (db w) d1 c eq_refl eq_refl) as [<- <-].
    destruct (C3 c) as [U3 W3], (C2 c) as [U2 W2]. rewrite U3, W3, U2, W2. destruct c as [u|s].
    + split; [done|]. destruct (counter_held d1 (CUser u)) as [x|]; [|by destruct (decide _)].
      unfold gives_back. destruct (decide (CUser u = CUser (user_id h))) as [[= ->]|Hne]; simpl.
      * rewrite decide_True by done. by destruct (reserved h).
      * by rewrite decide_False by congruence.
    + rewrite !(decide_False (P := CCeiling s = CUser (user_id h))) by done. rewrite !option_fmap_id. split.
      * destruct (counter_used d1 (CCeiling s)) as [x|]; [|by destruct (decide _)].
        destruct (decide _); cbn [fmap option_fmap option_map]; by rewrite ?add_held_zero.
      * destruct (counter_held d1 (CCeiling s)) as [x|]; [|by destruct (decide _)].
        unfold gives_back. by destruct (decide _).
Qed.

(** ** Properties *)

(** C12: a settlement of a recorded hold counts once, whichever way it raced the sweep.  With its
    row active it spends its cost, tokens and request on every counter of its legs and gives
    every hold back; with its row expired, the sweep having given the holds back, it spends
    and gives nothing back; otherwise it writes nothing.  No later settlement or refund of the
    same handle writes anything. *)
Theorem reconcile_settles_once h cost tok i w :
  reservation_id h = Some i -> held_nonneg (user_leg h) -> held_nonneg (scoped_leg h) ->
  exists d', run_quiet (reconcile_reservation h cost tok) w = (inr tt, Clean, set_db w d')
    /\ match row_status (db w) i with
       | Some RESERVATION_ACTIVE => row_status d' i = Some RESERVATION_SETTLED
           /\ forall c, counter_used d' c = (fun x => add_held x (spends_on h cost tok c)) <$> counter_used (db w) c
                /\ counter_held d' c = gives_back h c <$> counter_held (db w) c
       | Some RESERVATION_EXPIRED => row_status d' i = Some RESERVATION_SETTLED
           /\ forall c, counter_used d' c = (fun x => add_held x (spends_on h cost tok c)) <$> counter_used (db w) c
                /\ counter_held d' c = counter_held (db w) c
       | _ => d' = db w
       end
    /\ (forall cost' tok', run_quiet (reconcile_reservation h cost' tok') (set_db w d') = (inr tt, Clean, set_db w d'))
    /\ run_quiet (refund_reservation h) (set_db w d') = (inr tt, Clean, set_db w d').
Proof.
  intros Hid Hu Hs. destruct (run_reconcile h cost tok i w Hid Hu Hs) as (d' & Hrun & _ & Hpost).
  assert (Hdone : forall r, reservations (db (set_db w d')) !! i = Some r ->
    status r <> RESERVATION_ACTIVE /\ status r <> RESERVATION_EXPIRED).
  { simpl. intros r Hr. unfold row_status in Hpost. rewrite Hr in Hpost. simpl in Hpost.
    destruct (reservations (db w) !! i) as [r0|] eqn:E; simpl in Hpost.
    - destruct (status r0) eqn:Es; try (destruct Hpost as [[= ->] _]; done);
        subst d'; rewrite E in Hr; injection Hr as <-; by rewrite Es.
    - subst d'. congruence. }
  exists d'. split; [done|]. split; [done|]. split.
  - intros. by apply (run_reconcile_finished h _ _ i).
  - apply (run_refund_finished h i); [done|]. intros r Hr. by apply Hdone.
Qed.

(** The state a reservation leaves, for the witnesses: ann's hold of 400, 20 and 1 in row 0. *)
Definition ann_request : reserve_args :=
  mkReserve "ann" 400 20 1 true (Some "for_update"%string) true None false 600 true None.
Definition ann_handle : ReservationHandle := held_handle_of ann_request small_world.
Definition ann_world : world := mkWorld (held_db ann_request small_world ann) 0 1.

Lemma ann_gated : gated_by_user ann_request small_world ann small_budget.
Proof. by split. Qed.

Lemma reconcile_settles_once_witness :
  exists d', run_quiet (reconcile_reservation ann_handle 250 8) ann_world = (inr tt, Clean, set_db ann_world d')
    /\ row_status d' 0 = Some RESERVATION_SETTLED
    /\ counter_used d' (CUser "ann") = Some (mkHeld 250 8 1)
    /\ counter_held d' (CUser "ann") = Some zero_held.
Proof.
  destruct (reconcile_settles_once ann_handle 250 8 0 ann_world eq_refl) as (d' & Hrun & Hpost & _);
    [apply mkHeld_nonneg; vm_compute; congruence|apply mkHeld_nonneg; vm_compute; congruence|].
  exists d'. split; [exact Hrun|]. change (row_status (db ann_world) 0) with (Some RESERVATION_ACTIVE) in Hpost.
  destruct Hpost as [Hrow Hc]. split; [done|]. destruct (Hc (CUser "ann")) as [-> ->]. by vm_compute.
Defined.

(** A refund gives back every hold of a live row once and spends nothing; of a row the sweep
    reclaimed, or one already settled or refunded, it gives nothing back. *)
Theorem refund_gives_back_once h i w :
  reservation_id h = Some i -> held_nonneg (scoped_leg h) ->
  exists d', run_quiet (refund_reservation h) w = (inr tt, Clean, set_db w d')
    /\ match row_status (db w) i with
       | Some RESERVATION_ACTIVE => row_status d' i = Some RESERVATION_RELEASED
           /\ forall c, counter_used d' c = counter_used (db w) c
                /\ counter_held d' c = gives_back h c <$> counter_held (db w) c
       | _ => d' = db w
       end
    /\ run_quiet (refund_reservation h) (set_db w d') = (inr tt, Clean, set_db w d').
Proof.
  intros Hid Hs. destruct (run_refund h i w Hid Hs) as (d' & Hrun & _ & Hpost).
  exists d'. split; [done|]. split; [done|]. apply (run_refund_finished h i); [done|].
  simpl. intros r Hr. unfold row_status in Hpost. rewrite Hr in Hpost. simpl in Hpost.
  destruct (reservations (db w) !! i) as [r0|] eqn:E; simpl in Hpost.
  - destruct (status r0) eqn:Es; try (destruct Hpost as [[= ->] _]; done);
      subst d'; rewrite E in Hr; injection Hr as <-; by rewrite Es.
  - subst d'. congruence.
Qed.

Lemma refund_gives_back_once_witness :
  exists d', run_quiet (refund_reservation ann_handle) ann_world = (inr tt, Clean, set_db ann_world d')
    /\ row_status d' 0 = Some RESERVATION_RELEASED
    /\ counter_used d' (CUser "ann") = Some zero_held
    /\ counter_held d' (CUser "ann") = Some zero_held.
Proof.
  destruct (refund_gives_back_once ann_handle 0 ann_world eq_refl) as (d' & Hrun & Hpost & _);
    [apply mkHeld_nonneg; vm_compute; congruence|].
  exists d'. split; [exact Hrun|]. change (row_status (db ann_world) 0) with (Some RESERVATION_ACTIVE) in Hpost.
  destruct Hpost as [Hrow Hc]. split; [done|]. destruct (Hc (CUser "ann")) as [-> ->]. by vm_compute.
Defined.

Lemma user_guards_room b usd tok req nr u :
  user_guards b usd tok req nr u = true ->
  forall a cap, cap_on b a = Some cap -> (a = Usd -> is_Some usd) ->
    at_axis (user_used u) a + (at_axis (user_held u) a + at_axis (mkHeld (default 0 usd) tok req) a) <= cap
    /\ (nr = true -> at_axis (user_used u) a + at_axis (user_held u) a < cap).
Proof.
  unfold user_guards, guards_for. intros H a cap Hcap Husd. rewrite !andb_true_iff in H.
  destruct H as [[H1 H2] H3]. destruct a; simpl in Hcap; rewrite Hcap in *.
  - destruct (Husd eq_refl) as [x ->]. apply andb_true_iff in H1 as [H1 Hn]. simpl in *. reflect_bools.
    split; [lia|]. intros ->. reflect_bools. lia.
  - apply andb_true_iff in H2 as [H2 Hn]. simpl in *. reflect_bools. split; [lia|]. intros ->. reflect_bools. lia.
  - apply andb_true_iff in H3 as [H3 Hn]. simpl in *. reflect_bools. split; [lia|]. intros ->. reflect_bools. lia.
Qed.

(** C14: admission to a user's own budget, with nothing failing: either the request's amounts are
    held on the user's row and recorded, all three, on one active ledger row, with no capped
    axis committed past its cap and every other counter as it was; or an HTTP error is raised
    and the database is untouched. *)
Theorem reserve_budget_admits a w u b :
  gated_by_user a w u b ->
  if user_admits a b u
  then exists h w', run_quiet (reserve_budget a) w = (inr h, Clean, w')
    /\ reservation_id h = Some (next_id w) /\ user_leg h = request_amounts a /\ scoped_leg h = zero_held
    /\ (exists r, reservations (db w') !! next_id w = Some r /\ status r = RESERVATION_ACTIVE
          /\ user_reserved r = true /\ row_user_id r = a_user_id a /\ row_held r = request_amounts a)
    /\ (forall c, counter_used (db w') c = counter_used (db w) c
          /\ counter_held (db w') c =
               (if decide (c = CUser (a_user_id a)) then fun x => add_held x (request_amounts a) else id)
                 <$> counter_held (db w) c)
    /\ (forall x cap, cap_on b x = Some cap -> (x = Usd -> a_model_is_free a = false) ->
          at_axis (user_used u) x + at_axis (add_held (user_held u) (request_amounts a)) x <= cap)
  else exists e, run_quiet (reserve_budget a) w = (inl e, Clean, w) /\ is_http_exception e = true.
Proof.
  intros Hg. pose proof (run_reserve_user a w u b Hg) as H.
  destruct (user_admits a b u) eqn:Ea; [|exact H]. eexists _, _. split; [exact H|].
  split; [done|]. split; [done|]. split; [done|]. split.
  { eexists. simpl. split; [apply lookup_insert_eq|]. done. }
  destruct Hg as [Hu _ _ _ _ _ _ _ _ _]. apply bind_Some in Hu as (u' & Hu & [= <- _]).
  assert (users (db w) !! a_user_id a = Some u' /\ user_deleted u' = false) as [Hu1 Hu2].
  { apply bind_Some in Hu as (u'' & H1 & H2). destruct (user_deleted u'') eqn:Hd; by simplify_eq. }
  split.
  - intros [v|s]; simpl; [|by rewrite option_fmap_id].
    destruct (decide (CUser v = CUser (a_user_id a))) as [[= ->]|Hne].
    + rewrite lookup_insert_eq, Hu1. simpl. by rewrite Hu2.
    + rewrite lookup_insert_ne by congruence. by rewrite option_fmap_id.
  - intros x cap Hcap Hfree. destruct (user_guards_room _ _ _ _ _ _ Ea x cap Hcap) as [Hroom _].
    + intros ->. unfold request_usd. rewrite Hfree by done. eauto.
    + rewrite at_axis_add. unfold request_usd in Hroom. destruct x; simpl in *; try exact Hroom.
      destruct (a_model_is_free a); simpl in *; exact Hroom.
Qed.

Lemma reserve_budget_admits_witness :
  user_admits ann_request small_budget ann = true
  /\ exists h w', run_quiet (reserve_budget ann_request) small_world = (inr h, Clean, w')
       /\ reservation_id h = Some 0%nat
       /\ counter_held (db w') (CUser "ann") = Some (mkHeld 400 20 1).
Proof.
  split; [vm_compute; reflexivity|].
  pose proof (reserve_budget_admits ann_request small_world ann small_budget ann_gated) as H.
  change (user_admits ann_request small_budget ann) with true in H.
  destruct H as (h & w' & Hrun & Hid & _ & _ & _ & Hc & _). exists h, w'. split; [done|]. split; [done|].
  destruct (Hc (CUser "ann")) as [_ ->]. by vm_compute.
Defined.

(** Reserving and refunding is the identity on every counter: nothing a refused upstream
    call held is left behind, and the row it leaves is released. *)
Theorem reserve_refund_roundtrip a w u b :
  gated_by_user a w u b -> user_admits a b u = true -> held_nonneg (user_held u) ->
  exists w', run_quiet (let! h := reserve_budget a in refund_reservation h) w = (inr tt, Clean, w')
    /\ row_status (db w') (next_id w) = Some RESERVATION_RELEASED
    /\ forall c, counter_used (db w') c = counter_used (db w) c /\ counter_held (db w') c = counter_held (db w) c.
Proof.
  intros Hg Ha Hn. pose proof (run_reserve_user a w u b Hg) as H. rewrite Ha in H.
  set (w1 := mkWorld (held_db a w u) (clock w) (S (next_id w))) in *.
  destruct (run_refund (held_handle_of a w) (next_id w) w1 eq_refl) as (d' & Hrun & _ & Hpost).
  { apply mkHeld_nonneg; simpl; lia. }
  exists (set_db w1 d'). unfold run_quiet in *. rewrite run_bind_quiet, H. split; [exact Hrun|].
  assert (row_status (db w1) (next_id w) = Some RESERVATION_ACTIVE) as Hst.
  { unfold row_status. simpl. by rewrite lookup_insert_eq. }
  rewrite Hst in Hpost. destruct Hpost as [Hrow Hc]. split; [exact Hrow|].
  destruct Hg as [Hu _ _ _ _ _ _ _ _ _]. apply bind_Some in Hu as (u' & Hu & [= <- _]).
  assert (users (db w) !! a_user_id a = Some u' /\ user_deleted u' = false) as [Hu1 Hu2].
  { apply bind_Some in Hu as (u'' & H1 & H2). destruct (user_deleted u'') eqn:Hd; by simplify_eq. }
  intros c. cbn [db set_db]. destruct (Hc c) as [-> ->]. destruct c as [v|s]; simpl.
  - destruct (decide (v = a_user_id a)) as [->|Hne].
    + rewrite lookup_insert_eq, Hu1. simpl. rewrite Hu2. split; [done|]. simpl. rewrite decide_True by done.
      f_equal. apply held_ext. intros x. specialize (Hn x). unfold release_leg, release_expression.
      destruct x; simpl in *; repeat match goal with |- context [if ?b then _ else _] =>
        destruct b eqn:?; reflect_bools end; unfold MAX_COUNT_LIMIT in *; lia.
    + rewrite lookup_insert_ne by congruence. split; [done|].
      destruct (users (db w) !! v) as [us|]; simpl; [|done]. destruct (user_deleted us); [done|].
      simpl. by rewrite decide_False by done.
  - split; [done|]. destruct (ceilings (db w) !! s); [|done]. done.
Qed.

Lemma reserve_refund_roundtrip_witness :
  exists w', run_quiet (let! h := reserve_budget ann_request in refund_reservation h) small_world = (inr tt, Clean, w')
    /\ row_status (db w') 0 = Some RESERVATION_RELEASED /\ counter_held (db w') (CUser "ann") = Some zero_held.
Proof.
  destruct (reserve_refund_roundtrip ann_request small_world ann small_budget ann_gated eq_refl held_nonneg_zero)
    as (w' & Hrun & Hrow & Hc).
  exists w'. split; [exact Hrun|]. split; [exact Hrow|]. by destruct (Hc (CUser "ann")) as [_ ->].
Defined.

(** ** A free model's top-up *)

(** A ceiling that settlements have carried past its dollar cap, with tokens to spare. *)
Definition overspent : ScopedBudget :=
  mkScoped SCOPE_ORGANIZATION "acme" None "b" (mkHeld 1200 0 0) zero_held None None None.
Definition overspent_world : world :=
  mkWorld (mkDb {["bob"%string := bob]} {["b"%string := small_budget]} {["org-ceiling"%string := overspent]} ∅ [] ∅) 0 0.

Definition free_request : reserve_args :=
  mkReserve "bob" 0 20 1 true (Some "for_update"%string) true
    (Some (mkScopeRequest (CeilingRepo.mkScopes ["acme"%string] [] [] [] []) None)) true 600 true None.

(** Reserve for a free model, then grow its token estimate. *)
Definition free_then_grown (new_tokens : Z) : exn + (ReservationHandle * option exn) :=
  (run_quiet (let! h := reserve_budget free_request in
              increase_reservation h 0 new_tokens true (Some "for_update"%string)) overspent_world).1.1.

Definition refused_on (r : exn + (ReservationHandle * option exn)) : option (string * string) :=
  match r with inr (_, Some (HTTPException 403 detail scope _)) => Some (scope, detail) | _ => None end.

(** a free model's reservation is not gated on dollars, but its top-up is: with the ceiling
    past its dollar cap the reservation is admitted, growing its tokens within the token cap is
    refused on the dollar axis, and growing nothing is not. *)
Theorem free_top_up_gated_on_dollars :
  (exists h, (run_quiet (reserve_budget free_request) overspent_world).1.1 = inr h /\ scoped_leg h = mkHeld 0 20 1)
  /\ refused_on (free_then_grown 30) = Some ("organization"%string, "Organization has exceeded budget limit"%string)
  /\ refused_on (free_then_grown 20) = None.
Proof.
  split; [eexists; split; [vm_compute; reflexivity|reflexivity]|]. split; vm_compute; reflexivity.
Qed.
