(* ===== verification/Clamping.v ===== *)
(** The timer: the orphan clamp brings each counter down to the ledger and never below it, and a pass of the
    sweep gives back what the overdue rows recorded. *)
From S2P Require Import Prelude Periods Refusals Tables Repositories Session ScopedEnforcement Ledger Reservations.
From S2P Require Import Fixtures.
From stdpp Require Import gmap strings list fin_maps sorting.
From Stdlib Require Import ZArith Lia.
Open Scope Z_scope.

(** ** The clamp *)

(** The lower of a counter and the ledger's sum, axis by axis. *)
Definition min_held (h k : HeldAmounts) : HeldAmounts :=
  mkHeld (Z.min (amount h) (amount k)) (Z.min (tokens h) (tokens k)) (Z.min (requests h) (requests k)).

Lemma clamp_to_clamped counters held : CeilingRepo.clamp_to (clamped counters held) counters = min_held counters held.
Proof.
  unfold CeilingRepo.clamp_to, clamped, map_axes, min_held. simpl.
  f_equal; match goal with |- context [if ?b then _ else _] => destruct b eqn:?; reflect_bools; simpl; lia end.
Qed.

Lemma any_clamped_false counters held : any_clamped counters held = false -> min_held counters held = counters.
Proof.
  unfold any_clamped, clamped, min_held. intros H. destruct counters as [x y z], held as [x' y' z']. simpl in *.
  repeat match goal with H : context [if ?b then _ else _] |- _ => destruct b eqn:? end; simpl in H; try done;
    reflect_bools. f_equal; lia.
Qed.

Definition ledger_sum (d : database) (c : counter) : HeldAmounts :=
  mkHeld (recorded d c Usd) (recorded d c Tok) (recorded d c Req).

(** What a clamp of [c] leaves of every counter's hold. *)
Definition clamps (c : counter) (d d' : database) : Prop :=
  reservations d' = reservations d /\
  forall k, counter_used d' k = counter_used d k
    /\ counter_held d' k = (if decide (k = c) then fun h => min_held h (ledger_sum d c) else id) <$> counter_held d k.

Lemma clamps_nothing c d :
  (forall h, counter_held d c = Some h -> any_clamped h (ledger_sum d c) = false) -> clamps c d d.
Proof.
  intros H. split; [done|]. intros k. split; [done|]. destruct (decide (k = c)) as [->|]; [|by rewrite option_fmap_id].
  destruct (counter_held d c) as [h|]; [|done]. simpl. by rewrite any_clamped_false by by apply H.
Qed.

Lemma clamps_user t user d u :
  UserRows.get_active_user d user = Some u ->
  clamps (CUser user) d (UserRows.clamp_user t user (clamped (user_held u) (ledger_sum d (CUser user))) d).
Proof.
  intros Hu. apply bind_Some in Hu as (u' & Hu & Hd). destruct (user_deleted u') eqn:Ed; [done|]. injection Hd as ->.
  unfold UserRows.clamp_user. rewrite Hu. split; [done|]. intros [v|s]; simpl; [|by rewrite option_fmap_id].
  destruct (decide (CUser v = CUser user)) as [[= ->]|Hne].
  - rewrite lookup_insert_eq, Hu. simpl. rewrite Ed. simpl. by rewrite clamp_to_clamped.
  - rewrite lookup_insert_ne by congruence. by rewrite option_fmap_id.
Qed.

Lemma clamps_ceiling t s d c :
  ceilings d !! s = Some c ->
  clamps (CCeiling s) d (CeilingRepo.clamp_holds t s (clamped (ceiling_held c) (ledger_sum d (CCeiling s))) d).
Proof.
  intros Hc. split; [done|]. intros [v|s']; simpl; [by rewrite option_fmap_id|].
  rewrite map_lookup_imap. destruct (decide (CCeiling s' = CCeiling s)) as [[= ->]|Hne].
  - rewrite Hc. simpl. rewrite bool_decide_eq_true_2 by set_solver. simpl. by rewrite clamp_to_clamped.
  - destruct (ceilings d !! s') as [c'|]; simpl; [|done]. rewrite bool_decide_eq_false_2; [done|].
    intros ->%list_elem_of_singleton. done.
Qed.

(** The orphan clamp of a user's counters leaves a live user quiet since the cutoff with each
    hold at the lower of itself and the sum its active rows record, so never below the ledger,
    and reports whether any moved; a user with recent activity, a deleted or unknown one, and
    every other counter keep theirs. *)
Theorem reconcile_user_clamps user cutoff w :
  exists moved d', run_quiet (reconcile_user user cutoff) w = (inr moved, Clean, set_db w d')
    /\ match UserRows.get_active_user (db w) user with
       | Some u =>
           if quiet (user_updated_at u) cutoff
           then clamps (CUser user) (db w) d' /\ moved = any_clamped (user_held u) (ledger_sum (db w) (CUser user))
           else d' = db w /\ moved = false
       | None => d' = db w /\ moved = false
       end.
Proof.
  unfold run_quiet, reconcile_user. simpl.
  destruct (UserRows.get_active_user (db w) user) as [u|] eqn:Hu; [|exists false, (db w); by destruct w].
  destruct (quiet (user_updated_at u) cutoff); [|exists false, (db w); by destruct w]. simpl.
  change (ReservationRepo.active_user_held (db w) user) with (ledger_sum (db w) (CUser user)).
  destruct (any_clamped (user_held u) (ledger_sum (db w) (CUser user))) eqn:E; simpl.
  - eexists true, _. split; [reflexivity|]. split; [|done]. by apply clamps_user.
  - exists false, (db w). split; [reflexivity|]. split; [|done]. apply clamps_nothing. intros h Hh.
    apply bind_Some in Hu as (u' & Hu & Hd). simpl in Hh. rewrite Hu in Hh. simpl in Hh.
    destruct (user_deleted u'); [done|]. by simplify_eq.
Qed.

(** The same of a ceiling. *)
Theorem reconcile_scoped_clamps s cutoff w :
  exists moved d', run_quiet (reconcile_scoped s cutoff) w = (inr moved, Clean, set_db w d')
    /\ match ceilings (db w) !! s with
       | Some c =>
           if quiet (ceiling_updated_at c) cutoff
           then clamps (CCeiling s) (db w) d' /\ moved = any_clamped (ceiling_held c) (ledger_sum (db w) (CCeiling s))
           else d' = db w /\ moved = false
       | None => d' = db w /\ moved = false
       end.
Proof.
  unfold run_quiet, reconcile_scoped. simpl. unfold CeilingRepo.lock_quiet_holds.
  destruct (ceilings (db w) !! s) as [c|] eqn:Hc; [|exists false, (db w); by destruct w]. simpl.
  destruct (quiet (ceiling_updated_at c) cutoff); [|exists false, (db w); by destruct w]. simpl.
  change (ReservationRepo.active_ceiling_held (db w) s) with (ledger_sum (db w) (CCeiling s)).
  destruct (any_clamped (ceiling_held c) (ledger_sum (db w) (CCeiling s))) eqn:E; simpl.
  - eexists true, _. split; [reflexivity|]. split; [|done]. by apply clamps_ceiling.
  - exists false, (db w). split; [reflexivity|]. split; [|done]. apply clamps_nothing. intros h Hh.
    simpl in Hh. rewrite Hc in Hh. by simplify_eq/=.
Qed.

(** ** The sweep *)

(** *** What a row gives back *)

(** What a row records on a counter. *)
Definition held_on (r : BudgetReservation) (c : counter) : HeldAmounts :=
  mkHeld (row_holds r c Usd) (row_holds r c Tok) (row_holds r c Req).

(** What the groups of a row's lines hold on a ceiling, group by group. *)
Definition hits (gs : list (HeldAmounts * list string)) (s : string) : list HeldAmounts :=
  omap (fun g => if decide (s ∈ g.2) then Some g.1 else None) gs.
Definition released_all (ks : list HeldAmounts) (h : HeldAmounts) : HeldAmounts := foldl (fun h k => released k h) h ks.

Lemma hits_cons g gs s : hits (g :: gs) s = if decide (s ∈ g.2) then g.1 :: hits gs s else hits gs s.
Proof. unfold hits. cbn [omap list_omap]. by destruct (decide (s ∈ g.2)). Qed.

Lemma hits_add h i gs s : i <> s -> hits (add_to_group h i gs) s = hits gs s.
Proof.
  intros Hi. induction gs as [|[k ids] gs IH]; cbn [add_to_group].
  - unfold hits. cbn. rewrite decide_False; [done|]. set_solver.
  - destruct (decide (k = h)) as [->|]; rewrite !hits_cons; cbn [fst snd]; [|by rewrite IH].
    assert (s ∈ ids ++ [i] <-> s ∈ ids) as Hs by set_solver. by destruct (decide (s ∈ ids ++ [i])), (decide (s ∈ ids)); try tauto.
Qed.
Lemma hits_add_first h s gs : hits gs s = [] -> hits (add_to_group h s gs) s = [h].
Proof.
  induction gs as [|[k ids] gs IH]; cbn [add_to_group]; [unfold hits; cbn; by rewrite decide_True by set_solver|].
  rewrite hits_cons. cbn [fst snd]. intros H. destruct (decide (s ∈ ids)) as [|Hs]; [done|]. destruct (decide (k = h)) as [->|]; rewrite hits_cons; cbn [fst snd].
  - rewrite decide_True by set_solver. by rewrite H.
  - rewrite decide_False by done. by apply IH.
Qed.

Lemma by_amounts_snoc ls l : by_amounts (ls ++ [l])
  = if any_positive (line_held l) then add_to_group (line_held l) (line_budget_id l) (by_amounts ls) else by_amounts ls.
Proof. unfold by_amounts. by rewrite foldl_app. Qed.
Lemma lines_hold_snoc ls l s a :
  lines_hold (ls ++ [l]) s a = lines_hold ls s a + (if decide (line_budget_id l = s) then at_axis (line_held l) a else 0).
Proof. unfold lines_hold. rewrite sumZ_app. cbn. lia. Qed.

Lemma hits_none ls s : s ∉ line_budget_id <$> ls -> hits (by_amounts ls) s = [] /\ forall a, lines_hold ls s a = 0.
Proof.
  induction ls as [|l ls IH] using rev_ind; [done|]. rewrite fmap_app, not_elem_of_app. intros [Hs Hl]. destruct (IH Hs) as [H1 H2].
  assert (line_budget_id l <> s) as Hne by set_solver. split.
  - rewrite by_amounts_snoc. destruct (any_positive _); [by rewrite hits_add|done].
  - intros a. by rewrite lines_hold_snoc, H2, decide_False.
Qed.

(** The groups give a ceiling back what its line of the row holds. *)
Lemma groups_release ls s h :
  NoDup (line_budget_id <$> ls) ->
  released_all (hits (by_amounts ls) s) h = released (mkHeld (lines_hold ls s Usd) (lines_hold ls s Tok) (lines_hold ls s Req)) h.
Proof.
  induction ls as [|l ls IH] using rev_ind; [intros _; by rewrite released_nothing|]. rewrite fmap_app, NoDup_app. intros (Hnd & Hl & _).
  rewrite by_amounts_snoc, !lines_hold_snoc. destruct (decide (line_budget_id l = s)) as [<-|Hne].
  - destruct (hits_none ls (line_budget_id l)) as [H1 H2]; [intros Hin; by apply (Hl _ Hin); left|].
    rewrite !H2, !Z.add_0_l. destruct (line_held l) as [x y z] eqn:El. cbn [at_axis]. destruct (any_positive _) eqn:Ep.
    + by rewrite hits_add_first.
    + by rewrite H1, released_nothing.
  - rewrite !Z.add_0_r, <- IH by done. destruct (any_positive _); [by rewrite hits_add|done].
Qed.

(** [d'] is [d] but for what is held: each counter's hold is as [f] leaves it. *)
Definition only_holds (f : counter -> HeldAmounts -> HeldAmounts) (d d' : database) : Prop :=
  reservations d' = reservations d /\ forall c, counter_used d' c = counter_used d c /\ counter_held d' c = f c <$> counter_held d c.

Lemma only_holds_id d : only_holds (fun _ => id) d d.
Proof. split; [done|]. intros c. by rewrite option_fmap_id. Qed.
Lemma only_holds_trans f g d1 d2 d3 : only_holds f d1 d2 -> only_holds g d2 d3 -> only_holds (fun c h => g c (f c h)) d1 d3.
Proof.
  intros [R1 H1] [R2 H2]. split; [congruence|]. intros c. destruct (H1 c) as [U1 E1], (H2 c) as [U2 E2]. split; [congruence|].
  rewrite E2, E1. by destruct (counter_held d1 c).
Qed.
Lemma only_holds_ext f g d d' : (forall c h, f c h = g c h) -> only_holds f d d' -> only_holds g d d'.
Proof. intros H [R E]. split; [done|]. intros c. destruct (E c) as [-> ->]. split; [done|]. destruct (counter_held d c); [cbn; by rewrite H|done]. Qed.

Definition on_ceilings (ids : list string) (held : HeldAmounts) (c : counter) : HeldAmounts -> HeldAmounts :=
  match c with CUser _ => id | CCeiling s => if decide (s ∈ ids) then released held else id end.

Lemma release_holds_only t ids held d : only_holds (on_ceilings ids held) d (CeilingRepo.release_holds t ids held d).
Proof.
  unfold CeilingRepo.release_holds. destruct (bool_decide (ids = []) || negb (any_positive held)) eqn:E.
  - apply (only_holds_ext (fun _ => id)); [|apply only_holds_id]. intros [u|s] h; cbn [on_ceilings]; [done|].
    case_decide as Hs; [|done]. apply orb_true_iff in E as [E|E]; [apply bool_decide_eq_true in E; subst; by apply elem_of_nil in Hs|].
    by rewrite released_nothing by by apply negb_true_iff.
  - split; [done|]. intros [u|s]; cbn [counter_used counter_held on_ceilings]; [by rewrite option_fmap_id|]. simpl. rewrite map_lookup_imap.
    destruct (ceilings d !! s) as [r|]; simpl; [|done].
    destruct (decide (s ∈ ids)); [rewrite bool_decide_eq_true_2 by done|rewrite bool_decide_eq_false_2 by done]; done.
Qed.

Lemma run_release_in_tx ids held d w :
  exists d', run (ScopedEnforcement.release ids held false) [] (Dirty d) w = (inr tt, Dirty d', w) /\ only_holds (on_ceilings ids held) d d'.
Proof.
  exists (CeilingRepo.release_holds (clock w) ids held d). split; [|apply release_holds_only].
  unfold ScopedEnforcement.release. destruct (_ || _) eqn:E; [|reflexivity]. unfold CeilingRepo.release_holds. by rewrite E.
Qed.

Lemma run_release_groups gs d w :
  exists d', run (for_each gs (fun '(held, ids) => ScopedEnforcement.release ids held false)) [] (Dirty d) w = (inr tt, Dirty d', w)
    /\ only_holds (fun c => match c with CUser _ => id | CCeiling s => released_all (hits gs s) end) d d'.
Proof.
  revert d. induction gs as [|[held ids] gs IH]; intros d.
  { exists d. split; [done|]. apply (only_holds_ext (fun _ => id)); [by intros []|apply only_holds_id]. }
  cbn [for_each]. rewrite run_bind_quiet. destruct (run_release_in_tx ids held d w) as (d1 & -> & H1).
  destruct (IH d1) as (d2 & -> & H2). exists d2. split; [done|]. eapply only_holds_ext; [|by eapply only_holds_trans].
  intros [u|s] h; [done|]. cbn [on_ceilings]. rewrite hits_cons. cbn [fst snd]. by destruct (decide (s ∈ ids)).
Qed.

Lemma run_release_row i row d w :
  ReservationRepo.list_lines d i = lines row -> NoDup (line_budget_id <$> lines row) ->
  exists d', run (release_row_holds i row) [] (Dirty d) w = (inr tt, Dirty d', w) /\ only_holds (fun c => released (held_on row c)) d d'.
Proof.
  intros Hl Hnd. unfold release_row_holds. rewrite run_bind_quiet. cbn [run query next_fault reads_from]. cbn [of_reply run]. rewrite Hl.
  set (on_user := fun c => match c with CUser _ => released (held_on row c) | CCeiling _ => id end).
  assert (exists d1, run (if user_reserved row && any_positive (row_held row)
      then update_rowcount (fun t => UserRows.update_user t (row_user_id row) (fun _ => true)
             (fun u => (user_used u, released (row_held row) (user_held u)))) ;;! Ret tt
      else Ret tt) [] (Dirty d) w = (inr tt, Dirty d1, w) /\ only_holds on_user d d1) as (d1 & E1 & H1).
  { destruct (user_reserved row) eqn:Er.
    - destruct (any_positive (row_held row)) eqn:Ep; cbn [andb].
      + eexists. split; [reflexivity|]. unfold UserRows.update_user, UserRows.get_active_user, on_user, held_on, row_holds. rewrite Er.
        destruct (users d !! row_user_id row) as [u|] eqn:Hu; simpl; [destruct (user_deleted u) eqn:Hd; simpl|].
        all: split; [done|]; intros [v|s]; simpl; rewrite ?option_fmap_id; [|done]; case_bool_decide as Hv; cbn [andb];
          [subst v|]; rewrite ?Hu, ?lookup_insert_eq, ?lookup_insert_ne by congruence; simpl; rewrite ?Hd; simpl; try done.
        all: split; [done|]; destruct (users d !! v) as [u'|]; [|done]; simpl; destruct (user_deleted u'); [done|]; simpl; by rewrite released_nothing.
      + exists d. split; [done|]. apply (only_holds_ext (fun _ => id)); [|apply only_holds_id]. intros [v|s] h; [|done]. unfold on_user, held_on, row_holds.
        rewrite Er. case_bool_decide; cbn [andb]; rewrite released_nothing; try done; by destruct (row_held row).
    - exists d. split; [done|]. apply (only_holds_ext (fun _ => id)); [|apply only_holds_id]. intros [v|s] h; [|done]. unfold on_user, held_on, row_holds.
      rewrite Er, andb_false_r. by rewrite released_nothing. }
  rewrite run_bind_quiet, E1. destruct (run_release_groups (by_amounts (lines row)) d1 w) as (d2 & -> & H2). exists d2. split; [done|].
  eapply only_holds_ext; [|by eapply only_holds_trans]. intros [v|s] h; [done|]. cbn [on_user id]. by rewrite groups_release.
Qed.

(** *** A batch of rows *)

(** Each row's holds, one after the other. *)
Definition gives_back_rows (rows : list (nat * BudgetReservation)) (c : counter) (h : HeldAmounts) : HeldAmounts :=
  released_all ((fun x => held_on x.2 c) <$> rows) h.

(** [d'] is [d] with the rows of [rows] expired, and what each recorded given back on every counter. *)
Definition expires (rows : list (nat * BudgetReservation)) (d d' : database) : Prop :=
  (forall i, reservations d' !! i =
     (if decide (i ∈ rows.*1) then fun r => set_status r RESERVATION_EXPIRED else id) <$> reservations d !! i)
  /\ forall c, counter_used d' c = counter_used d c /\ counter_held d' c = gives_back_rows rows c <$> counter_held d c.

Lemma expires_nothing d : expires [] d d.
Proof. split; intros ?; [by rewrite decide_False, option_fmap_id by set_solver|]. split; [done|]. symmetry. apply option_fmap_id. Qed.

Lemma expires_cons x rows d1 d2 d3 : x.1 ∉ rows.*1 -> expires [x] d1 d2 -> expires rows d2 d3 -> expires (x :: rows) d1 d3.
Proof.
  destruct x as [i row]. cbn [fst]. intros Hi [R1 U1] [R2 U2]. split.
  - intros j. rewrite R2, R1, !fmap_cons, fmap_nil. cbn [fst]. destruct (decide (j = i)) as [->|Hne].
    + rewrite (decide_True (P := i ∈ [i])) by set_solver. rewrite (decide_True (P := i ∈ i :: rows.*1)) by set_solver.
      rewrite decide_False by done. by rewrite option_fmap_id.
    + rewrite (decide_False (P := j ∈ [i])) by set_solver. rewrite option_fmap_id.
      destruct (decide (j ∈ rows.*1)); [rewrite decide_True by set_solver|rewrite decide_False by set_solver]; done.
  - intros c. destruct (U1 c) as [V1 H1], (U2 c) as [V2 H2]. split; [congruence|]. rewrite H2, H1. by destruct (counter_held d1 c).
Qed.

Lemma run_reclaim rows w :
  NoDup rows.*1 ->
  (forall i r, (i, r) ∈ rows -> reservations (db w) !! i = Some r /\ status r = RESERVATION_ACTIVE /\ NoDup (line_budget_id <$> lines r)) ->
  exists d', run (reclaim rows) [] Clean w = (inr (Z.of_nat (length rows)), Clean, set_db w d')
    /\ expires rows (db w) d'.
Proof.
  revert w. induction rows as [|[i row] rows IH]; intros w Hnd Hact.
  { exists (db w). split; [by destruct w|]. by apply expires_nothing. }
  rewrite fmap_cons in Hnd. apply NoDup_cons in Hnd as [Hi Hnd]. simpl in Hi.
  destruct (Hact i row ltac:(left)) as (Hr & Ha & Hl). cbn [reclaim].
  set (d1 := set_reservations (db w) (<[i := set_status row RESERVATION_EXPIRED]> (reservations (db w)))).
  assert (E1 : run (defer_commit_flush ;;! try_terminate (Some i) RESERVATION_EXPIRED) [] Clean w = (inr true, Dirty d1, w)).
  { simpl. unfold ReservationRepo.try_terminate, ReservationRepo.transition. by rewrite Hr, decide_True. }
  rewrite run_bind_quiet. cbn [defer_commit_flush run query next_fault reads_from]. cbn [of_reply run].
  rewrite run_bind_quiet. revert E1. rewrite run_bind_quiet. cbn [defer_commit_flush run query next_fault reads_from].
  cbn [of_reply run]. intros ->. rewrite run_bind_quiet.
  destruct (run_release_row i row d1 w) as (d2 & -> & R2 & U2); [|done|].
  { unfold ReservationRepo.list_lines, d1. simpl. by rewrite lookup_insert_eq. }
  rewrite run_bind_quiet. cbn [commit commit_at run next_fault]. rewrite run_bind_quiet.
  assert (Hexp : expires [(i, row)] (db w) d2).
  { split; [|intros c; destruct (U2 c) as [-> ->]; by destruct c]. intros j. rewrite R2. simpl.
    destruct (decide (j = i)) as [->|Hne].
    - rewrite lookup_insert_eq, decide_True, Hr by set_solver. done.
    - rewrite lookup_insert_ne, decide_False, option_fmap_id by set_solver. done. }
  destruct (IH (set_db w d2) Hnd) as (d3 & -> & Hexp3).
  { intros j r' Hj. destruct (Hact j r') as (Hr0 & Ha0 & Hl0); [by right|]. split; [|done]. simpl.
    destruct Hexp as [Hrows _]. rewrite Hrows, decide_False, option_fmap_id; [done|].
    intros ->%list_elem_of_singleton. apply Hi. apply list_elem_of_fmap. by exists (i, r'). }
  exists d3. split; [|by eapply expires_cons].
  cbn [run length]. do 3 f_equal. lia.
Qed.

(** *** Which rows *)

(** The active rows past their deadline. *)
Definition overdue (d : database) (t : Z) : gmap nat BudgetReservation :=
  filter (fun x => status x.2 = RESERVATION_ACTIVE /\ expires_at x.2 < t) (reservations d).

Lemma sublist_fst {A B} (l m : list (A * B)) : l `sublist_of` m -> l.*1 `sublist_of` m.*1.
Proof. induction 1; simpl; by constructor. Qed.

Lemma expired_listed d t :
  filter (fun x => ReservationRepo.is_expired t None x.2 = true) (map_to_list (reservations d)) ≡ₚ map_to_list (overdue d t).
Proof.
  apply NoDup_Permutation; [apply NoDup_filter, NoDup_map_to_list|apply NoDup_map_to_list|]. intros [i r].
  rewrite list_elem_of_filter, !elem_of_map_to_list. unfold overdue. rewrite map_lookup_filter_Some. unfold ReservationRepo.is_expired. cbn [snd].
  rewrite andb_true_r, andb_true_iff, bool_decide_eq_true, Z.ltb_lt. tauto.
Qed.

Lemma take_sorted_first {A} (R : relation A) (l : list A) n x y :
  StronglySorted R l -> x ∈ take n l -> y ∈ drop n l -> R x y.
Proof.
  intros Hs. rewrite <- (take_drop n l) in Hs. intros Hx Hy. revert Hx. induction (take n l) as [|z m IH]; [by intros ?%elem_of_nil|].
  cbn in Hs. apply StronglySorted_inv in Hs as [Hs Hz]. intros [->|Hx]%elem_of_cons; [|by apply IH].
  rewrite Forall_forall in Hz. apply Hz, elem_of_app. by right.
Qed.

Lemma older_total : Total ReservationRepo.older.
Proof. intros x y. unfold ReservationRepo.older. lia. Qed.
Lemma older_trans : Transitive ReservationRepo.older.
Proof. intros x y z. unfold ReservationRepo.older. lia. Qed.

(** A batch is of overdue rows, of as many as fit, and of none before an older one. *)
Definition oldest_overdue (d : database) (t : Z) (batch_size : nat) (rows : list (nat * BudgetReservation)) : Prop :=
  NoDup rows.*1 /\ length rows = Nat.min batch_size (size (overdue d t))
  /\ (forall i r, (i, r) ∈ rows -> overdue d t !! i = Some r)
  /\ forall i r j r', (i, r) ∈ rows -> overdue d t !! j = Some r' -> j ∉ rows.*1 -> expires_at r <= expires_at r'.

Lemma list_expired_oldest d t batch_size : oldest_overdue d t batch_size (ReservationRepo.list_expired d t batch_size None).
Proof.
  unfold ReservationRepo.list_expired. set (l := filter _ _). set (m := merge_sort _ l).
  assert (Hp : m ≡ₚ map_to_list (overdue d t)) by (etrans; [apply merge_sort_Permutation|apply expired_listed]).
  assert (StronglySorted ReservationRepo.older m) as Hs by (pose proof older_total; pose proof older_trans; apply StronglySorted_merge_sort; apply _).
  assert (NoDup m.*1) as Hnd by (rewrite Hp; apply NoDup_fst_map_to_list).
  split_and!.
  - eapply sublist_NoDup; [exact Hnd|]. apply sublist_fst, sublist_take.
  - rewrite length_take, (Permutation_length Hp), length_map_to_list. done.
  - intros i r Hir. apply elem_of_map_to_list. rewrite <- Hp. eapply elem_of_sublist; [exact Hir|apply sublist_take].
  - intros i r j r' Hir Hj Hnot. apply elem_of_map_to_list in Hj. rewrite <- Hp in Hj. rewrite <- (take_drop batch_size m) in Hj.
    apply elem_of_app in Hj as [Hj|Hj]; [destruct Hnot; apply list_elem_of_fmap; by exists (j, r')|].
    by apply (take_sorted_first ReservationRepo.older m batch_size (i, r) (j, r') Hs).
Qed.

(** Where a counter holds what the rows record on it, giving back is subtracting. *)
Lemma gives_back_covered rows c h a :
  Forall (fun x => 0 <= row_holds x.2 c a) rows -> sumZ (fun x => row_holds x.2 c a) rows <= at_axis h a ->
  at_axis (gives_back_rows rows c h) a = at_axis h a - sumZ (fun x => row_holds x.2 c a) rows.
Proof.
  revert h. induction rows as [|x rows IH]; intros h Hn Hs; [cbn; lia|]. apply Forall_cons in Hn as [Hx Hn]. rewrite sumZ_cons in *.
  assert (0 <= sumZ (fun x => row_holds x.2 c a) rows) as Hrest by (apply sumZ_nonneg; rewrite Forall_forall in Hn; auto).
  assert (at_axis (released (held_on x.2 c) h) a = at_axis h a - row_holds x.2 c a) as E.
  { unfold released, map_axes, held_on, release_expression in *. destruct a; cbn [at_axis amount tokens requests] in *;
      destruct (0 <? _) eqn:?; reflect_bools; repeat case_match; reflect_bools; lia. }
  unfold gives_back_rows, released_all in *. cbn [fmap list_fmap foldl]. rewrite IH, E; [lia|done|rewrite E; lia].
Qed.

(** C25: a pass of the sweep, with nothing failing, expires overdue rows, active and past their deadline: as many as there are, or as
    the batch takes, and then the longest overdue.  Every counter, of a user not deleted or of a ceiling, is given back what each of
    them recorded on it - to the unit, where it held as much - and is charged nothing; every other row stays as it was.  A row
    has one line for a ceiling, as admission writes it. *)
Theorem sweep_reclaims_listed batch_size w :
  (forall i r, overdue (db w) (clock w) !! i = Some r -> NoDup (line_budget_id <$> lines r)) ->
  exists rows d', run_quiet (sweep_expired batch_size) w = (inr (Z.of_nat (length rows)), Clean, set_db w d')
    /\ oldest_overdue (db w) (clock w) batch_size rows
    /\ (forall i, reservations d' !! i =
         (if decide (i ∈ rows.*1) then fun r => set_status r RESERVATION_EXPIRED else id) <$> reservations (db w) !! i)
    /\ forall c, counter_used d' c = counter_used (db w) c
         /\ counter_held d' c = gives_back_rows rows c <$> counter_held (db w) c
         /\ forall h a, Forall (fun x => 0 <= row_holds x.2 c a) rows -> sumZ (fun x => row_holds x.2 c a) rows <= at_axis h a ->
              at_axis (gives_back_rows rows c h) a = at_axis h a - sumZ (fun x => row_holds x.2 c a) rows.
Proof.
  intros Hlines. set (rows := ReservationRepo.list_expired (db w) (clock w) batch_size None).
  pose proof (list_expired_oldest (db w) (clock w) batch_size) as Hold. fold rows in Hold. destruct Hold as (Hnd & Hlen & Hin & Hord).
  destruct (run_reclaim rows w Hnd) as (d' & Hrun & Hrows & Hc).
  { intros i r Hir%Hin. split_and!; [..|by apply (Hlines i)]; by apply map_lookup_filter_Some in Hir as (? & ? & ?). }
  exists rows, d'. split; [unfold run_quiet, sweep_expired; rewrite run_bind_quiet; exact Hrun|]. split; [by split_and!|]. split; [done|].
  intros c. destruct (Hc c) as [-> ->]. split_and!; [done..|]. intros h a. apply gives_back_covered.
Qed.

(** Ann's request left its hold, on her and on her organization, a second past its deadline. *)
Definition leaked : BudgetReservation :=
  mkReservation "ann" (mkHeld 400 20 1) true RESERVATION_ACTIVE (-1) [mkLine "org-ceiling" (mkHeld 400 20 1)].
Definition leaky_db : database :=
  mkDb {["ann"%string := mkUser (Some "b"%string) zero_held (mkHeld 700 30 2) false false None None None]} {["b"%string := small_budget]}
    {["org-ceiling"%string := mkScoped SCOPE_ORGANIZATION "acme" None "b" zero_held (mkHeld 700 30 2) None None None]}
    {[0%nat := leaked]} [] {[0%nat]}.

Lemma sweep_reclaims_listed_witness :
  (let d' := db (run_quiet (sweep_expired 5) (mkWorld leaky_db 0 1)).2 in
   status <$> reservations d' !! 0%nat = Some RESERVATION_EXPIRED /\ counter_held d' (CUser "ann") = Some (mkHeld 300 10 1)
   /\ counter_held d' (CCeiling "org-ceiling") = Some (mkHeld 300 10 1))
  /\ exists rows d', run_quiet (sweep_expired 5) (mkWorld leaky_db 0 1) = (inr (Z.of_nat (length rows)), Clean, mkWorld d' 0 1)
     /\ oldest_overdue leaky_db 0 5 rows.
Proof.
  split; [by vm_compute|].
  destruct (sweep_reclaims_listed 5 (mkWorld leaky_db 0 1)) as (rows & d' & Hrun & Hold & _).
  - intros i r (Hr & _)%map_lookup_filter_Some. change (({[0%nat := leaked]} : gmap nat BudgetReservation) !! i = Some r) in Hr. apply lookup_singleton_Some in Hr as [_ <-]. apply NoDup_singleton.
  - by exists rows, d'.
Defined.
