(* ===== verification/CeilingOrder.v ===== *)
(** The order a request's ceilings are taken in. *)
From S2P Require Import Prelude Periods Refusals Tables Repositories Session ScopedEnforcement.
From stdpp Require Import gmap strings list fin_maps sorting.
From Stdlib Require Import ZArith Lia.
Import CeilingRepo.
Open Scope Z_scope.

Lemma string_leb_trans s t u : String.leb s t = true -> String.leb t u = true -> String.leb s u = true.
Proof.
  unfold String.leb. revert t u. induction s as [|a s IH]; intros [|b t] [|c u]; simpl; try done.
  unfold Ascii.compare. intros H1 H2.
  destruct (N.compare_spec (Ascii.N_of_ascii a) (Ascii.N_of_ascii b)), (N.compare_spec (Ascii.N_of_ascii b) (Ascii.N_of_ascii c)),
    (N.compare_spec (Ascii.N_of_ascii a) (Ascii.N_of_ascii c)); try done; try lia. by apply (IH t u).
Qed.

(** The key as one number and the id. *)
Definition key_rank (c : ApplicableCeiling) : Z := 2 * SCOPE_PRECEDENCE (ac_scope_type c) + narrowed c.

Lemma key_le_rank x y :
  key_le x y <-> key_rank x < key_rank y
    \/ (key_rank x = key_rank y /\ String.leb (scoped_budget_id x) (scoped_budget_id y) = true).
Proof.
  unfold key_le, key_leb, key_rank. set (p := SCOPE_PRECEDENCE (ac_scope_type x)).
  set (q := SCOPE_PRECEDENCE (ac_scope_type y)).
  assert (0 <= narrowed x <= 1) by (unfold narrowed; destruct (is_set _); lia).
  assert (0 <= narrowed y <= 1) by (unfold narrowed; destruct (is_set _); lia).
  destruct (p <? q) eqn:E1; [reflect_bools; intuition lia|].
  destruct (q <? p) eqn:E2; [reflect_bools; split; [done|lia]|].
  destruct (narrowed x <? narrowed y) eqn:E3; [reflect_bools; intuition lia|].
  destruct (narrowed y <? narrowed x) eqn:E4; [reflect_bools; split; [done|lia]|].
  reflect_bools. split; [intros; right; split; [lia|done]|intros [|[_ ?]]; [lia|done]].
Qed.

#[export] Instance key_le_trans : Transitive key_le.
Proof.
  intros x y z H1 H2. rewrite key_le_rank in *. destruct H1 as [H1|[H1 H1']], H2 as [H2|[H2 H2']].
  1-3: left; lia. right. split; [lia|by eapply string_leb_trans].
Qed.

#[export] Instance key_le_total : Total key_le.
Proof.
  intros x y. rewrite !key_le_rank. destruct (Z.lt_trichotomy (key_rank x) (key_rank y)) as [?|[?|?]]; [auto| |auto].
  destruct (String.leb_total (scoped_budget_id x) (scoped_budget_id y)); auto.
Qed.

(** The ceilings a request is held on are exactly those of its scopes that bind every provider
    or the one it uses, each once, the narrowest scope first, a provider's own before the
    scope's, ties by id; so two requests that share two ceilings take them in one order. *)
Theorem provider_ceilings_ordered cs provider :
  get_provider_ceilings cs provider ≡ₚ filter (binds provider) cs
  /\ StronglySorted key_le (get_provider_ceilings cs provider)
  /\ forall cs' provider' i j k l x y x' y',
       get_provider_ceilings cs provider !! i = Some x -> get_provider_ceilings cs provider !! j = Some y ->
       get_provider_ceilings cs' provider' !! k = Some x' -> get_provider_ceilings cs' provider' !! l = Some y' ->
       key_rank x = key_rank x' -> scoped_budget_id x = scoped_budget_id x' ->
       key_rank y = key_rank y' -> scoped_budget_id y = scoped_budget_id y' ->
       scoped_budget_id x <> scoped_budget_id y ->
       (i < j)%nat -> (k < l)%nat.
Proof.
  assert (Hsorted : forall cs provider, StronglySorted key_le (get_provider_ceilings cs provider)).
  { intros. apply StronglySorted_merge_sort; apply _. }
  split; [apply merge_sort_Permutation|]. split; [apply Hsorted|].
  intros cs' provider' i j k l x y x' y' Hx Hy Hx' Hy' Rx Ix Ry Iy Hne Hij.
  destruct (decide (k < l)%nat) as [|Hkl]; [done|]. exfalso. apply Hne.
  assert (l < k)%nat as Hlk by (assert (k <> l) by (intros ->; simplify_eq; congruence); lia). clear Hkl.
  assert (Hlt : forall m i j (a b : ApplicableCeiling), StronglySorted key_le m -> m !! i = Some a -> m !! j = Some b ->
    (i < j)%nat -> key_le a b).
  { clear. intros m i j a b Hs. revert i j. induction Hs as [|c m Hs IH Hall]; intros i j Hi Hj Hlt; [done|].
    destruct j as [|j]; [lia|]. simpl in Hj. destruct i as [|i]; simpl in Hi.
    - injection Hi as ->. eapply Forall_lookup_1; [exact Hall|exact Hj].
    - apply (IH i j); [done|done|lia]. }
  pose proof (Hlt _ _ _ _ _ (Hsorted cs provider) Hx Hy Hij) as H1.
  pose proof (Hlt _ _ _ _ _ (Hsorted cs' provider') Hy' Hx' Hlk) as H2.
  rewrite key_le_rank in H1, H2. rewrite <- Rx, <- Ix, <- Ry, <- Iy in H2.
  destruct H1 as [|[? H1]], H2 as [|[? H2]]; try lia. by apply String.leb_antisym.
Qed.

Lemma provider_ceilings_ordered_witness :
  let c i s k := mkApplicable i s k None None None None None None 0 0 in
  let org := c "a"%string SCOPE_ORGANIZATION None in
  let team := c "b"%string SCOPE_WORKSPACE None in
  let team_p := c "c"%string SCOPE_WORKSPACE (Some "p"%string) in
  get_provider_ceilings [org; team; team_p] (Some "p"%string) = [team_p; team; org]
  /\ get_provider_ceilings [org; team_p; team] None = [team; org]
  /\ (0 < 1)%nat.
Proof.
  intros c org team team_p.
  assert (H1 : get_provider_ceilings [org; team; team_p] (Some "p"%string) = [team_p; team; org]) by (vm_compute; reflexivity).
  assert (H2 : get_provider_ceilings [org; team_p; team] None = [team; org]) by (vm_compute; reflexivity).
  split; [exact H1|]. split; [exact H2|].
  apply (proj2 (proj2 (provider_ceilings_ordered [org; team; team_p] (Some "p"%string)))
    [org; team_p; team] None 1%nat 2%nat 0%nat 1%nat team org team org); rewrite ?H1, ?H2; try reflexivity; [done|lia].
Defined.
