(* ===== verification/Moves.v ===== *)
(** Moving a reservation onto the ceilings of a fallback's provider
    ([src/src/gateway/services/budgets/_reservation_moves.py], and [move_reservation] of
    [src/src/gateway/services/budgets/_service.py]).

    The candidate's price, and what the request's size comes to at that price, are read
    elsewhere: [plan] takes the size, its amount, whether the price has an output meter that
    a lower limit could shrink, as [candidate_estimate], and whether the price is free. *)
From S2P Require Import Prelude Periods Refusals Tables Repositories Session ScopedEnforcement Ledger Reservations.
From S2P Require Import Fixtures.
From stdpp Require Import gmap strings list fin_maps sorting.
From Stdlib Require Import ZArith Lia.
Import CeilingRepo.
Open Scope Z_scope.

(** ** The plan *)

Record ReservationMove := mkMove {
  target : list ApplicableCeiling;
  added_ceilings : list ApplicableCeiling;
  shared : list ApplicableBudget;
  dropped : list ApplicableBudget;
  move_held : HeldAmounts;
  gated_amount : option Z;
  reserved_output_tokens : option Z;
  move_reservation_id : nat;
  writes_row : bool
}.

(** The size of a request.  [cache_write_ttl] enters the price only, which is read elsewhere. *)
Record EstimateInputs := mkInputs {
  prompt_chars : Z;
  max_output_tokens : option Z;
  default_output_tokens : Z
}.

(** [output_sized]: the price has an output meter a lower output limit could shrink. *)
Definition get_reserved_output_tokens (i : EstimateInputs) (output_sized : bool) : option Z :=
  if output_sized
  then Some (match max_output_tokens i with Some n => n | None => default_output_tokens i end)
  else None.

(** The request's size, with what the candidate's price makes of it. *)
Record candidate_estimate := mkCandidate {
  ce_inputs : EstimateInputs;
  ce_amount : Z;
  ce_output_sized : bool
}.

Definition ce_tokens (x : candidate_estimate) : Z :=
  let i := ce_inputs x in estimate_tokens (prompt_chars i) (max_output_tokens i) (default_output_tokens i).

Definition ceiling_ids (cs : list ApplicableCeiling) : list string := scoped_budget_id <$> cs.

(** What the ceilings of the candidate will each hold. *)
Definition planned_held (h : ReservationHandle) (e : option candidate_estimate) : HeldAmounts :=
  let scoped := negb (bool_decide (scoped_budgets h = [])) in
  let amount := match e with
                | Some x => ce_amount x
                | None => if scoped then scoped_estimate h else estimate h
                end in
  if scoped then mkHeld (Z.max amount (scoped_estimate h)) (scoped_token_estimate h) (scoped_request_estimate h)
  else
    let tokens := match e with Some x => ce_tokens x | None => token_estimate h end in
    mkHeld amount (Z.min (Z.max tokens 0) MAX_COUNT_LIMIT) 1.

Definition plan (h : ReservationHandle) (instance : option string) (e : option candidate_estimate)
    (is_free_pricing : bool) : prog (option ReservationMove) :=
  if negb (counts_toward_budget h) || bool_decide (strategy h = "disabled"%string) then Ret None
  else
    let target := get_provider_ceilings (scope_ceilings h) instance in
    if bool_decide (target = []) && bool_decide (scoped_budgets h = []) then Ret None
    else
      let held := planned_held h e in
      let unchanged := bool_decide (ceiling_ids target = scoped_budget_ids h) in
      if unchanged && (amount held <=? scoped_estimate h) then Ret None
      else
        let free := is_free_pricing && (amount held =? 0) in
        if free && negb (existsb (fun c => caps_counts (to_applicable_budget c)) target) then Ret None
        else
          let! id := match reservation_id h with Some i => Ret i | None => uuid4 end in
          Ret (Some (mkMove target
            (filter (fun c => scoped_budget_id c ∉ scoped_budget_ids h) target)
            (filter (fun b => budget_id b ∈ ceiling_ids target) (scoped_budgets h))
            (filter (fun b => budget_id b ∉ ceiling_ids target) (scoped_budgets h))
            held
            (if free then None else Some (amount held))
            (match e with Some x => get_reserved_output_tokens (ce_inputs x) (ce_output_sized x) | None => None end)
            id
            (negb (is_set (reservation_id h)) && negb (bool_decide (target = []))))).

(** ** Applying it *)

Record SpendCeilingExceededError := mkSpendCeilingExceeded {
  detail : string;
  error_scope : ScopeType;
  error_retry_after : option Z;
  provider_only : bool   (** [ProviderSpendCeilingExceededError] *)
}.

Inductive MoveOutcome : Type :=
| Moved
| Reclaimed
| Refused (refusal : SpendCeilingExceededError).

(** [_GatedHold]. *)
Record GatedHold := mkGated {
  g_budget : ApplicableBudget;
  g_amount : option Z;
  g_tokens : Z;
  g_requests : Z;
  g_new_request : bool
}.

Definition g_id (g : GatedHold) : string := budget_id (g_budget g).

Definition id_le (x y : GatedHold) : Prop := String.leb (g_id x) (g_id y) = true.
#[export] Instance id_le_dec x y : Decision (id_le x y).
Proof. unfold id_le. apply _. Defined.

Definition g_held (g : GatedHold) : HeldAmounts := mkHeld (default 0 (g_amount g)) (g_tokens g) (g_requests g).

(** Every hold a ceiling can refuse, before the order they are taken in. *)
Definition gated_holds (h : ReservationHandle) (m : ReservationMove) : list GatedHold :=
  let growth := amount (move_held m) - scoped_estimate h in
  ((fun c => mkGated (to_applicable_budget c) (gated_amount m) (tokens (move_held m)) (requests (move_held m)) true)
     <$> added_ceilings m)
  ++ (if 0 <? growth then (fun b => mkGated b (Some growth) 0 0 false) <$> shared m else []).

Definition move_refusal (g : GatedHold) (output_tokens : option Z) : prog SpendCeilingExceededError :=
  let! usage := query (fun _ d => get_usage d (g_id g)) in
  let x := refused_axis usage (g_amount g) (g_tokens g) (g_requests g) (g_new_request g) in
  let! t := now in
  Ret (mkSpendCeilingExceeded (refusal_detail (subject (g_budget g)) x (g_new_request g) output_tokens)
         (ab_scope_type (g_budget g)) (retry_after x t) (is_set (ab_provider_key_id (g_budget g)))).

(** The loop over the gated holds: [None] when every one was taken. *)
Fixpoint take_holds (taken gs : list GatedHold) (output_tokens : option Z) : prog (option SpendCeilingExceededError) :=
  match gs with
  | [] => Ret None
  | g :: rest =>
      let! held := update_rowcount (fun t => hold t (g_id g) (g_amount g) (g_tokens g) (g_requests g) (g_new_request g)) in
      if held then take_holds (taken ++ [g]) rest output_tokens
      else
        for_each taken (fun x => update (fun t => release_holds t [g_id x] (g_held x))) ;;!
        let! e := move_refusal g output_tokens in Ret (Some e)
  end.

Definition apply (h : ReservationHandle) (m : ReservationMove) : prog MoveOutcome :=
  let! active :=
    match reservation_id h with
    | Some i => locking_query (fun _ d => ReservationRepo.lock_active d i)
    | None => Ret true
    end in
  if negb active then Ret Reclaimed
  else
    defer_commit_flush ;;!
    locking_query (fun _ _ => tt) ;;!
    let! t := now in
    roll_ended_windows (added_ceilings m) t ;;!
    let! refusal := take_holds [] (merge_sort id_le (gated_holds h m)) (reserved_output_tokens m) in
    match refusal with
    | Some e => Ret (Refused e)
    | None =>
        (if bool_decide (dropped m = []) then Ret tt
         else update (fun t => release_holds t (budget_id <$> dropped m) (scoped_leg h))) ;;!
        match reservation_id h with
        | Some i =>
            update (fun _ => ReservationRepo.move_lines i (budget_id <$> dropped m) (ceiling_ids (added_ceilings m))
              (move_held m))
        | None =>
            if writes_row m then
              insert_row (fun _ => ReservationRepo.add (move_reservation_id m) (user_id h) (reserved h)
                (mkHeld (estimate h) (token_estimate h) (if reserved h then request_estimate h else 0))
                (move_held m) (ceiling_ids (target m)) (t + reservation_ttl_sec h * SECOND))
            else Ret tt
        end ;;!
        Ret Moved
    end.

(** [add_released_unless_exists], in a savepoint that a duplicate rolls back. *)
Definition add_released_unless_exists (id : nat) (user : string) : prog bool :=
  execute (fun t d => match ReservationRepo.add_released t id user d with
                      | Some d' => (inr true, d')
                      | None => (inr false, d)
                      end).

Definition landed (h : ReservationHandle) (m : ReservationMove) : prog bool :=
  if writes_row m then
    let! staged := add_released_unless_exists (move_reservation_id m) (user_id h) in Ret (negb staged)
  else
    let! active := locking_query (fun _ d => ReservationRepo.lock_active d (move_reservation_id m)) in
    if negb active then Ret false
    else
      let! ls := query (fun _ d => ReservationRepo.list_lines d (move_reservation_id m)) in
      Ret (bool_decide (list_to_set (line_budget_id <$> ls) =@{gset string} list_to_set (ceiling_ids (target m)))
           && forallb (fun l => bool_decide (line_held l = move_held m)) ls).

Definition retarget (h : ReservationHandle) (m : ReservationMove) : ReservationHandle :=
  let held := if bool_decide (target m = []) then zero_held else move_held m in
  mkHandle (user_id h) (estimate h) (reserved h) (strategy h) (counts_toward_budget h)
    (to_applicable_budget <$> target m) (amount held) (token_estimate h) (tokens held) (request_estimate h)
    (requests held) (if writes_row m then Some (move_reservation_id m) else reservation_id h)
    (reservation_ttl_sec h) (scope_ceilings h).

(** ** The service's call *)

(** One block of the Unit of Work: it commits as it ends, and rolls back on an error. *)
Definition uow_block {A} (p : prog A) : prog A :=
  let! r := attempt p in
  match r with
  | inr x => try_except commit (fun _ => true) (fun e => suppress is_database_error rollback ;;! Raise e) ;;! Ret x
  | inl e => suppress is_database_error rollback ;;! Raise e
  end.

Definition move_landed (h : ReservationHandle) (m : ReservationMove) : prog bool :=
  try_except (uow_block (landed h m)) is_database_error (fun _ => Ret false).

(** The handle as the call leaves it, and what it raises: a refusal, or the database's error. *)
Definition move_reservation (h : ReservationHandle) (instance : option string) (e : option candidate_estimate)
    (is_free_pricing : bool) : prog (ReservationHandle * option (exn + SpendCeilingExceededError)) :=
  let! planned := plan h instance e is_free_pricing in
  match planned with
  | None => Ret (h, None)
  | Some m =>
      let! r := attempt (uow_block (apply h m)) in
      match r with
      | inl x =>
          if is_database_error x then
            let! ok := move_landed h m in
            Ret (if ok then (retarget h m, None) else (h, Some (inl x)))
          else Ret (h, Some (inl x))
      | inr (Refused refusal) => Ret (h, Some (inr refusal))
      | inr _ => Ret (retarget h m, None)
      end
  end.
