(* ===== verification/MovesProofs.v ===== *)
(** A move conserves what the ledger records: it holds and records the candidate's ceilings
    together, or leaves every hold as it was. *)
From S2P Require Import Prelude Periods Refusals Tables Repositories Session ScopedEnforcement Ledger Reservations.
From S2P Require Import Fixtures Admission CeilingOrder Moves.
From stdpp Require Import gmap strings list fin_maps sorting.
From Stdlib Require Import ZArith Lia.
Import CeilingRepo.
Open Scope Z_scope.

(** ** Holds, whatever becomes of the spend *)

(** [d'] has the rows of [d], the same holds on users, and each ceiling's hold through [f]. *)
Record held_becomes (f : string -> HeldAmounts -> HeldAmounts) (d d' : database) : Prop := {
  he_reservations : reservations d' = reservations d;
  he_users : forall u, counter_held d' (CUser u) = counter_held d (CUser u);
  he_ceilings : forall s, counter_held d' (CCeiling s) = f s <$> counter_held d (CCeiling s)
}.

Lemma held_becomes_refl d : held_becomes (fun _ h => h) d d.
Proof. split; try done. intros s. by rewrite option_fmap_id. Qed.

Lemma held_becomes_trans f g d1 d2 d3 :
  held_becomes f d1 d2 -> held_becomes g d2 d3 -> held_becomes (fun s h => g s (f s h)) d1 d3.
Proof.
  intros [A1 A2 A3] [B1 B2 B3]. split; [congruence|intros u; by rewrite B2|].
  intros s. rewrite B3, A3. by rewrite <- option_fmap_compose.
Qed.

Lemma held_becomes_ext f g d d' :
  (forall s h, counter_held d (CCeiling s) = Some h -> f s h = g s h) ->
  held_becomes f d d' -> held_becomes g d d'.
Proof.
  intros Hfg [A1 A2 A3]. split; try done. intros s. rewrite A3.
  destruct (counter_held d (CCeiling s)) as [h|] eqn:E; [|done]. simpl. f_equal. by apply Hfg.
Qed.

Lemma holds_held f d d' : holds_become f d d' -> held_becomes f d d'.
Proof.
  intros [A1 A2 A3 A4]. split; [done|intros u; simpl; by rewrite A1|]. intros s. simpl. specialize (A4 s).
  destruct (ceilings d !! s) as [c|]; simpl; [|by rewrite A4].
  destruct A4 as (c' & -> & _ & H & _). simpl. by rewrite H.
Qed.

(** ** Taking the gated holds *)

Definition taken_on (gs : list GatedHold) (s : string) (h : HeldAmounts) : HeldAmounts :=
  foldr (fun g acc => if decide (g_id g = s) then add_held acc (g_held g) else acc) h gs.

Lemma taken_on_absent gs s h : s ∉ g_id <$> gs -> taken_on gs s h = h.
Proof.
  induction gs as [|g gs IH]; [done|]. rewrite fmap_cons. intros Hs. simpl.
  rewrite decide_False by set_solver. apply IH. set_solver.
Qed.

Lemma taken_on_snoc gs g s h :
  g_id g ∉ g_id <$> gs -> taken_on (gs ++ [g]) s h = held_on [g_id g] (g_held g) s (taken_on gs s h).
Proof.
  intros Hg. unfold held_on. induction gs as [|x gs IH]; simpl.
  - destruct (decide (g_id g = s)) as [->|]; [by rewrite decide_True by set_solver|by rewrite decide_False by set_solver].
  - rewrite fmap_cons in Hg. rewrite IH by set_solver. destruct (decide (g_id x = s)) as [<-|]; [|done].
    by rewrite !decide_False by set_solver.
Qed.

Lemma taken_on_perm gs gs' s h : NoDup (g_id <$> gs) -> gs ≡ₚ gs' -> taken_on gs s h = taken_on gs' s h.
Proof.
  intros Hnd Hp. induction Hp as [|x l l' Hp IH|x y l|l1 l2 l3 H1 IH1 H2 IH2].
  - done.
  - rewrite fmap_cons in Hnd. apply NoDup_cons in Hnd as [_ Hnd]. simpl. by rewrite IH.
  - rewrite !fmap_cons in Hnd. apply NoDup_cons in Hnd as [Hn _]. simpl.
    destruct (decide (g_id y = s)), (decide (g_id x = s)); try done. exfalso. apply Hn. set_solver.
  - rewrite IH1 by done. apply IH2. by rewrite <- H1.
Qed.

Lemma run_take_one g x d w :
  reads_from x w = Some d ->
  let '(ok, d') := hold (clock w) (g_id g) (g_amount g) (g_tokens g) (g_requests g) (g_new_request g) d in
  run (update_rowcount (fun t => hold t (g_id g) (g_amount g) (g_tokens g) (g_requests g) (g_new_request g))) [] x w
  = (inr ok, Dirty d', w).
Proof. intros Hx. simpl. rewrite Hx. by destruct (hold _ _ _ _ _ _ _). Qed.

(** The give-back of a refused move. *)
Lemma run_give_back taken x d w d0 :
  reads_from x w = Some d -> NoDup (g_id <$> taken) -> Forall (fun g => held_nonneg (g_held g)) taken ->
  (forall s h, counter_held d0 (CCeiling s) = Some h -> held_nonneg h) ->
  held_becomes (taken_on taken) d0 d ->
  exists x' d', run (for_each taken (fun g => update (fun t => release_holds t [g_id g] (g_held g)))) [] x w = (inr tt, x', w)
    /\ reads_from x' w = Some d' /\ held_becomes (fun _ h => h) d0 d'.
Proof.
  intros Hx Hnd Hn H0. revert x d Hx. induction Hn as [|g taken Hg Hn IH]; intros x d Hx Hb.
  { exists x, d. done. }
  rewrite fmap_cons in Hnd. apply NoDup_cons in Hnd as [Hg1 Hnd]. cbn [for_each].
  rewrite run_bind_quiet. cbn [update execute run next_fault]. rewrite Hx. cbn [of_reply run].
  apply (IH Hnd (Dirty (release_holds (clock w) [g_id g] (g_held g) d)) _ eq_refl).
  eapply held_becomes_ext; [|eapply held_becomes_trans; [exact Hb|apply holds_held, release_becomes]].
  intros s h Hh. unfold released_on. simpl. destruct (decide (g_id g = s)) as [<-|Hne].
  - rewrite decide_True by set_solver. rewrite taken_on_absent by done. apply released_added; [done|by eapply H0].
  - by rewrite decide_False by set_solver.
Qed.

Lemma run_take_holds gs taken x d w d0 out :
  reads_from x w = Some d -> NoDup (g_id <$> (taken ++ gs)) -> Forall (fun g => held_nonneg (g_held g)) (taken ++ gs) ->
  (forall s h, counter_held d0 (CCeiling s) = Some h -> held_nonneg h) ->
  held_becomes (taken_on taken) d0 d ->
  exists r x' d', run (take_holds taken gs out) [] x w = (inr r, x', w) /\ reads_from x' w = Some d'
    /\ match r with
       | None => held_becomes (taken_on (taken ++ gs)) d0 d'
       | Some _ => held_becomes (fun _ h => h) d0 d'
       end.
Proof.
  revert taken x d. induction gs as [|g gs IH]; intros taken x d Hx Hnd Hn H0 Hb; cbn [take_holds].
  { exists None, x, d. by rewrite app_nil_r. }
  rewrite run_bind_quiet. pose proof (run_take_one g x d w Hx) as Hone.
  assert (Hnew : g_id g ∉ g_id <$> taken).
  { rewrite fmap_app, fmap_cons in Hnd. apply NoDup_app in Hnd as (_ & Hd & _). intros Hin. apply (Hd _ Hin). left. }
  destruct (hold _ _ _ _ _ _ d) as [[] d1] eqn:E; rewrite Hone.
  - assert (Hb1 : held_becomes (taken_on (taken ++ [g])) d0 d1).
    { eapply held_becomes_ext; [|eapply held_becomes_trans; [exact Hb|exact (holds_held _ _ _ (hold_becomes _ _ _ _ _ _ _ _ E))]].
      intros s h _. by rewrite taken_on_snoc. }
    destruct (IH (taken ++ [g]) (Dirty d1) d1) as (r & x' & d' & Hr & Hx' & Hpost);
      try done; try by rewrite <- app_assoc.
    exists r, x', d'. split; [done|]. split; [done|]. by rewrite <- app_assoc in Hpost.
  - assert (d1 = d) as ->.
    { revert E. unfold hold. destruct (ceilings d !! g_id g) as [c|]; [|by intros [= <-]].
      destruct (hold_gates _ _ _ _ _ _); [done|by intros [= <-]]. }
    rewrite run_bind_quiet.
    destruct (run_give_back taken (Dirty d) d w d0) as (x' & d' & -> & Hx' & Hb'); try done.
    { rewrite fmap_app in Hnd. by apply NoDup_app in Hnd as (? & _ & _). }
    { by apply Forall_app in Hn as [? _]. }
    unfold move_refusal. rewrite !run_bind_quiet. cbn [query run next_fault]. rewrite Hx'. cbn [of_reply run].
    rewrite run_bind_quiet. cbn [now run]. eexists _, x', d'. split; [reflexivity|]. done.
Qed.

(** ** The plan *)

Lemma plan_shape h instance e free w r w' m :
  run (plan h instance e free) [] Clean w = (inr (Some m), r, w') ->
  r = Clean /\ db w' = db w /\ clock w' = clock w
  /\ target m = get_provider_ceilings (scope_ceilings h) instance
  /\ added_ceilings m = filter (fun c => scoped_budget_id c ∉ scoped_budget_ids h) (target m)
  /\ shared m = filter (fun b => budget_id b ∈ ceiling_ids (target m)) (scoped_budgets h)
  /\ dropped m = filter (fun b => budget_id b ∉ ceiling_ids (target m)) (scoped_budgets h)
  /\ move_held m = planned_held h e
  /\ default 0 (gated_amount m) = amount (move_held m)
  /\ (ceiling_ids (target m) = scoped_budget_ids h -> scoped_estimate h < amount (move_held m))
  /\ match reservation_id h with
     | Some i => move_reservation_id m = i /\ writes_row m = false
     | None => move_reservation_id m = next_id w
         /\ writes_row m = negb (bool_decide (target m = []))
     end.
Proof.
  unfold plan. destruct (negb _ || _); [by intros [=]|]. destruct (bool_decide _ && _); [by intros [=]|].
  destruct (bool_decide (ceiling_ids _ = _) && _) eqn:Eu; [by intros [=]|].
  destruct (free && (amount (planned_held h e) =? 0) && _) eqn:Ef; [by intros [=]|].
  rewrite run_bind_quiet. destruct (reservation_id h) as [i|] eqn:Ei; simpl; intros [= <- <- <-]; simpl.
  all: do 8 (split; [done|]); split; [|split; [|done]].
  1,3: destruct free; simpl; [|done]; destruct (amount (planned_held h e) =? 0) eqn:E0; reflect_bools; simpl; [lia|done].
  all: intros Heq; rewrite bool_decide_eq_true_2 in Eu by done; simpl in Eu; by reflect_bools.
Qed.

(** What a move that landed makes of each ceiling's hold. *)
Definition moved_hold (h : ReservationHandle) (m : ReservationMove) (s : string) (x : HeldAmounts) : HeldAmounts :=
  if decide (s ∈ ceiling_ids (added_ceilings m)) then add_held x (move_held m)
  else if decide (s ∈ budget_id <$> shared m) then add_held x (mkHeld (amount (move_held m) - scoped_estimate h) 0 0)
  else if decide (s ∈ budget_id <$> dropped m) then released (scoped_leg h) x
  else x.

Lemma ids_filter {A} (f : A -> string) (P : A -> Prop) (R : string -> Prop) `{forall x, Decision (P x)} (l : list A) s :
  (forall x, P x <-> R (f x)) -> s ∈ f <$> filter P l <-> s ∈ f <$> l /\ R s.
Proof.
  intros HPR. rewrite !list_elem_of_fmap. split.
  - intros (x & -> & Hx). apply list_elem_of_filter in Hx as [HP Hx]. split; [eauto|by apply HPR].
  - intros [(x & -> & Hx) HP]. exists x. split; [done|]. apply list_elem_of_filter. by rewrite HPR.
Qed.

Lemma nodup_ids_filter {A} (f : A -> string) (P : A -> Prop) `{forall x, Decision (P x)} (l : list A) :
  NoDup (f <$> l) -> NoDup (f <$> filter P l).
Proof.
  intros Hnd. eapply sublist_NoDup; [exact Hnd|]. clear Hnd.
  assert (forall l1 l2 : list A, l1 `sublist_of` l2 -> (f <$> l1) `sublist_of` (f <$> l2)) as Hs.
  { induction 1; simpl; by constructor. }
  apply Hs, sublist_filter.
Qed.

Section moves.
Context (h : ReservationHandle) (m : ReservationMove) (e : option candidate_estimate).
Context (Hheld : move_held m = planned_held h e).
Context (Hgated : default 0 (gated_amount m) = amount (move_held m)).
Context (Hadded : added_ceilings m = filter (fun c => scoped_budget_id c ∉ scoped_budget_ids h) (target m)).
Context (Hshared : shared m = filter (fun b => budget_id b ∈ ceiling_ids (target m)) (scoped_budgets h)).
Context (Hdropped : dropped m = filter (fun b => budget_id b ∉ ceiling_ids (target m)) (scoped_budgets h)).
Context (Htarget : NoDup (ceiling_ids (target m))).
Context (Hids : NoDup (scoped_budget_ids h)).
Context (Hscoped : held_nonneg (scoped_leg h)).
Context (Hmove : held_nonneg (move_held m)).

Lemma added_ids s : s ∈ ceiling_ids (added_ceilings m) <-> s ∈ ceiling_ids (target m) /\ s ∉ scoped_budget_ids h.
Proof. unfold ceiling_ids. rewrite Hadded. by apply (ids_filter scoped_budget_id _ (fun s => s ∉ scoped_budget_ids h)). Qed.

Lemma shared_ids s : s ∈ budget_id <$> shared m <-> s ∈ scoped_budget_ids h /\ s ∈ ceiling_ids (target m).
Proof. rewrite Hshared. by apply (ids_filter budget_id _ (fun s => s ∈ ceiling_ids (target m))). Qed.

Lemma dropped_ids s : s ∈ budget_id <$> dropped m <-> s ∈ scoped_budget_ids h /\ s ∉ ceiling_ids (target m).
Proof. rewrite Hdropped. by apply (ids_filter budget_id _ (fun s => s ∉ ceiling_ids (target m))). Qed.

(** A ceiling kept holds at least what it held, and the same counts. *)
Lemma kept_amounts : scoped_budgets h <> [] ->
  scoped_estimate h <= amount (move_held m)
  /\ tokens (move_held m) = scoped_token_estimate h /\ requests (move_held m) = scoped_request_estimate h.
Proof. intros Hne. rewrite Hheld. unfold planned_held. rewrite bool_decide_eq_false_2 by done. simpl. lia. Qed.

Lemma gated_ids : g_id <$> gated_holds h m =
  ceiling_ids (added_ceilings m) ++
  (if 0 <? amount (move_held m) - scoped_estimate h then budget_id <$> shared m else []).
Proof.
  unfold gated_holds. rewrite fmap_app, <- list_fmap_compose. f_equal.
  destruct (0 <? _); [|done]. by rewrite <- list_fmap_compose.
Qed.

Lemma gated_nodup : NoDup (g_id <$> gated_holds h m).
Proof.
  rewrite gated_ids. apply NoDup_app. split; [|split].
  - unfold ceiling_ids. rewrite Hadded. by apply nodup_ids_filter.
  - intros s Hs. apply added_ids in Hs as [_ Hs]. destruct (0 <? _); [|set_solver]. rewrite shared_ids. tauto.
  - destruct (0 <? _); [|constructor]. rewrite Hshared. by apply nodup_ids_filter.
Qed.

Lemma gated_nonneg : Forall (fun g => held_nonneg (g_held g)) (gated_holds h m).
Proof.
  unfold gated_holds. apply Forall_app. split.
  - apply Forall_fmap, Forall_true. intros c. pose proof (Hmove Usd). pose proof (Hmove Tok). pose proof (Hmove Req).
    apply mkHeld_nonneg; simpl in *; [by rewrite Hgated|done|done].
  - destruct (0 <? _) eqn:E; [|constructor]. reflect_bools. apply Forall_fmap, Forall_true. intros b.
    apply mkHeld_nonneg; simpl; lia.
Qed.

Lemma taken_on_gated s x : taken_on (gated_holds h m) s x =
  if decide (s ∈ ceiling_ids (added_ceilings m)) then add_held x (move_held m)
  else if decide (s ∈ budget_id <$> shared m) then add_held x (mkHeld (amount (move_held m) - scoped_estimate h) 0 0)
  else x.
Proof.
  assert (Happ : forall l1 l2, taken_on (l1 ++ l2) s x = taken_on l1 s (taken_on l2 s x)).
  { intros l1 l2. unfold taken_on. by rewrite foldr_app. }
  assert (Hone : forall (A : Type) (f : A -> GatedHold) (l : list A) d y, NoDup ((fun a => g_id (f a)) <$> l) ->
    (forall a, a ∈ l -> g_held (f a) = d) ->
    taken_on (f <$> l) s y = if decide (s ∈ (fun a => g_id (f a)) <$> l) then add_held y d else y).
  { clear. intros A f l d y. induction l as [|a l IH]; intros Hnd Hd; [done|].
    rewrite !fmap_cons in *. apply NoDup_cons in Hnd as [Ha Hnd]. simpl.
    rewrite IH by (done || (intros; apply Hd; by right)). destruct (decide (g_id (f a) = s)) as [<-|Hne].
    - rewrite (decide_False (P := _ ∈ _ <$> l)) by done. rewrite decide_True by set_solver. by rewrite (Hd a) by left.
    - destruct (decide (s ∈ _ <$> l)); [by rewrite decide_True by set_solver|by rewrite decide_False by set_solver]. }
  unfold gated_holds. rewrite Happ. pose proof gated_nodup as Hnd. rewrite gated_ids in Hnd.
  apply NoDup_app in Hnd as (Hnd1 & Hdis & Hnd2).
  rewrite (Hone _ _ _ (move_held m)); [|exact Hnd1|].
  2: { intros c _. unfold g_held. simpl. rewrite Hgated. by destruct (move_held m). }
  change ((fun a => g_id _) <$> added_ceilings m) with (ceiling_ids (added_ceilings m)).
  destruct (0 <? amount (move_held m) - scoped_estimate h) eqn:E.
  - rewrite (Hone _ _ _ (mkHeld (amount (move_held m) - scoped_estimate h) 0 0)); [|exact Hnd2|done].
    change ((fun a => g_id _) <$> shared m) with (budget_id <$> shared m).
    destruct (decide (s ∈ ceiling_ids (added_ceilings m))) as [Hin|]; [|done].
    by rewrite decide_False by by apply Hdis.
  - simpl. destruct (decide (s ∈ ceiling_ids _)); [done|]. destruct (decide (s ∈ budget_id <$> shared m)) as [Hin|]; [|done].
    apply shared_ids in Hin as [Hin _]. reflect_bools.
    destruct kept_amounts as [Hk _]; [intros Hn; unfold scoped_budget_ids in Hin; rewrite Hn in Hin; set_solver|].
    replace (amount (move_held m) - scoped_estimate h) with 0 by lia.
    change (mkHeld 0 0 0) with zero_held. unfold add_held. simpl. rewrite !Z.add_0_r. by destruct x.
Qed.

Lemma run_roll cs t x d w :
  reads_from x w = Some d ->
  exists x' d', run (roll_ended_windows cs t) [] x w = (inr tt, x', w) /\ reads_from x' w = Some d'
    /\ held_becomes (fun _ h => h) d d'.
Proof.
  unfold roll_ended_windows. revert x d. induction cs as [|c cs IH]; intros x d Hx; cbn [for_each].
  { exists x, d. split; [done|]. split; [done|apply held_becomes_refl]. }
  rewrite run_bind_quiet.
  destruct (ac_period_end c) as [end_|]; [|by apply IH]. destruct (t <? end_); [by apply IH|].
  destruct (period_window t (ac_budget_duration_sec c) (ac_reset_alignment c)) as [window|]; [|by apply IH].
  set (bounds := match window with Some (s, e') => (s, Some e') | None => (t, None) end).
  destruct bounds as [start next_end]. cbn [update execute run next_fault]. rewrite Hx. cbn [of_reply run].
  set (d1 := roll_period (clock w) t (scoped_budget_id c) start next_end d).
  assert (H1 : held_becomes (fun _ h => h) d d1).
  { subst d1. unfold roll_period. destruct (ceilings d !! scoped_budget_id c) as [r|] eqn:Hr; [|apply held_becomes_refl].
    destruct (period_end r); [|apply held_becomes_refl]. destruct (_ <=? _); [|apply held_becomes_refl].
    split; try done. intros s. simpl. rewrite option_fmap_id. destruct (decide (s = scoped_budget_id c)) as [->|Hne].
    - by rewrite lookup_insert_eq, Hr.
    - by rewrite lookup_insert_ne. }
  destruct (IH (Dirty d1) d1 eq_refl) as (x' & d' & Hr & Hx' & H2). exists x', d'. split; [done|]. split; [done|].
  eapply held_becomes_ext; [|eapply held_becomes_trans; [exact H1|exact H2]]. done.
Qed.

(** The statements of a move after its holds. *)
Definition recorded_move (t : Z) (d1 : database) : database :=
  match reservation_id h with
  | Some i => ReservationRepo.move_lines i (budget_id <$> dropped m) (ceiling_ids (added_ceilings m)) (move_held m) d1
  | None =>
      if writes_row m then
        insert_reservation d1 (move_reservation_id m)
          (mkReservation (user_id h) (mkHeld (estimate h) (token_estimate h) (if reserved h then request_estimate h else 0))
             (reserved h) RESERVATION_ACTIVE (t + reservation_ttl_sec h * SECOND)
             (ReservationRepo.held_lines (move_held m) (ceiling_ids (target m))))
      else d1
  end.

Definition row_to_move (d : database) : Prop :=
  match reservation_id h with
  | Some i => ReservationRepo.lock_active d i = true
  | None => reservations d !! move_reservation_id m = None
  end.

Lemma run_apply w :
  row_to_move (db w) ->
  (forall s x, counter_held (db w) (CCeiling s) = Some x -> held_nonneg x) ->
  exists out x' d', run (Moves.apply h m) [] Clean w = (inr out, x', w) /\ reads_from x' w = Some d'
    /\ match out with
       | Moved => exists d1, held_becomes (moved_hold h m) (db w) d1 /\ d' = recorded_move (clock w) d1
       | Reclaimed => False
       | Refused _ => held_becomes (fun _ h => h) (db w) d'
       end.
Proof.
  intros Hrow Hn. unfold Moves.apply, row_to_move in *. rewrite run_bind_quiet.
  assert (Hstart : exists x0, run (match reservation_id h with
      | Some i => locking_query (fun _ d => ReservationRepo.lock_active d i)
      | None => Ret true end) [] Clean w = (inr true, x0, w) /\ reads_from x0 w = Some (db w)).
  { destruct (reservation_id h) as [i|]; [|by exists Clean]. simpl. rewrite Hrow. by exists (Dirty (db w)). }
  destruct Hstart as (x0 & -> & Hx0). cbn [negb].
  rewrite run_bind_quiet. cbn [defer_commit_flush query run next_fault]. rewrite Hx0. cbn [of_reply run].
  rewrite run_bind_quiet. cbn [locking_query execute run next_fault]. rewrite Hx0. cbn [of_reply run].
  rewrite run_bind_quiet. cbn [now run]. rewrite run_bind_quiet.
  destruct (run_roll (added_ceilings m) (clock w) (Dirty (db w)) (db w) w eq_refl) as (x1 & d1 & -> & Hx1 & H1).
  rewrite run_bind_quiet.
  assert (Hperm : merge_sort id_le (gated_holds h m) ≡ₚ gated_holds h m) by apply merge_sort_Permutation.
  destruct (run_take_holds (merge_sort id_le (gated_holds h m)) [] x1 d1 w (db w) (reserved_output_tokens m) Hx1)
    as (r & x2 & d2 & -> & Hx2 & H2).
  { simpl. rewrite Hperm. apply gated_nodup. }
  { simpl. rewrite Hperm. apply gated_nonneg. }
  { done. }
  { done. }
  destruct r as [err|]; [by exists (Refused err), x2, d2|].
  assert (Hgot : held_becomes (taken_on (gated_holds h m)) (db w) d2).
  { eapply held_becomes_ext; [|exact H2]. intros s x _. apply taken_on_perm; [|done]. simpl. rewrite Hperm. apply gated_nodup. }
  set (rel := if bool_decide (dropped m = []) then d2 else release_holds (clock w) (budget_id <$> dropped m) (scoped_leg h) d2).
  assert (Hrel : held_becomes (moved_hold h m) (db w) rel).
  { assert (Hr : held_becomes (released_on (budget_id <$> dropped m) (scoped_leg h)) d2 rel).
    { subst rel. destruct (bool_decide (dropped m = [])) eqn:E; [|apply holds_held, release_becomes].
      apply bool_decide_eq_true in E as ->. eapply held_becomes_ext; [|apply held_becomes_refl].
      intros s x _. unfold released_on. by rewrite decide_False by set_solver. }
    eapply held_becomes_ext; [|eapply held_becomes_trans; [exact Hgot|exact Hr]]. intros s x _. simpl.
    rewrite taken_on_gated. unfold moved_hold, released_on.
    pose proof (added_ids s) as Ia. pose proof (shared_ids s) as Is. pose proof (dropped_ids s) as Id.
    destruct (decide (s ∈ ceiling_ids (added_ceilings m))), (decide (s ∈ budget_id <$> shared m)),
      (decide (s ∈ budget_id <$> dropped m)); try done; tauto. }
  rewrite run_bind_quiet.
  assert (Hstep : exists x3, run (if bool_decide (dropped m = []) then Ret tt
      else update (fun t => release_holds t (budget_id <$> dropped m) (scoped_leg h))) [] x2 w = (inr tt, x3, w)
      /\ reads_from x3 w = Some rel).
  { subst rel. destruct (bool_decide (dropped m = [])); [by exists x2|]. cbn [update execute run next_fault].
    rewrite Hx2. cbn [of_reply run]. by eexists. }
  destruct Hstep as (x3 & -> & Hx3). rewrite run_bind_quiet.
  assert (Hlast : exists x4, run (match reservation_id h with
        | Some i => update (fun _ => ReservationRepo.move_lines i (budget_id <$> dropped m)
            (ceiling_ids (added_ceilings m)) (move_held m))
        | None => if writes_row m then
              insert_row (fun _ => ReservationRepo.add (move_reservation_id m) (user_id h) (reserved h)
                (mkHeld (estimate h) (token_estimate h) (if reserved h then request_estimate h else 0))
                (move_held m) (ceiling_ids (target m)) (clock w + reservation_ttl_sec h * SECOND))
            else Ret tt
        end) [] x3 w = (inr tt, x4, w) /\ reads_from x4 w = Some (recorded_move (clock w) rel)).
  { unfold recorded_move. destruct (reservation_id h) as [i|].
    - cbn [update execute run next_fault]. rewrite Hx3. cbn [of_reply run]. by eexists.
    - destruct (writes_row m); [|by exists x3]. cbn [insert_row execute run next_fault]. rewrite Hx3.
      unfold ReservationRepo.add. rewrite (he_reservations _ _ _ Hrel), Hrow. cbn [of_reply run]. by eexists. }
  destruct Hlast as (x4 & -> & Hx4). exists Moved, x4, (recorded_move (clock w) rel).
  split; [done|]. split; [done|]. by exists rel.
Qed.

End moves.

(** ** What the ledger records of it *)

Lemma lines_hold_perm ls ls' s a : ls ≡ₚ ls' -> lines_hold ls s a = lines_hold ls' s a.
Proof. apply sumZ_perm. Qed.

(** The ids a row's lines name after a move, and what each holds. *)
Lemma moved_lines h m ids :
  (forall s, s ∈ ceiling_ids (added_ceilings m) <-> s ∈ ceiling_ids (target m) /\ s ∉ ids) ->
  (forall s, s ∈ budget_id <$> dropped m <-> s ∈ ids /\ s ∉ ceiling_ids (target m)) ->
  NoDup ids -> NoDup (ceiling_ids (target m)) -> NoDup (ceiling_ids (added_ceilings m)) ->
  ((fun l => mkLine (line_budget_id l) (move_held m)) <$>
     filter (fun l => line_budget_id l ∉ budget_id <$> dropped m) (ReservationRepo.held_lines (scoped_leg h) ids))
  ++ ReservationRepo.held_lines (move_held m) (ceiling_ids (added_ceilings m))
  ≡ₚ ReservationRepo.held_lines (move_held m) (ceiling_ids (target m)).
Proof.
  intros Ha Hd Hnd Ht Hna.
  assert (Hkept : (fun l => mkLine (line_budget_id l) (move_held m)) <$>
      filter (fun l => line_budget_id l ∉ budget_id <$> dropped m) (ReservationRepo.held_lines (scoped_leg h) ids)
    = ReservationRepo.held_lines (move_held m) (filter (fun s => s ∉ budget_id <$> dropped m) ids)).
  { unfold ReservationRepo.held_lines. clear. induction ids as [|i ids IH]; [done|].
    rewrite fmap_cons, !filter_cons. cbn [line_budget_id].
    destruct (decide (i ∉ budget_id <$> dropped m)); [rewrite !fmap_cons|]; by rewrite IH. }
  rewrite Hkept. unfold ReservationRepo.held_lines. rewrite <- fmap_app. apply fmap_Permutation.
  apply NoDup_Permutation; [|done|].
  - apply NoDup_app. split; [by apply NoDup_filter|]. split; [|done].
    intros s Hs. apply list_elem_of_filter in Hs as [_ Hs]. rewrite Ha. tauto.
  - intros s. rewrite elem_of_app, list_elem_of_filter, Ha, Hd.
    destruct (decide (s ∈ ids)), (decide (s ∈ ceiling_ids (target m))); tauto.
Qed.

Lemma set_db_id w : set_db w (db w) = w.
Proof. by destruct w. Qed.

(** C4: moving a recorded reservation onto a fallback's ceilings, with nothing failing, is all or
    nothing and conserves the ledger.  Refused, no hold and no row changes.  Moved, the row
    is still active and its lines are exactly the ceilings and amounts the handle is
    retargeted to, and on every ceiling what is held beyond the ledger is what it was. *)
Theorem move_conserves h instance e free m w w1 i r :
  run_quiet (plan h instance e free) w = (inr (Some m), Clean, w1) ->
  reservation_id h = Some i -> reservations (db w1) !! i = Some r -> status r = RESERVATION_ACTIVE ->
  lines r = ReservationRepo.held_lines (scoped_leg h) (scoped_budget_ids h) ->
  NoDup (scoped_budget_ids h) -> NoDup (ceiling_ids (scope_ceilings h)) ->
  held_nonneg (scoped_leg h) -> held_nonneg (planned_held h e) -> rows_wf (db w1) ->
  (forall c x a, counter_held (db w1) c = Some x -> recorded (db w1) c a <= at_axis x a) ->
  exists out w2, run_quiet (uow_block (Moves.apply h m)) w1 = (inr out, Clean, w2)
    /\ match out with
       | Reclaimed => False
       | Refused _ => held_becomes (fun _ x => x) (db w1) (db w2)
       | Moved =>
           (exists r', reservations (db w2) !! i = Some r' /\ status r' = RESERVATION_ACTIVE
              /\ lines r' ≡ₚ ReservationRepo.held_lines (scoped_leg (retarget h m)) (scoped_budget_ids (retarget h m)))
           /\ forall s x, counter_held (db w1) (CCeiling s) = Some x ->
                exists x', counter_held (db w2) (CCeiling s) = Some x'
                  /\ forall a, at_axis x' a - recorded (db w2) (CCeiling s) a
                             = at_axis x a - recorded (db w1) (CCeiling s) a
       end.
Proof.
  intros Hplan Hid Hr Hact Hlines Hids Hceil Hleg Hplanned Hwf Hcov.
  destruct (plan_shape _ _ _ _ _ _ _ _ Hplan) as (_ & _ & _ & Ht & Ha & Hs & Hd & Hm & Hg & _ & _).
  assert (Htn : NoDup (ceiling_ids (target m))).
  { rewrite Ht. unfold get_provider_ceilings, ceiling_ids. rewrite merge_sort_Permutation. by apply nodup_ids_filter. }
  assert (Hmove : held_nonneg (move_held m)) by by rewrite Hm.
  pose proof (added_ids h m Ha) as Ia. pose proof (shared_ids h m Hs) as Is. pose proof (dropped_ids h m Hd) as Id.
  assert (Han : NoDup (ceiling_ids (added_ceilings m))) by (unfold ceiling_ids; rewrite Ha; by apply nodup_ids_filter).
  assert (Hrow : row_to_move h m (db w1)).
  { unfold row_to_move, ReservationRepo.lock_active. rewrite Hid, Hr. by apply bool_decide_eq_true. }
  assert (Hnonneg : forall s x, counter_held (db w1) (CCeiling s) = Some x -> held_nonneg x).
  { intros s x Hx a. pose proof (recorded_nonneg (db w1) (CCeiling s) a Hwf). pose proof (Hcov _ _ a Hx). lia. }
  destruct (run_apply h m e Hm Hg Ha Hs Hd Htn Hids Hleg Hmove w1 Hrow Hnonneg) as (out & x' & d' & Hrun & Hx' & Hpost).
  exists out, (set_db w1 d'). split.
  { unfold run_quiet, uow_block, attempt. rewrite run_bind_quiet, run_handle_quiet, Hrun. cbn [run].
    rewrite run_bind_quiet, run_try_quiet. cbn [commit commit_at run next_fault].
    destruct x' as [|d|]; simpl in Hx'; simplify_eq; cbn [run]; by rewrite ?set_db_id. }
  destruct out as [| |refusal]; [|done|exact Hpost].
  destruct Hpost as (d1 & Hbec & ->). unfold recorded_move. rewrite Hid. unfold ReservationRepo.move_lines.
  rewrite (he_reservations _ _ _ Hbec), Hr. cbn [db set_db].
  set (r' := mkReservation _ _ _ _ _ _).
  assert (Hlines' : lines r' ≡ₚ ReservationRepo.held_lines (move_held m) (ceiling_ids (target m))).
  { subst r'. cbn [lines]. rewrite Hlines. by apply moved_lines. }
  split.
  - exists r'. simpl. rewrite lookup_insert_eq. split; [done|]. split; [done|]. etrans; [exact Hlines'|].
    unfold retarget, scoped_leg, scoped_budget_ids. cbn [scoped_budgets scoped_estimate scoped_token_estimate scoped_request_estimate].
    assert (budget_id <$> (to_applicable_budget <$> target m) = ceiling_ids (target m)) as ->
      by by rewrite <- list_fmap_compose.
    destruct (bool_decide (target m = [])) eqn:E; [|by destruct (move_held m)].
    apply bool_decide_eq_true in E. by rewrite E.
  - intros s x Hx. pose proof (he_ceilings _ _ _ Hbec s) as Hs'. rewrite Hx in Hs'. simpl in Hs'.
    exists (moved_hold h m s x). split; [exact Hs'|]. intros a.
    assert (Hold : active_holds r (CCeiling s) a = if decide (s ∈ scoped_budget_ids h) then at_axis (scoped_leg h) a else 0).
    { unfold active_holds. rewrite decide_True by done. simpl. rewrite Hlines. by apply lines_hold_map. }
    assert (Hnew : active_holds r' (CCeiling s) a = if decide (s ∈ ceiling_ids (target m)) then at_axis (move_held m) a else 0).
    { unfold active_holds. rewrite decide_True by done. unfold row_holds. rewrite (lines_hold_perm _ _ s a Hlines').
      by apply lines_hold_map. }
    assert (Hle : active_holds r (CCeiling s) a <= recorded (db w1) (CCeiling s) a).
    { apply (msum_lookup_le (fun _ r => active_holds r (CCeiling s) a) (reservations (db w1)) i r Hr).
      intros k v Hv. apply active_holds_nonneg. by apply (Hwf k v). }
    pose proof (recorded_update (db w1) i r r' (CCeiling s) a Hr) as Hrec.
    rewrite (recorded_same_reservations (set_reservations (db w1) (<[i:=r']> (reservations (db w1))))) by done.
    rewrite Hrec, Hold, Hnew. rewrite Hold in Hle. pose proof (Hcov _ _ a Hx) as Hxa.
    specialize (Ia s). specialize (Is s). specialize (Id s). unfold moved_hold.
    destruct (decide (s ∈ ceiling_ids (added_ceilings m))) as [Hin|Hna].
    { apply Ia in Hin as [Hin1 Hin2]. rewrite decide_False by done. rewrite decide_True by done. rewrite at_axis_add. lia. }
    destruct (decide (s ∈ budget_id <$> shared m)) as [Hin|Hns].
    { apply Is in Hin as [Hin1 Hin2]. rewrite !decide_True by done. rewrite at_axis_add.
      destruct (kept_amounts h m e Hm) as (K1 & K2 & K3).
      { intros Hnil. unfold scoped_budget_ids in Hin1. rewrite Hnil in Hin1. set_solver. }
      destruct a; simpl; lia. }
    destruct (decide (s ∈ budget_id <$> dropped m)) as [Hin|Hnd].
    { apply Id in Hin as [Hin1 Hin2]. rewrite decide_True in Hle |- * by done. rewrite decide_False by done.
      specialize (Hleg a). unfold released, map_axes, release_expression.
      destruct a; simpl in *; repeat match goal with |- context [if ?b then _ else _] => destruct b eqn:? end;
        reflect_bools; lia. }
    rewrite (decide_False (P := s ∈ scoped_budget_ids h)) by tauto. rewrite decide_False by tauto. lia.
Qed.

(** From provider p to provider q, at 600 rather than 400. *)
Definition to_q : option candidate_estimate := Some (mkCandidate (mkInputs 40 (Some 20) 50) 600 false).
Definition q_move : ReservationMove :=
  Eval vm_compute in
  match (run_quiet (plan on_p_handle (Some "q"%string) to_q false) on_p_world).1.1 with
  | inr (Some m) => m
  | _ => mkMove [] [] [] [] zero_held None None 0 false
  end.
Definition on_p_row : BudgetReservation :=
  Eval vm_compute in
  default (mkReservation "" zero_held false RESERVATION_EXPIRED 0 []) (reservations (db on_p_world) !! 0%nat).
Definition moved_world : world :=
  Eval vm_compute in (run_quiet (uow_block (Moves.apply on_p_handle q_move)) on_p_world).2.

Lemma move_conserves_witness :
  run_quiet (plan on_p_handle (Some "q"%string) to_q false) on_p_world = (inr (Some q_move), Clean, on_p_world)
  /\ run_quiet (uow_block (Moves.apply on_p_handle q_move)) on_p_world = (inr Moved, Clean, moved_world)
  /\ counter_held (db moved_world) (CCeiling "p-ceiling") = Some zero_held
  /\ counter_held (db moved_world) (CCeiling "q-ceiling") = Some (mkHeld 600 20 1)
  /\ exists x', counter_held (db moved_world) (CCeiling "org-ceiling") = Some x'
       /\ at_axis x' Usd - recorded (db moved_world) (CCeiling "org-ceiling") Usd = 0.
Proof.
  assert (Hplan : run_quiet (plan on_p_handle (Some "q"%string) to_q false) on_p_world = (inr (Some q_move), Clean, on_p_world))
    by (vm_compute; reflexivity).
  assert (Hmoved : run_quiet (uow_block (Moves.apply on_p_handle q_move)) on_p_world = (inr Moved, Clean, moved_world))
    by (vm_compute; reflexivity).
  split; [exact Hplan|]. split; [exact Hmoved|]. split; [vm_compute; reflexivity|]. split; [vm_compute; reflexivity|].
  destruct (move_conserves on_p_handle (Some "q"%string) to_q false q_move on_p_world on_p_world 0 on_p_row Hplan)
    as (out & w2 & Hrun & Hpost).
  - vm_compute. reflexivity.
  - vm_compute. reflexivity.
  - reflexivity.
  - vm_compute. reflexivity.
  - apply (bool_decide_unpack _). vm_compute. exact I.
  - apply (bool_decide_unpack _). vm_compute. exact I.
  - intros []; vm_compute; congruence.
  - intros []; vm_compute; congruence.
  - apply ledger_wf_spec. vm_compute. reflexivity.
  - intros c x a. apply covers_ledger_spec. vm_compute. reflexivity.
  - rewrite Hmoved in Hrun. injection Hrun as <- <-. destruct Hpost as [_ Hs].
    destruct (Hs "org-ceiling"%string (mkHeld 400 20 1)) as (x' & Hx' & Hx); [vm_compute; reflexivity|].
    exists x'. split; [exact Hx'|]. rewrite (Hx Usd). vm_compute. reflexivity.
Defined.
