(* ===== verification/RateWindows.v ===== *)
(** Sliding-window counting ([SlidingWindowLog] of [src/src/gateway/rate_limit.py]): the log as
    the code keeps it, pruned and cleaned up as it goes, and the history it stands for, from
    which nothing is ever dropped.

    Times are readings of one monotonic clock, in an arbitrary unit. *)
From S2P Require Import Prelude.
From stdpp Require Import gmap strings list fin_maps sorting.
From Stdlib Require Import ZArith Lia.
Open Scope Z_scope.

(** ** The log *)

Record RateLimitWindow := mkAnswer {
  allowed : bool;
  count : Z;
  reset_after : Z;
  handle : option nat
}.

(** [_Window]. *)
Record Window := mkWindow {
  entries : list (Z * nat);
  costs : gmap nat Z;
  win_total : Z
}.

Definition empty_window : Window := mkWindow [] ∅ 0.

Record SlidingWindowLog := mkLog {
  requests : gmap string Window;
  call_count : Z;
  widest_window : Z;
  handles : nat
}.

Definition empty_log : SlidingWindowLog := mkLog ∅ 0 0 0.

Definition CLEANUP_INTERVAL : Z := 1000.

Definition set_requests (l : SlidingWindowLog) (r : gmap string Window) : SlidingWindowLog :=
  mkLog r (call_count l) (widest_window l) (handles l).

(** The loop that drops what left the window; [None] is the [KeyError] of an entry with no cost. *)
Fixpoint prune_from (cutoff : Z) (es : list (Z * nat)) (cs : gmap nat Z) (total : Z) : option Window :=
  match es with
  | (t, h) :: rest =>
      if t <=? cutoff then c ← cs !! h; prune_from cutoff rest (delete h cs) (total - c)
      else Some (mkWindow es cs total)
  | [] => Some (mkWindow [] cs total)
  end.

Definition prune (cutoff : Z) (w : Window) : option Window :=
  prune_from cutoff (entries w) (costs w) (win_total w).

Definition reset_of (w : Window) (window_sec now : Z) : Z :=
  match entries w with
  | (t, _) :: _ => t + window_sec - now
  | [] => window_sec
  end.

Definition stale (cutoff : Z) (w : Window) : bool :=
  match last (entries w) with
  | Some (t, _) => t <=? cutoff
  | None => true
  end.

Definition cleanup (cutoff : Z) (l : SlidingWindowLog) : SlidingWindowLog :=
  set_requests l (filter (fun kw => stale cutoff kw.2 = false) (requests l)).

Definition hit (now : Z) (key : string) (limit window_sec cost : Z) (l : SlidingWindowLog)
  : option (RateLimitWindow * SlidingWindowLog) :=
  let cutoff := now - window_sec in
  let l := mkLog (requests l) (call_count l + 1) (Z.max (widest_window l) window_sec) (handles l) in
  let l := if CLEANUP_INTERVAL <=? call_count l
           then let l := cleanup (now - widest_window l) l in mkLog (requests l) 0 (widest_window l) (handles l)
           else l in
  w ← prune cutoff (default empty_window (requests l !! key));
  let '(handle, w, next) :=
    if win_total w + cost <=? limit
    then (Some (handles l),
          mkWindow (entries w ++ [(now, handles l)]) (<[handles l := cost]> (costs w)) (win_total w + cost),
          S (handles l))
    else (None, w, handles l) in
  Some (mkAnswer (is_set handle) (win_total w) (reset_of w window_sec now) handle,
        mkLog (<[key := w]> (requests l)) (call_count l) (widest_window l) next).

Definition peek (now : Z) (key : string) (window_sec : Z) (l : SlidingWindowLog)
  : option (RateLimitWindow * SlidingWindowLog) :=
  match requests l !! key with
  | None => Some (mkAnswer true 0 window_sec None, l)
  | Some w =>
      w ← prune (now - window_sec) w;
      Some (mkAnswer true (win_total w) (reset_of w window_sec now) None,
            set_requests l (<[key := w]> (requests l)))
  end.

Definition settle (key : string) (handle : nat) (cost : Z) (l : SlidingWindowLog) : SlidingWindowLog :=
  match requests l !! key with
  | None => l
  | Some w =>
      match costs w !! handle with
      | None => l
      | Some c => set_requests l (<[key := mkWindow (entries w) (<[handle := cost]> (costs w))
                                             (win_total w + (cost - c))]> (requests l))
      end
  end.

(** ** What it stands for *)

Record entry := mkEntry { e_time : Z; e_handle : nat; e_cost : Z }.

(** Every entry ever admitted, per key, oldest first, and the next handle. *)
Record history := mkHistory { admitted : gmap string (list entry); next_handle : nat }.

Definition empty_history : history := mkHistory ∅ 0.

Definition entries_of (s : history) (key : string) : list entry := default [] (admitted s !! key).

Definition in_window (now window_sec : Z) (e : entry) : Prop := now - window_sec < e_time e.
#[export] Instance in_window_dec now w e : Decision (in_window now w e).
Proof. unfold in_window. apply _. Defined.

Definition live (now window_sec : Z) (es : list entry) : list entry := filter (in_window now window_sec) es.

Definition cost_of (es : list entry) : Z := sumZ e_cost es.

(** What a key has spent in the window that ends at [now]. *)
Definition spent (s : history) (key : string) (now window_sec : Z) : Z :=
  cost_of (live now window_sec (entries_of s key)).

Definition until_oldest (es : list entry) (window_sec now : Z) : Z :=
  match es with e :: _ => e_time e + window_sec - now | [] => window_sec end.

Definition admit_entry (s : history) (key : string) (now cost : Z) : history :=
  mkHistory (<[key := entries_of s key ++ [mkEntry now (next_handle s) cost]]> (admitted s)) (S (next_handle s)).

Definition spec_hit (now : Z) (key : string) (limit window_sec cost : Z) (s : history)
  : RateLimitWindow * history :=
  let answer s h := mkAnswer (is_set h) (spent s key now window_sec)
                      (until_oldest (live now window_sec (entries_of s key)) window_sec now) h in
  if spent s key now window_sec + cost <=? limit
  then let s' := admit_entry s key now cost in (answer s' (Some (next_handle s)), s')
  else (answer s None, s).

Definition spec_peek (now : Z) (key : string) (window_sec : Z) (s : history) : RateLimitWindow :=
  mkAnswer true (spent s key now window_sec)
    (until_oldest (live now window_sec (entries_of s key)) window_sec now) None.

Definition recost (handle : nat) (cost : Z) (e : entry) : entry :=
  if decide (e_handle e = handle) then mkEntry (e_time e) (e_handle e) cost else e.

Definition spec_settle (key : string) (handle : nat) (cost : Z) (s : history) : history :=
  mkHistory (alter (fmap (recost handle cost)) key (admitted s)) (next_handle s).

(** ** Calls in a sequence *)

Inductive log_call :=
| LogHit (key : string) (limit cost : Z)
| LogPeek (key : string)
| LogSettle (key : string) (handle : nat) (cost : Z).

Section calls.
(** The window every call on a key uses. *)
Context (W : string -> Z).

Definition step_log (now : Z) (c : log_call) (l : SlidingWindowLog)
  : option (option RateLimitWindow * SlidingWindowLog) :=
  match c with
  | LogHit k limit cost => '(a, l) ← hit now k limit (W k) cost l; Some (Some a, l)
  | LogPeek k => '(a, l) ← peek now k (W k) l; Some (Some a, l)
  | LogSettle k h cost => Some (None, settle k h cost l)
  end.

Definition step_history (now : Z) (c : log_call) (s : history) : option RateLimitWindow * history :=
  match c with
  | LogHit k limit cost => let '(a, s) := spec_hit now k limit (W k) cost s in (Some a, s)
  | LogPeek k => (Some (spec_peek now k (W k) s), s)
  | LogSettle k h cost => (None, spec_settle k h cost s)
  end.

Fixpoint run_log (calls : list (Z * log_call)) (l : SlidingWindowLog) : option (list (option RateLimitWindow)) :=
  match calls with
  | [] => Some []
  | (now, c) :: rest =>
      '(a, l) ← step_log now c l;
      answers ← run_log rest l;
      Some (a :: answers)
  end.

Fixpoint run_history (calls : list (Z * log_call)) (s : history) : list (option RateLimitWindow) :=
  match calls with
  | [] => []
  | (now, c) :: rest => let '(a, s) := step_history now c s in a :: run_history rest s
  end.

(** What the calls on a key that were admitted in the window ending at [t] cost. *)
Fixpoint admitted_cost (key : string) (t : Z) (calls : list (Z * log_call)) (answers : list (option RateLimitWindow))
  : Z :=
  match calls, answers with
  | (now, LogHit k _ cost) :: calls, Some a :: answers =>
      (if bool_decide (k = key) && allowed a && (t - W key <? now) && (now <=? t) then cost else 0)
      + admitted_cost key t calls answers
  | _ :: calls, _ :: answers => admitted_cost key t calls answers
  | _, _ => 0
  end.

(** Every call on [key] counts against [limit], and none changes what an entry costs. *)
Definition limits_key (key : string) (limit : Z) (c : log_call) : Prop :=
  match c with
  | LogHit k n cost => k = key -> n = limit /\ 0 <= cost
  | LogPeek _ => True
  | LogSettle k _ _ => k <> key
  end.

End calls.

(** * The pruned log answers as its unpruned history does. *)

Arguments reset_of : simpl never.
Arguments until_oldest : simpl never.

Definition stamp (e : entry) : Z * nat := (e_time e, e_handle e).
Definition priced (e : entry) : nat * Z := (e_handle e, e_cost e).
Definition before (x y : entry) : Prop := e_time x <= e_time y.

(** A window as the log keeps it, for the entries of the history it still has. *)
Record keeps (es : list entry) (w : Window) : Prop := {
  keeps_entries : entries w = stamp <$> es;
  keeps_costs : costs w = list_to_map (priced <$> es);
  keeps_total : win_total w = cost_of es
}.

(** ** Entries and their windows *)

Lemma live_app now W a b : live now W (a ++ b) = live now W a ++ live now W b.
Proof. apply filter_app. Qed.

Lemma live_none now W es : Forall (fun e => e_time e <= now - W) es -> live now W es = [].
Proof.
  induction 1 as [|e es He _ IH]; [done|]. unfold live in *. rewrite filter_cons_False; [done|].
  unfold in_window. lia.
Qed.

Lemma live_all now W es : Forall (fun e => now - W < e_time e) es -> live now W es = es.
Proof.
  induction 1 as [|e es He _ IH]; [done|]. unfold live in *. rewrite filter_cons_True by done. by f_equal.
Qed.

Lemma priced_lookup es e :
  NoDup (e_handle <$> es) -> e ∈ es -> (list_to_map (priced <$> es) : gmap nat Z) !! e_handle e = Some (e_cost e).
Proof.
  intros Hnd He. apply elem_of_list_to_map.
  - rewrite <- list_fmap_compose. exact Hnd.
  - apply list_elem_of_fmap. by exists e.
Qed.

Lemma priced_fresh es h : h ∉ e_handle <$> es -> (list_to_map (priced <$> es) : gmap nat Z) !! h = None.
Proof. intros Hh. apply not_elem_of_list_to_map. by rewrite <- list_fmap_compose. Qed.

(** ** Pruning *)

Lemma prune_keeps now W es w :
  StronglySorted before es -> NoDup (e_handle <$> es) -> keeps es w ->
  exists gone kept w', es = gone ++ kept /\ prune (now - W) w = Some w' /\ keeps kept w'
    /\ Forall (fun e => e_time e <= now - W) gone /\ live now W es = kept.
Proof.
  intros Hs Hnd [He Hc Ht]. unfold prune. rewrite He, Hc, Ht. clear w He Hc Ht.
  induction es as [|e es IH]; simpl.
  { exists [], []. eexists. repeat split; constructor. }
  inversion_clear Hs as [|? ? Hs' He]. apply NoDup_cons in Hnd as [Hh Hnd].
  destruct (e_time e <=? now - W) eqn:E; reflect_bools.
  - rewrite lookup_insert_eq. simpl.
    rewrite delete_insert_id by by apply priced_fresh.
    replace (e_cost e + cost_of es - e_cost e) with (cost_of es) by lia.
    destruct (IH Hs' Hnd) as (gone & kept & w' & -> & Hp & Hk & Hg & Hl).
    exists (e :: gone), kept, w'. split; [done|]. split; [exact Hp|]. split; [done|]. split; [by constructor|].
    unfold live. rewrite filter_cons_False; [done|]. unfold in_window. lia.
  - exists [], (e :: es). eexists. split; [done|]. split; [done|]. split; [done|]. split; [constructor|].
    apply live_all. constructor; [lia|]. eapply Forall_impl; [exact He|]. unfold before. lia.
Qed.

Lemma entries_admit s k now c k' :
  entries_of (admit_entry s k now c) k' =
    if decide (k' = k) then entries_of s k ++ [mkEntry now (next_handle s) c] else entries_of s k'.
Proof.
  unfold entries_of, admit_entry. simpl. destruct (decide (k' = k)) as [->|Hne].
  - by rewrite lookup_insert_eq.
  - by rewrite lookup_insert_ne.
Qed.

Lemma live_admit now w s k c :
  0 < w ->
  live now w (entries_of (admit_entry s k now c) k)
  = live now w (entries_of s k) ++ [mkEntry now (next_handle s) c].
Proof.
  intros Hw. rewrite entries_admit, decide_True, live_app by done. f_equal.
  apply live_all. repeat constructor. simpl. lia.
Qed.

(** ** The relation *)

Record history_wf (now : Z) (s : history) : Prop := {
  wf_sorted : forall k, StronglySorted before (entries_of s k);
  wf_past : forall k e, e ∈ entries_of s k -> e_time e <= now;
  wf_handles : forall k e, e ∈ entries_of s k -> (e_handle e < next_handle s)%nat;
  wf_distinct : forall k, NoDup (e_handle <$> entries_of s k)
}.

Section refine.
(** The window every call on a key uses. *)
Context (W : string -> Z) (W_pos : forall k, 0 < W k).

Definition shows_key (now : Z) (widest : Z) (k : string) (es : list entry) (w : option Window) : Prop :=
  match w with
  | None => Forall (fun e => e_time e <= now - W k) es
  | Some w => exists gone kept, es = gone ++ kept /\ Forall (fun e => e_time e <= now - W k) gone
                /\ keeps kept w /\ W k <= widest
  end.

Record shows (now : Z) (l : SlidingWindowLog) (s : history) : Prop := {
  shows_next : handles l = next_handle s;
  shows_wf : history_wf now s;
  shows_keys : forall k, shows_key now (widest_window l) k (entries_of s k) (requests l !! k)
}.

Lemma shows_empty now : shows now empty_log empty_history.
Proof.
  split; [done| |].
  - split; intros k; unfold entries_of; simpl; rewrite ?lookup_empty; simpl; try constructor; by intros e He%elem_of_nil.
  - intros k. unfold entries_of. simpl. rewrite !lookup_empty. constructor.
Qed.

Lemma shows_key_later now now' widest widest' k es w :
  now <= now' -> widest <= widest' -> shows_key now widest k es w -> shows_key now' widest' k es w.
Proof.
  intros Hn Hw. destruct w as [w|]; simpl.
  - intros (gone & kept & -> & Hg & Hk & Hwk). exists gone, kept. split; [done|].
    split; [eapply Forall_impl; [exact Hg|]; simpl; lia|]. split; [done|lia].
  - intros H. eapply Forall_impl; [exact H|]. simpl. lia.
Qed.

Lemma shows_later now now' l l' s :
  now <= now' -> widest_window l <= widest_window l' -> handles l' = handles l -> requests l' = requests l ->
  shows now l s -> shows now' l' s.
Proof.
  intros Hn Hw Hh Hr [Hnext [H1 H2 H3 H4] Hk]. split; [congruence| |].
  - split; [done| |done|done]. intros k e He. specialize (H2 k e He). lia.
  - intros k. rewrite Hr. by eapply shows_key_later.
Qed.

(** Dropping idle keys changes nothing the history shows. *)
Lemma shows_cleanup now l s : shows now l s -> shows now (cleanup (now - widest_window l) l) s.
Proof.
  intros [Hnext Hwf Hk]. split; [done|done|]. intros k. specialize (Hk k). simpl.
  destruct (requests l !! k) as [w|] eqn:E.
  - destruct (stale (now - widest_window l) w) eqn:Es.
    + rewrite map_lookup_filter, E. simpl. rewrite option_guard_False by congruence. simpl.
      destruct Hk as (gone & kept & Heq & Hg & [He _ _] & Hw). rewrite Heq. apply Forall_app. split; [done|].
      unfold stale in Es. rewrite He in Es. destruct kept as [|e kept] using rev_ind; [constructor|].
      rewrite fmap_app in Es. change (stamp <$> [e]) with [stamp e] in Es. rewrite last_snoc in Es. simpl in Es. reflect_bools.
      pose proof (wf_sorted _ _ Hwf k) as Hs. rewrite Heq, app_assoc in Hs.
      apply Forall_app. split; [|constructor; [lia|constructor]].
      apply Forall_forall. intros x Hx.
      apply (StronglySorted_app_1_elem_of before _ _ x e) in Hs; [|set_solver|set_solver]. unfold before in Hs. lia.
    + rewrite map_lookup_filter, E. simpl. rewrite option_guard_True by done. exact Hk.
  - by rewrite map_lookup_filter, E.
Qed.

(** The pruned window of a key, and the entries of it that are live. *)
Lemma shows_prune now l s k :
  shows now l s ->
  exists gone w, entries_of s k = gone ++ live now (W k) (entries_of s k)
    /\ Forall (fun e => e_time e <= now - W k) gone
    /\ prune (now - W k) (default empty_window (requests l !! k)) = Some w
    /\ keeps (live now (W k) (entries_of s k)) w.
Proof.
  intros [Hnext Hwf Hk]. specialize (Hk k). destruct (requests l !! k) as [w|]; simpl in Hk.
  - destruct Hk as (gone & kept & Heq & Hg & Hkeep & Hw).
    pose proof (wf_sorted _ _ Hwf k) as Hs. pose proof (wf_distinct _ _ Hwf k) as Hd. rewrite Heq in Hs, Hd.
    apply StronglySorted_app in Hs as (_ & _ & Hs). rewrite fmap_app in Hd. apply NoDup_app in Hd as (_ & _ & Hd).
    destruct (prune_keeps now (W k) kept w Hs Hd Hkeep) as (g & kept' & w' & -> & Hp & Hkeep' & Hg' & Hl).
    exists (gone ++ g), w'. rewrite Heq, live_app, (live_none _ _ gone), Hl by done. simpl.
    split; [by rewrite app_assoc|]. split; [by apply Forall_app|]. done.
  - exists (entries_of s k), empty_window. rewrite (live_none _ _ (entries_of s k)) by done.
    rewrite app_nil_r. done.
Qed.

Lemma reset_keeps es w window_sec now : keeps es w -> reset_of w window_sec now = until_oldest es window_sec now.
Proof. intros [He _ _]. unfold reset_of. rewrite He. by destruct es. Qed.

Lemma live_fresh now w s k : history_wf now s -> next_handle s ∉ e_handle <$> live now w (entries_of s k).
Proof.
  intros Hwf (e & Hh & He)%list_elem_of_fmap. apply list_elem_of_filter in He as [_ He].
  pose proof (wf_handles _ _ Hwf k e He). lia.
Qed.

Lemma history_wf_admit now s k c : history_wf now s -> history_wf now (admit_entry s k now c).
Proof.
  intros [H1 H2 H3 H4]. split; intros k'; rewrite entries_admit; destruct (decide (k' = k)) as [->|Hne]; try done.
  - apply StronglySorted_app_2; [|done|repeat constructor]. intros x y Hx Hy%list_elem_of_singleton. subst y. by apply H2 in Hx.
  - intros e [He| ->%list_elem_of_singleton]%elem_of_app; [by apply (H2 k)|simpl; lia].
  - apply H2.
  - intros e [He| ->%list_elem_of_singleton]%elem_of_app; simpl; [|lia]. apply H3 in He. lia.
  - intros e He. apply H3 in He. simpl. lia.
  - rewrite fmap_app. apply NoDup_app. split; [done|]. split; [|repeat constructor; by intros ?%elem_of_nil].
    intros h (e & -> & He)%list_elem_of_fmap Hx. apply H3 in He. apply list_elem_of_singleton in Hx. simpl in Hx. lia.
Qed.

(** Pruning a key in place. *)
Lemma shows_pruned now l s k gone w :
  shows now l s -> W k <= widest_window l ->
  entries_of s k = gone ++ live now (W k) (entries_of s k) ->
  Forall (fun e => e_time e <= now - W k) gone ->
  keeps (live now (W k) (entries_of s k)) w ->
  shows now (set_requests l (<[k := w]> (requests l))) s.
Proof.
  intros [Hnext Hwf Hk] HW Heq Hg Hkeep. split; [done|done|]. intros k'. simpl.
  destruct (decide (k' = k)) as [->|Hne]; [|rewrite lookup_insert_ne by done; apply Hk].
  rewrite lookup_insert_eq. exists gone, (live now (W k) (entries_of s k)). done.
Qed.

Lemma keeps_snoc es w now h c :
  keeps es w -> h ∉ e_handle <$> es ->
  keeps (es ++ [mkEntry now h c]) (mkWindow (entries w ++ [(now, h)]) (<[h := c]> (costs w)) (win_total w + c)).
Proof.
  intros [He Hc Ht] Hh. split; simpl.
  - by rewrite He, fmap_app.
  - rewrite Hc, fmap_app. change (priced <$> [mkEntry now h c]) with [(h, c)].
    rewrite list_to_map_snoc; [done|]. by rewrite <- list_fmap_compose.
  - rewrite Ht. unfold cost_of. rewrite sumZ_app. simpl. lia.
Qed.

Lemma shows_admit now l s k gone w c :
  shows now l s -> W k <= widest_window l ->
  entries_of s k = gone ++ live now (W k) (entries_of s k) ->
  Forall (fun e => e_time e <= now - W k) gone ->
  keeps (live now (W k) (entries_of s k)) w ->
  shows now (mkLog (<[k := mkWindow (entries w ++ [(now, handles l)]) (<[handles l := c]> (costs w)) (win_total w + c)]>
                      (requests l)) (call_count l) (widest_window l) (S (handles l)))
    (admit_entry s k now c).
Proof.
  intros [Hnext Hwf Hk] HW Heq Hg Hkeep. split; [by rewrite Hnext|by apply history_wf_admit|].
  intros k'. simpl. rewrite entries_admit. destruct (decide (k' = k)) as [->|Hne]; [|rewrite lookup_insert_ne by done; apply Hk].
  rewrite lookup_insert_eq. exists gone, (live now (W k) (entries_of s k) ++ [mkEntry now (handles l) c]).
  split; [rewrite <- Hnext, app_assoc; by rewrite <- Heq|]. split; [done|]. split; [|done].
  apply keeps_snoc; [done|]. rewrite Hnext. by apply (live_fresh now).
Qed.

(** ** The operations *)

Lemma shows_widest now l s window_sec :
  shows now l s ->
  shows now (mkLog (requests l) (call_count l + 1) (Z.max (widest_window l) window_sec) (handles l)) s.
Proof. apply shows_later; simpl; lia || done. Qed.

Lemma hit_shows last now key limit cost l s :
  shows last l s -> last <= now ->
  exists l', hit now key limit (W key) cost l = Some ((spec_hit now key limit (W key) cost s).1, l')
    /\ shows now l' (spec_hit now key limit (W key) cost s).2.
Proof.
  intros Hs Hn. apply (shows_later _ now _ l) in Hs; [|done..]. apply (shows_widest _ _ _ (W key)) in Hs.
  unfold hit. set (l1 := mkLog _ _ _ _) in *. cbv zeta.
  match goal with |- context [prune _ (default _ (requests ?x !! _))] => set (l2 := x) end.
  assert (Hw : W key <= widest_window l2) by (subst l2 l1; simpl; destruct (_ <=? _); simpl; lia).
  assert (Hs2 : shows now l2 s).
  { subst l2. destruct (CLEANUP_INTERVAL <=? call_count l1); [|done].
    eapply shows_later; [| | | |apply shows_cleanup, Hs]; done. }
  clearbody l2. clear Hs l1 l. destruct (shows_prune now l2 s key Hs2) as (gone & w & Heq & Hg & -> & Hkeep). simpl.
  unfold spec_hit. pose proof (keeps_total _ _ Hkeep) as Hspent. fold (spent s key now (W key)) in Hspent.
  rewrite <- Hspent. destruct (win_total w + cost <=? limit) eqn:E; simpl.
  - eexists. split; [|by apply (shows_admit now l2 s key gone w cost)].
    assert (Hk : keeps (live now (W key) (entries_of (admit_entry s key now cost) key))
              (mkWindow (entries w ++ [(now, handles l2)]) (<[handles l2 := cost]> (costs w)) (win_total w + cost))).
    { rewrite live_admit by apply W_pos. rewrite (shows_next _ _ _ Hs2). apply keeps_snoc; [done|]. by eapply live_fresh, shows_wf. }
    do 2 f_equal. rewrite (reset_keeps _ _ _ _ Hk). pose proof (keeps_total _ _ Hk) as Ht. simpl in Ht.
    change (cost_of (live now (W key) (entries_of (admit_entry s key now cost) key)))
      with (spent (admit_entry s key now cost) key now (W key)) in Ht.
    by rewrite <- Ht, (shows_next _ _ _ Hs2).
  - eexists. split; [|by apply (shows_pruned now l2 s key gone w)].
    by rewrite (reset_keeps _ _ (W key) now Hkeep), Hspent.
Qed.

Lemma peek_shows last now key l s :
  shows last l s -> last <= now ->
  exists l', peek now key (W key) l = Some (spec_peek now key (W key) s, l') /\ shows now l' s.
Proof.
  intros Hs Hn. apply (shows_later _ now _ l) in Hs; [|done..].
  destruct (shows_prune now l s key Hs) as (gone & w & Heq & Hg & Hp & Hkeep).
  unfold peek, spec_peek, spent. pose proof (shows_keys _ _ _ Hs key) as Hk.
  destruct (requests l !! key) as [w0|] eqn:E; simpl in Hp, Hk.
  - rewrite Hp. simpl. rewrite (reset_keeps _ _ _ _ Hkeep), (keeps_total _ _ Hkeep).
    eexists. split; [done|]. destruct Hk as (_ & _ & _ & _ & _ & HW). by apply (shows_pruned now l s key gone w).
  - rewrite live_none by done. by exists l.
Qed.

Lemma entries_settle s k h c k' :
  entries_of (spec_settle k h c s) k' = if decide (k' = k) then recost h c <$> entries_of s k else entries_of s k'.
Proof.
  unfold entries_of, spec_settle. simpl. destruct (decide (k' = k)) as [->|Hne].
  - rewrite lookup_alter_eq. by destruct (admitted s !! k).
  - by rewrite lookup_alter_ne.
Qed.

Lemma recost_stamp h c (es : list entry) : stamp <$> (recost h c <$> es) = stamp <$> es.
Proof. rewrite <- list_fmap_compose. apply list_fmap_ext. intros i e _. simpl. unfold recost. by destruct (decide _). Qed.

Lemma recost_handles h c (es : list entry) : e_handle <$> (recost h c <$> es) = e_handle <$> es.
Proof. rewrite <- list_fmap_compose. apply list_fmap_ext. intros i e _. simpl. unfold recost. by destruct (decide _). Qed.

Lemma recost_time h c e : e_time (recost h c e) = e_time e.
Proof. unfold recost. by destruct (decide _). Qed.

Lemma recost_absent h c (es : list entry) : h ∉ e_handle <$> es -> recost h c <$> es = es.
Proof.
  intros Hh. rewrite <- (list_fmap_id es) at 2. apply list_fmap_ext. intros i e He. unfold recost.
  rewrite decide_False; [done|]. intros <-. apply Hh, list_elem_of_fmap. exists e. split; [done|]. by eapply list_elem_of_lookup_2.
Qed.

Lemma recost_before h c (es : list entry) : StronglySorted before es -> StronglySorted before (recost h c <$> es).
Proof.
  induction 1 as [|e es _ IH He]; simpl; constructor; [done|].
  apply Forall_fmap. eapply Forall_impl; [exact He|]. intros x Hx. simpl. unfold before. by rewrite !recost_time.
Qed.

Lemma history_wf_settle now s k h c : history_wf now s -> history_wf now (spec_settle k h c s).
Proof.
  intros [H1 H2 H3 H4].
  assert (Hin : forall k' e, e ∈ entries_of (spec_settle k h c s) k' ->
    exists e', e' ∈ entries_of s k' /\ e_time e = e_time e' /\ e_handle e = e_handle e').
  { intros k' e. rewrite entries_settle. destruct (decide (k' = k)) as [->|]; [|by exists e].
    intros (e' & -> & He)%list_elem_of_fmap. exists e'. rewrite recost_time. unfold recost. by destruct (decide _). }
  split.
  - intros k'. rewrite entries_settle. destruct (decide _); [by apply recost_before|done].
  - intros k' e (e' & He & -> & _)%Hin. by apply (H2 k').
  - intros k' e (e' & He & _ & ->)%Hin. by apply (H3 k').
  - intros k'. rewrite entries_settle. destruct (decide _); [by rewrite recost_handles|done].
Qed.

(** Settling an entry the log still has. *)
Lemma priced_recost h c old (es : list entry) :
  NoDup (e_handle <$> es) -> (list_to_map (priced <$> es) : gmap nat Z) !! h = Some old ->
  (list_to_map (priced <$> (recost h c <$> es)) : gmap nat Z) = <[h := c]> (list_to_map (priced <$> es))
  /\ cost_of (recost h c <$> es) = cost_of es + (c - old).
Proof.
  induction es as [|e es IH]; [simpl; by rewrite lookup_empty|].
  rewrite !fmap_cons. intros [Hh Hnd]%NoDup_cons. simpl. destruct (decide (e_handle e = h)) as [<-|Hne].
  - rewrite lookup_insert_eq. intros [= <-]. rewrite recost_absent by done.
    unfold recost. rewrite decide_True by done. simpl. by split; [rewrite insert_insert_eq|lia].
  - rewrite lookup_insert_ne by done. intros Hold. destruct (IH Hnd Hold) as [Hm Hc]. rewrite Hm, Hc.
    unfold recost. rewrite decide_False by done. simpl. split; [by apply insert_insert_ne|lia].
Qed.

Lemma keeps_recost es w h c old :
  NoDup (e_handle <$> es) -> keeps es w -> costs w !! h = Some old ->
  keeps (recost h c <$> es) (mkWindow (entries w) (<[h := c]> (costs w)) (win_total w + (c - old))).
Proof.
  intros Hnd [He Hc Ht] Hold. rewrite Hc in Hold. destruct (priced_recost h c old es Hnd Hold) as [Hm Hs].
  split; simpl; [by rewrite He, recost_stamp|by rewrite Hm, Hc|by rewrite Hs, Ht].
Qed.

Lemma settle_shows now key h c l s : shows now l s -> shows now (settle key h c l) (spec_settle key h c s).
Proof.
  intros [Hnext Hwf Hk].
  assert (Hgone : forall es, Forall (fun e => e_time e <= now - W key) es ->
                  Forall (fun e => e_time e <= now - W key) (recost h c <$> es)).
  { intros es Hes. apply Forall_fmap. eapply Forall_impl; [exact Hes|]. intros e. simpl. by rewrite recost_time. }
  assert (Hk' : shows_key now (widest_window l) key (recost h c <$> entries_of s key) (requests (settle key h c l) !! key)
    /\ (forall k', k' <> key -> requests (settle key h c l) !! k' = requests l !! k')
    /\ handles (settle key h c l) = handles l /\ widest_window (settle key h c l) = widest_window l).
  { specialize (Hk key). pose proof (wf_distinct _ _ Hwf key) as Hnd. unfold settle.
    destruct (requests l !! key) as [w|] eqn:E; [|rewrite E; split; [by apply Hgone|done]].
    destruct Hk as (gone & kept & Heq & Hg & Hkeep & Hw). rewrite Heq, fmap_app in Hnd. apply NoDup_app in Hnd as (_ & _ & Hnd).
    destruct (costs w !! h) as [old|] eqn:Eh; simpl; rewrite ?lookup_insert_eq, ?E.
    - split; [|split; [intros k' Hne; by rewrite lookup_insert_ne|done]].
      exists (recost h c <$> gone), (recost h c <$> kept). rewrite Heq, fmap_app.
      split; [done|]. split; [by apply Hgone|]. split; [by apply keeps_recost|done].
    - split; [|done]. exists (recost h c <$> gone), kept. rewrite Heq, fmap_app.
      rewrite (recost_absent h c kept); [split; [done|]; split; [by apply Hgone|done]|]. intros Hin. rewrite (keeps_costs _ _ Hkeep) in Eh.
      apply list_elem_of_fmap in Hin as (e & -> & He). by rewrite (priced_lookup kept e) in Eh. }
  destruct Hk' as (Hkey & Hother & Hh & Hwide). split; [by rewrite Hh|by apply history_wf_settle|].
  intros k'. rewrite Hwide, entries_settle. destruct (decide (k' = key)) as [->|Hne]; [done|]. by rewrite Hother.
Qed.

End refine.

(** ** Sequences of calls *)

Lemma run_log_shows W calls last l s :
  (forall k, 0 < W k) -> StronglySorted Z.le (last :: calls.*1) -> shows W last l s ->
  run_log W calls l = Some (run_history W calls s).
Proof.
  intros HW. revert last l s. induction calls as [|[now c] calls IH]; intros last l s Hsort Hs; [done|].
  inversion_clear Hsort as [|? ? Hsort' Hle]. inversion_clear Hle as [|? ? Hn _]. simpl.
  assert (Hstep : exists l', step_log W now c l = Some ((step_history W now c s).1, l')
    /\ shows W now l' (step_history W now c s).2).
  { destruct c as [k limit cost|k|k h cost]; simpl.
    - destruct (hit_shows W HW last now k limit cost l s Hs Hn) as (l' & -> & H).
      destruct (spec_hit _ _ _ _ _ _); simpl in *. by eexists.
    - destruct (peek_shows W last now k l s Hs Hn) as (l' & -> & H). simpl. by eexists.
    - eexists. split; [done|]. apply settle_shows. by apply (shows_later W last now l l). }
  destruct Hstep as (l' & -> & Hs'). simpl. destruct (step_history W now c s) as [a s']; simpl in *.
  by rewrite (IH now l' s').
Qed.

(** C15: whatever its keys and however often it pruned and cleaned up, the log never raises and
    answers every hit, peek and settlement exactly as the full history of what it admitted
    would: an entry is admitted when the entries of the last window cost at most the limit
    with it, and the reset is when the oldest of those leaves. *)
Theorem log_answers_as_history W calls :
  (forall k, 0 < W k) -> StronglySorted Z.le calls.*1 ->
  run_log W calls empty_log = Some (run_history W calls empty_history).
Proof.
  intros HW Hs. destruct calls as [|[now c] calls]; [done|].
  apply (run_log_shows W _ now); [done| |apply shows_empty].
  constructor; [done|]. constructor; [done|]. by inversion_clear Hs.
Qed.

Definition minute (_ : string) : Z := 60.

(** Three hits on a limit of two, a look, another key, and a fourth hit once the first left. *)
Definition some_calls : list (Z * log_call) :=
  [(0, LogHit "user:ann" 2 1); (10, LogHit "user:ann" 2 1); (20, LogHit "user:ann" 2 1);
   (25, LogPeek "user:ann"); (30, LogHit "user:bob" 2 1); (61, LogHit "user:ann" 2 1)]%string.

Lemma some_calls_sorted : StronglySorted Z.le some_calls.*1.
Proof. cbn. repeat first [apply SSorted_nil | apply SSorted_cons | apply Forall_nil; done | apply Forall_cons; split]; done. Qed.

Lemma log_answers_as_history_witness :
  run_log minute some_calls empty_log
  = Some [Some (mkAnswer true 1 60 (Some 0%nat)); Some (mkAnswer true 2 50 (Some 1%nat));
          Some (mkAnswer false 2 40 None); Some (mkAnswer true 2 35 None);
          Some (mkAnswer true 1 60 (Some 2%nat)); Some (mkAnswer true 2 9 (Some 3%nat))].
Proof.
  etrans; [apply (log_answers_as_history minute some_calls); [unfold minute; lia|exact some_calls_sorted]|].
  vm_compute. reflexivity.
Defined.

(** What a key's entries cost in the window ending at [t]. *)
Definition cost_at (W : string -> Z) (key : string) (t : Z) (es : list entry) : Z :=
  cost_of (filter (fun e => t - W key < e_time e <= t) es).

Lemma cost_at_snoc W key t es e :
  cost_at W key t (es ++ [e])
  = cost_at W key t es + (if (t - W key <? e_time e) && (e_time e <=? t) then e_cost e else 0).
Proof.
  unfold cost_at, cost_of. rewrite filter_app, sumZ_app. f_equal.
  destruct ((t - W key <? e_time e) && (e_time e <=? t)) eqn:E.
  - reflect_bools. rewrite filter_cons_True by lia. simpl. lia.
  - rewrite filter_cons_False; [done|]. apply andb_false_iff in E. rewrite Z.ltb_ge, Z.leb_gt in E. lia.
Qed.

(** An entry is admitted at [now] only where every window that reaches it has room. *)
Lemma cost_at_le_spent W key now t s :
  history_wf now s -> (forall e, e ∈ entries_of s key -> 0 <= e_cost e) -> now <= t ->
  cost_at W key t (entries_of s key) <= spent s key now (W key).
Proof.
  intros Hwf Hpos Ht. pose proof (wf_past _ _ Hwf key) as Hp. unfold cost_at, spent, live.
  induction (entries_of s key) as [|e es IH]; [done|].
  assert (He : 0 <= e_cost e) by (apply Hpos; by left). assert (Hpe : e_time e <= now) by (apply Hp; by left).
  specialize (IH ltac:(intros; apply Hpos; by right) ltac:(intros; apply Hp; by right)).
  rewrite !filter_cons. unfold in_window at 1. repeat case_decide; unfold cost_of in *; rewrite ?sumZ_cons; lia.
Qed.

Record fits (W : string -> Z) (key : string) (limit : Z) (s : history) : Prop := {
  fits_every : forall t, cost_at W key t (entries_of s key) <= limit;
  fits_pos : forall e, e ∈ entries_of s key -> 0 <= e_cost e
}.

Lemma fits_admit W key limit s now cost :
  history_wf now s -> fits W key limit s -> 0 <= cost -> spent s key now (W key) + cost <= limit ->
  fits W key limit (admit_entry s key now cost).
Proof.
  intros Hwf Hfit Hcost E. split; [intros t|intros e]; rewrite entries_admit, decide_True by done.
  - rewrite cost_at_snoc. cbn [e_time e_cost]. pose proof (fits_every _ _ _ _ Hfit t).
    destruct ((t - W key <? now) && (now <=? t)) eqn:Et; [|lia]. reflect_bools.
    pose proof (cost_at_le_spent W key now t s Hwf (fits_pos _ _ _ _ Hfit) ltac:(lia)). lia.
  - intros [He| ->%list_elem_of_singleton]%elem_of_app; [by apply (fits_pos _ _ _ _ Hfit)|done].
Qed.

Lemma run_history_fits W key limit calls last s t :
  StronglySorted Z.le (last :: calls.*1) -> history_wf last s -> fits W key limit s ->
  Forall (fun c => limits_key key limit c.2) calls ->
  cost_at W key t (entries_of s key) + admitted_cost W key t calls (run_history W calls s) <= limit.
Proof.
  revert last s. induction calls as [|[now c] calls IH]; intros last s Hsort Hwf Hfit Hall.
  { simpl. pose proof (fits_every _ _ _ _ Hfit t). lia. }
  inversion_clear Hsort as [|? ? Hsort' Hle]. inversion_clear Hle as [|? ? Hn _].
  inversion_clear Hall as [|? ? Hc Hall']. simpl in Hc.
  assert (Hwf' : history_wf now s).
  { destruct Hwf as [H1 H2 H3 H4]. split; [done| |done|done]. intros k e He. specialize (H2 k e He). lia. }
  destruct c as [k n cost|k|k h cost]; cbn [run_history step_history].
  - unfold spec_hit. destruct (spent s k now (W k) + cost <=? n) eqn:E; cbn [admitted_cost allowed is_set].
    + specialize (IH now (admit_entry s k now cost) Hsort' ltac:(by apply history_wf_admit)).
      destruct (decide (k = key)) as [->|Hne].
      * destruct (Hc eq_refl) as [-> Hcost]. reflect_bools. rewrite bool_decide_eq_true_2 by done. cbn [andb].
        rewrite entries_admit, decide_True, cost_at_snoc in IH by done. cbn [e_time e_cost] in IH.
        specialize (IH ltac:(by apply fits_admit) Hall'). lia.
      * rewrite bool_decide_eq_false_2 by done. cbn [andb]. rewrite entries_admit, decide_False in IH by congruence.
        apply IH; [|done]. destruct Hfit as [H1 H2]. split; intros; [rewrite entries_admit|eapply H2; revert H; rewrite entries_admit];
          rewrite decide_False by congruence; [apply H1|done].
    + rewrite andb_false_r. cbn [andb]. by apply (IH now).
  - cbn [admitted_cost]. by apply (IH now).
  - cbn [admitted_cost]. pose proof (entries_settle s k h cost key) as He. rewrite decide_False in He by congruence.
    rewrite <- He. apply (IH now); [done|by apply history_wf_settle| |done].
    destruct Hfit as [H1 H2]. split; intros; [rewrite He; apply H1|apply H2; by rewrite <- He].
Qed.

(** However calls on other keys, cleanups and refusals interleave, in no window of its length,
    wherever it starts, do the entries a key was admitted cost more than its limit. *)
Theorem admitted_within_limit W key limit calls answers t :
  (forall k, 0 < W k) -> 0 <= limit -> StronglySorted Z.le calls.*1 ->
  Forall (fun c => limits_key key limit c.2) calls ->
  run_log W calls empty_log = Some answers ->
  admitted_cost W key t calls answers <= limit.
Proof.
  intros HW Hlim Hs Hall Hrun.
  assert (Hend : exists start, StronglySorted Z.le (start :: calls.*1)).
  { destruct calls as [|[now c] calls]; [exists 0; by repeat constructor|]. exists now. constructor; [done|].
    constructor; [done|]. by inversion_clear Hs. }
  destruct Hend as [start Hstart].
  rewrite (run_log_shows W calls start empty_log empty_history HW Hstart (shows_empty W start)) in Hrun.
  injection Hrun as <-.
  pose proof (run_history_fits W key limit calls start empty_history t Hstart) as H.
  specialize (H (shows_wf _ _ _ _ (shows_empty W start))). simpl in H. apply H; [|done].
  split; [done|]. by intros e He%elem_of_nil.
Qed.

Lemma admitted_within_limit_witness :
  admitted_cost minute "user:ann" 61 some_calls (run_history minute some_calls empty_history) <= 2.
Proof.
  apply (admitted_within_limit minute "user:ann" 2 some_calls).
  - unfold minute. lia.
  - lia.
  - exact some_calls_sorted.
  - repeat constructor; simpl; (done || lia || congruence).
  - vm_compute. reflexivity.
Defined.
