(* ===== verification/RateStores.v ===== *)
(** Where rate limits are counted: the calls of [RateLimitStorePort]
    ([src/src/gateway/ports/rate_limit_store_port.py]) as an interface, the in-process store
    ([InMemoryRateLimitStore] of [src/src/gateway/adapters/rate_limit_store_adapter.py]) that
    implements it, and the store that never forgets, which says what it promises.

    A coroutine that calls a store is a program over its four calls.  The in-process store
    never suspends, so what the code gathers runs in order. *)
From S2P Require Import Prelude Periods RateWindows.
From stdpp Require Import gmap strings list fin_maps sorting.
From Stdlib Require Import ZArith Lia.
Open Scope Z_scope.

(** ** Programs over a store *)

Inductive calls (A : Type) : Type :=
| Done (a : A)
| Hit (key : string) (limit window_sec cost : Z) (k : RateLimitWindow -> calls A)
| Settle (key : string) (handle : nat) (cost : Z) (k : calls A)
| Acquire (key : string) (limit lease_sec : Z) (k : option nat -> calls A)
| Release (key : string) (lease : nat) (k : calls A).
Arguments Done {A} a.
Arguments Hit {A} key limit window_sec cost k.
Arguments Settle {A} key handle cost k.
Arguments Acquire {A} key limit lease_sec k.
Arguments Release {A} key lease k.

Fixpoint cbind {A B} (p : calls A) (f : A -> calls B) : calls B :=
  match p with
  | Done a => f a
  | Hit key limit w cost k => Hit key limit w cost (fun a => cbind (k a) f)
  | Settle key h cost k => Settle key h cost (cbind k f)
  | Acquire key limit lease k => Acquire key limit lease (fun a => cbind (k a) f)
  | Release key lease k => Release key lease (cbind k f)
  end.

Declare Scope store_scope.
Delimit Scope store_scope with store.
Notation "'do' x <~ p ; q" := (cbind p (fun x => q))
  (at level 10, x pattern, p at level 100, q at level 200) : store_scope.
Open Scope store_scope.

Definition hit_ (key : string) (limit window_sec cost : Z) : calls RateLimitWindow :=
  Hit key limit window_sec cost Done.
Definition settle_ (key : string) (handle : nat) (cost : Z) : calls unit := Settle key handle cost (Done tt).
Definition acquire_ (key : string) (limit lease_sec : Z) : calls (option nat) := Acquire key limit lease_sec Done.
Definition release_ (key : string) (lease : nat) : calls unit := Release key lease (Done tt).

Fixpoint each {A} (xs : list A) (f : A -> calls unit) : calls unit :=
  match xs with
  | [] => Done tt
  | x :: xs => do _ <~ f x; each xs f
  end.

(** ** The interface *)

(** [None] is an exception of the store. *)
Class RateLimitStore (St : Type) := {
  store_hit : Z -> string -> Z -> Z -> Z -> St -> option (RateLimitWindow * St);
  store_settle : string -> nat -> Z -> St -> option St;
  store_acquire : Z -> string -> Z -> Z -> St -> option (option nat * St);
  store_release : string -> nat -> St -> option St
}.

Section run.
Context {St : Type} `{RateLimitStore St}.
(** The monotonic clock, as the calls that read it find it. *)
Context (clock : nat -> Z).

Fixpoint run {A} (p : calls A) (reads : nat) (st : St) : option (A * nat * St) :=
  match p with
  | Done a => Some (a, reads, st)
  | Hit key limit w cost k =>
      '(a, st) ← store_hit (clock reads) key limit w cost st; run (k a) (S reads) st
  | Settle key h cost k => st ← store_settle key h cost st; run k reads st
  | Acquire key limit lease k =>
      '(a, st) ← store_acquire (clock reads) key limit lease st; run (k a) (S reads) st
  | Release key lease k => st ← store_release key lease st; run k reads st
  end.

Lemma run_cbind {A B} (p : calls A) (f : A -> calls B) n st :
  run (cbind p f) n st = '(a, n, st) ← run p n st; run (f a) n st.
Proof.
  revert n st. induction p as [a|key limit w cost k IH|key h cost k IH|key limit lease k IH|key lease k IH];
    intros n st; simpl; [done|..].
  - destruct (store_hit _ _ _ _ _ _) as [[a st']|]; simpl; [apply IH|done].
  - destruct (store_settle _ _ _ _) as [st'|]; simpl; [apply IH|done].
  - destruct (store_acquire _ _ _ _ _) as [[a st']|]; simpl; [apply IH|done].
  - destruct (store_release _ _ _) as [st'|]; simpl; [apply IH|done].
Qed.

Lemma run_later {A} (p : calls A) n st a n' st' :
  (forall n, clock n <= clock (S n)) -> run p n st = Some (a, n', st') -> clock n <= clock n'.
Proof.
  intros Hm. revert n st. induction p as [x|key limit w cost k IH|key h cost k IH|key limit lease k IH|key lease k IH];
    intros n st; simpl.
  - intros [= _ <- _]. lia.
  - destruct (store_hit _ _ _ _ _ _) as [[x st1]|]; simpl; [|done]. intros Hr%IH. specialize (Hm n). lia.
  - destruct (store_settle _ _ _ _) as [st1|]; simpl; [|done]. apply IH.
  - destruct (store_acquire _ _ _ _ _) as [[x st1]|]; simpl; [|done]. intros Hr%IH. specialize (Hm n). lia.
  - destruct (store_release _ _ _) as [st1|]; simpl; [|done]. apply IH.
Qed.
End run.

(** ** The in-process store *)

Record InMemoryRateLimitStore := mkInMemory {
  log : SlidingWindowLog;
  leases : gmap string (gmap nat Z);
  acquires : Z;
  fresh_lease : nat    (** what [uuid4] draws next *)
}.

Definition empty_store : InMemoryRateLimitStore := mkInMemory empty_log ∅ 0 0.

Definition held_after (now : Z) (slots : gmap nat Z) : gmap nat Z := filter (fun kv => now < kv.2) slots.

Definition mem_hit (now : Z) (key : string) (limit w cost : Z) (st : InMemoryRateLimitStore)
  : option (RateLimitWindow * InMemoryRateLimitStore) :=
  '(a, l) ← hit now key limit w cost (log st);
  Some (a, mkInMemory l (leases st) (acquires st) (fresh_lease st)).

Definition mem_settle (key : string) (h : nat) (cost : Z) (st : InMemoryRateLimitStore) : InMemoryRateLimitStore :=
  mkInMemory (settle key h cost (log st)) (leases st) (acquires st) (fresh_lease st).

Definition acquire (now : Z) (key : string) (limit lease_sec : Z) (st : InMemoryRateLimitStore)
  : option nat * InMemoryRateLimitStore :=
  let '(ls, n) :=
    if CLEANUP_INTERVAL <=? acquires st + 1
    then (filter (fun kv : string * gmap nat Z => held_after now kv.2 <> ∅) (leases st), 0)
    else (leases st, acquires st + 1) in
  let slots := held_after now (default ∅ (ls !! key)) in
  if limit <=? Z.of_nat (size slots)
  then (None, mkInMemory (log st) (<[key := slots]> ls) n (fresh_lease st))
  else (Some (fresh_lease st),
        mkInMemory (log st) (<[key := <[fresh_lease st := now + lease_sec]> slots]> ls) n (S (fresh_lease st))).

Definition release (key : string) (lease : nat) (st : InMemoryRateLimitStore) : InMemoryRateLimitStore :=
  match leases st !! key with
  | None => st
  | Some slots =>
      let slots := delete lease slots in
      mkInMemory (log st) (if decide (slots = ∅) then delete key (leases st) else <[key := slots]> (leases st))
        (acquires st) (fresh_lease st)
  end.

#[export] Instance in_memory : RateLimitStore InMemoryRateLimitStore := {
  store_hit := mem_hit;
  store_settle key h cost st := Some (mem_settle key h cost st);
  store_acquire now key limit lease st := Some (acquire now key limit lease st);
  store_release key lease st := Some (release key lease st)
}.

(** ** The store that never forgets *)

Record counted := mkCounted {
  logged : history;
  slots : gmap string (gmap nat Z);
  next_lease : nat
}.

Definition empty_counted : counted := mkCounted empty_history ∅ 0.

Definition slots_of (c : counted) (key : string) : gmap nat Z := default ∅ (slots c !! key).

(** The slots of a key whose lease runs past [now]. *)
Definition taken (c : counted) (key : string) (now : Z) : gmap nat Z := held_after now (slots_of c key).

Definition set_logged (c : counted) (s : history) : counted := mkCounted s (slots c) (next_lease c).

Definition spec_acquire (now : Z) (key : string) (limit lease_sec : Z) (c : counted) : option nat * counted :=
  if limit <=? Z.of_nat (size (taken c key now)) then (None, c)
  else (Some (next_lease c),
        mkCounted (logged c) (<[key := <[next_lease c := now + lease_sec]> (slots_of c key)]> (slots c))
          (S (next_lease c))).

Definition spec_release (key : string) (lease : nat) (c : counted) : counted :=
  mkCounted (logged c) (alter (delete lease) key (slots c)) (next_lease c).

#[export] Instance never_forgets : RateLimitStore counted := {
  store_hit now key limit w cost c :=
    let '(a, s) := spec_hit now key limit w cost (logged c) in Some (a, set_logged c s);
  store_settle key h cost c := Some (set_logged c (spec_settle key h cost (logged c)));
  store_acquire now key limit lease c := Some (spec_acquire now key limit lease c);
  store_release key lease c := Some (spec_release key lease c)
}.

(** ** The in-process store implements it *)

(** Every hit and every acquire a program may make, whatever the store answers. *)
Inductive every (P : string -> Z -> Z -> Z -> Prop) (Q : string -> Z -> Z -> Prop) {A} : calls A -> Prop :=
| every_done a : every P Q (Done a)
| every_hit key limit w cost k : P key limit w cost -> (forall a, every P Q (k a)) -> every P Q (Hit key limit w cost k)
| every_settle key h cost k : every P Q k -> every P Q (Settle key h cost k)
| every_acquire key limit lease k :
    Q key limit lease -> (forall a, every P Q (k a)) -> every P Q (Acquire key limit lease k)
| every_release key lease k : every P Q k -> every P Q (Release key lease k).

Lemma every_bind P Q {A B} (p : calls A) (f : A -> calls B) :
  every P Q p -> (forall a, every P Q (f a)) -> every P Q (cbind p f).
Proof. intros Hp Hf. induction Hp; simpl; try constructor; auto. Qed.

Lemma every_each P Q {A} (xs : list A) f : (forall x, every P Q (f x)) -> every P Q (each xs f).
Proof. intros Hf. induction xs; simpl; [constructor|]. by apply every_bind. Qed.

(** Every hit on a key uses the window of that key. *)
Definition on_windows (W : string -> Z) {A} : calls A -> Prop :=
  every (fun key _ w _ => w = W key) (fun _ _ _ => True).

(** Every acquire on [key] is for at most [limit] slots. *)
Definition slots_limited (key : string) (limit : Z) {A} : calls A -> Prop :=
  every (fun _ _ _ _ => True) (fun k n _ => k = key -> n = limit).

Record implements (W : string -> Z) (now : Z) (st : InMemoryRateLimitStore) (c : counted) : Prop := {
  impl_log : shows W now (log st) (logged c);
  impl_fresh : fresh_lease st = next_lease c;
  impl_slots : forall key, held_after now (default ∅ (leases st !! key)) = taken c key now
}.

Lemma held_after_later now now' m : now <= now' -> held_after now' (held_after now m) = held_after now' m.
Proof.
  intros Hn. apply map_eq. intros i. unfold held_after. rewrite !map_lookup_filter.
  destruct (m !! i) as [t|]; [|done]. simpl. destruct (decide (now < t)) as [H|H].
  - by rewrite (option_guard_True (now < t)).
  - rewrite (option_guard_False (now < t)), (option_guard_False (now' < t)) by lia. done.
Qed.

Lemma implements_later W now now' st c : now <= now' -> implements W now st c -> implements W now' st c.
Proof.
  intros Hn [Hl Hf Hs]. split; [by apply (shows_later W now _ (log st))|done|]. intros key. unfold taken.
  rewrite <- (held_after_later now now' (default ∅ _)), <- (held_after_later now now' (slots_of c key)) by done.
  by rewrite Hs.
Qed.

Lemma held_after_insert now i t m1 m2 :
  held_after now m1 = held_after now m2 -> held_after now (<[i := t]> m1) = held_after now (<[i := t]> m2).
Proof.
  intros H. unfold held_after in *. rewrite !map_filter_insert, H. destruct (decide _); [done|].
  rewrite !map_filter_delete. by rewrite H.
Qed.

Lemma held_after_twice now m : held_after now (held_after now m) = held_after now m.
Proof. by apply held_after_later. Qed.

Lemma held_after_delete now key m : held_after now (delete key m) = delete key (held_after now m).
Proof. unfold held_after. apply map_filter_delete. Qed.

Lemma acquire_implements W now key limit lease st c :
  implements W now st c ->
  (acquire now key limit lease st).1 = (spec_acquire now key limit lease c).1
  /\ implements W now (acquire now key limit lease st).2 (spec_acquire now key limit lease c).2.
Proof.
  intros [Hl Hf Hs]. unfold acquire, spec_acquire.
  match goal with |- context [let '(_, _) := ?x in _] => destruct x as [ls n] eqn:Els end.
  assert (Hs' : forall k, held_after now (default ∅ (ls !! k)) = taken c k now).
  { intros k. rewrite <- Hs. destruct (CLEANUP_INTERVAL <=? acquires st + 1); injection Els as <- <-; [|done].
    rewrite map_lookup_filter. destruct (leases st !! k) as [m|]; [|done]. simpl.
    destruct (decide (held_after now m <> ∅)) as [H|H]; [by rewrite option_guard_True|].
    rewrite option_guard_False by done. simpl. apply dec_stable in H. by rewrite H. }
  rewrite Hs'. destruct (limit <=? Z.of_nat (size (taken c key now))); simpl.
  - split; [done|]. split; [done|done|]. intros k. simpl. rewrite <- Hs'. destruct (decide (k = key)) as [->|Hne].
    + rewrite lookup_insert_eq. simpl. rewrite <- Hs'. apply held_after_twice.
    + by rewrite lookup_insert_ne.
  - rewrite Hf. split; [done|]. split; [done|done|]. intros k. simpl. unfold taken, slots_of. simpl.
    destruct (decide (k = key)) as [->|Hne].
    + rewrite !lookup_insert_eq. simpl. apply held_after_insert, held_after_twice.
    + rewrite !lookup_insert_ne by done. apply Hs'.
Qed.

Lemma release_implements W now key lease st c :
  implements W now st c -> implements W now (release key lease st) (spec_release key lease c).
Proof.
  intros [Hl Hf Hs]. unfold release. destruct (leases st !! key) as [m|] eqn:E.
  - split; [done|done|]. intros k. specialize (Hs k). unfold taken, slots_of in *. simpl.
    destruct (decide (k = key)) as [->|Hne].
    + rewrite lookup_alter_eq, E in *. simpl in Hs.
      assert (H : held_after now (delete lease m) = held_after now (default ∅ (delete lease <$> slots c !! key))).
      { rewrite held_after_delete, Hs. destruct (slots c !! key); simpl; [by rewrite held_after_delete|].
        unfold held_after. by rewrite map_filter_empty, delete_empty. }
      rewrite <- H. destruct (decide (delete lease m = ∅)) as [He|He]; [by rewrite lookup_delete_eq, He|by rewrite lookup_insert_eq].
    + rewrite lookup_alter_ne by done. rewrite <- Hs.
      destruct (decide _); [by rewrite lookup_delete_ne|by rewrite lookup_insert_ne].
  - split; [done|done|]. intros k. rewrite Hs. unfold taken, slots_of. simpl. destruct (decide (k = key)) as [->|Hne].
    + rewrite lookup_alter_eq. specialize (Hs key). rewrite E in Hs. unfold taken, slots_of in Hs. simpl in Hs.
      destruct (slots c !! key) as [m|]; simpl in *; [|done]. rewrite held_after_delete, <- Hs.
      unfold held_after. by rewrite map_filter_empty, delete_empty.
    + by rewrite lookup_alter_ne.
Qed.

Section simulation.
Context (W : string -> Z) (W_pos : forall k, 0 < W k).
Context (clock : nat -> Z) (clock_mono : forall n, clock n <= clock (S n)).

Lemma run_implements {A} (p : calls A) n last st c :
  on_windows W p -> last <= clock n -> implements W last st c ->
  exists a n' st' c' last', run clock p n st = Some (a, n', st') /\ run clock p n c = Some (a, n', c')
    /\ last' <= clock n' /\ implements W last' st' c'.
Proof.
  intros Hp. revert n last st c. induction Hp as [a|key limit w cost k -> _ IH|key h cost k _ IH|key limit lease k _ _ IH|
    key lease k _ IH]; intros n last st c Hn Hi; simpl.
  - by exists a, n, st, c, last.
  - destruct (hit_shows W W_pos last (clock n) key limit cost (log st) (logged c) (impl_log _ _ _ _ Hi) Hn)
      as (l' & Hhit & Hl). unfold mem_hit. rewrite Hhit. simpl.
    destruct (spec_hit (clock n) key limit (W key) cost (logged c)) as [a s'] eqn:Es. simpl in *.
    apply (IH a (S n) (clock n)); [apply clock_mono|].
    destruct (implements_later W last (clock n) st c Hn Hi) as [_ Hf Hs]. by split.
  - apply (IH n last); [done|]. destruct Hi as [Hl Hf Hs]. split; [by apply settle_shows|done|done].
  - pose proof (acquire_implements W (clock n) key limit lease st c (implements_later W last _ st c Hn Hi)) as [Ha Hi'].
    destruct (acquire (clock n) key limit lease st) as [a st'], (spec_acquire (clock n) key limit lease c) as [a' c'].
    simpl in *. subst a'. by apply (IH a (S n) (clock n)); [apply clock_mono|].
  - apply (IH n last); [done|]. by apply release_implements.
Qed.

Lemma implements_empty now : implements W now empty_store empty_counted.
Proof. split; [apply shows_empty|done|]. intros key. unfold taken, slots_of. simpl. by rewrite !lookup_empty. Qed.

End simulation.

(** ** Concurrency slots *)

Lemma size_delete_le (i : nat) (m : gmap nat Z) : (size (delete i m) <= size m)%nat.
Proof. rewrite map_size_delete. destruct (m !! i); simpl; lia. Qed.

Lemma taken_later c key now now' : now <= now' -> (size (taken c key now') <= size (taken c key now))%nat.
Proof.
  intros Hn. unfold taken. rewrite <- (held_after_later now now') by done.
  apply map_size_filter.
Qed.

Lemma spec_acquire_limited now key limit k n lease c :
  Z.of_nat (size (taken c key now)) <= limit -> (k = key -> n = limit) ->
  Z.of_nat (size (taken (spec_acquire now k n lease c).2 key now)) <= limit.
Proof.
  intros Hsize Hk. unfold spec_acquire. destruct (n <=? Z.of_nat (size (taken c k now))) eqn:E; [done|].
  unfold taken, slots_of in *. simpl. destruct (decide (key = k)) as [->|Hne]; [|by rewrite lookup_insert_ne].
  rewrite (Hk eq_refl) in *. reflect_bools. rewrite lookup_insert_eq. simpl. set (m := default ∅ (slots c !! k)) in *.
  unfold held_after in *. rewrite map_filter_insert. destruct (decide _).
  - rewrite map_size_insert. destruct (filter _ _ !! _); simpl; lia.
  - rewrite map_filter_delete. pose proof (size_delete_le (next_lease c) (filter (fun kv : nat * Z => now < kv.2) m)). lia.
Qed.

Lemma spec_release_limited now key k lease c :
  (size (taken (spec_release k lease c) key now) <= size (taken c key now))%nat.
Proof.
  unfold taken, slots_of, spec_release. simpl. destruct (decide (key = k)) as [->|Hne]; [|by rewrite lookup_alter_ne].
  rewrite lookup_alter_eq. destruct (slots c !! k) as [m|]; [|done]. simpl. rewrite held_after_delete.
  apply size_delete_le.
Qed.

Lemma run_slots_limited {A} (clock : nat -> Z) (p : calls A) key limit n c a n' c' :
  (forall n, clock n <= clock (S n)) -> slots_limited key limit p ->
  Z.of_nat (size (taken c key (clock n))) <= limit ->
  run clock p n c = Some (a, n', c') ->
  Z.of_nat (size (taken c' key (clock n'))) <= limit.
Proof.
  intros Hmono Hp. revert n c. induction Hp as [x|k' lim w cost k _ _ IH|k' h cost k _ IH|k' lim lease k Hlim _ IH|
    k' lease k _ IH]; intros n c Hsize; simpl.
  - by intros [= <- <- <-].
  - destruct (spec_hit _ _ _ _ _ _) as [x s]. simpl. apply IH.
    pose proof (taken_later c key (clock n) (clock (S n)) (Hmono n)). unfold taken, slots_of in *. simpl in *. lia.
  - by apply IH.
  - pose proof (spec_acquire_limited (clock n) key limit k' lim lease c Hsize Hlim) as H.
    destruct (spec_acquire _ _ _ _ _) as [x c1]. simpl in *. apply IH.
    pose proof (taken_later c1 key (clock n) (clock (S n)) (Hmono n)). lia.
  - apply IH. pose proof (spec_release_limited (clock n) key k' lease c). lia.
Qed.

(** ** Properties *)

(** The in-process store never raises, and any program over its four calls reads from it what
    it would from a store that never forgets: dropping idle keys, expired entries and run-out
    leases shows to no caller, and the slots still running are the same. *)
Theorem in_memory_refines {A} (W : string -> Z) (clock : nat -> Z) (p : calls A) :
  (forall k, 0 < W k) -> (forall n, clock n <= clock (S n)) -> on_windows W p ->
  exists a n st c, run clock p 0 empty_store = Some (a, n, st) /\ run clock p 0 empty_counted = Some (a, n, c)
    /\ forall key, held_after (clock n) (default ∅ (leases st !! key)) = taken c key (clock n).
Proof.
  intros HW Hm Hp.
  destruct (run_implements W HW clock Hm p 0 (clock 0%nat) empty_store empty_counted Hp ltac:(lia)
              (implements_empty W _)) as (a & n & st & c & last & H1 & H2 & Hn & Hi).
  exists a, n, st, c. split; [done|]. split; [done|]. by destruct (implements_later W last (clock n) st c Hn Hi).
Qed.

(** Two requests take the two slots of a limit, a third waits until the first gives one back. *)
Definition three_requests : calls (list (option nat)) :=
  do a <~ acquire_ "all" 2 900;
  do b <~ acquire_ "all" 2 900;
  do c <~ acquire_ "all" 2 900;
  do _ <~ match a with Some l => release_ "all" l | None => Done tt end;
  do d <~ acquire_ "all" 2 900;
  do w <~ hit_ "all" 1 60 1;
  Done [a; b; c; d; handle w].

Lemma three_requests_ok P Q :
  (forall c, P "all"%string 1 60 c) -> (forall n, Q "all"%string 2 n) -> every P Q three_requests.
Proof.
  intros HP HQ. repeat (constructor; auto; intros).
  all: match goal with |- every _ _ (cbind (match ?x with _ => _ end) _) => destruct x end; repeat (constructor; auto).
Qed.

Lemma in_memory_refines_witness :
  exists n st c, run Z.of_nat three_requests 0 empty_store = Some ([Some 0; Some 1; None; Some 2; Some 0]%nat, n, st)
    /\ held_after (Z.of_nat n) (default ∅ (leases st !! "all")) = taken c "all" (Z.of_nat n).
Proof.
  destruct (in_memory_refines minute Z.of_nat three_requests) as (a & n & st & c & H1 & _ & H2).
  - unfold minute. lia.
  - lia.
  - unfold on_windows. by apply three_requests_ok.
  - assert (a = [Some 0; Some 1; None; Some 2; Some 0]%nat) as -> by (vm_compute in H1; congruence).
    by exists n, st, c.
Defined.

(** At no time do more slots of a limit run than it allows, whatever was released, refused or
    left to run out before. *)
Theorem slots_within_limit {A} (W : string -> Z) (clock : nat -> Z) (p : calls A) key limit a n st :
  (forall k, 0 < W k) -> (forall n, clock n <= clock (S n)) -> 0 <= limit ->
  on_windows W p -> slots_limited key limit p ->
  run clock p 0 empty_store = Some (a, n, st) ->
  Z.of_nat (size (held_after (clock n) (default ∅ (leases st !! key)))) <= limit.
Proof.
  intros HW Hm Hlim Hp Hq Hrun.
  destruct (run_implements W HW clock Hm p 0 (clock 0%nat) empty_store empty_counted Hp ltac:(lia)
              (implements_empty W _)) as (a' & n' & st' & c & last & H1 & H2 & Hn & Hi).
  rewrite Hrun in H1. injection H1 as <- <- <-.
  destruct (implements_later W last (clock n) st c Hn Hi) as [_ _ ->].
  by apply (run_slots_limited clock p key limit 0 empty_counted a n c).
Qed.

Lemma slots_within_limit_witness :
  exists a n st, run Z.of_nat three_requests 0 empty_store = Some (a, n, st)
    /\ Z.of_nat (size (held_after (Z.of_nat n) (default ∅ (leases st !! "all")))) <= 2.
Proof.
  eexists _, _, _. split; [vm_compute; reflexivity|].
  apply (slots_within_limit minute Z.of_nat three_requests "all" 2 [Some 0; Some 1; None; Some 2; Some 0]%nat).
  - unfold minute. lia.
  - lia.
  - lia.
  - by apply three_requests_ok.
  - by apply three_requests_ok.
  - vm_compute. reflexivity.
Defined.
