(* ===== verification/RateRules.v ===== *)
(** The rate limits of a request ([src/src/gateway/rate_limit.py]): the in-process limiter, the
    per-user limit, and the [rate_limits] rules a request is admitted under, with what it holds
    of them until its response ends.

    The store is any that answers the four calls ([RateStores.v]).  Metrics, logging and the
    header the middleware adds for [reported_rules] write no state of the limits. *)
From S2P Require Import Prelude Periods RateWindows RateStores.
From stdpp Require Import gmap strings list pretty.
From Stdlib Require Import ZArith Lia.
Open Scope Z_scope.
Open Scope store_scope.

(** ** Refusals *)

(** A 429: its detail, its [Retry-After] and the rule its error header names. *)
Record refusal := mkRefusal {
  detail_429 : string;
  retry_after_429 : option Z;
  rule_429 : option string
}.

Record RateLimitInfo := mkInfo { info_limit : Z; remaining : Z; reset : Z }.

Definition ceil_seconds (t : Z) : Z := - ((- t) / SECOND).

(** [wall] is the wall-clock time, in the unit of the monotonic clock. *)
Definition info_or_raise (wall : Z) (w : RateLimitWindow) (limit : Z) : refusal + RateLimitInfo :=
  if negb (allowed w) then
    inl (mkRefusal "Rate limit exceeded" (Some (ceil_seconds (RateWindows.reset_after w))) None)
  else inr (mkInfo limit (limit - count w) (wall + RateWindows.reset_after w)).

(** ** The in-process limiter *)

Record RateLimiter := mkLimiter { rpm_allowance : Z; window_sec : Z; limiter_log : SlidingWindowLog }.

Definition with_log (r : RateLimiter) (l : SlidingWindowLog) : RateLimiter :=
  mkLimiter (rpm_allowance r) (window_sec r) l.

Definition check (now wall : Z) (key : string) (r : RateLimiter) : option ((refusal + RateLimitInfo) * RateLimiter) :=
  '(w, l) ← hit now key (rpm_allowance r) (window_sec r) 1 (limiter_log r);
  Some (info_or_raise wall w (rpm_allowance r), with_log r l).

Definition require_room (now wall : Z) (key : string) (r : RateLimiter) : option (option refusal * RateLimiter) :=
  '(w, l) ← peek now key (window_sec r) (limiter_log r);
  Some (if rpm_allowance r <=? count w
        then match info_or_raise wall (mkAnswer false (count w) (RateWindows.reset_after w) None) (rpm_allowance r) with
             | inl e => Some e
             | inr _ => None
             end
        else None, with_log r l).

(** ** The per-user limit *)

Definition user_check (rpm window_sec wall : Z) (user_id : string) : calls (refusal + RateLimitInfo) :=
  do w <~ hit_ ("user:" +:+ user_id) rpm window_sec 1;
  Done (info_or_raise wall w rpm).

(** ** Rules *)

Inductive rule_per := PerDeployment | PerKey | PerUser | PerModel | PerBudget.
#[export] Instance rule_per_eq_dec : EqDecision rule_per.
Proof. solve_decision. Defined.

Inductive rule_mode := Enforce | Report.
Inductive tpm_admission_mode := AdmitUsed | AdmitEstimate.

Record RateLimitRule := mkRule {
  name : string;
  per : rule_per;
  models : option (list string);
  budgets : option (list string);
  mode : rule_mode;
  rpm : option Z;
  tpm : option Z;
  tpm_admission : tpm_admission_mode;
  max_concurrent : option Z;
  lease_sec : Z
}.

Definition RULE_WINDOW_SEC : Z := 60 * SECOND.
Definition CONCURRENCY_RETRY_AFTER_SEC : Z := 1 * SECOND.

(** [_Hold]: what one admission counted, as pairs of a key and an entry or a slot. *)
Record Hold := mkHold {
  hold_entries : list (string * nat);
  estimates : list (string * nat);
  hold_leases : list (string * nat);
  reported : list string
}.

Definition empty_hold : Hold := mkHold [] [] [] [].

Definition add_entry (h : Hold) (key : string) (e : nat) : Hold :=
  mkHold (hold_entries h ++ [(key, e)]) (estimates h) (hold_leases h) (reported h).
Definition add_estimate (h : Hold) (key : string) (e : nat) : Hold :=
  mkHold (hold_entries h) (estimates h ++ [(key, e)]) (hold_leases h) (reported h).
Definition add_lease (h : Hold) (key : string) (l : nat) : Hold :=
  mkHold (hold_entries h) (estimates h) (hold_leases h ++ [(key, l)]) (reported h).

(** ["{n:,}"]: groups of three digits. *)
Fixpoint group_digits (fuel : nat) (n : Z) : string :=
  match fuel with
  | O => pretty n
  | S fuel =>
      if n <? 1000 then pretty n
      else let r := n mod 1000 in
           group_digits fuel (n / 1000) +:+ "," +:+ (if r <? 10 then "00" else if r <? 100 then "0" else "") +:+ pretty r
  end.
Definition commas (n : Z) : string := group_digits 20 n.

Definition count_noun (n : Z) (noun : string) : string :=
  if n =? 1 then commas n +:+ " " +:+ noun else commas n +:+ " " +:+ noun +:+ "s".

Definition refused (detail : string) (retry_after : option Z) (rule : string) : refusal :=
  mkRefusal detail ((fun t => Z.max (ceil_seconds t) 1) <$> retry_after) (Some rule).

(** A rule in [mode: report] is noted on the hold; an enforced one refuses. *)
Definition over (rule : RateLimitRule) (h : Hold) (detail : string) (retry_after : option Z) : Hold * option refusal :=
  match mode rule with
  | Enforce => (h, Some (refused detail retry_after (name rule)))
  | Report =>
      (if bool_decide (name rule ∈ reported h) then h
       else mkHold (hold_entries h) (estimates h) (hold_leases h) (reported h ++ [name rule]), None)
  end.

(** Go on where nothing refused. *)
Definition unless_refused (r : Hold * option refusal) (f : Hold -> calls (Hold * option refusal))
  : calls (Hold * option refusal) :=
  match r with
  | (h, Some e) => Done (h, Some e)
  | (h, None) => f h
  end.

Definition rule_key (rule : RateLimitRule) (subject suffix : string) : string :=
  "rule:" +:+ name rule +:+ ":" +:+ subject +:+ suffix.

Definition count_rpm (rule : RateLimitRule) (subject label : string) (h : Hold) : calls (Hold * option refusal) :=
  match rpm rule with
  | None => Done (h, None)
  | Some n =>
      let key := rule_key rule subject ":rpm" in
      do w <~ hit_ key n RULE_WINDOW_SEC 1;
      Done match handle w with
           | None => over rule h ("Rate limit '" +:+ name rule +:+ "'" +:+ label +:+ " exceeded: "
                                    +:+ count_noun n "request" +:+ " per minute") (Some (RateWindows.reset_after w))
           | Some e => (add_entry h key e, None)
           end
  end.

Definition tpm_cost (rule : RateLimitRule) (estimated_tokens : Z) : Z :=
  match tpm_admission rule with AdmitUsed => 1 | AdmitEstimate => Z.max estimated_tokens 1 end.

Definition count_tpm (rule : RateLimitRule) (subject label : string) (estimated_tokens : Z) (h : Hold)
  : calls (Hold * option refusal) :=
  match tpm rule with
  | None => Done (h, None)
  | Some n =>
      let key := rule_key rule subject ":tpm" in
      let cost := tpm_cost rule estimated_tokens in
      if n <? cost then
        Done (over rule h ("Request needs an estimated " +:+ count_noun cost "token" +:+ "; rate limit '"
                             +:+ name rule +:+ "'" +:+ label +:+ " allows " +:+ commas n +:+ " per minute") None)
      else
        do w <~ hit_ key n RULE_WINDOW_SEC cost;
        Done match handle w with
             | None => over rule h ("Rate limit '" +:+ name rule +:+ "'" +:+ label +:+ " exceeded: "
                                      +:+ count_noun n "token" +:+ " per minute") (Some (RateWindows.reset_after w))
             | Some e => (add_estimate (add_entry h key e) key e, None)
             end
  end.

Definition count_concurrent (rule : RateLimitRule) (subject label : string) (h : Hold)
  : calls (Hold * option refusal) :=
  match max_concurrent rule with
  | None => Done (h, None)
  | Some n =>
      let key := rule_key rule subject ":concurrent" in
      do l <~ acquire_ key n (lease_sec rule);
      Done match l with
           | None => over rule h ("Rate limit '" +:+ name rule +:+ "'" +:+ label +:+ " exceeded: "
                                    +:+ count_noun n "request" +:+ " in flight") (Some CONCURRENCY_RETRY_AFTER_SEC)
           | Some l => (add_lease h key l, None)
           end
  end.

(** [_count_rule]: the hold as it stands, and the refusal it raised. *)
Definition count_rule (rule : RateLimitRule) (subject label : string) (estimated_tokens : Z) (h : Hold)
  : calls (Hold * option refusal) :=
  do r <~ count_rpm rule subject label h;
  do r <~ unless_refused r (count_tpm rule subject label estimated_tokens);
  unless_refused r (count_concurrent rule subject label).

Definition undo (h : Hold) : calls Hold :=
  do _ <~ each (hold_entries h) (fun '(key, e) => settle_ key e 0);
  do _ <~ each (hold_leases h) (fun '(key, l) => release_ key l);
  Done (mkHold [] [] [] (reported h)).

(** ** What a request holds *)

(** The holds are shared: the grant lists the ones it settles and releases ([members], the
    code's [_holds]), and a [ModelHold] names one of the same objects. *)
Record RateLimitGrant := mkGrant {
  objects : list Hold;
  members : list nat;
  grant_estimated_tokens : Z;
  handed_over : bool
}.

Definition new_grant (estimated_tokens : Z) : RateLimitGrant := mkGrant [] [] estimated_tokens false.

Definition hold_at (g : RateLimitGrant) (i : nat) : Hold := default empty_hold (objects g !! i).
Definition set_hold (g : RateLimitGrant) (i : nat) (h : Hold) : RateLimitGrant :=
  mkGrant (<[i := h]> (objects g)) (members g) (grant_estimated_tokens g) (handed_over g).
Definition set_members (g : RateLimitGrant) (ms : list nat) : RateLimitGrant :=
  mkGrant (objects g) ms (grant_estimated_tokens g) (handed_over g).

(** Append holds to the grant. *)
Definition add_holds (g : RateLimitGrant) (hs : list Hold) : RateLimitGrant :=
  mkGrant (objects g ++ hs) (members g ++ seq (length (objects g)) (length hs))
    (grant_estimated_tokens g) (handed_over g).

Definition hand_over (g : RateLimitGrant) : RateLimitGrant :=
  mkGrant (objects g) (members g) (grant_estimated_tokens g) true.

Definition reported_rules (g : RateLimitGrant) : list string :=
  dedup [] (members g ≫= (fun i => reported (hold_at g i))).

Definition clear_estimates (h : Hold) : Hold := mkHold (hold_entries h) [] (hold_leases h) (reported h).
Definition clear_leases (h : Hold) : Hold := mkHold (hold_entries h) (estimates h) [] (reported h).

(** Change each member in turn. *)
Definition map_members (f : Hold -> Hold) (g : RateLimitGrant) : RateLimitGrant :=
  foldl (fun g i => set_hold g i (f (hold_at g i))) g (members g).

Definition grant_settle (tokens : Z) (g : RateLimitGrant) : calls RateLimitGrant :=
  let taken := members g ≫= (fun i => estimates (hold_at g i)) in
  do _ <~ each taken (fun '(key, e) => settle_ key e (Z.max tokens 0));
  Done (map_members clear_estimates g).

Definition grant_release (g : RateLimitGrant) : calls RateLimitGrant :=
  let taken := members g ≫= (fun i => hold_leases (hold_at g i)) in
  do _ <~ each taken (fun '(key, l) => release_ key l);
  Done (map_members clear_leases g).

Fixpoint undo_members (ids : list nat) (g : RateLimitGrant) : calls RateLimitGrant :=
  match ids with
  | [] => Done g
  | i :: ids => do h <~ undo (hold_at g i); undo_members ids (set_hold g i h)
  end.

Definition close_grant (g : RateLimitGrant) : calls RateLimitGrant :=
  do g <~ if handed_over g then Done g else grant_settle 0 g;
  grant_release g.

(** ** Admission *)

(** One phase of the rules, each counted into a hold of its own whatever the others answer. *)
Fixpoint count_all (estimated_tokens : Z) (phase : list (RateLimitRule * string))
  : calls (list (Hold * option refusal)) :=
  match phase with
  | [] => Done []
  | (rule, subject) :: rest =>
      do r <~ count_rule rule subject "" estimated_tokens empty_hold;
      do rs <~ count_all estimated_tokens rest;
      Done (r :: rs)
  end.

Definition first_refusal (rs : list (Hold * option refusal)) : option refusal := head (omap snd rs).

Definition count_phase (g : RateLimitGrant) (phase : list (RateLimitRule * string)) (estimated_tokens : Z)
  : calls (RateLimitGrant * option refusal) :=
  do rs <~ count_all estimated_tokens phase;
  let g := add_holds g rs.*1 in
  match first_refusal rs with
  | None => Done (g, None)
  | Some e => do g <~ undo_members (members g) g; Done (g, Some e)
  end.

Record BudgetMinuteLimits := mkMinuteLimits { limits_budget_id : string; limits_rpm : option Z; limits_tpm : option Z }.

Definition limits_anything (l : BudgetMinuteLimits) : bool := is_set (limits_rpm l) || is_set (limits_tpm l).

(** The defaults of [RateLimitRule]: [mode] enforces, a lease runs 900 seconds. *)
Definition budget_rule (l : BudgetMinuteLimits) : RateLimitRule :=
  mkRule "budget" PerUser None None Enforce (limits_rpm l) (limits_tpm l) AdmitUsed None (900 * SECOND).

Definition shared_per (p : rule_per) : bool := bool_decide (p = PerDeployment) || bool_decide (p = PerBudget).

(** Every rule a request is counted against, with the subject it is counted for. *)
Definition counted_rules (rules : list RateLimitRule) (key_id user_id : option string)
    (budget_limits : option BudgetMinuteLimits) : list (RateLimitRule * string) :=
  let budget_id := limits_budget_id <$> budget_limits in
  let subject_of p := match p with
    | PerDeployment => Some "all"%string
    | PerKey => key_id
    | PerUser => user_id
    | PerBudget => budget_id
    | PerModel => None
    end in
  omap (fun rule =>
    subject ← subject_of (per rule);
    if negb (bool_decide (per rule = PerBudget))
       || match budgets rule with None => true | Some bs => bool_decide (subject ∈ bs) end
    then Some (rule, subject) else None) rules
  ++ match budget_limits, user_id with
     | Some l, Some u => if limits_anything l then [(budget_rule l, limits_budget_id l +:+ ":" +:+ u)] else []
     | _, _ => []
     end.

Definition admit_phases (phases : list (list (RateLimitRule * string))) (estimated_tokens : Z)
  : RateLimitGrant -> calls (RateLimitGrant * option refusal) :=
  foldr (fun phase next g =>
    if bool_decide (phase = []) then next g
    else
      do r <~ count_phase g phase estimated_tokens;
      match r with
      | (g, Some e) => Done (g, Some e)
      | (g, None) => next g
      end) (fun g => Done (g, None)) phases.

(** [RateLimitRules.admit]: the grant as it stands on the request, and the refusal it raised. *)
Definition admit_request (rules : list RateLimitRule) (key_id user_id : option string) (estimated_tokens : Z)
    (budget_limits : option BudgetMinuteLimits) : calls (RateLimitGrant * option refusal) :=
  let counted := counted_rules rules key_id user_id budget_limits in
  let own := filter (fun rs => shared_per (per rs.1) = false) counted in
  let shared := filter (fun rs => shared_per (per rs.1) = true) counted in
  admit_phases [own; shared] estimated_tokens (new_grant estimated_tokens).

Definition admit_rate_limit_rules (rules : list RateLimitRule) (key_id user_id : option string)
    (estimated_tokens : Z) (budget_limits : option BudgetMinuteLimits)
  : calls (option (RateLimitGrant * option refusal)) :=
  if bool_decide (rules = [])
     && match budget_limits with None => true | Some l => negb (limits_anything l) end
  then Done None
  else do r <~ admit_request rules key_id user_id estimated_tokens budget_limits; Done (Some r).

(** ** Attempts *)

Fixpoint count_model_rules (rules : list RateLimitRule) (subject label : string) (estimated_tokens : Z) (h : Hold)
  : calls (Hold * option refusal) :=
  match rules with
  | [] => Done (h, None)
  | rule :: rest =>
      do r <~ count_rule rule subject label estimated_tokens h;
      unless_refused r (count_model_rules rest subject label estimated_tokens)
  end.

(** [RateLimitGrant.admit_model]: the grant, with the hold's place in it or the refusal raised. *)
Definition admit_model (rules : list RateLimitRule) (instance model : string) (name_model : bool)
    (g : RateLimitGrant) : calls (RateLimitGrant * (refusal + option nat)) :=
  let full := instance +:+ ":" +:+ model in
  let rules := filter (fun r => per r = PerModel /\ full ∈ default [] (models r)) rules in
  if bool_decide (rules = []) then Done (g, inr None)
  else
    let label := if name_model then " for " +:+ full else ""%string in
    do r <~ count_model_rules rules full label (grant_estimated_tokens g) empty_hold;
    match r with
    | (h, Some e) => do _ <~ undo h; Done (g, inl e)
    | (h, None) => Done (add_holds g [h], inr (Some (length (objects g))))
    end.

(** [ModelHold.drop], for the hold at [i] of the grant. *)
Definition drop_hold (sent : bool) (i : nat) (g : RateLimitGrant) : calls RateLimitGrant :=
  let g := set_members g (filter (fun j => j <> i) (members g)) in
  if negb sent then do h <~ undo (hold_at g i); Done (set_hold g i h)
  else
    let h := hold_at g i in
    do _ <~ each (estimates h) (fun '(key, e) => settle_ key e 0);
    do _ <~ each (hold_leases h) (fun '(key, l) => release_ key l);
    Done (set_hold g i (clear_leases (clear_estimates h))).

(** ** The stored rules beside the configured ones
    ([src/src/gateway/services/rate_limits/_overlay.py]) *)

Record rule_config := mkRuleConfig { rate_limits : list RateLimitRule; rate_limit_baseline : option (list RateLimitRule) }.

Definition config_file_rules (c : rule_config) : list RateLimitRule := default (rate_limits c) (rate_limit_baseline c).

Definition apply_stored_rules (c : rule_config) (stored : list RateLimitRule) : rule_config * list string :=
  let baseline := config_file_rules c in
  let taken := name <$> baseline in
  (mkRuleConfig (baseline ++ filter (fun r => name r ∉ taken) stored) (Some baseline),
   name <$> filter (fun r => name r ∈ taken) stored).
