(* ===== verification/RateAdmission.v ===== *)
(** Admission under the rate limits is all or nothing, and what a request holds is given back
    once. *)
From S2P Require Import Prelude Periods RateWindows RateStores RateRules.
From stdpp Require Import gmap strings list pretty.
From Stdlib Require Import ZArith Lia.
Open Scope Z_scope.
Open Scope store_scope.

(** ** Programs on the store that never forgets *)

Section triples.
Context (clock : nat -> Z).

(** Run from [P], a program ends, and ends in [Q]. *)
Definition triple {A} (P : counted -> Prop) (p : calls A) (Q : A -> counted -> Prop) : Prop :=
  forall n c, P c -> exists a n' c', run clock p n c = Some (a, n', c') /\ Q a c'.

Lemma triple_done {A} (P : counted -> Prop) (a : A) (Q : A -> counted -> Prop) :
  (forall c, P c -> Q a c) -> triple P (Done a) Q.
Proof. intros H n c Hc. exists a, n, c. auto. Qed.

Lemma rate_triple_bind {A B} P (p : calls A) (f : A -> calls B) R Q :
  triple P p R -> (forall a, triple (R a) (f a) Q) -> triple P (cbind p f) Q.
Proof.
  intros Hp Hf n c Hc. destruct (Hp n c Hc) as (a & n' & c' & Hrun & Ha). destruct (Hf a n' c' Ha) as (b & n2 & c2 & Hb & HQ).
  exists b, n2, c2. split; [|done]. by rewrite run_cbind, Hrun.
Qed.

Lemma triple_conseq {A} (P P' : counted -> Prop) (p : calls A) (Q Q' : A -> counted -> Prop) :
  triple P' p Q' -> (forall c, P c -> P' c) -> (forall a c, Q' a c -> Q a c) -> triple P p Q.
Proof. intros Hp HP HQ n c Hc. destruct (Hp n c (HP c Hc)) as (a & n' & c' & ? & ?). exists a, n', c'. auto. Qed.

Lemma rate_triple_post {A} (P : counted -> Prop) (p : calls A) (Q Q' : A -> counted -> Prop) :
  triple P p Q' -> (forall a c, Q' a c -> Q a c) -> triple P p Q.
Proof. intros Hp HQ. by eapply triple_conseq. Qed.

Lemma triple_each {A} (xs : list A) f (P : list A -> counted -> Prop) :
  (forall x rest, triple (P (x :: rest)) (f x) (fun _ => P rest)) ->
  triple (P xs) (each xs f) (fun _ => P []).
Proof.
  intros Hf. induction xs as [|x xs IH]; simpl; [by apply triple_done|].
  apply (rate_triple_bind _ _ _ _ _ (Hf x xs)). intros []. exact IH.
Qed.
End triples.

(** ** What was counted since *)

(** The handles and leases a store gave out so far. *)
Record issued (c : counted) : Prop := {
  issued_handles : forall k e, e ∈ entries_of (logged c) k -> (e_handle e < next_handle (logged c))%nat;
  issued_leases : forall k l, is_Some (slots_of c k !! l) -> (l < next_lease c)%nat
}.

Lemma issued_empty : issued empty_counted.
Proof.
  split; intros k; unfold entries_of, slots_of; simpl; rewrite lookup_empty; simpl.
  - by intros e He%elem_of_nil.
  - intros l [x Hx]. by rewrite lookup_empty in Hx.
Qed.

(** [c'] is [c] with the entries [es] and the slots [ls] counted, and entries that cost nothing. *)
Record plus (c : counted) (es ls : list (string * nat)) (c' : counted) : Prop := {
  plus_entries : forall k, exists new, entries_of (logged c') k = entries_of (logged c) k ++ new
    /\ forall e, e ∈ new -> (next_handle (logged c) <= e_handle e)%nat /\ ((k, e_handle e) ∈ es \/ e_cost e = 0);
  plus_es : forall k h, (k, h) ∈ es -> (next_handle (logged c) <= h)%nat;
  plus_handles : (next_handle (logged c) <= next_handle (logged c'))%nat;
  plus_old : forall k l, (l < next_lease c)%nat -> slots_of c' k !! l = slots_of c k !! l;
  plus_new : forall k l, (next_lease c <= l)%nat -> is_Some (slots_of c' k !! l) -> (k, l) ∈ ls;
  plus_ls : forall k l, (k, l) ∈ ls -> (next_lease c <= l)%nat;
  plus_leases : (next_lease c <= next_lease c')%nat;
  plus_issued : issued c';
  plus_base : issued c
}.

Lemma plus_start c : issued c -> plus c [] [] c.
Proof.
  intros Hi. split; try done; try lia.
  - intros k. exists []. rewrite app_nil_r. split; [done|]. by intros e He%elem_of_nil.
  - by intros k h He%elem_of_nil.
  - intros k l Hl Hs. pose proof (issued_leases _ Hi k l Hs). lia.
  - by intros k h He%elem_of_nil.
Qed.

Lemma plus_same c es ls es' ls' c' :
  (forall x, x ∈ es <-> x ∈ es') -> (forall x, x ∈ ls <-> x ∈ ls') -> plus c es ls c' -> plus c es' ls' c'.
Proof.
  intros He Hl [H1 H2 H3 H4 H5 H6 H7 H8 HB]. split; try done.
  - intros k. destruct (H1 k) as (new & Heq & Hnew). exists new. split; [done|]. intros e Hin.
    destruct (Hnew e Hin) as [? [?|?]]; (split; [done|]); [left; by apply He|by right].
  - intros k h Hin. by apply (H2 k), He.
  - intros k l Hll Hs. by apply Hl, H5.
  - intros k l Hin. by apply (H6 k), Hl.
Qed.

(** A hit that was admitted, and one that was not. *)
Lemma plus_hit c es ls c' now key limit w cost :
  plus c es ls c' ->
  let '(a, s) := spec_hit now key limit w cost (logged c') in
  plus c (match handle a with Some h => (key, h) :: es | None => es end) ls (set_logged c' s).
Proof.
  intros [H1 H2 H3 H4 H5 H6 H7 [H8 H9] HB]. unfold spec_hit.
  destruct (spent (logged c') key now w + cost <=? limit); simpl; [|by destruct c'].
  split; try done; simpl; try lia.
  - intros k. rewrite entries_admit. destruct (H1 k) as (new & Heq & Hnew). destruct (decide (k = key)) as [->|Hne].
    + exists (new ++ [mkEntry now (next_handle (logged c')) cost]). rewrite Heq, app_assoc. split; [done|].
      intros e [He| ->%list_elem_of_singleton]%elem_of_app; simpl.
      * destruct (Hnew e He) as [? [?|?]]; (split; [done|]); [left; by right|by right].
      * split; [done|]. left. by left.
    + exists new. split; [done|]. intros e He. destruct (Hnew e He) as [? [?|?]]; (split; [done|]); [left; by right|by right].
  - intros k h [[= -> ->]|Hin]%elem_of_cons; [done|by apply (H2 k)].
  - split; [|done]. intros k e. simpl. rewrite entries_admit. destruct (decide (k = key)) as [->|Hne].
    + intros [He| ->%list_elem_of_singleton]%elem_of_app; simpl; [|lia]. apply H8 in He. lia.
    + intros He%H8. lia.
Qed.

Lemma plus_acquire c es ls c' now key limit lease :
  plus c es ls c' ->
  let '(a, c2) := spec_acquire now key limit lease c' in
  plus c es (match a with Some l => (key, l) :: ls | None => ls end) c2.
Proof.
  intros [H1 H2 H3 H4 H5 H6 H7 [H8 H9] HB]. unfold spec_acquire.
  destruct (limit <=? Z.of_nat (size (taken c' key now))); simpl; [done|].
  assert (Hslots : forall k l, slots_of (mkCounted (logged c')
      (<[key := <[next_lease c' := now + lease]> (slots_of c' key)]> (slots c')) (S (next_lease c'))) k !! l
    = if decide (k = key /\ l = next_lease c') then Some (now + lease) else slots_of c' k !! l).
  { intros k l. unfold slots_of. simpl. destruct (decide (k = key)) as [->|Hne].
    - rewrite lookup_insert_eq. simpl. destruct (decide (l = next_lease c')) as [->|Hne].
      + by rewrite lookup_insert_eq, decide_True.
      + rewrite lookup_insert_ne, decide_False by (intuition congruence). done.
    - rewrite lookup_insert_ne, decide_False by (intuition congruence). done. }
  split; try done; simpl; try lia.
  - intros k l Hl. rewrite Hslots, decide_False by lia. by apply H4.
  - intros k l Hl. rewrite Hslots. destruct (decide _) as [[-> ->]|_]; [by left|]. intros Hs. right. by apply H5.
  - intros k l [[= -> ->]|Hin]%elem_of_cons; [done|by apply (H6 k)].
  - split; [done|]. intros k l. rewrite Hslots. simpl. destruct (decide _) as [[-> ->]|_]; [lia|]. intros Hs%H9. lia.
Qed.

(** Settling to nothing, and giving back, what was counted. *)
Lemma plus_settle c es ls c' key h :
  plus c ((key, h) :: es) ls c' -> plus c es ls (set_logged c' (spec_settle key h 0 (logged c'))).
Proof.
  intros [H1 H2 H3 H4 H5 H6 H7 [H8 H9] HB].
  assert (Hh : (next_handle (logged c) <= h)%nat) by (apply (H2 key); by left).
  split; try done; simpl.
  - intros k. rewrite entries_settle. destruct (H1 k) as (new & Heq & Hnew). destruct (decide (k = key)) as [->|Hne].
    + exists (recost h 0 <$> new). rewrite Heq, fmap_app, recost_absent.
      2: { intros (e & -> & He)%list_elem_of_fmap. apply (issued_handles _ HB) in He. lia. }
      split; [done|]. intros e (e' & -> & He)%list_elem_of_fmap. destruct (Hnew e' He) as [Hb Hin].
      unfold recost. destruct (decide (e_handle e' = h)) as [Heh|Hne]; simpl; [by auto|]. split; [done|].
      destruct Hin as [[[= ?]|?]%elem_of_cons|?]; auto; done.
    + exists new. split; [done|]. intros e He. destruct (Hnew e He) as [? [[[= -> ->]|?]%elem_of_cons|?]]; auto; done.
  - intros k h' Hin. apply (H2 k). by right.
  - split; [|done]. intros k e. simpl. rewrite entries_settle. destruct (decide (k = key)) as [->|Hne]; [|apply H8].
    intros (e' & -> & He)%list_elem_of_fmap. apply H8 in He. unfold recost. by destruct (decide _).
Qed.

Lemma release_slots c key l k i :
  slots_of (spec_release key l c) k !! i = if decide (k = key /\ i = l) then None else slots_of c k !! i.
Proof.
  unfold slots_of, spec_release. cbn [slots]. destruct (decide (k = key)) as [->|Hne].
  - rewrite lookup_alter_eq. destruct (slots c !! key) as [m|]; simpl.
    + destruct (decide (i = l)) as [->|Hne].
      * by rewrite lookup_delete_eq, (decide_True (P := key = key /\ l = l)).
      * rewrite lookup_delete_ne, (decide_False (P := key = key /\ i = l)) by (intuition congruence). done.
    + rewrite lookup_empty. by destruct (decide _).
  - rewrite lookup_alter_ne, (decide_False (P := k = key /\ i = l)) by (intuition congruence). done.
Qed.

Lemma plus_release c es ls c' key l :
  plus c es ((key, l) :: ls) c' -> plus c es ls (spec_release key l c').
Proof.
  intros [H1 H2 H3 H4 H5 H6 H7 [H8 H9] HB].
  assert (Hl : (next_lease c <= l)%nat) by (apply (H6 key); by left).
  pose proof (release_slots c' key l) as Hslots.
  split; try done.
  - intros k i Hi. rewrite Hslots, decide_False by lia. by apply H4.
  - intros k i Hi. rewrite Hslots. destruct (decide _) as [_|Hne]; [by intros [? ?]|].
    intros Hs. apply H5 in Hs as [[= -> ->]|Hin]%elem_of_cons; [tauto|done|done].
  - intros k i Hin. apply (H6 k). by right.
  - split; [done|]. intros k i. rewrite Hslots. destruct (decide _); [by intros [? ?]|apply H9].
Qed.

(** ** Counting one rule *)

Section admission.
Context (clock : nat -> Z).
Local Notation triple := (triple clock).

Lemma triple_and {A} (P : counted -> Prop) (p : calls A) Q1 Q2 :
  triple P p Q1 -> triple P p Q2 -> triple P p (fun a c => Q1 a c /\ Q2 a c).
Proof.
  intros H1 H2 n c Hc. destruct (H1 n c Hc) as (a & n' & c' & Hr & Ha), (H2 n c Hc) as (b & n2 & c2 & Hr' & Hb).
  rewrite Hr in Hr'. injection Hr' as <- <- <-. by exists a, n', c'.
Qed.

(** The hold a program returns lists what it counted. *)
Definition counts (h : Hold) (p : calls (Hold * option refusal)) : Prop :=
  forall c E L, triple (plus c (hold_entries h ++ E) (hold_leases h ++ L)) p
    (fun r => plus c (hold_entries r.1 ++ E) (hold_leases r.1 ++ L)).

Lemma over_lists rule h d t :
  hold_entries (over rule h d t).1 = hold_entries h /\ hold_leases (over rule h d t).1 = hold_leases h
  /\ estimates (over rule h d t).1 = estimates h.
Proof. unfold over. destruct (mode rule); simpl; [done|]. by case_bool_decide. Qed.

Lemma counts_over rule h d t : counts h (Done (over rule h d t)).
Proof. intros c E L. apply triple_done. intros c'. destruct (over_lists rule h d t) as (-> & -> & _). done. Qed.

Lemma counts_unless c E L r f :
  (forall h, counts h (f h)) ->
  triple (plus c (hold_entries r.1 ++ E) (hold_leases r.1 ++ L)) (unless_refused r f)
    (fun r => plus c (hold_entries r.1 ++ E) (hold_leases r.1 ++ L)).
Proof. intros Hf. destruct r as [h [e|]]; simpl; [by apply triple_done|]. apply Hf. Qed.

Lemma counts_hit h key n w cost f :
  (forall a, handle a = None -> counts h (Done (f a))) ->
  (forall a e, handle a = Some e -> exists h', f a = (h', None)
     /\ hold_entries h' = hold_entries h ++ [(key, e)] /\ hold_leases h' = hold_leases h) ->
  counts h (do a <~ hit_ key n w cost; Done (f a)).
Proof.
  intros Hnone Hsome c E L m c' Hc. simpl. pose proof (plus_hit _ _ _ _ (clock m) key n w cost Hc) as Hp.
  destruct (spec_hit _ _ _ _ _ _) as [a s]. simpl. destruct (handle a) as [e|] eqn:Ea.
  - destruct (Hsome a e Ea) as (h' & -> & He & Hl). eexists _, _, _. split; [done|]. simpl. rewrite He, Hl.
    eapply plus_same; [| |exact Hp]; [|done]. intros x. rewrite <- app_assoc. simpl. set_solver.
  - destruct (Hnone a Ea c E L (S m) _ Hp) as (r & n' & c2 & Hrun & HQ). by eexists _, _, _.
Qed.

Lemma counts_rpm rule subject label h : counts h (count_rpm rule subject label h).
Proof.
  unfold count_rpm. destruct (rpm rule) as [n|]; [|intros c E L; by apply triple_done].
  cbv zeta. apply counts_hit; intros a.
  - intros ->. apply counts_over.
  - intros e ->. by eexists.
Qed.

Lemma counts_tpm rule subject label est h : counts h (count_tpm rule subject label est h).
Proof.
  unfold count_tpm. destruct (tpm rule) as [n|]; [|intros c E L; by apply triple_done].
  cbv zeta. destruct (n <? tpm_cost rule est); [apply counts_over|]. apply counts_hit; intros a.
  - intros ->. apply counts_over.
  - intros e ->. by eexists.
Qed.

Lemma counts_concurrent rule subject label h : counts h (count_concurrent rule subject label h).
Proof.
  unfold count_concurrent. destruct (max_concurrent rule) as [n|]; [|intros c E L; by apply triple_done].
  cbv zeta. intros c E L m c' Hc. simpl. set (key := rule_key _ _ _).
  pose proof (plus_acquire _ _ _ _ (clock m) key n (lease_sec rule) Hc) as Hp.
  destruct (spec_acquire _ _ _ _ _) as [[l|] c2]; simpl; eexists _, _, _; (split; [done|]); simpl.
  - eapply plus_same; [| |exact Hp]; [done|]. intros x. rewrite <- app_assoc. simpl. set_solver.
  - destruct (over_lists rule h ("Rate limit '" +:+ name rule +:+ "'" +:+ label +:+ " exceeded: "
        +:+ count_noun n "request" +:+ " in flight") (Some CONCURRENCY_RETRY_AFTER_SEC)) as (He & Hl & _).
    by rewrite He, Hl.
Qed.

Lemma counts_rule rule subject label est h : counts h (count_rule rule subject label est h).
Proof.
  intros c E L. eapply rate_triple_bind; [apply counts_rpm|]. intros r1.
  eapply rate_triple_bind; [apply counts_unless; intros; apply counts_tpm|]. intros r2.
  apply counts_unless. intros. apply counts_concurrent.
Qed.

(** ** Taking it back *)

Lemma undo_triple c E L h :
  triple (plus c (hold_entries h ++ E) (hold_leases h ++ L)) (undo h)
    (fun h' c' => h' = mkHold [] [] [] (reported h) /\ plus c E L c').
Proof.
  unfold undo. eapply rate_triple_bind.
  { apply (triple_each clock (hold_entries h) _ (fun es => plus c (es ++ E) (hold_leases h ++ L))).
    intros [key e] rest n c' Hc. eexists _, _, _. split; [done|]. by apply plus_settle. }
  intros []. eapply rate_triple_bind.
  { apply (triple_each clock (hold_leases h) _ (fun ls => plus c E (ls ++ L))).
    intros [key l] rest n c' Hc. eexists _, _, _. split; [done|]. by apply plus_release. }
  intros []. by apply triple_done.
Qed.

(** What the holds at some places of a grant list. *)
Definition entries_at (g : RateLimitGrant) (ids : list nat) : list (string * nat) :=
  ids ≫= (fun i => hold_entries (hold_at g i)).
Definition leases_at (g : RateLimitGrant) (ids : list nat) : list (string * nat) :=
  ids ≫= (fun i => hold_leases (hold_at g i)).

Lemma hold_at_set g i j h : (i < length (objects g))%nat -> hold_at (set_hold g i h) j = if decide (i = j) then h else hold_at g j.
Proof.
  intros Hi. unfold hold_at, set_hold. simpl. destruct (decide (i = j)) as [<-|Hne].
  - by rewrite list_lookup_insert_eq.
  - by rewrite list_lookup_insert_ne.
Qed.

Lemma bind_set {B} (f : Hold -> list B) g i h ids :
  (i < length (objects g))%nat -> i ∉ ids ->
  (ids ≫= (fun j => f (hold_at (set_hold g i h) j))) = ids ≫= (fun j => f (hold_at g j)).
Proof.
  intros Hi Hn. induction ids as [|j ids IH]; [done|]. apply not_elem_of_cons in Hn as [Hne Hn].
  rewrite !bind_cons, IH by done. f_equal. rewrite hold_at_set, decide_False by done. done.
Qed.

Lemma undo_members_triple c E L ids g :
  NoDup ids -> (forall i, i ∈ ids -> (i < length (objects g))%nat) ->
  triple (plus c (entries_at g ids ++ E) (leases_at g ids ++ L)) (undo_members ids g)
    (fun g' c' => (members g' = members g /\ length (objects g') = length (objects g)) /\ plus c E L c').
Proof.
  revert g. induction ids as [|i ids IH]; intros g Hnd Hin; cbn [undo_members]; [by apply triple_done|].
  apply NoDup_cons in Hnd as [Hi Hnd]. assert (Hlen : (i < length (objects g))%nat) by (apply Hin; by left).
  eapply rate_triple_bind.
  { eapply triple_conseq; [apply (undo_triple c (entries_at g ids ++ E) (leases_at g ids ++ L) (hold_at g i))| |].
    - intros c' Hc. unfold entries_at, leases_at in *. rewrite !bind_cons, <- !app_assoc in Hc. exact Hc.
    - intros h c' H. exact H. }
  intros h. eapply triple_conseq; [apply (IH (set_hold g i h) Hnd)| |].
  - intros j Hj. unfold set_hold. simpl. rewrite length_insert. apply Hin. by right.
  - intros c' [_ Hc]. unfold entries_at, leases_at in *. by rewrite !bind_set.
  - intros g' c' [[Hm Hl] Hc]. split; [|done]. split; [done|]. rewrite Hl. apply length_insert.
Qed.

(** ** Phases *)

Lemma count_all_triple c E L est phase :
  triple (plus c E L) (count_all est phase)
    (fun rs => plus c ((rs.*1 ≫= hold_entries) ++ E) ((rs.*1 ≫= hold_leases) ++ L)).
Proof.
  revert E L. induction phase as [|[rule subject] phase IH]; intros E L; simpl; [by apply triple_done|].
  eapply rate_triple_bind; [apply (counts_rule rule subject "" est empty_hold c E L)|]. intros r.
  eapply rate_triple_bind; [apply IH|]. intros rs. apply triple_done. intros c' Hc.
  eapply plus_same; [| |exact Hc]; intros x; simpl; set_solver.
Qed.

Record grant_wf (g : RateLimitGrant) : Prop := {
  members_bounded : forall i, i ∈ members g -> (i < length (objects g))%nat;
  members_distinct : NoDup (members g)
}.

Lemma grant_wf_new est : grant_wf (new_grant est).
Proof. split; simpl; [by intros i Hi%elem_of_nil|constructor]. Qed.

Lemma grant_wf_add g hs : grant_wf g -> grant_wf (add_holds g hs).
Proof.
  intros [H1 H2]. split; simpl.
  - intros i [Hi|Hi]%elem_of_app; rewrite length_app.
    + apply H1 in Hi. lia.
    + apply elem_of_seq in Hi. lia.
  - apply NoDup_app. split; [done|]. split; [|apply NoDup_seq].
    intros i Hi Hs. apply H1 in Hi. apply elem_of_seq in Hs. lia.
Qed.

Lemma hold_at_add g hs i : (i < length (objects g))%nat -> hold_at (add_holds g hs) i = hold_at g i.
Proof. intros Hi. unfold hold_at, add_holds. simpl. by rewrite lookup_app_l. Qed.

Lemma bind_add {B} (f : Hold -> list B) g hs :
  grant_wf g ->
  (members (add_holds g hs) ≫= (fun i => f (hold_at (add_holds g hs) i)))
  = (members g ≫= (fun i => f (hold_at g i))) ++ (hs ≫= f).
Proof.
  intros [Hb _]. simpl. rewrite bind_app. f_equal.
  - induction (members g) as [|i ids IH]; [done|]. rewrite !bind_cons, hold_at_add by (apply Hb; by left).
    rewrite IH; [done|]. intros j Hj. apply Hb. by right.
  - unfold hold_at, add_holds. simpl. generalize (objects g) as os. induction hs as [|h hs IH]; intros os; [done|].
    simpl. rewrite lookup_app_r, Nat.sub_diag by lia. simpl. f_equal.
    specialize (IH (os ++ [h])). rewrite length_app, <- app_assoc in IH. simpl in IH. rewrite Nat.add_1_r in IH. exact IH.
Qed.

(** Nothing counted but what the grant lists; after a refusal, nothing at all. *)
Definition admitted_or_not (c : counted) (r : RateLimitGrant * option refusal) (c' : counted) : Prop :=
  grant_wf r.1 /\ match r.2 with
  | None => plus c (entries_at r.1 (members r.1)) (leases_at r.1 (members r.1)) c'
  | Some _ => plus c [] [] c'
  end.

Lemma count_phase_triple c g phase est :
  grant_wf g ->
  triple (plus c (entries_at g (members g)) (leases_at g (members g))) (count_phase g phase est)
    (admitted_or_not c).
Proof.
  intros Hg. eapply rate_triple_bind; [apply count_all_triple|]. intros rs. cbv zeta.
  pose proof (grant_wf_add g rs.*1 Hg) as [Hb Hd]. set (g1 := add_holds g rs.*1) in *.
  assert (Hpre : forall c', plus c ((rs.*1 ≫= hold_entries) ++ entries_at g (members g))
                              ((rs.*1 ≫= hold_leases) ++ leases_at g (members g)) c' ->
                 plus c (entries_at g1 (members g1) ++ []) (leases_at g1 (members g1) ++ []) c').
  { intros c' Hc. eapply plus_same; [| |exact Hc]; intros x; unfold entries_at, leases_at, g1;
      rewrite bind_add, app_nil_r by done; set_solver. }
  destruct (first_refusal rs) as [e|].
  - eapply rate_triple_bind.
    + eapply triple_conseq; [apply (undo_members_triple c [] [] (members g1) g1 Hd Hb)|exact Hpre|]. intros g' c' H. exact H.
    + intros g'. apply triple_done. intros c' [[Hm Hl] Hc]. split; [|done]. split; simpl; rewrite Hm; [|done].
      intros i Hi. rewrite Hl. by apply Hb.
  - apply triple_done. intros c' Hc. split; [done|]. simpl. apply Hpre in Hc. by rewrite !app_nil_r in Hc.
Qed.

Lemma admit_phases_triple c phases est g :
  grant_wf g ->
  triple (plus c (entries_at g (members g)) (leases_at g (members g))) (admit_phases phases est g)
    (admitted_or_not c).
Proof.
  revert g. induction phases as [|phase phases IH]; intros g Hg; cbn [admit_phases foldr].
  { apply triple_done. intros c' Hc. by split. }
  destruct (bool_decide (phase = [])); [by apply IH|].
  eapply rate_triple_bind; [by apply count_phase_triple|]. intros [g' [e|]]; [by apply triple_done|].
  intros n c' [Hg' Hc]. by apply (IH g' Hg' n c').
Qed.

Lemma admit_triple c rules key_id user_id est bl :
  issued c -> triple (fun c' => c' = c) (admit_request rules key_id user_id est bl) (admitted_or_not c).
Proof.
  intros Hi. unfold admit_request. eapply triple_conseq; [apply (admit_phases_triple c), grant_wf_new| |].
  - intros c' ->. by apply plus_start.
  - intros r c' H. exact H.
Qed.

(** ** What an admitted request holds *)

(** An enforced rule was counted on each limit it sets. *)
Definition covered (rule : RateLimitRule) (subject : string) (h : Hold) : Prop :=
  mode rule = Enforce ->
  (is_Some (rpm rule) -> exists e, (rule_key rule subject ":rpm", e) ∈ hold_entries h)
  /\ (is_Some (tpm rule) -> exists e, (rule_key rule subject ":tpm", e) ∈ hold_entries h
                              /\ (rule_key rule subject ":tpm", e) ∈ estimates h)
  /\ (is_Some (max_concurrent rule) -> exists l, (rule_key rule subject ":concurrent", l) ∈ hold_leases h).

Record grows (h h' : Hold) : Prop := {
  grows_entries : hold_entries h ⊆ hold_entries h';
  grows_estimates : estimates h ⊆ estimates h';
  grows_leases : hold_leases h ⊆ hold_leases h'
}.

#[export] Instance grows_preorder : PreOrder grows.
Proof. split; [intros h; by split|]. intros h1 h2 h3 [] []. split; etrans; done. Qed.

Lemma over_grows rule h d t : grows h (over rule h d t).1.
Proof. destruct (over_lists rule h d t) as (H1 & H2 & H3). split; by rewrite ?H1, ?H2, ?H3. Qed.

Lemma over_refuses rule h d t : mode rule = Enforce -> (over rule h d t).2 <> None.
Proof. unfold over. by intros ->. Qed.

(** Where nothing refused, the hold grew and [R] holds of it. *)
Definition leaves (h : Hold) (R : Hold -> Prop) (r : Hold * option refusal) (_ : counted) : Prop :=
  r.2 = None -> grows h r.1 /\ R r.1.

Lemma leaves_hit (rule : RateLimitRule) h key n w cost d (f : nat -> Hold) (R : Hold -> Prop) :
  (forall e, grows h (f e) /\ (mode rule = Enforce -> R (f e))) ->
  triple (fun _ => True)
    (do a <~ hit_ key n w cost;
     Done match handle a with
          | None => over rule h d (Some (RateWindows.reset_after a))
          | Some e => (f e, None)
          end) (leaves h (fun h' => mode rule = Enforce -> R h')).
Proof.
  intros Hf m c _. simpl. destruct (spec_hit _ _ _ _ _ _) as [a s]. simpl. eexists _, _, _. split; [done|].
  destruct (handle a) as [e|]; intros Hr; simpl in *; [apply Hf|].
  split; [apply over_grows|]. intros Hm. by apply over_refuses in Hr.
Qed.

Lemma leaves_rpm rule subject label h :
  triple (fun _ => True) (count_rpm rule subject label h)
    (leaves h (fun h' => mode rule = Enforce -> is_Some (rpm rule) ->
                 exists e, (rule_key rule subject ":rpm", e) ∈ hold_entries h')).
Proof.
  unfold count_rpm. destruct (rpm rule) as [n|]; cbv zeta.
  - apply leaves_hit. intros e. split; [split; simpl; set_solver|]. intros _ _. exists e. simpl. set_solver.
  - apply triple_done. intros c _ _. split; [done|]. by intros _ [? ?].
Qed.

Lemma leaves_tpm rule subject label est h :
  triple (fun _ => True) (count_tpm rule subject label est h)
    (leaves h (fun h' => mode rule = Enforce -> is_Some (tpm rule) ->
                 exists e, (rule_key rule subject ":tpm", e) ∈ hold_entries h'
                   /\ (rule_key rule subject ":tpm", e) ∈ estimates h')).
Proof.
  unfold count_tpm. destruct (tpm rule) as [n|]; cbv zeta.
  - destruct (n <? tpm_cost rule est).
    + apply triple_done. intros c _ Hr. split; [apply over_grows|]. intros Hm. by apply over_refuses in Hr.
    + apply leaves_hit. intros e. split; [split; simpl; set_solver|]. intros _ _. exists e. simpl. set_solver.
  - apply triple_done. intros c _ _. split; [done|]. by intros _ [? ?].
Qed.

Lemma leaves_concurrent rule subject label h :
  triple (fun _ => True) (count_concurrent rule subject label h)
    (leaves h (fun h' => mode rule = Enforce -> is_Some (max_concurrent rule) ->
                 exists l, (rule_key rule subject ":concurrent", l) ∈ hold_leases h')).
Proof.
  unfold count_concurrent. destruct (max_concurrent rule) as [n|]; cbv zeta.
  - intros m c _. simpl. destruct (spec_acquire _ _ _ _ _) as [[l|] c2]; simpl; eexists _, _, _; (split; [done|]).
    + intros _. simpl. split; [split; simpl; set_solver|]. intros _ _. exists l. set_solver.
    + intros Hr. split; [apply over_grows|]. intros Hm. by apply over_refuses in Hr.
  - apply triple_done. intros c _ _. split; [done|]. by intros _ [? ?].
Qed.

Lemma leaves_unless h r f (R1 R2 : Hold -> Prop) :
  (forall h1 h2, grows h1 h2 -> R1 h1 -> R1 h2) ->
  (forall h1, triple (fun _ => True) (f h1) (leaves h1 R2)) ->
  triple (leaves h R1 r) (unless_refused r f) (leaves h (fun h' => R1 h' /\ R2 h')).
Proof.
  intros Hmono Hf. destruct r as [h1 [e|]]; [by apply triple_done|]. intros n c Hr. destruct (Hr eq_refl) as [Hg H1].
  destruct (Hf h1 n c I) as (r & n' & c' & Hrun & Hl). exists r, n', c'. split; [done|]. intros Hn.
  destruct (Hl Hn) as [Hg' H2]. split; [by etrans|]. split; [|done]. by eapply Hmono.
Qed.

Lemma count_rule_covers rule subject label est h :
  triple (fun _ => True) (count_rule rule subject label est h) (leaves h (covered rule subject)).
Proof.
  unfold count_rule. eapply rate_triple_bind; [apply leaves_rpm|]. intros r1. eapply rate_triple_bind.
  { apply leaves_unless; [|intros; apply leaves_tpm].
    intros h1 h2 [Hg _ _] H Hm Hs. destruct (H Hm Hs) as [e He]. exists e. by apply Hg. }
  intros r2. eapply rate_triple_post; [eapply leaves_unless; [|intros; apply leaves_concurrent]|].
  - intros h1 h2 [Hg Hg2 _] [H H2]. split; [intros Hm Hs; destruct (H Hm Hs) as [e He]; exists e; by apply Hg|].
    intros Hm Hs. destruct (H2 Hm Hs) as (e & He & He2). exists e. split; [by apply Hg|by apply Hg2].
  - intros r c H Hn. destruct (H Hn) as [Hg [[H1 H2] H3]]. split; [done|]. intros Hm. split; [by apply H1|].
    split; [by apply H2|by apply H3].
Qed.

Definition holds_of (g : RateLimitGrant) : list Hold := hold_at g <$> members g.

Lemma bind_singleton {A B} (f : A -> B) (l : list A) : (l ≫= (fun x => [f x])) = f <$> l.
Proof. induction l as [|x l IH]; [done|]. by rewrite bind_cons, IH. Qed.

Lemma holds_of_add g hs : grant_wf g -> holds_of (add_holds g hs) = holds_of g ++ hs.
Proof.
  intros Hg. unfold holds_of. rewrite <- !bind_singleton.
  rewrite (bind_add (fun h => [h]) g hs Hg), (bind_singleton (fun h => h)). f_equal. apply list_fmap_id.
Qed.

Definition covers_all (phase : list (RateLimitRule * string)) (hs : list Hold) : Prop :=
  Forall2 (fun rs h => covered rs.1 rs.2 h) phase hs.

Lemma count_all_covers est phase :
  triple (fun _ => True) (count_all est phase) (fun rs _ => first_refusal rs = None -> covers_all phase rs.*1).
Proof.
  induction phase as [|[rule subject] phase IH]; simpl; [by apply triple_done; constructor|].
  eapply rate_triple_bind; [apply count_rule_covers|]. intros r n c Hr.
  destruct (IH n c I) as (rs & n' & c' & Hrun & Hrs). exists (r :: rs), n', c'. rewrite run_cbind, Hrun. split; [done|].
  unfold first_refusal in *. simpl. destruct r as [h [e|]]; simpl; [done|]. intros Hn. constructor; [|by apply Hrs].
  by apply Hr.
Qed.

(** A program that ends from any state. *)
Definition ends {A} (p : calls A) : Prop := triple (fun _ => True) p (fun _ _ => True).

Lemma ends_all {A} (p : calls A) : ends p.
Proof.
  induction p as [a|key limit w cost k IH|key h cost k IH|key limit lease k IH|key lease k IH]; intros n c _; simpl.
  - by exists a, n, c.
  - destruct (spec_hit _ _ _ _ _ _). simpl. by apply IH.
  - by apply IH.
  - destruct (spec_acquire _ _ _ _ _). simpl. by apply IH.
  - by apply IH.
Qed.

Lemma count_phase_covers g phase est :
  triple (fun _ => True) (count_phase g phase est)
    (fun r _ => r.2 = None -> exists hs, r.1 = add_holds g hs /\ covers_all phase hs).
Proof.
  eapply rate_triple_bind; [apply count_all_covers|]. intros rs. cbv zeta. destruct (first_refusal rs) as [e|] eqn:E.
  - eapply rate_triple_bind; [eapply triple_conseq; [apply ends_all|done..]|]. intros g'. by apply triple_done.
  - apply triple_done. intros c Hc _. exists rs.*1. auto.
Qed.

Lemma admit_phases_covers phases est g :
  grant_wf g ->
  triple (fun _ => True) (admit_phases phases est g)
    (fun r _ => r.2 = None -> exists hs, holds_of r.1 = holds_of g ++ hs /\ covers_all (concat phases) hs).
Proof.
  revert g. induction phases as [|phase phases IH]; intros g Hg; cbn [admit_phases foldr concat].
  { apply triple_done. intros c _ _. exists []. rewrite app_nil_r. split; [done|constructor]. }
  case_bool_decide as Hp; [subst phase; by apply IH|].
  eapply rate_triple_bind; [apply count_phase_covers|]. intros [g1 [e|]]; [by apply triple_done|].
  intros n c Hc. destruct (Hc eq_refl) as (hs & Heq & Hcov). simpl in Heq. subst g1.
  destruct (IH (add_holds g hs) (grant_wf_add g hs Hg) n c I) as (r & n' & c' & Hrun & Hr).
  exists r, n', c'. split; [exact Hrun|]. intros Hn. destruct (Hr Hn) as (hs' & Heq & Hcov').
  exists (hs ++ hs'). rewrite Heq, holds_of_add, app_assoc by done. split; [done|]. by apply Forall2_app.
Qed.

(** Where every rule only reports, nothing is refused. *)
Lemma count_reporting_accepts rule subject label est h :
  mode rule = Report -> triple (fun _ => True) (count_rule rule subject label est h) (fun r _ => r.2 = None).
Proof.
  intros Hm.
  assert (Hover : forall h d t, (over rule h d t).2 = None) by (intros; unfold over; by rewrite Hm).
  assert (Hun : forall r f, (forall h, triple (fun _ => True) (f h) (fun r _ => r.2 = None)) ->
    triple (fun _ => r.2 = None) (unless_refused r f) (fun r _ => r.2 = None)).
  { intros [h1 [e|]] f Hf n c Hn; simpl in *; [done|]. by apply Hf. }
  unfold count_rule. eapply rate_triple_bind; [|intros r1; eapply rate_triple_bind; [apply Hun; intros h1|intros r2; apply Hun; intros h2]].
  - unfold count_rpm. destruct (rpm rule); [|by apply triple_done]. intros m c _. simpl.
    destruct (spec_hit _ _ _ _ _ _) as [a s]. eexists _, _, _. split; [done|]. destruct (handle a); [done|apply Hover].
  - unfold count_tpm. destruct (tpm rule); [|by apply triple_done]. cbv zeta.
    destruct (_ <? _); [by apply triple_done; intros; apply Hover|]. intros m c _. simpl.
    destruct (spec_hit _ _ _ _ _ _) as [a s]. eexists _, _, _. split; [done|]. destruct (handle a); [done|apply Hover].
  - unfold count_concurrent. destruct (max_concurrent rule); [|by apply triple_done]. intros m c _. simpl.
    destruct (spec_acquire _ _ _ _ _) as [a s]. eexists _, _, _. split; [done|]. destruct a; [done|apply Hover].
Qed.

Lemma admit_phases_reporting phases est g :
  Forall (fun rs => mode rs.1 = Report) (concat phases) ->
  triple (fun _ => True) (admit_phases phases est g) (fun r _ => r.2 = None).
Proof.
  assert (Hall : forall phase, Forall (fun rs => mode rs.1 = Report) phase ->
    triple (fun _ => True) (count_all est phase) (fun rs _ => first_refusal rs = None)).
  { induction phase as [|[rule subject] phase IH]; intros Hp; simpl; [by apply triple_done|].
    inversion_clear Hp as [|? ? Hm Hp']. eapply rate_triple_bind; [by apply count_reporting_accepts|].
    intros [h o] n c Ho. simpl in Ho. subst o. destruct (IH Hp' n c I) as (rs & n' & c' & Hrun & Hrs).
    exists ((h, None) :: rs), n', c'. rewrite run_cbind, Hrun. split; [done|exact Hrs]. }
  revert g. induction phases as [|phase phases IH]; intros g Hp; cbn [admit_phases foldr concat] in *; [by apply triple_done|].
  apply Forall_app in Hp as [Hp Hps]. destruct (bool_decide _); [by apply IH|].
  apply (rate_triple_bind clock _ _ _ (fun (r : RateLimitGrant * option refusal) _ => r.2 = None)).
  { eapply rate_triple_bind; [by apply Hall|]. intros rs n c Hrs. cbv zeta. rewrite Hrs.
    exists (add_holds g rs.*1, None), n, c. done. }
  intros [g' o] n c Ho. simpl in Ho. subst o. by apply IH.
Qed.

(** ** Windows *)

Local Notation on_rule_windows := (on_windows (fun _ => RULE_WINDOW_SEC)).

Lemma count_rule_windows rule subject label est h : on_rule_windows (count_rule rule subject label est h).
Proof.
  assert (Hun : forall r f, (forall h, on_rule_windows (f h)) -> on_rule_windows (unless_refused r f)).
  { intros [h1 [e|]] f Hf; simpl; [constructor|apply Hf]. }
  unfold count_rule. apply every_bind; [|intros; apply every_bind; [apply Hun|intros; apply Hun]]; intros.
  - unfold count_rpm. destruct (rpm rule); repeat constructor.
  - unfold count_tpm. destruct (tpm rule); [|constructor]. cbv zeta. destruct (_ <? _); repeat constructor.
  - unfold count_concurrent. destruct (max_concurrent rule); repeat constructor.
Qed.

Lemma undo_windows W h : on_windows W (undo h).
Proof.
  unfold undo. apply every_bind; [apply every_each; intros [? ?]; repeat constructor|]. intros _.
  apply every_bind; [apply every_each; intros [? ?]; repeat constructor|]. constructor.
Qed.

Lemma undo_members_windows W ids g : on_windows W (undo_members ids g).
Proof.
  revert g. induction ids as [|i ids IH]; intros g; simpl; [constructor|].
  apply every_bind; [apply undo_windows|]. intros h. apply IH.
Qed.

Lemma admit_windows rules key_id user_id est bl : on_rule_windows (admit_request rules key_id user_id est bl).
Proof.
  unfold admit_request. generalize (new_grant est). match goal with |- context [admit_phases ?ps] => generalize ps end.
  intros phases. induction phases as [|phase phases IH]; intros g; cbn [admit_phases foldr]; [constructor|].
  destruct (bool_decide _); [apply IH|]. apply every_bind; [|intros [g' [e|]]; [constructor|apply IH]].
  unfold count_phase. apply every_bind.
  - clear IH. induction phase as [|[rule subject] phase IH]; simpl; [constructor|].
    apply every_bind; [apply count_rule_windows|]. intros r. apply every_bind; [apply IH|]. constructor.
  - intros rs. cbv zeta. destruct (first_refusal rs); [|constructor].
    apply every_bind; [apply undo_members_windows|]. constructor.
Qed.

End admission.

(** ** Nothing counted *)

Lemma cost_of_free es : (forall e, e ∈ es -> e_cost e = 0) -> cost_of es = 0.
Proof.
  induction es as [|e es IH]; intros H; [done|]. unfold cost_of in *. rewrite sumZ_cons, IH, H; [done|by left|].
  intros x Hx. apply H. by right.
Qed.

Lemma plus_nothing_spent c c' key now w : plus c [] [] c' -> spent (logged c') key now w = spent (logged c) key now w.
Proof.
  intros Hp. destruct (plus_entries _ _ _ _ Hp key) as (new & Heq & Hnew). unfold spent. rewrite Heq, live_app.
  unfold cost_of. rewrite sumZ_app. fold (cost_of (live now w new)). rewrite (cost_of_free (live now w new)); [lia|].
  intros e He. apply list_elem_of_filter in He as [_ He]. destruct (Hnew e He) as [_ [Hin|?]]; [|done].
  by apply elem_of_nil in Hin.
Qed.

Lemma plus_nothing_taken c c' key : plus c [] [] c' -> slots_of c' key = slots_of c key.
Proof.
  intros Hp. apply map_eq. intros l. destruct (decide (l < next_lease c)%nat) as [Hl|Hl]; [by apply (plus_old _ _ _ _ Hp)|].
  assert (H1 : slots_of c key !! l = None).
  { apply eq_None_not_Some. intros Hs. apply (issued_leases _ (plus_base _ _ _ _ Hp)) in Hs. lia. }
  rewrite H1. apply eq_None_not_Some. intros Hs. apply (plus_new _ _ _ _ Hp) in Hs; [|lia]. by apply elem_of_nil in Hs.
Qed.

(** Every store a program reaches gave out what it recorded. *)
Lemma run_issued {A} clock (p : calls A) n c a n' c' : issued c -> run clock p n c = Some (a, n', c') -> issued c'.
Proof.
  revert n c. induction p as [x|key limit w cost k IH|key h cost k IH|key limit lease k IH|key lease k IH];
    intros n c Hi; simpl.
  - by intros [= <- <- <-].
  - pose proof (plus_hit c [] [] c (clock n) key limit w cost (plus_start c Hi)) as Hp.
    destruct (spec_hit _ _ _ _ _ _) as [x s]. simpl. apply IH. exact (plus_issued _ _ _ _ Hp).
  - apply IH. destruct Hi as [H1 H2]. split; [|done]. intros k' e. simpl. rewrite entries_settle.
    destruct (decide (k' = key)) as [->|Hne]; [|apply H1]. intros (e' & -> & He)%list_elem_of_fmap.
    apply H1 in He. unfold recost. by destruct (decide _).
  - pose proof (plus_acquire c [] [] c (clock n) key limit lease (plus_start c Hi)) as Hp.
    destruct (spec_acquire _ _ _ _ _) as [x c2]. simpl. apply IH. exact (plus_issued _ _ _ _ Hp).
  - apply IH. destruct Hi as [H1 H2]. split; [done|]. intros k' l Hs. apply (H2 k'). revert Hs.
    unfold slots_of, spec_release. simpl. destruct (decide (k' = key)) as [->|Hne]; [|by rewrite lookup_alter_ne].
    rewrite lookup_alter_eq. destruct (slots c !! key); simpl; [|done]. intros [x Hx]. apply lookup_delete_Some in Hx as [_ Hx]. by exists x.
Qed.

(** ** Closing a grant *)

Definition settle_all (tokens : Z) (es : list (string * nat)) (c : counted) : counted :=
  foldl (fun c ke => set_logged c (spec_settle ke.1 ke.2 tokens (logged c))) c es.
Definition release_all (ls : list (string * nat)) (c : counted) : counted :=
  foldl (fun c kl => spec_release kl.1 kl.2 c) c ls.

Lemma run_settle_all clock tokens es n c :
  run clock (each es (fun '(key, e) => settle_ key e tokens)) n c = Some (tt, n, settle_all tokens es c).
Proof. revert c. induction es as [|[key e] es IH]; intros c; simpl; [done|apply IH]. Qed.

Lemma run_release_all clock ls n c :
  run clock (each ls (fun '(key, l) => release_ key l)) n c = Some (tt, n, release_all ls c).
Proof. revert c. induction ls as [|[key l] ls IH]; intros c; simpl; [done|apply IH]. Qed.

Lemma release_all_slots ls c key l :
  slots_of (release_all ls c) key !! l = if decide ((key, l) ∈ ls) then None else slots_of c key !! l.
Proof.
  revert c. induction ls as [|[k i] ls IH]; intros c; unfold release_all; cbn [foldl fst snd].
  { by rewrite decide_False by apply not_elem_of_nil. }
  fold (release_all ls (spec_release k i c)). rewrite IH. destruct (decide ((key, l) ∈ ls)) as [Hin|Hin]; [by rewrite decide_True by (by right)|].
  rewrite release_slots. destruct (decide (key = k /\ l = i)) as [[-> ->]|Hne]; [by rewrite decide_True by (by left)|].
  rewrite decide_False; [done|]. intros [[= -> ->]|?]%elem_of_cons; tauto.
Qed.

Lemma release_all_logged ls c : logged (release_all ls c) = logged c.
Proof. revert c. induction ls as [|kl ls IH]; intros c; simpl; [done|]. by rewrite IH. Qed.

Lemma settle_all_slots tokens es c key : slots_of (settle_all tokens es c) key = slots_of c key.
Proof. revert c. induction es as [|ke es IH]; intros c; simpl; [done|]. by rewrite IH. Qed.

(** What settling leaves of each entry. *)
Definition settled_entry (tokens : Z) (es : list (string * nat)) (key : string) (e : entry) : entry :=
  if decide ((key, e_handle e) ∈ es) then mkEntry (e_time e) (e_handle e) tokens else e.

Lemma settle_all_entries tokens es c key :
  entries_of (logged (settle_all tokens es c)) key = settled_entry tokens es key <$> entries_of (logged c) key.
Proof.
  revert c. induction es as [|[k h] es IH]; intros c; unfold settle_all; cbn [foldl fst snd].
  { rewrite <- (list_fmap_id (entries_of (logged c) key)) at 1. apply list_fmap_ext. intros i e _.
    unfold settled_entry. by rewrite decide_False by apply not_elem_of_nil. }
  fold (settle_all tokens es (set_logged c (spec_settle k h tokens (logged c)))). rewrite IH. simpl. rewrite entries_settle. destruct (decide (key = k)) as [->|Hne].
  - rewrite <- list_fmap_compose. apply list_fmap_ext. intros i e _. simpl. unfold settled_entry, recost.
    destruct (decide (e_handle e = h)) as [<-|Hh]; simpl.
    + rewrite (decide_True (P := (k, e_handle e) ∈ (k, e_handle e) :: es)) by (by left). by destruct (decide _).
    + destruct (decide ((k, e_handle e) ∈ es)); [by rewrite decide_True by (by right)|].
      rewrite decide_False; [done|]. intros [[= ?]|?]%elem_of_cons; tauto.
  - apply list_fmap_ext. intros i e _. unfold settled_entry.
    destruct (decide ((key, e_handle e) ∈ es)); [by rewrite decide_True by (by right)|].
    rewrite decide_False; [done|]. intros [[= ? ?]|?]%elem_of_cons; tauto.
Qed.

Lemma map_members_spec (f : Hold -> Hold) g :
  grant_wf g -> (forall h, f (f h) = f h) ->
  members (map_members f g) = members g /\ handed_over (map_members f g) = handed_over g
  /\ (forall i, i ∈ members g -> hold_at (map_members f g) i = f (hold_at g i)).
Proof.
  intros [Hb Hd] Hf. unfold map_members.
  assert (H : forall ids g0, (forall i, i ∈ ids -> (i < length (objects g0))%nat) ->
    let g' := foldl (fun g i => set_hold g i (f (hold_at g i))) g0 ids in
    members g' = members g0 /\ handed_over g' = handed_over g0 /\
    forall i, hold_at g' i = if decide (i ∈ ids) then f (hold_at g0 i) else hold_at g0 i).
  { induction ids as [|j ids IH]; intros g0 Hin; cbn [foldl].
    { split; [done|]. split; [done|]. intros i. by rewrite decide_False by apply not_elem_of_nil. }
    destruct (IH (set_hold g0 j (f (hold_at g0 j)))) as (-> & -> & Hh).
    { intros i Hi. unfold set_hold. simpl. rewrite length_insert. apply Hin. by right. }
    split; [done|]. split; [done|]. intros i. rewrite Hh, hold_at_set by (apply Hin; by left).
    destruct (decide (i ∈ ids)) as [Hi|Hi]; [rewrite (decide_True (P := i ∈ j :: ids)) by (by right)|].
    - destruct (decide (j = i)) as [<-|]; [apply Hf|done].
    - destruct (decide (j = i)) as [<-|Hne]; [by rewrite decide_True by (by left)|].
      rewrite decide_False; [done|]. intros [->|?]%elem_of_cons; tauto. }
  destruct (H (members g) g Hb) as (H1 & H2 & H3). split; [done|]. split; [done|]. intros i Hi. by rewrite H3, decide_True.
Qed.

(** What the holds of a grant list. *)
Definition listed {B} (f : Hold -> list B) (g : RateLimitGrant) : list B := members g ≫= (fun i => f (hold_at g i)).

Lemma listed_map {B} (f : Hold -> list B) (k : Hold -> Hold) g :
  grant_wf g -> (forall h, k (k h) = k h) -> listed f (map_members k g) = members g ≫= (fun i => f (k (hold_at g i))).
Proof.
  intros Hg Hk. destruct (map_members_spec k g Hg Hk) as (Hm & _ & Hh). unfold listed. rewrite Hm.
  clear Hm. induction (members g) as [|i ids IH]; [done|]. rewrite !bind_cons, Hh by (by left).
  rewrite IH; [done|]. intros j Hj. apply Hh. by right.
Qed.

Lemma bind_nothing {A B} (l : list A) : (l ≫= (fun _ => @nil B)) = [].
Proof. by induction l. Qed.

Lemma grant_wf_map k g : grant_wf g -> (forall h, k (k h) = k h) -> grant_wf (map_members k g).
Proof.
  intros Hg Hk. destruct (map_members_spec k g Hg Hk) as (Hm & _ & _). destruct Hg as [Hb Hd].
  split; rewrite Hm; [|done]. intros i Hi.
  assert (Hlen : forall ids g0, length (objects (foldl (fun g i => set_hold g i (k (hold_at g i))) g0 ids)) = length (objects g0)).
  { induction ids as [|j ids IH]; intros g0; simpl; [done|]. rewrite IH. unfold set_hold. simpl. apply length_insert. }
  unfold map_members. rewrite Hlen. by apply Hb.
Qed.

Lemma run_grant_settle clock tokens g n c :
  run clock (grant_settle tokens g) n c
  = Some (map_members clear_estimates g, n, settle_all (Z.max tokens 0) (listed estimates g) c).
Proof. unfold grant_settle. cbv zeta. by rewrite run_cbind, run_settle_all. Qed.

Lemma run_grant_release clock g n c :
  run clock (grant_release g) n c = Some (map_members clear_leases g, n, release_all (listed hold_leases g) c).
Proof. unfold grant_release. cbv zeta. by rewrite run_cbind, run_release_all. Qed.

(** What [close_grant] leaves of a grant. *)
Definition closed (g : RateLimitGrant) : RateLimitGrant :=
  map_members clear_leases (if handed_over g then g else map_members clear_estimates g).

Lemma run_close clock g n c :
  grant_wf g ->
  run clock (close_grant g) n c
  = Some (closed g, n, release_all (listed hold_leases g)
            (if handed_over g then c else settle_all 0 (listed estimates g) c)).
Proof.
  intros Hg. unfold close_grant, closed. rewrite run_cbind. destruct (handed_over g).
  - simpl. apply run_grant_release.
  - rewrite run_grant_settle. simpl. rewrite run_grant_release. do 3 f_equal.
    rewrite listed_map by done. done.
Qed.

Lemma closed_holds_nothing g :
  grant_wf g -> handed_over (closed g) = handed_over g /\ grant_wf (closed g) /\ listed hold_leases (closed g) = []
    /\ (handed_over g = false -> listed estimates (closed g) = []).
Proof.
  intros Hg. unfold closed. destruct (handed_over g) eqn:Hh.
  - destruct (map_members_spec clear_leases g Hg (fun h => eq_refl)) as (_ & -> & _).
    split; [done|]. split; [by apply grant_wf_map|]. split; [|done]. rewrite listed_map by done. apply bind_nothing.
  - assert (Hg' := grant_wf_map clear_estimates g Hg (fun h => eq_refl)).
    destruct (map_members_spec clear_leases _ Hg' (fun h => eq_refl)) as (_ & -> & _).
    destruct (map_members_spec clear_estimates g Hg (fun h => eq_refl)) as (_ & -> & _).
    split; [done|]. split; [by apply grant_wf_map|]. split; [rewrite listed_map by done; apply bind_nothing|]. intros _.
    rewrite listed_map by done. simpl. change (listed estimates (map_members clear_estimates g) = []).
    rewrite listed_map by done. apply bind_nothing.
Qed.

(** ** Properties *)

Definition own_rules (rules : list (RateLimitRule * string)) : list (RateLimitRule * string) :=
  filter (fun rs => shared_per (per rs.1) = false) rules.
Definition shared_rules (rules : list (RateLimitRule * string)) : list (RateLimitRule * string) :=
  filter (fun rs => shared_per (per rs.1) = true) rules.

Definition rule_windows (_ : string) : Z := RULE_WINDOW_SEC.

(** What a key's window holds, as a look at time [t] finds it. *)
Definition count_now (st : InMemoryRateLimitStore) (key : string) (t : Z) : option Z :=
  '(w, _) ← peek t key RULE_WINDOW_SEC (log st); Some (count w).

(** C13: whatever the store counted before, an admission ends; refused, no window of any key counts
    more than it did and no slot is taken, now or at any later time; admitted, the grant lists
    for every enforced rule that applies, own rules before shared ones, the entry, the
    estimate and the slot of each limit the rule sets. *)
Theorem admission_all_or_nothing {A} (clock : nat -> Z) (before : calls A) rules key_id user_id est limits a n st :
  (forall n, clock n <= clock (S n)) -> on_windows rule_windows before ->
  run clock before 0 empty_store = Some (a, n, st) ->
  let counted := counted_rules rules key_id user_id limits in
  exists g r n' st', run clock (admit_request rules key_id user_id est limits) n st = Some ((g, r), n', st')
    /\ match r with
       | Some _ => forall key t, clock n' <= t ->
           count_now st' key t = count_now st key t /\ is_Some (count_now st key t)
           /\ held_after t (default ∅ (leases st' !! key)) = held_after t (default ∅ (leases st !! key))
       | None => covers_all (own_rules counted ++ shared_rules counted) (holds_of g)
       end.
Proof.
  intros Hm Hb Hrun counted.
  assert (HW : forall k, 0 < rule_windows k) by (intros k; unfold rule_windows, RULE_WINDOW_SEC, SECOND; lia).
  destruct (run_implements rule_windows HW clock Hm before 0 (clock 0%nat) empty_store empty_counted Hb ltac:(lia)
              (implements_empty rule_windows _)) as (a' & n0 & st0 & c & last & H1 & H2 & Hn & Hi).
  rewrite Hrun in H1. injection H1 as <- <- <-.
  assert (Hc : issued c) by (eapply run_issued; [apply issued_empty|exact H2]).
  destruct (run_implements rule_windows HW clock Hm (admit_request rules key_id user_id est limits) n last st c
              (admit_windows rules key_id user_id est limits) Hn Hi) as ([g r] & n' & st' & c' & last' & H3 & H4 & Hn' & Hi').
  exists g, r, n', st'. split; [done|]. destruct r as [e|].
  - destruct (admit_triple clock c rules key_id user_id est limits Hc n c eq_refl) as (x & n2 & c2 & Hx & Hp).
    rewrite H4 in Hx. injection Hx as <- <- <-. destruct Hp as [_ Hp]. simpl in Hp. intros key t Ht.
    assert (Hlook : forall last st c, last <= t -> implements rule_windows last st c ->
      count_now st key t = Some (spent (logged c) key t RULE_WINDOW_SEC)).
    { intros last0 st1 c1 Hl [Hs _ _]. unfold count_now.
      destruct (peek_shows rule_windows last0 t key _ _ Hs Hl) as (l' & Hpk & _).
      change (rule_windows key) with RULE_WINDOW_SEC in Hpk. by rewrite Hpk. }
    pose proof (run_later clock _ _ _ _ _ _ Hm H4) as Hle.
    rewrite (Hlook last' st' c'), (Hlook last st c) by (lia || done). rewrite (plus_nothing_spent c c') by done.
    split; [done|]. split; [done|].
    destruct (implements_later _ last' t st' c' ltac:(lia) Hi') as [_ _ ->].
    destruct (implements_later _ last t st c ltac:(lia) Hi) as [_ _ ->].
    unfold taken. by rewrite (plus_nothing_taken c c').
  - destruct (admit_phases_covers clock [own_rules counted; shared_rules counted] est (new_grant est)
                (grant_wf_new est) n c I) as (x & n2 & c2 & Hx & Hp).
    change (admit_phases [own_rules counted; shared_rules counted] est (new_grant est))
      with (admit_request rules key_id user_id est limits) in Hx.
    rewrite H4 in Hx. injection Hx as <- <- <-. destruct (Hp eq_refl) as (hs & Heq & Hcov). simpl in Heq, Hcov.
    rewrite Heq. by rewrite app_nil_r in Hcov.
Qed.

(** Two requests per minute for a user, and one in flight for the deployment. *)
Definition two_rules : list RateLimitRule :=
  [mkRule "team" PerUser None None Enforce (Some 2) None AdmitUsed None (900 * SECOND);
   mkRule "all" PerDeployment None None Enforce None (Some 1000) AdmitEstimate (Some 1) (900 * SECOND)].

Definition by_ann : calls (RateLimitGrant * option refusal) := admit_request two_rules None (Some "ann"%string) 40 None.

(** A clock that moves a second a reading. *)
Definition ticking (n : nat) : Z := Z.of_nat n * SECOND.

Lemma ticking_later n : ticking n <= ticking (S n).
Proof. unfold ticking, SECOND. lia. Qed.

Definition after_one : option (RateLimitGrant * option refusal * nat * InMemoryRateLimitStore) :=
  Eval vm_compute in run ticking by_ann 0 empty_store.

Lemma by_ann_windows : on_windows rule_windows by_ann.
Proof. apply admit_windows. Qed.

Lemma admission_all_or_nothing_witness :
  match after_one with
  | Some (_, n, st) =>
      exists g n' st', run ticking by_ann n st
          = Some (g, Some (mkRefusal "Rate limit 'all' exceeded: 1 request in flight" (Some 1) (Some "all"%string)), n', st')
        /\ count_now st' "rule:team:ann:rpm" (ticking n') = count_now st "rule:team:ann:rpm" (ticking n')
  | None => False
  end.
Proof.
  destruct (admission_all_or_nothing ticking by_ann two_rules None (Some "ann"%string) 40 None
    (match after_one with Some (r, _, _) => r | None => (new_grant 0, None) end)
    (match after_one with Some (_, n, _) => n | None => 0%nat end)
    (match after_one with Some (_, _, st) => st | None => empty_store end)
    ticking_later by_ann_windows) as (g & r & n' & st' & Hrun & Hr); [vm_compute; reflexivity|].
  fold by_ann in Hrun. cbv [after_one] in *. exists g, n', st'.
  assert (r = Some (mkRefusal "Rate limit 'all' exceeded: 1 request in flight" (Some 1) (Some "all"%string))) as ->.
  { vm_compute in Hrun. congruence. }
  split; [exact Hrun|]. by destruct (Hr "rule:team:ann:rpm"%string (ticking n') ltac:(lia)) as (H & _ & _).
Defined.

(** Under rules that only report, and no limits of the user's budget, every request is admitted. *)
Theorem reporting_rules_never_refuse (clock : nat -> Z) rules key_id user_id est n c :
  Forall (fun r => mode r = Report) rules ->
  exists g n' c', run clock (admit_request rules key_id user_id est None) n c = Some ((g, None), n', c').
Proof.
  intros Hall.
  destruct (admit_phases_reporting clock [own_rules (counted_rules rules key_id user_id None);
              shared_rules (counted_rules rules key_id user_id None)] est (new_grant est)) with (n := n) (c := c)
    as ([g o] & n' & c' & Hrun & Ho); [|done|].
  - simpl. rewrite app_nil_r. assert (H : Forall (fun rs => mode rs.1 = Report) (counted_rules rules key_id user_id None)).
    { apply Forall_forall. intros [r s]. unfold counted_rules. rewrite app_nil_r.
      intros (r' & Hr & Hin)%list_elem_of_omap. apply bind_Some in Hin as (x & _ & Hin).
      destruct (_ || _); [|done]. injection Hin as <- <-. rewrite Forall_forall in Hall. by apply Hall. }
    rewrite Forall_forall in H. apply Forall_app. split; apply Forall_forall; intros x [_ Hx]%list_elem_of_filter; by apply H.
  - simpl in Ho. subst o. by exists g, n', c'.
Qed.

Definition reporting : list RateLimitRule := [mkRule "watch" PerUser None None Report (Some 1) None AdmitUsed (Some 1) 900].

Lemma reporting_rules_never_refuse_witness :
  exists g n' c', run ticking (do _ <~ admit_request reporting None (Some "ann"%string) 1 None; admit_request reporting None (Some "ann"%string) 1 None)
                    0 empty_counted = Some ((g, None), n', c')
    /\ reported_rules g = ["watch"%string].
Proof.
  pose (start := run ticking (admit_request reporting None (Some "ann"%string) 1 None) 0 empty_counted).
  destruct (reporting_rules_never_refuse ticking reporting None (Some "ann"%string) 1
    (match start with Some (_, n, _) => n | None => 0%nat end)
    (match start with Some (_, _, c) => c | None => empty_counted end)) as (g & n' & c' & Hrun).
  { by repeat constructor. }
  exists g, n', c'. assert (H : reported_rules g = ["watch"%string]) by (vm_compute in Hrun; injection Hrun as <- _ _; reflexivity).
  split; [|done]. rewrite run_cbind. exact Hrun.
Defined.

(** closing a grant gives every slot it lists back and touches no other; where the request never
    reached dispatch its estimates are charged nothing, and otherwise no entry changes.
    Closing it again does nothing. *)
Theorem closing_gives_back_once (clock : nat -> Z) g n c :
  grant_wf g ->
  exists g' c', run clock (close_grant g) n c = Some (g', n, c')
    /\ (forall key l, slots_of c' key !! l = if decide ((key, l) ∈ listed hold_leases g) then None else slots_of c key !! l)
    /\ (forall key, entries_of (logged c') key =
          if handed_over g then entries_of (logged c) key
          else settled_entry 0 (listed estimates g) key <$> entries_of (logged c) key)
    /\ (forall n2 c2, exists g2, run clock (close_grant g') n2 c2 = Some (g2, n2, c2)).
Proof.
  intros Hg. eexists _, _. split; [by apply run_close|]. split; [|split].
  - intros key l. rewrite release_all_slots. destruct (decide _); [done|]. destruct (handed_over g); [done|].
    by rewrite settle_all_slots.
  - intros key. rewrite release_all_logged. destruct (handed_over g); [done|]. apply settle_all_entries.
  - destruct (closed_holds_nothing g Hg) as (Hh & Hg' & Hl & He). intros n2 c2. eexists. rewrite run_close by done.
    rewrite Hl, Hh. destruct (handed_over g); [done|]. by rewrite He.
Qed.

Definition one_hold : RateLimitGrant :=
  mkGrant [mkHold [("k:tpm", 0%nat)] [("k:tpm", 0%nat)] [("k:concurrent", 0%nat)] []]%string [0%nat] 40 false.

Lemma one_hold_wf : grant_wf one_hold.
Proof. split; simpl; [intros i ->%list_elem_of_singleton; lia|apply NoDup_singleton]. Qed.

Definition one_counted : counted :=
  mkCounted (mkHistory {["k:tpm" := [mkEntry 5 0 40]]} 1) {["k:concurrent" := {[0%nat := 900]}]} 1.

Lemma closing_gives_back_once_witness :
  exists g' c', run ticking (close_grant one_hold) 0 one_counted = Some (g', 0%nat, c')
    /\ slots_of c' "k:concurrent" !! 0%nat = None /\ entries_of (logged c') "k:tpm" = [mkEntry 5 0 0].
Proof.
  destruct (closing_gives_back_once ticking one_hold 0 one_counted one_hold_wf) as (g' & c' & Hrun & Hs & He & _).
  exists g', c'. split; [exact Hrun|]. rewrite Hs, He. split; vm_compute; reflexivity.
Defined.

(** settling charges each estimate the tokens the request used, never less than none, and only
    the first settlement counts. *)
Theorem settling_charges_once (clock : nat -> Z) tokens g n c :
  grant_wf g ->
  exists g' c', run clock (grant_settle tokens g) n c = Some (g', n, c')
    /\ (forall key, entries_of (logged c') key
                    = settled_entry (Z.max tokens 0) (listed estimates g) key <$> entries_of (logged c) key)
    /\ (forall key, slots_of c' key = slots_of c key)
    /\ (forall tokens2 n2 c2, exists g2, run clock (grant_settle tokens2 g') n2 c2 = Some (g2, n2, c2)).
Proof.
  intros Hg. eexists _, _. split; [apply run_grant_settle|]. split; [intros; apply settle_all_entries|].
  split; [intros; apply settle_all_slots|]. intros tokens2 n2 c2. eexists. rewrite run_grant_settle.
  rewrite listed_map by done. simpl. by rewrite bind_nothing.
Qed.

Lemma settling_charges_once_witness :
  exists g' c', run ticking (grant_settle 17 one_hold) 0 one_counted = Some (g', 0%nat, c')
    /\ entries_of (logged c') "k:tpm" = [mkEntry 5 0 17].
Proof.
  destruct (settling_charges_once ticking 17 one_hold 0 one_counted one_hold_wf) as (g' & c' & Hrun & He & _).
  exists g', c'. split; [exact Hrun|]. rewrite He. vm_compute. reflexivity.
Defined.

(** The configured rules are the whole truth about their names: applying stored rules keeps them
    all, first and in order, adds only rules of other names, and reports exactly the ones it
    skipped; applying another set later is as if the first had never been applied. *)
Theorem stored_rules_never_override c stored :
  rate_limits (apply_stored_rules c stored).1
    = config_file_rules c ++ filter (fun r => name r ∉ name <$> config_file_rules c) stored
  /\ (forall r, r ∈ stored -> r ∈ rate_limits (apply_stored_rules c stored).1 \/ name r ∈ (apply_stored_rules c stored).2)
  /\ forall stored', apply_stored_rules (apply_stored_rules c stored).1 stored' = apply_stored_rules c stored'.
Proof.
  split; [done|]. split; [|done]. intros r Hr. unfold apply_stored_rules. simpl.
  destruct (decide (name r ∈ name <$> config_file_rules c)) as [H|H].
  - right. apply list_elem_of_fmap. exists r. split; [done|]. by apply list_elem_of_filter.
  - left. apply elem_of_app. right. by apply list_elem_of_filter.
Qed.

(** A limit counted only on failure is looked at and then counted: the look refuses at exactly the
    instants the count would, with the same answer, and counts nothing. *)
Theorem room_agrees_with_check r s last now wall key :
  0 < window_sec r -> shows (fun _ => window_sec r) last (limiter_log r) s -> last <= now ->
  exists look r1 answer r2,
    require_room now wall key r = Some (look, r1) /\ check now wall key r = Some (answer, r2)
    /\ (look = match answer with inl e => Some e | inr _ => None end)
    /\ shows (fun _ => window_sec r) now (limiter_log r1) s.
Proof.
  intros Hw Hs Hn. unfold require_room, check.
  destruct (peek_shows (fun _ => window_sec r) last now key _ _ Hs Hn) as (l1 & -> & Hs1).
  destruct (hit_shows (fun _ => window_sec r) (fun _ => Hw) last now key (rpm_allowance r) 1 _ _ Hs Hn) as (l2 & -> & _).
  simpl. eexists _, _, _, _. split; [done|]. split; [done|]. split; [|done].
  unfold spec_hit, spec_peek. simpl. set (x := spent s key now (window_sec r)).
  destruct (rpm_allowance r <=? x) eqn:E1, (x + 1 <=? rpm_allowance r) eqn:E2; simpl; try done;
    reflect_bools; exfalso; lia.
Qed.

Lemma room_agrees_with_check_witness :
  let r := mkLimiter 1 60 (set_requests empty_log ∅) in
  exists look r1 answer r2, require_room 10 0 "ip" r = Some (look, r1) /\ check 10 0 "ip" r = Some (answer, r2)
    /\ look = None.
Proof.
  intros r. destruct (room_agrees_with_check r empty_history 0 10 0 "ip" ltac:(vm_compute; reflexivity)
    (shows_empty (fun _ => window_sec r) 0) ltac:(lia)) as (look & r1 & answer & r2 & H1 & H2 & _ & _).
  exists look, r1, answer, r2. split; [done|]. split; [done|]. vm_compute in H1. congruence.
Defined.

