(* ===== verification/Idempotency.v ===== *)
(** Idempotency keys ([src/src/gateway/services/inference/_idempotency.py], its repository
    [src/src/gateway/repositories/inference/idempotency_repository.py], and the request's guard
    of [src/src/gateway/api/routes/_idempotency.py]).

    Every block of these calls writes at most once and commits as it ends, so a statement and
    the commit behind it are one step on the shared table; a step can fail, also after its
    write landed.  The fingerprint of a request and the encryption of a stored body are read
    elsewhere: both are arguments. *)
From S2P Require Import Prelude Periods.
From stdpp Require Import gmap strings list fin_maps sorting.
From Stdlib Require Import ZArith Lia Ascii.
Open Scope Z_scope.

(** ** The table *)

Inductive IdempotencyState := IN_PROGRESS | COMPLETED.
#[export] Instance IdempotencyState_eq_dec : EqDecision IdempotencyState.
Proof. solve_decision. Defined.

Record IdempotencyRecord := mkRecord {
  request_hash : string;
  claim_token : nat;
  state : IdempotencyState;
  record_user : string;
  record_api_key : option string;
  status_code : option Z;
  response_body : option string;
  response_headers : option (list (string * string));
  created_at : Z;
  locked_until : Z;
  expires_at : Z
}.

(** A key belongs to a scope; [callers] says of each live user whether it is blocked. *)
Record key_table := mkTable {
  records : gmap (string * string) IdempotencyRecord;
  callers : gmap string bool
}.

Definition set_records (t : key_table) (r : gmap (string * string) IdempotencyRecord) : key_table :=
  mkTable r (callers t).

(** ** Programs over the table *)

Inductive kprog (A : Type) : Type :=
| KRet (a : A)
| KRaise
| KToken (k : nat -> kprog A)
| KStmt (R : Type) (f : Z -> key_table -> R * key_table) (k : option R -> kprog A).
Arguments KRet {A} a.
Arguments KRaise {A}.
Arguments KToken {A} k.
Arguments KStmt {A} R f k.

Fixpoint khandle {A B} (p : kprog A) (h : option A -> kprog B) : kprog B :=
  match p with
  | KRet a => h (Some a)
  | KRaise => h None
  | KToken k => KToken (fun x => khandle (k x) h)
  | KStmt R f k => KStmt R f (fun r => khandle (k r) h)
  end.

Definition kbind {A B} (p : kprog A) (f : A -> kprog B) : kprog B :=
  khandle p (fun r => match r with Some a => f a | None => KRaise end).

Declare Scope keys_scope.
Delimit Scope keys_scope with keys.
Notation "'let*' x ':=' p 'in' q" := (kbind p (fun x => q))
  (at level 10, x pattern, p at level 100, q at level 200) : keys_scope.
Open Scope keys_scope.

(** [try: p except DATABASE_ERRORS: a]. *)
Definition or_else {A} (p : kprog A) (a : A) : kprog A :=
  khandle p (fun r => match r with Some x => KRet x | None => KRet a end).

Definition stmt {R} (f : Z -> key_table -> R * key_table) : kprog R :=
  KStmt R f (fun r => match r with Some x => KRet x | None => KRaise end).
Definition new_token : kprog nat := KToken KRet.    (** [uuid4] *)
Definition look {R} (f : Z -> key_table -> R) : kprog R := stmt (fun now t => (f now t, t)).

(** ** The repository *)

Definition get_database_time : kprog Z := look (fun now _ => now).
Definition get_caller (user : string) : kprog (option bool) := look (fun _ t => callers t !! user).

Definition insert_row (key : string * string) (v : IdempotencyRecord) (t : key_table) : bool * key_table :=
  match records t !! key with
  | Some _ => (false, t)
  | None => (true, set_records t (<[key := v]> (records t)))
  end.

(** The row is still the claim that was seen, and a running one has still lapsed. *)
Definition as_seen (seen : IdempotencyRecord) (now : Z) (r : IdempotencyRecord) : bool :=
  bool_decide (claim_token r = claim_token seen) && bool_decide (state r = state seen)
  && match state seen with IN_PROGRESS => locked_until r <=? now | COMPLETED => true end.

(** An UPDATE or DELETE of one key's row, where its guard holds: the new row, or [None] for none. *)
Definition change_row (key : string * string) (guard : IdempotencyRecord -> bool)
    (f : IdempotencyRecord -> option IdempotencyRecord) (t : key_table) : bool * key_table :=
  match records t !! key with
  | Some r => if guard r then (true, set_records t (partial_alter (fun _ => f r) key (records t))) else (false, t)
  | None => (false, t)
  end.

Definition held_by (token : nat) (r : IdempotencyRecord) : bool :=
  bool_decide (claim_token r = token) && bool_decide (state r = IN_PROGRESS).

Definition with_lease (until : Z) (r : IdempotencyRecord) : IdempotencyRecord :=
  mkRecord (request_hash r) (claim_token r) (state r) (record_user r) (record_api_key r) (status_code r)
    (response_body r) (response_headers r) (created_at r) until (expires_at r).

Definition with_response (status : Z) (body : string) (headers : list (string * string)) (expires : Z)
    (r : IdempotencyRecord) : IdempotencyRecord :=
  mkRecord (request_hash r) (claim_token r) COMPLETED (record_user r) (record_api_key r) (Some status)
    (Some body) (Some headers) (created_at r) (locked_until r) expires.

Definition insert_claim (key : string * string) (v : IdempotencyRecord) : kprog bool :=
  stmt (fun _ t => insert_row key v t).
Definition find (key : string * string) : kprog (option IdempotencyRecord) := look (fun _ t => records t !! key).
Definition take_over (key : string * string) (seen : IdempotencyRecord) (now : Z) (v : IdempotencyRecord) : kprog bool :=
  stmt (fun _ t => change_row key (as_seen seen now) (fun _ => Some v) t).
Definition extend_lease (key : string * string) (token : nat) (until : Z) : kprog bool :=
  stmt (fun _ t => change_row key (held_by token) (fun r => Some (with_lease until r)) t).
Definition store_response (key : string * string) (token : nat) (status : Z) (body : string)
    (headers : list (string * string)) (expires : Z) : kprog bool :=
  stmt (fun _ t => change_row key (held_by token) (fun r => Some (with_response status body headers expires r)) t).
Definition release_claim (key : string * string) (token : nat) : kprog unit :=
  stmt (fun _ t => (tt, (change_row key (held_by token) (fun _ => None) t).2)).

(** A row the sweep may delete at [now], the oldest first. *)
Definition is_expired (now : Z) (r : IdempotencyRecord) : bool :=
  (expires_at r <=? now) && (bool_decide (state r = COMPLETED) || (locked_until r <=? now)).
Definition expires_before (x y : (string * string) * IdempotencyRecord) : Prop := expires_at x.2 <= expires_at y.2.
#[export] Instance expires_before_dec x y : Decision (expires_before x y).
Proof. unfold expires_before. apply _. Defined.

Definition expired_keys (now : Z) (limit : nat) (t : key_table) : list (string * string) :=
  (take limit (merge_sort expires_before (filter (fun kr => is_expired now kr.2 = true) (map_to_list (records t))))).*1.

Definition delete_expired (now : Z) (limit : nat) : kprog nat :=
  stmt (fun _ t => let ks := expired_keys now limit t in
                   (length ks, set_records t (foldr delete (records t) ks))).

(** ** Requests *)

Definition MAX_KEY_LENGTH : nat := 255.

Definition printable (c : ascii) : bool := (32 <=? Z.of_nat (nat_of_ascii c)) && (Z.of_nat (nat_of_ascii c) <? 127).

Fixpoint all_printable (s : string) : bool :=
  match s with EmptyString => true | String c s => printable c && all_printable s end.

(** The first and the last character are no space, the one printable character [strip] removes. *)
Definition stripped (s : string) : bool :=
  match s with
  | EmptyString => true
  | String c _ => negb (bool_decide (c = " "%char))
                  && negb (bool_decide (String.get (String.length s - 1) s = Some " "%char))
  end.

Definition usable (key : string) : bool :=
  (0 <? Z.of_nat (String.length key)) && (Z.of_nat (String.length key) <=? Z.of_nat MAX_KEY_LENGTH)
  && all_printable key && stripped key.

Record IdempotentRequest := mkRequest {
  scope : string;
  key : string;
  req_hash : string;
  req_user : string;
  req_api_key : option string
}.

Definition scope_for (user : string) (api_key : option string) : string :=
  match api_key with Some k => "key:" +:+ k | None => "master:" +:+ user end.

(** [None] is [InvalidKey]; [hash] fingerprints the endpoint, the body and the options. *)
Definition request_of (hash : string -> string -> list (option string) -> string) (key endpoint body : string)
    (options : list (option string)) (user : string) (api_key : option string) : option IdempotentRequest :=
  if negb (usable key) then None
  else Some (mkRequest (scope_for user api_key) key (hash endpoint body options) user api_key).

Definition row_of (r : IdempotentRequest) : string * string := (scope r, key r).

Inductive Admission :=
| Claimed (token : nat)
| Replay (status : Z) (body : string) (headers : list (string * string))
| KeyReused
| StillInFlight
| UnknownCaller
| BlockedCaller.

(** ** The service *)

Section service.
Context (lease retention : Z).    (** [idempotency_lease_sec], [idempotency_retention_sec] *)
Context (encrypt decrypt : string -> option string).

Definition CHANGES_BEFORE_CONFLICT : nat := 3.
Definition MAX_STORED_BODY_BYTES : Z := 8 * 1024 * 1024.

Definition claim_values (r : IdempotentRequest) (token : nat) (now : Z) : IdempotencyRecord :=
  mkRecord (req_hash r) token IN_PROGRESS (req_user r) (req_api_key r) None None None
    now (now + lease) (now + Z.max lease retention).

Definition replay (r : IdempotencyRecord) : option Admission :=
  c ← response_body r;
  body ← decrypt c;
  Some (Replay (match status_code r with Some 0 | None => 200 | Some s => s end) body (default [] (response_headers r))).

Definition stale_at (r : IdempotencyRecord) : Z :=
  match state r with IN_PROGRESS => locked_until r | COMPLETED => expires_at r end.

(** [None] is [_RETRY]. *)
Definition try_admission (r : IdempotentRequest) : kprog (option Admission) :=
  let* now := get_database_time in
  let* token := new_token in
  let claim := claim_values r token now in
  let taking seen := let* taken := take_over (row_of r) seen now claim in
                     KRet (if taken : bool then Some (Claimed token) else None) in
  let* inserted := insert_claim (row_of r) claim in
  if inserted : bool then KRet (Some (Claimed token))
  else
    let* found := find (row_of r) in
    match found with
    | None => KRet None
    | Some seen =>
        if stale_at seen <=? now then taking seen
        else if negb (bool_decide (request_hash seen = req_hash r)) then KRet (Some KeyReused)
        else match state seen with
             | COMPLETED => match replay seen with Some a => KRet (Some a) | None => taking seen end
             | IN_PROGRESS => KRet (Some StillInFlight)
             end
    end.

Fixpoint admission_loop (r : IdempotentRequest) (attempts : nat) : kprog Admission :=
  match attempts with
  | O => KRet StillInFlight
  | S n =>
      let* outcome := try_admission r in
      match outcome with Some a => KRet a | None => admission_loop r n end
  end.

Definition request_admission (r : IdempotentRequest) : kprog Admission :=
  let* caller := get_caller (req_user r) in
  match caller with
  | None => KRet UnknownCaller
  | Some true => KRet BlockedCaller
  | Some false => admission_loop r CHANGES_BEFORE_CONFLICT
  end.

Definition release (r : IdempotentRequest) (token : nat) : kprog unit :=
  or_else (release_claim (row_of r) token) tt.

Definition complete (r : IdempotentRequest) (token : nat) (status : Z) (body : string)
    (headers : list (string * string)) : kprog bool :=
  if MAX_STORED_BODY_BYTES <? Z.of_nat (String.length body) then let* _ := release r token in KRet false
  else
    match encrypt body with
    | None => let* _ := release r token in KRet false
    | Some ciphertext =>
        or_else (let* now := get_database_time in
                 store_response (row_of r) token status ciphertext headers (now + retention)) false
    end.

Definition renew (r : IdempotentRequest) (token : nat) : kprog bool :=
  let* now := get_database_time in
  extend_lease (row_of r) token (now + lease).

(** The batches of [sweep]; [None] when [fuel] of them were not enough. *)
Fixpoint sweep_loop (batch_size : nat) (fuel : nat) (total : nat) : kprog (option nat) :=
  match fuel with
  | O => KRet None
  | S fuel =>
      let* now := get_database_time in
      let* deleted := delete_expired now batch_size in
      if (deleted <? batch_size)%nat then KRet (Some (total + deleted)%nat)
      else sweep_loop batch_size fuel (total + deleted)
  end.

Definition sweep (batch_size fuel : nat) : kprog (option nat) :=
  if (batch_size <? 1)%nat then KRaise else sweep_loop batch_size fuel 0.

(** ** One request's guard *)

Record IdempotencyGuard := mkGuard {
  guard_request : option IdempotentRequest;
  guard_claimed : option nat
}.

Definition new_guard : IdempotencyGuard := mkGuard None None.

Inductive guard_answer := NotKeyed | InvalidKey | Answered (a : Admission).

(** Whether the deployment honors keys; [secrets] says it has one to encrypt with. *)
Definition is_enabled (secrets : bool) : bool := (0 <? retention) && secrets.

(** The guard keeps the claim it was given. *)
Definition guard_admission (hash : string -> string -> list (option string) -> string) (secrets : bool)
    (key : option string) (endpoint body : string) (options : list (option string)) (user : string)
    (api_key : option string) (g : IdempotencyGuard) : kprog (guard_answer * IdempotencyGuard) :=
  match key with
  | Some key =>
      if is_enabled secrets then
        match request_of hash key endpoint body options user api_key with
        | None => KRet (InvalidKey, g)
        | Some r =>
            let* outcome := request_admission r in
            KRet (Answered outcome, mkGuard (Some r) (match outcome with Claimed t => Some t | _ => guard_claimed g end))
        end
      else KRet (NotKeyed, g)
  | None => KRet (NotKeyed, g)
  end.

(** Both take the claim from the guard first, so whichever comes second finds none. *)
Definition guard_complete (status : Z) (body : string) (headers : list (string * string)) (g : IdempotencyGuard)
  : kprog IdempotencyGuard :=
  match guard_request g, guard_claimed g with
  | Some r, Some t => let* _ := complete r t status body headers in KRet (mkGuard (Some r) None)
  | _, _ => KRet g
  end.

Definition guard_release (g : IdempotencyGuard) : kprog IdempotencyGuard :=
  match guard_request g, guard_claimed g with
  | Some r, Some t => let* _ := release r t in KRet (mkGuard (Some r) None)
  | _, _ => KRet g
  end.
End service.

(** ** Sessions at once *)

Record kworld := mkKWorld { ktable : key_table; kclock : Z; knext : nat (** what [uuid4] draws next *) }.

(** A session: the tokens it drew, and what it still runs. *)
Definition session : Type := gset nat * kprog unit.

Inductive kstep : kworld -> session -> kworld -> session -> Prop :=
| kstep_token t now x d k :
    kstep (mkKWorld t now x) (d, KToken k) (mkKWorld t now (S x)) ({[x]} ∪ d, k x)
| kstep_done t now x d R f k r t' :
    f now t = (r, t') -> kstep (mkKWorld t now x) (d, KStmt R f k) (mkKWorld t' now x) (d, k (Some r))
| kstep_fails w d R f k : kstep w (d, KStmt R f k) w (d, k None)
| kstep_landed t now x d R f k r t' :
    f now t = (r, t') -> kstep (mkKWorld t now x) (d, KStmt R f k) (mkKWorld t' now x) (d, k None).

(** Any session moves, or time passes. *)
Inductive kpool : kworld * list session -> kworld * list session -> Prop :=
| kpool_step w ss i s w' s' : ss !! i = Some s -> kstep w s w' s' -> kpool (w, ss) (w', <[i := s']> ss)
| kpool_time t now now' x ss : now <= now' -> kpool (mkKWorld t now x, ss) (mkKWorld t now' x, ss).

(** One session alone, nothing failing, at one instant. *)
Fixpoint krun {A} (p : kprog A) (w : kworld) : option A * kworld :=
  match p with
  | KRet a => (Some a, w)
  | KRaise => (None, w)
  | KToken k => krun (k (knext w)) (mkKWorld (ktable w) (kclock w) (S (knext w)))
  | KStmt R f k => let '(r, t) := f (kclock w) (ktable w) in krun (k (Some r)) (mkKWorld t (kclock w) (knext w))
  end.

Lemma krun_handle {A B} (p : kprog A) (h : option A -> kprog B) w :
  krun (khandle p h) w = let '(a, w') := krun p w in krun (h a) w'.
Proof.
  revert w. induction p as [a| |k IH|R f k IH]; intros w; simpl; [done|done|apply IH|].
  destruct (f (kclock w) (ktable w)) as [r t]. apply IH.
Qed.

Lemma krun_bind {A B} (p : kprog A) (f : A -> kprog B) w :
  krun (kbind p f) w =
    let '(a, w') := krun p w in match a with Some a => krun (f a) w' | None => (None, w') end.
Proof. unfold kbind. rewrite krun_handle. destruct (krun p w) as [[a|] w']; done. Qed.

(** ** What a session of the gateway runs *)

(** How a request that holds its key ends; one whose worker dies leaves its claim to lapse. *)
Inductive key_ending :=
| Completes (status : Z) (body : string) (headers : list (string * string))
| Fails
| Dies.

Inductive key_call :=
| KeyedRequest (r : IdempotentRequest) (renewals : nat) (ends : key_ending)
| KeySweep (batch_size fuel : nat).

Section sessions.
Context (lease retention : Z) (encrypt decrypt : string -> option string).

(** The renewals of a running request; one that fails is tried again. *)
Fixpoint renewing (r : IdempotentRequest) (token : nat) (n : nat) : kprog unit :=
  match n with
  | O => KRet tt
  | S n => let* still := or_else (renew lease r token) true in
           if still : bool then renewing r token n else KRet tt
  end.

Definition run_key_call (c : key_call) : kprog unit :=
  match c with
  | KeyedRequest r renewals ends =>
      let* outcome := request_admission lease retention decrypt r in
      match outcome with
      | Claimed token =>
          let* _ := renewing r token renewals in
          match ends with
          | Completes status body headers => let* _ := complete retention encrypt r token status body headers in KRet tt
          | Fails => release r token
          | Dies => KRet tt
          end
      | _ => KRet tt
      end
  | KeySweep batch_size fuel => let* _ := sweep batch_size fuel in KRet tt
  end.

Fixpoint run_key_calls (cs : list key_call) : kprog unit :=
  match cs with
  | [] => KRet tt
  | c :: cs => let* _ := or_else (run_key_call c) tt in run_key_calls cs
  end.
End sessions.

(** A session runs [n] statements on, none failing, while the others wait. *)
Fixpoint advance (n : nat) (w : kworld) (s : session) : kworld * session :=
  match n with
  | O => (w, s)
  | S n =>
      match s with
      | (d, KToken k) => advance n (mkKWorld (ktable w) (kclock w) (S (knext w))) ({[knext w]} ∪ d, k (knext w))
      | (d, KStmt R f k) =>
          let '(r, t) := f (kclock w) (ktable w) in advance n (mkKWorld t (kclock w) (knext w)) (d, k (Some r))
      | _ => (w, s)
      end
  end.

Lemma advance_pool n w s : rtc kpool (w, [s]) ((advance n w s).1, [(advance n w s).2]).
Proof.
  revert w s. induction n as [|n IH]; intros [t now x] [d [u| |k|R f k]]; simpl; try apply rtc_refl.
  - eapply rtc_l; [|apply IH]. apply (kpool_step _ [(d, KToken k)] 0 _ _ _ eq_refl). constructor.
  - destruct (f now t) as [r t'] eqn:E. eapply rtc_l; [|apply IH].
    apply (kpool_step _ [(d, KStmt R f k)] 0 _ _ _ eq_refl). by constructor.
Qed.

Lemma advance_one w s :
  match s.2 with KRet _ | KRaise => True | _ => kstep w s (advance 1 w s).1 (advance 1 w s).2 end.
Proof.
  destruct w as [t now x], s as [d [u| |k|R f k]]; simpl; try done; [constructor|].
  destruct (f now t) as [r t'] eqn:E. by constructor.
Qed.
