(* ===== verification/IdempotencySafety.v ===== *)
(** Whatever sessions run at once and whatever fails, a claim that has not lapsed changes hands
    only by its holder, and a stored response that can be given stays until its retention
    ends.

    A session is verified against what the others may do to the table ([may_change]): each
    carries the token it drew and has not used, and the completed row it means to replace. *)
From S2P Require Import Prelude Periods Idempotency.
From stdpp Require Import gmap strings list fin_maps sorting relations.
From Stdlib Require Import ZArith Lia.
Open Scope Z_scope.
Open Scope keys_scope.

Notation row_key := (string * string)%type.

Section safety.
Context (lease : Z) (decrypt : string -> option string).

(** A row another request may have: its lease lapsed, or its response expired or is unreadable. *)
Definition ended (now : Z) (r : IdempotencyRecord) : Prop :=
  match state r with
  | IN_PROGRESS => locked_until r <= now
  | COMPLETED => expires_at r <= now \/ replay decrypt r = None
  end.

Lemma ended_later now now' r : now <= now' -> ended now r -> ended now' r.
Proof. unfold ended. destruct (state r); [lia|]. intros ? [?|?]; [left; lia|by right]. Qed.

(** What a holder may make of its row: the same claim, locked for one lease at most. *)
Definition same_claim (now : Z) (x y : IdempotencyRecord) : Prop :=
  claim_token y = claim_token x /\ locked_until y <= Z.max (locked_until x) (now + lease).

(** What a session that drew [D] may make of a row, of tokens never [used] before. *)
Inductive may_change (D : gset nat) (now : Z) (used : gset nat)
  : option IdempotencyRecord -> option IdempotencyRecord -> Prop :=
| may_keep r : may_change D now used r r
| may_claim r v :
    claim_token v ∈ D -> claim_token v ∉ used -> state v = IN_PROGRESS -> locked_until v <= now + lease ->
    (forall x, r = Some x -> ended now x) ->
    may_change D now used r (Some v)
| may_own x r :
    claim_token x ∈ D -> state x = IN_PROGRESS -> (forall y, r = Some y -> same_claim now x y) ->
    may_change D now used (Some x) r
| may_expire x : ended now x -> may_change D now used (Some x) None.

Definition table_used (used : gset nat) (t : key_table) : Prop :=
  forall K r, records t !! K = Some r -> claim_token r ∈ used.

(** The token a session drew and never wrote, and a completed row it read. *)
Record knows := mkKnows { unwritten : option nat; seen_row : option (row_key * IdempotencyRecord) }.

Definition nothing : knows := mkKnows None None.

Record holds (D used : gset nat) (t : key_table) (k : knows) : Prop := {
  holds_unwritten : forall x, unwritten k = Some x -> x ∈ D /\ x ∉ used;
  holds_seen : forall K s, seen_row k = Some (K, s) -> claim_token s ∈ used /\ state s = COMPLETED
    /\ forall r, records t !! K = Some r -> claim_token r = claim_token s -> r = s
}.

Lemma holds_nothing D used t : holds D used t nothing.
Proof. by split. Qed.

(** A step of a session: what it does to the table and to the tokens used. *)
Record acts (D : gset nat) (now : Z) (used : gset nat) (t : key_table) (used' : gset nat) (t' : key_table) : Prop := {
  acts_rows : forall K, may_change D now used (records t !! K) (records t' !! K);
  acts_grows : used ⊆ used';
  acts_drawn : used' ⊆ used ∪ D;
  acts_used : table_used used t -> table_used used' t'
}.

Lemma acts_same D now used t : acts D now used t used t.
Proof. split; [constructor|done|set_solver|done]. Qed.

(** A session's view survives the steps of the others. *)
Lemma holds_stable D D' now used t used' t' k :
  table_used used t -> D ## D' -> holds D used t k -> acts D' now used t used' t' -> holds D used' t' k.
Proof.
  intros Hu Hd [H1 H2] [A1 A2 A3 A4]. split.
  - intros x Hx. destruct (H1 x Hx) as [Hin Hn]. split; [done|]. intros Hin'. apply A3 in Hin'. set_solver.
  - intros K s Hs. destruct (H2 K s Hs) as (Hin & Hst & Hsame). split; [by apply A2|]. split; [done|].
    intros r Hr Htok. specialize (A1 K). rewrite Hr in A1. inversion A1 as [r0 E1 E2|r0 v Hv Hvu Hvs Hvl He E1 E2|x r0 Hx Hxs Hy E1 E2|x He E1 E2].
    + by apply Hsame.
    + subst v. rewrite Htok in Hvu. done.
    + subst r0. assert (claim_token r = claim_token x) as Htx by by apply Hy.
      assert (x = s) as ->; [apply Hsame; [by rewrite <- E1|congruence]|]. congruence.
Qed.

(** ** Verified sessions *)

Fixpoint legal {A} (Q : gset nat -> option A -> Prop) (p : kprog A) (D : gset nat) (k : knows) (t0 : Z) : Prop :=
  match p with
  | KRet a => Q D (Some a)
  | KRaise => Q D None
  | KToken f => forall x, legal Q (f x) ({[x]} ∪ D) (mkKnows (Some x) (seen_row k)) t0
  | KStmt R f g =>
      (forall now used t, t0 <= now -> table_used used t -> holds D used t k ->
         exists used' k', acts D now used t used' (f now t).2 /\ holds D used' (f now t).2 k'
           /\ legal Q (g (Some (f now t).1)) D k' now)
      /\ legal Q (g None) D nothing t0
  end.

Lemma legal_weaken {A} (Q : gset nat -> option A -> Prop) p D k t0 t1 : t0 <= t1 -> legal Q p D k t0 -> legal Q p D k t1.
Proof.
  revert D k t0 t1. induction p as [a| |f IH|R f g IH]; intros D k t0 t1 Ht; simpl; [done|done| |].
  - intros H x. by eapply IH.
  - intros [H1 H2]. split; [|by eapply IH]. intros now used t Hn. apply H1. lia.
Qed.

(** ** The pool *)

Definition any_end (_ : gset nat) (_ : option unit) : Prop := True.

(** The invariant: some [used] covers the table, drawn tokens are told apart and old, and each
    session is verified from what it knows. *)
Record kpool_ok (used : gset nat) (w : kworld) (ss : list session) (ks : list knows) : Prop := {
  ok_length : length ks = length ss;
  ok_used : table_used used (ktable w);
  ok_old : forall x, x ∈ used -> (x < knext w)%nat;
  ok_drawn : forall i s, ss !! i = Some s -> forall x, x ∈ s.1 -> (x < knext w)%nat;
  ok_disjoint : forall i j s s', ss !! i = Some s -> ss !! j = Some s' -> i <> j -> s.1 ## s'.1;
  ok_holds : forall i s k, ss !! i = Some s -> ks !! i = Some k -> holds s.1 used (ktable w) k;
  ok_legal : forall i s k, ss !! i = Some s -> ks !! i = Some k -> legal any_end s.2 s.1 k (kclock w)
}.

Lemma session_of ss ks i (s : session) : length ks = length ss -> ss !! i = Some s -> exists k : knows, ks !! i = Some k.
Proof. intros Hl Hi. apply lookup_lt_Some in Hi. rewrite <- Hl in Hi. apply lookup_lt_is_Some_2 in Hi as [k Hk]. by exists k. Qed.

(** One session acts on the table: the others keep what they know. *)
Lemma ok_acts used w ss ks i s k used' t' p' k' :
  kpool_ok used w ss ks -> ss !! i = Some s -> ks !! i = Some k ->
  acts s.1 (kclock w) used (ktable w) used' t' ->
  holds s.1 used' t' k' -> legal any_end p' s.1 k' (kclock w) ->
  kpool_ok used' (mkKWorld t' (kclock w) (knext w)) (<[i := (s.1, p')]> ss) (<[i := k']> ks).
Proof.
  intros [Hl Hu Ho Hd Hdis Hh Hleg] Hi Hk Ha Hh' Hp'. pose proof (lookup_lt_Some _ _ _ Hi) as Hlt.
  assert (Hlk : (i < length ks)%nat) by (rewrite Hl; exact Hlt).
  assert (Hcase : forall j x, <[i := (s.1, p')]> ss !! j = Some x -> (j = i /\ x = (s.1, p')) \/ (j <> i /\ ss !! j = Some x)).
  { intros j x. destruct (decide (i = j)) as [<-|Hne].
    - rewrite list_lookup_insert_eq by done. intros [= <-]. by left.
    - rewrite list_lookup_insert_ne by done. by right. }
  split; simpl.
  - by rewrite !length_insert.
  - by apply (acts_used _ _ _ _ _ _ Ha).
  - intros x Hx. apply (acts_drawn _ _ _ _ _ _ Ha) in Hx. apply elem_of_union in Hx as [Hx|Hx]; [by apply Ho|by apply (Hd i s)].
  - intros j x [[-> ->]|[_ Hj]]%Hcase y Hy; [by apply (Hd i s)|by apply (Hd j x)].
  - intros j j' x x' [[-> ->]|[Hn Hj]]%Hcase [[-> ->]|[Hn' Hj']]%Hcase Hne; simpl; try done.
    + by apply (Hdis i j').
    + by apply (Hdis j i).
    + by apply (Hdis j j').
  - intros j x kx [[-> ->]|[Hn Hj]]%Hcase Hkx.
    + rewrite list_lookup_insert_eq in Hkx by done. injection Hkx as <-. exact Hh'.
    + rewrite list_lookup_insert_ne in Hkx by done. eapply (holds_stable x.1 s.1); [exact Hu| |by eapply Hh|exact Ha].
      by apply (Hdis j i).
  - intros j x kx [[-> ->]|[Hn Hj]]%Hcase Hkx.
    + rewrite list_lookup_insert_eq in Hkx by done. injection Hkx as <-. exact Hp'.
    + rewrite list_lookup_insert_ne in Hkx by done. by eapply Hleg.
Qed.

(** Drawing a token. *)
Lemma ok_draw used w ss ks i s k p' :
  kpool_ok used w ss ks -> ss !! i = Some s -> ks !! i = Some k ->
  legal any_end p' ({[knext w]} ∪ s.1) (mkKnows (Some (knext w)) (seen_row k)) (kclock w) ->
  kpool_ok used (mkKWorld (ktable w) (kclock w) (S (knext w))) (<[i := ({[knext w]} ∪ s.1, p')]> ss)
    (<[i := mkKnows (Some (knext w)) (seen_row k)]> ks).
Proof.
  intros [Hl Hu Ho Hd Hdis Hh Hleg] Hi Hk Hp'. pose proof (lookup_lt_Some _ _ _ Hi) as Hlt.
  assert (Hlk : (i < length ks)%nat) by (rewrite Hl; exact Hlt).
  assert (Hcase : forall j x, <[i := ({[knext w]} ∪ s.1, p')]> ss !! j = Some x ->
    (j = i /\ x = ({[knext w]} ∪ s.1, p')) \/ (j <> i /\ ss !! j = Some x)).
  { intros j x. destruct (decide (i = j)) as [<-|Hne].
    - rewrite list_lookup_insert_eq by done. intros [= <-]. by left.
    - rewrite list_lookup_insert_ne by done. by right. }
  assert (Hnew : forall j x, ss !! j = Some x -> knext w ∉ x.1) by (intros j x Hj Hin; specialize (Hd j x Hj _ Hin); lia).
  split; simpl.
  - by rewrite !length_insert.
  - done.
  - intros x Hx%Ho. lia.
  - intros j x [[-> ->]|[_ Hj]]%Hcase y; simpl; [|intros Hy; specialize (Hd j x Hj y Hy); lia].
    intros [->%elem_of_singleton|Hy]%elem_of_union; [lia|]. specialize (Hd i s Hi y Hy). lia.
  - intros j j' x x' [[-> ->]|[Hn Hj]]%Hcase [[-> ->]|[Hn' Hj']]%Hcase Hne; simpl; try done.
    + pose proof (Hdis i j' _ _ Hi Hj' Hne). pose proof (Hnew j' x' Hj'). set_solver.
    + pose proof (Hdis j i _ _ Hj Hi Hne). pose proof (Hnew j x Hj). set_solver.
    + by apply (Hdis j j').
  - intros j x kx [[-> ->]|[Hn Hj]]%Hcase Hkx.
    + rewrite list_lookup_insert_eq in Hkx by done. injection Hkx as <-. destruct (Hh i s k Hi Hk) as [H1 H2]. split; simpl.
      * intros y [= <-]. split; [set_solver|]. intros Hin%Ho. lia.
      * done.
    + rewrite list_lookup_insert_ne in Hkx by done. by eapply Hh.
  - intros j x kx [[-> ->]|[Hn Hj]]%Hcase Hkx.
    + rewrite list_lookup_insert_eq in Hkx by done. injection Hkx as <-. exact Hp'.
    + rewrite list_lookup_insert_ne in Hkx by done. by eapply Hleg.
Qed.

(** A step keeps the invariant, and changes rows only as its session may. *)
Lemma ok_step used w ss ks i s w' s' :
  kpool_ok used w ss ks -> ss !! i = Some s -> kstep w s w' s' ->
  exists used' ks', kpool_ok used' w' (<[i := s']> ss) ks'
    /\ acts s'.1 (kclock w) used (ktable w) used' (ktable w').
Proof.
  intros Hok Hi Hstep. destruct (session_of ss ks i s (ok_length _ _ _ _ Hok) Hi) as [k Hk].
  pose proof (ok_legal _ _ _ _ Hok i s k Hi Hk) as Hleg. pose proof (ok_holds _ _ _ _ Hok i s k Hi Hk) as Hh.
  pose proof (ok_used _ _ _ _ Hok) as Hu.
  inversion Hstep as [t now x d f|t now x d R f g r t' Hf|w0 d R f g|t now x d R f g r t' Hf]; subst; clear Hstep; simpl in *.
  - exists used. eexists. split; [|apply acts_same]. by apply (ok_draw used (mkKWorld t now x) ss ks i (d, KToken f) k).
  - destruct Hleg as [Hleg _]. destruct (Hleg now used t ltac:(lia) Hu Hh) as (used' & k' & Ha & Hh' & Hl).
    rewrite Hf in *. simpl in *. exists used'. eexists. split; [|exact Ha].
    by apply (ok_acts used (mkKWorld t now x) ss ks i (d, KStmt R f g) k used' t' _ k').
  - destruct Hleg as [_ Hleg]. exists used. eexists. split; [|apply acts_same]. destruct w' as [t now x].
    by apply (ok_acts used (mkKWorld t now x) ss ks i (d, KStmt R f g) k used t _ nothing); [| | |apply acts_same|apply holds_nothing|].
  - destruct Hleg as [Hleg Hnone]. destruct (Hleg now used t ltac:(lia) Hu Hh) as (used' & k' & Ha & Hh' & Hl).
    rewrite Hf in *. simpl in *. exists used'. eexists. split; [|exact Ha].
    by apply (ok_acts used (mkKWorld t now x) ss ks i (d, KStmt R f g) k used' t' _ nothing);
      [| | |exact Ha|apply holds_nothing|].
Qed.

Lemma ok_later used t now now' x ss ks :
  now <= now' -> kpool_ok used (mkKWorld t now x) ss ks -> kpool_ok used (mkKWorld t now' x) ss ks.
Proof.
  intros Hn [Hl Hu Ho Hd Hdis Hh Hleg]. split; try done. intros i s k Hi Hk. simpl.
  apply (legal_weaken _ _ _ _ now); [done|]. by apply (Hleg i).
Qed.

Lemma ok_pool a b :
  rtc kpool a b -> forall used ks, kpool_ok used a.1 a.2 ks -> exists used' ks', kpool_ok used' b.1 b.2 ks'.
Proof.
  induction 1 as [a|a a1 b Hstep _ IH]; intros used ks Hok; [by exists used, ks|].
  destruct Hstep as [w ss i s w2 s2 Hi Hst|t now now' x ss Hn]; simpl in *.
  - destruct (ok_step used w ss ks i s w2 s2 Hok Hi Hst) as (used' & ks' & Hok' & _). by apply (IH used' ks').
  - apply (IH used ks). by apply (ok_later used t now).
Qed.

(** ** The calls are verified *)

Lemma legal_handle {A B} (Q : gset nat -> option B -> Prop) (R : gset nat -> option A -> Prop) (p : kprog A) h D k t0 :
  legal R p D k t0 ->
  (forall D' k' t a, t0 <= t -> R D' a -> legal Q (h a) D' k' t) ->
  legal Q (khandle p h) D k t0.
Proof.
  revert D k t0. induction p as [a| |f IH|S f g IH]; intros D k t0 Hp Hs; simpl in *.
  - apply Hs; [lia|done].
  - apply Hs; [lia|done].
  - intros x. by apply IH.
  - destruct Hp as [H1 H2]. split; [|by apply IH]. intros now used t Ht Hu Hh.
    destruct (H1 now used t Ht Hu Hh) as (used' & k' & Ha & Hk & Hl). exists used', k'. split; [done|]. split; [done|].
    apply IH; [done|]. intros D' k2 t2 a Ht2. apply Hs. lia.
Qed.

Lemma legal_bind {A B} (Q : gset nat -> option B -> Prop) (R : gset nat -> option A -> Prop) (p : kprog A) f D k t0 :
  legal R p D k t0 ->
  (forall D' k' t a, t0 <= t -> R D' (Some a) -> legal Q (f a) D' k' t) ->
  (forall D', R D' None -> Q D' None) ->
  legal Q (kbind p f) D k t0.
Proof. intros Hp Hf Hn. eapply legal_handle; [exact Hp|]. intros D' k' t [a|] Ht Ha; [by apply Hf|by apply Hn]. Qed.

Lemma legal_or_else {A} (Q : gset nat -> option A -> Prop) (p : kprog A) a D k t0 :
  legal Q p D k t0 -> (forall D, Q D None -> Q D (Some a)) -> legal Q (or_else p a) D k t0.
Proof. intros Hp Ha. eapply legal_handle; [exact Hp|]. intros D' k' t [x|] _ Hx; simpl; auto. Qed.

(** A statement that reads. *)
Lemma legal_look {A R} (Q : gset nat -> option A -> Prop) (f : Z -> key_table -> R) h D k t0 :
  Q D None ->
  (forall now used t, t0 <= now -> table_used used t -> holds D used t k ->
     exists k', holds D used t k' /\ legal Q (h (f now t)) D k' now) ->
  legal Q (kbind (look f) h) D k t0.
Proof.
  intros HN H. simpl. split; [|done]. intros now used t Hn Hu Hh. destruct (H now used t Hn Hu Hh) as (k' & Hk & Hl).
  exists used, k'. split; [apply acts_same|]. done.
Qed.

(** A statement on one key's row. *)
Lemma acts_row D now used used' t K r :
  may_change D now used (records t !! K) r -> used ⊆ used' -> used' ⊆ used ∪ D ->
  (forall x, r = Some x -> table_used used t -> claim_token x ∈ used') ->
  acts D now used t used' (set_records t (partial_alter (fun _ => r) K (records t))).
Proof.
  intros Hc H1 H2 H3. split; [|done|done|].
  - intros K'. simpl. destruct (decide (K = K')) as [<-|Hne]; [by rewrite lookup_partial_alter_eq|].
    rewrite lookup_partial_alter_ne by done. constructor.
  - intros Hu K' x. simpl. destruct (decide (K = K')) as [<-|Hne].
    + rewrite lookup_partial_alter_eq. intros ->. by apply H3.
    + rewrite lookup_partial_alter_ne by done. intros Hx. by apply H1, (Hu K').
Qed.

Lemma acts_own D now used t K token f :
  token ∈ D -> (forall x y, f x = Some y -> same_claim now x y) ->
  acts D now used t used (change_row K (held_by token) f t).2.
Proof.
  intros Hin Hf. unfold change_row. destruct (records t !! K) as [x|] eqn:E; [|apply acts_same].
  destruct (held_by token x) eqn:Eh; [|apply acts_same]. unfold held_by in Eh. apply andb_true_iff in Eh as [Et Es].
  apply bool_decide_eq_true_1 in Et, Es. simpl. apply acts_row; [|done|set_solver|].
  - rewrite E. apply may_own; [by rewrite Et|done|]. intros y. apply Hf.
  - intros y Hy Hu. destruct (Hf _ _ Hy) as [-> _]. by apply (Hu K).
Qed.

Lemma legal_stmt {A R} (Q : gset nat -> option A -> Prop) (f : Z -> key_table -> R * key_table) h D k t0 :
  Q D None ->
  (forall now used t, t0 <= now -> table_used used t -> holds D used t k ->
     exists used' k', acts D now used t used' (f now t).2 /\ holds D used' (f now t).2 k'
       /\ legal Q (h (f now t).1) D k' now) ->
  legal Q (kbind (stmt f) h) D k t0.
Proof. intros HN H. simpl. split; [exact H|done]. Qed.

Lemma legal_own {A R} (Q : gset nat -> option A -> Prop) K token f (g : bool -> R) h D k t0 :
  Q D None -> token ∈ D -> (forall now x y, t0 <= now -> f x = Some y -> same_claim now x y) ->
  (forall b now, t0 <= now -> legal Q (h (g b)) D nothing now) ->
  legal Q (kbind (stmt (fun _ t => (g (change_row K (held_by token) f t).1, (change_row K (held_by token) f t).2))) h) D k t0.
Proof.
  intros HN Hin Hf Hh. apply legal_stmt; [done|]. intros now used t Hn Hu Hk. exists used, nothing.
  split; [apply acts_own; [done|intros x y; by apply Hf]|]. split; [apply holds_nothing|]. by apply Hh.
Qed.

Lemma kbind_ret {A} (p : kprog A) D k t0 Q : legal Q (kbind p KRet) D k t0 -> legal Q p D k t0.
Proof.
  revert D k t0. induction p as [a| |f IH|R f g IH]; intros D k t0; simpl; [done|done| |].
  - intros H x. by apply IH, H.
  - intros [H1 H2]. split; [|by apply IH]. intros now used t Hn Hu Hh.
    destruct (H1 now used t Hn Hu Hh) as (used' & k' & Ha & Hk & Hl). exists used', k'. split; [done|]. split; [done|]. by apply IH.
Qed.

Section calls.
Context (retention : Z) (encrypt : string -> option string).

(** Whatever a request was answered, a claim is on a token it drew. *)
Definition claims_own (D : gset nat) (a : option Admission) : Prop := forall token, a = Some (Claimed token) -> token ∈ D.
Definition claims_own_or_retry (D : gset nat) (a : option (option Admission)) : Prop :=
  forall token, a = Some (Some (Claimed token)) -> token ∈ D.

Lemma legal_taking r (seen : IdempotencyRecord) now token D t0 :
  token ∈ D -> now <= t0 -> ended now seen ->
  legal claims_own_or_retry
    (let* taken := take_over (row_of r) seen now (claim_values lease retention r token now) in
     KRet (if taken : bool then Some (Claimed token) else None)) D
    (mkKnows (Some token) (match state seen with COMPLETED => Some (row_of r, seen) | IN_PROGRESS => None end)) t0.
Proof.
  intros Hin Hn He. apply legal_stmt; [by intros tok [=]|]. intros now' used t Hn' Hu [H1 H2]. unfold change_row.
  destruct (H1 token eq_refl) as [_ Hfresh].
  destruct (records t !! row_of r) as [x|] eqn:E.
  2: { exists used, nothing. split; [apply acts_same|]. split; [apply holds_nothing|]. by intros tok [=]. }
  destruct (as_seen seen now x) eqn:Es.
  2: { exists used, nothing. split; [apply acts_same|]. split; [apply holds_nothing|]. by intros tok [=]. }
  unfold as_seen in Es. apply andb_true_iff in Es as [Es Hl]. apply andb_true_iff in Es as [Etok Est].
  apply bool_decide_eq_true_1 in Etok, Est.
  assert (Hx : ended now' x).
  { destruct (state seen) eqn:Ess.
    - unfold ended. rewrite Est. reflect_bools. lia.
    - destruct (H2 _ _ eq_refl) as (_ & _ & Hsame). rewrite (Hsame x E Etok). apply (ended_later now); [lia|done]. }
  exists (used ∪ {[token]}), nothing. split; [|split; [apply holds_nothing|by intros tok [= <-]]].
  simpl. apply acts_row; [|set_solver|set_solver|].
  - rewrite E. apply may_claim; [done|done|done|simpl; lia|]. by intros y [= <-].
  - intros y [= <-] _. simpl. set_solver.
Qed.

Lemma legal_try_admission r D k t0 :
  legal claims_own_or_retry (try_admission lease retention decrypt r) D k t0.
Proof.
  unfold try_admission. apply legal_look; [by intros tok [=]|]. intros now used t Hn Hu Hh. exists nothing. split; [apply holds_nothing|].
  set (n0 := now). simpl. intros token. clear used t Hu Hh.
  change (legal claims_own_or_retry
    (let* inserted := insert_claim (row_of r) (claim_values lease retention r token n0) in
     if inserted : bool then KRet (Some (Claimed token))
     else let* found := Idempotency.find (row_of r) in
          match found with
          | None => KRet None
          | Some seen =>
              if stale_at seen <=? n0 then
                let* taken := take_over (row_of r) seen n0 (claim_values lease retention r token n0) in
                KRet (if taken : bool then Some (Claimed token) else None)
              else if negb (bool_decide (request_hash seen = req_hash r)) then KRet (Some KeyReused)
              else match state seen with
                   | COMPLETED =>
                       match replay decrypt seen with
                       | Some a => KRet (Some a)
                       | None =>
                           let* taken := take_over (row_of r) seen n0 (claim_values lease retention r token n0) in
                           KRet (if taken : bool then Some (Claimed token) else None)
                       end
                   | IN_PROGRESS => KRet (Some StillInFlight)
                   end
          end) ({[token]} ∪ D) (mkKnows (Some token) None) n0).
  assert (Hin : token ∈ {[token]} ∪ D) by set_solver.
  apply legal_stmt; [by intros tok [=]|]. intros now1 used t Hn1 Hu Hh. destruct (holds_unwritten _ _ _ _ Hh token eq_refl) as [_ Hfresh].
  unfold insert_row. destruct (records t !! row_of r) as [x|] eqn:E.
  - exists used, (mkKnows (Some token) None). split; [apply acts_same|]. split; [exact Hh|]. cbn [fst].
    apply legal_look; [by intros tok [=]|]. intros now2 used2 t2 Hn2 Hu2 Hh2. destruct (holds_unwritten _ _ _ _ Hh2 token eq_refl) as [_ Hfresh2].
    destruct (records t2 !! row_of r) as [seen|] eqn:E2; [|exists nothing; split; [apply holds_nothing|by intros tok [=]]].
    exists (mkKnows (Some token) (match state seen with COMPLETED => Some (row_of r, seen) | IN_PROGRESS => None end)).
    split.
    { split; [by intros y [= <-]|]. intros K s. simpl. destruct (state seen) eqn:Es; [done|]. intros [= <- <-].
      split; [by apply (Hu2 _ _ E2)|]. split; [done|]. intros y Hy _. congruence. }
    destruct (stale_at seen <=? n0) eqn:Estale.
    { apply legal_taking; [done|lia|]. unfold ended. unfold stale_at in Estale. destruct (state seen); reflect_bools; [done|by left]. }
    destruct (negb _); [by intros tok [=]|]. destruct (state seen) eqn:Es; [by intros tok [=]|].
    destruct (replay decrypt seen) as [a0|] eqn:Er.
    { intros tok [= ->]. unfold replay in Er. apply bind_Some in Er as (c & _ & Er). apply bind_Some in Er as (b & _ & [=]). }
    pose proof (legal_taking r seen n0 token ({[token]} ∪ D) now2 Hin ltac:(lia)) as Ht. rewrite Es in Ht.
    apply Ht. unfold ended. rewrite Es. by right.
  - exists (used ∪ {[token]}), nothing. split; [|split; [apply holds_nothing|by intros tok [= <-]]].
    simpl. apply (acts_row _ _ _ _ _ _ (Some _)); [|set_solver|set_solver|].
    + rewrite E. apply may_claim; [done|done|done|simpl; lia|by intros y [=]].
    + intros y [= <-] _. simpl. set_solver.
Qed.

Lemma legal_loop r n D k t0 : legal claims_own (admission_loop lease retention decrypt r n) D k t0.
Proof.
  revert D k t0. induction n as [|n IH]; intros D k t0; cbn [admission_loop]; [by intros tok [=]|].
  eapply legal_bind; [apply legal_try_admission| |by intros D' _ tok [=]].
  intros D' k' t [a|] _ Ha; [|apply IH]. intros tok [= ->]. by apply Ha.
Qed.

Lemma legal_admission r D k t0 : legal claims_own (request_admission lease retention decrypt r) D k t0.
Proof.
  unfold request_admission. apply legal_look; [by intros tok [=]|]. intros now used t _ _ _. exists nothing.
  split; [apply holds_nothing|].
  destruct (callers t !! req_user r) as [[]|]; [by intros tok [=]|apply legal_loop|by intros tok [=]].
Qed.

(** A call of a holder leaves it the holder. *)
Definition still_own {A} (token : nat) (D : gset nat) (_ : option A) : Prop := token ∈ D.

Lemma legal_renew r token D k t0 : token ∈ D -> legal (still_own token) (renew lease r token) D k t0.
Proof.
  intros Hin. unfold renew. apply legal_look; [done|]. intros now used t Hn _ _. exists nothing. split; [apply holds_nothing|].
  apply kbind_ret. apply (legal_own _ _ _ (fun x => Some (with_lease (now + lease) x)) (fun b => b)); [done|done| |done].
  intros now' x y Hn' [= <-]. split; simpl; [done|lia].
Qed.

Lemma legal_renewing r token n D k t0 : token ∈ D -> legal (still_own token) (renewing lease r token n) D k t0.
Proof.
  revert D k t0. induction n as [|n IH]; intros D k t0 Hin; cbn [renewing]; [done|].
  eapply legal_bind; [apply (legal_or_else (still_own token)); [by apply legal_renew|done]| |done].
  intros D' k' t [] _ Hin'; [by apply IH|done].
Qed.

Lemma legal_release r token D k t0 : token ∈ D -> legal (still_own token) (release r token) D k t0.
Proof.
  intros Hin. unfold release. apply legal_or_else; [|done]. apply kbind_ret.
  apply (legal_own _ _ _ (fun _ => None) (fun _ => tt)); [done|done|done|done].
Qed.

Lemma legal_complete r token status body headers D k t0 :
  token ∈ D -> legal (still_own token) (complete retention encrypt r token status body headers) D k t0.
Proof.
  intros Hin. unfold complete.
  assert (Hr : forall D k t0, token ∈ D -> legal (still_own token) (let* _ := release r token in KRet false) D k t0).
  { intros D' k' t Hin'. eapply legal_bind; [by apply legal_release|done|done]. }
  destruct (_ <? _); [by apply Hr|]. destruct (encrypt body) as [c|]; [|by apply Hr].
  apply legal_or_else; [|done]. apply legal_look; [done|]. intros now used t Hn _ _. exists nothing.
  split; [apply holds_nothing|]. apply kbind_ret.
  apply (legal_own _ _ _ (fun x => Some (with_response status c headers (now + retention) x)) (fun b => b)); [done|done| |done].
  intros now' x y Hn' [= <-]. split; simpl; [done|lia].
Qed.

Lemma lookup_deletes (m : gmap row_key IdempotencyRecord) ks K :
  foldr delete m ks !! K = if decide (K ∈ ks) then None else m !! K.
Proof.
  induction ks as [|k ks IH]; cbn [foldr]; [by rewrite decide_False by apply not_elem_of_nil|].
  destruct (decide (k = K)) as [->|Hne].
  - by rewrite lookup_delete_eq, decide_True by (by left).
  - rewrite lookup_delete_ne, IH by done. destruct (decide (K ∈ ks)); [by rewrite decide_True by (by right)|].
    rewrite decide_False; [done|]. by intros [->|?]%elem_of_cons.
Qed.

Lemma expired_keys_ended now limit t K :
  K ∈ expired_keys now limit t -> exists r, records t !! K = Some r /\ is_expired now r = true.
Proof.
  intros ([K' r] & -> & Hin)%list_elem_of_fmap. exists r. simpl. apply list_elem_of_In in Hin.
  assert (Hall : (K', r) ∈ merge_sort expires_before (filter (fun kr => is_expired now kr.2 = true) (map_to_list (records t)))).
  { eapply elem_of_sublist; [by apply list_elem_of_In|apply sublist_take]. }
  rewrite merge_sort_Permutation in Hall. apply list_elem_of_filter in Hall as [He Hall]. by apply elem_of_map_to_list in Hall.
Qed.

Lemma legal_sweep batch fuel total D k t0 : legal (fun _ _ => True) (sweep_loop batch fuel total) D k t0.
Proof.
  revert D k t0 total. induction fuel as [|fuel IH]; intros D k t0 total; cbn [sweep_loop]; [done|].
  apply legal_look; [done|]. intros now used t Hn _ _. exists nothing. split; [apply holds_nothing|].
  apply legal_stmt; [done|]. intros now' used' t' Hn' Hu' _. exists used', nothing. split; [|split; [apply holds_nothing|]].
  - split; [|done|set_solver|].
    + intros K. simpl. rewrite lookup_deletes. destruct (decide (K ∈ _)) as [Hin|_]; [|constructor].
      apply expired_keys_ended in Hin as (x & -> & Hx). apply may_expire. unfold is_expired in Hx. unfold ended.
      apply andb_true_iff in Hx as [H1 H2]. apply orb_true_iff in H2. destruct (state x).
      * destruct H2 as [H2|H2]; [by apply bool_decide_eq_true_1 in H2|]. reflect_bools. lia.
      * left. reflect_bools. lia.
    + intros _ K x. simpl. rewrite lookup_deletes. destruct (decide _); [done|]. apply Hu'.
  - simpl. destruct (_ <? _)%nat; [done|]. apply IH.
Qed.

Lemma legal_key_call c D k t0 : legal any_end (run_key_call lease retention encrypt decrypt c) D k t0.
Proof.
  destruct c as [r renewals ends|batch fuel]; cbn [run_key_call].
  - eapply legal_bind; [apply legal_admission| |done]. intros D1 k1 t1 [token|? ? ?| | | |] _ Ho; try done.
    specialize (Ho token eq_refl). eapply legal_bind; [by apply legal_renewing| |done].
    intros D2 k2 t2 u _ Hin. destruct ends as [status body headers| |]; [| |done].
    + eapply legal_bind; [by apply legal_complete|done|done].
    + apply kbind_ret. eapply legal_bind; [by apply legal_release|done|done].
  - unfold sweep. destruct (_ <? _)%nat; [done|]. eapply legal_bind; [apply legal_sweep|done|done].
Qed.

Lemma legal_key_calls cs D k t0 : legal any_end (run_key_calls lease retention encrypt decrypt cs) D k t0.
Proof.
  revert D k t0. induction cs as [|c cs IH]; intros D k t0; cbn [run_key_calls]; [done|].
  eapply legal_bind; [apply legal_or_else; [apply legal_key_call|done]| |done]. intros D' k' t _ _ _. apply IH.
Qed.
(** The gateway's sessions, as they open. *)
Definition opens (calls : list (list key_call)) : list session :=
  map (fun cs => (∅, run_key_calls lease retention encrypt decrypt cs)) calls.

(** Every claim of the table was drawn before the next token. *)
Definition old_tokens (w : kworld) : Prop :=
  forall K r, records (ktable w) !! K = Some r -> (claim_token r < knext w)%nat.

Lemma opens_ok w calls : old_tokens w ->
  kpool_ok (set_seq 0 (knext w)) w (opens calls) (map (fun _ => nothing) calls).
Proof.
  intros Hold. assert (Hs : forall i s, opens calls !! i = Some s -> exists cs, s = (∅, run_key_calls lease retention encrypt decrypt cs)).
  { intros i s (cs & -> & _)%list_lookup_fmap_Some. by exists cs. }
  assert (Hk : forall i k, map (fun _ : list key_call => nothing) calls !! i = Some k -> k = nothing).
  { intros i k (cs & -> & _)%list_lookup_fmap_Some. done. }
  split.
  - unfold opens. by rewrite !length_map.
  - intros K r Hr. apply elem_of_set_seq. specialize (Hold K r Hr). lia.
  - intros x Hx%elem_of_set_seq. lia.
  - intros i s [cs ->]%Hs x. simpl. set_solver.
  - intros i j s s' [cs ->]%Hs _ _. set_solver.
  - intros i s k _ ->%Hk. apply holds_nothing.
  - intros i s k [cs ->]%Hs ->%Hk. apply legal_key_calls.
Qed.

(** No row is locked for more than a lease ahead. *)
Definition leases_bounded (w : kworld) : Prop :=
  forall K r, records (ktable w) !! K = Some r -> locked_until r <= kclock w + lease.

Lemma acts_bounded D w used used' t' x :
  acts D (kclock w) used (ktable w) used' t' -> leases_bounded w -> leases_bounded (mkKWorld t' (kclock w) x).
Proof.
  intros Ha Hb K y Hy. pose proof (acts_rows _ _ _ _ _ _ Ha K) as Hc. simpl in *. rewrite Hy in Hc.
  inversion Hc as [r0 E1 E2|r0 v Hv Hvu Hvs Hvl He E1 E2|z r0 Hz Hzs Hz' E1 E2|]; subst.
  - by apply (Hb K).
  - done.
  - destruct (Hz' y eq_refl) as [_ Hl]. assert (locked_until z <= kclock w + lease) by by apply (Hb K). lia.
Qed.

Lemma pool_bounded a b :
  rtc kpool a b -> forall used ks, kpool_ok used a.1 a.2 ks -> leases_bounded a.1 -> leases_bounded b.1.
Proof.
  induction 1 as [a|a a1 b Hstep _ IH]; intros used ks Hok Hb; [done|].
  destruct Hstep as [w ss i s w2 s2 Hi Hst|t now now' x ss Hn]; simpl in *.
  - destruct (ok_step used w ss ks i s w2 s2 Hok Hi Hst) as (used' & ks' & Hok' & Ha). apply (IH used' ks' Hok').
    pose proof (acts_bounded s2.1 w used used' (ktable w2) (knext w2) Ha Hb) as Hb2.
    assert (Hw : mkKWorld (ktable w2) (kclock w) (knext w2) = w2) by (by inversion Hst; subst; try destruct w2). by rewrite <- Hw.
  - apply (IH used ks); [by apply (ok_later used t now)|]. intros K r Hr. specialize (Hb K r Hr). simpl in *. lia.
Qed.

(** C2: whatever requests and sweeps run at once, in whatever order, and whatever statements
    fail, the row of a key is replaced or removed by a step of some session only when it ended
    - its lease lapsed, or its response expired or can no longer be read - or by the one session
    that drew its claim, while it is in progress. *)
Theorem claims_pass_when_ended w0 calls w1 ss i s w2 s' K r :
  old_tokens w0 ->
  rtc kpool (w0, opens calls) (w1, ss) ->
  ss !! i = Some s -> kstep w1 s w2 s' ->
  records (ktable w1) !! K = Some r -> records (ktable w2) !! K <> Some r ->
  ended (kclock w1) r \/
  (state r = IN_PROGRESS /\ claim_token r ∈ s.1 /\
   forall j s2, j <> i -> ss !! j = Some s2 -> claim_token r ∉ s2.1).
Proof.
  intros Hold Hrun Hi Hst Hr Hne. pose proof (opens_ok w0 calls Hold) as Hok.
  destruct (ok_pool _ _ Hrun _ _ Hok) as (used & ks & Hok1). simpl in Hok1.
  destruct (ok_step used w1 ss ks i s w2 s' Hok1 Hi Hst) as (used' & ks' & _ & Ha).
  assert (Hd : s'.1 = s.1) by (inversion Hst; subst; simpl in *; congruence). rewrite Hd in Ha.
  pose proof (acts_rows _ _ _ _ _ _ Ha K) as Hc. rewrite Hr in Hc.
  inversion Hc as [r0 E1 E2|r0 v Hv Hvu Hvs Hvl He E1 E2|z r0 Hz Hzs Hz' E1 E2|z He E1 E2]; subst; [congruence| | |by left].
  - left. by apply He.
  - right. split; [done|]. split; [done|]. intros j s2 Hj Hs2 Hin.
    pose proof (ok_disjoint _ _ _ _ Hok1 j i s2 s Hs2 Hi Hj) as Hdis. set_solver.
Qed.
End calls.
End safety.

(** ** A row another worker left *)

Definition plain (s : string) : option string := Some s.

Definition some_request : IdempotentRequest := mkRequest "key:k" "abc" "h" "u" (Some "k").

Definition left_behind : key_table :=
  mkTable {[row_of some_request := mkRecord "h" 0 IN_PROGRESS "u" (Some "k") None None None 0 5 100]} {["u" := false]}.

Lemma left_behind_old : old_tokens (mkKWorld left_behind 10 1).
Proof. intros K r. simpl. intros [<- <-]%lookup_singleton_Some. simpl. lia. Qed.

Definition first_steps : kworld * session :=
  advance 5 (mkKWorld left_behind 10 1) (∅, run_key_calls 60 600 plain plain [KeyedRequest some_request 0 Dies]).

Lemma claims_pass_when_ended_witness :
  exists r, records (ktable first_steps.1) !! row_of some_request = Some r /\ (
  ended plain (kclock first_steps.1) r \/
  (state r = IN_PROGRESS /\ claim_token r ∈ first_steps.2.1 /\
   forall j s2, j <> 0%nat -> [first_steps.2] !! j = Some s2 -> claim_token r ∉ s2.1)).
Proof.
  eexists. split; [vm_compute; reflexivity|].
  eapply (claims_pass_when_ended 60 plain 600 plain (mkKWorld left_behind 10 1) [[KeyedRequest some_request 0 Dies]]
           first_steps.1 [first_steps.2] 0 first_steps.2
           (advance 1 first_steps.1 first_steps.2).1 (advance 1 first_steps.1 first_steps.2).2 (row_of some_request)).
  - apply left_behind_old.
  - apply advance_pool.
  - reflexivity.
  - exact (advance_one first_steps.1 first_steps.2).
  - vm_compute. reflexivity.
  - vm_compute. discriminate.
Defined.
