(* ===== verification/IdempotencyOutcomes.v ===== *)
(** What a request with a key is answered, alone on the table: every branch of an admission, the
    end of a claim by its holder and by one that lost it, and the sweep of expired rows. *)
From S2P Require Import Prelude Periods Idempotency IdempotencySafety.
From stdpp Require Import gmap strings list fin_maps sorting relations.
From Stdlib Require Import ZArith Lia.
Open Scope Z_scope.
Open Scope keys_scope.

Section outcomes.
Context (lease retention : Z) (encrypt decrypt : string -> option string).

(** ** Admissions *)

(** What the request does of the row of its key, in one look. *)
Definition answer (r : IdempotentRequest) (now : Z) (token : nat) (row : option IdempotencyRecord)
  : Admission * option IdempotencyRecord :=
  let claim := (Claimed token, Some (claim_values lease retention r token now)) in
  match row with
  | None => claim
  | Some x =>
      if stale_at x <=? now then claim
      else if negb (bool_decide (request_hash x = req_hash r)) then (KeyReused, row)
      else match state x, replay decrypt x with
           | IN_PROGRESS, _ => (StillInFlight, row)
           | COMPLETED, Some a => (a, row)
           | COMPLETED, None => claim
           end
  end.

Definition put_row (K : row_key) (row : option IdempotencyRecord) (t : key_table) : key_table :=
  set_records t (partial_alter (fun _ => row) K (records t)).

Definition admit_at_once (r : IdempotentRequest) (w : kworld) : Admission * kworld :=
  match callers (ktable w) !! req_user r with
  | None => (UnknownCaller, w)
  | Some true => (BlockedCaller, w)
  | Some false =>
      let '(a, row) := answer r (kclock w) (knext w) (records (ktable w) !! row_of r) in
      (a, mkKWorld (put_row (row_of r) row (ktable w)) (kclock w) (S (knext w)))
  end.

Lemma put_row_same K t : put_row K (records t !! K) t = t.
Proof. destruct t as [m c]. unfold put_row, set_records. simpl. f_equal. by apply partial_alter_self. Qed.

Lemma put_row_same' K x t : records t !! K = Some x -> put_row K (Some x) t = t.
Proof. intros <-. apply put_row_same. Qed.

(** The row seen is still there when nobody else runs. *)
Lemma as_seen_self now x : (state x = IN_PROGRESS -> locked_until x <= now) -> as_seen x now x = true.
Proof.
  intros H. unfold as_seen. rewrite !bool_decide_eq_true_2 by done. simpl. destruct (state x); [|done].
  specialize (H eq_refl). apply Z.leb_le. lia.
Qed.

Lemma take_over_alone r x now token w :
  records (ktable w) !! row_of r = Some x -> (state x = IN_PROGRESS -> locked_until x <= now) ->
  krun (let* taken := take_over (row_of r) x now (claim_values lease retention r token now) in
        KRet (if taken : bool then Some (Claimed token) else None)) w =
  (Some (Some (Claimed token)),
   mkKWorld (put_row (row_of r) (Some (claim_values lease retention r token now)) (ktable w)) (kclock w) (knext w)).
Proof. intros Hx Hl. simpl. unfold change_row. rewrite Hx, as_seen_self by done. done. Qed.

Lemma try_admission_alone r w :
  krun (try_admission lease retention decrypt r) w =
    let '(a, row) := answer r (kclock w) (knext w) (records (ktable w) !! row_of r) in
    (Some (Some a), mkKWorld (put_row (row_of r) row (ktable w)) (kclock w) (S (knext w))).
Proof.
  unfold try_admission. rewrite krun_bind. cbn [krun get_database_time look stmt]. rewrite krun_bind. cbn [krun new_token].
  rewrite krun_bind. cbn [krun insert_claim stmt kclock ktable knext]. unfold insert_row, answer.
  destruct (records (ktable w) !! row_of r) as [x|] eqn:E; [|done].
  cbn [krun]. rewrite krun_bind. cbn [krun Idempotency.find look stmt kclock ktable knext]. rewrite E.
  destruct (stale_at x <=? kclock w) eqn:El.
  - rewrite take_over_alone with (x := x); [done|done|]. intros Hs. unfold stale_at in El. rewrite Hs in El. reflect_bools. done.
  - destruct (negb _); [cbn [krun]; by rewrite put_row_same'|].
    destruct (state x) eqn:Es; [cbn [krun]; by rewrite put_row_same'|].
    destruct (replay decrypt x) as [a|]; [cbn [krun]; by rewrite put_row_same'|].
    rewrite take_over_alone with (x := x); [done|done|]. by rewrite Es.
Qed.

Lemma admission_as_at_once_lemma r w :
  krun (request_admission lease retention decrypt r) w = (Some (admit_at_once r w).1, (admit_at_once r w).2).
Proof.
  unfold request_admission, admit_at_once. rewrite krun_bind. cbn [krun get_caller look stmt]. destruct w as [t now x]. simpl ktable.
  destruct (callers t !! req_user r) as [[]|]; [done| |done].
  unfold CHANGES_BEFORE_CONFLICT. cbn [admission_loop]. rewrite krun_bind, try_admission_alone. simpl.
  destruct (answer r now x (records t !! row_of r)) as [a row]. done.
Qed.

(** C26: a request that nobody races is answered as by one look at the row of its key: the first
    attempt of the loop settles it, whatever it finds - no row, a lapsed one, another request's,
    one in flight, a response that can be read or one that cannot - and changes only that row. *)
Theorem admission_as_at_once r w :
  krun (request_admission lease retention decrypt r) w = (Some (admit_at_once r w).1, (admit_at_once r w).2).
Proof. apply admission_as_at_once_lemma. Qed.

(** ** The end of a claim *)

(** C23: what a holder stores is given back: once its response was stored, every later request
    with the same key and body, until the retention ends, is answered that response - its status,
    body and headers - and changes no row. *)
Theorem stored_response_is_replayed r token status body headers c x w :
  records (ktable w) !! row_of r = Some x -> held_by token x = true -> request_hash x = req_hash r ->
  Z.of_nat (String.length body) <= MAX_STORED_BODY_BYTES ->
  encrypt body = Some c -> decrypt c = Some body -> callers (ktable w) !! req_user r = Some false ->
  exists w1, krun (complete retention encrypt r token status body headers) w = (Some true, w1) /\
    forall now', now' < kclock w + retention ->
      krun (request_admission lease retention decrypt r) (mkKWorld (ktable w1) now' (knext w1))
      = (Some (Replay (if status =? 0 then 200 else status) body headers), mkKWorld (ktable w1) now' (S (knext w1))).
Proof.
  intros Hx Hh Hreq Hlen Henc Hdec Hcaller. destruct w as [t now n]. simpl ktable in *. simpl kclock.
  set (stored := with_response status c headers (now + retention) x).
  exists (mkKWorld (put_row (row_of r) (Some stored) t) now n). split.
  - unfold complete. replace (MAX_STORED_BODY_BYTES <? _) with false by (symmetry; apply Z.ltb_ge; lia). rewrite Henc.
    unfold or_else. rewrite krun_handle, krun_bind. simpl. unfold change_row. rewrite Hx, Hh. done.
  - intros now' Hnow. rewrite admission_as_at_once_lemma. unfold admit_at_once. simpl ktable. simpl knext. simpl kclock.
    simpl callers. rewrite Hcaller.
    assert (Hrow : records (put_row (row_of r) (Some stored) t) !! row_of r = Some stored) by (simpl; by rewrite lookup_partial_alter_eq).
    rewrite Hrow. unfold answer.
    replace (stale_at stored <=? now') with false by (symmetry; apply Z.leb_gt; unfold stale_at, stored; simpl; lia).
    replace (request_hash stored) with (req_hash r) by (by unfold stored; simpl). rewrite bool_decide_eq_true_2 by done. simpl negb.
    replace (replay decrypt stored) with (Some (Replay (if status =? 0 then 200 else status) body headers)).
    + simpl. by rewrite put_row_same'.
    + unfold replay. simpl. rewrite Hdec. simpl. by destruct status.
Qed.

(** a session that lost its claim - the row is gone, is another's, or was completed - changes
    nothing when it renews, completes or releases it, and is told so where it is told anything. *)
Theorem lost_claim_changes_nothing r token status body headers w :
  (forall x, records (ktable w) !! row_of r = Some x -> held_by token x = false) ->
  krun (renew lease r token) w = (Some false, w) /\
  krun (complete retention encrypt r token status body headers) w = (Some false, w) /\
  krun (release r token) w = (Some tt, w).
Proof.
  intros Hlost. destruct w as [t now n]. simpl ktable in Hlost.
  assert (Hc : forall f, change_row (row_of r) (held_by token) f t = (false, t)).
  { intros f. unfold change_row. destruct (records t !! row_of r) as [x|]; [|done]. by rewrite (Hlost x eq_refl). }
  assert (Hrel : krun (release r token) (mkKWorld t now n) = (Some tt, mkKWorld t now n)).
  { unfold release, or_else. rewrite krun_handle. simpl. by rewrite Hc. }
  split; [|split; [|done]].
  - unfold renew. rewrite krun_bind. simpl. by rewrite Hc.
  - unfold complete. destruct (_ <? _); [by rewrite krun_bind, Hrel|].
    destruct (encrypt body) as [c|]; [|by rewrite krun_bind, Hrel].
    unfold or_else. rewrite krun_handle, krun_bind. simpl. by rewrite Hc.
Qed.

(** ** Abandoned claims *)

(** C22: a claim nobody ends does not hold its key for ever: whatever ran before, and with whatever
    failures, one lease after any moment at which the key is claimed and untouched since, the next
    request with it is given the claim. *)
Theorem abandoned_key_comes_back w0 calls w1 ss r now' :
  old_tokens w0 -> leases_bounded lease w0 ->
  rtc kpool (w0, opens lease decrypt retention encrypt calls) (w1, ss) ->
  callers (ktable w1) !! req_user r = Some false ->
  (forall x, records (ktable w1) !! row_of r = Some x -> state x = IN_PROGRESS) ->
  kclock w1 + lease <= now' ->
  krun (request_admission lease retention decrypt r) (mkKWorld (ktable w1) now' (knext w1))
  = (Some (Claimed (knext w1)),
     mkKWorld (put_row (row_of r) (Some (claim_values lease retention r (knext w1) now')) (ktable w1)) now' (S (knext w1))).
Proof.
  intros Hold Hb Hrun Hcaller Hs Hn.
  pose proof (pool_bounded lease decrypt _ _ Hrun _ _ (opens_ok lease decrypt retention encrypt w0 calls Hold) Hb) as Hb1.
  rewrite admission_as_at_once_lemma. unfold admit_at_once. simpl ktable. rewrite Hcaller. simpl. unfold answer.
  destruct (records (ktable w1) !! row_of r) as [x|] eqn:E; [|done].
  replace (stale_at x <=? now') with true; [done|]. symmetry. apply Z.leb_le. unfold stale_at. rewrite (Hs x eq_refl).
  specialize (Hb1 _ _ E). simpl in Hb1. lia.
Qed.
End outcomes.

(** ** The sweep *)

Definition expired_rows (now : Z) (m : gmap row_key IdempotencyRecord) : gmap row_key IdempotencyRecord :=
  filter (fun kr => is_expired now kr.2 = true) m.
Definition live_rows (now : Z) (m : gmap row_key IdempotencyRecord) : gmap row_key IdempotencyRecord :=
  filter (fun kr => is_expired now kr.2 = false) m.

Lemma size_deletes (m : gmap row_key IdempotencyRecord) ks :
  NoDup ks -> (forall K, K ∈ ks -> is_Some (m !! K)) -> (size (foldr delete m ks) + length ks = size m)%nat.
Proof.
  induction 1 as [|k ks Hk Hnd IH]; intros Hin; simpl; [lia|].
  assert (Hsome : is_Some (foldr delete m ks !! k)) by (rewrite lookup_deletes, decide_False by done; apply Hin; by left).
  rewrite map_size_delete_Some by done. assert (size (foldr delete m ks) <> 0)%nat.
  { rewrite map_size_non_empty_iff. intros E. rewrite E, lookup_empty in Hsome. by destruct Hsome. }
  specialize (IH (fun K HK => Hin K (list_elem_of_further _ _ _ HK))). lia.
Qed.

Lemma expired_sorted now (t : key_table) :
  merge_sort expires_before (filter (fun kr => is_expired now kr.2 = true) (map_to_list (records t)))
  ≡ₚ map_to_list (expired_rows now (records t)).
Proof. rewrite merge_sort_Permutation. apply NoDup_Permutation.
  - apply NoDup_filter, NoDup_map_to_list.
  - apply NoDup_map_to_list.
  - intros [K x]. rewrite list_elem_of_filter, !elem_of_map_to_list. unfold expired_rows. rewrite map_lookup_filter_Some. naive_solver.
Qed.

Lemma expired_keys_length now limit t :
  length (expired_keys now limit t) = Nat.min limit (size (expired_rows now (records t))).
Proof. unfold expired_keys. by rewrite length_fmap, length_take, (Permutation_length (expired_sorted now t)), length_map_to_list. Qed.

Lemma expired_keys_NoDup now limit t : NoDup (expired_keys now limit t).
Proof.
  unfold expired_keys. rewrite fmap_take. eapply sublist_NoDup; [|apply sublist_take].
  rewrite (fmap_Permutation fst _ _ (expired_sorted now t)). apply NoDup_fst_map_to_list.
Qed.

Lemma swept_rows now limit t :
  let m' := foldr delete (records t) (expired_keys now limit t) in
  (size (expired_rows now m') + length (expired_keys now limit t) = size (expired_rows now (records t)))%nat /\
  live_rows now m' = live_rows now (records t).
Proof.
  intros m'. split.
  - assert (E : expired_rows now m' = foldr delete (expired_rows now (records t)) (expired_keys now limit t)).
    { unfold m', expired_rows. generalize (expired_keys now limit t) as ks. induction ks as [|k ks IH]; simpl; [done|].
      by rewrite map_filter_delete, IH. }
    rewrite E. apply size_deletes; [apply expired_keys_NoDup|]. intros K HK.
    destruct (expired_keys_ended _ _ _ _ HK) as (x & Hx & He). exists x. by apply map_lookup_filter_Some.
  - apply map_filter_strong_ext. intros K x. unfold m'. rewrite lookup_deletes. destruct (decide _) as [HK|]; [|done].
    destruct (expired_keys_ended _ _ _ _ HK) as (y & Hy & He). simpl. split; [naive_solver|].
    intros [Hx HK']. rewrite Hy in HK'. injection HK' as ->. congruence.
Qed.

Lemma nothing_expired now m : size (expired_rows now m) = 0%nat -> live_rows now m = m.
Proof.
  intros H%map_size_empty_inv. apply map_filter_id. intros K x Hx. simpl.
  destruct (is_expired now x) eqn:E; [|done]. assert (Hin : expired_rows now m !! K = Some x) by (by apply map_lookup_filter_Some).
  rewrite H, lookup_empty in Hin. discriminate.
Qed.

Lemma sweep_loop_deletes batch fuel total t now n :
  (0 < batch)%nat -> (size (expired_rows now (records t)) < fuel * batch)%nat ->
  krun (sweep_loop batch fuel total) (mkKWorld t now n) =
    (Some (Some (total + size (expired_rows now (records t)))%nat),
     mkKWorld (set_records t (live_rows now (records t))) now n).
Proof.
  intros Hb. revert t total. induction fuel as [|fuel IH]; intros t total Hf; [lia|].
  cbn [sweep_loop]. rewrite krun_bind. cbn [krun get_database_time look stmt kclock ktable knext].
  rewrite krun_bind. cbn [krun delete_expired stmt kclock ktable knext].
  destruct (swept_rows now batch t) as [Hsize Hlive]. pose proof (expired_keys_length now batch t) as Hlen.
  destruct (_ <? _)%nat eqn:E; [apply Nat.ltb_lt in E|apply Nat.ltb_ge in E].
  - cbn [krun]. do 2 f_equal; [do 2 f_equal; lia|]. unfold set_records. f_equal.
    rewrite <- Hlive. symmetry. apply nothing_expired. lia.
  - rewrite IH; [|simpl; lia]. simpl. rewrite Hlive. do 3 f_equal. lia.
Qed.

(** A sweep ends, after one statement for each full batch of expired rows and one more, having
    deleted every row that expired - completed, or with a lapsed lease - and no other row. *)
Theorem sweep_deletes_expired batch fuel w :
  (0 < batch)%nat -> (size (expired_rows (kclock w) (records (ktable w))) < fuel * batch)%nat ->
  krun (sweep batch fuel) w =
    (Some (Some (size (expired_rows (kclock w) (records (ktable w))))),
     mkKWorld (set_records (ktable w) (live_rows (kclock w) (records (ktable w)))) (kclock w) (knext w)).
Proof.
  intros Hb Hf. unfold sweep. replace (batch <? 1)%nat with false by (symmetry; apply Nat.ltb_ge; lia).
  destruct w as [t now n]. by apply (sweep_loop_deletes batch fuel 0).
Qed.

(** ** Concrete tables *)

Definition held : key_table :=
  mkTable {[row_of some_request := mkRecord "h" 7 IN_PROGRESS "u" (Some "k") None None None 0 30 600]} {["u" := false]}.

Lemma stored_response_is_replayed_witness :
  exists w1, krun (complete 600 plain some_request 7 0 "body" []) (mkKWorld held 10 8) = (Some true, w1) /\
    forall now', now' < 10 + 600 ->
      krun (request_admission 60 600 plain some_request) (mkKWorld (ktable w1) now' (knext w1))
      = (Some (Replay 200 "body" []), mkKWorld (ktable w1) now' (S (knext w1))).
Proof.
  apply (stored_response_is_replayed 60 600 plain plain some_request 7 0 "body" [] "body"
           (mkRecord "h" 7 IN_PROGRESS "u" (Some "k") None None None 0 30 600) (mkKWorld held 10 8));
    try (vm_compute; reflexivity). vm_compute. discriminate.
Defined.

Lemma lost_claim_changes_nothing_witness :
  krun (renew 60 some_request 6) (mkKWorld held 10 8) = (Some false, mkKWorld held 10 8) /\
  krun (complete 600 plain some_request 6 200 "body" []) (mkKWorld held 10 8) = (Some false, mkKWorld held 10 8) /\
  krun (release some_request 6) (mkKWorld held 10 8) = (Some tt, mkKWorld held 10 8).
Proof.
  apply (lost_claim_changes_nothing 60 600 plain some_request 6 200 "body" [] (mkKWorld held 10 8)).
  intros x. vm_compute. intros [= <-]. reflexivity.
Defined.

Lemma abandoned_key_comes_back_witness :
  (krun (request_admission 60 600 plain some_request) (mkKWorld held 70 8)).1 = Some (Claimed 8).
Proof.
  refine (f_equal fst (abandoned_key_comes_back 60 600 plain plain (mkKWorld held 10 8) [[KeySweep 10 10]] (mkKWorld held 10 8)
             (opens 60 plain 600 plain [[KeySweep 10 10]]) some_request 70 _ _ _ _ _ _)).
  - intros K r. simpl. intros [<- <-]%lookup_singleton_Some. simpl. lia.
  - intros K r. simpl. intros [<- <-]%lookup_singleton_Some. simpl. lia.
  - apply rtc_refl.
  - reflexivity.
  - intros x. vm_compute. intros [= <-]. reflexivity.
  - simpl. lia.
Defined.

Lemma sweep_deletes_expired_witness :
  krun (sweep 1 2) (mkKWorld held 600 8) = (Some (Some 1%nat), mkKWorld (mkTable ∅ {["u" := false]}) 600 8).
Proof.
  rewrite (sweep_deletes_expired 1 2 (mkKWorld held 600 8)); [|lia|vm_compute; lia].
  vm_compute. reflexivity.
Defined.
