(* ===== verification/Text.v ===== *)
(** The string operations of Python the components use ([partition], [startswith], [endswith],
    [strip], [lower], [in]), on ASCII text, and their lemmas. *)
From S2P Require Import Prelude.
From stdpp Require Import base strings list.
From Stdlib Require Import ZArith Lia Ascii.

Local Open Scope string_scope.

(** [s.partition(c)]: before and after the first [c]; all of [s] before it when it has none. *)
Fixpoint partition_at (c : ascii) (s : string) : string * string :=
  match s with
  | EmptyString => ("", "")
  | String a s' => if decide (a = c) then ("", s') else let '(x, y) := partition_at c s' in (String a x, y)
  end.

Fixpoint starts_with (p s : string) : bool :=
  match p, s with
  | EmptyString, _ => true
  | String a p, String b s => bool_decide (a = b) && starts_with p s
  | String _ _, EmptyString => false
  end.

(** [s.endswith(c)] and [s[:-1]]. *)
Fixpoint ends_with (c : ascii) (s : string) : bool :=
  match s with
  | EmptyString => false
  | String a EmptyString => bool_decide (a = c)
  | String _ s' => ends_with c s'
  end.

Fixpoint but_last (s : string) : string :=
  match s with
  | EmptyString => ""
  | String _ EmptyString => ""
  | String a s' => String a (but_last s')
  end.

Fixpoint has_char (c : ascii) (s : string) : bool :=
  match s with EmptyString => false | String a s' => bool_decide (a = c) || has_char c s' end.

Definition is_space (c : ascii) : bool :=
  let n := nat_of_ascii c in (((9 <=? n) && (n <=? 13)) || ((28 <=? n) && (n <=? 32)))%nat.

Fixpoint strip_left (s : string) : string :=
  match s with EmptyString => "" | String a s' => if is_space a then strip_left s' else s end.

Fixpoint strip_right (s : string) : string :=
  match s with
  | EmptyString => ""
  | String a s' => match strip_right s' with
                   | EmptyString => if is_space a then "" else String a ""
                   | t => String a t
                   end
  end.

Definition strip (s : string) : string := strip_right (strip_left s).

Definition lower_char (c : ascii) : ascii :=
  let n := nat_of_ascii c in if ((65 <=? n) && (n <=? 90))%nat then ascii_of_nat (n + 32) else c.
Fixpoint lower (s : string) : string :=
  match s with EmptyString => "" | String a s' => String (lower_char a) (lower s') end.

Lemma starts_with_spec p s : starts_with p s = true <-> exists t, s = p +:+ t.
Proof.
  revert s. induction p as [|a p IH]; intros s; simpl.
  - split; [by exists s|done].
  - destruct s as [|b s]; simpl; [split; [done|by intros [t Ht]]|]. rewrite andb_true_iff, IH, bool_decide_eq_true.
    split; [intros [-> [t ->]]; by exists t|]. intros [t [= -> ->]]. split; [done|by exists t].
Qed.

Lemma string_app_assoc (a b c : string) : a +:+ (b +:+ c) = (a +:+ b) +:+ c.
Proof. induction a as [|x a IH]; [done|]. change (String x (a +:+ (b +:+ c)) = String x ((a +:+ b) +:+ c)). by rewrite IH. Qed.

Lemma starts_with_trans a b c : starts_with a b = true -> starts_with b c = true -> starts_with a c = true.
Proof. rewrite !starts_with_spec. intros [x ->] [y ->]. exists (x +:+ y). by rewrite string_app_assoc. Qed.

Lemma starts_with_refl a : starts_with a a = true.
Proof. apply starts_with_spec. exists "". induction a as [|x a IH]; [done|]. change (String x a = String x (a +:+ "")). by rewrite <- IH. Qed.

Lemma ends_with_has c s : ends_with c s = true -> has_char c s = true.
Proof.
  induction s as [|a s IH]; simpl; [done|]. destruct s as [|b s]; [intros ->; done|].
  intros H. rewrite IH by done. by destruct (bool_decide _).
Qed.

Lemma strip_left_idemp s : strip_left (strip_left s) = strip_left s.
Proof. induction s as [|a s IH]; simpl; [done|]. destruct (is_space a) eqn:E; [done|]. simpl. by rewrite E. Qed.

Lemma strip_right_idemp s : strip_right (strip_right s) = strip_right s.
Proof.
  induction s as [|a s IH]; simpl; [done|]. destruct (strip_right s) as [|b t] eqn:E.
  - destruct (is_space a) eqn:Ea; simpl; [done|by rewrite Ea].
  - cbn [strip_right] in *. by rewrite IH.
Qed.

(** Stripping the right leaves a first character that is no space in place. *)
Lemma strip_right_head a s : is_space a = false -> exists t, strip_right (String a s) = String a t.
Proof. intros Ha. simpl. destruct (strip_right s) as [|b t]; [rewrite Ha; by exists ""|by eexists]. Qed.

Lemma strip_idemp s : strip (strip s) = strip s.
Proof.
  unfold strip. destruct (strip_left s) as [|a t] eqn:E; [done|].
  assert (Ha : is_space a = false).
  { pose proof (strip_left_idemp s) as H. rewrite E in H. simpl in H. destruct (is_space a) eqn:Es; [|done].
    exfalso. clear E. revert H. assert (forall u, String.length (strip_left u) <= String.length u)%nat as Hl.
    { induction u as [|x u IH]; simpl; [lia|]. destruct (is_space x); simpl; lia. }
    intros H. specialize (Hl t). rewrite H in Hl. simpl in Hl. lia. }
  destruct (strip_right_head a t Ha) as [u Hu]. rewrite Hu. simpl. rewrite Ha. change (strip_right (String a u) = String a u).
  rewrite <- Hu. apply strip_right_idemp.
Qed.

Lemma has_char_strip_left c s : has_char c (strip_left s) = true -> has_char c s = true.
Proof.
  induction s as [|a s IH]; simpl; [done|]. destruct (is_space a); [|done]. intros H. rewrite IH by done. apply orb_true_r.
Qed.

Lemma has_char_strip_right c s : has_char c (strip_right s) = true -> has_char c s = true.
Proof.
  induction s as [|a s IH]; simpl; [done|]. destruct (strip_right s) as [|b t].
  - destruct (is_space a); simpl; [done|]. rewrite orb_false_r. by intros ->.
  - cbn [has_char]. intros [->|H]%orb_true_iff; [done|]. rewrite (IH H). apply orb_true_r.
Qed.

Lemma has_char_strip c s : has_char c (strip s) = true -> has_char c s = true.
Proof. intros H. by apply has_char_strip_left, has_char_strip_right. Qed.
