(* ===== verification/ModelAccess.v ===== *)
(** Which models, tools and MCP tools a caller may use ([src/src/gateway/services/model_access.py]):
    the allow-lists of keys and users, how a key's narrows its user's, and the access rules of
    stored MCP servers.  The names the configuration knows are a record. *)
From S2P Require Import Prelude Text.
From stdpp Require Import base strings list.
From Stdlib Require Import ZArith Lia Ascii.

Local Open Scope string_scope.

Definition colon : ascii := ":"%char.
Definition star : ascii := "*"%char.

(** An allow-list: [None] is unrestricted, [Some []] denies all. *)
Notation allowlist := (option (list string)).

(** ** Models *)

Definition entry_matches (entry canonical_key : string) : bool :=
  let '(entry_instance, entry_model) := partition_at colon entry in
  let '(key_instance, key_model) := partition_at colon canonical_key in
  if bool_decide (entry_instance = "") || bool_decide (key_instance = "") then false
  else if negb (bool_decide (entry_instance = key_instance)) then false
  else if bool_decide (entry_model = "*") then true
  else if ends_with star entry_model then starts_with (but_last entry_model) key_model
  else bool_decide (entry_model = key_model).

Definition is_model_allowed (al : allowlist) (canonical_key : string) : bool :=
  match al with None => true | Some l => existsb (fun entry => entry_matches entry canonical_key) l end.

Definition covers (parent : list string) (entry : string) : bool :=
  let '(inst, model) := partition_at colon entry in
  if negb (ends_with star model) then is_model_allowed (Some parent) entry
  else
    let child_prefix := but_last model in
    existsb (fun candidate =>
      let '(c_inst, c_model) := partition_at colon candidate in
      bool_decide (c_inst = inst)
      && (bool_decide (c_model = "*") || (ends_with star c_model && starts_with (but_last c_model) child_prefix))) parent.

Definition is_allowlist_subset (child parent : allowlist) (tool_keys : list string) : bool :=
  match child, parent with
  | None, _ | _, None => true
  | Some c, Some p =>
      forallb (fun entry => if bool_decide (entry ∈ tool_keys) then bool_decide (entry ∈ p) else covers p entry) c
  end.

(** A key's list and its user's, as a request's caller has them: no key is the master key. *)
Definition effective_allowlist (api_key : option allowlist) (user : option allowlist) : allowlist :=
  match api_key with
  | Some (Some l) => Some l
  | _ => match user with Some u => u | None => None end
  end.

(** [resolve_request_allowlist]: [user_list] looks the key's user up. *)
Definition resolve_request_allowlist (api_key : option (allowlist * option string)) (user_list : string -> allowlist)
  : allowlist :=
  match api_key with
  | None => effective_allowlist None None
  | Some (Some l, _) => effective_allowlist (Some (Some l)) None
  | Some (None, None) => None
  | Some (None, Some user_id) => user_list user_id
  end.

Record ModelRefusal := mkRefusal { refusal_code : string; refusal_status : Z; refusal_detail_text : string }.

Definition unresolvable_model_detail (selector : string) : string :=
  "Unknown or unsupported model " +:+ selector.
Definition model_not_allowed_detail (model : string) : string :=
  "Model '" +:+ model +:+ "' is not permitted for this API key.".

Definition unresolved_model_refusal (resolved_instance : option string) (selector : string) : option ModelRefusal :=
  match resolved_instance with
  | Some _ => None
  | None => Some (mkRefusal "invalid_model" 400 (unresolvable_model_detail selector))
  end.

Definition key_model_refusal (al : allowlist) (canonical_key : option string) (selector : string) : option ModelRefusal :=
  match al, canonical_key with
  | None, _ => None
  | Some _, None => unresolved_model_refusal None selector
  | Some _, Some k =>
      if is_model_allowed al k then None
      else Some (mkRefusal "model_not_allowed" 403 (model_not_allowed_detail selector))
  end.

(** ** Writes of [allowed_models] *)

Record access_config := mkAccess {
  known_prefix : string -> bool;    (** configured instances, decision providers, any-llm's names *)
  alias_names : list string;
  legacy_search_tool_keys : list string;
  search_tool_names : list string    (** [search_tools] and the effective fetch instances *)
}.

(** [split_selector]: at the first [:] or [/]. *)
Fixpoint split_at (s : string) : option (string * string) :=
  match s with
  | EmptyString => None
  | String a s' =>
      if bool_decide (a = ":"%char) || bool_decide (a = "/"%char) then Some ("", s')
      else match split_at s' with Some (x, y) => Some (String a x, y) | None => None end
  end.

Definition split_selector (s : string) : option (string * string) :=
  match split_at s with
  | Some (EmptyString, _) | Some (_, EmptyString) | None => None
  | Some p => Some p
  end.

(** [None] is the [ValueError]. *)
Definition validate_entry (config : access_config) (entry : string) : option string :=
  let entry := strip entry in
  if bool_decide (entry = "") || bool_decide (entry ∈ alias_names config) then None
  else
    match split_selector entry with
    | None => None
    | Some (prefix, model) =>
        if has_char star prefix then None
        (* more than one [*], or one that is not the last character *)
        else if has_char star (but_last model) then None
        else
          let canonical := prefix +:+ ":" +:+ model in
          if known_prefix config prefix || bool_decide (canonical ∈ legacy_search_tool_keys config)
          then Some canonical else None
    end.

Fixpoint validate_entries (config : access_config) (entries canonical : list string) : option (list string) :=
  match entries with
  | [] => Some canonical
  | e :: es =>
      match validate_entry config e with
      | None => None
      | Some n => validate_entries config es (if bool_decide (n ∈ canonical) then canonical else canonical ++ [n])
      end
  end.

Definition validate_allowed_models (config : access_config) (entries : allowlist) : option allowlist :=
  match entries with
  | None => Some None
  | Some es => match validate_entries config es [] with Some l => Some (Some l) | None => None end
  end.

(** ** Search and fetch tools *)

Definition ALL_SEARCH_TOOLS : string := "*".

Fixpoint dedup (seen l : list string) : list string :=
  match l with
  | [] => []
  | x :: l => if bool_decide (x ∈ seen) then dedup seen l else x :: dedup (x :: seen) l
  end.

Definition legacy_tool_grants (config : access_config) (models : allowlist) : allowlist :=
  match models with
  | None => None
  | Some l =>
      Some (filter (fun name => name <> ALL_SEARCH_TOOLS)
              (map (fun entry => (partition_at colon entry).2)
                   (filter (fun entry => entry ∈ legacy_search_tool_keys config) (dedup [] l))))
  end.

Definition effective_tool_allowlist (config : access_config) (key_tools key_models user_tools user_models : allowlist)
  : allowlist :=
  match key_tools, user_tools, key_models with
  | Some l, _, _ => Some l
  | None, Some l, _ => Some l
  | None, None, None => legacy_tool_grants config user_models
  | None, None, Some _ =>
      let grants := default [] (legacy_tool_grants config key_models) in
      match legacy_tool_grants config user_models with
      | None => Some grants
      | Some user_grants => Some (filter (fun name => name ∈ user_grants) grants)
      end
  end.

Definition is_tool_allowed (al : allowlist) (tool : string) : bool :=
  match al with None => true | Some l => bool_decide (ALL_SEARCH_TOOLS ∈ l) || bool_decide (tool ∈ l) end.

Definition is_tool_allowlist_subset (child parent : allowlist) : bool :=
  match child, parent with
  | None, _ | _, None => true
  | Some c, Some p =>
      bool_decide (ALL_SEARCH_TOOLS ∈ p)
      || forallb (fun entry => negb (bool_decide (entry = ALL_SEARCH_TOOLS)) && bool_decide (entry ∈ p)) c
  end.

Definition tools_within_user (config : access_config) (tools user_tools user_models : allowlist) : bool :=
  is_tool_allowlist_subset tools (effective_tool_allowlist config None None user_tools user_models).

Fixpoint validate_tool_names (config : access_config) (entries names : list string) : option (list string) :=
  match entries with
  | [] => Some names
  | e :: es =>
      let name := strip e in
      if negb (bool_decide (name = ALL_SEARCH_TOOLS)) && negb (bool_decide (name ∈ search_tool_names config)) then None
      else validate_tool_names config es (if bool_decide (name ∈ names) then names else names ++ [name])
  end.

Definition validate_allowed_tools (config : access_config) (entries : allowlist) : option allowlist :=
  match entries with
  | None => Some None
  | Some es => match validate_tool_names config es [] with Some l => Some (Some l) | None => None end
  end.

(** ** Writing the lists *)

Record AccessLists := mkAccessLists { list_models : allowlist; list_tools : allowlist }.

(** The lists to store, beside those of the owner where the key has one that is found; [None] is a [ValueError]. *)
Definition check_access_lists (config : access_config) (requested stored : AccessLists) (owner : option AccessLists) : option AccessLists :=
  let models_changed := negb (bool_decide (list_models requested = list_models stored)) in
  let tools_changed := negb (bool_decide (list_tools requested = list_tools stored)) in
  match (if models_changed then validate_allowed_models config (list_models requested) else Some (list_models stored)),
        (if tools_changed then validate_allowed_tools config (list_tools requested) else Some (list_tools stored)) with
  | Some models, Some tools =>
      let checked := mkAccessLists models tools in
      match owner with
      | Some owner =>
          if negb (models_changed || tools_changed) then Some checked
          else if models_changed && negb (is_allowlist_subset models (list_models owner) (legacy_search_tool_keys config)) then None
          else if tools_changed && negb (tools_within_user config tools (list_tools owner) (list_models owner)) then None
          else Some checked
      | None => Some checked
      end
  | _, _ => None
  end.

(** ** MCP servers *)

Definition MAX_MCP_TOOL_PATTERNS : nat := 256.
Definition MAX_MCP_TOOL_PATTERN_LENGTH : nat := 256.
Definition MCP_READ_PRESET : string := "@read".

Definition is_mcp_tool_allowed (patterns : list string) (tool : string) : bool :=
  existsb (fun pattern =>
    negb (bool_decide (pattern = MCP_READ_PRESET))
    && (bool_decide (pattern = tool) || (ends_with star pattern && starts_with (but_last pattern) tool))) patterns.

Definition expand_mcp_tool_patterns (patterns read_tools : list string) : list string :=
  if bool_decide (MCP_READ_PRESET ∈ patterns) then
    let expanded := filter (fun pattern => pattern <> MCP_READ_PRESET) patterns in
    expanded ++ filter (fun name => name ∉ expanded) read_tools
  else patterns.

Fixpoint check_patterns (patterns checked : list string) : option (list string) :=
  match patterns with
  | [] => Some checked
  | p :: ps =>
      let name := strip p in
      if bool_decide (name = "") then None
      else if (MAX_MCP_TOOL_PATTERN_LENGTH <? String.length name)%nat then None
      else if has_char star (but_last name) then None
      else if starts_with "@" name && negb (bool_decide (name = MCP_READ_PRESET)) then None
      else check_patterns ps (if bool_decide (name ∈ checked) then checked else checked ++ [name])
  end.

Definition validate_mcp_tool_patterns (patterns : list string) : option (list string) :=
  if (MAX_MCP_TOOL_PATTERNS <? length patterns)%nat then None
  else match check_patterns patterns [] with
       | None => None
       | Some checked => Some (if bool_decide ("*" ∈ checked) then ["*"] else checked)
       end.

Fixpoint check_read_tools (names checked : list string) : option (list string) :=
  match names with
  | [] => Some checked
  | n :: ns =>
      let name := strip n in
      if bool_decide (name = "") then None
      else if (MAX_MCP_TOOL_PATTERN_LENGTH <? String.length name)%nat then None
      else if has_char star n || starts_with "@" name then None
      else check_read_tools ns (if bool_decide (name ∈ checked) then checked else checked ++ [name])
  end.

Definition validate_mcp_read_tools (names : list string) : option (list string) :=
  if (MAX_MCP_TOOL_PATTERNS <? length names)%nat then None else check_read_tools names [].

Inductive McpAccessSource := ByKey | ByUser | ByEveryone.

Record McpAccess := mkMcpAccess {
  unrestricted : bool;
  key_grants : list (string * list string);
  user_grants : list (string * list string);
  request_servers_allowed : bool
}.

Fixpoint grant_on (server_id : string) (grants : list (string * list string)) : option (list string) :=
  match grants with
  | [] => None
  | (s, tools) :: grants => if bool_decide (s = server_id) then Some tools else grant_on server_id grants
  end.

Definition mcp_decide (a : McpAccess) (server_id : string) (everyone_tools : list string) : McpAccessSource * list string :=
  if unrestricted a then (ByEveryone, ["*"])
  else match grant_on server_id (key_grants a), grant_on server_id (user_grants a) with
       | Some tools, _ => (ByKey, tools)
       | None, Some tools => (ByUser, tools)
       | None, None => (ByEveryone, everyone_tools)
       end.

Definition patterns_for (a : McpAccess) (server_id : string) (everyone_tools read_tools : list string) : list string :=
  expand_mcp_tool_patterns (mcp_decide a server_id everyone_tools).2 read_tools.

Definition may_declare_servers (a : McpAccess) : bool := unrestricted a || request_servers_allowed a.

(** ** A key narrows its user's access *)

(** What a key's own list may be is what its user's may be and no more. *)
Lemma entry_matches_covered parent entry key :
  covers parent entry = true -> entry_matches entry key = true -> is_model_allowed (Some parent) key = true.
Proof.
  unfold covers, is_model_allowed, entry_matches.
  destruct (partition_at colon entry) as [inst model] eqn:Ee, (partition_at colon key) as [ki km] eqn:Ek.
  destruct (bool_decide (inst = "") || bool_decide (ki = "")) eqn:Eempty; [done|].
  destruct (decide (inst = ki)) as [<-|Hne]; [|by rewrite (bool_decide_eq_false_2 (inst = ki)) by done].
  rewrite (bool_decide_eq_true_2 (inst = inst)) by done. simpl negb. cbv iota.
  destruct (ends_with star model) eqn:Es; simpl negb; cbv iota.
  - intros (c & Hc & Hcov)%existsb_exists Hm. apply existsb_exists. exists c. split; [done|].
    destruct (partition_at colon c) as [ci cm]. apply andb_true_iff in Hcov as [Hi Hcov]. apply bool_decide_eq_true in Hi as ->.
    rewrite Eempty. rewrite (bool_decide_eq_true_2 (inst = inst)) by done. simpl.
    destruct (decide (cm = "*")) as [->|Hcm]; [done|]. rewrite (bool_decide_eq_false_2 (cm = "*")) in * by done.
    simpl in Hcov. apply andb_true_iff in Hcov as [-> Hpre]. destruct (decide (model = "*")) as [->|Hmodel].
    + simpl in Hpre. by destruct (but_last cm).
    + rewrite bool_decide_eq_false_2 in Hm by done. by eapply starts_with_trans.
  - destruct (decide (model = "*")) as [->|Hmodel]; [done|]. rewrite (bool_decide_eq_false_2 (model = "*")) by done.
    intros Hall ->%bool_decide_eq_true. done.
Qed.

(** The key reaches what its user's lists let a user reach, and no more. *)
Definition narrows (config : access_config) (key user : AccessLists) : Prop :=
  (forall m, is_model_allowed (effective_allowlist (Some (list_models key)) (Some (list_models user))) m = true ->
     is_model_allowed (list_models user) m = true) /\
  (forall tool, is_tool_allowed (effective_tool_allowlist config (list_tools key) (list_models key) (list_tools user) (list_models user)) tool = true ->
     is_tool_allowed (effective_tool_allowlist config None None (list_tools user) (list_models user)) tool = true).

Lemma fitting_lists_narrow config models tools user_models user_tools :
  is_allowlist_subset models user_models (legacy_search_tool_keys config) = true ->
  tools_within_user config tools user_tools user_models = true ->
  narrows config (mkAccessLists models tools) (mkAccessLists user_models user_tools).
Proof.
  intros Hm Ht. split; cbn [list_models list_tools].
  - intros key. destruct models as [c|]; [|done]. destruct user_models as [p|]; [|done]. simpl in Hm.
    intros (entry & Hin & Hk)%existsb_exists. apply forallb_forall with (x := entry) in Hm; [|done].
    destruct (decide (entry ∈ legacy_search_tool_keys config)) as [Hk'|Hk'].
    + rewrite bool_decide_eq_true_2 in Hm by done. apply bool_decide_eq_true, list_elem_of_In in Hm.
      apply existsb_exists. by exists entry.
    + rewrite bool_decide_eq_false_2 in Hm by done. by eapply entry_matches_covered.
  - intros tool. unfold tools_within_user in Ht. destruct tools as [c|].
    + simpl effective_tool_allowlist at 1. destruct (effective_tool_allowlist config None None user_tools user_models) as [p|]; [|done].
      simpl in *. apply orb_true_iff in Ht as [Ht|Ht]; [by rewrite Ht|].
      rewrite forallb_forall in Ht. intros [Hs|Hs]%orb_true_iff; apply bool_decide_eq_true, list_elem_of_In in Hs;
        apply Ht, andb_true_iff in Hs as [Hns Hp]; [done|by rewrite Hp, orb_true_r].
    + destruct user_tools as [u|]; [done|]. destruct models as [c|]; [|done]. simpl.
      destruct user_models as [p|]; simpl; [|done]. clear. intros H. apply orb_true_iff in H.
      apply orb_true_iff. rewrite !bool_decide_eq_true in *.
      destruct H as [H|H]; apply list_elem_of_filter in H as [H _]; [by left|by right].
Qed.

(** C16: a key of a user narrows, as its lists are written: where a write of a key's lists is let through beside its user's,
    and a list the write leaves as it is still fits them, the key reaches no model and no tool that these lists of the user
    do not reach, and what it leaves unset it inherits.  The check is of that moment: a list left as it is is not checked
    again, and a user narrowed later does not narrow the keys written before. *)
Theorem keys_only_narrow config requested stored user written :
  check_access_lists config requested stored (Some user) = Some written ->
  (list_models requested = list_models stored -> is_allowlist_subset (list_models stored) (list_models user) (legacy_search_tool_keys config) = true) ->
  (list_tools requested = list_tools stored -> tools_within_user config (list_tools stored) (list_tools user) (list_models user) = true) ->
  narrows config written user.
Proof.
  intros Hw Hm Ht. unfold check_access_lists in Hw. destruct user as [user_models user_tools]. cbn [list_models list_tools] in *.
  destruct (if negb (bool_decide (list_models requested = _)) then _ else _) as [models|] eqn:Em; [|done].
  destruct (if negb (bool_decide (list_tools requested = _)) then _ else _) as [tools|] eqn:Et; [|done].
  assert (mkAccessLists models tools = written /\ is_allowlist_subset models user_models (legacy_search_tool_keys config) = true
          /\ tools_within_user config tools user_tools user_models = true) as (<- & H1 & H2); [|by apply fitting_lists_narrow].
  assert (list_models requested = list_models stored -> is_allowlist_subset models user_models (legacy_search_tool_keys config) = true) as Fm
    by (intros E; rewrite bool_decide_eq_true_2 in Em by done; injection Em as <-; auto).
  assert (list_tools requested = list_tools stored -> tools_within_user config tools user_tools user_models = true) as Ft
    by (intros E; rewrite bool_decide_eq_true_2 in Et by done; injection Et as <-; auto).
  clear Em Et Hm Ht. repeat case_bool_decide; cbn [negb orb andb] in Hw;
    destruct (is_allowlist_subset models _ _), (tools_within_user config tools _ _); cbn [negb] in Hw; try done; injection Hw as <-; naive_solver.
Qed.

(** ** What an MCP rule grants *)

(** A pattern a write leaves as it is. *)
Definition clean_pattern (name : string) : Prop :=
  strip name = name /\ name <> "" /\ (String.length name <= MAX_MCP_TOOL_PATTERN_LENGTH)%nat /\
  has_char star (but_last name) = false /\ (starts_with "@" name = true -> name = MCP_READ_PRESET).

Lemma check_patterns_clean ps checked out :
  Forall clean_pattern checked -> NoDup checked -> check_patterns ps checked = Some out ->
  Forall clean_pattern out /\ NoDup out /\ (length out <= length checked + length ps)%nat.
Proof.
  revert checked. induction ps as [|p ps IH]; intros checked Hc Hnd; cbn [check_patterns].
  { intros [= <-]. split; [done|]. split; [done|simpl; lia]. }
  destruct (decide (strip p = "")) as [He|Hne]; [by rewrite bool_decide_eq_true_2|]. rewrite bool_decide_eq_false_2 by done.
  destruct (_ <? _)%nat eqn:El; [done|]. apply Nat.ltb_ge in El. destruct (has_char star _) eqn:Es; [done|].
  destruct (starts_with "@" (strip p) && _) eqn:Ea; [done|]. destruct (decide (strip p ∈ checked)) as [Hin|Hin].
  - rewrite bool_decide_eq_true_2 by done. intros (H1 & H2 & H3)%IH; [|done..]. split; [done|]. split; [done|simpl; lia].
  - rewrite bool_decide_eq_false_2 by done. intros (H1 & H2 & H3)%IH.
    + split; [done|]. split; [done|]. rewrite length_app in H3. simpl in *. lia.
    + apply Forall_app. split; [done|]. apply Forall_singleton. split; [apply strip_idemp|]. split; [done|]. split; [done|].
      split; [done|]. intros Hat. rewrite Hat in Ea. simpl in Ea. by apply negb_false_iff, bool_decide_eq_true in Ea.
    + apply NoDup_app. split; [done|]. split; [|apply NoDup_singleton]. intros x Hx ->%list_elem_of_singleton. done.
Qed.

Lemma check_patterns_same ps checked :
  Forall clean_pattern ps -> NoDup (checked ++ ps)%list -> check_patterns ps checked = Some (checked ++ ps)%list.
Proof.
  revert checked. induction ps as [|p ps IH]; intros checked Hc Hnd; cbn [check_patterns]; [by rewrite app_nil_r|].
  apply Forall_cons in Hc as [(Hs & Hne & Hl & Hst & Hat) Hc]. rewrite Hs, bool_decide_eq_false_2 by done.
  replace (_ <? _)%nat with false by (symmetry; apply Nat.ltb_ge; lia). rewrite Hst.
  replace (starts_with "@" p && _) with false.
  2: { destruct (starts_with "@" p); [|done]. by rewrite Hat, bool_decide_eq_true_2. }
  rewrite bool_decide_eq_false_2.
  - rewrite (IH (checked ++ [p])%list); [by rewrite <- app_assoc|done|by rewrite <- app_assoc].
  - intros Hin. apply NoDup_app in Hnd as (_ & Hd & _). apply (Hd p Hin). by left.
Qed.

Lemma validated_patterns_stay ps q : validate_mcp_tool_patterns ps = Some q -> validate_mcp_tool_patterns q = Some q.
Proof.
  unfold validate_mcp_tool_patterns. destruct (_ <? _)%nat eqn:El; [done|]. apply Nat.ltb_ge in El.
  destruct (check_patterns ps []) as [checked|] eqn:E; [|done]. intros [= <-].
  apply check_patterns_clean in E as (Hc & Hnd & Hlen); [|constructor|constructor]. simpl in Hlen.
  destruct (decide ("*" ∈ checked)) as [Hin|Hin].
  - by rewrite bool_decide_eq_true_2.
  - rewrite bool_decide_eq_false_2 by done. replace (_ <? _)%nat with false by (symmetry; apply Nat.ltb_ge; lia).
    rewrite (check_patterns_same checked []) by done. simpl. by rewrite bool_decide_eq_false_2.
Qed.

Lemma check_read_tools_exact names checked out :
  Forall (fun n => has_char star n = false /\ n <> MCP_READ_PRESET) checked -> check_read_tools names checked = Some out ->
  Forall (fun n => has_char star n = false /\ n <> MCP_READ_PRESET) out.
Proof.
  revert checked. induction names as [|n names IH]; intros checked Hc; cbn [check_read_tools]; [by intros [= <-]|].
  destruct (bool_decide _); [done|]. destruct (_ <? _)%nat; [done|]. destruct (has_char star n || _) eqn:E; [done|].
  apply orb_false_iff in E as [Es Ea]. apply IH. destruct (bool_decide (strip n ∈ checked)); [done|].
  apply Forall_app. split; [done|]. apply Forall_singleton. split.
  - destruct (has_char star (strip n)) eqn:Eh; [|done]. apply has_char_strip in Eh. congruence.
  - intros Hn. rewrite Hn in Ea. discriminate.
Qed.

Definition grants_tool (pattern tool : string) : bool :=
  negb (bool_decide (pattern = MCP_READ_PRESET))
  && (bool_decide (pattern = tool) || (ends_with star pattern && starts_with (but_last pattern) tool)).

Lemma mcp_allowed_spec patterns tool :
  is_mcp_tool_allowed patterns tool = true <-> exists p, p ∈ patterns /\ grants_tool p tool = true.
Proof. unfold is_mcp_tool_allowed. rewrite existsb_exists. setoid_rewrite list_elem_of_In. done. Qed.

Lemma exact_name_grants n tool :
  has_char star n = false -> n <> MCP_READ_PRESET -> grants_tool n tool = bool_decide (n = tool).
Proof.
  intros Hs Hn. unfold grants_tool. rewrite bool_decide_eq_false_2 by done. simpl.
  destruct (ends_with star n) eqn:E; [by apply ends_with_has in E; congruence|]. by rewrite orb_false_r.
Qed.

(** what a write accepts for a server's rules means what it says: accepted patterns are written
    back as they are, and a caller may call a tool of the server exactly when the rule that decides
    for it names the tool, or names [@read] and the server's managers labeled that tool read. *)
Theorem mcp_rules_mean_what_they_say written patterns labeled read access server everyone tool :
  validate_mcp_tool_patterns written = Some patterns ->
  validate_mcp_read_tools labeled = Some read ->
  (mcp_decide access server everyone).2 = patterns ->
  validate_mcp_tool_patterns patterns = Some patterns /\
  (is_mcp_tool_allowed (patterns_for access server everyone read) tool = true <->
   is_mcp_tool_allowed patterns tool = true \/ (MCP_READ_PRESET ∈ patterns /\ tool ∈ read)).
Proof.
  intros Hw Hr Hd. split; [by eapply validated_patterns_stay|].
  assert (Hexact : Forall (fun n => has_char star n = false /\ n <> MCP_READ_PRESET) read).
  { unfold validate_mcp_read_tools in Hr. destruct (_ <? _)%nat; [done|]. by apply check_read_tools_exact in Hr. }
  rewrite Forall_forall in Hexact. unfold patterns_for, expand_mcp_tool_patterns. rewrite Hd, !mcp_allowed_spec.
  destruct (decide (MCP_READ_PRESET ∈ patterns)) as [Hin|Hin].
  2: { rewrite bool_decide_eq_false_2 by done. naive_solver. }
  rewrite bool_decide_eq_true_2 by done. split.
  - intros (p & [Hp|Hp]%elem_of_app & Hg); apply list_elem_of_filter in Hp as [Hq Hp]; [left; by exists p|].
    right. split; [done|]. destruct (Hexact p Hp) as [Hs Hn]. rewrite exact_name_grants in Hg by done.
    by apply bool_decide_eq_true in Hg as ->.
  - intros [(p & Hp & Hg)|[_ Ht]].
    + exists p. split; [|done]. apply elem_of_app. left. apply list_elem_of_filter. split; [|done].
      intros ->. unfold grants_tool in Hg. by rewrite bool_decide_eq_true_2 in Hg.
    + destruct (Hexact tool Ht) as [Hs Hn]. exists tool. rewrite exact_name_grants, bool_decide_eq_true_2 by done.
      split; [|done]. apply elem_of_app. destruct (decide (tool ∈ filter (fun p => p <> MCP_READ_PRESET) patterns)) as [H|H]; [by left|].
      right. by apply list_elem_of_filter.
Qed.

(** ** Concrete lists *)

Definition some_config : access_config := mkAccess (fun _ => true) [] [] [].

Definition wide_user : AccessLists := mkAccessLists (Some ["openai:gpt*"]) (Some ["*"]).
Definition narrowed_user : AccessLists := mkAccessLists (Some ["openai:gpt-4*"]) (Some []).
Definition written_key : AccessLists := mkAccessLists (Some ["openai:gpt-3*"]) None.

Lemma keys_only_narrow_witness :
  check_access_lists some_config written_key (mkAccessLists None None) (Some wide_user) = Some written_key
  /\ narrows some_config written_key wide_user.
Proof.
  split; [by vm_compute|]. apply (keys_only_narrow some_config written_key (mkAccessLists None None) wide_user); [by vm_compute|done|by vm_compute].
Defined.

(** A user narrowed after the write: a later write that changes nothing is let through, and the key still reaches the model. *)
Lemma narrowing_reaches_no_key :
  check_access_lists some_config written_key written_key (Some narrowed_user) = Some written_key
  /\ is_model_allowed (effective_allowlist (Some (list_models written_key)) (Some (list_models narrowed_user))) "openai:gpt-3.5" = true
  /\ is_model_allowed (list_models narrowed_user) "openai:gpt-3.5" = false.
Proof. by vm_compute. Qed.

Lemma mcp_rules_mean_what_they_say_witness :
  let access := mkMcpAccess false [("s", ["@read"; "get_*"])] [] true in
  validate_mcp_tool_patterns ["@read"; "get_*"] = Some ["@read"; "get_*"] /\
  (is_mcp_tool_allowed (patterns_for access "s" [] ["list"]) "list" = true <->
   is_mcp_tool_allowed ["@read"; "get_*"] "list" = true \/ (MCP_READ_PRESET ∈ ["@read"; "get_*"] /\ "list" ∈ ["list"])).
Proof.
  intros access. apply (mcp_rules_mean_what_they_say [" @read"; "get_*"; "@read"] ["@read"; "get_*"] ["list "] ["list"] access "s" [] "list");
    vm_compute; reflexivity.
Defined.
