(* ===== verification/Routing.v ===== *)
(** Routing policies: the schema of a policy and its validation ([src/src/gateway/models/routing.py]),
    the router's part in a request ([src/src/gateway/services/routing/backends.py], [decide.py]) and
    the compiler that turns a policy, or a catalog ID, into the ordered plan a request walks
    ([src/src/gateway/services/routing/compiler.py]).

    A Python float is a binary64 value of the Standard Library.  What the configuration resolves a
    selector to, the organization's refusals and the country gate are arguments; a backend's ranking
    is one too, failing or late where it answers [None]. *)
From S2P Require Import Prelude Text ModelAccess.
From stdpp Require Import base gmap strings list.
From Stdlib Require Import ZArith Lia Ascii SpecFloat.

Local Open Scope string_scope.

Notation float := spec_float.

Definition float_le (x y : float) : bool := SFleb x y.
Definition float_lt (x y : float) : bool := SFltb x y.
Definition float_finite (x : float) : bool :=
  match x with S754_zero _ | S754_finite _ _ _ => true | _ => false end.

Definition float_zero : float := S754_zero false.
Definition float_one : float := S754_finite false 4503599627370496 (-52).
Definition float_hundred : float := S754_finite false 7036874417766400 (-46).

(** ** The schema *)

Definition MAX_CANDIDATES : nat := 5.
Definition WEIGHTED_BACKEND : string := "weighted".
Definition PRIORITY_BACKEND : string := "priority".

Record Threshold := mkThreshold { gte : option float; gt : option float; lte : option float; lt : option float }.

Definition exactly_one_comparator (t : Threshold) : bool :=
  bool_decide (length (omap id [gte t; gt t; lte t; lt t]) = 1%nat).

Definition threshold_value (t : Threshold) : float :=
  match gte t, gt t, lte t, lt t with
  | Some v, _, _, _ | None, Some v, _, _ | None, None, Some v, _ | None, None, None, Some v => v
  | None, None, None, None => S754_nan    (** no validated threshold *)
  end.

Definition threshold_matches (t : Threshold) (observed : float) : bool :=
  let threshold := threshold_value t in
  if is_set (gte t) then float_le threshold observed
  else if is_set (gt t) then float_lt threshold observed
  else if is_set (lte t) then float_le observed threshold
  else float_lt observed threshold.

(** One id, or any of a list. *)
Inductive ids := OneId (id : string) | AnyId (l : list string).
Definition ids_list (i : ids) : list string := match i with OneId x => [x] | AnyId l => l end.

Record WhenClause := mkWhen {
  budget_used_pct : option Threshold;
  budget_remaining_usd : option Threshold;
  when_user_id : option ids;
  when_key_id : option ids
}.

Definition conditions (w : WhenClause) : list string :=
  (if is_set (budget_used_pct w) then ["budget_used_pct"] else [])
  ++ (if is_set (budget_remaining_usd w) then ["budget_remaining_usd"] else [])
  ++ (if is_set (when_user_id w) then ["user_id"] else [])
  ++ (if is_set (when_key_id w) then ["key_id"] else []).

(** The budget gate refuses before selection a request past its cap. *)
Definition stays_under_the_cap (w : WhenClause) : bool :=
  match budget_used_pct w with
  | Some used => negb ((is_set (gte used) || is_set (gt used)) && float_le float_hundred (threshold_value used))
  | None => true
  end.

Definition when_ok (w : WhenClause) : bool :=
  negb (bool_decide (conditions w = [])) && stays_under_the_cap w
  && match budget_used_pct w with Some t => exactly_one_comparator t | None => true end
  && match budget_remaining_usd w with Some t => exactly_one_comparator t | None => true end.

Record SelectEntry := mkEntry {
  when : option WhenClause;
  target : option string;
  default_selector : option string;
  router : option string;
  candidates : option (list string);
  weights : option (list (string * float))
}.

Definition exactly_one_destination (e : SelectEntry) : bool :=
  bool_decide (length (omap id [target e; default_selector e; router e]) = 1%nat).

Definition conditions_belong_to_targets (e : SelectEntry) : bool :=
  negb (is_set (when e) && is_set (default_selector e)) && negb (is_set (when e) && is_set (router e)).

Definition candidates_belong_to_routers (e : SelectEntry) : bool :=
  match router e, candidates e with
  | None, None => true
  | None, Some _ => false
  | Some _, None => false
  | Some _, Some c => bool_decide (2 <= length c)%nat && bool_decide (NoDup c)
  end.

Definition weights_belong_to_the_weighted_router (e : SelectEntry) : bool :=
  if match router e with Some r => bool_decide (lower (strip r) = WEIGHTED_BACKEND) | None => false end then
    match weights e with
    | None | Some [] => false
    | Some w => forallb (fun kw => float_finite kw.2 && negb (float_lt kw.2 float_zero)) w
                && existsb (fun kw => float_lt float_zero kw.2) w
    end
  else negb (is_set (weights e)).

Definition entry_ok (e : SelectEntry) : bool :=
  exactly_one_destination e && conditions_belong_to_targets e && candidates_belong_to_routers e
  && weights_belong_to_the_weighted_router e
  && match when e with Some w => when_ok w | None => true end.

Definition entry_selector (e : SelectEntry) : option string :=
  match target e with Some t => Some t | None => default_selector e end.

Record PolicySpec := mkPolicy { select : list SelectEntry; on_failure : list string }.

Fixpoint first_of {A B} (f : A -> option B) (l : list A) : option B :=
  match l with [] => None | x :: l => match f x with Some y => Some y | None => first_of f l end end.

Definition default_of (spec : PolicySpec) : option string := first_of default_selector (select spec).

(** The [AssertionError] of a policy without a default, which none validated is, serves [""]. *)
Definition default_target (spec : PolicySpec) : string :=
  match default_of spec with Some d => d | None => "" end.

Definition router_backend (spec : PolicySpec) : option string := first_of router (select spec).

Definition router_weights (spec : PolicySpec) : list (string * float) :=
  match first_of (fun e => match router e, weights e with
                           | Some _, Some (w :: ws) => Some (w :: ws)
                           | _, _ => None
                           end) (select spec) with
  | Some w => w
  | None => []
  end.

Definition router_candidates (spec : PolicySpec) : list string :=
  match first_of (fun e => match router e, candidates e with
                           | Some _, Some (c :: cs) => Some (c :: cs)
                           | _, _ => None
                           end) (select spec) with
  | Some pool => if bool_decide (default_target spec ∈ pool) then pool else pool ++ [default_target spec]
  | None => []
  end.

Definition is_dynamic (spec : PolicySpec) : bool :=
  is_set (router_backend spec) || existsb (fun e => is_set (when e)) (select spec).

Fixpoint add_new (l seen : list string) : list string :=
  match l with
  | [] => seen
  | x :: l => add_new l (if bool_decide (x ∈ seen) then seen else seen ++ [x])
  end.

Definition static_selectors (spec : PolicySpec) : list string :=
  let of_entry (ordered : list string) (e : SelectEntry) :=
    add_new (match candidates e with Some c => c | None => [] end)
      (match entry_selector e with Some s => add_new [s] ordered | None => ordered end) in
  add_new (on_failure spec) (foldl of_entry [] (select spec)).

(** The default entry is the one, and the last. *)
Fixpoint one_default_and_it_comes_last (l : list SelectEntry) : bool :=
  match l with
  | [] => false
  | [e] => is_set (default_selector e)
  | e :: l => negb (is_set (default_selector e)) && one_default_and_it_comes_last l
  end.

Definition candidate_count (spec : PolicySpec) : nat :=
  (match router_candidates spec with [] => 1 | pool => length pool end + length (on_failure spec))%nat.

Definition candidate_count_within_cap (spec : PolicySpec) : bool :=
  bool_decide (candidate_count spec <= MAX_CANDIDATES)%nat.

Definition weight_keys_name_candidates (spec : PolicySpec) : bool :=
  forallb (fun kw => bool_decide (kw.1 ∈ router_candidates spec)) (router_weights spec).

Definition policy_ok (spec : PolicySpec) : bool :=
  forallb entry_ok (select spec) && one_default_and_it_comes_last (select spec)
  && candidate_count_within_cap spec && weight_keys_name_candidates spec.

(** ** Selection *)

Record BudgetState := mkBudgetState { used_pct : option float; remaining_usd : option float }.

Record RouterOrdering := mkOrdering { selectors : list string; confidence : float; rationale : string }.

Definition needs_budget_state (spec : PolicySpec) : bool :=
  existsb (fun e => match when e with
                    | Some w => is_set (budget_used_pct w) || is_set (budget_remaining_usd w)
                    | None => false
                    end) (select spec).

(** A condition on what is undefined never holds. *)
Definition observed_matches (t : option Threshold) (observed : option float) : bool :=
  match t, observed with
  | None, _ => true
  | Some _, None => false
  | Some t, Some x => threshold_matches t x
  end.

Definition id_matches (allowed : option ids) (id : option string) : bool :=
  match allowed, id with
  | None, _ => true
  | Some _, None => false
  | Some a, Some x => bool_decide (x ∈ ids_list a)
  end.

Definition matches (w : WhenClause) (user_id key_id : option string) (budget : BudgetState) : bool :=
  observed_matches (budget_used_pct w) (used_pct budget)
  && observed_matches (budget_remaining_usd w) (remaining_usd budget)
  && id_matches (when_user_id w) user_id && id_matches (when_key_id w) key_id.

Definition entry_applies (e : SelectEntry) (user_id key_id : option string) (budget : BudgetState) : bool :=
  match when e with Some w => matches w user_id key_id budget | None => false end.

Fixpoint consults (entries : list SelectEntry) (user_id key_id : option string) (budget : BudgetState) : bool :=
  match entries with
  | [] => false
  | e :: entries =>
      if is_set (default_selector e) then false
      else if is_set (router e) then true
      else if entry_applies e user_id key_id budget then false
      else consults entries user_id key_id budget
  end.

Definition selection_consults_router (spec : PolicySpec) (user_id key_id : option string) (budget : BudgetState) : bool :=
  consults (select spec) user_id key_id budget.

Fixpoint join_with (sep : string) (l : list string) : string :=
  match l with
  | [] => ""
  | [x] => x
  | x :: l => x +:+ sep +:+ join_with sep l
  end.

Definition condition_reason (w : WhenClause) : string := "condition:" +:+ join_with "," (conditions w).
Definition router_reason (name : string) : string := "router:" +:+ name.

Fixpoint select_from (entries : list SelectEntry) (fallthrough : string) (user_id key_id : option string)
    (budget : BudgetState) (ordering : option RouterOrdering) : list (string * string) :=
  match entries with
  | [] => [(fallthrough, "default")]
  | e :: entries =>
      match default_selector e, router e, when e with
      | Some d, _, _ => [(d, "default")]
      | None, Some r, _ =>
          match ordering with
          | Some (mkOrdering (s :: ss) _ _) => map (fun x => (x, router_reason r)) (s :: ss)
          | _ => select_from entries fallthrough user_id key_id budget ordering
          end
      | None, None, Some w =>
          if matches w user_id key_id budget
          then [(match target e with Some t => t | None => "" end, condition_reason w)]
          else select_from entries fallthrough user_id key_id budget ordering
      | None, None, None => select_from entries fallthrough user_id key_id budget ordering
      end
  end.

Definition select_head (spec : PolicySpec) (user_id key_id : option string) (budget : BudgetState)
    (ordering : option RouterOrdering) : list (string * string) :=
  select_from (select spec) (default_target spec) user_id key_id budget ordering.

(** ** The plan *)

Record Attempt := mkAttempt {
  position : nat;
  instance : string;
  provider : string;
  model : string;
  attempt_kwargs : gmap string string;
  display_model : option string;
  selection_reason : string;
  deployment_paid : bool
}.

Definition dispatch_model (a : Attempt) : string := provider a +:+ ":" +:+ model a.

Record ResolvedProvider := mkResolved {
  res_instance : string; res_provider : string; res_model : string;
  res_kwargs : gmap string string; res_alias : option string
}.

Inductive drop_reason := Unresolvable | NotAllowed | CountryNotSupported | Duplicate | OverCap.
#[export] Instance drop_reason_eq_dec : EqDecision drop_reason.
Proof. solve_decision. Defined.

Record DroppedCandidate := mkDropped { dropped_selector : string; reason : drop_reason }.

Record CompiledPlan := mkPlan {
  plan_name : string;
  attempts : list Attempt;
  dropped : list DroppedCandidate;
  router_ordering : option RouterOrdering
}.

Record NoEligibleCandidatesError := mkNoEligible { policy_name : string; why : list DroppedCandidate }.

Definition unresolvable_only (d : list DroppedCandidate) : bool :=
  negb (bool_decide (d = [])) && forallb (fun x => bool_decide (reason x = Unresolvable)) d.
Definition error_status (e : NoEligibleCandidatesError) : Z := if unresolvable_only (why e) then 502%Z else 403%Z.

Section compile.
(** [resolve_provider_selector] in the request's workspace, for a user where one is named. *)
Context (resolve : option string -> string -> option ResolvedProvider).
Context (org_refuses : string -> ResolvedProvider -> bool).    (** [organization_key_refusal] *)
Context (al : allowlist) (country_refuses : string -> bool).

Definition canonical (r : ResolvedProvider) : string := res_instance r +:+ ":" +:+ res_model r.

(** What becomes of one candidate, given the plan so far. *)
Definition check_candidate (seen : list string) (selector : string) : drop_reason + ResolvedProvider :=
  match resolve None selector with
  | None => inl Unresolvable
  | Some r =>
      if bool_decide (canonical r ∈ seen) then inl Duplicate
      else if negb (is_model_allowed al (canonical r)) then inl NotAllowed
      else if org_refuses selector r then inl NotAllowed
      else if country_refuses (res_instance r) then inl CountryNotSupported
      else inr r
  end.

Fixpoint resolve_from (limit : nat) (display : string) (ordered : list (string * string))
    (attempts : list Attempt) (dropped : list DroppedCandidate) (seen : list string)
  : list Attempt * list DroppedCandidate :=
  match ordered with
  | [] => (attempts, dropped)
  | (selector, why) :: ordered =>
      if (limit <=? length attempts)%nat
      then resolve_from limit display ordered attempts (dropped ++ [mkDropped selector OverCap]) seen
      else match check_candidate seen selector with
           | inl because => resolve_from limit display ordered attempts (dropped ++ [mkDropped selector because]) seen
           | inr r =>
               resolve_from limit display ordered
                 (attempts ++ [mkAttempt (S (length attempts)) (res_instance r) (res_provider r) (res_model r)
                                 (res_kwargs r) (Some display) why false])
                 dropped (canonical r :: seen)
           end
  end.

Definition resolve_candidates (limit : nat) (display : string) (ordered : list (string * string))
  : list Attempt * list DroppedCandidate := resolve_from limit display ordered [] [] [].

Definition compile_policy (name : string) (spec : PolicySpec) (user_id key_id : option string) (budget : BudgetState)
    (ordering : option RouterOrdering) : NoEligibleCandidatesError + CompiledPlan :=
  let selected := select_head spec user_id key_id budget ordering in
  let routed := match selected with (_, why) :: _ => starts_with "router:" why | [] => false end in
  let '(attempts, dropped) :=
    resolve_candidates MAX_CANDIDATES name (selected ++ map (fun s => (s, "on_failure")) (on_failure spec)) in
  match attempts with
  | [] => inl (mkNoEligible name dropped)
  | _ => inr (mkPlan name attempts dropped (if routed then ordering else None))
  end.

Definition reachable_candidates (name : string) (selectors : list string) : list Attempt :=
  (resolve_candidates MAX_CANDIDATES name (map (fun s => (s, "default")) selectors)).1.

Definition with_reason (why : string) (a : Attempt) : Attempt :=
  mkAttempt (position a) (instance a) (provider a) (model a) (attempt_kwargs a) (display_model a) why (deployment_paid a).

(** The first [:] of an offering as the [/] of a catalog ID. *)
Definition slashed (s : string) : string :=
  if has_char ":"%char s then let '(x, y) := partition_at ":"%char s in x +:+ "/" +:+ y else s.

Definition compile_catalog_plan (offerings : list string) (selector : string) (limit : nat) : option CompiledPlan :=
  if (length offerings <? 2)%nat then None
  else
    let limit := if existsb (fun s => bool_decide (slashed s = selector)) offerings
                 then Nat.min limit MAX_CANDIDATES else limit in
    let '(attempts, dropped) := resolve_candidates limit selector (map (fun s => (s, "catalog")) offerings) in
    match attempts with
    | [] => None
    | a :: rest => Some (mkPlan selector (a :: map (with_reason "on_failure") rest) dropped None)
    end.

(** ** The router *)

Record RoutingSignal := mkSignal { conversation_id : option string; opted_out : bool }.

Record RoutingContext := mkContext {
  ctx_user_id : string; default_model : string; candidate_pool : list string; ctx_weights : list (string * float)
}.

Record RoutingDecision := mkDecision { ordered_models : list string; dec_confidence : float; dec_rationale : string }.

Definition decline (why : string) : RoutingDecision := mkDecision [] float_zero why.

Definition priority_rank (ctx : RoutingContext) : RoutingDecision :=
  match candidate_pool ctx with
  | [] => decline "no candidate in the pool is usable by this caller"
  | pool => mkDecision pool float_one ("priority order (" +:+ join_with ", " pool +:+ ")")
  end.

(** A backend ranks the pool; [None] is an exception or a ranking past its deadline. *)
Definition backend : Type := RoutingContext -> option RoutingDecision.

Definition get_router_backend (weighted : backend) (name : string) : option backend :=
  let n := lower (strip name) in
  if bool_decide (n = PRIORITY_BACKEND) then Some (fun ctx => Some (priority_rank ctx))
  else if bool_decide (n = WEIGHTED_BACKEND) then Some weighted
  else None.

(** Tested for the request's user, which [check_candidate] does not name. *)
Definition usable_candidate (user_id : option string) (selector : string) : bool :=
  match resolve user_id selector with Some r => is_model_allowed al (canonical r) | None => false end.
Definition usable_candidates (user_id : option string) (candidates : list string) : list string :=
  filter (fun selector => usable_candidate user_id selector = true) candidates.

(** [None] where there is nothing to ask. *)
Definition decide_ordering (weighted : backend) (spec : PolicySpec) (user_id : option string)
    (signal : option RoutingSignal) : option RouterOrdering :=
  match router_backend spec, signal with
  | None, _ | _, None => None
  | Some name, Some signal =>
      if opted_out signal then Some (mkOrdering [] float_zero "caller sent Otari-Router: off")
      else match get_router_backend weighted name with
           | None => None
           | Some rank =>
               match usable_candidates user_id (router_candidates spec) with
               | [] => Some (mkOrdering [] float_zero "no candidate in the pool is usable by this caller")
               | pool =>
                   match rank (mkContext (match user_id with Some u => u | None => "" end)
                                 (default_target spec) pool (router_weights spec)) with
                   | None => Some (mkOrdering [] float_zero "router error")
                   | Some d => Some (mkOrdering (ordered_models d) (dec_confidence d) (dec_rationale d))
                   end
               end
           end
  end.
End compile.
