(* ===== verification/RoutingPlans.v ===== *)
(** What a compiled plan holds, and what a validated policy promises of it. *)
From S2P Require Import Prelude Text ModelAccess Routing.
From stdpp Require Import base gmap strings list.
From Stdlib Require Import ZArith Lia Ascii SpecFloat.

Local Open Scope string_scope.

Section plans.
Context (resolve : option string -> string -> option ResolvedProvider).
Context (org_refuses : string -> ResolvedProvider -> bool).
Context (al : allowlist) (country_refuses : string -> bool).

Notation check := (check_candidate resolve org_refuses al country_refuses).
Notation resolve_all := (resolve_candidates resolve org_refuses al country_refuses).
Notation compile := (compile_policy resolve org_refuses al country_refuses).

(** ** Resolving candidates *)

Definition attempt_key (a : Attempt) : string := instance a +:+ ":" +:+ model a.

(** What becomes of a candidate, after the attempts [before] it. *)
Definition takes_place (display selector why : string) (before : list Attempt) (a : Attempt) : Prop :=
  exists r, resolve None selector = Some r
    /\ a = mkAttempt (S (length before)) (res_instance r) (res_provider r) (res_model r) (res_kwargs r) (Some display) why false
    /\ canonical r ∉ map attempt_key before
    /\ is_model_allowed al (canonical r) = true /\ org_refuses selector r = false /\ country_refuses (res_instance r) = false.

Definition is_dropped_for (selector : string) (before : list Attempt) (because : drop_reason) : Prop :=
  match because, resolve None selector with
  | Unresolvable, r => r = None
  | Duplicate, Some r => canonical r ∈ map attempt_key before
  | NotAllowed, Some r => canonical r ∉ map attempt_key before /\ (is_model_allowed al (canonical r) = false \/ org_refuses selector r = true)
  | CountryNotSupported, Some r =>
      canonical r ∉ map attempt_key before /\ is_model_allowed al (canonical r) = true /\ org_refuses selector r = false
      /\ country_refuses (res_instance r) = true
  | _, _ => False
  end.

(** A place in the plan, or a note of the candidate and of why it has none. *)
Definition accounts (limit : nat) (display : string) (before : list Attempt) (candidate : string * string) (m : Attempt + DroppedCandidate) : Prop :=
  match m with
  | inl a => (length before < limit)%nat /\ takes_place display candidate.1 candidate.2 before a
  | inr d => dropped_selector d = candidate.1
      /\ if (length before <? limit)%nat then is_dropped_for candidate.1 before (reason d) else reason d = OverCap
  end.

Definition placed (marks : list (Attempt + DroppedCandidate)) : list Attempt :=
  omap (fun m => match m with inl a => Some a | inr _ => None end) marks.
Definition noted (marks : list (Attempt + DroppedCandidate)) : list DroppedCandidate :=
  omap (fun m => match m with inl _ => None | inr d => Some d end) marks.

(** Every candidate is accounted for, in order: [attempts] are the places, and [dropped] the notes. *)
Record sound_plan (limit : nat) (display : string) (ordered : list (string * string)) (attempts : list Attempt)
    (dropped : list DroppedCandidate) : Prop := {
  sound_positions : map position attempts = seq 1 (length attempts);
  sound_cap : (length attempts <= limit)%nat;
  sound_distinct : NoDup (map attempt_key attempts);
  sound_accounted : exists marks, length marks = length ordered /\ placed marks = attempts /\ noted marks = dropped
    /\ forall i candidate m, ordered !! i = Some candidate -> marks !! i = Some m ->
         accounts limit display (placed (take i marks)) candidate m
}.

Lemma check_accounts limit display before seen selector why :
  (forall k, k ∈ seen <-> k ∈ map attempt_key before) -> (length before < limit)%nat ->
  match check seen selector with
  | inl because => accounts limit display before (selector, why) (inr (mkDropped selector because))
  | inr r => accounts limit display before (selector, why)
      (inl (mkAttempt (S (length before)) (res_instance r) (res_provider r) (res_model r) (res_kwargs r) (Some display) why false))
  end.
Proof.
  intros Hseen Hl. assert ((length before <? limit)%nat = true) as Hl' by (by apply Nat.ltb_lt).
  unfold check_candidate, accounts. cbn [fst snd dropped_selector reason]. rewrite Hl'.
  destruct (resolve None selector) as [r|] eqn:Er; [|unfold is_dropped_for; by rewrite Er].
  case_bool_decide as Hin; [unfold is_dropped_for; rewrite Er; split; [done|by apply Hseen]|]. rewrite Hseen in Hin.
  destruct (is_model_allowed al (canonical r)) eqn:Ea; cbn [negb]; [|unfold is_dropped_for; rewrite Er; auto].
  destruct (org_refuses selector r) eqn:Eo; [unfold is_dropped_for; rewrite Er; auto|].
  destruct (country_refuses (res_instance r)) eqn:Ec; [unfold is_dropped_for; rewrite Er; auto|].
  split; [done|]. by exists r.
Qed.

Lemma placed_snoc marks m : placed (marks ++ [m]) = (placed marks ++ match m with inl a => [a] | inr _ => [] end)%list.
Proof. unfold placed. rewrite omap_app. by destruct m. Qed.
Lemma noted_snoc marks m : noted (marks ++ [m]) = (noted marks ++ match m with inl _ => [] | inr d => [d] end)%list.
Proof. unfold noted. rewrite omap_app. by destruct m. Qed.

(** One more candidate. *)
Lemma sound_snoc limit display ordered attempts dropped candidate m :
  sound_plan limit display ordered attempts dropped -> accounts limit display attempts candidate m ->
  sound_plan limit display (ordered ++ [candidate])
    (attempts ++ match m with inl a => [a] | inr _ => [] end) (dropped ++ match m with inl _ => [] | inr d => [d] end).
Proof.
  intros [H1 H2 H3 (marks & Hl & Hp & Hn & Hm)] Ha.
  assert (exists marks', length marks' = length (ordered ++ [candidate]) /\ placed marks' = (attempts ++ match m with inl a => [a] | inr _ => [] end)%list
    /\ noted marks' = (dropped ++ match m with inl _ => [] | inr d => [d] end)%list
    /\ forall i c x, (ordered ++ [candidate])%list !! i = Some c -> marks' !! i = Some x -> accounts limit display (placed (take i marks')) c x) as Hacc.
  { exists (marks ++ [m])%list. rewrite placed_snoc, noted_snoc, !length_app, Hl, Hp, Hn. split_and!; [done..|].
    intros i c x Hc Hx. destruct (decide (i < length marks)%nat) as [Hi|Hi].
    - rewrite lookup_app_l in Hc by lia. rewrite lookup_app_l in Hx by done. rewrite take_app_le by lia. by apply Hm.
    - apply lookup_app_Some in Hc as [Hc|[Hi' Hc]]; [apply lookup_lt_Some in Hc; lia|].
      apply lookup_app_Some in Hx as [Hx|[_ Hx]]; [apply lookup_lt_Some in Hx; lia|].
      apply list_lookup_singleton_Some in Hc as [Hi0 <-]. apply list_lookup_singleton_Some in Hx as [_ <-].
      rewrite take_app_length' by lia. by rewrite Hp. }
  destruct m as [a|d]; [|rewrite app_nil_r in *; by split].
  destruct Ha as [Hlt (r & Hr & -> & Hnew & _)]. split; [| | |done].
  - rewrite map_app, H1, length_app, seq_app. done.
  - rewrite length_app. simpl. lia.
  - rewrite map_app. apply NoDup_app. split; [done|]. split; [|apply NoDup_singleton].
    by intros k Hk ->%list_elem_of_singleton.
Qed.

Lemma resolve_from_sound limit display ordered todo done_ attempts dropped seen :
  ordered = (done_ ++ todo)%list ->
  (forall k, k ∈ seen <-> k ∈ map attempt_key attempts) ->
  sound_plan limit display done_ attempts dropped ->
  let '(attempts', dropped') := resolve_from resolve org_refuses al country_refuses limit display todo attempts dropped seen in
  sound_plan limit display ordered attempts' dropped'.
Proof.
  revert done_ attempts dropped seen. induction todo as [|[s why] todo IH]; intros done_ attempts dropped seen Hord Hseen Hs; cbn [resolve_from].
  { rewrite app_nil_r in Hord. by subst. }
  assert (Hord' : ordered = ((done_ ++ [(s, why)]) ++ todo)%list) by (by rewrite <- app_assoc).
  pose proof (fun m => sound_snoc limit display done_ attempts dropped (s, why) m Hs) as Hsnoc.
  destruct (limit <=? length attempts)%nat eqn:El.
  { apply (IH (done_ ++ [(s, why)])%list); [done..|]. specialize (Hsnoc (inr (mkDropped s OverCap))). rewrite app_nil_r in Hsnoc. apply Hsnoc.
    split; [done|]. apply Nat.leb_le in El. by rewrite (proj2 (Nat.ltb_ge _ _) El). }
  apply Nat.leb_gt in El. pose proof (check_accounts limit display attempts seen s why Hseen El) as Hc.
  destruct (check seen s) as [because|r].
  - apply (IH (done_ ++ [(s, why)])%list); [done..|]. specialize (Hsnoc _ Hc). by rewrite app_nil_r in Hsnoc.
  - apply (IH (done_ ++ [(s, why)])%list); [done| |].
    + intros k. rewrite map_app, elem_of_app, elem_of_cons, Hseen. cbn [map]. rewrite list_elem_of_singleton. unfold attempt_key, canonical. naive_solver.
    + specialize (Hsnoc _ Hc). by rewrite app_nil_r in Hsnoc.
Qed.

Lemma resolve_sound limit display ordered :
  sound_plan limit display ordered (resolve_all limit display ordered).1 (resolve_all limit display ordered).2.
Proof.
  unfold resolve_candidates. pose proof (resolve_from_sound limit display ordered ordered [] [] [] []) as H.
  destruct (resolve_from _ _ _ _ _ _ _ _ _ _) as [a d]. apply H; [done|done|].
  split; simpl; [done|lia|constructor|]. exists []. by split_and!.
Qed.

(** A selection names a candidate at least. *)
Lemma selection_nonempty spec user_id key_id budget ordering : select_head spec user_id key_id budget ordering <> [].
Proof.
  unfold select_head. induction (select spec) as [|e l IH]; cbn [select_from]; [done|]. destruct (default_selector e); [done|].
  destruct (router e); [by destruct ordering as [[[|? ?] ? ?]|]|]. destruct (when e) as [c|]; [|done]. by destruct (matches c _ _ _).
Qed.

(** No place taken, every candidate has its note. *)
Lemma sound_refusal limit display ordered d : (0 < limit)%nat -> sound_plan limit display ordered [] d ->
  Forall2 (fun candidate x => dropped_selector x = candidate.1 /\ is_dropped_for candidate.1 [] (reason x)) ordered d.
Proof.
  intros Hl [_ _ _ (marks & Hlen & Hp & <- & Hm)].
  assert (forall i, placed (take i marks) = []) as Hnone.
  { intros i. rewrite <- (take_drop i marks) in Hp. unfold placed in *. rewrite omap_app in Hp. by apply app_eq_nil in Hp as [? _]. }
  apply Forall2_same_length_lookup. assert (length (noted marks) = length marks) as Hn.
  { clear -Hp. unfold placed, noted in *. induction marks as [|[a|x] marks IH]; cbn [omap list_omap length] in *; [done..|]. by rewrite IH. }
  split; [by rewrite Hn|]. intros i candidate x Hc Hx.
  assert (marks !! i = Some (inr x)) as Hi.
  { clear -Hp Hx. unfold placed, noted in *. revert i Hx. induction marks as [|[a|y] marks IH]; intros i Hx; cbn [omap list_omap] in *; [done..|].
    destruct i as [|i]; [by injection Hx as <-|by apply IH]. }
  specialize (Hm i candidate _ Hc Hi). rewrite Hnone in Hm. unfold accounts in Hm. cbn [length] in Hm. by rewrite (proj2 (Nat.ltb_lt 0 limit) Hl) in Hm.
Qed.

(** C20: a plan compiled from a policy - any policy, under any ordering - accounts for the candidates of the selection and
    then of the failure chain, each in its turn.  Short of five attempts before it, a candidate takes the next place, with
    what it resolves to and the reason it was selected, where it resolves, to a model no attempt before it calls, and the
    allow-list, the organization's keys and the country gate let it through; otherwise it is noted, by its own selector
    and the first of these that failed, or, with five attempts before it, as past the cap.  So there are at most five
    attempts, numbered from one, no two of one model.  A policy is refused only when no candidate has a place, each noted so, and as the
    gateway's fault exactly when none of them resolves. *)
Theorem compiled_plan_is_sound name spec user_id key_id budget ordering :
  let ordered := (select_head spec user_id key_id budget ordering ++ map (fun s => (s, "on_failure")) (on_failure spec))%list in
  match compile name spec user_id key_id budget ordering with
  | inr plan => sound_plan 5 name ordered (attempts plan) (dropped plan) /\ attempts plan <> [] /\ plan_name plan = name
  | inl e =>
      policy_name e = name
      /\ Forall2 (fun candidate x => dropped_selector x = candidate.1 /\ is_dropped_for candidate.1 [] (reason x)) ordered (why e)
      /\ error_status e = (if decide (Forall (fun candidate => resolve None candidate.1 = None) ordered) then 502 else 403)%Z
  end.
Proof.
  intros ordered. unfold compile_policy. fold ordered. pose proof (resolve_sound MAX_CANDIDATES name ordered) as Hs.
  destruct (resolve_all MAX_CANDIDATES name ordered) as [[|a rest] d]; cbn [fst snd] in Hs; [|by split_and!].
  apply sound_refusal in Hs; [|unfold MAX_CANDIDATES; lia]. split_and!; [done..|].
  assert (d <> []) as Hd.
  { intros ->. apply Forall2_nil_inv_r in Hs. unfold ordered in Hs. apply app_eq_nil in Hs as [Hs _]. by eapply selection_nonempty. }
  unfold error_status, unresolvable_only. cbn [why]. rewrite bool_decide_eq_false_2 by done. cbn [negb andb].
  assert (forallb (fun x => bool_decide (reason x = Unresolvable)) d = true <-> Forall (fun candidate => resolve None candidate.1 = None) ordered) as Hiff.
  { clear -Hs. induction Hs as [|c x l l' [Hsel Hx] Hs IH]; [done|]. cbn [forallb]. rewrite andb_true_iff, IH, Forall_cons, bool_decide_eq_true.
    apply and_iff_compat_r. unfold is_dropped_for in Hx. destruct (reason x), (resolve None c.1); naive_solver. }
  destruct (decide _) as [Ha|Ha]; [by rewrite (proj2 Hiff Ha)|]. destruct (forallb _ d) eqn:E; [destruct Ha; by apply Hiff|done].
Qed.

(** ** Selection and the router *)

Lemma select_from_consults entries fall user_id key_id budget :
  if consults entries user_id key_id budget
  then exists name, first_of router entries = Some name /\
         forall o, selectors o <> [] ->
           select_from entries fall user_id key_id budget (Some o) = map (fun s => (s, router_reason name)) (selectors o)
  else forall o, select_from entries fall user_id key_id budget (Some o) = select_from entries fall user_id key_id budget None.
Proof.
  induction entries as [|e entries IH]; simpl; [done|]. unfold entry_applies.
  destruct (default_selector e) as [d|]; simpl; [done|]. destruct (router e) as [r|]; simpl.
  { exists r. split; [done|]. intros [[|s ss] c t] Ho; [by destruct Ho|done]. }
  destruct (when e) as [w|]; [|exact IH]. destruct (matches w user_id key_id budget); [done|exact IH].
Qed.

(** The question asked before a router runs - would this request reach it - and the selection that
    uses its ranking never disagree: asked yes, any ranking that is not empty is the selection, under
    the name of the router that ranks; asked no, no ranking changes it. *)
Theorem consult_agrees_with_selection spec user_id key_id budget :
  if selection_consults_router spec user_id key_id budget
  then exists name, router_backend spec = Some name /\
         forall o, selectors o <> [] ->
           select_head spec user_id key_id budget (Some o) = map (fun s => (s, router_reason name)) (selectors o)
  else forall o, select_head spec user_id key_id budget (Some o) = select_head spec user_id key_id budget None.
Proof. apply select_from_consults. Qed.

(** An empty ranking is no ranking. *)
Lemma select_declined entries fall user_id key_id budget o :
  selectors o = [] ->
  select_from entries fall user_id key_id budget (Some o) = select_from entries fall user_id key_id budget None.
Proof.
  destruct o as [ss c t]. simpl. intros ->. induction entries as [|e entries IH]; simpl; [done|].
  destruct (default_selector e); [done|]. destruct (router e); [done|]. destruct (when e) as [w|]; [|done]. by destruct (matches _ _ _ _).
Qed.

Lemma unrouted_reason entries fall user_id key_id budget :
  match select_from entries fall user_id key_id budget None with
  | (_, why) :: _ => starts_with "router:" why = false
  | [] => False
  end.
Proof.
  induction entries as [|e entries IH]; simpl; [done|]. destruct (default_selector e); [done|]. destruct (router e); [done|].
  destruct (when e) as [w|]; [|done]. by destruct (matches _ _ _ _).
Qed.

(** A router is never why a request cannot be served: opted out of, missing from the build, with
    no candidate left for the caller, failing, late or declining, it leaves the very plan, or the
    very refusal, that the policy compiles to with no router decision at all. *)
Theorem router_never_fails_a_request weighted name spec user_id key_id budget signal :
  (forall n rank pool, router_backend spec = Some n -> get_router_backend weighted n = Some rank -> pool <> [] ->
     match rank (mkContext (match user_id with Some u => u | None => "" end) (default_target spec) pool (router_weights spec)) with
     | None => True
     | Some d => ordered_models d = []
     end) ->
  compile name spec user_id key_id budget (decide_ordering resolve al weighted spec user_id signal)
  = compile name spec user_id key_id budget None.
Proof.
  intros Hrank. set (ord := decide_ordering resolve al weighted spec user_id signal).
  assert (Hord : match ord with Some o => selectors o = [] | None => True end).
  { unfold ord, decide_ordering. destruct (router_backend spec) as [n|]; [|done]. destruct signal as [g|]; [|done].
    destruct (opted_out g); [done|]. destruct (get_router_backend weighted n) as [rank|] eqn:Eb; [|done].
    destruct (usable_candidates _ _ _ _) as [|s pool]; [done|].
    specialize (Hrank n rank (s :: pool) eq_refl Eb ltac:(done)). destruct (rank _) as [d|]; done. }
  destruct ord as [o|]; [|done]. unfold compile_policy, select_head. rewrite select_declined by done.
  pose proof (unrouted_reason (select spec) (default_target spec) user_id key_id budget) as Hr.
  destruct (select_from _ _ _ _ _ None) as [|[s why] rest]; [done|]. by rewrite Hr.
Qed.
(** ** Validated policies *)

Lemma resolve_from_fits limit display todo attempts dropped seen :
  (length attempts + length todo <= limit)%nat -> Forall (fun d => reason d <> OverCap) dropped ->
  Forall (fun d => reason d <> OverCap)
    (resolve_from resolve org_refuses al country_refuses limit display todo attempts dropped seen).2.
Proof.
  revert attempts dropped seen. induction todo as [|[s why] todo IH]; intros attempts dropped seen Hl Hd; cbn [resolve_from]; [done|].
  simpl in Hl. replace (limit <=? length attempts)%nat with false by (symmetry; apply Nat.leb_gt; lia).
  destruct (check seen s) as [because|r] eqn:Ec.
  - apply IH; [lia|]. apply Forall_app. split; [done|]. apply Forall_singleton. simpl. intros ->.
    unfold check_candidate in Ec. by repeat case_match.
  - apply IH; [rewrite length_app; simpl; lia|done].
Qed.

Lemma add_new_spec l seen x : x ∈ add_new l seen <-> x ∈ l \/ x ∈ seen.
Proof.
  revert seen. induction l as [|y l IH]; intros seen; simpl.
  - split; [by right|]. by intros [?%elem_of_nil|].
  - rewrite IH, elem_of_cons. case_bool_decide as Hy; [naive_solver|].
    rewrite elem_of_app, list_elem_of_singleton. naive_solver.
Qed.

Lemma static_selectors_spec spec x :
  x ∈ static_selectors spec <->
  x ∈ on_failure spec \/
  exists e, e ∈ select spec /\ (entry_selector e = Some x \/ exists c, candidates e = Some c /\ x ∈ c).
Proof.
  unfold static_selectors. rewrite add_new_spec. apply or_iff_compat_l.
  set (f := fun (ordered : list string) (e : SelectEntry) => _).
  assert (H : forall l acc, x ∈ foldl f acc l <-> x ∈ acc \/
    exists e, e ∈ l /\ (entry_selector e = Some x \/ exists c, candidates e = Some c /\ x ∈ c)).
  { induction l as [|e l IH]; intros acc; simpl.
    - split; [by left|]. intros [|(e & He%elem_of_nil & _)]; done.
    - rewrite IH. unfold f at 1. rewrite add_new_spec. split.
      + intros [[Hc|Hs]|(e' & He & H)].
        * right. exists e. split; [by left|]. right. destruct (candidates e) as [c|]; [by exists c|by apply elem_of_nil in Hc].
        * destruct (entry_selector e) as [s|] eqn:Es; [|by left]. apply add_new_spec in Hs as [Hs%list_elem_of_singleton|]; [|by left].
          subst. right. exists e. split; [by left|by left].
        * right. exists e'. split; [by right|done].
      + intros [Ha|(e' & [->|He]%elem_of_cons & H)].
        * left. right. destruct (entry_selector e); [apply add_new_spec; by right|done].
        * left. destruct H as [Hs|(c & Hc & Hin)].
          -- right. rewrite Hs. apply add_new_spec. left. by left.
          -- left. by rewrite Hc.
        * right. by exists e'. }
  rewrite H. split; [intros [Hn%elem_of_nil|]; done|by right].
Qed.

(** A validated policy has its default. *)
Lemma default_declared spec :
  one_default_and_it_comes_last (select spec) = true ->
  exists e, e ∈ select spec /\ default_selector e = Some (default_target spec).
Proof.
  unfold default_target, default_of. induction (select spec) as [|e l IH]; [done|]. simpl.
  destruct (default_selector e) as [d|] eqn:E; [intros _; exists e; split; [by left|done]|].
  destruct l as [|e' l]; [done|]. simpl. intros H. destruct (IH H) as (x & Hx & Hd).
  exists x. split; [by right|done].
Qed.

Lemma first_of_in {A B} (f : A -> option B) l y : first_of f l = Some y -> exists x, x ∈ l /\ f x = Some y.
Proof.
  induction l as [|x l IH]; simpl; [done|]. destruct (f x) as [z|] eqn:E.
  - intros [= ->]. exists x. split; [by left|done].
  - intros (x' & Hx & Hf)%IH. exists x'. split; [by right|done].
Qed.

Lemma entry_one_destination e : entry_ok e = true -> length (omap id [target e; default_selector e; router e]) = 1%nat.
Proof. unfold entry_ok. rewrite !andb_true_iff. intros [[[[H _] _] _] _]. by apply bool_decide_eq_true in H. Qed.

Lemma default_is_static spec : policy_ok spec = true -> default_target spec ∈ static_selectors spec.
Proof.
  unfold policy_ok. rewrite !andb_true_iff. intros [[[He Hd] _] _]. destruct (default_declared spec Hd) as (e & Hin & Hdef).
  apply static_selectors_spec. right. exists e. split; [done|]. left. unfold entry_selector. rewrite forallb_forall in He.
  apply list_elem_of_In, He, entry_one_destination in Hin. rewrite Hdef in Hin. simpl in Hin. by destruct (target e).
Qed.

Lemma pool_is_static spec x : policy_ok spec = true -> x ∈ router_candidates spec -> x ∈ static_selectors spec.
Proof.
  intros Hok. unfold router_candidates. destruct (first_of _ _) as [pool|] eqn:E; [|by intros ?%elem_of_nil].
  apply first_of_in in E as (e & He & Hf). destruct (router e); [|done]. destruct (candidates e) as [[|c cs]|] eqn:Ec; [done| |done].
  injection Hf as <-. intros Hx. assert (Hx' : x ∈ c :: cs \/ x = default_target spec).
  { case_bool_decide; [by left|]. apply elem_of_app in Hx as [|Hx%list_elem_of_singleton]; [by left|by right]. }
  destruct Hx' as [Hx'| ->]; [|by apply default_is_static]. apply static_selectors_spec. right. exists e. split; [done|].
  right. by exists (c :: cs).
Qed.

(** The selection: one static target, or the ranking. *)
Lemma select_from_shape entries fall user_id key_id budget ordering :
  (exists s why, select_from entries fall user_id key_id budget ordering = [(s, why)] /\
     (s = fall \/ exists e, e ∈ entries /\ (default_selector e = Some s \/ (exists w, when e = Some w) /\
        default_selector e = None /\ router e = None /\ s = match target e with Some t => t | None => "" end)))
  \/ (exists o name, ordering = Some o /\ selectors o <> [] /\
        select_from entries fall user_id key_id budget ordering = map (fun s => (s, router_reason name)) (selectors o)).
Proof.
  induction entries as [|e entries IH]; simpl.
  { left. exists fall, "default". split; [done|by left]. }
  assert (Hrest : (exists s why, select_from entries fall user_id key_id budget ordering = [(s, why)] /\
     (s = fall \/ exists e', e' ∈ e :: entries /\ (default_selector e' = Some s \/ (exists w, when e' = Some w) /\
        default_selector e' = None /\ router e' = None /\ s = match target e' with Some t => t | None => "" end)))
  \/ (exists o name, ordering = Some o /\ selectors o <> [] /\
        select_from entries fall user_id key_id budget ordering = map (fun s => (s, router_reason name)) (selectors o))).
  { destruct IH as [(s & why & Hs & [H|(e' & He & H)])|H]; [| |by right]; left; exists s, why; split; try done; [by left|].
    right. exists e'. split; [by right|done]. }
  destruct (default_selector e) as [d|] eqn:Ed.
  { left. exists d, "default". split; [done|]. right. exists e. split; [by left|by left]. }
  destruct (router e) as [r|] eqn:Er.
  { destruct ordering as [[[|s ss] c t]|]; [exact Hrest| |exact Hrest]. right. exists (mkOrdering (s :: ss) c t), r. done. }
  destruct (when e) as [w|] eqn:Ew; [|exact Hrest]. destruct (matches w user_id key_id budget); [|exact Hrest].
  left. eexists _, _. split; [done|]. right. exists e. split; [by left|]. right. by eauto.
Qed.

(** A backend that ranks what it was given. *)
Definition ranks_its_pool (rank : backend) : Prop :=
  forall ctx d, rank ctx = Some d ->
    (length (ordered_models d) <= length (candidate_pool ctx))%nat /\ forall m, m ∈ ordered_models d -> m ∈ candidate_pool ctx.

Lemma backends_rank_their_pool weighted name rank :
  ranks_its_pool weighted -> get_router_backend weighted name = Some rank -> ranks_its_pool rank.
Proof.
  intros Hw. unfold get_router_backend. case_bool_decide; [|case_bool_decide; [|done]]; intros [= <-]; [|exact Hw].
  intros ctx d [= <-]. unfold priority_rank. destruct (candidate_pool ctx); [|done]. split; [simpl; lia|by intros m ?%elem_of_nil].
Qed.

Definition within_pool (spec : PolicySpec) (ordering : option RouterOrdering) : Prop :=
  forall o, ordering = Some o ->
    (length (selectors o) <= length (router_candidates spec))%nat /\ forall m, m ∈ selectors o -> m ∈ router_candidates spec.

Lemma decided_within_pool weighted spec user_id signal :
  ranks_its_pool weighted -> within_pool spec (decide_ordering resolve al weighted spec user_id signal).
Proof.
  intros Hw o. unfold decide_ordering. destruct (router_backend spec) as [n|]; [|done]. destruct signal as [g|]; [|done].
  assert (Hnil : (0 <= length (router_candidates spec))%nat /\ forall m : string, m ∈ [] -> m ∈ router_candidates spec)
    by (split; [lia|by intros m ?%elem_of_nil]).
  destruct (opted_out g); [by intros [= <-]|]. destruct (get_router_backend weighted n) as [rank|] eqn:Eb; [|done].
  destruct (usable_candidates resolve al user_id (router_candidates spec)) as [|s pool] eqn:Ep; [by intros [= <-]|].
  assert (Hpool : (length (s :: pool) <= length (router_candidates spec))%nat /\
    forall m, m ∈ s :: pool -> m ∈ router_candidates spec).
  { rewrite <- Ep. unfold usable_candidates. split; [apply length_filter|]. by intros m [_ Hm]%list_elem_of_filter. }
  destruct (rank _) as [d|] eqn:Er; [|by intros [= <-]]. destruct (backends_rank_their_pool _ _ _ Hw Eb _ _ Er) as [Hl Hin].
  simpl in *. intros [= <-]. simpl. split; [destruct Hpool; lia|]. intros m Hm. by apply Hpool, Hin.
Qed.

Lemma cap_validated spec : policy_ok spec = true -> (candidate_count spec <= MAX_CANDIDATES)%nat.
Proof. unfold policy_ok. rewrite !andb_true_iff. intros [[_ Hc] _]. by apply bool_decide_eq_true in Hc. Qed.

Lemma selection_within_policy spec user_id key_id budget ordering :
  policy_ok spec = true -> within_pool spec ordering ->
  let ordered := (select_head spec user_id key_id budget ordering ++ map (fun s => (s, "on_failure")) (on_failure spec))%list in
  (length ordered <= MAX_CANDIDATES)%nat /\ Forall (fun sw => sw.1 ∈ static_selectors spec) ordered.
Proof.
  intros Hok Hord ordered. pose proof (cap_validated spec Hok) as Hcap. unfold ordered. unfold select_head. rewrite length_app, length_map.
  assert (Hfail : Forall (fun sw => sw.1 ∈ static_selectors spec) (map (fun s => (s, "on_failure")) (on_failure spec))).
  { apply Forall_forall. intros [x y] (s & [= -> ->] & Hs)%list_elem_of_fmap. apply static_selectors_spec. by left. }
  unfold candidate_count in Hcap.
  destruct (select_from_shape (select spec) (default_target spec) user_id key_id budget ordering) as
    [(s & why & -> & Hs)|(o & n & Ho & Hne & ->)].
  - split; [destruct (router_candidates spec); simpl in *; lia|]. apply Forall_cons. split; [|done]. simpl.
    destruct Hs as [->|(e & He & Hs)]; [by apply default_is_static|]. apply static_selectors_spec. right. exists e. split; [done|].
    left. unfold policy_ok in Hok. rewrite !andb_true_iff in Hok. destruct Hok as [[[Hall _] _] _]. rewrite forallb_forall in Hall.
    apply list_elem_of_In, Hall, entry_one_destination in He. unfold entry_selector.
    destruct Hs as [Hd|(_ & Hd & Hr & ->)]; [rewrite Hd in He; simpl in He; by destruct (target e)|].
    rewrite Hd, Hr in He. simpl in He. by destruct (target e).
  - destruct (Hord o Ho) as [Hl Hin]. rewrite length_map. destruct (router_candidates spec) as [|c cs] eqn:Ec.
    { destruct (selectors o); [done|simpl in Hl; lia]. }
    split; [simpl in *; lia|]. apply Forall_app. split; [|done]. apply Forall_forall.
    intros [x y] (m & [= -> ->] & Hm)%list_elem_of_fmap. simpl. apply pool_is_static; [done|]. rewrite Ec. by apply Hin.
Qed.

(** C21: a policy that passed validation compiles to what it declares: whatever the request and the
    ranking of a backend that ranks within its pool, every candidate of the plan is a selector the
    policy names, there are at most five, and none is dropped for being past the cap. *)
Theorem validated_policy_fits weighted name spec user_id key_id budget signal :
  policy_ok spec = true ->
  ranks_its_pool weighted ->
  let ordering := decide_ordering resolve al weighted spec user_id signal in
  let ordered := (select_head spec user_id key_id budget ordering ++ map (fun s => (s, "on_failure")) (on_failure spec))%list in
  (length ordered <= MAX_CANDIDATES)%nat /\
  Forall (fun sw => sw.1 ∈ static_selectors spec) ordered /\
  Forall (fun d => reason d <> OverCap)
    (match compile name spec user_id key_id budget ordering with inr plan => dropped plan | inl e => why e end).
Proof.
  intros Hok Hw ordering ordered.
  destruct (selection_within_policy spec user_id key_id budget ordering Hok (decided_within_pool weighted spec user_id signal Hw))
    as [Hl Hst].
  split; [done|]. split; [done|].
  pose proof (resolve_from_fits MAX_CANDIDATES name ordered [] [] [] Hl ltac:(constructor)) as Hfit.
  unfold compile_policy. fold ordered. unfold resolve_candidates in *. destruct (resolve_from _ _ _ _ _ _ _ _ _ _) as [[|a rest] d]; done.
Qed.
End plans.

(** ** A concrete policy *)

Definition some_resolve (user : option string) (selector : string) : option ResolvedProvider :=
  match split_selector selector with
  | Some (p, m) => Some (mkResolved p p m ∅ None)
  | None => None
  end.

Definition some_policy : PolicySpec :=
  mkPolicy [mkEntry None None None (Some "priority") (Some ["openai:a"; "anthropic:b"]) None;
            mkEntry None None (Some "openai:a") None None None] ["mistral:c"].

Definition no_weights : backend := fun _ => None.

Lemma consult_agrees_with_selection_witness :
  exists name, router_backend some_policy = Some name /\
    forall o, selectors o <> [] ->
      select_head some_policy None None (mkBudgetState None None) (Some o) = map (fun s => (s, router_reason name)) (selectors o).
Proof. exact (consult_agrees_with_selection some_policy None None (mkBudgetState None None)). Defined.

Lemma router_never_fails_a_request_witness :
  let spec := mkPolicy [mkEntry None None None (Some "weighted") (Some ["openai:a"; "anthropic:b"]) (Some [("openai:a", float_one)]);
                        mkEntry None None (Some "openai:a") None None None] [] in
  let compile := compile_policy some_resolve (fun _ _ => false) None (fun _ => false) in
  compile "p" spec None None (mkBudgetState None None)
    (decide_ordering some_resolve None no_weights spec None (Some (mkSignal None false)))
  = compile "p" spec None None (mkBudgetState None None) None.
Proof.
  apply router_never_fails_a_request. intros n rank pool [= <-]. vm_compute. intros [= <-] _. exact I.
Defined.

Lemma validated_policy_fits_witness :
  let ordering := decide_ordering some_resolve None no_weights some_policy None (Some (mkSignal None false)) in
  let ordered := (select_head some_policy None None (mkBudgetState None None) ordering ++ map (fun s => (s, "on_failure")) (on_failure some_policy))%list in
  (length ordered <= MAX_CANDIDATES)%nat /\
  Forall (fun sw => sw.1 ∈ static_selectors some_policy) ordered /\
  Forall (fun d => reason d <> OverCap)
    (match compile_policy some_resolve (fun _ _ => false) None (fun _ => false) "p" some_policy None None (mkBudgetState None None) ordering with
     | inr plan => dropped plan | inl e => why e end).
Proof. apply validated_policy_fits; [vm_compute; reflexivity|]. intros ctx d. unfold no_weights. discriminate. Defined.
