(* ===== verification/AutomaticRouter.v ===== *)
(** The order in which interchangeable offerings are tried, [services/routing/_automatic.py]: what a worker remembers of the
    calls it makes, of whom it counts the outstanding, and how a plan is ranked by it.

    A reading of the monotonic clock is a float, a cost a rational; a division of two [Decimal]s keeps 28 digits.  What HMAC
    and the credentials of an attempt make of it, [candidate_key], and of a session, [digest], are arguments; so is what a
    header says. *)
From S2P Require Import Prelude Text ModelAccess Routing.
From stdpp Require Import base gmap strings list.
From Stdlib Require Import ZArith Lia Ascii SpecFloat QArith Sorted.

Local Open Scope string_scope.
Local Open Scope Z_scope.

(** ** Numbers *)

Definition fadd : float -> float -> float := SFadd 53 1024.
Definition fsub : float -> float -> float := SFsub 53 1024.
Definition fmul : float -> float -> float := SFmul 53 1024.
Definition fdiv : float -> float -> float := SFdiv 53 1024.

(** The float nearest a ratio. *)
Definition ratio (n : Z) (d : positive) : float :=
  match n with
  | Z0 => float_zero
  | Zpos p => fdiv (S754_finite false p 0) (S754_finite false d 0)
  | Zneg p => fdiv (S754_finite true p 0) (S754_finite false d 0)
  end.
Definition float_of_int (n : Z) : float := ratio n 1.
Definition float_eq (x y : float) : bool := SFeqb x y.
Definition float_max (x y : float) : float := if float_lt x y then y else x.
Definition float_min (x y : float) : float := if float_lt y x then y else x.

Fixpoint digits_from (fuel : nat) (n : Z) : Z :=
  match fuel with O => 0 | S fuel => if n <=? 0 then 0 else 1 + digits_from fuel (n / 10) end.
Definition digits (n : Z) : Z := digits_from (S (Z.to_nat (Z.log2 n))) n.

Definition pow10 (e : Z) : Q := if 0 <=? e then inject_Z (10 ^ e) else Qinv (inject_Z (10 ^ (- e))).
Definition half_even (q : Q) : Z :=
  let '(n, r) := Z.div_eucl (Qnum q) (Zpos (Qden q)) in
  match Z.compare (2 * r) (Zpos (Qden q)) with Lt => n | Gt => n + 1 | Eq => if Z.even n then n else n + 1 end.

(** The quotient of two amounts, neither negative, to 28 digits. *)
Definition decimal_quotient (a b : Q) : Q :=
  let q := Qred (a / b) in
  let e := digits (Qnum q) - digits (Zpos (Qden q)) in
  let e := (if Qle_bool (pow10 e) q then e else e - 1) - 27 in
  (inject_Z (half_even (q / pow10 e)) * pow10 e)%Q.
Definition float_of_decimal (q : Q) : float := ratio (Qnum q) (Qden q).

(** ** Sorting *)

Section SortedBy.
Context {A : Type} (before : A -> A -> bool).

Fixpoint insert_sorted (x : A) (l : list A) : list A :=
  match l with [] => [x] | y :: l => if before y x then y :: insert_sorted x l else x :: y :: l end.

(** Stable, by [<] of the keys. *)
Definition sorted (l : list A) : list A := foldr insert_sorted [] l.
End SortedBy.

(** [statistics.median], of a list that is not empty. *)
Definition median (l : list float) : float :=
  let l := sorted float_lt l in
  let n := length l in
  let at_ i := default float_zero (l !! i) in
  if Nat.odd n then at_ (n / 2)%nat else fdiv (fadd (at_ (n / 2 - 1)%nat) (at_ (n / 2)%nat)) (float_of_int 2).

(** ** Settings *)

Inductive Region := Us | Eu.
#[export] Instance Region_eq_dec : EqDecision Region.
Proof. solve_decision. Defined.

Record AutomaticOffering := mkOffering { off_region : option Region; capacity : Z }.
Record AutomaticRouting := mkSettings {
  enabled : bool; session_ttl_seconds : Z; default_region : option Region; country_header : option string;
  offerings : gmap string AutomaticOffering
}.

Definition _EU : list string :=
  ["AT"; "BE"; "BG"; "HR"; "CY"; "CZ"; "DK"; "EE"; "FI"; "FR"; "DE"; "GR"; "HU"; "IE"; "IT"; "LV"; "LT"; "LU"; "MT"; "NL"; "PL"; "PT";
   "RO"; "SK"; "SI"; "ES"; "SE"].
Definition _TTL : float := float_of_int 300.
Definition _LIMIT : nat := N.to_nat 10000.

Definition upper_char (c : ascii) : ascii :=
  let n := nat_of_ascii c in if ((97 <=? n) && (n <=? 122))%nat then ascii_of_nat (n - 32) else c.
Fixpoint upper (s : string) : string :=
  match s with EmptyString => EmptyString | String a s => String (upper_char a) (upper s) end.

Definition preferred_region (settings : AutomaticRouting) (headers : string -> string) : option Region :=
  let explicit := lower (headers "otari-region") in
  if bool_decide (explicit = "us") then Some Us
  else if bool_decide (explicit = "eu") then Some Eu
  else
    let country := match country_header settings with
      | Some h => if bool_decide (h = "") then "" else upper (headers h)
      | None => "" end in
    if bool_decide (country = "US") then Some Us
    else if bool_decide (country ∈ _EU) then Some Eu
    else default_region settings.

(** ** What a worker remembers *)

(** An [OrderedDict] is a list of its items. *)
Fixpoint get {A} (k : string) (l : list (string * A)) : option A :=
  match l with [] => None | (k', v) :: l => if bool_decide (k' = k) then Some v else get k l end.
Definition remove {A} (k : string) (l : list (string * A)) : list (string * A) := filter (fun p => p.1 <> k) l.
(** Assigned, and moved to the end. *)
Definition put_last {A} (k : string) (v : A) (l : list (string * A)) : list (string * A) := remove k l ++ [(k, v)].

Record _Health := mkHealth { active : Z; latency : gmap string (float * float); cooldown : float }.
Definition new_health : _Health := mkHealth 0 ∅ float_zero.

(** A call in [observations] holds the object of its credential, an index of [healths]; [health] names those remembered. *)
Record AutomaticSelection := mkSelection { affinity : option string; mode : string; made : list nat }.
Record AutomaticObservation := mkObservation {
  selection : nat; key : string; selector : string; obs_health : option nat; started : float; first_at : option float; finished : bool
}.
Record AutomaticRouter := mkRouter { health : list (string * nat); affinities : list (string * (string * float)); healths : list _Health }.
Record worker := mkWorker { router : AutomaticRouter; selections : list AutomaticSelection; observations : list AutomaticObservation }.
Definition new_worker : worker := mkWorker (mkRouter [] [] []) [] [].

Definition with_affinities (l : list (string * (string * float))) (w : worker) : worker :=
  mkWorker (mkRouter (health (router w)) l (healths (router w))) (selections w) (observations w).
Definition with_healths (l : list _Health) (w : worker) : worker :=
  mkWorker (mkRouter (health (router w)) (affinities (router w)) l) (selections w) (observations w).
Definition with_observations (l : list AutomaticObservation) (w : worker) : worker := mkWorker (router w) (selections w) l.
Definition with_selections (l : list AutomaticSelection) (w : worker) : worker := mkWorker (router w) l (observations w).

Definition is_idle (hs : list _Health) (r : nat) : bool := match hs !! r with Some h => active h =? 0 | None => false end.

Definition add_health (k : string) (s : AutomaticRouter) : option nat * AutomaticRouter :=
  let r := length (healths s) in (Some r, mkRouter (health s ++ [(k, r)]) (affinities s) (healths s ++ [new_health])).

Definition _health (k : string) (s : AutomaticRouter) : option nat * AutomaticRouter :=
  match get k (health s) with
  | Some r => (Some r, mkRouter (put_last k r (health s)) (affinities s) (healths s))
  | None =>
      if (_LIMIT <=? length (health s))%nat then
        match head (filter (fun p => is_idle (healths s) p.2 = true) (health s)) with
        | None => (None, s)
        | Some (idle, _) => add_health k (mkRouter (remove idle (health s)) (affinities s) (healths s))
        end
      else add_health k s
  end.

Definition busier (h : _Health) : _Health := mkHealth (active h + 1) (latency h) (cooldown h).

Definition start (sel : nat) (selector k : string) (now : float) (w : worker) : worker :=
  match selections w !! sel with
  | None => w
  | Some x =>
      let '(h, s) := _health k (router w) in
      let s := match h with Some r => mkRouter (health s) (affinities s) (alter busier r (healths s)) | None => s end in
      mkWorker s (<[sel := mkSelection (affinity x) (mode x) (made x ++ [length (observations w)])]> (selections w))
        (observations w ++ [mkObservation sel k selector h now None false])
  end.

Definition forget_key (sel : nat) (k : string) (w : worker) : worker :=
  match selections w !! sel ≫= affinity with
  | Some a =>
      match get a (affinities (router w)) with
      | Some (k', _) => if bool_decide (k' = k) then with_affinities (remove a (affinities (router w))) w else w
      | None => w
      end
  | None => w
  end.

Definition first_response (i : nat) (now : float) (w : worker) : worker :=
  with_observations (alter (fun o =>
    match first_at o with
    | Some _ => o
    | None => mkObservation (selection o) (key o) (selector o) (obs_health o) (started o) (Some now) (finished o)
    end) i (observations w)) w.

(** What a call that ends tells of its credential. *)
Definition told (o : AutomaticObservation) (mode : string) (success unhealthy : bool) (now : float) (h : _Health) : _Health :=
  let h := mkHealth (Z.max 0 (active h - 1)) (latency h) (if unhealthy then fadd now (float_of_int 15) else cooldown h) in
  if success then
    let elapsed := float_max (ratio 1 1000) (fsub (default now (first_at o)) (started o)) in
    let value :=
      match latency h !! mode with
      | Some (old, since) => if float_lt (fsub now since) _TTL then fadd (fmul (ratio 8 10) old) (fmul (ratio 2 10) elapsed) else elapsed
      | None => elapsed
      end in
    mkHealth (active h) (<[mode := (value, now)]> (latency h)) float_zero
  else h.

(** The oldest bindings leave while there are too many. *)
Definition bind_session (a k : string) (now : float) (w : worker) : worker :=
  let l := put_last a (k, now) (affinities (router w)) in
  with_affinities (drop (length l - _LIMIT) l) w.

Definition finish (i : nat) (success unhealthy : bool) (now : float) (w : worker) : worker :=
  match observations w !! i with
  | None => w
  | Some o =>
      if finished o then w
      else
        let sel := selections w !! selection o in
        let w := with_observations (alter (fun o =>
          mkObservation (selection o) (key o) (selector o) (obs_health o) (started o) (first_at o) true) i (observations w)) w in
        let w := match obs_health o with
          | Some r => with_healths (alter (told o (default "" (mode <$> sel)) success unhealthy now) r (healths (router w))) w
          | None => w end in
        let w := if unhealthy then forget_key (selection o) (key o) w else w in
        match success, sel ≫= affinity with true, Some a => bind_session a (key o) now w | _, _ => w end
  end.

Definition close (sel : nat) (clock : nat -> float) (w : worker) : worker :=
  foldl (fun w i => finish i false false (clock i) w) w (default [] (made <$> selections w !! sel)).

(** ** Ranking a plan *)

Section Rank.
Context (digest : string -> string -> string -> string).
(** What the plan is ranked by: fingerprints, estimated costs, and the offerings on the organization's own keys. *)
Record question := mkQuestion {
  settings : AutomaticRouting; candidate_key : Attempt -> string; costs : string -> option Q; scope : string; anchor : string;
  region : option Region; asked_mode : string; own : string -> bool; limit : nat
}.
Context (q : question).

Definition selector_of (a : Attempt) : string := instance a +:+ ":" +:+ model a.
Definition hint_of (a : Attempt) : AutomaticOffering :=
  match offerings (settings q) !! selector_of a with
  | Some h => h
  | None => default (mkOffering None 1) (offerings (settings q) !! instance a)
  end.

(** Whether a plan is ranked at all: a choice of the catalogue, for a request that names no offering. *)
Definition accepts (plan : CompiledPlan) (requested : string) : bool :=
  match attempts plan with
  | [] => false
  | a :: _ => bool_decide (selection_reason a = "catalog") && enabled (settings q)
      && negb (existsb (fun a => bool_decide (instance a +:+ "/" +:+ model a = requested)) (attempts plan))
  end.

Context (plan : CompiledPlan) (s : AutomaticRouter) (now : float).

Definition keys : gmap string string := foldl (fun m a => <[selector_of a := candidate_key q a]> m) ∅ (attempts plan).
Definition key_of (a : Attempt) : option string := keys !! selector_of a.
Definition health_of (a : Attempt) : option _Health := key_of a ≫= fun k => get k (health s) ≫= fun r => healths s !! r.

Definition session : option string := if bool_decide (anchor q = "") then None else Some (digest (scope q) (plan_name plan) (anchor q)).
Definition previous : option (string * float) := session ≫= fun a => get a (affinities s).
Definition sticky : option string :=
  match previous with
  | Some (k, since) => if float_lt (fsub now since) (float_of_int (session_ttl_seconds (settings q))) then Some k else None
  | None => None
  end.

Definition latency_of (a : Attempt) : option float :=
  match health_of a ≫= fun h => latency h !! asked_mode q with
  | Some (value, since) => if float_lt (fsub now since) _TTL then Some value else None
  | None => None
  end.
Definition latencies : gmap string float :=
  foldl (fun m a => match latency_of a with Some x => <[selector_of a := x]> m | None => m end) ∅ (attempts plan).
Definition neutral : float := match map_to_list latencies with [] => float_one | l => median (l.*2) end.

(** Without a price, cooling down, not the organization's, elsewhere. *)
Definition bucket : Type := bool * bool * bool * Z.
Definition unpriced (a : Attempt) : bool := negb (is_set (costs q (selector_of a))).
Definition cooling (a : Attempt) : bool := match health_of a with Some h => float_lt now (cooldown h) | None => false end.
Definition foreign (a : Attempt) : bool := negb (own q (selector_of a)).
Definition locality (a : Attempt) : Z :=
  match region q with None => 0 | Some r => if bool_decide (off_region (hint_of a) = Some r) then 0 else 1 end.
Definition group (a : Attempt) : bucket := (unpriced a, cooling a, foreign a, locality a).

(** The least cost of a bucket. *)
Definition floors (b : bucket) : option Q :=
  foldl (fun least a =>
    match costs q (selector_of a) with
    | Some c => if bool_decide (group a = b) then Some (match least with Some l => if Qle_bool l c then l else c | None => c end) else least
    | None => least
    end) None (attempts plan).

Definition spent (a : Attempt) : float :=
  let load := match health_of a with Some h => fdiv (float_of_int (active h)) (float_of_int (capacity (hint_of a))) | None => float_zero end in
  let slow := float_min (float_of_int 3) (fdiv (default neutral (latencies !! selector_of a)) (float_max neutral (ratio 1 1000))) in
  let floor := match floors (group a) with Some f => if Qle_bool (1 # 1000000) f then f else 1 # 1000000 | None => 1 # 1000000 end in
  let value := match costs q (selector_of a) with Some c => float_of_decimal (decimal_quotient c floor) | None => float_one end in
  fadd (fadd value (fmul (ratio 1 2) load)) (fmul (ratio 1 4) slow).

Definition bool_lt (x y : bool) : bool := negb x && y.
Definition bucket_lt (b c : bucket) : bool :=
  let '(u, h, f, l) := b in let '(u', h', f', l') := c in
  if eqb u u' then if eqb h h' then if eqb f f' then l <? l' else bool_lt f f' else bool_lt h h' else bool_lt u u'.

(** [<] of two scores. *)
Definition goes_before (a b : Attempt) : bool :=
  if bool_decide (group a = group b) then
    if float_eq (spent a) (spent b) then (position a <? position b)%nat else float_lt (spent a) (spent b)
  else bucket_lt (group a) (group b).

Definition ranked : list Attempt := sorted goes_before (attempts plan).

(** The offering the session is bound to, where it may keep it. *)
Definition keeps_binding (a : Attempt) : bool :=
  negb (cooling a) && (locality a =? 0) && (negb (unpriced a) || forallb unpriced ranked)
  && (negb (foreign a) || match ranked with b :: _ => foreign b | [] => false end).
Definition bound : option Attempt :=
  match sticky with
  | Some k => match head (filter (fun a => key_of a = Some k) ranked) with
      | Some a => if keeps_binding a then Some a else None
      | None => None end
  | None => None
  end.

(** Less the first that is so. *)
Fixpoint without (p : Attempt -> bool) (l : list Attempt) : list Attempt :=
  match l with [] => [] | b :: l => if p b then l else b :: without p l end.
Definition ordered : list Attempt :=
  match bound with
  | Some a => a :: without (fun b => bool_decide (key_of b = key_of a)) ranked
  | None => ranked
  end.

Definition numbered (i : nat) (a : Attempt) : Attempt :=
  mkAttempt (S i) (instance a) (provider a) (model a) (attempt_kwargs a) (display_model a)
    (if bool_decide (i = 0%nat) then "catalog" else "on_failure") (deployment_paid a).

Definition ranked_plan : CompiledPlan :=
  mkPlan (plan_name plan) (imap numbered (take (limit q) ordered))
    (dropped plan ++ ((fun a => mkDropped (selector_of a) OverCap) <$> drop (limit q) ordered))%list (router_ordering plan).

(** A binding that is not kept is dropped. *)
Definition affinities_left : list (string * (string * float)) :=
  match session, previous, bound with
  | Some a, Some _, None => remove a (affinities s)
  | _, _, _ => affinities s
  end.
End Rank.

(** The ranked plan, and what is left of the worker; its selection is the last. *)
Definition rank (digest : string -> string -> string -> string) (q : question) (plan : CompiledPlan) (now : float) (w : worker) : CompiledPlan * worker :=
  (ranked_plan digest q plan (router w) now,
   with_selections (selections w ++ [mkSelection (session digest q plan) (asked_mode q) []])
     (with_affinities (affinities_left digest q plan (router w) now) w)).

(** ** What happens to a worker *)

Inductive event :=
| Ranks (q : question) (plan : CompiledPlan) (now : float)
| Starts (sel : nat) (selector k : string) (now : float)
| FirstResponse (i : nat) (now : float)
| Finishes (i : nat) (success unhealthy : bool) (now : float)
| Closes (sel : nat) (clock : nat -> float)
| Forgets (sel : nat) (k : string).

Definition happens (digest : string -> string -> string -> string) (w : worker) (e : event) : worker :=
  match e with
  | Ranks q plan now => (rank digest q plan now w).2
  | Starts sel selector k now => start sel selector k now w
  | FirstResponse i now => first_response i now w
  | Finishes i success unhealthy now => finish i success unhealthy now w
  | Closes sel clock => close sel clock w
  | Forgets sel k => forget_key sel k w
  end.
Definition runs (digest : string -> string -> string -> string) (es : list event) : worker := foldl (happens digest) new_worker es.

Local Open Scope list_scope.

(** ** The table of credentials *)

Lemma get_elem {A} k (l : list (string * A)) v : get k l = Some v -> (k, v) ∈ l.
Proof.
  induction l as [|[k' v'] l IH]; [done|]. simpl. case_bool_decide; [intros [= ->]; subst; by left|]. intros ?. right. by apply IH.
Qed.

Lemma get_None {A} k (l : list (string * A)) : get k l = None <-> k ∉ l.*1.
Proof.
  induction l as [|[k' v'] l IH]; simpl; [split; [intros _; apply not_elem_of_nil|done]|].
  rewrite not_elem_of_cons. case_bool_decide; [split; [done|by intros [? _]]|]. rewrite IH. naive_solver.
Qed.

Lemma elem_get {A} k (l : list (string * A)) v : NoDup l.*1 -> (k, v) ∈ l -> get k l = Some v.
Proof.
  induction l as [|[k' v'] l IH]; simpl; [by intros _ ?%elem_of_nil|]. intros [Hn Hl]%NoDup_cons [[= -> ->]|H]%elem_of_cons.
  - by rewrite bool_decide_true.
  - case_bool_decide; [subst; destruct Hn; by apply (list_elem_of_fmap_2 fst) in H|by apply IH].
Qed.

Lemma remove_elem {A} k (l : list (string * A)) p : p ∈ remove k l <-> p.1 <> k /\ p ∈ l.
Proof. unfold remove. by rewrite list_elem_of_filter. Qed.

Lemma remove_absent {A} k (l : list (string * A)) : k ∉ l.*1 -> remove k l = l.
Proof.
  induction l as [|[k' v] l IH]; [done|]. simpl. intros [Hk Hl]%not_elem_of_cons. unfold remove in *.
  rewrite filter_cons_True; [by rewrite IH|]. simpl. by intros ->.
Qed.

Lemma remove_present {A} k (l : list (string * A)) v : NoDup l.*1 -> (k, v) ∈ l -> l ≡ₚ (k, v) :: remove k l.
Proof.
  induction l as [|[k' v'] l IH]; [by intros _ ?%elem_of_nil|]. intros [Hn Hl]%NoDup_cons [[= -> ->]|H]%elem_of_cons.
  - unfold remove. rewrite filter_cons_False; [|simpl; tauto]. fold (remove k' l). by rewrite remove_absent.
  - unfold remove. rewrite filter_cons_True.
    + fold (remove k l). rewrite Permutation_swap. constructor. by apply IH.
    + intros E. simpl in E. subst. destruct Hn. by apply (list_elem_of_fmap_2 fst) in H.
Qed.

Lemma remove_sub {A} k (l : list (string * A)) : remove k l `sublist_of` l.
Proof. apply sublist_filter. Qed.

Lemma remove_NoDup {A} k (l : list (string * A)) : NoDup l.*1 -> NoDup (remove k l).*1.
Proof. intros H. eapply sublist_NoDup; [exact H|]. apply (fmap_sublist fst), remove_sub. Qed.

Lemma put_last_NoDup {A} k (v : A) l : NoDup l.*1 -> NoDup (put_last k v l).*1.
Proof.
  intros H. unfold put_last. rewrite fmap_app. apply NoDup_app. split_and!; [by apply remove_NoDup| |apply NoDup_singleton].
  intros x ([k' v'] & -> & Hx)%list_elem_of_fmap Hk%list_elem_of_singleton. simpl in Hk. subst k'. by apply remove_elem in Hx as [? _].
Qed.

(** ** Outstanding calls *)

Definition outstanding (r : nat) (o : AutomaticObservation) : Prop := finished o = false /\ obs_health o = Some r.
#[export] Instance outstanding_dec r o : Decision (outstanding r o).
Proof. unfold outstanding. apply _. Defined.
Definition load (r : nat) (l : list AutomaticObservation) : nat := length (filter (outstanding r) l).

(** The load counted for a credential is the number of its outstanding calls, each of which finds it in the table. *)
Record consistent (s : AutomaticRouter) (os : list AutomaticObservation) : Prop := {
  con_keys : NoDup (health s).*1;
  con_refs : NoDup (health s).*2;
  con_bound : (length (health s) <= _LIMIT)%nat;
  con_held : forall k r, (k, r) ∈ health s -> (r < length (healths s))%nat;
  con_load : forall r h, healths s !! r = Some h -> active h = Z.of_nat (load r os);
  con_table : forall o r, o ∈ os -> outstanding r o -> (key o, r) ∈ health s
}.

Lemma load_app r os os' : load r (os ++ os') = (load r os + load r os')%nat.
Proof. unfold load. by rewrite filter_app, length_app. Qed.

Lemma load_zero r os : (forall o, o ∈ os -> ~ outstanding r o) <-> load r os = 0%nat.
Proof.
  unfold load. split.
  - intros H. induction os as [|o os IH]; [done|]. rewrite filter_cons_False by (apply H; by left). apply IH. intros. apply H. by right.
  - intros H o Ho Hr. apply length_zero_iff_nil in H. assert (o ∈ filter (outstanding r) os) by by apply list_elem_of_filter.
    rewrite H in *. by apply elem_of_nil in H0.
Qed.

(** The table may change its order. *)
Lemma consistent_perm s os l : consistent s os -> l ≡ₚ health s -> consistent (mkRouter l (affinities s) (healths s)) os.
Proof.
  intros [H1 H2 H3 H4 H5 H6] Hl. split; simpl; try done; try by rewrite Hl.
  - intros k r. rewrite Hl. apply H4.
  - intros o r Ho Hr. rewrite Hl. by apply H6.
Qed.

Lemma consistent_evicts s os k r : consistent s os -> (k, r) ∈ health s -> load r os = 0%nat ->
  consistent (mkRouter (remove k (health s)) (affinities s) (healths s)) os.
Proof.
  intros [H1 H2 H3 H4 H5 H6] Hk Hz. pose proof (remove_sub k (health s)) as Hsub. split; simpl; try done.
  - by apply remove_NoDup.
  - eapply sublist_NoDup; [exact H2|]. by apply (fmap_sublist snd).
  - apply sublist_length in Hsub. lia.
  - intros k' r' [_ Hi]%remove_elem. by eapply H4.
  - intros o r' Ho Hr. apply remove_elem. split; [|by apply H6]. simpl. intros E. pose proof (H6 _ _ Ho Hr) as Hi.
    rewrite E in Hi. apply elem_get in Hi, Hk; try done. rewrite Hi in Hk. injection Hk as ->. by destruct (proj2 (load_zero r os) Hz o Ho).
Qed.

Lemma consistent_adds s os k : consistent s os -> k ∉ (health s).*1 -> (length (health s) < _LIMIT)%nat ->
  consistent (add_health k s).2 os /\ (k, length (healths s)) ∈ health (add_health k s).2.
Proof.
  intros [H1 H2 H3 H4 H5 H6] Hk Hl. unfold add_health. cbn [fst snd health healths].
  assert (Hfresh : forall k', (k', length (healths s)) ∉ health s) by (intros k' ?%H4; lia).
  split; [|apply elem_of_app; right; by apply list_elem_of_singleton]. split; cbn [health healths].
  - rewrite fmap_app. apply NoDup_app. split_and!; [done| |apply NoDup_singleton]. intros x Hx ->%list_elem_of_singleton. by apply Hk.
  - rewrite fmap_app. apply NoDup_app. split_and!; [done| |apply NoDup_singleton].
    intros x ([k' r'] & -> & Hx)%list_elem_of_fmap E%list_elem_of_singleton. simpl in E. subst. by eapply Hfresh.
  - rewrite length_app. simpl. lia.
  - intros k' r' [Hi|[= -> ->]%list_elem_of_singleton]%elem_of_app; rewrite length_app; simpl; [apply H4 in Hi; lia|lia].
  - intros r h [Hi|[Hr Hi]]%lookup_app_Some; [by apply H5|]. apply list_lookup_singleton_Some in Hi as [_ <-].
    rewrite (proj1 (load_zero r os)); [done|]. intros o Ho Hout. pose proof (H4 _ _ (H6 _ _ Ho Hout)). lia.
  - intros o r Ho Hr. apply elem_of_app. left. by apply H6.
Qed.

Lemma consistent_health k s os : consistent s os -> let '(h, s') := _health k s in consistent s' os /\
  match h with Some r => (k, r) ∈ health s' | None => k ∉ (health s).*1 /\ length (health s) = _LIMIT /\
    forall k' r, (k', r) ∈ health s -> (0 < load r os)%nat end.
Proof.
  intros H. unfold _health. destruct (get k (health s)) as [r|] eqn:Ek.
  - apply get_elem in Ek. assert (Hp : put_last k r (health s) ≡ₚ health s).
    { unfold put_last. rewrite Permutation_app_comm. simpl. symmetry. apply remove_present; [apply H|done]. }
    split; [by apply consistent_perm|]. simpl. by rewrite Hp.
  - apply get_None in Ek. destruct (_LIMIT <=? length (health s))%nat eqn:El.
    + apply Nat.leb_le in El. destruct (filter _ (health s)) as [|[idle r] l] eqn:Ef; simpl.
      * split; [done|]. split_and!; [done|pose proof (con_bound _ _ H); lia|]. intros k' r Hi.
        destruct (load r os) as [|n] eqn:Ez; [|lia]. destruct (lookup_lt_is_Some_2 _ _ (con_held _ _ H _ _ Hi)) as [h Hh].
        assert (Hx : (k', r) ∈ filter (fun p => is_idle (healths s) p.2 = true) (health s)).
        { apply list_elem_of_filter. split; [|done]. simpl. unfold is_idle. by rewrite Hh, (con_load _ _ H _ _ Hh), Ez. }
        rewrite Ef in Hx. by apply elem_of_nil in Hx.
      * assert (Hx : (idle, r) ∈ filter (fun p => is_idle (healths s) p.2 = true) (health s)) by (rewrite Ef; by left).
        apply list_elem_of_filter in Hx as [Hidle Hx]. simpl in Hidle. unfold is_idle in Hidle.
        destruct (healths s !! r) as [h|] eqn:Eh; [|done]. apply Z.eqb_eq in Hidle. rewrite (con_load _ _ H _ _ Eh) in Hidle.
        apply (consistent_adds (mkRouter (remove idle (health s)) (affinities s) (healths s))).
        -- eapply consistent_evicts; [done|exact Hx|lia].
        -- simpl. intros ([k' r'] & Hk & [_ Hi]%remove_elem)%list_elem_of_fmap. simpl in Hk. subst k'. apply Ek.
           by apply (list_elem_of_fmap_2 fst) in Hi.
        -- simpl. pose proof (remove_present idle (health s) r (con_keys _ _ H) Hx) as Hp. apply Permutation_length in Hp.
           simpl in Hp. pose proof (con_bound _ _ H). lia.
    + apply Nat.leb_gt in El. by apply consistent_adds.
Qed.

(** *** Each operation *)

Definition counts (r : nat) (o : AutomaticObservation) : nat := if negb (finished o) && bool_decide (obs_health o = Some r) then 1 else 0.

Lemma load_cons r o os : load r (o :: os) = (counts r o + load r os)%nat.
Proof.
  unfold load, counts. rewrite filter_cons. destruct (decide (outstanding r o)) as [[E1 E2]|Hn].
  - by rewrite E1, E2, bool_decide_true.
  - destruct (finished o) eqn:Ef; [done|]. by rewrite bool_decide_false by by intros E; destruct Hn.
Qed.

Lemma load_alter r f os i o : os !! i = Some o -> (load r (alter f i os) + counts r o = load r os + counts r (f o))%nat.
Proof.
  revert i. induction os as [|o' os IH]; intros [|i] Hi; simplify_eq/=; rewrite !load_cons; [lia|]. specialize (IH _ Hi). lia.
Qed.

Lemma elem_of_alter {A} (f : A -> A) (i : nat) (l : list A) x : x ∈ alter f i l -> (exists y, l !! i = Some y /\ x = f y) \/ x ∈ l.
Proof.
  intros [j Hj]%list_elem_of_lookup. rewrite list_lookup_alter in Hj. case_decide; [|right; by eapply list_elem_of_lookup_2].
  subst. apply fmap_Some in Hj as (y & Hy & ->). left. by exists y.
Qed.

Lemma alter_absent {A} (f : A -> A) (i : nat) (l : list A) : l !! i = None -> alter f i l = l.
Proof. intros H. apply list_eq. intros j. rewrite list_lookup_alter. case_decide; [subst; by rewrite H|done]. Qed.

Lemma consistent_starts s os k sel selector now : consistent s os -> let '(h, s') := _health k s in
  consistent (match h with Some r => mkRouter (health s') (affinities s') (alter busier r (healths s')) | None => s' end)
    (os ++ [mkObservation sel k selector h now None false]).
Proof.
  intros H. pose proof (consistent_health k s os H) as Hc. destruct (_health k s) as [h s']. destruct Hc as [[H1 H2 H3 H4 H5 H6] Hh].
  set (o := mkObservation sel k selector h now None false).
  assert (Htable : forall o' r, o' ∈ os ++ [o] -> outstanding r o' -> (key o', r) ∈ health s').
  { intros o' r [Ho| ->%list_elem_of_singleton]%elem_of_app Hr; [by apply H6|]. destruct Hr as [_ Hr]. simpl in *. by subst h. }
  assert (Hload : forall r, Z.of_nat (load r (os ++ [o])) = Z.of_nat (load r os) + if decide (h = Some r) then 1 else 0).
  { intros r. rewrite load_app, (load_cons r o []). unfold counts. simpl. case_bool_decide; [rewrite decide_True by done|rewrite decide_False by done];
    unfold load; simpl; lia. }
  destruct h as [r0|]; split; simpl; try done.
  - intros k' r Hi. rewrite length_alter. by eapply H4.
  - intros r h Hi. rewrite Hload. rewrite list_lookup_alter in Hi. case_decide as E.
    + subst r. apply fmap_Some in Hi as (h' & Hi & ->). simpl. rewrite (H5 _ _ Hi). by rewrite decide_True.
    + rewrite (H5 _ _ Hi), decide_False by congruence. lia.
  - intros r h Hi. rewrite Hload, (H5 _ _ Hi). simpl. lia.
Qed.

(** What changes of an observation is not whose call it is. *)
Lemma consistent_alter s os i f : consistent s os -> (forall o, finished (f o) = finished o /\ obs_health (f o) = obs_health o /\ key (f o) = key o) ->
  consistent s (alter f i os).
Proof.
  intros [H1 H2 H3 H4 H5 H6] Hf. split; try done.
  - intros r h Hi. rewrite (H5 _ _ Hi). f_equal. destruct (os !! i) as [o|] eqn:Eo.
    + pose proof (load_alter r f os i o Eo) as Hl. destruct (Hf o) as (E1 & E2 & _).
      unfold counts in Hl. rewrite E1, E2 in Hl. lia.
    + by rewrite alter_absent.
  - intros o r [(o' & Ho & ->)|Ho]%elem_of_alter; [|by apply H6]. destruct (Hf o') as (E1 & E2 & E3). unfold outstanding. rewrite E1, E2, E3.
    apply H6. by eapply list_elem_of_lookup_2.
Qed.

Definition ended (o : AutomaticObservation) : AutomaticObservation :=
  mkObservation (selection o) (key o) (selector o) (obs_health o) (started o) (first_at o) true.

Lemma consistent_ends s os i o (f : _Health -> _Health) : consistent s os -> os !! i = Some o -> finished o = false ->
  (forall h, active (f h) = Z.max 0 (active h - 1)) ->
  consistent (match obs_health o with Some r => mkRouter (health s) (affinities s) (alter f r (healths s)) | None => s end) (alter ended i os).
Proof.
  intros [H1 H2 H3 H4 H5 H6] Hi Ho Hf.
  assert (Hload : forall r, Z.of_nat (load r (alter ended i os)) = Z.of_nat (load r os) - if decide (obs_health o = Some r) then 1 else 0).
  { intros r. pose proof (load_alter r ended os i o Hi) as Hl. unfold counts in Hl. simpl in Hl. rewrite Ho in Hl. simpl in Hl.
    case_bool_decide; [rewrite decide_True by done|rewrite decide_False by done]; lia. }
  assert (Htable : forall o' r, o' ∈ alter ended i os -> outstanding r o' -> (key o', r) ∈ health s).
  { intros o' r [(o2 & _ & ->)|Ho']%elem_of_alter; [by intros [? _]|by apply H6]. }
  destruct (obs_health o) as [r0|] eqn:Er; split; simpl; try done.
  - intros k' r Hr. rewrite length_alter. by eapply H4.
  - intros r h Hr. rewrite list_lookup_alter in Hr. case_decide as E.
    + subst r. apply fmap_Some in Hr as (h' & Hr & ->). rewrite Hf, (H5 _ _ Hr). pose proof (Hload r0) as Hl. rewrite decide_True in Hl by done. lia.
    + rewrite Hload, (H5 _ _ Hr), decide_False by congruence. lia.
  - intros r h Hr. rewrite Hload, (H5 _ _ Hr). simpl. lia.
Qed.

(** *** Any sequence of events *)

Record kept (w : worker) : Prop := {
  kept_calls : consistent (router w) (observations w);
  kept_sessions : NoDup (affinities (router w)).*1;
  kept_few : (length (affinities (router w)) <= _LIMIT)%nat;
  kept_made : forall i o, observations w !! i = Some o -> exists x, selections w !! selection o = Some x /\ i ∈ made x
}.

Lemma consistent_same s s' os : consistent s os -> health s' = health s -> healths s' = healths s -> consistent s' os.
Proof. intros [H1 H2 H3 H4 H5 H6] E1 E2. by split; rewrite ?E1, ?E2. Qed.

Lemma kept_remove a w : kept w -> kept (with_affinities (remove a (affinities (router w))) w).
Proof.
  intros [H1 H2 H3 H4]. split; simpl; [by eapply consistent_same|by apply remove_NoDup| |done].
  pose proof (sublist_length _ _ (remove_sub a (affinities (router w)))). lia.
Qed.

Lemma kept_forget sel k w : kept w -> kept (forget_key sel k w).
Proof.
  intros H. unfold forget_key. destruct (_ ≫= affinity) as [a|]; [|done]. destruct (get a _) as [[k' since]|]; [|done].
  case_bool_decide; [by apply kept_remove|done].
Qed.

Lemma kept_binds a k now w : kept w -> kept (bind_session a k now w).
Proof.
  intros [H1 H2 H3 H4]. unfold bind_session. set (l := put_last a (k, now) (affinities (router w))).
  split; simpl; [by eapply consistent_same| | |done].
  - eapply sublist_NoDup; [exact (put_last_NoDup a (k, now) _ H2)|]. apply (fmap_sublist fst), sublist_drop.
  - rewrite length_drop. lia.
Qed.

Lemma kept_starts sel selector k now w : kept w -> kept (start sel selector k now w).
Proof.
  intros [H1 H2 H3 H4]. unfold start. destruct (selections w !! sel) as [x|] eqn:Ex; [|done]. pose proof (consistent_starts _ _ k sel selector now H1) as Hc.
  assert (Ha : affinities (_health k (router w)).2 = affinities (router w)).
  { unfold _health. destruct (get k _); [done|]. destruct (_ <=? _)%nat; [|done]. by destruct (head _) as [[idle r]|]. }
  destruct (_health k (router w)) as [h s']. simpl in Ha.
  split; simpl; [done|by destruct h; simpl; rewrite Ha|by destruct h; simpl; rewrite Ha|].
  pose proof (lookup_lt_Some _ _ _ Ex) as Hsel. intros i o [Ho|[Hi Ho]]%lookup_app_Some.
  - destruct (H4 _ _ Ho) as (y & Hy & Hi). destruct (decide (selection o = sel)) as [E|E].
    + eexists. rewrite E, list_lookup_insert_eq by done. split; [done|]. simpl. rewrite E, Ex in Hy. injection Hy as ->.
      apply elem_of_app. by left.
    + exists y. by rewrite list_lookup_insert_ne.
  - apply list_lookup_singleton_Some in Ho as [Hi0 <-]. simpl. eexists. rewrite list_lookup_insert_eq by done. split; [done|]. simpl.
    apply elem_of_app. right. apply list_elem_of_singleton. lia.
Qed.

(** Whose a call is does not change. *)
Lemma made_alter (f : AutomaticObservation -> AutomaticObservation) i w : (forall o, selection (f o) = selection o) ->
  (forall i o, observations w !! i = Some o -> exists x, selections w !! selection o = Some x /\ i ∈ made x) ->
  forall j o, alter f i (observations w) !! j = Some o -> exists x, selections w !! selection o = Some x /\ j ∈ made x.
Proof.
  intros Hf H j o Hj. rewrite list_lookup_alter in Hj. case_decide; [|by apply H]. subst.
  apply fmap_Some in Hj as (o' & Hj & ->). rewrite Hf. by apply H.
Qed.

Lemma kept_finishes i success unhealthy now w : kept w -> kept (finish i success unhealthy now w).
Proof.
  intros H. unfold finish. destruct (observations w !! i) as [o|] eqn:Eo; [|done]. destruct (finished o) eqn:Ef; [done|].
  set (w1 := match obs_health o with Some r => _ | None => _ end).
  assert (H1 : kept w1).
  { destruct H as [H1 H2 H3 H4].
    pose proof (consistent_ends _ _ i o (told o (default "" (mode <$> selections w !! selection o)) success unhealthy now) H1 Eo Ef) as Hc.
    unfold w1. destruct (obs_health o) as [r|]; (split; simpl; [|done|done|by apply made_alter]); apply Hc; intros h; unfold told; by destruct success. }
  set (w2 := if unhealthy then _ else _).
  assert (H2 : kept w2) by (unfold w2; destruct unhealthy; [by apply kept_forget|done]).
  destruct success; [|done]. destruct (_ ≫= affinity); [by apply kept_binds|done].
Qed.

Lemma kept_closes sel clock w : kept w -> kept (close sel clock w).
Proof.
  intros H. unfold close. generalize (default [] (made <$> selections w !! sel)) as l. intros l. revert w H.
  induction l as [|i l IH]; intros w H; simpl; [done|]. by apply IH, kept_finishes.
Qed.

Lemma kept_event digest w e : kept w -> kept (happens digest w e).
Proof.
  intros H. destruct e as [q plan now|sel selector k now|i now|i success unhealthy now|sel clock|sel k]; simpl.
  - assert (Ha : kept (with_affinities (affinities_left digest q plan (router w) now) w)).
    { unfold affinities_left. destruct (session digest q plan), (previous digest q plan (router w)), (bound digest q plan (router w) now);
        try (by apply kept_remove); by destruct H as [H1 H2 H3 H4]; split; [eapply consistent_same| | |]. }
    destruct Ha as [A1 A2 A3 A4]. split; [done..|]. simpl. intros i o Ho. destruct (A4 i o Ho) as (x & Hx & Hi). exists x. split; [|done].
    by apply lookup_app_l_Some.
  - by apply kept_starts.
  - destruct H as [H1 H2 H3 H4]. split; simpl; [|done|done|apply made_alter; [|done]; intros o; by destruct (first_at o)].
    apply consistent_alter; [done|]. intros o. by destruct (first_at o).
  - by apply kept_finishes.
  - by apply kept_closes.
  - by apply kept_forget.
Qed.

Lemma kept_runs digest es : kept (runs digest es).
Proof.
  unfold runs. assert (H : kept new_worker).
  { split; simpl; [split; simpl| | |done]; try apply NoDup_nil_2; try lia; try done; intros ? ? ?%elem_of_nil; done. }
  revert H. generalize new_worker. induction es as [|e es IH]; intros w H; [done|]. simpl. by apply IH, kept_event.
Qed.

Lemma ended_twice o : finished o = true -> ended o = o.
Proof. destruct o. simpl. by intros ->. Qed.

Lemma alter_same {A} (f : A -> A) (i : nat) (l : list A) x : l !! i = Some x -> f x = x -> alter f i l = l.
Proof.
  intros Hi Hf. apply list_eq. intros j. rewrite list_lookup_alter. case_decide as E; [|done]. subst. rewrite Hi. simpl. by rewrite Hf.
Qed.

Lemma finish_calls i success unhealthy now w : observations (finish i success unhealthy now w) = alter ended i (observations w).
Proof.
  unfold finish. destruct (observations w !! i) as [o|] eqn:Eo; [|by rewrite alter_absent].
  destruct (finished o) eqn:Ef; [by rewrite (alter_same _ _ _ o) by by try apply ended_twice|].
  assert (Hforget : forall sel k w, observations (forget_key sel k w) = observations w).
  { intros sel k w1. unfold forget_key. destruct (_ ≫= affinity); [|done]. destruct (get _ _) as [[? ?]|]; [|done]. by case_bool_decide. }
  destruct (obs_health o); destruct success, (selections w !! selection o ≫= affinity), unhealthy; unfold bind_session; simpl; rewrite ?Hforget; done.
Qed.

(** A request that is over has nothing outstanding. *)
Lemma close_ends digest es sel clock o : o ∈ observations (close sel clock (runs digest es)) -> selection o = sel -> finished o = true.
Proof.
  intros [j Hj]%list_elem_of_lookup Hs.
  assert (Hfold : forall l w, match observations w !! j with Some o => selection o = sel -> j ∈ l \/ finished o = true | None => True end ->
    observations (foldl (fun w i => finish i false false (clock i) w) w l) !! j = Some o -> finished o = true).
  { induction l as [|i l IH]; intros w Hw Ho; simpl in Ho.
    - rewrite Ho in Hw. by destruct (Hw Hs) as [?%elem_of_nil|?].
    - apply (IH _ ) in Ho; [done|]. rewrite finish_calls, list_lookup_alter. destruct (observations w !! j) as [o'|] eqn:Eo.
      + case_decide as E; [subst i; rewrite ?Eo; simpl; by right|]. intros Hs'. destruct (Hw Hs') as [[E'|?]%elem_of_cons|?]; [congruence|by left|by right].
      + case_decide as E; [subst i|]; by rewrite ?Eo. }
  apply (Hfold (default [] (made <$> selections (runs digest es) !! sel)) (runs digest es)); [|exact Hj].
  destruct (observations (runs digest es) !! j) as [o'|] eqn:Eo; [|done]. intros Hs'. rewrite <- Hs'.
  destruct (kept_made _ (kept_runs digest es) _ _ Eo) as (x & Hx & Hi). left. by rewrite Hx.
Qed.

Definition calls_of (k : string) (os : list AutomaticObservation) : nat :=
  length (filter (fun o => finished o = false /\ is_Some (obs_health o) /\ key o = k) os).

Lemma load_of_key s os k r : consistent s os -> (k, r) ∈ health s -> load r os = calls_of k os.
Proof.
  intros H Hk. unfold load, calls_of. f_equal. pose proof (con_table _ _ H) as Ht.
  assert (Hiff : forall o, o ∈ os -> outstanding r o <-> finished o = false /\ is_Some (obs_health o) /\ key o = k).
  { intros o Ho. split.
    - intros [Hf Hr]. split_and!; [done|by eexists|]. pose proof (Ht o r Ho (conj Hf Hr)) as Hi.
      pose proof (con_refs _ _ H) as Hn. apply list_elem_of_lookup in Hi as [i Hi], Hk as [j Hj].
      assert (i = j) as ->. { eapply (NoDup_lookup _ i j r Hn); by rewrite list_lookup_fmap, ?Hi, ?Hj. }
      rewrite Hi in Hj. by injection Hj.
    - intros (Hf & [r' Hr] & Hkey). split; [done|]. rewrite Hr. f_equal. pose proof (Ht o r' Ho (conj Hf Hr)) as Hi. rewrite Hkey in Hi.
      apply elem_get in Hi, Hk; try apply H. congruence. }
  clear -Hiff. induction os as [|o os IH]; [done|]. rewrite !filter_cons. pose proof (Hiff o ltac:(by left)).
  rewrite IH by (intros o' ?; apply Hiff; by right). repeat case_decide; tauto.
Qed.

(** C39: The load counted for a credential is the number of its outstanding calls, whatever requests do, in any order: an
    outstanding call is not forgotten, one that ends is taken off once, and a request that is over has none left.  At most
    ten thousand credentials and sessions are remembered, each once; a call goes uncounted only where each of them is in
    use. *)
Theorem load_is_outstanding digest es : let w := runs digest es in
  (length (health (router w)) <= _LIMIT)%nat /\ (length (affinities (router w)) <= _LIMIT)%nat /\
  NoDup (health (router w)).*1 /\ NoDup (affinities (router w)).*1 /\
  (forall k r, (k, r) ∈ health (router w) ->
     exists h, healths (router w) !! r = Some h /\ active h = Z.of_nat (calls_of k (observations w))) /\
  (forall o r, o ∈ observations w -> finished o = false -> obs_health o = Some r -> (key o, r) ∈ health (router w)) /\
  (forall sel clock o, o ∈ observations (close sel clock w) -> selection o = sel -> finished o = true) /\
  (forall k, (_health k (router w)).1 = None ->
     length (health (router w)) = _LIMIT /\ forall k' r, (k', r) ∈ health (router w) -> (0 < calls_of k' (observations w))%nat).
Proof.
  intros w. destruct (kept_runs digest es) as [H1 H2 H3 _]. fold w in H1, H2, H3. split_and!; [apply H1|done|apply H1|done| | | |].
  - intros k r Hk. destruct (lookup_lt_is_Some_2 _ _ (con_held _ _ H1 _ _ Hk)) as [h Hh]. exists h. split; [done|].
    by rewrite (con_load _ _ H1 _ _ Hh), (load_of_key _ _ k r H1 Hk).
  - intros o r Ho Hf Hr. by apply H1.
  - intros sel clock o. apply close_ends.
  - intros k Hk. pose proof (consistent_health k _ _ H1) as Hc. destruct (_health k (router w)) as [h s']. simpl in Hk. subst h.
    destruct Hc as [_ (_ & Hl & Hb)]. split; [done|]. intros k' r Hi. rewrite <- (load_of_key _ _ k' r H1 Hi). by eapply Hb.
Qed.

(** ** The order *)

Section Sorting.
Context {A : Type} (before : A -> A -> bool) (below : A -> A -> Prop).
(** [below] is a preorder two elements are in one way at least, and [before] says so. *)
Context (below_trans : forall x y z, below x y -> below y z -> below x z).
Context (before_below : forall x y, if before x y then below x y else below y x).

Lemma insert_perm x l : insert_sorted before x l ≡ₚ x :: l.
Proof.
  induction l as [|y l IH]; simpl; [done|]. destruct (before y x); [|done]. rewrite IH. apply Permutation_swap.
Qed.

Lemma sorted_perm l : sorted before l ≡ₚ l.
Proof. induction l as [|x l IH]; simpl; [done|]. by rewrite insert_perm, IH. Qed.

Lemma insert_below x l : StronglySorted below l -> StronglySorted below (insert_sorted before x l).
Proof.
  induction 1 as [|y l Hl IH Hy]; simpl; [repeat constructor|]. pose proof (before_below y x) as Hb. destruct (before y x).
  - constructor; [done|]. rewrite insert_perm. by constructor.
  - constructor; [by constructor|]. constructor; [done|]. eapply Forall_impl; [exact Hy|]. intros z. by apply below_trans.
Qed.

Lemma sorted_below l : StronglySorted below (sorted before l).
Proof. induction l as [|x l IH]; simpl; [constructor|]. by apply insert_below. Qed.
End Sorting.

Section Ranking.
Context (digest : string -> string -> string -> string) (q : question) (plan : CompiledPlan) (w : worker) (now : float).
Abbreviation s := (router w).
Abbreviation offers := (attempts plan).
Abbreviation unpriced a := (unpriced q a).
Abbreviation foreign a := (foreign q a).
Abbreviation cooling a := (cooling q plan s now a).
Abbreviation group a := (group q plan s now a).
Abbreviation key_of a := (key_of q plan a).
Abbreviation order := (ordered digest q plan s now).
Abbreviation by_score := (ranked q plan s now).

(** The bucket of [a] is none after that of [b]. *)
Definition no_later (a b : Attempt) : Prop := bucket_lt (group b) (group a) = false.

Lemma no_later_trans a b c : no_later a b -> no_later b c -> no_later a c.
Proof.
  unfold no_later. destruct (group a) as [[[u1 h1] f1] l1], (group b) as [[[u2 h2] f2] l2], (group c) as [[[u3 h3] f3] l3]. unfold bucket_lt, bool_lt.
  destruct u1, u2, u3, h1, h2, h3, f1, f2, f3; simpl; try done; rewrite ?Z.ltb_ge; lia.
Qed.

Lemma before_no_later a b : if goes_before q plan s now a b then no_later a b else no_later b a.
Proof.
  unfold goes_before, no_later. case_bool_decide as E.
  - assert (Hr : bucket_lt (group a) (group a) = false).
    { destruct (group a) as [[[u h] f] l]. unfold bucket_lt. rewrite !eqb_reflx. apply Z.ltb_irrefl. }
    rewrite <- E, Hr. by destruct (if float_eq _ _ then _ else _).
  - destruct (group a) as [[[u1 h1] f1] l1], (group b) as [[[u2 h2] f2] l2]. unfold bucket_lt, bool_lt.
    destruct u1, u2, h1, h2, f1, f2; simpl; try done; destruct (l1 <? l2) eqn:El; rewrite ?Z.ltb_ge in *; rewrite ?Z.ltb_lt in *; lia.
Qed.

Lemma by_score_sorted : StronglySorted no_later by_score.
Proof. apply sorted_below; [apply no_later_trans|apply before_no_later]. Qed.

Lemma by_score_perm : by_score ≡ₚ offers.
Proof. apply sorted_perm. Qed.

Lemma without_perm (p : Attempt -> bool) l a : head (filter (fun b => p b = true) l) = Some a -> l ≡ₚ a :: without p l /\ without p l `sublist_of` l.
Proof.
  induction l as [|b l IH]; [done|]. rewrite filter_cons. simpl. case_decide as E.
  - intros [= ->]. rewrite E. split; [done|by constructor].
  - destruct (p b); [done|]. intros H. destruct (IH H) as [IH1 IH2]. split; [|by constructor]. rewrite IH1 at 1. apply Permutation_swap.
Qed.

Lemma sublist_sorted {A} (R : A -> A -> Prop) l l' : l `sublist_of` l' -> StronglySorted R l' -> StronglySorted R l.
Proof.
  induction 1 as [|x l l' H IH|x l l' H IH]; intros Hs; [done| |by apply IH; inversion Hs].
  inversion Hs as [|? ? H1 H2]; subst. constructor; [by apply IH|]. apply Forall_forall. intros y Hy. rewrite Forall_forall in H2. apply H2.
  eapply sublist_submseteq, elem_of_submseteq in H; eauto.
Qed.

(** What is bound goes first; the others stay as they were. *)
Lemma order_case : match bound digest q plan s now with
  | Some a => exists rest, order = a :: rest /\ a :: rest ≡ₚ offers /\ StronglySorted no_later rest /\ keeps_binding q plan s now a = true
  | None => order = by_score
  end.
Proof.
  unfold ordered. destruct (bound digest q plan s now) as [a|] eqn:Eb; [|done]. unfold bound in Eb.
  destruct (sticky digest q plan s now) as [k|]; [|done]. destruct (head _) as [a'|] eqn:Eh; [|done].
  destruct (keeps_binding q plan s now a') eqn:Ek; [|done]. injection Eb as <-.
  assert (Hk : key_of a' = Some k).
  { apply head_Some_elem_of in Eh. by apply list_elem_of_filter in Eh as [? _]. }
  destruct (without_perm (fun b => bool_decide (key_of b = key_of a')) by_score a') as [H1 H2].
  { rewrite <- Eh. f_equal. apply list_filter_iff. intros b. by rewrite bool_decide_eq_true, Hk. }
  eexists. split; [reflexivity|]. split_and!; [|eapply sublist_sorted; [exact H2|apply by_score_sorted]|done].
  by rewrite <- H1, by_score_perm.
Qed.

Lemma order_perm : order ≡ₚ offers.
Proof.
  pose proof order_case as H. destruct (bound _ _ _ _ _); [by destruct H as (rest & -> & H & _)|]. rewrite H. apply by_score_perm.
Qed.

(** [a] is as good as any offer, in what an organization pays for. *)
Definition leads (a : Attempt) : Prop :=
  (unpriced a = true -> forall b, b ∈ offers -> unpriced b = true) /\
  (forall b, b ∈ offers -> unpriced b = false -> cooling b = false -> unpriced a = false /\ cooling a = false) /\
  (forall b, b ∈ offers -> unpriced b = false -> cooling b = false -> foreign b = false ->
     unpriced a = false /\ cooling a = false /\ foreign a = false).

Lemma least_leads a : (forall b, b ∈ offers -> no_later a b) -> leads a.
Proof.
  intros H. unfold leads. split_and!; [intros Hu b Hb; pose proof (H b Hb) as Hl|intros b Hb Hu Hc; pose proof (H b Hb) as Hl|
    intros b Hb Hu Hc Hf; pose proof (H b Hb) as Hl]; unfold no_later, AutomaticRouter.group, bucket_lt, bool_lt in Hl.
  - rewrite Hu in Hl. by destruct (unpriced b).
  - rewrite Hu, Hc in Hl. by destruct (unpriced a), (cooling a).
  - rewrite Hu, Hc, Hf in Hl. by destruct (unpriced a), (cooling a), (foreign a).
Qed.

Lemma first_is_least a l : by_score = a :: l -> forall b, b ∈ offers -> no_later a b.
Proof.
  intros E b Hb. pose proof by_score_sorted as Hs. rewrite <- by_score_perm, E in Hb. rewrite E in Hs. inversion Hs as [|? ? _ Hall]; subst.
  apply elem_of_cons in Hb as [->|Hb]; [|by eapply Forall_forall in Hall].
  unfold no_later. destruct (group a) as [[[u h] f] l']. unfold bucket_lt. rewrite !eqb_reflx. apply Z.ltb_irrefl.
Qed.

Lemma kept_binding_leads a : keeps_binding q plan s now a = true -> leads a.
Proof.
  unfold keeps_binding. rewrite !andb_true_iff, !orb_true_iff, !negb_true_iff. intros [[[Hc _] Hu] Hf].
  assert (Hpriced : forall b, b ∈ offers -> unpriced b = false -> unpriced a = false).
  { intros b Hb Hb'. destruct Hu as [?|Hall]; [done|]. rewrite forallb_forall in Hall.
    rewrite (Hall b) in Hb'; [done|]. apply list_elem_of_In. by rewrite by_score_perm. }
  split_and!.
  - intros Ha b Hb. destruct (unpriced b) eqn:Eb; [done|]. by rewrite (Hpriced b) in Ha.
  - intros b Hb Hb' _. split; [by eapply Hpriced|done].
  - intros b Hb Hb' Hbc Hbf. split_and!; [by eapply Hpriced|done|]. destruct Hf as [?|Hf]; [done|].
    destruct by_score as [|c l] eqn:E; [done|]. destruct (least_leads c) as (_ & _ & Hc3); [by eapply first_is_least|].
    destruct (Hc3 b Hb Hb' Hbc Hbf) as (_ & _ & ?). congruence.
Qed.

Lemma head_leads a l : order = a :: l -> leads a.
Proof.
  intros E. pose proof order_case as H. destruct (bound _ _ _ _ _) as [b|].
  - destruct H as (rest & Hr & _ & _ & Hk). rewrite E in Hr. injection Hr as <- <-. by apply kept_binding_leads.
  - rewrite E in H. by eapply least_leads, first_is_least.
Qed.

(** Kept by its session: who served it, as long as it may. *)
Lemma session_stays k a : sticky digest q plan s now = Some k -> a ∈ offers -> (forall b, b ∈ offers -> key_of b = Some k <-> b = a) ->
  unpriced a = false -> cooling a = false -> locality q a = 0 -> (foreign a = false \/ forall b, b ∈ offers -> foreign b = true) ->
  exists rest, order = a :: rest.
Proof.
  intros Hs Ha Hk Hu Hc Hl Hf. pose proof order_case as H.
  assert (Hh : head (filter (fun b => key_of b = Some k) by_score) = Some a).
  { assert (Hin : forall b, b ∈ filter (fun b => key_of b = Some k) by_score -> b = a).
    { intros b [Hb Hb']%list_elem_of_filter. rewrite by_score_perm in Hb'. by apply Hk. }
    assert (Hsome : a ∈ filter (fun b => key_of b = Some k) by_score).
    { apply list_elem_of_filter. split; [by apply Hk|by rewrite by_score_perm]. }
    destruct (filter _ by_score) as [|b l]; [by apply elem_of_nil in Hsome|]. simpl. f_equal. apply Hin. by left. }
  assert (Hb : bound digest q plan s now = Some a).
  { unfold bound. rewrite Hs, Hh. unfold keeps_binding. rewrite Hc, Hl, Hu. simpl.
    assert (negb (foreign a) || match by_score with b :: _ => foreign b | [] => false end = true) as ->; [|done].
    destruct Hf as [-> |Hf]; [done|]. apply orb_true_iff. right. pose proof by_score_perm as Hp.
    destruct by_score as [|b l]; [by rewrite <- Hp in Ha; apply elem_of_nil in Ha|]. apply Hf. rewrite <- Hp. by left. }
  rewrite Hb in H. destruct H as (rest & H & _). by exists rest.
Qed.

(** C40: A ranking tries every offer it was given once, up to its limit, and reports the others; in order, but for the offer
    its session is bound to, of price, health, own key and region.  First comes a priced one if there is any, and of those
    a healthy one, and of those one on the organization's own key; and a session goes back to who served it last as long
    as that one is priced, healthy, where it should be and no dearer to the organization than the others. *)
Theorem ranking_prefers : exists tried rest,
  let plan' := (rank digest q plan now w).1 in
  attempts plan' = imap numbered tried /\ dropped plan' = dropped plan ++ ((fun a => mkDropped (selector_of a) OverCap) <$> rest) /\
  tried ++ rest ≡ₚ offers /\ length tried = (limit q `min` length offers)%nat /\
  (StronglySorted no_later (tried ++ rest) \/
   exists a l, tried ++ rest = a :: l /\ bound digest q plan s now = Some a /\ StronglySorted no_later l) /\
  (forall a l, tried = a :: l -> leads a) /\
  (forall k a, sticky digest q plan s now = Some k -> a ∈ offers -> (forall b, b ∈ offers -> key_of b = Some k <-> b = a) ->
     unpriced a = false -> cooling a = false -> locality q a = 0 -> (foreign a = false \/ forall b, b ∈ offers -> foreign b = true) ->
     (0 < limit q)%nat -> exists l, tried = a :: l).
Proof.
  exists (take (limit q) order), (drop (limit q) order). rewrite !take_drop. split_and!.
  - done.
  - done.
  - apply order_perm.
  - by rewrite length_take, order_perm.
  - pose proof order_case as H. destruct (bound _ _ _ _ _) as [a|].
    + destruct H as (l & H & _ & Hl & _). right. by exists a, l.
    + left. rewrite H. apply by_score_sorted.
  - intros a l E. destruct (limit q) as [|n]; [done|]. destruct order as [|b l'] eqn:Eo; [done|]. simpl in E. injection E as <- _.
    by eapply head_leads.
  - intros k a Hs Ha Hk Hu Hc Hl Hf Hn. destruct (session_stays k a) as [rest ->]; try done. destruct (limit q) as [|n]; [lia|]. by eexists.
Qed.
End Ranking.

(** ** Two offerings of one model *)

Module Demo.
Definition offer (i : nat) (at_ : string) : Attempt := mkAttempt i at_ "openai" "model" ∅ None "catalog" false.
Definition both : CompiledPlan := mkPlan "acme/model" [offer 1 "us"; offer 2 "eu"] [] None.
Definition asks (region : option Region) (price : string -> option Q) (own : list string) : question :=
  mkQuestion (mkSettings true 3600 None None {["us" := mkOffering (Some Us) 1; "eu" := mkOffering (Some Eu) 1]})
    (fun a => instance a) price "workspace:user:key:chat" "conversation" region "chat:completion" (fun s => bool_decide (s ∈ own)) 5.
Definition same (_ : string) : option Q := Some (1 # 100)%Q.
Definition digest (a b c : string) : string := a +:+ b +:+ c.
Definition second (n : Z) : float := float_of_int n.
Definition tried (q : question) (now : Z) (es : list event) : list string := instance <$> attempts (rank digest q both (second now) (runs digest es)).1.
Definition asked : event := Ranks (asks None same []) both (second 100).
End Demo.

(** The busy offering is avoided while its call lasts; a session stays with who served it, unless that one fails. *)
Lemma load_is_outstanding_witness :
  let busy := [Demo.asked; Starts 0 "us:model" "us" (Demo.second 100)] in
  (forall k r, (k, r) ∈ health (router (runs Demo.digest busy)) -> exists h, healths (router (runs Demo.digest busy)) !! r = Some h /\ active h = 1) /\
  Demo.tried (Demo.asks None Demo.same []) 100 busy = ["eu"; "us"]%string.
Proof.
  intros busy. split; [|by vm_compute]. destruct (load_is_outstanding Demo.digest busy) as (_ & _ & _ & _ & H & _).
  intros k r Hk. destruct (H k r Hk) as (h & Hh & Hload). exists h. split; [done|]. rewrite Hload.
  assert (Hhealth : health (router (runs Demo.digest busy)) = [("us"%string, 0%nat)]) by by vm_compute.
  rewrite Hhealth in Hk. apply list_elem_of_singleton in Hk. injection Hk as -> ->. by vm_compute.
Defined.

Lemma ranking_prefers_witness :
  let served := [Demo.asked; Starts 0 "eu:model" "eu" (Demo.second 100); Finishes 0 true false (Demo.second 101)] in
  (exists tried rest, instance <$> tried = ["eu"; "us"]%string /\ tried ++ rest ≡ₚ attempts Demo.both) /\
  Demo.tried (Demo.asks None Demo.same []) 200 (served ++ [Demo.asked; Starts 1 "eu:model" "eu" (Demo.second 102); Finishes 1 false true (Demo.second 103)])
    = ["us"; "eu"]%string /\
  Demo.tried (Demo.asks None Demo.same ["us:model"]) 200 served = ["us"; "eu"]%string /\
  Demo.tried (Demo.asks (Some Us) Demo.same []) 200 served = ["us"; "eu"]%string /\
  Demo.tried (Demo.asks None (fun s => if bool_decide (s = "us:model"%string) then None else Some (1 # 1)%Q) []) 200 [] = ["eu"; "us"]%string.
Proof.
  intros served. split; [|by vm_compute].
  destruct (ranking_prefers Demo.digest (Demo.asks None Demo.same []) Demo.both (runs Demo.digest served) (Demo.second 200))
    as (tried & rest & H1 & _ & H3 & _).
  exists tried, rest. split; [|exact H3].
  assert (Hi : instance <$> imap numbered tried = instance <$> tried).
  { rewrite fmap_imap. apply list_eq. intros i. by rewrite list_lookup_imap, list_lookup_fmap. }
  rewrite <- Hi, <- H1. by vm_compute.
Defined.
