(* ===== verification/Attempts.v ===== *)
(** Walking a plan: each candidate in turn, until one serves ([src/src/gateway/api/routes/_attempts.py]).

    The walk is a program over the calls it makes - its callbacks and the provider call itself -
    whose answers, exceptions among them, come from outside.  A provider's exception is what the
    readers of [src/src/gateway/services/inference/_upstream_errors.py] and of the pipeline's
    classifier read of it.  A [Retry-After] is its seconds where it is a number. *)
From S2P Require Import Prelude Text ModelAccess Routing.
From stdpp Require Import base gmap strings list pretty sorting.
From Stdlib Require Import ZArith Lia.

Local Open Scope string_scope.

(** ** Failures and answers *)

Record http := mkHttp {
  status_code : Z; detail : string; error_code : option string; retry_after : option Z
}.

Record MissingCredential := mkMissing { missing_provider : string; missing_alias : option string }.

Inductive UpstreamErrorKind := TimeoutKind | ConnErr.
#[export] Instance UpstreamErrorKind_eq_dec : EqDecision UpstreamErrorKind.
Proof. solve_decision. Defined.

(** A provider's exception, as it is read. *)
Record failure := mkFailure {
  missing_credential : option MissingCredential;
  empty_completion : bool;
  exception_kind : option UpstreamErrorKind;
  exception_status : option Z;
  billing_error : bool;
  credential_rejection : bool;
  classified : option http;    (** [classify_provider_error], with its headers *)
  failure_detail : string -> string;    (** [provider_failure_detail], of the fallback *)
  unsupported_parameter : option string
}.

Definition kind_name (k : UpstreamErrorKind) : string := match k with TimeoutKind => "timeout" | ConnErr => "conn_err" end.

Definition classify_local_attempt_error (e : failure) : bool * string :=
  match missing_credential e with
  | Some _ => (true, "missing_credential")
  | None =>
      if empty_completion e then (true, "empty_completion")
      else match exception_kind e, exception_status e with
           | Some k, _ => (true, kind_name k)
           | None, Some s => (true, if billing_error e then "http_" +:+ pretty s +:+ "_billing" else "http_" +:+ pretty s)
           | None, None => (true, "unknown")
           end
  end.

Definition provider_failure_http_exc (e : failure) (fallback_detail : string) : http :=
  match classified e with
  | Some h => h
  | None => mkHttp 502 (failure_detail e fallback_detail) None None
  end.

Definition tried_text (n : nat) : string := "(" +:+ pretty n +:+ " attempts)".
Definition all_attempts_rejected_detail (n : nat) : string :=
  "No model accepted the request " +:+ tried_text n +:+ ". Check the request parameters.".
Definition prompt_too_long_for_every_attempt_detail (n : nat) : string :=
  "The prompt is too long for every model tried " +:+ tried_text n +:+ ".".
Definition no_attempt_accepts_images_detail (n : nat) : string :=
  "None of the models tried accepts image content " +:+ tried_text n +:+ ".".
Definition no_attempt_accepts_parameters_detail (parameters : list string) (n : nat) : string :=
  "None of the models tried accepts " +:+ join_with ", " parameters +:+ " " +:+ tried_text n +:+ ".".
Definition no_attempt_served_detail (n : nat) : string := "No model could serve the request " +:+ tried_text n +:+ ".".
Definition no_credential_accepted_detail (n : nat) : string :=
  "No provider accepted the gateway's credentials for this request " +:+ tried_text n +:+ ".".

Definition CONFIGURE_A_CREDENTIAL : string :=
  "An operator can add the provider as a hosted provider, or the organization can add its own provider key.".

(** [sorted] of a set. *)
Fixpoint insert_name (x : string) (l : list string) : list string :=
  match l with
  | [] => [x]
  | y :: l => if bool_decide (x = y) then y :: l
              else if String.leb x y then x :: y :: l else y :: insert_name x l
  end.
Definition sorted_names (l : list string) : list string := foldr insert_name [] l.

Definition no_candidate_configured_detail (missing : list MissingCredential) : string :=
  let names := match sorted_names (map missing_provider missing) with [] => "unknown" | l => join_with ", " l end in
  "No credential is configured for any provider this request could use (" +:+ pretty (length missing)
  +:+ " attempts: " +:+ names +:+ "). " +:+ CONFIGURE_A_CREDENTIAL.

Definition get_shared_rejection (errors : list failure) : option http :=
  let n := length errors in
  if (n <? 2)%nat then None
  else
    let missing := omap missing_credential errors in
    if bool_decide (length missing = n)
    then Some (mkHttp 424 (no_candidate_configured_detail missing) (Some "provider_not_configured") None)
    else
    let rejected := length (filter (fun e => credential_rejection e = true) errors) in
    if negb (rejected =? 0)%nat && bool_decide ((rejected + length missing)%nat = n)
     then Some (mkHttp 424 (no_credential_accepted_detail n) (Some "provider_credential_rejected") None)
     else
       let answers := map (fun e => provider_failure_http_exc e "") errors in
       let all_status s := forallb (fun a => bool_decide (status_code a = s)) answers in
       let all_code c := forallb (fun a => bool_decide (error_code a = Some c)) answers in
       if all_status 404%Z then Some (mkHttp 502 (no_attempt_served_detail n) None None)
       else if negb (all_status 400%Z) then None
       else if all_code "context_length_exceeded"
       then Some (mkHttp 400 (prompt_too_long_for_every_attempt_detail n) (Some "context_length_exceeded") None)
       else if all_code "unsupported_content"
       then Some (mkHttp 400 (no_attempt_accepts_images_detail n) (Some "unsupported_content") None)
       else if all_code "unsupported_parameter"
       then Some (mkHttp 400 (no_attempt_accepts_parameters_detail (sorted_names (omap unsupported_parameter errors)) n)
                    (Some "unsupported_parameter") None)
       else Some (mkHttp 400 (all_attempts_rejected_detail n) (Some "all_candidates_rejected") None).

(** ** The calls of a walk *)

Notation kwargs := (gmap string string).

Inductive exn :=
| CandidateCannotServe (refusal : http)
| HTTPException (h : http)
| MaxToolIterationsExceeded (message : string)
| BackendNotReachable    (** the sandbox or the web-search backend *)
| CancelledError
| Upstream (e : failure).

Inductive call (T : Type) : Type -> Type :=
| Credential (a : Attempt) : call T (exn + Attempt)
| Build (a : Attempt) : call T (exn + kwargs)
| Admit (a : Attempt) : call T (exn + option nat)    (** the handle that drops the admission *)
| Prepare (a : Attempt) (k : kwargs) : call T (exn + kwargs)
| Absorbed (a : Attempt) (e : failure) (n : nat) : call T (exn + unit)
| Skipped (a : Attempt) (h : http) : call T (exn + unit)
| Run (a : Attempt) (k : kwargs) : call T (bool * (exn + T))    (** whether lock-in was marked *)
| DropAdmission (handle : nat) (sent : bool) : call T (exn + unit)
| Terminal (a : Attempt) : call T (exn + unit).
Arguments Credential {T} a.
Arguments Build {T} a.
Arguments Admit {T} a.
Arguments Prepare {T} a k.
Arguments Absorbed {T} a e n.
Arguments Skipped {T} a h.
Arguments Run {T} a k.
Arguments DropAdmission {T} handle sent.
Arguments Terminal {T} a.

Inductive wprog (T A : Type) : Type :=
| WRet (a : A)
| WRaise (e : exn)
| WCall (R : Type) (c : call T R) (k : R -> wprog T A).
Arguments WRet {T A} a.
Arguments WRaise {T A} e.
Arguments WCall {T A R} c k.

Fixpoint wbind {T A B} (p : wprog T A) (f : A -> wprog T B) : wprog T B :=
  match p with
  | WRet a => f a
  | WRaise e => WRaise e
  | WCall c k => WCall c (fun r => wbind (k r) f)
  end.

Declare Scope walk_scope.
Delimit Scope walk_scope with walk.
Notation "'let*' x ':=' p 'in' q" := (wbind p (fun x => q))
  (at level 10, x pattern, p at level 100, q at level 200) : walk_scope.
Local Open Scope walk_scope.

Definition ask {T R} (c : call T R) : wprog T R := WCall c WRet.

(** A call whose exception is the caller's. *)
Definition must {T R} (c : call T (exn + R)) : wprog T R :=
  WCall c (fun r => match r with inl e => WRaise e | inr x => WRet x end).

(** ** The walk *)

(** Which callbacks the caller gave. *)
Record hooks := mkHooks {
  has_credential : bool; has_build : bool; has_admit : bool; has_prepare : bool;
  has_absorbed : bool; has_skipped : bool; has_terminal : bool
}.

Record AttemptFailure := mkAttemptFailure { failed_on : Attempt; error_class : string; error : failure }.

Record walk := mkWalk {
  failures : list AttemptFailure;
  last_exc : option failure;
  refusals : list (Attempt * http);
  unabsorbed : option (Attempt * failure);
  unrecorded_skips : list (Attempt * http);
  last_failed : option Attempt
}.
Definition new_walk : walk := mkWalk [] None [] None [] None.

(** What one turn of the loop leaves behind, also where it raised. *)
Record turn := mkTurn {
  t_attempt : Attempt;
  t_locked : bool;
  t_drop : option nat;
  t_sent : bool;
  t_unabsorbed : option (Attempt * failure);
  t_skips : list (Attempt * http)
}.

Definition call_kwargs (a : Attempt) (base_request_fields : kwargs) : kwargs :=
  <["model" := dispatch_model a]> (base_request_fields ∪ attempt_kwargs a).

Section walk.
Context {T : Type} (hk : hooks) (base_request_fields : kwargs) (total : nat).
Context (classify_error : failure -> bool * string).

Notation prog := (wprog T).

(** [if callback is not None: x = await callback(...)]. *)
Definition given {R} (has : bool) (c : call T (exn + R)) (otherwise : R) : prog (exn + R) :=
  if has then ask c else WRet (inr otherwise).

(** Go on with what a call answered, or stop the turn with what it raised. *)
Definition then_ {R} (p : prog (exn + R)) (t : turn) (k : R -> prog ((exn + T) * turn)) : prog ((exn + T) * turn) :=
  let* r := p in match r with inl e => WRet (inl e, t) | inr x => k x end.

Fixpoint record_skips (skips : list (Attempt * http)) : prog (exn + unit) :=
  match skips with
  | [] => WRet (inr tt)
  | (a, h) :: skips =>
      let* r := ask (Skipped a h) in
      match r with inl e => WRet (inl e) | inr _ => record_skips skips end
  end.

(** The body of the [try]. *)
Definition try_attempt (planned : Attempt) (w : walk) : prog ((exn + T) * turn) :=
  let t := mkTurn planned false None false (unabsorbed w) (unrecorded_skips w) in
  then_ (given (has_credential hk) (Credential planned) planned) t (fun attempt =>
  let t := mkTurn attempt false None false (unabsorbed w) (unrecorded_skips w) in
  then_ (given (has_build hk) (Build attempt) (call_kwargs attempt base_request_fields)) t (fun built =>
  then_ (given (has_admit hk) (Admit attempt) None) t (fun drop =>
  let t := mkTurn attempt false drop false (unabsorbed w) (unrecorded_skips w) in
  then_ (given (has_prepare hk) (Prepare attempt built) built) t (fun prepared =>
  then_ (match unabsorbed w with
         | Some (a, e) => given (has_absorbed hk) (Absorbed a e total) tt
         | None => WRet (inr tt)
         end) t (fun _ =>
  let t := mkTurn attempt false drop false None (unrecorded_skips w) in
  then_ (if has_skipped hk then record_skips (unrecorded_skips w) else WRet (inr tt)) t (fun _ =>
  let* ran := ask (Run attempt prepared) in
  WRet (ran.2, mkTurn attempt ran.1 drop true None []))))))).

Definition drop_admission (d : option nat) (sent : bool) : prog unit :=
  match d with Some h => must (DropAdmission h sent) | None => WRet tt end.

Definition on_terminal (a : Attempt) : prog unit := if has_terminal hk then must (Terminal a) else WRet tt.

(** The [except] clauses: the walk goes on, or ends. *)
Definition after_attempt (w : walk) (r : exn + T) (t : turn) : prog (walk + Attempt * T) :=
  match r with
  | inr result => WRet (inr (t_attempt t, result))
  | inl (CandidateCannotServe h) =>
      let* _ := drop_admission (t_drop t) false in
      WRet (inl (mkWalk (failures w) (last_exc w) (refusals w ++ [(t_attempt t, h)]) (t_unabsorbed t)
                   (t_skips t ++ [(t_attempt t, h)]) (last_failed w)))
  | inl (HTTPException h) =>
      let* _ := if t_locked t then WRet tt else drop_admission (t_drop t) false in
      let* _ := on_terminal (t_attempt t) in
      WRaise (HTTPException h)
  | inl (MaxToolIterationsExceeded message) =>
      let* _ := on_terminal (t_attempt t) in
      WRaise (HTTPException (mkHttp 422 message None None))
  | inl BackendNotReachable => WRaise BackendNotReachable
  | inl CancelledError => WRaise CancelledError
  | inl (Upstream e) =>
      let '(retryable, class) := classify_error e in
      if t_locked t || negb retryable then
        let* _ := on_terminal (t_attempt t) in
        WRaise (HTTPException (provider_failure_http_exc e "LLM provider error"))
      else
        let* _ := drop_admission (t_drop t) (t_sent t) in
        WRet (inl (mkWalk (failures w ++ [mkAttemptFailure (t_attempt t) class e]) (Some e) (refusals w)
                     (Some (t_attempt t, e)) (t_skips t) (Some (t_attempt t))))
  end.

(** The loop: the walk that every candidate left, or what the first to serve answered. *)
Fixpoint walk_each (attempts : list Attempt) (w : walk) : prog (walk + Attempt * T) :=
  match attempts with
  | [] => WRet (inl w)
  | planned :: attempts =>
      let* tried := try_attempt planned w in
      let* next := after_attempt w tried.1 tried.2 in
      match next with
      | inl w => walk_each attempts w
      | inr served => WRet (inr served)
      end
  end.

(** [min(reversed(refusals), key=...)]: the last of the soonest. *)
Definition sooner (x y : Attempt * http) : bool :=
  match retry_after x.2, retry_after y.2 with
  | Some a, Some b => (a <=? b)%Z
  | Some _, None => true
  | None, None => true
  | None, Some _ => false
  end.
Fixpoint soonest (best : Attempt * http) (l : list (Attempt * http)) : Attempt * http :=
  match l with [] => best | x :: l => soonest (if sooner x best then x else best) l end.

Definition ALL_ATTEMPTS_FAILED_DETAIL : string := "All upstream providers failed".
Definition ALL_ATTEMPTS_TIMED_OUT_DETAIL : string := "All upstream providers timed out".
Definition EMPTY_PLAN_DETAIL : string := "Routing produced no candidate to try".

Definition exhausted (w : walk) : http :=
  let single := (length (failures w) <=? 1)%nat in
  match last_exc w with
  | None => mkHttp 502 ALL_ATTEMPTS_FAILED_DETAIL None None
  | Some e =>
      if bool_decide (exception_kind e = Some TimeoutKind)
      then mkHttp 504 (if single then "LLM provider timeout" else ALL_ATTEMPTS_TIMED_OUT_DETAIL) None None
      else if single then provider_failure_http_exc e "LLM provider error"
      else match get_shared_rejection (map error (failures w)) with
           | Some h => h
           | None => mkHttp 502 ALL_ATTEMPTS_FAILED_DETAIL None None
           end
  end.

(** Every candidate was tried and none served. *)
Definition all_failed (last_attempt : Attempt) (w : walk) : prog (Attempt * T) :=
  match failures w, refusals w with
  | [], r :: rs =>
      let '(refused_on, refusal) := soonest r rs in
      let* _ := on_terminal refused_on in
      WRaise (HTTPException refusal)
  | _, _ =>
      let* recorded := if has_skipped hk then record_skips (unrecorded_skips w) else WRet (inr tt) in
      match recorded with
      | inl e => WRaise e
      | inr _ =>
          let* _ := on_terminal (match last_failed w with Some a => a | None => last_attempt end) in
          WRaise (HTTPException (exhausted w))
      end
  end.
End walk.

Definition walk_attempts {T} (hk : hooks) (classify_error : failure -> bool * string) (attempts : list Attempt)
    (base_request_fields : kwargs) : wprog T (Attempt * T) :=
  match last attempts with
  | None => WRaise (HTTPException (mkHttp 500 EMPTY_PLAN_DETAIL None None))
  | Some last_attempt =>
      let* w := walk_each hk base_request_fields (length attempts) classify_error attempts new_walk in
      match w with
      | inl w => all_failed hk last_attempt w
      | inr served => WRet served
      end
  end.

(** ** What a walk did *)

Inductive event (T : Type) := Ev (R : Type) (c : call T R) (answer : R).
Arguments Ev {T R} c answer.

(** Under answers that may depend on all that happened before. *)
Definition environment (T : Type) : Type := forall R, list (event T) -> call T R -> R.

Fixpoint wexec {T A} (env : environment T) (p : wprog T A) (trace : list (event T)) : (exn + A) * list (event T) :=
  match p with
  | WRet a => (inr a, trace)
  | WRaise e => (inl e, trace)
  | WCall c k => let r := env _ trace c in wexec env (k r) (trace ++ [Ev c r])
  end.
