(* ===== verification/AttemptsProofs.v ===== *)
(** What any walk does, whatever its callbacks and the providers answer: it serves one candidate at
    most, records each failure and each skip it recovers from, and leaves no candidate it moved past
    admitted.

    One turn of the loop is summed up by what it adds to the trace ([turn_ok]). *)
From S2P Require Import Prelude Text ModelAccess Routing Attempts.
From stdpp Require Import base gmap strings list.
From Stdlib Require Import ZArith Lia.

Local Open Scope walk_scope.

(** ** Every answer *)

(** [Q] of what the program ends in and of the events it adds, whatever its calls answer. *)
Fixpoint wp {T A} (p : wprog T A) (Q : exn + A -> list (event T) -> Prop) : Prop :=
  match p with
  | WRet a => Q (inr a) []
  | WRaise e => Q (inl e) []
  | WCall c k => forall r, wp (k r) (fun out d => Q out (Ev c r :: d))
  end.

Lemma walk_wp_mono {T A} (p : wprog T A) (Q Q' : exn + A -> list (event T) -> Prop) :
  wp p Q -> (forall out d, Q out d -> Q' out d) -> wp p Q'.
Proof.
  revert Q Q'. induction p as [a|e|R c k IH]; intros Q Q' H HQ; simpl in *; [by apply HQ|by apply HQ|].
  intros r. eapply IH; [apply H|]. simpl. intros out d. apply HQ.
Qed.

Lemma walk_wp_bind {T A B} (p : wprog T A) (f : A -> wprog T B) Q :
  wp p (fun out d => match out with
                     | inr a => wp (f a) (fun out' d' => Q out' (d ++ d'))
                     | inl e => Q (inl e) d
                     end) ->
  wp (wbind p f) Q.
Proof.
  revert Q. induction p as [a|e|R c k IH]; intros Q H; simpl in *; [done|done|]. intros r. apply IH. apply H.
Qed.

Lemma wp_sound {T A} (env : environment T) (p : wprog T A) Q trace :
  wp p Q -> exists d, (wexec env p trace).2 = trace ++ d /\ Q (wexec env p trace).1 d.
Proof.
  revert Q trace. induction p as [a|e|R c k IH]; intros Q trace H; simpl in *.
  - exists []. by rewrite app_nil_r.
  - exists []. by rewrite app_nil_r.
  - destruct (IH (env R trace c) _ (trace ++ [Ev c (env R trace c)]) (H _)) as (d & Hd & HQ).
    exists (Ev c (env R trace c) :: d). rewrite Hd, <- app_assoc. done.
Qed.

(** ** What a trace shows *)

Section views.
Context {T : Type}.
Implicit Types (ev : event T) (tr : list (event T)).

Definition granted1 ev : list nat :=
  match ev with Ev c r => match c in call _ R return R -> list nat with
                          | Admit _ => fun r => match r with inr (Some h) => [h] | _ => [] end
                          | _ => fun _ => []
                          end r end.
Definition dropped1 ev : list nat :=
  match ev with Ev c _ => match c with DropAdmission h _ => [h] | _ => [] end end.
Definition run1 ev : list (Attempt * bool * (exn + T)) :=
  match ev with Ev c r => match c in call _ R return R -> list (Attempt * bool * (exn + T)) with
                          | Run a _ => fun r => [(a, r.1, r.2)]
                          | _ => fun _ => []
                          end r end.
Definition absorbed1 ev : list (Attempt * failure) :=
  match ev with Ev c _ => match c with Absorbed a e _ => [(a, e)] | _ => [] end end.
Definition skipped1 ev : list (Attempt * http) :=
  match ev with Ev c _ => match c with Skipped a h => [(a, h)] | _ => [] end end.

(** A refusal moves the walk on even from a candidate that was locked in. *)
Definition moves_on (e : exn) (locked : bool) : bool :=
  negb locked || match e with CandidateCannotServe _ => true | _ => false end.

(** The exception a call of a candidate's turn ended in, and the candidate. *)
Definition raised1 ev : list (Attempt * exn) :=
  match ev with Ev c r => match c in call _ R return R -> list (Attempt * exn) with
                          | Credential a => fun r => match r with inl e => [(a, e)] | _ => [] end
                          | Build a => fun r => match r with inl e => [(a, e)] | _ => [] end
                          | Admit a => fun r => match r with inl e => [(a, e)] | _ => [] end
                          | Prepare a _ => fun r => match r with inl e => [(a, e)] | _ => [] end
                          | Run a _ => fun r => match r with (l, inl e) => if moves_on e l then [(a, e)] else [] | _ => [] end
                          | _ => fun _ => []
                          end r end.

Definition granted tr := flat_map granted1 tr.
Definition given_back tr := flat_map dropped1 tr.
Definition runs tr := flat_map run1 tr.
Definition absorbed tr := flat_map absorbed1 tr.
Definition skipped tr := flat_map skipped1 tr.
Definition raised tr := flat_map raised1 tr.

(** The provider failures a walk could recover from, and the refusals of its candidates. *)
Definition failed tr : list (Attempt * failure) :=
  omap (fun ae => match ae.2 with Upstream e => Some (ae.1, e) | _ => None end) (raised tr).
Definition refused tr : list (Attempt * http) :=
  omap (fun ae => match ae.2 with CandidateCannotServe h => Some (ae.1, h) | _ => None end) (raised tr).

(** Nothing goes wrong beside the providers: recording does not raise, and what runs before a
    candidate is sent the request raises nothing but a refusal. *)
Definition quiet1 ev : Prop :=
  match ev with Ev c r => match c in call _ R return R -> Prop with
                          | Absorbed _ _ _ => fun r => match r with inr _ => True | inl _ => False end
                          | Skipped _ _ => fun r => match r with inr _ => True | inl _ => False end
                          | Credential _ => fun r => match r with inl (Upstream _) => False | _ => True end
                          | Build _ => fun r => match r with inl (Upstream _) => False | _ => True end
                          | Admit _ => fun r => match r with inl (Upstream _) => False | _ => True end
                          | Prepare _ _ => fun r => match r with inl (Upstream _) => False | _ => True end
                          | _ => fun _ => True
                          end r end.
Definition quiet tr : Prop := Forall quiet1 tr.

(** A turn ended the walk while its candidate was admitted: locked in, at the gateway's own limits,
    or with the caller gone. *)
Definition keeps_admission (e : exn) (locked : bool) : bool :=
  match e with
  | MaxToolIterationsExceeded _ | BackendNotReachable | CancelledError => true
  | CandidateCannotServe _ => false
  | HTTPException _ | Upstream _ => locked
  end.
Definition ends1 ev : bool :=
  match ev with Ev c r => match c in call _ R return R -> bool with
                          | Credential _ => fun r => match r with inl e => keeps_admission e false | _ => false end
                          | Build _ => fun r => match r with inl e => keeps_admission e false | _ => false end
                          | Admit _ => fun r => match r with inl e => keeps_admission e false | _ => false end
                          | Prepare _ _ => fun r => match r with inl e => keeps_admission e false | _ => false end
                          | Absorbed _ _ _ => fun r => match r with inl e => keeps_admission e false | _ => false end
                          | Skipped _ _ => fun r => match r with inl e => keeps_admission e false | _ => false end
                          | Run _ _ => fun r => match r with (l, inl e) => keeps_admission e l | _ => false end
                          | _ => fun _ => false
                          end r end.
Definition ended_early tr : bool := existsb ends1 tr.
End views.

(** Views of a trace are views of its parts. *)
Lemma views_app {T} (a b : list (event T)) :
  granted (a ++ b) = granted a ++ granted b /\ given_back (a ++ b) = given_back a ++ given_back b /\
  runs (a ++ b) = runs a ++ runs b /\ absorbed (a ++ b) = absorbed a ++ absorbed b /\
  skipped (a ++ b) = skipped a ++ skipped b /\ failed (a ++ b) = failed a ++ failed b /\
  refused (a ++ b) = refused a ++ refused b /\ (quiet (a ++ b) <-> quiet a /\ quiet b) /\
  ended_early (a ++ b) = ended_early a || ended_early b.
Proof.
  unfold granted, given_back, runs, absorbed, skipped, failed, refused, raised, quiet, ended_early.
  rewrite !flat_map_app, !omap_app, existsb_app, Forall_app. done.
Qed.

(** ** One turn *)

Section turns.
Context {T : Type} (hk : hooks) (base : kwargs) (total : nat) (classify : failure -> bool * string).
Context (advances : forall e, (classify e).1 = true).    (** as the default does *)

Definition listed {A} (o : option A) : list A := match o with Some x => [x] | None => [] end.

(** What the body of the [try] adds to the trace, and what it ends in. *)
Record turn_ok (w : walk) (g : list nat) (d : list (event T)) (r : exn + T) (t : turn) : Prop := {
  ok_granted : granted d = g;
  ok_dropped : given_back d = [];
  ok_runs : runs d = if t_sent t then [(t_attempt t, t_locked t, r)] else [];
  ok_unsent : t_sent t = false -> t_locked t = false /\ exists e, r = inl e;
  ok_early : forall e, r = inl e -> keeps_admission e (t_locked t) = true -> ended_early d = true;
  ok_raised : quiet d -> raised d = match r with inl e => if moves_on e (t_locked t) then [(t_attempt t, e)] else [] | inr _ => [] end;
  ok_quiet_unsent : quiet d -> t_sent t = false ->
    (forall e, r <> inl (Upstream e)) /\ absorbed d = [] /\ skipped d = [] /\ t_unabsorbed t = unabsorbed w /\ t_skips t = unrecorded_skips w;
  ok_quiet_sent : quiet d -> t_sent t = true ->
    absorbed d = (if has_absorbed hk then listed (unabsorbed w) else []) /\
    skipped d = (if has_skipped hk then unrecorded_skips w else []) /\ t_unabsorbed t = None /\ t_skips t = []
}.

Lemma wp_record_skips (skips : list (Attempt * http)) (Q : exn + (exn + unit) -> list (event T) -> Prop) :
  (forall d, granted d = [] -> given_back d = [] -> runs d = [] -> raised d = [] -> absorbed d = [] ->
     skipped d = skips -> Q (inr (inr tt)) d) ->
  (forall d e, granted d = [] -> given_back d = [] -> runs d = [] -> ~ quiet d ->
     (keeps_admission e false = true -> ended_early d = true) -> Q (inr (inl e)) d) ->
  wp (record_skips skips) Q.
Proof.
  revert Q. induction skips as [|[a h] skips IH]; intros Q Hok Hbad; simpl; [by apply Hok|].
  intros [e|[]]; simpl.
  - apply (Hbad [Ev (Skipped a h) (inl e)]); [done|done|done| |].
    + intros H. by inversion H.
    + simpl. by intros ->.
  - apply IH.
    + intros d H1 H2 H3 H4 H5 H6. apply Hok; [exact H1|exact H2|exact H3|exact H4|exact H5|]. simpl. by rewrite <- H6.
    + intros d e H1 H2 H3 H4 H5. apply Hbad; [exact H1|exact H2|exact H3| |exact H5]. intros H. apply H4. by inversion H.
Qed.

(** An event a turn goes on after, and that tells nothing. *)
Record silent (ev : event T) : Prop := {
  silent_dropped : dropped1 ev = []; silent_run : run1 ev = []; silent_raised : raised1 ev = [];
  silent_absorbed : absorbed1 ev = []; silent_skipped : skipped1 ev = []
}.

Lemma turn_ok_after w g ev d r t : silent ev -> turn_ok w g d r t -> turn_ok w (granted1 ev ++ g) (ev :: d) r t.
Proof.
  intros [S1 S2 S3 S4 S5] [O1 O2 O3 O4 O5 O6 O7 O8].
  assert (Hq : quiet (ev :: d) -> quiet d) by (intros H; by inversion H).
  split.
  - change (granted1 ev ++ granted d = granted1 ev ++ g). by rewrite O1.
  - change (dropped1 ev ++ given_back d = []). by rewrite S1.
  - change (run1 ev ++ runs d = if t_sent t then [(t_attempt t, t_locked t, r)] else []). by rewrite S2.
  - done.
  - intros e H1 H2. change (ends1 ev || ended_early d = true). rewrite (O5 e H1 H2). apply orb_true_r.
  - intros H. change (raised1 ev ++ raised d = match r with inl e => if moves_on e (t_locked t) then [(t_attempt t, e)] else [] | inr _ => [] end).
    rewrite S3. by apply O6, Hq.
  - intros H Hs. destruct (O7 (Hq H) Hs) as (R1 & R2 & R3 & R4). split; [done|].
    split; [change (absorbed1 ev ++ absorbed d = []); by rewrite S4|].
    split; [change (skipped1 ev ++ skipped d = []); by rewrite S5|done].
  - intros H Hs. destruct (O8 (Hq H) Hs) as (R2 & R3 & R4).
    split; [change (absorbed1 ev ++ absorbed d = (if has_absorbed hk then listed (unabsorbed w) else [])); by rewrite S4|].
    split; [change (skipped1 ev ++ skipped d = (if has_skipped hk then unrecorded_skips w else [])); by rewrite S5|done].
Qed.

Definition turn_done (w : walk) (g : list nat) (drop : option nat) (out : exn + ((exn + T) * turn)) (d : list (event T)) : Prop :=
  exists r t, out = inr (r, t) /\ t_drop t = drop /\ turn_ok w g d r t.

(** A call before the candidate is sent the request. *)
Lemma wp_stage {R} has (c : call T (exn + R)) otherwise t (k : R -> wprog T ((exn + T) * turn)) (Q : exn + ((exn + T) * turn) -> list (event T) -> Prop) :
  (forall e, Q (inr (inl e, t)) [Ev c (inl e)]) ->
  (forall x, wp (k x) (fun out d => Q out (Ev c (inr x) :: d))) ->
  wp (k otherwise) Q ->
  wp (then_ (given has c otherwise) t k) Q.
Proof.
  intros He Hx Ho. unfold then_, given. destruct has; simpl; [|done]. intros [e|x]; simpl; [apply He|apply Hx].
Qed.

(** It raised. *)
Lemma stage_raised {R} (w : walk) (c : call T (exn + R)) (e : exn) a drop :
  granted1 (Ev c (inl e)) = [] -> dropped1 (Ev c (inl e)) = [] -> run1 (Ev c (inl e)) = [] ->
  (keeps_admission e false = true -> ends1 (Ev c (inl e)) = true) ->
  absorbed1 (Ev c (inl e)) = [] /\ skipped1 (Ev c (inl e)) = [] /\ raised1 (Ev c (inl e)) = [(a, e)] /\
    (quiet1 (Ev c (inl e)) -> forall x, e <> Upstream x) \/ ~ quiet1 (Ev c (inl e)) ->
  turn_ok w [] [Ev c (inl e)] (inl e) (mkTurn a false drop false (unabsorbed w) (unrecorded_skips w)).
Proof.
  intros H1 H2 H3 H4 H5.
  assert (Hq : quiet [Ev c (inl e)] -> quiet1 (Ev c (inl e))) by (intros H; by inversion H).
  split.
  - change (granted1 (Ev c (inl e)) ++ [] = []). by rewrite H1.
  - change (dropped1 (Ev c (inl e)) ++ [] = []). by rewrite H2.
  - change (run1 (Ev c (inl e)) ++ [] = []). by rewrite H3.
  - simpl. intros _. split; [done|by exists e].
  - intros x [= <-] Hk. change (ends1 (Ev c (inl e)) || false = true). by rewrite H4.
  - intros H%Hq. destruct H5 as [(_ & _ & Hr & _)|Hn]; [|done].
    change (raised1 (Ev c (inl e)) ++ [] = [(a, e)]). by rewrite Hr.
  - intros H%Hq _. destruct H5 as [(Ha & Hsk & _ & Hu)|Hn]; [|done]. split; [intros x [= ->]; by apply (Hu H x)|].
    split; [change (absorbed1 (Ev c (inl e)) ++ [] = []); by rewrite Ha|].
    split; [change (skipped1 (Ev c (inl e)) ++ [] = []); by rewrite Hsk|done].
  - done.
Qed.

(** From the admission on: the failure and the skips before it are recorded, and the provider is called. *)
Definition send (w : walk) (attempt : Attempt) (drop : option nat) (prepared : kwargs) : wprog T ((exn + T) * turn) :=
  let t := mkTurn attempt false drop false (unabsorbed w) (unrecorded_skips w) in
  then_ (match unabsorbed w with
         | Some (a, e) => given (has_absorbed hk) (Absorbed a e total) tt
         | None => WRet (inr tt)
         end) t (fun _ =>
  let t := mkTurn attempt false drop false None (unrecorded_skips w) in
  then_ (if has_skipped hk then record_skips (unrecorded_skips w) else WRet (inr tt)) t (fun _ =>
  let* ran := ask (Run attempt prepared) in
  WRet (ran.2, mkTurn attempt ran.1 drop true None []))).

Lemma ran_ok (w : walk) attempt prepared locked (r : exn + T) drop d a s :
  granted d = [] -> given_back d = [] -> runs d = [] -> raised d = [] ->
  (quiet d -> absorbed d = a /\ skipped d = s) ->
  (a = (if has_absorbed hk then listed (unabsorbed w) else [])) -> (s = (if has_skipped hk then unrecorded_skips w else [])) ->
  turn_ok w [] (d ++ [Ev (Run attempt prepared) (locked, r)]) r (mkTurn attempt locked drop true None []).
Proof.
  intros H1 H2 H3 H4 H5 -> ->.
  assert (Hq : quiet (d ++ [Ev (Run attempt prepared) (locked, r)]) -> quiet d) by (intros H; by apply Forall_app in H as [H _]).
  assert (Hf : forall {X} (f : event T -> list X), flat_map f (d ++ [Ev (Run attempt prepared) (locked, r)]) = flat_map f d ++ f (Ev (Run attempt prepared) (locked, r))).
  { intros X f. rewrite flat_map_app. simpl. by rewrite app_nil_r. }
  split; simpl.
  - unfold granted. by rewrite Hf, (H1 : flat_map granted1 d = []).
  - unfold given_back. by rewrite Hf, (H2 : flat_map dropped1 d = []).
  - unfold runs. by rewrite Hf, (H3 : flat_map run1 d = []).
  - done.
  - intros e -> Hk. unfold ended_early. rewrite existsb_app. simpl. by rewrite Hk, orb_true_r.
  - intros _. unfold raised. rewrite Hf, (H4 : flat_map raised1 d = []). simpl. destruct r as [e|]; [|done]. by destruct (moves_on e locked).
  - done.
  - intros H%Hq _. destruct (H5 H) as [Ha Hs]. unfold absorbed, skipped in *. rewrite !Hf, Ha, Hs. simpl. by rewrite !app_nil_r.
Qed.
(** Recording raised: the turn ends unsent. *)
Lemma unrecorded_ok w d (e : exn) t :
  granted d = [] -> given_back d = [] -> runs d = [] -> ~ quiet d -> (keeps_admission e false = true -> ended_early d = true) ->
  t_sent t = false -> t_locked t = false -> turn_ok w [] d (inl e) t.
Proof.
  intros H1 H2 H3 H4 H5 Hs Hl. split; try done.
  - by rewrite Hs.
  - intros _. split; [done|by exists e].
  - intros x [= <-]. by rewrite Hl.
Qed.

Lemma wp_send_skips w attempt drop prepared d0 :
  granted d0 = [] -> given_back d0 = [] -> runs d0 = [] -> raised d0 = [] ->
  absorbed d0 = (if has_absorbed hk then listed (unabsorbed w) else []) -> skipped d0 = [] ->
  wp (then_ (if has_skipped hk then record_skips (unrecorded_skips w) else WRet (inr tt))
        (mkTurn attempt false drop false None (unrecorded_skips w)) (fun _ =>
        let* ran := ask (Run attempt prepared) in
        WRet (ran.2, mkTurn attempt ran.1 drop true None [])))
     (fun out d => turn_done w [] drop out (d0 ++ d)).
Proof.
  intros H1 H2 H3 H4 H5 H6.
  assert (Hrun : forall d1, granted d1 = [] -> given_back d1 = [] -> runs d1 = [] -> raised d1 = [] -> absorbed d1 = [] ->
    skipped d1 = (if has_skipped hk then unrecorded_skips w else []) -> forall ran : bool * (exn + T),
    turn_done w [] drop (inr (ran.2, mkTurn attempt ran.1 drop true None [])) (d0 ++ d1 ++ [Ev (Run attempt prepared) ran])).
  { intros d1 G1 G2 G3 G4 G5 G6 [locked r]. exists r, (mkTurn attempt locked drop true None []). split; [done|]. split; [done|].
    rewrite app_assoc. eapply ran_ok; [| | | |intros _; split; reflexivity| |].
    - unfold granted in *. by rewrite flat_map_app, H1, G1.
    - unfold given_back in *. by rewrite flat_map_app, H2, G2.
    - unfold runs in *. by rewrite flat_map_app, H3, G3.
    - unfold raised in *. by rewrite flat_map_app, H4, G4.
    - unfold absorbed in *. by rewrite flat_map_app, H5, G5, app_nil_r.
    - unfold skipped in *. by rewrite flat_map_app, H6, G6. }
  unfold then_. apply walk_wp_bind. destruct (has_skipped hk) eqn:Ehs.
  - apply wp_record_skips.
    + intros d G1 G2 G3 G4 G5 G6. simpl. intros ran. by apply Hrun.
    + intros d e G1 G2 G3 G4 G5. simpl. eexists _, _. split; [reflexivity|]. split; [done|]. rewrite app_nil_r.
      apply unrecorded_ok; [| | | | |done|done].
      * unfold granted in *. by rewrite flat_map_app, H1, G1.
      * unfold given_back in *. by rewrite flat_map_app, H2, G2.
      * unfold runs in *. by rewrite flat_map_app, H3, G3.
      * intros H. apply G4. by apply Forall_app in H as [_ H].
      * intros Hk. unfold ended_early in *. rewrite existsb_app, G5 by done. apply orb_true_r.
  - simpl. intros ran. by apply (Hrun []).
Qed.

Lemma wp_send w attempt drop prepared : wp (send w attempt drop prepared) (turn_done w [] drop).
Proof.
  unfold send. destruct (unabsorbed w) as [[a e]|] eqn:Eu.
  - unfold given. destruct (has_absorbed hk) eqn:Ea; cbn [then_ wbind ask wp].
    + intros [x|[]].
      * simpl. eexists _, _. split; [reflexivity|]. split; [done|].
        apply unrecorded_ok; [done|done|done| | |done|done]; [intros H; by inversion H|]. simpl. by intros ->.
      * apply (wp_send_skips w attempt drop prepared [Ev (Absorbed a e total) (inr tt)]); simpl; try done. by rewrite Eu, Ea.
    + apply (wp_send_skips w attempt drop prepared []); simpl; try done. by rewrite Ea.
  - apply (wp_send_skips w attempt drop prepared []); simpl; try done. rewrite Eu. by destruct (has_absorbed hk).
Qed.

(** C-shaped turns end with what their admission granted. *)
Definition turn_complete (w : walk) (out : exn + ((exn + T) * turn)) (d : list (event T)) : Prop :=
  exists r t, out = inr (r, t) /\ turn_ok w (listed (t_drop t)) d r t.

Lemma turn_complete_after w ev out d :
  silent ev -> granted1 ev = [] -> turn_complete w out d -> turn_complete w out (ev :: d).
Proof.
  intros Hs Hg (r & t & -> & H). exists r, t. split; [done|]. pose proof (turn_ok_after w _ ev d r t Hs H) as H'. by rewrite Hg in H'.
Qed.

Lemma turn_complete_raised {R} (w : walk) (c : call T (exn + R)) (e : exn) a :
  turn_ok w [] [Ev c (inl e)] (inl e) (mkTurn a false None false (unabsorbed w) (unrecorded_skips w)) ->
  turn_complete w (inr (inl e, mkTurn a false None false (unabsorbed w) (unrecorded_skips w))) [Ev c (inl e)].
Proof. intros H. by eexists _, _. Qed.

Lemma wp_prepared w attempt drop built :
  wp (then_ (given (has_prepare hk) (Prepare attempt built) built)
        (mkTurn attempt false drop false (unabsorbed w) (unrecorded_skips w)) (send w attempt drop)) (turn_done w [] drop).
Proof.
  apply wp_stage.
  - intros e. eexists _, _. split; [reflexivity|]. split; [done|].
    apply stage_raised; try done. left. split; [done|]. split; [done|]. split; [done|]. simpl. by intros Hq x ->.
  - intros x. eapply walk_wp_mono; [apply wp_send|]. intros out d (r & t & -> & Hd & H). exists r, t. split; [done|]. split; [done|].
    by apply (turn_ok_after w [] (Ev (Prepare attempt built) (inr x))).
  - apply wp_send.
Qed.

Lemma stage_complete {R} (w : walk) (c : call T (exn + R)) (e : exn) a :
  granted1 (Ev c (inl e)) = [] -> dropped1 (Ev c (inl e)) = [] -> run1 (Ev c (inl e)) = [] ->
  (keeps_admission e false = true -> ends1 (Ev c (inl e)) = true) ->
  absorbed1 (Ev c (inl e)) = [] -> skipped1 (Ev c (inl e)) = [] -> raised1 (Ev c (inl e)) = [(a, e)] ->
  (quiet1 (Ev c (inl e)) -> forall x, e <> Upstream x) ->
  turn_complete w (inr (inl e, mkTurn a false None false (unabsorbed w) (unrecorded_skips w))) [Ev c (inl e)].
Proof. intros. apply turn_complete_raised, stage_raised; auto. Qed.

Lemma wp_admitted w attempt built :
  wp (then_ (given (has_admit hk) (Admit attempt) None) (mkTurn attempt false None false (unabsorbed w) (unrecorded_skips w)) (fun drop =>
      then_ (given (has_prepare hk) (Prepare attempt built) built)
        (mkTurn attempt false drop false (unabsorbed w) (unrecorded_skips w)) (send w attempt drop))) (turn_complete w).
Proof.
  apply wp_stage.
  - intros e. apply stage_complete; try done. simpl. by intros Hq x ->.
  - intros drop. eapply walk_wp_mono; [apply wp_prepared|]. intros out d (r & t & -> & Hd & H). exists r, t. split; [done|].
    rewrite Hd. apply (turn_ok_after w [] (Ev (Admit attempt) (inr drop))) in H; [|done]. rewrite app_nil_r in H. by destruct drop.
  - eapply walk_wp_mono; [apply wp_prepared|]. intros out d (r & t & -> & Hd & H). exists r, t. split; [done|]. by rewrite Hd.
Qed.

Lemma wp_built w attempt :
  wp (then_ (given (has_build hk) (Build attempt) (call_kwargs attempt base))
      (mkTurn attempt false None false (unabsorbed w) (unrecorded_skips w)) (fun built =>
      then_ (given (has_admit hk) (Admit attempt) None) (mkTurn attempt false None false (unabsorbed w) (unrecorded_skips w)) (fun drop =>
      then_ (given (has_prepare hk) (Prepare attempt built) built)
        (mkTurn attempt false drop false (unabsorbed w) (unrecorded_skips w)) (send w attempt drop)))) (turn_complete w).
Proof.
  apply wp_stage.
  - intros e. apply stage_complete; try done. simpl. by intros Hq x ->.
  - intros built. eapply walk_wp_mono; [apply wp_admitted|]. intros out d. by apply turn_complete_after.
  - apply wp_admitted.
Qed.

Lemma wp_try_attempt planned w : wp (try_attempt hk base total planned w) (turn_complete w).
Proof.
  unfold try_attempt. apply wp_stage.
  - intros e. apply stage_complete; try done. simpl. by intros Hq x ->.
  - intros attempt. eapply walk_wp_mono; [apply wp_built|]. intros out d. by apply turn_complete_after.
  - apply wp_built.
Qed.

(** ** The loop *)

(** A provider call that a walk goes on from: it raised a refusal, or failed before its candidate was locked in. *)
Definition recovered (run : Attempt * bool * (exn + T)) : Prop :=
  (exists h, run.2 = inl (CandidateCannotServe h)) \/ run.1.2 = false /\ exists e, run.2 = inl (Upstream e).

(** What holds of the walk and of all that happened so far. *)
Record walk_ok (n : nat) (w : walk) (d : list (event T)) : Prop := {
  walk_admissions : granted d = given_back d;
  walk_recovered : Forall recovered (runs d);
  walk_count : (length (runs d) <= n)%nat;
  walk_recorded : quiet d -> has_absorbed hk = true -> absorbed d ++ listed (unabsorbed w) = failed d;
  walk_skips : quiet d -> has_skipped hk = true -> skipped d ++ unrecorded_skips w = refused d;
  walk_refusals : quiet d -> refusals w = refused d;
  walk_failures : quiet d -> map (fun f => (failed_on f, error f)) (failures w) = failed d
}.

(** How a loop ends. *)
Record ended_ok (n : nat) (served : option (Attempt * T)) (d : list (event T)) : Prop := {
  ended_once : omap (fun run => match run.2 with inr x => Some (run.1.1, x) | inl _ => None end) (runs d) = listed served;
  ended_last : forall pre run, runs d = pre ++ [run] -> Forall recovered pre;
  ended_count : (length (runs d) <= n)%nat;
  ended_admissions : exists kept, granted d = given_back d ++ kept /\ (length kept <= 1)%nat /\
    (kept <> [] -> is_Some served \/ ended_early d = true);
  ended_recorded : quiet d -> has_absorbed hk = true -> exists rest, absorbed d ++ rest = failed d /\ (length rest <= 1)%nat /\ (is_Some served -> rest = []);
  ended_skips : quiet d -> has_skipped hk = true -> exists rest, skipped d ++ rest = refused d /\ (is_Some served -> rest = [])
}.
(** The events of an [except] clause. *)
Record handler (g : list nat) (d : list (event T)) : Prop := {
  handler_granted : granted d = []; handler_back : given_back d = g; handler_runs : runs d = [];
  handler_raised : raised d = []; handler_absorbed : absorbed d = []; handler_skipped : skipped d = []
}.

Lemma handler_app g g' d d' : handler g d -> handler g' d' -> handler (g ++ g') (d ++ d').
Proof.
  intros [H1 H2 H3 H4 H5 H6] [G1 G2 G3 G4 G5 G6]. destruct (views_app d d') as (E1 & E2 & E3 & E4 & E5 & _).
  split; [by rewrite E1, H1, G1|by rewrite E2, H2, G2|by rewrite E3, H3, G3| |by rewrite E4, H5, G5|by rewrite E5, H6, G6].
  unfold raised in *. by rewrite flat_map_app, H4, G4.
Qed.

Lemma wp_drop_admission (o : option nat) sent : wp (T := T) (drop_admission o sent) (fun _ d => handler (listed o) d).
Proof. destruct o as [h|]; simpl; [|done]. by intros [e|[]]; simpl. Qed.

Lemma wp_on_terminal a : wp (T := T) (on_terminal hk a) (fun _ d => handler [] d).
Proof. unfold on_terminal. destruct (has_terminal hk); simpl; [|done]. by intros [e|[]]; simpl. Qed.

Definition served_by (r : exn + T) (t : turn) (served : option (Attempt * T)) : Prop :=
  match served with Some s => r = inr s.2 /\ s.1 = t_attempt t | None => exists e, r = inl e end.

Lemma turn_raised_views w g dt r t :
  turn_ok w g dt r t -> quiet dt ->
  failed dt = match r with inl (Upstream e) => if t_locked t then [] else [(t_attempt t, e)] | _ => [] end /\
  refused dt = match r with inl (CandidateCannotServe h) => [(t_attempt t, h)] | _ => [] end.
Proof.
  intros Hok Hq. unfold failed, refused. rewrite (ok_raised _ _ _ _ _ Hok Hq).
  destruct r as [e|x]; [|done]. unfold moves_on. destruct (t_locked t), e; done.
Qed.

Lemma runs_of_turn w g dt r t : turn_ok w g dt r t ->
  (length (runs dt) <= 1)%nat /\ forall run, run ∈ runs dt -> run = (t_attempt t, t_locked t, r).
Proof.
  intros Hok. rewrite (ok_runs _ _ _ _ _ Hok). destruct (t_sent t); simpl; split; try lia.
  - by intros run ->%list_elem_of_singleton.
  - by intros run ?%elem_of_nil.
Qed.
(** The trace of a walk, its turn and its handler. *)
Lemma views_turn (d dt dh : list (event T)) g : handler g dh ->
  granted (d ++ dt ++ dh) = granted d ++ granted dt /\ given_back (d ++ dt ++ dh) = given_back d ++ given_back dt ++ g /\
  runs (d ++ dt ++ dh) = runs d ++ runs dt /\ absorbed (d ++ dt ++ dh) = absorbed d ++ absorbed dt /\
  skipped (d ++ dt ++ dh) = skipped d ++ skipped dt /\ failed (d ++ dt ++ dh) = failed d ++ failed dt /\
  refused (d ++ dt ++ dh) = refused d ++ refused dt /\ (quiet (d ++ dt ++ dh) -> quiet d /\ quiet dt) /\
  (ended_early dt = true -> ended_early (d ++ dt ++ dh) = true).
Proof.
  intros [H1 H2 H3 H4 H5 H6]. destruct (views_app d (dt ++ dh)) as (-> & -> & -> & -> & -> & -> & -> & Hq & ->).
  destruct (views_app dt dh) as (-> & -> & -> & -> & -> & -> & -> & Hq' & ->).
  rewrite H1, H2, H3, H5, H6, !app_nil_r. unfold failed at 3, refused at 3. rewrite H4. simpl. rewrite !app_nil_r.
  repeat (split; [done|]). split; [naive_solver|]. intros ->. rewrite orb_true_l, orb_true_r. done.
Qed.

Lemma recorded_after w dt g r t : turn_ok w g dt r t ->
  quiet dt -> has_absorbed hk = true -> absorbed dt ++ listed (t_unabsorbed t) = listed (unabsorbed w).
Proof.
  intros Hok Hq Hh. destruct (t_sent t) eqn:Es.
  - destruct (ok_quiet_sent _ _ _ _ _ Hok Hq Es) as (-> & _ & -> & _). by rewrite Hh, app_nil_r.
  - destruct (ok_quiet_unsent _ _ _ _ _ Hok Hq Es) as (_ & -> & _ & -> & _). done.
Qed.

Lemma skips_after w dt g r t : turn_ok w g dt r t ->
  quiet dt -> has_skipped hk = true -> skipped dt ++ t_skips t = unrecorded_skips w.
Proof.
  intros Hok Hq Hh. destruct (t_sent t) eqn:Es.
  - destruct (ok_quiet_sent _ _ _ _ _ Hok Hq Es) as (_ & -> & _ & ->). by rewrite Hh, app_nil_r.
  - destruct (ok_quiet_unsent _ _ _ _ _ Hok Hq Es) as (_ & _ & -> & _ & ->). done.
Qed.

Lemma recovered_serve_nothing (l : list (Attempt * bool * (exn + T))) : Forall recovered l ->
  omap (fun run => match run.2 with inr x => Some (run.1.1, x) | inl _ => None end) l = [].
Proof. induction 1 as [|run l [[h He]|[_ [e He]]] _ IH]; [done|cbn [omap list_omap]; by rewrite He..]. Qed.

(** The walk goes on after a candidate that failed or could not serve. *)
Lemma walk_goes_on n w d dt dh r t w' :
  walk_ok n w d -> turn_ok w (listed (t_drop t)) dt r t -> handler (listed (t_drop t)) dh ->
  (t_locked t = true -> exists h, r = inl (CandidateCannotServe h)) ->
  (exists e, r = inl (Upstream e) /\ unabsorbed w' = Some (t_attempt t, e) /\ unrecorded_skips w' = t_skips t /\
     refusals w' = refusals w /\ map (fun f => (failed_on f, error f)) (failures w') = map (fun f => (failed_on f, error f)) (failures w) ++ [(t_attempt t, e)]) \/
  (exists h, r = inl (CandidateCannotServe h) /\ unabsorbed w' = t_unabsorbed t /\ unrecorded_skips w' = t_skips t ++ [(t_attempt t, h)] /\
     refusals w' = refusals w ++ [(t_attempt t, h)] /\ failures w' = failures w) ->
  walk_ok (S n) w' (d ++ dt ++ dh).
Proof.
  intros [W1 W2 W4 W5 W6 W7 W8] Hok Hh Hl Hr. destruct (views_turn d dt dh _ Hh) as (V1 & V2 & V3 & V4 & V5 & V6 & V7 & V8 & _).
  assert (Hup : forall e, r = inl (Upstream e) -> t_locked t = false).
  { intros e He. destruct (t_locked t); [|done]. destruct (Hl eq_refl) as [h Hh']. congruence. }
  destruct (runs_of_turn _ _ _ _ _ Hok) as [Hc Hrun].
  split; rewrite ?V1, ?V2, ?V3, ?V4, ?V5, ?V6, ?V7.
  - by rewrite W1, (ok_granted _ _ _ _ _ Hok), (ok_dropped _ _ _ _ _ Hok).
  - apply Forall_app. split; [done|]. apply Forall_forall. intros run ->%Hrun.
    destruct Hr as [(e & Er & _)|(h & -> & _)]; [right; split; [by apply (Hup e)|by exists e]|left; by exists h].
  - rewrite length_app. lia.
  - intros [Hq Hq']%V8 Ha. destruct (turn_raised_views _ _ _ _ _ Hok Hq') as [Hf _].
    pose proof (recorded_after w dt _ r t Hok Hq' Ha) as Hrec. rewrite <- (W5 Hq Ha).
    destruct Hr as [(e & Er & -> & _)|(h & -> & -> & _)]; [rewrite Er, (Hup e Er) in Hf|]; rewrite Hf, <- Hrec, <- !app_assoc; [|by rewrite app_nil_r].
    subst r.
    destruct (t_sent t) eqn:Es.
    + destruct (ok_quiet_sent _ _ _ _ _ Hok Hq' Es) as (_ & _ & -> & _). done.
    + destruct (ok_quiet_unsent _ _ _ _ _ Hok Hq' Es) as (Hn & _). by destruct (Hn e).
  - intros [Hq Hq']%V8 Ha. destruct (turn_raised_views _ _ _ _ _ Hok Hq') as [_ Hf].
    rewrite <- (W6 Hq Ha), <- (skips_after w dt _ r t Hok Hq' Ha), Hf.
    destruct Hr as [(e & -> & _ & -> & _)|(h & -> & _ & -> & _)]; rewrite <- !app_assoc; [by rewrite app_nil_r|done].
  - intros [Hq Hq']%V8. destruct (turn_raised_views _ _ _ _ _ Hok Hq') as [_ Hf]. rewrite <- (W7 Hq), Hf.
    destruct Hr as [(e & -> & _ & _ & -> & _)|(h & -> & _ & _ & -> & _)]; [by rewrite app_nil_r|done].
  - intros [Hq Hq']%V8. destruct (turn_raised_views _ _ _ _ _ Hok Hq') as [Hf _]. rewrite <- (W8 Hq), Hf.
    destruct Hr as [(e & Er & _ & _ & _ & ->)|(h & -> & _ & _ & _ & ->)]; [by rewrite Er, (Hup e Er)|by rewrite app_nil_r].
Qed.

(** The walk ends with the turn. *)
Lemma walk_ends n w d dt dh g r t served :
  walk_ok n w d -> turn_ok w (listed (t_drop t)) dt r t -> handler g dh -> served_by r t served ->
  g = listed (t_drop t) \/ (g = [] /\ (is_Some served \/ ended_early dt = true)) ->
  ended_ok (S n) served (d ++ dt ++ dh).
Proof.
  intros [W1 W2 W4 W5 W6 W7 W8] Hok Hh Hs Hg. destruct (views_turn d dt dh _ Hh) as (V1 & V2 & V3 & V4 & V5 & V6 & V7 & V8 & V9).
  destruct (runs_of_turn _ _ _ _ _ Hok) as [Hc Hrun].
  assert (Hnone : omap (fun run : Attempt * bool * (exn + T) => match run.2 with inr x => Some (run.1.1, x) | inl _ => None end) (runs d) = []).
  { by apply recovered_serve_nothing. }
  split; rewrite ?V1, ?V2, ?V3, ?V4, ?V5, ?V6, ?V7.
  - rewrite omap_app, Hnone, (ok_runs _ _ _ _ _ Hok). destruct (t_sent t) eqn:Es.
    + destruct served as [[a x]|]; simpl in Hs; [destruct Hs as [-> ->]; done|destruct Hs as [e ->]; done].
    + destruct (ok_unsent _ _ _ _ _ Hok Es) as [_ [e He]]. destruct served as [[a x]|]; [|done]. destruct Hs as [Hs _]. congruence.
  - intros pre run Hpre.
    rewrite (ok_runs _ _ _ _ _ Hok) in Hpre. destruct (t_sent t).
    + apply app_inj_tail in Hpre as [<- _]. done.
    + rewrite app_nil_r in Hpre. rewrite Hpre in W2. by apply Forall_app in W2 as [W2 _].
  - rewrite length_app. lia.
  - rewrite W1, (ok_granted _ _ _ _ _ Hok), (ok_dropped _ _ _ _ _ Hok). simpl. destruct Hg as [->|[-> Hg]].
    + exists []. rewrite app_nil_r. simpl. split; [done|]. split; [lia|done].
    + exists (listed (t_drop t)). rewrite app_nil_r. split; [done|]. split; [destruct (t_drop t); simpl; lia|].
      intros _. destruct Hg as [Hg|Hg]; [by left|right; by apply V9].
  - intros [Hq Hq']%V8 Ha. destruct (turn_raised_views _ _ _ _ _ Hok Hq') as [Hf _].
    pose proof (recorded_after w dt _ r t Hok Hq' Ha) as Hrec. rewrite <- (W5 Hq Ha), <- Hrec, Hf.
    destruct (t_sent t) eqn:Es.
    + destruct (ok_quiet_sent _ _ _ _ _ Hok Hq' Es) as (_ & _ & Hu & _). rewrite Hu. simpl. rewrite app_nil_r.
      eexists. split; [by rewrite <- !app_assoc|]. split; [destruct r as [[]|]; simpl; try lia; destruct (t_locked t); simpl; lia|].
      intros [s ->]. destruct Hs as [-> _]. done.
    + destruct (ok_unsent _ _ _ _ _ Hok Es) as [_ [e He]]. destruct (ok_quiet_unsent _ _ _ _ _ Hok Hq' Es) as (Hn & _).
      exists (listed (t_unabsorbed t)). rewrite <- !app_assoc. split.
      * do 2 f_equal. rewrite He in *. destruct e; rewrite ?app_nil_r; try done. by destruct (Hn e).
      * split; [destruct (t_unabsorbed t); simpl; lia|]. intros [s ->]. destruct Hs as [Hs _]. congruence.
  - intros [Hq Hq']%V8 Ha. destruct (turn_raised_views _ _ _ _ _ Hok Hq') as [_ Hf].
    rewrite <- (W6 Hq Ha), <- (skips_after w dt _ r t Hok Hq' Ha), Hf. eexists. split; [by rewrite <- !app_assoc|].
    intros [s ->]. destruct Hs as [-> _]. rewrite app_nil_r. destruct (t_sent t) eqn:Es.
    + by destruct (ok_quiet_sent _ _ _ _ _ Hok Hq' Es) as (_ & _ & _ & ->).
    + destruct (ok_unsent _ _ _ _ _ Hok Es) as [_ [e He]]. discriminate.
Qed.
Lemma ended_more n m served d : (n <= m)%nat -> ended_ok n served d -> ended_ok m served d.
Proof. intros Hn [E1 E2 E3 E4 E5 E6]. split; try done. lia. Qed.

Definition looped (n : nat) (d : list (event T)) (out : exn + (walk + Attempt * T)) (d' : list (event T)) : Prop :=
  match out with
  | inr (inl w) => walk_ok n w (d ++ d')
  | inr (inr s) => ended_ok n (Some s) (d ++ d')
  | inl _ => ended_ok n None (d ++ d')
  end.

Lemma wp_after_attempt n w d dt r t :
  walk_ok n w d -> turn_ok w (listed (t_drop t)) dt r t ->
  wp (after_attempt hk classify w r t) (fun out dh => looped (S n) d out (dt ++ dh)).
Proof.
  intros Hw Hok.
  assert (Hend : forall g dh, handler g dh -> (exists e, r = inl e) -> g = listed (t_drop t) \/ g = [] /\ ended_early dt = true ->
    ended_ok (S n) None (d ++ dt ++ dh)).
  { intros g dh Hh Hs Hg. apply (walk_ends n w d dt dh g r t None); try done. destruct Hg as [|[]]; [by left|right; split; [done|by right]]. }
  assert (Hearly : forall e, r = inl e -> keeps_admission e (t_locked t) = true -> ended_early dt = true)
    by apply (ok_early _ _ _ _ _ Hok).
  assert (Hnil : handler [] []) by done.
  unfold after_attempt. destruct r as [[h|h|m| | |e]|x].
  - apply walk_wp_bind. eapply walk_wp_mono; [apply wp_drop_admission|]. intros [x|[]] dh Hh; simpl; [by apply (Hend _ dh Hh); [eexists|left]|].
    rewrite app_nil_r. eapply (walk_goes_on n w d dt dh); [done|done|done|by eexists|]. right. by exists h.
  - apply walk_wp_bind. destruct (t_locked t) eqn:El.
    + simpl. apply walk_wp_bind. eapply walk_wp_mono; [apply wp_on_terminal|]. intros [x|[]] dh Hh; simpl; rewrite ?app_nil_r;
        (apply (Hend [] dh Hh); [by eexists|right; split; [done|by apply (Hearly _ eq_refl)]]).
    + eapply walk_wp_mono; [apply wp_drop_admission|]. intros [x|[]] dh Hh; simpl; [by apply (Hend _ dh Hh); [eexists|left]|].
      apply walk_wp_bind. eapply walk_wp_mono; [apply wp_on_terminal|]. intros [x|[]] dh' Hh'; simpl; rewrite ?app_nil_r;
        (apply (Hend (listed (t_drop t)) (dh ++ dh')); [|by eexists|by left]); rewrite <- (app_nil_r (listed _)); by apply handler_app.
  - apply walk_wp_bind. eapply walk_wp_mono; [apply wp_on_terminal|]. intros [x|[]] dh Hh; simpl; rewrite ?app_nil_r;
      (apply (Hend [] dh Hh); [by eexists|right; split; [done|by apply (Hearly _ eq_refl)]]).
  - simpl. apply (Hend [] [] Hnil); [by eexists|right; split; [done|by apply (Hearly _ eq_refl)]].
  - simpl. apply (Hend [] [] Hnil); [by eexists|right; split; [done|by apply (Hearly _ eq_refl)]].
  - pose proof (advances e) as Hadv. destruct (classify e) as [retryable class]. simpl in Hadv. subst. destruct (t_locked t) eqn:El; simpl.
    + apply walk_wp_bind. eapply walk_wp_mono; [apply wp_on_terminal|]. intros [x|[]] dh Hh; simpl; rewrite ?app_nil_r;
        (apply (Hend [] dh Hh); [by eexists|right; split; [done|by apply (Hearly _ eq_refl)]]).
    + apply walk_wp_bind. eapply walk_wp_mono; [apply wp_drop_admission|]. intros [x|[]] dh Hh; simpl; [by apply (Hend _ dh Hh); [eexists|left]|].
      rewrite app_nil_r. eapply (walk_goes_on n w d dt dh); [done|done|done|by rewrite El|]. left. exists e.
      repeat (split; [done|]). simpl. by rewrite map_app.
  - simpl. apply (walk_ends n w d dt [] [] (inr x) t (Some (t_attempt t, x))); try done. right. split; [done|]. left. by eexists.
Qed.
Lemma wp_walk_each attempts n w d :
  walk_ok n w d -> wp (walk_each hk base total classify attempts w) (looped (n + length attempts) d).
Proof.
  revert n w d. induction attempts as [|planned attempts IH]; intros n w d Hw; cbn [walk_each].
  { simpl. rewrite app_nil_r, Nat.add_0_r. done. }
  apply walk_wp_bind. eapply walk_wp_mono; [apply wp_try_attempt|]. intros out dt (r & t & -> & Hok). cbn [fst snd].
  apply walk_wp_bind. eapply walk_wp_mono; [by apply (wp_after_attempt n w d dt r t)|]. intros [e|[w'|s]] dh Hl; cbn [looped] in Hl.
  - simpl. eapply ended_more; [|exact Hl]. lia.
  - cbn beta. eapply walk_wp_mono; [apply (IH (S n) w' (d ++ dt ++ dh) Hl)|]. intros out d' Ho. simpl length.
    replace (n + S (length attempts))%nat with (S n + length attempts)%nat by lia.
    unfold looped in *. rewrite <- !app_assoc in Ho. destruct out as [e|[w2|s]]; exact Ho.
  - simpl. rewrite app_nil_r. eapply ended_more; [|exact Hl]. lia.
Qed.

(** After the last candidate. *)
Lemma walk_exhausted n w d dt :
  walk_ok n w d -> granted dt = [] -> given_back dt = [] -> runs dt = [] ->
  (quiet dt -> raised dt = [] /\ absorbed dt = [] /\ exists rest, skipped dt ++ rest = unrecorded_skips w) ->
  ended_ok n None (d ++ dt).
Proof.
  intros [W1 W2 W4 W5 W6 W7 W8] H1 H2 H3 H4. destruct (views_app d dt) as (V1 & V2 & V3 & V4 & V5 & V6 & V7 & V8 & _).
  split; rewrite ?V1, ?V2, ?V3, ?V4, ?V5, ?V6, ?V7, ?H1, ?H2, ?H3, ?app_nil_r.
  - by apply recovered_serve_nothing.
  - intros pre run Hpre. rewrite Hpre in W2. by apply Forall_app in W2 as [W2 _].
  - done.
  - exists []. rewrite app_nil_r. split; [done|]. simpl. split; [lia|done].
  - intros [Hq Hq']%V8 Ha. destruct (H4 Hq') as (Hr & -> & _). exists (listed (unabsorbed w)). unfold failed at 2. rewrite Hr. simpl.
    rewrite !app_nil_r. split; [by apply W5|]. split; [destruct (unabsorbed w); simpl; lia|by intros []].
  - intros [Hq Hq']%V8 Ha. destruct (H4 Hq') as (Hr & _ & rest & Hrest). exists rest. unfold refused at 2. rewrite Hr. simpl.
    rewrite app_nil_r, <- app_assoc, Hrest. split; [by apply W6|by intros []].
Qed.

Lemma wp_all_failed n w d last :
  walk_ok n w d -> wp (all_failed (T := T) hk last w) (fun out d' => (exists e, out = inl e) /\ ended_ok n None (d ++ d')).
Proof.
  intros Hw.
  assert (Hterm : forall a h d1, granted d1 = [] -> given_back d1 = [] -> runs d1 = [] ->
    (quiet d1 -> raised d1 = [] /\ absorbed d1 = [] /\ exists rest, skipped d1 ++ rest = unrecorded_skips w) ->
    wp (let* _ := on_terminal hk a in WRaise (HTTPException h))
       (fun (out : exn + (Attempt * T)) d2 => (exists e, out = inl e) /\ ended_ok n None (d ++ d1 ++ d2))).
  { intros a h d1 H1 H2 H3 H4. apply walk_wp_bind. eapply walk_wp_mono; [apply wp_on_terminal|]. intros out d2 [G1 G2 G3 G4 G5 G6].
    assert (Hok : ended_ok n None (d ++ d1 ++ d2)).
    { apply (walk_exhausted n w); [done| | | |]; destruct (views_app d1 d2) as (V1 & V2 & V3 & V4 & V5 & _ & _ & V8 & _).
      - by rewrite V1, H1, G1.
      - by rewrite V2, H2, G2.
      - by rewrite V3, H3, G3.
      - intros [Hq _]%V8. destruct (H4 Hq) as (R1 & R2 & rest & R3). split; [unfold raised in *; by rewrite flat_map_app, R1, G4|].
        split; [by rewrite V4, R2, G5|]. exists rest. by rewrite V5, G6, app_nil_r. }
    destruct out as [e|[]]; simpl; rewrite ?app_nil_r; split; try done; by eexists. }
  assert (Hrest : forall a h, wp (let* recorded := if has_skipped hk then record_skips (unrecorded_skips w) else WRet (inr tt) in
      match recorded with inl e => WRaise e | inr _ => let* _ := on_terminal hk a in WRaise (HTTPException h) end)
      (fun (out : exn + (Attempt * T)) d2 => (exists e, out = inl e) /\ ended_ok n None (d ++ d2))).
  { intros a h. apply walk_wp_bind. destruct (has_skipped hk).
    - apply wp_record_skips.
      + intros d1 H1 H2 H3 H4 H5 H6. apply Hterm; [done|done|done|]. intros _. split; [done|]. split; [done|].
        exists []. by rewrite app_nil_r.
      + intros d1 e H1 H2 H3 H4 _. simpl. split; [by eexists|]. rewrite app_nil_r. by apply (walk_exhausted n w).
    - simpl. apply (Hterm a h []); [done|done|done|]. intros _. split; [done|]. split; [done|]. by exists (unrecorded_skips w). }
  unfold all_failed. destruct (failures w); [|apply Hrest]. destruct (refusals w) as [|x xs]; [apply Hrest|].
  destruct (soonest x xs) as [a h]. apply (Hterm a h []); [done|done|done|]. intros _. split; [done|]. split; [done|].
  by exists (unrecorded_skips w).
Qed.
End turns.

(** ** The turns in their order *)

Section order.
Context {T : Type} (hk : hooks) (base : kwargs) (total : nat) (classify : failure -> bool * string).
Context (advances : forall e, (classify e).1 = true).
Implicit Types (d : list (event T)).

(** What ends a walk: anything but a refusal, or a provider's failure before lock-in. *)
Definition stopping (e : exn) (locked : bool) : bool :=
  match e with CandidateCannotServe _ => false | Upstream _ => locked | _ => true end.
Definition stops1 (ev : event T) : bool :=
  match ev with Ev c r => match c in call _ R return R -> bool with
                          | Credential _ => fun r => match r with inl e => stopping e false | _ => false end
                          | Build _ => fun r => match r with inl e => stopping e false | _ => false end
                          | Admit _ => fun r => match r with inl e => stopping e false | _ => false end
                          | Prepare _ _ => fun r => match r with inl e => stopping e false | _ => false end
                          | Absorbed _ _ _ => fun r => match r with inl e => stopping e false | _ => false end
                          | Skipped _ _ => fun r => match r with inl e => stopping e false | _ => false end
                          | Run _ _ => fun r => match r with (l, inl e) => stopping e l | _ => false end
                          | DropAdmission _ _ => fun r => match r with inl _ => true | _ => false end
                          | Terminal _ => fun r => match r with inl _ => true | _ => false end
                          end r end.
Definition stopped d : bool := existsb stops1 d.

(** The candidate that is sent the request in the turn of a planned one: what the credential hook made of it, or itself. *)
Definition sent_as (planned sent : Attempt) d : Prop :=
  if has_credential hk then exists d', d = Ev (Credential planned) (inr sent) :: d' else sent = planned.

(** A turn calls the provider for the candidate of that turn, once, or not at all. *)
Definition turn_of (planned : Attempt) d : Prop :=
  runs d = [] \/ exists sent l r, runs d = [(sent, l, r)] /\ sent_as planned sent d.

(** *** The body of a turn *)

Definition raised_stops (r : exn + T) (t : turn) d : Prop :=
  stopped d = match r with inl e => stopping e (t_locked t) | inr _ => false end.
Definition turn_on (attempt : Attempt) (out : exn + ((exn + T) * turn)) d : Prop :=
  exists r t, out = inr (r, t) /\ t_attempt t = attempt /\ raised_stops r t d.
Definition turn_starts (planned : Attempt) (out : exn + ((exn + T) * turn)) d : Prop :=
  exists r t, out = inr (r, t) /\ (t_sent t = true -> sent_as planned (t_attempt t) d) /\ raised_stops r t d.

Lemma turn_on_after ev attempt out d : stops1 ev = false -> turn_on attempt out d -> turn_on attempt out (ev :: d).
Proof. intros He (r & t & -> & Ha & Hs). exists r, t. split_and!; [done..|]. unfold raised_stops, stopped in *. cbn [existsb]. by rewrite He, Hs. Qed.

Lemma stage_on {R} (c : call T (exn + R)) e t :
  stops1 (Ev c (inl e)) = stopping e (t_locked t) -> turn_on (t_attempt t) (inr (inl e, t)) [Ev c (inl e)].
Proof. intros He. exists (inl e), t. split_and!; [done..|]. unfold raised_stops, stopped. cbn [existsb]. by rewrite He, orb_false_r. Qed.

Lemma wp_skips_on (skips : list (Attempt * http)) :
  wp (record_skips skips) (fun (out : exn + (exn + unit)) d =>
    exists r, out = inr r /\ stopped d = match r with inl e => stopping e false | inr _ => false end).
Proof.
  induction skips as [|[a h] skips IH]; cbn [record_skips wp]; [by exists (inr tt)|].
  intros [e|[]]; cbn [wbind ask wp].
  - exists (inl e). split; [done|]. unfold stopped. cbn [existsb stops1]. apply orb_false_r.
  - eapply walk_wp_mono; [apply IH|]. intros out d (r & -> & Hs). exists r. split; [done|]. exact Hs.
Qed.

Lemma wp_send_on w attempt drop prepared : wp (send hk total w attempt drop prepared) (turn_on attempt).
Proof.
  assert (forall t, t_attempt t = attempt -> t_locked t = false -> wp (then_ (if has_skipped hk then record_skips (unrecorded_skips w) else WRet (inr tt)) t
            (fun _ => let* ran := ask (Run attempt prepared) in WRet (ran.2, mkTurn attempt ran.1 drop true None []))) (turn_on attempt)) as Hrest.
  { intros t Ha Hl.
    assert (forall ran : bool * (exn + T), raised_stops ran.2 (mkTurn attempt ran.1 drop true None []) [Ev (Run attempt prepared) ran]) as Hran.
    { intros [l [e|x]]; unfold raised_stops, stopped; cbn; [apply orb_false_r|done]. }
    unfold then_. apply walk_wp_bind. destruct (has_skipped hk).
    - eapply walk_wp_mono; [apply wp_skips_on|]. intros out d ([e|[]] & -> & Hs).
      + cbn [wp]. rewrite app_nil_r. exists (inl e), t. split_and!; [done..|]. unfold raised_stops. by rewrite Hl.
      + cbn [ask wbind wp]. intros ran. eexists _, _. split_and!; [done|done|]. unfold raised_stops, stopped in *. rewrite existsb_app, Hs. apply Hran.
    - cbn [ask wbind wp]. intros ran. eexists _, _. split_and!; [done|done|]. apply Hran. }
  unfold send. destruct (unabsorbed w) as [[a e]|]; [apply wp_stage|].
  - intros x. by apply (stage_on (Absorbed a e total) x (mkTurn attempt false drop false (Some (a, e)) (unrecorded_skips w))).
  - intros []. eapply walk_wp_mono; [by apply Hrest|]. intros out d. by apply turn_on_after.
  - by apply Hrest.
  - by apply Hrest.
Qed.

Lemma wp_turn_starts planned w : wp (try_attempt hk base total planned w) (turn_starts planned).
Proof.
  assert (forall attempt, wp (
      then_ (given (has_build hk) (Build attempt) (call_kwargs attempt base)) (mkTurn attempt false None false (unabsorbed w) (unrecorded_skips w)) (fun built =>
      then_ (given (has_admit hk) (Admit attempt) None) (mkTurn attempt false None false (unabsorbed w) (unrecorded_skips w)) (fun drop =>
      then_ (given (has_prepare hk) (Prepare attempt built) built)
        (mkTurn attempt false drop false (unabsorbed w) (unrecorded_skips w)) (send hk total w attempt drop)))) (turn_on attempt)) as Hrest.
  { intros attempt.
    assert (forall built drop, wp (then_ (given (has_prepare hk) (Prepare attempt built) built)
        (mkTurn attempt false drop false (unabsorbed w) (unrecorded_skips w)) (send hk total w attempt drop)) (turn_on attempt)) as Hprep.
    { intros built drop. apply wp_stage; [intros e; by apply (stage_on (Prepare attempt built) e (mkTurn attempt false drop false _ _))| |apply wp_send_on].
      intros x. eapply walk_wp_mono; [apply wp_send_on|]. intros out d. by apply turn_on_after. }
    assert (forall built, wp (then_ (given (has_admit hk) (Admit attempt) None) (mkTurn attempt false None false (unabsorbed w) (unrecorded_skips w)) (fun drop =>
        then_ (given (has_prepare hk) (Prepare attempt built) built)
        (mkTurn attempt false drop false (unabsorbed w) (unrecorded_skips w)) (send hk total w attempt drop))) (turn_on attempt)) as Hadm.
    { intros built. apply wp_stage; [intros e; by apply (stage_on (Admit attempt) e (mkTurn attempt false None false _ _))| |apply Hprep].
      intros drop. eapply walk_wp_mono; [apply Hprep|]. intros out d. by apply turn_on_after. }
    apply wp_stage; [intros e; by apply (stage_on (Build attempt) e (mkTurn attempt false None false _ _))| |apply Hadm].
    intros built. eapply walk_wp_mono; [apply Hadm|]. intros out d. by apply turn_on_after. }
  assert (forall attempt out d, sent_as planned attempt d -> turn_on attempt out d -> turn_starts planned out d) as Hstart
    by (intros attempt out d Hs (r & t & -> & <- & H); by exists r, t).
  unfold try_attempt, then_, given, sent_as in *. apply walk_wp_bind. destruct (has_credential hk); cbn [ask wp].
  - intros [e|attempt]; cbn [wp].
    + exists (inl e), (mkTurn planned false None false (unabsorbed w) (unrecorded_skips w)). split_and!; [done..|].
      unfold raised_stops, stopped. cbn. apply orb_false_r.
    + eapply walk_wp_mono; [apply Hrest|]. intros out d Hd. apply (Hstart attempt); [by exists d|]. by apply turn_on_after.
  - eapply walk_wp_mono; [apply Hrest|]. intros out d Hd. by apply (Hstart planned).
Qed.

(** *** The clauses after it *)

Lemma wp_drop_on (o : option nat) sent :
  wp (T := T) (drop_admission o sent) (fun out d => runs d = [] /\ stopped d = match out with inl _ => true | inr _ => false end).
Proof. destruct o as [h|]; simpl; [|done]. by intros [e|[]]; simpl. Qed.
Lemma wp_terminal_on a :
  wp (T := T) (on_terminal hk a) (fun out d => runs d = [] /\ stopped d = match out with inl _ => true | inr _ => false end).
Proof. unfold on_terminal. destruct (has_terminal hk); simpl; [|done]. by intros [e|[]]; simpl. Qed.

(** The walk goes on from a turn that nothing stopped, and from no other. *)
Definition turn_left (dt : list (event T)) (out : exn + (walk + Attempt * T)) (dh : list (event T)) : Prop :=
  runs dh = [] /\ match out with inr _ => stopped (dt ++ dh) = false | inl _ => stopped (dt ++ dh) = true end.

Lemma wp_after_on w r t dt : raised_stops r t dt -> wp (after_attempt hk classify w r t) (turn_left dt).
Proof.
  intros Hs. unfold raised_stops in Hs.
  assert (forall a h d1, runs d1 = [] -> stopped dt = true ->
    wp (let* _ := on_terminal hk a in WRaise (HTTPException h)) (fun out d2 => turn_left dt out (d1 ++ d2))) as Hterm.
  { intros a h d1 H1 H. apply walk_wp_bind. eapply walk_wp_mono; [apply wp_terminal_on|].
    intros [e|[]] d [Hd _]; cbn [wp]; rewrite ?app_nil_r; (split; [unfold runs in *; by rewrite flat_map_app, H1, Hd|]);
      unfold stopped in *; by rewrite existsb_app, H. }
  assert (forall o sent (k : wprog T (walk + Attempt * T)),
    (forall d1, runs d1 = [] -> stopped d1 = false -> wp k (fun out d2 => turn_left dt out (d1 ++ d2))) ->
    wp (let* _ := drop_admission o sent in k) (turn_left dt)) as Hdrop.
  { intros o sent k Hk. apply walk_wp_bind. eapply walk_wp_mono; [apply wp_drop_on|]. intros [e|[]] d [Hd He]; cbn [wp]; [|by apply Hk].
    split; [done|]. unfold stopped in *. by rewrite existsb_app, He, orb_true_r. }
  assert (forall d1 w', runs d1 = [] -> stopped d1 = false -> stopped dt = false -> turn_left dt (inr (inl w')) (d1 ++ [])) as Hon.
  { intros d1 w' H1 H2 H3. rewrite app_nil_r. split; [done|]. unfold stopped in *. by rewrite existsb_app, H2, H3. }
  unfold after_attempt. destruct r as [[h|h|m| | |e]|x]; cbn [stopping] in Hs.
  - apply Hdrop. intros d1 H1 H2. by apply Hon.
  - destruct (t_locked t); [by apply (Hterm _ _ [])|]. apply Hdrop. intros d1 H1 _. by apply Hterm.
  - by apply (Hterm _ _ []).
  - split; [done|]. by rewrite app_nil_r.
  - split; [done|]. by rewrite app_nil_r.
  - pose proof (advances e) as Hadv. destruct (classify e) as [retryable class]. simpl in Hadv. subst.
    destruct (t_locked t); cbn [orb negb]; [by apply (Hterm _ _ [])|]. apply Hdrop. intros d1 H1 H2. by apply Hon.
  - split; [done|]. by rewrite app_nil_r.
Qed.

(** *** The loop *)

(** The turns so far are those of the candidates first in the plan, and nothing stopped one but the last. *)
Definition in_order (attempts : list Attempt) (out : exn + (walk + Attempt * T)) (d : list (event T)) : Prop :=
  exists reached rest turns, attempts = reached ++ rest /\ d = concat turns /\ Forall2 turn_of reached turns
    /\ Forall (fun t => stopped t = false) (removelast turns)
    /\ match out with
       | inr (inl _) => rest = []
       | inr (inr _) => True
       | inl _ => exists t, last turns = Some t /\ stopped t = true
       end.

Lemma turn_of_left planned r t dt dh :
  (t_sent t = true -> sent_as planned (t_attempt t) dt) -> runs dt = (if t_sent t then [(t_attempt t, t_locked t, r)] else []) -> runs dh = [] ->
  turn_of planned (dt ++ dh).
Proof.
  intros Hs Hr Hh. unfold turn_of. assert (runs (dt ++ dh) = runs dt) as -> by (unfold runs in *; by rewrite flat_map_app, Hh, app_nil_r).
  rewrite Hr. destruct (t_sent t); [|by left]. right. eexists _, _, _. split; [done|]. specialize (Hs eq_refl).
  unfold sent_as in *. destruct (has_credential hk); [|done]. destruct Hs as [d' ->]. by exists (d' ++ dh).
Qed.

Lemma wp_and {A} (p : wprog T A) (Q Q' : exn + A -> list (event T) -> Prop) : wp p Q -> wp p Q' -> wp p (fun out d => Q out d /\ Q' out d).
Proof. revert Q Q'. induction p as [a|e|R c k IH]; intros Q Q' H H'; cbn [wp] in *; [done..|]. intros r. by apply IH. Qed.

Lemma wp_in_order attempts w : wp (walk_each hk base total classify attempts w) (in_order attempts).
Proof.
  revert w. induction attempts as [|planned attempts IH]; intros w; cbn [walk_each wp]; [by exists [], [], []|].
  apply walk_wp_bind. eapply walk_wp_mono; [apply wp_and; [apply wp_turn_starts|apply (wp_try_attempt hk base total planned w)]|].
  intros out dt [(r & t & -> & Hsent & Hs) (r' & t' & [= <- <-] & Hok)]. cbn [fst snd].
  pose proof (fun dh => turn_of_left planned r t dt dh Hsent (ok_runs _ _ _ _ _ _ Hok)) as Hturn.
  apply walk_wp_bind. eapply walk_wp_mono; [by apply (wp_after_on w r t dt)|].
  intros [e|[w'|s]] dh [Hh Hst]; cbn [wp].
  - exists [planned], attempts, [dt ++ dh]. split_and!; [done|cbn; by rewrite app_nil_r|by constructor; [apply Hturn|]|done|by eexists].
  - eapply walk_wp_mono; [apply IH|]. intros out d (reached & rest & turns & -> & -> & Hf & Hb & Hout).
    exists (planned :: reached), rest, ((dt ++ dh) :: turns). split_and!; [done|cbn; by rewrite app_assoc|by constructor; [apply Hturn|]| |].
    + destruct turns; [done|]. by constructor.
    + destruct out as [e|[w2|s]]; [|done|done]. destruct Hout as (t2 & Hl & Ht2). exists t2. split; [|done]. by destruct turns.
  - exists [planned], attempts, [dt ++ dh]. split_and!; [done|cbn; by rewrite !app_nil_r|by constructor; [apply Hturn|]|done|done].
Qed.

(** After the last candidate the walk calls no provider. *)
Lemma wp_failed_calls_none (w : walk) a0 : wp (all_failed (T := T) hk a0 w) (fun _ d => runs d = []).
Proof.
  assert (forall a h, wp (let* _ := on_terminal hk a in WRaise (HTTPException h)) (fun (_ : exn + (Attempt * T)) d => runs d = [])) as Hterm.
  { intros a h. apply walk_wp_bind. eapply walk_wp_mono; [apply wp_terminal_on|]. intros [e|[]] d [Hd _]; cbn [wp]; by rewrite ?app_nil_r. }
  assert (forall a h, wp (let* recorded := if has_skipped hk then record_skips (unrecorded_skips w) else WRet (inr tt) in
      match recorded with inl e => WRaise e | inr _ => let* _ := on_terminal hk a in WRaise (HTTPException h) end)
      (fun (_ : exn + (Attempt * T)) d => runs d = [])) as Hrest.
  { intros a h. apply walk_wp_bind. destruct (has_skipped hk); [|apply Hterm].
    apply wp_record_skips; [intros d _ _ Hd _ _ _|intros d e _ _ Hd _ _; cbn [wp]; by rewrite app_nil_r].
    eapply walk_wp_mono; [apply Hterm|]. intros out d2 Hd2. unfold runs in *. by rewrite flat_map_app, Hd, Hd2. }
  unfold all_failed. destruct (failures w); [|apply Hrest]. destruct (refusals w) as [|x xs]; [apply Hrest|].
  destruct (soonest x xs). apply Hterm.
Qed.
End order.

(** ** Whole walks *)

Section walks.
Context {T : Type} (hk : hooks) (base : kwargs).

Lemma default_advances e : (classify_local_attempt_error e).1 = true.
Proof. unfold classify_local_attempt_error. by repeat case_match. Qed.

Definition served_of (out : exn + (Attempt * T)) : option (Attempt * T) := match out with inr s => Some s | inl _ => None end.

Lemma new_walk_ok : walk_ok (T := T) hk 0 new_walk [].
Proof. by split. Qed.

Lemma wp_walk attempts :
  wp (walk_attempts (T := T) hk classify_local_attempt_error attempts base)
     (fun out d => ended_ok hk (length attempts) (served_of out) d).
Proof.
  unfold walk_attempts. destruct (last attempts) as [a|] eqn:El.
  2: { simpl. apply (walk_exhausted hk (length attempts) new_walk [] []); try done; [|intros _; split; [done|split; [done|by exists []]]].
       split; try done. simpl. lia. }
  apply walk_wp_bind. eapply walk_wp_mono; [apply (wp_walk_each hk base (length attempts) classify_local_attempt_error default_advances attempts 0 new_walk [] new_walk_ok)|].
  intros [e|[w|s]] d H; simpl in H; simpl; [done| |by rewrite app_nil_r].
  eapply walk_wp_mono; [by apply wp_all_failed|]. intros out d' [[e ->] Hok]. exact Hok.
Qed.

Lemma walk_outcome (env : environment T) attempts :
  let '(out, tr) := wexec env (walk_attempts hk classify_local_attempt_error attempts base) [] in
  ended_ok hk (length attempts) (served_of out) tr.
Proof.
  destruct (wp_sound env _ _ [] (wp_walk attempts)) as (d & Hd & H). destruct (wexec _ _ _) as [out tr]. simpl in *. by subst.
Qed.
(** The candidates a walk reaches, and the calls it makes for each. *)
Definition walks_in_order (attempts : list Attempt) (out : exn + (Attempt * T)) (tr : list (event T)) : Prop :=
  exists reached rest turns closing, attempts = reached ++ rest /\ tr = concat turns ++ closing /\ runs closing = []
    /\ Forall2 (turn_of hk) reached turns /\ Forall (fun t => stopped t = false) (removelast turns)
    /\ (rest = [] \/ is_Some (served_of out) \/ exists t, last turns = Some t /\ stopped t = true).

Lemma walk_order (env : environment T) attempts :
  let '(out, tr) := wexec env (walk_attempts hk classify_local_attempt_error attempts base) [] in walks_in_order attempts out tr.
Proof.
  assert (wp (walk_attempts (T := T) hk classify_local_attempt_error attempts base) (fun out d => walks_in_order attempts out d)) as H.
  { unfold walk_attempts. destruct (last attempts) as [a|] eqn:El.
    2: { cbn [wp]. destruct attempts as [|x l] using rev_ind; [|by rewrite last_snoc in El]. exists [], [], [], []. split_and!; auto. }
    apply walk_wp_bind. eapply walk_wp_mono; [apply (wp_in_order hk base (length attempts) classify_local_attempt_error default_advances attempts new_walk)|].
    intros [e|[w|s]] d (reached & rest & turns & -> & -> & Hf & Hb & Hout); cbn [wp].
    - exists reached, rest, turns, []. rewrite app_nil_r. split_and!; auto.
    - eapply walk_wp_mono; [apply wp_failed_calls_none|]. intros out d' Hd'. exists reached, rest, turns, d'. split_and!; auto.
    - exists reached, rest, turns, []. rewrite !app_nil_r. split_and!; auto. }
  destruct (wp_sound env _ _ [] H) as (d & Hd & Hok). destruct (wexec _ _ _) as [out tr]. simpl in *. by subst.
Qed.
End walks.

Section properties.
Context {T : Type} (hk : hooks) (base : kwargs).

(** C7: whatever the callbacks and the providers answer, a walk takes its candidates in the order of the plan, none of
    them twice: the candidates it reaches come first in the plan, and its calls are one turn for each, in that order,
    with at most one provider call in a turn, for what the credential hook made of that very candidate.  It stops at the
    first success, which it returns, and where it raises there was none.  Short of a success it leaves candidates
    unreached only where something else than a refusal, or a failure before lock-in, was raised: every provider call
    before the last ended in a refusal ([CandidateCannotServe], which moves the walk on even after lock-in), or in a
    failure of a provider not locked in. *)
Theorem walk_serves_once (env : environment T) attempts :
  let '(out, tr) := wexec env (walk_attempts hk classify_local_attempt_error attempts base) [] in
  (exists reached rest turns closing, attempts = reached ++ rest /\ tr = concat turns ++ closing /\ runs closing = []
    /\ Forall2 (turn_of hk) reached turns /\ Forall (fun t => stopped t = false) (removelast turns)
    /\ (rest = [] \/ is_Some (served_of out) \/ exists t, last turns = Some t /\ stopped t = true))
  /\ omap (fun run => match run.2 with inr x => Some (run.1.1, x) | inl _ => None end) (runs tr) = listed (served_of out)
  /\ forall before run, runs tr = before ++ [run] ->
       Forall (fun run => (exists h, run.2 = inl (CandidateCannotServe h)) \/ run.1.2 = false /\ exists e, run.2 = inl (Upstream e)) before.
Proof.
  pose proof (walk_outcome hk base env attempts) as H. pose proof (walk_order hk base env attempts) as Ho.
  destruct (wexec _ _ _) as [out tr]. destruct H as [E1 E2 E3 _ _ _]. done.
Qed.

(** A walk gives back what admitted a candidate, once and in turn, as it moves past the candidate;
    it ends with at most one admission not given back, and only where that candidate served, was
    locked in, or the walk was stopped at a limit of the gateway's own, an unreachable backend or the
    caller leaving. *)
Theorem walk_gives_back_admissions (env : environment T) attempts :
  let '(out, tr) := wexec env (walk_attempts hk classify_local_attempt_error attempts base) [] in
  exists kept, granted tr = given_back tr ++ kept /\ (length kept <= 1)%nat /\
    (kept <> [] -> is_Some (served_of out) \/ ended_early tr = true).
Proof.
  pose proof (walk_outcome hk base env attempts) as H. destruct (wexec _ _ _) as [out tr].
  destruct H as [_ _ _ E4 _ _]. exact E4.
Qed.

(** where recording does not fail, and nothing but a refusal stops a candidate before it is sent
    the request, the failures a walk recovered from are recorded, each once and in order, and so are
    the candidates it skipped; where it served nothing, at most the last failure is left to the
    answer itself. *)
Theorem walk_records_recoveries (env : environment T) attempts :
  has_absorbed hk = true -> has_skipped hk = true ->
  let '(out, tr) := wexec env (walk_attempts hk classify_local_attempt_error attempts base) [] in
  quiet tr ->
  (exists last, absorbed tr ++ last = failed tr /\ (length last <= 1)%nat /\ (is_Some (served_of out) -> last = [])) /\
  (exists rest, skipped tr ++ rest = refused tr /\ (is_Some (served_of out) -> rest = [])).
Proof.
  intros Ha Hs. pose proof (walk_outcome hk base env attempts) as H. destruct (wexec _ _ _) as [out tr].
  destruct H as [_ _ _ _ E5 E6]. intros Hq. split; [by apply E5|by apply E6].
Qed.
End properties.

(** ** Concrete walks *)

Definition all_hooks : hooks := mkHooks true true true true true true true.

Definition candidate (n : nat) : Attempt := mkAttempt n "openai" "openai" "m" ∅ None "default" false.

Definition timed_out : failure := mkFailure None false (Some TimeoutKind) None false false None (fun d => d) None.
Definition unreachable : failure := mkFailure None false (Some ConnErr) None false false None (fun d => d) None.

(** The provider of the first candidate times out, the others serve; [early] is what preparing the second ends in. *)
Definition some_providers (early : option failure) : environment nat :=
  fun R _ c => match c in call _ R return R with
               | Credential a => inr a
               | Build _ => inr ∅
               | Admit a => inr (Some (position a))
               | Prepare a k => match early with
                                | Some e => if (position a =? 2)%nat then inl (Upstream e) else inr k
                                | None => inr k
                                end
               | Absorbed _ _ _ => inr tt
               | Skipped _ _ => inr tt
               | Run a _ => if (position a =? 1)%nat then (false, inl (Upstream timed_out)) else (false, inr (position a))
               | DropAdmission _ _ => inr tt
               | Terminal _ => inr tt
               end.

Definition some_walk (early : option failure) : (exn + (Attempt * nat)) * list (event nat) :=
  wexec (some_providers early) (walk_attempts all_hooks classify_local_attempt_error [candidate 1; candidate 2; candidate 3] ∅) [].

Lemma walk_records_recoveries_witness :
  let '(out, tr) := some_walk None in
  quiet tr /\
  (exists last, absorbed tr ++ last = failed tr /\ (length last <= 1)%nat /\ (is_Some (served_of out) -> last = [])) /\
  (exists rest, skipped tr ++ rest = refused tr /\ (is_Some (served_of out) -> rest = [])).
Proof.
  pose proof (walk_records_recoveries all_hooks ∅ (some_providers None) [candidate 1; candidate 2; candidate 3] eq_refl eq_refl) as H.
  unfold some_walk. assert (Hq : quiet (some_walk None).2) by (vm_compute; repeat constructor).
  unfold some_walk in Hq. destruct (wexec _ _ _) as [out tr]. split; [exact Hq|exact (H Hq)].
Defined.

(** A failure is lost from the record where the next candidate fails before it is sent the request:
    the first provider times out, preparing the second candidate fails, the third serves - and of the
    two failures the walk recovered from only the second is recorded. *)
Theorem failure_before_dispatch_hides_another :
  let '(out, tr) := some_walk (Some unreachable) in
  served_of out = Some (candidate 3, 3%nat) /\
  failed tr = [(candidate 1, timed_out); (candidate 2, unreachable)] /\
  absorbed tr = [(candidate 2, unreachable)].
Proof. vm_compute. done. Qed.

(** A refusal moves the walk on after lock-in: the first candidate is locked in and cannot serve, the second serves. *)
Definition refuses_late : environment nat :=
  fun R _ c => match c in call _ R return R with
               | Credential a => inr a
               | Build _ => inr ∅
               | Admit a => inr None
               | Prepare a k => inr k
               | Absorbed _ _ _ => inr tt
               | Skipped _ _ => inr tt
               | Run a _ => if (position a =? 1)%nat then (true, inl (CandidateCannotServe (mkHttp 429 "" None None))) else (false, inr (position a))
               | DropAdmission _ _ => inr tt
               | Terminal _ => inr tt
               end.
Theorem refusal_after_lock_in_moves_on :
  let '(out, tr) := wexec refuses_late (walk_attempts all_hooks classify_local_attempt_error [candidate 1; candidate 2] ∅) [] in
  served_of out = Some (candidate 2, 2%nat) /\ map (fun run => run.1) (runs tr) = [(candidate 1, true); (candidate 2, false)].
Proof. vm_compute. done. Qed.
