(* ===== verification/MeteredPricing.v ===== *)
(** What usage costs ([src/src/gateway/core/metered_pricing.py], the units of
    [src/src/gateway/types/price_unit.py], the usage carrier of [src/src/gateway/core/usage.py] and
    the rounding of [src/src/gateway/models/money.py]).

    A [Decimal] is a rational: counts and rates stay within the 28 digits the decimal context keeps,
    where its arithmetic is exact.  A settled amount is an integer of micro-dollars, as the budgets
    hold it.  The numbers of a charge line are those it narrows to [float].  A rate row's block of
    published prices is what [parse_pricing] reads from it. *)
From Stdlib Require Import ZArith QArith Qround Lia Lqa Ascii.
From stdpp Require Import base strings list.
From S2P Require Import Prelude Text.

Local Open Scope string_scope.
Local Open Scope Z_scope.

(** ** Amounts *)

(** A value as [Decimal(str(value))] reads it; what it cannot read, or reads as not finite, is no number. *)
Inductive raw := NoNumber | Number (q : Q).

Definition to_decimal (v : raw) : option Q :=
  match v with Number q => if Qle_bool 0 q then Some q else None | NoNumber => None end.

(** Half-up, away from zero, to the micro-dollar and to 1e-8. *)
Definition half_up (scale : positive) (x : Q) : Z :=
  if Qle_bool 0 x then Qfloor (x * inject_Z (Zpos scale) + (1 # 2))%Q
  else - Qfloor (- x * inject_Z (Zpos scale) + (1 # 2))%Q.

Definition quantize_cost (x : Q) : Z := half_up 1000000 x.
Definition quantize_rate (x : Q) : Z := half_up 100000000 x.
Definition micro (z : Z) : Q := z # 1000000.

(** ** Usage *)

Record BillableUsage := mkBillable {
  total_input_tokens : Z;
  completion_tokens : Z;
  cache_read_tokens : Z;
  cache_write_tokens : Z;
  cache_write_1h_tokens : Z
}.

Definition billable_usage (input_tokens output_tokens : Z) (cache_tokens_included : bool)
    (cache_read cache_write cache_write_1h : Z) : BillableUsage :=
  let prompt_tokens := Z.max input_tokens 0 in
  let completion := Z.max output_tokens 0 in
  let cache_read := Z.max cache_read 0 in
  let cache_write := Z.max cache_write 0 in
  let cache_write_1h := Z.min (Z.max cache_write_1h 0) cache_write in
  if negb cache_tokens_included then
    mkBillable (prompt_tokens + cache_read + cache_write) completion cache_read cache_write cache_write_1h
  else if prompt_tokens <? cache_read + cache_write then mkBillable prompt_tokens completion 0 0 0
  else mkBillable prompt_tokens completion cache_read cache_write cache_write_1h.

(** A provider's usage: the gateway's own carrier, or the plain one with the details it may report. *)
Record prompt_details := mkDetails { cached : option Z; written : option Z; written_1h : option (option Z) }.
Record GatewayUsage := mkGatewayUsage {
  prompt : option Z;
  completion : option Z;
  gateway_counts : option (Z * Z * Z * bool);    (** read, written, written for 1h, counted in the prompt *)
  details : option prompt_details
}.

Definition cache_read_tokens_of (u : GatewayUsage) : Z :=
  match gateway_counts u, details u with
  | Some (r, _, _, _), _ => r
  | None, Some d => default 0 (cached d)
  | None, None => 0
  end.
Definition cache_write_tokens_of (u : GatewayUsage) : Z :=
  match gateway_counts u, details u with
  | Some (_, w, _, _), _ => w
  | None, Some d => default 0 (written d)
  | None, None => 0
  end.
Definition cache_write_1h_tokens_of (u : GatewayUsage) : Z :=
  match gateway_counts u, details u with
  | Some (_, _, h, _), _ => h
  | None, Some d => match written_1h d with Some h => default 0 h | None => 0 end
  | None, None => 0
  end.
Definition cache_tokens_in_prompt_of (u : GatewayUsage) : bool :=
  match gateway_counts u with Some (_, _, _, b) => b | None => true end.

Definition billable_usage_of (u : GatewayUsage) : BillableUsage :=
  billable_usage (Z.max (default 0 (prompt u)) 0) (Z.max (default 0 (completion u)) 0) (cache_tokens_in_prompt_of u)
    (cache_read_tokens_of u) (cache_write_tokens_of u) (cache_write_1h_tokens_of u).

(** ** Rates *)

(** A tier's lower bound: absent, null, what [int] makes of it, or unreadable. *)
Inductive bound := NoBound | NullBound | IntBound (z : Z) | BadBound.

Record Tier := mkTier {
  min_input_tokens : bound;
  tier_input : raw; tier_output : raw; tier_cache_read : raw; tier_cache_write : raw
}.

(** A rate row, as it is read: [pricing_tiers] is [None] where it is no list, an entry [None] where it is no dict. *)
Record Pricing := mkPricing {
  model_key : option string;
  unit_name : option string;
  input_price_per_million : raw; output_price_per_million : raw;
  cache_read_price_per_million : raw; cache_write_price_per_million : raw;
  pricing_tiers : option (list (option Tier))
}.

Record Rates := mkRates {
  input_rate : Q; output_rate : Q; cache_read_rate : option Q; cache_write_rate : option Q; cache_write_1h_rate : option Q
}.

Definition tier_threshold (t : Tier) : option Z :=
  match min_input_tokens t with
  | NoBound | NullBound => Some 0
  | IntBound z => if 0 <=? z then Some z else None
  | BadBound => None
  end.

(** The first of the highest. *)
Fixpoint highest (best : option (Z * Tier)) (l : list (Z * Tier)) : option (Z * Tier) :=
  match l with
  | [] => best
  | (z, t) :: l =>
      highest (match best with Some (b, _) => if b <? z then Some (z, t) else best | None => Some (z, t) end) l
  end.

Definition applicable_tier (tiers : option (list (option Tier))) (total_input : Z) : option Tier :=
  match tiers with
  | None => None
  | Some l =>
      let reached := omap (fun entry => t ← entry; z ← tier_threshold t; if z <=? total_input then Some (z, t) else None) l in
      snd <$> highest None reached
  end.

(** [re.compile(r"[0-9]+(?::|$)").match] *)
Definition is_digit (c : ascii) : bool := let n := nat_of_ascii c in ((48 <=? n) && (n <=? 57))%nat.
Fixpoint after_digits (s : string) : bool :=
  match s with
  | EmptyString => true
  | String c s' => bool_decide (c = ":"%char) || (is_digit c && after_digits s')
  end.
Definition bedrock_version_suffix (s : string) : bool :=
  match s with String c s' => is_digit c && after_digits s' | EmptyString => false end.

Fixpoint contains (p s : string) : bool :=
  starts_with p s || match s with String _ s' => contains p s' | EmptyString => false end.

Definition is_claude (p : Pricing) : bool :=
  match model_key p with
  | None => false
  | Some key =>
      let '(_, model) := partition_at ":"%char key in
      if negb (has_char ":"%char key) || bedrock_version_suffix model then contains "claude" (lower key)
      else contains "claude" (lower model)
  end.

Definition overridden (base override : raw) : option Q :=
  match to_decimal override with Some q => Some q | None => to_decimal base end.

Definition CLAUDE_1H_CACHE_WRITE_INPUT_MULTIPLE : Q := 2.

(** One rate field, read with the tier the input reaches. *)
Definition rate_at (p : Pricing) (total_input : Z) (base : raw) (over : Tier -> raw) : option Q :=
  match applicable_tier (pricing_tiers p) total_input with Some t => overridden base (over t) | None => to_decimal base end.

(** [None] is the [ValueError] of a row with no usable input or output rate. *)
Definition effective_rates (p : Pricing) (total_input : Z) : option Rates :=
  input ← rate_at p total_input (input_price_per_million p) tier_input;
  output ← rate_at p total_input (output_price_per_million p) tier_output;
  let write := rate_at p total_input (cache_write_price_per_million p) tier_cache_write in
  Some (mkRates input output (rate_at p total_input (cache_read_price_per_million p) tier_cache_read) write
          (match write with
           | Some w => if negb (Qeq_bool w 0) && is_claude p then Some (input * CLAUDE_1H_CACHE_WRITE_INPUT_MULTIPLE)%Q else None
           | None => None
           end)).

Definition meter_cost (quantity rate : Q) : Q := (quantity * rate / 1000000)%Q.

(** ** Units *)

Inductive PriceUnit := UToken | URequest | UImage | UCharacter | UMegapixel | USecond | UMinute | UWebSearch.
#[export] Instance PriceUnit_eq_dec : EqDecision PriceUnit.
Proof. solve_decision. Defined.

Definition PRICE_PER (u : PriceUnit) : positive :=
  match u with
  | UToken | UCharacter => 1000000
  | UWebSearch => 1000
  | URequest | UImage | UMegapixel | USecond | UMinute => 1
  end.

(** ** Settlement *)

(** A line gives its rate per million of its unit, or per one of it. *)
Inductive line_rate := PerMillion (rate : Q) | PerUnit (rate : Q).
Record ChargeLine := mkLine {
  meter : string; units : Q; line_unit : option PriceUnit; priced_at : line_rate; line_cost : Q
}.

Definition _charge_line (name : string) (n : Z) (rate cost : Q) : ChargeLine := mkLine name (inject_Z n) None (PerMillion rate) cost.

Definition charge (name : string) (n : Z) (rate : Q) (acc : Q * list ChargeLine) : Q * list ChargeLine :=
  let amount := meter_cost (inject_Z n) rate in
  ((acc.1 + amount)%Q, if bool_decide (n = 0) then acc.2 else (acc.2 ++ [_charge_line name n rate amount])%list).

Definition charge_at (name : string) (n : Z) (rate : option Q) (acc : Q * list ChargeLine) : Q * list ChargeLine :=
  match rate with Some r => charge name n r acc | None => acc end.

Definition one_hour_write_tokens (r : Rates) (u : BillableUsage) : Z :=
  if is_set (cache_write_1h_rate r) then cache_write_1h_tokens u else 0.
Definition fresh_input_tokens (r : Rates) (u : BillableUsage) : Z :=
  total_input_tokens u - (if is_set (cache_read_rate r) then cache_read_tokens u else 0)
  - (if is_set (cache_write_rate r) then cache_write_tokens u else 0).

Definition charges (r : Rates) (u : BillableUsage) : Q * list ChargeLine :=
  charge_at "cache_write_1h" (one_hour_write_tokens r u) (cache_write_1h_rate r)
    (charge_at "cache_write" (cache_write_tokens u - one_hour_write_tokens r u) (cache_write_rate r)
      (charge_at "cache_read" (cache_read_tokens u) (cache_read_rate r)
        (charge "output" (completion_tokens u) (output_rate r)
          (charge "input" (fresh_input_tokens r u) (input_rate r) (0%Q, []))))).

(** [_price_meters], whose meters are the counts of [u] and [fresh_input_tokens]. *)
Definition price_meters (p : Pricing) (u : BillableUsage) : option (Q * list ChargeLine) :=
  r ← effective_rates p (total_input_tokens u); Some (charges r u).

Definition price_billable_usage (p : Pricing) (u : BillableUsage) : option (Z * list ChargeLine) :=
  c ← price_meters p u; Some (quantize_cost c.1, c.2).

Definition calculate_metered_cost (p : Pricing) (u : GatewayUsage) : option (Z * list ChargeLine) :=
  price_billable_usage p (billable_usage_of u).

(** ** Units a row is priced in *)

Definition RETIRED_UNIT_NAMES : list (string * string) := [("tokens", "token"); ("requests", "request"); ("images", "image")].

Definition current_unit_name (value : option string) : option string :=
  match value with
  | Some v => Some (match find (fun kv => bool_decide (kv.1 = v)) RETIRED_UNIT_NAMES with Some (_, n) => n | None => v end)
  | None => None
  end.

Definition priced_per_request (p : Pricing) : bool := bool_decide (current_unit_name (unit_name p) = Some "request").

Definition request_cost (p : Pricing) : option Q :=
  rate ← to_decimal (input_price_per_million p); Some (meter_cost 1 rate).

(** [None] is the [ValueError] of a quantity below zero; an estimated one counts as zero. *)
Definition unit_cost (quantity : Q) (unit : PriceUnit) (price : Q) : option Q :=
  if Qle_bool 0 quantity then Some (quantity * price / inject_Z (Zpos (PRICE_PER unit)))%Q else None.
Definition estimated (quantity : Q) : Q := if Qle_bool 0 quantity then quantity else 0%Q.

(** ** The estimate *)

Inductive cache_ttl := FiveMinutes | OneHour.

Definition Qmax (x y : Q) : Q := if Qle_bool x y then y else x.
Definition dearest (first : Q) (l : list (option Q)) : Q := foldl (fun m o => match o with Some r => Qmax m r | None => m end) first l.

(** The rates an input token may bill at. *)
Definition input_candidates (r : Rates) (ttl : option cache_ttl) : list (option Q) :=
  ([cache_read_rate r]
   ++ match ttl with Some _ => [cache_write_rate r] | None => [] end
   ++ match ttl with Some OneHour => [cache_write_1h_rate r] | _ => [] end)%list.

Definition estimate_metered_cost (p : Pricing) (estimated_input_tokens estimated_output_tokens : Z)
    (ttl : option cache_ttl) (estimated_units : option Q) : option Z :=
  if priced_per_request p then c ← request_cost p; Some (quantize_cost c)
  else
    let input_tokens := Z.max estimated_input_tokens 0 in
    let unit := match current_unit_name (unit_name p) with None | Some "" => "token" | Some u => u end in
    match (if negb (bool_decide (unit = "token"%string)) then estimated_units else None) with
    | Some n =>
        r ← effective_rates p input_tokens;
        Some (quantize_cost (meter_cost (estimated n) (dearest (input_rate r) (Some (output_rate r) :: input_candidates r ttl))))
    | None =>
        let output_tokens := Z.max estimated_output_tokens 0 in
        r ← effective_rates p input_tokens;
        Some (quantize_cost (meter_cost (inject_Z input_tokens) (dearest (input_rate r) (input_candidates r ttl))
                             + meter_cost (inject_Z output_tokens) (output_rate r)))
    end.

(** Loose counts; unrounded where the caller sums several amounts into one row. *)
Definition calculate_token_cost (p : Pricing) (input_tokens output_tokens : Z) (cache_tokens_included : bool)
    (cache_read cache_write cache_write_1h : Z) : option Q :=
  c ← price_meters p (billable_usage input_tokens output_tokens cache_tokens_included cache_read cache_write cache_write_1h);
  Some c.1.
Definition settled_token_cost (p : Pricing) (input_tokens output_tokens : Z) (cache_tokens_included : bool)
    (cache_read cache_write cache_write_1h : Z) : option Z :=
  quantize_cost <$> calculate_token_cost p input_tokens output_tokens cache_tokens_included cache_read cache_write cache_write_1h.

(** A flat-rate request: its cost, and its line where there is something to explain. *)
Definition request_charge_line (cost : Q) : ChargeLine := mkLine "request" 1 None (PerUnit cost) cost.
Definition price_request (p : Pricing) : option (Z * list ChargeLine) :=
  c ← request_cost p;
  let cost := quantize_cost c in
  Some (cost, if bool_decide (cost = 0) then [] else [request_charge_line (micro cost)]).

(** ** Published prices *)

Record CachePrices := mkCachePrices {
  read_price : raw; write_price : raw; write_ttls : list (string * raw); storage_price : raw
}.
Record PriceOverride := mkOverride {
  over_price : raw; over_reasoning : raw; over_cache : option CachePrices; over_explicit : option CachePrices
}.
Record UnitPrice := mkUnitPrice {
  price : raw; price_unit : option string; reasoning : raw;
  cache : option CachePrices; explicit_cache : option CachePrices; overrides : list PriceOverride
}.

(** A rate row's block, as its reader reads it. *)
Record PriceBlock := mkBlock {
  modalities : list (string * (option UnitPrice * option UnitPrice));
  web_search : option UnitPrice
}.

Inductive PriceKind := BasePrice | Reasoning | CacheRead | CacheWrite | CacheStorage.
Inductive Direction := Input | Output.
Record UnitRate := mkUnitRate { rate_unit : PriceUnit; unit_price : Q }.

Definition models_dev_unit (value : option string) : option PriceUnit :=
  let unit := match value with None | Some ""%string => "token"%string | Some u => u end in
  snd <$> find (fun kv => bool_decide (kv.1 = unit))
    [("token", UToken); ("character", UCharacter); ("image", UImage); ("megapixel", UMegapixel);
     ("second", USecond); ("minute", UMinute)]%string.

Definition assoc {A} (k : string) (l : list (string * A)) : option A := snd <$> find (fun kv => bool_decide (kv.1 = k)) l.

Definition slot_price (b : PriceBlock) (modality : string) (d : Direction) : option UnitPrice :=
  prices ← assoc modality (modalities b); match d with Input => fst prices | Output => snd prices end.

Definition unit_rate (p : UnitPrice) (kind : PriceKind) (ttl : option string) : option UnitRate :=
  unit ← models_dev_unit (price_unit p);
  let value :=
    match kind, cache p with
    | BasePrice, _ => price p
    | Reasoning, _ => reasoning p
    | _, None => NoNumber
    | CacheRead, Some c => read_price c
    | CacheStorage, Some c => storage_price c
    | CacheWrite, Some c =>
        let listed := default NoNumber (t ← ttl; assoc t (write_ttls c)) in
        if is_set (to_decimal listed) then listed else write_price c
    end in
  rate ← to_decimal value; Some (mkUnitRate unit rate).

Definition web_search_rate (b : PriceBlock) : option UnitRate :=
  w ← web_search b; rate ← to_decimal (price w); Some (mkUnitRate UWebSearch rate).

Definition rate_cost (r : UnitRate) (quantity : Q) : option Q := unit_cost quantity (rate_unit r) (unit_price r).
Definition charge_line (r : UnitRate) (name : string) (quantity cost : Q) : ChargeLine :=
  mkLine name quantity (Some (rate_unit r))
    (if bool_decide (PRICE_PER (rate_unit r) = 1000000%positive) then PerMillion (unit_price r)
     else PerUnit (unit_price r / inject_Z (Zpos (PRICE_PER (rate_unit r)))))%Q cost.

Definition charge_unit (r : UnitRate) (name : string) (quantity : Q) : option (Q * list ChargeLine) :=
  cost ← rate_cost r quantity;
  Some (cost, if Qeq_bool quantity 0 then [] else [charge_line r name quantity cost]).

(** A slot that prices nothing is the inner [None]. *)
Definition charge_unit_price (p : UnitPrice) (quantity : Q) (name : string) (kind : PriceKind) (ttl : option string)
    : option (option (Q * list ChargeLine)) :=
  match unit_rate p kind ttl with None => Some None | Some r => Some <$> charge_unit r name quantity end.

(** The first of the dearest. *)
Fixpoint dearest_rate (best : UnitRate) (l : list UnitRate) : UnitRate :=
  match l with [] => best | x :: l => dearest_rate (if Qle_bool (unit_price x) (unit_price best) then best else x) l end.

Definition estimate_unit_cost (p : UnitPrice) (quantity : Q) (ttl : option string) : option Z :=
  let kinds := ([BasePrice; Reasoning; CacheRead] ++ (if is_set ttl then [CacheWrite] else []))%list in
  match omap (fun kind => unit_rate p kind ttl) kinds with
  | [] => Some 0
  | r :: rs => quantize_cost <$> rate_cost (dearest_rate r rs) (estimated quantity)
  end.
