(* ===== verification/PricingBounds.v ===== *)
(** What is settled is what the lines explain, and what is reserved covers it. *)
From Stdlib Require Import ZArith QArith Qround Lia Lqa.
From stdpp Require Import base strings list sets.
From S2P Require Import Prelude Text MeteredPricing.

Local Open Scope Z_scope.

(** ** Rounding *)

Lemma half_up_nonneg scale x : (0 <= x)%Q -> half_up scale x = Qfloor (x * inject_Z (Zpos scale) + (1 # 2))%Q.
Proof. intros H. unfold half_up. rewrite (proj2 (Qle_bool_iff 0 x)) by done. done. Qed.

Lemma quantize_cost_mono x y : (0 <= x)%Q -> (x <= y)%Q -> quantize_cost x <= quantize_cost y.
Proof.
  intros Hx Hy. unfold quantize_cost. rewrite !half_up_nonneg by lra. apply Qfloor_resp_le.
  assert (x * inject_Z 1000000 <= y * inject_Z 1000000)%Q by (apply Qmult_le_compat_r; [done|discriminate]). lra.
Qed.

Lemma quantize_cost_nonneg x : (0 <= x)%Q -> 0 <= quantize_cost x.
Proof. intros Hx. change 0 with (quantize_cost 0). by apply quantize_cost_mono; [lra|]. Qed.

(** Equal amounts settle alike. *)
#[export] Instance quantize_cost_proper : Proper (Qeq ==> eq) quantize_cost.
Proof.
  intros x y Hxy. unfold quantize_cost, half_up.
  assert (Hb : Qle_bool 0 x = Qle_bool 0 y) by (apply eq_true_iff_eq; rewrite !Qle_bool_iff; by rewrite Hxy).
  rewrite Hb. destruct (Qle_bool 0 y); [|f_equal]; apply Qfloor_comp; by rewrite Hxy.
Qed.

(** A settled amount is within half a micro-dollar. *)
Lemma quantize_cost_close x : (0 <= x)%Q -> (x - (1 # 2000000) <= micro (quantize_cost x) <= x + (1 # 2000000))%Q.
Proof.
  intros Hx. unfold quantize_cost. rewrite half_up_nonneg by done. set (z := Qfloor _).
  pose proof (Qfloor_le (x * inject_Z 1000000 + (1 # 2))) as H1. pose proof (Qlt_floor (x * inject_Z 1000000 + (1 # 2))) as H2.
  fold z in H1, H2. rewrite inject_Z_plus in H2. assert (Hm : micro z == inject_Z z / 1000000).
  { unfold micro, inject_Z, Qeq, Qdiv, Qmult, Qinv. simpl. lia. }
  assert (Hx' : x * inject_Z 1000000 == x * 1000000) by reflexivity. rewrite Hx' in *. rewrite Hm.
  split; [apply Qle_shift_div_l|apply Qle_shift_div_r]; try reflexivity; change (inject_Z 1) with 1%Q in *; lra.
Qed.

(** ** Charges *)

Definition sum_units (l : list ChargeLine) : Q := foldr (fun x n => units x + n)%Q 0%Q l.
Definition sum_costs (l : list ChargeLine) : Q := foldr (fun x n => line_cost x + n)%Q 0%Q l.

Lemma sum_units_app a b : (sum_units (a ++ b) == sum_units a + sum_units b)%Q.
Proof. induction a as [|x a IH]; simpl; [lra|]. rewrite IH. lra. Qed.
Lemma sum_costs_app a b : (sum_costs (a ++ b) == sum_costs a + sum_costs b)%Q.
Proof. induction a as [|x a IH]; simpl; [lra|]. rewrite IH. lra. Qed.

(** A line of [n] tokens at a rate that is no credit. *)
Definition token_line (l : ChargeLine) : Prop := exists n rate,
  0 < n /\ (0 <= rate)%Q /\ units l = inject_Z n /\ priced_at l = PerMillion rate /\ line_cost l = meter_cost (inject_Z n) rate.

(** Lines that explain an amount of [n] tokens. *)
Record explains (acc : Q * list ChargeLine) (n : Z) : Prop := {
  explained_units : (sum_units acc.2 == inject_Z n)%Q;
  explained_cost : (acc.1 == sum_costs acc.2)%Q;
  explained_lines : Forall token_line acc.2
}.

Lemma meter_cost_nonneg n r : 0 <= n -> (0 <= r)%Q -> (0 <= meter_cost (inject_Z n) r)%Q.
Proof.
  intros Hn Hr. unfold meter_cost. apply Qle_shift_div_l; [reflexivity|]. rewrite Qmult_0_l. apply Qmult_le_0_compat; [|done].
  change 0%Q with (inject_Z 0). by rewrite <- Zle_Qle.
Qed.

Lemma charge_explains name m rate acc n :
  0 <= m -> (0 <= rate)%Q -> explains acc n -> explains (charge name m rate acc) (n + m).
Proof.
  intros Hm Hr [H1 H2 H3]. unfold charge. destruct (decide (m = 0)) as [->|Hne].
  - rewrite bool_decide_eq_true_2 by done. split; simpl; [by rewrite Z.add_0_r| |done]. rewrite <- H2. unfold meter_cost.
    change (inject_Z 0) with 0%Q. field.
  - rewrite bool_decide_eq_false_2 by done. split; simpl.
    + rewrite sum_units_app, inject_Z_plus, H1. simpl. lra.
    + rewrite sum_costs_app. simpl. rewrite <- H2. lra.
    + apply Forall_app. split; [done|]. apply Forall_singleton. exists m, rate. simpl. split; [lia|done].
Qed.

Lemma charge_at_explains name m rate acc n :
  0 <= m -> (forall r, rate = Some r -> 0 <= r)%Q -> explains acc n ->
  explains (charge_at name m rate acc) (n + if is_set rate then m else 0).
Proof.
  intros Hm Hr H. unfold charge_at. destruct rate as [r|]; simpl; [apply charge_explains; auto|by rewrite Z.add_0_r].
Qed.

Lemma explained_nonneg acc n : explains acc n -> (0 <= acc.1)%Q.
Proof.
  intros [_ -> H]. induction H as [|l ls (m & r & Hu & Hr & _ & _ & Hl) _ IH]; simpl; [lra|]. rewrite Hl.
  pose proof (meter_cost_nonneg m _ ltac:(lia) Hr). lra.
Qed.

(** ** Usage and rates *)

(** Each meter a part of the prompt, or of the writes. *)
Record usage_ok (u : BillableUsage) : Prop := {
  usage_output : 0 <= completion_tokens u;
  usage_read : 0 <= cache_read_tokens u;
  usage_1h : 0 <= cache_write_1h_tokens u <= cache_write_tokens u;
  usage_parts : cache_read_tokens u + cache_write_tokens u <= total_input_tokens u
}.

Lemma billable_usage_ok i o b r w h : usage_ok (billable_usage i o b r w h).
Proof. unfold billable_usage. destruct b; simpl; [destruct (Z.ltb_spec (Z.max i 0) (Z.max r 0 + Z.max w 0))|]; split; simpl; lia. Qed.

Definition rates_ok (r : Rates) : Prop :=
  (0 <= input_rate r)%Q /\ (0 <= output_rate r)%Q /\
  Forall (fun o => forall x, o = Some x -> (0 <= x)%Q) [cache_read_rate r; cache_write_rate r; cache_write_1h_rate r].

Lemma to_decimal_nonneg v x : to_decimal v = Some x -> (0 <= x)%Q.
Proof. destruct v as [|q]; simpl; [done|]. destruct (Qle_bool 0 q) eqn:E; [|done]. intros [= <-]. by apply Qle_bool_iff. Qed.

Lemma overridden_nonneg b o x : overridden b o = Some x -> (0 <= x)%Q.
Proof.
  unfold overridden. destruct (to_decimal o) as [q|] eqn:E; [|apply to_decimal_nonneg]. intros [= <-]. by eapply to_decimal_nonneg.
Qed.

Lemma rate_at_nonneg p n base over x : rate_at p n base over = Some x -> (0 <= x)%Q.
Proof. unfold rate_at. destruct (applicable_tier _ _); [apply overridden_nonneg|apply to_decimal_nonneg]. Qed.

Lemma effective_rates_ok p n r : effective_rates p n = Some r -> rates_ok r /\ (cache_write_rate r = None -> cache_write_1h_rate r = None).
Proof.
  unfold effective_rates.
  destruct (rate_at p n (input_price_per_million p) tier_input) as [i|] eqn:Ei; [|done].
  destruct (rate_at p n (output_price_per_million p) tier_output) as [o|] eqn:Eo; [|done]. simpl. intros [= <-]. unfold rates_ok. simpl.
  pose proof (rate_at_nonneg _ _ _ _ _ Ei) as Hi. split.
  - split; [done|]. split; [by eapply rate_at_nonneg|].
    repeat (apply Forall_cons; split); [by intros x ?%rate_at_nonneg|by intros x ?%rate_at_nonneg| |constructor].
    intros x. destruct (rate_at p n (cache_write_price_per_million p) tier_cache_write); [|done]. destruct (_ && _); [|done].
    intros [= <-]. unfold CLAUDE_1H_CACHE_WRITE_INPUT_MULTIPLE. lra.
  - intros Hn. by rewrite Hn.
Qed.

(** Every token bills once. *)
Lemma charges_explain r u :
  usage_ok u -> rates_ok r -> (cache_write_rate r = None -> cache_write_1h_rate r = None) ->
  explains (charges r u) (total_input_tokens u + completion_tokens u).
Proof.
  intros [U1 U2 U3 U4] (Hi & Ho & Hc) Hw. rewrite !Forall_cons in Hc. destruct Hc as (Hr & Hwr & Hh & _).
  assert (Hfresh : 0 <= fresh_input_tokens r u).
  { unfold fresh_input_tokens. destruct (is_set (cache_read_rate r)), (is_set (cache_write_rate r)); lia. }
  assert (H1h : 0 <= one_hour_write_tokens r u <= cache_write_tokens u) by (unfold one_hour_write_tokens; destruct (is_set _); lia).
  unfold charges.
  pose proof (charge_explains "input" (fresh_input_tokens r u) (input_rate r) (0%Q, []) 0 Hfresh Hi) as H0.
  specialize (H0 ltac:(split; simpl; [reflexivity|reflexivity|constructor])).
  pose proof (charge_explains "output" (completion_tokens u) (output_rate r) _ _ U1 Ho H0) as H1.
  pose proof (charge_at_explains "cache_read" (cache_read_tokens u) (cache_read_rate r) _ _ U2 Hr H1) as H2.
  pose proof (charge_at_explains "cache_write" (cache_write_tokens u - one_hour_write_tokens r u) (cache_write_rate r) _ _ ltac:(lia) Hwr H2) as H3.
  pose proof (charge_at_explains "cache_write_1h" (one_hour_write_tokens r u) (cache_write_1h_rate r) _ _ ltac:(lia) Hh H3) as H4.
  eapply eq_rect; [exact H4|]. unfold fresh_input_tokens, one_hour_write_tokens.
  destruct (cache_read_rate r), (cache_write_rate r), (cache_write_1h_rate r); simpl in *; try (specialize (Hw eq_refl); discriminate); lia.
Qed.

(** ** The estimate covers the settlement *)

Lemma Qmax_l x y : (x <= Qmax x y)%Q.
Proof. unfold Qmax. destruct (Qle_bool x y) eqn:E; [by apply Qle_bool_iff|lra]. Qed.
Lemma Qmax_r x y : (y <= Qmax x y)%Q.
Proof.
  unfold Qmax. destruct (Qle_bool x y) eqn:E; [lra|]. apply not_true_iff_false in E. rewrite Qle_bool_iff in E. lra.
Qed.

Lemma dearest_ge l : forall first, (first <= dearest first l)%Q /\ forall r, Some r ∈ l -> (r <= dearest first l)%Q.
Proof.
  induction l as [|o l IH]; intros first; simpl; [split; [lra|by intros r ?%elem_of_nil]|].
  destruct (IH (match o with Some r => Qmax first r | None => first end)) as [H1 H2]. unfold dearest in *. simpl. split.
  - destruct o as [r|]; [|done]. pose proof (Qmax_l first r). lra.
  - intros r [<-|H]%elem_of_cons; [|auto]. pose proof (Qmax_r first r). lra.
Qed.

Lemma meter_cost_le m n r d : 0 <= m <= n -> (0 <= r)%Q -> (0 < m -> (r <= d)%Q) -> (0 <= d)%Q ->
  (meter_cost (inject_Z m) r <= meter_cost (inject_Z n) d)%Q.
Proof.
  intros Hm Hr Hd Hd0. unfold meter_cost. apply Qmult_le_compat_r; [|discriminate].
  assert (Hmn : (inject_Z m <= inject_Z n)%Q) by (rewrite <- Zle_Qle; lia).
  assert (H0 : (0 <= inject_Z m)%Q) by (change 0%Q with (inject_Z 0); rewrite <- Zle_Qle; lia).
  destruct (decide (m = 0)) as [->|Hne].
  - change (inject_Z 0) with 0%Q. rewrite Qmult_0_l. apply Qmult_le_0_compat; lra.
  - specialize (Hd ltac:(lia)). nra.
Qed.

Lemma meter_cost_add m n d : (meter_cost (inject_Z (m + n)) d == meter_cost (inject_Z m) d + meter_cost (inject_Z n) d)%Q.
Proof. unfold meter_cost. rewrite inject_Z_plus. field. Qed.

Lemma charge_at_le name n rate acc d :
  0 <= n -> (0 <= d)%Q -> (forall r, rate = Some r -> 0 <= r)%Q -> (forall r, rate = Some r -> 0 < n -> (r <= d)%Q) ->
  ((charge_at name n rate acc).1 <= acc.1 + meter_cost (inject_Z (if is_set rate then n else 0)) d)%Q.
Proof.
  intros Hn Hd Hr H. destruct rate as [r|]; simpl.
  - pose proof (meter_cost_le n n r d ltac:(lia) (Hr _ eq_refl) (H _ eq_refl) Hd). lra.
  - pose proof (meter_cost_nonneg 0 d ltac:(lia) Hd). lra.
Qed.

(** A request whose writes are those its TTL announced. *)
Definition announced (ttl : option cache_ttl) (u : BillableUsage) : Prop :=
  (0 < cache_write_tokens u -> is_set ttl = true) /\ (0 < cache_write_1h_tokens u -> ttl = Some OneHour).

Lemma charges_within r u ttl ei eo :
  usage_ok u -> rates_ok r -> (cache_write_rate r = None -> cache_write_1h_rate r = None) -> announced ttl u ->
  total_input_tokens u <= ei -> completion_tokens u <= eo ->
  ((charges r u).1 <= meter_cost (inject_Z ei) (dearest (input_rate r) (input_candidates r ttl))
                     + meter_cost (inject_Z eo) (output_rate r))%Q.
Proof.
  intros [U1 U2 U3 U4] (Hi & Ho & Hc) Hw [A1 A2] Hei Heo. rewrite !Forall_cons in Hc. destruct Hc as (Hr & Hwr & Hh & _).
  set (d := dearest _ _). destruct (dearest_ge (input_candidates r ttl) (input_rate r)) as [Hd Hin]. fold d in Hd, Hin.
  assert (Hd0 : (0 <= d)%Q) by lra. set (h := one_hour_write_tokens r u).
  assert (H1h : 0 <= h <= cache_write_1h_tokens u) by (unfold h, one_hour_write_tokens; destruct (is_set (cache_write_1h_rate r)); lia).
  set (a0 := charge "input" (fresh_input_tokens r u) (input_rate r) (0%Q, [])).
  set (a1 := charge "output" (completion_tokens u) (output_rate r) a0).
  pose proof (charge_at_le "cache_read" (cache_read_tokens u) (cache_read_rate r) a1 d U2 Hd0 Hr) as C2.
  specialize (C2 ltac:(intros x Hx _; apply Hin; unfold input_candidates; rewrite Hx; set_solver)).
  set (a2 := charge_at "cache_read" _ _ _) in C2.
  assert (Hin3 : forall x, cache_write_rate r = Some x -> 0 < cache_write_tokens u - h -> (x <= d)%Q).
  { intros x Hx Hp. apply Hin. unfold input_candidates. rewrite Hx. specialize (A1 ltac:(lia)). destruct ttl; [set_solver|done]. }
  pose proof (charge_at_le "cache_write" (cache_write_tokens u - h) (cache_write_rate r) a2 d ltac:(lia) Hd0 Hwr) as C3.
  specialize (C3 Hin3).
  set (a3 := charge_at "cache_write" _ _ _) in C3.
  pose proof (charge_at_le "cache_write_1h" h (cache_write_1h_rate r) a3 d ltac:(lia) Hd0 Hh) as C4.
  specialize (C4 ltac:(intros x Hx Hp; apply Hin; unfold input_candidates; rewrite Hx, A2 by lia; set_solver)).
  assert (Ea : (a1.1 == meter_cost (inject_Z (fresh_input_tokens r u)) (input_rate r)
                        + meter_cost (inject_Z (completion_tokens u)) (output_rate r))%Q) by (unfold a1, a0; simpl; lra).
  assert (Hfresh : 0 <= fresh_input_tokens r u).
  { unfold fresh_input_tokens. destruct (is_set (cache_read_rate r)), (is_set (cache_write_rate r)); lia. }
  pose proof (meter_cost_le _ _ (input_rate r) d (conj Hfresh (Z.le_refl _)) Hi (fun _ => Hd) Hd0) as F1.
  pose proof (meter_cost_le _ eo (output_rate r) (output_rate r) (conj U1 Heo) Ho (fun _ => Qle_refl _) Ho) as F2.
  set (n2 := if is_set (cache_read_rate r) then _ else _) in C2. set (n3 := if is_set (cache_write_rate r) then _ else _) in C3.
  set (n4 := if is_set (cache_write_1h_rate r) then _ else _) in C4.
  assert (Hn : 0 <= fresh_input_tokens r u + n2 + n3 + n4 <= ei).
  { unfold fresh_input_tokens, n2, n3, n4, h, one_hour_write_tokens in *.
    destruct (cache_read_rate r), (cache_write_rate r), (cache_write_1h_rate r); simpl in *; try (specialize (Hw eq_refl); discriminate); lia. }
  pose proof (meter_cost_le _ ei d d Hn Hd0 (fun _ => Qle_refl _) Hd0) as F3. rewrite !meter_cost_add in F3.
  change ((charge_at "cache_write_1h" h (cache_write_1h_rate r) a3).1 <= meter_cost (inject_Z ei) d + meter_cost (inject_Z eo) (output_rate r))%Q.
  lra.
Qed.

Lemma charges_nonneg r u :
  usage_ok u -> rates_ok r -> (cache_write_rate r = None -> cache_write_1h_rate r = None) -> (0 <= (charges r u).1)%Q.
Proof. intros Hu Hr Hw. by eapply explained_nonneg, charges_explain. Qed.

(** A request counted at most as the estimate counted it settles within it, at the same rates. *)
Lemma metered_within_estimate p u ttl ei eo est :
  priced_per_request p = false -> usage_ok u -> announced ttl u ->
  total_input_tokens u <= ei -> completion_tokens u <= eo ->
  effective_rates p (total_input_tokens u) = effective_rates p ei ->
  estimate_metered_cost p ei eo ttl None = Some est ->
  exists c lines, price_billable_usage p u = Some (c, lines) /\ 0 <= c <= est.
Proof.
  intros Hp Hu Ha Hei Heo Hsame. unfold estimate_metered_cost. rewrite Hp.
  pose proof (usage_output _ Hu). pose proof (usage_read _ Hu). pose proof (usage_1h _ Hu). pose proof (usage_parts _ Hu).
  rewrite (Z.max_l ei) by lia. rewrite (Z.max_l eo) by lia.
  replace (if negb (bool_decide _) then None else None) with (@None Q) by (by destruct (negb _)).
  destruct (effective_rates p ei) as [r|] eqn:Er; [|done]. simpl. intros [= <-].
  destruct (effective_rates_ok _ _ _ Er) as [Hr Hw]. unfold price_billable_usage, price_meters. rewrite Hsame. simpl.
  eexists _, _. split; [done|]. pose proof (charges_nonneg r u Hu Hr Hw). split; [by apply quantize_cost_nonneg|].
  apply quantize_cost_mono; [done|]. by apply charges_within.
Qed.

(** Counted past the estimate, it settles past it by at most the price of the tokens it was past it. *)
Lemma metered_overrun p u ttl ei eo r :
  priced_per_request p = false -> usage_ok u -> announced ttl u -> 0 <= ei -> 0 <= eo ->
  effective_rates p (total_input_tokens u) = Some r -> effective_rates p ei = Some r ->
  exists est c lines, estimate_metered_cost p ei eo ttl None = Some est /\ price_billable_usage p u = Some (c, lines)
    /\ (micro c <= micro est
          + (meter_cost (inject_Z (Z.max 0 (total_input_tokens u - ei))) (dearest (input_rate r) (input_candidates r ttl))
             + meter_cost (inject_Z (Z.max 0 (completion_tokens u - eo))) (output_rate r)) + (1 # 1000000))%Q.
Proof.
  intros Hp Hu Ha Hei Heo Hr Hre. unfold estimate_metered_cost, price_billable_usage, price_meters. rewrite Hp.
  rewrite (Z.max_l ei) by lia. rewrite (Z.max_l eo) by lia.
  replace (if negb (bool_decide _) then None else None) with (@None Q) by (by destruct (negb _)).
  rewrite Hr, Hre. cbn [mbind option_bind]. eexists _, _, _. split_and!; [done..|].
  destruct (effective_rates_ok _ _ _ Hre) as [Hok Hw]. destruct Hok as (Hi & Ho & Hc).
  set (d := dearest (input_rate r) (input_candidates r ttl)).
  assert (0 <= d)%Q as Hd by (pose proof (proj1 (dearest_ge (input_candidates r ttl) (input_rate r))) as H; unfold d; lra).
  pose proof (charges_within r u ttl (ei + Z.max 0 (total_input_tokens u - ei)) (eo + Z.max 0 (completion_tokens u - eo)) Hu
    (conj Hi (conj Ho Hc)) Hw Ha ltac:(lia) ltac:(lia)) as Hin. fold d in Hin. rewrite !meter_cost_add in Hin.
  pose proof (charges_nonneg r u Hu (conj Hi (conj Ho Hc)) Hw) as Hn.
  pose proof (quantize_cost_close _ Hn) as [_ Hup].
  pose proof (meter_cost_nonneg ei d Hei Hd) as He1. pose proof (meter_cost_nonneg eo _ Heo Ho) as He2.
  assert (0 <= meter_cost (inject_Z ei) d + meter_cost (inject_Z eo) (output_rate r))%Q as Hraw by lra.
  pose proof (quantize_cost_close _ Hraw) as [Hlow _].
  lra.
Qed.

(** C28: A settled amount is no credit, each token it counts is explained by exactly one line, and what the lines
    explain is the amount, within half a micro-dollar. *)
Theorem settled_amount_is_explained p i o included read write write_1h c lines :
  let u := billable_usage i o included read write write_1h in
  price_billable_usage p u = Some (c, lines) ->
  0 <= c /\ Forall token_line lines
  /\ (sum_units lines == inject_Z (total_input_tokens u + completion_tokens u))%Q
  /\ (sum_costs lines - (1 # 2000000) <= micro c <= sum_costs lines + (1 # 2000000))%Q.
Proof.
  intros u. unfold price_billable_usage, price_meters. destruct (effective_rates p (total_input_tokens u)) as [r|] eqn:Er; [|done].
  simpl. intros [= <- <-]. destruct (effective_rates_ok _ _ _ Er) as [Hr Hw].
  pose proof (charges_explain r u (billable_usage_ok _ _ _ _ _ _) Hr Hw) as He. pose proof (explained_nonneg _ _ He) as H0.
  destruct He as [H1 H2 H3]. split; [by apply quantize_cost_nonneg|]. split; [done|]. split; [done|].
  rewrite <- H2. by apply quantize_cost_close.
Qed.

Definition claude_row : Pricing :=
  mkPricing (Some "anthropic:claude-haiku"%string) (Some "token"%string) (Number 3) (Number 15) (Number (3 # 10)) (Number (15 # 4)) None.

Lemma settled_amount_is_explained_witness :
  let u := billable_usage 100 7 false 50 30 10 in
  exists lines, price_billable_usage claude_row u = Some (555, lines) /\ length lines = 5%nat
    /\ (sum_units lines == 187)%Q.
Proof.
  eexists. split; [vm_compute; reflexivity|]. split; [reflexivity|].
  destruct (settled_amount_is_explained claude_row 100 7 false 50 30 10 555 _ eq_refl) as (_ & _ & H & _). exact H.
Defined.
