(* ===== verification/UsagePricing.v ===== *)
(** Which meter a rate prices and what one attempt costs at it
    ([src/src/gateway/services/pricing/_usage_pricing.py], [_slot_pricing.py], [_video_pricing.py]),
    what a request holds before it is dispatched ([src/src/gateway/services/budgets/_reservations.py])
    and what its tool calls cost ([_tool_pricing.py]).

    An outer [None] is the [ValueError] a step raises; an inner one is a rate that prices nothing
    the attempt reported.  Quantities are finite. *)
From Stdlib Require Import ZArith QArith Qround Lia Lqa.
From stdpp Require Import base strings list sorting.
From S2P Require Import Prelude Text MeteredPricing.

Local Open Scope string_scope.
Local Open Scope Z_scope.

(** A rate row with the block of published prices beside its columns. *)
Record ModelPricing := mkModelPricing { columns : Pricing; block : option PriceBlock }.

Record UsageCharge := mkCharge { cost : Z; meters : list (string * Q); lines : list ChargeLine }.
Definition no_charge : UsageCharge := mkCharge 0 [] [].

Definition Quantities : Type := PriceUnit -> option Q.
Definition Slot : Type := string * Direction.

(** ** Slots of the block *)

Definition UNIT_METER (u : PriceUnit) : string :=
  match u with
  | UToken => "tokens" | URequest => "requests" | UImage => "images" | UCharacter => "characters"
  | UMegapixel => "megapixels" | USecond => "seconds" | UMinute => "minutes" | UWebSearch => "searches"
  end.

Definition slot_rate (rate : option ModelPricing) (modality : string) (d : Direction) : option UnitRate :=
  m ← rate; b ← block m; p ← slot_price b modality d; unit_rate p BasePrice None.
Definition search_rate (rate : option ModelPricing) : option UnitRate :=
  m ← rate; b ← block m; web_search_rate b.

Definition cache_prices (c : option CachePrices) : list raw :=
  match c with None => [] | Some c => read_price c :: write_price c :: storage_price c :: (write_ttls c).*2 end.
Definition override_prices (o : PriceOverride) : list raw :=
  (over_price o :: over_reasoning o :: cache_prices (over_cache o) ++ cache_prices (over_explicit o))%list.
Definition slot_prices (p : UnitPrice) : list raw :=
  (price p :: reasoning p :: cache_prices (cache p) ++ cache_prices (explicit_cache p) ++ (overrides p ≫= override_prices))%list.
Definition block_prices (b : PriceBlock) : list raw :=
  (omap id ((modalities b ≫= fun m => [m.2.1; m.2.2]) ++ [web_search b]) ≫= slot_prices)%list.

Definition is_free (v : raw) : bool := match to_decimal v with None => true | Some q => Qeq_bool q 0 end.
Definition block_is_free (b : option PriceBlock) : bool :=
  match b with None => true | Some b => forallb is_free (block_prices b) end.

Definition estimate_slot_cost (rate : option ModelPricing) (modality : string) (d : Direction) (q : Quantities) : option Z :=
  match slot_rate rate modality d with
  | None => Some 0
  | Some found =>
      match q (rate_unit found) with
      | None => Some 0
      | Some n => quantize_cost <$> rate_cost found (estimated n)
      end
  end.

Definition price_slot (rate : option ModelPricing) (modality : string) (d : Direction) (q : Quantities)
    : option (option UsageCharge) :=
  match slot_rate rate modality d with
  | None => Some None
  | Some found =>
      match q (rate_unit found) with
      | None => Some None
      | Some n =>
          let name := UNIT_METER (rate_unit found) in
          charge ← charge_unit found name n;
          let c := quantize_cost charge.1 in
          Some (Some (if bool_decide (c = 0) then no_charge else mkCharge c [(name, n)] charge.2))
      end
  end.

Definition seconds_only (n : Z) : Quantities := fun u => if bool_decide (u = USecond) then Some (inject_Z n) else None.
Definition video_rate (rate : option ModelPricing) : option UnitRate :=
  found ← slot_rate rate "video" Output; if bool_decide (rate_unit found = USecond) then Some found else None.
Definition estimate_video_cost (rate : option ModelPricing) (n : Z) : option Z :=
  estimate_slot_cost rate "video" Output (seconds_only n).
Definition price_video (rate : option ModelPricing) (n : Z) : option (option UsageCharge) :=
  price_slot rate "video" Output (seconds_only n).

(** ** Meters *)

Definition MEASURED_UNITS : list PriceUnit := [UImage; UCharacter; UMegapixel; USecond; UMinute; UWebSearch].
Definition UNIT_METERS : list string := ["requests"; "search_units"; "images"].
Definition MAX_REPORTED_UNITS : Z := 1000000.

(** A reported count; what is no [int], a [bool] included, is none. *)
Inductive count := Whole (z : Z) | NotWhole.

Fixpoint validated_units (report : list (string * count)) : option (list (string * Z)) :=
  match report with
  | [] => Some []
  | (name, n) :: rest =>
      if negb (bool_decide (name ∈ UNIT_METERS)) then validated_units rest
      else match n with
           | Whole z => if (0 <=? z) && (z <=? MAX_REPORTED_UNITS) then counts ← validated_units rest; Some ((name, z) :: counts)
                        else None
           | NotWhole => None
           end
  end.

Definition per_million (m : ModelPricing) : option Q := to_decimal (input_price_per_million (columns m)).
Definition _request_rate (m : ModelPricing) : option Q := rate ← per_million m; Some (meter_cost 1 rate).
Definition _image_rate (m : ModelPricing) : option Q := rate ← per_million m; Some (meter_cost 1 rate).

Definition _per_unit (name : string) (n : Z) (rate : option Q) : option UsageCharge :=
  r ← rate;
  let c := quantize_cost (inject_Z n * r) in
  Some (if bool_decide (c = 0) then no_charge
        else mkCharge c [(name, inject_Z n)]
               [mkLine (if bool_decide (name = "requests") then "request" else name) (inject_Z n) None (PerUnit r) (micro c)]).

(** The entries of a row's tiers are objects: any other raises, though not a [ValueError]. *)
Definition tier_prices (t : Tier) : list raw := [tier_input t; tier_output t; tier_cache_read t; tier_cache_write t].
Definition _free (m : ModelPricing) (input_rate : Q) : option bool :=
  if negb (Qeq_bool input_rate 0) then Some false
  else
    let p := columns m in
    tiers ← mapM id (default [] (pricing_tiers p));
    Some (forallb is_free ([output_price_per_million p; cache_read_price_per_million p; cache_write_price_per_million p]
                           ++ (tiers ≫= tier_prices))
          && block_is_free (block m)).

Definition token_meters (r : Rates) (u : BillableUsage) : list (string * Q) :=
  [("total_input_tokens", inject_Z (total_input_tokens u)); ("fresh_input_tokens", inject_Z (fresh_input_tokens r u));
   ("cache_read_tokens", inject_Z (cache_read_tokens u)); ("cache_write_tokens", inject_Z (cache_write_tokens u));
   ("cache_write_1h_tokens", inject_Z (cache_write_1h_tokens u)); ("completion_tokens", inject_Z (completion_tokens u))].

Definition token_charge (p : Pricing) (u : BillableUsage) : option UsageCharge :=
  c ← price_billable_usage p u; r ← effective_rates p (total_input_tokens u); Some (mkCharge c.1 (token_meters r u) c.2).

Definition no_tokens (tokens : option BillableUsage) : bool :=
  match tokens with None => true | Some t => (total_input_tokens t <=? 0) && (completion_tokens t <=? 0) end.

Definition _charge_tokens (m : ModelPricing) (counts : list (string * Z)) (tokens : option BillableUsage)
    : option (option UsageCharge) :=
  match per_million m with
  | None => Some None
  | Some input_rate =>
      match tokens, no_tokens tokens with
      | Some t, false => Some <$> token_charge (columns m) t
      | _, _ => free ← _free m input_rate; Some (if free : bool then Some no_charge else None)
      end
  end.

Definition _charge_requests (m : ModelPricing) (counts : list (string * Z)) (tokens : option BillableUsage)
    : option (option UsageCharge) :=
  let name := default "requests" (find (fun k => is_set (assoc k counts)) ["requests"; "search_units"]) in
  Some (_per_unit name (default 1 (assoc name counts)) (_request_rate m)).

Definition _charge_images (m : ModelPricing) (counts : list (string * Z)) (tokens : option BillableUsage)
    : option (option UsageCharge) :=
  Some (n ← assoc "images" counts; _per_unit "images" n (_image_rate m)).

Record Meter := mkMeter {
  reads : list string;
  reads_tokens : bool;
  needs_report : bool;
  settles_completion : bool;
  charge_with : ModelPricing -> list (string * Z) -> option BillableUsage -> option (option UsageCharge)
}.

Definition admits (row : Meter) (name : option string) (reports_tokens : bool) : bool :=
  negb (needs_report row) || match name with Some n => bool_decide (n ∈ reads row) | None => false end
  || (reads_tokens row && reports_tokens).

Definition METERS : list (string * Meter) :=
  [("token", mkMeter [] true true true _charge_tokens);
   ("request", mkMeter ["requests"; "search_units"] false false true _charge_requests);
   ("image", mkMeter ["images"] false true true _charge_images)].

Definition meter_for (m : ModelPricing) : option Meter :=
  assoc (match unit_name (columns m) with None | Some "" => "token" | Some u => u end) METERS.

Definition _measured_slot (m : ModelPricing) (slot : Slot) : option PriceUnit :=
  found ← slot_rate (Some m) slot.1 slot.2; if bool_decide (rate_unit found ∈ MEASURED_UNITS) then Some (rate_unit found) else None.

Definition price_usage (rate : option ModelPricing) (tokens : option BillableUsage) (report : list (string * count))
    (q : Quantities) (slot : option Slot) : option (option UsageCharge) :=
  counts ← validated_units report;
  match rate with
  | None => Some None
  | Some m =>
      match slot, s ← slot; _measured_slot m s with
      | Some s, Some _ => price_slot (Some m) s.1 s.2 q
      | _, _ => match meter_for m with Some row => charge_with row m counts tokens | None => Some None end
      end
  end.

Definition has_completion_meter (rate : option ModelPricing) : bool :=
  match rate with None => false | Some m => match meter_for m with Some row => settles_completion row | None => false end end.
Definition estimate_settles (rate : option ModelPricing) : bool := negb (is_set rate) || has_completion_meter rate.

Definition price_completion (m : ModelPricing) (usage : option GatewayUsage) (succeeded : bool)
    : option (option (Z * list ChargeLine)) :=
  if priced_per_request (columns m) then (if succeeded then Some <$> price_request (columns m) else Some None)
  else match usage with
       | Some u => if has_completion_meter (Some m) then Some <$> calculate_metered_cost (columns m) u else Some None
       | None => Some None
       end.

(** What [_free] raises on a malformed tier is raised from here too. *)
Definition can_price (rate : option ModelPricing) (name : option string) (reports_tokens : bool)
    (slot : option Slot) (measures : list PriceUnit) : option bool :=
  match rate, m ← rate; per_million m with
  | Some m, Some input_rate =>
      match s ← slot; _measured_slot m s with
      | Some found => Some (bool_decide (found ∈ measures))
      | None =>
          match meter_for m with
          | None => Some false
          | Some row =>
              if admits row name reports_tokens then Some true
              else if reads_tokens row then _free m input_rate else Some false
          end
      end
  | _, _ => Some false
  end.

Definition request_rate (rate : option ModelPricing) : Q := default 0%Q (m ← rate; _request_rate m).

(** [billed_units.get("search_units")], absent or not finite alike. *)
Definition billed_search_units (reported : raw) : Z :=
  match reported with
  | NoNumber => 1
  | Number q => if Qle_bool q 0 then 1 else Z.min (Qceiling q) MAX_REPORTED_UNITS
  end.

Definition flat_request_cost (rate : option ModelPricing) : Q := request_rate rate.
Definition search_unit_cost (n : Z) (rate : option ModelPricing) : Q := (inject_Z (Z.max n 0) * request_rate rate)%Q.
Definition priced_per_request_of (rate : option ModelPricing) : bool :=
  match rate with Some m => priced_per_request (columns m) | None => false end.
Definition metered_search_units (rate : option ModelPricing) (reported : raw) : option Z :=
  if priced_per_request_of rate then Some (billed_search_units reported) else None.

(** ** What a request holds *)

Definition prompt_tokens_of (prompt_chars : Z) : Z := (Z.max prompt_chars 0 + 3) / 4.
Definition output_tokens_of (max_output_tokens : option Z) (default_output_tokens : Z) : Z :=
  Z.max (default default_output_tokens max_output_tokens) 0.

Definition estimate_cost (rate : option ModelPricing) (prompt_chars : Z) (max_output_tokens : option Z)
    (default_output_tokens : Z) (ttl : option cache_ttl) : option Z :=
  match rate with
  | Some m =>
      if has_completion_meter (Some m) then
        estimate_metered_cost (columns m) (prompt_tokens_of prompt_chars)
          (output_tokens_of max_output_tokens default_output_tokens) ttl None
      else Some 0
  | None => Some 0
  end.

(** Whether an estimate at the rate assumes output tokens a lower limit could shrink ([Moves.get_reserved_output_tokens]). *)
Definition output_sized (rate : option ModelPricing) : bool :=
  match rate with
  | Some m => has_completion_meter rate && negb (priced_per_request (columns m))
              && match output_price_per_million (columns m) with Number q => negb (Qle_bool q 0) | NoNumber => false end
  | None => false
  end.

(** A quotient rounded up; the sizes are far below those at which the source's floats would lose one. *)
Definition ceil_div (n d : Z) : Z := - ((- n) / d).
Definition rerank_chunks (query_chars chars : Z) : Z := Z.max 1 (ceil_div (query_chars + chars) 2000).

(** Exact until it is held; a search unit's amount is not rounded here. *)
Definition rerank_estimate (rate : option ModelPricing) (query_chars : Z) (document_chars : list Z) : option Q :=
  if priced_per_request_of rate then
    let chunks := sumZ (rerank_chunks query_chars) document_chars in
    Some (search_unit_cost (Z.max 1 (ceil_div chunks 100)) rate)
  else micro <$> estimate_cost rate (query_chars + sumZ id document_chars) None 0 None.

Definition held (charged : option (option UsageCharge)) : option Z :=
  c ← charged; Some (match c with Some c => cost c | None => 0 end).
Definition clamped (n : Z) : Z := Z.min (Z.max n 0) MAX_REPORTED_UNITS.

Definition count_estimate (rate : option ModelPricing) (name : string) (n : Z) : option Z :=
  held (price_usage rate None [(name, Whole (clamped n))] (fun _ => None) None).

Definition report_estimate (rate : option ModelPricing) (slot : option Slot) (q : Quantities) (report : list (string * Z))
    : option Z :=
  held (price_usage rate None ((fun kv => (kv.1, Whole (clamped kv.2))) <$> report)
          (fun u => n ← q u; Some (estimated n)) slot).
