(* ===== verification/UsagePricingProofs.v ===== *)
(** A rate that is admitted is one settlement prices, and what it settles at past a hold is the price of what was counted
    past the estimate. *)
From Stdlib Require Import ZArith QArith Qround Lia Lqa.
From stdpp Require Import base strings list sets sorting.
From S2P Require Import Prelude Text MeteredPricing PricingBounds UsagePricing.

Local Open Scope Z_scope.

(** ** Completions *)

Lemma request_cost_nonneg p x : request_cost p = Some x -> (0 <= x)%Q.
Proof.
  unfold request_cost. destruct (to_decimal _) as [r|] eqn:E; [|done]. intros [= <-]. apply (meter_cost_nonneg 1); [lia|].
  by eapply to_decimal_nonneg.
Qed.

Lemma billable_usage_of_ok u : usage_ok (billable_usage_of u).
Proof. apply billable_usage_ok. Qed.

Lemma effective_rates_some p n i o : to_decimal (input_price_per_million p) = Some i -> to_decimal (output_price_per_million p) = Some o ->
  exists r, effective_rates p n = Some r.
Proof.
  intros Hi Ho. unfold effective_rates, rate_at, overridden.
  destruct (applicable_tier _ _) as [t|]; [destruct (to_decimal (tier_input t)), (to_decimal (tier_output t))|];
    rewrite ?Hi, ?Ho; simpl; by eexists.
Qed.

(** C27: What a completion settles at, beside its hold, is explained by its counts.  At a flat rate it is the hold exactly.  At
    a token rate it is never more than what these very counts would have held, with a one-hour cache write announced; and where
    the provider billed the tier the estimate read and wrote to the cache only for the time announced, it is within
    the hold when it counted no more than the estimate did - the prompt by its characters, the output by its limit - and is
    past it by the price of the tokens counted past the estimate otherwise, to a micro-dollar. *)
Theorem completion_overrun_is_priced m chars limit default_output ttl u i o :
  let b := billable_usage_of u in
  let prompt := prompt_tokens_of chars in
  let output := output_tokens_of limit default_output in
  to_decimal (input_price_per_million (columns m)) = Some i -> to_decimal (output_price_per_million (columns m)) = Some o ->
  has_completion_meter (Some m) = true ->
  exists est c lines, estimate_cost (Some m) chars limit default_output ttl = Some est
  /\ price_completion m (Some u) true = Some (Some (c, lines)) /\ 0 <= c
  /\ if priced_per_request (columns m) then c = est
     else (exists bound, estimate_metered_cost (columns m) (total_input_tokens b) (completion_tokens b) (Some OneHour) None = Some bound /\ c <= bound)
       /\ forall r, announced ttl b -> effective_rates (columns m) (total_input_tokens b) = Some r -> effective_rates (columns m) prompt = Some r ->
            (total_input_tokens b <= prompt -> completion_tokens b <= output -> c <= est)
            /\ (micro c <= micro est
                 + (meter_cost (inject_Z (Z.max 0 (total_input_tokens b - prompt))) (dearest (input_rate r) (input_candidates r ttl))
                    + meter_cost (inject_Z (Z.max 0 (completion_tokens b - output))) (output_rate r)) + (1 # 1000000))%Q.
Proof.
  intros b prompt output Hi Ho Hm. unfold estimate_cost, price_completion. rewrite Hm. destruct (priced_per_request (columns m)) eqn:Hp.
  - unfold estimate_metered_cost. rewrite Hp. unfold price_request, request_cost. rewrite Hi. simpl. eexists _, _, _. split_and!; [done..| |done].
    apply quantize_cost_nonneg, (meter_cost_nonneg 1); [lia|]. by eapply to_decimal_nonneg.
  - assert (0 <= prompt) as Hprompt by (apply Z.div_pos; lia).
    destruct (effective_rates_some (columns m) prompt i o Hi Ho) as [re Hre].
    destruct (effective_rates_some (columns m) (total_input_tokens b) i o Hi Ho) as [rb Hrb].
    assert (exists est, estimate_metered_cost (columns m) prompt output ttl None = Some est) as [est Hest].
    { unfold estimate_metered_cost. rewrite Hp.
      replace (if negb (bool_decide _) then None else None) with (@None Q) by (by destruct (negb _)).
      rewrite (Z.max_l prompt), Hre by lia. by eexists. }
    assert (exists bound, estimate_metered_cost (columns m) (total_input_tokens b) (completion_tokens b) (Some OneHour) None = Some bound) as [bound Hbound].
    { pose proof (billable_usage_of_ok u) as [? ? ? ?]. unfold estimate_metered_cost. rewrite Hp.
      replace (if negb (bool_decide _) then None else None) with (@None Q) by (by destruct (negb _)).
      rewrite (Z.max_l (total_input_tokens b)), Hrb by (unfold b; lia). by eexists. }
    assert (announced (Some OneHour) b) as Hall by done.
    destruct (metered_within_estimate _ _ (Some OneHour) _ _ bound Hp (billable_usage_of_ok u) Hall (Z.le_refl _) (Z.le_refl _) eq_refl Hbound)
      as (c & ls & Hc & Hb).
    exists est, c, ls. unfold calculate_metered_cost. fold b in Hc |- *. rewrite Hc. split_and!; [done|done|lia|exists bound; split; [done|lia]|].
    intros r Ha Hr1 Hr2. split.
    + intros Hin Hout. destruct (metered_within_estimate _ _ ttl _ _ est Hp (billable_usage_of_ok u) Ha Hin Hout (eq_trans Hr1 (eq_sym Hr2)) Hest)
        as (c' & ls' & Hc' & Hb'). fold b in Hc'. rewrite Hc in Hc'. injection Hc' as -> _. lia.
    + destruct (metered_overrun (columns m) b ttl prompt output r Hp (billable_usage_of_ok u) Ha) as (est' & c' & ls' & He' & Hc' & Hle);
        [done|unfold output, output_tokens_of; lia|done|done|].
      rewrite Hest in He'. injection He' as <-. rewrite Hc in Hc'. injection Hc' as <- _. exact Hle.
Qed.

Definition claude : ModelPricing := mkModelPricing claude_row None.

Lemma completion_overrun_is_priced_witness :
  let u := mkGatewayUsage (Some 300) (Some 20) (Some (10, 60, 20, true)) None in
  estimate_cost (Some claude) 800 (Some 280) 4096 (Some OneHour) = Some 5400
  /\ exists est c lines, estimate_cost (Some claude) 800 (Some 280) 4096 (Some OneHour) = Some est
     /\ price_completion claude (Some u) true = Some (Some (c, lines)) /\ 0 <= c.
Proof.
  intros u. split; [by vm_compute|].
  destruct (completion_overrun_is_priced claude 800 (Some 280) 4096 (Some OneHour) u 3 15) as (est & c & ls & H1 & H2 & H3 & _); [reflexivity..|].
  by exists est, c, ls.
Defined.

(** ** The pricing gate *)

Lemma assoc_in {A} k (v : A) l : assoc k l = Some v -> (k, v) ∈ l.
Proof.
  unfold assoc. destruct (find _ l) as [[k' v']|] eqn:E; [|done]. simpl. intros [= <-].
  apply find_some in E as [Hin Hk]. apply bool_decide_eq_true in Hk. simpl in Hk. subst. by apply list_elem_of_In.
Qed.

Lemma meter_for_rows m row : meter_for m = Some row ->
  row = mkMeter [] true true true _charge_tokens \/
  row = mkMeter ["requests"; "search_units"]%string false false true _charge_requests \/
  row = mkMeter ["images"]%string false true true _charge_images.
Proof.
  intros H%assoc_in. unfold METERS in H. rewrite !elem_of_cons, elem_of_nil in H.
  destruct H as [[= _ ->]|[[= _ ->]|[[= _ ->]|[]]]]; auto.
Qed.

Lemma per_unit_prices name n m rate : per_million m = Some rate ->
  exists c, _per_unit name n (_request_rate m) = Some c /\ _per_unit name n (_image_rate m) = Some c.
Proof. intros H. unfold _request_rate, _image_rate. rewrite H. simpl. by eexists. Qed.

Lemma token_charge_some p u i o : to_decimal (input_price_per_million p) = Some i -> to_decimal (output_price_per_million p) = Some o ->
  exists c, token_charge p u = Some c.
Proof.
  intros Hi Ho. destruct (effective_rates_some p (total_input_tokens u) i o Hi Ho) as [r Hr].
  unfold token_charge, price_billable_usage, price_meters. rewrite Hr. simpl. by eexists.
Qed.

Lemma price_slot_some m s found q n : _measured_slot m s = Some found -> q found = Some n -> (0 <= n)%Q ->
  exists c, price_slot (Some m) s.1 s.2 q = Some (Some c).
Proof.
  unfold _measured_slot, price_slot. destruct (slot_rate _ _ _) as [r|]; [|done]. simpl. destruct (bool_decide _); [|done].
  intros [= <-] Hq Hn. rewrite Hq. unfold charge_unit, rate_cost, unit_cost. rewrite (proj2 (Qle_bool_iff 0 n)) by done.
  simpl. by eexists.
Qed.

Lemma price_usage_by_slot m tokens report q s counts found :
  validated_units report = Some counts -> _measured_slot m s = Some found ->
  price_usage (Some m) tokens report q (Some s) = price_slot (Some m) s.1 s.2 q.
Proof. intros Hv Hs. unfold price_usage. rewrite Hv. simpl. by rewrite Hs. Qed.

Lemma price_usage_by_meter m tokens report q slot counts row :
  validated_units report = Some counts -> (s ← slot; _measured_slot m s) = None -> meter_for m = Some row ->
  price_usage (Some m) tokens report q slot = charge_with row m counts tokens.
Proof.
  intros Hv Hs Hrow. unfold price_usage. rewrite Hv. simpl. destruct slot as [s|]; simpl in *; [rewrite Hs|]; by rewrite Hrow.
Qed.

Lemma charge_tokens_free m counts tokens i : per_million m = Some i -> no_tokens tokens = true ->
  _charge_tokens m counts tokens = (free ← _free m i; Some (if free : bool then Some no_charge else None)).
Proof. intros Hi Ht. unfold _charge_tokens. rewrite Hi. destruct tokens as [t|]; [|done]. by rewrite Ht. Qed.

(** An attempt that reports what the gate was told it would. *)
Record reports (name : option string) (reports_tokens : bool) (measures : list PriceUnit)
    (counts : list (string * Z)) (tokens : option BillableUsage) (q : Quantities) : Prop := {
  reports_meter : forall k, name = Some k -> is_Some (assoc k counts);
  reports_billed : reports_tokens = true -> no_tokens tokens = false;
  reports_measured : forall u, u ∈ measures -> exists n, q u = Some n /\ (0 <= n)%Q
}.

(** A rate the pricing gate admits is one settlement prices: an attempt that reports the meter, the tokens and the
    measures it was admitted for is charged. *)
Theorem admitted_rate_is_priced m o name reports_tokens slot measures report counts tokens q :
  can_price (Some m) name reports_tokens slot measures = Some true ->
  to_decimal (output_price_per_million (columns m)) = Some o ->
  validated_units report = Some counts -> reports name reports_tokens measures counts tokens q ->
  exists c, price_usage (Some m) tokens report q slot = Some (Some c).
Proof.
  intros Hg Ho Hv [R1 R2 R3]. unfold can_price in Hg.
  change (m0 ← Some m; per_million m0) with (per_million m) in Hg. destruct (per_million m) as [i|] eqn:Hi; [|done].
  destruct (s ← slot; _measured_slot m s) as [found|] eqn:Hs.
  - destruct slot as [s|]; [|done]. simpl in Hs. injection Hg as Hf%bool_decide_eq_true.
    destruct (R3 _ Hf) as (n & Hq & Hn). simpl in Hs. rewrite (price_usage_by_slot _ _ _ _ _ _ _ Hv Hs).
    by eapply price_slot_some.
  - destruct (meter_for m) as [row|] eqn:Hrow; [|done].
    rewrite (price_usage_by_meter _ _ _ _ _ _ _ Hv Hs Hrow).
    destruct (meter_for_rows _ _ Hrow) as [-> | [-> | ->]];
      unfold admits in Hg; cbn [reads needs_report reads_tokens charge_with negb orb andb] in *.
    + destruct (no_tokens tokens) eqn:Et.
      * rewrite (charge_tokens_free _ _ _ _ Hi Et). destruct reports_tokens; [discriminate (R2 eq_refl)|].
        destruct name as [k|]; [rewrite bool_decide_eq_false_2 in Hg by set_solver|]; simpl in Hg; rewrite Hg; by eexists.
      * destruct tokens as [t|]; [|done]. unfold _charge_tokens. rewrite Hi, Et.
        destruct (token_charge_some (columns m) t i o Hi Ho) as [c ->]. by exists c.
    + destruct (per_unit_prices (default "requests"%string (find (fun k => is_set (assoc k counts)) ["requests"; "search_units"]%string))
                  (default 1 (assoc (default "requests"%string (find (fun k => is_set (assoc k counts)) ["requests"; "search_units"]%string)) counts))
                  m i Hi) as (c & Hc & _).
      exists c. unfold _charge_requests. by rewrite Hc.
    + destruct name as [k|]; [|done]. destruct (bool_decide_reflect (k ∈ ["images"%string])) as [->%list_elem_of_singleton|]; [|by simpl in Hg].
      destruct (R1 _ eq_refl) as [n Hn]. destruct (per_unit_prices "images" n m i Hi) as (c & _ & Hc). exists c.
      unfold _charge_images. rewrite Hn. simpl. by rewrite Hc.
Qed.

Definition image_row : ModelPricing :=
  mkModelPricing (mkPricing None (Some "image"%string) (Number 40000) (Number 0) NoNumber NoNumber None) None.

Lemma admitted_rate_is_priced_witness :
  exists c, price_usage (Some image_row) None [("images"%string, Whole 3)] (fun _ => None) None = Some (Some c).
Proof.
  apply (admitted_rate_is_priced image_row 0 (Some "images"%string) false None [] [("images"%string, Whole 3)]
           [("images"%string, 3)] None (fun _ => None)); [reflexivity..|].
  split; [intros k [= <-]; by eexists|done|by intros u ?%elem_of_nil].
Defined.

(** ** What a request says it will report *)

Lemma validated_clamped (report : list (string * Z)) :
  exists counts, validated_units ((fun kv => (kv.1, Whole (clamped kv.2))) <$> report) = Some counts.
Proof.
  induction report as [|[k z] l [counts IH]]; [by eexists|]. rewrite fmap_cons. cbn [validated_units fst snd].
  destruct (negb _); [by exists counts|].
  assert (H : 0 <= clamped z <= MAX_REPORTED_UNITS) by (unfold clamped, MAX_REPORTED_UNITS; lia).
  rewrite (proj2 (Z.leb_le _ _) (proj1 H)), (proj2 (Z.leb_le _ _) (proj2 H)), IH. simpl. by eexists.
Qed.

Lemma validated_counts report counts : validated_units report = Some counts -> Forall (fun kv => 0 <= kv.2) counts.
Proof.
  revert counts. induction report as [|[k n] l IH]; simpl; intros counts; [by intros [= <-]|].
  destruct (negb _); [apply IH|]. destruct n as [z|]; [|done]. destruct ((0 <=? z) && _) eqn:E; [|done].
  destruct (validated_units l) as [cs|]; [|done]. intros [= <-]. constructor; [|by apply IH]. simpl. lia.
Qed.

Lemma mul_nonneg x y : (0 <= x)%Q -> (0 <= y)%Q -> (0 <= x * y)%Q.
Proof. intros. by apply Qmult_le_0_compat. Qed.
Lemma inject_nonneg n : 0 <= n -> (0 <= inject_Z n)%Q.
Proof. intros. change 0%Q with (inject_Z 0). by rewrite <- Zle_Qle. Qed.

Lemma per_unit_nonneg name n rate c : 0 <= n -> (forall r, rate = Some r -> 0 <= r)%Q -> _per_unit name n rate = Some c -> 0 <= cost c.
Proof.
  intros Hn Hr. unfold _per_unit. destruct rate as [r|]; [|done]. simpl. intros [= <-]. destruct (bool_decide _); simpl; [lia|].
  apply quantize_cost_nonneg, mul_nonneg; [by apply inject_nonneg|auto].
Qed.

Lemma request_rate_nonneg m r : _request_rate m = Some r -> (0 <= r)%Q.
Proof. apply request_cost_nonneg. Qed.

Lemma unit_rate_nonneg p k ttl r : unit_rate p k ttl = Some r -> (0 <= unit_price r)%Q.
Proof.
  unfold unit_rate. destruct (models_dev_unit _); [|done]. simpl. destruct (to_decimal _) as [q|] eqn:E; [|done].
  simpl. intros [= <-]. by eapply to_decimal_nonneg.
Qed.

Lemma rate_cost_nonneg r n x : (0 <= unit_price r)%Q -> rate_cost r n = Some x -> (0 <= x)%Q.
Proof.
  unfold rate_cost, unit_cost. intros Hr. destruct (Qle_bool 0 n) eqn:E; [|done]. apply Qle_bool_iff in E. intros [= <-].
  apply mul_nonneg; [by apply mul_nonneg|]. apply Qinv_le_0_compat. done.
Qed.

Lemma slot_rate_nonneg rate md d r : slot_rate rate md d = Some r -> (0 <= unit_price r)%Q.
Proof.
  unfold slot_rate. destruct rate as [m|]; [|done]. simpl. destruct (block m) as [b|]; [|done]. simpl.
  destruct (slot_price b md d) as [p|]; [|done]. simpl. apply unit_rate_nonneg.
Qed.

(** Every quantity and count a charge is made of is one. *)
Lemma price_slot_charges rate md d q : (forall u n, q u = Some n -> 0 <= n)%Q ->
  exists c, price_slot rate md d q = Some c /\ 0 <= (if c is Some c then cost c else 0).
Proof.
  intros Hq. unfold price_slot. destruct (slot_rate rate md d) as [r|] eqn:Er; [|by exists None].
  destruct (q (rate_unit r)) as [n|] eqn:En; [|by exists None]. pose proof (slot_rate_nonneg _ _ _ _ Er) as Hr.
  unfold charge_unit. destruct (rate_cost r n) as [x|] eqn:Ex.
  - simpl. eexists. split; [done|]. pose proof (rate_cost_nonneg _ _ _ Hr Ex). simpl. destruct (bool_decide _); simpl; [lia|].
    by apply quantize_cost_nonneg.
  - unfold rate_cost, unit_cost in Ex. by rewrite (proj2 (Qle_bool_iff 0 n)) in Ex by (by eapply Hq).
Qed.

(** Every entry of a row's tiers is an object. *)
Definition tiers_readable (m : ModelPricing) : Prop := is_Some (mapM id (default [] (pricing_tiers (columns m)))).

Lemma charge_with_charges m row counts : meter_for m = Some row -> tiers_readable m -> Forall (fun kv => 0 <= kv.2) counts ->
  exists c, charge_with row m counts None = Some c /\ 0 <= (if c is Some c then cost c else 0).
Proof.
  intros Hrow [ts Ht] Hc.
  assert (Hcount : forall k n, assoc k counts = Some n -> 0 <= n).
  { intros k n ?%assoc_in. rewrite Forall_forall in Hc. by apply (Hc (k, n)). }
  destruct (meter_for_rows _ _ Hrow) as [-> | [-> | ->]]; cbn [charge_with].
  - unfold _charge_tokens. destruct (per_million m) as [i|]; [|by exists None]. simpl. unfold _free. rewrite Ht.
    destruct (negb _); simpl; [by exists None|]. destruct (_ && _); [by exists (Some no_charge)|by exists None].
  - unfold _charge_requests. set (name := default _ _). eexists. split; [done|].
    destruct (_per_unit _ _ _) as [c|] eqn:E; [|done]. eapply per_unit_nonneg; [|by apply request_rate_nonneg|exact E].
    destruct (assoc name counts) as [n|] eqn:En; simpl; [by eapply Hcount|lia].
  - unfold _charge_images. eexists. split; [done|]. destruct (assoc "images" counts) as [n|] eqn:En; [|done]. simpl.
    destruct (_per_unit _ _ _) as [c|] eqn:E; [|done]. eapply per_unit_nonneg; [by eapply Hcount| |exact E].
    intros r. apply (request_rate_nonneg m).
Qed.

Lemma price_usage_charges m report counts q slot :
  tiers_readable m -> validated_units report = Some counts -> (forall u n, q u = Some n -> 0 <= n)%Q ->
  exists c, price_usage (Some m) None report q slot = Some c /\ 0 <= (if c is Some c then cost c else 0).
Proof.
  intros Ht Hv Hq. destruct (s ← slot; _measured_slot m s) as [found|] eqn:Hs.
  - destruct slot as [s|]; [|done]. rewrite (price_usage_by_slot _ _ _ _ _ _ _ Hv Hs). by apply price_slot_charges.
  - destruct (meter_for m) as [row|] eqn:Hrow.
    + rewrite (price_usage_by_meter _ _ _ _ _ _ _ Hv Hs Hrow). apply charge_with_charges; [done|done|by eapply validated_counts].
    + exists None. split; [|done]. unfold price_usage. rewrite Hv. simpl. destruct slot as [s|]; simpl in *; [rewrite Hs|]; by rewrite Hrow.
Qed.

Lemma estimated_nonneg n : (0 <= estimated n)%Q.
Proof. unfold estimated. destruct (Qle_bool 0 n) eqn:E; [by apply Qle_bool_iff|lra]. Qed.

Lemma price_slot_ext rate md d q q' : (forall u, q u = q' u) -> price_slot rate md d q = price_slot rate md d q'.
Proof. intros H. unfold price_slot. destruct (slot_rate _ _ _); [|done]. by rewrite H. Qed.

Lemma price_usage_ext rate tokens report q q' slot : (forall u, q u = q' u) ->
  price_usage rate tokens report q slot = price_usage rate tokens report q' slot.
Proof.
  intros H. unfold price_usage. destruct (validated_units report); [|done]. simpl. destruct rate as [m|]; [|done].
  destruct slot as [s|]; [|done]. simpl. destruct (_measured_slot m s); [by apply price_slot_ext|done].
Qed.

Lemma clamped_in_range (report : list (string * Z)) : Forall (fun kv => 0 <= kv.2 <= MAX_REPORTED_UNITS) report ->
  (fun kv => (kv.1, Whole (clamped kv.2))) <$> report = (fun kv => (kv.1, Whole kv.2)) <$> report.
Proof.
  induction 1 as [|[k z] l H _ IH]; [done|]. rewrite !fmap_cons, IH. simpl in *. do 3 f_equal. unfold clamped. lia.
Qed.

(** What a request says it will report is held, never refused and never a credit, whatever it says; and a report
    in range settles at exactly what was held for it. *)
Theorem report_estimate_settles m slot q report : tiers_readable m ->
  exists h, report_estimate (Some m) slot q report = Some h /\ 0 <= h
  /\ (Forall (fun kv => 0 <= kv.2 <= MAX_REPORTED_UNITS) report -> (forall u n, q u = Some n -> 0 <= n)%Q ->
      held (price_usage (Some m) None ((fun kv => (kv.1, Whole kv.2)) <$> report) q slot) = Some h).
Proof.
  intros Ht. destruct (validated_clamped report) as [counts Hv].
  destruct (price_usage_charges m _ counts (fun u => n ← q u; Some (estimated n)) slot Ht Hv) as (c & Hc & H0).
  { intros u n. destruct (q u) as [x|]; [|done]. simpl. intros [= <-]. apply estimated_nonneg. }
  exists (if c is Some c then cost c else 0). unfold report_estimate. rewrite Hc. split; [done|]. split; [done|].
  intros Hr Hq. rewrite <- clamped_in_range by done. rewrite (price_usage_ext _ _ _ q (fun u => n ← q u; Some (estimated n))).
  - by rewrite Hc.
  - intros u. destruct (q u) as [n|] eqn:E; [|done]. simpl. unfold estimated.
    by rewrite (proj2 (Qle_bool_iff 0 n)) by (by eapply Hq).
Qed.

Lemma report_estimate_settles_witness :
  exists h, report_estimate (Some image_row) None (fun _ => None) [("images"%string, -4)] = Some h /\ 0 <= h.
Proof.
  destruct (report_estimate_settles image_row None (fun _ => None) [("images"%string, -4)]) as (h & H1 & H2 & _);
    [by eexists|by exists h].
Defined.
