(* ===== verification/ToolPricing.v ===== *)
(** What a request's gateway-run tool calls cost ([src/src/gateway/services/pricing/_tool_pricing.py]
    and the call records of [src/src/gateway/types/tool_charges.py]).

    A dict keyed by insertion is the list of its entries in that order.  [unit_rate] and
    [tool_unit_rates] are the quotients before the decimal context or [float] narrows them. *)
From S2P Require Import Prelude Text MeteredPricing PricingBounds.
From Stdlib Require Import ZArith QArith Qround Lia Lqa String.
From stdpp Require Import base strings list sorting.


Local Open Scope string_scope.
Local Open Scope Z_scope.

(** ** Keys *)

Definition GATEWAY_TOOL_PRICING_PROVIDER : string := "otari".
Definition ORGANIZATION_KEY_LABEL_PREFIX : string := "org:".
Definition PROVIDER_WEB_SEARCH_TOOL : string := "web_search".

Inductive instance_kind := SearchKind | FetchKind.
#[export] Instance instance_kind_eq_dec : EqDecision instance_kind.
Proof. solve_decision. Defined.

Inductive RateKey := ModelKey (key : string) | InstanceRateKey (kind : instance_kind) (name : string) (legacy_key : option string).
#[export] Instance RateKey_eq_dec : EqDecision RateKey.
Proof. solve_decision. Defined.

Definition gateway_tool_pricing_key (tool : string) : string := GATEWAY_TOOL_PRICING_PROVIDER +:+ ":" +:+ tool.
Definition provider_web_search_label (provider : string) : string := provider +:+ ":" +:+ PROVIDER_WEB_SEARCH_TOOL.
Definition instance_rate_key (kind : instance_kind) (name provider : string) : RateKey :=
  InstanceRateKey kind name (Some (provider +:+ ":" +:+ name)).

Record LabelCalls := mkCalls {
  tool : string;
  label : option string;
  rate_keys : option (list RateKey);
  calls : Z;
  unreported_calls : Z;
  reported_cost : Q;
  deployment_paid : option bool
}.

Record ToolRateLookup := mkLookup { lookup_keys : list RateKey; operator_set_only : bool }.

Definition model_search_rate (rate : option UnitRate) : option Q := found ← rate; rate_cost found 1.

(** ** One label *)

Definition paid_by_the_deployment (l : option string) : bool :=
  match l with
  | None => false
  | Some l => negb (starts_with ORGANIZATION_KEY_LABEL_PREFIX l || starts_with (GATEWAY_TOOL_PRICING_PROVIDER +:+ ":") l)
  end.
Definition _deployment_paid (entry : LabelCalls) : bool :=
  match deployment_paid entry with Some b => b | None => paid_by_the_deployment (label entry) end.

Definition tool_rate_lookup (entry : LabelCalls) : option ToolRateLookup :=
  if (calls entry <=? 0) || (unreported_calls entry <=? 0) then None
  else Some (mkLookup (default [ModelKey (gateway_tool_pricing_key (tool entry))] (rate_keys entry)) (_deployment_paid entry)).

(** ** A request's calls *)

(** [d[k] = f(d.get(k))] *)
Fixpoint upsert {K V} `{EqDecision K} (k : K) (f : option V -> V) (l : list (K * V)) : list (K * V) :=
  match l with
  | [] => [(k, f None)]
  | (k', v) :: l => if decide (k' = k) then (k', f (Some v)) :: l else (k', v) :: upsert k f l
  end.

Record UnpricedToolLabel := mkUnpriced { un_tool : string; un_label : string; un_key : RateKey; un_calls : Z }.
Record ToolLine := mkToolLine {
  tool_meter : string; tool_label : string; tool_units : Z; unit_rate : Q; tool_cost : Q; paid : bool
}.
Record ToolCharges := mkToolCharges {
  total : Z; tool_lines : list ToolLine; tool_unit_rates : list (string * Q);
  unpriced : list UnpricedToolLabel; deployment_paid_total : Z
}.

Section charge.
(** The rate the lookup found, USD per call. *)
Context (rates : ToolRateLookup -> option Q).

Notation line_key := (string * string * bool)%type (only parsing).
Definition label_of (entry : LabelCalls) : string := default (gateway_tool_pricing_key (tool entry)) (label entry).
Definition found_rate (entry : LabelCalls) : option Q := l ← tool_rate_lookup entry; rates l.
Definition entry_cost (entry : LabelCalls) : Q :=
  (reported_cost entry + inject_Z (unreported_calls entry) * default 0 (found_rate entry))%Q.

Definition add_to (n : Z) (c : Q) (v : option (Z * Q)) : Z * Q :=
  let '(n0, c0) := default (0, 0%Q) v in (n0 + n, (c0 + c)%Q).

Definition step_label (acc : list (line_key * (Z * Q))) (entry : LabelCalls) : list (line_key * (Z * Q)) :=
  if calls entry <=? 0 then acc
  else upsert (tool entry, label_of entry, _deployment_paid entry) (add_to (calls entry) (entry_cost entry)) acc.

Definition step_unpriced (acc : list (string * string * RateKey * UnpricedToolLabel)) (entry : LabelCalls)
    : list (string * string * RateKey * UnpricedToolLabel) :=
  if calls entry <=? 0 then acc
  else match tool_rate_lookup entry with
       | Some (mkLookup (first :: _) _) =>
           if is_set (found_rate entry) then acc
           else upsert (tool entry, label_of entry, first)
                  (fun v => mkUnpriced (tool entry) (label_of entry) first
                              (unreported_calls entry + match v with Some p => un_calls p | None => 0 end)) acc
       | _ => acc
       end.

Definition by_label (l : list LabelCalls) : list (line_key * (Z * Q)) := foldl step_label [] l.
Definition by_tool (labels : list (line_key * (Z * Q))) : list (string * (Z * Q)) :=
  foldl (fun acc x => upsert x.1.1.1 (add_to x.2.1 x.2.2) acc) [] labels.

Definition string_le (a b : string) : bool := String.leb a b.
Definition key_le (a b : line_key * (Z * Q)) : bool :=
  let '(t1, l1, p1) := a.1 in let '(t2, l2, p2) := b.1 in
  if bool_decide (t1 = t2) then (if bool_decide (l1 = l2) then implb p1 p2 else string_le l1 l2) else string_le t1 t2.

Definition before (a b : line_key * (Z * Q)) : Prop := key_le a b = true.
#[export] Instance before_dec : RelDecision before.
Proof. intros a b. unfold before. apply _. Defined.

Definition line_of (x : line_key * (Z * Q)) : ToolLine :=
  let '((t, l, p), (n, c)) := x in mkToolLine (t +:+ "_calls") l n (c / inject_Z n)%Q c p.

Definition costs_of {K} (l : list (K * (Z * Q))) : Q := foldr (fun x acc => x.2.2 + acc)%Q 0%Q l.

Definition charge_tool_calls (l : list LabelCalls) : ToolCharges :=
  let labels := by_label l in
  let tools := by_tool labels in
  mkToolCharges (quantize_cost (costs_of tools))
    (line_of <$> merge_sort before labels)
    ((fun x => (x.1, x.2.2 / inject_Z x.2.1)%Q) <$> tools)
    (foldl step_unpriced [] l).*2
    (quantize_cost (costs_of (filter (fun x => x.1.2 = true) labels))).
End charge.

(** * The charges of a request's tool calls add up: by label, by tool, by line and in total. *)

Local Open Scope Z_scope.

Lemma costs_of_upsert {K} `{EqDecision K} (k : K) n c l :
  (costs_of (upsert k (add_to n c) l) == costs_of l + c)%Q.
Proof.
  induction l as [|[k' [n' c']] l IH]; simpl; [lra|]. destruct (decide (k' = k)); simpl; [lra|]. rewrite IH. lra.
Qed.

Lemma costs_of_filter_upsert {K} `{EqDecision K} (P : K * (Z * Q) -> Prop) `{!forall x, Decision (P x)} (k : K) n c l :
  (forall k v w, P (k, v) <-> P (k, w)) ->
  (costs_of (filter P (upsert k (add_to n c) l)) == costs_of (filter P l) + if decide (P (k, (0%Z, 0%Q))) then c else 0)%Q.
Proof.
  intros HP. assert (Hd : forall v, (if decide (P (k, v)) then c else 0%Q) = (if decide (P (k, (0%Z, 0%Q))) then c else 0%Q))
    by (intros v; apply decide_ext, HP).
  induction l as [|[k' [n' c']] l IH]; simpl.
  - rewrite filter_cons, <- (Hd (add_to n c None)), filter_nil. destruct (decide (P (k, add_to n c None))); simpl; lra.
  - destruct (decide (k' = k)) as [->|Hne]; rewrite !filter_cons.
    + rewrite <- (Hd (n', c')). destruct (decide (P (k, (n', c')))) as [H1|H1]; rewrite (HP k _ (n' + n, (c' + c)%Q)) in H1.
      * rewrite decide_True by done. simpl. lra.
      * rewrite decide_False by done. lra.
    + destruct (decide (P (k', (n', c')))); simpl; rewrite IH; lra.
Qed.

Section tools.
Context (rates : ToolRateLookup -> option Q).

(** The calls that count, and what each costs. *)
Definition counted (entry : LabelCalls) : Prop := 0 < calls entry.
#[local] Instance counted_dec entry : Decision (counted entry).
Proof. unfold counted. apply _. Defined.
Definition spent (l : list LabelCalls) : Q :=
  foldr (fun e acc => (if decide (counted e) then entry_cost rates e else 0) + acc)%Q 0%Q l.
Definition paid_for (l : list LabelCalls) : Q :=
  foldr (fun e acc => (if decide (counted e /\ _deployment_paid e = true) then entry_cost rates e else 0) + acc)%Q 0%Q l.

Lemma step_label_costs acc e :
  (costs_of (step_label rates acc e) == costs_of acc + if decide (counted e) then entry_cost rates e else 0)%Q.
Proof.
  unfold step_label. destruct (Z.leb_spec (calls e) 0), (decide (counted e)) as [Hc|Hc]; unfold counted in Hc; try lia; [lra|].
  apply costs_of_upsert.
Qed.

Lemma by_label_costs l : (costs_of (by_label rates l) == spent l)%Q.
Proof.
  unfold by_label. assert (H : forall acc, (costs_of (foldl (step_label rates) acc l) == costs_of acc + spent l)%Q).
  { induction l as [|e l IH]; intros acc; simpl; [lra|]. rewrite IH, step_label_costs. lra. }
  rewrite H. simpl. lra.
Qed.

Lemma by_tool_costs labels : (costs_of (by_tool labels) == costs_of labels)%Q.
Proof.
  unfold by_tool. assert (H : forall acc, (costs_of (foldl (fun acc x => upsert x.1.1.1 (add_to x.2.1 x.2.2) acc) acc labels)
                                           == costs_of acc + costs_of labels)%Q).
  { induction labels as [|x l IH]; intros acc; simpl; [lra|]. rewrite IH, costs_of_upsert. lra. }
  rewrite H. simpl. lra.
Qed.

Definition sum_tool_costs (l : list ToolLine) : Q := foldr (fun x acc => tool_cost x + acc)%Q 0%Q l.

Lemma lines_costs labels : (sum_tool_costs (line_of <$> labels) == costs_of labels)%Q.
Proof. induction labels as [|[[[t l] p] [n c]] labels IH]; simpl; [lra|]. unfold sum_tool_costs in IH. rewrite IH. lra. Qed.

Lemma costs_of_perm {K} (a b : list (K * (Z * Q))) : a ≡ₚ b -> (costs_of a == costs_of b)%Q.
Proof. induction 1 as [|x a b _ IH|x y a|a b c _ IH1 _ IH2]; simpl; [lra|rewrite IH; lra|lra|by rewrite IH1]. Qed.

Lemma step_label_paid acc e :
  (costs_of (filter (fun x => x.1.2 = true) (step_label rates acc e))
   == costs_of (filter (fun x => x.1.2 = true) acc)
      + if decide (counted e /\ _deployment_paid e = true) then entry_cost rates e else 0)%Q.
Proof.
  unfold step_label. destruct (Z.leb_spec (calls e) 0).
  - rewrite decide_False by (unfold counted; lia). lra.
  - rewrite costs_of_filter_upsert by done. simpl.
    rewrite (decide_ext (counted e /\ _deployment_paid e = true) (_deployment_paid e = true)) by (unfold counted; intuition lia). lra.
Qed.

Lemma by_label_paid l : (costs_of (filter (fun x => x.1.2 = true) (by_label rates l)) == paid_for l)%Q.
Proof.
  unfold by_label. assert (H : forall acc, (costs_of (filter (fun x => x.1.2 = true) (foldl (step_label rates) acc l))
      == costs_of (filter (fun x => x.1.2 = true) acc) + paid_for l)%Q).
  { induction l as [|e l IH]; intros acc; simpl; [lra|]. rewrite IH, step_label_paid. lra. }
  rewrite H. simpl. lra.
Qed.

(** Each label and each tool counts calls. *)
Definition counts_calls {K} (l : list (K * (Z * Q))) : Prop := Forall (fun x => 0 < x.2.1) l.

Lemma upsert_counts {K} `{EqDecision K} (k : K) n c l : 0 < n -> counts_calls l -> counts_calls (upsert k (add_to n c) l).
Proof.
  intros Hn. induction 1 as [|[k' [n' c']] l Hx Hl IH]; simpl in *; [repeat constructor; simpl; lia|].
  destruct (decide (k' = k)); constructor; simpl; [lia|done|done|done].
Qed.

Lemma by_label_counts l : counts_calls (by_label rates l).
Proof.
  unfold by_label. assert (H : forall acc, counts_calls acc -> counts_calls (foldl (step_label rates) acc l)); [|by apply H, Forall_nil].
  induction l as [|e l IH]; intros acc Ha; simpl; [done|]. apply IH. unfold step_label.
  destruct (Z.leb_spec (calls e) 0); [done|by apply upsert_counts].
Qed.

Lemma by_tool_counts labels : counts_calls labels -> counts_calls (by_tool labels).
Proof.
  intros Hl. unfold by_tool. assert (H : forall acc, counts_calls acc ->
    counts_calls (foldl (fun acc x => upsert x.1.1.1 (add_to x.2.1 x.2.2) acc) acc labels)); [|by apply H, Forall_nil].
  induction Hl as [|x l Hx _ IH]; intros acc Ha; simpl; [done|]. apply IH. by apply upsert_counts.
Qed.

(** A tool's unit rate times its calls. *)
Definition tool_spend (calls_of : list (string * (Z * Q))) (unit_rates : list (string * Q)) : Q :=
  foldr (fun x acc => inject_Z x.1.2.1 * x.2.2 + acc)%Q 0%Q (zip calls_of unit_rates).

Lemma tool_spend_costs l : counts_calls l ->
  (tool_spend l ((fun x => (x.1, x.2.2 / inject_Z x.2.1)%Q) <$> l) == costs_of l)%Q.
Proof.
  induction 1 as [|[t [n c]] l Hn _ IH]; simpl in *; [reflexivity|]. unfold tool_spend in IH. unfold tool_spend. simpl. rewrite IH.
  assert (E : (inject_Z n * (c / inject_Z n) == c)%Q); [|rewrite E; lra]. apply Qmult_div_r.
  change 0%Q with (inject_Z 0). rewrite inject_Z_injective. lia.
Qed.

Definition non_credit (e : LabelCalls) : Prop :=
  (0 <= reported_cost e)%Q /\ 0 <= unreported_calls e.

Lemma entry_cost_nonneg e : (forall k r, rates k = Some r -> 0 <= r)%Q -> non_credit e -> (0 <= entry_cost rates e)%Q.
Proof.
  intros Hr [H1 H2]. unfold entry_cost, found_rate.
  assert (H3 : (0 <= default 0 (l ← tool_rate_lookup e; rates l))%Q).
  { destruct (tool_rate_lookup e) as [k|]; simpl; [|lra]. destruct (rates k) eqn:E; simpl; [by eapply Hr|lra]. }
  assert (H4 : (0 <= inject_Z (unreported_calls e))%Q) by (change 0%Q with (inject_Z 0); by rewrite <- Zle_Qle).
  pose proof (Qmult_le_0_compat _ _ H4 H3). lra.
Qed.

Lemma paid_within l : (forall k r, rates k = Some r -> 0 <= r)%Q -> Forall non_credit l ->
  (0 <= paid_for l)%Q /\ (paid_for l <= spent l)%Q.
Proof.
  intros Hr. induction 1 as [|e l He _ [IH1 IH2]]; simpl; [split; lra|]. pose proof (entry_cost_nonneg e Hr He).
  unfold spent, paid_for in *.
  destruct (decide (counted e)), (decide (counted e /\ _deployment_paid e = true)); split; first [lra|tauto].
Qed.
End tools.

(** A request's tool calls settle at what its counted calls cost, rounded once; the lines of its labels and the
    spend of its tools are that cost divided up; and the part its organization is charged for is the cost of the
    calls the deployment paid for, never more than the total. *)
Theorem tool_charges_add_up (rates : ToolRateLookup -> option Q) l :
  (forall k r, rates k = Some r -> 0 <= r)%Q -> Forall non_credit l ->
  let c := charge_tool_calls rates l in
  total c = quantize_cost (spent rates l)
  /\ (sum_tool_costs (tool_lines c) == spent rates l)%Q
  /\ (tool_spend (by_tool (by_label rates l)) (tool_unit_rates c) == spent rates l)%Q
  /\ deployment_paid_total c = quantize_cost (paid_for rates l)
  /\ 0 <= deployment_paid_total c <= total c.
Proof.
  intros Hr Hl c. destruct (paid_within rates l Hr Hl) as [H1 H2].
  assert (Ht : total c = quantize_cost (spent rates l)).
  { simpl. apply quantize_cost_proper. by rewrite by_tool_costs, by_label_costs. }
  assert (Hp : deployment_paid_total c = quantize_cost (paid_for rates l)) by (simpl; apply quantize_cost_proper, by_label_paid).
  split; [done|]. split; [|split; [|split; [done|]]].
  - simpl. rewrite lines_costs. rewrite (costs_of_perm _ (by_label rates l)) by apply merge_sort_Permutation. apply by_label_costs.
  - simpl. rewrite tool_spend_costs by apply by_tool_counts, by_label_counts. by rewrite by_tool_costs, by_label_costs.
  - rewrite Ht, Hp. split; [by apply quantize_cost_nonneg|by apply quantize_cost_mono].
Qed.

Lemma tool_charges_add_up_witness :
  let rates (k : ToolRateLookup) := Some (1 # 100)%Q in
  let l := [mkCalls "web_search" None None 3 2 (1 # 2) None; mkCalls "fetch" (Some "exa:x") (Some []) 1 0 (1 # 4) None]%string in
  let c := charge_tool_calls rates l in
  total c = 770000 /\ deployment_paid_total c = 250000 /\ (sum_tool_costs (tool_lines c) == 77 # 100)%Q.
Proof.
  intros rates l c. destruct (tool_charges_add_up rates l) as (H1 & H2 & _ & H4 & _).
  - intros k r [= <-]. discriminate.
  - repeat constructor; discriminate.
  - split; [exact H1|]. split; [exact H4|]. etransitivity; [exact H2|reflexivity].
Defined.
