(* ===== verification/PriceLookup.v ===== *)
(** Which rate prices a request: the deployment's price list, the organizations' overrides above it and the
    published prices below ([src/src/gateway/services/pricing_service.py], its repository
    [src/src/gateway/repositories/pricing/organization_model_pricing_repository.py] and the batch reader of
    [src/src/gateway/services/organization_pricing_service.py]).

    A statement is a function of the tables it reads: its WHERE a filter, its ORDER BY and LIMIT 1 the first
    of the best, the two tables in any order otherwise.  The published price of a model is read from a
    catalogue held elsewhere: [defaults] is an argument.  A batch read in chunks of keys reads as one. *)
From Stdlib Require Import ZArith Lia QArith Ascii String.
From stdpp Require Import base strings list sorting.
From S2P Require Import Prelude Text MeteredPricing UsagePricing ToolPricing.

Local Open Scope string_scope.
Local Open Scope Z_scope.

(** ** The tables *)

Definition MODEL_KIND : string := "model".
Definition SEED_ORIGIN : string := "seed".
Definition API_ORIGIN : string := "api".
Definition OPERATOR_ORIGIN : string := "operator".

(** A row of [organization_model_pricing]: its period is half-open, and open-ended without an end. *)
Record OrganizationModelPricing := mkOverrideRow {
  row_id : string;
  organization_id : string;
  kind : string;
  ov_key : string;
  ov_rate : ModelPricing;
  effective_from : Z;
  effective_to : option Z;
  origin : option string
}.

(** A row of [model_pricing], a version of its key's rate. *)
Record PriceRow := mkPriceRow { p_kind : string; p_key : string; effective_at : Z; p_rate : ModelPricing }.

Record PriceTables := mkTables { overrides_of : list OrganizationModelPricing; versions : list PriceRow }.

Inductive PriceSource := OrganizationSource | DeploymentSource | DefaultsSource.
Record ResolvedPricing := mkResolved { pricing : ModelPricing; source : PriceSource; reference : option string; since : option Z }.

(** ** Statements *)

(** [ORDER BY ... LIMIT 1]: the first row no other is before. *)
Fixpoint first_of {A} (before : A -> A -> bool) (best : option A) (l : list A) : option A :=
  match l with
  | [] => best
  | x :: l => first_of before (match best with Some b => if before x b then Some x else best | None => Some x end) l
  end.

Definition period_applies (as_of : Z) (o : OrganizationModelPricing) : bool :=
  (effective_from o <=? as_of) && match effective_to o with None => true | Some e => as_of <? e end.

Definition key_rank (keys : list string) (k : string) : nat :=
  match list_find (eq k) keys with Some (i, _) => i | None => length keys end.

Definition override_before (keys : list string) (a b : OrganizationModelPricing) : bool :=
  let ra := key_rank keys (ov_key a) in let rb := key_rank keys (ov_key b) in
  (ra <? rb)%nat || ((ra =? rb)%nat && (effective_from b <? effective_from a)).

Definition find_organization_override (db : PriceTables) (org : string) (model_keys : list string) (as_of : Z)
    (operator_set_only : bool) : option OrganizationModelPricing :=
  first_of (override_before model_keys) None
    (filter (fun o => organization_id o = org /\ kind o = MODEL_KIND /\ ov_key o ∈ model_keys
                      /\ period_applies as_of o = true /\ (operator_set_only = true -> origin o = Some OPERATOR_ORIGIN))
       (overrides_of db)).

Definition newer (a b : PriceRow) : bool := effective_at b <? effective_at a.

Definition version_in_effect (db : PriceTables) (k key : string) (as_of : Z) : option PriceRow :=
  first_of newer None
    (filter (fun r => p_kind r = k /\ p_key r = key /\ (effective_at r <=? as_of) = true) (versions db)).

Definition find_by_model_key (db : PriceTables) (key : string) (as_of : Z) : option PriceRow :=
  version_in_effect db MODEL_KIND key as_of.

Fixpoint first_key {A} (f : string -> option A) (keys : list string) : option A :=
  match keys with [] => None | k :: keys => match f k with Some x => Some x | None => first_key f keys end end.

Definition price_in_effect (db : PriceTables) (keys : list string) (as_of : Z) (k : string) : option PriceRow :=
  first_key (fun key => version_in_effect db k key as_of) keys.

(** ** A key's spellings *)

Definition pricing_key_forms (key : string) : list string :=
  if has_char ":"%char key then let '(instance, model) := partition_at ":"%char key in [key; instance +:+ "/" +:+ model]
  else [key].

Definition canonical_key_form (key : string) : string :=
  if has_char "/"%char key && negb (has_char ":"%char key)
  then let '(instance, model) := partition_at "/"%char key in instance +:+ ":" +:+ model else key.

Definition model_key_of (provider : option string) (model : string) : string :=
  match provider with None | Some "" => model | Some p => p +:+ ":" +:+ model end.

(** ** One lookup *)

Definition override_as_model_pricing (o : OrganizationModelPricing) : ModelPricing :=
  let c := columns (ov_rate o) in
  mkModelPricing
    (mkPricing (Some (ov_key o)) (match unit_name c with None | Some "" => Some "token" | u => u end)
       (input_price_per_million c) (output_price_per_million c) (cache_read_price_per_million c)
       (cache_write_price_per_million c) (Some (default [] (pricing_tiers c))))
    (block (ov_rate o)).

Definition from_override (o : OrganizationModelPricing) : ResolvedPricing :=
  mkResolved (override_as_model_pricing o) OrganizationSource (Some (row_id o)) (Some (effective_from o)).
Definition from_version (r : PriceRow) : ResolvedPricing :=
  mkResolved (p_rate r) DeploymentSource (Some (p_key r)) (Some (effective_at r)).

Section lookups.
(** [default_pricing_match] at an instant, with the entry that answered; whether it is consulted. *)
Context (defaults : option string -> string -> Z -> option (ModelPricing * string)) (default_pricing_enabled : bool).

Definition from_default (provider : option string) (model : string) (as_of : Z) : option ResolvedPricing :=
  m ← defaults provider model as_of; Some (mkResolved m.1 DefaultsSource (Some m.2) None).

(** The stored half of a lookup: each statement reads the tables as they are when it runs. *)
Definition stored_pricing (at_override : PriceTables) (at_key : string -> PriceTables) (org : option string)
    (model_key : string) (as_of : Z) (deployment_paid : bool) : option ResolvedPricing :=
  let forms := pricing_key_forms model_key in
  match o ← org; find_organization_override at_override o forms as_of deployment_paid with
  | Some o => Some (from_override o)
  | None => from_version <$> first_key (fun key => find_by_model_key (at_key key) key as_of) forms
  end.

Definition resolve_model_pricing (db : PriceTables) (provider : option string) (model : string) (as_of : Z)
    (use_defaults : bool) (org : option string) (deployment_paid : bool) : option ResolvedPricing :=
  match stored_pricing db (fun _ => db) org (model_key_of provider model) as_of deployment_paid with
  | Some r => Some r
  | None => if use_defaults && default_pricing_enabled then from_default provider model as_of else None
  end.

Definition find_model_pricing (db : PriceTables) (provider : option string) (model : string) (as_of : Z)
    (use_defaults : bool) (org : option string) (deployment_paid : bool) : option ModelPricing :=
  pricing <$> resolve_model_pricing db provider model as_of use_defaults org deployment_paid.

(** ** In batches *)

Definition ordered_by_start (a b : OrganizationModelPricing) : Prop := effective_from a <= effective_from b.
#[export] Instance ordered_by_start_dec : RelDecision ordered_by_start := fun a b => decide (effective_from a <= effective_from b).
Definition ordered_by_date (a b : PriceRow) : Prop := effective_at a <= effective_at b.
#[export] Instance ordered_by_date_dec : RelDecision ordered_by_date := fun a b => decide (effective_at a <= effective_at b).

(** An index: the periods of a key, oldest first. *)
Definition override_index (db : PriceTables) (org k : string) (key : string) : list OrganizationModelPricing :=
  merge_sort ordered_by_start (filter (fun o => organization_id o = org /\ kind o = k /\ ov_key o = key) (overrides_of db)).
Definition load_organization_override_index (db : PriceTables) (org : string) (model_keys : list string)
    : string -> list OrganizationModelPricing :=
  fun key => if bool_decide (key ∈ model_keys) then override_index db org MODEL_KIND key else [].

Fixpoint latest_period (as_of : Z) (deployment_paid : bool) (match_ : option OrganizationModelPricing)
    (periods : list OrganizationModelPricing) : option OrganizationModelPricing :=
  match periods with
  | [] => match_
  | p :: periods =>
      if as_of <? effective_from p then match_
      else if deployment_paid && negb (bool_decide (origin p = Some OPERATOR_ORIGIN))
      then latest_period as_of deployment_paid match_ periods
      else latest_period as_of deployment_paid
             (match effective_to p with None => Some p | Some e => if as_of <? e then Some p else match_ end) periods
  end.

Definition resolve_organization_override (index : string -> list OrganizationModelPricing) (model_keys : list string)
    (as_of : Z) (deployment_paid : bool) : option OrganizationModelPricing :=
  first_key (fun key => latest_period as_of deployment_paid None (index key)) model_keys.

Definition applicable_row (db : PriceTables) (org : string) (as_of : Z) (key : string) : option OrganizationModelPricing :=
  last (merge_sort ordered_by_start
    (filter (fun o => organization_id o = org /\ kind o = MODEL_KIND /\ ov_key o = key /\ period_applies as_of o = true)
       (overrides_of db))).

Definition newest_at (db : PriceTables) (as_of : Z) (key : string) : option Z :=
  foldr (fun r acc => Some (match acc with Some a => Z.max (effective_at r) a | None => effective_at r end)) None
    (filter (fun r => p_kind r = MODEL_KIND /\ p_key r = key /\ (effective_at r <=? as_of) = true) (versions db)).
Definition deployment_row (db : PriceTables) (as_of : Z) (key : string) : option PriceRow :=
  t ← newest_at db as_of key;
  last (filter (fun r => p_kind r = MODEL_KIND /\ p_key r = key /\ effective_at r = t) (versions db)).

(** [RequestPrices.prime], for one candidate. *)
Definition primed (db : PriceTables) (provider model : string) (now : Z) (org : option string) : option ResolvedPricing :=
  let forms := pricing_key_forms (provider +:+ ":" +:+ model) in
  match o ← org; first_key (applicable_row db o now) forms with
  | Some o => Some (from_override o)
  | None =>
      match first_key (deployment_row db now) forms with
      | Some r => Some (from_version r)
      | None => if default_pricing_enabled then from_default (Some provider) model now else None
      end
  end.

(** [rates_in_effect], for one key. *)
Definition rate_in_effect (db : PriceTables) (org : string) (key : string) (as_of : Z) : option (PriceSource * ModelPricing) :=
  match applicable_row db org as_of key with
  | Some o => Some (OrganizationSource, override_as_model_pricing o)
  | None =>
      match deployment_row db as_of key with
      | Some r => Some (DeploymentSource, p_rate r)
      | None =>
          let '(provider, model) := partition_at ":"%char key in
          m ← defaults (if bool_decide (provider = "") then None else Some provider)
                (if bool_decide (model = "") then key else model) as_of;
          Some (DefaultsSource, m.1)
      end
  end.

(** ** Reports *)

(** Every stored row of models in force, one per model, as [rates_in_force] lists them before its limit. *)
Definition in_force (db : PriceTables) (as_of : Z) : list PriceRow :=
  filter (fun r => p_kind r = MODEL_KIND /\ newest_at db as_of (p_key r) = Some (effective_at r)) (versions db).
Definition rates_in_force (db : PriceTables) (as_of : Z) (outside : string -> bool) : list PriceRow :=
  let rows := filter (fun r => outside (p_key r) = true) (in_force db as_of) in
  filter (fun r => canonical_key_form (p_key r) = p_key r \/ canonical_key_form (p_key r) ∉ p_key <$> rows) rows.

Definition shadowed (db : PriceTables) (key : string) : bool :=
  has_char "/"%char key && negb (has_char ":"%char key) && bool_decide (canonical_key_form key ∈ p_key <$> versions db).

Definition shown_at (db : PriceTables) (as_of : Z) (k key : string) : option Z :=
  let rows := filter (fun r => p_kind r = k /\ p_key r = key) (versions db) in
  match foldr (fun r acc => Some (match acc with Some a => Z.max (effective_at r) a | None => effective_at r end)) None
          (filter (fun r => (effective_at r <=? as_of) = true) rows) with
  | Some t => Some t
  | None => foldr (fun r acc => Some (match acc with Some a => Z.min (effective_at r) a | None => effective_at r end)) None rows
  end.
Definition current_rates (db : PriceTables) (as_of : Z) (outside : string -> bool) : list PriceRow :=
  filter (fun r => shadowed db (p_key r) = false /\ outside (p_key r) = true
                   /\ shown_at db as_of (p_kind r) (p_key r) = Some (effective_at r)) (versions db).

(** ** Tools *)

Definition kind_name (k : instance_kind) : string := match k with SearchKind => "search" | FetchKind => "fetch" end.
Definition rate_key_forms (k : RateKey) : list (string * string) :=
  match k with
  | InstanceRateKey k name legacy =>
      (kind_name k, name) :: ((fun f => (MODEL_KIND, f)) <$> match legacy with Some l => pricing_key_forms l | None => [] end)
  | ModelKey key => (fun f => (MODEL_KIND, f)) <$> pricing_key_forms key
  end.
Definition tool_deployment_rate (db : PriceTables) (as_of : Z) (form : string * string) : option PriceRow :=
  last (merge_sort ordered_by_date
    (filter (fun r => p_kind r = form.1 /\ p_key r = form.2 /\ (effective_at r <=? as_of) = true) (versions db))).
Definition is_old_key (k : RateKey) (knd : string) : bool :=
  match k with InstanceRateKey _ _ _ => bool_decide (knd = MODEL_KIND) | ModelKey _ => false end.

Definition ends_in (suffix s : string) : bool :=
  (String.length suffix <=? String.length s)%nat
  && String.eqb (String.substring (String.length s - String.length suffix) (String.length suffix) s) suffix.
Definition is_provider_web_search_key (k : RateKey) : bool :=
  match k with
  | ModelKey key => ends_in (":" +:+ PROVIDER_WEB_SEARCH_TOOL) key
                    && negb (starts_with (GATEWAY_TOOL_PRICING_PROVIDER +:+ ":") key)
  | InstanceRateKey _ _ _ => false
  end.

Record ToolRate := mkToolRate { rate_key : RateKey; call_rate : Q; rate_source : PriceSource; old_key : bool }.

(** Prices published per provider-run search, by key. *)
Definition PROVIDER_TOOL_LIST_PRICES : list (string * Q) := [("anthropic:web_search", (1 # 100)%Q)].

Definition stored_tool_rate (db : PriceTables) (org : option string) (as_of : Z) (operator_only : bool) (k : RateKey)
    : option ToolRate :=
  let forms := rate_key_forms k in
  match o ← org; list_find (fun form => is_Some (latest_period as_of operator_only None (override_index db o form.1 form.2))) forms with
  | Some (_, form) =>
      found ← (o ← org; latest_period as_of operator_only None (override_index db o form.1 form.2));
      Some (mkToolRate k (flat_request_cost (Some (override_as_model_pricing found))) OrganizationSource (is_old_key k form.1))
  | None =>
      match list_find (fun form => is_Some (tool_deployment_rate db as_of form)) forms with
      | Some (_, form) =>
          r ← tool_deployment_rate db as_of form;
          Some (mkToolRate k (flat_request_cost (Some (p_rate r))) DeploymentSource (is_old_key k form.1))
      | None => None
      end
  end.

Fixpoint first_rate_key {A} (f : RateKey -> option A) (keys : list RateKey) : option A :=
  match keys with [] => None | k :: keys => match f k with Some x => Some x | None => first_rate_key f keys end end.

Definition first_tool_rate (db : PriceTables) (org : option string) (as_of : Z) (lookup : ToolRateLookup)
    (model_search : option (Q * PriceSource)) : option ToolRate :=
  match first_rate_key (stored_tool_rate db org as_of (operator_set_only lookup)) (lookup_keys lookup) with
  | Some r => Some r
  | None =>
      match model_search, existsb is_provider_web_search_key (lookup_keys lookup), lookup_keys lookup with
      | Some (rate, src), true, first :: _ => Some (mkToolRate first rate src false)
      | _, _, _ =>
          if default_pricing_enabled then
            first_rate_key (fun k => match k with
                                     | ModelKey key => p ← assoc key PROVIDER_TOOL_LIST_PRICES; Some (mkToolRate k p DefaultsSource false)
                                     | _ => None
                                     end) (lookup_keys lookup)
          else None
      end
  end.

Definition price_tool_calls (db : PriceTables) (org : option string) (as_of : Z) (model_search : option (Q * PriceSource))
    (l : list LabelCalls) : ToolCharges :=
  charge_tool_calls (fun lookup => call_rate <$> first_tool_rate db org as_of lookup model_search) l.

(** ** The gate *)

Definition pricing_required_but_missing (rate : option ModelPricing) (require_pricing : bool) : bool :=
  require_pricing && negb (has_completion_meter rate).
Definition is_free_pricing (rate : option ModelPricing) : bool :=
  match rate with
  | Some m => match input_price_per_million (columns m), output_price_per_million (columns m) with
              | Number i, Number o => Qeq_bool i 0 && Qeq_bool o 0
              | _, _ => false
              end
  | None => false
  end.

End lookups.
