(* ===== verification/PriceLookupProofs.v ===== *)
(** Every statement of the lookup order answers alike: the query of a request, the index of a report, the
    batch of a catalog. *)
From Stdlib Require Import ZArith QArith Lia Ascii String.
From stdpp Require Import base strings list sets sorting.
From S2P Require Import Prelude Text MeteredPricing UsagePricing ToolPricing PriceLookup.

Local Open Scope Z_scope.

(** ** The first of the best *)

Section first_of.
Context {A : Type} (before : A -> A -> bool).
Context (before_asym : forall a b, before a b = true -> before b a = false).
Context (before_connected : forall a b c, before a b = false -> before b c = false -> before a c = false).

Lemma before_irrefl a : before a a = false.
Proof. destruct (before a a) eqn:E; [by rewrite (before_asym a a) in E|done]. Qed.

Lemma first_of_spec l best :
  match first_of before best l with
  | Some x => (best = Some x \/ x ∈ l) /\ (forall y, best = Some y \/ y ∈ l -> before y x = false)
  | None => best = None /\ l = []
  end.
Proof.
  revert best. induction l as [|x l IH]; intros best; simpl.
  - destruct best as [b|]; [|done]. split; [by left|]. intros y [[= <-]|H]; [apply before_irrefl|by apply elem_of_nil in H].
  - set (b' := match best with Some b => if before x b then Some x else best | None => Some x end).
    assert (Hb : exists b, b' = Some b /\ (best = Some b \/ b = x) /\ forall y, best = Some y \/ y = x -> before y b = false).
    { unfold b'. destruct best as [b|]; [destruct (before x b) eqn:E|].
      - exists x. split; [done|]. split; [by right|]. intros y [[= <-]| ->]; [by apply before_asym|apply before_irrefl].
      - exists b. split; [done|]. split; [by left|]. intros y [[= <-]| ->]; [apply before_irrefl|done].
      - exists x. split; [done|]. split; [by right|]. intros y [? | ->]; [done|apply before_irrefl]. }
    destruct Hb as (b & Hb & Hin & Hbest). specialize (IH b'). destruct (first_of before b' l) as [z|].
    + destruct IH as [H1 H2]. assert (Hbz : before b z = false) by (apply H2; by left). split.
      * destruct H1 as [H1|H1]; [|right; by right]. rewrite Hb in H1. injection H1 as <-.
        destruct Hin as [?| ->]; [by left|right; by left].
      * intros y [Hy|[->|Hy]%elem_of_cons].
        -- eapply before_connected; [apply Hbest; by left|done].
        -- eapply before_connected; [apply Hbest; by right|done].
        -- apply H2. by right.
    + destruct IH as [H1 _]. by rewrite Hb in H1.
Qed.

Lemma first_of_some l x : first_of before None l = Some x -> x ∈ l /\ forall y, y ∈ l -> before y x = false.
Proof.
  intros H. pose proof (first_of_spec l None) as Hs. rewrite H in Hs. destruct Hs as [[?|Hx] Hy]; [done|]. split; [done|].
  intros y ?. apply Hy. by right.
Qed.
Lemma first_of_none l : first_of before None l = None -> l = [].
Proof. intros H. pose proof (first_of_spec l None) as Hs. rewrite H in Hs. apply Hs. Qed.
End first_of.

(** ** Tables without ties *)

(** What the unique index and the primary key of the two tables keep. *)
Record tables_ok (db : PriceTables) : Prop := {
  one_start : NoDup ((fun o => (organization_id o, kind o, ov_key o, effective_from o)) <$> overrides_of db);
  one_version : NoDup ((fun r => (p_kind r, p_key r, effective_at r)) <$> versions db)
}.

Lemma nodup_fmap_inj {A B} (f : A -> B) l x y : NoDup (f <$> l) -> x ∈ l -> y ∈ l -> f x = f y -> x = y.
Proof.
  intros Hn Hx Hy Hf. induction l as [|z l IH]; [by apply elem_of_nil in Hx|]. rewrite fmap_cons, NoDup_cons in Hn.
  destruct Hn as [Hz Hn]. apply elem_of_cons in Hx as [->|Hx], Hy as [->|Hy]; [done| | |by apply IH];
    exfalso; apply Hz; [rewrite Hf|rewrite <- Hf]; by apply list_elem_of_fmap_2.
Qed.

(** The row of a key that applies: of the newest period that does. *)
Definition applies (org k key : string) (as_of : Z) (paid : bool) (o : OrganizationModelPricing) : Prop :=
  organization_id o = org /\ kind o = k /\ ov_key o = key /\ period_applies as_of o = true
  /\ (paid = true -> origin o = Some OPERATOR_ORIGIN).
Definition best_override (db : PriceTables) (org k key : string) (as_of : Z) (paid : bool) (r : option OrganizationModelPricing) : Prop :=
  match r with
  | Some o => o ∈ overrides_of db /\ applies org k key as_of paid o
              /\ forall o', o' ∈ overrides_of db -> applies org k key as_of paid o' -> effective_from o' <= effective_from o
  | None => forall o, o ∈ overrides_of db -> ~ applies org k key as_of paid o
  end.

Lemma best_override_unique db org k key as_of paid r r' :
  tables_ok db -> best_override db org k key as_of paid r -> best_override db org k key as_of paid r' -> r = r'.
Proof.
  intros [Hn _]. destruct r as [o|], r' as [o'|]; simpl; [| | |done].
  - intros (H1 & H2 & H3) (H1' & H2' & H3'). f_equal. eapply (nodup_fmap_inj _ _ o o' Hn H1 H1').
    specialize (H3 _ H1' H2'). specialize (H3' _ H1 H2). destruct H2 as (-> & -> & -> & _), H2' as (-> & -> & -> & _).
    simpl. f_equal. lia.
  - intros (H1 & H2 & _) H. by destruct (H o H1).
  - intros H (H1 & H2 & _). by destruct (H o' H1).
Qed.

Lemma first_key_ext {A} (f g : string -> option A) keys : (forall k, k ∈ keys -> f k = g k) -> first_key f keys = first_key g keys.
Proof.
  induction keys as [|k keys IH]; intros H; simpl; [done|]. rewrite H by left. destruct (g k); [done|]. apply IH. intros k' Hk. apply H. by right.
Qed.

Lemma first_key_some {A} (f : string -> option A) keys x : first_key f keys = Some x ->
  exists k1 k k2, keys = (k1 ++ k :: k2)%list /\ f k = Some x /\ forall j, j ∈ k1 -> f j = None.
Proof.
  induction keys as [|k keys IH]; simpl; [done|]. destruct (f k) as [y|] eqn:E.
  - intros [= ->]. exists [], k, keys. split; [done|]. split; [done|]. by intros j ?%elem_of_nil.
  - intros H. destruct (IH H) as (k1 & k' & k2 & -> & Hk & Hj). exists (k :: k1), k', k2. split; [done|]. split; [done|].
    intros j [->|?]%elem_of_cons; [done|by apply Hj].
Qed.
Lemma first_key_none {A} (f : string -> option A) keys : first_key f keys = None <-> forall k, k ∈ keys -> f k = None.
Proof.
  induction keys as [|k keys IH]; simpl; [split; [by intros _ j ?%elem_of_nil|done]|]. destruct (f k) as [y|] eqn:E.
  - split; [done|]. intros H. by rewrite H in E by left.
  - rewrite IH. split; [intros H j [->|?]%elem_of_cons; [done|by apply H]|intros H j ?; apply H; by right].
Qed.

(** ** The index *)

Definition allowed (as_of : Z) (paid : bool) (o : OrganizationModelPricing) : Prop :=
  period_applies as_of o = true /\ (paid = true -> origin o = Some OPERATOR_ORIGIN).

Lemma not_yet as_of paid p l : StronglySorted ordered_by_start (p :: l) -> as_of < effective_from p ->
  forall x, x ∈ p :: l -> ~ allowed as_of paid x.
Proof.
  intros Hs Hp x Hx [Ha _]. inversion Hs as [|? ? _ Hf]; subst. rewrite Forall_forall in Hf.
  assert (effective_from p <= effective_from x) by (apply elem_of_cons in Hx as [->|Hx]; [done|by apply Hf]).
  unfold period_applies in Ha. lia.
Qed.

Lemma latest_period_spec as_of paid l m : StronglySorted ordered_by_start l ->
  match latest_period as_of paid m l with
  | Some o => (m = Some o /\ forall x, x ∈ l -> ~ allowed as_of paid x)
              \/ (o ∈ l /\ allowed as_of paid o /\ forall x, x ∈ l -> allowed as_of paid x -> effective_from x <= effective_from o)
  | None => m = None /\ forall x, x ∈ l -> ~ allowed as_of paid x
  end.
Proof.
  revert m. induction l as [|p l IH]; intros m Hs; cbn [latest_period].
  - destruct m as [o|]; [left|]; (split; [done|by intros x ?%elem_of_nil]).
  - destruct (Z.ltb_spec as_of (effective_from p)) as [Hlt|Hge].
    { destruct m as [o|]; [left|]; (split; [done|by eapply not_yet]). }
    inversion Hs as [|? ? Hl Hf]; subst. rewrite Forall_forall in Hf.
    assert (Hcons : forall m', (forall o, m' = Some o -> (m = Some o /\ ~ allowed as_of paid p) \/ (o = p /\ allowed as_of paid p)) ->
       (m' = None -> m = None /\ ~ allowed as_of paid p) ->
       match latest_period as_of paid m' l with
       | Some o => (m = Some o /\ forall x, x ∈ p :: l -> ~ allowed as_of paid x)
              \/ (o ∈ p :: l /\ allowed as_of paid o /\ forall x, x ∈ p :: l -> allowed as_of paid x -> effective_from x <= effective_from o)
       | None => m = None /\ forall x, x ∈ p :: l -> ~ allowed as_of paid x
       end).
    { intros m' Hsome Hnone. specialize (IH m' Hl). destruct (latest_period as_of paid m' l) as [o|].
      - destruct IH as [[-> Hno]|(Ho & Ha & Hbest)].
        + destruct (Hsome o eq_refl) as [[-> Hp]|[-> Hp]].
          * left. split; [done|]. intros x [->|?]%elem_of_cons; [done|by apply Hno].
          * right. split; [left|]. split; [done|]. intros x [->|Hx]%elem_of_cons Hax; [done|by destruct (Hno x Hx)].
        + right. split; [by right|]. split; [done|]. intros x [->|Hx]%elem_of_cons Hax; [by apply Hf|by apply Hbest].
      - destruct IH as [-> Hno]. destruct (Hnone eq_refl) as [-> Hp]. split; [done|]. intros x [->|?]%elem_of_cons; [done|by apply Hno]. }
    destruct (paid && negb (bool_decide (origin p = Some OPERATOR_ORIGIN))) eqn:Eo.
    + assert (Hno : ~ allowed as_of paid p).
      { apply andb_true_iff in Eo as [-> Eo]. apply negb_true_iff, bool_decide_eq_false in Eo. intros [_ Hor]. by apply Eo, Hor. }
      apply Hcons; [intros o ->; by left|by intros ->].
    + assert (Hor : paid = true -> origin p = Some OPERATOR_ORIGIN).
      { intros ->. simpl in Eo. apply negb_false_iff, bool_decide_eq_true in Eo. done. }
      assert (Hal : allowed as_of paid p <-> match effective_to p with None => True | Some e => as_of < e end).
      { unfold allowed, period_applies. destruct (effective_to p); rewrite andb_true_iff, Z.leb_le; [rewrite Z.ltb_lt|]; tauto. }
      destruct (effective_to p) as [e|]; [destruct (Z.ltb_spec as_of e)|]; apply Hcons;
        first [intros o [= <-]; right; split; [done|by apply Hal] | intros o ->; left; split; [done|rewrite Hal; lia]
              | done | intros ->; split; [done|rewrite Hal; lia]].
Qed.

#[export] Instance ordered_by_start_total : Total ordered_by_start.
Proof. intros a b. unfold ordered_by_start. lia. Qed.
#[export] Instance ordered_by_start_trans : Transitive ordered_by_start.
Proof. intros a b c. unfold ordered_by_start. lia. Qed.

Lemma index_best db org k key as_of paid :
  best_override db org k key as_of paid (latest_period as_of paid None (override_index db org k key)).
Proof.
  unfold override_index. set (P := fun o : OrganizationModelPricing => _). set (l := filter P (overrides_of db)).
  pose proof (StronglySorted_merge_sort ordered_by_start l) as Hs.
  pose proof (latest_period_spec as_of paid _ None Hs) as H.
  assert (Hin : forall o, o ∈ merge_sort ordered_by_start l /\ allowed as_of paid o <-> o ∈ overrides_of db /\ applies org k key as_of paid o).
  { intros o. rewrite merge_sort_Permutation. unfold l. rewrite list_elem_of_filter. unfold P, applies, allowed. tauto. }
  destruct (latest_period _ _ _ _) as [o|]; simpl.
  - destruct H as [[? _]|(Ho & Ha & Hbest)]; [done|]. destruct (proj1 (Hin o) (conj Ho Ha)) as [H1 H2]. split; [done|]. split; [done|].
    intros o' H1' H2'. destruct (proj2 (Hin o') (conj H1' H2')). by apply Hbest.
  - destruct H as [_ Hno]. intros o H1 H2. destruct (proj2 (Hin o) (conj H1 H2)) as [Ho Ha]. by destruct (Hno o Ho).
Qed.

(** ** The batch *)

Lemma sorted_last {A} (R : relation A) `{!Reflexive R} l x : StronglySorted R l -> last l = Some x -> x ∈ l /\ forall y, y ∈ l -> R y x.
Proof.
  intros Hs. induction Hs as [|y l Hs IH Hf]; [done|]. rewrite last_cons. destruct (last l) as [z|] eqn:E.
  - intros [= <-]. destruct (IH eq_refl) as [H1 H2]. split; [by right|]. intros w [->|Hw]%elem_of_cons; [|by apply H2].
    rewrite Forall_forall in Hf. by apply Hf.
  - intros [= <-]. apply last_None in E as ->. split; [left|]. intros w [->|Hw]%elem_of_cons; [done|by apply elem_of_nil in Hw].
Qed.

#[export] Instance ordered_by_start_refl : Reflexive ordered_by_start.
Proof. intros a. unfold ordered_by_start. lia. Qed.

Lemma row_best db org key as_of : best_override db org MODEL_KIND key as_of false (applicable_row db org as_of key).
Proof.
  unfold applicable_row. set (P := fun o : OrganizationModelPricing => _). set (l := filter P (overrides_of db)).
  pose proof (StronglySorted_merge_sort ordered_by_start l) as Hs.
  assert (Hin : forall o, o ∈ merge_sort ordered_by_start l <-> o ∈ overrides_of db /\ applies org MODEL_KIND key as_of false o).
  { intros o. rewrite merge_sort_Permutation. unfold l. rewrite list_elem_of_filter. unfold P, applies. naive_solver. }
  destruct (last (merge_sort ordered_by_start l)) as [o|] eqn:E; simpl.
  - destruct (sorted_last _ _ _ Hs E) as [H1 H2]. apply Hin in H1 as [H1 H1']. split; [done|]. split; [done|].
    intros o' Ho Ha. apply H2. by apply Hin.
  - apply last_None in E. intros o Ho Ha. assert (H : o ∈ merge_sort ordered_by_start l) by by apply Hin. rewrite E in H. by apply elem_of_nil in H.
Qed.

(** ** The query *)

Section query.
Context (keys : list string).

Lemma override_before_spec a b : override_before keys a b = true <->
  (key_rank keys (ov_key a) < key_rank keys (ov_key b))%nat
  \/ (key_rank keys (ov_key a) = key_rank keys (ov_key b) /\ effective_from b < effective_from a).
Proof. unfold override_before. cbv zeta. by rewrite orb_true_iff, andb_true_iff, Nat.ltb_lt, Nat.eqb_eq, Z.ltb_lt. Qed.

Lemma override_before_asym a b : override_before keys a b = true -> override_before keys b a = false.
Proof. intros H1. apply not_true_iff_false. intros H2. apply override_before_spec in H1, H2. lia. Qed.
Lemma override_before_connected a b c :
  override_before keys a b = false -> override_before keys b c = false -> override_before keys a c = false.
Proof. rewrite <- !not_true_iff_false, !override_before_spec. lia. Qed.
End query.

Lemma key_rank_app k1 k k2 : k ∉ k1 -> key_rank (k1 ++ k :: k2) k = length k1.
Proof.
  intros Hk. unfold key_rank. rewrite list_find_app_r; [|apply list_find_None, Forall_forall; intros x Hx <-; done].
  simpl. rewrite decide_True by done. simpl. lia.
Qed.

Lemma key_rank_lt keys j n : (key_rank keys j < n)%nat -> (n <= length keys)%nat -> exists i, keys !! i = Some j /\ (i < n)%nat.
Proof.
  unfold key_rank. destruct (list_find (eq j) keys) as [[i x]|] eqn:E; [|lia]. apply list_find_Some in E as (E & <- & _).
  intros. by exists i.
Qed.

Lemma query_some db org keys as_of paid o : find_organization_override db org keys as_of paid = Some o ->
  exists k1 k2, keys = (k1 ++ ov_key o :: k2)%list /\ best_override db org MODEL_KIND (ov_key o) as_of paid (Some o)
  /\ forall j, j ∈ k1 -> best_override db org MODEL_KIND j as_of paid None.
Proof.
  intros H. apply (first_of_some _ (override_before_asym keys) (override_before_connected keys)) in H as [Hin Hbest].
  apply list_elem_of_filter in Hin as [(Ho & Hk & Hmem & Ha & Hp) Hin].
  apply list_elem_of_split_l in Hmem as (k1 & k2 & -> & Hk1). exists k1, k2. split; [done|].
  assert (Hrank : key_rank (k1 ++ ov_key o :: k2) (ov_key o) = length k1) by by apply key_rank_app.
  assert (Hnot : forall o', o' ∈ overrides_of db -> applies org MODEL_KIND (ov_key o') as_of paid o' -> ov_key o' ∈ (k1 ++ ov_key o :: k2)%list ->
    ~ ((key_rank (k1 ++ ov_key o :: k2) (ov_key o') < length k1)%nat
       \/ (ov_key o' = ov_key o /\ effective_from o < effective_from o'))).
  { intros o' Hin' (Ho' & Hk' & _ & Ha' & Hp') Hmem' Hbefore.
    assert (E : override_before (k1 ++ ov_key o :: k2) o' o = false) by (apply Hbest, list_elem_of_filter; tauto).
    apply not_true_iff_false in E. apply E, override_before_spec. rewrite Hrank.
    destruct Hbefore as [?|[-> ?]]; [by left|right]. by rewrite Hrank. }
  split; [split; [done|split; [done|]]|].
  - intros o' Hin' Ha'. assert (Hkey : ov_key o' = ov_key o) by apply Ha'.
    assert (~ (effective_from o < effective_from o')); [|lia]. intros Hlt. apply (Hnot o' Hin'); [by rewrite Hkey| |by right].
    rewrite Hkey. apply elem_of_app. right. left.
  - intros j Hj o' Hin' Ha'. assert (Hkey : ov_key o' = j) by apply Ha'. subst j.
    apply (Hnot o' Hin' Ha'); [apply elem_of_app; by left|left].
    apply list_elem_of_split_l in Hj as (l1 & l2 & -> & Hl1). rewrite <- app_assoc. simpl. rewrite key_rank_app by done.
    rewrite length_app. simpl. lia.
Qed.

Lemma query_none db org keys as_of paid : find_organization_override db org keys as_of paid = None ->
  forall j, j ∈ keys -> best_override db org MODEL_KIND j as_of paid None.
Proof.
  intros H j Hj o Hin (Ho & Hk & Hkey & Ha & Hp). apply (first_of_none _ (override_before_asym keys) (override_before_connected keys)) in H.
  apply (not_elem_of_nil o). rewrite <- H. apply list_elem_of_filter. by subst.
Qed.

(** Whatever finds the row of a key that applies finds, over keys in order, what the query does. *)
Lemma query_as_first_key db org keys as_of paid (f : string -> option OrganizationModelPricing) :
  tables_ok db -> (forall key, key ∈ keys -> best_override db org MODEL_KIND key as_of paid (f key)) ->
  find_organization_override db org keys as_of paid = first_key f keys.
Proof.
  intros Hdb Hf. destruct (find_organization_override db org keys as_of paid) as [o|] eqn:E.
  - apply query_some in E as (k1 & k2 & -> & Ho & Hj). symmetry.
    assert (Hpre : forall j, j ∈ k1 -> f j = None).
    { intros j Hin. eapply best_override_unique; [done| |by apply Hj]. apply Hf, elem_of_app. by left. }
    assert (Hk : f (ov_key o) = Some o).
    { eapply best_override_unique; [done| |exact Ho]. apply Hf, elem_of_app. right. left. }
    clear -Hpre Hk. induction k1 as [|k k1 IH]; simpl; [by rewrite Hk|]. rewrite Hpre by left. apply IH. intros j ?. apply Hpre. by right.
  - symmetry. apply first_key_none. intros k Hk. eapply best_override_unique; [done|by apply Hf|]. by eapply query_none.
Qed.

(** ** The deployment's versions *)

Definition version_applies (k key : string) (as_of : Z) (r : PriceRow) : Prop :=
  p_kind r = k /\ p_key r = key /\ effective_at r <= as_of.
Definition best_version (db : PriceTables) (k key : string) (as_of : Z) (r : option PriceRow) : Prop :=
  match r with
  | Some r => r ∈ versions db /\ version_applies k key as_of r
              /\ forall r', r' ∈ versions db -> version_applies k key as_of r' -> effective_at r' <= effective_at r
  | None => forall r, r ∈ versions db -> ~ version_applies k key as_of r
  end.

Lemma best_version_unique db k key as_of r r' :
  tables_ok db -> best_version db k key as_of r -> best_version db k key as_of r' -> r = r'.
Proof.
  intros [_ Hn]. destruct r as [o|], r' as [o'|]; simpl; [| | |done].
  - intros (H1 & H2 & H3) (H1' & H2' & H3'). f_equal. eapply (nodup_fmap_inj _ _ o o' Hn H1 H1').
    specialize (H3 _ H1' H2'). specialize (H3' _ H1 H2). destruct H2 as (-> & -> & _), H2' as (-> & -> & _). simpl. f_equal. lia.
  - intros (H1 & H2 & _) H. by destruct (H o H1).
  - intros H (H1 & H2 & _). by destruct (H o' H1).
Qed.

Lemma newer_asym a b : newer a b = true -> newer b a = false.
Proof. unfold newer. lia. Qed.
Lemma newer_connected a b c : newer a b = false -> newer b c = false -> newer a c = false.
Proof. unfold newer. lia. Qed.

Lemma version_best db k key as_of : best_version db k key as_of (version_in_effect db k key as_of).
Proof.
  unfold version_in_effect. set (l := filter _ _).
  assert (Hin : forall r, r ∈ l <-> r ∈ versions db /\ version_applies k key as_of r).
  { intros r. unfold l. rewrite list_elem_of_filter, Z.leb_le. unfold version_applies. tauto. }
  destruct (first_of newer None l) as [r|] eqn:E.
  - apply (first_of_some _ newer_asym newer_connected) in E as [H1 H2]. apply Hin in H1 as [H1 H1']. split; [done|]. split; [done|].
    intros r' Hr Ha. assert (Hn : newer r' r = false) by (apply H2, Hin; done). unfold newer in Hn. lia.
  - apply (first_of_none _ newer_asym newer_connected) in E. intros r Hr Ha. apply (not_elem_of_nil r). rewrite <- E. by apply Hin.
Qed.

Lemma max_date_spec (l : list PriceRow) :
  match foldr (fun r acc => Some (match acc with Some a => Z.max (effective_at r) a | None => effective_at r end)) None l with
  | Some t => (exists r, r ∈ l /\ effective_at r = t) /\ forall r, r ∈ l -> effective_at r <= t
  | None => l = []
  end.
Proof.
  induction l as [|r l IH]; simpl; [done|]. destruct (foldr _ None l) as [t|].
  - destruct IH as [(x & Hx & Ht) Hle]. split.
    + destruct (Z.max_spec (effective_at r) t) as [[_ ->]|[_ ->]]; [exists x; split; [by right|done]|exists r; split; [left|done]].
    + intros y [->|Hy]%elem_of_cons; [lia|]. specialize (Hle y Hy). lia.
  - subst. split; [exists r; split; [left|done]|]. intros y [->|Hy]%elem_of_cons; [lia|by apply elem_of_nil in Hy].
Qed.

Lemma newest_at_spec db as_of key :
  match newest_at db as_of key with
  | Some t => exists r, best_version db MODEL_KIND key as_of (Some r) /\ effective_at r = t
  | None => best_version db MODEL_KIND key as_of None
  end.
Proof.
  unfold newest_at. set (l := filter _ _). pose proof (max_date_spec l) as H.
  assert (Hin : forall r, r ∈ l <-> r ∈ versions db /\ version_applies MODEL_KIND key as_of r).
  { intros r. unfold l. rewrite list_elem_of_filter, Z.leb_le. unfold version_applies. tauto. }
  destruct (foldr _ None l) as [t|].
  - destruct H as [(r & Hr & Ht) Hle]. exists r. split; [|done]. apply Hin in Hr as [H1 H2]. split; [done|]. split; [done|].
    intros r' Hr' Ha. rewrite Ht. by apply Hle, Hin.
  - intros r Hr Ha. apply (not_elem_of_nil r). rewrite <- H. by apply Hin.
Qed.

Lemma row_version_best db key as_of : tables_ok db -> best_version db MODEL_KIND key as_of (deployment_row db as_of key).
Proof.
  intros Hdb. unfold deployment_row. pose proof (newest_at_spec db as_of key) as H. destruct (newest_at db as_of key) as [t|]; simpl; [|done].
  destruct H as (r & Hr & Ht). set (l := filter _ _).
  assert (Hin : forall x, x ∈ l <-> x ∈ versions db /\ p_kind x = MODEL_KIND /\ p_key x = key /\ effective_at x = t).
  { intros x. unfold l. rewrite list_elem_of_filter. tauto. }
  assert (Hall : forall x, x ∈ l -> x = r).
  { intros x (Hx & H1 & H2 & H3)%Hin. destruct Hr as (Hr & (H4 & H5 & _) & _).
    apply (nodup_fmap_inj _ _ x r (one_version _ Hdb) Hx Hr). simpl. congruence. }
  destruct (last l) as [x|] eqn:E.
  - assert (Hx : x ∈ l) by (apply last_Some_elem_of in E; done). by rewrite (Hall x Hx).
  - apply last_None in E. exfalso. apply (not_elem_of_nil r). rewrite <- E. apply Hin. destruct Hr as (Hr & (H1 & H2 & _) & _). done.
Qed.

Lemma deployment_row_agrees db key as_of : tables_ok db -> deployment_row db as_of key = find_by_model_key db key as_of.
Proof. intros Hdb. eapply best_version_unique; [done|by apply row_version_best|apply version_best]. Qed.

(** C29: The lookup order is stated three ways, and they answer alike: the query of a request, the index a report
    resolves periods from, whoever paid, and the batch a catalog primes its request with. *)
Theorem lookups_agree defaults default_pricing_enabled db org as_of : tables_ok db ->
  (forall keys deployment_paid,
     find_organization_override db org keys as_of deployment_paid
     = resolve_organization_override (load_organization_override_index db org keys) keys as_of deployment_paid)
  /\ (forall provider model payer, provider <> ""%string ->
     primed defaults default_pricing_enabled db provider model as_of payer
     = resolve_model_pricing defaults default_pricing_enabled db (Some provider) model as_of true payer false).
Proof.
  intros Hdb. split.
  - intros keys paid. rewrite (query_as_first_key _ _ _ _ _ (fun key => latest_period as_of paid None (override_index db org MODEL_KIND key)) Hdb);
      [|intros; apply index_best].
    apply first_key_ext. intros k Hk. unfold load_organization_override_index. by rewrite bool_decide_eq_true_2 by done.
  - intros provider model payer Hp. unfold primed, resolve_model_pricing, stored_pricing.
    assert (Hkey : model_key_of (Some provider) model = provider +:+ ":" +:+ model) by (by destruct provider; [destruct Hp|]).
    rewrite Hkey. set (forms := pricing_key_forms _).
    assert (Ho : (o ← payer; first_key (applicable_row db o as_of) forms) = (o ← payer; find_organization_override db o forms as_of false)).
    { destruct payer as [o|]; [|done]. simpl. symmetry. apply query_as_first_key; [done|]. intros; apply row_best. }
    rewrite Ho. destruct (o ← payer; find_organization_override db o forms as_of false) as [o|]; [done|].
    rewrite (first_key_ext _ (fun key => find_by_model_key db key as_of)) by (intros; by apply deployment_row_agrees).
    by destruct (first_key _ forms).
Qed.

Definition plain_rate (input output : Z) : ModelPricing :=
  mkModelPricing (mkPricing None (Some "token"%string) (Number (inject_Z input)) (Number (inject_Z output)) NoNumber NoNumber None) None.

(** One organization with a period that ended and one of the operator's, over a list with a legacy spelling. *)
Definition some_prices : PriceTables :=
  mkTables
    [mkOverrideRow "o1" "org" MODEL_KIND "openai:gpt" (plain_rate 1 2) 10 (Some 20) (Some API_ORIGIN);
     mkOverrideRow "o2" "org" MODEL_KIND "openai:gpt" (plain_rate 3 4) 20 None (Some OPERATOR_ORIGIN)]
    [mkPriceRow MODEL_KIND "openai/gpt" 0 (plain_rate 5 6); mkPriceRow MODEL_KIND "openai:gpt" 50 (plain_rate 7 8)].

Lemma some_prices_ok : tables_ok some_prices.
Proof. split; vm_compute; repeat constructor; rewrite ?elem_of_cons, ?elem_of_nil; intuition discriminate. Qed.

Lemma lookups_agree_witness :
  resolve_organization_override (load_organization_override_index some_prices "org" ["openai:gpt"; "openai/gpt"])
    ["openai:gpt"; "openai/gpt"] 15 true = None
  /\ find_organization_override some_prices "org" ["openai:gpt"; "openai/gpt"] 15 true = None.
Proof.
  assert (E : resolve_organization_override (load_organization_override_index some_prices "org" ["openai:gpt"; "openai/gpt"])
    ["openai:gpt"; "openai/gpt"] 15 true = None) by (vm_compute; reflexivity).
  split; [exact E|].
  destruct (lookups_agree (fun _ _ _ => None) false some_prices "org" 15 some_prices_ok) as [H _]. rewrite H. exact E.
Defined.

(** ** Reports *)

Lemma partition_at_here c x y : has_char c x = false -> partition_at c (x +:+ String c y) = (x, y).
Proof.
  intros H. induction x as [|a x IH].
  - simpl. by rewrite decide_True by done.
  - cbn [has_char] in H. apply orb_false_iff in H as [H1 H2]. apply bool_decide_eq_false in H1.
    change (partition_at c (String a (x +:+ String c y)) = (String a x, y)). cbn [partition_at].
    rewrite decide_False by done. by rewrite IH.
Qed.

Lemma partition_at_split c s : has_char c s = true ->
  exists x y, partition_at c s = (x, y) /\ s = x +:+ String c y /\ has_char c x = false.
Proof.
  induction s as [|a s IH]; [done|]. cbn [has_char partition_at]. destruct (decide (a = c)) as [->|Hne].
  - intros _. by exists ""%string, s.
  - rewrite bool_decide_eq_false_2 by done. intros H. destruct (IH H) as (x & y & -> & -> & Hx).
    exists (String a x), y. split; [done|]. split; [done|]. cbn [has_char]. by rewrite bool_decide_eq_false_2, Hx by done.
Qed.

Lemma has_char_app c a b : has_char c (a +:+ b) = has_char c a || has_char c b.
Proof.
  induction a as [|x a IH]; [done|]. change (has_char c (String x (a +:+ b)) = has_char c (String x a) || has_char c b).
  cbn [has_char]. by rewrite IH, orb_assoc.
Qed.

(** A lookup by a stored key's canonical form offers the canonical form, then the key. *)
Lemma forms_of_canonical key : exists rest, pricing_key_forms (canonical_key_form key) = canonical_key_form key :: rest
  /\ (canonical_key_form key <> key -> rest = [key]).
Proof.
  unfold canonical_key_form. destruct (has_char "/"%char key && negb (has_char ":"%char key)) eqn:E.
  - apply andb_true_iff in E as [H1 H2%negb_true_iff]. destruct (partition_at_split _ _ H1) as (x & y & Hp & Hkey & Hx).
    rewrite Hp. assert (Hcolon : has_char ":"%char x = false).
    { rewrite Hkey, has_char_app in H2. by apply orb_false_iff in H2 as [? _]. }
    change (":" +:+ y) with (String ":"%char y). unfold pricing_key_forms.
    rewrite has_char_app, Hcolon. cbn [has_char orb]. rewrite bool_decide_eq_true_2 by done. simpl (true || _).
    rewrite partition_at_here by done. eexists. split; [done|]. intros _. by rewrite Hkey.
  - unfold pricing_key_forms. destruct (has_char ":"%char key); [destruct (partition_at _ _)|]; by eexists.
Qed.

Lemma in_force_spec db as_of r : tables_ok db ->
  r ∈ in_force db as_of <-> r ∈ versions db /\ p_kind r = MODEL_KIND /\ find_by_model_key db (p_key r) as_of = Some r.
Proof.
  intros Hdb. unfold in_force. rewrite list_elem_of_filter. pose proof (newest_at_spec db as_of (p_key r)) as Hn.
  pose proof (version_best db MODEL_KIND (p_key r) as_of) as Hv. split.
  - intros [(Hk & Ht) Hin]. split; [done|]. split; [done|]. rewrite Ht in Hn. destruct Hn as (x & Hx & Hd).
    eapply best_version_unique; [done|exact Hv|]. destruct Hx as (Hx & (H1 & H2 & H3) & Hbest). split; [done|]. split; [split; [done|split; [done|lia]]|].
    intros r' Hr Ha. rewrite <- Hd. by apply Hbest.
  - intros (Hin & Hk & Hf). split; [|done]. split; [done|]. unfold find_by_model_key in Hf. rewrite Hf in Hv.
    destruct (newest_at db as_of (p_key r)) as [t|].
    + destruct Hn as (x & Hx & <-). by injection (best_version_unique _ _ _ _ _ _ Hdb Hx Hv) as ->.
    + destruct Hv as (H1 & H2 & _). by destruct (Hn r H1).
Qed.

(** A report of the rates in force names exactly the rows a lookup picks, each model once, under whichever
    spelling its row was stored. *)
Theorem report_names_what_lookups_pick db as_of r : tables_ok db ->
  r ∈ rates_in_force db as_of (fun _ => true) <->
  r ∈ versions db /\ p_kind r = MODEL_KIND
  /\ price_in_effect db (pricing_key_forms (canonical_key_form (p_key r))) as_of MODEL_KIND = Some r.
Proof.
  intros Hdb. unfold rates_in_force. set (rows := filter _ (in_force db as_of)).
  assert (Hrows : forall x, x ∈ rows <-> x ∈ in_force db as_of) by (intros x; unfold rows; rewrite list_elem_of_filter; tauto).
  rewrite list_elem_of_filter, Hrows, in_force_spec by done.
  destruct (forms_of_canonical (p_key r)) as (rest & Hforms & Hrest). unfold price_in_effect. rewrite Hforms. cbn [first_key].
  change (version_in_effect db MODEL_KIND (canonical_key_form (p_key r)) as_of) with (find_by_model_key db (canonical_key_form (p_key r)) as_of).
  destruct (decide (canonical_key_form (p_key r) = p_key r)) as [Hc|Hc].
  - rewrite Hc. destruct (find_by_model_key db (p_key r) as_of) as [x|] eqn:E; [naive_solver|].
    split; [intros (_ & _ & _ & ?); discriminate|]. intros (Hin & Hk & Hf).
    destruct (first_key_some _ _ _ Hf) as (k1 & k & k2 & _ & Hk' & _). pose proof (version_best db MODEL_KIND k as_of) as Hv.
    rewrite Hk' in Hv. destruct Hv as (Hr & (H1 & H2 & H3) & _). pose proof (version_best db MODEL_KIND (p_key r) as_of) as Hn.
    unfold find_by_model_key in E. rewrite E in Hn. by destruct (Hn r Hr).
  - rewrite (Hrest Hc). cbn [first_key]. change (version_in_effect db MODEL_KIND (p_key r) as_of) with (find_by_model_key db (p_key r) as_of).
    assert (Hcanon : canonical_key_form (p_key r) ∈ p_key <$> rows <-> is_Some (find_by_model_key db (canonical_key_form (p_key r)) as_of)).
    { rewrite list_elem_of_fmap. split.
      - intros (x & Hx & Hin). apply Hrows, in_force_spec in Hin as (_ & _ & Hf); [|done]. rewrite Hx. by eexists.
      - intros [x Hx]. exists x. pose proof (version_best db MODEL_KIND (canonical_key_form (p_key r)) as_of) as Hv.
        unfold find_by_model_key in Hx. rewrite Hx in Hv. destruct Hv as (H1 & (H2 & H3 & _) & _). split; [done|].
        apply Hrows, in_force_spec; [done|]. split; [done|]. split; [done|]. by rewrite H3. }
    destruct (find_by_model_key db (canonical_key_form (p_key r)) as_of) as [x|] eqn:E.
    + split; [intros ([?|Hno] & _); [done|]; destruct Hno; apply Hcanon; by eexists|]. intros (_ & _ & [= ->]).
      exfalso. pose proof (version_best db MODEL_KIND (canonical_key_form (p_key r)) as_of) as Hv.
      unfold find_by_model_key in E. rewrite E in Hv. destruct Hv as (_ & (_ & H & _) & _). by rewrite <- H in Hc.
    + destruct (find_by_model_key db (p_key r) as_of) as [y|] eqn:Ey; [|naive_solver].
      split; [intros (_ & H1 & H2 & [= ->]); done|]. intros (H1 & H2 & [= ->]). split; [|done]. right. intros Hin. by apply Hcanon in Hin as [? ?].
Qed.

Lemma report_names_what_lookups_pick_witness :
  exists r, r ∈ rates_in_force some_prices 30 (fun _ => true) /\ p_key r = "openai/gpt"%string.
Proof.
  exists (mkPriceRow MODEL_KIND "openai/gpt" 0 (plain_rate 5 6)). split; [|reflexivity].
  apply (report_names_what_lookups_pick some_prices 30 _ some_prices_ok). split; [left|split; [reflexivity|vm_compute; reflexivity]].
Defined.

(** A live rate a listing of current rates leaves out: its model's other spelling has a version scheduled for later, which
    is shown in its place. *)
Theorem current_rates_hide_a_live_one :
  exists r, r ∈ rates_in_force some_prices 30 (fun _ => true)
  /\ r ∉ current_rates some_prices 30 (fun _ => true)
  /\ exists later, current_rates some_prices 30 (fun _ => true) = [later] /\ 30 < effective_at later.
Proof.
  assert (E : current_rates some_prices 30 (fun _ => true) = [mkPriceRow MODEL_KIND "openai:gpt" 50 (plain_rate 7 8)])
    by (vm_compute; reflexivity).
  exists (mkPriceRow MODEL_KIND "openai/gpt" 0 (plain_rate 5 6)). split; [vm_compute; left|]. split.
  - rewrite E, list_elem_of_singleton. discriminate.
  - eexists. split; [exact E|]. reflexivity.
Qed.

(** The rates in effect an organization is shown, and is seeded against, leave out an override stored under the legacy
    spelling, which prices its requests. *)
Theorem rates_in_effect_miss_legacy_overrides :
  let o := mkOverrideRow "o1" "org" MODEL_KIND "openai/gpt" (plain_rate 1 2) 10 None (Some API_ORIGIN) in
  let db := mkTables [o] [] in
  rate_in_effect (fun _ _ _ => None) db "org" "openai:gpt" 15 = None
  /\ find_model_pricing (fun _ _ _ => None) false db (Some "openai"%string) "gpt" 15 true (Some "org"%string) false
     = Some (override_as_model_pricing o).
Proof. split; vm_compute; reflexivity. Qed.
