(* ===== verification/PriceWrites.v ===== *)
(** Writing an organization's own rates ([src/src/gateway/services/organization_pricing_service.py]) and seeding
    them from the published prices ([src/src/gateway/services/providers/_org_provider_model_service.py]).

    What the tenancy tables say of a caller, and what the configuration and the hosted-credential port say of a
    key, are arguments.  A write that passes its checks and the table's unique index is committed. *)
From Stdlib Require Import ZArith Lia QArith Ascii String.
From stdpp Require Import base strings list sorting sets.
From S2P Require Import Prelude Text ModelAccess MeteredPricing UsagePricing ToolPricing PriceLookup PriceLookupProofs.

Local Open Scope string_scope.
Local Open Scope Z_scope.

(** ** Who writes *)

Record Caller := mkCaller { organization : string; manages : bool; operates_deployment : bool }.

(** What the port answers for a provider, and for one of its models: a hosted credential, none, or a refusal. *)
Inductive hosted_answer := HostedAccessDenied | HostedCredential | NoHostedCredential.
Record Deployment := mkDeployment {
  providers : list string;
  model_provider : option (string -> option string -> hosted_answer);
  byo_providers : list string
}.

Inductive price_error :=
| PricingForbidden
| ToolRateError (tool_kind name : string)
| ManagedModelError (key : string)
| TenancyValidationError
| OverlapError (key : string) (from : Z) (to : option Z)
| PricingNotFound (pricing_id : string)
| OperatorRateError (key : string).

(** ** What the deployment pays for *)

Definition is_deployment_instance_key (d : Deployment) (key : string) : bool :=
  match split_selector key with Some (provider, _) => bool_decide (provider ∈ providers d) | None => false end.

Definition serves (a : hosted_answer) : bool := match a with NoHostedCredential => false | _ => true end.
Definition hosted_serves_provider (d : Deployment) (provider : string) : bool :=
  match model_provider d with None => false | Some port => serves (port provider None) end.

Definition is_deployment_supplied (d : Deployment) (key : string) : bool :=
  if is_deployment_instance_key d key then true
  else match model_provider d, split_selector key with
       | Some port, Some (provider, model) =>
           if bool_decide (provider ∈ byo_providers d) then false else serves (port provider (Some model))
       | _, _ => false
       end.

(** The port is asked for a provider before it is asked for its models. *)
Definition supplied_key (d : Deployment) (key : string) : bool :=
  match split_selector key with
  | Some (provider, _) =>
      if negb (bool_decide (provider ∈ byo_providers d)) && negb (is_deployment_instance_key d key)
         && negb (hosted_serves_provider d provider)
      then false else is_deployment_supplied d key
  | None => is_deployment_supplied d key
  end.
Definition deployment_supplied_keys (d : Deployment) (keys : list string) : list string :=
  filter (fun key => supplied_key d key = true) keys.

Definition CODE_EXECUTION_TOOL_NAME : string := "code_execution".
Definition CODE_EXECUTION_KEYS : list string := pricing_key_forms (gateway_tool_pricing_key CODE_EXECUTION_TOOL_NAME).

Definition raise_if_deployment_supplied (d : Deployment) (c : Caller) (key k : string) : option price_error :=
  if operates_deployment c then None
  else if negb (bool_decide (k = MODEL_KIND)) then Some (ToolRateError k key)
  else if bool_decide (key ∈ CODE_EXECUTION_KEYS) then Some (ToolRateError "code execution" key)
  else if bool_decide (key ∈ deployment_supplied_keys d [key]) then Some (ManagedModelError key)
  else None.

(** ** Validation *)

Record PricingOverrideInput := mkInput {
  in_columns : Pricing;
  in_from : Z;
  in_to : option Z;
  in_rates : option PriceBlock
}.

Definition negative (v : raw) : bool := match v with Number q => negb (Qle_bool 0 q) | NoNumber => false end.
Definition validate_rates (i : PricingOverrideInput) : bool :=
  let c := in_columns i in
  negb (existsb negative [input_price_per_million c; output_price_per_million c;
                          cache_read_price_per_million c; cache_write_price_per_million c]).
Definition validate_unit (k : string) (unit : option string) : bool :=
  bool_decide (k = MODEL_KIND) || bool_decide (unit = Some "request").
Definition validate_period (from : Z) (to : option Z) : bool :=
  match to with Some e => from <? e | None => true end.
Definition validated (k : string) (i : PricingOverrideInput) : bool :=
  validate_period (in_from i) (in_to i) && validate_rates i && validate_unit k (unit_name (in_columns i)).

(** ** Overlaps *)

Definition overlaps (from : Z) (to : option Z) (o : OrganizationModelPricing) : bool :=
  match effective_to o with None => true | Some e => from <? e end
  && match to with None => true | Some e => effective_from o <? e end.

Definition overlapping (db : PriceTables) (org k key : string) (from : Z) (to : option Z) (exclude : option string)
    : option OrganizationModelPricing :=
  head (filter (fun o => organization_id o = org /\ kind o = k /\ ov_key o = key /\ overlaps from to o = true
                         /\ exclude <> Some (row_id o)) (overrides_of db)).

Definition origin_for (c : Caller) : string := if operates_deployment c then OPERATOR_ORIGIN else API_ORIGIN.
Definition operator_rate (c : Caller) (o : OrganizationModelPricing) : bool :=
  bool_decide (origin o = Some OPERATOR_ORIGIN) && negb (operates_deployment c).

(** ** The table's own rule *)

Definition with_overrides (db : PriceTables) (l : list OrganizationModelPricing) : PriceTables := mkTables l (versions db).
Definition start_of (o : OrganizationModelPricing) : string * string * string * Z :=
  (organization_id o, kind o, ov_key o, effective_from o).

(** A flush, refused by the unique index; [old] is the row it rewrites. *)
Definition flush (db : PriceTables) (old : option string) (o : OrganizationModelPricing)
    : result price_error (PriceTables * OrganizationModelPricing) :=
  match find (fun x => bool_decide (start_of x = start_of o /\ old <> Some (row_id x))) (overrides_of db) with
  | Some clash => Err (OverlapError (ov_key o) (effective_from clash) (effective_to clash))
  | None =>
      Ok (with_overrides db (match old with
                             | None => (overrides_of db ++ [o])%list
                             | Some i => (fun x => if bool_decide (row_id x = i) then o else x) <$> overrides_of db
                             end), o)
  end.

Definition owned_row (db : PriceTables) (org pricing_id : string) : option OrganizationModelPricing :=
  find (fun o => bool_decide (row_id o = pricing_id /\ organization_id o = org)) (overrides_of db).

(** ** The writes *)

Section writes.
(** The block a row written without one is given from its columns. *)
Context (rates_from_columns : Pricing -> PriceBlock).

(** [fresh] is the id the row is created with. *)
Definition create_for_caller (d : Deployment) (c : Caller) (fresh key k : string) (i : PricingOverrideInput) (db : PriceTables)
    : result price_error (PriceTables * OrganizationModelPricing) :=
  if negb (manages c) then Err PricingForbidden
  else match raise_if_deployment_supplied d c key k with
  | Some e => Err e
  | None =>
      if negb (validated k i) then Err TenancyValidationError
      else match overlapping db (organization c) k key (in_from i) (in_to i) None with
      | Some o => Err (OverlapError key (effective_from o) (effective_to o))
      | None =>
          flush db None
            (mkOverrideRow fresh (organization c) k key
               (mkModelPricing (in_columns i) (Some (default (rates_from_columns (in_columns i)) (in_rates i))))
               (in_from i) (in_to i) (Some (origin_for c)))
      end
  end.

Definition replace_for_caller (d : Deployment) (c : Caller) (pricing_id : string) (i : PricingOverrideInput) (db : PriceTables)
    : result price_error (PriceTables * OrganizationModelPricing) :=
  if negb (manages c) then Err PricingForbidden
  else match owned_row db (organization c) pricing_id with
  | None => Err (PricingNotFound pricing_id)
  | Some o =>
      if operator_rate c o then Err (OperatorRateError (ov_key o))
      else match raise_if_deployment_supplied d c (ov_key o) (kind o) with
      | Some e => Err e
      | None =>
          if negb (validated (kind o) i) then Err TenancyValidationError
          else match overlapping db (organization c) (kind o) (ov_key o) (in_from i) (in_to i) (Some (row_id o)) with
          | Some x => Err (OverlapError (ov_key o) (effective_from x) (effective_to x))
          | None =>
              flush db (Some (row_id o))
                (mkOverrideRow (row_id o) (organization_id o) (kind o) (ov_key o)
                   (mkModelPricing (in_columns i) (match in_rates i with Some r => Some r | None => block (ov_rate o) end))
                   (in_from i) (in_to i) (Some (origin_for c)))
          end
      end
  end.

Definition delete_for_caller (c : Caller) (pricing_id : string) (db : PriceTables) : result price_error PriceTables :=
  if negb (manages c) then Err PricingForbidden
  else match owned_row db (organization c) pricing_id with
  | None => Err (PricingNotFound pricing_id)
  | Some o =>
      if operator_rate c o then Err (OperatorRateError (ov_key o))
      else Ok (with_overrides db (filter (fun x => row_id x <> row_id o) (overrides_of db)))
  end.

(** ** Seeding *)

Definition seeded_row (fresh org key : string) (price : ModelPricing) (now : Z) : OrganizationModelPricing :=
  mkOverrideRow fresh org MODEL_KIND key
    (mkModelPricing (columns price) (Some (default (rates_from_columns (columns price)) (block price)))) now None (Some SEED_ORIGIN).

(** A model offered on an organization's key: the rate it is seeded with, where no table prices it. *)
Definition seed_offered (d : Deployment) (price : option ModelPricing) (fresh org key : string) (now : Z) (db : PriceTables)
    : result price_error PriceTables :=
  match applicable_row db org now key, deployment_row db now key, price with
  | None, None, Some price =>
      if bool_decide (key ∈ deployment_supplied_keys d [key]) then Ok db
      else match flush db None (seeded_row fresh org key price now) with Ok (db', _) => Ok db' | Err e => Err e end
  | _, _, _ => Ok db
  end.
End writes.

(** * What an organization's writes keep: one rate at an instant, and the operator's rates for what the deployment
    pays for. *)

Local Open Scope Z_scope.

Definition same_key (a b : OrganizationModelPricing) : Prop :=
  organization_id a = organization_id b /\ kind a = kind b /\ ov_key a = ov_key b.

Definition apart (a b : OrganizationModelPricing) : Prop :=
  same_key a b -> overlaps (effective_from a) (effective_to a) b = false.

Definition proper_period (o : OrganizationModelPricing) : Prop :=
  match effective_to o with Some e => effective_from o < e | None => True end.

(** The periods of a key never overlap, and an id names one row. *)
Record overrides_ok (db : PriceTables) : Prop := {
  ids_differ : NoDup (row_id <$> overrides_of db);
  periods_proper : Forall proper_period (overrides_of db);
  periods_apart : forall a b, a ∈ overrides_of db -> b ∈ overrides_of db -> row_id a <> row_id b -> apart a b
}.

Lemma overlaps_sym a b : overlaps (effective_from a) (effective_to a) b = overlaps (effective_from b) (effective_to b) a.
Proof. unfold overlaps. by rewrite andb_comm. Qed.

Lemma apart_sym a b : apart a b -> apart b a.
Proof. unfold apart, same_key. intros H (?&?&?). rewrite overlaps_sym. apply H. naive_solver. Qed.

(** At no instant do two rows of a key apply. *)
Lemma one_applies db as_of org k key a b : overrides_ok db ->
  a ∈ overrides_of db -> b ∈ overrides_of db ->
  applies org k key as_of false a -> applies org k key as_of false b -> a = b.
Proof.
  intros [Hid _ Hap] Ha Hb (A1 & A2 & A3 & A4 & _) (B1 & B2 & B3 & B4 & _).
  destruct (decide (row_id a = row_id b)) as [E|Hne]; [by eapply (nodup_fmap_inj row_id)|].
  specialize (Hap a b Ha Hb Hne). assert (Hs : same_key a b) by (unfold same_key; naive_solver). specialize (Hap Hs).
  unfold overlaps, period_applies in *. destruct (effective_to a), (effective_to b); lia.
Qed.

Lemma overlapping_none db org k key from to exclude : overlapping db org k key from to exclude = None ->
  forall o, o ∈ overrides_of db -> organization_id o = org -> kind o = k -> ov_key o = key -> exclude <> Some (row_id o) ->
  overlaps from to o = false.
Proof.
  unfold overlapping. intros H o Hin Ho Hk Hkey Hne. apply head_None in H. apply not_true_iff_false. intros E.
  apply (not_elem_of_nil o). rewrite <- H. apply list_elem_of_filter. tauto.
Qed.

Lemma flush_insert db o db' x : flush db None o = Ok (db', x) -> db' = with_overrides db (overrides_of db ++ [o]).
Proof. unfold flush. destruct (find _ _); [done|]. by intros [= <- _]. Qed.
Lemma flush_update db i o db' x : flush db (Some i) o = Ok (db', x) ->
  db' = with_overrides db ((fun y => if bool_decide (row_id y = i) then o else y) <$> overrides_of db).
Proof. unfold flush. destruct (find _ _); [done|]. by intros [= <- _]. Qed.

Lemma owned_row_some db org i o : owned_row db org i = Some o ->
  o ∈ overrides_of db /\ row_id o = i /\ organization_id o = org.
Proof. unfold owned_row. intros [Hin Hb]%find_some. apply bool_decide_eq_true in Hb. split; [by apply list_elem_of_In|done]. Qed.

Lemma validated_period k i : validated k i = true -> match in_to i with Some e => in_from i < e | None => True end.
Proof. unfold validated, validate_period. destruct (in_to i); [|done]. rewrite !andb_true_iff. lia. Qed.

Lemma nodup_fmap_filter {A B} (f : A -> B) (P : A -> Prop) `{!forall x, Decision (P x)} l : NoDup (f <$> l) -> NoDup (f <$> filter P l).
Proof.
  induction l as [|x l IH]; [done|]. rewrite fmap_cons, NoDup_cons, filter_cons. intros [Hx Hl]. destruct (decide (P x)); [|by apply IH].
  rewrite fmap_cons. constructor; [|by apply IH]. intros (y & Hy & Hin)%list_elem_of_fmap. apply Hx. rewrite Hy.
  apply list_elem_of_fmap_2. by apply list_elem_of_filter in Hin as [_ ?].
Qed.

Lemma insert_ok db o : overrides_ok db -> row_id o ∉ row_id <$> overrides_of db -> proper_period o ->
  (forall x, x ∈ overrides_of db -> apart o x) -> overrides_ok (with_overrides db (overrides_of db ++ [o])).
Proof.
  intros [H1 H2 H3] Hid Hp Ha. split; simpl.
  - rewrite fmap_app. apply NoDup_app. split; [done|]. split; [|apply NoDup_singleton].
    intros x Hx Hx'. apply list_elem_of_singleton in Hx' as ->. done.
  - apply Forall_app. split; [done|by apply Forall_singleton].
  - intros a b [Ha'|Ha']%elem_of_app [Hb'|Hb']%elem_of_app Hne; rewrite ?list_elem_of_singleton in *; subst; try done;
      [by apply H3|by apply apart_sym, Ha|by apply Ha].
Qed.

Lemma update_ok db i o : overrides_ok db -> row_id o = i -> i ∈ row_id <$> overrides_of db -> proper_period o ->
  (forall x, x ∈ overrides_of db -> row_id x <> i -> apart o x) ->
  overrides_ok (with_overrides db ((fun y => if bool_decide (row_id y = i) then o else y) <$> overrides_of db)).
Proof.
  intros [H1 H2 H3] Hi Hin Hp Ha. set (f := fun y => if bool_decide (row_id y = i) then o else y).
  assert (Hid : forall y, row_id (f y) = row_id y) by (intros y; unfold f; destruct (bool_decide_reflect (row_id y = i)); congruence).
  split; simpl.
  - rewrite <- list_fmap_compose. by rewrite (list_fmap_ext _ row_id) by (intros; apply Hid).
  - rewrite Forall_fmap. eapply Forall_impl; [exact H2|]. intros y Hy. unfold compose, f. by destruct (bool_decide _).
  - intros a b (x & -> & Hx)%list_elem_of_fmap (y & -> & Hy)%list_elem_of_fmap. rewrite !Hid. intros Hne. unfold f.
    destruct (bool_decide_reflect (row_id x = i)), (bool_decide_reflect (row_id y = i));
      [congruence|by apply Ha|by apply apart_sym, Ha|by apply H3].
Qed.

(** However an organization writes its rates, the periods of a key never overlap, so at any instant one override
    at most applies to a key. *)
Theorem periods_never_overlap rfc d c db : overrides_ok db ->
  (forall fresh key k i db' o, fresh ∉ row_id <$> overrides_of db ->
     create_for_caller rfc d c fresh key k i db = Ok (db', o) -> overrides_ok db')
  /\ (forall pricing_id i db' o, replace_for_caller d c pricing_id i db = Ok (db', o) -> overrides_ok db')
  /\ (forall pricing_id db', delete_for_caller c pricing_id db = Ok db' -> overrides_ok db').
Proof.
  intros Hok. split; [|split].
  - intros fresh key k i db' o Hf. unfold create_for_caller. destruct (negb _); [done|]. destruct (raise_if_deployment_supplied _ _ _ _); [done|].
    destruct (validated k i) eqn:Hv; [|done]. cbn [negb]. destruct (overlapping _ _ _ _ _ _ _) eqn:Ho; [done|].
    intros ->%flush_insert. apply insert_ok; [done|done| |].
    + unfold proper_period. simpl. by eapply validated_period.
    + intros x Hx (S1 & S2 & S3). simpl in *. by eapply overlapping_none.
  - intros pid i db' o'. unfold replace_for_caller. destruct (negb _); [done|]. destruct (owned_row _ _ _) as [o|] eqn:Hrow; [|done].
    destruct (operator_rate c o); [done|]. destruct (raise_if_deployment_supplied _ _ _ _); [done|].
    destruct (validated (kind o) i) eqn:Hv; [|done]. cbn [negb]. destruct (overlapping _ _ _ _ _ _ _) eqn:Ho; [done|].
    intros ->%flush_update. apply owned_row_some in Hrow as (Hin & _ & Horg). apply update_ok; [done|done|by apply list_elem_of_fmap_2| |].
    + unfold proper_period. simpl. by eapply validated_period.
    + intros x Hx Hne (S1 & S2 & S3). simpl in *. eapply overlapping_none; try done; [congruence|]. by intros [= ?].
  - intros pid db'. unfold delete_for_caller. destruct (negb _); [done|]. destruct (owned_row _ _ _) as [o|]; [|done].
    destruct (operator_rate c o); [done|]. intros [= <-]. destruct Hok as [H1 H2 H3]. split; simpl.
    + by apply nodup_fmap_filter.
    + apply Forall_forall. intros x [_ Hx]%list_elem_of_filter. rewrite Forall_forall in H2. by apply H2.
    + intros a b [_ Ha]%list_elem_of_filter [_ Hb]%list_elem_of_filter. by apply H3.
Qed.

(** ** What the deployment pays for *)

Definition operator_rows (db : PriceTables) : list OrganizationModelPricing :=
  filter (fun o => origin o = Some OPERATOR_ORIGIN) (overrides_of db).

Lemma operator_rows_applies db org k key as_of o :
  o ∈ overrides_of db /\ applies org k key as_of true o <-> o ∈ operator_rows db /\ applies org k key as_of true o.
Proof. unfold operator_rows, applies. rewrite list_elem_of_filter. naive_solver. Qed.

Lemma best_override_ext db db' org k key as_of r : operator_rows db = operator_rows db' ->
  best_override db org k key as_of true r -> best_override db' org k key as_of true r.
Proof.
  intros E. destruct r as [o|]; simpl.
  - intros (H1 & H2 & H3). destruct (proj1 (operator_rows_applies db org k key as_of o) (conj H1 H2)) as [Hin _]. rewrite E in Hin.
    destruct (proj2 (operator_rows_applies db' org k key as_of o) (conj Hin H2)) as [Hin' _]. split; [done|]. split; [done|].
    intros o' Ho Ha. apply (H3 o'); [|done]. apply (operator_rows_applies db org k key as_of). rewrite E. by apply operator_rows_applies.
  - intros H o Ho Ha. apply (H o); [|done]. apply (operator_rows_applies db org k key as_of). rewrite E. by apply operator_rows_applies.
Qed.

(** The rates of calls and requests the deployment pays for: a model's, by any caller, and a tool's. *)
Lemma deployment_paid_rates_ext defaults enabled db db' org : tables_ok db -> tables_ok db' ->
  operator_rows db = operator_rows db' -> versions db = versions db' ->
  (forall provider model as_of use_defaults,
     resolve_model_pricing defaults enabled db provider model as_of use_defaults org true
     = resolve_model_pricing defaults enabled db' provider model as_of use_defaults org true)
  /\ (forall lookup as_of search, operator_set_only lookup = true ->
     first_tool_rate enabled db org as_of lookup search = first_tool_rate enabled db' org as_of lookup search).
Proof.
  intros Hdb Hdb' Ho Hv.
  assert (Hper : forall o k key as_of, latest_period as_of true None (override_index db o k key) = latest_period as_of true None (override_index db' o k key)).
  { intros. eapply best_override_unique; [exact Hdb'| |apply index_best]. eapply best_override_ext; [done|]. apply index_best. }
  assert (Hver : forall k key as_of, version_in_effect db k key as_of = version_in_effect db' k key as_of)
    by (intros; unfold version_in_effect; by rewrite Hv).
  split.
  - intros provider model as_of ud. unfold resolve_model_pricing, stored_pricing. set (forms := pricing_key_forms _).
    assert (E1 : (o ← org; find_organization_override db o forms as_of true) = (o ← org; find_organization_override db' o forms as_of true)).
    { destruct org as [o|]; [|done]. simpl.
      rewrite (query_as_first_key _ _ _ _ _ (fun key => latest_period as_of true None (override_index db o MODEL_KIND key)) Hdb) by (intros; apply index_best).
      rewrite (query_as_first_key _ _ _ _ _ (fun key => latest_period as_of true None (override_index db' o MODEL_KIND key)) Hdb') by (intros; apply index_best).
      apply first_key_ext. intros; apply Hper. }
    rewrite E1. unfold find_by_model_key.
    by rewrite (first_key_ext _ (fun key => version_in_effect db' MODEL_KIND key as_of)) by (intros; apply Hver).
  - intros lookup as_of search Hop. unfold first_tool_rate. rewrite Hop.
    assert (Hst : forall k, stored_tool_rate db org as_of true k = stored_tool_rate db' org as_of true k).
    { intros k. unfold stored_tool_rate, tool_deployment_rate. rewrite Hv. destruct org as [o|]; [|done]. simpl.
      assert (Hf : forall forms : list (string * string), list_find (fun form => is_Some (latest_period as_of true None (override_index db o form.1 form.2))) forms
        = list_find (fun form => is_Some (latest_period as_of true None (override_index db' o form.1 form.2))) forms).
      { intros forms. apply list_find_ext. intros [? ?]. by rewrite Hper. }
      rewrite Hf. destruct (list_find _ (rate_key_forms k)) as [[? [? ?]]|]; [|done]. by rewrite Hper. }
    assert (Hk : forall keys, first_rate_key (stored_tool_rate db org as_of true) keys = first_rate_key (stored_tool_rate db' org as_of true) keys).
    { intros keys. induction keys as [|k keys IH]; simpl; [done|]. by rewrite Hst, IH. }
    by rewrite Hk.
Qed.

Lemma operator_rows_app l o db : origin o <> Some OPERATOR_ORIGIN -> overrides_of db = l ->
  operator_rows (with_overrides db (l ++ [o])) = operator_rows db.
Proof.
  intros Ho <-. unfold operator_rows. simpl. rewrite filter_app, filter_cons_False by done. by rewrite filter_nil, app_nil_r.
Qed.

Lemma filter_fmap_same {A} (P : A -> Prop) `{!forall x, Decision (P x)} (f : A -> A) (l : list A) :
  (forall x, x ∈ l -> f x = x \/ (~ P x /\ ~ P (f x))) -> filter P (f <$> l) = filter P l.
Proof.
  induction l as [|x l IH]; intros Hs; [done|]. rewrite fmap_cons, !filter_cons, IH by (intros; apply Hs; by right).
  destruct (Hs x) as [->|[H1 H2]]; [left|done|]. by rewrite !decide_False by done.
Qed.

Lemma filter_filter_same {A} (P Q : A -> Prop) `{!forall x, Decision (P x)} `{!forall x, Decision (Q x)} (l : list A) :
  (forall x, x ∈ l -> ~ Q x -> ~ P x) -> filter P (filter Q l) = filter P l.
Proof.
  induction l as [|x l IH]; intros Hs; [done|]. rewrite (filter_cons Q). destruct (decide (Q x)) as [Hq|Hq].
  - rewrite !filter_cons, IH by (intros; apply Hs; [by right|done]). done.
  - rewrite (filter_cons P x), decide_False by (apply Hs; [left|done]). apply IH. intros; apply Hs; [by right|done].
Qed.

Lemma nodup_update {B} (g : OrganizationModelPricing -> B) i o l :
  NoDup (g <$> l) -> NoDup (row_id <$> l) -> (forall x, x ∈ l -> row_id x <> i -> g x <> g o) ->
  NoDup (g <$> ((fun y => if bool_decide (row_id y = i) then o else y) <$> l)).
Proof.
  induction l as [|x l IH]; [done|]. rewrite !fmap_cons, !NoDup_cons. intros [Hx Hl] [Hix Hil] Hg. split.
  - intros (y' & Hy' & (y & -> & Hy)%list_elem_of_fmap)%list_elem_of_fmap.
    destruct (bool_decide_reflect (row_id x = i)) as [E|E], (bool_decide_reflect (row_id y = i)) as [E'|E'].
    + apply Hix. rewrite E, <- E'. by apply list_elem_of_fmap_2.
    + apply (Hg y); [by right|done|done].
    + apply (Hg x); [left|done|done].
    + apply Hx. rewrite Hy'. by apply list_elem_of_fmap_2.
  - apply IH; [done|done|]. intros y Hy. apply Hg. by right.
Qed.

Lemma find_none {A} (f : A -> bool) l : find f l = None -> forall x, x ∈ l -> f x = false.
Proof. intros H x Hx. eapply find_none; [exact H|by apply list_elem_of_In]. Qed.

Lemma flush_ok db old o db' x : tables_ok db -> NoDup (row_id <$> overrides_of db) ->
  flush db old o = Ok (db', x) -> tables_ok db' /\ versions db' = versions db.
Proof.
  intros [H1 H2] Hid. unfold flush. destruct (find _ _) eqn:Ef; [done|]. intros [= <- _]. split; [|done]. split; [|done].
  assert (Hn : forall y, y ∈ overrides_of db -> old <> Some (row_id y) -> start_of y <> start_of o).
  { intros y Hy Hold Hs. pose proof (find_none _ _ Ef y Hy) as Hb. apply bool_decide_eq_false in Hb. by apply Hb. }
  destruct old as [i|]; simpl.
  - apply nodup_update; [done|done|]. intros y Hy Hne. apply Hn; [done|congruence].
  - rewrite fmap_app. apply NoDup_app. split; [done|]. split; [|apply NoDup_singleton].
    intros s (y & -> & Hy)%list_elem_of_fmap Hs%list_elem_of_singleton. by apply (Hn y).
Qed.

(** A write that leaves the operator's rows alone. *)
Definition keeps_operator_rates (db db' : PriceTables) : Prop :=
  tables_ok db' /\ versions db' = versions db /\ operator_rows db' = operator_rows db.

Lemma not_operator c : operates_deployment c = false -> Some (origin_for c) <> Some OPERATOR_ORIGIN.
Proof. intros H. unfold origin_for. rewrite H. discriminate. Qed.

Lemma insert_keeps db o db' x : tables_ok db -> NoDup (row_id <$> overrides_of db) -> origin o <> Some OPERATOR_ORIGIN ->
  flush db None o = Ok (db', x) -> keeps_operator_rates db db'.
Proof.
  intros Hdb Hid Ho Hf. destruct (flush_ok _ _ _ _ _ Hdb Hid Hf) as [H1 H2]. split; [done|]. split; [done|].
  apply flush_insert in Hf as ->. by apply operator_rows_app.
Qed.

Lemma update_keeps db o o' db' x : tables_ok db -> NoDup (row_id <$> overrides_of db) -> o ∈ overrides_of db ->
  origin o <> Some OPERATOR_ORIGIN -> origin o' <> Some OPERATOR_ORIGIN ->
  flush db (Some (row_id o)) o' = Ok (db', x) -> keeps_operator_rates db db'.
Proof.
  intros Hdb Hid Hin Ho Ho' Hf. destruct (flush_ok _ _ _ _ _ Hdb Hid Hf) as [H1 H2]. split; [done|]. split; [done|].
  apply flush_update in Hf as ->. unfold operator_rows. simpl. apply filter_fmap_same. intros y Hy.
  destruct (bool_decide_reflect (row_id y = row_id o)) as [E|]; [right|by left].
  by rewrite (nodup_fmap_inj row_id _ y o Hid Hy Hin E).
Qed.

Lemma non_operator_row c o : operates_deployment c = false -> operator_rate c o = false -> origin o <> Some OPERATOR_ORIGIN.
Proof. unfold operator_rate. intros ->. rewrite andb_true_r. by intros ?%bool_decide_eq_false. Qed.

(** One write by a caller who does not operate the deployment, or a seeding on its behalf. *)
Inductive organization_write (rfc : Pricing -> PriceBlock) (d : Deployment) (db db' : PriceTables) : Prop :=
| created c fresh key k i o : operates_deployment c = false -> create_for_caller rfc d c fresh key k i db = Ok (db', o) -> organization_write rfc d db db'
| replaced c pid i o : operates_deployment c = false -> replace_for_caller d c pid i db = Ok (db', o) -> organization_write rfc d db db'
| deleted c pid : operates_deployment c = false -> delete_for_caller c pid db = Ok db' -> organization_write rfc d db db'
| seeded price fresh org key now : seed_offered rfc d price fresh org key now db = Ok db' -> organization_write rfc d db db'.

Lemma organization_write_keeps rfc d db db' : tables_ok db -> NoDup (row_id <$> overrides_of db) ->
  organization_write rfc d db db' -> keeps_operator_rates db db'.
Proof.
  intros Hdb Hid [c fresh key k i o Hc H|c pid i o Hc H|c pid Hc H|price fresh org key now H].
  - unfold create_for_caller in H. destruct (negb _); [done|]. destruct (raise_if_deployment_supplied _ _ _ _); [done|].
    destruct (negb _); [done|]. destruct (overlapping _ _ _ _ _ _ _); [done|]. eapply insert_keeps; [done|done| |exact H]. by apply not_operator.
  - unfold replace_for_caller in H. destruct (negb _); [done|]. destruct (owned_row _ _ _) as [o'|] eqn:Hrow; [|done].
    destruct (operator_rate c o') eqn:Hop; [done|]. destruct (raise_if_deployment_supplied _ _ _ _); [done|].
    destruct (negb _); [done|]. destruct (overlapping _ _ _ _ _ _ _); [done|]. apply owned_row_some in Hrow as (Hin & _).
    eapply update_keeps; [done|done|exact Hin| | |exact H]; [by eapply non_operator_row|by apply not_operator].
  - unfold delete_for_caller in H. destruct (negb _); [done|]. destruct (owned_row _ _ _) as [o'|] eqn:Hrow; [|done].
    destruct (operator_rate c o') eqn:Hop; [done|]. injection H as <-. apply owned_row_some in Hrow as (Hin & _). split; [|split; [done|]].
    + split; simpl; [by apply nodup_fmap_filter, Hdb|apply Hdb].
    + unfold operator_rows. simpl. apply filter_filter_same. intros y Hy Hne%dec_stable.
      rewrite (nodup_fmap_inj row_id _ y o' Hid Hy Hin Hne). by eapply non_operator_row.
  - unfold seed_offered in H. destruct (applicable_row _ _ _ _); [by injection H as <-|]. destruct (deployment_row _ _ _); [by injection H as <-|].
    destruct price as [price|]; [|by injection H as <-]. destruct (bool_decide _); [by injection H as <-|].
    destruct (flush _ _ _) as [[db'' x]|] eqn:Hf; [|done]. injection H as <-. eapply insert_keeps; [done|done| |exact Hf]. discriminate.
Qed.

(** C30: No organization names what the deployment pays: whatever its managers write, and whatever is seeded for them,
    every rate read for a request or a tool call the deployment pays for is the one read before. *)
Theorem organizations_never_price_the_deployment rfc d defaults enabled db db' org :
  tables_ok db -> NoDup (row_id <$> overrides_of db) -> organization_write rfc d db db' ->
  (forall provider model as_of use_defaults,
     resolve_model_pricing defaults enabled db' provider model as_of use_defaults org true
     = resolve_model_pricing defaults enabled db provider model as_of use_defaults org true)
  /\ (forall lookup as_of search, operator_set_only lookup = true ->
     first_tool_rate enabled db' org as_of lookup search = first_tool_rate enabled db org as_of lookup search).
Proof.
  intros Hdb Hid Hw. destruct (organization_write_keeps _ _ _ _ Hdb Hid Hw) as (H1 & H2 & H3).
  by apply deployment_paid_rates_ext.
Qed.

(** ** On a small deployment *)

Definition no_block (c : Pricing) : PriceBlock := mkBlock [] None.
Definition some_deployment : Deployment := mkDeployment ["azure"%string] None ["openai"%string].
Definition admin : Caller := mkCaller "org" true false.
Definition some_input (from : Z) (to : option Z) : PricingOverrideInput := mkInput (columns (plain_rate 1 2)) from to None.

Lemma periods_never_overlap_witness :
  exists db' o, create_for_caller no_block some_deployment admin "o3" "openai:other" MODEL_KIND (some_input 5 None) some_prices = Ok (db', o)
  /\ overrides_ok db'.
Proof.
  assert (Hok : overrides_ok some_prices).
  { split; [apply (bool_decide_eq_true_1 _); vm_compute; reflexivity|repeat constructor|].
    intros a b Ha Hb. unfold some_prices in Ha, Hb. cbn [overrides_of] in Ha, Hb. rewrite !elem_of_cons, !elem_of_nil in Ha, Hb.
    destruct Ha as [->|[->|[]]], Hb as [->|[->|[]]]; intros Hne _; first [done|vm_compute; reflexivity]. }
  destruct (periods_never_overlap no_block some_deployment admin some_prices Hok) as (Hc & _).
  eexists _, _. split; [vm_compute; reflexivity|]. eapply (Hc "o3"%string "openai:other"%string MODEL_KIND (some_input 5 None)); [|vm_compute; reflexivity].
  apply (bool_decide_eq_false_1 _); vm_compute; reflexivity.
Defined.

Lemma organizations_never_price_the_deployment_witness :
  resolve_model_pricing (fun _ _ _ => None) false
    (match create_for_caller no_block some_deployment admin "o3" "openai:other" MODEL_KIND (some_input 5 None) some_prices with
     | Ok (db', _) => db' | Err _ => some_prices end) (Some "openai"%string) "other" 30 true (Some "org"%string) true
  = resolve_model_pricing (fun _ _ _ => None) false some_prices (Some "openai"%string) "other" 30 true (Some "org"%string) true.
Proof.
  apply (organizations_never_price_the_deployment no_block some_deployment (fun _ _ _ => None) false some_prices).
  - exact some_prices_ok.
  - apply (bool_decide_eq_true_1 _); vm_compute; reflexivity.
  - eapply (created _ _ _ _ admin "o3"%string "openai:other"%string MODEL_KIND (some_input 5 None)); [reflexivity|vm_compute; reflexivity].
Defined.

(** Seeding checks that no rate is in effect, not that none is scheduled: the open-ended row it stores overlaps a period
    the organization set to start later, which a write of the organization's own would be refused for. *)
Theorem seeding_overlaps_a_scheduled_period :
  let scheduled := mkOverrideRow "o1" "org" MODEL_KIND "openai:gpt" (plain_rate 1 2) 50 None (Some API_ORIGIN) in
  let db := mkTables [scheduled] [] in
  exists db', seed_offered no_block some_deployment (Some (plain_rate 3 4)) "o2" "org" "openai:gpt" 30 db = Ok db'
  /\ overrides_ok db /\ ~ overrides_ok db'
  /\ exists e, create_for_caller no_block some_deployment admin "o2" "openai:gpt" MODEL_KIND (some_input 30 None) db = Err e.
Proof.
  eexists. split; [vm_compute; reflexivity|]. split; [|split].
  - split; [apply NoDup_singleton|by repeat constructor|]. intros a b ->%list_elem_of_singleton ->%list_elem_of_singleton. done.
  - intros [_ _ H]. specialize (H _ _ ltac:(left) ltac:(right; left)). simpl in H.
    specialize (H ltac:(discriminate) ltac:(repeat split)). discriminate.
  - eexists. vm_compute. reflexivity.
Qed.
