(* ===== verification/PriceCache.v ===== *)
(** The process cache of stored rates ([_stored_prices] and [resolve_model_pricing] of
    [src/src/gateway/services/pricing_service.py]), with the count of price writes that drops it
    ([_price_writes] of [src/src/gateway/repositories/pricing/organization_model_pricing_repository.py]).

    A worker's lookups interleave with price writes of its own sessions, which the listeners of a session count
    at the flush and once more when the transaction has ended, and with those of other workers, which nothing
    counts here.  Each statement of a lookup reads the tables as they are when it runs.  [now] is the monotonic
    clock in seconds; the instant a lookup asks for is the wall clock's, and is its own. *)
From S2P Require Import Prelude Text MeteredPricing UsagePricing PriceLookup PriceLookupProofs.
From stdpp Require Import sorting functions base strings list gmap.
From Stdlib Require Import ZArith Lia.


Local Open Scope Z_scope.

(** Whose price, of which model, for whose account. *)
Notation cache_key := (option string * string * bool)%type.

Definition PRICING_CACHE_TTL_SECONDS : Z := 30.
Definition PRICING_CACHE_MAX_ENTRIES : Z := 10000.

Record Cache := mkCache {
  stored_prices : gmap cache_key (Z * option ResolvedPricing);
  stored_prices_generation : Z
}.

(** Whether the key has an entry, that entry, and the cache afterwards: dropped where a write was counted since. *)
Definition cached_stored_pricing (generation now : Z) (key : cache_key) (c : Cache) : bool * option ResolvedPricing * Cache :=
  let c := if bool_decide (generation = stored_prices_generation c) then c else mkCache ∅ generation in
  match stored_prices c !! key with
  | Some (expires, r) => if expires <=? now then (false, None, c) else (true, r, c)
  | None => (false, None, c)
  end.

Definition cache_stored_pricing (generation now : Z) (key : cache_key) (resolved : option ResolvedPricing)
    (read_at_generation : Z) (c : Cache) : Cache :=
  if bool_decide (read_at_generation = generation) then
    let kept := if PRICING_CACHE_MAX_ENTRIES <=? Z.of_nat (size (stored_prices c)) then ∅ else stored_prices c in
    mkCache (<[key := (now + PRICING_CACHE_TTL_SECONDS, resolved)]> kept) (stored_prices_generation c)
  else c.

(** ** Lookups in flight *)

(** A lookup that missed: what it has yet to ask. *)
Inductive stage := AskOverride | AskKeys (forms : list string) | Answered (r : option ResolvedPricing).
Record lookup_state := mkLookupState { key : cache_key; as_of : Z; read_at_generation : Z; at_stage : stage }.

Definition read_statement (db : PriceTables) (l : lookup_state) : stage :=
  let '(org, model_key, paid) := key l in
  match at_stage l with
  | AskOverride =>
      match o ← org; find_organization_override db o (pricing_key_forms model_key) (as_of l) paid with
      | Some o => Answered (Some (from_override o))
      | None => AskKeys (pricing_key_forms model_key)
      end
  | AskKeys [] => Answered None
  | AskKeys (f :: forms) =>
      match find_by_model_key db f (as_of l) with Some r => Answered (Some (from_version r)) | None => AskKeys forms end
  | Answered r => Answered r
  end.

(** ** A worker *)

(** [tables_seen] is every state the tables have had, the latest last, each with when it began. *)
Record worker := mkWorker {
  now : Z;
  tables_seen : list (Z * PriceTables);
  price_writes : Z;
  cache_of : Cache;
  in_flight : gmap nat lookup_state
}.

Definition current (w : worker) : option PriceTables := snd <$> last (tables_seen w).

Definition advance (l : lookup_state) (s : stage) : lookup_state := mkLookupState (key l) (as_of l) (read_at_generation l) s.

Inductive step : worker -> worker -> Prop :=
| tick w d : 0 <= d -> step w (mkWorker (now w + d) (tables_seen w) (price_writes w) (cache_of w) (in_flight w))
(** A lookup that hits is answered at once, and only drops what is stale. *)
| hit w k c r : cached_stored_pricing (price_writes w) (now w) k (cache_of w) = (true, r, c) ->
    step w (mkWorker (now w) (tables_seen w) (price_writes w) c (in_flight w))
| miss w k t i c : cached_stored_pricing (price_writes w) (now w) k (cache_of w) = (false, None, c) -> in_flight w !! i = None ->
    step w (mkWorker (now w) (tables_seen w) (price_writes w) c
              (<[i := mkLookupState k t (price_writes w) AskOverride]> (in_flight w)))
| read w i l db : in_flight w !! i = Some l -> current w = Some db ->
    step w (mkWorker (now w) (tables_seen w) (price_writes w) (cache_of w) (<[i := advance l (read_statement db l)]> (in_flight w)))
| store w i l r : in_flight w !! i = Some l -> at_stage l = Answered r ->
    step w (mkWorker (now w) (tables_seen w) (price_writes w)
              (cache_stored_pricing (price_writes w) (now w) (key l) r (read_at_generation l) (cache_of w)) (delete i (in_flight w)))
| fail w i : step w (mkWorker (now w) (tables_seen w) (price_writes w) (cache_of w) (delete i (in_flight w)))
(** A price write: counted at its flush, committed, counted again once the commit returned. *)
| flushed w : step w (mkWorker (now w) (tables_seen w) (price_writes w + 1) (cache_of w) (in_flight w))
| committed w db : step w (mkWorker (now w) (tables_seen w ++ [(now w, db)]) (price_writes w) (cache_of w) (in_flight w))
| ended w : step w (mkWorker (now w) (tables_seen w) (price_writes w + 1) (cache_of w) (in_flight w)).

(** Another worker's commit is [committed] with nothing counted around it. *)
Definition started (t : Z) (db : PriceTables) : worker := mkWorker t [(t, db)] 0 (mkCache ∅ 0) ∅.

(** * A cached rate is recent: the tables it was read from held since the last price write this worker counted, and within
    the cache's time of when the lookup that read it ran. *)

Local Open Scope Z_scope.

(** What a worker has done, with where in [tables_seen] it last counted a write. *)
Inductive reached : worker -> nat -> Prop :=
| reached_start t db : reached (started t db) 0
| reached_step w since w' : reached w since -> step w w' ->
    reached w' (if bool_decide (price_writes w' = price_writes w) then since else (length (tables_seen w) - 1)%nat).

(** The tables were in this state at some instant from [begun] to [until], counted from [since] on. *)
Definition seen (history : list (Z * PriceTables)) (since : nat) (begun until : Z) (db : PriceTables) : Prop :=
  exists i t, history !! i = Some (t, db) /\ (since <= i)%nat /\ t <= until
  /\ forall t' db', history !! S i = Some (t', db') -> begun <= t'.

(** An answer put together from states of the tables that [P] holds of, one per statement. *)
Definition answers (P : PriceTables -> Prop) (k : cache_key) (t : Z) (r : option ResolvedPricing) : Prop :=
  exists d g, P d /\ (forall f, P (g f)) /\ r = stored_pricing d g k.1.1 k.1.2 t k.2.

(** What a lookup in flight has read so far. *)
Definition stage_ok (P : PriceTables -> Prop) (k : cache_key) (t : Z) (s : stage) : Prop :=
  match s with
  | AskOverride => True
  | AskKeys forms => exists d g asked, P d /\ (forall f, P (g f))
      /\ (o ← k.1.1; find_organization_override d o (pricing_key_forms k.1.2) t k.2) = None
      /\ pricing_key_forms k.1.2 = (asked ++ forms)%list /\ forall f, f ∈ asked -> find_by_model_key (g f) f t = None
  | Answered r => answers P k t r
  end.

Lemma stage_ok_mono (P Q : PriceTables -> Prop) k t s : (forall d, P d -> Q d) -> stage_ok P k t s -> stage_ok Q k t s.
Proof.
  intros H. destruct s as [|forms|r]; simpl; [done| |].
  - intros (d & g & asked & H1 & H2 & H3). exists d, g, asked. split; [auto|]. split; [auto|done].
  - intros (d & g & H1 & H2 & H3). exists d, g. auto.
Qed.

Lemma first_key_split {A} (f : string -> option A) asked x rest : (forall k, k ∈ asked -> f k = None \/ k = x) ->
  first_key f (asked ++ x :: rest) = match f x with Some y => Some y | None => first_key f rest end.
Proof.
  induction asked as [|k asked IH]; intros H; simpl; [done|]. destruct (H k (list_elem_of_here _ _)) as [->| ->].
  - apply IH. intros j ?. apply H. by right.
  - destruct (f x) eqn:E; [done|]. rewrite IH by (intros j ?; apply H; by right). done.
Qed.

Lemma read_ok (P : PriceTables -> Prop) db l : P db -> stage_ok P (key l) (as_of l) (at_stage l) ->
  stage_ok P (key l) (as_of l) (read_statement db l).
Proof.
  intros Hdb. unfold read_statement. destruct (key l) as [[org mk] paid] eqn:Ek. destruct (at_stage l) as [|forms|r]; simpl; [| |done].
  - intros _. destruct (o ← org; _) as [o|] eqn:Eo; simpl.
    + exists db, (fun _ => db). split; [done|]. split; [done|]. unfold stored_pricing. simpl. by rewrite Eo.
    + exists db, (fun _ => db), []. split; [done|]. split; [done|]. split; [done|]. split; [done|]. by intros f ?%elem_of_nil.
  - intros (d & g & asked & H1 & H2 & H3 & H4 & H5). destruct forms as [|f forms]; simpl.
    + exists d, g. split; [done|]. split; [done|]. unfold stored_pricing. simpl. rewrite H3, H4, app_nil_r.
      by rewrite (proj2 (first_key_none (fun key => find_by_model_key (g key) key (as_of l)) asked) H5).
    + assert (Hpre : forall k, k ∈ asked -> find_by_model_key (<[f := db]> g k) k (as_of l) = None \/ k = f).
      { intros k Hk. destruct (decide (k = f)) as [->|Hne]; [by right|left]. rewrite fn_lookup_insert_ne by done. by apply H5. }
      assert (Hg : forall k, P (<[f := db]> g k)).
      { intros k. destruct (decide (k = f)) as [->|Hne]; [by rewrite fn_lookup_insert|by rewrite fn_lookup_insert_ne]. }
      destruct (find_by_model_key db f (as_of l)) as [r|] eqn:Er; simpl.
      * exists d, (<[f := db]> g). split; [done|]. split; [done|]. unfold stored_pricing. simpl. rewrite H3, H4, first_key_split by done.
        by rewrite fn_lookup_insert, Er.
      * exists d, (<[f := db]> g), (asked ++ [f])%list. split; [done|]. split; [done|]. split; [done|]. split; [by rewrite <- app_assoc|].
        intros k [Hk|Hk]%elem_of_app; [destruct (Hpre k Hk) as [?| ->]; [done|]|apply list_elem_of_singleton in Hk as ->]; by rewrite fn_lookup_insert.
Qed.

(** ** The invariant *)

Definition entry_ok (w : worker) (since : nat) (k : cache_key) (e : Z * option ResolvedPricing) : Prop :=
  exists t begun until, begun <= until <= now w /\ e.1 = until + PRICING_CACHE_TTL_SECONDS
  /\ answers (seen (tables_seen w) since begun until) k t e.2.

Definition lookup_ok (w : worker) (since : nat) (l : lookup_state) : Prop :=
  exists begun, begun <= now w /\ stage_ok (seen (tables_seen w) since begun (now w)) (key l) (as_of l) (at_stage l).

Record worker_ok (w : worker) (since : nat) : Prop := {
  since_seen : (since < length (tables_seen w))%nat;
  dated : forall i t db, tables_seen w !! i = Some (t, db) -> t <= now w;
  counted_before : stored_prices_generation (cache_of w) <= price_writes w;
  lookups_counted : forall i l, in_flight w !! i = Some l -> read_at_generation l <= price_writes w;
  live_entries : stored_prices_generation (cache_of w) = price_writes w ->
    forall k e, stored_prices (cache_of w) !! k = Some e -> entry_ok w since k e;
  live_lookups : forall i l, in_flight w !! i = Some l -> read_at_generation l = price_writes w ->
    stored_prices_generation (cache_of w) = price_writes w /\ lookup_ok w since l
}.

Lemma cached_cache g t k c b r c' : cached_stored_pricing g t k c = (b, r, c') ->
  c' = (if bool_decide (g = stored_prices_generation c) then c else mkCache ∅ g).
Proof. unfold cached_stored_pricing. destruct (stored_prices _ !! k) as [[e x]|]; [destruct (_ <=? _)|]; by intros [= _ _ <-]. Qed.

Lemma dropped_ok w since c : worker_ok w since -> c = (if bool_decide (price_writes w = stored_prices_generation (cache_of w)) then cache_of w else mkCache ∅ (price_writes w)) ->
  worker_ok (mkWorker (now w) (tables_seen w) (price_writes w) c (in_flight w)) since /\ stored_prices_generation c = price_writes w.
Proof.
  intros [H1 H2 H3 H4 H5 H6] ->. destruct (bool_decide_reflect (price_writes w = stored_prices_generation (cache_of w))) as [E|E].
  - split; [|done]. split; try done.
  - split; [|done]. split; simpl; try done.
    intros i l Hl Hg. split; [done|]. by apply (H6 i l Hl).
Qed.

Lemma seen_mono history since begun until until' db : until <= until' -> seen history since begun until db -> seen history since begun until' db.
Proof. intros H (i & t & H1 & H2 & H3 & H4). exists i, t. split; [done|]. split; [done|]. split; [lia|done]. Qed.

Lemma seen_commit history since begun until t d db : begun <= t ->
  seen history since begun until db -> seen (history ++ [(t, d)]) since begun until db.
Proof.
  intros Ht (i & t0 & H1 & H2 & H3 & H4). exists i, t0. split; [by apply lookup_app_l_Some|]. split; [done|]. split; [done|].
  intros t' db' H'. destruct (decide (S i < length history)%nat).
  - rewrite lookup_app_l in H' by done. by eapply H4.
  - apply lookup_lt_Some in H1. rewrite lookup_app_r in H' by lia. replace (S i - length history)%nat with 0%nat in H' by lia.
    by injection H' as <- <-.
Qed.

Lemma last_seen w db : current w = Some db -> exists t, tables_seen w !! (length (tables_seen w) - 1)%nat = Some (t, db).
Proof.
  unfold current. intros H. rewrite last_lookup in H. replace (Init.Nat.pred (length (tables_seen w))) with (length (tables_seen w) - 1)%nat in H by lia.
  destruct (tables_seen w !! _) as [[t d]|]; [|done]. injection H as <-. by exists t.
Qed.

Lemma current_seen w since begun db : worker_ok w since -> begun <= now w -> current w = Some db ->
  seen (tables_seen w) since begun (now w) db.
Proof.
  intros [H1 H2 _ _ _ _] Hb (t & Ht)%last_seen. exists (length (tables_seen w) - 1)%nat, t. split; [done|]. split; [lia|].
  split; [by eapply H2|]. intros t' db' H'. apply lookup_lt_Some in H'. lia.
Qed.

(** Every state of a worker moves on with its clock, its history and its counted writes. *)
Lemma worker_later w since t : worker_ok w since -> now w <= t ->
  worker_ok (mkWorker t (tables_seen w) (price_writes w) (cache_of w) (in_flight w)) since.
Proof.
  intros [H1 H2 H3 H4 H5 H6] Ht. split; simpl; try done.
  - intros i u db Hi. specialize (H2 i u db Hi). lia.
  - intros E k e He. destruct (H5 E k e He) as (u & begun & until & Hb & Hu). exists u, begun, until. simpl. split; [lia|done].
  - intros i l Hl Hg. destruct (H6 i l Hl Hg) as (Hs & begun & Hb & Hok). split; [done|]. exists begun. simpl. split; [lia|].
    eapply stage_ok_mono; [|exact Hok]. intros d. by apply seen_mono.
Qed.

Lemma ok_counted w since : worker_ok w since ->
  worker_ok (mkWorker (now w) (tables_seen w) (price_writes w + 1) (cache_of w) (in_flight w)) (length (tables_seen w) - 1).
Proof.
  intros [H1 H2 H3 H4 H5 H6]. split; simpl; [lia|done|lia| | |].
  - intros i l Hl. specialize (H4 i l Hl). lia.
  - intros E. lia.
  - intros i l Hl Hg. specialize (H4 i l Hl). lia.
Qed.

Lemma ok_committed w since db : worker_ok w since ->
  worker_ok (mkWorker (now w) (tables_seen w ++ [(now w, db)]) (price_writes w) (cache_of w) (in_flight w)) since.
Proof.
  intros [H1 H2 H3 H4 H5 H6]. split; simpl; [rewrite length_app; simpl; lia| |done|done| |].
  - intros i t d Hi. apply lookup_app_Some in Hi as [Hi|[_ Hi]]; [by eapply H2|]. apply list_lookup_singleton_Some in Hi as [_ [= <- _]]. done.
  - intros E k e He. destruct (H5 E k e He) as (t & begun & until & Hb & Hu & Ha). exists t, begun, until. simpl. split; [lia|]. split; [done|].
    eapply (stage_ok_mono _ _ k t (Answered e.2)); [|exact Ha]. intros d Hd. apply seen_commit; [lia|done].
  - intros i l Hl Hg. destruct (H6 i l Hl Hg) as (Hs & begun & Hb & Hok). split; [done|]. exists begun. simpl. split; [done|].
    eapply stage_ok_mono; [|exact Hok]. intros d Hd. by apply seen_commit.
Qed.

(** A lookup put in flight, or moved on by a statement. *)
Lemma ok_lookup w since i l : worker_ok w since -> read_at_generation l <= price_writes w ->
  (read_at_generation l = price_writes w -> stored_prices_generation (cache_of w) = price_writes w /\ lookup_ok w since l) ->
  worker_ok (mkWorker (now w) (tables_seen w) (price_writes w) (cache_of w) (<[i := l]> (in_flight w))) since.
Proof.
  intros [H1 H2 H3 H4 H5 H6] Hg Hl. split; simpl; try done.
  - intros j l' [[_ <-]|[_ Hj]]%lookup_insert_Some; [done|by eapply H4].
  - intros j l' [[_ <-]|[_ Hj]]%lookup_insert_Some; [exact Hl|by apply (H6 j)].
Qed.

Lemma ok_dropped w since i : worker_ok w since ->
  worker_ok (mkWorker (now w) (tables_seen w) (price_writes w) (cache_of w) (delete i (in_flight w))) since.
Proof.
  intros [H1 H2 H3 H4 H5 H6]. split; simpl; try done.
  - intros j l [_ Hj]%lookup_delete_Some. by eapply H4.
  - intros j l [_ Hj]%lookup_delete_Some. by apply (H6 j).
Qed.

Lemma ok_stored w since i l r : worker_ok w since -> in_flight w !! i = Some l -> at_stage l = Answered r ->
  worker_ok (mkWorker (now w) (tables_seen w) (price_writes w)
    (cache_stored_pricing (price_writes w) (now w) (key l) r (read_at_generation l) (cache_of w)) (in_flight w)) since.
Proof.
  intros Hok Hl Hr. unfold cache_stored_pricing. destruct (bool_decide_reflect (read_at_generation l = price_writes w)) as [E|]; [|by destruct w].
  destruct (live_lookups _ _ Hok i l Hl E) as (Hs & begun & Hb & Hst). rewrite Hr in Hst. destruct Hok as [H1 H2 H3 H4 H5 H6].
  split; simpl; try done. intros _ k e [[<- <-]|[_ He]]%lookup_insert_Some.
  - exists (as_of l), begun, (now w). simpl. split; [lia|done].
  - destruct (PRICING_CACHE_MAX_ENTRIES <=? _); [by rewrite lookup_empty in He|]. by apply H5.
Qed.

Lemma reached_ok w since : reached w since -> worker_ok w since.
Proof.
  induction 1 as [t db|w since w' _ IH Hs].
  - split; simpl; try done; [lia|]. intros i u d Hi. apply list_lookup_singleton_Some in Hi as [_ [= <- _]]. lia.
  - destruct Hs as [w d Hd|w k c r Hc|w k t i c Hc Hi|w i l db Hl Hdb|w i l r Hl Hr|w i|w|w db|w]; simpl;
      rewrite ?bool_decide_eq_true_2 by done; rewrite ?(bool_decide_eq_false_2 (price_writes w + 1 = price_writes w)) by lia.
    + apply worker_later; [done|lia].
    + apply (dropped_ok w since c IH), (cached_cache _ _ _ _ _ _ _ Hc).
    + destruct (dropped_ok w since c IH (cached_cache _ _ _ _ _ _ _ Hc)) as [Hok Hg].
      apply (ok_lookup _ since i _ Hok); simpl; [done|]. intros _. split; [done|]. exists (now w). done.
    + pose proof (lookups_counted _ _ IH i l Hl) as Hle. apply (ok_lookup w since i _ IH); [done|]. intros Hg.
      destruct (live_lookups _ _ IH i l Hl Hg) as (Hs & begun & Hb & Hst). split; [done|]. exists begun. split; [done|].
      simpl. apply read_ok; [|done]. by eapply current_seen.
    + apply (ok_dropped (mkWorker (now w) (tables_seen w) (price_writes w) _ (in_flight w)) since i). by eapply ok_stored.
    + by apply ok_dropped.
    + by eapply ok_counted.
    + by apply ok_committed.
    + by eapply ok_counted.
Qed.

(** C31: However lookups and writes interleave, a rate answered from the cache is what the tables gave since this worker
    last counted a write of its own, and a lookup that ended at most the cache's time ago read it. *)
Theorem cached_rates_are_recent w since k r c : reached w since ->
  cached_stored_pricing (price_writes w) (now w) k (cache_of w) = (true, r, c) ->
  exists t begun until, begun <= until <= now w /\ now w < until + PRICING_CACHE_TTL_SECONDS
  /\ answers (seen (tables_seen w) since begun until) k t r.
Proof.
  intros Hok%reached_ok. unfold cached_stored_pricing.
  destruct (bool_decide_reflect (price_writes w = stored_prices_generation (cache_of w))) as [E|]; [|simpl; by rewrite lookup_empty].
  destruct (stored_prices (cache_of w) !! k) as [[e x]|] eqn:Hk; [|done]. destruct (Z.leb_spec e (now w)); [done|]. intros [= <- _].
  destruct (live_entries _ _ Hok (eq_sym E) k _ Hk) as (t & begun & until & H1 & H2 & H3). simpl in *. exists t, begun, until.
  split; [done|]. split; [lia|done].
Qed.

(** A lookup that missed and stored what it read, and the next, which hits. *)
Definition after_a_miss : worker :=
  let k := (None, "openai:gpt"%string, false) in
  mkWorker 7 [(0, some_prices)] 0
    (cache_stored_pricing 0 7 k (Some (from_version (mkPriceRow MODEL_KIND "openai/gpt" 0 (plain_rate 5 6)))) 0 (mkCache ∅ 0)) ∅.

Lemma reached_by w since w' w'' : reached w since -> step w w' -> price_writes w' = price_writes w -> w' = w'' -> reached w'' since.
Proof. intros H Hs Hp <-. pose proof (reached_step _ _ _ H Hs) as H'. by rewrite bool_decide_eq_true_2 in H'. Qed.

Lemma after_a_miss_reached : reached after_a_miss 0.
Proof.
  set (k := (None, "openai:gpt"%string, false) : cache_key).
  set (l := mkLookupState k 30 0).
  set (w s := mkWorker 7 [(0, some_prices)] 0 (mkCache ∅ 0) {[0%nat := l s]}).
  assert (Hread : forall s s', reached (w s) 0 -> read_statement some_prices (l s) = s' -> reached (w s') 0).
  { intros s s' H <-. eapply (reached_by (w s) 0); [exact H|eapply (read (w s) 0 (l s) some_prices); reflexivity|reflexivity|reflexivity]. }
  eapply (reached_by (w (Answered (Some (from_version (mkPriceRow MODEL_KIND "openai/gpt" 0 (plain_rate 5 6)))))) 0);
    [|eapply (store _ 0); reflexivity|reflexivity|reflexivity].
  apply (Hread (AskKeys ["openai/gpt"%string])); [|vm_compute; reflexivity].
  apply (Hread (AskKeys ["openai:gpt"; "openai/gpt"]%string)); [|vm_compute; reflexivity].
  apply (Hread AskOverride); [|vm_compute; reflexivity].
  eapply (reached_by (mkWorker 7 [(0, some_prices)] 0 (mkCache ∅ 0) ∅) 0); [|eapply (miss _ k 30 0); reflexivity|reflexivity|reflexivity].
  eapply (reached_by (started 0 some_prices) 0); [constructor|apply (tick _ 7); lia|reflexivity|reflexivity].
Qed.

Lemma cached_rates_are_recent_witness :
  exists t begun until, begun <= until <= 7 /\ 7 < until + PRICING_CACHE_TTL_SECONDS
  /\ answers (seen [(0, some_prices)] 0 begun until) (None, "openai:gpt"%string, false) t
       (Some (from_version (mkPriceRow MODEL_KIND "openai/gpt" 0 (plain_rate 5 6)))).
Proof.
  eapply (cached_rates_are_recent after_a_miss 0 (None, "openai:gpt"%string, false) _ _ after_a_miss_reached). reflexivity.
Defined.
