(* ===== verification/UnitOfWork.v ===== *)
(** The Unit of Work, [core/unit_of_work.py]: blocks that nest over one session, of which only
    the outermost commits.

    A service is a program of type [M]: it runs on the one session and either returns or
    raises.  [uow_block] is [async with uow], [savepoint] is [async with uow.savepoint()], and
    [begin_nested] is the session's own.  The session is what the database has ([committed])
    and what its open transaction sees ([pending]); each commit may be refused, or land and
    not be acknowledged, which [commits] decides.  A write that fails leaves [pending] as it was and usable, also
    where the program catches its error inside the block; a database that aborts the transaction then refuses what
    follows until it is rolled back.  Each service here that catches such an error does so around a savepoint, rolls
    back, or raises again. *)
From S2P Require Import Prelude.
From stdpp Require Import base list option.
From Stdlib Require Import ZArith Lia.
Open Scope Z_scope.

(** What a step may raise: an error of its own, one of the two of the Unit of Work, or what the
    database raised. *)
Inductive exn (E : Type) : Type :=
| Raised (e : E)
| UnitOfWorkRolledBackError (failure : exn E)
| OutsideUnitOfWorkError
| IntegrityError
| DatabaseError.
Arguments Raised {E} e.
Arguments UnitOfWorkRolledBackError {E} failure.
Arguments OutsideUnitOfWorkError {E}.
Arguments IntegrityError {E}.
Arguments DatabaseError {E}.

(** How a commit ends; a commit with no entry lands. *)
Inductive commit_outcome : Type := Landed | Refused | Unacknowledged.

Record UnitOfWork (S E : Type) : Type := {
  committed : S;
  pending : S;
  _depth : Z;
  _first_failure : option (exn E);
  commits : list commit_outcome
}.
Arguments committed {S E} _.
Arguments pending {S E} _.
Arguments _depth {S E} _.
Arguments _first_failure {S E} _.
Arguments commits {S E} _.

(** [UnitOfWork(session)] on a session whose transaction has written nothing. *)
Definition fresh_uow {S E} (db : S) (cs : list commit_outcome) : UnitOfWork S E :=
  {| committed := db; pending := db; _depth := 0; _first_failure := None; commits := cs |}.

Definition M (S E A : Type) : Type := UnitOfWork S E -> UnitOfWork S E * (exn E + A).

Section Operations.
Context {S E : Type}.
Notation uow := (UnitOfWork S E).

(** ** Programs *)

Definition ret {A} (a : A) : M S E A := fun u => (u, inr a).
Definition raise {A} (e : exn E) : M S E A := fun u => (u, inl e).
Definition bind {A B} (m : M S E A) (f : A -> M S E B) : M S E B := fun u =>
  let '(u1, r) := m u in
  match r with inr a => f a u1 | inl e => (u1, inl e) end.

(** [try: m  except: h]: [h e] is [None] where no clause catches [e]. *)
Definition try_except {A} (m : M S E A) (h : exn E -> option (M S E A)) : M S E A := fun u =>
  let '(u1, r) := m u in
  match r with
  | inr a => (u1, inr a)
  | inl e => match h e with Some m' => m' u1 | None => (u1, inl e) end
  end.

(** ** The session *)

Definition with_pending (w : S) (u : uow) : uow :=
  {| committed := committed u; pending := w; _depth := _depth u; _first_failure := _first_failure u;
     commits := commits u |}.
Definition with_depth (d : Z) (u : uow) : uow :=
  {| committed := committed u; pending := pending u; _depth := d; _first_failure := _first_failure u;
     commits := commits u |}.
Definition with_failure (f : option (exn E)) (u : uow) : uow :=
  {| committed := committed u; pending := pending u; _depth := _depth u; _first_failure := f;
     commits := commits u |}.

(** A query, and a flushed write that may be refused. *)
Definition query {A} (q : S -> A) : M S E A := fun u => (u, inr (q (pending u))).
Definition execute {A} (f : S -> exn E + (S * A)) : M S E A := fun u =>
  match f (pending u) with
  | inr (w, a) => (with_pending w u, inr a)
  | inl e => (u, inl e)
  end.

(** [_roll_back]: an error of the rollback itself is logged, and the database drops the transaction. *)
Definition _roll_back (u : uow) : uow := with_pending (committed u) u.

(** [session.commit()], and what it raises. *)
Definition session_commit (u : uow) : uow * option (exn E) :=
  let landed := {| committed := pending u; pending := pending u; _depth := _depth u;
                   _first_failure := _first_failure u; commits := tail (commits u) |} in
  let refused := {| committed := committed u; pending := pending u; _depth := _depth u;
                    _first_failure := _first_failure u; commits := tail (commits u) |} in
  match commits u with
  | Refused :: _ => (refused, Some DatabaseError)
  | Unacknowledged :: _ => (landed, Some DatabaseError)
  | _ => (landed, None)
  end.

Definition commit : M S E unit := fun u =>
  let '(u1, failed) := session_commit u in
  (u1, match failed with Some e => inl e | None => inr tt end).

(** [session.rollback()]. *)
Definition rollback : M S E unit := fun u => (_roll_back u, inr tt).

(** [async with session.begin_nested()]: an error undoes the savepoint's own writes. *)
Definition begin_nested {A} (m : M S E A) : M S E A := fun u =>
  let '(u1, r) := m u in
  match r with inl e => (with_pending (pending u) u1, inl e) | inr a => (u1, inr a) end.

(** ** Blocks *)

Definition __aenter__ (u : uow) : uow := with_depth (_depth u + 1) u.

Definition commit_or_roll_back (u : uow) : uow * option (exn E) :=
  let '(u1, failed) := session_commit u in
  match failed with Some e => (_roll_back u1, Some e) | None => (u1, None) end.

(** What the exit raises over the error it is given; that one goes on by itself. *)
Definition __aexit__ (exc : option (exn E)) (u : uow) : uow * option (exn E) :=
  let u := with_depth (_depth u - 1) u in
  let u := match exc, _first_failure u with Some e, None => with_failure (Some e) u | _, _ => u end in
  if 0 <? _depth u then (u, None)
  else
    let failure := _first_failure u in
    let u := with_failure None u in
    match failure with
    | Some f =>
        (_roll_back u, match exc with None => Some (UnitOfWorkRolledBackError f) | Some _ => None end)
    | None => commit_or_roll_back u
    end.

Definition error_of {A} (r : exn E + A) : option (exn E) := match r with inl e => Some e | inr _ => None end.

(** [async with uow]. *)
Definition uow_block {A} (m : M S E A) : M S E A := fun u =>
  let '(u1, r) := m (__aenter__ u) in
  let '(u2, raised) := __aexit__ (error_of r) u1 in
  (u2, match raised with Some e => inl e | None => r end).

(** [async with uow.savepoint()]. *)
Definition savepoint {A} (m : M S E A) : M S E A := fun u =>
  let outer_failure := _first_failure u in
  let '(u1, r) := begin_nested m (__aenter__ u) in
  let u1 := match r with inl _ => with_failure outer_failure u1 | inr _ => u1 end in
  let u1 := with_depth (_depth u1 - 1) u1 in
  match r with
  | inl e => (u1, inl e)
  | inr a => if _depth u1 =? 0
             then let '(u2, failed) := commit_or_roll_back u1 in
                  (u2, match failed with Some e => inl e | None => inr a end)
             else (u1, inr a)
  end.

(** [session_for]: a repository built on the Unit of Work reaches the session in a block only. *)
Definition session_for : M S E unit := fun u =>
  if _depth u =? 0 then (u, inl OutsideUnitOfWorkError) else (u, inr tt).

(** ** What services write with blocks *)

Inductive step : Type :=
| Write (f : S -> exn E + S)
| Raise (e : exn E)
| Seq (s1 s2 : step)
| Except (s : step) (handles : exn E -> bool) (h : step)
| Block (s : step)
| Savepoint (s : step).

Fixpoint run (s : step) : M S E unit :=
  match s with
  | Write f => bind session_for (fun _ =>
                 execute (fun w => match f w with inl e => inl e | inr w' => inr (w', tt) end))
  | Raise e => raise e
  | Seq s1 s2 => bind (run s1) (fun _ => run s2)
  | Except s handles h => try_except (run s) (fun e => if handles e then Some (run h) else None)
  | Block s => uow_block (run s)
  | Savepoint s => savepoint (run s)
  end.

(** ** The specification: one transaction, with no depth and no commit inside it *)

(** What [s] leaves of the transaction's writes, what it raises, and the first error a block inside it
    ended on and no savepoint undid. *)
Fixpoint inside (s : step) (w : S) (t : option (exn E)) : S * option (exn E) * option (exn E) :=
  match s with
  | Write f => match f w with inl e => (w, Some e, t) | inr w' => (w', None, t) end
  | Raise e => (w, Some e, t)
  | Seq s1 s2 =>
      let '(w1, r, t1) := inside s1 w t in
      match r with Some e => (w1, Some e, t1) | None => inside s2 w1 t1 end
  | Except s handles h =>
      let '(w1, r, t1) := inside s w t in
      match r with
      | Some e => if handles e then inside h w1 t1 else (w1, Some e, t1)
      | None => (w1, None, t1)
      end
  | Block s =>
      let '(w1, r, t1) := inside s w t in
      (w1, r, match t1 with Some f => Some f | None => r end)
  | Savepoint s =>
      let '(w1, r, t1) := inside s w t in
      match r with Some e => (w, Some e, t) | None => (w1, None, t1) end
  end.

(** A block of its own: everything [s] wrote, or an error. *)
Definition transaction (s : step) (db : S) : exn E + S :=
  let '(w, r, t) := inside s db None in
  match r, t with
  | Some e, _ => inl e
  | None, Some f => inl (UnitOfWorkRolledBackError f)
  | None, None => inr w
  end.

End Operations.

Notation "'let*' x ':=' m 'in' k" := (bind m (fun x => k))
  (at level 200, x pattern, m at level 200, k at level 200, right associativity) : otari_scope.
Notation "m ';;;' k" := (bind m (fun _ => k)) (at level 199, right associativity) : otari_scope.

(** * A block of the Unit of Work is one transaction of the database, however its body nests blocks
    and savepoints and catches their errors; a savepoint that fails leaves nothing; and the case the
    outermost savepoint misses. *)

Section Refinement.
Context {S E : Type}.
Notation uow := (UnitOfWork S E).

(** What a step inside a block does to the Unit of Work: its writes and its first failure only. *)
Definition inside_of (u : uow) (w : S) (t : option (exn E)) : uow := with_failure t (with_pending w u).

(** The specification, read off the Unit of Work as a result. *)
Definition as_run (u : uow) (o : S * option (exn E) * option (exn E)) : uow * (exn E + unit) :=
  let '(w, r, t) := o in (inside_of u w t, match r with Some e => inl e | None => inr tt end).

Lemma aexit_inside (r : option (exn E)) (u : uow) w t :
  0 < _depth u ->
  __aexit__ r (inside_of (__aenter__ u) w t) =
    (inside_of u w (match t with Some f => Some f | None => r end), None).
Proof.
  intros Hd. unfold __aexit__, inside_of, __aenter__. cbn.
  replace (_depth u + 1 - 1) with (_depth u) by lia.
  destruct r, t; cbn; rewrite (proj2 (Z.ltb_lt _ _) Hd); reflexivity.
Qed.

(** Inside a block, a step runs as the specification says and the depth comes back. *)
Lemma run_inside (s : step) (u : uow) :
  0 < _depth u -> run s u = as_run u (inside s (pending u) (_first_failure u)).
Proof.
  revert u. induction s as [f|e|s1 IH1 s2 IH2|s IH handles h IHh|s IH|s IH]; intros u Hd; cbn [run inside].
  - unfold bind, session_for, execute. rewrite (proj2 (Z.eqb_neq _ _)) by lia. cbn.
    destruct (f (pending u)); by destruct u.
  - unfold raise. by destruct u.
  - unfold bind. rewrite IH1 by done. destruct (inside s1 _ _) as [[w1 r] t1]. destruct r; [done|].
    cbn [as_run]. rewrite IH2 by done. cbn. by destruct (inside s2 _ _) as [[w2 [e|]] t2].
  - unfold try_except. rewrite IH by done. destruct (inside s _ _) as [[w1 r] t1]. destruct r as [e|]; [|done].
    cbn [as_run]. destruct (handles e); [|done].
    rewrite IHh by done. cbn. by destruct (inside h _ _) as [[w2 [e'|]] t2].
  - unfold uow_block. rewrite IH by (cbn; lia). cbn [pending _first_failure __aenter__ with_depth].
    destruct (inside s _ _) as [[w1 r] t1]. cbn [as_run].
    destruct r as [e|]; cbn [error_of]; rewrite aexit_inside by done; by destruct t1.
  - unfold savepoint, begin_nested. rewrite IH by (cbn; lia). cbn [pending _first_failure __aenter__ with_depth].
    destruct (inside s _ _) as [[w1 r] t1]. cbn. replace (_depth u + 1 - 1) with (_depth u) by lia.
    destruct r as [e|]; cbn; replace (_depth u + 1 - 1) with (_depth u) by lia; [by destruct u|].
    by rewrite (proj2 (Z.eqb_neq _ _)) by lia.
Qed.

(** No block is open and nothing is staged: between two steps of a service. *)
Definition idle (u : uow) : Prop := _depth u = 0 /\ _first_failure u = None /\ pending u = committed u.

(** How the next commit of [w] ends. *)
Definition commit_ends (u : uow) (w : S) : S * (exn E + unit) :=
  match commits u with
  | Refused :: _ => (committed u, inl DatabaseError)
  | Unacknowledged :: _ => (w, inl DatabaseError)
  | _ => (w, inr tt)
  end.

(** C17: however a block's body nests blocks and savepoints and catches their errors, running it is one
    transaction: it commits everything the body wrote, or nothing and an error, and the Unit of Work is
    as idle after it as before. *)
Theorem block_is_one_transaction (s : step) (u : uow) :
  idle u ->
  run (Block s) u =
    match transaction s (committed u) with
    | inl e => (u, inl e)
    | inr w => let '(db, r) := commit_ends u w in (fresh_uow db (tail (commits u)), r)
    end.
Proof.
  intros (Hd & Hf & Hp). cbn [run]. unfold uow_block, transaction. rewrite run_inside by (cbn; lia).
  cbn [pending _first_failure __aenter__ with_depth]. rewrite Hf, Hp.
  destruct u as [c p d f cs]; cbn in *; subst.
  destruct (inside s c None) as [[w r] t]. cbn.
  destruct r as [e|], t as [f|]; cbn; try done.
  unfold commit_ends, commit_or_roll_back, session_commit. cbn. by destruct cs as [|[] cs].
Qed.

(** A savepoint inside a block that fails leaves the block's writes, its record of failures and its
    depth as they were, and raises. *)
Theorem failed_savepoint_leaves_nothing (s : step) (u : uow) (e : exn E) :
  0 < _depth u ->
  (run (Savepoint s) u).2 = inl e ->
  run (Savepoint s) u = (u, inl e).
Proof.
  intros Hd. rewrite run_inside by done. cbn [inside].
  destruct (inside s _ _) as [[w1 r] t1]. destruct r as [e'|]; cbn; [|done]. intros [= ->].
  by destruct u.
Qed.

End Refinement.

(** ** Witnesses *)

(** A service that writes, lets an optional part fail under a savepoint, and writes again. *)
Definition tolerant : @step (list Z) Z :=
  Seq (Write (fun w => inr (w ++ [1])))
  (Seq (Except (Savepoint (Block (Seq (Write (fun w => inr (w ++ [2]))) (Raise (Raised 7))))) (fun _ => true)
         (Write (fun w => inr w)))
       (Write (fun w => inr (w ++ [3])))).

Lemma block_is_one_transaction_witness :
  run (Block tolerant) (fresh_uow [0] [Landed]) = (fresh_uow [0; 1; 3] [], inr tt).
Proof. rewrite (block_is_one_transaction tolerant); [reflexivity|]. repeat split. Defined.

Lemma failed_savepoint_leaves_nothing_witness :
  let s := Seq (Write (fun w => inr (w ++ [2]))) (Raise (Raised 7)) in
  let u := @with_depth (list Z) Z 1 (fresh_uow [0] []) in
  run (Savepoint s) u = (u, inl (Raised 7)).
Proof. intros s u. apply (failed_savepoint_leaves_nothing s u (Raised 7)); [reflexivity|reflexivity]. Defined.

(** A block inside [optional] fails, and [optional] catches the error. *)
Definition optional_part : @step (list Z) Z :=
  Seq (Write (fun w => inr (w ++ [1])))
      (Except (Block (Seq (Write (fun w => inr (w ++ [2]))) (Raise (Raised 7)))) (fun _ => true)
        (Write (fun w => inr w))).

(** A block rolls its step back where a block inside it failed and the error was caught, an outermost
    savepoint does not: it commits the failed block's own writes, and the next healthy block of the Unit
    of Work is rolled back for that failure. *)
Theorem savepoint_commits_a_failed_block :
  let after_block := run (Block optional_part) (fresh_uow [] []) in
  let after_savepoint := run (Savepoint optional_part) (fresh_uow [] []) in
  after_block = (fresh_uow [] [], inl (UnitOfWorkRolledBackError (Raised 7)))
  /\ committed after_savepoint.1 = [1; 2] /\ after_savepoint.2 = inr tt
  /\ run (Block (Write (fun w => inr (w ++ [3])))) after_savepoint.1
     = (fresh_uow [1; 2] [], inl (UnitOfWorkRolledBackError (Raised 7))).
Proof. vm_compute. repeat split. Qed.
