(* ===== verification/Tenancy.v ===== *)
(** Identities, organizations, workspaces and their memberships: the rows of [models/tenancy.py], the queries
    and the flushed writes of [repositories/tenancy/], and what a membership change tells the other domains,
    [services/tenancy/membership_listener.py].

    A uuid is an integer; a new row's is one no row of its table has.  A repository's write is the
    statement it flushes: the constraints the database checks raise [IntegrityError].  An ORM row the session
    already holds is an argument of the write, and the UPDATE names the columns the write changed on that
    copy. *)
From S2P Require Import Prelude Text UnitOfWork.
From stdpp Require Import base list option strings pretty.
From Stdlib Require Import ZArith Lia Ascii.
Open Scope Z_scope.

(** ** Vocabularies *)

(** [OrganizationMemberRole] and [WorkspaceMemberRole]. *)
Inductive MemberRole : Type := Owner | Admin | Member | Viewer.
Inductive MemberStatus : Type := Active | Invited | Suspended.
Inductive InvitationStatus : Type := Pending | Accepted | Cancelled | Expired.
(** The roles a domain claim may hand out. *)
Inductive OrganizationDomainRole : Type := DomainMember | DomainViewer.

#[export] Instance member_role_eq_dec : EqDecision MemberRole. Proof. solve_decision. Defined.
#[export] Instance member_status_eq_dec : EqDecision MemberStatus. Proof. solve_decision. Defined.
#[export] Instance invitation_status_eq_dec : EqDecision InvitationStatus. Proof. solve_decision. Defined.

Definition MANAGEMENT_ROLES (r : MemberRole) : bool :=
  match r with Owner | Admin => true | Member | Viewer => false end.
Definition _CONTRIBUTOR_ROLES (r : MemberRole) : bool :=
  match r with Owner | Admin | Member => true | Viewer => false end.

(** ** Rows *)

Record User : Type := {
  user_id : Z;
  user_email : option string;
  hashed_password : option string;
  is_active : bool;
  full_name : option string;
  email_verified_at : option Z;
  email_vouched_at : option Z;
  terms_accepted_at : option Z;
  active_organization_id : Z;
  default_organization_id : option Z
}.

Record Organization : Type := {
  org_id : Z;
  org_name : string;
  org_slug : string;
  org_created_by : option Z
}.

Record OrganizationMember : Type := {
  om_id : Z;
  om_organization : Z;
  om_user : Z;
  om_role : MemberRole;
  om_status : MemberStatus;
  om_created_at : Z
}.

Record WorkspaceAssignmentRequest : Type := { wa_workspace : Z; wa_role : MemberRole }.

Record Invitation : Type := {
  inv_id : Z;
  inv_organization : Z;
  inv_member : Z;
  inv_email : string;
  inv_invited_by : option Z;
  inv_token_hash : string;
  inv_assignments : list WorkspaceAssignmentRequest;
  inv_status : InvitationStatus;
  inv_expires_at : Z;
  inv_created_at : Z
}.

Record Workspace : Type := {
  ws_id : Z;
  ws_organization : Z;
  ws_name : string;
  ws_created_by : option Z;
  ws_created_at : Z
}.

Record WorkspaceMember : Type := {
  wm_id : Z;
  wm_workspace : Z;
  wm_user : Z;
  wm_role : MemberRole;
  wm_status : MemberStatus;
  wm_created_at : Z
}.

Record OrganizationDomain : Type := {
  od_organization : Z;
  od_domain : string;
  od_default_role : OrganizationDomainRole;
  od_enabled : bool;
  od_verified_at : option Z
}.

(** The text of a uuid. *)
Definition str_uuid (i : Z) : string := pretty i.

(** The request-plane user an identity, or a service key, bills through: its id, its alias, whether it is
    soft-deleted, and the models and tools its keys may reach. *)
Record AttributionUser : Type := {
  au_user_id : string;
  au_alias : option string;
  au_deleted : bool;
  au_allowed_models : option (list string);
  au_allowed_tools : option (list string)
}.

(** The tables, and [others]: what the domains that listen keep. *)
Record tenancy (O : Type) : Type := {
  users : list User;
  organizations : list Organization;
  members : list OrganizationMember;
  invitations : list Invitation;
  workspaces : list Workspace;
  workspace_members : list WorkspaceMember;
  domains : list OrganizationDomain;
  attribution_users : list AttributionUser;
  others : O
}.
Arguments users {O} _.
Arguments organizations {O} _.
Arguments members {O} _.
Arguments invitations {O} _.
Arguments workspaces {O} _.
Arguments workspace_members {O} _.
Arguments domains {O} _.
Arguments attribution_users {O} _.
Arguments others {O} _.

(** ** Errors *)

Inductive TenancyError : Type :=
| NotAuthorizedError
| NoActiveOrganizationError
| OrganizationNotFoundError (organization : Z)
| OrganizationMemberNotFoundError (member : Z)
| OrganizationMemberAlreadyExistsError (email : string)
| OrganizationMemberDeactivatedError (email : string)
| OrganizationMemberAddressUnprovenError (email : string)
| OrganizationMemberAddressUnresolvedError (email : string)
| OrganizationSlugUnavailableError
| OrganizationInUseError
| DefaultOrganizationDeletionError
| LastOrganizationError
| MembershipUpdateError (reason : string)
| InvitationNotFoundError
| InvitationExpiredError
| InvitationAlreadyUsedError
| InvitationAlreadyPendingError (email : string)
| InvitationClosedError (status : InvitationStatus)
| InvitationPasswordNotAcceptedError
| TermsNotAcceptedError
| PasswordPolicyError
| BlockedEmailError (email : string)
| InvalidEmailError (email : string)
| WorkspaceNotFoundError (workspace : Z)
| WorkspaceAlreadyExistsError (name : string)
| WorkspaceInUseError
| WorkspaceNameRequiredError
| LastWorkspaceError
| WorkspaceMemberAlreadyExistsError (user : Z)
| WorkspaceMemberNotFoundError (workspace user : Z)
| NotAnOrganizationMemberError (user : Z)
| SignInBlockedError
(* The domains that follow memberships. *)
| OperatorDisabledKeyError
| EndUserSettingsOnPlainKeyError
| ServiceKeyFlagFixedError
| OrganizationServiceKeyUncappedError
| EndUserDefaultNotListedError
| EndUserBudgetNotFoundError (budget : string)
| WorkspaceBudgetDefaultNotFoundError (policy : string)
| WorkspaceBudgetDefaultBudgetNotFoundError (budget : string)
| WorkspaceBudgetDefaultAlreadyExistsError (workspace : Z) (provider_key : option string)
| TraceNotFoundError (trace : string)
| TraceAmbiguousError (trace : string)
| TraceContentShareForbiddenError
| TraceBreakGlassUnnamedError
| TraceBreakGlassForbiddenError
| TraceContentShareNotFoundError (share : Z)
(* What a route answers by itself, and Python's own; their texts are left out. *)
| HTTPException (status_code : Z)
| ValueError.

(** The subclasses of [TenancyConflictError] and [TenancyValidationError]. *)
Definition is_conflict_or_validation (e : TenancyError) : bool :=
  match e with
  | NotAuthorizedError | NoActiveOrganizationError | OrganizationNotFoundError _ | OrganizationMemberNotFoundError _
  | InvitationNotFoundError | WorkspaceNotFoundError _ | WorkspaceMemberNotFoundError _ _ | SignInBlockedError
  | OperatorDisabledKeyError | EndUserBudgetNotFoundError _ | WorkspaceBudgetDefaultNotFoundError _
  | WorkspaceBudgetDefaultBudgetNotFoundError _ | TraceNotFoundError _ | TraceContentShareForbiddenError
  | TraceBreakGlassUnnamedError | TraceBreakGlassForbiddenError
  | TraceContentShareNotFoundError _ | HTTPException _ | ValueError => false
  | _ => true
  end.

(** ** Listeners *)

(** [MembershipListener]: what another domain does, in the transaction that changes the membership; it may
    refuse. *)
Class MembershipListener (O : Type) : Type := {
  member_joined : WorkspaceMember -> O -> exn TenancyError + O;
  member_removed : WorkspaceMember -> O -> exn TenancyError + O;
  member_role_changed : WorkspaceMember -> O -> exn TenancyError + O;
  organization_member_changed : OrganizationMember -> list Z -> O -> exn TenancyError + O;
  workspace_deleted : Z -> list Z -> O -> exn TenancyError + O;
  member_lost_workspaces : Z -> list Z -> O -> exn TenancyError + O
}.

(** Each listener in turn; the first refusal ends the round. *)
Fixpoint each_listener {L O} (tell : L -> O -> exn TenancyError + O) (ls : list L) (o : O) : exn TenancyError + O :=
  match ls with
  | [] => inr o
  | l :: ls => match tell l o with inl e => inl e | inr o' => each_listener tell ls o' end
  end.

Definition MembershipListeners {O} (ls : list (MembershipListener O)) : MembershipListener O := {|
  member_joined := fun m => each_listener (fun l => @member_joined O l m) ls;
  member_removed := fun m => each_listener (fun l => @member_removed O l m) ls;
  member_role_changed := fun m => each_listener (fun l => @member_role_changed O l m) ls;
  organization_member_changed := fun m ws => each_listener (fun l => @organization_member_changed O l m ws) ls;
  workspace_deleted := fun w ids => each_listener (fun l => @workspace_deleted O l w ids) ls;
  member_lost_workspaces := fun u ws => each_listener (fun l => @member_lost_workspaces O l u ws) ls
|}.

(** What the other domains keep under a workspace: rows whose foreign keys refuse its deletion (keys, usage,
    aliases, policies), and rows that are deleted with it. *)
Class RequestPlane (O : Type) : Type := {
  references_workspace : O -> Z -> bool;
  cascade_workspace : Z -> O -> O
}.

(** ** Addresses, [core/addresses.py] and [services/tenancy/email_address.py] *)

Fixpoint has_space (s : string) : bool :=
  match s with EmptyString => false | String c s' => is_space c || has_space s' end.

Fixpoint has_empty_label (fuel : nat) (s : string) : bool :=
  match fuel with
  | O => false
  | S fuel =>
      let '(label, rest) := partition_at "." s in
      bool_decide (label = EmptyString) || (has_char "." s && has_empty_label fuel rest)
  end.

Definition tail_string (s : string) : string := match s with EmptyString => EmptyString | String _ s' => s' end.

Definition normalized_address (value : string) : option string :=
  let candidate := lower (strip value) in
  let '(local, domain) := partition_at "@" candidate in
  if bool_decide (local = EmptyString) || negb (has_char "@" candidate) || has_char "@" domain
     || negb (has_char "." (but_last (tail_string domain))) then None
  else if has_empty_label (S (String.length domain)) domain then None
  else if has_space candidate then None else Some candidate.

Definition MAX_EMAIL_LENGTH : Z := 255.

Definition validated_email (email : string) : exn TenancyError + string :=
  match normalized_address email with
  | Some candidate => if MAX_EMAIL_LENGTH <? Z.of_nat (String.length candidate)
                      then inl (Raised (InvalidEmailError email)) else inr candidate
  | None => inl (Raised (InvalidEmailError email))
  end.

(** ** Tables *)

(** A primary key no row has. *)
Definition fresh_id {A} (id : A -> Z) (l : list A) : Z := foldr (fun x acc => Z.max (id x + 1) acc) 0 l.

Definition update_where {A} (p : A -> bool) (f : A -> A) (l : list A) : list A :=
  map (fun x => if p x then f x else x) l.

(** [ORDER BY created_at, id LIMIT 1]. *)
Definition earlier {A} (at_ id : A -> Z) (x y : A) : bool :=
  (at_ x <? at_ y) || ((at_ x =? at_ y) && (id x <? id y)).
Fixpoint first_by {A} (before : A -> A -> bool) (l : list A) : option A :=
  match l with
  | [] => None
  | x :: l => match first_by before l with
              | Some y => if before y x then Some y else Some x
              | None => Some x
              end
  end.

Section Tables.
Context {O : Type}.
Notation db := (tenancy O).

Definition with_users (l : list User) (t : db) : db :=
  {| users := l; organizations := organizations t; members := members t; invitations := invitations t;
     workspaces := workspaces t; workspace_members := workspace_members t; domains := domains t;
     attribution_users := attribution_users t; others := others t |}.
Definition with_organizations (l : list Organization) (t : db) : db :=
  {| users := users t; organizations := l; members := members t; invitations := invitations t;
     workspaces := workspaces t; workspace_members := workspace_members t; domains := domains t;
     attribution_users := attribution_users t; others := others t |}.
Definition with_members (l : list OrganizationMember) (t : db) : db :=
  {| users := users t; organizations := organizations t; members := l; invitations := invitations t;
     workspaces := workspaces t; workspace_members := workspace_members t; domains := domains t;
     attribution_users := attribution_users t; others := others t |}.
Definition with_invitations (l : list Invitation) (t : db) : db :=
  {| users := users t; organizations := organizations t; members := members t; invitations := l;
     workspaces := workspaces t; workspace_members := workspace_members t; domains := domains t;
     attribution_users := attribution_users t; others := others t |}.
Definition with_workspaces (l : list Workspace) (t : db) : db :=
  {| users := users t; organizations := organizations t; members := members t; invitations := invitations t;
     workspaces := l; workspace_members := workspace_members t; domains := domains t;
     attribution_users := attribution_users t; others := others t |}.
Definition with_workspace_members (l : list WorkspaceMember) (t : db) : db :=
  {| users := users t; organizations := organizations t; members := members t; invitations := invitations t;
     workspaces := workspaces t; workspace_members := l; domains := domains t;
     attribution_users := attribution_users t; others := others t |}.
Definition with_domains (l : list OrganizationDomain) (t : db) : db :=
  {| users := users t; organizations := organizations t; members := members t; invitations := invitations t;
     workspaces := workspaces t; workspace_members := workspace_members t; domains := l;
     attribution_users := attribution_users t; others := others t |}.
Definition with_attribution_users (l : list AttributionUser) (t : db) : db :=
  {| users := users t; organizations := organizations t; members := members t; invitations := invitations t;
     workspaces := workspaces t; workspace_members := workspace_members t; domains := domains t;
     attribution_users := l; others := others t |}.
Definition with_others (o : O) (t : db) : db :=
  {| users := users t; organizations := organizations t; members := members t; invitations := invitations t;
     workspaces := workspaces t; workspace_members := workspace_members t; domains := domains t;
     attribution_users := attribution_users t; others := o |}.

End Tables.
