(* ===== verification/TenancyRepositories.v ===== *)
(** The queries and the flushed writes of [repositories/tenancy/], and the attribution rows of
    [repositories/users_repository.py].  A query is a function of the tables; a write is a program. *)
From S2P Require Import Prelude Text UnitOfWork Tenancy.
From stdpp Require Import base list option strings.
From Stdlib Require Import ZArith Lia.
Open Scope Z_scope.
Open Scope otari_scope.

(** The columns a membership change names. *)
Record MembershipUpdate : Type := { up_role : option MemberRole; up_status : option MemberStatus }.

(** An assigned attribute is written where it differs from the copy the session loaded. *)
Definition net_change {A} `{EqDecision A} (loaded : A) (assigned : option A) (stored : A) : A :=
  match assigned with
  | Some a => if decide (a = loaded) then stored else a
  | None => stored
  end.

(** The UPDATE an assignment of [update_data] to the loaded row [seen] flushes, on the stored row. *)
Definition apply_membership_update (seen : OrganizationMember) (d : MembershipUpdate) (m : OrganizationMember) :
    OrganizationMember :=
  {| om_id := om_id m; om_organization := om_organization m; om_user := om_user m;
     om_role := net_change (om_role seen) (up_role d) (om_role m);
     om_status := net_change (om_status seen) (up_status d) (om_status m);
     om_created_at := om_created_at m |}.

Definition is_active_member (m : OrganizationMember) : bool := bool_decide (om_status m = Active).
Definition is_active_owner (m : OrganizationMember) : bool :=
  bool_decide (om_role m = Owner) && bool_decide (om_status m = Active).
Definition is_pending (i : Invitation) : bool := bool_decide (inv_status i = Pending).

Definition earlier_member : OrganizationMember -> OrganizationMember -> bool := earlier om_created_at om_id.
(** The newest first: [sorted(..., key=(created_at, id), reverse=True)]. *)
Definition later_invitation (x y : Invitation) : bool := earlier inv_created_at inv_id y x.

Definition set_invitation_status (s : InvitationStatus) (i : Invitation) : Invitation :=
  {| inv_id := inv_id i; inv_organization := inv_organization i; inv_member := inv_member i;
     inv_email := inv_email i; inv_invited_by := inv_invited_by i; inv_token_hash := inv_token_hash i;
     inv_assignments := inv_assignments i; inv_status := s; inv_expires_at := inv_expires_at i;
     inv_created_at := inv_created_at i |}.

(** The four columns a reissue writes. *)
Definition reissued (by_user : Z) (token_hash : string) (expires_at : Z) (i : Invitation) : Invitation :=
  {| inv_id := inv_id i; inv_organization := inv_organization i; inv_member := inv_member i;
     inv_email := inv_email i; inv_invited_by := Some by_user; inv_token_hash := token_hash;
     inv_assignments := inv_assignments i; inv_status := Pending; inv_expires_at := expires_at;
     inv_created_at := inv_created_at i |}.

Definition set_active_organization_of (organization : Z) (u : User) : User :=
  {| user_id := user_id u; user_email := user_email u; hashed_password := hashed_password u;
     is_active := is_active u; full_name := full_name u; email_verified_at := email_verified_at u;
     email_vouched_at := email_vouched_at u; terms_accepted_at := terms_accepted_at u;
     active_organization_id := organization; default_organization_id := default_organization_id u |}.

(** What the conditional UPDATE of a first password writes. *)
Definition with_first_password (hash : string) (now : Z) (name : option string) (terms : bool) (u : User) : User :=
  {| user_id := user_id u; user_email := user_email u; hashed_password := Some hash;
     is_active := is_active u; full_name := name; email_verified_at := Some now;
     email_vouched_at := Some now; terms_accepted_at := if terms then Some now else terms_accepted_at u;
     active_organization_id := active_organization_id u; default_organization_id := default_organization_id u |}.

Definition forget_default_organization (organization : Z) (u : User) : User :=
  {| user_id := user_id u; user_email := user_email u; hashed_password := hashed_password u;
     is_active := is_active u; full_name := full_name u; email_verified_at := email_verified_at u;
     email_vouched_at := email_vouched_at u; terms_accepted_at := terms_accepted_at u;
     active_organization_id := active_organization_id u;
     default_organization_id := if decide (default_organization_id u = Some organization) then None
                                else default_organization_id u |}.

(** [WorkspaceMemberUpdate]: a role, and a status where one is given. *)
Definition apply_workspace_member_update (m : WorkspaceMember) (role : MemberRole) (status : option MemberStatus)
    (x : WorkspaceMember) : WorkspaceMember :=
  {| wm_id := wm_id x; wm_workspace := wm_workspace x; wm_user := wm_user x;
     wm_role := net_change (wm_role m) (Some role) (wm_role x);
     wm_status := net_change (wm_status m) status (wm_status x);
     wm_created_at := wm_created_at x |}.

Section Repositories.
Context {O : Type}.
Notation db := (tenancy O).
Notation M := (M db TenancyError).

(** ** Queries *)

Definition get_user (i : Z) (t : db) : option User := List.find (fun u => user_id u =? i) (users t).
Definition get_by_email (email : string) (t : db) : option User :=
  List.find (fun u => match user_email u with
                      | Some e => bool_decide (lower e = lower (strip email))
                      | None => false
                      end) (users t).
Definition get_ids_by_active_organization (organization : Z) (t : db) : list Z :=
  map user_id (List.filter (fun u => active_organization_id u =? organization) (users t)).

Definition get_organization (i : Z) (t : db) : option Organization :=
  List.find (fun o => org_id o =? i) (organizations t).
Definition get_by_slug (slug : string) (t : db) : option Organization :=
  List.find (fun o => bool_decide (org_slug o = slug)) (organizations t).

Definition get_member (i : Z) (t : db) : option OrganizationMember :=
  List.find (fun m => om_id m =? i) (members t).
Definition get_by_organization_and_user (organization user : Z) (t : db) : option OrganizationMember :=
  List.find (fun m => (om_organization m =? organization) && (om_user m =? user)) (members t).
Definition get_active_by_organization_and_user (organization user : Z) (t : db) : option OrganizationMember :=
  List.find (fun m => (om_organization m =? organization) && (om_user m =? user) && is_active_member m) (members t).
Definition get_by_id_and_organization (member organization : Z) (t : db) : option OrganizationMember :=
  List.find (fun m => (om_id m =? member) && (om_organization m =? organization)) (members t).
Definition get_by_id_and_user (member user : Z) (t : db) : option OrganizationMember :=
  List.find (fun m => (om_id m =? member) && (om_user m =? user)) (members t).
Definition get_by_user (user : Z) (t : db) : list OrganizationMember :=
  List.filter (fun m => om_user m =? user) (members t).
Definition get_first_active_for_user (user : Z) (t : db) : option OrganizationMember :=
  first_by earlier_member (List.filter (fun m => (om_user m =? user) && is_active_member m) (members t)).
Definition first_active_organization_id (user excluding : Z) (t : db) : option Z :=
  option_map om_organization
    (first_by earlier_member
       (List.filter (fun m => (om_user m =? user) && is_active_member m && negb (om_organization m =? excluding))
          (members t))).
Definition count_active_owners (organization : Z) (t : db) : Z :=
  Z.of_nat (length (List.filter (fun m => (om_organization m =? organization) && is_active_owner m) (members t))).

Definition get_by_token_hash (hash : string) (t : db) : option Invitation :=
  List.find (fun i => bool_decide (inv_token_hash i = hash)) (invitations t).
Definition get_invitation (i : Z) (t : db) : option Invitation :=
  List.find (fun v => inv_id v =? i) (invitations t).
Definition get_pending_by_organization_members (ids : list Z) (t : db) : list Invitation :=
  List.filter (fun i => bool_decide (inv_member i ∈ ids) && is_pending i) (invitations t).
Definition get_current_by_organization_member (member : Z) (t : db) : option Invitation :=
  first_by later_invitation
    (List.filter (fun i => (inv_member i =? member)
                           && (is_pending i || bool_decide (inv_status i = Expired))) (invitations t)).
Definition lock_live_pending_for_user (user now : Z) (t : db) : bool :=
  existsb (fun i => is_pending i && (now <=? inv_expires_at i)
                    && existsb (fun m => (om_id m =? inv_member i) && (om_user m =? user)
                                         && bool_decide (om_status m = Invited)) (members t)) (invitations t).

Definition get_workspace (i : Z) (t : db) : option Workspace := List.find (fun w => ws_id w =? i) (workspaces t).
Definition get_by_ids (ids : list Z) (t : db) : list Workspace :=
  List.filter (fun w => bool_decide (ws_id w ∈ ids)) (workspaces t).
Definition get_ids_by_organization (organization : Z) (t : db) : list Z :=
  map ws_id (List.filter (fun w => ws_organization w =? organization) (workspaces t)).
Definition get_by_organization_and_name (organization : Z) (name : string) (t : db) : option Workspace :=
  List.find (fun w => (ws_organization w =? organization) && bool_decide (ws_name w = name)) (workspaces t).

Definition is_active_workspace_member (m : WorkspaceMember) : bool := bool_decide (wm_status m = Active).
Definition get_by_workspace_and_user (workspace user : Z) (t : db) : option WorkspaceMember :=
  List.find (fun m => (wm_workspace m =? workspace) && (wm_user m =? user)) (workspace_members t).
Definition get_active_by_workspace_and_user (workspace user : Z) (t : db) : option WorkspaceMember :=
  List.find (fun m => (wm_workspace m =? workspace) && (wm_user m =? user) && is_active_workspace_member m)
    (workspace_members t).
(** The joined query: the workspace of each membership is looked up by its key. *)
Definition workspace_in (organization workspace : Z) (t : db) : bool :=
  match get_workspace workspace t with Some w => ws_organization w =? organization | None => false end.
Definition get_workspace_ids_for_user (user organization : Z) (roles : option (MemberRole -> bool)) (t : db) : list Z :=
  map wm_workspace
    (List.filter (fun m => (wm_user m =? user) && workspace_in organization (wm_workspace m) t
                           && is_active_workspace_member m
                           && match roles with Some among => among (wm_role m) | None => true end)
       (workspace_members t)).
Definition ids_for_workspace (workspace : Z) (t : db) : list Z :=
  map wm_id (List.filter (fun m => wm_workspace m =? workspace) (workspace_members t)).

Definition get_verified_by_domain (domain : string) (t : db) : option OrganizationDomain :=
  List.find (fun d => bool_decide (od_domain d = domain) && is_set (od_verified_at d)) (domains t).

(** ** Writes *)

(** A statement that cannot be refused. *)
Definition write (f : db -> db) : M unit := execute (fun t => inr (f t, tt)).

(** Stage a row, unless a constraint refuses it. *)
Definition insert_row {A} (refused : db -> bool) (row : db -> A) (add : A -> db -> db) : M A :=
  execute (fun t => if refused t then inl IntegrityError else let r := row t in inr (add r t, r)).

Definition create_organization (name slug : string) (created_by : option Z) : M Organization :=
  insert_row (fun t => is_set (get_by_slug slug t))
    (fun t => {| org_id := fresh_id org_id (organizations t); org_name := name; org_slug := slug;
                 org_created_by := created_by |})
    (fun o t => with_organizations (organizations t ++ [o]) t).

Definition create_membership (organization user : Z) (role : MemberRole) (status : MemberStatus) (now : Z) :
    M OrganizationMember :=
  insert_row (fun t => is_set (get_by_organization_and_user organization user t)
                   || negb (is_set (get_organization organization t)) || negb (is_set (get_user user t)))
    (fun t => {| om_id := fresh_id om_id (members t); om_organization := organization; om_user := user;
                 om_role := role; om_status := status; om_created_at := now |})
    (fun m t => with_members (members t ++ [m]) t).

(** [add_if_absent]: the membership, and whether this call created it. *)
Definition add_if_absent (organization user : Z) (role : MemberRole) (now : Z) : M (OrganizationMember * bool) :=
  try_except (begin_nested (let* m := create_membership organization user role Active now in ret (m, true)))
    (fun e => match e with
              | IntegrityError =>
                  Some (let* existing := query (get_by_organization_and_user organization user) in
                        match existing with Some m => ret (m, false) | None => raise IntegrityError end)
              | _ => None
              end).

(** [update_membership]: flush, then refresh. *)
Definition update_membership (seen : OrganizationMember) (d : MembershipUpdate) : M OrganizationMember :=
  write (fun t => with_members
           (update_where (fun m => om_id m =? om_id seen) (apply_membership_update seen d) (members t)) t) ;;;
  let* updated := query (get_member (om_id seen)) in
  match updated with Some m => ret m | None => raise DatabaseError end.

Definition create_invitation (organization member : Z) (email : string) (invited_by : Z) (token_hash : string)
    (assignments : list WorkspaceAssignmentRequest) (expires_at now : Z) : M Invitation :=
  insert_row (fun t => is_set (get_by_token_hash token_hash t) || negb (is_set (get_organization organization t))
                   || negb (is_set (get_member member t)))
    (fun t => {| inv_id := fresh_id inv_id (invitations t); inv_organization := organization; inv_member := member;
                 inv_email := email; inv_invited_by := Some invited_by; inv_token_hash := token_hash;
                 inv_assignments := assignments; inv_status := Pending; inv_expires_at := expires_at;
                 inv_created_at := now |})
    (fun i t => with_invitations (invitations t ++ [i]) t).

Definition update_invitation (i : Invitation) (f : Invitation -> Invitation) : M unit :=
  write (fun t => with_invitations (update_where (fun v => inv_id v =? inv_id i) f (invitations t)) t).
Definition update_status (i : Invitation) (s : InvitationStatus) : M unit :=
  update_invitation i (set_invitation_status s).

(** [try_create]: None where an identity already holds the address. *)
Definition try_create (email : string) (name : option string) (active_organization : Z) : M (option User) :=
  execute (fun t =>
    let address := lower (strip email) in
    if existsb (fun u => bool_decide (user_email u = Some address)) (users t) then inr (t, None)
    else if negb (is_set (get_organization active_organization t)) then inl IntegrityError
    else let u := {| user_id := fresh_id user_id (users t); user_email := Some address; hashed_password := None;
                     is_active := true; full_name := name; email_verified_at := None; email_vouched_at := None;
                     terms_accepted_at := None; active_organization_id := active_organization;
                     default_organization_id := Some active_organization |} in
         inr (with_users (users t ++ [u]) t, Some u)).

(** [UPDATE user SET active_organization_id = organization], whose foreign key checks the organization. *)
Definition point_at (hit : User -> bool) (organization : Z) : M unit :=
  execute (fun t =>
    if existsb hit (users t) && negb (is_set (get_organization organization t)) then inl IntegrityError
    else inr (with_users (update_where hit (set_active_organization_of organization) (users t)) t, tt)).

Definition set_active_organization (user organization : Z) : M unit :=
  point_at (fun u => user_id u =? user) organization.

Definition move_active_organization (ids : list Z) (organization : Z) : M unit :=
  point_at (fun u => bool_decide (user_id u ∈ ids)) organization.

Definition may_claim_first_password (require_unverified : bool) (u : User) : bool :=
  negb (is_set (hashed_password u)) && is_active u
  && (negb require_unverified || negb (is_set (email_verified_at u))).

(** [claim_first_password]: whether this call set it. *)
Definition claim_first_password (user : Z) (hash : string) (require_unverified : bool) (now : Z)
    (name : option string) (terms : bool) : M bool :=
  execute (fun t =>
    let hit u := (user_id u =? user) && may_claim_first_password require_unverified u in
    inr (with_users (update_where hit (with_first_password hash now name terms) (users t)) t,
         existsb hit (users t))).

Definition create_workspace (name : string) (organization : Z) (created_by : option Z) (now : Z) : M Workspace :=
  insert_row (fun t => is_set (get_by_organization_and_name organization name t)
                   || negb (is_set (get_organization organization t)))
    (fun t => {| ws_id := fresh_id ws_id (workspaces t); ws_organization := organization; ws_name := name;
                 ws_created_by := created_by; ws_created_at := now |})
    (fun w t => with_workspaces (workspaces t ++ [w]) t).

Definition create_workspace_member (workspace user : Z) (role : MemberRole) (now : Z) : M WorkspaceMember :=
  insert_row (fun t => is_set (get_by_workspace_and_user workspace user t)
                   || negb (is_set (get_workspace workspace t)) || negb (is_set (get_user user t)))
    (fun t => {| wm_id := fresh_id wm_id (workspace_members t); wm_workspace := workspace; wm_user := user;
                 wm_role := role; wm_status := Active; wm_created_at := now |})
    (fun m t => with_workspace_members (workspace_members t ++ [m]) t).

(** [WorkspaceMemberRepository.add]: the refusal is read from the constraint the database names. *)
Definition membership_refusal (workspace user : Z) (t : db) : option TenancyError :=
  if is_set (get_by_workspace_and_user workspace user t) then Some (WorkspaceMemberAlreadyExistsError user)
  else if negb (is_set (get_workspace workspace t)) then Some (WorkspaceNotFoundError workspace)
  else None.
Definition add_workspace_member (workspace user : Z) (role : MemberRole) (now : Z) : M WorkspaceMember :=
  let* refused := query (membership_refusal workspace user) in
  match refused with
  | Some e => raise (Raised e)
  | None => create_workspace_member workspace user role now
  end.

Definition update_workspace_member (m : WorkspaceMember) (role : MemberRole) (status : option MemberStatus) :
    M WorkspaceMember :=
  write (fun t => with_workspace_members
           (update_where (fun x => wm_id x =? wm_id m) (apply_workspace_member_update m role status)
              (workspace_members t)) t) ;;;
  let* updated := query (fun t => List.find (fun x => wm_id x =? wm_id m) (workspace_members t)) in
  match updated with Some x => ret x | None => raise DatabaseError end.

Definition delete_workspace_member (m : WorkspaceMember) : M unit :=
  write (fun t => with_workspace_members
           (List.filter (fun x => negb (wm_id x =? wm_id m)) (workspace_members t)) t).

(** [get_or_create_attribution_user]: an existing row is revived where it was deleted. *)
Definition _revive (a : AttributionUser) : AttributionUser :=
  {| au_user_id := au_user_id a; au_alias := au_alias a; au_deleted := false;
     au_allowed_models := au_allowed_models a; au_allowed_tools := au_allowed_tools a |}.
Definition get_attribution_user (user : string) (t : db) : option AttributionUser :=
  List.find (fun a => bool_decide (au_user_id a = user)) (attribution_users t).
Definition get_or_create_attribution_user (user : Z) (alias : option string) : M AttributionUser :=
  execute (fun t =>
    match get_attribution_user (str_uuid user) t with
    | Some a =>
        inr (with_attribution_users
               (update_where (fun a => bool_decide (au_user_id a = str_uuid user)) _revive (attribution_users t)) t,
             _revive a)
    | None =>
        let a := {| au_user_id := str_uuid user; au_alias := alias; au_deleted := false; au_allowed_models := None;
                    au_allowed_tools := None |} in
        inr (with_attribution_users (attribution_users t ++ [a]) t, a)
    end).

(** ** Deletions, with the foreign keys that cascade, forget or refuse *)

(** A workspace takes its memberships with it, and is refused while the request plane names it. *)
Definition delete_workspace_row {RP : RequestPlane O} (workspace : Z) : M unit :=
  execute (fun t =>
    if references_workspace (others t) workspace then inl IntegrityError
    else inr (with_others (cascade_workspace workspace (others t))
                (with_workspace_members (List.filter (fun m => negb (wm_workspace m =? workspace)) (workspace_members t))
                   (with_workspaces (List.filter (fun w => negb (ws_id w =? workspace)) (workspaces t)) t)), tt)).

Definition cascade_organization {RP : RequestPlane O} (organization : Z) (t : db) : db :=
  let gone w := workspace_in organization w t in
  let lost m := match get_member m t with Some m => om_organization m =? organization | None => false end in
  with_organizations (List.filter (fun o => negb (org_id o =? organization)) (organizations t))
  (with_users (map (forget_default_organization organization) (users t))
  (with_members (List.filter (fun m => negb (om_organization m =? organization)) (members t))
  (with_invitations (List.filter (fun i => negb (inv_organization i =? organization) && negb (lost (inv_member i)))
                       (invitations t))
  (with_workspace_members (List.filter (fun m => negb (gone (wm_workspace m))) (workspace_members t))
  (with_workspaces (List.filter (fun w => negb (ws_organization w =? organization)) (workspaces t))
  (with_domains (List.filter (fun d => negb (od_organization d =? organization)) (domains t))
  (with_others (foldr cascade_workspace (others t) (get_ids_by_organization organization t)) t))))))).

Definition delete_organization {RP : RequestPlane O} (organization : Z) : M unit :=
  execute (fun t =>
    if existsb (fun u => active_organization_id u =? organization) (users t)
       || existsb (references_workspace (others t)) (get_ids_by_organization organization t)
    then inl IntegrityError
    else inr (cascade_organization organization t, tt)).

(** What a listener writes, in the open transaction. *)
Definition tell (f : O -> exn TenancyError + O) : M unit :=
  execute (fun t => match f (others t) with inl e => inl e | inr o => inr (with_others o t, tt) end).

End Repositories.
