(* ===== verification/Organizations.v ===== *)
(** [OrganizationService], [services/tenancy/organization_service.py]: the organization a caller acts in, the
    organizations themselves, and the life of a membership and of its invitation.

    A request runs to its end against the tables it finds ([Overlaps] interleaves them).  [now] is the
    request's clock; a token, a slug and a password's hash are given, as is what the deployment's blocklist
    answers.  The row locks are no statement here. *)
From S2P Require Import Prelude Text UnitOfWork Tenancy TenancyRepositories.
From stdpp Require Import base list option strings.
From Stdlib Require Import ZArith Lia.
Open Scope Z_scope.
Open Scope otari_scope.

Definition DEFAULT_ORGANIZATION_SLUG : string := "default".
Definition DEFAULT_WORKSPACE_NAME : string := "Default workspace".
Definition MIN_PASSWORD_LENGTH : Z := 8.
Definition MAX_PASSWORD_BYTES : Z := 72.

(** The refusals of a membership change. *)
Definition ONLY_OWNERS_MODIFY : TenancyError :=
  MembershipUpdateError "Only organization owners can modify owner memberships".
Definition ONLY_OWNERS_GRANT : TenancyError :=
  MembershipUpdateError "Only organization owners can grant the owner role".
Definition KEEP_ONE_OWNER : TenancyError :=
  MembershipUpdateError "An organization must keep at least one active owner".

(** What the caller sends to add or to invite a member. *)
Record MemberRequest : Type := {
  req_email : string;
  req_role : MemberRole;
  req_assignments : list WorkspaceAssignmentRequest
}.

(** [InvitationClaimSettings]: whether the deployment publishes terms. *)
Record InvitationClaimSettings : Type := { publishes_terms : bool }.

(** What accepting answers. *)
Record AcceptInvitationResult : Type := {
  accepted_organization : string;
  accepted_role : MemberRole;
  password_set : bool;
  verification_pending : bool;
  can_sign_in : bool
}.

Definition _has_never_signed_in (u : User) : bool :=
  is_active u && negb (is_set (hashed_password u)) && negb (is_set (email_verified_at u)).

Definition validate_new_password {S} (password : string) : M S TenancyError unit :=
  let n := Z.of_nat (String.length password) in
  if (n <? MIN_PASSWORD_LENGTH) || (MAX_PASSWORD_BYTES <? n) then raise (Raised PasswordPolicyError) else ret tt.

Section OrganizationService.
Context {O : Type} {L : MembershipListener O} {RP : RequestPlane O}.
Notation db := (tenancy O).
Notation M := (M db TenancyError).

(** ** Programs *)

Definition fail {A} (e : TenancyError) : M A := raise (Raised e).
Definition require {A} (o : option A) (e : TenancyError) : M A :=
  match o with Some a => ret a | None => fail e end.
Definition refuse_if (b : bool) (e : TenancyError) : M unit := if b then fail e else ret tt.
Fixpoint for_each {A} (f : A -> M unit) (l : list A) : M unit :=
  match l with [] => ret tt | a :: l => f a ;;; for_each f l end.
Definition lift {A} (r : exn TenancyError + A) : M A :=
  match r with inr a => ret a | inl e => raise e end.
(** [except IntegrityError: raise e]. *)
Definition unless_taken {A} (m : M A) (e : TenancyError) : M A :=
  try_except m (fun x => match x with IntegrityError => Some (fail e) | _ => None end).

(** ** The organization a caller acts in *)

Definition _live_active_organization (user : User) (repair : bool) : M (option Organization) :=
  let* organization := query (get_organization (active_organization_id user)) in
  let* live := match organization with
               | Some o => query (get_active_by_organization_and_user (org_id o) (user_id user))
               | None => ret None
               end in
  match live with
  | Some _ => ret organization
  | None =>
      let* fallback := query (get_first_active_for_user (user_id user)) in
      match fallback with
      | None => ret None
      | Some m =>
          let* recovered := query (get_organization (om_organization m)) in
          match recovered with
          | None => ret None
          | Some o =>
              (if repair then set_active_organization (user_id user) (org_id o) else ret tt) ;;;
              ret (Some o)
          end
      end
  end.

Definition get_active_organization_for_user (user : User) : M Organization :=
  let* organization := _live_active_organization user false in
  require organization NotAuthorizedError.

Definition active_organization_id_for_sign_in (user : User) : M (option Z) :=
  let* organization := _live_active_organization user true in
  ret (option_map org_id organization).

Definition _resolve_active_organization (user : User) : M Organization :=
  let* found := _live_active_organization user true in
  let* organization := require found NoActiveOrganizationError in
  (if org_id organization =? active_organization_id user then ret tt else commit) ;;;
  ret organization.

Definition _require_active_membership (user : User) (organization : Organization) : M OrganizationMember :=
  let* m := query (get_active_by_organization_and_user (org_id organization) (user_id user)) in
  require m NotAuthorizedError.

Definition _enforce_management_role (m : OrganizationMember) : M unit :=
  refuse_if (negb (MANAGEMENT_ROLES (om_role m))) NotAuthorizedError.

Definition require_active_organization_management_access (user : User) (organization : Organization) :
    M OrganizationMember :=
  let* m := _require_active_membership user organization in
  _enforce_management_role m ;;;
  ret m.

Definition manages_organization (user : Z) (organization : Z) (t : db) : bool :=
  match get_active_by_organization_and_user organization user t with
  | Some m => MANAGEMENT_ROLES (om_role m)
  | None => false
  end.

Definition require_workspace_contributor_access (user organization workspace : Z) (membership_required : bool) :
    M unit :=
  let* m := query (get_active_by_organization_and_user organization user) in
  if match m with Some m => MANAGEMENT_ROLES (om_role m) | None => false end then ret tt
  else
    refuse_if (match m with Some m => negb (_CONTRIBUTOR_ROLES (om_role m)) | None => true end) NotAuthorizedError ;;;
    let* w := query (get_active_by_workspace_and_user workspace user) in
    match w with
    | None => refuse_if membership_required NotAuthorizedError
    | Some w => refuse_if (negb (_CONTRIBUTOR_ROLES (wm_role w))) NotAuthorizedError
    end.

(** The workspace's lock is taken unless [revoking]. *)
Definition hold_workspace_write_access (user organization workspace : Z) (revoking : bool) : M unit :=
  require_workspace_contributor_access user organization workspace (negb revoking).

Definition has_live_membership (user now : Z) (t : db) : bool :=
  is_set (get_first_active_for_user user t) || lock_live_pending_for_user user now t.

Definition switch_active_organization_for_user (user : User) (organization : Z) : M Organization :=
  let* m := query (get_active_by_organization_and_user organization (user_id user)) in
  let* _ := require m (OrganizationNotFoundError organization) in
  let* o := query (get_organization organization) in
  let* o := require o (OrganizationNotFoundError organization) in
  set_active_organization (user_id user) (org_id o) ;;;
  commit ;;;
  ret o.

(** ** Workspace assignments *)

Definition _require_workspaces_in_organization (organization : Z) (l : list WorkspaceAssignmentRequest) : M unit :=
  let* t := query (fun t => t) in
  match List.filter (fun a => negb (workspace_in organization (wa_workspace a) t)) l with
  | [] => ret tt
  | a :: rest => fail (WorkspaceNotFoundError (foldr Z.min (wa_workspace a) (map wa_workspace rest)))
  end.

Definition _drop_vanished_workspace_assignments (organization : Z) (l : list WorkspaceAssignmentRequest) :
    M (list WorkspaceAssignmentRequest) :=
  query (fun t => List.filter (fun a => workspace_in organization (wa_workspace a) t) l).

(** [wanted.setdefault] over the requests, then the workspaces in order. *)
Fixpoint insert_wanted (a : WorkspaceAssignmentRequest) (l : list WorkspaceAssignmentRequest) :
    list WorkspaceAssignmentRequest :=
  match l with
  | [] => [a]
  | b :: l => if wa_workspace a =? wa_workspace b then a :: l
              else if wa_workspace a <? wa_workspace b then a :: b :: l else b :: insert_wanted a l
  end.
Definition wanted (l : list WorkspaceAssignmentRequest) : list WorkspaceAssignmentRequest :=
  foldr insert_wanted [] l.

(** One assignment, [existing] being the row read before the loop. *)
Definition apply_assignment (user now : Z) (existing : option WorkspaceMember) (a : WorkspaceAssignmentRequest) :
    M unit :=
  match existing with
  | Some m =>
      let was_inactive := negb (is_active_workspace_member m) in
      let* revived := update_workspace_member m (wa_role a) (Some Active) in
      if was_inactive then tell (member_joined revived) else ret tt
  | None =>
      let* m := create_workspace_member (wa_workspace a) user (wa_role a) now in
      tell (member_joined m)
  end.

Definition _apply_workspace_assignments (user now : Z) (l : list WorkspaceAssignmentRequest) : M unit :=
  let* before := query (fun t => t) in
  for_each (fun a => apply_assignment user now (get_by_workspace_and_user (wa_workspace a) user before) a) (wanted l).

(** ** Organizations *)

Definition create_organization_for_user (user : User) (name slug : string) (open_signup : bool) (now : Z) :
    M Organization :=
  unless_taken
    (uow_block (
       let* standing := query (get_first_active_for_user (user_id user)) in
       refuse_if (negb open_signup && negb (is_set standing)) NotAuthorizedError ;;;
       let* organization := create_organization name slug (Some (user_id user)) in
       let* _ := create_membership (org_id organization) (user_id user) Owner Active now in
       let* workspace := create_workspace DEFAULT_WORKSPACE_NAME (org_id organization) (Some (user_id user)) now in
       _apply_workspace_assignments (user_id user) now [{| wa_workspace := ws_id workspace; wa_role := Owner |}] ;;;
       ret organization))
    OrganizationSlugUnavailableError.

(** The identities pointed at [organization] other than [caller], each onto its oldest other organization. *)
Definition move_pointed (caller organization fallback : Z) (t : db) : M unit :=
  for_each (fun i => move_active_organization [i] (default fallback (first_active_organization_id i organization t)))
    (List.filter (fun i => negb (i =? caller)) (get_ids_by_active_organization organization t)).

Definition delete_active_organization_for_user (user : User) : M Organization :=
  let* organization := get_active_organization_for_user user in
  let* _ := require_active_organization_management_access user organization in
  refuse_if (bool_decide (org_slug organization = DEFAULT_ORGANIZATION_SLUG)) DefaultOrganizationDeletionError ;;;
  unless_taken
    (uow_block (
       let* t := query (fun t => t) in
       let workspace_ids := get_ids_by_organization (org_id organization) t in
       let* destination_id :=
         require (first_active_organization_id (user_id user) (org_id organization) t) LastOrganizationError in
       let fallback_id := match get_by_slug DEFAULT_ORGANIZATION_SLUG t with
                          | Some default => org_id default
                          | None => destination_id
                          end in
       move_pointed (user_id user) (org_id organization) fallback_id t ;;;
       set_active_organization (user_id user) destination_id ;;;
       for_each (fun w => let* ids := query (ids_for_workspace w) in tell (workspace_deleted w ids)) workspace_ids ;;;
       delete_organization (org_id organization) ;;;
       let* destination := query (get_organization destination_id) in
       let* m := query (get_active_by_organization_and_user destination_id (user_id user)) in
       let* _ := require m LastOrganizationError in
       require destination LastOrganizationError))
    OrganizationInUseError.

(** ** Membership changes *)

Definition _validate_membership_update (actor target : OrganizationMember) (d : MembershipUpdate)
    (organization : Z) (target_role_counts : bool) : M unit :=
  let new_role := default (om_role target) (up_role d) in
  let new_status := default (om_status target) (up_status d) in
  refuse_if (target_role_counts && negb (bool_decide (om_role actor = Owner)) && bool_decide (om_role target = Owner))
    ONLY_OWNERS_MODIFY ;;;
  refuse_if (negb (bool_decide (om_role actor = Owner)) && bool_decide (new_role = Owner)) ONLY_OWNERS_GRANT ;;;
  if is_active_owner target && (negb (bool_decide (new_role = Owner)) || negb (bool_decide (new_status = Active)))
  then let* owners := query (count_active_owners organization) in
       refuse_if (owners <=? 1) KEEP_ONE_OWNER
  else ret tt.

Definition _tell_listener_workspaces_lost (m : OrganizationMember) (only_inherited : bool) : M unit :=
  uow_block (
    let* ids := query (get_ids_by_organization (om_organization m)) in
    let* kept := query (get_workspace_ids_for_user (om_user m) (om_organization m) None) in
    let ids := if only_inherited then List.filter (fun w => negb (bool_decide (w ∈ kept))) ids else ids in
    match ids with
    | [] => ret tt
    | _ => tell (member_lost_workspaces (om_user m) ids)
    end).

Definition _move_off_ended_membership (m : OrganizationMember) : M unit :=
  let* identity := query (get_user (om_user m)) in
  match identity with
  | None => ret tt
  | Some identity =>
      if negb (active_organization_id identity =? om_organization m) then ret tt
      else let* fallback := query (get_first_active_for_user (user_id identity)) in
           match fallback with
           | Some f => set_active_organization (user_id identity) (om_organization f)
           | None => ret tt
           end
  end.

(** Every status write of the service. *)
Definition _update_membership (m : OrganizationMember) (d : MembershipUpdate) : M OrganizationMember :=
  let was_manager := is_active_member m && MANAGEMENT_ROLES (om_role m) in
  let* updated := update_membership m d in
  (if negb (bool_decide (om_status updated = Invited))
   then let* pending := query (get_pending_by_organization_members [om_id updated]) in
        for_each (fun i => update_status i Cancelled) pending
   else ret tt) ;;;
  (if bool_decide (om_status updated = Suspended)
   then _move_off_ended_membership updated ;;; _tell_listener_workspaces_lost updated false
   else if was_manager && bool_decide (om_status updated = Active) && negb (MANAGEMENT_ROLES (om_role updated))
   then _tell_listener_workspaces_lost updated true
   else ret tt) ;;;
  ret updated.

(** The caller's standing and the membership it names, as read before the organization is locked. *)
Definition read_membership_change (user : User) (member : Z) :
    M (Organization * OrganizationMember * OrganizationMember) :=
  let* organization := get_active_organization_for_user user in
  let* actor := require_active_organization_management_access user organization in
  let* target := query (get_by_id_and_organization member (org_id organization)) in
  let* target := require target (OrganizationMemberNotFoundError member) in
  ret (organization, actor, target).

(** The rest of [update_active_organization_member_for_user], under the organization's lock. *)
Definition write_membership_update (organization : Organization) (actor target : OrganizationMember)
    (d : MembershipUpdate) : M OrganizationMember :=
  _validate_membership_update actor target d (org_id organization) true ;;;
  uow_block (
    let* workspace_ids := query (get_ids_by_organization (org_id organization)) in
    let* updated := _update_membership target d in
    let* u := query (get_user (om_user updated)) in
    let* _ := require u (OrganizationMemberNotFoundError (om_id target)) in
    tell (organization_member_changed updated workspace_ids) ;;;
    ret updated).

Definition update_active_organization_member_for_user (user : User) (member : Z) (d : MembershipUpdate) :
    M OrganizationMember :=
  let* (organization, actor, target) := read_membership_change user member in
  write_membership_update organization actor target d.

Definition suspension : MembershipUpdate := {| up_role := None; up_status := Some Suspended |}.

Definition write_membership_removal (organization : Organization) (actor target : OrganizationMember) : M unit :=
  _validate_membership_update actor target suspension (org_id organization) true ;;;
  uow_block (
    let* workspace_ids := query (get_ids_by_organization (org_id organization)) in
    let* updated := _update_membership target suspension in
    tell (organization_member_changed updated workspace_ids)).

Definition remove_active_organization_member_for_user (user : User) (member : Z) : M unit :=
  let* (organization, actor, target) := read_membership_change user member in
  write_membership_removal organization actor target.

(** ** Adding and inviting *)

Definition _refuse_address_vouched_elsewhere (target : User) (m : option OrganizationMember) (email : string) : M unit :=
  refuse_if (negb (is_set m) && is_set (email_vouched_at target)) (OrganizationMemberAddressUnprovenError email).

Definition _identity_for_address (email : string) (organization : Organization) : M User :=
  let* found := query (get_by_email email) in
  let* target :=
    match found with
    | Some u => ret u
    | None =>
        let* created := try_create email None (org_id organization) in
        match created with
        | Some u => ret u
        | None => let* winner := query (get_by_email email) in
                  require winner (OrganizationMemberAddressUnresolvedError email)
        end
    end in
  refuse_if (negb (is_active target)) (OrganizationMemberDeactivatedError email) ;;;
  ret target.

Definition is_active_opt (m : option OrganizationMember) : bool :=
  match m with Some m => is_active_member m | None => false end.

Definition create_active_organization_member_for_user (user : User) (request : MemberRequest)
    (blocked : string -> bool) (now : Z) : M OrganizationMember :=
  let* organization := get_active_organization_for_user user in
  let* actor := require_active_organization_management_access user organization in
  let* email := lift (validated_email (req_email request)) in
  _require_workspaces_in_organization (org_id organization) (req_assignments request) ;;;
  unless_taken
    (uow_block (
       refuse_if (blocked email) (BlockedEmailError email) ;;;
       let* target := _identity_for_address email organization in
       let* existing := query (get_by_organization_and_user (org_id organization) (user_id target)) in
       refuse_if (is_active_opt existing) (OrganizationMemberAlreadyExistsError email) ;;;
       _refuse_address_vouched_elsewhere target existing email ;;;
       let* m :=
         match existing with
         | None =>
             refuse_if (negb (bool_decide (om_role actor = Owner)) && bool_decide (req_role request = Owner))
               ONLY_OWNERS_GRANT ;;;
             create_membership (org_id organization) (user_id target) (req_role request) Active now
         | Some m =>
             let d := {| up_role := Some (req_role request); up_status := Some Active |} in
             _validate_membership_update actor m d (org_id organization) true ;;;
             _update_membership m d
         end in
       get_or_create_attribution_user (user_id target) (Some email) ;;;
       _apply_workspace_assignments (user_id target) now (req_assignments request) ;;;
       ret m))
    (OrganizationMemberAlreadyExistsError email).

(** The invitation, its [invited] membership, and nothing committed; [token_hash] and [expires_at] are drawn. *)
Definition _stage_invitation (user : User) (organization : Organization) (actor : OrganizationMember) (email : string)
    (role : MemberRole) (assignments : list WorkspaceAssignmentRequest) (token_hash : string)
    (expires_at now : Z) : M (Invitation * OrganizationMember) :=
  let* target := _identity_for_address email organization in
  let* existing := query (get_by_organization_and_user (org_id organization) (user_id target)) in
  refuse_if (is_active_opt existing) (OrganizationMemberAlreadyExistsError email) ;;;
  _refuse_address_vouched_elsewhere target existing email ;;;
  (match existing with
   | Some m =>
       if bool_decide (om_status m = Invited)
       then let* pending := query (get_pending_by_organization_members [om_id m]) in
            refuse_if (existsb (fun i => now <=? inv_expires_at i) pending) (InvitationAlreadyPendingError email) ;;;
            for_each (fun i => update_status i Expired) pending
       else ret tt
   | None => ret tt
   end) ;;;
  let* m :=
    match existing with
    | None => create_membership (org_id organization) (user_id target) role Invited now
    | Some m =>
        let d := {| up_role := Some role; up_status := Some Invited |} in
        _validate_membership_update actor m d (org_id organization) false ;;;
        _update_membership m d
    end in
  let* i := create_invitation (org_id organization) (om_id m) email (user_id user) token_hash assignments
              expires_at now in
  ret (i, m).

Definition may_invite (user : User) (role : MemberRole) (assignments : list WorkspaceAssignmentRequest) :
    M (Organization * OrganizationMember) :=
  let* organization := get_active_organization_for_user user in
  let* actor := require_active_organization_management_access user organization in
  _require_workspaces_in_organization (org_id organization) assignments ;;;
  refuse_if (negb (bool_decide (om_role actor = Owner)) && bool_decide (role = Owner)) ONLY_OWNERS_GRANT ;;;
  ret (organization, actor).

(** The invitation is then mailed; its address is checked before the assignments are. *)
Definition invite_active_organization_member_for_user (user : User) (request : MemberRequest)
    (blocked : string -> bool) (token_hash : string) (expires_at now : Z) : M (Invitation * OrganizationMember) :=
  let* organization := get_active_organization_for_user user in
  let* actor := require_active_organization_management_access user organization in
  let* email := lift (validated_email (req_email request)) in
  _require_workspaces_in_organization (org_id organization) (req_assignments request) ;;;
  refuse_if (negb (bool_decide (om_role actor = Owner)) && bool_decide (req_role request = Owner)) ONLY_OWNERS_GRANT ;;;
  unless_taken
    (uow_block (
       refuse_if (blocked email) (BlockedEmailError email) ;;;
       _stage_invitation user organization actor email (req_role request) (req_assignments request)
         token_hash expires_at now))
    (OrganizationMemberAlreadyExistsError email).

(** A bulk invitation: each address with the token it would be given, and why each refused one was. *)
Record BulkInvitation : Type := { bulk_staged : list (Invitation * OrganizationMember); bulk_failed : list string }.

Definition invite_one (user : User) (organization : Organization) (actor : OrganizationMember) (role : MemberRole)
    (assignments : list WorkspaceAssignmentRequest) (blocked : string -> bool) (expires_at now : Z)
    (seen : list string) (raw token_hash : string) : M (option (Invitation * OrganizationMember) * list string) :=
  try_except
    (let* email := lift (validated_email raw) in
     if bool_decide (email ∈ seen) then ret (None, seen)
     else
       refuse_if (blocked email) (BlockedEmailError email) ;;;
       let* staged := begin_nested (_stage_invitation user organization actor email role assignments token_hash
                                      expires_at now) in
       ret (Some staged, email :: seen))
    (fun e => match e with
              | IntegrityError => Some (ret (None, match validated_email raw with inr a => a :: seen | inl _ => seen end))
              | Raised x => if is_conflict_or_validation x
                            then Some (ret (None, match validated_email raw with inr a => a :: seen | inl _ => seen end))
                            else None
              | _ => None
              end).

Fixpoint invite_each (user : User) (organization : Organization) (actor : OrganizationMember) (role : MemberRole)
    (assignments : list WorkspaceAssignmentRequest) (blocked : string -> bool) (expires_at now : Z)
    (seen : list string) (l : list (string * string)) : M BulkInvitation :=
  match l with
  | [] => ret {| bulk_staged := []; bulk_failed := [] |}
  | (raw, token_hash) :: l =>
      let* (one, seen) := invite_one user organization actor role assignments blocked expires_at now seen raw
                             token_hash in
      let* rest := invite_each user organization actor role assignments blocked expires_at now seen l in
      ret (match one with
           | Some staged => {| bulk_staged := staged :: bulk_staged rest; bulk_failed := bulk_failed rest |}
           | None => {| bulk_staged := bulk_staged rest; bulk_failed := raw :: bulk_failed rest |}
           end)
  end.

Definition invite_active_organization_members_for_user (user : User) (emails : list (string * string))
    (role : MemberRole) (assignments : list WorkspaceAssignmentRequest) (blocked : string -> bool)
    (expires_at now : Z) : M BulkInvitation :=
  let* (organization, actor) := may_invite user role assignments in
  uow_block (invite_each user organization actor role assignments blocked expires_at now [] emails).

End OrganizationService.
