(* ===== verification/Invitations.v ===== *)
(** The answers to an invitation, [services/tenancy/organization_service.py]: accepting it by its link or from
    the inbox, declining, revoking and reissuing it; and the other way an account joins by itself, a proven
    email domain, [services/tenancy/organization_domain_service.py].  An instant is in microseconds. *)
From S2P Require Import Prelude Text UnitOfWork Tenancy TenancyRepositories Organizations.
From stdpp Require Import base list option strings.
From Stdlib Require Import ZArith Lia Ascii.
Open Scope Z_scope.
Open Scope otari_scope.

(** Python's [a or b] on optional strings: an empty one is false. *)
Definition or_else (a b : option string) : option string :=
  match a with
  | Some (String c s) => Some (String c s)
  | _ => b
  end.

(** The name a first password is stored with. *)
Definition chosen_name (invitee : User) (name : option string) : option string :=
  or_else (full_name invitee) (or_else (option_map strip name) None).

Definition DOMAIN_PROOF_TTL : Z := 90 * 24 * 3600 * 1000000.

Definition proof_expired (d : OrganizationDomain) (now : Z) : bool :=
  match od_verified_at d with None => true | Some t => DOMAIN_PROOF_TTL <? now - t end.

Definition domain_role (r : OrganizationDomainRole) : MemberRole :=
  match r with DomainMember => Member | DomainViewer => Viewer end.

(** After the last [c] of [s]. *)
Fixpoint after_last (c : ascii) (s : string) : string :=
  match s with
  | EmptyString => EmptyString
  | String a s' => if has_char c s' then after_last c s' else if decide (a = c) then s' else String a (after_last c s')
  end.

(** [s.rstrip(".")]. *)
Fixpoint rstrip_dots (s : string) : string :=
  match s with
  | EmptyString => EmptyString
  | String a s' => match rstrip_dots s' with
                   | EmptyString => if decide (a = "."%char) then EmptyString else String a EmptyString
                   | t => String a t
                   end
  end.

(** [email_domain]; [_ascii] is the idna library's encoding of a domain. *)
Definition email_domain (_ascii : string -> string) (email : string) : option string :=
  if negb (has_char "@" email) then None
  else or_else (Some (_ascii (rstrip_dots (lower (strip (after_last "@" email)))))) None.

Section Invitations.
Context {O : Type} {L : MembershipListener O}.
Notation db := (tenancy O).
Notation M := (M db TenancyError).

(** ** By the link *)

Definition _resolve_pending_invitation (token_hash : string) (now : Z) :
    M (Invitation * OrganizationMember * Organization * User) :=
  let* found := query (get_by_token_hash token_hash) in
  let* i := require found InvitationNotFoundError in
  refuse_if (bool_decide (inv_status i = Expired)) InvitationExpiredError ;;;
  refuse_if (negb (is_pending i)) InvitationAlreadyUsedError ;;;
  (if inv_expires_at i <? now
   then update_status i Expired ;;; commit ;;; fail InvitationExpiredError
   else ret tt) ;;;
  let* m := query (get_member (inv_member i)) in
  let* o := query (get_organization (inv_organization i)) in
  let* m := require m InvitationNotFoundError in
  let* o := require o InvitationNotFoundError in
  refuse_if (negb (bool_decide (om_status m = Invited))) InvitationAlreadyUsedError ;;;
  let* invitee := query (get_user (om_user m)) in
  let* invitee := require invitee InvitationAlreadyUsedError in
  refuse_if (negb (is_active invitee)) InvitationAlreadyUsedError ;;;
  ret (i, m, o, invitee).

(** Whether a link of [organization] may choose [invitee]'s first password. *)
Definition _invitation_may_set_password (invitee : User) (organization now : Z) (t : db) : bool :=
  let elsewhere := List.filter (fun m => negb (om_organization m =? organization)) (get_by_user (user_id invitee) t) in
  let invited := map om_id (List.filter (fun m => bool_decide (om_status m = Invited)) elsewhere) in
  _has_never_signed_in invitee
  && negb (existsb is_active_member elsewhere)
  && negb (existsb (fun i => now <=? inv_expires_at i) (get_pending_by_organization_members invited t)).

(** [get_invitation_preview]: the role on offer, whether a password is wanted, and whether the address has a
    way in. *)
Definition get_invitation_preview (token_hash : string) (now : Z) : M (MemberRole * bool * bool) :=
  let* (i, m, o, invitee) := _resolve_pending_invitation token_hash now in
  let* needs_password := query (_invitation_may_set_password invitee (org_id o) now) in
  ret (om_role m, needs_password, negb (_has_never_signed_in invitee)).

Definition _resolve_invitation_to_active_membership (i : Invitation) (m : OrganizationMember) (o : Organization)
    (blocked : string -> bool) (now : Z) : M OrganizationMember :=
  uow_block (
    refuse_if (blocked (inv_email i)) (BlockedEmailError (inv_email i)) ;;;
    update_status i Accepted ;;;
    let* m := _update_membership m {| up_role := None; up_status := Some Active |} in
    let* assignments := _drop_vanished_workspace_assignments (org_id o) (inv_assignments i) in
    _apply_workspace_assignments (om_user m) now assignments ;;;
    get_or_create_attribution_user (om_user m) (Some (inv_email i)) ;;;
    ret m).

(** Claim the invitee's first password with the link, or refuse the acceptance. *)
Definition claim_with_link (invitee : User) (organization : Z) (password_hash : string) (name : option string)
    (terms_accepted : bool) (now : Z) : M unit :=
  let* allowed := query (_invitation_may_set_password invitee organization now) in
  refuse_if (negb allowed) InvitationPasswordNotAcceptedError ;;;
  let* claimed := claim_first_password (user_id invitee) password_hash true now (chosen_name invitee name)
                    terms_accepted in
  if claimed then ret tt else rollback ;;; fail InvitationPasswordNotAcceptedError.

(** [password] comes with its hash. *)
Definition accept_invitation (token_hash : string) (claims : InvitationClaimSettings) (blocked : string -> bool)
    (password : option (string * string)) (name : option string) (terms_accepted : bool) (now : Z) :
    M AcceptInvitationResult :=
  (match password with
   | Some (plain, _) =>
       validate_new_password plain ;;;
       refuse_if (publishes_terms claims && negb terms_accepted) TermsNotAcceptedError
   | None => ret tt
   end) ;;;
  let* (pending, _, _, _) := _resolve_pending_invitation token_hash now in
  refuse_if (blocked (inv_email pending)) (BlockedEmailError (inv_email pending)) ;;;
  let* (i, m, o, invitee) := _resolve_pending_invitation token_hash now in
  (match password with
   | Some (_, hash) => claim_with_link invitee (org_id o) hash name terms_accepted now
   | None => ret tt
   end) ;;;
  let* m := _resolve_invitation_to_active_membership i m o blocked now in
  ret {| accepted_organization := org_name o; accepted_role := om_role m; password_set := is_set password;
         verification_pending := is_set (hashed_password invitee) && negb (is_set (email_verified_at invitee));
         can_sign_in := is_set password || negb (_has_never_signed_in invitee) |}.

(** ** From the inbox *)

(** [get_live_pending_for_user_with_context]: the invitations awaiting an identity. *)
Definition live_pending_for_user (user now : Z) (t : db) : list (Invitation * OrganizationMember * Organization) :=
  List.concat (map (fun i =>
    match get_member (inv_member i) t, get_organization (inv_organization i) t with
    | Some m, Some o =>
        if (om_user m =? user) && bool_decide (om_status m = Invited) && is_pending i && (now <=? inv_expires_at i)
        then [(i, m, o)] else []
    | _, _ => []
    end) (invitations t)).

Definition _resolve_own_pending_invitation (user : Z) (member now : Z) :
    M (Invitation * OrganizationMember * Organization) :=
  let* found := query (get_by_id_and_user member user) in
  let* m := require found InvitationNotFoundError in
  refuse_if (negb (bool_decide (om_status m = Invited))) InvitationNotFoundError ;;;
  let* pending := query (get_pending_by_organization_members [om_id m]) in
  refuse_if (bool_decide (pending = [])) InvitationNotFoundError ;;;
  match first_by later_invitation (List.filter (fun i => now <=? inv_expires_at i) pending) with
  | None => for_each (fun i => update_status i Expired) pending ;;; commit ;;; fail InvitationExpiredError
  | Some i =>
      let* o := query (get_organization (om_organization m)) in
      let* o := require o InvitationNotFoundError in
      ret (i, m, o)
  end.

(** The organization's name and the role of an acceptance that already happened. *)
Definition _accepted_result_if_active (user member : Z) (t : db) : option (Organization * OrganizationMember) :=
  match get_by_id_and_user member user t with
  | Some m => if is_active_member m
              then match get_organization (om_organization m) t with Some o => Some (o, m) | None => None end
              else None
  | None => None
  end.

Definition accept_pending_membership_for_user (user : User) (member : Z) (blocked : string -> bool) (now : Z) :
    M OrganizationMember :=
  let* already := query (_accepted_result_if_active (user_id user) member) in
  match already with
  | Some (_, m) => ret m
  | None =>
      let* (pending, _, _) := _resolve_own_pending_invitation (user_id user) member now in
      refuse_if (blocked (inv_email pending)) (BlockedEmailError (inv_email pending)) ;;;
      let* already := query (_accepted_result_if_active (user_id user) member) in
      match already with
      | Some (_, m) => ret m
      | None =>
          let* (i, m, o) := _resolve_own_pending_invitation (user_id user) member now in
          _resolve_invitation_to_active_membership i m o blocked now
      end
  end.

Definition decline_pending_membership_for_user (user : User) (member now : Z) : M unit :=
  let* _ := _resolve_own_pending_invitation (user_id user) member now in
  let* (_, m, _) := _resolve_own_pending_invitation (user_id user) member now in
  let* _ := _update_membership m suspension in
  commit.

(** ** By the inviter *)

Definition _open_invitation (invitation : Z) (organization : Organization) :
    M (Invitation * option OrganizationMember) :=
  let* found := query (get_invitation invitation) in
  let* i := require found InvitationNotFoundError in
  refuse_if (negb (inv_organization i =? org_id organization)) InvitationNotFoundError ;;;
  refuse_if (negb (is_pending i || bool_decide (inv_status i = Expired))) (InvitationClosedError (inv_status i)) ;;;
  let* m := query (get_by_id_and_organization (inv_member i) (org_id organization)) in
  (if bool_decide (inv_status i = Expired)
   then
     let* current := query (fun t => match m with
                                     | Some m => if bool_decide (om_status m = Invited)
                                                 then get_current_by_organization_member (om_id m) t else None
                                     | None => None
                                     end) in
     refuse_if (match current with Some c => negb (inv_id c =? inv_id i) | None => true end)
       (InvitationClosedError (inv_status i))
   else ret tt) ;;;
  ret (i, m).

Definition revoke_organization_member_invitation_for_user (user : User) (invitation : Z) : M unit :=
  let* organization := get_active_organization_for_user user in
  let* actor := require_active_organization_management_access user organization in
  let* (i, m) := _open_invitation invitation organization in
  let suspended := match m with
                   | Some m => if bool_decide (om_status m = Invited) then Some m else None
                   | None => None
                   end in
  (match suspended with
   | Some m => _validate_membership_update actor m suspension (org_id organization) true
   | None => ret tt
   end) ;;;
  update_status i Cancelled ;;;
  (match suspended with
   | Some m => let* _ := _update_membership m suspension in ret tt
   | None => ret tt
   end) ;;;
  commit.

Definition no_change : MembershipUpdate := {| up_role := None; up_status := None |}.

(** The new link is then mailed. *)
Definition reissue_organization_member_invitation_for_user (user : User) (invitation : Z) (blocked : string -> bool)
    (token_hash : string) (expires_at : Z) : M unit :=
  let* organization := get_active_organization_for_user user in
  let* actor := require_active_organization_management_access user organization in
  uow_block (
    let* (i, m) := _open_invitation invitation organization in
    let* m := require m (InvitationClosedError Cancelled) in
    refuse_if (negb (bool_decide (om_status m = Invited))) (InvitationClosedError Cancelled) ;;;
    _validate_membership_update actor m no_change (org_id organization) true ;;;
    let* invitee := query (get_user (om_user m)) in
    let* invitee := require invitee (OrganizationMemberDeactivatedError (inv_email i)) in
    refuse_if (negb (is_active invitee)) (OrganizationMemberDeactivatedError (inv_email i)) ;;;
    refuse_if (blocked (inv_email i)) (BlockedEmailError (inv_email i)) ;;;
    update_invitation i (reissued (user_id user) token_hash expires_at)).

(** ** By a proven domain *)

(** [auto_join], [DomainAutoJoinListener.join]: the membership it created or found, staged for the sign-in to commit. *)
Definition auto_join (_ascii : string -> string) (user : User) (now : Z) : M (option OrganizationMember) :=
  match user_email user with
  | None => ret None
  | Some email =>
      if negb (is_set (email_verified_at user)) || is_set (email_vouched_at user) then ret None
      else match email_domain _ascii email with
           | None => ret None
           | Some domain =>
               let* claim := query (get_verified_by_domain domain) in
               match claim with
               | None => ret None
               | Some claim =>
                   if negb (od_enabled claim) || proof_expired claim now then ret None
                   else
                     let* existing := query (get_by_organization_and_user (od_organization claim) (user_id user)) in
                     match existing with
                     | Some m => ret (Some m)
                     | None =>
                         let* (m, _) := add_if_absent (od_organization claim) (user_id user)
                                          (domain_role (od_default_role claim)) now in
                         ret (Some m)
                     end
               end
           end
  end.

(** ** Signing in, [services/identity/_service.py] *)

(** [start_session]: the organization the session acts in, whose pointer it repairs, unless the address is
    blocked.  The session's row and the time of the sign-in are kept elsewhere. *)
Definition start_session (account : User) (blocked : string -> bool) : M (option Z) :=
  uow_block (
    let* active := active_organization_id_for_sign_in account in
    refuse_if (match user_email account with Some email => blocked email | None => false end) SignInBlockedError ;;;
    ret active).

(** [sign_in], whose listener is the join by domain. *)
Definition sign_in (account : User) (_ascii : string -> string) (blocked : string -> bool) (now : Z) :
    M (option Z) :=
  uow_block (
    let* _ := auto_join _ascii account now in
    start_session account blocked).

End Invitations.
