(* ===== verification/Workspaces.v ===== *)
(** Who sees and who manages a workspace, [services/tenancy/authorization.py], and the workspaces themselves,
    [WorkspaceService] of [services/tenancy/workspace_service.py]. *)
From S2P Require Import Prelude Text UnitOfWork Tenancy TenancyRepositories Organizations.
From stdpp Require Import base list option strings.
From Stdlib Require Import ZArith Lia.
Open Scope Z_scope.
Open Scope otari_scope.

(** [VisibleWorkspaceScope]: the organization, and the workspaces of it, [None] for every one. *)
Record VisibleWorkspaceScope : Type := { scope_organization : Organization; scope_workspaces : option (list Z) }.

Section Workspaces.
Context {O : Type} {L : MembershipListener O} {RP : RequestPlane O}.
Notation db := (tenancy O).
Notation M := (M db TenancyError).

(** ** Visibility and management *)

Definition resolve_workspace_in_organization (user workspace : Z) (organization : Organization) : M Workspace :=
  let* found := query (get_workspace workspace) in
  let* w := require found (WorkspaceNotFoundError workspace) in
  refuse_if (negb (ws_organization w =? org_id organization)) (WorkspaceNotFoundError workspace) ;;;
  let* standing := query (get_active_by_organization_and_user (org_id organization) user) in
  if match standing with Some m => MANAGEMENT_ROLES (om_role m) | None => false end then ret w
  else
    let* m := query (get_active_by_workspace_and_user (ws_id w) user) in
    let* _ := require m (WorkspaceNotFoundError workspace) in
    ret w.

Definition resolve_visible_workspace (user : User) (workspace : Z) : M Workspace :=
  let* organization := get_active_organization_for_user user in
  resolve_workspace_in_organization (user_id user) workspace organization.

Definition has_workspace_management_access (user : Z) (w : Workspace) (t : db) : bool :=
  if match get_active_by_organization_and_user (ws_organization w) user t with
     | Some m => MANAGEMENT_ROLES (om_role m)
     | None => false
     end then true
  else match get_active_by_workspace_and_user (ws_id w) user t with
       | Some m => MANAGEMENT_ROLES (wm_role m)
       | None => false
       end.

Definition require_workspace_management_access (user : Z) (w : Workspace) : M unit :=
  let* manages := query (has_workspace_management_access user w) in
  refuse_if (negb manages) NotAuthorizedError.

Definition sees_every_workspace (s : VisibleWorkspaceScope) : bool := negb (is_set (scope_workspaces s)).

Definition resolve_visible_workspace_scope (user : User) : M VisibleWorkspaceScope :=
  let* organization := get_active_organization_for_user user in
  let* standing := query (get_active_by_organization_and_user (org_id organization) (user_id user)) in
  if match standing with Some m => MANAGEMENT_ROLES (om_role m) | None => false end
  then ret {| scope_organization := organization; scope_workspaces := None |}
  else
    let* ids := query (get_workspace_ids_for_user (user_id user) (org_id organization) None) in
    ret {| scope_organization := organization; scope_workspaces := Some ids |}.

Definition resolve_managed_workspace_ids (user : User) (s : VisibleWorkspaceScope) : M (option (list Z)) :=
  if sees_every_workspace s then ret None
  else
    let* ids := query (get_workspace_ids_for_user (user_id user) (org_id (scope_organization s)) (Some MANAGEMENT_ROLES)) in
    ret (Some ids).

(** ** Workspaces *)

Definition _validated_name (name : option string) : M string :=
  let trimmed := strip (default EmptyString name) in
  refuse_if (bool_decide (trimmed = EmptyString)) WorkspaceNameRequiredError ;;;
  ret trimmed.

Definition create_workspace_for_user (user : User) (name : option string) (now : Z) : M Workspace :=
  let* organization := get_active_organization_for_user user in
  let* _ := require_active_organization_management_access user organization in
  let* name := _validated_name name in
  let* clash := query (get_by_organization_and_name (org_id organization) name) in
  refuse_if (is_set clash) (WorkspaceAlreadyExistsError name) ;;;
  unless_taken
    (uow_block (
       let* w := create_workspace name (org_id organization) (Some (user_id user)) now in
       let* m := create_workspace_member (ws_id w) (user_id user) Owner now in
       tell (member_joined m) ;;;
       ret w))
    (WorkspaceAlreadyExistsError name).

Definition delete_workspace (user : User) (workspace : Z) : M unit :=
  let* organization := get_active_organization_for_user user in
  let* _ := require_active_organization_management_access user organization in
  let* w := resolve_workspace_in_organization (user_id user) workspace organization in
  let* remaining := query (get_ids_by_organization (org_id organization)) in
  refuse_if (Z.of_nat (length remaining) <=? 1) LastWorkspaceError ;;;
  unless_taken
    (uow_block (
       let* ids := query (ids_for_workspace workspace) in
       tell (workspace_deleted workspace ids) ;;;
       delete_workspace_row (ws_id w)))
    WorkspaceInUseError.

(** ** Their members *)

Definition managed_workspace (user : User) (workspace : Z) : M Workspace :=
  let* w := resolve_visible_workspace user workspace in
  require_workspace_management_access (user_id user) w ;;;
  ret w.

Definition add_member (user : User) (workspace member : Z) (role : MemberRole) (now : Z) : M WorkspaceMember :=
  let* w := managed_workspace user workspace in
  let* standing := query (get_active_by_organization_and_user (ws_organization w) member) in
  let* _ := require standing (NotAnOrganizationMemberError member) in
  let* existing := query (get_by_workspace_and_user (ws_id w) member) in
  refuse_if (is_set existing) (WorkspaceMemberAlreadyExistsError member) ;;;
  uow_block (
    let* m := add_workspace_member (ws_id w) member role now in
    tell (member_joined m) ;;;
    ret m).

Definition update_member_role (user : User) (workspace member : Z) (role : MemberRole) : M WorkspaceMember :=
  let* w := managed_workspace user workspace in
  let* found := query (get_by_workspace_and_user (ws_id w) member) in
  let* m := require found (WorkspaceMemberNotFoundError workspace member) in
  uow_block (
    let* updated := update_workspace_member m role None in
    tell (member_role_changed updated) ;;;
    ret updated).

Definition remove_member (user : User) (workspace member : Z) : M unit :=
  let* w := managed_workspace user workspace in
  let* found := query (get_by_workspace_and_user (ws_id w) member) in
  match found with
  | None => ret tt
  | Some m => uow_block (tell (member_removed m) ;;; delete_workspace_member m)
  end.

End Workspaces.
