(* ===== verification/TransactionLogic.v ===== *)
(** A Hoare logic for the programs of [UnitOfWork]: [triple I P m Q] runs [m] from a transaction that sees [P],
    keeps [I] in the database through every commit, ends in [Q] where [m] returns and in [I] where it raises. *)
From S2P Require Import Prelude Text UnitOfWork Tenancy TenancyRepositories Organizations.
From stdpp Require Import base list option strings.
From Stdlib Require Import ZArith Lia.
Open Scope Z_scope.
Open Scope otari_scope.

Section Triples.
Context {S E : Type}.
Implicit Types (I : S -> Prop) (P : S -> Prop).

Definition triple {A} I P (m : M S E A) (Q : A -> S -> Prop) : Prop :=
  forall u, I (committed u) -> P (pending u) ->
    I (committed (m u).1)
    /\ match (m u).2 with inr a => Q a (pending (m u).1) | inl _ => I (pending (m u).1) end.

Lemma triple_weaken {A} I P P' (m : M S E A) (Q Q' : A -> S -> Prop) :
  triple I P' m Q' -> (forall t, P t -> P' t) -> (forall a t, Q' a t -> Q a t) -> triple I P m Q.
Proof. intros H HP HQ u HI HPu. destruct (H u HI (HP _ HPu)) as [H1 H2]. split; [done|]. destruct (m u).2; auto. Qed.

Lemma triple_pre {A} I P P' (m : M S E A) (Q : A -> S -> Prop) :
  triple I P' m Q -> (forall t, P t -> P' t) -> triple I P m Q.
Proof. intros H HP. by eapply triple_weaken. Qed.

Lemma triple_post {A} I P (m : M S E A) (Q Q' : A -> S -> Prop) :
  triple I P m Q' -> (forall a t, Q' a t -> Q a t) -> triple I P m Q.
Proof. intros H HQ. by eapply triple_weaken. Qed.

Lemma triple_ret {A} I P (a : A) (Q : A -> S -> Prop) : (forall t, P t -> Q a t) -> triple I P (ret a) Q.
Proof. intros H u HI HP. split; simpl; auto. Qed.

Lemma triple_raise {A} I P (e : exn E) (Q : A -> S -> Prop) : (forall t, P t -> I t) -> triple I P (raise e) Q.
Proof. intros H u HI HP. split; simpl; auto. Qed.

Lemma triple_bind {A B} I P (m : M S E A) (f : A -> M S E B) Q R :
  triple I P m Q -> (forall a, triple I (Q a) (f a) R) -> triple I P (bind m f) R.
Proof.
  intros Hm Hf u HI HP. unfold bind. destruct (Hm u HI HP) as [H1 H2].
  destruct (m u) as [u1 [e|a]]; simpl in *; [done|]. by apply Hf.
Qed.

(** A query that runs first: what it answers is known of the state. *)
Lemma triple_query_bind {A B} I P (q : S -> A) (f : A -> M S E B) R :
  (forall a, triple I (fun t => P t /\ q t = a) (f a) R) -> triple I P (bind (query q) f) R.
Proof. intros H. eapply triple_bind; [|exact H]. intros u HI HP. simpl. by split. Qed.

Lemma triple_ret_bind {A B} I P (a : A) (f : A -> M S E B) R : triple I P (f a) R -> triple I P (bind (ret a) f) R.
Proof. intros H u HI HP. apply H; auto. Qed.

Lemma triple_query {A} I P (q : S -> A) (Q : A -> S -> Prop) :
  (forall t, P t -> Q (q t) t) -> triple I P (query q) Q.
Proof. intros H u HI HP. simpl. split; auto. Qed.

Lemma triple_execute {A} I P (f : S -> exn E + (S * A)) (Q : A -> S -> Prop) :
  (forall t, P t -> match f t with inr (w, a) => Q a w | inl _ => I t end) -> triple I P (execute f) Q.
Proof.
  intros H u HI HP. unfold execute. specialize (H _ HP). destruct (f (pending u)) as [e|[w a]]; simpl; auto.
Qed.

(** An argument of the code: case analysis before the program goes on. *)
Lemma triple_pure {A} I P (X : Prop) (m : M S E A) Q :
  (forall t, P t -> X) -> (X -> triple I P m Q) -> triple I P m Q.
Proof. intros HX H u HI HP. apply H; eauto. Qed.

Lemma triple_false {A} I P (m : M S E A) Q : (forall t, P t -> False) -> triple I P m Q.
Proof. intros H u HI HP. destruct (H _ HP). Qed.

Lemma triple_commit I P : (forall t, P t -> I t) -> triple I P commit (fun _ t => P t).
Proof.
  intros H u HI HP. unfold commit, session_commit. destruct u as [c p d f [|[] cs]]; simpl in *; auto.
Qed.

Lemma triple_rollback I P : triple I P rollback (fun _ t => I t).
Proof. intros u HI HP. simpl. by split. Qed.

Lemma triple_begin_nested {A} I P (m : M S E A) Q :
  triple I P m Q -> (forall t, P t -> I t) -> triple I P (begin_nested m) Q.
Proof.
  intros Hm HPI u HI HP. unfold begin_nested. destruct (Hm u HI HP) as [H1 H2].
  destruct (m u) as [u1 [e|a]]; simpl in *; auto.
Qed.

Lemma triple_try {A} I P (m : M S E A) h Q :
  triple I P m Q -> (forall e m', h e = Some m' -> triple I I m' Q) -> triple I P (try_except m h) Q.
Proof.
  intros Hm Hh u HI HP. unfold try_except. destruct (Hm u HI HP) as [H1 H2].
  destruct (m u) as [u1 [e|a]]; simpl in *; [|by split]. destruct (h e) as [m'|] eqn:He; [|by split].
  by apply (Hh e).
Qed.

(** The exit of a block keeps what the body left, or drops it for what the database has. *)
Lemma triple_block {A} I P (m : M S E A) Q :
  triple I P m Q -> (forall a t, Q a t -> I t) -> triple I P (uow_block m) Q.
Proof.
  intros Hm HQI u HI HP. unfold uow_block.
  assert (I (committed (__aenter__ u))) as HI' by done. assert (P (pending (__aenter__ u))) as HP' by done.
  destruct (Hm (__aenter__ u) HI' HP') as [H1 H2]. destruct (m (__aenter__ u)) as [u1 r]; simpl in *.
  unfold __aexit__, commit_or_roll_back, session_commit.
  destruct u1 as [c p d f cs], r as [e|a], f as [f|]; simpl in *;
    destruct (0 <? d - 1); simpl; try (split; eauto; done);
    destruct cs as [|[] cs]; simpl; split; eauto.
Qed.

Lemma triple_if {A} I P (b : bool) (m1 m2 : M S E A) Q :
  (b = true -> triple I P m1 Q) -> (b = false -> triple I P m2 Q) -> triple I P (if b then m1 else m2) Q.
Proof. destruct b; auto. Qed.

End Triples.

(** What a request leaves in the database. *)
Lemma triple_committed {S E A} (I P : S -> Prop) (m : M S E A) Q (db : S) cs :
  triple I P m Q -> I db -> P db -> I (committed (m (fresh_uow db cs)).1).
Proof. intros H HI HP. by destruct (H (fresh_uow db cs)). Qed.

(** * The rules of [TransactionLogic] for the combinators of the tenancy services, and the programs that leave
    the roster (memberships, invitations and domain claims) as it is. *)

Lemma find_In {A} (p : A -> bool) l x : List.find p l = Some x -> In x l /\ p x = true.
Proof. apply List.find_some. Qed.

Lemma update_where_In {A} (p : A -> bool) (f : A -> A) l x :
  In x (update_where p f l) -> exists y, In y l /\ x = if p y then f y else y.
Proof. unfold update_where. rewrite in_map_iff. intros (y & <- & Hy). eauto. Qed.

Lemma In_update_where {A} (p : A -> bool) (f : A -> A) l y :
  In y l -> In (if p y then f y else y) (update_where p f l).
Proof. intros Hy. unfold update_where. rewrite in_map_iff. eauto. Qed.

Lemma map_update_where {A B} (g : A -> B) (p : A -> bool) (f : A -> A) l :
  (forall x, In x l -> g (f x) = g x) -> map g (update_where p f l) = map g l.
Proof.
  intros H. unfold update_where. rewrite map_map. apply map_ext_in. intros x Hx. destruct (p x); auto.
Qed.

Lemma fresh_id_above {A} (id : A -> Z) l x : In x l -> id x < fresh_id id l.
Proof. induction l as [|y l IH]; simpl; [done|]. intros [->|Hx]; [lia|]. specialize (IH Hx). lia. Qed.

Lemma fresh_id_NoDup {A} (id : A -> Z) l x :
  List.NoDup (map id l) -> id x = fresh_id id l -> List.NoDup (map id (l ++ [x])).
Proof.
  intros H Hx. rewrite map_app. simpl. apply (NoDup_Add (a := id x) (l := map id l)).
  - rewrite <- (app_nil_r (map id l)) at 1. apply Add_app.
  - split; [done|]. rewrite in_map_iff. intros (y & Hy & Hin). apply (fresh_id_above id) in Hin. lia.
Qed.

(** Two rows with one primary key are one row. *)
Lemma same_key {A} (id : A -> Z) l x y : List.NoDup (map id l) -> In x l -> In y l -> id x = id y -> x = y.
Proof.
  intros Hn Hx Hy He. induction l as [|z l IH]; simpl in *; [done|]. inversion Hn as [|? ? Hz Hl]; subst.
  destruct Hx as [->|Hx], Hy as [->|Hy]; [done| | |by apply IH].
  - destruct Hz. rewrite He. by apply in_map.
  - destruct Hz. rewrite <- He. by apply in_map.
Qed.

Lemma NoDup_map_filter {A B} (id : A -> B) (p : A -> bool) l :
  List.NoDup (map id l) -> List.NoDup (map id (List.filter p l)).
Proof.
  induction l as [|x l IH]; simpl; [done|]. intros Hn. inversion Hn as [|? ? Hx Hl]; subst.
  destruct (p x); simpl; [|by apply IH]. constructor; [|by apply IH].
  intros (y & Hy & Hin)%in_map_iff. apply Hx. rewrite <- Hy. apply in_map. by apply List.filter_In in Hin as [? _].
Qed.

Section TenancyLogic.
Context {O : Type}.
Notation db := (tenancy O).
Notation M := (M db TenancyError).
Implicit Types (I P : db -> Prop).

(** ** Combinators *)

Lemma triple_write I P f (Q : unit -> db -> Prop) : (forall t, P t -> Q tt (f t)) -> triple I P (write f) Q.
Proof. intros H. apply triple_execute. auto. Qed.

Lemma triple_insert {A} I P refused row add (Q : A -> db -> Prop) :
  (forall t, P t -> I t) ->
  (forall t, P t -> refused t = false -> Q (row t) (add (row t) t)) ->
  triple I P (insert_row refused row add) Q.
Proof. intros HI H. apply triple_execute. intros t HP. destruct (refused t) eqn:E; [by apply HI|by apply H]. Qed.

Lemma triple_fail {A} I P e (Q : A -> db -> Prop) : (forall t, P t -> I t) -> triple I P (fail e) Q.
Proof. apply triple_raise. Qed.

Lemma triple_refuse_if I P b e :
  (forall t, P t -> I t) -> triple I P (refuse_if b e) (fun _ t => P t /\ b = false).
Proof. intros H. unfold refuse_if. destruct b; [by apply triple_fail|]. by apply triple_ret. Qed.

Lemma triple_refuse_bind {A} I P b e (k : M A) Q :
  (forall t, P t -> I t) -> (b = false -> triple I P k Q) -> triple I P (refuse_if b e ;;; k) Q.
Proof.
  intros HI H. eapply triple_bind; [by apply triple_refuse_if|]. intros []. cbv beta.
  apply (triple_pure _ _ (b = false)); [tauto|]. intros Hb. eapply triple_pre; [by apply H|]. tauto.
Qed.

Lemma triple_require_bind {A B} I P (o : option A) e (f : A -> M B) Q :
  (forall t, P t -> I t) -> (forall a, o = Some a -> triple I P (f a) Q) -> triple I P (bind (require o e) f) Q.
Proof.
  intros HI H. unfold require. destruct o; [by apply triple_ret_bind, H|].
  eapply triple_bind; [by apply triple_fail|]. instantiate (1 := fun _ _ => False). intros a. by apply triple_false.
Qed.

Lemma triple_require {A} I P (o : option A) e (Q : A -> db -> Prop) :
  (forall t, P t -> I t) -> (forall a t, o = Some a -> P t -> Q a t) -> triple I P (require o e) Q.
Proof. intros HI H. unfold require. destruct o; [apply triple_ret; auto|by apply triple_fail]. Qed.

Lemma triple_lift_bind {A B} I P (r : exn TenancyError + A) (f : A -> M B) Q :
  (forall t, P t -> I t) -> (forall a, r = inr a -> triple I P (f a) Q) -> triple I P (bind (lift r) f) Q.
Proof.
  intros HI H. unfold lift. destruct r; [|by apply triple_ret_bind, H].
  eapply triple_bind; [by apply triple_raise|]. instantiate (1 := fun _ _ => False). intros a. by apply triple_false.
Qed.

Lemma triple_unless_taken {A} I P (m : M A) e Q : triple I P m Q -> triple I P (unless_taken m e) Q.
Proof.
  intros H. unfold unless_taken. apply triple_try; [done|]. intros [] m' [= <-]. by apply triple_fail.
Qed.

Lemma triple_for_each {A} I P (f : A -> M unit) l :
  (forall a, In a l -> triple I P (f a) (fun _ => P)) -> triple I P (for_each f l) (fun _ => P).
Proof.
  induction l as [|a l IH]; intros H; simpl; [by apply triple_ret|].
  eapply triple_bind; [apply H; by left|]. intros []. apply IH. intros b Hb. apply H. by right.
Qed.

(** ** Programs that leave the roster *)

(** A fact of the memberships, the invitations and the domain claims. *)
Definition of_roster P : Prop :=
  forall t t', members t' = members t -> invitations t' = invitations t -> domains t' = domains t -> P t -> P t'.

Definition quiet {A} (m : M A) : Prop :=
  forall I P, of_roster I -> of_roster P -> (forall t, P t -> I t) -> triple I P m (fun _ => P).

(** A write that a fact of the roster does not see. *)
Lemma quiet_execute {A} (f : db -> exn TenancyError + (db * A)) :
  (forall t w a, f t = inr (w, a) ->
     members w = members t /\ invitations w = invitations t /\ domains w = domains t) ->
  quiet (execute f).
Proof.
  intros H I P _ HP HI. apply triple_execute. intros t Ht. destruct (f t) as [e|[w a]] eqn:E; [by apply HI|].
  destruct (H _ _ _ E) as (? & ? & ?). by eapply HP.
Qed.

Lemma quiet_ret {A} (a : A) : quiet (ret a).
Proof. intros I P _ _ HI. by apply triple_ret. Qed.
Lemma quiet_raise {A} (e : exn TenancyError) : quiet (raise e : M A).
Proof. intros I P _ _ HI. by apply triple_raise. Qed.
Lemma quiet_query {A} (q : db -> A) : quiet (query q).
Proof. intros I P _ _ HI. by apply triple_query. Qed.
Lemma quiet_bind {A B} (m : M A) (f : A -> M B) : quiet m -> (forall a, quiet (f a)) -> quiet (bind m f).
Proof. intros Hm Hf I P HI HP HPI. eapply triple_bind; [by apply Hm|]. intros a. by apply Hf. Qed.
Lemma quiet_if {A} (b : bool) (m1 m2 : M A) : quiet m1 -> quiet m2 -> quiet (if b then m1 else m2).
Proof. by destruct b. Qed.
Lemma quiet_block {A} (m : M A) : quiet m -> quiet (uow_block m).
Proof. intros H I P HI HP HPI. apply triple_block; [by apply H|]. auto. Qed.
Lemma quiet_unless_taken {A} (m : M A) e : quiet m -> quiet (unless_taken m e).
Proof. intros H I P HI HP HPI. by apply triple_unless_taken, H. Qed.
Lemma quiet_for_each {A} (f : A -> M unit) l : (forall a, quiet (f a)) -> quiet (for_each f l).
Proof. intros H I P HI HP HPI. apply triple_for_each. intros a _. by apply H. Qed.
Lemma quiet_refuse_if b e : quiet (refuse_if b e).
Proof. unfold refuse_if. destruct b; [apply quiet_raise|apply quiet_ret]. Qed.
Lemma quiet_require {A} (o : option A) e : quiet (require o e).
Proof. unfold require. destruct o; [apply quiet_ret|apply quiet_raise]. Qed.
Lemma quiet_lift {A} (r : exn TenancyError + A) : quiet (lift r).
Proof. unfold lift. destruct r; [apply quiet_raise|apply quiet_ret]. Qed.
Lemma quiet_commit : quiet (commit : M unit).
Proof. intros I P HI HP HPI. by apply triple_commit. Qed.
Lemma quiet_tell f : quiet (tell f).
Proof.
  apply quiet_execute. intros t w a. destruct (f (others t)); intros [= <- <-]; done.
Qed.

End TenancyLogic.

Create HintDb quiet discriminated.
#[export] Hint Resolve quiet_ret quiet_raise quiet_query quiet_bind quiet_if quiet_block quiet_unless_taken
  quiet_for_each quiet_refuse_if quiet_require quiet_lift quiet_commit quiet_tell : quiet.

(** Prove a program quiet by its shape. *)
Ltac quiet :=
  repeat first
    [ progress intros
    | solve [eauto with quiet]
    | apply quiet_bind | apply quiet_if | apply quiet_block | apply quiet_unless_taken | apply quiet_for_each
    | match goal with |- quiet (match ?x with _ => _ end) => destruct x end ].

(** A write whose branches keep the roster by computation. *)
Ltac quiet_write :=
  apply quiet_execute; intros ? ? ?; cbv beta zeta;
  repeat match goal with |- context [match ?b with _ => _ end] => destruct b end; intros [= <- <-]; done.

Section QuietPrograms.
Context {O : Type} {L : MembershipListener O} {RP : RequestPlane O}.
Notation M := (M (tenancy O) TenancyError).

Lemma quiet_point_at hit organization : quiet (O := O) (point_at hit organization).
Proof. quiet_write. Qed.
Lemma quiet_set_active user organization : quiet (O := O) (set_active_organization user organization).
Proof. apply quiet_point_at. Qed.
Lemma quiet_try_create email name organization : quiet (O := O) (try_create email name organization).
Proof. quiet_write. Qed.
Lemma quiet_create_organization name slug by_user : quiet (O := O) (create_organization name slug by_user).
Proof. quiet_write. Qed.
Lemma quiet_claim u h r n name terms : quiet (O := O) (claim_first_password u h r n name terms).
Proof. quiet_write. Qed.
Lemma quiet_create_workspace name organization by_user now : quiet (O := O) (create_workspace name organization by_user now).
Proof. quiet_write. Qed.
Lemma quiet_create_workspace_member w u r n : quiet (O := O) (create_workspace_member w u r n).
Proof. quiet_write. Qed.
Lemma quiet_update_workspace_member m r s : quiet (O := O) (update_workspace_member m r s).
Proof.
  unfold update_workspace_member. apply quiet_bind; [quiet_write|]. quiet.
Qed.
Lemma quiet_delete_workspace_member m : quiet (O := O) (delete_workspace_member m).
Proof. quiet_write. Qed.
Lemma quiet_attribution u alias : quiet (O := O) (get_or_create_attribution_user u alias).
Proof. quiet_write. Qed.
Lemma quiet_delete_workspace_row w : quiet (O := O) (delete_workspace_row w).
Proof. quiet_write. Qed.

Hint Resolve quiet_point_at quiet_set_active quiet_try_create quiet_create_organization quiet_claim
  quiet_create_workspace quiet_create_workspace_member quiet_update_workspace_member quiet_delete_workspace_member
  quiet_attribution quiet_delete_workspace_row : quiet.

Lemma quiet_live_active user repair : quiet (O := O) (_live_active_organization user repair).
Proof. unfold _live_active_organization. quiet. Qed.
Lemma quiet_get_active user : quiet (O := O) (get_active_organization_for_user user).
Proof. unfold get_active_organization_for_user. apply quiet_bind; [apply quiet_live_active|]. quiet. Qed.
Lemma quiet_management user organization :
  quiet (O := O) (require_active_organization_management_access user organization).
Proof. unfold require_active_organization_management_access, _require_active_membership, _enforce_management_role. quiet. Qed.
Lemma quiet_require_workspaces organization l : quiet (O := O) (_require_workspaces_in_organization organization l).
Proof. unfold _require_workspaces_in_organization. quiet. Qed.
Lemma quiet_apply_assignments user now l : quiet (_apply_workspace_assignments user now l).
Proof. unfold _apply_workspace_assignments, apply_assignment. quiet. Qed.
Lemma quiet_identity email organization : quiet (O := O) (_identity_for_address email organization).
Proof. unfold _identity_for_address. quiet. Qed.
Lemma quiet_lost m only : quiet (_tell_listener_workspaces_lost m only).
Proof. unfold _tell_listener_workspaces_lost. quiet. Qed.
Lemma quiet_move_off m : quiet (O := O) (_move_off_ended_membership m).
Proof. unfold _move_off_ended_membership. quiet. Qed.
Lemma quiet_validate actor target d organization counts :
  quiet (O := O) (_validate_membership_update actor target d organization counts).
Proof. unfold _validate_membership_update. quiet. Qed.
Lemma quiet_drop organization l : quiet (O := O) (_drop_vanished_workspace_assignments organization l).
Proof. unfold _drop_vanished_workspace_assignments. quiet. Qed.
Lemma quiet_move_pointed caller organization fallback t : quiet (O := O) (move_pointed caller organization fallback t).
Proof. unfold move_pointed. quiet. Qed.
Lemma quiet_vouched target m email : quiet (O := O) (_refuse_address_vouched_elsewhere target m email).
Proof. unfold _refuse_address_vouched_elsewhere. quiet. Qed.

End QuietPrograms.

#[export] Hint Resolve quiet_point_at quiet_set_active quiet_try_create quiet_create_organization quiet_claim
  quiet_create_workspace quiet_create_workspace_member quiet_update_workspace_member quiet_delete_workspace_member
  quiet_attribution quiet_delete_workspace_row quiet_live_active quiet_get_active quiet_management
  quiet_require_workspaces quiet_apply_assignments quiet_identity quiet_lost quiet_move_off quiet_validate quiet_drop
  quiet_move_pointed quiet_vouched : quiet.
