(* ===== verification/RosterInvariant.v ===== *)
(** The invariant of the roster, and the statements of the services that change it: every organization anybody
    belongs to keeps an active owner, and a pending invitation stands on an [invited] membership. *)
From S2P Require Import Prelude Text UnitOfWork Tenancy TenancyRepositories Organizations TransactionLogic.
From stdpp Require Import base list option strings.
From Stdlib Require Import ZArith Lia.
Open Scope Z_scope.
Open Scope otari_scope.

Section Roster.
Context {O : Type} {L : MembershipListener O} {RP : RequestPlane O}.
Notation db := (tenancy O).
Notation M := (M db TenancyError).
(** Organizations a request knows to have members: none of them loses its last. *)
Context (K : Z -> Prop).
Implicit Types (t : db) (m : OrganizationMember) (i : Invitation).

(** ** The invariant *)

Definition owned (organization : Z) t : Prop :=
  exists m, In m (members t) /\ om_organization m = organization /\ is_active_owner m = true.
Definition peopled (organization : Z) t : Prop := exists m, In m (members t) /\ om_organization m = organization.

Record sound t : Prop := {
  sound_member_ids : List.NoDup (map om_id (members t));
  sound_invitation_ids : List.NoDup (map inv_id (invitations t));
  sound_owned : forall organization, peopled organization t -> owned organization t;
  sound_pending : forall i, In i (invitations t) -> is_pending i = true ->
    exists m, In m (members t) /\ om_id m = inv_member i /\ om_status m = Invited;
  sound_claims : forall d, In d (domains t) -> peopled (od_organization d) t;
  sound_kept : forall organization, K organization -> peopled organization t
}.

Definition no_pending (member : Z) t : Prop :=
  forall i, In i (invitations t) -> inv_member i = member -> is_pending i = false.

Lemma sound_of_roster : of_roster sound.
Proof.
  intros t t' Hm Hi Hd [H1 H2 H3 H4 H5 H6]. unfold owned, peopled in *.
  constructor; unfold owned, peopled; rewrite ?Hm, ?Hi, ?Hd; done.
Qed.

(** A fact of the roster with the invariant, for the quiet programs. *)
Lemma sound_and_of_roster (P : db -> Prop) : of_roster P -> of_roster (fun t => sound t /\ P t).
Proof. intros H t t' Hm Hi Hd [Hs HP]. split; [by eapply sound_of_roster|by eapply H]. Qed.

Lemma quiet_sound {A} (m : M A) (P : db -> Prop) :
  quiet m -> of_roster P -> triple sound (fun t => sound t /\ P t) m (fun _ t => sound t /\ P t).
Proof. intros Hq HP. apply Hq; [apply sound_of_roster|by apply sound_and_of_roster|tauto]. Qed.

Lemma quiet_sound_bind {A B} (m : M A) (f : A -> M B) (P : db -> Prop) Q :
  quiet m -> of_roster P -> (forall a, triple sound (fun t => sound t /\ P t) (f a) Q) ->
  triple sound (fun t => sound t /\ P t) (bind m f) Q.
Proof. intros Hq HP H. eapply triple_bind; [by apply quiet_sound|]. apply H. Qed.

(** ** Changing one membership *)

Definition updated seen (d : MembershipUpdate) : OrganizationMember := apply_membership_update seen d seen.

Lemma updated_role seen d : om_role (updated seen d) = default (om_role seen) (up_role d).
Proof.
  unfold updated, apply_membership_update, net_change. simpl. destruct (up_role d) as [r|]; [|done]. simpl.
  by destruct (decide (r = om_role seen)).
Qed.

Lemma updated_status seen d : om_status (updated seen d) = default (om_status seen) (up_status d).
Proof.
  unfold updated, apply_membership_update, net_change. simpl. destruct (up_status d) as [s|]; [|done]. simpl.
  by destruct (decide (s = om_status seen)).
Qed.

Lemma In_members_update seen d t x :
  List.NoDup (map om_id (members t)) -> In seen (members t) ->
  In x (update_where (fun m => om_id m =? om_id seen) (apply_membership_update seen d) (members t)) <->
  x = updated seen d \/ (In x (members t) /\ om_id x <> om_id seen).
Proof.
  intros Hn Hs. split.
  - intros (y & Hy & ->)%update_where_In. destruct (om_id y =? om_id seen) eqn:E; reflect_bools; [|by right].
    left. by rewrite (same_key om_id _ _ _ Hn Hy Hs E).
  - intros [->|[Hx Hne]].
    + pose proof (In_update_where (fun m => om_id m =? om_id seen) (apply_membership_update seen d) _ _ Hs) as H.
      cbv beta in H. by rewrite Z.eqb_refl in H.
    + pose proof (In_update_where (fun m => om_id m =? om_id seen) (apply_membership_update seen d) _ _ Hx) as H.
      cbv beta in H. by rewrite (proj2 (Z.eqb_neq _ _) Hne) in H.
Qed.

(** The change keeps an owner: the membership stays an active owner, was none, or is not the only one. *)
Definition leaves_owner seen d t : Prop :=
  is_active_owner seen = true -> is_active_owner (updated seen d) = true \/ 1 < count_active_owners (om_organization seen) t.

(** Two active owners are two rows. *)
Lemma another_owner seen t :
  List.NoDup (map om_id (members t)) -> 1 < count_active_owners (om_organization seen) t ->
  exists m, In m (members t) /\ om_id m <> om_id seen /\ om_organization m = om_organization seen
            /\ is_active_owner m = true.
Proof.
  unfold count_active_owners. intros Hn Hc.
  set (p := fun m => (om_organization m =? om_organization seen) && is_active_owner m) in *.
  assert (exists m, In m (List.filter p (members t)) /\ om_id m <> om_id seen) as (m & Hm & Hne).
  { assert (List.NoDup (map om_id (List.filter p (members t)))) as Hf.
    { by apply NoDup_map_filter. }
    destruct (List.filter p (members t)) as [|x [|y l]]; simpl in *; [lia|lia|].
    destruct (Z.eq_dec (om_id x) (om_id seen)) as [E|E]; [|exists x; auto].
    exists y. split; [auto|]. inversion Hf as [|? ? Hx]; subst. intros E'. apply Hx. left. congruence. }
  apply List.filter_In in Hm as [Hm Hp]. unfold p in Hp. reflect_bools. eauto.
Qed.

(** The invariant after the UPDATE of one membership, its invitations cancelled where it left [invited]. *)
Lemma sound_update seen d t (invs : list Invitation) :
  sound t -> In seen (members t) -> leaves_owner seen d t ->
  List.NoDup (map inv_id invs) ->
  (forall i, In i invs -> is_pending i = true -> In i (invitations t)) ->
  (om_status (updated seen d) <> Invited -> forall i, In i invs -> inv_member i = om_id seen -> is_pending i = false) ->
  sound (with_invitations invs (with_members
           (update_where (fun m => om_id m =? om_id seen) (apply_membership_update seen d) (members t)) t)).
Proof.
  intros [Hn Hni Ho Hp Hc Hk] Hs Hl Hinvs Hsub Hcan.
  assert (forall o, peopled o t -> exists x, (x = updated seen d \/ In x (members t) /\ om_id x <> om_id seen)
                                          /\ om_organization x = o) as Hpeople.
  { intros o (m & Hm & Horg). destruct (Z.eq_dec (om_id m) (om_id seen)) as [E|E]; [|by exists m; auto].
    exists (updated seen d). split; [auto|]. by rewrite (same_key om_id _ _ _ Hn Hm Hs E) in Horg. }
  constructor; cbn [members invitations domains with_invitations with_members].
  - by rewrite map_update_where.
  - done.
  - intros o (m & Hm & Horg). cbn in Hm. rewrite In_members_update in Hm by done.
    assert (peopled o t) as Hpo by (destruct Hm as [->|[Hm _]]; [exists seen|exists m]; done).
    destruct (Ho o Hpo) as (w & Hw & Hwo & Hwa). unfold owned; cbn.
    setoid_rewrite In_members_update; [|done..].
    destruct (Z.eq_dec (om_id w) (om_id seen)) as [E|E]; [|exists w; auto].
    rewrite (same_key om_id _ _ _ Hn Hw Hs E) in Hwa, Hwo. destruct (Hl Hwa) as [Ho'|Ho'].
    + exists (updated seen d). auto.
    + destruct (another_owner seen t Hn Ho') as (m' & ? & ? & ? & ?). exists m'. split; [auto|]. split; [congruence|done].
  - intros i Hi Hpi. destruct (Hp i (Hsub i Hi Hpi) Hpi) as (m & Hm & Hid & Hst).
    setoid_rewrite In_members_update; [|done..].
    destruct (Z.eq_dec (om_id m) (om_id seen)) as [E|E]; [|exists m; auto].
    destruct (decide (om_status (updated seen d) = Invited)) as [Hst'|Hst'].
    + exists (updated seen d). split; [auto|]. split; [by rewrite <- Hid, E|done].
    + rewrite (Hcan Hst' i Hi) in Hpi by congruence. done.
  - intros c Hcl. destruct (Hpeople _ (Hc c Hcl)) as (x & Hx & Horg). exists x. cbn.
    by rewrite In_members_update.
  - intros o HK. destruct (Hpeople _ (Hk o HK)) as (x & Hx & Horg). exists x. cbn. by rewrite In_members_update.
Qed.

(** ** Invitations *)

(** Closing invitations, which are given by their ids, keeps the invariant. *)
Definition closes (f : Invitation -> Invitation) : Prop :=
  forall i, inv_id (f i) = inv_id i /\ is_pending (f i) = false.

Lemma closes_status s : s <> Pending -> closes (set_invitation_status s).
Proof. intros H i. split; [done|]. unfold is_pending. simpl. by apply bool_decide_eq_false. Qed.

Lemma sound_close (p : Invitation -> bool) f t :
  closes f -> sound t -> sound (with_invitations (update_where p f (invitations t)) t).
Proof.
  intros Hf [H1 H2 H3 H4 H5 H6]. constructor; cbn; try done.
  - rewrite map_update_where; [done|]. intros i _. apply Hf.
  - intros i (j & Hj & ->)%update_where_In Hpi. destruct (p j); [|by apply H4].
    rewrite (proj2 (Hf j)) in Hpi. done.
Qed.

(** A predicate of the memberships and claims alone. *)
Definition of_members (P : db -> Prop) : Prop :=
  forall t t', members t' = members t -> domains t' = domains t -> P t -> P t'.

Lemma triple_close i s (P : db -> Prop) :
  s <> Pending -> of_members P ->
  triple sound (fun t => sound t /\ P t) (update_status i s) (fun _ t => sound t /\ P t).
Proof.
  intros Hs HP. apply triple_write. intros t [Ht HPt]. split; [by apply sound_close; [apply closes_status|]|].
  by apply (HP t).
Qed.

Lemma no_pending_close (p : Invitation -> bool) f t member :
  closes f -> (forall i, inv_member (f i) = inv_member i) -> no_pending member t ->
  no_pending member (with_invitations (update_where p f (invitations t)) t).
Proof.
  intros Hf Hm Hn i (j & Hj & ->)%update_where_In Hi. destruct (p j); [apply Hf|by apply Hn].
Qed.

End Roster.

(** * The writes of the roster under its invariant: a new membership, a new invitation, the check and the write of
    a membership change. *)

(** Facts of the roster, by their shape. *)
Ltac roster :=
  try (intros ? ? ? ? ?); unfold owned, peopled, no_pending, leaves_owner, count_active_owners in *;
  repeat match goal with
         | H : members _ = members _ |- _ => rewrite H; clear H
         | H : invitations _ = invitations _ |- _ => rewrite H; clear H
         | H : domains _ = domains _ |- _ => rewrite H; clear H
         end; try done.

Section RosterWrites.
Context {O : Type} {L : MembershipListener O} {RP : RequestPlane O}.
Notation db := (tenancy O).
Notation M := (M db TenancyError).
Context (K : Z -> Prop).
Notation sound := (sound K).
Implicit Types (t : db) (m : OrganizationMember) (i : Invitation).

(** ** New rows *)

Lemma fresh_member_no_pending t : sound t -> no_pending (fresh_id om_id (members t)) t.
Proof.
  intros Hs i Hi Hm. destruct (is_pending i) eqn:Hp; [|done].
  destruct (sound_pending K t Hs i Hi Hp) as (m & Hin & Hid & _). apply (fresh_id_above om_id) in Hin. lia.
Qed.

Lemma sound_add_member t m :
  sound t -> om_id m = fresh_id om_id (members t) -> is_active_owner m = true \/ peopled (om_organization m) t ->
  sound (with_members (members t ++ [m]) t).
Proof.
  intros Hs Hid Hor. pose proof Hs as [H1 H2 H3 H4 H5 H6]. constructor; cbn.
  - by apply fresh_id_NoDup.
  - done.
  - intros o (x & Hx & Ho). cbn in Hx.
    assert (owned o t \/ (o = om_organization m /\ is_active_owner m = true)) as Hcase.
    { apply in_app_iff in Hx as [Hx|[<-|[]]]; [left; apply H3; by exists x|].
      destruct Hor as [Ha|Hp]; [by right|]. left. apply H3. by rewrite <- Ho. }
    unfold owned. cbn. setoid_rewrite in_app_iff. destruct Hcase as [(w & ? & ? & ?)|[-> ?]]; [eauto|].
    exists m. simpl. auto.
  - intros i Hi Hp. destruct (H4 i Hi Hp) as (w & Hw & ?). exists w. rewrite in_app_iff. auto.
  - intros d Hd. destruct (H5 d Hd) as (w & Hw & ?). exists w. cbn. rewrite in_app_iff. auto.
  - intros o Ho. destruct (H6 o Ho) as (w & Hw & ?). exists w. cbn. rewrite in_app_iff. auto.
Qed.

Lemma triple_create_membership organization user role status now :
  triple sound
    (fun t => sound t /\ ((role = Owner /\ status = Active) \/ peopled organization t))
    (create_membership organization user role status now)
    (fun m t => sound t /\ In m (members t) /\ om_organization m = organization /\ om_status m = status
                /\ no_pending (om_id m) t).
Proof.
  apply triple_insert; [tauto|]. intros t [Hs Hor] _. split; [|split; [|split; [done|split; [done|]]]].
  - apply sound_add_member; [done|done|]. destruct Hor as [[-> ->]|Hp]; [by left|by right].
  - cbn. rewrite in_app_iff. simpl. auto.
  - cbn. intros i Hi. by apply fresh_member_no_pending.
Qed.

Lemma triple_create_invitation organization m email by_user hash assignments expires_at now :
  triple sound
    (fun t => sound t /\ In m (members t) /\ om_status m = Invited)
    (create_invitation organization (om_id m) email by_user hash assignments expires_at now)
    (fun _ => sound).
Proof.
  apply triple_insert; [tauto|]. intros t ([H1 H2 H3 H4 H5 H6] & Hin & Hst) _. constructor; cbn; try done.
  - by apply fresh_id_NoDup.
  - intros i [Hi|[<-|[]]]%in_app_iff Hp; [by apply H4|]. by exists m.
Qed.

(** ** The check of a membership change *)

(** Who may make the change: only an owner touches an owner (unless that does not count) or makes one. *)
Definition may_change (actor target : OrganizationMember) (d : MembershipUpdate) (counts : bool) : Prop :=
  om_role actor <> Owner -> (counts = true -> om_role target <> Owner) /\ om_role (updated target d) <> Owner.

Lemma triple_check (I P : db -> Prop) actor target d organization counts :
  (forall t, P t -> I t) -> om_organization target = organization ->
  triple I P (_validate_membership_update actor target d organization counts)
    (fun _ t => P t /\ leaves_owner target d t /\ may_change actor target d counts).
Proof.
  intros HP Ho. unfold _validate_membership_update.
  apply triple_refuse_bind; [done|]. intros Hr1. apply triple_refuse_bind; [done|]. intros Hr2.
  assert (may_change actor target d counts) as Hmay.
  { intros Hna. rewrite updated_role. rewrite (bool_decide_eq_false_2 _ Hna) in Hr1, Hr2. simpl in *.
    apply bool_decide_eq_false in Hr2. split; [|done]. intros ->. by apply bool_decide_eq_false in Hr1. }
  destruct (is_active_owner target && _) eqn:Hb.
  - apply triple_query_bind. intros owners. eapply triple_post; [apply triple_refuse_if; intros t [? _]; auto|].
    cbn. intros _ t [[HPt <-] Hc]. split; [done|]. split; [|done].
    intros _. right. rewrite Ho. by apply Z.leb_gt in Hc.
  - apply triple_ret. intros t HPt. split; [done|]. split; [|done].
    intros Hao. left. rewrite Hao in Hb. simpl in Hb. apply orb_false_elim in Hb as [Hb1 Hb2].
    apply negb_false_iff, bool_decide_eq_true in Hb1, Hb2.
    unfold is_active_owner. rewrite updated_role, updated_status, Hb1, Hb2. done.
Qed.

Lemma triple_validate actor target d organization counts (P : db -> Prop) :
  om_organization target = organization ->
  triple sound (fun t => sound t /\ P t) (_validate_membership_update actor target d organization counts)
    (fun _ t => sound t /\ P t /\ leaves_owner target d t /\ may_change actor target d counts).
Proof. intros Ho. eapply triple_post; [apply triple_check; [tauto|done]|]. cbv beta. tauto. Qed.

(** ** The write of a membership change *)

Lemma triple_for_each_list {A} I (J : list A -> db -> Prop) (f : A -> M unit) l :
  (forall l1 a, In a l -> triple I (J l1) (f a) (fun _ => J (l1 ++ [a]))) ->
  triple I (J []) (for_each f l) (fun _ => J l).
Proof.
  intros H. change l with ([] ++ l) at 2. assert (forall a, In a l -> In a l) as Hsub by done.
  revert Hsub. generalize (@nil A) as l1. generalize l at 1 3 4 as l2. intros l2. induction l2 as [|a l2 IH]; intros l1 Hsub.
  - apply triple_ret. by rewrite app_nil_r.
  - cbn [for_each]. eapply triple_bind; [apply H, Hsub; by left|]. intros [].
    replace (l1 ++ a :: l2) with ((l1 ++ [a]) ++ l2) by (by rewrite <- app_assoc). apply IH. intros b Hb. apply Hsub. by right.
Qed.

(** Between the UPDATE of the membership and the last of its invitations closed. *)
Record in_change (seen : OrganizationMember) (d : MembershipUpdate) (N : Z -> Prop) t : Prop := {
  changed_from : db;
  changed_sound : sound changed_from;
  changed_seen : In seen (members changed_from);
  changed_leaves : leaves_owner seen d changed_from;
  changed_none : forall id, N id -> no_pending id t;
  changed_members : members t =
    update_where (fun m => om_id m =? om_id seen) (apply_membership_update seen d) (members changed_from);
  changed_domains : domains t = domains changed_from;
  changed_ids : List.NoDup (map inv_id (invitations t));
  changed_pending : forall i, In i (invitations t) -> is_pending i = true -> In i (invitations changed_from)
}.

Definition before_change seen d (N : Z -> Prop) t : Prop :=
  sound t /\ In seen (members t) /\ leaves_owner seen d t /\ (forall id, N id -> no_pending id t).

Lemma triple_update_row seen d N :
  triple sound (before_change seen d N) (update_membership seen d) (fun m t => m = updated seen d /\ in_change seen d N t).
Proof.
  unfold update_membership. eapply triple_bind.
  - apply (triple_write _ _ _ (fun _ => in_change seen d N)). intros t (Hs & Hin & Hl & HN).
    econstructor; cbn; try done; apply Hs.
  - intros []. apply triple_query_bind. intros found.
    eapply (triple_pure _ _ (found = Some (updated seen d))).
    + intros t [Hc <-]. destruct Hc as [t0 Hs Hin Hl HN Hm _ _ _]. unfold get_member. rewrite Hm.
      pose proof (sound_member_ids K _ Hs) as Hn.
      assert (In (updated seen d) (members t)) as Hin' by (rewrite Hm; apply In_members_update; auto).
      destruct (List.find _ _) as [x|] eqn:E.
      * apply List.find_some in E as [Hx Hid]. reflect_bools. f_equal. apply In_members_update in Hx; [|done..].
        destruct Hx as [->|[_ Hne]]; done.
      * apply List.find_none with (x := updated seen d) in E; [|by rewrite <- Hm]. simpl in E. by rewrite Z.eqb_refl in E.
    + intros ->. apply triple_ret. intros t [Hc _]. done.
Qed.

Lemma sound_after_change seen d N t :
  in_change seen d N t ->
  (om_status (updated seen d) <> Invited -> no_pending (om_id seen) t) -> sound t.
Proof.
  intros [t0 Hs Hin Hl HN Hm Hd Hni Hp] Hcan.
  eapply (sound_of_roster K (with_invitations (invitations t) (with_members _ t0)));
    [exact Hm|done|exact Hd|]. by apply sound_update.
Qed.

(** Cancelling one invitation. *)
Lemma in_change_cancel seen d N t i :
  in_change seen d N t ->
  in_change seen d N
    (with_invitations (update_where (fun v => inv_id v =? inv_id i) (set_invitation_status Cancelled) (invitations t)) t).
Proof.
  intros [t0 Hs Hin Hl HN Hm Hd Hni Hp]. exists t0; try done; cbn.
  - intros id Hid. by apply no_pending_close; [apply closes_status| |apply HN].
  - by rewrite map_update_where.
  - intros j (x & Hx & ->)%update_where_In Hj. destruct (inv_id x =? inv_id i); [done|by apply Hp].
Qed.

(** Pending invitations of a membership are among [l], less the [done] ones. *)
Definition cancelling (member : Z) (l done : list Invitation) t : Prop :=
  forall i, In i (invitations t) -> is_pending i = true -> inv_member i = member ->
    In (inv_id i) (map inv_id l) /\ ~ In (inv_id i) (map inv_id done).

Lemma triple_cancel seen d N l :
  triple sound (fun t => in_change seen d N t /\ cancelling (om_id seen) l [] t)
    (for_each (fun i => update_status i Cancelled) l)
    (fun _ t => in_change seen d N t /\ no_pending (om_id seen) t).
Proof.
  eapply triple_post; [apply (triple_for_each_list _ (fun done t => in_change seen d N t /\ cancelling (om_id seen) l done t))|].
  - intros done i Hi. apply triple_write. intros t [Hc Hl]. split; [by apply in_change_cancel|]. cbn.
    intros j (x & Hx & ->)%update_where_In Hj Hm. destruct (inv_id x =? inv_id i) eqn:E; [done|]. reflect_bools.
    destruct (Hl x Hx Hj Hm) as [Hin Hnot]. split; [done|]. rewrite map_app, in_app_iff. simpl. intuition congruence.
  - intros _ t [Hc Hl]. split; [done|]. intros i Hi Hm. destruct (is_pending i) eqn:Hp; [|done].
    by destruct (Hl i Hi Hp Hm).
Qed.

Lemma triple_update_membership seen d (N : Z -> Prop) :
  triple sound (before_change seen d N) (_update_membership seen d)
    (fun m t => m = updated seen d /\ sound t /\ In m (members t) /\ (forall id, N id -> no_pending id t)).
Proof.
  unfold _update_membership. eapply triple_bind; [apply triple_update_row|]. intros m. cbv beta.
  eapply (triple_pure _ _ (m = updated seen d)); [tauto|]. intros ->.
  eapply triple_bind.
  - instantiate (1 := fun _ t => sound t /\ In (updated seen d) (members t) /\ (forall id, N id -> no_pending id t)).
    assert (forall t, in_change seen d N t -> In (updated seen d) (members t)) as Hin.
    { intros t [t0 Hs Hi Hl HN Hm Hd Hni Hp]. rewrite Hm. apply In_members_update; [apply Hs|done|auto]. }
    apply triple_if; intros Hst.
    + apply triple_query_bind. intros pending. eapply triple_weaken; [apply triple_cancel| |].
      * intros t [[_ Hc] <-]. split; [done|]. intros i Hi Hp Hm. split; [|intros []]. apply in_map.
        apply List.filter_In. split; [done|]. rewrite Hp, andb_true_r. apply bool_decide_eq_true. rewrite Hm.
        apply list_elem_of_singleton. done.
      * intros _ t [Hc Hn]. split; [by eapply sound_after_change|]. split; [by apply Hin|apply Hc].
    + apply triple_ret. intros t [_ Hc]. split; [|split; [by apply Hin|apply Hc]].
      eapply sound_after_change; [done|]. apply negb_false_iff, bool_decide_eq_true in Hst. done.
  - intros []. apply (quiet_sound_bind K _ _ (fun t => In (updated seen d) (members t) /\ (forall id, N id -> no_pending id t))).
    + quiet.
    + roster.
    + intros []. apply triple_ret. tauto.
Qed.

End RosterWrites.
