(* ===== verification/RosterSafety.v ===== *)
(** Every request of the tenancy services keeps the roster's invariant. *)
From S2P Require Import Prelude Text UnitOfWork Tenancy TenancyRepositories Organizations Invitations Workspaces TransactionLogic RosterInvariant.
From stdpp Require Import base list option strings.
From Stdlib Require Import ZArith Lia.
Open Scope Z_scope.
Open Scope otari_scope.

(** ** Requests *)

(** What a caller may ask of the tenancy services; [u] is the row the request was authenticated as. *)
Inductive request : Type :=
| CreateOrganization (u : User) (name slug : string) (open_signup : bool)
| DeleteOrganization (u : User)
| SwitchOrganization (u : User) (organization : Z)
| UpdateMember (u : User) (member : Z) (d : MembershipUpdate)
| RemoveMember (u : User) (member : Z)
| AddMember (u : User) (r : MemberRequest) (blocked : string -> bool)
| InviteMember (u : User) (r : MemberRequest) (blocked : string -> bool) (token_hash : string) (expires_at : Z)
| InviteMembers (u : User) (emails : list (string * string)) (role : MemberRole)
    (assignments : list WorkspaceAssignmentRequest) (blocked : string -> bool) (expires_at : Z)
| AcceptLink (token_hash : string) (claims : InvitationClaimSettings) (blocked : string -> bool)
    (password : option (string * string)) (name : option string) (terms_accepted : bool)
| AcceptOwn (u : User) (member : Z) (blocked : string -> bool)
| Decline (u : User) (member : Z)
| Revoke (u : User) (invitation : Z)
| Reissue (u : User) (invitation : Z) (blocked : string -> bool) (token_hash : string) (expires_at : Z)
| SignIn (u : User) (_ascii : string -> string) (blocked : string -> bool)
| ResolveContext (u : User)
| CreateWorkspace (u : User) (name : option string)
| DeleteWorkspace (u : User) (workspace : Z)
| AddWorkspaceMember (u : User) (workspace member : Z) (role : MemberRole)
| UpdateWorkspaceMember (u : User) (workspace member : Z) (role : MemberRole)
| RemoveWorkspaceMember (u : User) (workspace member : Z).

Section RosterSafety.
Context {O : Type} {L : MembershipListener O} {RP : RequestPlane O}.
Notation db := (tenancy O).
Notation M := (M db TenancyError).
Context (K : Z -> Prop).
Notation sound := (sound K).
Implicit Types (t : db) (m : OrganizationMember) (i : Invitation).

Definition void {A} (m : M A) : M unit := let* _ := m in ret tt.

Definition serve (now : Z) (r : request) : M unit :=
  match r with
  | CreateOrganization u name slug open_signup => void (create_organization_for_user u name slug open_signup now)
  | DeleteOrganization u => void (delete_active_organization_for_user u)
  | SwitchOrganization u organization => void (switch_active_organization_for_user u organization)
  | UpdateMember u member d => void (update_active_organization_member_for_user u member d)
  | RemoveMember u member => remove_active_organization_member_for_user u member
  | AddMember u r blocked => void (create_active_organization_member_for_user u r blocked now)
  | InviteMember u r blocked hash expires_at =>
      void (invite_active_organization_member_for_user u r blocked hash expires_at now)
  | InviteMembers u emails role assignments blocked expires_at =>
      void (invite_active_organization_members_for_user u emails role assignments blocked expires_at now)
  | AcceptLink hash claims blocked password name terms =>
      void (accept_invitation hash claims blocked password name terms now)
  | AcceptOwn u member blocked => void (accept_pending_membership_for_user u member blocked now)
  | Decline u member => decline_pending_membership_for_user u member now
  | Revoke u invitation => revoke_organization_member_invitation_for_user u invitation
  | Reissue u invitation blocked hash expires_at =>
      reissue_organization_member_invitation_for_user u invitation blocked hash expires_at
  | SignIn u _ascii blocked => void (sign_in u _ascii blocked now)
  | ResolveContext u => void (_resolve_active_organization u)
  | CreateWorkspace u name => void (create_workspace_for_user u name now)
  | DeleteWorkspace u workspace => delete_workspace u workspace
  | AddWorkspaceMember u workspace member role => void (add_member u workspace member role now)
  | UpdateWorkspaceMember u workspace member role => void (update_member_role u workspace member role)
  | RemoveWorkspaceMember u workspace member => remove_member u workspace member
  end.

(** ** Changing a member *)

Notation safe m := (triple sound sound m (fun _ => sound)).

Lemma sound_true : forall t, sound t -> sound t /\ True.
Proof. auto. Qed.

(** Start from the invariant alone: a quiet program, then the rest. *)
Lemma safe_quiet_bind {A B} (m : M A) (f : A -> M B) Q :
  quiet m -> (forall a, triple sound sound (f a) Q) -> triple sound sound (bind m f) Q.
Proof.
  intros Hm Hf. eapply triple_bind; [apply (Hm sound sound); auto using sound_of_roster|]. done.
Qed.

Lemma safe_quiet {A} (m : M A) : quiet m -> safe m.
Proof. intros Hm. apply Hm; auto using sound_of_roster. Qed.

Lemma triple_read_membership_change u member :
  triple sound sound (read_membership_change u member)
    (fun r t => let '(o, actor, target) := r in
                sound t /\ In target (members t) /\ om_organization target = org_id o).
Proof.
  unfold read_membership_change. apply safe_quiet_bind; [quiet|]. intros o.
  apply safe_quiet_bind; [quiet|]. intros actor. apply triple_query_bind. intros found.
  apply triple_require_bind; [tauto|]. intros target ->. apply triple_ret. intros t [Hs Hf].
  apply List.find_some in Hf as [Hin Hq]. reflect_bools. auto.
Qed.

(** The write of a membership change, after its check. *)
Lemma triple_checked_update {A} target d organization actor counts (k : list Z -> OrganizationMember -> M A) :
  om_organization target = organization -> (forall ids m, quiet (k ids m)) ->
  triple sound (fun t => sound t /\ In target (members t))
    (_validate_membership_update actor target d organization counts ;;;
     uow_block (let* workspace_ids := query (get_ids_by_organization organization) in
                let* m := _update_membership target d in k workspace_ids m))
    (fun _ => sound).
Proof.
  intros Ho Hk. eapply triple_bind; [by apply triple_validate|]. intros [].
  apply triple_block; [|auto]. apply triple_query_bind. intros ids. eapply triple_bind.
  - eapply triple_pre; [apply (triple_update_membership K _ _ (fun _ => False))|].
    intros t [(Hs & Hin & Hl & _) _]. unfold before_change. split_and!; [done..|by intros ?].
  - intros m. eapply triple_pre; [apply safe_quiet, Hk|]. tauto.
Qed.

Lemma safe_update_member u member d : safe (update_active_organization_member_for_user u member d).
Proof.
  unfold update_active_organization_member_for_user. eapply triple_bind; [apply triple_read_membership_change|].
  intros [[o actor] target]. cbv beta iota. apply (triple_pure _ _ (om_organization target = org_id o)); [tauto|]. intros Ho.
  apply (triple_pre _ _ (fun t => sound t /\ In target (members t))); [|tauto].
  apply (triple_checked_update target d _ actor true
           (fun ids m => let* x := query (get_user (om_user m)) in _)); [done|]. quiet.
Qed.

Lemma safe_remove_member u member : safe (remove_active_organization_member_for_user u member).
Proof.
  unfold remove_active_organization_member_for_user. eapply triple_bind; [apply triple_read_membership_change|].
  intros [[o actor] target]. cbv beta iota. apply (triple_pure _ _ (om_organization target = org_id o)); [tauto|]. intros Ho.
  apply (triple_pre _ _ (fun t => sound t /\ In target (members t))); [|tauto].
  apply (triple_checked_update target suspension _ actor true (fun ids m => tell (organization_member_changed m ids)));
    [done|]. quiet.
Qed.

(** ** Adding and inviting *)

(** A manager's organization has members, and the manager is one. *)
Lemma triple_management (P : db -> Prop) u o :
  of_roster P ->
  triple sound (fun t => sound t /\ P t) (require_active_organization_management_access u o)
    (fun actor t => sound t /\ P t /\ peopled (org_id o) t).
Proof.
  intros HP. unfold require_active_organization_management_access, _require_active_membership, _enforce_management_role.
  eapply (triple_bind _ _ _ _ (fun _ t => sound t /\ P t /\ peopled (org_id o) t)).
  - apply triple_query_bind. intros found. apply triple_require; [tauto|]. intros a t -> [[Hs HPt] Hf].
    split; [done|]. split; [done|]. apply List.find_some in Hf as [Hin Hq]. reflect_bools. by exists a.
  - intros a. apply triple_refuse_bind; [tauto|]. intros _. by apply triple_ret.
Qed.

Lemma safe_management u o :
  triple sound sound (require_active_organization_management_access u o)
    (fun actor t => sound t /\ peopled (org_id o) t).
Proof.
  eapply triple_weaken; [apply (triple_management (fun _ => True)); done|by intros t Hs|].
  cbv beta. tauto.
Qed.

Lemma of_roster_and (P Q : db -> Prop) : of_roster P -> of_roster Q -> of_roster (fun t => P t /\ Q t).
Proof. intros HP HQ t t' ? ? ? [? ?]. split; [by eapply HP|by eapply HQ]. Qed.
Lemma of_roster_peopled organization : of_roster (O := O) (peopled organization).
Proof. roster. Qed.

(** The membership the address already has here, as a fact of the roster. *)
Definition here (organization : Z) (existing : option OrganizationMember) t : Prop :=
  match existing with
  | Some m => In m (members t) /\ om_organization m = organization
  | None => True
  end.

Lemma here_of_query organization user t existing :
  get_by_organization_and_user organization user t = existing -> here organization existing t.
Proof.
  intros <-. unfold here, get_by_organization_and_user. destruct (List.find _ _) as [m|] eqn:E; [|done].
  apply List.find_some in E as [Hin Hq]. reflect_bools. done.
Qed.
Lemma of_roster_here organization existing : of_roster (here organization existing).
Proof. intros t t' Hm _ _. unfold here. by rewrite Hm. Qed.

(** The change of a membership the roster already has, once its check has passed. *)
Lemma triple_validated_update actor target d organization counts (P : db -> Prop) :
  om_organization target = organization ->
  triple sound (fun t => sound t /\ P t /\ In target (members t))
    (_validate_membership_update actor target d organization counts ;;; _update_membership target d)
    (fun m t => m = updated target d /\ sound t /\ In m (members t)).
Proof.
  intros Ho.
  eapply triple_bind; [apply (triple_validate K _ _ _ _ _ (fun t => P t /\ In target (members t)))|].
  - done.
  - intros []. eapply triple_weaken; [apply (triple_update_membership K _ _ (fun _ => False))| |].
    + intros t (Hs & [_ Hin] & Hl & _). unfold before_change. split_and!; [done..|by intros ?].
    + intros m t (-> & ? & ? & _). done.
Qed.

Lemma safe_add_member u r blocked now : safe (create_active_organization_member_for_user u r blocked now).
Proof.
  unfold create_active_organization_member_for_user. apply safe_quiet_bind; [quiet|]. intros o.
  eapply triple_bind; [apply safe_management|]. intros actor.
  apply triple_lift_bind; [tauto|]. intros email _.
  apply quiet_sound_bind; [quiet|apply of_roster_peopled|]. intros [].
  apply triple_unless_taken, triple_block; [|auto]. apply triple_refuse_bind; [tauto|]. intros _.
  apply quiet_sound_bind; [quiet|apply of_roster_peopled|]. intros target.
  apply triple_query_bind. intros existing. apply triple_refuse_bind; [tauto|]. intros _.
  apply (triple_pre _ _ (fun t => sound t /\ peopled (org_id o) t /\ here (org_id o) existing t));
    [|intros t [[? ?] ?]; eauto using here_of_query].
  apply quiet_sound_bind; [quiet|apply of_roster_and; [apply of_roster_peopled|apply of_roster_here]|]. intros [].
  eapply (triple_bind _ _ _ _ (fun _ => sound)).
  - destruct existing as [m|]; cbn [here].
    + apply (triple_pure _ _ (om_organization m = org_id o)); [tauto|]. intros Ho.
      eapply triple_weaken; [apply (triple_validated_update _ _ _ _ _ (peopled (org_id o)) Ho)| |]; cbv beta; tauto.
    + apply triple_refuse_bind; [tauto|]. intros _.
      eapply triple_weaken; [apply triple_create_membership| |]; cbv beta; tauto.
  - intros m. apply safe_quiet. quiet.
Qed.

(** ** Inviting *)

Lemma triple_stage u o actor email role assignments hash expires_at now :
  triple sound (fun t => sound t /\ peopled (org_id o) t)
    (_stage_invitation u o actor email role assignments hash expires_at now) (fun _ => sound).
Proof.
  unfold _stage_invitation. apply quiet_sound_bind; [quiet|apply of_roster_peopled|]. intros target.
  apply triple_query_bind. intros existing. apply triple_refuse_bind; [tauto|]. intros _.
  set (P := fun t => peopled (org_id o) t /\ here (org_id o) existing t).
  assert (of_roster P) as HP by (apply of_roster_and; [apply of_roster_peopled|apply of_roster_here]).
  apply (triple_pre _ _ (fun t => sound t /\ P t)); [|intros t [[? ?] ?]; unfold P; eauto using here_of_query].
  apply quiet_sound_bind; [quiet|done|]. intros [].
  eapply (triple_bind _ _ _ _ (fun _ t => sound t /\ P t)).
  { destruct existing as [m|]; [|by apply triple_ret]. apply triple_if; intros _; [|by apply triple_ret].
    apply triple_query_bind. intros pending. apply triple_refuse_bind; [tauto|]. intros _.
    apply (triple_pre _ _ (fun t => sound t /\ P t)); [|tauto]. apply triple_for_each. intros i _.
    apply triple_close; [done|]. intros t t' Hm _ [? ?]. unfold P, here, peopled. by rewrite Hm. }
  intros [].
  eapply (triple_bind _ _ _ _ (fun m t => sound t /\ In m (members t) /\ om_status m = Invited)).
  - unfold P. destruct existing as [m|]; cbn [here].
    + apply (triple_pure _ _ (om_organization m = org_id o)); [tauto|]. intros Ho.
      eapply triple_weaken; [apply (triple_validated_update _ _ _ _ _ (peopled (org_id o)) Ho)|tauto|].
      intros x t (-> & ? & ?). rewrite updated_status. done.
    + eapply triple_weaken; [apply triple_create_membership|tauto|]. cbv beta. tauto.
  - intros m. eapply triple_bind; [apply triple_create_invitation|]. intros i. by apply triple_ret.
Qed.

Lemma safe_invite_member u r blocked hash expires_at now :
  safe (invite_active_organization_member_for_user u r blocked hash expires_at now).
Proof.
  unfold invite_active_organization_member_for_user. apply safe_quiet_bind; [quiet|]. intros o.
  eapply triple_bind; [apply safe_management|]. intros actor.
  apply triple_lift_bind; [tauto|]. intros email _.
  apply quiet_sound_bind; [quiet|apply of_roster_peopled|]. intros []. apply triple_refuse_bind; [tauto|]. intros _.
  apply triple_unless_taken, triple_block; [|auto]. apply triple_refuse_bind; [tauto|]. intros _.
  apply triple_stage.
Qed.

Lemma safe_invite_each u o actor role assignments blocked expires_at now seen l :
  K (org_id o) -> safe (invite_each u o actor role assignments blocked expires_at now seen l).
Proof.
  intros HK. revert seen. induction l as [|[raw hash] l IH]; intros seen; cbn [invite_each]; [by apply triple_ret|].
  eapply triple_bind.
  - unfold invite_one. apply (triple_try _ _ _ _ (fun _ => sound)).
    + apply triple_lift_bind; [tauto|]. intros email _. apply triple_if; intros _; [by apply triple_ret|].
      apply triple_refuse_bind; [tauto|]. intros _. apply (triple_bind _ _ _ _ (fun _ => sound)); [|intros x; by apply triple_ret].
      apply triple_begin_nested; [|done]. eapply triple_pre; [apply triple_stage|]. intros t Hs.
      split; [done|]. by apply (sound_kept K).
    + intros e m' He. destruct e as [x| | | |]; try discriminate;
        [destruct (is_conflict_or_validation x)|]; simplify_eq; by apply triple_ret.
  - intros [one seen']. eapply triple_bind; [apply IH|]. intros rest. by apply triple_ret.
Qed.

(** ** Answering an invitation *)

Lemma safe_close i s : s <> Pending -> safe (update_status (O := O) i s).
Proof.
  intros Hs. eapply triple_weaken; [apply (triple_close K i s (fun _ => True)); done|by intros t Ht|].
  cbv beta. tauto.
Qed.

Lemma triple_resolve_link hash now :
  triple sound sound (_resolve_pending_invitation hash now)
    (fun r t => let '(i, m, o, invitee) := r in sound t /\ In m (members t) /\ om_status m = Invited).
Proof.
  unfold _resolve_pending_invitation. apply triple_query_bind. intros found. apply triple_require_bind; [tauto|].
  intros i _. apply triple_refuse_bind; [tauto|]. intros _. apply triple_refuse_bind; [tauto|]. intros _.
  eapply (triple_bind _ _ _ _ (fun _ => sound)).
  { apply triple_if; intros _; [|apply triple_ret; tauto].
    eapply triple_bind; [eapply triple_pre; [by apply safe_close|tauto]|]. intros []. apply safe_quiet. quiet. }
  intros []. apply triple_query_bind. intros found_m. apply triple_query_bind. intros found_o.
  apply triple_require_bind; [tauto|]. intros m ->. apply triple_require_bind; [tauto|]. intros o ->.
  apply triple_refuse_bind; [tauto|]. intros Hst. apply triple_query_bind. intros invitee.
  apply triple_require_bind; [tauto|]. intros u ->. apply triple_refuse_bind; [tauto|]. intros _.
  apply triple_ret. intros t [[[Hs Hm] _] _]. apply List.find_some in Hm as [Hin _].
  by apply negb_false_iff, bool_decide_eq_true in Hst.
Qed.

Lemma triple_resolve_own user member now :
  triple sound sound (_resolve_own_pending_invitation user member now)
    (fun r t => let '(i, m, o) := r in sound t /\ In m (members t) /\ om_status m = Invited).
Proof.
  unfold _resolve_own_pending_invitation. apply triple_query_bind. intros found. apply triple_require_bind; [tauto|].
  intros m ->. apply triple_refuse_bind; [tauto|]. intros Hst. apply negb_false_iff, bool_decide_eq_true in Hst.
  apply triple_query_bind. intros pending. apply triple_refuse_bind; [tauto|]. intros _.
  destruct (first_by _ _) as [i|].
  - apply triple_query_bind. intros found_o. apply triple_require_bind; [tauto|]. intros o _.
    apply triple_ret. intros t [[[Hs Hm] _] _]. apply List.find_some in Hm as [Hin _]. done.
  - eapply triple_bind; [eapply triple_pre; [apply triple_for_each; intros i _; by apply safe_close|tauto]|].
    intros []. apply (triple_bind _ _ _ _ (fun _ => sound)); [apply safe_quiet; quiet|].
    intros []. by apply triple_fail.
Qed.

(** Activating an invited membership. *)
Lemma triple_activate i m o blocked now :
  triple sound (fun t => sound t /\ In m (members t) /\ om_status m = Invited)
    (_resolve_invitation_to_active_membership i m o blocked now) (fun _ => sound).
Proof.
  unfold _resolve_invitation_to_active_membership. apply triple_block; [|done].
  apply triple_refuse_bind; [tauto|]. intros _. eapply triple_bind.
  - apply (triple_close K i Accepted (fun t => In m (members t) /\ om_status m = Invited)); [done|].
    intros t t' Hm _. by rewrite Hm.
  - intros []. eapply triple_bind.
    + eapply triple_pre; [apply (triple_update_membership K m _ (fun _ => False))|].
      intros t (Hs & Hin & Hst). unfold before_change. split_and!; [done|done| |by intros ?].
      intros Ha. unfold is_active_owner in Ha. rewrite Hst in Ha. by rewrite andb_false_r in Ha.
    + intros x. eapply triple_pre; [apply safe_quiet; quiet|]. cbv beta. tauto.
Qed.

Lemma safe_accept_invitation hash claims blocked password name terms now :
  safe (accept_invitation hash claims blocked password name terms now).
Proof.
  unfold accept_invitation. apply safe_quiet_bind; [destruct password as [[]|]; unfold validate_new_password; quiet|].
  intros []. eapply triple_bind; [apply triple_resolve_link|]. intros [[[i m] o] invitee]. cbv beta iota.
  apply triple_refuse_bind; [tauto|]. intros _.
  eapply triple_bind; [eapply triple_pre; [apply triple_resolve_link|tauto]|].
  intros [[[i' m'] o'] invitee']. cbv beta iota.
  eapply (triple_bind _ _ _ _ (fun _ t => sound t /\ In m' (members t) /\ om_status m' = Invited)).
  - destruct password as [[plain h]|]; [|by apply triple_ret]. unfold claim_with_link.
    apply triple_query_bind. intros allowed. apply triple_refuse_bind; [tauto|]. intros _.
    eapply triple_bind; [eapply triple_pre; [apply (quiet_sound K _ (fun t => In m' (members t) /\ om_status m' = Invited));
      [quiet|roster]|tauto]|].
    intros []; [by apply triple_ret|]. eapply triple_bind; [apply triple_rollback|]. intros []. by apply triple_fail.
  - intros []. eapply triple_bind; [apply triple_activate|]. intros x. by apply triple_ret.
Qed.

Lemma safe_accept_own u member blocked now : safe (accept_pending_membership_for_user u member blocked now).
Proof.
  unfold accept_pending_membership_for_user. apply safe_quiet_bind; [quiet|].
  intros [[o m]|]; [by apply triple_ret|].
  eapply triple_bind; [apply triple_resolve_own|]. intros [[i m] o]. cbv beta iota.
  apply triple_refuse_bind; [tauto|]. intros _. eapply triple_pre; [|intros t [Hs _]; exact Hs].
  apply safe_quiet_bind; [quiet|]. intros [[o' m']|]; [by apply triple_ret|].
  eapply triple_bind; [apply triple_resolve_own|]. intros [[i' m'] o']. apply triple_activate.
Qed.

(** Suspending a membership that is waiting. *)
Lemma triple_suspend_invited m :
  triple sound (fun t => sound t /\ In m (members t) /\ om_status m = Invited)
    (_update_membership m suspension) (fun _ => sound).
Proof.
  eapply triple_weaken; [apply (triple_update_membership K m _ (fun _ => False))| |cbv beta; tauto].
  intros t (Hs & Hin & Hst). unfold before_change. split_and!; [done|done| |by intros ?].
  intros Ha. unfold is_active_owner in Ha. rewrite Hst in Ha. by rewrite andb_false_r in Ha.
Qed.

Lemma safe_decline u member now : safe (decline_pending_membership_for_user u member now).
Proof.
  unfold decline_pending_membership_for_user. eapply triple_bind; [apply triple_resolve_own|].
  intros [[i m] o]. cbv beta iota. eapply triple_pre; [|intros t [Hs _]; exact Hs].
  eapply triple_bind; [apply triple_resolve_own|]. intros [[i' m'] o']. cbv beta iota.
  eapply triple_bind; [apply triple_suspend_invited|]. intros x. apply safe_quiet. quiet.
Qed.

(** An open invitation is a row, and its membership is the one it names. *)
Lemma triple_open invitation o :
  triple sound sound (_open_invitation invitation o)
    (fun r t => let '(i, m) := r in
       sound t /\ In i (invitations t)
       /\ match m with
          | Some m => In m (members t) /\ om_id m = inv_member i /\ om_organization m = org_id o
          | None => True
          end).
Proof.
  unfold _open_invitation. apply triple_query_bind. intros found. apply triple_require_bind; [tauto|]. intros i ->.
  apply triple_refuse_bind; [tauto|]. intros _. apply triple_refuse_bind; [tauto|]. intros _.
  apply triple_query_bind. intros m.
  set (P := fun t => In i (invitations t)
       /\ match m with
          | Some m => In m (members t) /\ om_id m = inv_member i /\ om_organization m = org_id o
          | None => True
          end).
  apply (triple_pre _ _ (fun t => sound t /\ P t)).
  - apply quiet_sound_bind; [quiet|intros t t' Hm Hi _; unfold P; by rewrite Hm, Hi|]. intros []. by apply triple_ret.
  - intros t [[Hs Hi] Hm]. split; [done|]. apply List.find_some in Hi as [Hi _]. split; [done|].
    destruct m as [m|]; [|done]. apply List.find_some in Hm as [Hin Hq]. reflect_bools. done.
Qed.

Lemma safe_revoke u invitation : safe (revoke_organization_member_invitation_for_user u invitation).
Proof.
  unfold revoke_organization_member_invitation_for_user. apply safe_quiet_bind; [quiet|]. intros o.
  apply safe_quiet_bind; [quiet|]. intros actor. eapply triple_bind; [apply triple_open|]. intros [i m]. cbv beta iota zeta.
  destruct (match m with Some m => _ | None => None end) as [x|] eqn:E.
  - destruct m as [m|]; [|done]. destruct (bool_decide (om_status m = Invited)) eqn:Hst; simplify_eq.
    apply bool_decide_eq_true in Hst. apply (triple_pure _ _ (om_organization x = org_id o)); [tauto|]. intros Ho.
    eapply triple_bind; [eapply triple_pre; [apply (triple_validate K _ _ _ _ _ (fun t => In x (members t)));
      done|tauto]|].
    intros []. eapply triple_bind.
    { eapply triple_pre; [apply (triple_close K i Cancelled (fun t => In x (members t))); [done|]|tauto].
      intros t t' Hm _. by rewrite Hm. }
    intros []. apply (triple_bind _ _ _ _ (fun _ => sound)); [|intros []; apply safe_quiet; quiet].
    eapply triple_bind; [eapply triple_pre; [apply triple_suspend_invited|tauto]|].
    intros y. by apply triple_ret.
  - apply triple_ret_bind. eapply triple_bind; [eapply triple_pre; [by apply safe_close|tauto]|].
    intros []. apply safe_quiet. quiet.
Qed.

(** A reissued invitation is pending again, on a membership that waits. *)
Lemma sound_reissue i m by_user hash expires_at t :
  sound t -> In i (invitations t) -> In m (members t) -> om_id m = inv_member i -> om_status m = Invited ->
  sound (with_invitations (update_where (fun v => inv_id v =? inv_id i) (reissued by_user hash expires_at)
           (invitations t)) t).
Proof.
  intros [H1 H2 H3 H4 H5 H6] Hi Hm Hid Hst. constructor; cbn; try done.
  - by rewrite map_update_where.
  - intros j (x & Hx & ->)%update_where_In Hp. destruct (inv_id x =? inv_id i) eqn:E; [|by apply H4].
    reflect_bools. rewrite (same_key inv_id _ _ _ H2 Hx Hi E). exists m. done.
Qed.

Lemma safe_reissue u invitation blocked hash expires_at :
  safe (reissue_organization_member_invitation_for_user (O := O) u invitation blocked hash expires_at).
Proof.
  unfold reissue_organization_member_invitation_for_user. apply safe_quiet_bind; [quiet|]. intros o.
  apply safe_quiet_bind; [quiet|]. intros actor. apply triple_block; [|done].
  eapply triple_bind; [apply triple_open|]. intros [i found]. cbv beta iota.
  apply triple_require_bind; [tauto|]. intros m ->. apply triple_refuse_bind; [tauto|]. intros Hst.
  apply negb_false_iff, bool_decide_eq_true in Hst.
  set (P := fun t => In i (invitations t) /\ In m (members t) /\ om_id m = inv_member i).
  assert (of_roster P) as HP by (intros t t' Hm Hi _; unfold P; by rewrite Hm, Hi).
  apply (triple_pre _ _ (fun t => sound t /\ P t)); [|unfold P; tauto].
  apply quiet_sound_bind; [quiet|done|]. intros []. apply quiet_sound_bind; [quiet|done|]. intros found.
  apply triple_require_bind; [tauto|]. intros invitee _. apply triple_refuse_bind; [tauto|]. intros _.
  apply triple_refuse_bind; [tauto|]. intros _. apply triple_write. intros t (Hs & Hi & Hm & Hid).
  by apply (sound_reissue i m).
Qed.

(** ** Joining by domain, and the organizations themselves *)

Lemma safe_auto_join _ascii u now : safe (auto_join (O := O) _ascii u now).
Proof.
  unfold auto_join. destruct (user_email u) as [email|]; [|by apply triple_ret].
  apply triple_if; intros _; [by apply triple_ret|]. destruct (email_domain _ascii email) as [domain|]; [|by apply triple_ret].
  apply triple_query_bind. intros [claim|]; [|apply triple_ret; tauto].
  apply triple_if; intros _; [apply triple_ret; tauto|].
  apply (triple_pre _ _ (fun t => sound t /\ peopled (od_organization claim) t)).
  2: { intros t [Hs Hc]. split; [done|]. apply List.find_some in Hc as [Hc _]. by apply (sound_claims K). }
  apply triple_query_bind. intros [m|]; [apply triple_ret; tauto|].
  apply (triple_bind _ _ _ _ (fun _ => sound)); [|intros [m created]; by apply triple_ret].
  unfold add_if_absent. apply triple_try.
  - apply triple_begin_nested; [|tauto].
    apply (triple_bind _ _ _ _ (fun _ => sound)); [|intros m; by apply triple_ret].
    eapply triple_weaken; [apply triple_create_membership| |]; cbv beta; tauto.
  - intros e m' He. destruct e; simplify_eq. apply triple_query_bind. intros [m|]; [apply triple_ret; tauto|].
    apply triple_raise. tauto.
Qed.

Lemma safe_sign_in u _ascii blocked now : safe (sign_in (O := O) u _ascii blocked now).
Proof.
  unfold sign_in. apply triple_block; [|done]. eapply triple_bind; [apply safe_auto_join|]. intros m.
  apply safe_quiet. unfold start_session, active_organization_id_for_sign_in. quiet.
Qed.

Lemma safe_create_organization u name slug open_signup now :
  safe (create_organization_for_user u name slug open_signup now).
Proof.
  unfold create_organization_for_user. apply triple_unless_taken, triple_block; [|done].
  apply safe_quiet_bind; [quiet|]. intros standing. apply safe_quiet_bind; [quiet|]. intros [].
  apply safe_quiet_bind; [quiet|]. intros o. eapply triple_bind.
  - eapply triple_pre; [apply triple_create_membership|]. intros t Hs. split; [done|]. by left.
  - intros m. eapply triple_pre; [|intros t [Hs _]; exact Hs]. apply safe_quiet. quiet.
Qed.

(** What an organization takes with it is its own. *)
Lemma sound_cascade organization t :
  ~ K organization -> sound t -> sound (cascade_organization organization t).
Proof.
  intros HK [H1 H2 H3 H4 H5 H6].
  assert (forall m, In m (members t) -> om_organization m <> organization ->
            In m (members (cascade_organization organization t))) as Hstay.
  { intros m Hm Hne. apply List.filter_In. split; [done|]. by apply negb_true_iff, Z.eqb_neq. }
  constructor.
  - apply NoDup_map_filter, H1.
  - apply NoDup_map_filter, H2.
  - intros o (m & Hm & Ho). apply List.filter_In in Hm as [Hm Hne]. apply negb_true_iff, Z.eqb_neq in Hne.
    destruct (H3 o) as (w & Hw & Hwo & Ha); [by exists m|]. exists w. split; [|done]. apply Hstay; congruence.
  - intros i Hi Hp. apply List.filter_In in Hi as [Hi Hk]. apply andb_prop in Hk as [_ Hl].
    destruct (H4 i Hi Hp) as (m & Hm & Hid & Hst). exists m. split; [|done]. apply Hstay; [done|].
    intros Ho. rewrite <- Hid in Hl. unfold get_member in Hl.
    destruct (List.find _ _) as [x|] eqn:E.
    + apply List.find_some in E as [Hx Hxid]. reflect_bools. by rewrite (same_key om_id _ _ _ H1 Hx Hm Hxid) in Hl.
    + apply List.find_none with (x := m) in E; [|done]. by rewrite Z.eqb_refl in E.
  - intros d Hd. apply List.filter_In in Hd as [Hd Hne]. apply negb_true_iff, Z.eqb_neq in Hne.
    destruct (H5 d Hd) as (m & Hm & Ho). exists m. split; [|done]. apply Hstay; congruence.
  - intros o Ho. destruct (H6 o Ho) as (m & Hm & Horg). exists m. split; [|done]. apply Hstay; [done|]. congruence.
Qed.

Lemma triple_delete_organization organization :
  ~ K organization -> safe (delete_organization (O := O) organization).
Proof.
  intros HK. apply triple_execute. intros t Hs. destruct (_ || _); [done|]. by apply sound_cascade.
Qed.

Lemma safe_delete_organization u :
  (forall organization, ~ K organization) -> safe (delete_active_organization_for_user u).
Proof.
  intros HK. unfold delete_active_organization_for_user. apply safe_quiet_bind; [quiet|]. intros o.
  apply safe_quiet_bind; [quiet|]. intros actor. apply safe_quiet_bind; [quiet|]. intros [].
  apply triple_unless_taken, triple_block; [|done].
  apply safe_quiet_bind; [quiet|]. intros t0. apply safe_quiet_bind; [quiet|]. intros destination.
  apply safe_quiet_bind; [quiet|]. intros []. apply safe_quiet_bind; [quiet|]. intros [].
  apply safe_quiet_bind; [quiet|]. intros []. eapply triple_bind; [by apply triple_delete_organization|].
  intros []. apply safe_quiet. quiet.
Qed.

Lemma safe_void {A} (m : M A) : safe m -> safe (void m).
Proof. intros H. eapply triple_bind; [exact H|]. intros a. by apply triple_ret. Qed.

(** The workspaces' own requests leave the roster. *)
Lemma quiet_managed u workspace : quiet (O := O) (managed_workspace u workspace).
Proof.
  unfold managed_workspace, resolve_visible_workspace, resolve_workspace_in_organization,
    require_workspace_management_access. quiet.
Qed.

Lemma safe_workspace_request now r :
  match r with
  | CreateWorkspace _ _ | DeleteWorkspace _ _ | AddWorkspaceMember _ _ _ _ | UpdateWorkspaceMember _ _ _ _
  | RemoveWorkspaceMember _ _ _ | SwitchOrganization _ _ | ResolveContext _ => safe (serve now r)
  | _ => True
  end.
Proof.
  destruct r; try done; apply safe_quiet; unfold serve, void, create_workspace_for_user, _validated_name,
    delete_workspace, add_member, add_workspace_member, update_member_role, remove_member, switch_active_organization_for_user,
    _resolve_active_organization, resolve_workspace_in_organization;
    repeat first [apply quiet_managed | progress quiet].
Qed.

(** Every request but the two that name an organization's people: a deletion, and a bulk invitation. *)
Lemma safe_request now r :
  match r with DeleteOrganization _ => forall organization, ~ K organization | InviteMembers _ _ _ _ _ _ => False | _ => True end ->
  safe (serve now r).
Proof.
  pose proof (safe_workspace_request now r) as Hw. destruct r; intros Hk; try exact Hw; try done; cbn [serve];
    try apply safe_void; eauto using safe_create_organization, safe_delete_organization, safe_update_member,
      safe_remove_member, safe_add_member, safe_invite_member, safe_accept_invitation, safe_accept_own, safe_decline,
      safe_revoke, safe_reissue, safe_sign_in.
Qed.

End RosterSafety.

(** ** Runs *)

(** A request with its clock, and how its commits end. *)
Record served : Type := { at_time : Z; asked : request; ends : list commit_outcome }.


Section Runs.
Context {O : Type} {L : MembershipListener O} {RP : RequestPlane O}.
Notation db := (tenancy O).

(** What a request leaves in the database, whatever it answers. *)
Definition serve_one (t : db) (s : served) : db := committed (serve (at_time s) (asked s) (fresh_uow t (ends s))).1.
Definition serve_all (t : db) (l : list served) : db := fold_left serve_one l t.

(** No organization is known to a request in advance. *)
Definition well_kept : db -> Prop := sound (fun _ => False).

End Runs.
