(* ===== verification/TenancyFixtures.v ===== *)
(** The deployment the tenancy witnesses run: one organization, its owner Ada, and Bo, whom she added. *)
From S2P Require Import Prelude Text UnitOfWork Tenancy TenancyRepositories Organizations Invitations Workspaces RosterInvariant RosterSafety.
From stdpp Require Import base list option strings.
From Stdlib Require Import ZArith Lia.
Open Scope Z_scope.
Open Scope string_scope.

(** The other domains: one that counts what it is told, and refuses nothing. *)
#[export] Instance counting : MembershipListener Z := {|
  member_joined := fun _ o => inr (o + 1);
  member_removed := fun _ o => inr (o + 1);
  member_role_changed := fun _ o => inr (o + 1);
  organization_member_changed := fun _ _ o => inr (o + 1);
  workspace_deleted := fun _ _ o => inr (o + 1);
  member_lost_workspaces := fun _ _ o => inr (o + 1)
|}.
#[export] Instance unused : RequestPlane Z := {| references_workspace := fun _ _ => false; cascade_workspace := fun _ o => o |}.

Definition identity (i : Z) (email : string) (organization : Z) : User :=
  {| user_id := i; user_email := Some email; hashed_password := Some "hash"; is_active := true; full_name := None;
     email_verified_at := Some 0; email_vouched_at := None; terms_accepted_at := None;
     active_organization_id := organization; default_organization_id := Some organization |}.
Definition ada : User := identity 1 "ada@team.io" 1.
Definition bo : User := identity 2 "bo@team.io" 1.

Definition membership (i user : Z) (role : MemberRole) (status : MemberStatus) : OrganizationMember :=
  {| om_id := i; om_organization := 1; om_user := user; om_role := role; om_status := status; om_created_at := i |}.

(** Ada owns the organization; Bo has the given role. *)
Definition team (role : MemberRole) : tenancy Z :=
  {| users := [ada; bo];
     organizations := [{| org_id := 1; org_name := "Team"; org_slug := "default"; org_created_by := None |}];
     members := [membership 1 1 Owner Active; membership 2 2 role Active];
     invitations := [];
     workspaces := [{| ws_id := 1; ws_organization := 1; ws_name := "Default workspace"; ws_created_by := None; ws_created_at := 0 |}];
     workspace_members := [{| wm_id := 1; wm_workspace := 1; wm_user := 1; wm_role := Owner; wm_status := Active;
                              wm_created_at := 0 |}];
     domains := [];
     attribution_users := [];
     others := 0 |}.

Definition change (role : option MemberRole) (status : option MemberStatus) : MembershipUpdate :=
  {| up_role := role; up_status := status |}.

Definition nobody_blocked (_ : string) : bool := false.

(** Bo, an admin, invites Cy; Cy accepts with a first password; Ada makes Bo an owner and removes herself. *)
Definition a_day : list served :=
  [ {| at_time := 10; ends := [];
       asked := InviteMember bo {| req_email := "Cy@team.io"; req_role := Member;
                                   req_assignments := [{| wa_workspace := 1; wa_role := Member |}] |}
                  nobody_blocked "token" 100 |};
    {| at_time := 20; ends := [];
       asked := AcceptLink "token" {| publishes_terms := false |} nobody_blocked (Some ("long enough", "cy-hash"))
                  (Some " Cy ") false |};
    {| at_time := 30; ends := []; asked := RemoveMember ada 1 |};
    {| at_time := 31; ends := []; asked := UpdateMember ada 2 (change (Some Owner) None) |};
    {| at_time := 32; ends := []; asked := RemoveMember ada 1 |};
    {| at_time := 33; ends := []; asked := RemoveMember bo 2 |} ].

Lemma team_well_kept role : well_kept (team role).
Proof.
  constructor.
  - repeat constructor; simpl; intuition discriminate.
  - constructor.
  - intros o (m & Hm & Ho). exists (membership 1 1 Owner Active). split; [by left|]. split; [|done].
    simpl in Hm. destruct Hm as [<-|[<-|[]]]; exact Ho.
  - intros i [].
  - intros d [].
  - intros o [].
Qed.
