(* ===== verification/RosterProofs.v ===== *)
(** What the tenancy services keep, over any sequence of requests: an organization keeps an active owner, and an
    invitation can be accepted only while its membership waits. *)
From S2P Require Import Prelude Text UnitOfWork Tenancy TenancyRepositories Organizations Invitations Workspaces TransactionLogic RosterInvariant RosterSafety TenancyFixtures.
From stdpp Require Import base list option strings.
From Stdlib Require Import ZArith Lia.
Open Scope Z_scope.
Open Scope otari_scope.

Section RosterProofs.
Context {O : Type} {L : MembershipListener O} {RP : RequestPlane O}.
Notation db := (tenancy O).
Notation M := (M db TenancyError).
Implicit Types (t : db).

Lemma sound_knowing (K : Z -> Prop) t :
  well_kept t -> (forall organization, K organization -> peopled organization t) -> sound K t.
Proof. intros [H1 H2 H3 H4 H5 _] HK. by constructor. Qed.

Lemma sound_forgetting (K : Z -> Prop) t : sound K t -> well_kept t.
Proof. intros [H1 H2 H3 H4 H5 _]. by constructor. Qed.

(** A bulk invitation knows the organizations that had members when it began. *)
Lemma triple_invite_members t0 u emails role assignments blocked expires_at now :
  let K := fun o => peopled o t0 in
  triple (sound K) (fun t => sound K t /\ members t = members t0)
    (invite_active_organization_members_for_user u emails role assignments blocked expires_at now)
    (fun _ => sound K).
Proof.
  intros K. unfold invite_active_organization_members_for_user.
  assert (of_roster (fun t => members t = members t0)) as HP by (intros t t' Hm _ _; by rewrite Hm).
  eapply (triple_bind _ _ _ _ (fun r t => sound K t /\ K (org_id r.1))).
  - unfold may_invite.
    apply (quiet_sound_bind K _ _ (fun t => members t = members t0)); [quiet|exact HP|]. intros o.
    eapply triple_bind; [by apply (triple_management K (fun t => members t = members t0))|]. intros actor. cbv beta.
    apply (triple_pre _ _ (fun t => sound K t /\ K (org_id o))).
    + apply (quiet_sound_bind K _ _ (fun _ => K (org_id o))); [quiet|by intros ?|]. intros []. apply triple_refuse_bind; [tauto|]. intros _.
      by apply triple_ret.
    + intros t (Hs & Hm & Hp). split; [done|]. unfold K, peopled in *. by rewrite <- Hm.
  - intros [o actor]. cbn. apply (triple_pure _ _ (K (org_id o))); [tauto|]. intros HK.
    apply triple_block; [|done]. eapply triple_pre; [by apply safe_invite_each|tauto].
Qed.

Lemma serve_one_sound t s : well_kept t -> well_kept (serve_one t s).
Proof.
  intros Ht. unfold serve_one. destruct (asked s) eqn:Hs.
  all: try (eapply (triple_committed well_kept well_kept); [by apply safe_request; auto|done|done]).
  set (K := fun o => peopled o t). assert (sound K t) as HK by by apply sound_knowing.
  apply (sound_forgetting K). cbn [serve].
  eapply (triple_committed (sound K) (fun t' => sound K t' /\ members t' = members t) _ (fun _ => sound K)); [|done|done].
  eapply (triple_bind _ _ _ _ (fun _ => sound K)); [apply triple_invite_members|]. intros x. by apply triple_ret.
Qed.

Lemma serve_all_sound l t : well_kept t -> well_kept (serve_all t l).
Proof. revert t. induction l as [|s l IH]; intros t Ht; [done|]. by apply IH, serve_one_sound. Qed.

(** C8: whatever requests the tenancy services answer or refuse, in any order and however their commits end, every
    organization anybody belongs to keeps an active owner. *)
Theorem organizations_keep_an_owner l t organization :
  well_kept t -> peopled organization (serve_all t l) -> owned organization (serve_all t l).
Proof. intros Ht. by apply (sound_owned (fun _ => False)), serve_all_sound. Qed.

(** Whatever requests the tenancy services answer or refuse, a link still pending stands on a membership that
    is still waiting: removed, declined, revoked or active, a membership has no link left that changes it. *)
Theorem pending_links_wait l t i :
  well_kept t -> In i (invitations (serve_all t l)) -> is_pending i = true ->
  exists m, In m (members (serve_all t l)) /\ om_id m = inv_member i /\ om_status m = Invited.
Proof. intros Ht. by apply (sound_pending (fun _ => False)), serve_all_sound. Qed.

End RosterProofs.

Lemma organizations_keep_an_owner_witness :
  owned 1 (serve_all (team Admin) a_day)
  /\ List.find (fun m => om_id m =? 1) (members (serve_all (team Admin) a_day)) = Some (membership 1 1 Owner Suspended).
Proof.
  split; [|by vm_compute]. apply (organizations_keep_an_owner a_day); [apply team_well_kept|].
  exists (membership 2 2 Owner Active). split; [|done]. vm_compute. auto.
Defined.

(** After the invitation, before its acceptance. *)
Lemma pending_links_wait_witness :
  exists m, In m (members (serve_all (team Admin) (take 1 a_day))) /\ om_id m = 3 /\ om_status m = Invited.
Proof.
  assert (exists i, In i (invitations (serve_all (team Admin) (take 1 a_day))) /\ is_pending i = true /\ inv_member i = 3)
    as (i & Hi & Hp & Hm) by (vm_compute; eexists; split; [by left|done]).
  rewrite <- Hm. by apply (pending_links_wait (take 1 a_day)); [apply team_well_kept| |].
Defined.
