(* ===== verification/Overlaps.v ===== *)
(** Membership changes that overlap.  The code reads the caller's standing and the membership it names, then takes
    the organization's lock; between the two, any number of other requests may commit.  [overlap] is that step
    relation: the rows a change carries to its write are the ones it read, which the session does not read again. *)
From S2P Require Import Prelude Text UnitOfWork Tenancy TenancyRepositories Organizations Invitations TransactionLogic RosterInvariant RosterSafety TenancyFixtures.
From stdpp Require Import base list option strings.
From Stdlib Require Import ZArith Lia Relations.
Open Scope Z_scope.
Open Scope otari_scope.

(** A change between its reads and its lock: [None] for a removal. *)
Record pending_change : Type := {
  pc_organization : Organization;
  pc_actor : OrganizationMember;
  pc_target : OrganizationMember;
  pc_update : option MembershipUpdate
}.

Definition written (p : pending_change) : MembershipUpdate := default suspension (pc_update p).

(** A demotion, a suspension, or both: it makes nobody an active owner. *)
Definition lowering (d : MembershipUpdate) : Prop := up_role d <> Some Owner /\ up_status d <> Some Active.

Section Overlaps.
Context {O : Type} {L : MembershipListener O}.
Notation db := (tenancy O).
Notation M := (M db TenancyError).
Implicit Types (t : db) (m : OrganizationMember).

Definition finish (p : pending_change) : M unit :=
  match pc_update p with
  | Some d => void (write_membership_update (pc_organization p) (pc_actor p) (pc_target p) d)
  | None => write_membership_removal (pc_organization p) (pc_actor p) (pc_target p)
  end.

(** Every organization with members has an active owner. *)
Definition has_owners t : Prop :=
  List.NoDup (map om_id (members t)) /\ (forall organization, peopled organization t -> owned organization t).

(** What other requests may commit meanwhile: nobody becomes an active owner. *)
Definition makes_no_owner t t' : Prop :=
  (has_owners t -> has_owners t') /\ (forall m, In m (members t') -> is_active_owner m = true -> In m (members t)).

Inductive overlap (admitted : pending_change -> Prop) (others : db -> db -> Prop) :
    db * list pending_change -> db * list pending_change -> Prop :=
| change_begins t pool u member d o actor target :
    (read_membership_change u member (fresh_uow t [])).2 = inr (o, actor, target) ->
    admitted {| pc_organization := o; pc_actor := actor; pc_target := target; pc_update := d |} ->
    overlap admitted others (t, pool)
      (t, {| pc_organization := o; pc_actor := actor; pc_target := target; pc_update := d |} :: pool)
| change_ends t p1 p p2 cs :
    overlap admitted others (t, p1 ++ p :: p2) (committed (finish p (fresh_uow t cs)).1, p1 ++ p2)
| others_commit t t' pool : others t t' -> overlap admitted others (t, pool) (t', pool).

(** ** What one change leaves of the memberships *)

(** A fact of the memberships alone. *)
Definition of_members_only (P : db -> Prop) : Prop := forall t t', members t' = members t -> P t -> P t'.

Lemma of_members_roster P : of_members_only P -> of_roster P.
Proof. intros H t t' Hm _ _. by apply H. Qed.

(** Programs that change no membership. *)
Definition memberless {A} (m : M A) : Prop := forall I, of_members_only I -> triple I I m (fun _ => I).

Lemma memberless_quiet {A} (m : M A) : quiet m -> memberless m.
Proof. intros H I HI. apply H; auto using of_members_roster. Qed.
Lemma memberless_bind {A B} (m : M A) (f : A -> M B) :
  memberless m -> (forall a, memberless (f a)) -> memberless (bind m f).
Proof. intros Hm Hf I HI. eapply triple_bind; [by apply Hm|]. intros a. by apply Hf. Qed.
Lemma memberless_if {A} (b : bool) (m1 m2 : M A) :
  memberless m1 -> memberless m2 -> memberless (if b then m1 else m2).
Proof. by destruct b. Qed.
Lemma memberless_update_invitation i f : memberless (update_invitation i f).
Proof. intros I HI. apply triple_write. intros t. by apply HI. Qed.
Lemma memberless_for_each {A} (f : A -> M unit) l : (forall a, memberless (f a)) -> memberless (for_each f l).
Proof. intros H I HI. apply triple_for_each. intros a _. by apply H. Qed.

(** The memberships after the UPDATE of [seen]'s row with [d]. *)
Definition change_rows (seen : OrganizationMember) (d : MembershipUpdate) t : list OrganizationMember :=
  update_where (fun m => om_id m =? om_id seen) (apply_membership_update seen d) (members t).

(** The only write to the memberships is that UPDATE. *)
Lemma triple_change_rows I (P : db -> Prop) seen d :
  of_members_only I -> (forall t, P t -> I (with_members (change_rows seen d t) t)) ->
  triple I P (_update_membership seen d) (fun _ => I).
Proof.
  intros HI HP. unfold _update_membership. eapply (triple_bind _ _ _ _ (fun _ => I)).
  - unfold update_membership. eapply (triple_bind _ _ _ _ (fun _ => I)); [by apply triple_write|].
    intros []. apply triple_query_bind. intros [m|]; [apply triple_ret; tauto|apply triple_raise; tauto].
  - intros m. apply memberless_bind; [|intros []; apply memberless_quiet; quiet|done].
    apply memberless_if; [|by apply memberless_quiet, quiet_ret].
    apply memberless_bind; [by apply memberless_quiet, quiet_query|]. intros pending. apply memberless_for_each.
    intros i. apply memberless_update_invitation.
Qed.

(** What a change leaves of the memberships [t0] had: they, or their UPDATE once its check passed on their count. *)
Definition change_left t0 p t : Prop :=
  members t = members t0
  \/ (leaves_owner (pc_target p) (written p) t0 /\ members t = change_rows (pc_target p) (written p) t0).

(** A change, whatever row it had read: nothing, or its UPDATE once its check passed on the count of now. *)
Lemma triple_write_change t0 p :
  om_organization (pc_target p) = org_id (pc_organization p) ->
  triple (change_left t0 p) (fun t => members t = members t0) (finish p) (fun _ => change_left t0 p).
Proof.
  intros Ho. set (I := change_left t0 p).
  assert (of_members_only I) as HI by (intros t t' Hm; unfold I, change_left; by rewrite Hm).
  assert (forall A (k : list Z -> OrganizationMember -> M A), (forall ids m, quiet (k ids m)) ->
    triple I (fun t => members t = members t0)
      (_validate_membership_update (pc_actor p) (pc_target p) (written p) (org_id (pc_organization p)) true ;;;
       uow_block (let* ids := query (get_ids_by_organization (org_id (pc_organization p))) in
                  let* m := _update_membership (pc_target p) (written p) in k ids m)) (fun _ => I)) as Hgen.
  { intros A k Hk. eapply triple_bind; [apply triple_check; [by left|done]|]. intros [].
    apply triple_block; [|auto]. apply triple_query_bind. intros ids. eapply triple_bind.
    - apply triple_change_rows; [done|]. intros t [(Hm & Hl & _) _]. right. cbn. unfold change_rows. rewrite Hm.
      split; [|done]. unfold leaves_owner, count_active_owners in *. by rewrite <- Hm.
    - intros m. by apply memberless_quiet. }
  unfold finish, written in *. destruct (pc_update p) as [d|]; cbn in *.
  - eapply (triple_bind _ _ _ _ (fun _ => I)); [|intros x; by apply triple_ret].
    apply (Hgen _ (fun ids m => let* x := query (get_user (om_user m)) in _)). quiet.
  - apply (Hgen _ (fun ids m => tell (organization_member_changed m ids))). quiet.
Qed.

(** ** Lowering changes keep an owner *)

(** A lowered row that is an active owner is the row it was. *)
Lemma lowered_owner seen d m :
  lowering d -> is_active_owner (apply_membership_update seen d m) = true -> apply_membership_update seen d m = m.
Proof.
  intros [Hr Hs] Ha. unfold is_active_owner, apply_membership_update, net_change in *. destruct m as [i o u r s c], d as [dr ds].
  cbn in *. apply andb_prop in Ha as [H1 H2]. apply bool_decide_eq_true in H1, H2.
  destruct dr as [dr|], ds as [ds|]; repeat case_decide; subst; simplify_eq; done.
Qed.

(** What the pool's changes read is still so where it matters: an active owner now was that row then. *)
Definition fresh_enough t (p : pending_change) : Prop :=
  lowering (written p) /\ om_organization (pc_target p) = org_id (pc_organization p)
  /\ (forall m, In m (members t) -> om_id m = om_id (pc_target p) -> is_active_owner m = true -> m = pc_target p).

Lemma change_rows_owners seen d t m :
  lowering d -> In m (change_rows seen d t) -> is_active_owner m = true -> In m (members t).
Proof.
  intros Hl (x & Hx & ->)%update_where_In Ha. destruct (om_id x =? om_id seen); [|done].
  by rewrite (lowered_owner _ _ _ Hl Ha).
Qed.

Lemma has_owners_change seen d t :
  has_owners t -> lowering d -> leaves_owner seen d t ->
  (forall m, In m (members t) -> om_id m = om_id seen -> is_active_owner m = true -> m = seen) ->
  has_owners (with_members (change_rows seen d t) t).
Proof.
  intros [Hn Ho] Hlow Hl Hf. split; cbn.
  - unfold change_rows. by rewrite map_update_where.
  - intros o (x & Hx & Horg). apply update_where_In in Hx as (y & Hy & ->).
    assert (peopled o t) as Hp by (exists y; split; [done|]; by destruct (om_id y =? om_id seen)).
    destruct (Ho o Hp) as (w & Hw & Hwo & Ha). unfold owned; cbn. unfold change_rows.
    destruct (om_id w =? om_id seen) eqn:E.
    + reflect_bools. pose proof (Hf w Hw E Ha) as ->. destruct (Hl Ha) as [Hk|Hk].
      * exists (updated seen d). split; [|done].
        pose proof (In_update_where (fun m => om_id m =? om_id seen) (apply_membership_update seen d) _ _ Hw) as H.
        cbv beta in H. by rewrite Z.eqb_refl in H.
      * destruct (another_owner seen t Hn Hk) as (m' & Hm' & Hne & Hmo & Hma). exists m'.
        pose proof (In_update_where (fun m => om_id m =? om_id seen) (apply_membership_update seen d) _ _ Hm') as H.
        cbv beta in H. rewrite (proj2 (Z.eqb_neq _ _) Hne) in H. split; [done|]. split; [congruence|done].
    + exists w. pose proof (In_update_where (fun m => om_id m =? om_id seen) (apply_membership_update seen d) _ _ Hw) as H.
      cbv beta in H. by rewrite E in H.
Qed.

Lemma finish_keeps t p cs :
  has_owners t -> fresh_enough t p -> makes_no_owner t (committed (finish p (fresh_uow t cs)).1) 
  /\ has_owners (committed (finish p (fresh_uow t cs)).1).
Proof.
  intros Ht (Hlow & Ho & Hf).
  assert (change_left t p (committed (finish p (fresh_uow t cs)).1)) as Hcase.
  { eapply triple_committed; [by apply triple_write_change|by left|done]. }
  set (t' := committed _) in *.
  assert (has_owners t') as Ht'.
  { destruct Hcase as [Hm|[Hl Hm]]; unfold has_owners, owned, peopled in *; rewrite Hm; [done|].
    by apply (has_owners_change _ _ t Ht Hlow Hl). }
  split; [|done]. split; [done|]. intros m Hin Ha. destruct Hcase as [Hm|[Hl Hm]]; rewrite Hm in Hin; [done|].
  by eapply change_rows_owners.
Qed.

Lemma fresh_enough_step t t' p : makes_no_owner t t' -> fresh_enough t p -> fresh_enough t' p.
Proof. intros [_ Hno] (? & ? & Hf). split; [done|]. split; [done|]. intros m Hm Hid Ha. apply Hf; auto. Qed.

Definition overlap_safe (s : db * list pending_change) : Prop := has_owners s.1 /\ Forall (fresh_enough s.1) s.2.

Lemma overlap_preserves s s' :
  overlap (fun p => lowering (written p)) makes_no_owner s s' -> overlap_safe s -> overlap_safe s'.
Proof.
  intros Hstep [Ht Hpool]. destruct Hstep as [t pool u member d o actor target Hread Hlow|t p1 p p2 cs|t t' pool Hno];
    cbn in *.
  - split; [done|]. constructor; [|done].
    assert (In target (members t) /\ om_organization target = org_id o) as [Hin Ho].
    { assert (triple (fun _ => True) (fun t' => members t' = members t) (read_membership_change u member)
        (fun r t' => let '(o, a, tg) := r in In tg (members t) /\ om_organization tg = org_id o)) as Htr.
      { unfold read_membership_change.
        assert (forall A (m : M A), quiet m -> triple (fun _ => True) (fun t' => members t' = members t) m
                                                 (fun _ t' => members t' = members t)) as Hq.
        { intros A m Hm. apply Hm; [done| |done]. intros t1 t2 He _ _. by rewrite He. }
        eapply triple_bind; [apply Hq; quiet|]. intros o'. eapply triple_bind; [apply Hq; quiet|]. intros a.
        apply triple_query_bind. intros found. apply triple_require_bind; [done|]. intros tg ->. apply triple_ret.
        intros t1 [Hm Hf]. apply List.find_some in Hf as [Hf Hb]. reflect_bools. by rewrite <- Hm. }
      destruct (Htr (fresh_uow t [])) as [_ Hr]; [done|done|]. by rewrite Hread in Hr. }
    split; [done|]. split; [done|]. cbn. intros m Hm Hid _. by eapply (same_key om_id); [apply Ht|..].
  - apply Forall_app in Hpool as [H1 H2]. apply Forall_cons_1 in H2 as [Hp H2].
    destruct (finish_keeps t p cs Ht Hp) as [Hno Ht']. split; [done|]. cbn.
    apply Forall_app. split; (eapply Forall_impl; [done|]; intros; by eapply fresh_enough_step).
  - split; [by apply Hno|]. eapply Forall_impl; [done|]. intros. by eapply fresh_enough_step.
Qed.

(** Demotions, suspensions and removals that overlap in any way, each checked against rows it read before the
    lock, leave every organization an active owner, as long as nobody becomes one meanwhile. *)
Theorem overlapping_removals_keep_an_owner t t' pool organization :
  has_owners t ->
  clos_refl_trans _ (overlap (fun p => lowering (written p)) makes_no_owner) (t, []) (t', pool) ->
  peopled organization t' -> owned organization t'.
Proof.
  intros Ht Hsteps. assert (overlap_safe (t', pool)) as [[_ Ho] _]; [|by apply Ho].
  assert (overlap_safe (t, [])) as Hs by (split; [done|constructor]). revert Hs.
  induction Hsteps as [s s' Hstep|s|s s' s'' _ IH1 _ IH2]; eauto using overlap_preserves.
Qed.

End Overlaps.

(** ** Runs *)

Definition removal_read (t : tenancy Z) (u : User) (member : Z) : option pending_change :=
  match (read_membership_change u member (fresh_uow t [])).2 with
  | inr (o, actor, target) =>
      Some {| pc_organization := o; pc_actor := actor; pc_target := target; pc_update := None |}
  | inl _ => None
  end.

Definition after_finish (t : tenancy Z) (p : option pending_change) : tenancy Z :=
  match p with Some p => committed (finish p (fresh_uow t [])).1 | None => t end.

(** Two owners remove each other: both have read, then both write. *)
Definition each_other : tenancy Z :=
  let t := team Owner in
  after_finish (after_finish t (removal_read t ada 2)) (removal_read t bo 1).

Lemma overlapping_removals_keep_an_owner_witness :
  count_active_owners 1 each_other = 1 /\ owned 1 each_other.
Proof.
  split; [by vm_compute|].
  assert (has_owners (team Owner)) as Ht by (destruct (team_well_kept Owner); by split).
  apply (overlapping_removals_keep_an_owner (team Owner) each_other []); [done| |].
  2: { exists (membership 1 1 Owner Active). split; [|done]. vm_compute. auto. }
  set (p1 := {| pc_organization := {| org_id := 1; org_name := "Team"; org_slug := "default"; org_created_by := None |};
                pc_actor := membership 1 1 Owner Active; pc_target := membership 2 2 Owner Active; pc_update := None |}).
  set (p2 := {| pc_organization := pc_organization p1; pc_actor := membership 2 2 Owner Active;
                pc_target := membership 1 1 Owner Active; pc_update := None |}).
  eapply rt_trans; [apply rt_step, (change_begins _ _ _ _ ada 2 None (pc_organization p1) (pc_actor p1) (pc_target p1));
    [by vm_compute|by split]|].
  eapply rt_trans; [apply rt_step, (change_begins _ _ _ _ bo 1 None (pc_organization p2) (pc_actor p2) (pc_target p2));
    [by vm_compute|by split]|].
  eapply rt_trans; [apply rt_step, (change_ends _ _ _ [p2] p1 [] [])|].
  replace each_other with (committed (finish p2 (fresh_uow (committed (finish p1 (fresh_uow (team Owner) [])).1) [])).1)
    by (by vm_compute).
  apply rt_step, (change_ends _ _ _ [] p2 [] []).
Defined.

(** A removal that read a member before its lock, and writes after the member became the only owner, is let
    through: it leaves the organization without an owner, which [_validate_membership_update] means to refuse. *)
Theorem stale_removal_leaves_no_owner :
  let t0 := team Member in
  let removal := removal_read t0 ada 2 in
  let t1 := serve_one t0 {| at_time := 1; asked := UpdateMember ada 2 (change (Some Owner) None); ends := [] |} in
  let t2 := serve_one t1 {| at_time := 2; asked := RemoveMember bo 1; ends := [] |} in
  count_active_owners 1 t0 = 1 /\ count_active_owners 1 t1 = 2 /\ count_active_owners 1 t2 = 1
  /\ option_map (fun p => (finish p (fresh_uow t2 [])).2) removal = Some (inr tt)
  /\ count_active_owners 1 (after_finish t2 removal) = 0.
Proof. vm_compute. repeat split. Qed.
