(* ===== verification/RankProofs.v ===== *)
(** Rank: what an organization's admin may ask never touches an active owner, and makes no owner. *)
From S2P Require Import Prelude Text UnitOfWork Tenancy TenancyRepositories Organizations Invitations TransactionLogic RosterInvariant RosterSafety TenancyFixtures Overlaps.
From stdpp Require Import base list option strings.
From Stdlib Require Import ZArith Lia.
Open Scope Z_scope.
Open Scope otari_scope.

(** Who asks for a change of the roster as its manager. *)
Definition manager_of (r : request) : option User :=
  match r with
  | UpdateMember u _ _ | RemoveMember u _ | AddMember u _ _ | InviteMember u _ _ _ _ | InviteMembers u _ _ _ _ _
  | Revoke u _ | Reissue u _ _ _ _ => Some u
  | _ => None
  end.

Section Rank.
Context {O : Type} {L : MembershipListener O} {RP : RequestPlane O}.
Notation db := (tenancy O).
Notation M := (M db TenancyError).
Context (t0 : db) (u : User).
Implicit Types (t : db) (m : OrganizationMember).

(** No owner row but those of [t0], and every active owner of [t0] as it was. *)
Definition ranked t : Prop :=
  List.NoDup (map om_id (members t))
  /\ (forall m, In m (members t) -> om_role m = Owner -> In m (members t0))
  /\ (forall m, In m (members t0) -> is_active_owner m = true -> In m (members t)).

Definition owns_nothing : Prop := forall m, In m (members t0) -> om_user m = user_id u -> is_active_owner m = false.
Context (Hu : owns_nothing).

Lemma ranked_only : of_members_only ranked.
Proof. intros t t' Hm (H1 & H2 & H3). unfold ranked. by rewrite Hm. Qed.

Lemma ranked_roster (P : db -> Prop) : of_roster P -> of_roster (fun t => ranked t /\ P t).
Proof. intros HP t t' Hm Hi Hd [Hr H]. split; [by eapply ranked_only|by eapply HP]. Qed.

Lemma ranked_quiet_bind {A B} (m : M A) (f : A -> M B) (P : db -> Prop) Q :
  quiet m -> of_roster P -> (forall a, triple ranked (fun t => ranked t /\ P t) (f a) Q) ->
  triple ranked (fun t => ranked t /\ P t) (bind m f) Q.
Proof.
  intros Hm HP H. eapply triple_bind; [|exact H].
  apply Hm; [apply of_members_roster, ranked_only|by apply ranked_roster|tauto].
Qed.

Lemma ranked_start {A} (m : M A) Q :
  triple ranked (fun t => ranked t /\ True) m Q -> triple ranked ranked m Q.
Proof. intros H. eapply triple_pre; [exact H|by intros t Ht]. Qed.

Lemma ranked_memberless {A} (m : M A) : memberless m -> triple ranked ranked m (fun _ => ranked).
Proof. intros H. apply H, ranked_only. Qed.

(** ** The writes *)

Lemma ranked_change target d t :
  ranked t -> In target (members t) -> is_active_owner target = false -> om_role (updated target d) <> Owner ->
  ranked (with_members (change_rows target d t) t).
Proof.
  intros (Hn & H1 & H2) Hin Ha Hr. unfold ranked, change_rows. cbn. split; [by rewrite map_update_where|].
  split; intros m; rewrite In_members_update by done.
  - intros [->|[Hm _]] Ho; [done|by apply H1].
  - intros Hm Ho. right. pose proof (H2 m Hm Ho) as Hm'. split; [done|]. intros Hid.
    rewrite (same_key om_id _ _ _ Hn Hm' Hin Hid) in Ho. congruence.
Qed.

Lemma triple_ranked_update target d :
  is_active_owner target = false -> om_role (updated target d) <> Owner ->
  triple ranked (fun t => ranked t /\ In target (members t)) (_update_membership target d) (fun _ => ranked).
Proof. intros Ha Hr. apply triple_change_rows; [apply ranked_only|]. intros t [? ?]. by apply ranked_change. Qed.

Lemma triple_ranked_create organization user role status now :
  role <> Owner -> triple ranked ranked (create_membership organization user role status now) (fun _ => ranked).
Proof.
  intros Hr. apply triple_insert; [done|]. intros t (Hn & H1 & H2) _. unfold ranked. cbn.
  split; [by apply fresh_id_NoDup|]. split; intros m.
  - intros [Hm|[<-|[]]]%in_app_iff Ho; [by apply H1|done].
  - intros Hm Ho. rewrite in_app_iff. auto.
Qed.

(** ** The manager *)

Lemma triple_manager (P : db -> Prop) o :
  of_roster P ->
  triple ranked (fun t => ranked t /\ P t) (require_active_organization_management_access u o)
    (fun actor t => (ranked t /\ P t) /\ om_role actor <> Owner).
Proof.
  intros HP. unfold require_active_organization_management_access, _require_active_membership, _enforce_management_role.
  eapply (triple_bind _ _ _ _ (fun actor t => (ranked t /\ P t) /\ om_role actor <> Owner)).
  - apply triple_query_bind. intros found. apply triple_require; [tauto|]. intros a t -> [[Hs HPt] Hf].
    split; [done|]. apply List.find_some in Hf as [Hin Hq]. apply andb_prop in Hq as [[_ Hq]%andb_prop Hact].
    intros Ho. destruct Hs as (_ & Hown & _). apply Z.eqb_eq in Hq. pose proof (Hu a (Hown a Hin Ho) Hq) as Ha.
    unfold is_active_owner in Ha. unfold is_active_member in Hact. by rewrite Ho, Hact in Ha.
  - intros a. apply triple_refuse_bind; [tauto|]. intros _. by apply triple_ret.
Qed.

Lemma ranked_manager_bind {B} (P : db -> Prop) o (f : OrganizationMember -> M B) Q :
  of_roster P ->
  (forall actor, om_role actor <> Owner -> triple ranked (fun t => ranked t /\ P t) (f actor) Q) ->
  triple ranked (fun t => ranked t /\ P t) (bind (require_active_organization_management_access u o) f) Q.
Proof.
  intros HP H. eapply triple_bind; [by apply triple_manager|]. intros actor.
  apply (triple_pure _ _ (om_role actor <> Owner)); [tauto|]. intros Ha. eapply triple_pre; [by apply H|]. tauto.
Qed.

Notation keeps_rank m := (triple ranked ranked m (fun _ => ranked)).

(** A change by a manager that is no owner, after its check. *)
Lemma triple_ranked_change actor target d organization counts :
  om_role actor <> Owner -> om_organization target = organization ->
  counts = true \/ is_active_owner target = false ->
  triple ranked (fun t => ranked t /\ In target (members t))
    (_validate_membership_update actor target d organization counts ;;; _update_membership target d) (fun _ => ranked).
Proof.
  intros Ha Ho Hc. eapply triple_bind; [apply triple_check; [tauto|done]|]. intros [].
  apply (triple_pure _ _ (may_change actor target d counts)); [tauto|]. intros Hmay. destruct (Hmay Ha) as [Ht Hr].
  eapply triple_pre; [apply triple_ranked_update; [|done]|tauto].
  destruct Hc as [->|Hc]; [|done]. unfold is_active_owner. by rewrite bool_decide_eq_false_2 by auto.
Qed.

Lemma ranked_read_bind {B} member (f : Organization * OrganizationMember * OrganizationMember -> M B) Q :
  (forall o actor target, om_role actor <> Owner -> om_organization target = org_id o ->
     triple ranked (fun t => ranked t /\ In target (members t)) (f (o, actor, target)) Q) ->
  triple ranked ranked (bind (read_membership_change u member) f) Q.
Proof.
  intros H. apply ranked_start. unfold read_membership_change.
  eapply (triple_bind _ _ _ _ (fun r t => let '(o, actor, target) := r in
            (ranked t /\ In target (members t)) /\ om_role actor <> Owner /\ om_organization target = org_id o)).
  - apply ranked_quiet_bind; [quiet|done|]. intros o. apply ranked_manager_bind; [done|]. intros actor Ha.
    apply triple_query_bind. intros found. apply triple_require_bind; [tauto|]. intros target ->. apply triple_ret.
    intros t [[Hr _] Hf]. apply List.find_some in Hf as [Hin Hq]. reflect_bools. done.
  - intros [[o actor] target]. cbv beta iota.
    apply (triple_pure _ _ (om_role actor <> Owner /\ om_organization target = org_id o)); [tauto|].
    intros [? ?]. eapply triple_pre; [by apply H|]. tauto.
Qed.

(** The same check and write, with the query of the workspaces between them. *)
Lemma triple_ranked_block {A} actor target d organization (k : list Z -> OrganizationMember -> M A) :
  om_role actor <> Owner -> om_organization target = organization -> (forall ids m, quiet (k ids m)) ->
  triple ranked (fun t => ranked t /\ In target (members t))
    (_validate_membership_update actor target d organization true ;;;
     uow_block (let* ids := query (get_ids_by_organization organization) in
                let* m := _update_membership target d in k ids m)) (fun _ => ranked).
Proof.
  intros Ha Ho Hk. eapply triple_bind; [apply triple_check; [tauto|done]|]. intros [].
  apply (triple_pure _ _ (may_change actor target d true)); [tauto|]. intros Hmay. destruct (Hmay Ha) as [Ht Hr].
  apply triple_block; [|done]. apply triple_query_bind. intros ids. eapply triple_bind.
  - eapply triple_pre; [apply triple_ranked_update; [|done]|tauto].
    unfold is_active_owner. by rewrite bool_decide_eq_false_2 by auto.
  - intros m. by apply ranked_memberless, memberless_quiet.
Qed.

Lemma rank_update member d : keeps_rank (update_active_organization_member_for_user u member d).
Proof.
  apply ranked_read_bind. intros o actor target Ha Ho.
  apply (triple_ranked_block _ _ _ _ (fun ids m => let* x := query (get_user (om_user m)) in _)); [done|done|]. quiet.
Qed.

Lemma rank_remove member : keeps_rank (remove_active_organization_member_for_user u member).
Proof.
  apply ranked_read_bind. intros o actor target Ha Ho.
  apply (triple_ranked_block _ _ _ _ (fun ids m => tell (organization_member_changed m ids))); [done|done|]. quiet.
Qed.

(** ** Adding and inviting *)

(** A membership the address has here, which is not active, or a new one. *)
Lemma triple_ranked_add {A} actor existing organization counts (d : MembershipUpdate)
    (create : M OrganizationMember) (k : OrganizationMember -> M A) :
  om_role actor <> Owner -> is_active_opt existing = false ->
  triple ranked ranked create (fun _ => ranked) -> (forall m, memberless (k m)) ->
  triple ranked (fun t => ranked t /\ here organization existing t)
    (let* m := match existing with
               | None => create
               | Some m => _validate_membership_update actor m d organization counts ;;; _update_membership m d
               end in k m) (fun _ => ranked).
Proof.
  intros Ha He Hc Hk. eapply (triple_bind _ _ _ _ (fun _ => ranked)); [|intros m; by apply ranked_memberless].
  destruct existing as [m|]; cbn [here]; [|eapply triple_pre; [exact Hc|tauto]].
  apply (triple_pure _ _ (om_organization m = organization)); [tauto|]. intros Ho.
  eapply triple_pre; [apply triple_ranked_change; [done|done|]|tauto]. right. cbn in He.
  unfold is_active_member in He. unfold is_active_owner. by rewrite He, andb_false_r.
Qed.

Lemma grant_refused actor role :
  om_role actor <> Owner -> negb (bool_decide (om_role actor = Owner)) && bool_decide (role = Owner) = false ->
  role <> Owner.
Proof.
  intros Ha Hb. rewrite (bool_decide_eq_false_2 _ Ha) in Hb. simpl in Hb. by apply bool_decide_eq_false in Hb.
Qed.

Lemma ranked_here organization user existing t :
  ranked t -> get_by_organization_and_user organization user t = existing -> ranked t /\ here organization existing t.
Proof. intros Hr Hq. split; [done|]. by eapply here_of_query. Qed.

Lemma rank_add_member r blocked now : keeps_rank (create_active_organization_member_for_user u r blocked now).
Proof.
  unfold create_active_organization_member_for_user. apply ranked_start.
  apply ranked_quiet_bind; [quiet|done|]. intros o. apply ranked_manager_bind; [done|]. intros actor Ha.
  apply triple_lift_bind; [tauto|]. intros email _. apply ranked_quiet_bind; [quiet|done|]. intros [].
  apply triple_unless_taken, triple_block; [|done]. apply triple_refuse_bind; [tauto|]. intros _.
  apply ranked_quiet_bind; [quiet|done|]. intros target. apply triple_query_bind. intros existing.
  apply triple_refuse_bind; [tauto|]. intros He.
  apply (triple_pre _ _ (fun t => ranked t /\ here (org_id o) existing t));
    [|intros t [[? _] ?]; by eapply ranked_here].
  apply ranked_quiet_bind; [quiet|apply of_roster_here|]. intros [].
  apply (triple_ranked_add actor); [done|done| |].
  - apply triple_refuse_bind; [done|]. intros Hr. by apply triple_ranked_create, (grant_refused actor).
  - intros m. apply memberless_quiet. quiet.
Qed.

Lemma memberless_insert {A} refused (row : db -> A) add :
  (forall a t, members (add a t) = members t) -> memberless (insert_row refused row add).
Proof. intros H I HI. apply triple_insert; [done|]. intros t HP _. by apply (HI t). Qed.

Lemma rank_stage o actor email role assignments hash expires_at now :
  om_role actor <> Owner -> role <> Owner ->
  keeps_rank (_stage_invitation u o actor email role assignments hash expires_at now).
Proof.
  intros Ha Hr. unfold _stage_invitation. apply ranked_start.
  apply ranked_quiet_bind; [quiet|done|]. intros target. apply triple_query_bind. intros existing.
  apply triple_refuse_bind; [tauto|]. intros He.
  apply (triple_pre _ _ (fun t => ranked t /\ here (org_id o) existing t));
    [|intros t [[? _] ?]; by eapply ranked_here].
  apply ranked_quiet_bind; [quiet|apply of_roster_here|]. intros [].
  eapply (triple_bind _ _ _ _ (fun _ t => ranked t /\ here (org_id o) existing t)).
  - destruct existing as [m|]; [|by apply triple_ret]. apply triple_if; intros _; [|by apply triple_ret].
    apply triple_query_bind. intros pending. apply triple_refuse_bind; [tauto|]. intros _.
    eapply (triple_pre _ _ (fun t => ranked t /\ here (org_id o) (Some m) t)); [|tauto]. apply triple_for_each.
    intros i _. apply triple_write. intros t [Hk Hh]. split; [by eapply ranked_only|done].
  - intros []. apply (triple_ranked_add actor); [done|done|by apply triple_ranked_create|].
    intros m. apply memberless_bind; [by apply memberless_insert|]. intros i. apply memberless_quiet. quiet.
Qed.

Lemma rank_invite r blocked hash expires_at now :
  keeps_rank (invite_active_organization_member_for_user u r blocked hash expires_at now).
Proof.
  unfold invite_active_organization_member_for_user. apply ranked_start.
  apply ranked_quiet_bind; [quiet|done|]. intros o. apply ranked_manager_bind; [done|]. intros actor Ha.
  apply triple_lift_bind; [tauto|]. intros email _. apply ranked_quiet_bind; [quiet|done|]. intros [].
  apply triple_refuse_bind; [tauto|]. intros Hr. apply triple_unless_taken, triple_block; [|done].
  apply triple_refuse_bind; [tauto|]. intros _. eapply triple_pre; [|intros t [Ht _]; exact Ht].
  by apply rank_stage, (grant_refused actor).
Qed.

Lemma rank_invite_each o actor role assignments blocked expires_at now seen l :
  om_role actor <> Owner -> role <> Owner ->
  keeps_rank (invite_each u o actor role assignments blocked expires_at now seen l).
Proof.
  intros Ha Hr. revert seen. induction l as [|[raw hash] l IH]; intros seen; cbn [invite_each]; [by apply triple_ret|].
  eapply triple_bind.
  - unfold invite_one. apply (triple_try _ _ _ _ (fun _ => ranked)).
    + apply triple_lift_bind; [done|]. intros email _. apply triple_if; intros _; [by apply triple_ret|].
      apply triple_refuse_bind; [done|]. intros _. apply (triple_bind _ _ _ _ (fun _ => ranked)); [|intros x; by apply triple_ret].
      apply triple_begin_nested; [by apply rank_stage|done].
    + intros e m' He. destruct e as [x| | | |]; try discriminate;
        [destruct (is_conflict_or_validation x)|]; simplify_eq; by apply triple_ret.
  - intros [one seen']. eapply triple_bind; [apply IH|]. intros rest. by apply triple_ret.
Qed.

Lemma rank_invite_members emails role assignments blocked expires_at now :
  keeps_rank (invite_active_organization_members_for_user u emails role assignments blocked expires_at now).
Proof.
  unfold invite_active_organization_members_for_user.
  eapply (triple_bind _ _ _ _ (fun r t => ranked t /\ om_role r.2 <> Owner /\ role <> Owner)).
  - unfold may_invite. apply ranked_start. apply ranked_quiet_bind; [quiet|done|]. intros o.
    apply ranked_manager_bind; [done|]. intros actor Ha. apply ranked_quiet_bind; [quiet|done|]. intros [].
    apply triple_refuse_bind; [tauto|]. intros Hr. apply triple_ret. intros t [? _]. cbn.
    split; [done|]. split; [done|by apply (grant_refused actor)].
  - intros [o actor]. cbn. apply (triple_pure _ _ (om_role actor <> Owner /\ role <> Owner)); [tauto|]. intros [? ?].
    apply triple_block; [|done]. eapply triple_pre; [by apply rank_invite_each|tauto].
Qed.

(** ** Revoking and reissuing *)

Lemma memberless_open invitation o : memberless (_open_invitation (O := O) invitation o).
Proof. apply memberless_quiet. unfold _open_invitation. quiet. Qed.

(** The membership of an open invitation is a row. *)
Lemma triple_ranked_open invitation o :
  triple ranked ranked (_open_invitation invitation o)
    (fun r t => ranked t /\ match r.2 with
                            | Some m => In m (members t) /\ om_organization m = org_id o
                            | None => True
                            end).
Proof.
  unfold _open_invitation. apply triple_query_bind. intros found. apply triple_require_bind; [tauto|]. intros i _.
  apply triple_refuse_bind; [tauto|]. intros _. apply triple_refuse_bind; [tauto|]. intros _.
  apply triple_query_bind. intros m.
  set (P := fun t => match m with Some m => In m (members t) /\ om_organization m = org_id o | None => True end).
  apply (triple_pre _ _ (fun t => ranked t /\ P t)).
  - apply ranked_quiet_bind; [quiet|intros t t' Hm _ _; unfold P; by rewrite Hm|]. intros []. by apply triple_ret.
  - intros t [[Hr _] Hm]. split; [done|]. destruct m as [m|]; [|done]. apply List.find_some in Hm as [Hin Hq].
    reflect_bools. done.
Qed.

Lemma rank_revoke invitation : keeps_rank (revoke_organization_member_invitation_for_user u invitation).
Proof.
  unfold revoke_organization_member_invitation_for_user. apply ranked_start.
  apply ranked_quiet_bind; [quiet|done|]. intros o. apply ranked_manager_bind; [done|]. intros actor Ha.
  eapply triple_bind; [eapply triple_pre; [apply triple_ranked_open|tauto]|]. intros [i m]. cbn [snd].
  destruct m as [m|].
  - destruct (bool_decide (om_status m = Invited)).
    + apply (triple_pure _ _ (om_organization m = org_id o)); [tauto|]. intros Ho.
      apply (triple_pre _ _ (fun t => ranked t /\ In m (members t))); [|tauto].
      eapply triple_bind; [apply triple_check; [tauto|done]|]. intros [].
      apply (triple_pure _ _ (may_change actor m suspension true)); [tauto|]. intros Hmay. destruct (Hmay Ha) as [Ht Hr].
      eapply (triple_bind _ _ _ _ (fun _ t => ranked t /\ In m (members t))).
      { apply triple_write. intros t [[Hk Hin] _]. split; [by eapply ranked_only|done]. }
      intros []. apply (triple_bind _ _ _ _ (fun _ => ranked)); [|intros []; by apply ranked_memberless, memberless_quiet, quiet_commit].
      eapply triple_bind; [apply triple_ranked_update; [|done]|intros x; by apply triple_ret].
      unfold is_active_owner. by rewrite bool_decide_eq_false_2 by auto.
    + apply triple_ret_bind. eapply triple_pre; [|intros t [Ht _]; exact Ht]. apply ranked_memberless.
      apply memberless_bind; [apply memberless_update_invitation|]. intros []. apply memberless_quiet. quiet.
  - apply triple_ret_bind. eapply triple_pre; [|intros t [Ht _]; exact Ht]. apply ranked_memberless.
    apply memberless_bind; [apply memberless_update_invitation|]. intros []. apply memberless_quiet. quiet.
Qed.

Lemma memberless_block {A} (m : M A) : memberless m -> memberless (uow_block m).
Proof. intros H I HI. apply triple_block; [by apply H|done]. Qed.

Lemma rank_reissue invitation blocked hash expires_at :
  keeps_rank (reissue_organization_member_invitation_for_user u invitation blocked hash expires_at).
Proof.
  apply ranked_memberless. unfold reissue_organization_member_invitation_for_user.
  repeat (apply memberless_bind; [apply memberless_quiet; quiet|]; intros ?). apply memberless_block.
  apply memberless_bind; [apply memberless_open|]. intros [i m].
  repeat (apply memberless_bind; [apply memberless_quiet; quiet|]; intros ?). apply memberless_update_invitation.
Qed.

End Rank.

Section RankTheorem.
Context {O : Type} {L : MembershipListener O} {RP : RequestPlane O}.

(** C18: a manager who is no owner changes no active owner's membership and makes nobody an owner, whatever they
    ask: every owner row there is afterwards was there before, and every active owner is as they were. *)
Theorem only_owners_touch_owners (t : tenancy O) (s : served) (u : User) :
  List.NoDup (map om_id (members t)) ->
  manager_of (asked s) = Some u ->
  (forall m, In m (members t) -> om_user m = user_id u -> is_active_owner m = false) ->
  (forall m, In m (members (serve_one t s)) -> om_role m = Owner -> In m (members t))
  /\ (forall m, In m (members t) -> is_active_owner m = true -> In m (members (serve_one t s))).
Proof.
  intros Hn Hm Hu. assert (ranked t t) as Ht by (split; [done|]; split; auto).
  assert (ranked t (serve_one t s)) as (_ & H1 & H2); [|done].
  unfold serve_one. eapply (triple_committed (ranked t) (ranked t) _ (fun _ => ranked t)); [|done|done].
  destruct (asked s); simplify_eq/=; unfold serve, void;
    try (eapply (triple_bind _ _ _ _ (fun _ => ranked t)); [|intros x; by apply triple_ret]);
    eauto using rank_update, rank_remove, rank_add_member, rank_invite, rank_invite_members, rank_revoke, rank_reissue.
Qed.

End RankTheorem.

(** Bo, an admin, removes Ada, the owner: refused, and she stays. *)
Lemma only_owners_touch_owners_witness :
  In (membership 1 1 Owner Active)
    (members (serve_one (team Admin) {| at_time := 1; asked := RemoveMember bo 1; ends := [] |})).
Proof.
  refine (proj2 (only_owners_touch_owners (team Admin) {| at_time := 1; asked := RemoveMember bo 1; ends := [] |} bo
                   _ _ _) _ _ _).
  - apply (sound_member_ids (fun _ => False)), team_well_kept.
  - reflexivity.
  - simpl. intros m [<-|[<-|[]]]; done.
  - simpl. auto.
  - reflexivity.
Defined.
