(* ===== verification/WorkspacesProofs.v ===== *)
(** Who sees what: the organization a caller acts in, and the one rule of workspace visibility and management in
    its two forms, a check of one workspace and the set of them. *)
From S2P Require Import Prelude Text UnitOfWork Tenancy TenancyRepositories Organizations Workspaces TransactionLogic TenancyFixtures.
From stdpp Require Import base list option strings.
From Stdlib Require Import ZArith Lia.
Open Scope Z_scope.
Open Scope otari_scope.

Section Reads.
Context {O : Type}.
Notation db := (tenancy O).
Notation M := (M db TenancyError).
Implicit Types (t : db).

(** What a read answers, and that it only reads. *)
Definition answer {A} (m : M A) t : exn TenancyError + A := (m (fresh_uow t [])).2.
Definition reads {A} (m : M A) : Prop := forall u, (m u).1 = u.

Lemma reads_ret {A} (a : A) : reads (ret a).
Proof. done. Qed.
Lemma reads_raise {A} e : reads (raise e : M A).
Proof. done. Qed.
Lemma reads_query {A} (q : db -> A) : reads (query q).
Proof. done. Qed.
Lemma reads_bind {A B} (m : M A) (f : A -> M B) : reads m -> (forall a, reads (f a)) -> reads (bind m f).
Proof.
  intros Hm Hf u. unfold bind. specialize (Hm u). destruct (m u) as [u1 [e|a]]; simpl in *; subst; [done|apply Hf].
Qed.

(** A read goes on from what it answered. *)
Lemma answer_bind {A B} (m : M A) (f : A -> M B) t :
  reads m -> answer (bind m f) t = match answer m t with inr a => answer (f a) t | inl e => inl e end.
Proof.
  intros Hm. unfold answer, bind. specialize (Hm (fresh_uow t [])). destruct (m _) as [u1 [e|a]]; simpl in *; by subst.
Qed.
Lemma answer_query_bind {A B} (q : db -> A) (f : A -> M B) t : answer (bind (query q) f) t = answer (f (q t)) t.
Proof. done. Qed.

(** ** The organization a caller acts in *)

Definition acts_in (user : User) (organization : Organization) t : Prop :=
  exists m, In m (members t) /\ om_user m = user_id user /\ om_organization m = org_id organization /\ om_status m = Active.

(** Every membership is in an organization there is, which its foreign key checks. *)
Definition memberships_have_organizations t : Prop :=
  forall m, In m (members t) -> is_set (get_organization (om_organization m) t) = true.

Lemma first_by_In {A} (before : A -> A -> bool) l x : first_by before l = Some x -> In x l.
Proof.
  revert x. induction l as [|y l IH]; intros x; simpl; [done|].
  destruct (first_by before l) as [z|]; [|intros [= ->]; auto]. destruct (before z y); intros [= ->]; auto.
Qed.

Lemma first_by_some {A} (before : A -> A -> bool) l x : In x l -> is_set (first_by before l) = true.
Proof. destruct l as [|y l]; [done|]. intros _. simpl. by destruct (first_by before l) as [z|]; [destruct (before z y)|]. Qed.

Lemma first_active_In user t m :
  get_first_active_for_user user t = Some m -> In m (members t) /\ om_user m = user /\ om_status m = Active.
Proof.
  intros H%first_by_In. apply List.filter_In in H as [H Hq]. apply andb_prop in Hq as [Hu Ha].
  apply Z.eqb_eq in Hu. by apply bool_decide_eq_true in Ha.
Qed.

Lemma get_organization_id i t o : get_organization i t = Some o -> org_id o = i.
Proof. intros [_ H]%List.find_some. by apply Z.eqb_eq. Qed.

Lemma get_active_spec organization user t m :
  get_active_by_organization_and_user organization user t = Some m ->
  In m (members t) /\ om_organization m = organization /\ om_user m = user /\ om_status m = Active.
Proof.
  intros [Hin Hq]%List.find_some. apply andb_prop in Hq as [[Ho Hu]%andb_prop Ha]. apply Z.eqb_eq in Ho, Hu.
  by apply bool_decide_eq_true in Ha.
Qed.

(** The lookup, as a function of the tables. *)
Definition found_organization (user : User) t : option Organization :=
  let pointed := get_organization (active_organization_id user) t in
  match match pointed with Some o => get_active_by_organization_and_user (org_id o) (user_id user) t | None => None end with
  | Some _ => pointed
  | None => match get_first_active_for_user (user_id user) t with
            | Some m => get_organization (om_organization m) t
            | None => None
            end
  end.

Lemma live_active_reads user u :
  _live_active_organization user false u = (u, inr (found_organization user (pending u))).
Proof.
  unfold _live_active_organization, found_organization, bind, query, ret. destruct (get_organization _ _) as [o|].
  - destruct (get_active_by_organization_and_user _ _ _); [done|].
    destruct (get_first_active_for_user _ _); [|done]. by destruct (get_organization _ _).
  - destruct (get_first_active_for_user _ _); [|done]. by destruct (get_organization _ _).
Qed.

Lemma get_active_answer user t :
  answer (get_active_organization_for_user user) t =
    match found_organization user t with Some o => inr o | None => inl (Raised NotAuthorizedError) end.
Proof.
  unfold answer, get_active_organization_for_user, bind, require. rewrite live_active_reads. simpl.
  by destruct (found_organization user t).
Qed.

Lemma reads_get_active user : reads (get_active_organization_for_user user).
Proof.
  intros u. unfold get_active_organization_for_user, bind. rewrite live_active_reads. simpl.
  by destruct (found_organization user (pending u)).
Qed.

Lemma found_acts_in user t o : found_organization user t = Some o -> acts_in user o t.
Proof.
  unfold found_organization. destruct (match get_organization _ _ with Some _ => _ | None => None end) as [m|] eqn:E.
  - intros Ho. rewrite Ho in E. apply get_active_spec in E as (? & ? & ? & ?). by exists m.
  - destruct (get_first_active_for_user _ _) as [m|] eqn:Em; [|done]. intros Ho.
    apply first_active_In in Em as (? & ? & ?). exists m. by rewrite (get_organization_id _ _ _ Ho).
Qed.

(** A caller acts in an organization they are an active member of, the one they point at where it still is, and
    is refused exactly when no membership of theirs is active. *)
Theorem caller_acts_where_they_belong t (user : User) :
  memberships_have_organizations t ->
  match answer (get_active_organization_for_user user) t with
  | inr o => acts_in user o t
             /\ (forall p, get_organization (active_organization_id user) t = Some p -> acts_in user p t -> o = p)
  | inl e => e = Raised NotAuthorizedError /\ forall o, ~ acts_in user o t
  end.
Proof.
  intros Hfk. rewrite get_active_answer. destruct (found_organization user t) as [o|] eqn:E.
  - split; [by apply found_acts_in|]. intros p Hp (m & Hm & Hu & Ho & Ha). unfold found_organization in E.
    rewrite Hp in E. destruct (get_active_by_organization_and_user _ _ _) eqn:Ea; [congruence|].
    apply List.find_none with (x := m) in Ea; [|done]. unfold is_active_member in Ea.
    rewrite Ho, Hu, Ha, !Z.eqb_refl in Ea. done.
  - split; [done|]. intros o (m & Hm & Hu & Ho & Ha). unfold found_organization in E.
    destruct (match get_organization _ _ with Some _ => _ | None => None end) as [x|] eqn:Ex.
    { destruct (get_organization _ _); done. }
    destruct (get_first_active_for_user (user_id user) t) as [f|] eqn:Ef.
    + apply first_active_In in Ef as [Hf _]. specialize (Hfk f Hf). by rewrite E in Hfk.
    + assert (In m (List.filter (fun m => (om_user m =? user_id user) && is_active_member m) (members t))) as Hin.
      { apply List.filter_In. split; [done|]. unfold is_active_member. by rewrite Hu, Ha, Z.eqb_refl. }
      pose proof (first_by_some earlier_member _ _ Hin) as Hs. unfold get_first_active_for_user in Ef. by rewrite Ef in Hs.
Qed.

End Reads.

Section Visibility.
Context {O : Type}.
Notation db := (tenancy O).
Notation M := (M db TenancyError).
Implicit Types (t : db).

(** In the organization as a manager. *)
Definition manages_all (user : Z) (organization : Organization) t : bool :=
  match get_active_by_organization_and_user (org_id organization) user t with
  | Some m => MANAGEMENT_ROLES (om_role m)
  | None => false
  end.

Definition in_scope (s : VisibleWorkspaceScope) (workspace : Z) t : Prop :=
  workspace_in (org_id (scope_organization s)) workspace t = true
  /\ match scope_workspaces s with None => True | Some ids => In workspace ids end.

Lemma scope_answer user t :
  answer (resolve_visible_workspace_scope user) t =
    match found_organization user t with
    | None => inl (Raised NotAuthorizedError)
    | Some o =>
        inr {| scope_organization := o;
               scope_workspaces := if manages_all (user_id user) o t then None
                                   else Some (get_workspace_ids_for_user (user_id user) (org_id o) None t) |}
    end.
Proof.
  unfold resolve_visible_workspace_scope. rewrite answer_bind by apply reads_get_active. rewrite get_active_answer.
  destruct (found_organization user t) as [o|]; [|done]. rewrite answer_query_bind. unfold manages_all.
  destruct (get_active_by_organization_and_user _ _ _) as [m|]; [|done]. by destruct (MANAGEMENT_ROLES (om_role m)).
Qed.

Lemma visible_answer user workspace t :
  answer (resolve_visible_workspace user workspace) t =
    match found_organization user t with
    | None => inl (Raised NotAuthorizedError)
    | Some o =>
        match get_workspace workspace t with
        | Some w => if (ws_organization w =? org_id o)
                       && (manages_all (user_id user) o t
                           || is_set (get_active_by_workspace_and_user (ws_id w) (user_id user) t))
                    then inr w else inl (Raised (WorkspaceNotFoundError workspace))
        | None => inl (Raised (WorkspaceNotFoundError workspace))
        end
    end.
Proof.
  unfold resolve_visible_workspace. rewrite answer_bind by apply reads_get_active. rewrite get_active_answer.
  destruct (found_organization user t) as [o|]; [|done]. unfold resolve_workspace_in_organization.
  rewrite answer_query_bind. destruct (get_workspace workspace t) as [w|]; [|done].
  unfold manages_all, answer, require, refuse_if, bind, ret, query, fail, raise. simpl.
  destruct (ws_organization w =? org_id o); [|done]. simpl.
  destruct (get_active_by_organization_and_user _ _ _) as [m|]; simpl.
  - destruct (MANAGEMENT_ROLES (om_role m)); [done|]. simpl. by destruct (get_active_by_workspace_and_user _ _ _).
  - by destruct (get_active_by_workspace_and_user _ _ _).
Qed.

Lemma get_workspace_id i t w : get_workspace i t = Some w -> ws_id w = i.
Proof. intros [_ H]%List.find_some. by apply Z.eqb_eq. Qed.

(** An active membership of a workspace, and the set of them. *)
Lemma active_member_in_ids user organization workspace roles t :
  workspace_in organization workspace t = true ->
  (In workspace (get_workspace_ids_for_user user organization roles t)
   <-> exists m, In m (workspace_members t) /\ wm_workspace m = workspace /\ wm_user m = user
                 /\ is_active_workspace_member m = true
                 /\ match roles with Some among => among (wm_role m) = true | None => True end).
Proof.
  intros Hw. unfold get_workspace_ids_for_user. rewrite in_map_iff. split.
  - intros (m & Hm & Hin). apply List.filter_In in Hin as [Hin Hq].
    apply andb_prop in Hq as [[[Hu _]%andb_prop Ha]%andb_prop Hr]. apply Z.eqb_eq in Hu.
    exists m. split_and!; try done. by destruct roles.
  - intros (m & Hin & Hm & Hu & Ha & Hr). exists m. split; [done|]. apply List.filter_In. split; [done|].
    rewrite Hm, Hu, Ha, Hw, Z.eqb_refl. simpl. by destruct roles.
Qed.

Lemma active_member_found user workspace t :
  is_set (get_active_by_workspace_and_user workspace user t) = true
  <-> exists m, In m (workspace_members t) /\ wm_workspace m = workspace /\ wm_user m = user
                /\ is_active_workspace_member m = true.
Proof.
  unfold get_active_by_workspace_and_user. split.
  - destruct (List.find _ _) as [m|] eqn:E; [|done]. intros _. apply List.find_some in E as [Hin Hq].
    apply andb_prop in Hq as [[Hw Hu]%andb_prop Ha]. apply Z.eqb_eq in Hw, Hu. by exists m.
  - intros (m & Hin & Hw & Hu & Ha). destruct (List.find _ _) as [x|] eqn:E; [done|].
    apply List.find_none with (x := m) in E; [|done]. by rewrite Hw, Hu, Ha, !Z.eqb_refl in E.
Qed.

(** The two forms of the visibility rule agree: a caller may open a workspace exactly when their scope, which
    filters what they are listed, holds it; and a workspace outside it answers as one that does not exist. *)
Theorem scope_agrees_with_visibility t (user : User) (workspace : Z) :
  match answer (resolve_visible_workspace_scope user) t with
  | inl e => answer (resolve_visible_workspace user workspace) t = inl e
  | inr s =>
      match answer (resolve_visible_workspace user workspace) t with
      | inr w => ws_id w = workspace /\ in_scope s workspace t
      | inl e => e = Raised (WorkspaceNotFoundError workspace) /\ ~ in_scope s workspace t
      end
  end.
Proof.
  rewrite scope_answer, visible_answer. destruct (found_organization user t) as [o|]; [|done].
  unfold in_scope, workspace_in; cbn. destruct (get_workspace workspace t) as [w|] eqn:Hw.
  2: { split; [done|]. by intros [? _]. }
  pose proof (get_workspace_id _ _ _ Hw) as Hid. destruct (ws_organization w =? org_id o) eqn:Ho; simpl.
  2: { split; [done|]. by intros [? _]. }
  destruct (manages_all (user_id user) o t); simpl; [done|].
  assert (workspace_in (org_id o) workspace t = true) as Hin by (unfold workspace_in; by rewrite Hw).
  rewrite Hid. destruct (is_set _) eqn:Hs.
  - split; [done|]. split; [done|]. apply active_member_in_ids; [done|].
    apply active_member_found in Hs as (m & ? & ? & ? & ?). by exists m.
  - split; [done|]. intros [_ (m & ? & ? & ? & ? & _)%active_member_in_ids]; [|done].
    assert (is_set (get_active_by_workspace_and_user workspace (user_id user) t) = true) as Hc
      by (apply active_member_found; by exists m). congruence.
Qed.

(** ** Management *)

(** One membership per person and workspace, which a unique index keeps. *)
Definition one_membership_each t : Prop :=
  forall m m', In m (workspace_members t) -> In m' (workspace_members t) ->
    wm_workspace m = wm_workspace m' -> wm_user m = wm_user m' -> m = m'.

(** The workspaces a caller is said to manage are exactly those, of the ones in their scope, that they are let
    manage one by one. *)
Theorem managed_set_agrees t (user : User) s ids (w : Workspace) :
  one_membership_each t ->
  answer (resolve_visible_workspace_scope user) t = inr s ->
  answer (resolve_managed_workspace_ids user s) t = inr ids ->
  get_workspace (ws_id w) t = Some w -> in_scope s (ws_id w) t ->
  (has_workspace_management_access (user_id user) w t = true
   <-> match ids with None => True | Some l => In (ws_id w) l end).
Proof.
  intros Hone Hs Hids Hw [Hin Hsc]. rewrite scope_answer in Hs. destruct (found_organization user t) as [o|]; [|done].
  injection Hs as <-. cbn in *.
  assert (ws_organization w = org_id o) as Ho by (unfold workspace_in in Hin; rewrite Hw in Hin; by apply Z.eqb_eq).
  unfold resolve_managed_workspace_ids, sees_every_workspace in Hids. cbn in Hids.
  unfold has_workspace_management_access. rewrite Ho. unfold manages_all in *.
  destruct (match get_active_by_organization_and_user _ _ _ with Some _ => _ | None => false end); cbn in *.
  { by injection Hids as <-. }
  injection Hids as <-. rewrite active_member_in_ids by done.
  unfold get_active_by_workspace_and_user. split.
  - destruct (List.find _ _) as [m|] eqn:E; [|done]. intros Hr. apply List.find_some in E as [Hm Hq].
    apply andb_prop in Hq as [[Hmw Hmu]%andb_prop Ha]. apply Z.eqb_eq in Hmw, Hmu. by exists m.
  - intros (m & Hm & Hmw & Hmu & Ha & Hr). destruct (List.find _ _) as [x|] eqn:E.
    + apply List.find_some in E as [Hx Hq]. apply andb_prop in Hq as [[Hxw Hxu]%andb_prop _]. apply Z.eqb_eq in Hxw, Hxu.
      rewrite (Hone x m Hx Hm) by congruence. done.
    + apply List.find_none with (x := m) in E; [|done]. by rewrite Hmw, Hmu, Ha, !Z.eqb_refl in E.
Qed.

End Visibility.

(** ** Witnesses *)

Lemma caller_acts_where_they_belong_witness :
  answer (get_active_organization_for_user bo) (team Viewer)
    = inr {| org_id := 1; org_name := "Team"; org_slug := "default"; org_created_by := None |}
  /\ acts_in bo {| org_id := 1; org_name := "Team"; org_slug := "default"; org_created_by := None |} (team Viewer).
Proof.
  split; [by vm_compute|].
  assert (memberships_have_organizations (team Viewer)) as Hfk by (simpl; intros m [<-|[<-|[]]]; done).
  exact (proj1 (caller_acts_where_they_belong (team Viewer) bo Hfk)).
Defined.

Lemma managed_set_agrees_witness :
  has_workspace_management_access 1 {| ws_id := 1; ws_organization := 1; ws_name := "Default workspace"; ws_created_by := None; ws_created_at := 0 |}
    (team Viewer) = true.
Proof.
  apply (managed_set_agrees (team Viewer) ada
    {| scope_organization := {| org_id := 1; org_name := "Team"; org_slug := "default"; org_created_by := None |};
       scope_workspaces := None |} None).
  - intros m m' [<-|[]] [<-|[]]; done.
  - by vm_compute.
  - by vm_compute.
  - by vm_compute.
  - by split.
  - exact I.
Defined.
