(* ===== verification/CredentialsProofs.v ===== *)
(** Passwords: no tenancy request sets one, save an accepted link, and that one only for an account nobody has
    signed in to and no other organization has as a member. *)
From S2P Require Import Prelude Text UnitOfWork Tenancy TenancyRepositories Organizations Invitations Workspaces TransactionLogic RosterSafety TenancyFixtures.
From stdpp Require Import base list option strings.
From Stdlib Require Import ZArith Lia.
Open Scope Z_scope.
Open Scope otari_scope.

Section Credentials.
Context {O : Type} {L : MembershipListener O} {RP : RequestPlane O}.
Notation db := (tenancy O).
Notation M := (M db TenancyError).
Implicit Types (t : db).

(** ** Facts of the passwords *)

Definition keeps_password (f : User -> User) : Prop :=
  forall u, user_id (f u) = user_id u /\ hashed_password (f u) = hashed_password u.

(** A fact no write sees that leaves the passwords, and adds none. *)
Record of_passwords (I : db -> Prop) : Prop := {
  same_users : forall t t', users t' = users t -> I t -> I t';
  rewritten_users : forall t p f, keeps_password f -> I t -> I (with_users (update_where p f (users t)) t);
  new_user : forall t u, hashed_password u = None -> I t -> I (with_users (users t ++ [u]) t)
}.

Definition passwordless {A} (m : M A) : Prop := forall I, of_passwords I -> triple I I m (fun _ => I).

Lemma pw_ret {A} (a : A) : passwordless (ret a).
Proof. intros I _. by apply triple_ret. Qed.
Lemma pw_raise {A} e : passwordless (raise e : M A).
Proof. intros I _. by apply triple_raise. Qed.
Lemma pw_query {A} (q : db -> A) : passwordless (query q).
Proof. intros I _. by apply triple_query. Qed.
Lemma pw_bind {A B} (m : M A) (f : A -> M B) : passwordless m -> (forall a, passwordless (f a)) -> passwordless (bind m f).
Proof. intros Hm Hf I HI. eapply triple_bind; [by apply Hm|]. intros a. by apply Hf. Qed.
Lemma pw_if {A} (b : bool) (m1 m2 : M A) : passwordless m1 -> passwordless m2 -> passwordless (if b then m1 else m2).
Proof. by destruct b. Qed.
Lemma pw_block {A} (m : M A) : passwordless m -> passwordless (uow_block m).
Proof. intros H I HI. apply triple_block; [by apply H|done]. Qed.
Lemma pw_nested {A} (m : M A) : passwordless m -> passwordless (begin_nested m).
Proof. intros H I HI. apply triple_begin_nested; [by apply H|done]. Qed.
Lemma pw_try {A} (m : M A) h :
  passwordless m -> (forall e m', h e = Some m' -> passwordless m') -> passwordless (try_except m h).
Proof. intros Hm Hh I HI. apply triple_try; [by apply Hm|]. intros e m' He. by eapply Hh. Qed.
Lemma pw_unless_taken {A} (m : M A) e : passwordless m -> passwordless (unless_taken m e).
Proof. intros H I HI. by apply triple_unless_taken, H. Qed.
Lemma pw_for_each {A} (f : A -> M unit) l : (forall a, passwordless (f a)) -> passwordless (for_each f l).
Proof. intros H I HI. apply triple_for_each. intros a _. by apply H. Qed.
Lemma pw_commit : passwordless (commit : M unit).
Proof. intros I HI. by apply triple_commit. Qed.
Lemma pw_refuse_if b e : passwordless (refuse_if b e).
Proof. unfold refuse_if. destruct b; [apply pw_raise|apply pw_ret]. Qed.
Lemma pw_require {A} (o : option A) e : passwordless (require o e).
Proof. unfold require. destruct o; [apply pw_ret|apply pw_raise]. Qed.
Lemma pw_lift {A} (r : exn TenancyError + A) : passwordless (lift r).
Proof. unfold lift. destruct r; [apply pw_raise|apply pw_ret]. Qed.

(** Writes that leave the users as they are. *)
Lemma pw_execute {A} (f : db -> exn TenancyError + (db * A)) :
  (forall t w a, f t = inr (w, a) -> users w = users t) -> passwordless (execute f).
Proof.
  intros H I HI. apply triple_execute. intros t Ht. destruct (f t) as [e|[w a]] eqn:E; [done|].
  eapply (same_users I HI); [by eapply H|done].
Qed.
Lemma pw_write f : (forall t, users (f t) = users t) -> passwordless (write f).
Proof. intros H. apply pw_execute. by intros t w a [= <- <-]. Qed.
Lemma pw_insert {A} refused (row : db -> A) add :
  (forall a t, users (add a t) = users t) -> passwordless (insert_row refused row add).
Proof. intros H. apply pw_execute. intros t w a. destruct (refused t); [done|]. by intros [= <- <-]. Qed.

(** ** The writes of the users *)

Lemma pw_point_at hit organization : passwordless (point_at hit organization).
Proof.
  intros I HI. apply triple_execute. intros t Ht. destruct (_ && _); [done|]. by apply (rewritten_users I HI).
Qed.
Lemma pw_try_create email name organization : passwordless (try_create email name organization).
Proof.
  intros I HI. apply triple_execute. intros t Ht. cbv beta zeta. destruct (existsb _ _); [done|].
  destruct (negb _); [done|]. by apply (new_user I HI).
Qed.
Lemma pw_delete_organization organization : passwordless (delete_organization organization).
Proof.
  intros I HI. apply triple_execute. intros t Ht. destruct (_ || _); [done|].
  eapply (same_users I HI (with_users (update_where (fun _ => true) (forget_default_organization organization) (users t)) t));
    [done|]. by apply (rewritten_users I HI).
Qed.

End Credentials.

Create HintDb passwordless discriminated.
#[export] Hint Resolve pw_ret pw_raise pw_query pw_bind pw_if pw_block pw_nested pw_unless_taken pw_for_each pw_commit
  pw_refuse_if pw_require pw_lift pw_point_at pw_try_create pw_delete_organization : passwordless.

(** Prove a program sets no password by its shape. *)
Ltac passwordless :=
  repeat first
    [ progress intros
    | solve [eauto with passwordless]
    | apply pw_bind | apply pw_if | apply pw_block | apply pw_nested | apply pw_unless_taken | apply pw_for_each
    | apply pw_write; done | apply pw_insert; done
    | match goal with |- passwordless (match ?x with _ => _ end) => destruct x end ].

Section PasswordlessRequests.
Context {O : Type} {L : MembershipListener O} {RP : RequestPlane O}.
Notation db := (tenancy O).
Notation M := (M db TenancyError).

Lemma pw_tell f : passwordless (O := O) (tell f).
Proof. apply pw_execute. intros t w a. destruct (f (others t)); intros [= <- <-]; done. Qed.
Lemma pw_attribution user alias : passwordless (O := O) (get_or_create_attribution_user user alias).
Proof. apply pw_execute. intros t w a. cbv zeta. destruct (get_attribution_user _ t); by intros [= <- <-]. Qed.
Lemma pw_delete_workspace_row w : passwordless (O := O) (delete_workspace_row w).
Proof. apply pw_execute. intros t w' a. destruct (references_workspace _ _); [done|]. by intros [= <- <-]. Qed.
Hint Resolve pw_tell pw_attribution pw_delete_workspace_row : passwordless.

Lemma pw_live_active user repair : passwordless (O := O) (_live_active_organization user repair).
Proof. unfold _live_active_organization, set_active_organization. passwordless. Qed.
Lemma pw_get_active user : passwordless (O := O) (get_active_organization_for_user user).
Proof. unfold get_active_organization_for_user. apply pw_bind; [apply pw_live_active|]. passwordless. Qed.
Lemma pw_management user organization :
  passwordless (O := O) (require_active_organization_management_access user organization).
Proof. unfold require_active_organization_management_access, _require_active_membership, _enforce_management_role. passwordless. Qed.
Lemma pw_require_workspaces organization l : passwordless (O := O) (_require_workspaces_in_organization organization l).
Proof. unfold _require_workspaces_in_organization. passwordless. Qed.
Hint Resolve pw_live_active pw_get_active pw_management pw_require_workspaces : passwordless.

Lemma pw_apply_assignments user now l : passwordless (_apply_workspace_assignments user now l).
Proof.
  unfold _apply_workspace_assignments, apply_assignment, update_workspace_member, create_workspace_member. passwordless.
Qed.
Lemma pw_validate actor target d organization counts :
  passwordless (O := O) (_validate_membership_update actor target d organization counts).
Proof. unfold _validate_membership_update. passwordless. Qed.
Lemma pw_update_membership m d : passwordless (_update_membership m d).
Proof.
  unfold _update_membership, update_membership, update_status, update_invitation, _move_off_ended_membership,
    _tell_listener_workspaces_lost, set_active_organization. passwordless.
Qed.
Lemma pw_identity email organization : passwordless (O := O) (_identity_for_address email organization).
Proof. unfold _identity_for_address. passwordless. Qed.
Hint Resolve pw_apply_assignments pw_validate pw_update_membership pw_identity : passwordless.

Lemma pw_stage u o actor email role assignments hash expires_at now :
  passwordless (_stage_invitation u o actor email role assignments hash expires_at now).
Proof.
  unfold _stage_invitation, _refuse_address_vouched_elsewhere, update_status, update_invitation, create_membership,
    create_invitation. passwordless.
Qed.
Hint Resolve pw_stage : passwordless.

Lemma pw_invite_each u o actor role assignments blocked expires_at now seen l :
  passwordless (invite_each u o actor role assignments blocked expires_at now seen l).
Proof.
  revert seen. induction l as [|[raw hash] l IH]; intros seen; cbn [invite_each]; [apply pw_ret|].
  apply pw_bind; [|intros [one seen']; apply pw_bind; [apply IH|intros rest; apply pw_ret]].
  unfold invite_one. apply pw_try; [passwordless|].
  intros e m' He. destruct e as [x| | | |]; try discriminate;
    [destruct (is_conflict_or_validation x)|]; simplify_eq; apply pw_ret.
Qed.

Lemma pw_resolve_link hash now : passwordless (O := O) (_resolve_pending_invitation hash now).
Proof. unfold _resolve_pending_invitation, update_status, update_invitation. passwordless. Qed.
Lemma pw_resolve_own user member now : passwordless (O := O) (_resolve_own_pending_invitation user member now).
Proof. unfold _resolve_own_pending_invitation, update_status, update_invitation. passwordless. Qed.
Lemma pw_open invitation o : passwordless (O := O) (_open_invitation invitation o).
Proof. unfold _open_invitation. passwordless. Qed.
Lemma pw_activate i m o blocked now : passwordless (_resolve_invitation_to_active_membership i m o blocked now).
Proof.
  unfold _resolve_invitation_to_active_membership, update_status, update_invitation,
    _drop_vanished_workspace_assignments. passwordless.
Qed.
Lemma pw_add_if_absent organization user role now : passwordless (O := O) (add_if_absent organization user role now).
Proof.
  unfold add_if_absent. apply pw_try; [unfold create_membership; passwordless|].
  intros e m' He. destruct e; simplify_eq. passwordless.
Qed.
Lemma pw_managed u workspace : passwordless (O := O) (managed_workspace u workspace).
Proof.
  unfold managed_workspace, resolve_visible_workspace, resolve_workspace_in_organization,
    require_workspace_management_access. passwordless.
Qed.
Hint Resolve pw_invite_each pw_resolve_link pw_resolve_own pw_open pw_activate pw_add_if_absent pw_managed : passwordless.

(** Every request but an accepted link. *)
Lemma pw_request now r :
  match r with AcceptLink _ _ _ _ _ _ => True | _ => passwordless (serve now r) end.
Proof.
  destruct r; try done; unfold serve, void, sign_in, start_session, create_organization_for_user, delete_active_organization_for_user,
    switch_active_organization_for_user, update_active_organization_member_for_user,
    remove_active_organization_member_for_user, read_membership_change, write_membership_update, write_membership_removal,
    create_active_organization_member_for_user, invite_active_organization_member_for_user,
    invite_active_organization_members_for_user, may_invite, accept_pending_membership_for_user,
    decline_pending_membership_for_user, revoke_organization_member_invitation_for_user,
    reissue_organization_member_invitation_for_user, auto_join, active_organization_id_for_sign_in,
    _resolve_active_organization, create_workspace_for_user, _validated_name, delete_workspace, add_member, add_workspace_member,
    update_member_role, remove_member, set_active_organization, move_pointed, move_active_organization,
    _refuse_address_vouched_elsewhere, create_organization, create_membership, create_workspace, create_workspace_member,
    update_workspace_member, delete_workspace_member, update_status, update_invitation, resolve_workspace_in_organization;
    passwordless.
Qed.

End PasswordlessRequests.

Section LinkClaims.
Context {O : Type} {L : MembershipListener O} {RP : RequestPlane O}.
Notation db := (tenancy O).
Notation M := (M db TenancyError).
Implicit Types (t : db).

Definition has_password (l : list User) (i : Z) (p : string) : Prop :=
  exists u, In u l /\ user_id u = i /\ hashed_password u = Some p.

(** The passwords of [t] are those of [t0], and those of the accounts [who] says. *)
Definition passwords_from t0 (who : Z -> Prop) t : Prop :=
  (forall i p, has_password (users t) i p -> has_password (users t0) i p \/ who i)
  /\ (forall i p, has_password (users t0) i p -> has_password (users t) i p).

Lemma passwords_from_refl t0 who : passwords_from t0 who t0.
Proof. split; auto. Qed.

Lemma has_password_rewritten l p f i h :
  keeps_password f -> has_password (update_where p f l) i h <-> has_password l i h.
Proof.
  intros Hf. split.
  - intros (u & (x & Hx & ->)%update_where_In & Hi & Hh). exists x. split; [done|].
    destruct (p x); [|done]. destruct (Hf x) as [Hid Hpw]. split; congruence.
  - intros (u & Hu & Hi & Hh). exists (if p u then f u else u). split; [by apply In_update_where|].
    destruct (p u); [|done]. destruct (Hf u) as [Hid Hpw]. split; congruence.
Qed.

Lemma of_passwords_from t0 who : of_passwords (passwords_from t0 who).
Proof.
  constructor.
  - intros t t' Hu. unfold passwords_from. by rewrite Hu.
  - intros t p f Hf [H1 H2]. split; intros i h; cbn; rewrite has_password_rewritten by done; auto.
  - intros t u Hu [H1 H2]. split; intros i h; cbn.
    + intros (x & [Hx|[<-|[]]]%in_app_iff & Hi & Hh); [apply H1; by exists x|congruence].
    + intros (x & Hx & Hi & Hh)%H2. exists x. split; [|done]. apply in_app_iff. by left.
Qed.

(** An account the link of [hash] may give its first password. *)
Definition claimable (hash : string) t (i : Z) : Prop :=
  exists u v m, In u (users t) /\ user_id u = i /\ _has_never_signed_in u = true
    /\ In v (invitations t) /\ inv_token_hash v = hash /\ is_pending v = true
    /\ In m (members t) /\ om_id m = inv_member v /\ om_user m = i /\ om_status m = Invited
    /\ (forall x, In x (members t) -> om_user x = i -> om_status x = Active -> om_organization x = inv_organization v).

(** What a link resolves to, with nothing written. *)
Definition resolved hash t (r : Invitation * OrganizationMember * Organization * User) : Prop :=
  let '(v, m, o, u) := r in
  get_by_token_hash hash t = Some v /\ is_pending v = true /\ get_member (inv_member v) t = Some m
  /\ om_status m = Invited /\ get_organization (inv_organization v) t = Some o /\ get_user (om_user m) t = Some u.

Lemma triple_resolved t0 (I : db -> Prop) hash now :
  of_passwords I -> I t0 ->
  triple I (fun t => t = t0) (_resolve_pending_invitation hash now) (fun r t => t = t0 /\ resolved hash t0 r).
Proof.
  intros HI H0. assert (forall t, t = t0 -> I t) as Hst by (by intros t ->).
  unfold _resolve_pending_invitation. apply triple_query_bind. intros found. apply triple_require_bind; [naive_solver|].
  intros v ->. apply triple_refuse_bind; [naive_solver|]. intros _. apply triple_refuse_bind; [naive_solver|]. intros Hp.
  set (P := fun t => t = t0 /\ get_by_token_hash hash t = Some v).
  eapply (triple_bind _ _ _ _ (fun _ => P)).
  { apply triple_if; intros _; [|by apply triple_ret].
    apply (triple_bind _ _ _ _ (fun _ => I)); [eapply triple_pre; [|intros t [Ht _]; by apply Hst]|].
    - assert (passwordless (O := O) (update_status v Expired)) as Hq by (unfold update_status, update_invitation; passwordless).
      by apply Hq.
    - intros []. apply (triple_bind _ _ _ _ (fun _ => I)); [by apply triple_commit|]. intros []. by apply triple_fail. }
  intros []. apply triple_query_bind. intros found_m. apply triple_query_bind. intros found_o.
  apply triple_require_bind; [unfold P; naive_solver|]. intros m ->.
  apply triple_require_bind; [unfold P; naive_solver|]. intros o ->.
  apply triple_refuse_bind; [unfold P; naive_solver|]. intros Hs. apply triple_query_bind. intros found_u.
  apply triple_require_bind; [unfold P; naive_solver|]. intros u ->.
  apply triple_refuse_bind; [unfold P; naive_solver|]. intros _. apply triple_ret.
  intros t [[[[-> Hv] Hm] Ho] Hu]. apply negb_false_iff in Hp, Hs. apply bool_decide_eq_true in Hs. done.
Qed.

Lemma resolved_claimable hash t v m o u :
  resolved hash t (v, m, o, u) ->
  forall now, _invitation_may_set_password u (org_id o) now t = true -> claimable hash t (user_id u).
Proof.
  intros (Hv & Hp & Hm & Hs & Ho & Hu) now Hmay. unfold _invitation_may_set_password in Hmay.
  apply andb_prop in Hmay as [[Hnever Hact]%andb_prop _].
  apply List.find_some in Hv as [Hv Hh]. apply bool_decide_eq_true in Hh.
  apply List.find_some in Hm as [Hm Hmid]. apply List.find_some in Ho as [_ Ho]. apply List.find_some in Hu as [Hu Huid].
  reflect_bools. exists u, v, m. split_and!; try done.
  intros x Hx Hxu Hxa. destruct (Z.eq_dec (om_organization x) (inv_organization v)) as [E|E]; [done|].
  assert (existsb is_active_member
    (List.filter (fun m => negb (om_organization m =? org_id o)) (get_by_user (user_id u) t)) = true) as Hc; [|congruence].
  apply existsb_exists. exists x. split; [|by apply bool_decide_eq_true]. apply List.filter_In. split.
  - apply List.filter_In. split; [done|]. by apply Z.eqb_eq.
  - apply negb_true_iff, Z.eqb_neq. congruence.
Qed.

Lemma triple_claim t0 who hash v m o u h name terms now :
  resolved hash t0 (v, m, o, u) -> (forall i, claimable hash t0 i -> who i) ->
  triple (passwords_from t0 who) (fun t => t = t0) (claim_with_link u (org_id o) h name terms now)
    (fun _ => passwords_from t0 who).
Proof.
  intros Hr Hwho. pose proof (passwords_from_refl t0 who) as H0. unfold claim_with_link.
  apply triple_query_bind. intros allowed. apply triple_refuse_bind; [naive_solver|]. intros Ha.
  apply negb_false_iff in Ha. subst allowed.
  apply (triple_bind _ _ _ _ (fun _ => passwords_from t0 who)).
  - apply triple_execute. intros t [-> Hmay]. pose proof (resolved_claimable _ _ _ _ _ _ Hr now Hmay) as Hc.
    split; intros i p; cbn.
    + intros (x & (y & Hy & ->)%update_where_In & Hi & Hp). destruct (_ && _) eqn:E.
      * right. apply Hwho. cbn in Hi. apply andb_prop in E as [E _]. apply Z.eqb_eq in E. by rewrite <- Hi, E.
      * left. by exists y.
    + intros (y & Hy & Hi & Hp). set (hit := fun x : User => (user_id x =? user_id u) && may_claim_first_password true x).
      exists y. split; [|done].
      pose proof (In_update_where hit (with_first_password h now (chosen_name u name) terms) _ _ Hy) as Hin.
      replace (hit y) with false in Hin; [done|]. unfold hit, may_claim_first_password. rewrite Hp. by rewrite andb_false_r.
  - intros []; [by apply triple_ret|]. eapply triple_bind; [apply triple_rollback|]. intros []. by apply triple_fail.
Qed.

Lemma triple_accept t0 who hash claims blocked password name terms now :
  (forall i, is_set password = true -> claimable hash t0 i -> who i) ->
  triple (passwords_from t0 who) (fun t => t = t0)
    (accept_invitation hash claims blocked password name terms now) (fun _ => passwords_from t0 who).
Proof.
  intros Hwho. pose proof (passwords_from_refl t0 who) as H0. pose proof (of_passwords_from t0 who) as HI.
  assert (forall t, t = t0 -> passwords_from t0 who t) as Hst by (by intros t ->).
  unfold accept_invitation. apply (triple_bind _ _ _ _ (fun _ t => t = t0)).
  { destruct password as [[plain h]|]; [|by apply triple_ret]. unfold validate_new_password.
    apply (triple_bind _ _ _ _ (fun _ t => t = t0)); [|intros []; eapply triple_post; [by apply triple_refuse_if|cbv beta; tauto]].
    apply triple_if; intros _; [by apply triple_raise|by apply triple_ret]. }
  intros []. eapply triple_bind; [by apply triple_resolved|]. intros [[[v m] o] u]. cbv beta iota.
  apply triple_refuse_bind; [naive_solver|]. intros _.
  eapply triple_bind; [eapply triple_pre; [by apply triple_resolved|tauto]|]. intros [[[v' m'] o'] u']. cbv beta iota.
  apply (triple_pure _ _ (resolved hash t0 (v', m', o', u'))); [tauto|]. intros Hr.
  apply (triple_bind _ _ _ _ (fun _ => passwords_from t0 who)).
  - destruct password as [[plain h]|]; [|apply triple_ret; naive_solver].
    eapply triple_pre; [eapply triple_claim; [exact Hr|auto]|tauto].
  - intros []. apply (triple_bind _ _ _ _ (fun _ => passwords_from t0 who)); [by apply pw_activate|].
    intros x. by apply triple_ret.
Qed.

(** C11: no tenancy request changes or drops a password, and the only one that sets one is an accepted link, for the
    account it was issued to: one with no password and no proven address, which is an active member of no other
    organization. *)
Theorem only_links_claim_accounts t (s : served) :
  (forall i p, has_password (users t) i p -> has_password (users (serve_one t s)) i p)
  /\ (forall i p, has_password (users (serve_one t s)) i p ->
        has_password (users t) i p
        \/ exists hash claims blocked password name terms,
             asked s = AcceptLink hash claims blocked (Some password) name terms /\ claimable hash t i).
Proof.
  set (who := fun i => exists hash claims blocked password name terms,
         asked s = AcceptLink hash claims blocked (Some password) name terms /\ claimable hash t i).
  assert (passwords_from t who (serve_one t s)) as [H1 H2]; [|done].
  pose proof (pw_request (L := L) (RP := RP) (at_time s) (asked s)) as Hpw. unfold serve_one.
  destruct (asked s) eqn:Hs.
  9: { eapply (triple_committed _ (fun t' => t' = t) _ (fun _ => passwords_from t who)); [|apply passwords_from_refl|done]. cbn [serve].
       eapply (triple_bind _ _ _ _ (fun _ => passwords_from t who)); [|intros x; by apply triple_ret].
       apply triple_accept. intros i Hset Hc. destruct password as [p|]; [|done]. unfold who.
       by exists token_hash, claims, blocked, p, name, terms_accepted. }
  all: eapply (triple_committed _ (passwords_from t who));
    [apply Hpw, of_passwords_from|apply passwords_from_refl|apply passwords_from_refl].
Qed.

End LinkClaims.
