(* ===== verification/BlockLogic.v ===== *)
(** A Hoare logic for [UnitOfWork] that knows where a program runs: outside every block ([deep] is false), where
    each commit is final, or inside one, where an error rolls everything back.  [goes deep I X P m Q] runs [m]
    from a transaction that sees [P], keeps [I] in the database, ends in [Q] where [m] returns and in [X] where
    it raises. *)
From S2P Require Import Prelude UnitOfWork.
From stdpp Require Import base list option.
From Stdlib Require Import ZArith Lia.
Open Scope Z_scope.
Open Scope otari_scope.

Section Blocks.
Context {S E : Type}.
Implicit Types (I X P : S -> Prop) (u : UnitOfWork S E) (deep : bool).

Definition placed deep u : Prop :=
  if deep then 0 < _depth u else _depth u = 0 /\ _first_failure u = None.

Definition goes {A} deep I X P (m : M S E A) (Q : A -> S -> Prop) : Prop :=
  forall u, placed deep u -> I (committed u) -> P (pending u) ->
    placed deep (m u).1 /\ _depth (m u).1 = _depth u /\ I (committed (m u).1)
    /\ match (m u).2 with inr a => Q a (pending (m u).1) | inl _ => X (pending (m u).1) end.

(** A state that changes neither the depth nor the record of failures is placed as it was. *)
Lemma placed_same deep u u' :
  _depth u' = _depth u -> _first_failure u' = _first_failure u -> placed deep u -> placed deep u'.
Proof. intros Hd Hf. unfold placed. destruct deep; rewrite Hd, ?Hf; done. Qed.

(** ** Structure *)

Lemma goes_weaken {A} deep I X X' P P' (m : M S E A) (Q Q' : A -> S -> Prop) :
  goes deep I X' P' m Q' -> (forall t, P t -> P' t) -> (forall a t, Q' a t -> Q a t) -> (forall t, X' t -> X t) ->
  goes deep I X P m Q.
Proof.
  intros H HP HQ HX u Hu HI HPu. destruct (H u Hu HI (HP _ HPu)) as (H1 & H2 & H3 & H4). split_and!; try done.
  destruct (m u).2; auto.
Qed.

Lemma goes_pre {A} deep I X P P' (m : M S E A) Q :
  goes deep I X P' m Q -> (forall t, P t -> P' t) -> goes deep I X P m Q.
Proof. intros H HP. by eapply goes_weaken. Qed.

Lemma goes_post {A} deep I X P (m : M S E A) (Q Q' : A -> S -> Prop) :
  goes deep I X P m Q' -> (forall a t, Q' a t -> Q a t) -> goes deep I X P m Q.
Proof. intros H HQ. by eapply goes_weaken. Qed.

Lemma goes_ret {A} deep I X P (a : A) (Q : A -> S -> Prop) :
  (forall t, P t -> Q a t) -> goes deep I X P (ret a) Q.
Proof. intros H u Hu HI HP. simpl. auto. Qed.

Lemma goes_raise {A} deep I X P (e : exn E) (Q : A -> S -> Prop) :
  (forall t, P t -> X t) -> goes deep I X P (raise e) Q.
Proof. intros H u Hu HI HP. simpl. auto. Qed.

Lemma goes_bind {A B} deep I X P (m : M S E A) (f : A -> M S E B) Q R :
  goes deep I X P m Q -> (forall a, goes deep I X (Q a) (f a) R) -> goes deep I X P (bind m f) R.
Proof.
  intros Hm Hf u Hu HI HP. unfold bind. destruct (Hm u Hu HI HP) as (H1 & H2 & H3 & H4).
  destruct (m u) as [u1 [e|a]]; simpl in *; [done|]. destruct (Hf a u1 H1 H3 H4) as (? & E1 & ? & ?).
  rewrite E1. split_and!; done.
Qed.

Lemma goes_query {A} deep I X P (q : S -> A) (Q : A -> S -> Prop) :
  (forall t, P t -> Q (q t) t) -> goes deep I X P (query q) Q.
Proof. intros H u Hu HI HP. simpl. auto. Qed.

Lemma goes_query_bind {A B} deep I X P (q : S -> A) (f : A -> M S E B) R :
  (forall a, goes deep I X (fun t => P t /\ q t = a) (f a) R) -> goes deep I X P (bind (query q) f) R.
Proof. intros H. eapply goes_bind; [|exact H]. by apply goes_query. Qed.

Lemma goes_ret_bind {A B} deep I X P (a : A) (f : A -> M S E B) R :
  goes deep I X P (f a) R -> goes deep I X P (bind (ret a) f) R.
Proof. intros H u Hu HI HP. by apply H. Qed.

Lemma goes_execute {A} deep I X P (f : S -> exn E + (S * A)) (Q : A -> S -> Prop) :
  (forall t, P t -> match f t with inr (w, a) => Q a w | inl _ => X t end) -> goes deep I X P (execute f) Q.
Proof.
  intros H u Hu HI HP. unfold execute. specialize (H _ HP). destruct (f (pending u)) as [e|[w a]]; simpl; auto.
Qed.

Lemma goes_pure {A} deep I X P (Y : Prop) (m : M S E A) Q :
  (forall t, P t -> Y) -> (Y -> goes deep I X P m Q) -> goes deep I X P m Q.
Proof. intros HY H u Hu HI HP. apply H; eauto. Qed.

Lemma goes_ex {A B} deep I X (P : B -> S -> Prop) (m : M S E A) Q :
  (forall b, goes deep I X (P b) m Q) -> goes deep I X (fun t => exists b, P b t) m Q.
Proof. intros H u Hu HI [b HP]. by apply (H b). Qed.

Lemma goes_false {A} deep I X P (m : M S E A) Q : (forall t, P t -> False) -> goes deep I X P m Q.
Proof. intros H u Hu HI HP. destruct (H _ HP). Qed.

Lemma goes_if {A} deep I X P (b : bool) (m1 m2 : M S E A) Q :
  (b = true -> goes deep I X P m1 Q) -> (b = false -> goes deep I X P m2 Q) ->
  goes deep I X P (if b then m1 else m2) Q.
Proof. destruct b; auto. Qed.

Lemma goes_try {A} deep I X Y P (m : M S E A) h Q :
  goes deep I Y P m Q -> (forall t, Y t -> X t) ->
  (forall e m', h e = Some m' -> goes deep I X Y m' Q) -> goes deep I X P (try_except m h) Q.
Proof.
  intros Hm HYX Hh u Hu HI HP. unfold try_except. destruct (Hm u Hu HI HP) as (H1 & H2 & H3 & H4).
  destruct (m u) as [u1 [e|a]]; simpl in *; [|done]. destruct (h e) as [m'|] eqn:He; [|simpl; split_and!; auto].
  destruct (Hh e m' He u1 H1 H3 H4) as (? & E1 & ? & ?). rewrite E1. split_and!; done.
Qed.

(** ** Transactions *)

Lemma goes_commit deep I X P :
  (forall t, P t -> I t) -> (forall t, P t -> X t) -> goes deep I X P commit (fun _ t => P t).
Proof.
  intros H HX u Hu HI HP. unfold commit, session_commit.
  destruct u as [c p d f [|[] cs]]; simpl in *; split_and!; auto; by eapply placed_same; [..|exact Hu].
Qed.

Lemma goes_rollback deep I X P : goes deep I X P rollback (fun _ t => I t).
Proof. intros u Hu HI HP. simpl. split_and!; auto. Qed.

(** An error of the body drops what it wrote. *)
Lemma goes_begin_nested {A} deep I X P (m : M S E A) Q :
  goes deep I X P m Q -> goes deep I P P (begin_nested m) Q.
Proof.
  intros Hm u Hu HI HP. unfold begin_nested. destruct (Hm u Hu HI HP) as (H1 & H2 & H3 & H4).
  destruct (m u) as [u1 [e|a]]; simpl in *; auto.
Qed.

(** The outermost block: its body may pass through any state, its end is the database's or the body's. *)
Lemma goes_block {A} I P (m : M S E A) Q :
  goes true I (fun _ => True) P m Q -> (forall a t, Q a t -> I t) -> goes false I I P (uow_block m) Q.
Proof.
  intros Hm HQI u [Hd Hf] HI HP. unfold uow_block.
  destruct (Hm (__aenter__ u)) as (H1 & H2 & H3 & H4); [unfold placed; simpl; lia|done|done|].
  destruct (m (__aenter__ u)) as [u1 r]; simpl in *.
  unfold __aexit__, commit_or_roll_back, session_commit, placed.
  destruct u1 as [c p d f cs], r as [e|a], f as [f|]; simpl in *; subst d;
    replace (_depth u + 1 - 1) with 0 by lia; simpl; rewrite Hd; try (split_and!; eauto; done);
    destruct cs as [|[] cs]; simpl; split_and!; eauto.
Qed.

(** A block inside another commits nothing. *)
Lemma goes_inner_block {A} I X P (m : M S E A) Q :
  goes true I X P m Q -> goes true I X P (uow_block m) Q.
Proof.
  intros Hm u Hu HI HP. unfold uow_block. unfold placed in *.
  destruct (Hm (__aenter__ u)) as (H1 & H2 & H3 & H4); [unfold placed; simpl; lia|done|done|].
  destruct (m (__aenter__ u)) as [u1 r]; simpl in *. unfold __aexit__.
  destruct u1 as [c p d f cs], r as [e|a], f as [f|]; simpl in *; subst d;
    rewrite (proj2 (Z.ltb_lt 0 (_depth u + 1 - 1)) ltac:(lia)); simpl; split_and!; (lia || done).
Qed.

(** A body that keeps [I] all along, at any depth. *)
Lemma goes_any_block {A} deep I P (m : M S E A) Q :
  goes true I I P m Q -> (forall a t, Q a t -> I t) -> goes deep I I P (uow_block m) Q.
Proof.
  intros Hm HQI. destruct deep; [by apply goes_inner_block|]. apply goes_block; [|done].
  by eapply goes_weaken; [exact Hm|..].
Qed.

End Blocks.

(** What a request leaves in the database. *)
Lemma goes_committed {S E A} (I P : S -> Prop) (m : M S E A) Q (db : S) cs :
  goes false I I P m Q -> I db -> P db -> I (committed (m (fresh_uow db cs)).1).
Proof. intros H HI HP. by destruct (H (fresh_uow db cs)) as (_ & _ & ? & _). Qed.

(** An outermost block that returns has committed what its body left. *)
Lemma goes_landed {S E A} (I X : S -> Prop) (m : M S E A) (Q : A -> S -> Prop) (db : S) cs u a :
  goes true I X (eq db) m Q -> I db -> uow_block m (fresh_uow db cs) = (u, inr a) -> Q a (committed u).
Proof.
  intros Hm HI. unfold uow_block. destruct (Hm (__aenter__ (fresh_uow db cs))) as (_ & H2 & _ & H4); [done..|].
  destruct (m (__aenter__ (fresh_uow db cs))) as [u1 [e|b]]; simpl in *.
  - destruct (__aexit__ _ _) as [u2 [e'|]]; [done|]. by intros [= ].
  - unfold __aexit__, commit_or_roll_back, session_commit. destruct u1 as [c p d [f|] cs']; simpl in *; subst d; simpl.
    + by intros [= ].
    + destruct cs' as [|[] cs']; simpl; by intros [= <- <-].
Qed.
