(* ===== verification/RosterMoves.v ===== *)
(** What a tenancy request may do to the places people have (memberships, workspaces, workspace memberships) and
    to what the other domains keep for them, as a relation: each [move] is one committed change, with everything
    the listeners were told of it.  [RosterRequests] shows that every request is a run of moves. *)
From S2P Require Import Prelude Text UnitOfWork Tenancy TenancyRepositories Organizations Invitations Workspaces TransactionLogic RosterInvariant RosterSafety BlockLogic.
From stdpp Require Import base list option strings.
From Stdlib Require Import ZArith Lia Relations.
Open Scope Z_scope.
Open Scope otari_scope.

Section Moves.
Context {O : Type} {L : MembershipListener O} {RP : RequestPlane O}.
Notation db := (tenancy O).
Notation M := (M db TenancyError).
Implicit Types (t : db) (w : WorkspaceMember).

(** ** The relation *)

Definition same_places t t' : Prop :=
  members t' = members t /\ workspaces t' = workspaces t /\ workspace_members t' = workspace_members t
  /\ others t' = others t.

Definition changed (seen : OrganizationMember) (d : MembershipUpdate) t : list OrganizationMember :=
  update_where (fun m => om_id m =? om_id seen) (apply_membership_update seen d) (members t).

Definition reworked (w : WorkspaceMember) (role : MemberRole) (status : option MemberStatus) t : list WorkspaceMember :=
  update_where (fun x => wm_id x =? wm_id w) (apply_workspace_member_update w role status) (workspace_members t).

(** The workspaces a membership's change takes: all of the organization, or those its role alone reached. *)
Definition lost_ids (m : OrganizationMember) (only_inherited : bool) t : list Z :=
  let ids := get_ids_by_organization (om_organization m) t in
  let kept := get_workspace_ids_for_user (om_user m) (om_organization m) None t in
  if only_inherited then List.filter (fun i => negb (bool_decide (i ∈ kept))) ids else ids.

Definition told_lost (user : Z) (ids : list Z) t : exn TenancyError + O :=
  match ids with [] => inr (others t) | _ => member_lost_workspaces user ids (others t) end.

(** What the listener is told a person lost when [seen] becomes [m]. *)
Definition lost_told (seen m : OrganizationMember) t : exn TenancyError + O :=
  if bool_decide (om_status m = Suspended) then told_lost (om_user m) (lost_ids m false t) t
  else if is_active_member seen && MANAGEMENT_ROLES (om_role seen) && bool_decide (om_status m = Active)
          && negb (MANAGEMENT_ROLES (om_role m))
  then told_lost (om_user m) (lost_ids m true t) t
  else inr (others t).

Fixpoint each_deleted t (ids : list Z) (o : O) : exn TenancyError + O :=
  match ids with
  | [] => inr o
  | i :: ids => match workspace_deleted i (ids_for_workspace i t) o with
                | inl e => inl e
                | inr o => each_deleted t ids o
                end
  end.

(** [OrganizationMemberSettableStatus]: nobody sets a membership to [invited]. *)
Definition settable (d : MembershipUpdate) : Prop := up_status d <> Some Invited.

Inductive move : db -> db -> Prop :=
| Elsewhere t t' : same_places t t' -> move t t'
| NewMember t m : om_id m = fresh_id om_id (members t) -> move t (with_members (members t ++ [m]) t)
| WaitingChanged t seen d :
    In seen (members t) -> om_status seen <> Active -> move t (with_members (changed seen d t) t)
| LostTold t user ids o : member_lost_workspaces user ids (others t) = inr o -> move t (with_others o t)
| MemberChanged t seen d o o' :
    In seen (members t) -> settable d ->
    lost_told seen (updated seen d) t = inr o ->
    organization_member_changed (updated seen d) (get_ids_by_organization (om_organization seen) t) o = inr o' ->
    move t (with_others o' (with_members (changed seen d t) t))
| NewWorkspace t (v : Workspace) :
    ws_id v = fresh_id ws_id (workspaces t) -> move t (with_workspaces (workspaces t ++ [v]) t)
| Entered t w o :
    wm_id w = fresh_id wm_id (workspace_members t) -> wm_status w = Active ->
    get_by_workspace_and_user (wm_workspace w) (wm_user w) t = None ->
    is_Some (get_workspace (wm_workspace w) t) ->
    member_joined w (others t) = inr o ->
    move t (with_others o (with_workspace_members (workspace_members t ++ [w]) t))
| Reassigned t w role o :
    In w (workspace_members t) ->
    (if is_active_workspace_member w then inr (others t)
     else member_joined (apply_workspace_member_update w role (Some Active) w) (others t)) = inr o ->
    move t (with_others o (with_workspace_members (reworked w role (Some Active) t) t))
| RoleChanged t w role o :
    In w (workspace_members t) ->
    member_role_changed (apply_workspace_member_update w role None w) (others t) = inr o ->
    move t (with_others o (with_workspace_members (reworked w role None t) t))
| Departed t w o :
    In w (workspace_members t) -> member_removed w (others t) = inr o ->
    move t (with_others o (with_workspace_members
                             (List.filter (fun x => negb (wm_id x =? wm_id w)) (workspace_members t)) t))
| WorkspaceDeleted t workspace o :
    workspace_deleted workspace (ids_for_workspace workspace t) (others t) = inr o ->
    references_workspace o workspace = false ->
    move t (with_others (cascade_workspace workspace o)
              (with_workspace_members (List.filter (fun x => negb (wm_workspace x =? workspace)) (workspace_members t))
                 (with_workspaces (List.filter (fun x => negb (ws_id x =? workspace)) (workspaces t)) t)))
| OrganizationDeleted t organization o :
    each_deleted t (get_ids_by_organization organization t) (others t) = inr o ->
    existsb (references_workspace o) (get_ids_by_organization organization t) = false ->
    move t (cascade_organization organization (with_others o t)).

(** ** Keys are unique *)

Definition tidy t : Prop :=
  List.NoDup (map om_id (members t)) /\ List.NoDup (map ws_id (workspaces t))
  /\ List.NoDup (map wm_id (workspace_members t)).

Lemma move_tidy t t' : move t t' -> tidy t -> tidy t'.
Proof.
  intros Hm (H1 & H2 & H3). destruct Hm as [? ? (E1 & E2 & E3 & _)| | | | | | | | | | |]; unfold tidy; cbn;
    rewrite ?E1, ?E2, ?E3; unfold changed, reworked; rewrite ?map_update_where by done;
    split_and!; try done; auto using fresh_id_NoDup, NoDup_map_filter.
Qed.

Definition moves : db -> db -> Prop := clos_refl_trans db move.

Lemma moves_tidy t t' : moves t t' -> tidy t -> tidy t'.
Proof. induction 1; eauto using move_tidy. Qed.

(** A fact that each move keeps. *)
Lemma moves_keep (J : db -> Prop) :
  (forall t t', move t t' -> tidy t -> J t -> J t') -> forall t t', moves t t' -> tidy t -> J t -> J t'.
Proof. intros H t t' Hs. induction Hs; eauto using moves_tidy. Qed.

(** Rows in place. *)
Lemma In_reworked w role status t x :
  List.NoDup (map wm_id (workspace_members t)) -> In w (workspace_members t) ->
  In x (reworked w role status t) <->
  x = apply_workspace_member_update w role status w \/ (In x (workspace_members t) /\ wm_id x <> wm_id w).
Proof.
  intros Hn Hw. unfold reworked. split.
  - intros (y & Hy & ->)%update_where_In. destruct (wm_id y =? wm_id w) eqn:E; reflect_bools; [|by right].
    left. by rewrite (same_key wm_id _ _ _ Hn Hy Hw E).
  - set (p := fun x => wm_id x =? wm_id w). set (f := apply_workspace_member_update w role status).
    intros [->|[Hx Hne]].
    + pose proof (In_update_where p f _ _ Hw) as H. unfold p in H. by rewrite Z.eqb_refl in H.
    + pose proof (In_update_where p f _ _ Hx) as H. unfold p in H. by rewrite (proj2 (Z.eqb_neq _ _) Hne) in H.
Qed.

End Moves.

(** * The rules of [BlockLogic] for the combinators of the tenancy services, and the programs that leave the places
    of [RosterMoves] as they are. *)

(** ** Programs that leave the places *)

Section Steady.
Context {O : Type}.
Notation db := (tenancy O).
Notation M := (M db TenancyError).
Implicit Types (I X P : db -> Prop) (t : db).

Definition of_places P : Prop := forall t t', same_places t t' -> P t -> P t'.

Definition steady {A} (m : M A) : Prop :=
  forall deep I X P, of_places P -> (forall t, P t -> X t) -> goes deep I X P m (fun _ => P).

Lemma steady_execute {A} (f : db -> exn TenancyError + (db * A)) :
  (forall t v a, f t = inr (v, a) -> same_places t v) -> steady (execute f).
Proof.
  intros H deep I X P HP HX. apply goes_execute. intros t Ht. destruct (f t) as [e|[v a]] eqn:E; [by apply HX|].
  by apply (HP t); [apply (H _ _ _ E)|].
Qed.

Lemma steady_ret {A} (a : A) : steady (ret a).
Proof. intros deep I X P HP HX. by apply goes_ret. Qed.
Lemma steady_raise {A} (e : exn TenancyError) : steady (raise e : M A).
Proof. intros deep I X P HP HX. by apply goes_raise. Qed.
Lemma steady_query {A} (q : db -> A) : steady (query q).
Proof. intros deep I X P HP HX. by apply goes_query. Qed.
Lemma steady_bind {A B} (m : M A) (f : A -> M B) : steady m -> (forall a, steady (f a)) -> steady (bind m f).
Proof. intros Hm Hf deep I X P HP HX. eapply goes_bind; [by apply Hm|]. intros a. by apply Hf. Qed.
Lemma steady_if {A} (b : bool) (m1 m2 : M A) : steady m1 -> steady m2 -> steady (if b then m1 else m2).
Proof. by destruct b. Qed.
Lemma steady_for_each {A} (f : A -> M unit) l : (forall a, steady (f a)) -> steady (for_each f l).
Proof. intros H. induction l as [|a l IH]; [apply steady_ret|]. apply steady_bind; [apply H|]. done. Qed.
Lemma steady_refuse_if b e : steady (refuse_if b e : M unit).
Proof. unfold refuse_if. destruct b; [apply steady_raise|apply steady_ret]. Qed.
Lemma steady_require {A} (o : option A) e : steady (require o e : M A).
Proof. unfold require. destruct o; [apply steady_ret|apply steady_raise]. Qed.
Lemma steady_lift {A} (r : exn TenancyError + A) : steady (lift r : M A).
Proof. unfold lift. destruct r; [apply steady_raise|apply steady_ret]. Qed.

(** A steady program first, then the rest. *)
Lemma goes_steady_bind {A B} deep I X P (m : M A) (f : A -> M B) Q :
  steady m -> of_places P -> (forall t, P t -> X t) -> (forall a, goes deep I X P (f a) Q) ->
  goes deep I X P (bind m f) Q.
Proof. intros Hm HP HX Hf. eapply goes_bind; [by apply Hm|]. done. Qed.

Lemma goes_refuse_bind {A} deep I X P b e (k : M A) Q :
  (forall t, P t -> X t) -> (b = false -> goes deep I X P k Q) -> goes deep I X P (refuse_if b e ;;; k) Q.
Proof.
  intros HX H. unfold refuse_if. destruct b; [|by apply goes_ret_bind, H].
  eapply goes_bind; [by apply goes_raise|]. instantiate (1 := fun _ _ => False). intros a. by apply goes_false.
Qed.

Lemma goes_require_bind {A B} deep I X P (o : option A) e (f : A -> M B) Q :
  (forall t, P t -> X t) -> (forall a, o = Some a -> goes deep I X P (f a) Q) ->
  goes deep I X P (bind (require o e) f) Q.
Proof.
  intros HX H. unfold require. destruct o; [by apply goes_ret_bind, H|].
  eapply goes_bind; [by apply goes_raise|]. instantiate (1 := fun _ _ => False). intros a. by apply goes_false.
Qed.

Lemma goes_tell deep I X P f (Q : unit -> db -> Prop) :
  (forall t, P t -> X t) -> (forall t o, P t -> f (others t) = inr o -> Q tt (with_others o t)) ->
  goes deep I X P (tell f) Q.
Proof.
  intros HX H. apply goes_execute. intros t Ht. destruct (f (others t)) as [e|o] eqn:E; [by apply HX|by apply H].
Qed.

Lemma goes_write deep I X P f (Q : unit -> db -> Prop) :
  (forall t, P t -> Q tt (f t)) -> goes deep I X P (write f) Q.
Proof. intros H. apply goes_execute. auto. Qed.

Lemma goes_insert {A} deep I X P refused row add (Q : A -> db -> Prop) :
  (forall t, P t -> X t) ->
  (forall t, P t -> refused t = false -> Q (row t) (add (row t) t)) ->
  goes deep I X P (insert_row refused row add) Q.
Proof. intros HX H. apply goes_execute. intros t HP. destruct (refused t) eqn:E; [by apply HX|by apply H]. Qed.

Lemma goes_for_each {A} deep I X P (f : A -> M unit) l :
  (forall a, In a l -> goes deep I X P (f a) (fun _ => P)) -> goes deep I X P (for_each f l) (fun _ => P).
Proof.
  induction l as [|a l IH]; intros H; simpl; [by apply goes_ret|].
  eapply goes_bind; [apply H; by left|]. intros []. apply IH. intros b Hb. apply H. by right.
Qed.

Lemma goes_unless_taken {A} deep I X P (m : M A) e Q :
  goes deep I X P m Q -> goes deep I X P (unless_taken m e) Q.
Proof.
  intros H. unfold unless_taken. eapply goes_try; [exact H|done|]. intros [] m' [= <-]. by apply goes_raise.
Qed.

Lemma same_places_refl t : same_places t t.
Proof. done. Qed.

Lemma same_places_trans t1 t2 t3 : same_places t1 t2 -> same_places t2 t3 -> same_places t1 t3.
Proof. unfold same_places. intros (-> & -> & -> & ->). auto. Qed.

End Steady.

Create HintDb steady discriminated.
#[export] Hint Resolve steady_ret steady_raise steady_query steady_bind steady_if steady_for_each steady_refuse_if
  steady_require steady_lift : steady.

(** Prove a program steady by its shape. *)
Ltac steady :=
  repeat first
    [ progress intros
    | solve [eauto with steady]
    | apply steady_bind | apply steady_if | apply steady_for_each
    | match goal with |- steady (match ?x with _ => _ end) => destruct x end ].

(** A write whose branches keep the places by computation. *)
Ltac steady_write :=
  apply steady_execute; intros ? ? ?; cbv beta zeta;
  repeat match goal with |- context [match ?b with _ => _ end] => destruct b end; intros [= <- <-]; done.

(** A fact of the places, by its shape. *)
Ltac places :=
  let E1 := fresh in let E2 := fresh in let E3 := fresh in let E4 := fresh in
  intros ? ? (E1 & E2 & E3 & E4); rewrite ?E1, ?E2, ?E3, ?E4; try done.

Section SteadyPrograms.
Context {O : Type}.
Notation M := (M (tenancy O) TenancyError).

Lemma steady_point_at hit organization : steady (O := O) (point_at hit organization).
Proof. steady_write. Qed.
Lemma steady_set_active user organization : steady (O := O) (set_active_organization user organization).
Proof. apply steady_point_at. Qed.
Lemma steady_try_create email name organization : steady (O := O) (try_create email name organization).
Proof. steady_write. Qed.
Lemma steady_create_organization name slug by_user : steady (O := O) (create_organization name slug by_user).
Proof. steady_write. Qed.
Lemma steady_claim u h r n name terms : steady (O := O) (claim_first_password u h r n name terms).
Proof. steady_write. Qed.
Lemma steady_create_invitation o m e b h a x n : steady (O := O) (create_invitation o m e b h a x n).
Proof. steady_write. Qed.
Lemma steady_update_invitation i f : steady (O := O) (update_invitation i f).
Proof. steady_write. Qed.
Lemma steady_update_status i s : steady (O := O) (update_status i s).
Proof. apply steady_update_invitation. Qed.
Lemma steady_attribution u alias : steady (O := O) (get_or_create_attribution_user u alias).
Proof. steady_write. Qed.
Hint Resolve steady_point_at steady_set_active steady_try_create steady_create_organization steady_claim
  steady_create_invitation steady_update_invitation steady_update_status steady_attribution : steady.

Lemma steady_live_active user repair : steady (O := O) (_live_active_organization user repair).
Proof. unfold _live_active_organization. steady. Qed.
Lemma steady_get_active user : steady (O := O) (get_active_organization_for_user user).
Proof. unfold get_active_organization_for_user. apply steady_bind; [apply steady_live_active|]. steady. Qed.
Lemma steady_management user organization :
  steady (O := O) (require_active_organization_management_access user organization).
Proof. unfold require_active_organization_management_access, _require_active_membership, _enforce_management_role. steady. Qed.
Lemma steady_require_workspaces organization l : steady (O := O) (_require_workspaces_in_organization organization l).
Proof. unfold _require_workspaces_in_organization. steady. Qed.
Lemma steady_drop organization l : steady (O := O) (_drop_vanished_workspace_assignments organization l).
Proof. unfold _drop_vanished_workspace_assignments. steady. Qed.
Lemma steady_identity email organization : steady (O := O) (_identity_for_address email organization).
Proof. unfold _identity_for_address. steady. Qed.
Lemma steady_move_off m : steady (O := O) (_move_off_ended_membership m).
Proof. unfold _move_off_ended_membership. steady. Qed.
Lemma steady_validate actor target d organization counts :
  steady (O := O) (_validate_membership_update actor target d organization counts).
Proof. unfold _validate_membership_update. steady. Qed.
Lemma steady_move_pointed caller organization fallback t :
  steady (O := O) (move_pointed caller organization fallback t).
Proof. unfold move_pointed. steady. Qed.
Lemma steady_vouched target m email : steady (O := O) (_refuse_address_vouched_elsewhere target m email).
Proof. unfold _refuse_address_vouched_elsewhere. steady. Qed.
Lemma steady_password p : steady (validate_new_password p : M unit).
Proof. unfold validate_new_password. steady. Qed.
Hint Resolve steady_live_active steady_get_active steady_management steady_require_workspaces steady_drop steady_identity
  steady_move_off steady_validate steady_move_pointed steady_vouched steady_password : steady.

Lemma steady_resolve_workspace u workspace organization :
  steady (O := O) (resolve_workspace_in_organization u workspace organization).
Proof. unfold resolve_workspace_in_organization. steady. Qed.
Lemma steady_open invitation organization : steady (O := O) (_open_invitation invitation organization).
Proof. unfold _open_invitation. steady. Qed.
Lemma steady_may_invite u role l : steady (O := O) (may_invite u role l).
Proof. unfold may_invite. steady. Qed.
Hint Resolve steady_resolve_workspace steady_open steady_may_invite : steady.

Lemma steady_managed_workspace u workspace : steady (O := O) (managed_workspace u workspace).
Proof.
  unfold managed_workspace, resolve_visible_workspace, require_workspace_management_access. steady.
Qed.
Lemma steady_read_change u member : steady (O := O) (read_membership_change u member).
Proof. unfold read_membership_change. steady. Qed.

End SteadyPrograms.

#[export] Hint Resolve steady_point_at steady_set_active steady_try_create steady_create_organization steady_claim
  steady_create_invitation steady_update_invitation steady_update_status steady_attribution steady_live_active
  steady_get_active steady_management steady_require_workspaces steady_drop steady_identity steady_move_off
  steady_validate steady_move_pointed steady_vouched steady_password steady_resolve_workspace steady_open
  steady_may_invite steady_managed_workspace steady_read_change : steady.

(** * Every request of the tenancy services is a run of [RosterMoves.move]s, whatever it answers and however its
    commits end. *)

Section Refinement.
Context {O : Type} {L : MembershipListener O} {RP : RequestPlane O}.
Notation db := (tenancy O).
Notation M := (M db TenancyError).
Implicit Types (t b : db) (w : WorkspaceMember).

(** The database a run starts from. *)
Context (t0 : db).

(** Reached by moves, with unique keys. *)
Definition reached t : Prop := moves t0 t /\ tidy t.

Lemma reached_move t t' : reached t -> move t t' -> reached t'.
Proof. intros [Hs Ht] Hm. split; [|by eapply move_tidy]. eapply rt_trans; [exact Hs|]. by apply rt_step. Qed.

Lemma reached_places : of_places reached.
Proof. intros t t' H Hr. eapply reached_move; [exact Hr|]. by apply Elsewhere. Qed.

Lemma reached_and (P : db -> Prop) : of_places P -> of_places (fun t => reached t /\ P t).
Proof. intros HP t t' H [Hr Hp]. split; [by apply (reached_places t)|by apply (HP t)]. Qed.

Hint Resolve reached_places : core.

(** ** Programs whose every statement is a move *)

Definition walks {A} (m : M A) : Prop := forall deep, goes deep reached reached reached m (fun _ => reached).

Lemma walks_steady {A} (m : M A) : steady m -> walks m.
Proof. intros H deep. by apply H. Qed.
Lemma walks_bind {A B} (m : M A) (f : A -> M B) : walks m -> (forall a, walks (f a)) -> walks (bind m f).
Proof. intros Hm Hf deep. eapply goes_bind; [apply Hm|]. intros a. apply Hf. Qed.
Lemma walks_if {A} (b : bool) (m1 m2 : M A) : walks m1 -> walks m2 -> walks (if b then m1 else m2).
Proof. by destruct b. Qed.
Lemma walks_commit : walks commit.
Proof. intros deep. by apply goes_commit. Qed.
Lemma walks_rollback : walks rollback.
Proof. intros deep. apply goes_rollback. Qed.
Lemma walks_block {A} (m : M A) : walks m -> walks (uow_block m).
Proof. intros H deep. by apply goes_any_block. Qed.
Lemma walks_for_each {A} (f : A -> M unit) l : (forall a, walks (f a)) -> walks (for_each f l).
Proof. intros H deep. apply goes_for_each. intros a _. apply H. Qed.
Lemma walks_unless_taken {A} (m : M A) e : walks m -> walks (unless_taken m e).
Proof. intros H deep. by apply goes_unless_taken. Qed.
Lemma walks_nested {A} (m : M A) : walks m -> walks (begin_nested m).
Proof. intros H deep. eapply goes_begin_nested, H. Qed.
Lemma walks_try {A} (m : M A) h : walks m -> (forall e m', h e = Some m' -> walks m') -> walks (try_except m h).
Proof. intros Hm Hh deep. eapply goes_try; [apply Hm|done|]. intros e m' He. by apply (Hh e). Qed.

(** A query whose answer the rest needs. *)
Lemma walks_query_bind {A B} (q : db -> A) (f : A -> M B) :
  (forall deep a, goes deep reached reached (fun t => reached t /\ q t = a) (f a) (fun _ => reached)) ->
  walks (bind (query q) f).
Proof. intros H deep. by apply goes_query_bind. Qed.

(** A walk, from a place where more is known. *)
Lemma walks_from {A} deep (P : db -> Prop) (m : M A) :
  walks m -> (forall t, P t -> reached t) -> goes deep reached reached P m (fun _ => reached).
Proof. intros H HP. eapply goes_pre; [apply H|done]. Qed.

End Refinement.

Create HintDb walks discriminated.
#[export] Hint Resolve walks_steady walks_bind walks_if walks_commit walks_rollback walks_block walks_for_each
  walks_unless_taken walks_nested : walks.

(** Prove a program a walk by its shape. *)
Ltac walk :=
  repeat first
    [ progress intros
    | solve [eauto with walks steady]
    | apply walks_bind | apply walks_if | apply walks_block | apply walks_for_each | apply walks_unless_taken
    | apply walks_nested
    | match goal with |- walks _ (match ?x with _ => _ end) => destruct x end ].

(** ** Memberships *)

Section Memberships.
Context {O : Type} {L : MembershipListener O} {RP : RequestPlane O}.
Notation db := (tenancy O).
Notation M := (M db TenancyError).
Context (t0 : db).
Notation reached := (reached t0).
Notation walks := (walks t0).
Implicit Types (t b : db).

Lemma walks_create_membership organization user role status now :
  walks (create_membership organization user role status now).
Proof. intros deep. apply goes_insert; [done|]. intros t Ht _. eapply reached_move; [exact Ht|]. by apply NewMember. Qed.

(** A new membership, and the row it is. *)
Lemma goes_create_membership deep organization user role status now :
  goes deep reached reached reached (create_membership organization user role status now)
    (fun m t => reached t /\ In m (members t)).
Proof.
  apply goes_insert; [done|]. intros t Ht _. split; [eapply reached_move; [exact Ht|]; by apply NewMember|].
  cbn. rewrite in_app_iff. simpl. auto.
Qed.

Lemma walks_lost m only : walks (_tell_listener_workspaces_lost m only).
Proof.
  unfold _tell_listener_workspaces_lost. apply walks_block. apply walks_bind; [walk|]. intros ids.
  apply walks_bind; [walk|]. intros kept. cbv zeta. destruct (if only then _ else _) as [|i l]; [walk|].
  intros deep. apply goes_tell; [done|]. intros t o Ht Ho. eapply reached_move; [exact Ht|]. by eapply LostTold.
Qed.

(** The row an UPDATE leaves. *)
Lemma get_changed seen d t :
  List.NoDup (map om_id (members t)) -> In seen (members t) ->
  get_member (om_id seen) (with_members (changed seen d t) t) = Some (updated seen d).
Proof.
  intros Hn Hs. unfold get_member. cbn. destruct (List.find _ _) as [x|] eqn:E.
  - apply List.find_some in E as [Hx Hid]. reflect_bools. unfold changed in Hx.
    apply In_members_update in Hx as [->|[_ ?]]; done.
  - apply List.find_none with (x := updated seen d) in E; [|by apply In_members_update; [..|left]].
    cbn in E. by rewrite Z.eqb_refl in E.
Qed.

(** A membership that waits or is suspended may become anything. *)
Lemma goes_update_waiting deep seen d :
  goes deep reached reached (fun t => reached t /\ In seen (members t) /\ om_status seen <> Active)
    (_update_membership seen d) (fun _ => reached).
Proof.
  unfold _update_membership. eapply goes_bind.
  - unfold update_membership. eapply goes_bind.
    + apply goes_write. instantiate (1 := fun _ => reached). intros t (Ht & Hin & Hst).
      eapply reached_move; [exact Ht|]. by apply WaitingChanged.
    + intros []. apply (walks_from t0 _ reached); [walk|done].
  - intros m. cbv beta. apply (walks_from t0 _ reached); [|done].
    apply walks_bind; [walk|]. intros []. apply walks_bind; [|walk].
    destruct (bool_decide _); [apply walks_bind; [walk|]; intros []; apply walks_lost|].
    destruct (_ && _); [apply walks_lost|walk].
Qed.

(** ** The change of an active membership: the update and what the listeners are told are one move *)

Definition before (seen : OrganizationMember) (ids : list Z) b : Prop :=
  reached b /\ In seen (members b) /\ get_ids_by_organization (om_organization seen) b = ids.

(** Nothing told yet. *)
Definition rewritten seen d ids t : Prop :=
  exists b, before seen ids b /\ same_places (with_members (changed seen d b) b) t.

(** The workspaces lost, told. *)
Definition half_told seen d ids t : Prop :=
  exists b o, before seen ids b /\ lost_told seen (updated seen d) b = inr o
              /\ same_places (with_others o (with_members (changed seen d b) b)) t.

Lemma rewritten_places seen d ids : of_places (rewritten seen d ids).
Proof. intros t t' H (b & Hb & Hs). exists b. split; [done|]. by eapply same_places_trans. Qed.

Lemma half_told_places seen d ids : of_places (half_told seen d ids).
Proof. intros t t' H (b & o & Hb & Ho & Hs). exists b, o. split_and!; [done|done|]. by eapply same_places_trans. Qed.

Notation inside P m Q := (goes true reached (fun _ => True) P m Q).

(** What is lost does not depend on the memberships. *)
Lemma lost_told_same seen m t t' :
  workspaces t' = workspaces t -> workspace_members t' = workspace_members t -> others t' = others t ->
  lost_told seen m t' = lost_told seen m t.
Proof.
  intros E1 E2 E3. unfold lost_told, told_lost, lost_ids, get_ids_by_organization, get_workspace_ids_for_user,
    workspace_in, get_workspace. by rewrite E1, E2, E3.
Qed.

Lemma rewritten_told seen d ids t o :
  rewritten seen d ids t -> lost_told seen (updated seen d) t = inr o -> half_told seen d ids (with_others o t).
Proof.
  intros (b & Hb & E1 & E2 & E3 & E4) Hl. exists b, o. cbn in *. split_and!; [done| |done].
  rewrite <- Hl. symmetry. by apply lost_told_same.
Qed.

Lemma inside_tell_lost seen d ids only :
  (forall t, lost_told seen (updated seen d) t
             = told_lost (om_user (updated seen d)) (lost_ids (updated seen d) only t) t) ->
  inside (rewritten seen d ids) (_tell_listener_workspaces_lost (updated seen d) only) (fun _ => half_told seen d ids).
Proof.
  intros Hl. unfold _tell_listener_workspaces_lost. apply goes_inner_block.
  apply goes_query_bind. intros all. apply goes_query_bind. intros kept. cbv zeta.
  apply (goes_pre _ _ _ _ (fun t => rewritten seen d ids t
    /\ lost_ids (updated seen d) only t
       = (if only then List.filter (fun i => negb (bool_decide (i ∈ kept))) all else all))).
  2: { intros t [[Hr <-] <-]. split; [done|]. by destruct only. }
  destruct (if only then _ else _) as [|i l].
  - apply goes_ret. intros t [Hr Hi]. assert (t = with_others (others t) t) as -> by by destruct t.
    apply rewritten_told; [done|]. rewrite Hl. unfold told_lost. by rewrite Hi.
  - apply goes_tell; [done|]. intros t o [Hr Hi] Ho. apply rewritten_told; [done|].
    rewrite Hl. unfold told_lost. by rewrite Hi.
Qed.

(** The update of a membership inside a block, everything lost told. *)
Lemma inside_update seen d ids :
  inside (before seen ids) (_update_membership seen d)
    (fun m t => m = updated seen d /\ half_told seen d ids t).
Proof.
  unfold _update_membership. eapply goes_bind.
  - unfold update_membership. eapply goes_bind.
    + apply goes_write. instantiate (1 := fun _ t => rewritten seen d ids t /\ get_member (om_id seen) t = Some (updated seen d)).
      intros t Ht. split; [by exists t|]. destruct Ht as ([_ (Hn & _)] & Hin & _). by apply get_changed.
    + intros []. apply goes_query_bind. intros [m|].
      * apply goes_ret. intros t ([Hr Hm] & Hq). instantiate (1 := fun m t => m = updated seen d /\ rewritten seen d ids t).
        split; [congruence|done].
      * by apply goes_raise.
  - intros m. cbv beta. apply (goes_pure _ _ _ _ (m = updated seen d)); [by intros t []|]. intros ->.
    apply (goes_pre _ _ _ _ (rewritten seen d ids)); [|by intros t []].
    apply goes_steady_bind; [steady|apply rewritten_places|done|]. intros [].
    apply (goes_bind _ _ _ _ _ _ (fun _ => half_told seen d ids));
      [|intros []; apply goes_ret; intros t Ht; by split].
    unfold lost_told in *. destruct (bool_decide (om_status (updated seen d) = Suspended)) eqn:Es.
    + apply goes_steady_bind; [steady|apply rewritten_places|done|]. intros []. apply inside_tell_lost.
      intros t. unfold lost_told. by rewrite Es.
    + destruct (is_active_member seen && MANAGEMENT_ROLES (om_role seen) && _ && _) eqn:Em.
      * apply inside_tell_lost. intros t. unfold lost_told. by rewrite Es, Em.
      * apply goes_ret. intros t Ht. assert (t = with_others (others t) t) as -> by by destruct t.
        apply rewritten_told; [done|]. unfold lost_told. by rewrite Es, Em.
Qed.

(** The change is told last, and the whole is one move. *)
Lemma told_reached seen d ids t o :
  settable d -> half_told seen d ids t -> organization_member_changed (updated seen d) ids (others t) = inr o ->
  reached (with_others o t).
Proof.
  intros Hd (b & o' & (Hr & Hin & <-) & Hl & E1 & E2 & E3 & E4) Ho. cbn in *. rewrite E4 in Ho.
  eapply reached_places; [|eapply reached_move; [exact Hr|by eapply MemberChanged]].
  by split_and!.
Qed.

Lemma walks_write_update organization actor target d :
  settable d ->
  goes false reached reached (fun t => reached t /\ In target (members t) /\ om_organization target = org_id organization)
    (write_membership_update organization actor target d) (fun _ => reached).
Proof.
  intros Hd. unfold write_membership_update.
  apply goes_steady_bind; [steady|by apply reached_and; places|tauto|]. intros [].
  apply goes_block with (Q := fun _ => reached); [|done]. apply goes_query_bind. intros ids.
  apply (goes_pre _ _ _ _ (before target ids)); [|intros t ((? & ? & E) & <-); unfold before; by rewrite E].
  eapply goes_bind; [apply inside_update|]. intros m. cbv beta.
  apply (goes_pure _ _ _ _ (m = updated target d)); [by intros t []|]. intros ->.
  apply (goes_pre _ _ _ _ (half_told target d ids)); [|by intros t []].
  apply goes_query_bind. intros u. apply goes_require_bind; [done|]. intros u' _.
  apply (goes_bind _ _ _ _ _ _ (fun _ => reached)); [|intros []; by apply goes_ret].
  apply goes_tell; [done|]. intros t o [Ht _]. by apply told_reached.
Qed.

Lemma walks_write_removal organization actor target :
  goes false reached reached (fun t => reached t /\ In target (members t) /\ om_organization target = org_id organization)
    (write_membership_removal organization actor target) (fun _ => reached).
Proof.
  unfold write_membership_removal.
  apply goes_steady_bind; [steady|by apply reached_and; places|tauto|]. intros [].
  apply goes_block with (Q := fun _ => reached); [|done]. apply goes_query_bind. intros ids.
  apply (goes_pre _ _ _ _ (before target ids)); [|intros t ((? & ? & E) & <-); unfold before; by rewrite E].
  eapply goes_bind; [apply inside_update|]. intros m. cbv beta.
  apply (goes_pure _ _ _ _ (m = updated target suspension)); [by intros t []|]. intros ->.
  apply goes_tell; [done|]. intros t o [_ Ht]. by apply told_reached.
Qed.

End Memberships.
