(* ===== verification/RosterRequests.v ===== *)
(** Each request of the tenancy services as a run of moves.  First the changes of workspaces and of their
    memberships: a statement and what the listeners are told of it lie in one block, at whose end the move is made. *)
From S2P Require Import Prelude Text UnitOfWork Tenancy TenancyRepositories Organizations Invitations Workspaces TransactionLogic RosterInvariant RosterSafety BlockLogic RosterMoves.
From stdpp Require Import base list option strings.
From Stdlib Require Import ZArith Lia Relations.
Open Scope Z_scope.
Open Scope otari_scope.

(** ** Rows found by a key, after a change of other rows *)

Lemma find_update_where {A} (p q : A -> bool) (f : A -> A) l :
  (forall x, In x l -> q x = true -> p x = false /\ p (f x) = false) ->
  List.find p (update_where q f l) = List.find p l.
Proof.
  induction l as [|x l IH]; intros H; [done|]. cbn [update_where map List.find].
  rewrite <- IH by (intros y Hy; apply H; by right). destruct (q x) eqn:E; [|done].
  destruct (H x (or_introl eq_refl) E) as [-> ->]. done.
Qed.

Lemma find_app_other {A} (p : A -> bool) l x : p x = false -> List.find p (l ++ [x]) = List.find p l.
Proof. intros Hx. induction l as [|y l IH]; cbn; [by rewrite Hx|]. by rewrite IH. Qed.

(** ** The workspaces wanted are distinct *)

Definition above (a : WorkspaceAssignmentRequest) (l : list WorkspaceAssignmentRequest) : Prop :=
  forall b, In b l -> wa_workspace a < wa_workspace b.
Inductive ascending : list WorkspaceAssignmentRequest -> Prop :=
| ascending_nil : ascending []
| ascending_cons a l : above a l -> ascending l -> ascending (a :: l).

Lemma insert_wanted_In a b l : In b (insert_wanted a l) -> b = a \/ In b l.
Proof.
  induction l as [|c l IH]; cbn; [intuition congruence|].
  destruct (_ =? _); [|destruct (_ <? _)]; cbn; intuition congruence.
Qed.

Lemma insert_wanted_ascending a l : ascending l -> ascending (insert_wanted a l).
Proof.
  induction 1 as [|b l Hb Hl IH]; cbn; [by constructor; [intros ?|constructor]|].
  destruct (_ =? _) eqn:E1; [|destruct (_ <? _) eqn:E2]; reflect_bools.
  - constructor; [|done]. intros c Hc. specialize (Hb c Hc). lia.
  - constructor; [|by constructor]. intros c [<-|Hc]; [lia|]. specialize (Hb c Hc). lia.
  - constructor; [|done]. intros c [->|Hc]%insert_wanted_In; [lia|]. by apply Hb.
Qed.

Lemma wanted_ascending l : ascending (wanted l).
Proof. induction l; [constructor|]. by apply insert_wanted_ascending. Qed.

Section Places.
Context {O : Type} {L : MembershipListener O} {RP : RequestPlane O}.
Notation db := (tenancy O).
Notation M := (M db TenancyError).
Context (t0 : db).
Notation reached := (reached t0).
Notation walks := (walks t0).
Notation inside P m Q := (goes true reached (fun _ => True) P m Q).
Implicit Types (t b : db) (w : WorkspaceMember).

(** ** A new workspace membership *)

(** Inserted, and nobody told. *)
Definition entering (P : db -> Prop) w t : Prop :=
  exists b, reached b /\ P b /\ wm_id w = fresh_id wm_id (workspace_members b) /\ wm_status w = Active
            /\ get_by_workspace_and_user (wm_workspace w) (wm_user w) b = None
            /\ is_Some (get_workspace (wm_workspace w) b)
            /\ same_places (with_workspace_members (workspace_members b ++ [w]) b) t.

Definition entered (P : db -> Prop) w t : Prop :=
  reached t /\ exists b, P b /\ workspaces t = workspaces b /\ workspace_members t = workspace_members b ++ [w].

Lemma inside_create_member P workspace user role now :
  inside (fun t => reached t /\ P t) (create_workspace_member workspace user role now)
    (fun w t => wm_workspace w = workspace /\ wm_user w = user /\ entering P w t).
Proof.
  apply goes_insert; [done|]. intros t [Ht HP] Hr. split_and!; [done..|]. exists t.
  apply orb_false_iff in Hr as [[H1 H2]%orb_false_iff _]. split_and!; try done; cbn.
  - by destruct (get_by_workspace_and_user workspace user t).
  - by destruct (get_workspace workspace t).
Qed.

Lemma inside_joined P w :
  inside (entering P w) (tell (member_joined w)) (fun _ => entered P w).
Proof.
  apply goes_tell; [done|]. intros t o (b & Hr & HP & Hid & Ha & Hn & Hw & E1 & E2 & E3 & E4) Ho. cbn in *.
  split; [|by exists b]. rewrite E4 in Ho.
  eapply reached_places; [|eapply reached_move; [exact Hr|by eapply Entered]]. by split_and!.
Qed.

Lemma entered_reached P w t : entered P w t -> reached t.
Proof. by intros [? _]. Qed.

Lemma inside_enter {A} workspace user role now (a : WorkspaceMember -> A) :
  inside reached (let* m := create_workspace_member workspace user role now in tell (member_joined m) ;;; ret (a m))
    (fun _ => reached).
Proof.
  eapply goes_bind; [eapply goes_pre; [apply (inside_create_member (fun _ => True))|done]|].
  intros m. cbv beta. apply (goes_pre _ _ _ _ (entering (fun _ => True) m)); [|tauto].
  eapply goes_bind; [apply inside_joined|]. intros []. apply goes_ret. intros t. apply entered_reached.
Qed.

(** ** Assignments *)

(** What the session read of the workspaces not assigned yet still stands. *)
Definition as_read (before : db) user (l : list WorkspaceAssignmentRequest) t : Prop :=
  forall a, In a l ->
    get_by_workspace_and_user (wa_workspace a) user t = get_by_workspace_and_user (wa_workspace a) user before.

Lemma found_member workspace user t w :
  get_by_workspace_and_user workspace user t = Some w ->
  In w (workspace_members t) /\ wm_workspace w = workspace /\ wm_user w = user.
Proof. intros [Hin Hp]%List.find_some. by reflect_bools. Qed.

Lemma as_read_appended before user a l t b w :
  above a l -> wm_workspace w = wa_workspace a -> as_read before user (a :: l) b ->
  workspace_members t = workspace_members b ++ [w] -> as_read before user l t.
Proof.
  intros Ha Hw Hb E c Hc. rewrite <- (Hb c (or_intror Hc)). unfold get_by_workspace_and_user. rewrite E.
  apply find_app_other. specialize (Ha c Hc). rewrite (proj2 (Z.eqb_neq _ _)) by lia. done.
Qed.

Lemma as_read_reworked before user a l t b w role :
  above a l -> tidy b -> In w (workspace_members b) -> wm_workspace w = wa_workspace a ->
  as_read before user (a :: l) b -> workspace_members t = reworked w role (Some Active) b ->
  as_read before user l t.
Proof.
  intros Ha (_ & _ & Hn) Hin Hw Hb E c Hc. rewrite <- (Hb c (or_intror Hc)). unfold get_by_workspace_and_user.
  rewrite E. apply find_update_where. intros x Hx Hid. reflect_bools.
  assert (x = w) as -> by by apply (same_key wm_id _ _ _ Hn). specialize (Ha c Hc). cbn.
  by rewrite (proj2 (Z.eqb_neq (wm_workspace w) (wa_workspace c)) ltac:(lia)).
Qed.

(** An UPDATE of a workspace membership, and the row it leaves. *)
Definition reworking (P : db -> Prop) w role status t : Prop :=
  exists b, reached b /\ P b /\ In w (workspace_members b)
            /\ same_places (with_workspace_members (reworked w role status b) b) t.

Lemma get_reworked w role status t :
  tidy t -> In w (workspace_members t) ->
  List.find (fun x => wm_id x =? wm_id w) (reworked w role status t)
  = Some (apply_workspace_member_update w role status w).
Proof.
  intros (_ & _ & Hn) Hw. destruct (List.find _ _) as [x|] eqn:E.
  - apply List.find_some in E as [Hx Hid]. reflect_bools.
    apply In_reworked in Hx as [->|[_ ?]]; done.
  - apply List.find_none with (x := apply_workspace_member_update w role status w) in E;
      [|by apply In_reworked; [..|left]]. cbn in E. by rewrite Z.eqb_refl in E.
Qed.

Lemma inside_rework P w role status :
  inside (fun t => reached t /\ P t /\ In w (workspace_members t)) (update_workspace_member w role status)
    (fun x t => x = apply_workspace_member_update w role status w /\ reworking P w role status t).
Proof.
  unfold update_workspace_member. eapply goes_bind.
  - apply goes_write. instantiate (1 := fun _ t => reworking P w role status t
      /\ List.find (fun x => wm_id x =? wm_id w) (workspace_members t)
         = Some (apply_workspace_member_update w role status w)).
    intros t (Hr & HP & Hin). split; [by exists t|]. apply get_reworked; [apply Hr|done].
  - intros []. apply goes_query_bind. intros [x|]; [|by apply goes_raise].
    apply goes_ret. intros t ([Hr Hq] & Hx). split; [congruence|done].
Qed.

Lemma inside_assignment before user now a l :
  above a l ->
  inside (fun t => reached t /\ as_read before user (a :: l) t)
    (apply_assignment user now (get_by_workspace_and_user (wa_workspace a) user before) a)
    (fun _ t => reached t /\ as_read before user l t).
Proof.
  intros Ha. set (P := as_read before user (a :: l)). unfold apply_assignment.
  destruct (get_by_workspace_and_user (wa_workspace a) user before) as [w|] eqn:E; cbv zeta.
  - apply (goes_pre _ _ _ _ (fun t => reached t /\ P t /\ In w (workspace_members t))).
    2: { intros t [Hr HP]. split_and!; [done..|]. eapply found_member. by rewrite (HP a (or_introl eq_refl)). }
    eapply goes_bind; [apply inside_rework|]. intros x. cbv beta.
    apply (goes_pure _ _ _ _ (x = apply_workspace_member_update w (wa_role a) (Some Active) w)); [tauto|]. intros ->.
    assert (forall t b o, reached b -> P b -> In w (workspace_members b) ->
      (if is_active_workspace_member w then inr (others b)
       else member_joined (apply_workspace_member_update w (wa_role a) (Some Active) w) (others b)) = inr o ->
      same_places (with_others o (with_workspace_members (reworked w (wa_role a) (Some Active) b) b)) t ->
      reached t /\ as_read before user l t) as Hend.
    { intros t b o Hr HP Hin Ho Hs. split.
      - eapply reached_places; [exact Hs|]. eapply reached_move; [exact Hr|]. by eapply Reassigned.
      - destruct Hs as (_ & _ & E3 & _). apply (as_read_reworked before user a l t b w (wa_role a)); try done; [apply Hr|].
        by apply (found_member _ user before). }
    destruct (is_active_workspace_member w); cbn [negb].
    + apply goes_ret. intros t [_ (b & Hr & HP & Hin & Hs)]. by apply (Hend t b (others b)).
    + apply goes_tell; [done|]. intros t o [_ (b & Hr & HP & Hin & E1 & E2 & E3 & E4)] Ho. cbn in *.
      rewrite E4 in Ho. by apply (Hend _ b o).
  - eapply goes_bind; [apply (inside_create_member P)|]. intros w. cbv beta.
    apply (goes_pure _ _ _ _ (wm_workspace w = wa_workspace a)); [tauto|]. intros Hw.
    apply (goes_pre _ _ _ _ (entering P w)); [|tauto].
    eapply goes_post; [apply inside_joined|]. intros [] t (Hr & b & HP & _ & Hb). split; [done|].
    by apply (as_read_appended _ _ a l t b w).
Qed.

Lemma inside_assignments user now l :
  inside reached (_apply_workspace_assignments user now l) (fun _ => reached).
Proof.
  unfold _apply_workspace_assignments. apply goes_query_bind. intros before.
  apply (goes_pre _ _ _ _ (fun t => reached t /\ as_read before user (wanted l) t)).
  2: { intros t [Hr <-]. split; [done|]. by intros a _. }
  induction (wanted_ascending l) as [|a r Ha _ IH]; cbn [for_each]; [by apply goes_ret; intros t [? _]|].
  eapply goes_bind; [by apply inside_assignment|]. intros []. apply IH.
Qed.

(** ** Roles and departures *)

Lemma inside_role_changed {A} w role (a : WorkspaceMember -> A) :
  inside (fun t => reached t /\ In w (workspace_members t))
    (let* x := update_workspace_member w role None in tell (member_role_changed x) ;;; ret (a x)) (fun _ => reached).
Proof.
  eapply goes_bind; [eapply goes_pre; [apply (inside_rework (fun _ => True))|tauto]|].
  intros x. cbv beta. apply (goes_pure _ _ _ _ (x = apply_workspace_member_update w role None w)); [tauto|]. intros ->.
  apply (goes_bind _ _ _ _ _ _ (fun _ => reached)); [|intros []; by apply goes_ret].
  apply goes_tell; [done|]. intros t o [_ (b & Hr & _ & Hin & E1 & E2 & E3 & E4)] Ho. cbn in *. rewrite E4 in Ho.
  eapply reached_places; [|eapply reached_move; [exact Hr|by eapply RoleChanged]]. by split_and!.
Qed.

Lemma inside_departure w :
  inside (fun t => reached t /\ In w (workspace_members t))
    (tell (member_removed w) ;;; delete_workspace_member w) (fun _ => reached).
Proof.
  eapply goes_bind.
  - apply goes_tell; [done|]. instantiate (1 := fun _ t => exists b o, reached b /\ In w (workspace_members b)
      /\ member_removed w (others b) = inr o /\ same_places (with_others o b) t).
    intros t o [Hr Hin] Ho. by exists t, o.
  - intros []. apply goes_write. intros t (b & o & Hr & Hin & Ho & E1 & E2 & E3 & E4). cbn in *.
    eapply reached_places; [|eapply reached_move; [exact Hr|by eapply Departed]]. split_and!; cbn; congruence.
Qed.

(** ** Deletions *)

Lemma inside_workspace_deleted workspace :
  inside reached
    (let* ids := query (ids_for_workspace workspace) in
     tell (workspace_deleted workspace ids) ;;; delete_workspace_row workspace) (fun _ => reached).
Proof.
  apply goes_query_bind. intros ids. eapply goes_bind.
  - apply goes_tell; [done|]. instantiate (1 := fun _ t => exists b o, reached b
      /\ workspace_deleted workspace (ids_for_workspace workspace b) (others b) = inr o /\ same_places (with_others o b) t).
    intros t o [Hr <-] Ho. by exists t, o.
  - intros []. apply goes_execute. intros t (b & o & Hr & Ho & E1 & E2 & E3 & E4). cbn in *.
    destruct (references_workspace (others t) workspace) eqn:Er; [done|]. rewrite E4 in Er.
    eapply reached_places; [|eapply reached_move; [exact Hr|by eapply WorkspaceDeleted]].
    split_and!; cbn; congruence.
Qed.

(** The listeners told of each workspace, one after another. *)
Lemma each_deleted_app b l1 l2 o :
  each_deleted b (l1 ++ l2) o
  = match each_deleted b l1 o with inl e => inl e | inr o' => each_deleted b l2 o' end.
Proof. revert o. induction l1 as [|i l1 IH]; intros o; cbn; [done|]. by destruct (workspace_deleted _ _ o). Qed.

Definition told_of b (done_ : list Z) t : Prop :=
  exists o, each_deleted b done_ (others b) = inr o /\ same_places (with_others o b) t.

Lemma told_of_places b l : of_places (told_of b l).
Proof. intros t t' H (o & Ho & Hs). exists o. split; [done|]. by eapply same_places_trans. Qed.

Lemma inside_each_told b l1 l2 :
  inside (told_of b l1)
    (for_each (fun i => let* ids := query (ids_for_workspace i) in tell (workspace_deleted i ids)) l2)
    (fun _ => told_of b (l1 ++ l2)).
Proof.
  revert l1. induction l2 as [|i l2 IH]; intros l1; cbn [for_each]; [rewrite app_nil_r; by apply goes_ret|].
  apply (goes_bind _ _ _ _ _ _ (fun _ => told_of b (l1 ++ [i])));
    [|intros []; rewrite (app_assoc l1 [i] l2 : l1 ++ i :: l2 = _); apply IH].
  apply goes_query_bind. intros ids. apply goes_tell; [done|].
  intros t o ((o' & Ho' & E1 & E2 & E3 & E4) & Hids) Ho. exists o. rewrite each_deleted_app, Ho'. cbn in *.
  replace (ids_for_workspace i b) with ids by (rewrite <- Hids; unfold ids_for_workspace; by rewrite E3).
  rewrite <- E4, Ho. split; [done|]. by split_and!.
Qed.

Lemma inside_delete_organization b organization :
  reached b ->
  inside (told_of b (get_ids_by_organization organization b)) (delete_organization organization) (fun _ => reached).
Proof.
  intros Hr. apply goes_execute. intros t (o & Ho & E1 & E2 & E3 & E4). cbn in *.
  assert (get_ids_by_organization organization t = get_ids_by_organization organization b) as Ei
    by (unfold get_ids_by_organization; by rewrite E2).
  destruct (_ || _) eqn:Ec; [done|]. apply orb_false_iff in Ec as [_ Er]. rewrite Ei, E4 in Er.
  eapply reached_places; [|eapply reached_move; [exact Hr|by eapply OrganizationDeleted]].
  unfold cascade_organization, workspace_in, get_workspace, get_ids_by_organization in *. cbn.
  split_and!; cbn; rewrite ?E1, ?E2, ?E3, ?E4; done.
Qed.

End Places.

(** * Each request of the tenancy services, answered or refused, leaves the database where a run of
    [RosterMoves.move]s leads. *)

Section Requests.
Context {O : Type} {L : MembershipListener O} {RP : RequestPlane O}.
Notation db := (tenancy O).
Notation M := (M db TenancyError).
Context (t0 : db).
Notation reached := (reached t0).
Notation walks := (walks t0).
Notation inside P m Q := (goes true reached (fun _ => True) P m Q).
(** A request, outside every block. *)
Notation serves P m Q := (goes false reached reached P m Q).
Implicit Types (t b : db) (w : WorkspaceMember).

Hint Resolve reached_places : core.

Lemma inside_walk {A} (m : M A) : walks m -> inside reached m (fun _ => reached).
Proof. intros H. eapply goes_weaken; [apply H|done..]. Qed.

Lemma serves_block {A} P (m : M A) : inside P m (fun _ => reached) -> serves P (uow_block m) (fun _ => reached).
Proof. intros H. by apply goes_block with (Q := fun _ => reached). Qed.

(** Statements that leave the places, then the rest. *)
Lemma serves_steady {A B} deep (X P : db -> Prop) (m : M A) (f : A -> M B) Q :
  steady m -> of_places P -> (forall t, P t -> X t) ->
  (forall a, goes deep reached X P (f a) Q) -> goes deep reached X P (bind m f) Q.
Proof. apply goes_steady_bind. Qed.

(** ** A membership that waits *)

Definition waiting (m : option OrganizationMember) t : Prop :=
  match m with Some m => In m (members t) /\ om_status m <> Active | None => True end.
Definition standing (m : OrganizationMember) t : Prop := reached t /\ waiting (Some m) t.

Lemma waiting_places m : of_places (waiting m).
Proof. intros t t' H. destruct m as [m|]; [|done]. destruct H as (E & _). cbn. by rewrite E. Qed.
Lemma here_places m : of_places (fun t => reached t /\ waiting m t).
Proof. apply reached_and, waiting_places. Qed.
Lemma standing_places m : of_places (standing m).
Proof. apply (here_places (Some m)). Qed.
Lemma standing_reached m t : standing m t -> reached t.
Proof. by intros [? _]. Qed.
Hint Resolve here_places standing_places standing_reached : core.

Lemma waiting_of_query organization user t existing :
  get_by_organization_and_user organization user t = existing -> is_active_opt existing = false -> waiting existing t.
Proof.
  destruct existing as [m|]; [|done]. intros [Hin _]%List.find_some Ha. split; [done|]. by apply bool_decide_eq_false in Ha.
Qed.

Lemma inside_update_waiting m d : inside (standing m) (_update_membership m d) (fun _ => reached).
Proof. eapply goes_weaken; [apply (goes_update_waiting t0 true m d)|done..]. Qed.

(** ** Membership changes *)

Lemma serves_read_change u member :
  serves reached (read_membership_change u member)
    (fun r t => reached t /\ In r.2 (members t) /\ om_organization r.2 = org_id r.1.1).
Proof.
  unfold read_membership_change. apply serves_steady; auto with steady. intros o.
  apply serves_steady; auto with steady. intros actor.
  apply goes_query_bind. intros found. apply goes_require_bind; [by intros t [? _]|]. intros target ->.
  apply goes_ret. intros t [Hr [Hin Hq]%List.find_some]. by reflect_bools.
Qed.

Lemma serves_update_member u member d :
  settable d -> serves reached (update_active_organization_member_for_user u member d) (fun _ => reached).
Proof.
  intros Hd. eapply goes_bind; [apply serves_read_change|]. intros [[o actor] target]. by apply walks_write_update.
Qed.

Lemma serves_remove_member u member : serves reached (remove_active_organization_member_for_user u member) (fun _ => reached).
Proof.
  eapply goes_bind; [apply serves_read_change|]. intros [[o actor] target]. apply walks_write_removal.
Qed.

Lemma serves_add_member u r blocked now :
  serves reached (create_active_organization_member_for_user u r blocked now) (fun _ => reached).
Proof.
  unfold create_active_organization_member_for_user.
  apply serves_steady; auto with steady. intros o. apply serves_steady; auto with steady. intros actor.
  apply serves_steady; auto with steady. intros email. apply serves_steady; auto with steady. intros [].
  apply goes_unless_taken, serves_block.
  apply serves_steady; auto with steady. intros []. apply serves_steady; auto with steady. intros target.
  apply goes_query_bind. intros existing. apply goes_refuse_bind; [done|]. intros Ha.
  apply (goes_pre _ _ _ _ (fun t => reached t /\ waiting existing t));
    [|intros t [Hr Hq]; split; [done|by eapply waiting_of_query]].
  apply serves_steady; auto with steady. intros [].
  apply (goes_bind _ _ _ _ _ _ (fun _ => reached)).
  - destruct existing as [m|]; cbv zeta.
    + apply serves_steady; auto with steady. intros []. apply inside_update_waiting.
    + apply serves_steady; auto with steady. intros [].
      eapply goes_pre; [apply inside_walk, walks_create_membership|tauto].
  - intros m. apply serves_steady; auto with steady. intros [].
    apply (goes_bind _ _ _ _ _ _ (fun _ => reached)); [apply inside_assignments|]. intros []. by apply goes_ret.
Qed.

(** ** Invitations *)

Lemma inside_stage u o actor email role assignments hash expires_at now :
  inside reached (_stage_invitation u o actor email role assignments hash expires_at now) (fun _ => reached).
Proof.
  unfold _stage_invitation. apply serves_steady; auto with steady. intros target.
  apply goes_query_bind. intros existing. apply goes_refuse_bind; [done|]. intros Ha.
  apply (goes_pre _ _ _ _ (fun t => reached t /\ waiting existing t));
    [|intros t [Hr Hq]; split; [done|by eapply waiting_of_query]].
  apply serves_steady; auto with steady. intros [].
  apply serves_steady; [steady|auto..|]. intros [].
  apply (goes_bind _ _ _ _ _ _ (fun _ => reached)).
  - destruct existing as [m|]; cbv zeta.
    + apply serves_steady; auto with steady. intros []. apply inside_update_waiting.
    + eapply goes_pre; [apply inside_walk, walks_create_membership|tauto].
  - intros m. apply serves_steady; auto with steady. intros i. by apply goes_ret.
Qed.

Lemma serves_invite_member u r blocked hash expires_at now :
  serves reached (invite_active_organization_member_for_user u r blocked hash expires_at now) (fun _ => reached).
Proof.
  unfold invite_active_organization_member_for_user.
  apply serves_steady; auto with steady. intros o. apply serves_steady; auto with steady. intros actor.
  apply serves_steady; auto with steady. intros email. apply serves_steady; auto with steady. intros [].
  apply serves_steady; auto with steady. intros [].
  apply goes_unless_taken, serves_block. apply serves_steady; auto with steady. intros [].
  apply inside_stage.
Qed.

Lemma inside_invite_one u o actor role assignments blocked expires_at now seen raw hash :
  inside reached (invite_one u o actor role assignments blocked expires_at now seen raw hash) (fun _ => reached).
Proof.
  unfold invite_one. apply goes_try with (Y := reached); [|done|].
  - apply serves_steady; auto with steady. intros email. apply goes_if; intros _; [by apply goes_ret|].
    apply serves_steady; auto with steady. intros [].
    apply (goes_bind _ _ _ _ _ _ (fun _ => reached)); [eapply goes_begin_nested, inside_stage|].
    intros s. by apply goes_ret.
  - intros e m' He. destruct e as [x| | | |]; try discriminate; [destruct (is_conflict_or_validation x); [|discriminate]|];
      injection He as <-; by apply goes_ret.
Qed.

Lemma inside_invite_each u o actor role assignments blocked expires_at now seen l :
  inside reached (invite_each u o actor role assignments blocked expires_at now seen l) (fun _ => reached).
Proof.
  revert seen. induction l as [|[raw hash] l IH]; intros seen; cbn [invite_each]; [by apply goes_ret|].
  eapply goes_bind; [apply inside_invite_one|]. intros [one seen'].
  eapply goes_bind; [apply IH|]. intros rest. by apply goes_ret.
Qed.

Lemma serves_invite_members u emails role assignments blocked expires_at now :
  serves reached (invite_active_organization_members_for_user u emails role assignments blocked expires_at now)
    (fun _ => reached).
Proof.
  unfold invite_active_organization_members_for_user. apply serves_steady; auto with steady. intros [o actor].
  apply serves_block, inside_invite_each.
Qed.

(** ** Answers *)

(** A refusal that is committed. *)
Lemma serves_expire {A} (l : list Invitation) e (P : db -> Prop) (Q : A -> db -> Prop) :
  (forall t, P t -> reached t) ->
  serves P (for_each (fun i => update_status i Expired) l ;;; commit ;;; fail e) Q.
Proof.
  intros HP. apply (goes_pre _ _ _ _ reached); [|done]. apply serves_steady; auto with steady. intros [].
  eapply goes_bind; [by apply goes_commit|]. intros []. by apply goes_raise.
Qed.

Lemma serves_resolve_link hash now :
  serves reached (_resolve_pending_invitation hash now) (fun r t => standing r.1.1.2 t).
Proof.
  unfold _resolve_pending_invitation.
  apply serves_steady; auto with steady. intros found. apply serves_steady; auto with steady. intros i.
  apply serves_steady; auto with steady. intros []. apply serves_steady; auto with steady. intros [].
  apply (goes_bind _ _ _ _ _ _ (fun _ => reached)).
  { apply goes_if; intros _; [|by apply goes_ret]. apply serves_steady; auto with steady. intros [].
    eapply goes_bind; [by apply goes_commit|]. intros []. by apply goes_raise. }
  intros []. apply goes_query_bind. intros m.
  apply (goes_pre _ _ _ _ (fun t => reached t /\ match m with Some m => In m (members t) | None => True end)).
  2: { intros t [Hr Hq]. split; [done|]. destruct m; [|done]. by apply List.find_some in Hq as [? _]. }
  assert (of_places (fun t : db => reached t /\ match m with Some m => In m (members t) | None => True end)) as HP
    by (apply reached_and; destruct m; places).
  assert (forall t, reached t /\ match m with Some m => In m (members t) | None => True end -> reached t) as HX by tauto.
  apply serves_steady; auto with steady. intros o. apply goes_require_bind; [done|]. intros m' ->.
  apply goes_require_bind; [done|]. intros o' ->. apply goes_refuse_bind; [done|]. intros Hs.
  apply serves_steady; auto with steady. intros invitee. apply serves_steady; auto with steady. intros invitee'.
  apply serves_steady; auto with steady. intros [].
  apply goes_ret. intros t [Hr Hin]. cbn. split; [done|]. split; [done|]. reflect_bools. congruence.
Qed.

Lemma serves_resolve_own user member now :
  serves reached (_resolve_own_pending_invitation user member now) (fun r t => standing r.1.2 t).
Proof.
  unfold _resolve_own_pending_invitation. apply goes_query_bind. intros found.
  apply goes_require_bind; [by intros t [? _]|]. intros m ->. apply goes_refuse_bind; [by intros t [? _]|]. intros Hs.
  apply (goes_pre _ _ _ _ (standing m)).
  2: { intros t [Hr [Hin _]%List.find_some]. split; [done|]. split; [done|]. reflect_bools. congruence. }
  apply serves_steady; eauto with steady. intros pending. apply serves_steady; eauto with steady. intros [].
  destruct (first_by _ _) as [i|]; [|by apply serves_expire; eauto].
  apply serves_steady; eauto with steady. intros o. apply serves_steady; eauto with steady. intros o'.
  by apply goes_ret.
Qed.

Lemma serves_activate i m o blocked now :
  serves (standing m) (_resolve_invitation_to_active_membership i m o blocked now) (fun _ => reached).
Proof.
  apply serves_block. apply serves_steady; auto with steady. intros []. apply serves_steady; auto with steady. intros [].
  eapply goes_bind; [apply inside_update_waiting|]. intros m'. cbv beta.
  apply serves_steady; auto with steady. intros assignments.
  eapply goes_bind; [apply inside_assignments|]. intros []. cbv beta.
  apply serves_steady; auto with steady. intros []. by apply goes_ret.
Qed.

Lemma serves_claim invitee organization hash name terms now m :
  serves (standing m) (claim_with_link invitee organization hash name terms now) (fun _ => standing m).
Proof.
  unfold claim_with_link. apply serves_steady; eauto with steady. intros allowed.
  apply serves_steady; eauto with steady. intros []. apply serves_steady; eauto with steady. intros [].
  - by apply goes_ret.
  - eapply goes_bind; [apply goes_rollback|]. intros []. by apply goes_raise.
Qed.

Lemma serves_accept hash claims blocked password name terms now :
  serves reached (accept_invitation hash claims blocked password name terms now) (fun _ => reached).
Proof.
  unfold accept_invitation.
  apply serves_steady; [destruct password as [[]|]; steady|auto..|]. intros [].
  eapply goes_bind; [apply serves_resolve_link|]. intros [[[i m] o] invitee]. cbv beta.
  apply (goes_pre _ _ _ _ reached); [|apply standing_reached].
  apply serves_steady; auto with steady. intros [].
  eapply goes_bind; [apply serves_resolve_link|]. intros [[[i' m'] o'] invitee']. cbn [fst snd].
  apply (goes_bind _ _ _ _ _ _ (fun _ => standing m')).
  - destruct password as [[plain h]|]; [apply serves_claim|by apply goes_ret].
  - intros []. eapply goes_bind; [apply serves_activate|]. intros m''. by apply goes_ret.
Qed.

Lemma serves_accept_own u member blocked now :
  serves reached (accept_pending_membership_for_user u member blocked now) (fun _ => reached).
Proof.
  unfold accept_pending_membership_for_user.
  apply serves_steady; auto with steady. intros [[o m]|]; [by apply goes_ret|].
  eapply goes_bind; [apply serves_resolve_own|]. intros [[i m] o]. cbv beta.
  apply (goes_pre _ _ _ _ reached); [|apply standing_reached].
  apply serves_steady; auto with steady. intros []. apply serves_steady; auto with steady.
  intros [[o' m']|]; [by apply goes_ret|].
  eapply goes_bind; [apply serves_resolve_own|]. intros [[i' m'] o']. apply serves_activate.
Qed.

Lemma serves_decline u member now :
  serves reached (decline_pending_membership_for_user u member now) (fun _ => reached).
Proof.
  unfold decline_pending_membership_for_user.
  eapply goes_bind; [apply serves_resolve_own|]. intros r. cbv beta.
  apply (goes_pre _ _ _ _ reached); [|apply standing_reached].
  eapply goes_bind; [apply serves_resolve_own|]. intros [[i m] o]. cbn [fst snd].
  eapply goes_bind; [apply (goes_update_waiting t0 false m suspension)|]. intros m'. by apply goes_commit.
Qed.

(** ** By the inviter *)

Lemma serves_open {X : db -> Prop} deep invitation o :
  (forall t, reached t -> X t) ->
  goes deep reached X reached (_open_invitation invitation o)
    (fun r t => reached t /\ match r.2 with Some m => In m (members t) | None => True end).
Proof.
  intros HX. unfold _open_invitation. apply serves_steady; auto with steady. intros found.
  apply serves_steady; auto with steady. intros i. apply serves_steady; auto with steady. intros [].
  apply serves_steady; auto with steady. intros []. apply goes_query_bind. intros m.
  apply (goes_pre _ _ _ _ (fun t => reached t /\ match m with Some m => In m (members t) | None => True end)).
  2: { intros t [Hr Hq]. split; [done|]. destruct m; [|done]. by apply List.find_some in Hq as [? _]. }
  apply serves_steady; [steady|apply reached_and; destruct m; places|intros t [? _]; auto|]. intros [].
  by apply goes_ret.
Qed.

Lemma serves_revoke u invitation :
  serves reached (revoke_organization_member_invitation_for_user u invitation) (fun _ => reached).
Proof.
  unfold revoke_organization_member_invitation_for_user.
  apply serves_steady; auto with steady. intros o. apply serves_steady; auto with steady. intros actor.
  eapply goes_bind; [by apply serves_open|]. intros [i m]. cbn [snd]. cbv zeta.
  set (suspended := match m with Some m => if bool_decide (om_status m = Invited) then Some m else None | None => None end).
  apply (goes_pre _ _ _ _ (fun t => reached t /\ waiting suspended t)).
  2: { intros t [Hr Hm]. split; [done|]. unfold suspended. destruct m as [m|]; [|done].
       destruct (bool_decide _) eqn:E; [|done]. split; [done|]. reflect_bools. congruence. }
  apply serves_steady; [destruct suspended; steady|auto..|by intros t [? _]|]. intros [].
  apply serves_steady; [auto with steady..|by intros t [? _]|]. intros [].
  apply (goes_bind _ _ _ _ _ _ (fun _ => reached)).
  - destruct suspended as [s|]; [|by apply goes_ret; intros t [? _]].
    eapply goes_bind; [apply (goes_update_waiting t0 false s suspension)|]. intros m'. by apply goes_ret.
  - intros []. by apply goes_commit.
Qed.

Lemma walks_reissue u invitation blocked hash expires_at :
  walks (reissue_organization_member_invitation_for_user u invitation blocked hash expires_at).
Proof.
  unfold reissue_organization_member_invitation_for_user. apply walks_bind; [walk|]. intros o.
  apply walks_bind; [walk|]. intros actor. apply walks_block, walks_steady. steady.
Qed.

(** ** Joining by a domain, and signing in *)

Lemma walks_add_if_absent organization user role now : walks (add_if_absent organization user role now).
Proof.
  apply walks_try.
  - apply walks_nested, walks_bind; [apply walks_create_membership|]. intros m. walk.
  - intros [] m' He; try discriminate. injection He as <-. walk.
Qed.

Lemma walks_auto_join _ascii u now : walks (auto_join _ascii u now).
Proof.
  unfold auto_join. destruct (user_email u); [|walk]. destruct (_ || _); [walk|]. destruct (email_domain _ _); [|walk].
  apply walks_bind; [walk|]. intros [claim|]; [|walk]. destruct (_ || _); [walk|].
  apply walks_bind; [walk|]. intros [m|]; [walk|].
  apply walks_bind; [apply walks_add_if_absent|]. intros [m fresh]. walk.
Qed.

Lemma walks_sign_in u _ascii blocked now : walks (sign_in u _ascii blocked now).
Proof.
  apply walks_block, walks_bind; [apply walks_auto_join|]. intros m.
  apply walks_block, walks_steady. unfold active_organization_id_for_sign_in. steady.
Qed.

Lemma walks_switch u organization : walks (switch_active_organization_for_user u organization).
Proof. unfold switch_active_organization_for_user. walk. Qed.

Lemma walks_resolve u : walks (_resolve_active_organization u).
Proof. unfold _resolve_active_organization. walk. Qed.

(** ** Organizations *)

Lemma walks_create_workspace name organization by_user now : walks (create_workspace name organization by_user now).
Proof.
  intros deep. apply goes_insert; [done|]. intros t Ht _. eapply reached_move; [exact Ht|]. by apply NewWorkspace.
Qed.

Lemma serves_create_organization u name slug open_signup now :
  serves reached (create_organization_for_user u name slug open_signup now) (fun _ => reached).
Proof.
  apply goes_unless_taken, serves_block.
  apply serves_steady; auto with steady. intros s. apply serves_steady; auto with steady. intros [].
  apply serves_steady; auto with steady. intros o.
  eapply goes_bind; [apply inside_walk, walks_create_membership|]. intros m. cbv beta.
  eapply goes_bind; [apply inside_walk, walks_create_workspace|]. intros w. cbv beta.
  eapply goes_bind; [apply inside_assignments|]. intros []. by apply goes_ret.
Qed.

Lemma serves_delete_organization u :
  serves reached (delete_active_organization_for_user u) (fun _ => reached).
Proof.
  unfold delete_active_organization_for_user.
  apply serves_steady; auto with steady. intros o. apply serves_steady; auto with steady. intros actor.
  apply serves_steady; auto with steady. intros []. apply goes_unless_taken, serves_block.
  apply goes_query_bind. intros b. cbv zeta. apply (goes_pure _ _ _ _ (reached b)); [by intros t [? ->]|]. intros Hb.
  apply (goes_pre _ _ _ _ (told_of b [])).
  2: { intros t [_ ->]. exists (others b). split; [done|]. by destruct b. }
  pose proof (told_of_places (L := L) b) as HP.
  apply serves_steady; auto with steady. intros destination. apply serves_steady; auto with steady. intros [].
  apply serves_steady; auto with steady. intros [].
  eapply goes_bind; [apply inside_each_told|]. intros []. cbv beta. rewrite app_nil_l.
  eapply goes_bind; [by apply inside_delete_organization|]. intros []. cbv beta.
  apply inside_walk. walk.
Qed.

(** ** Workspaces *)

Lemma serves_create_workspace u name now : serves reached (create_workspace_for_user u name now) (fun _ => reached).
Proof.
  unfold create_workspace_for_user.
  apply serves_steady; auto with steady. intros o. apply serves_steady; auto with steady. intros actor.
  apply serves_steady; [unfold _validated_name; steady|auto..|]. intros n.
  apply serves_steady; auto with steady. intros clash. apply serves_steady; auto with steady. intros [].
  apply goes_unless_taken, serves_block.
  eapply goes_bind; [apply inside_walk, walks_create_workspace|]. intros w. cbv beta. apply inside_enter.
Qed.

Lemma goes_resolve_workspace u workspace o :
  serves reached (resolve_workspace_in_organization u workspace o) (fun v t => reached t /\ ws_id v = workspace).
Proof.
  unfold resolve_workspace_in_organization. apply goes_query_bind. intros found.
  apply goes_require_bind; [by intros t [? _]|]. intros w ->.
  apply (goes_pre _ _ _ _ (fun t => reached t /\ ws_id w = workspace)).
  2: { intros t [Hr [_ Hid]%List.find_some]. by reflect_bools. }
  assert (of_places (fun t => reached t /\ ws_id w = workspace)) as HP by (apply reached_and; by intros ???).
  assert (forall t, reached t /\ ws_id w = workspace -> reached t) as HX by tauto.
  apply serves_steady; auto with steady. intros []. apply serves_steady; auto with steady. intros s.
  apply goes_if; intros _; [by apply goes_ret|].
  apply serves_steady; auto with steady. intros m. apply serves_steady; auto with steady. intros m'. by apply goes_ret.
Qed.

Lemma serves_delete_workspace u workspace : serves reached (delete_workspace u workspace) (fun _ => reached).
Proof.
  unfold delete_workspace.
  apply serves_steady; auto with steady. intros o. apply serves_steady; auto with steady. intros actor.
  eapply goes_bind; [apply goes_resolve_workspace|]. intros w. cbv beta.
  apply (goes_pure _ _ _ _ (ws_id w = workspace)); [tauto|]. intros ->. apply (goes_pre _ _ _ _ reached); [|tauto].
  apply serves_steady; auto with steady. intros remaining. apply serves_steady; auto with steady. intros [].
  apply goes_unless_taken, serves_block, inside_workspace_deleted.
Qed.

Lemma serves_add_workspace_member u workspace member role now :
  serves reached (add_member u workspace member role now) (fun _ => reached).
Proof.
  unfold add_member.
  apply serves_steady; auto with steady. intros w. apply serves_steady; auto with steady. intros s.
  apply serves_steady; auto with steady. intros s'. apply serves_steady; auto with steady. intros existing.
  apply serves_steady; auto with steady. intros []. apply serves_block. unfold add_workspace_member.
  apply (goes_bind _ _ _ _ _ _ (entering t0 (fun _ => True))).
  - apply goes_query_bind. intros [e|]; [by apply goes_raise|].
    eapply goes_weaken; [apply (inside_create_member t0 (fun _ => True))|by intros t [? _]|cbn; tauto|done].
  - intros m. apply (goes_bind _ _ _ _ _ _ (fun _ => reached)); [|intros []; by apply goes_ret].
    eapply goes_post; [apply inside_joined|]. intros [] t. apply entered_reached.
Qed.

(** The row the caller names, then a block on it. *)
Lemma serves_on_member {A} u workspace member (k : option WorkspaceMember -> M A) :
  (forall m, serves (fun t => reached t /\ match m with Some m => In m (workspace_members t) | None => True end)
               (k m) (fun _ => reached)) ->
  serves reached
    (let* v := managed_workspace u workspace in
     let* found := query (get_by_workspace_and_user (ws_id v) member) in k found) (fun _ => reached).
Proof.
  intros Hk. apply serves_steady; auto with steady. intros w. apply goes_query_bind. intros m.
  eapply goes_pre; [apply Hk|]. intros t [Hr Hq]. split; [done|].
  destruct m; [|done]. by eapply found_member.
Qed.

Lemma serves_update_workspace_member u workspace member role :
  serves reached (update_member_role u workspace member role) (fun _ => reached).
Proof.
  apply serves_on_member. intros m. apply goes_require_bind; [by intros t [? _]|]. intros w ->.
  apply serves_block, inside_role_changed.
Qed.

Lemma serves_remove_workspace_member u workspace member :
  serves reached (remove_member u workspace member) (fun _ => reached).
Proof.
  apply serves_on_member. intros [m|]; [apply serves_block, inside_departure|].
  apply goes_ret. by intros t [? _].
Qed.

(** ** Every request *)

Lemma serves_void {A} (m : M A) : serves reached m (fun _ => reached) -> serves reached (void m) (fun _ => reached).
Proof. intros H. eapply goes_bind; [exact H|]. intros a. by apply goes_ret. Qed.

(** What the routes let through: [ActiveOrganizationMemberUpdateRequest]. *)
Definition askable (r : request) : Prop := match r with UpdateMember _ _ d => settable d | _ => True end.

Lemma serves_request now r : askable r -> serves reached (serve now r) (fun _ => reached).
Proof.
  intros Ha. destruct r; cbn [serve]; try apply serves_void.
  - apply serves_create_organization.
  - apply serves_delete_organization.
  - apply walks_switch.
  - by apply serves_update_member.
  - apply serves_remove_member.
  - apply serves_add_member.
  - apply serves_invite_member.
  - apply serves_invite_members.
  - apply serves_accept.
  - apply serves_accept_own.
  - apply serves_decline.
  - apply serves_revoke.
  - apply walks_reissue.
  - apply walks_sign_in.
  - apply walks_resolve.
  - apply serves_create_workspace.
  - apply serves_delete_workspace.
  - apply serves_add_workspace_member.
  - apply serves_update_workspace_member.
  - apply serves_remove_workspace_member.
Qed.

End Requests.
