(* ===== verification/Dependants.v ===== *)
(** What the other domains keep for the members of a workspace, and the four listeners that keep it in step with
    their memberships: [services/budgets/_member_policies.py], [services/api_keys/_membership.py],
    [services/traces/_membership.py] and [services/tools/_mcp_grant_membership.py], composed as
    [api/deps.py] composes them.

    A row's own id is the key of its table, or left out where nothing here reads it; [now] is the clock the
    listeners read. *)
From S2P Require Import Prelude Periods Tables Text UnitOfWork Tenancy TenancyRepositories.
From stdpp Require Import base gmap list option strings pretty.
From Stdlib Require Import ZArith Lia.
Open Scope Z_scope.
Open Scope otari_scope.

(** ** Rows *)

(** A budget with the organization that owns it, none for the deployment's. *)
Record OwnedBudget : Type := { organization_id : option Z; figures : Budget }.

Record WorkspaceBudgetDefault : Type := {
  wbd_workspace_id : Z;
  wbd_provider_key_id : option string;
  wbd_budget_id : string
}.

Record APIKey : Type := {
  key_workspace_id : Z;
  key_hash : string;
  key_user_id : option string;
  key_is_active : bool;
  self_service : option bool;
  operator_disabled : bool;
  exclude_from_budget : bool;
  is_service_key : bool;
  key_expires_at : option Z;
  allowed_models : option (list string);
  allowed_tools : option (list string);
  end_user_budget_id : option string;
  end_user_budget_ids : option (list string);
  max_end_users : option Z
}.

Inductive ShareAudience : Type := organization_admins | deployment_operator.
#[export] Instance share_audience_eq_dec : EqDecision ShareAudience. Proof. solve_decision. Defined.

(** [sealed]: one of the spans a reader is shown holds content. *)
Record Trace : Type := { trace_workspace_id : Z; trace_id : string; trace_user_id : option string; sealed : bool }.

Record TraceContentShare : Type := {
  share_id : Z;
  share_workspace_id : Z;
  share_trace_id : string;
  audience : ShareAudience;
  shared_by_user_id : Z;
  share_created_at : Z;
  revoked_at : option Z
}.

(** A read through a share, and an opening without one. *)
Record TraceContentRead : Type := { read_share_id : Z; reader_user_id : Z; read_at : Z }.
Record TraceBreakGlassRead : Type := { opened_workspace_id : Z; opened_trace_id : string; opened_by : Z }.

Record WorkspaceMcpServer : Type := { server_id : Z; server_workspace_id : Z }.

(** For one key or for one user. *)
Record WorkspaceMcpServerGrant : Type := {
  grant_server_id : Z;
  grant_api_key_id : option string;
  grant_user_id : option string
}.

(** [pinned]: the workspaces a file, an alias or a routing policy names, which their foreign keys hold. *)
Record dependants : Type := {
  owned_budgets : gmap string OwnedBudget;
  scoped_budgets : gmap string ScopedBudget;
  policies : gmap string WorkspaceBudgetDefault;
  api_keys : gmap string APIKey;
  traces : list Trace;
  shares : list TraceContentShare;
  content_reads : list TraceContentRead;
  break_glass_reads : list TraceBreakGlassRead;
  servers : list WorkspaceMcpServer;
  grants : list WorkspaceMcpServerGrant;
  pinned : list Z
}.

Definition with_ceilings (c : gmap string ScopedBudget) (o : dependants) : dependants :=
  {| owned_budgets := owned_budgets o; scoped_budgets := c; policies := policies o; api_keys := api_keys o;
     traces := traces o; shares := shares o; content_reads := content_reads o;
     break_glass_reads := break_glass_reads o; servers := servers o; grants := grants o; pinned := pinned o |}.
Definition with_policies (p : gmap string WorkspaceBudgetDefault) (o : dependants) : dependants :=
  {| owned_budgets := owned_budgets o; scoped_budgets := scoped_budgets o; policies := p; api_keys := api_keys o;
     traces := traces o; shares := shares o; content_reads := content_reads o;
     break_glass_reads := break_glass_reads o; servers := servers o; grants := grants o; pinned := pinned o |}.
Definition with_keys (k : gmap string APIKey) (o : dependants) : dependants :=
  {| owned_budgets := owned_budgets o; scoped_budgets := scoped_budgets o; policies := policies o; api_keys := k;
     traces := traces o; shares := shares o; content_reads := content_reads o;
     break_glass_reads := break_glass_reads o; servers := servers o; grants := grants o; pinned := pinned o |}.
Definition with_shares (l : list TraceContentShare) (o : dependants) : dependants :=
  {| owned_budgets := owned_budgets o; scoped_budgets := scoped_budgets o; policies := policies o;
     api_keys := api_keys o; traces := traces o; shares := l; content_reads := content_reads o;
     break_glass_reads := break_glass_reads o; servers := servers o; grants := grants o; pinned := pinned o |}.
Definition with_reads (r : list TraceContentRead) (g : list TraceBreakGlassRead) (o : dependants) : dependants :=
  {| owned_budgets := owned_budgets o; scoped_budgets := scoped_budgets o; policies := policies o;
     api_keys := api_keys o; traces := traces o; shares := shares o; content_reads := r; break_glass_reads := g;
     servers := servers o; grants := grants o; pinned := pinned o |}.
Definition with_grants (l : list WorkspaceMcpServerGrant) (o : dependants) : dependants :=
  {| owned_budgets := owned_budgets o; scoped_budgets := scoped_budgets o; policies := policies o;
     api_keys := api_keys o; traces := traces o; shares := shares o; content_reads := content_reads o;
     break_glass_reads := break_glass_reads o; servers := servers o; grants := l; pinned := pinned o |}.

(** ** Budgets *)

Definition _scope_match (scope : ScopeType) (i : string) (provider : option string) (c : ScopedBudget) : bool :=
  bool_decide (scope_type c = scope) && bool_decide (scope_id c = i) && bool_decide (provider_key_id c = provider).

(** Whether a ceiling caps the scope for this provider, [None] for every provider. *)
Definition has_ceiling (scope : ScopeType) (i : string) (provider : option string) (o : dependants) : bool :=
  existsb (fun x => _scope_match scope i provider x.2) (map_to_list (scoped_budgets o)).

(** [insert_scoped_budgets] of one: a scope the database already caps is skipped. *)
Definition insert_member_ceiling (c : ScopedBudget) (o : dependants) : dependants :=
  if has_ceiling (scope_type c) (scope_id c) (provider_key_id c) o then o
  else with_ceilings (<[fresh (dom (scoped_budgets o)) := c]> (scoped_budgets o)) o.

Definition delete_ceilings (p : ScopedBudget -> bool) (o : dependants) : dependants :=
  with_ceilings (filter (fun x => p x.2 = false) (scoped_budgets o)) o.

Definition delete_for_member (member : Z) : dependants -> dependants :=
  delete_ceilings (fun c => bool_decide (scope_type c = SCOPE_WORKSPACE_MEMBER) && bool_decide (scope_id c = str_uuid member)).

Definition delete_for_workspace (workspace : Z) (member_ids : list Z) : dependants -> dependants :=
  delete_ceilings (fun c =>
    (bool_decide (scope_type c = SCOPE_WORKSPACE) && bool_decide (scope_id c = str_uuid workspace))
    || (bool_decide (scope_type c = SCOPE_WORKSPACE_MEMBER) && bool_decide (scope_id c ∈ map str_uuid member_ids))).

Definition for_workspace (workspace : Z) (o : dependants) : list WorkspaceBudgetDefault :=
  List.filter (fun p => wbd_workspace_id p =? workspace) (map snd (map_to_list (policies o))).

Definition _member_ceiling (now member : Z) (policy : WorkspaceBudgetDefault) (b : OwnedBudget) :
    exn TenancyError + ScopedBudget :=
  match period_window now (budget_duration_sec (figures b)) (reset_alignment (figures b)) with
  | Err _ => inl (Raised ValueError)
  | Ok window =>
      inr (mkScoped SCOPE_WORKSPACE_MEMBER (str_uuid member) (wbd_provider_key_id policy) (wbd_budget_id policy)
             zero_held zero_held (option_map fst window) (option_map snd window) None)
  end.

Definition _budget_for (policy : WorkspaceBudgetDefault) (o : dependants) : exn TenancyError + OwnedBudget :=
  match owned_budgets o !! wbd_budget_id policy with
  | Some b => inr b
  | None => inl (Raised (WorkspaceBudgetDefaultBudgetNotFoundError (wbd_budget_id policy)))
  end.

(** Each policy of the workspace in turn, unless the member is already capped for its provider. *)
Fixpoint cap_member (now member : Z) (l : list WorkspaceBudgetDefault) (o : dependants) :
    exn TenancyError + dependants :=
  match l with
  | [] => inr o
  | p :: l =>
      if has_ceiling SCOPE_WORKSPACE_MEMBER (str_uuid member) (wbd_provider_key_id p) o then cap_member now member l o
      else match _budget_for p o with
           | inl e => inl e
           | inr b => match _member_ceiling now member p b with
                      | inl e => inl e
                      | inr c => cap_member now member l (insert_member_ceiling c o)
                      end
           end
  end.

Definition BudgetMembershipListener (now : Z) : MembershipListener dependants := {|
  member_joined := fun m o => cap_member now (wm_id m) (for_workspace (wm_workspace m) o) o;
  member_removed := fun m o => inr (delete_for_member (wm_id m) o);
  member_role_changed := fun _ o => inr o;
  organization_member_changed := fun _ _ o => inr o;
  workspace_deleted := fun workspace ids o => inr (delete_for_workspace workspace ids o);
  member_lost_workspaces := fun _ _ o => inr o
|}.

(** ** API keys *)

Definition switch_off (by_operator : bool) (k : APIKey) : APIKey :=
  {| key_workspace_id := key_workspace_id k; key_hash := key_hash k; key_user_id := key_user_id k;
     key_is_active := false; self_service := self_service k;
     operator_disabled := by_operator || operator_disabled k; exclude_from_budget := exclude_from_budget k;
     is_service_key := is_service_key k; key_expires_at := key_expires_at k; allowed_models := allowed_models k;
     allowed_tools := allowed_tools k; end_user_budget_id := end_user_budget_id k;
     end_user_budget_ids := end_user_budget_ids k; max_end_users := max_end_users k |}.

Definition deactivate_owned_in_workspaces (user : string) (ws : list Z) (self_service_only by_operator : bool)
    (o : dependants) : dependants :=
  let hit k := bool_decide (key_user_id k = Some user) && bool_decide (key_workspace_id k ∈ ws)
               && (by_operator || key_is_active k)
               && (negb self_service_only || bool_decide (self_service k = Some true)) in
  with_keys ((fun k => if hit k then switch_off by_operator k else k) <$> api_keys o) o.

Definition ApiKeyMembershipListener : MembershipListener dependants := {|
  member_joined := fun _ o => inr o;
  member_removed := fun m o =>
    inr (deactivate_owned_in_workspaces (str_uuid (wm_user m)) [wm_workspace m] false true o);
  member_role_changed := fun m o =>
    inr (if bool_decide (wm_role m = Viewer)
         then deactivate_owned_in_workspaces (str_uuid (wm_user m)) [wm_workspace m] true false o else o);
  organization_member_changed := fun m ws o =>
    inr (if bool_decide (om_status m = Suspended)
         then deactivate_owned_in_workspaces (str_uuid (om_user m)) ws false true o
         else if bool_decide (om_role m = Viewer)
         then deactivate_owned_in_workspaces (str_uuid (om_user m)) ws true false o else o);
  workspace_deleted := fun _ _ o => inr o;
  member_lost_workspaces := fun _ _ o => inr o
|}.

(** ** Session shares *)

Definition running (s : TraceContentShare) : bool := negb (is_set (revoked_at s)).
Definition end_share (now : Z) (s : TraceContentShare) : TraceContentShare :=
  {| share_id := share_id s; share_workspace_id := share_workspace_id s; share_trace_id := share_trace_id s;
     audience := audience s; shared_by_user_id := shared_by_user_id s; share_created_at := share_created_at s;
     revoked_at := Some now |}.

Definition revoke_by (ws : list Z) (user now : Z) (o : dependants) : dependants :=
  with_shares (update_where (fun s => bool_decide (share_workspace_id s ∈ ws) && (shared_by_user_id s =? user) && running s)
                 (end_share now) (shares o)) o.

Definition TraceMembershipListener (now : Z) : MembershipListener dependants := {|
  member_joined := fun _ o => inr o;
  member_removed := fun m o => inr (revoke_by [wm_workspace m] (wm_user m) now o);
  member_role_changed := fun _ o => inr o;
  organization_member_changed := fun _ _ o => inr o;
  workspace_deleted := fun _ _ o => inr o;
  member_lost_workspaces := fun user ws o => inr (revoke_by ws user now o)
|}.

(** ** Grants on MCP servers *)

Definition ids_in_workspaces (ws : list Z) (o : dependants) : list Z :=
  map server_id (List.filter (fun s => bool_decide (server_workspace_id s ∈ ws)) (servers o)).

Definition remove_for_user_on_servers (user : string) (ids : list Z) (o : dependants) : dependants :=
  with_grants (List.filter (fun g => negb (bool_decide (grant_user_id g = Some user) && bool_decide (grant_server_id g ∈ ids)))
                 (grants o)) o.

Definition _remove (user : Z) (ws : list Z) (o : dependants) : dependants :=
  remove_for_user_on_servers (str_uuid user) (ids_in_workspaces ws o) o.

Definition McpGrantMembershipListener : MembershipListener dependants := {|
  member_joined := fun _ o => inr o;
  member_removed := fun m o => inr (_remove (wm_user m) [wm_workspace m] o);
  member_role_changed := fun _ o => inr o;
  organization_member_changed := fun _ _ o => inr o;
  workspace_deleted := fun _ _ o => inr o;
  member_lost_workspaces := fun user ws o => inr (_remove user ws o)
|}.

(** ** The deployment's listener, [get_membership_listener] *)

Definition get_membership_listener (now : Z) : MembershipListener dependants :=
  MembershipListeners
    [BudgetMembershipListener now; ApiKeyMembershipListener; TraceMembershipListener now; McpGrantMembershipListener].

(** ** Foreign keys to a workspace: keys and what is pinned hold it, the rest goes with it *)

Definition names_workspace (o : dependants) (workspace : Z) : bool :=
  existsb (fun x => key_workspace_id x.2 =? workspace) (map_to_list (api_keys o)) || bool_decide (workspace ∈ pinned o).

Definition drop_workspace (workspace : Z) (o : dependants) : dependants :=
  let gone := map server_id (List.filter (fun s => server_workspace_id s =? workspace) (servers o)) in
  {| owned_budgets := owned_budgets o; scoped_budgets := scoped_budgets o;
     policies := filter (fun x => wbd_workspace_id x.2 <> workspace) (policies o);
     api_keys := api_keys o;
     traces := List.filter (fun t => negb (trace_workspace_id t =? workspace)) (traces o);
     shares := List.filter (fun s => negb (share_workspace_id s =? workspace)) (shares o);
     content_reads := content_reads o; break_glass_reads := break_glass_reads o;
     servers := List.filter (fun s => negb (server_workspace_id s =? workspace)) (servers o);
     grants := List.filter (fun g => negb (bool_decide (grant_server_id g ∈ gone))) (grants o);
     pinned := pinned o |}.

#[export] Instance request_plane : RequestPlane dependants :=
  {| references_workspace := names_workspace; cascade_workspace := drop_workspace |}.
