(* ===== verification/MemberPolicies.v ===== *)
(** Member budget policies, [_MemberPolicies] of [services/budgets/_member_policies.py]: a workspace's template for
    the ceiling each of its members is capped at, in the blocks [services/budgets/_service.py] opens. *)
From S2P Require Import Prelude Tables Text UnitOfWork Tenancy TenancyRepositories Organizations Workspaces Dependants.
From stdpp Require Import base gmap list option strings sorting.
From Stdlib Require Import ZArith Lia.
Open Scope Z_scope.
Open Scope otari_scope.

Definition _MATERIALIZE_PAGE_SIZE : nat := 500%nat.

Local Notation db := (tenancy dependants).
Local Notation M := (M db TenancyError).

(** [page_active_ids_for_workspace]: a page of them in order, and how many there are. *)
Definition active_member_ids (workspace : Z) (t : db) : list Z :=
  merge_sort Z.le
    (map wm_id (List.filter (fun m => (wm_workspace m =? workspace) && is_active_workspace_member m)
                  (workspace_members t))).
Definition page_active_workspace_member_ids (workspace : Z) (skip : nat) (limit : nat) (t : db) : list Z * nat :=
  (take limit (drop skip (active_member_ids workspace t)), length (active_member_ids workspace t)).

Definition _require_budget (budget_id : string) (organization : Z) : M OwnedBudget :=
  let* b := query (fun t => owned_budgets (others t) !! budget_id) in
  match b with
  | Some b =>
      refuse_if (match organization_id b with Some o => negb (o =? organization) | None => false end)
        (WorkspaceBudgetDefaultBudgetNotFoundError budget_id) ;;;
      ret b
  | None => fail (WorkspaceBudgetDefaultBudgetNotFoundError budget_id)
  end.

(** The ceilings of the members not in [covered], built before any is inserted. *)
Fixpoint ceilings_for (now : Z) (policy : WorkspaceBudgetDefault) (b : OwnedBudget) (covered : Z -> bool)
    (members : list Z) : exn TenancyError + list ScopedBudget :=
  match members with
  | [] => inr []
  | m :: l =>
      if covered m then ceilings_for now policy b covered l
      else match _member_ceiling now m policy b with
           | inl e => inl e
           | inr c => match ceilings_for now policy b covered l with inl e => inl e | inr cs => inr (c :: cs) end
           end
  end.

Definition insert_member_ceilings (cs : list ScopedBudget) (o : dependants) : dependants :=
  fold_left (fun o c => insert_member_ceiling c o) cs o.

Definition members_with_ceiling (provider : option string) (o : dependants) (member : Z) : bool :=
  has_ceiling SCOPE_WORKSPACE_MEMBER (str_uuid member) provider o.

Definition cap_page (now : Z) (policy : WorkspaceBudgetDefault) (b : OwnedBudget) (members : list Z) (o : dependants) :
    exn TenancyError + dependants :=
  match ceilings_for now policy b (members_with_ceiling (wbd_provider_key_id policy) o) members with
  | inl e => inl e
  | inr cs => inr (insert_member_ceilings cs o)
  end.

(** Page after page. *)
Fixpoint cap_from (fuel : nat) (now : Z) (policy : WorkspaceBudgetDefault) (b : OwnedBudget) (skip : nat) : M unit :=
  match fuel with
  | O => ret tt
  | S fuel =>
      let* (page, total) :=
        query (page_active_workspace_member_ids (wbd_workspace_id policy) skip _MATERIALIZE_PAGE_SIZE) in
      match page with
      | [] => ret tt
      | _ =>
          tell (cap_page now policy b page) ;;;
          let skip := (skip + length page)%nat in
          if (total <=? skip)%nat then ret tt else cap_from fuel now policy b skip
      end
  end.

(** Every page has a member, so one turn per active member and one more is enough. *)
Definition _cap_active_members (now : Z) (policy : WorkspaceBudgetDefault) (b : OwnedBudget) : M unit :=
  let* t := query (fun t => t) in
  cap_from (S (length (active_member_ids (wbd_workspace_id policy) t))) now policy b 0.

(** [WorkspaceBudgetDefaultRepository]. *)
Definition has_policy (workspace : Z) (provider : option string) (o : dependants) : bool :=
  existsb (fun x => (wbd_workspace_id x.2 =? workspace) && bool_decide (wbd_provider_key_id x.2 = provider))
    (map_to_list (policies o)).

Definition add_policy (policy : WorkspaceBudgetDefault) : M string :=
  execute (fun t =>
    if has_policy (wbd_workspace_id policy) (wbd_provider_key_id policy) (others t)
    then inl (Raised (WorkspaceBudgetDefaultAlreadyExistsError (wbd_workspace_id policy) (wbd_provider_key_id policy)))
    else if negb (is_set (get_workspace (wbd_workspace_id policy) t))
            || negb (is_set (owned_budgets (others t) !! wbd_budget_id policy)) then inl IntegrityError
    else let i := fresh (dom (policies (others t))) in
         inr (with_others (with_policies (<[i := policy]> (policies (others t))) (others t)) t, i)).

Definition get_in_workspace (policy_id : string) (workspace : Z) (t : db) : option WorkspaceBudgetDefault :=
  match policies (others t) !! policy_id with
  | Some p => if wbd_workspace_id p =? workspace then Some p else None
  | None => None
  end.

(** The UPDATE of the loaded row's one column. *)
Definition with_budget (budget_id : string) (p : WorkspaceBudgetDefault) : WorkspaceBudgetDefault :=
  {| wbd_workspace_id := wbd_workspace_id p; wbd_provider_key_id := wbd_provider_key_id p; wbd_budget_id := budget_id |}.
Definition set_budget (policy_id budget_id : string) : M unit :=
  write (fun t => with_others (with_policies (alter (with_budget budget_id) policy_id (policies (others t))) (others t)) t).

Definition remove_policy (policy_id : string) : M unit :=
  write (fun t => with_others (with_policies (delete policy_id (policies (others t))) (others t)) t).

(** [create_member_policy]: the policy's id, every active member of its workspace capped under it. *)
Definition create_policy (user : User) (workspace : Z) (budget_id : string) (provider_key_id : option string)
    (now : Z) : M string :=
  uow_block (
    let* w := resolve_visible_workspace user workspace in
    require_workspace_management_access (user_id user) w ;;;
    let* b := _require_budget budget_id (ws_organization w) in
    let policy := {| wbd_workspace_id := ws_id w; wbd_provider_key_id := provider_key_id; wbd_budget_id := budget_id |} in
    let* i := add_policy policy in
    _cap_active_members now policy b ;;;
    ret i).

Definition update_policy (user : User) (workspace : Z) (policy_id budget_id : string) : M unit :=
  uow_block (
    let* w := resolve_visible_workspace user workspace in
    require_workspace_management_access (user_id user) w ;;;
    let* p := query (get_in_workspace policy_id (ws_id w)) in
    let* _ := require p (WorkspaceBudgetDefaultNotFoundError policy_id) in
    let* _ := _require_budget budget_id (ws_organization w) in
    set_budget policy_id budget_id).

Definition delete_policy (user : User) (workspace : Z) (policy_id : string) : M unit :=
  uow_block (
    let* w := resolve_visible_workspace user workspace in
    require_workspace_management_access (user_id user) w ;;;
    let* p := query (get_in_workspace policy_id (ws_id w)) in
    let* _ := require p (WorkspaceBudgetDefaultNotFoundError policy_id) in
    remove_policy policy_id).

