(* ===== verification/ContentShares.v ===== *)
(** Who opens a session's content: [TraceService.get], [share_content], [end_content_share] and [end_shares_of] of
    [services/traces/_service.py], with who still belongs where a session was kept, [is_workspace_member] of
    [api/deps.py].  A span's sealed content itself is not here. *)
From S2P Require Import Prelude Text UnitOfWork Tenancy TenancyRepositories Organizations Workspaces Dependants.
From stdpp Require Import base gmap list option strings.
From Stdlib Require Import ZArith Lia.
Open Scope Z_scope.
Open Scope otari_scope.

Local Notation db := (tenancy dependants).
Local Notation M := (M db TenancyError).

Definition READ_RECORDED_EVERY : Z := 3600 * 1000000.

(** ** Readers and scopes, [types/traces.py] *)

Record ContentReader : Type := { reader_id : Z; audiences : list ShareAudience }.

Record TraceScope : Type := {
  workspace_ids : list Z;
  deployment_wide : bool;
  all_content : bool;
  reader : option ContentReader
}.

Inductive ContentAccess : Type := by_owner | by_share | by_break_glass | no_access.

Definition owns (s : TraceScope) (user : option string) : bool :=
  match reader s with Some r => bool_decide (user = Some (str_uuid (reader_id r))) | None => false end.
Definition reads_content_of (s : TraceScope) (user : option string) : bool := all_content s || owns s user.

(** [get_organization_trace_scope]; a header master key signs nobody in. *)
Definition get_organization_trace_scope (user : User) (signed_in : bool) : M TraceScope :=
  let* visible := resolve_visible_workspace_scope user in
  let* all := query (get_ids_by_organization (org_id (scope_organization visible))) in
  ret {| workspace_ids := default all (scope_workspaces visible); deployment_wide := false; all_content := false;
         reader := if signed_in
                   then Some {| reader_id := user_id user;
                                audiences := if sees_every_workspace visible then [organization_admins] else [] |}
                   else None |}.

(** ** Who still sees a workspace *)

Definition person_named (user : string) (t : db) : option User :=
  List.find (fun u => bool_decide (str_uuid (user_id u) = user)) (users t).

Definition is_workspace_member (workspace : Z) (user : option string) (t : db) : bool :=
  match user with
  | None => false
  | Some name =>
      match get_workspace workspace t, person_named name t with
      | Some w, Some account =>
          is_active account
          && match get_active_by_organization_and_user (ws_organization w) (user_id account) t with
             | None => false
             | Some m =>
                 MANAGEMENT_ROLES (om_role m)
                 || match get_by_workspace_and_user workspace (user_id account) t with
                    | Some x => is_active_workspace_member x
                    | None => false
                    end
             end
      | _, _ => false
      end
  end.

(** ** The session asked for *)

Definition in_scope (s : TraceScope) (workspace : Z) : bool :=
  deployment_wide s || bool_decide (workspace ∈ workspace_ids s).

Definition find_traces (s : TraceScope) (trace : string) (workspace : option Z) (o : dependants) : list Trace :=
  List.filter (fun r => bool_decide (trace_id r = trace) && in_scope s (trace_workspace_id r)
                        && match workspace with Some w => trace_workspace_id r =? w | None => true end) (traces o).

Definition one_trace (rows : list Trace) (trace : string) : M (option Trace) :=
  match rows with
  | [] => ret None
  | [r] => ret (Some r)
  | _ => fail (TraceAmbiguousError trace)
  end.

Definition _owned (s : TraceScope) (trace : string) (workspace : option Z) : M Trace :=
  let* o := query others in
  let* found := one_trace (find_traces s trace workspace o) trace in
  let* r := require found (TraceNotFoundError trace) in
  refuse_if (negb (owns s (trace_user_id r))) TraceContentShareForbiddenError ;;;
  ret r.

(** ** Shares *)

Definition share_content (s : TraceScope) (trace : string) (to : ShareAudience) (workspace : option Z) (now : Z) :
    M TraceContentShare :=
  match reader s with
  | None => fail TraceContentShareForbiddenError
  | Some r =>
      uow_block (
        let* row := _owned s trace workspace in
        let* member := query (is_workspace_member (trace_workspace_id row) (trace_user_id row)) in
        refuse_if (negb member) TraceContentShareForbiddenError ;;;
        execute (fun t =>
          let o := others t in
          let share := {| share_id := fresh_id share_id (shares o); share_workspace_id := trace_workspace_id row;
                          share_trace_id := trace_id row; audience := to; shared_by_user_id := reader_id r;
                          share_created_at := now; revoked_at := None |} in
          inr (with_others (with_shares (shares o ++ [share]) o) t, share)))
  end.

(** [revoke] of a loaded share. *)
Definition revoke_share (i now : Z) : M unit :=
  write (fun t => with_others
    (with_shares (update_where (fun x => (share_id x =? i) && running x) (end_share now) (shares (others t))) (others t)) t).

Definition end_content_share (s : TraceScope) (trace : string) (share : Z) (workspace : option Z) (now : Z) : M unit :=
  match reader s with
  | None => fail TraceContentShareForbiddenError
  | Some _ =>
      uow_block (
        let* row := _owned s trace workspace in
        let* o := query others in
        let* _ := require (List.find (fun x => (share_id x =? share) && (share_workspace_id x =? trace_workspace_id row)
                                               && bool_decide (share_trace_id x = trace_id row)) (shares o))
                    (TraceContentShareNotFoundError share) in
        revoke_share share now)
  end.

Definition end_shares_of (user now : Z) : M unit :=
  uow_block (write (fun t => with_others
    (with_shares (update_where (fun x => (shared_by_user_id x =? user) && running x) (end_share now) (shares (others t)))
       (others t)) t)).

(** The newest running share of the session to one of the audiences. *)
Definition active_share (row : Trace) (to : list ShareAudience) (o : dependants) : option TraceContentShare :=
  first_by (fun x y => share_created_at y <? share_created_at x)
    (List.filter (fun x => (share_workspace_id x =? trace_workspace_id row) && bool_decide (share_trace_id x = trace_id row)
                           && bool_decide (audience x ∈ to) && running x) (shares o)).

Definition record_read (share : Z) (by_reader now : Z) : M unit :=
  write (fun t =>
    let o := others t in
    if existsb (fun r => (read_share_id r =? share) && (reader_user_id r =? by_reader)
                         && (now - READ_RECORDED_EVERY <=? read_at r)) (content_reads o) then t
    else with_others
           (with_reads (content_reads o ++ [{| read_share_id := share; reader_user_id := by_reader; read_at := now |}])
              (break_glass_reads o) o) t).

Definition record_break_glass (row : Trace) (by_reader : Z) : M unit :=
  write (fun t =>
    let o := others t in
    with_others
      (with_reads (content_reads o)
         (break_glass_reads o ++ [{| opened_workspace_id := trace_workspace_id row; opened_trace_id := trace_id row;
                                     opened_by := by_reader |}]) o) t).

(** ** Reading *)

(** The access [get] answers a session with, and the share it is read through; [break_glass] names the reader who
    opens it without one. *)
Definition open_content (s : TraceScope) (row : Trace) (break_glass : option Z) (now : Z) :
    M (ContentAccess * option TraceContentShare) :=
  let access := if reads_content_of s (trace_user_id row) then by_owner else no_access in
  match break_glass with
  | Some r => record_break_glass row r ;;; ret (by_break_glass, None)
  | None =>
      match access, reader s with
      | no_access, Some r =>
          if sealed row && negb (bool_decide (audiences r = [])) then
            let* found := query (fun t => active_share row (audiences r) (others t)) in
            match found with
            | None => ret (no_access, None)
            | Some share =>
                let* member := query (is_workspace_member (trace_workspace_id row) (trace_user_id row)) in
                if negb member then revoke_share (share_id share) now ;;; ret (no_access, None)
                else record_read (share_id share) (reader_id r) now ;;; ret (by_share, Some share)
            end
          else ret (no_access, None)
      | _, _ => ret (access, None)
      end
  end.

Definition get_trace (s : TraceScope) (trace : string) (workspace break_glass : option Z) (now : Z) :
    M (option (Trace * ContentAccess * option TraceContentShare)) :=
  uow_block (
    let* o := query others in
    let* found := one_trace (find_traces s trace workspace o) trace in
    match found with
    | None => ret None
    | Some row => let* (access, share) := open_content s row break_glass now in ret (Some (row, access, share))
    end).
