(* ===== verification/MemberKeys.v ===== *)
(** API keys for a tenant who does not operate the deployment, [api/routes/organization_keys.py], with what
    [services/api_keys/_service.py], [_service_keys.py] and [_admission.py] decide of them, and the operator's
    switch of [api/routes/keys.py].

    A minted secret is given by its hash, and a service key's owner by the id drawn for it; the text of a refusal,
    a key's display columns and the growth signal of a first key are left out. *)
From S2P Require Import Prelude Tables Text ModelAccess UnitOfWork Tenancy TenancyRepositories Organizations Invitations Workspaces Dependants.
From stdpp Require Import base gmap list option strings pretty.
From Stdlib Require Import ZArith Lia.
Open Scope Z_scope.
Open Scope otari_scope.

Local Notation db := (tenancy dependants).
Local Notation M := (M db TenancyError).

Definition HTTP_400 : TenancyError := HTTPException 400.
Definition HTTP_403 : TenancyError := HTTPException 403.
Definition HTTP_404 : TenancyError := HTTPException 404.
Definition HTTP_409 : TenancyError := HTTPException 409.
Definition HTTP_500 : TenancyError := HTTPException 500.

Definition DEFAULT_ORGANIZATION_MAX_END_USERS : Z := 10000.
Definition SERVICE_KEY_OWNER_ID_PREFIX : string := "svc_".

(** ** Whether a key may authenticate *)

Definition key_refusal (k : APIKey) (now : Z) : option (string * string) :=
  if negb (key_is_active k) then Some ("inactive_key", "API key is inactive")
  else match key_expires_at k with
       | Some e => if e <? now then Some ("expired_key", "API key has expired") else None
       | None => None
       end.

Definition is_organization_service_key (k : APIKey) : bool :=
  is_service_key k && bool_decide (self_service k = Some true).

(** ** What a caller may touch *)

Record _CallerScope : Type := { organization : Organization; own_user_id : string; manages : bool }.

Definition attribution_ids (organization : Z) (t : db) : list string :=
  map (fun m => str_uuid (om_user m)) (List.filter (fun m => om_organization m =? organization) (members t)).

Definition key_condition (s : _CallerScope) (t : db) (k : APIKey) : bool :=
  bool_decide (key_user_id k = Some (own_user_id s))
  || (manages s
      && (is_organization_service_key k
          || (match key_user_id k with
              | Some u => bool_decide (u ∈ attribution_ids (org_id (organization s)) t)
              | None => false
              end && negb (exclude_from_budget k) && negb (is_service_key k)))).

Definition _caller_scope (identity : User) : M _CallerScope :=
  let* o := get_active_organization_for_user identity in
  let* managing := query (manages_organization (user_id identity) (org_id o)) in
  ret {| organization := o; own_user_id := str_uuid (user_id identity); manages := managing |}.

Definition _load_key_in_organization (key_id : string) (organization : Z) (condition : db -> APIKey -> bool) :
    M APIKey :=
  let* found := query (fun t =>
    match api_keys (others t) !! key_id with
    | Some k => if workspace_in organization (key_workspace_id k) t && condition t k then Some k else None
    | None => None
    end) in
  require found HTTP_404.

Definition _load_own_writable_key (identity : User) (key_id : string) (revoking : bool) : M APIKey :=
  let* s := _caller_scope identity in
  let* k := _load_key_in_organization key_id (org_id (organization s)) (key_condition s) in
  hold_workspace_write_access (user_id identity) (org_id (organization s)) (key_workspace_id k) revoking ;;;
  ret k.

Definition _key_owner (s : _CallerScope) (user : option Z) : M (option User) :=
  match user with
  | None => ret None
  | Some u =>
      refuse_if (negb (manages s)) HTTP_403 ;;;
      let* found := query (get_user u) in
      let* owner := require found HTTP_404 in
      let* m := query (get_active_by_organization_and_user (org_id (organization s)) (user_id owner)) in
      let* _ := require m HTTP_404 in
      ret (Some owner)
  end.

(** ** End users of a service key *)

Record EndUserSettings : Type := {
  set_budget_id : option (option string);
  set_budget_ids : option (option (list string));
  set_max : option (option Z)
}.

Definition names_settings (e : EndUserSettings) : bool :=
  is_set (set_budget_id e) || is_set (set_budget_ids e) || is_set (set_max e).

Definition refuse_end_user_settings_on_plain_key (service sets : bool) : M unit :=
  refuse_if (sets && negb service) EndUserSettingsOnPlainKeyError.

Definition refuse_service_key_flag_change (k : APIKey) (requested : option bool) : M unit :=
  refuse_if (bool_decide (self_service k = Some true)
             && match requested with Some r => negb (Bool.eqb r (is_service_key k)) | None => false end)
    ServiceKeyFlagFixedError.

Definition organization_max_end_users (requested : option Z) (explicit : bool) : M Z :=
  match requested with
  | Some n => ret n
  | None => refuse_if explicit OrganizationServiceKeyUncappedError ;;; ret DEFAULT_ORGANIZATION_MAX_END_USERS
  end.

Definition end_user_budget_list (budget_ids : option (list string)) (default_id : option string)
    (check_default check_list : bool) : M (option (list string) * list string) :=
  let listed := option_map (dedup []) budget_ids in
  refuse_if (match listed, default_id with Some l, Some d => negb (bool_decide (d ∈ l)) | _, _ => false end)
    EndUserDefaultNotListedError ;;;
  let to_check := if check_list then default [] listed else [] in
  ret (listed,
       match default_id with
       | Some d => if check_default && negb (bool_decide (d ∈ to_check)) then to_check ++ [d] else to_check
       | None => to_check
       end).

Definition require_assignable_budgets (ids : list string) (organization : option Z) : M unit :=
  for_each (fun i =>
    let* b := query (fun t => owned_budgets (others t) !! i) in
    refuse_if (match b with Some b => negb (bool_decide (organization_id b = organization)) | None => true end)
      (EndUserBudgetNotFoundError i)) ids.

Definition check_end_user_budgets (budget_ids : option (list string)) (default_id : option string)
    (check_default check_list : bool) (organization : option Z) : M (option (list string)) :=
  let* (listed, to_check) := end_user_budget_list budget_ids default_id check_default check_list in
  (match to_check with [] => ret tt | _ => uow_block (require_assignable_budgets to_check organization) end) ;;;
  ret listed.

(** The end-user columns of a key: its budget, its list, its cap. *)
Definition EndUserColumns : Type := option string * option (list string) * option Z.

Definition admit_organization_key (user : User) (organization : Organization) (service : bool)
    (budget_id : option string) (budget_ids : option (list string)) (max : option Z) : M EndUserColumns :=
  refuse_end_user_settings_on_plain_key service (is_set budget_id || is_set budget_ids || is_set max) ;;;
  if negb service then ret (None, None, None)
  else
    let* _ := require_active_organization_management_access user organization in
    let* listed := check_end_user_budgets budget_ids budget_id true true (Some (org_id organization)) in
    let* cap := organization_max_end_users max false in
    ret (budget_id, listed, Some cap).

Definition no_settings : EndUserSettings := {| set_budget_id := None; set_budget_ids := None; set_max := None |}.

(** The columns an update changes. *)
Definition organization_key_changes (user : User) (k : APIKey) (e : EndUserSettings) (revoking : bool) :
    M EndUserSettings :=
  if negb (names_settings e) then ret no_settings
  else
    refuse_end_user_settings_on_plain_key (is_organization_service_key k) true ;;;
    let* o := get_active_organization_for_user user in
    let* listed := check_end_user_budgets (default (end_user_budget_ids k) (set_budget_ids e))
                     (default (end_user_budget_id k) (set_budget_id e)) (is_set (set_budget_id e))
                     (is_set (set_budget_ids e)) (Some (org_id o)) in
    let* cap := match set_max e with
                | Some m => let* n := organization_max_end_users m true in ret (Some (Some n))
                | None => ret None
                end in
    hold_workspace_write_access (user_id user) (org_id o) (key_workspace_id k) revoking ;;;
    ret {| set_budget_id := set_budget_id e; set_budget_ids := Some listed; set_max := cap |}.

(** ** Writing *)

(** [db.commit()], whose failure the route answers. *)
Definition commit_or_500 : M unit :=
  try_except commit (fun e => match e with
                              | IntegrityError | DatabaseError => Some (rollback ;;; fail HTTP_500)
                              | _ => None
                              end).

(** Rows added are flushed by the commit. *)
Definition add_key (i : string) (k : APIKey) : M unit :=
  execute (fun t =>
    let o := others t in
    if is_set (api_keys o !! i) || existsb (fun x => bool_decide (key_hash x.2 = key_hash k)) (map_to_list (api_keys o))
    then inl IntegrityError
    else inr (with_others (with_keys (<[i := k]> (api_keys o)) o) t, tt)).

Definition add_service_key_owner (owner_id : string) (alias : string) (creator : AttributionUser) : M AttributionUser :=
  execute (fun t =>
    let a := {| au_user_id := owner_id; au_alias := Some alias; au_deleted := false;
                au_allowed_models := au_allowed_models creator; au_allowed_tools := au_allowed_tools creator |} in
    if is_set (get_attribution_user owner_id t) then inl IntegrityError
    else inr (with_attribution_users (attribution_users t ++ [a]) t, a)).

Definition write_key (i : string) (f : APIKey -> APIKey) : M unit :=
  write (fun t => with_others (with_keys (alter f i (api_keys (others t))) (others t)) t).

(** [organization_default_workspace_id]. *)
Definition organization_default_workspace_id (organization : Z) (t : db) : option Z :=
  let mine := List.filter (fun w => ws_organization w =? organization) (workspaces t) in
  match List.find (fun w => bool_decide (ws_name w = DEFAULT_WORKSPACE_NAME)) mine with
  | Some w => Some (ws_id w)
  | None => option_map ws_id (first_by (earlier ws_created_at ws_id) mine)
  end.

(** ** Creating *)

Record CreateOwnKeyRequest : Type := {
  for_user : option Z;
  key_name : option string;
  expires_at : option Z;
  ask_models : option (list string);
  ask_tools : option (list string);
  ask_workspace : option Z;
  ask_service : bool;
  ask_budget_id : option string;
  ask_budget_ids : option (list string);
  ask_max_end_users : option Z
}.

Definition _created_workspace (identity owner : User) (o : Organization) (asked : option Z) : M Z :=
  match asked with
  | Some w => let* w := resolve_workspace_in_organization (user_id owner) w o in ret (ws_id w)
  | None =>
      let* resolved := query (organization_default_workspace_id (org_id o)) in
      let* w := require resolved HTTP_409 in
      try_except (let* w := resolve_workspace_in_organization (user_id owner) w o in ret (ws_id w))
        (fun e => match e with
                  | Raised (WorkspaceNotFoundError _) =>
                      Some (require_workspace_contributor_access (user_id identity) (org_id o) w false ;;; fail HTTP_409)
                  | _ => None
                  end)
  end.

(** [or_400]: [except ValueError]. *)
Definition or_400 {A} (validated : option A) : M A := require validated HTTP_400.

Definition create_own_key (config : access_config) (request : CreateOwnKeyRequest) (identity : User)
    (hash owner_id : string) : M string :=
  refuse_if (is_set (for_user request) && ask_service request) HTTP_400 ;;;
  let* s := _caller_scope identity in
  let* named := _key_owner s (for_user request) in
  let owner := default identity named in
  let* end_users := admit_organization_key identity (organization s) (ask_service request) (ask_budget_id request)
                      (ask_budget_ids request) (ask_max_end_users request) in
  let* workspace := _created_workspace identity owner (organization s) (ask_workspace request) in
  hold_workspace_write_access (user_id identity) (org_id (organization s)) workspace false ;;;
  let* models := or_400 (validate_allowed_models config (ask_models request)) in
  let* tools := or_400 (validate_allowed_tools config (ask_tools request)) in
  let* existing := query (get_attribution_user (str_uuid (user_id owner))) in
  refuse_if (match existing with Some a => au_deleted a | None => false end) HTTP_409 ;;;
  let* billed := get_or_create_attribution_user (user_id owner) (or_else (full_name owner) (user_email owner)) in
  refuse_if (negb (is_allowlist_subset models (au_allowed_models billed) (legacy_search_tool_keys config))) HTTP_400 ;;;
  refuse_if (negb (tools_within_user config tools (au_allowed_tools billed) (au_allowed_models billed))) HTTP_400 ;;;
  let* i := query (fun t => fresh (dom (api_keys (others t)))) in
  try_except
    (let* billed :=
       if ask_service request
       then add_service_key_owner owner_id (default "Service key" (or_else (key_name request) None)) billed
       else ret billed in
     add_key i
       {| key_workspace_id := workspace; key_hash := hash; key_user_id := Some (au_user_id billed);
          key_is_active := true; self_service := Some true; operator_disabled := false;
          exclude_from_budget := false; is_service_key := ask_service request;
          key_expires_at := expires_at request; allowed_models := models; allowed_tools := tools;
          end_user_budget_id := end_users.1.1; end_user_budget_ids := end_users.1.2;
          max_end_users := end_users.2 |} ;;;
     commit)
    (fun e => match e with
              | IntegrityError | DatabaseError => Some (rollback ;;; fail HTTP_500)
              | _ => None
              end) ;;;
  ret i.

(** ** Changing *)

(** The fields a request names, each with its value; [other_fields]: a name, an override or metadata is among them. *)
Record UpdateOwnKeyRequest : Type := {
  set_active : option (option bool);
  set_expires_at : option (option Z);
  set_models : option (option (list string));
  set_tools : option (option (list string));
  set_service : option (option bool);
  set_end_users : EndUserSettings;
  other_fields : bool
}.

(** [fields == {"is_active"} and request.is_active is False]. *)
Definition switching_off (r : UpdateOwnKeyRequest) : bool :=
  bool_decide (set_active r = Some (Some false))
  && negb (is_set (set_expires_at r) || is_set (set_models r) || is_set (set_tools r) || is_set (set_service r)
           || names_settings (set_end_users r) || other_fields r).

Definition requested_active (r : UpdateOwnKeyRequest) : option bool := default None (set_active r).

Definition access_of (user : string) (t : db) : option (option (list string) * option (list string)) :=
  option_map (fun a => (au_allowed_models a, au_allowed_tools a)) (get_attribution_user user t).

(** [check_access_lists]: each list is checked where it changes, and must then fit the owner's. *)
Definition check_access_lists (config : access_config) (requested stored : option (list string) * option (list string))
    (owner_id : option string) : M (option (list string) * option (list string)) :=
  let models_changed := negb (bool_decide (requested.1 = stored.1)) in
  let tools_changed := negb (bool_decide (requested.2 = stored.2)) in
  let* models := if models_changed then require (validate_allowed_models config requested.1) ValueError
                 else ret stored.1 in
  let* tools := if tools_changed then require (validate_allowed_tools config requested.2) ValueError
                else ret stored.2 in
  match owner_id with
  | Some owner_id =>
      if models_changed || tools_changed then
        let* owner := uow_block (query (access_of owner_id)) in
        match owner with
        | None => ret (models, tools)
        | Some (user_models, user_tools) =>
            refuse_if (models_changed && negb (is_allowlist_subset models user_models (legacy_search_tool_keys config)))
              ValueError ;;;
            refuse_if (tools_changed && negb (tools_within_user config tools user_tools user_models)) ValueError ;;;
            ret (models, tools)
        end
      else ret (models, tools)
  | None => ret (models, tools)
  end.

Definition apply_changes (r : UpdateOwnKeyRequest) (e : EndUserSettings) (access : option (list string) * option (list string))
    (k : APIKey) : APIKey :=
  {| key_workspace_id := key_workspace_id k; key_hash := key_hash k; key_user_id := key_user_id k;
     key_is_active := default (key_is_active k) (requested_active r); self_service := self_service k;
     operator_disabled := operator_disabled k; exclude_from_budget := exclude_from_budget k;
     is_service_key := is_service_key k; key_expires_at := default (key_expires_at k) (set_expires_at r);
     allowed_models := access.1; allowed_tools := access.2;
     end_user_budget_id := default (end_user_budget_id k) (set_budget_id e);
     end_user_budget_ids := default (end_user_budget_ids k) (set_budget_ids e);
     max_end_users := default (max_end_users k) (set_max e) |}.

(** [update_owned]; the key is read again under its lock. *)
Definition update_owned (config : access_config) (key_id : string) (r : UpdateOwnKeyRequest) (e : EndUserSettings)
    (owner_id : string) : M unit :=
  uow_block (
    let* found := query (fun t => api_keys (others t) !! key_id) in
    match found with
    | None => raise DatabaseError
    | Some k =>
        refuse_if (bool_decide (requested_active r = Some true) && operator_disabled k) OperatorDisabledKeyError ;;;
        let stored := (allowed_models k, allowed_tools k) in
        let* access := check_access_lists config (default stored.1 (set_models r), default stored.2 (set_tools r))
                         stored (Some owner_id) in
        write_key key_id (apply_changes r e access)
    end).

Definition update_own_key (config : access_config) (key_id : string) (r : UpdateOwnKeyRequest) (identity : User) :
    M unit :=
  let revoking := switching_off r in
  let* k := _load_own_writable_key identity key_id revoking in
  refuse_service_key_flag_change k (default None (set_service r)) ;;;
  let* e := organization_key_changes identity k (set_end_users r) revoking in
  try_except (update_owned config key_id r e (default "None" (key_user_id k)))
    (fun x => match x with
              | Raised ValueError => Some (fail HTTP_400)
              | IntegrityError | DatabaseError => Some (fail HTTP_500)
              | _ => None
              end).

(** ** Rotating and deleting *)

Definition with_hash (hash : string) (k : APIKey) : APIKey :=
  {| key_workspace_id := key_workspace_id k; key_hash := hash; key_user_id := key_user_id k;
     key_is_active := key_is_active k; self_service := self_service k; operator_disabled := operator_disabled k;
     exclude_from_budget := exclude_from_budget k; is_service_key := is_service_key k;
     key_expires_at := key_expires_at k; allowed_models := allowed_models k; allowed_tools := allowed_tools k;
     end_user_budget_id := end_user_budget_id k; end_user_budget_ids := end_user_budget_ids k;
     max_end_users := max_end_users k |}.

Definition rotate_own_key (key_id : string) (identity : User) (hash : string) : M unit :=
  let* _ := _load_own_writable_key identity key_id false in
  write_key key_id (with_hash hash) ;;;
  commit_or_500.

(** The key's grants go with it. *)
Definition delete_own_key (key_id : string) (identity : User) : M unit :=
  let* _ := _load_own_writable_key identity key_id true in
  write (fun t =>
    let o := with_keys (delete key_id (api_keys (others t))) (others t) in
    with_others (with_grants (List.filter (fun g => negb (bool_decide (grant_api_key_id g = Some key_id))) (grants o)) o) t) ;;;
  commit_or_500.
