(* ===== verification/DependantSteps.v ===== *)
(** What each listener leaves of the other domains' rows, and the steps of a deployment that these make. *)
From S2P Require Import Prelude Periods Tables Text UnitOfWork Tenancy TenancyRepositories Organizations TransactionLogic RosterInvariant RosterMoves RosterRequests Dependants MemberPolicies ContentShares.
From stdpp Require Import base gmap fin_maps list option strings pretty.
From Stdlib Require Import ZArith Lia Relations.
Open Scope Z_scope.
Open Scope otari_scope.

Section DependantFacts.

#[export] Instance str_uuid_inj : Inj (=) (=) str_uuid.
Proof. apply pretty_Z_inj. Qed.

Implicit Types (o : dependants) (k : APIKey) (c : ScopedBudget) (w : WorkspaceMember).

(** ** What the deployment's listener does, told *)

Section Told.
Context (now : Z).
Local Instance listener : MembershipListener dependants := get_membership_listener now.

Lemma told_joined w o o' :
  member_joined w o = inr o' -> cap_member now (wm_id w) (for_workspace (wm_workspace w) o) o = inr o'.
Proof. cbn. by destruct (cap_member _ _ _ o). Qed.

Lemma told_removed w o o' :
  member_removed w o = inr o' ->
  o' = _remove (wm_user w) [wm_workspace w]
         (revoke_by [wm_workspace w] (wm_user w) now
            (deactivate_owned_in_workspaces (str_uuid (wm_user w)) [wm_workspace w] false true
               (delete_for_member (wm_id w) o))).
Proof. cbn. congruence. Qed.

Lemma told_role_changed w o o' :
  member_role_changed w o = inr o' ->
  o' = if bool_decide (wm_role w = Viewer)
       then deactivate_owned_in_workspaces (str_uuid (wm_user w)) [wm_workspace w] true false o else o.
Proof. cbn. congruence. Qed.

Lemma told_changed m ws o o' :
  organization_member_changed m ws o = inr o' ->
  o' = if bool_decide (om_status m = Suspended)
       then deactivate_owned_in_workspaces (str_uuid (om_user m)) ws false true o
       else if bool_decide (om_role m = Viewer)
       then deactivate_owned_in_workspaces (str_uuid (om_user m)) ws true false o else o.
Proof. cbn. congruence. Qed.

Lemma told_deleted workspace ids o o' :
  workspace_deleted workspace ids o = inr o' -> o' = delete_for_workspace workspace ids o.
Proof. cbn. congruence. Qed.

Lemma told_lost_workspaces user ws o o' :
  member_lost_workspaces user ws o = inr o' -> o' = _remove user ws (revoke_by ws user now o).
Proof. cbn. congruence. Qed.

End Told.

(** ** Lists *)

Lemma existsb_false {A} (p : A -> bool) l x : existsb p l = false -> In x l -> p x = false.
Proof.
  intros H Hx. destruct (p x) eqn:E; [|done]. rewrite <- H. symmetry. apply existsb_exists. by exists x.
Qed.

(** ** Ceilings *)

Lemma has_ceiling_spec scope i provider o :
  has_ceiling scope i provider o = true <->
  exists x c, scoped_budgets o !! x = Some c /\ scope_type c = scope /\ scope_id c = i /\ provider_key_id c = provider.
Proof.
  unfold has_ceiling, _scope_match. rewrite existsb_exists. split.
  - intros ([x c] & Hin & H). apply list_elem_of_In, elem_of_map_to_list in Hin. exists x, c.
    rewrite !andb_true_iff, !bool_decide_eq_true in H. cbn in H. tauto.
  - intros (x & c & Hx & H1 & H2 & H3). exists (x, c). split; [by apply list_elem_of_In, elem_of_map_to_list|].
    cbn. by rewrite !bool_decide_true.
Qed.

(** A table of ceilings that has gained only member ceilings of [allowed] scopes. *)
Definition grown (allowed : string -> Prop) o o' : Prop :=
  (forall x c, scoped_budgets o !! x = Some c -> scoped_budgets o' !! x = Some c)
  /\ (forall x c, scoped_budgets o' !! x = Some c ->
        scoped_budgets o !! x = Some c \/ (scope_type c = SCOPE_WORKSPACE_MEMBER /\ allowed (scope_id c))).

(** The rest of the rows is the same. *)
Definition only_ceilings o o' : Prop := o' = with_ceilings (scoped_budgets o') o.

Lemma grown_refl P o : grown P o o.
Proof. split; auto. Qed.

Lemma grown_trans P o1 o2 o3 : grown P o1 o2 -> grown P o2 o3 -> grown P o1 o3.
Proof. intros [H1 H2] [H3 H4]. split; [auto|]. intros x c Hx. destruct (H4 x c Hx) as [H|H]; auto. Qed.

Lemma grown_has P o o' scope i provider :
  grown P o o' -> has_ceiling scope i provider o = true -> has_ceiling scope i provider o' = true.
Proof. intros [H _]. rewrite !has_ceiling_spec. intros (x & c & Hx & ?). exists x, c. auto. Qed.

Lemma only_ceilings_refl o : only_ceilings o o.
Proof. by destruct o. Qed.

Lemma only_ceilings_trans o1 o2 o3 : only_ceilings o1 o2 -> only_ceilings o2 o3 -> only_ceilings o1 o3.
Proof. unfold only_ceilings. intros -> ->. done. Qed.

Lemma inserted_ceiling (P : string -> Prop) c o :
  scope_type c = SCOPE_WORKSPACE_MEMBER -> P (scope_id c) ->
  grown P o (insert_member_ceiling c o) /\ only_ceilings o (insert_member_ceiling c o)
  /\ has_ceiling SCOPE_WORKSPACE_MEMBER (scope_id c) (provider_key_id c) (insert_member_ceiling c o) = true.
Proof.
  intros Hs HP. unfold insert_member_ceiling. rewrite Hs.
  destruct (has_ceiling _ _ _ o) eqn:E; [by split_and!; [apply grown_refl|apply only_ceilings_refl|]|].
  set (x := fresh (dom (scoped_budgets o))).
  assert (scoped_budgets o !! x = None) as Hx by (apply not_elem_of_dom, is_fresh).
  split_and!; [split|done|].
  - intros y d Hy. cbn. rewrite lookup_insert_ne; [done|]. intros <-. congruence.
  - intros y d. cbn. destruct (decide (y = x)) as [->|Hne]; [rewrite lookup_insert_eq|rewrite lookup_insert_ne by done];
      [|by left]. intros [= <-]. by right.
  - apply has_ceiling_spec. exists x, c. cbn. by rewrite lookup_insert_eq.
Qed.

Lemma cap_member_spec now member l o o' :
  cap_member now member l o = inr o' ->
  grown (fun i => i = str_uuid member) o o' /\ only_ceilings o o'
  /\ forall p, In p l -> has_ceiling SCOPE_WORKSPACE_MEMBER (str_uuid member) (wbd_provider_key_id p) o' = true.
Proof.
  revert o. induction l as [|p l IH]; intros o; cbn [cap_member].
  - intros [= <-]. by split_and!; [apply grown_refl|apply only_ceilings_refl|].
  - destruct (has_ceiling _ _ _ o) eqn:E.
    + intros (Hg & Ho & Hl)%IH. split_and!; [done..|]. intros q [<-|Hq]; [by eapply grown_has|by apply Hl].
    + destruct (_budget_for p o) as [|b]; [done|]. unfold _member_ceiling.
      destruct (period_window _ _ _) as [window|]; [|done]. cbv zeta.
      set (c := mkScoped _ _ _ _ _ _ _ _ _). intros (Hg & Ho & Hl)%IH.
      destruct (inserted_ceiling (fun i => i = str_uuid member) c o) as (Hg' & Ho' & Hc); [done..|].
      split_and!; [by eapply grown_trans|by eapply only_ceilings_trans|].
      intros q [<-|Hq]; [by eapply grown_has|by apply Hl].
Qed.

Lemma delete_ceilings_lookup p o x c :
  scoped_budgets (delete_ceilings p o) !! x = Some c <-> scoped_budgets o !! x = Some c /\ p c = false.
Proof. cbn. by rewrite map_lookup_filter_Some. Qed.

Lemma for_workspace_In workspace o i p :
  policies o !! i = Some p -> wbd_workspace_id p = workspace -> In p (for_workspace workspace o).
Proof.
  intros Hp Hw. apply List.filter_In. rewrite Hw, Z.eqb_refl. split; [|done].
  apply in_map_iff. exists (i, p). split; [done|]. by apply list_elem_of_In, elem_of_map_to_list.
Qed.

(** ** Keys *)

Definition hit_by (user : string) (ws : list Z) (self_service_only by_operator : bool) k : bool :=
  bool_decide (key_user_id k = Some user) && bool_decide (key_workspace_id k ∈ ws)
  && (by_operator || key_is_active k) && (negb self_service_only || bool_decide (self_service k = Some true)).

Lemma deactivated user ws self_only by_operator o x k :
  api_keys (deactivate_owned_in_workspaces user ws self_only by_operator o) !! x = Some k <->
  exists k0, api_keys o !! x = Some k0
             /\ k = if hit_by user ws self_only by_operator k0 then switch_off by_operator k0 else k0.
Proof.
  unfold deactivate_owned_in_workspaces. cbn. rewrite lookup_fmap.
  destruct (api_keys o !! x) as [k0|] eqn:E; cbn; [|split; [done|by intros (? & ? & _)]].
  split; [intros [= <-]; by exists k0|]. by intros (? & [= <-] & ->).
Qed.

(** ** Shares *)

Lemma revoked_In ws user now o s :
  In s (shares (revoke_by ws user now o)) -> running s = true ->
  In s (shares o) /\ (share_workspace_id s ∈ ws -> shared_by_user_id s <> user).
Proof.
  cbn. intros (x & Hs & Hx)%in_map_iff Hr. destruct (_ && _) eqn:E in Hs.
  - subst s. done.
  - subst x. split; [done|]. intros Hw <-. rewrite bool_decide_true, Z.eqb_refl, Hr in E by done. done.
Qed.

End DependantFacts.

(** * The steps of a deployment, by rule: a membership move with the deployment's listener, or what a request about
    keys, policies or shares stores; and the facts of the places that each step keeps. *)

Section DependantSteps.

Local Notation db := (tenancy dependants).
Implicit Types (t : db) (o : dependants) (k : APIKey) (c : ScopedBudget) (w : WorkspaceMember) (s : TraceContentShare).

(** ** Places people have *)

(** [m] is the active membership of [user] in the organization of [workspace]. *)
Definition standing_in (user workspace : Z) (m : OrganizationMember) t : Prop :=
  exists v, get_workspace workspace t = Some v /\ In m (members t) /\ om_user m = user
            /\ om_organization m = ws_organization v /\ om_status m = Active.

Definition belongs (user workspace : Z) t : Prop := exists m, standing_in user workspace m t.

Definition active_row (user workspace : Z) t : Prop :=
  exists w, In w (workspace_members t) /\ wm_workspace w = workspace /\ wm_user w = user /\ wm_status w = Active.

Definition sees (user workspace : Z) t : Prop :=
  exists m, standing_in user workspace m t /\ (MANAGEMENT_ROLES (om_role m) = true \/ active_row user workspace t).

(** A key a member made for a person: not an operator's, nor a service key. *)
Definition personal k : Prop := self_service k = Some true /\ is_service_key k = false.
(** It is on, or its owner may switch it on. *)
Definition usable k : Prop := key_is_active k = true \/ operator_disabled k = false.

Definition keys_follow t : Prop :=
  forall i k, api_keys (others t) !! i = Some k -> personal k -> usable k ->
    exists user, key_user_id k = Some (str_uuid user) /\ belongs user (key_workspace_id k) t.

Definition shares_follow t : Prop :=
  forall s, In s (shares (others t)) -> running s = true -> sees (shared_by_user_id s) (share_workspace_id s) t.

(** Every active member of a workspace has a ceiling under each of its policies. *)
Definition capped t : Prop :=
  forall w i p, In w (workspace_members t) -> wm_status w = Active -> policies (others t) !! i = Some p ->
    wbd_workspace_id p = wm_workspace w ->
    has_ceiling SCOPE_WORKSPACE_MEMBER (str_uuid (wm_id w)) (wbd_provider_key_id p) (others t) = true.

(** Every member's ceiling is of a membership there is. *)
Definition accounted t : Prop :=
  forall x c, scoped_budgets (others t) !! x = Some c -> scope_type c = SCOPE_WORKSPACE_MEMBER ->
    exists w, In w (workspace_members t) /\ scope_id c = str_uuid (wm_id w).

(** ** Steps *)

Definition rows_of t := (members t, workspaces t, workspace_members t).
Definition watched o := (policies o, scoped_budgets o, api_keys o, shares o).
Definition same_bill k k' : Prop :=
  key_user_id k' = key_user_id k /\ key_workspace_id k' = key_workspace_id k /\ self_service k' = self_service k
  /\ is_service_key k' = is_service_key k /\ operator_disabled k' = operator_disabled k.

Inductive aside : db -> db -> Prop :=
| Unwatched t t' : rows_of t' = rows_of t -> watched (others t') = watched (others t) -> aside t t'
| KeyMinted t i k :
    api_keys (others t) !! i = None ->
    (personal k -> exists user, key_user_id k = Some (str_uuid user) /\ belongs user (key_workspace_id k) t) ->
    aside t (with_others (with_keys (<[i := k]> (api_keys (others t))) (others t)) t)
| KeyRewritten t i k k' :
    api_keys (others t) !! i = Some k -> same_bill k k' -> (key_is_active k' = true -> usable k) ->
    aside t (with_others (with_keys (<[i := k']> (api_keys (others t))) (others t)) t)
| KeyDeleted t i g :
    aside t (with_others (with_grants g (with_keys (delete i (api_keys (others t))) (others t))) t)
| ShareMade t s :
    is_workspace_member (share_workspace_id s) (Some (str_uuid (shared_by_user_id s))) t = true ->
    aside t (with_others (with_shares (shares (others t) ++ [s]) (others t)) t)
| SharesEnded t p now :
    aside t (with_others (with_shares (update_where p (end_share now) (shares (others t))) (others t)) t)
| PolicyAdded t i p o :
    policies (others t) !! i = None ->
    o = with_ceilings (scoped_budgets o) (with_policies (<[i := p]> (policies (others t))) (others t)) ->
    grown (fun x => exists w, In w (workspace_members t) /\ x = str_uuid (wm_id w)) (others t) o ->
    (forall w, In w (workspace_members t) -> wm_workspace w = wbd_workspace_id p -> wm_status w = Active ->
       has_ceiling SCOPE_WORKSPACE_MEMBER (str_uuid (wm_id w)) (wbd_provider_key_id p) o = true) ->
    aside t (with_others o t)
| PolicyRepointed t i budget :
    aside t (with_others (with_policies (alter (with_budget budget) i (policies (others t))) (others t)) t)
| PolicyRemoved t i :
    aside t (with_others (with_policies (delete i (policies (others t))) (others t)) t).

Inductive step (now : Z) : db -> db -> Prop :=
| Moved t t' : @move dependants (get_membership_listener now) request_plane t t' -> step now t t'
| Aside t t' : aside t t' -> step now t t'.

Lemma aside_rows t t' : aside t t' -> rows_of t' = rows_of t.
Proof. by destruct 1. Qed.

Lemma step_tidy now t t' : step now t t' -> tidy t -> tidy t'.
Proof.
  destruct 1 as [t t' Hm|t t' Ha]; [by apply (move_tidy (L := get_membership_listener now))|]. apply aside_rows in Ha as [= E1 E2 E3].
  unfold tidy. by rewrite E1, E2, E3.
Qed.

(** ** A standing that survives *)

Lemma find_app_some {A} (p : A -> bool) l l' x : List.find p l = Some x -> List.find p (l ++ l') = Some x.
Proof. induction l as [|y l IH]; cbn; [done|]. destruct (p y); auto. Qed.

Lemma find_filter_some {A} (p q : A -> bool) l x :
  List.find p l = Some x -> q x = true -> List.find p (List.filter q l) = Some x.
Proof.
  induction l as [|y l IH]; cbn; [done|]. destruct (p y) eqn:Hy.
  - intros [= <-] Hq. rewrite Hq. cbn. by rewrite Hy.
  - intros H Hq. destruct (q y); cbn; [rewrite Hy|]; auto.
Qed.

Lemma standing_rows user workspace m t t' :
  members t' = members t -> workspaces t' = workspaces t -> standing_in user workspace m t -> standing_in user workspace m t'.
Proof. intros E1 E2 (v & Hv & Hm). exists v. unfold get_workspace in *. by rewrite E1, E2. Qed.

Lemma standing_member user workspace m n t :
  standing_in user workspace m t -> standing_in user workspace m (with_members (members t ++ [n]) t).
Proof. intros (v & Hv & Hm & H). exists v. split; [done|]. split; [|done]. apply in_or_app. by left. Qed.

Lemma standing_changed user workspace m seen d t :
  om_id m <> om_id seen -> standing_in user workspace m t ->
  standing_in user workspace m (with_members (changed seen d t) t).
Proof.
  intros Hne (v & Hv & Hm & H). exists v. split; [done|]. split; [|done]. cbn. unfold changed.
  pose proof (In_update_where (fun x => om_id x =? om_id seen) (apply_membership_update seen d) _ _ Hm) as Hu.
  cbv beta in Hu. by rewrite (proj2 (Z.eqb_neq _ _) Hne) in Hu.
Qed.

Lemma standing_new_workspace user workspace m v t :
  standing_in user workspace m t -> standing_in user workspace m (with_workspaces (workspaces t ++ [v]) t).
Proof. intros (x & Hx & Hm). exists x. split; [|done]. by apply find_app_some. Qed.

Lemma standing_workspace_deleted user workspace gone m t l :
  workspace <> gone -> standing_in user workspace m t ->
  standing_in user workspace m
    (with_workspace_members l (with_workspaces (List.filter (fun x => negb (ws_id x =? gone)) (workspaces t)) t)).
Proof.
  intros Hne (v & Hv & Hm). exists v. split; [|done]. apply find_filter_some; [done|].
  apply List.find_some in Hv as [_ Hid]. apply negb_true_iff. rewrite Z.eqb_eq in Hid. rewrite Hid. by apply Z.eqb_neq.
Qed.

Lemma in_workspace_ids organization workspace t v :
  get_workspace workspace t = Some v -> ws_organization v = organization ->
  In workspace (get_ids_by_organization organization t).
Proof.
  intros [Hin Hid]%List.find_some Ho. reflect_bools. apply in_map_iff. exists v. split; [done|].
  apply List.filter_In. by rewrite Ho, Z.eqb_refl.
Qed.

Lemma standing_organization_deleted user workspace organization m o t :
  ~ In workspace (get_ids_by_organization organization t) -> standing_in user workspace m t ->
  standing_in user workspace m (cascade_organization organization (with_others o t)).
Proof.
  intros Hne (v & Hv & Hm & Hu & Ho & Ha).
  assert (ws_organization v <> organization) as Hvo by (intros E; by eapply Hne, in_workspace_ids).
  exists v. split_and!; try done; cbn.
  - apply find_filter_some; [done|]. by apply negb_true_iff, Z.eqb_neq.
  - apply List.filter_In. split; [done|]. rewrite Ho. by apply negb_true_iff, Z.eqb_neq.
Qed.

(** What the cascade leaves of the other domains' rows. *)
Lemma dropped_keys ids o : api_keys (foldr drop_workspace o ids) = api_keys o.
Proof. by induction ids. Qed.
Lemma dropped_ceilings ids o : scoped_budgets (foldr drop_workspace o ids) = scoped_budgets o.
Proof. by induction ids. Qed.
Lemma dropped_policies ids o i p :
  policies (foldr drop_workspace o ids) !! i = Some p -> policies o !! i = Some p /\ ~ In (wbd_workspace_id p) ids.
Proof.
  induction ids as [|w ids IH]; cbn; [auto|]. intros [H Hne]%map_lookup_filter_Some. cbn in Hne.
  destruct (IH H) as [? ?]. split; [done|]. intros [E|E]; congruence.
Qed.
Lemma dropped_shares ids o s :
  In s (shares (foldr drop_workspace o ids)) -> In s (shares o) /\ ~ In (share_workspace_id s) ids.
Proof.
  induction ids as [|w ids IH]; cbn; [auto|]. intros [H Hne]%List.filter_In. destruct (IH H) as [? ?].
  reflect_bools. split; [done|]. intros [E|E]; congruence.
Qed.

(** What is left once each workspace's deletion was told. *)
Lemma each_told now t ids o o' :
  @each_deleted dependants (get_membership_listener now) t ids o = inr o' ->
  watched o' = (policies o, scoped_budgets o', api_keys o, shares o)
  /\ forall x c, scoped_budgets o' !! x = Some c -> scoped_budgets o !! x = Some c
       /\ (scope_type c = SCOPE_WORKSPACE_MEMBER ->
           forall i w, In i ids -> In w (workspace_members t) -> wm_workspace w = i -> scope_id c <> str_uuid (wm_id w)).
Proof.
  revert o. induction ids as [|i ids IH]; intros o; cbn [each_deleted].
  - intros [= <-]. split; [done|]. intros x c Hx. split; [done|]. by intros _ i w [].
  - destruct (workspace_deleted _ _ o) as [e|o1] eqn:E; [done|]. apply told_deleted in E as ->.
    intros [Hw Hc]%IH. split; [exact Hw|]. intros x c Hx. destruct (Hc x c Hx) as [H1 H2].
    apply delete_ceilings_lookup in H1 as [H1 Hd]. split; [done|]. intros Hs j w [<-|Hj] Hin Hwj; [|by eapply H2].
    intros Hid. assert (str_uuid (wm_id w) ∈ map str_uuid (ids_for_workspace i t)) as Hm.
    { apply list_elem_of_In, in_map, in_map_iff. exists w. split; [done|]. apply List.filter_In. by rewrite Hwj, Z.eqb_refl. }
    rewrite Hs, Hid, (bool_decide_true _ Hm), orb_true_r in Hd. done.
Qed.

End DependantSteps.
