(* ===== verification/StepsKeep.v ===== *)
(** What every step of a deployment keeps: usable personal keys with active members, running shares with people who see
    the session's workspace, and each active member capped under each of its policies. *)
From S2P Require Import Prelude Periods Tables Text UnitOfWork Tenancy TenancyRepositories Organizations TransactionLogic RosterInvariant RosterMoves RosterRequests Dependants MemberPolicies ContentShares DependantSteps.
From stdpp Require Import base gmap fin_maps list option strings.
From Stdlib Require Import ZArith Lia Relations.
Open Scope Z_scope.
Open Scope otari_scope.

(** * Every step of a deployment keeps a usable personal key with an active member of its workspace's
    organization. *)

Section KeysFollow.

Local Notation db := (tenancy dependants).
Implicit Types (t : db) (o : dependants) (k : APIKey).

(** What a step may do to the usable keys it was not asked about: leave them, or switch them off. *)
Definition bill k := (self_service k, is_service_key k, key_user_id k, key_workspace_id k).
Definition carried o o' : Prop :=
  forall i k', api_keys o' !! i = Some k' -> usable k' ->
    exists k, api_keys o !! i = Some k /\ usable k /\ bill k' = bill k.

Lemma carried_same o o' : api_keys o' = api_keys o -> carried o o'.
Proof. intros E i k Hk Hu. rewrite E in Hk. by exists k. Qed.

Lemma carried_trans o1 o2 o3 : carried o1 o2 -> carried o2 o3 -> carried o1 o3.
Proof.
  intros H1 H2 i k Hk Hu. destruct (H2 i k Hk Hu) as (k2 & Hk2 & Hu2 & E2).
  destruct (H1 i k2 Hk2 Hu2) as (k1 & Hk1 & Hu1 & E1). exists k1. by rewrite E2.
Qed.

Lemma carried_off user ws self_only by_operator o :
  carried o (deactivate_owned_in_workspaces user ws self_only by_operator o).
Proof.
  intros i k' (k & Hk & ->)%deactivated Hu. exists k. destruct (hit_by _ _ _ _ k) eqn:E; [|done].
  split_and!; [done| |done]. destruct Hu as [Hu|Hu]; [done|]. cbn in Hu. apply orb_false_iff in Hu as [_ Hd]. by right.
Qed.

Lemma keys_carry t t' :
  carried (others t) (others t') ->
  (forall i k user, api_keys (others t') !! i = Some k -> usable k -> key_user_id k = Some (str_uuid user) ->
     belongs user (key_workspace_id k) t -> belongs user (key_workspace_id k) t') ->
  keys_follow t -> keys_follow t'.
Proof.
  intros Hc Hb H i k Hk Hp Hu. destruct (Hc i k Hk Hu) as (k0 & Hk0 & Hu0 & [= E1 E2 E3 E4]).
  destruct (H i k0) as (user & Huser & Hbel); [done|unfold personal in *; by rewrite <- E1, <- E2|done|].
  rewrite <- E3, <- E4 in *. exists user. split; [done|]. by eapply Hb.
Qed.

(** The same, where the standings only grow. *)
Lemma keys_carry_all t t' :
  carried (others t) (others t') -> (forall user workspace, belongs user workspace t -> belongs user workspace t') ->
  keys_follow t -> keys_follow t'.
Proof. intros Hc Hb. apply keys_carry; [done|]. intros i k user _ _ _. apply Hb. Qed.

Lemma belongs_rows user workspace t t' :
  members t' = members t -> workspaces t' = workspaces t -> belongs user workspace t -> belongs user workspace t'.
Proof. intros E1 E2 [m Hm]. exists m. by eapply standing_rows. Qed.

(** ** A changed membership *)

Lemma updated_active seen d :
  settable d -> om_status seen = Active -> om_status (updated seen d) = Active \/ om_status (updated seen d) = Suspended.
Proof.
  unfold settable, updated, apply_membership_update, net_change. intros Hd Hs. cbn. destruct (up_status d) as [[]|]; try done;
    rewrite ?Hs; cbn; auto.
Qed.

Lemma standing_updated user workspace seen d t :
  In seen (members t) -> om_status (updated seen d) = Active -> standing_in user workspace seen t ->
  standing_in user workspace (updated seen d) (with_members (changed seen d t) t).
Proof.
  intros Hin Ha (v & Hv & _ & Hu & Ho & _). exists v. split_and!; try done. cbn. unfold changed.
  pose proof (In_update_where (fun x => om_id x =? om_id seen) (apply_membership_update seen d) _ _ Hin) as H.
  cbv beta in H. by rewrite Z.eqb_refl in H.
Qed.

Lemma same_member t m n : tidy t -> In m (members t) -> In n (members t) -> om_id m = om_id n -> m = n.
Proof. intros (Hn & _). by apply same_key. Qed.

Section Moved.
Context (now : Z).
Local Instance keys_listener : MembershipListener dependants := get_membership_listener now.

Lemma keys_member_changed t seen d o o' :
  tidy t -> In seen (members t) -> settable d ->
  lost_told seen (updated seen d) t = inr o ->
  organization_member_changed (updated seen d) (get_ids_by_organization (om_organization seen) t) o = inr o' ->
  keys_follow t -> keys_follow (with_others o' (with_members (changed seen d t) t)).
Proof.
  intros Ht Hin Hd Hl Ho. apply told_changed in Ho.
  assert (api_keys o = api_keys (others t)) as Ek.
  { unfold lost_told, told_lost in Hl. repeat case_match; try (by injection Hl as <-); by apply told_lost_workspaces in Hl as ->. }
  apply keys_carry; cbn.
  - subst o'. repeat case_match; try (by apply carried_same);
      (eapply carried_trans; [|apply carried_off]); by apply carried_same.
  - intros i k user Hk Hu Huser [m Hm]. destruct (decide (om_id m = om_id seen)) as [E|Hne].
    2: { exists m. apply (standing_rows user (key_workspace_id k) m (with_members (changed seen d t) t)); [done..|].
         by apply standing_changed. }
    assert (m = seen) as -> by (apply (same_member t); try done; by destruct Hm as (v & _ & ? & _)).
    assert (om_status seen = Active) as Ha by by destruct Hm as (v & _ & _ & _ & _ & ?).
    destruct (updated_active seen d Hd Ha) as [Hua|Hus].
    + exists (updated seen d). apply (standing_rows user (key_workspace_id k) _ (with_members (changed seen d t) t)); [done..|].
      by apply standing_updated.
    + rewrite Hus, bool_decide_true in Ho by done. subst o'. apply deactivated in Hk as (k0 & Hk0 & ->).
      exfalso. destruct (hit_by _ _ _ _ k0) eqn:Eh; [by destruct Hu|].
      destruct Hm as (v & Hv & _ & Hmu & Hmo & _). unfold hit_by in Eh.
      rewrite (bool_decide_true (key_user_id k0 = _)) in Eh by (cbn; by rewrite Hmu).
      rewrite bool_decide_true in Eh; [done|]. by eapply list_elem_of_In, in_workspace_ids.
Qed.

Lemma keys_moved t t' : tidy t -> @move dependants keys_listener request_plane t t' -> keys_follow t -> keys_follow t'.
Proof.
  intros Ht Hm. destruct Hm.
  - destruct H as (E1 & E2 & E3 & E4). apply keys_carry_all; [apply carried_same; by rewrite E4|].
    intros ? ?; by apply belongs_rows.
  - apply keys_carry_all; [by apply carried_same|]. intros user workspace [x Hx]. exists x. by apply standing_member.
  - apply keys_carry_all; [by apply carried_same|]. intros user workspace [x Hx]. exists x. apply standing_changed; [|done].
    intros E. destruct Hx as (v & _ & Hx & _ & _ & Ha). by rewrite (same_member t x seen) in Ha.
  - apply keys_carry_all; [apply carried_same; by apply told_lost_workspaces in H as ->|]. intros ? ?; by apply belongs_rows.
  - by eapply keys_member_changed.
  - apply keys_carry_all; [by apply carried_same|]. intros user workspace [x Hx]. exists x. by apply standing_new_workspace.
  - apply told_joined, cap_member_spec in H3 as (_ & Ho & _).
    apply keys_carry_all; [apply carried_same; cbn; by rewrite Ho|]. intros ? ?; by apply belongs_rows.
  - assert (api_keys o = api_keys (others t)) as Ek.
    { destruct (is_active_workspace_member w); [by injection H0 as <-|].
      apply told_joined, cap_member_spec in H0 as (_ & Ho & _). by rewrite Ho. }
    apply keys_carry_all; [by apply carried_same|]. intros ? ?; by apply belongs_rows.
  - apply told_role_changed in H0 as ->. apply keys_carry_all; [|intros ? ?; by apply belongs_rows].
    cbn. case_match; [apply carried_off|by apply carried_same].
  - apply told_removed in H0 as ->. apply keys_carry_all; [|intros ? ?; by apply belongs_rows].
    cbn. eapply carried_trans; [|eapply carried_trans; [apply carried_off|by apply carried_same]]. by apply carried_same.
  - apply told_deleted in H as ->. apply keys_carry; [by apply carried_same|]. cbn.
    intros i k user Hk _ _ [x Hx]. exists x.
    apply (standing_rows _ _ _ (with_workspace_members (workspace_members t)
             (with_workspaces (List.filter (fun x => negb (ws_id x =? workspace)) (workspaces t)) t))); [done..|].
    apply standing_workspace_deleted; [|done]. intros E. cbn in H0. apply orb_false_iff in H0 as [H0 _].
    apply (existsb_false _ _ (i, k)) in H0; [cbn in H0; by apply Z.eqb_neq in H0|].
    by apply list_elem_of_In, elem_of_map_to_list.
  - apply each_told in H as [[= _ Ek _] _]. apply keys_carry; [apply carried_same; cbn; by rewrite dropped_keys|].
    cbn. intros i k user Hk _ _ [x Hx]. exists x. apply standing_organization_deleted; [|done]. intros Hids.
    rewrite dropped_keys in Hk. apply (existsb_false _ _ _ H0) in Hids. cbn in Hids.
    apply orb_false_iff in Hids as [Hids _].
    apply (existsb_false _ _ (i, k)) in Hids; [cbn in Hids; by rewrite Z.eqb_refl in Hids|].
    by apply list_elem_of_In, elem_of_map_to_list.
Qed.

End Moved.

Lemma keys_aside t t' : aside t t' -> keys_follow t -> keys_follow t'.
Proof.
  destruct 1.
  - injection H as E1 E2 E3. injection H0 as _ _ Ek _. apply keys_carry_all; [by apply carried_same|]. intros ? ?; by apply belongs_rows.
  - intros Hf j k' Hk' Hp Hu. cbn in Hk'. destruct (decide (j = i)) as [->|Hne].
    + rewrite lookup_insert_eq in Hk'. injection Hk' as <-. destruct (H0 Hp) as (user & Huser & Hb).
      exists user. split; [done|]. by eapply belongs_rows.
    + rewrite lookup_insert_ne in Hk' by done. destruct (Hf j k' Hk' Hp Hu) as (user & Huser & Hb).
      exists user. split; [done|]. by eapply belongs_rows.
  - destruct H0 as (E1 & E2 & E3 & E4 & E5). apply keys_carry_all; [|intros ? ?; by apply belongs_rows].
    intros j x Hx Hu. cbn in Hx. destruct (decide (j = i)) as [->|Hne].
    + rewrite lookup_insert_eq in Hx. injection Hx as <-. exists k. split_and!; [done| |unfold bill; congruence].
      destruct Hu as [Hu|Hu]; [by apply H1|]. right. congruence.
    + rewrite lookup_insert_ne in Hx by done. by exists x.
  - apply keys_carry_all; [|intros ? ?; by apply belongs_rows].
    intros j x Hx Hu. cbn in Hx. apply lookup_delete_Some in Hx as [_ Hx]. by exists x.
  - apply keys_carry_all; [by apply carried_same|]. intros ? ?; by apply belongs_rows.
  - apply keys_carry_all; [by apply carried_same|]. intros ? ?; by apply belongs_rows.
  - apply keys_carry_all; [apply carried_same; cbn; by rewrite H0|]. intros ? ?; by apply belongs_rows.
  - apply keys_carry_all; [by apply carried_same|]. intros ? ?; by apply belongs_rows.
  - apply keys_carry_all; [by apply carried_same|]. intros ? ?; by apply belongs_rows.
Qed.

Lemma keys_step now t t' : step now t t' -> tidy t -> keys_follow t -> keys_follow t'.
Proof. destruct 1; intros Ht; [by apply (keys_moved now)|by apply keys_aside]. Qed.

End KeysFollow.

(** * Every step of a deployment keeps a running share with somebody who sees the session's workspace. *)

Section SharesFollow.

Local Notation db := (tenancy dependants).
Implicit Types (t : db) (o : dependants) (s : TraceContentShare) (w : WorkspaceMember).

Lemma shares_carry t t' :
  (forall s, In s (shares (others t')) -> running s = true ->
     In s (shares (others t)) /\ (sees (shared_by_user_id s) (share_workspace_id s) t ->
                                  sees (shared_by_user_id s) (share_workspace_id s) t')) ->
  shares_follow t -> shares_follow t'.
Proof. intros H Hf s Hs Hr. destruct (H s Hs Hr) as [Hin Hsee]. by apply Hsee, Hf. Qed.

(** The same shares, and standings and rows that only grow. *)
Lemma shares_carry_all t t' :
  shares (others t') = shares (others t) ->
  (forall user workspace, sees user workspace t -> sees user workspace t') -> shares_follow t -> shares_follow t'.
Proof. intros E Hsee. apply shares_carry. intros s Hs _. rewrite E in Hs. auto. Qed.

Lemma sees_carry user workspace t t' :
  (forall m, standing_in user workspace m t -> standing_in user workspace m t') ->
  (active_row user workspace t -> active_row user workspace t') -> sees user workspace t -> sees user workspace t'.
Proof. intros Hs Hr (m & Hm & H). exists m. split; [by apply Hs|]. destruct H; auto. Qed.

Lemma sees_rows user workspace t t' :
  members t' = members t -> workspaces t' = workspaces t ->
  (active_row user workspace t -> active_row user workspace t') -> sees user workspace t -> sees user workspace t'.
Proof. intros E1 E2. apply sees_carry. intros m. by apply standing_rows. Qed.

Lemma active_row_same user workspace t t' :
  workspace_members t' = workspace_members t -> active_row user workspace t -> active_row user workspace t'.
Proof. unfold active_row. by intros ->. Qed.

Lemma sees_same user workspace t t' : rows_of t' = rows_of t -> sees user workspace t -> sees user workspace t'.
Proof. intros [= E1 E2 E3]. apply sees_rows; [done..|]. by apply active_row_same. Qed.

Lemma active_row_reworked user workspace w role status t t' :
  tidy t -> In w (workspace_members t) -> workspace_members t' = reworked w role status t ->
  (wm_status w = Active -> wm_status (apply_workspace_member_update w role status w) = Active) ->
  active_row user workspace t -> active_row user workspace t'.
Proof.
  intros (_ & _ & Hn) Hin E Ha (x & Hx & Hw & Hu & Hs). unfold active_row. rewrite E.
  destruct (decide (wm_id x = wm_id w)) as [Eid|Hne].
  - assert (x = w) as -> by by apply (same_key wm_id _ _ _ Hn).
    exists (apply_workspace_member_update w role status w). split; [by apply In_reworked; [..|left]|].
    split_and!; auto.
  - exists x. split; [|done]. apply In_reworked; [done..|]. by right.
Qed.

Lemma kept_row user organization workspace t :
  workspace ∈ get_workspace_ids_for_user user organization None t -> active_row user workspace t.
Proof.
  intros (w & Hw & [Hin Hp]%List.filter_In)%list_elem_of_In%in_map_iff. exists w.
  unfold is_active_workspace_member in Hp. reflect_bools. done.
Qed.

Section Moved.
Context (now : Z).
Local Instance shares_listener : MembershipListener dependants := get_membership_listener now.

(** What a person lost, their shares lost. *)
Lemma told_shares user ids t o s :
  told_lost user ids t = inr o -> In s (shares o) -> running s = true ->
  In s (shares (others t)) /\ (share_workspace_id s ∈ ids -> shared_by_user_id s <> user).
Proof.
  unfold told_lost. destruct ids as [|i ids]; [intros [= <-] Hs _; split; [done|by intros ?%elem_of_nil]|].
  intros ->%told_lost_workspaces Hs Hr. by apply (revoked_In (i :: ids) user now).
Qed.

(** Who saw a workspace by the membership [seen] and lost it has no share running in it. *)
Lemma lost_shares seen d t o s :
  settable d -> In seen (members t) -> lost_told seen (updated seen d) t = inr o ->
  In s (shares o) -> running s = true ->
  In s (shares (others t))
  /\ (standing_in (shared_by_user_id s) (share_workspace_id s) seen t ->
      MANAGEMENT_ROLES (om_role seen) = true \/ active_row (shared_by_user_id s) (share_workspace_id s) t ->
      om_status (updated seen d) = Active
      /\ (MANAGEMENT_ROLES (om_role (updated seen d)) = true \/ active_row (shared_by_user_id s) (share_workspace_id s) t)).
Proof.
  intros Hd Hin Hl Hs Hr.
  assert (In s (shares (others t))) as Hst.
  { unfold lost_told in Hl. repeat case_match; [by eapply told_shares|by eapply told_shares|by injection Hl as <-]. }
  split; [done|]. intros (v & Hv & _ & Hu & Ho & Ha) Hsee.
  assert (share_workspace_id s ∈ get_ids_by_organization (om_organization seen) t) as Hids
    by by eapply list_elem_of_In, in_workspace_ids.
  destruct (updated_active seen d Hd Ha) as [Hua|Hus].
  - split; [done|]. destruct (MANAGEMENT_ROLES (om_role (updated seen d))) eqn:Em; [by left|].
    destruct Hsee as [Hms|Hrow]; [|by right]. right.
    destruct (decide (share_workspace_id s ∈ get_workspace_ids_for_user (om_user seen) (om_organization seen) None t))
      as [Hk|Hk]; [rewrite <- Hu; by eapply kept_row|].
    exfalso. unfold lost_told, is_active_member in Hl.
    rewrite Hua, Ha, Hms, Em in Hl. cbn [bool_decide andb negb] in Hl.
    rewrite (bool_decide_false (Active = Suspended)), bool_decide_true in Hl by done. cbn in Hl.
    destruct (told_shares _ _ _ _ _ Hl Hs Hr) as [_ Hne]. apply Hne; [|by rewrite <- Hu].
    unfold lost_ids. apply list_elem_of_In, List.filter_In. split; [by apply list_elem_of_In|].
    by apply negb_true_iff, bool_decide_eq_false.
  - exfalso. unfold lost_told in Hl. rewrite bool_decide_true in Hl by done.
    destruct (told_shares _ _ _ _ _ Hl Hs Hr) as [_ Hne]. apply Hne; [done|by rewrite <- Hu].
Qed.

Lemma shares_member_changed t seen d o o' :
  tidy t -> In seen (members t) -> settable d ->
  lost_told seen (updated seen d) t = inr o ->
  organization_member_changed (updated seen d) (get_ids_by_organization (om_organization seen) t) o = inr o' ->
  shares_follow t -> shares_follow (with_others o' (with_members (changed seen d t) t)).
Proof.
  intros Ht Hin Hd Hl Ho. apply told_changed in Ho.
  assert (shares o' = shares o) as Es by (subst o'; repeat case_match; done).
  apply shares_carry. cbn. rewrite Es. intros s Hs Hr. destruct (lost_shares seen d t o s) as [Hst Hsee]; try done.
  split; [done|]. intros (m & Hm & Hrow). destruct (decide (om_id m = om_id seen)) as [E|Hne].
  - assert (m = seen) as -> by (apply (same_member t); try done; by destruct Hm as (v & _ & ? & _)).
    destruct (Hsee Hm Hrow) as [Hua H]. exists (updated seen d). split; [|done].
    eapply standing_rows; [done|done|]. by apply standing_updated.
  - exists m. split; [|done]. eapply standing_rows; [done|done|]. by apply standing_changed.
Qed.

Lemma shares_moved t t' : tidy t -> @move dependants shares_listener request_plane t t' -> shares_follow t -> shares_follow t'.
Proof.
  intros Ht Hm. destruct Hm.
  - destruct H as (E1 & E2 & E3 & E4). apply shares_carry_all; [by rewrite E4|].
    intros ? ?. apply sees_same. unfold rows_of. by rewrite E1, E2, E3.
  - apply shares_carry_all; [done|]. intros ? ?. apply sees_carry; [|done]. intros x. apply standing_member.
  - apply shares_carry_all; [done|]. intros ? ?. apply sees_carry; [|done]. intros x Hx. apply standing_changed; [|done].
    intros E. destruct Hx as (v & _ & Hx & _ & _ & Ha). by rewrite (same_member t x seen) in Ha.
  - apply told_lost_workspaces in H as ->. apply shares_carry. cbn. intros s Hs Hr.
    apply (revoked_In ids user now) in Hs as [Hs _]; [|done]. split; [done|]. by apply sees_rows.
  - by eapply shares_member_changed.
  - apply shares_carry_all; [done|]. intros ? ?. apply sees_carry; [|done]. intros x. apply standing_new_workspace.
  - apply told_joined, cap_member_spec in H3 as (_ & Ho & _).
    apply shares_carry_all; [cbn; by rewrite Ho|]. intros ? ?. apply sees_rows; [done..|].
    intros (x & Hx & ?). exists x. split; [|done]. apply in_or_app. by left.
  - assert (shares o = shares (others t)) as Es.
    { destruct (is_active_workspace_member w); [by injection H0 as <-|].
      apply told_joined, cap_member_spec in H0 as (_ & Ho & _). by rewrite Ho. }
    apply shares_carry_all; [done|]. intros ? ?. apply sees_rows; [done..|].
    eapply active_row_reworked; [done..|]. intros Ha. unfold apply_workspace_member_update, net_change. cbn.
    by destruct (decide _).
  - apply told_role_changed in H0 as ->. apply shares_carry_all; [cbn; by case_match|]. intros ? ?.
    apply sees_rows; [done..|]. by eapply active_row_reworked.
  - apply told_removed in H0 as ->. apply shares_carry. cbn [others with_others]. intros s Hs Hr.
    apply (revoked_In [wm_workspace w] (wm_user w) now) in Hs as [Hs Hne]; [|done]. split; [done|].
    apply sees_rows; [done..|]. intros (x & Hx & Hw & Hu & Ha). exists x. split; [|done].
    apply List.filter_In. split; [done|]. apply negb_true_iff, Z.eqb_neq. intros E.
    destruct Ht as (_ & _ & Hn). assert (x = w) as -> by by apply (same_key wm_id _ _ _ Hn).
    apply Hne; [|done]. rewrite <- Hw. by apply list_elem_of_singleton.
  - apply told_deleted in H as ->. apply shares_carry. cbn. intros s [Hs Hne]%List.filter_In Hr. reflect_bools.
    split; [done|]. apply sees_carry.
    + intros m Hm. apply (standing_rows _ _ _ (with_workspace_members (workspace_members t)
             (with_workspaces (List.filter (fun x => negb (ws_id x =? workspace)) (workspaces t)) t))); [done..|].
      by apply standing_workspace_deleted.
    + intros (x & Hx & Hw & ?). exists x. split; [|done]. apply List.filter_In. split; [done|].
      apply negb_true_iff, Z.eqb_neq. congruence.
  - apply each_told in H as [[= _ _ Es] _]. apply shares_carry. cbn. intros s [Hs Hne]%dropped_shares Hr.
    rewrite Es in Hs. split; [done|]. intros (m & Hm & Hrow). exists m.
    split; [by apply standing_organization_deleted|]. destruct Hrow as [|(x & Hx & Hw & ?)]; [by left|right].
    exists x. split; [|done]. apply List.filter_In. split; [done|]. apply negb_true_iff. rewrite Hw.
    destruct Hm as (v & Hv & _). unfold workspace_in. pose proof Hv as Hv'. unfold get_workspace in Hv' |- *.
    cbn [workspaces with_others]. rewrite Hv'. apply Z.eqb_neq. intros E.
    by eapply Hne, in_workspace_ids.
Qed.

End Moved.

(** ** Who may share is who sees *)

Lemma member_sees workspace user t :
  is_workspace_member workspace (Some (str_uuid user)) t = true -> sees user workspace t.
Proof.
  unfold is_workspace_member. destruct (get_workspace workspace t) as [v|] eqn:Ev; [|done].
  destruct (person_named (str_uuid user) t) as [account|] eqn:Ea; [|done].
  apply List.find_some in Ea as [_ Ea]. apply bool_decide_eq_true in Ea. apply (inj str_uuid) in Ea.
  intros [_ H]%andb_true_iff. destruct (get_active_by_organization_and_user _ _ t) as [m|] eqn:Em; [|done].
  apply List.find_some in Em as [Hm Hp]. unfold is_active_member in Hp. reflect_bools.
  exists m. split; [by exists v; split_and!; congruence|]. apply orb_true_iff in H as [H|H]; [by left|right].
  destruct (get_by_workspace_and_user _ _ t) as [x|] eqn:Ex; [|done]. apply List.find_some in Ex as [Hx Hp].
  unfold is_active_workspace_member in H. reflect_bools. exists x. by split_and!; congruence.
Qed.

Lemma shares_aside t t' : aside t t' -> shares_follow t -> shares_follow t'.
Proof.
  destruct 1; try (apply shares_carry_all; [done|by intros ? ?; apply sees_same]).
  - injection H0 as _ _ _ Es. apply shares_carry_all; [done|]. intros ? ?. by apply sees_same.
  - intros Hf x Hx Hr. cbn in Hx. apply in_app_or in Hx as [Hx|[<-|[]]].
    + apply (sees_same _ _ t); [done|]. by apply Hf.
    + apply (sees_same _ _ t); [done|]. by apply member_sees.
  - apply shares_carry. intros x Hx Hr. cbn in Hx. apply update_where_In in Hx as (y & Hy & ->).
    destruct (p y); [done|]. split; [done|]. by apply sees_same.
  - apply shares_carry_all; [cbn; by rewrite H0|]. intros ? ?. by apply sees_same.
Qed.

Lemma shares_step now t t' : step now t t' -> tidy t -> shares_follow t -> shares_follow t'.
Proof. destruct 1; intros Ht; [by apply (shares_moved now)|by apply shares_aside]. Qed.

End SharesFollow.

(** * Every step of a deployment keeps each active member of a workspace capped under each of its policies, and no
    ceiling of a membership that is gone. *)

Section MembersCapped.

Local Notation db := (tenancy dependants).
Local Notation MEMBER := SCOPE_WORKSPACE_MEMBER.
Implicit Types (t : db) (o : dependants) (c : ScopedBudget) (w : WorkspaceMember) (p : WorkspaceBudgetDefault).

(** ** Carried over *)

(** Rows of the same memberships. *)
Definition was_there w t : Prop :=
  exists x, In x (workspace_members t) /\ wm_id x = wm_id w /\ wm_workspace x = wm_workspace w
            /\ (wm_status w = Active -> wm_status x = Active).

Definition policy_was p o : Prop :=
  exists j q, policies o !! j = Some q /\ wbd_workspace_id q = wbd_workspace_id p
              /\ wbd_provider_key_id q = wbd_provider_key_id p.

Definition kept_for w o o' : Prop :=
  forall provider, has_ceiling MEMBER (str_uuid (wm_id w)) provider o = true ->
    has_ceiling MEMBER (str_uuid (wm_id w)) provider o' = true.

(** A member of [t'], under a policy of [t']: from [t]. *)
Lemma capped_from t t' w i p :
  capped t -> was_there w t -> wm_status w = Active -> policies (others t') !! i = Some p ->
  policy_was p (others t) -> wbd_workspace_id p = wm_workspace w -> kept_for w (others t) (others t') ->
  has_ceiling MEMBER (str_uuid (wm_id w)) (wbd_provider_key_id p) (others t') = true.
Proof.
  intros Hc (x & Hx & Hid & Hw & Ha) Hact _ (j & q & Hq & Hqw & Hqp) Hp Hk. apply Hk. rewrite <- Hid, <- Hqp.
  eapply Hc; [done|by apply Ha|done|]. congruence.
Qed.

Lemma capped_carry t t' :
  (forall w, In w (workspace_members t') -> was_there w t) ->
  (forall i p, policies (others t') !! i = Some p -> policy_was p (others t)) ->
  (forall w, In w (workspace_members t') -> kept_for w (others t) (others t')) -> capped t -> capped t'.
Proof. intros Hw Hp Hk Hc w i p Hin Ha Hi Hwp. eapply capped_from; eauto. Qed.

Lemma was_there_in w t : In w (workspace_members t) -> was_there w t.
Proof. intros H. by exists w. Qed.
Lemma policy_was_in i p o : policies o !! i = Some p -> policy_was p o.
Proof. intros H. by exists i, p. Qed.
Lemma kept_for_same w o o' : scoped_budgets o' = scoped_budgets o -> kept_for w o o'.
Proof. intros E provider. unfold has_ceiling. by rewrite E. Qed.
Lemma kept_for_grown P w o o' : grown P o o' -> kept_for w o o'.
Proof. intros H provider. by eapply grown_has. Qed.

Hint Resolve was_there_in policy_was_in kept_for_same kept_for_grown : capped.

(** A row in place. *)
Lemma was_there_reworked w role status t x :
  tidy t -> In w (workspace_members t) ->
  (wm_status (apply_workspace_member_update w role status w) = Active -> wm_status w = Active) ->
  In x (reworked w role status t) -> was_there x t.
Proof.
  intros (_ & _ & Hn) Hin Ha [->|[Hx _]]%In_reworked; [|by apply was_there_in|done..]. by exists w.
Qed.

(** Ceilings deleted for others. *)
Lemma kept_for_deleted d w o :
  (forall c, scope_type c = MEMBER -> scope_id c = str_uuid (wm_id w) -> d c = false) ->
  kept_for w o (delete_ceilings d o).
Proof.
  intros Hd provider. rewrite !has_ceiling_spec. intros (x & c & Hx & Hs & Hi & Hp). exists x, c.
  split; [|done]. apply delete_ceilings_lookup. auto.
Qed.

Lemma kept_for_member member w o : wm_id w <> member -> kept_for w o (delete_for_member member o).
Proof.
  intros Hne. apply kept_for_deleted. intros c _ ->. apply andb_false_iff. right. apply bool_decide_eq_false.
  intros E. by apply (inj str_uuid) in E.
Qed.

Lemma kept_for_workspace workspace w t o :
  tidy t -> In w (workspace_members t) -> wm_workspace w <> workspace ->
  kept_for w o (delete_for_workspace workspace (ids_for_workspace workspace t) o).
Proof.
  intros (_ & _ & Hn) Hin Hne. apply kept_for_deleted. intros c -> ->. apply orb_false_iff. split; [done|].
  apply andb_false_iff. right. apply bool_decide_eq_false.
  intros (y & E & (x & <- & [Hx Hw]%List.filter_In)%in_map_iff)%list_elem_of_In%in_map_iff.
  apply (inj str_uuid) in E. reflect_bools. by rewrite (same_key wm_id _ x w Hn) in Hw.
Qed.

Lemma kept_for_trans w o1 o2 o3 : kept_for w o1 o2 -> kept_for w o2 o3 -> kept_for w o1 o3.
Proof. intros H1 H2 provider H. auto. Qed.

Section Moved.
Context (now : Z).
Local Instance caps_listener : MembershipListener dependants := get_membership_listener now.

Lemma kept_each_told t ids o o' w :
  tidy t -> In w (workspace_members t) -> ~ In (wm_workspace w) ids -> each_deleted t ids o = inr o' -> kept_for w o o'.
Proof.
  intros Ht Hin. revert o. induction ids as [|i ids IH]; intros o Hne; cbn [each_deleted]; [intros [= <-]; by intros ?|].
  destruct (workspace_deleted _ _ o) as [e|o1] eqn:E; [done|]. apply told_deleted in E as ->. intros H.
  eapply kept_for_trans; [|apply IH; [|exact H]]; [|by intros ?; apply Hne; right].
  apply kept_for_workspace; [done..|]. intros <-. apply Hne. by left.
Qed.

(** A row inserted, or revived, and capped. *)
Lemma capped_joined t w o l :
  member_joined w (others t) = inr o -> capped t ->
  (forall x, In x l -> x = w \/ was_there x t) -> capped (with_others o (with_workspace_members l t)).
Proof.
  intros (Hg & Ho & Hl)%told_joined%cap_member_spec Hc Hin x i p Hx Ha Hp Hw. cbn in Hx, Hp.
  assert (policies (others t) !! i = Some p) as Hp' by by rewrite Ho in Hp.
  destruct (Hin x Hx) as [->|Hwas].
  - apply Hl. by eapply for_workspace_In.
  - eapply (capped_from t); eauto with capped.
Qed.

Lemma capped_moved t t' : tidy t -> @move dependants caps_listener request_plane t t' -> capped t -> capped t'.
Proof.
  intros Ht Hm. destruct Hm.
  - destruct H as (E1 & E2 & E3 & E4). intros Hc w i p. rewrite E3, E4. apply Hc.
  - done.
  - done.
  - apply told_lost_workspaces in H as ->. apply capped_carry; cbn; eauto with capped.
  - apply told_changed in H2. assert (watched o' = (policies (others t), scoped_budgets (others t), api_keys o', shares o')) as Ew.
    { assert (policies o = policies (others t) /\ scoped_budgets o = scoped_budgets (others t)) as [E1 E2].
      { unfold lost_told, told_lost in H1. repeat case_match; try (by injection H1 as <-);
          by apply told_lost_workspaces in H1 as ->. }
      rewrite <- E1, <- E2. subst o'. by repeat case_match. }
    injection Ew as E1 E2. apply capped_carry; cbn; rewrite ?E1; eauto with capped.
  - done.
  - intros Hc. eapply capped_joined; [done..|]. intros x [Hx|[<-|[]]]%in_app_or; [right; by apply was_there_in|by left].
  - destruct (is_active_workspace_member w) eqn:Ea.
    + injection H0 as <-. apply capped_carry; cbn; eauto with capped. intros x. apply was_there_reworked; [done..|].
      by apply bool_decide_eq_true in Ea.
    + intros Hc. eapply capped_joined; [done..|]. intros x Hx. apply In_reworked in Hx as [->|[Hx _]]; [by left| |by apply Ht|done].
      right. by apply was_there_in.
  - apply told_role_changed in H0 as ->. apply capped_carry; cbn.
    + intros x. by apply was_there_reworked.
    + case_match; cbn; eauto with capped.
    + case_match; cbn; eauto with capped.
  - apply told_removed in H0 as ->. apply capped_carry; cbn.
    + intros x [Hx _]%List.filter_In. by apply was_there_in.
    + eauto with capped.
    + intros x [_ Hne]%List.filter_In. reflect_bools. by apply kept_for_member.
  - apply told_deleted in H as ->. apply capped_carry; cbn.
    + intros x [Hx _]%List.filter_In. by apply was_there_in.
    + intros i p [Hp _]%map_lookup_filter_Some. by eapply policy_was_in.
    + intros x [Hx Hne]%List.filter_In. reflect_bools. eapply kept_for_trans; [by apply kept_for_workspace|by apply kept_for_same].
  - pose proof (each_told now _ _ _ _ H) as [[= Ep _ _] _]. apply capped_carry; cbn.
    + intros x [Hx _]%List.filter_In. by apply was_there_in.
    + intros i p [Hp _]%dropped_policies. rewrite Ep in Hp. by eapply policy_was_in.
    + intros x [Hx Hne]%List.filter_In. eapply kept_for_trans; [|by apply kept_for_same, dropped_ceilings].
      eapply kept_each_told; [done..| |exact H]. intros Hids. apply in_map_iff in Hids as (v & Hv & Hids).
      apply List.filter_In in Hids as [Hv' Ho]. unfold workspace_in, get_workspace in Hne. cbn in Hne.
      destruct Ht as (_ & Hn & _). destruct (List.find _ _) as [y|] eqn:Ey.
      * apply List.find_some in Ey as [Hy Hid]. reflect_bools. assert (y = v) as -> by (apply (same_key ws_id _ _ _ Hn); congruence).
        congruence.
      * apply List.find_none with (x := v) in Ey; [|done]. rewrite Hv, Z.eqb_refl in Ey. done.
Qed.

(** ** Accounted for *)

Lemma accounted_carry t t' :
  (forall x c, scoped_budgets (others t') !! x = Some c -> scope_type c = MEMBER ->
     (scoped_budgets (others t) !! x = Some c /\
      forall w, In w (workspace_members t) -> scope_id c = str_uuid (wm_id w) ->
        exists w', In w' (workspace_members t') /\ wm_id w' = wm_id w)
     \/ exists w, In w (workspace_members t') /\ scope_id c = str_uuid (wm_id w)) ->
  accounted t -> accounted t'.
Proof.
  intros H Ha x c Hx Hs. destruct (H x c Hx Hs) as [[Hx' Hc]|Hw]; [|done].
  destruct (Ha x c Hx' Hs) as (w & Hw & E). destruct (Hc w Hw E) as (w' & Hw' & E'). exists w'. by rewrite E'.
Qed.

Lemma accounted_same t t' :
  workspace_members t' = workspace_members t -> scoped_budgets (others t') = scoped_budgets (others t) ->
  accounted t -> accounted t'.
Proof. unfold accounted. by intros -> ->. Qed.

Lemma accounted_joined t w o l :
  member_joined w (others t) = inr o -> In w l ->
  (forall x, In x (workspace_members t) -> exists y, In y l /\ wm_id y = wm_id x) ->
  accounted t -> accounted (with_others o (with_workspace_members l t)).
Proof.
  intros ((_ & Hg) & _ & _)%told_joined%cap_member_spec Hw Hl. apply accounted_carry. cbn. intros x c Hx Hs.
  destruct (Hg x c Hx) as [Hx'|[_ Hid]]; [left|right; by exists w]. split; [done|]. intros y Hy _. by apply Hl.
Qed.

Lemma reworked_there w role status t x :
  tidy t -> In w (workspace_members t) -> In x (workspace_members t) ->
  exists y, In y (reworked w role status t) /\ wm_id y = wm_id x.
Proof.
  intros (_ & _ & Hn) Hw Hx. destruct (decide (wm_id x = wm_id w)) as [E|Hne].
  - exists (apply_workspace_member_update w role status w). split; [by apply In_reworked; [..|left]|done].
  - exists x. split; [|done]. apply In_reworked; [done..|]. by right.
Qed.

Lemma accounted_moved t t' : tidy t -> @move dependants caps_listener request_plane t t' -> accounted t -> accounted t'.
Proof.
  intros Ht Hm. destruct Hm; try (by apply accounted_same).
  - destruct H as (E1 & E2 & E3 & E4). apply accounted_same; [done|by rewrite E4].
  - apply told_lost_workspaces in H as ->. by apply accounted_same.
  - apply told_changed in H2. apply accounted_same; [done|]. cbn. trans (scoped_budgets o).
    + subst o'. by repeat case_match.
    + unfold lost_told, told_lost in H1. repeat case_match; try (by injection H1 as <-);
        by apply told_lost_workspaces in H1 as ->.
  - eapply accounted_joined; [done|apply in_or_app; right; by left|]. intros x Hx. exists x. split; [|done].
    apply in_or_app. by left.
  - destruct (is_active_workspace_member w) eqn:Ea.
    + injection H0 as <-. apply accounted_carry. cbn. intros x c Hx _. left. split; [done|]. intros y Hy _.
      by apply reworked_there.
    + eapply accounted_joined; [done|by apply In_reworked; [apply Ht|..|left]|]. intros x Hx. by apply reworked_there.
  - apply told_role_changed in H0 as ->. apply accounted_carry. cbn. intros x c Hx _. left.
    split; [by case_match|]. intros y Hy _. by apply reworked_there.
  - apply told_removed in H0 as ->. apply accounted_carry. cbn. intros x c Hx Hs.
    apply map_lookup_filter_Some in Hx as [Hx Hd]. cbn in Hd. left. split; [done|]. intros y Hy E. exists y. split; [|done].
    apply List.filter_In. split; [done|]. apply negb_true_iff, Z.eqb_neq. intros Eid. rewrite Hs, E, Eid in Hd.
    by rewrite !bool_decide_true in Hd.
  - apply told_deleted in H as ->. apply accounted_carry. cbn. intros x c Hx Hs.
    apply map_lookup_filter_Some in Hx as [Hx Hd]. cbn in Hd. left. split; [done|]. intros y Hy E. exists y. split; [|done].
    apply List.filter_In. split; [done|]. apply negb_true_iff, Z.eqb_neq. intros Ew.
    apply orb_false_iff in Hd as [_ Hd]. rewrite Hs, E in Hd. rewrite bool_decide_true in Hd by done.
    apply bool_decide_eq_false in Hd. apply Hd, list_elem_of_In, in_map, in_map_iff. exists y. split; [done|].
    apply List.filter_In. by rewrite Ew, Z.eqb_refl.
  - pose proof (each_told now _ _ _ _ H) as [_ Hc]. apply accounted_carry. cbn. intros x c Hx Hs.
    rewrite dropped_ceilings in Hx. destruct (Hc x c Hx) as [Hx' Hne]. left. split; [done|].
    intros y Hy E. exists y. split; [|done]. apply List.filter_In. split; [done|]. apply negb_true_iff.
    destruct (workspace_in organization (wm_workspace y) (with_others o t)) eqn:Ew; [|done]. exfalso.
    unfold workspace_in in Ew. destruct (get_workspace (wm_workspace y) (with_others o t)) as [v|] eqn:Ev; [|done].
    apply (Hne Hs (wm_workspace y) y); [|done..]. apply Z.eqb_eq in Ew. by eapply in_workspace_ids.
Qed.

End Moved.

Lemma capped_aside t t' : aside t t' -> capped t -> capped t'.
Proof.
  destruct 1.
  - injection H as _ _ E3. injection H0 as Ep Es _ _. intros Hc w i p. rewrite E3, Ep. unfold has_ceiling. rewrite Es.
    apply Hc.
  - done.
  - done.
  - done.
  - done.
  - done.
  - intros Hc w j q Hw Ha Hq E. cbn in Hq. rewrite H0 in Hq. cbn in Hq. cbn [others with_others].
    destruct (decide (j = i)) as [->|Hne].
    + rewrite lookup_insert_eq in Hq. injection Hq as <-. by apply H2.
    + rewrite lookup_insert_ne in Hq by done. eapply grown_has; [exact H1|]. by eapply Hc.
  - apply capped_carry; cbn; eauto with capped. intros j q Hq. apply lookup_alter_Some in Hq as [(-> & y & Hy & ->)|[_ Hq]].
    + by exists j, y.
    + by eapply policy_was_in.
  - apply capped_carry; cbn; eauto with capped. intros j q [_ Hq]%lookup_delete_Some. by eapply policy_was_in.
Qed.

Lemma accounted_aside t t' : aside t t' -> accounted t -> accounted t'.
Proof.
  destruct 1; try (by apply accounted_same).
  - injection H as _ _ E3. injection H0 as _ Es _ _. by apply accounted_same.
  - apply accounted_carry. cbn. intros x c Hx Hs. destruct H1 as [_ Hg]. destruct (Hg x c Hx) as [Hx'|[_ Hw]].
    + left. split; [done|]. intros w Hw _. by exists w.
    + by right.
Qed.

Lemma capped_step now t t' : step now t t' -> tidy t -> capped t /\ accounted t -> capped t' /\ accounted t'.
Proof.
  destruct 1 as [t t' Hm|t t' Ha]; intros Ht [Hc Hac].
  - split; [by apply (capped_moved now t)|by apply (accounted_moved now t)].
  - split; [by apply (capped_aside t)|by apply (accounted_aside t)].
Qed.

End MembersCapped.
