(* ===== verification/DependantRequests.v ===== *)
(** The requests about policies, shares and keys, as [DependantSteps.step]s. *)
From S2P Require Import Prelude Periods Tables Text ModelAccess UnitOfWork Tenancy TenancyRepositories Organizations Invitations Workspaces TransactionLogic RosterInvariant RosterSafety TenancyFixtures WorkspacesProofs BlockLogic RosterMoves RosterRequests Dependants MemberPolicies ContentShares MemberKeys DependantSteps.
From stdpp Require Import base gmap fin_maps list option strings sorting.
From Stdlib Require Import ZArith Lia Relations.
Open Scope Z_scope.
Open Scope otari_scope.

Section DependantRequests.

Local Notation db := (tenancy dependants).
Local Notation M := (M db TenancyError).
Implicit Types (t b : db) (o : dependants) (k : APIKey) (w : WorkspaceMember).

Section Requests.
Context (now : Z) (t0 : db).

Definition stepped t : Prop := clos_refl_trans db (step now) t0 t /\ tidy t.

Lemma stepped_aside t t' : stepped t -> aside t t' -> stepped t'.
Proof.
  intros [Hs Ht] Ha. split; [|by eapply (step_tidy now); [apply Aside|]].
  eapply rt_trans; [exact Hs|]. by apply rt_step, Aside.
Qed.

Lemma stepped_places : of_places stepped.
Proof.
  intros t t' (E1 & E2 & E3 & E4) H. eapply stepped_aside; [exact H|]. apply Unwatched; [|by rewrite E4].
  unfold rows_of. by rewrite E1, E2, E3.
Qed.

Notation serves P m Q := (goes false stepped stepped P m Q).
Notation inside P m Q := (goes true stepped (fun _ => True) P m Q).

(** Facts of the places, where a run has led. *)
Definition here (F : db -> Prop) t : Prop := stepped t /\ F t.

Lemma at_here_places F : of_places F -> of_places (here F).
Proof. intros HF t t' H [Hs Hf]. split; [by eapply stepped_places|by eapply HF]. Qed.
Lemma here_stepped F t : here F t -> stepped t.
Proof. by intros [? _]. Qed.
Hint Resolve at_here_places stepped_places here_stepped : core.

Lemma serves_unit {A} (P : db -> Prop) (m : M A) Q :
  (forall a t, Q a t -> stepped t) -> inside P m Q -> serves P (uow_block m) Q.
Proof. intros HQ H. by apply goes_block. Qed.

(** A block that only reads. *)
Lemma serves_reading_block {A} F (m : M A) : steady m -> of_places F -> serves (here F) (uow_block m) (fun _ => here F).
Proof. intros Hm HF. apply serves_unit; [by eauto|]. apply Hm; auto. Qed.

(** ** Policies *)

Lemma active_ids_spec workspace t i :
  In i (active_member_ids workspace t) <->
  exists w, In w (workspace_members t) /\ wm_workspace w = workspace /\ wm_status w = Active /\ wm_id w = i.
Proof.
  unfold active_member_ids. rewrite <- list_elem_of_In, (merge_sort_Permutation Z.le), list_elem_of_In, in_map_iff.
  unfold is_active_workspace_member. split.
  - intros (w & <- & [Hw Hp]%List.filter_In). reflect_bools. by exists w.
  - intros (w & Hw & E & Ha & <-). exists w. split; [done|]. apply List.filter_In.
    by rewrite E, Z.eqb_refl, bool_decide_true.
Qed.

(** The ceilings built for a page. *)
Lemma ceilings_for_spec policy bud (covered : Z -> bool) page cs :
  ceilings_for now policy bud covered page = inr cs ->
  (forall c, In c cs -> scope_type c = SCOPE_WORKSPACE_MEMBER /\ provider_key_id c = wbd_provider_key_id policy
                        /\ exists i, In i page /\ scope_id c = str_uuid i)
  /\ forall i, In i page -> covered i = true \/ exists c, In c cs /\ scope_id c = str_uuid i.
Proof.
  revert cs. induction page as [|m l IH]; intros cs; cbn [ceilings_for]; [intros [= <-]; split; intros ? []|].
  destruct (covered m) eqn:Em.
  - intros [H1 H2]%IH. split.
    + intros c (? & ? & i & ? & ?)%H1. split_and!; [done..|]. exists i. split; [by right|done].
    + intros i [<-|Hi]; [by left|by apply H2].
  - unfold _member_ceiling. destruct (period_window _ _ _) as [window|]; [|done].
    set (c0 := mkScoped _ _ _ _ _ _ _ _ _). destruct (ceilings_for _ _ _ _ l) as [|cs'] eqn:El; [done|].
    intros [= <-]. destruct (IH cs' eq_refl) as [H1 H2]. split.
    + intros c [<-|(? & ? & i & ? & ?)%H1]; [split_and!; [done..|]; exists m; by split; [left|]|].
      split_and!; [done..|]. exists i. split; [by right|done].
    + intros i [<-|Hi]; [right; by exists c0; split; [left|]|]. destruct (H2 i Hi) as [|(c & Hc & ?)]; [by left|right].
      exists c. split; [by right|done].
Qed.

Lemma inserted_ceilings (P : string -> Prop) cs o :
  (forall c, In c cs -> scope_type c = SCOPE_WORKSPACE_MEMBER /\ P (scope_id c)) ->
  grown P o (insert_member_ceilings cs o) /\ only_ceilings o (insert_member_ceilings cs o)
  /\ forall c, In c cs ->
       has_ceiling SCOPE_WORKSPACE_MEMBER (scope_id c) (provider_key_id c) (insert_member_ceilings cs o) = true.
Proof.
  revert o. induction cs as [|c l IH]; intros o Hl; cbn; [by split_and!; [apply grown_refl|apply only_ceilings_refl|]|].
  destruct (Hl c (or_introl eq_refl)) as [Hs HP]. destruct (inserted_ceiling P c o Hs HP) as (Hg & Ho & Hc).
  destruct (IH (insert_member_ceiling c o)) as (Hg' & Ho' & Hl'); [intros d Hd; apply Hl; by right|].
  split_and!; [by eapply grown_trans|by eapply only_ceilings_trans|].
  intros d [<-|Hd]; [by eapply grown_has|by apply Hl'].
Qed.

(** A page of members, capped. *)
Lemma cap_page_spec policy bud page o o' (P : string -> Prop) :
  cap_page now policy bud page o = inr o' -> (forall i, In i page -> P (str_uuid i)) ->
  grown P o o' /\ only_ceilings o o'
  /\ forall i, In i page -> has_ceiling SCOPE_WORKSPACE_MEMBER (str_uuid i) (wbd_provider_key_id policy) o' = true.
Proof.
  unfold cap_page. destruct (ceilings_for _ _ _ _ page) as [e|cs] eqn:E; [done|]. intros [= <-] HP.
  apply ceilings_for_spec in E as [H1 H2]. destruct (inserted_ceilings P cs o) as (Hg & Ho & Hc).
  { intros c (? & _ & i & Hi & ->)%H1. auto. }
  split_and!; [done..|]. intros i Hi.
  destruct (H2 i Hi) as [Hm|(c & Hin & Hid)]; [by eapply grown_has|].
  destruct (H1 c Hin) as (_ & Hp & _). rewrite <- Hid, <- Hp. by apply Hc.
Qed.

(** A policy inserted, and the members of the first pages capped. *)
Definition capping policy i n b t : Prop :=
  stepped b /\ policies (others b) !! i = None /\ rows_of t = rows_of b
  /\ others t = with_ceilings (scoped_budgets (others t)) (with_policies (<[i := policy]> (policies (others b))) (others b))
  /\ grown (fun x => exists w, In w (workspace_members b) /\ x = str_uuid (wm_id w)) (others b) (others t)
  /\ forall m, In m (take n (active_member_ids (wbd_workspace_id policy) b)) ->
       has_ceiling SCOPE_WORKSPACE_MEMBER (str_uuid m) (wbd_provider_key_id policy) (others t) = true.

Lemma capping_places policy i n b : of_places (capping policy i n b).
Proof.
  intros t t' (E1 & E2 & E3 & E4) (H1 & H2 & H3 & H4). unfold capping. rewrite E4. split_and!; try tauto.
  rewrite <- H3. unfold rows_of. by rewrite E1, E2, E3.
Qed.

(** All of them. *)
Lemma capping_done policy i n b t :
  (length (active_member_ids (wbd_workspace_id policy) b) <= n)%nat -> capping policy i n b t -> stepped t.
Proof.
  intros Hn (Hb & Hi & Hrows & Ho & Hg & Hc). apply (stepped_places (with_others (others t) b)).
  - injection Hrows as E1 E2 E3. by split_and!.
  - eapply stepped_aside; [exact Hb|]. eapply PolicyAdded; [exact Hi|exact Ho|exact Hg|].
    intros w Hw E Ha. apply Hc. rewrite take_ge by done. apply active_ids_spec. by exists w.
Qed.

Lemma active_ids_rows workspace t b :
  rows_of t = rows_of b -> active_member_ids workspace t = active_member_ids workspace b.
Proof. intros [= _ _ E]. unfold active_member_ids. by rewrite E. Qed.

Lemma inside_cap fuel policy bud i b skip :
  (length (active_member_ids (wbd_workspace_id policy) b) < fuel + skip)%nat ->
  inside (capping policy i skip b) (cap_from fuel now policy bud skip) (fun _ => stepped).
Proof.
  set (ids := active_member_ids (wbd_workspace_id policy) b). revert skip.
  induction fuel as [|fuel IH]; intros skip Hf; cbn [cap_from].
  { apply goes_ret. intros t. apply capping_done. fold ids. lia. }
  apply goes_query_bind. intros [page total].
  apply (goes_pure _ _ _ _ (page = take _MATERIALIZE_PAGE_SIZE (drop skip ids) /\ total = length ids)).
  { intros t [(_ & _ & Hrows & _) [= <- <-]]. by rewrite (active_ids_rows _ _ _ Hrows). }
  intros [Hpage ->]. apply (goes_pre _ _ _ _ (capping policy i skip b)); [|by intros t [? _]].
  assert (_MATERIALIZE_PAGE_SIZE <> 0)%nat as Hsize by done. revert Hsize Hpage.
  generalize _MATERIALIZE_PAGE_SIZE. intros size Hsize Hpage.
  destruct page as [|m page].
  { apply goes_ret. intros t. apply capping_done. fold ids. apply (f_equal length) in Hpage.
    rewrite length_take, length_drop in Hpage. cbn in Hpage. lia. }
  remember (m :: page) as members eqn:Hm.
  assert (length members <= length ids - skip /\ 0 < length members)%nat as [Hlen Hpos]
    by (split; [rewrite Hpage, length_take, length_drop; lia|subst members; cbn; lia]).
  replace (match members with [] => ret tt | _ :: _ => _ end) with
    (tell (cap_page now policy bud members) ;;;
     (let skip := (skip + length members)%nat in
      if (length ids <=? skip)%nat then ret tt else cap_from fuel now policy bud skip)) by by subst members.
  cbv zeta. apply (goes_bind _ _ _ _ _ _ (fun _ => capping policy i (skip + length members) b)).
  - apply goes_tell; [done|]. intros t o (Hb & Hi & Hrows & Ho & Hg & Hc) Hcap.
    apply (cap_page_spec _ _ _ _ _ (fun x => exists w, In w (workspace_members b) /\ x = str_uuid (wm_id w))) in Hcap
      as (Hg' & Ho' & Hc').
    2: { intros j Hj. rewrite Hpage in Hj. apply list_elem_of_In, elem_of_take in Hj as (n & Hj & _).
         apply list_elem_of_lookup_2, list_elem_of_In in Hj.
         assert (In j ids) as Hj' by (rewrite <- (take_drop skip ids); apply in_or_app; by right).
         apply active_ids_spec in Hj' as (w & Hw & _ & _ & <-). by exists w. }
    unfold capping. cbn. split_and!; try done.
    + by rewrite Ho', Ho.
    + by eapply grown_trans.
    + intros j Hj. assert (take (skip + length members) ids = take skip ids ++ members) as Et.
      { rewrite <- (take_take_drop ids skip (length members)). f_equal. rewrite Hpage.
        rewrite length_take. destruct (Nat.min_spec size (length (drop skip ids))) as [[? ->]|[? ->]]; [done|].
        by rewrite !take_ge by lia. }
      fold ids in Hj. rewrite Et in Hj. apply in_app_or in Hj as [Hj|Hj]; [|by apply Hc'].
      eapply grown_has; [exact Hg'|]. by apply Hc.
  - intros []. apply goes_if; intros Hle.
    + apply goes_ret. intros t. apply capping_done. fold ids. by apply Nat.leb_le.
    + apply IH. fold ids. lia.
Qed.

Lemma steady_visible u workspace : steady (O := dependants) (resolve_visible_workspace u workspace).
Proof. unfold resolve_visible_workspace. steady. Qed.
Lemma steady_manages u v : steady (O := dependants) (require_workspace_management_access u v).
Proof. unfold require_workspace_management_access. steady. Qed.
Lemma steady_require_budget i organization : steady (_require_budget i organization).
Proof. unfold _require_budget. steady. Qed.
Hint Resolve steady_visible steady_manages steady_require_budget : steady.

(** The caller manages the workspace, then writes. *)
Lemma serves_managed {A} u workspace (k : Workspace -> M A) :
  (forall v, inside stepped (k v) (fun _ => stepped)) ->
  serves stepped
    (uow_block (let* v := resolve_visible_workspace u workspace in
                require_workspace_management_access (user_id u) v ;;; k v)) (fun _ => stepped).
Proof.
  intros H. apply serves_unit; [done|]. apply goes_steady_bind; auto with steady. intros v.
  apply goes_steady_bind; auto with steady.
Qed.

Lemma serves_create_policy u workspace budget provider :
  serves stepped (create_policy u workspace budget provider now) (fun _ => stepped).
Proof.
  apply serves_managed. intros v. apply goes_steady_bind; auto with steady. intros bud. cbv zeta.
  set (policy := {| wbd_workspace_id := _ |}).
  apply (goes_bind _ _ _ _ _ _ (fun i t => exists b, capping policy i 0 b t)).
  - apply goes_execute. intros t Ht. destruct (has_policy _ _ _); [done|]. destruct (_ || _); [done|].
    exists t. unfold capping. cbn. split_and!; try done; [by apply not_elem_of_dom, is_fresh|].
    by split; [|left].
  - intros i. apply goes_ex. intros b. apply (goes_bind _ _ _ _ _ _ (fun _ => stepped)); [|intros []; by apply goes_ret].
    unfold _cap_active_members. apply goes_query_bind. intros t'.
    apply (goes_pure _ _ _ _ (active_member_ids (wbd_workspace_id policy) t' = active_member_ids (wbd_workspace_id policy) b)).
    { intros t [(_ & _ & Hrows & _) <-]. by apply active_ids_rows. }
    intros ->. apply (goes_pre _ _ _ _ (capping policy i 0 b)); [|by intros t [? _]]. apply inside_cap. lia.
Qed.

Lemma serves_update_policy u workspace policy budget :
  serves stepped (update_policy u workspace policy budget) (fun _ => stepped).
Proof.
  apply serves_managed. intros v. apply goes_steady_bind; auto with steady. intros p.
  apply goes_steady_bind; auto with steady. intros p'. apply goes_steady_bind; auto with steady. intros bud.
  apply goes_write. intros t Ht. eapply stepped_aside; [exact Ht|apply PolicyRepointed].
Qed.

Lemma serves_delete_policy u workspace policy :
  serves stepped (delete_policy u workspace policy) (fun _ => stepped).
Proof.
  apply serves_managed. intros v. apply goes_steady_bind; auto with steady. intros p.
  apply goes_steady_bind; auto with steady. intros p'.
  apply goes_write. intros t Ht. eapply stepped_aside; [exact Ht|apply PolicyRemoved].
Qed.

(** ** Shares *)

Lemma steady_one_trace rows trace : steady (one_trace rows trace).
Proof. unfold one_trace. steady. Qed.
Lemma steady_owned s trace workspace : steady (_owned s trace workspace).
Proof. unfold _owned. steady. apply steady_one_trace. Qed.
Hint Resolve steady_one_trace steady_owned : steady.

(** The session the scope owns, and a fact of it. *)
Lemma goes_owned (X : db -> Prop) s trace workspace r :
  (forall t, stepped t -> X t) -> reader s = Some r ->
  goes true stepped X stepped (_owned s trace workspace)
    (fun row t => stepped t /\ trace_user_id row = Some (str_uuid (reader_id r))).
Proof.
  intros HX Hr. unfold _owned. apply goes_steady_bind; auto with steady. intros o.
  apply goes_steady_bind; auto with steady. intros found. apply goes_steady_bind; auto with steady. intros row.
  apply goes_refuse_bind; [done|]. intros Ho. apply goes_ret. intros t Ht. split; [done|].
  unfold owns in Ho. rewrite Hr in Ho. by reflect_bools.
Qed.

Lemma serves_share s trace to workspace : serves stepped (share_content s trace to workspace now) (fun _ => stepped).
Proof.
  unfold share_content. destruct (reader s) as [r|] eqn:Hr; [|by apply goes_raise].
  apply serves_unit; [done|]. eapply goes_bind; [by apply (goes_owned _ _ _ _ r)|]. intros row. cbv beta.
  apply (goes_pure _ _ _ _ (trace_user_id row = Some (str_uuid (reader_id r)))); [tauto|]. intros ->.
  apply goes_query_bind. intros member. apply goes_refuse_bind; [done|]. intros Hm. reflect_bools.
  apply goes_execute. intros t [[Ht _] Hq]. cbv zeta. eapply stepped_aside; [exact Ht|]. apply ShareMade. exact (eq_trans Hq Hm).
Qed.

Lemma serves_revoke_share {P : db -> Prop} deep (X : db -> Prop) i :
  (forall t, P t -> stepped t) -> goes deep stepped X P (revoke_share i now) (fun _ => stepped).
Proof. intros HP. apply goes_write. intros t Ht. eapply stepped_aside; [by apply HP|apply SharesEnded]. Qed.

Lemma serves_end_share s trace share workspace :
  serves stepped (end_content_share s trace share workspace now) (fun _ => stepped).
Proof.
  unfold end_content_share. destruct (reader s); [|by apply goes_raise]. apply serves_unit; [done|].
  apply goes_steady_bind; auto with steady. intros row. apply goes_steady_bind; auto with steady. intros o.
  apply goes_steady_bind; auto with steady. intros x. by apply serves_revoke_share.
Qed.

Lemma serves_end_shares user : serves stepped (end_shares_of user now) (fun _ => stepped).
Proof.
  apply serves_unit; [done|]. apply goes_write. intros t Ht. eapply stepped_aside; [exact Ht|apply SharesEnded].
Qed.

(** Writes to what no step watches. *)
Lemma serves_unwatched deep (X : db -> Prop) (f : db -> db) :
  (forall t, rows_of (f t) = rows_of t /\ watched (others (f t)) = watched (others t)) ->
  goes deep stepped X stepped (write f) (fun _ => stepped).
Proof. intros H. apply goes_write. intros t Ht. eapply stepped_aside; [exact Ht|]. by apply Unwatched; apply H. Qed.

Lemma serves_get_trace s trace workspace break_glass :
  serves stepped (get_trace s trace workspace break_glass now) (fun _ => stepped).
Proof.
  apply serves_unit; [done|]. apply goes_steady_bind; auto with steady. intros o.
  apply goes_steady_bind; auto with steady. intros [row|]; [|by apply goes_ret].
  apply (goes_bind _ _ _ _ _ _ (fun _ => stepped)); [|intros [access share]; by apply goes_ret].
  unfold open_content. cbv zeta. destruct break_glass as [r|].
  { apply (goes_bind _ _ _ _ _ _ (fun _ => stepped)); [by apply serves_unwatched|]. intros []. by apply goes_ret. }
  destruct (reads_content_of s (trace_user_id row)); [by apply goes_ret|]. destruct (reader s) as [r|]; [|by apply goes_ret].
  destruct (_ && _); [|by apply goes_ret]. apply goes_steady_bind; auto with steady. intros [share|]; [|by apply goes_ret].
  apply goes_steady_bind; auto with steady. intros [].
  - apply (goes_bind _ _ _ _ _ _ (fun _ => stepped)); [|intros []; by apply goes_ret].
    apply serves_unwatched. intros t. cbv zeta. by destruct (existsb _ _).
  - apply (goes_bind _ _ _ _ _ _ (fun _ => stepped)); [by apply serves_revoke_share|]. intros []. by apply goes_ret.
Qed.

End Requests.

End DependantRequests.

(** * The requests of members about their API keys, as [DependantSteps.step]s. *)

Section KeyRequests.

Local Notation db := (tenancy dependants).
Local Notation M := (M db TenancyError).
Implicit Types (t b : db) (k : APIKey).

(** ** What only reads *)

Lemma steady_caller_scope u : steady (_caller_scope u).
Proof. unfold _caller_scope. steady. Qed.
Lemma steady_contributor u organization workspace member :
  steady (O := dependants) (require_workspace_contributor_access u organization workspace member).
Proof. unfold require_workspace_contributor_access. steady. Qed.
Lemma steady_hold u organization workspace revoking :
  steady (O := dependants) (hold_workspace_write_access u organization workspace revoking).
Proof. apply steady_contributor. Qed.
Lemma steady_load i organization condition : steady (_load_key_in_organization i organization condition).
Proof. unfold _load_key_in_organization. steady. Qed.
Lemma steady_refuse_settings service sets : steady (refuse_end_user_settings_on_plain_key service sets).
Proof. unfold refuse_end_user_settings_on_plain_key. steady. Qed.
Lemma steady_refuse_flag k requested : steady (refuse_service_key_flag_change k requested).
Proof. unfold refuse_service_key_flag_change. steady. Qed.
Lemma steady_max requested explicit : steady (organization_max_end_users requested explicit).
Proof. unfold organization_max_end_users. steady. Qed.
Lemma steady_budget_list ids d check_default check_list : steady (end_user_budget_list ids d check_default check_list).
Proof. unfold end_user_budget_list. steady. Qed.
Lemma steady_assignable ids organization : steady (require_assignable_budgets ids organization).
Proof. unfold require_assignable_budgets. steady. Qed.
Lemma steady_or_400 {A} (v : option A) : steady (or_400 v).
Proof. unfold or_400. steady. Qed.
Hint Resolve steady_caller_scope steady_contributor steady_hold steady_load steady_refuse_settings steady_refuse_flag
  steady_max steady_budget_list steady_assignable steady_or_400 : steady.

Lemma steady_load_writable u i revoking : steady (_load_own_writable_key u i revoking).
Proof. unfold _load_own_writable_key. steady. Qed.
Hint Resolve steady_load_writable : steady.

Section Requests.
Context (now : Z) (t0 : db).
Notation stepped := (stepped now t0).
Notation here := (here now t0).
Notation serves P m Q := (goes false stepped stepped P m Q).
Notation inside P m Q := (goes true stepped (fun _ => True) P m Q).
Hint Resolve at_here_places stepped_places here_stepped : core.

(** Programs that read, with blocks of their own, outside every block. *)
Definition reading {A} (m : M A) : Prop := forall F, of_places F -> serves (here F) m (fun _ => here F).

Lemma reading_steady {A} (m : M A) : steady m -> reading m.
Proof. intros H F HF. apply H; eauto. Qed.
Lemma reading_bind {A B} (m : M A) (f : A -> M B) : reading m -> (forall a, reading (f a)) -> reading (bind m f).
Proof. intros Hm Hf F HF. eapply goes_bind; [by apply Hm|]. intros a. by apply Hf. Qed.
Lemma reading_block {A} (m : M A) : steady m -> reading (uow_block m).
Proof. intros H F HF. by apply serves_reading_block. Qed.

Lemma reading_check_budgets ids d check_default check_list organization :
  reading (check_end_user_budgets ids d check_default check_list organization).
Proof.
  unfold check_end_user_budgets. apply reading_bind; [apply reading_steady; auto with steady|]. intros [listed to_check].
  apply reading_bind; [|intros []; apply reading_steady; auto with steady].
  destruct to_check; [apply reading_steady|apply reading_block]; auto with steady.
Qed.

Lemma reading_admit u o service d ids m : reading (admit_organization_key u o service d ids m).
Proof.
  unfold admit_organization_key. apply reading_bind; [apply reading_steady; auto with steady|]. intros [].
  destruct (negb service); [apply reading_steady; auto with steady|].
  apply reading_bind; [apply reading_steady; auto with steady|]. intros actor.
  apply reading_bind; [apply reading_check_budgets|]. intros listed. apply reading_steady. steady.
Qed.

Lemma reading_changes u k e revoking : reading (organization_key_changes u k e revoking).
Proof.
  unfold organization_key_changes. destruct (negb _); [apply reading_steady; auto with steady|].
  apply reading_bind; [apply reading_steady; auto with steady|]. intros [].
  apply reading_bind; [apply reading_steady; auto with steady|]. intros o.
  apply reading_bind; [apply reading_check_budgets|]. intros listed. apply reading_steady. steady.
Qed.

(** ** Whom a key is for *)

Definition acts_as (user organization : Z) t : Prop :=
  exists m, In m (members t) /\ om_user m = user /\ om_organization m = organization /\ om_status m = Active.

Lemma acts_as_places user organization : of_places (acts_as user organization).
Proof. intros t t' (E & _). unfold acts_as. by rewrite E. Qed.
Hint Resolve acts_as_places : core.

Lemma serves_caller_scope u :
  serves stepped (_caller_scope u) (fun s => here (acts_as (user_id u) (org_id (organization s)))).
Proof.
  unfold _caller_scope. apply (goes_bind _ _ _ _ _ _ (fun o => here (acts_as (user_id u) (org_id o)))).
  - intros v Hv HI HP. unfold get_active_organization_for_user, bind, require. rewrite live_active_reads. simpl.
    destruct (found_organization u (pending v)) as [o|] eqn:E; simpl; [|done].
    do 4 (split; [done|]). apply found_acts_in in E as (m & ? & ? & ? & ?). by exists m.
  - intros o. apply goes_steady_bind; [auto with steady|by eauto|by intros t [? _]|]. intros managing. by apply goes_ret.
Qed.

Lemma serves_key_owner u s named :
  serves (here (acts_as (user_id u) (org_id (organization s)))) (_key_owner s named)
    (fun owner => here (acts_as (user_id (default u owner)) (org_id (organization s)))).
Proof.
  unfold _key_owner. destruct named as [i|]; [|by apply goes_ret].
  apply goes_steady_bind; eauto with steady. intros []. apply goes_steady_bind; eauto with steady. intros found.
  apply goes_steady_bind; eauto with steady. intros owner. apply goes_query_bind. intros m.
  apply goes_require_bind; [by intros t [[? _] _]|]. intros m' ->. apply goes_ret.
  intros t [[Ht _] (? & ? & ? & ?)%get_active_spec]. split; [done|]. by exists m'.
Qed.

(** A workspace of the organization. *)
Definition in_organization (organization workspace : Z) t : Prop :=
  exists v, get_workspace workspace t = Some v /\ ws_organization v = organization.

Lemma in_organization_places organization workspace : of_places (in_organization organization workspace).
Proof. intros t t' (_ & E & _). unfold in_organization, get_workspace. by rewrite E. Qed.
Lemma both_places (F G : db -> Prop) : of_places F -> of_places G -> of_places (fun t => F t /\ G t).
Proof. intros HF HG t t' H [? ?]. split; [by apply (HF t)|by apply (HG t)]. Qed.
Hint Resolve in_organization_places both_places : core.

Lemma goes_resolve F u workspace o :
  of_places F ->
  serves (here F) (let* v := resolve_workspace_in_organization u workspace o in ret (ws_id v))
    (fun w => here (fun t => F t /\ in_organization (org_id o) w t)).
Proof.
  intros HF. apply (goes_bind _ _ _ _ _ _ (fun v => here (fun t => F t /\ in_organization (org_id o) (ws_id v) t)));
    [|intros v; by apply goes_ret].
  unfold resolve_workspace_in_organization. apply goes_query_bind. intros found.
  apply goes_require_bind; [by intros t [[? _] _]|]. intros v ->.
  apply goes_refuse_bind; [by intros t [[? _] _]|]. intros Ho. reflect_bools.
  apply (goes_pre _ _ _ _ (here (fun t => F t /\ in_organization (org_id o) (ws_id v) t))).
  2: { intros t [[Ht Hf] Hv]. split; [done|]. split; [done|]. exists v.
    pose proof Hv as [_ Hid]%List.find_some. apply Z.eqb_eq in Hid. by rewrite Hid. }
  apply goes_steady_bind; eauto with steady. intros standing. apply goes_if; intros _; [by apply goes_ret|].
  apply goes_steady_bind; eauto with steady. intros m. apply goes_steady_bind; eauto with steady. intros m'.
  by apply goes_ret.
Qed.

Lemma serves_created_workspace F u owner o asked :
  of_places F ->
  serves (here F) (_created_workspace u owner o asked) (fun w => here (fun t => F t /\ in_organization (org_id o) w t)).
Proof.
  intros HF. unfold _created_workspace. destruct asked as [w|]; [by apply goes_resolve|].
  apply goes_steady_bind; eauto with steady. intros resolved. apply goes_steady_bind; eauto with steady. intros w.
  apply goes_try with (Y := stepped); [by apply goes_resolve|done|].
  intros e m' He. destruct e as [[]| | | |]; try discriminate. injection He as <-.
  apply goes_steady_bind; eauto with steady. intros []. by apply goes_raise.
Qed.

Lemma goes_attribution F user alias :
  of_places F ->
  serves (here F) (get_or_create_attribution_user user alias) (fun a t => here F t /\ au_user_id a = str_uuid user).
Proof.
  intros HF. apply goes_execute. intros t Ht. destruct (get_attribution_user _ t) as [a|] eqn:E.
  - split; [by eapply at_here_places; [..|exact Ht]|]. apply List.find_some in E as [_ E]. by apply bool_decide_eq_true in E.
  - split; [by eapply at_here_places; [..|exact Ht]|done].
Qed.

(** ** Creating *)

Lemma goes_500 {A} (m : M A) P Q :
  serves P m Q ->
  serves P (try_except m (fun e => match e with
                                   | IntegrityError | DatabaseError => Some (rollback ;;; fail HTTP_500)
                                   | _ => None
                                   end)) Q.
Proof.
  intros H. apply goes_try with (Y := stepped); [done|done|]. intros e m' He.
  destruct e; try discriminate; injection He as <-; (eapply goes_bind; [apply goes_rollback|]); intros []; by apply goes_raise.
Qed.

Lemma serves_add_key F i k :
  (forall t, stepped t -> F t -> personal k -> exists user, key_user_id k = Some (str_uuid user) /\ belongs user (key_workspace_id k) t) ->
  serves (here F) (add_key i k) (fun _ => stepped).
Proof.
  intros HF. apply goes_execute. intros t [Ht Hf]. cbv zeta. destruct (is_set _ || _) eqn:E; [done|].
  apply orb_false_iff in E as [E _]. eapply stepped_aside; [exact Ht|]. apply KeyMinted; [|by apply HF].
  by destruct (api_keys (others t) !! i).
Qed.

Lemma serves_create_key config r u hash owner_id :
  serves stepped (create_own_key config r u hash owner_id) (fun _ => stepped).
Proof.
  unfold create_own_key. apply goes_steady_bind; auto with steady. intros [].
  eapply goes_bind; [apply serves_caller_scope|]. intros s. cbv beta.
  eapply goes_bind; [apply serves_key_owner|]. intros named. cbv beta zeta. set (owner := default u named).
  eapply goes_bind; [by apply reading_admit|]. intros end_users. cbv beta.
  eapply goes_bind; [by apply serves_created_workspace|]. intros workspace. cbv beta.
  set (F := fun t => acts_as (user_id owner) (org_id (organization s)) t /\ in_organization (org_id (organization s)) workspace t).
  assert (of_places F) as HF by (unfold F; auto).
  apply goes_steady_bind; eauto with steady. intros []. apply goes_steady_bind; eauto with steady. intros models.
  apply goes_steady_bind; eauto with steady. intros tools. apply goes_steady_bind; eauto with steady. intros existing.
  apply goes_steady_bind; eauto with steady. intros [].
  eapply goes_bind; [by apply goes_attribution|]. intros billed. cbv beta.
  apply (goes_pure _ _ _ _ (au_user_id billed = str_uuid (user_id owner))); [tauto|]. intros Hbilled.
  apply (goes_pre _ _ _ _ (here F)); [|tauto].
  apply goes_steady_bind; eauto with steady. intros []. apply goes_steady_bind; eauto with steady. intros [].
  apply goes_steady_bind; eauto with steady. intros i.
  apply (goes_bind _ _ _ _ _ _ (fun _ => stepped)); [|intros []; by apply goes_ret]. apply goes_500.
  apply (goes_bind _ _ _ _ _ _ (fun a t => here F t /\ (ask_service r = false -> a = billed))).
  { destruct (ask_service r); [|by apply goes_ret]. apply goes_execute. intros t Ht.
    destruct (is_set _); [by apply Ht|]. split; [|done]. by eapply at_here_places; [..|exact Ht]. }
  intros a. apply (goes_bind _ _ _ _ _ _ (fun _ => stepped)); [|intros []; by apply goes_commit].
  apply (goes_pure _ _ _ _ (ask_service r = false -> a = billed)); [tauto|]. intros Ha.
  apply (goes_pre _ _ _ _ (here F)); [|tauto]. apply serves_add_key.
  intros t _ [(m & Hm & Hu & Ho & Hact) (v & Hv & Hvo)] [_ Hservice]. cbn in Hservice |- *.
  exists (user_id owner). rewrite (Ha Hservice), Hbilled. split; [done|]. exists m, v. by split_and!; congruence.
Qed.

(** ** Changing *)

Lemma inside_check_access config requested stored owner F :
  of_places F -> inside (here F) (check_access_lists config requested stored owner) (fun _ => here F).
Proof.
  intros HF. unfold check_access_lists. cbv zeta.
  apply (goes_bind _ _ _ _ _ _ (fun _ => here F)); [apply goes_if; intros _; [|by apply goes_ret]|].
  { assert (steady (require (O := dependants) (validate_allowed_models config requested.1) ValueError)) as H by steady. by apply H; auto. }
  intros models. apply (goes_bind _ _ _ _ _ _ (fun _ => here F)); [apply goes_if; intros _; [|by apply goes_ret]|].
  { assert (steady (require (O := dependants) (validate_allowed_tools config requested.2) ValueError)) as H by steady. by apply H; auto. }
  intros tools. destruct owner as [owner|]; [|by apply goes_ret]. apply goes_if; intros _; [|by apply goes_ret].
  apply (goes_bind _ _ _ _ _ _ (fun _ => here F)); [apply goes_inner_block, steady_query; auto|].
  intros [[models' tools']|]; [|by apply goes_ret].
  apply goes_steady_bind; auto with steady. intros []. apply goes_steady_bind; auto with steady. intros [].
  by apply goes_ret.
Qed.

Definition holds_key (i : string) k t : Prop := api_keys (others t) !! i = Some k.
Lemma holds_key_places i k : of_places (holds_key i k).
Proof. intros t t' (_ & _ & _ & E). unfold holds_key. by rewrite E. Qed.
Hint Resolve holds_key_places : core.

(** A row rewritten under its lock. *)
Lemma goes_write_key deep (X : db -> Prop) i k f :
  same_bill k (f k) -> (key_is_active (f k) = true -> usable k) ->
  goes deep stepped X (here (holds_key i k)) (write_key i f) (fun _ => stepped).
Proof.
  intros Hb Hu. apply goes_write. intros t [Ht Hk]. eapply stepped_aside; [exact Ht|].
  assert (alter f i (api_keys (others t)) = <[i := f k]> (api_keys (others t))) as ->.
  { apply map_eq. intros j. destruct (decide (j = i)) as [->|Hne].
    - by rewrite lookup_alter_eq, lookup_insert_eq, Hk.
    - by rewrite lookup_alter_ne, lookup_insert_ne. }
  by eapply KeyRewritten.
Qed.

Lemma serves_update_owned config i r e owner : serves stepped (update_owned config i r e owner) (fun _ => stepped).
Proof.
  apply serves_unit; [done|]. apply goes_query_bind. intros [k|]; [|by apply goes_raise].
  apply (goes_pre _ _ _ _ (here (holds_key i k))); [|by intros t [? ?]].
  apply goes_refuse_bind; [done|]. intros Hoff. cbv zeta.
  eapply goes_bind; [by apply inside_check_access|]. intros access. apply goes_write_key; [done|]. cbn.
  destruct (requested_active r) as [[]|]; cbn; [|done|by left]. intros _. right. cbn in Hoff.
  by rewrite bool_decide_true in Hoff.
Qed.

Lemma serves_update_key config i r u : serves stepped (update_own_key config i r u) (fun _ => stepped).
Proof.
  unfold update_own_key. cbv zeta. apply goes_steady_bind; auto with steady. intros k.
  apply goes_steady_bind; auto with steady. intros [].
  apply (goes_bind _ _ _ _ _ _ (fun _ => stepped)).
  - eapply goes_weaken; [apply (reading_changes u k (set_end_users r) (switching_off r) (fun _ => True)); by intros ?|..]; auto.
    by intros t Ht. by intros a t [? _].
  - intros e. apply goes_try with (Y := stepped); [apply serves_update_owned|done|].
    intros x m' Hx. destruct x as [[]| | | |]; try discriminate; injection Hx as <-; by apply goes_raise.
Qed.

Lemma serves_commit_or_500 : serves stepped commit_or_500 (fun _ => stepped).
Proof. apply goes_500. by apply goes_commit. Qed.

Lemma serves_rotate_key i u hash : serves stepped (rotate_own_key i u hash) (fun _ => stepped).
Proof.
  unfold rotate_own_key, _load_own_writable_key. apply (goes_bind _ _ _ _ _ _ (fun k => here (holds_key i k))).
  - apply goes_steady_bind; auto with steady. intros s. apply (goes_bind _ _ _ _ _ _ (fun k => here (holds_key i k))).
    + unfold _load_key_in_organization. apply goes_query_bind. intros [k|]; cbn [require];
        [|apply goes_raise; by intros t [? _]].
      apply goes_ret. intros t [Ht Hq]. split; [done|]. unfold holds_key.
      destruct (api_keys (others t) !! i); [|done]. destruct (_ && _); [|done]. congruence.
    + intros k. apply goes_steady_bind; eauto with steady. intros []. by apply goes_ret.
  - intros k. eapply goes_bind; [apply (goes_write_key false stepped i k); [done|by left]|]. intros [].
    apply serves_commit_or_500.
Qed.

Lemma serves_delete_key i u : serves stepped (delete_own_key i u) (fun _ => stepped).
Proof.
  unfold delete_own_key. apply goes_steady_bind; auto with steady. intros k.
  apply (goes_bind _ _ _ _ _ _ (fun _ => stepped)); [|intros []; apply serves_commit_or_500].
  apply goes_write. intros t Ht. eapply stepped_aside; [exact Ht|apply KeyDeleted].
Qed.

End Requests.

End KeyRequests.
