(* ===== verification/DeploymentProofs.v ===== *)
(** A deployment that serves requests one after another: the tenancy services, members' budget policies, members'
    own keys and session shares, over one database, with the listeners the deployment composes.  What holds of its
    keys, shares and ceilings after any such sequence. *)
From S2P Require Import Prelude Periods Tables Text ModelAccess UnitOfWork Tenancy TenancyRepositories Organizations Invitations Workspaces TransactionLogic RosterInvariant RosterSafety TenancyFixtures BlockLogic RosterMoves RosterRequests Dependants MemberPolicies ContentShares MemberKeys DependantSteps StepsKeep DependantRequests.
From stdpp Require Import base gmap list option strings pretty.
From Stdlib Require Import ZArith Lia Relations.
Open Scope Z_scope.
Open Scope otari_scope.

Section DeploymentRuns.

Local Notation db := (tenancy dependants).
Local Notation M := (M db TenancyError).
Implicit Types (t : db).

(** ** Requests *)

Inductive event : Type :=
| Roster (r : request)
| CreatePolicy (u : User) (workspace : Z) (budget : string) (provider : option string)
| UpdatePolicy (u : User) (workspace : Z) (policy budget : string)
| DeletePolicy (u : User) (workspace : Z) (policy : string)
| CreateOwnKey (c : access_config) (r : CreateOwnKeyRequest) (u : User) (hash owner_id : string)
| UpdateOwnKey (c : access_config) (key : string) (r : UpdateOwnKeyRequest) (u : User)
| RotateOwnKey (key : string) (u : User) (hash : string)
| DeleteOwnKey (key : string) (u : User)
| ShareContent (s : TraceScope) (trace : string) (to : ShareAudience) (workspace : option Z)
| EndShare (s : TraceScope) (trace : string) (share : Z) (workspace : option Z)
| EndSharesOf (user : Z)
| ReadTrace (s : TraceScope) (trace : string) (workspace break_glass : option Z).

Definition handle (now : Z) (e : event) : M unit :=
  match e with
  | Roster r => serve (L := get_membership_listener now) now r
  | CreatePolicy u w b p => void (create_policy u w b p now)
  | UpdatePolicy u w p b => update_policy u w p b
  | DeletePolicy u w p => delete_policy u w p
  | CreateOwnKey c r u h o => void (create_own_key c r u h o)
  | UpdateOwnKey c i r u => update_own_key c i r u
  | RotateOwnKey i u h => rotate_own_key i u h
  | DeleteOwnKey i u => delete_own_key i u
  | ShareContent s tr a w => void (share_content s tr a w now)
  | EndShare s tr i w => end_content_share s tr i w now
  | EndSharesOf u => end_shares_of u now
  | ReadTrace s tr w g => void (get_trace s tr w g now)
  end.

(** What the routes let through. *)
Definition admissible (e : event) : Prop := match e with Roster r => askable r | _ => True end.

(** A request, its clock, and how its commits end. *)
Record happening : Type := { at_clock : Z; event_of : event; outcomes : list commit_outcome }.

Definition happen t (h : happening) : db :=
  committed (handle (at_clock h) (event_of h) (fresh_uow t (outcomes h))).1.
Definition run t (l : list happening) : db := fold_left happen l t.

(** ** Each request is a run of steps *)

Lemma moves_are_steps now t t' :
  clos_refl_trans db (@move dependants (get_membership_listener now) request_plane) t t' ->
  clos_refl_trans db (step now) t t'.
Proof. induction 1; [by apply rt_step, Moved|apply rt_refl|by eapply rt_trans]. Qed.

Lemma handled_elsewhere now t0 e :
  match e with Roster _ => False | _ => True end ->
  goes false (stepped now t0) (stepped now t0) (stepped now t0) (handle now e) (fun _ => stepped now t0).
Proof.
  destruct e; intros He; [done|..]; cbn [handle]; unfold void;
    try (apply (goes_bind _ _ _ _ _ _ (fun _ => stepped now t0)); [|intros ?; by apply goes_ret]).
  - apply serves_create_policy.
  - apply serves_update_policy.
  - apply serves_delete_policy.
  - apply serves_create_key.
  - apply serves_update_key.
  - apply serves_rotate_key.
  - apply serves_delete_key.
  - apply serves_share.
  - apply serves_end_share.
  - apply serves_end_shares.
  - apply serves_get_trace.
Qed.

Lemma happen_steps t h :
  tidy t -> admissible (event_of h) -> clos_refl_trans db (step (at_clock h)) t (happen t h) /\ tidy (happen t h).
Proof.
  intros Ht Ha. unfold happen. destruct h as [now e os]; cbn in *.
  assert (stepped now t t) as Hs by (split; [apply rt_refl|done]).
  destruct e as [r| | | | | | | | | | |]; try (eapply goes_committed; [by apply handled_elsewhere|exact Hs..]).
  assert (reached (L := get_membership_listener now) t t) as Hr by (split; [apply rt_refl|done]).
  pose proof (goes_committed _ _ _ _ t os (serves_request (L := get_membership_listener now) t now r Ha) Hr Hr) as [Hm Hd].
  split; [by apply moves_are_steps|exact Hd].
Qed.

(** A fact that every step keeps holds after any sequence of requests. *)
Lemma run_keeps (J : db -> Prop) :
  (forall now t t', step now t t' -> tidy t -> J t -> J t') ->
  forall l t, Forall (fun h => admissible (event_of h)) l -> tidy t -> J t -> J (run t l).
Proof.
  intros HJ l. induction l as [|h l IH]; intros t Ha Ht Hj; [done|]. apply Forall_cons in Ha as [Hh Ha].
  destruct (happen_steps t h Ht Hh) as [Hs Ht']. apply IH; [done..|]. clear Ht' IH Hh.
  induction Hs as [a b Hs|a|a b c Hab IHab Hbc IHbc]; [by eapply HJ|done|].
  assert (tidy b) as Hb. { clear -Hab Ht. induction Hab; [by eapply step_tidy|done|auto]. } auto.
Qed.

End DeploymentRuns.

(** * What holds of a deployment's keys, shares and ceilings after any sequence of requests, and who opens what. *)

Section DeploymentProofs.

Local Notation db := (tenancy dependants).
Implicit Types (t : db).

(** ** The deployment the witnesses run *)

Definition monthly : OwnedBudget :=
  {| organization_id := Some 1; figures := mkBudget (Some 5) None None None None |}.
Definition bos_trace : Trace := {| trace_workspace_id := 1; trace_id := "trace"; trace_user_id := Some (str_uuid 2); sealed := true |}.
Definition kept : dependants :=
  {| owned_budgets := {["monthly" := monthly]}; scoped_budgets := ∅; policies := ∅; api_keys := ∅; traces := [bos_trace];
     shares := []; content_reads := []; break_glass_reads := []; servers := []; grants := []; pinned := [] |}.

(** [TenancyFixtures.team], with what the other domains keep for it. *)
Definition deployment (role : MemberRole) : db :=
  {| users := users (team role); organizations := organizations (team role); members := members (team role);
     invitations := []; workspaces := workspaces (team role); workspace_members := workspace_members (team role);
     domains := []; attribution_users := []; others := kept |}.

Definition asks_key : CreateOwnKeyRequest :=
  {| for_user := None; key_name := Some "mine"; expires_at := None; ask_models := None; ask_tools := None;
     ask_workspace := Some 1; ask_service := false; ask_budget_id := None; ask_budget_ids := None;
     ask_max_end_users := None |}.
Definition as_bo : TraceScope :=
  {| workspace_ids := [1]; deployment_wide := false; all_content := false;
     reader := Some {| reader_id := 2; audiences := [] |} |}.
Definition as_ada : TraceScope :=
  {| workspace_ids := [1]; deployment_wide := false; all_content := false;
     reader := Some {| reader_id := 1; audiences := [organization_admins] |} |}.

Definition at_ (now : Z) (e : event) : happening := {| at_clock := now; event_of := e; outcomes := [] |}.

(** Bo makes a key and shares a session, Ada gives members a budget and Bo a place in the workspace. *)
Definition a_week : list happening :=
  [ at_ 10 (CreateOwnKey some_config asks_key bo "hash-of-bo" "svc_x");
    at_ 11 (CreatePolicy ada 1 "monthly" None);
    at_ 12 (Roster (AddWorkspaceMember ada 1 2 Member));
    at_ 13 (ShareContent as_bo "trace" organization_admins None) ].
(** Ada removes Bo. *)
Definition bo_leaves : list happening := [ at_ 20 (Roster (RemoveMember ada 2)) ].

Definition keys_on t : list (string * bool * bool) :=
  map (fun x => (x.1, key_is_active x.2, operator_disabled x.2)) (map_to_list (api_keys (others t))).
Definition ceilings_of t : list string := map (fun x => scope_id x.2) (map_to_list (scoped_budgets (others t))).
Definition shares_on t : list bool := map running (shares (others t)).

Lemma deployment_tidy role : tidy (deployment role).
Proof. split_and!; repeat constructor; cbn; intuition discriminate. Qed.

(** ** Every request is a run of moves *)

(** C19: whatever it answers and however its commits end, a request of the tenancy services leaves the database where
    a run of committed membership moves leads: each write to a place people have comes with everything the other
    domains are told of it, in the same transaction, and nothing else is ever stored. *)
Theorem requests_are_moves {O} {L : MembershipListener O} {RP : RequestPlane O} (t : tenancy O) (s : served) :
  tidy t -> askable (asked s) -> moves t (serve_one t s).
Proof.
  intros Ht Ha. assert (reached t t) as Hr by (split; [apply rt_refl|done]).
  by apply (goes_committed (reached t) (reached t) _ _ t (ends s) (serves_request t (at_time s) (asked s) Ha)).
Qed.

Definition removal_of_bo : served := {| at_time := 20; asked := RemoveMember ada 2; ends := [Unacknowledged] |}.
Lemma requests_are_moves_witness :
  map om_status (members (serve_one (L := get_membership_listener 20) (deployment Admin) removal_of_bo)) = [Active; Suspended]
  /\ moves (L := get_membership_listener 20) (deployment Admin)
       (serve_one (L := get_membership_listener 20) (deployment Admin) removal_of_bo).
Proof.
  split; [by vm_compute|]. by apply (requests_are_moves (L := get_membership_listener 20)); [apply deployment_tidy|].
Defined.

(** ** After any requests *)

(** C9: after any sequence of requests (an operator switching keys aside), whatever each answers and however its commits end, each key a member made for
    a person that is on, or that its owner may switch on, is billed to an active member of the organization its
    workspace is in. *)
Theorem keys_follow_membership t l :
  Forall (fun h => admissible (event_of h)) l -> tidy t -> keys_follow t -> keys_follow (run t l).
Proof. intros Ha. by apply run_keeps; [apply keys_step|]. Qed.

Lemma keys_follow_membership_witness :
  keys_on (run (deployment Admin) a_week) = [("0", true, false)]
  /\ keys_on (run (deployment Admin) (a_week ++ bo_leaves)) = [("0", false, true)]
  /\ keys_follow (run (deployment Admin) (a_week ++ bo_leaves)).
Proof.
  split; [by vm_compute|]. split; [by vm_compute|]. apply keys_follow_membership.
  - by repeat constructor.
  - apply deployment_tidy.
  - intros i k Hk. cbn in Hk. by rewrite lookup_empty in Hk.
Defined.

(** After any sequence of requests, a share of a session that still runs was made by somebody who still sees the
    workspace the session was kept in: an active member of its organization, who manages it or is an active member
    of the workspace. *)
Theorem shares_follow_sight t l :
  Forall (fun h => admissible (event_of h)) l -> tidy t -> shares_follow t -> shares_follow (run t l).
Proof. intros Ha. by apply run_keeps; [apply shares_step|]. Qed.

Lemma shares_follow_sight_witness :
  shares_on (run (deployment Admin) a_week) = [true]
  /\ shares_on (run (deployment Admin) (a_week ++ bo_leaves)) = [false]
  /\ shares_follow (run (deployment Admin) (a_week ++ bo_leaves)).
Proof.
  split; [by vm_compute|]. split; [by vm_compute|]. apply shares_follow_sight.
  - by repeat constructor.
  - apply deployment_tidy.
  - by intros s [].
Defined.

(** After any sequence of requests, every active member of a workspace has a ceiling under each of the workspace's
    member budget policies, and no member's ceiling outlives the membership it caps. *)
Theorem members_are_capped t l :
  Forall (fun h => admissible (event_of h)) l -> tidy t -> capped t /\ accounted t ->
  capped (run t l) /\ accounted (run t l).
Proof. intros Ha. apply (run_keeps (fun t => capped t /\ accounted t)); [apply capped_step|done]. Qed.

Definition bo_steps_out : list happening := [ at_ 21 (Roster (RemoveWorkspaceMember ada 1 2)) ].
Lemma members_are_capped_witness :
  ceilings_of (run (deployment Admin) a_week) = ["2"; "1"]
  /\ ceilings_of (run (deployment Admin) (a_week ++ bo_steps_out)) = ["1"]
  /\ capped (run (deployment Admin) (a_week ++ bo_steps_out)) /\ accounted (run (deployment Admin) (a_week ++ bo_steps_out)).
Proof.
  split; [by vm_compute|]. split; [by vm_compute|]. apply members_are_capped.
  - by repeat constructor.
  - apply deployment_tidy.
  - split; [intros w i p _ _ Hp|intros x c Hc]; cbn in *; by rewrite lookup_empty in *.
Defined.

(** ** A manager who is demoted *)

Definition bo_demoted : list happening := [ at_ 20 (Roster (UpdateMember ada 2 (change (Some Member) None))) ].
Definition week_without_places : list happening :=
  [ at_ 10 (CreateOwnKey some_config asks_key bo "hash-of-bo" "svc_x") ].
Definition after_demotion : db := run (deployment Admin) (week_without_places ++ bo_demoted).

(** An admin who made a key in a workspace they have no row in, then demoted to [member]: they no longer see the
    workspace and may make no key there, and the key they made stays on, and authenticates. *)
Theorem demoted_manager_keeps_keys :
  map om_role (members after_demotion) = [Owner; Member]
  /\ is_workspace_member 1 (Some (str_uuid 2)) after_demotion = false
  /\ (create_own_key some_config asks_key bo "another" "svc_y" (fresh_uow after_demotion [])).2
     = inl (Raised (WorkspaceNotFoundError 1))
  /\ option_map (fun k => key_refusal k 21) (api_keys (others after_demotion) !! "0") = Some None.
Proof. split_and!; by vm_compute. Qed.

End DeploymentProofs.
