(* ===== verification/ContentSharesProofs.v ===== *)
(** Whom a session's content opens to. *)
From S2P Require Import Prelude Text UnitOfWork Tenancy TenancyRepositories Organizations TransactionLogic RosterSafety TenancyFixtures WorkspacesProofs BlockLogic RosterMoves Dependants ContentShares DeploymentProofs.
From stdpp Require Import base gmap list option strings pretty.
From Stdlib Require Import ZArith Lia.
Open Scope Z_scope.
Open Scope otari_scope.

Local Notation db := (tenancy dependants).
Implicit Types (t : db).

(** A running share of the session to one of the audiences. *)
Definition shared_with (to : list ShareAudience) (row : Trace) t (x : TraceContentShare) : Prop :=
  In x (shares (others t)) /\ running x = true /\ share_workspace_id x = trace_workspace_id row
  /\ share_trace_id x = trace_id row /\ audience x ∈ to.

(** Its owner still sees the workspace it was kept in. *)
Definition owner_sees (row : Trace) t : bool := is_workspace_member (trace_workspace_id row) (trace_user_id row) t.

(** What an answer with this access says of the reader, of the deployment before, and of what is stored after. *)
Definition opened (s : TraceScope) (row : Trace) (glass : option Z) (now : Z) t (access : ContentAccess)
    (share : option TraceContentShare) t' : Prop :=
  match access with
  | by_owner => glass = None /\ reads_content_of s (trace_user_id row) = true /\ share = None /\ t' = t
  | by_break_glass =>
      share = None
      /\ exists r, glass = Some r
           /\ In {| opened_workspace_id := trace_workspace_id row; opened_trace_id := trace_id row; opened_by := r |}
                (break_glass_reads (others t'))
  | by_share =>
      glass = None /\ reads_content_of s (trace_user_id row) = false
      /\ exists r x, reader s = Some r /\ share = Some x /\ shared_with (audiences r) row t x /\ owner_sees row t = true
           /\ exists read, In read (content_reads (others t')) /\ read_share_id read = share_id x
                /\ reader_user_id read = reader_id r /\ now - READ_RECORDED_EVERY <= read_at read
  | no_access =>
      glass = None /\ reads_content_of s (trace_user_id row) = false /\ share = None
      /\ ((t' = t /\ forall r x, reader s = Some r -> sealed row = true -> ~ shared_with (audiences r) row t x)
          \/ (owner_sees row t = false
              /\ exists r x, reader s = Some r /\ shared_with (audiences r) row t x
                   /\ forall y, In y (shares (others t')) -> share_id y = share_id x -> running y = false))
  end.

Lemma active_share_spec row to t x : active_share row to (others t) = Some x -> shared_with to row t x.
Proof. intros [Hx Hp]%first_by_In%List.filter_In. reflect_bools. by split_and!. Qed.

Lemma active_share_none row to t x : active_share row to (others t) = None -> ~ shared_with to row t x.
Proof.
  intros H (Hx & Hr & Hw & Ht & Ha). unfold active_share in H.
  match type of H with first_by ?b ?l = _ => assert (is_set (first_by b l) = true) as Hs; [|by rewrite H in Hs] end.
  apply first_by_some with x, List.filter_In. split; [done|].
  by rewrite Hw, Z.eqb_refl, Hr, !bool_decide_true.
Qed.

Lemma ended_share i now t y :
  In y (update_where (fun x => (share_id x =? i) && running x) (end_share now) (shares (others t))) ->
  share_id y = i -> running y = false.
Proof.
  intros (x & _ & ->)%update_where_In Hi. destruct (_ && _) eqn:E; [done|].
  rewrite Hi, Z.eqb_refl in E. exact E.
Qed.

Lemma read_recorded share by_reader now t :
  let o := others t in
  exists read, In read (content_reads (others
      (if existsb (fun r => (read_share_id r =? share) && (reader_user_id r =? by_reader)
                            && (now - READ_RECORDED_EVERY <=? read_at r)) (content_reads o) then t
       else with_others
              (with_reads (content_reads o ++ [{| read_share_id := share; reader_user_id := by_reader; read_at := now |}])
                 (break_glass_reads o) o) t)))
    /\ read_share_id read = share /\ reader_user_id read = by_reader /\ now - READ_RECORDED_EVERY <= read_at read.
Proof.
  cbv zeta. destruct (existsb _ _) eqn:E.
  - apply existsb_exists in E as (x & Hx & Hp). exists x. split; [done|]. reflect_bools. lia.
  - exists {| read_share_id := share; reader_user_id := by_reader; read_at := now |}. split; [|cbn; unfold READ_RECORDED_EVERY; lia].
    apply in_or_app. right. by left.
Qed.

Lemma open_content_spec s row glass now t :
  goes true (fun _ => True) (fun _ => True) (eq t) (open_content s row glass now)
    (fun r => opened s row glass now t r.1 r.2).
Proof.
  unfold open_content. cbv zeta. destruct glass as [r|].
  { eapply goes_bind with (Q := fun _ t' => In {| opened_workspace_id := trace_workspace_id row;
        opened_trace_id := trace_id row; opened_by := r |} (break_glass_reads (others t'))).
    - apply goes_write. intros ? <-. cbn. apply in_or_app. right. by left.
    - intros []. apply goes_ret. intros t' H. cbn. split; [done|]. by exists r. }
  destruct (reads_content_of s (trace_user_id row)) eqn:Hown; [by apply goes_ret; intros ? <-|].
  destruct (reader s) as [r|] eqn:Hr.
  2: { apply goes_ret. intros ? <-. cbn. rewrite Hown, Hr. split_and!; [done..|]. by left. }
  destruct (sealed row && _) eqn:Hs.
  2: { apply goes_ret. intros ? <-. cbn. split_and!; [done..|]. left. split; [done|]. intros r' x Hr' Hx (_ & _ & _ & _ & Ha).
       assert (r' = r) as -> by congruence. rewrite Hx in Hs. cbn in Hs. reflect_bools. rewrite Hs in Ha. by apply elem_of_nil in Ha. }
  apply goes_query_bind. intros [x|].
  2: { apply goes_ret. intros ? [<- Hq]. cbn. split_and!; [done..|]. left. split; [done|]. intros r' x Hr' _.
       assert (r' = r) as -> by congruence. by apply active_share_none. }
  apply goes_query_bind. intros member.
  apply (goes_pure _ _ _ _ (shared_with (audiences r) row t x /\ owner_sees row t = member)).
  { intros ? [[<- Hq] Hm]. split; [by apply active_share_spec|done]. }
  intros [Hx Hm]. apply (goes_pre _ _ _ _ (eq t)); [|by intros ? [[? _] _]]. apply goes_if; intros Hb.
  - eapply goes_bind with (Q := fun _ t' => forall y, In y (shares (others t')) -> share_id y = share_id x -> running y = false).
    + apply goes_write. intros ? <-. cbn. intros y. apply ended_share.
    + intros []. apply goes_ret. intros t' Hended. cbn. split_and!; [done..|]. right. split; [by destruct member|]. by exists r, x.
  - eapply goes_bind with (Q := fun _ t' => exists read, In read (content_reads (others t')) /\ read_share_id read = share_id x
                /\ reader_user_id read = reader_id r /\ now - READ_RECORDED_EVERY <= read_at read).
    + apply goes_write. intros ? <-. apply read_recorded.
    + intros []. apply goes_ret. intros t' Hread. cbn. split_and!; [done..|]. exists r, x. split_and!; [done..|by destruct member|done].
Qed.

(** C10: a session's content opens to its owner (or to a caller who reads everything) as its owner, and to anybody else
    only through a running share of that session to one of the reader's audiences, of an owner who still sees the
    workspace, with the reading on record within the hour; or as a break glass reading, on record as one.  Otherwise
    it does not open: no such share runs, or its owner no longer sees the workspace and the reading has ended it. *)
Theorem content_opens_to s trace workspace glass now t cs u row access share :
  get_trace s trace workspace glass now (fresh_uow t cs) = (u, inr (Some (row, access, share))) ->
  In row (traces (others t)) /\ trace_id row = trace /\ in_scope s (trace_workspace_id row) = true
  /\ opened s row glass now t access share (committed u).
Proof.
  set (Q := fun (r : option (Trace * ContentAccess * option TraceContentShare)) t' =>
    match r with
    | Some (row, access, share) =>
        In row (find_traces s trace workspace (others t)) /\ opened s row glass now t access share t'
    | None => True
    end).
  intros H. assert (Q (Some (row, access, share)) (committed u)) as [Hrow Ho].
  { eapply (goes_landed (fun _ => True) (fun _ => True)); [|done|exact H].
    apply goes_query_bind. intros o. apply (goes_pure _ _ _ _ (others t = o)); [by intros ? [<- ?]|]. intros <-.
    apply (goes_pre _ _ _ _ (eq t)); [|by intros ? [? _]].
    destruct (find_traces s trace workspace (others t)) as [|r [|r' l]] eqn:Hf; cbn [one_trace].
    - by apply goes_ret_bind, goes_ret.
    - apply goes_ret_bind. eapply goes_bind; [apply open_content_spec|]. intros [a x]. apply goes_ret.
      intros t' Ht'. unfold Q. split; [by left|done].
    - by apply goes_raise. }
  apply List.filter_In in Hrow as [Hin Hp]. apply andb_true_iff in Hp as [Hp _]. reflect_bools. by split_and!.
Qed.

(** Ada, who manages the organization, opens the session Bo shared; Bo, his own. *)
Definition asked_by (s : TraceScope) (t : db) := get_trace s "trace" None None 30 (fresh_uow t []).
Lemma content_opens_to_witness :
  let t := run (deployment Admin) a_week in
  match asked_by as_ada t with
  | (u, inr (Some (row, by_share, Some x))) =>
      audience x = organization_admins /\ length (content_reads (others (committed u))) = 1%nat
      /\ opened as_ada row None 30 t by_share (Some x) (committed u)
  | _ => False
  end
  /\ match asked_by as_ada (run (deployment Admin) (a_week ++ bo_leaves)) with
     | (_, inr (Some (_, no_access, None))) => True
     | _ => False
     end.
Proof.
  cbv zeta. split; [|by vm_compute].
  destruct (asked_by as_ada (run (deployment Admin) a_week)) as [u r] eqn:E.
  pose proof E as E'. vm_compute in E'. injection E' as <- <-. split; [done|]. split; [by vm_compute|].
  by eapply (content_opens_to as_ada "trace" None None 30 _ []).
Defined.
