(* ===== verification/SessionOwners.v ===== *)
(** Who currently sees a workspace, asked of many people at once: [workspace_members] of [api/deps.py], with the
    three queries it alone makes, and that it answers as [is_workspace_member] would for each.  The breaking of glass
    of [api/deps.py] is here too. *)
From S2P Require Import Prelude Tables Text UnitOfWork Tenancy TenancyRepositories Organizations Workspaces TransactionLogic RosterSafety TenancyFixtures BlockLogic RosterMoves Dependants ContentShares DeploymentProofs.
From stdpp Require Import base gmap list option strings pretty.
From Stdlib Require Import ZArith Lia.
Open Scope Z_scope.
Open Scope otari_scope.

Local Notation db := (tenancy dependants).
Local Notation M := (M db TenancyError).
Implicit Types (t : db).

(** ** The queries *)

Definition get_active_ids (ids : list Z) t : list Z :=
  map user_id (List.filter (fun u => bool_decide (user_id u ∈ ids) && is_active u) (users t)).

(** A dict of rows, in the order they are read. *)
Definition dict_of {K A B} `{Countable K} (key : A -> K) (value : A -> B) (rows : list A) : gmap K B :=
  fold_left (fun d x => <[key x := value x]> d) rows ∅.

Definition get_active_roles (organizations users : list Z) t : gmap (Z * Z) MemberRole :=
  dict_of (fun m => (om_organization m, om_user m)) om_role
    (List.filter (fun m => bool_decide (om_organization m ∈ organizations) && bool_decide (om_user m ∈ users)
                           && is_active_member m) (members t)).

Definition get_active_pairs (workspaces users : list Z) t : list (Z * Z) :=
  map (fun m => (wm_workspace m, wm_user m))
    (List.filter (fun m => bool_decide (wm_workspace m ∈ workspaces) && bool_decide (wm_user m ∈ users)
                           && is_active_workspace_member m) (workspace_members t)).

(** ** The batch *)

(** A pair with the identity its user id names, which is looked for among the identities there are. *)
Definition people_of (pairs : list (Z * option string)) t : list ((Z * option string) * Z) :=
  omap (fun pair => match pair.2 with
                    | Some name => option_map (fun u => (pair, user_id u)) (person_named name t)
                    | None => None
                    end) pairs.

(** [workspace_members], its dicts and sets first, named for the pairs it is given. *)
Section Queries.
Context (people : list ((Z * option string) * Z)) (t : db).
Definition organizations_of : gmap Z Z := dict_of ws_id ws_organization (get_by_ids (map (fun x => x.1.1) people) t).
Definition candidates : list ((Z * option string) * Z) :=
  List.filter (fun x => is_set (organizations_of !! x.1.1) && bool_decide (x.2 ∈ get_active_ids (map snd people) t)) people.
Definition role_in (x : (Z * option string) * Z) : option MemberRole :=
  match organizations_of !! x.1.1 with
  | Some o => get_active_roles (omap (fun x => organizations_of !! x.1.1) candidates) (map snd candidates) t !! (o, x.2)
  | None => None
  end.
Definition explicit : list (Z * Z) :=
  let ranked := List.filter (fun x => is_set (role_in x)) candidates in
  get_active_pairs (map (fun x => x.1.1) ranked) (map snd ranked) t.
Definition seeing (x : (Z * option string) * Z) : bool :=
  match role_in x with
  | Some role => MANAGEMENT_ROLES role || bool_decide ((x.1.1, x.2) ∈ explicit)
  | None => false
  end.
End Queries.

Definition workspace_members_among (pairs : list (Z * option string)) t : list (Z * option string) :=
  let people := people_of pairs t in map fst (List.filter (seeing people t) (candidates people t)).

(** ** Breaking glass *)

(** [get_organization_break_glass]: owners only. *)
Definition get_organization_break_glass (user : User) : M TraceScope :=
  let* visible := resolve_visible_workspace_scope user in
  let* all := query (get_ids_by_organization (org_id (scope_organization visible))) in
  let* m := query (get_active_by_organization_and_user (org_id (scope_organization visible)) (user_id user)) in
  refuse_if (match m with Some m => negb (bool_decide (om_role m = Owner)) | None => true end)
    TraceBreakGlassForbiddenError ;;;
  ret {| workspace_ids := default all (scope_workspaces visible); deployment_wide := false; all_content := false;
         reader := Some {| reader_id := user_id user; audiences := [] |} |}.

Definition break_glass_detail (s : TraceScope) (trace : string) (workspace : option Z) (by_reader now : Z) :
    M (Trace * ContentAccess) :=
  let* stored := get_trace s trace workspace (Some by_reader) now in
  match stored with
  | None => fail (TraceNotFoundError trace)
  | Some (row, access, _) => ret (row, access)
  end.

(** [require_signed_in_reader]. *)
Definition require_signed_in_reader (signed_in : bool) : M unit :=
  refuse_if (negb signed_in) TraceBreakGlassUnnamedError.

Definition organization_break_glass (user : User) (signed_in : bool) (trace : string) (workspace : option Z) (now : Z) :
    M (Trace * ContentAccess) :=
  require_signed_in_reader signed_in ;;;
  let* s := get_organization_break_glass user in
  break_glass_detail s trace workspace (user_id user) now.

(** [TraceScope.deployment()]. *)
Definition deployment_scope : TraceScope :=
  {| workspace_ids := []; deployment_wide := true; all_content := true; reader := None |}.

(** The operator's, where the deployment lets them, in a workspace they name. *)
Definition platform_break_glass (enabled : bool) (user : User) (signed_in : bool) (trace : string) (workspace now : Z) :
    M (Trace * ContentAccess) :=
  require_signed_in_reader signed_in ;;;
  refuse_if (negb enabled) (HTTPException 404) ;;;
  let* found := query (get_workspace workspace) in
  let* _ := require found (HTTPException 404) in
  break_glass_detail deployment_scope trace (Some workspace) (user_id user) now.

(** ** The batch answers as one at a time *)

Lemma dict_of_insert {K A B} `{Countable K} (key : A -> K) (value : A -> B) rows (d : gmap K B) i b :
  List.NoDup (map key rows) ->
  fold_left (fun d x => <[key x := value x]> d) rows d !! i = Some b <->
  (exists x, In x rows /\ key x = i /\ value x = b) \/ (~ In i (map key rows) /\ d !! i = Some b).
Proof.
  revert d. induction rows as [|y rows IH]; intros d; cbn [fold_left map In].
  - intros _. split; [intros Hd; right; by split; [intros []|]|]. by intros [(x & [] & _)|[_ ?]].
  - intros [Hy Hn]%List.NoDup_cons_iff. rewrite (IH _ Hn). split.
    + intros [(x & Hx & ?)|[Hi Hd]]; [left; exists x; auto|]. destruct (decide (key y = i)) as [E|Hne].
      * rewrite E, lookup_insert_eq in Hd. injection Hd as <-. left. exists y. auto.
      * rewrite lookup_insert_ne in Hd by done. right. split; [|done]. by intros [?|?].
    + intros [(x & [->|Hx] & <- & <-)|[Hi Hd]].
      * right. split; [done|]. apply lookup_insert_eq.
      * left. by exists x.
      * right. split; [by intros ?; apply Hi; right|]. rewrite lookup_insert_ne; [done|]. intros E. apply Hi. by left.
Qed.

Lemma dict_of_spec {K A B} `{Countable K} (key : A -> K) (value : A -> B) rows i b :
  List.NoDup (map key rows) -> dict_of key value rows !! i = Some b <-> exists x, In x rows /\ key x = i /\ value x = b.
Proof.
  intros Hn. unfold dict_of. rewrite (dict_of_insert _ _ _ _ _ _ Hn), lookup_empty. split; [|by left].
  by intros [?|[_ ?]].
Qed.

Section Batch.
Context (t : db).
(** The keys of the tables, and the two pairs that are unique. *)
Context (unique_users : List.NoDup (map user_id (users t))) (unique_workspaces : List.NoDup (map ws_id (workspaces t)))
  (unique_members : List.NoDup (map (fun m => (om_organization m, om_user m)) (members t)))
  (unique_rows : List.NoDup (map (fun m => (wm_workspace m, wm_user m)) (workspace_members t))).

Lemma unique_by {A} {B} (key : A -> B) l x y : List.NoDup (map key l) -> In x l -> In y l -> key x = key y -> x = y.
Proof.
  induction l as [|z l IH]; cbn; [done|]. intros [Hz Hn]%List.NoDup_cons_iff [->|Hx] [->|Hy] E; [done|..|auto].
  - destruct Hz. rewrite E. by apply in_map.
  - destruct Hz. rewrite <- E. by apply in_map.
Qed.

Lemma find_unique {A} {B} (key : A -> B) (p : A -> bool) l x :
  List.NoDup (map key l) -> In x l -> p x = true -> (forall y, In y l -> p y = true -> key y = key x) ->
  List.find p l = Some x.
Proof.
  intros Hn Hx Hp Hk. destruct (List.find p l) as [y|] eqn:E.
  - apply List.find_some in E as [Hy Hpy]. f_equal. apply (unique_by key l); auto.
  - pose proof (List.find_none _ _ E _ Hx). congruence.
Qed.

(** Who sees the workspace, said of the rows. *)
Definition stands (i workspace organization : Z) (role : MemberRole) : Prop :=
  (exists v, In v (workspaces t) /\ ws_id v = workspace /\ ws_organization v = organization)
  /\ (exists u, In u (users t) /\ user_id u = i /\ is_active u = true)
  /\ (exists m, In m (members t) /\ om_organization m = organization /\ om_user m = i /\ om_status m = Active
                 /\ om_role m = role).
Definition placed_in (i workspace : Z) : Prop :=
  exists w, In w (workspace_members t) /\ wm_workspace w = workspace /\ wm_user w = i /\ wm_status w = Active.

Lemma is_workspace_member_spec workspace name :
  is_workspace_member workspace (Some name) t = true <->
  exists i organization role, name = str_uuid i /\ stands i workspace organization role
    /\ (MANAGEMENT_ROLES role = true \/ placed_in i workspace).
Proof.
  unfold is_workspace_member. split.
  - destruct (get_workspace workspace t) as [v|] eqn:Ev; [|done]. destruct (person_named name t) as [u|] eqn:Eu; [|done].
    intros [Ha H]%andb_true_iff. destruct (get_active_by_organization_and_user _ _ t) as [m|] eqn:Em; [|done].
    apply List.find_some in Ev as [Hv Hvi], Eu as [Hu Hun], Em as [Hm Hmp]. unfold is_active_member in Hmp. reflect_bools.
    exists (user_id u), (ws_organization v), (om_role m). split; [done|]. split.
    { split_and!; [by exists v|by exists u|exists m; by split_and!]. }
    apply orb_true_iff in H as [H|H]; [by left|right]. destruct (get_by_workspace_and_user _ _ t) as [x|] eqn:Ex; [|done].
    apply List.find_some in Ex as [Hx Hxp]. unfold is_active_workspace_member in H. reflect_bools. exists x. by split_and!.
  - intros (i & organization & role & -> & ((v & Hv & <- & <-) & (u & Hu & <- & Ha) & m & Hm & Hmo & Hmu & Hms & <-) & Hw).
    assert (get_workspace (ws_id v) t = Some v) as ->.
    { apply (find_unique ws_id); [done..|apply Z.eqb_refl|]. intros y _ Hy. by apply Z.eqb_eq. }
    assert (person_named (str_uuid (user_id u)) t = Some u) as ->.
    { apply (find_unique user_id); [done..|by apply bool_decide_eq_true|]. intros y _ Hy. reflect_bools.
      by apply (inj str_uuid). }
    assert (get_active_by_organization_and_user (ws_organization v) (user_id u) t = Some m) as ->.
    { apply (find_unique (fun m => (om_organization m, om_user m))); [done..| |].
      - unfold is_active_member. by rewrite Hmo, Hmu, !Z.eqb_refl, bool_decide_true.
      - intros y _ Hy. reflect_bools. congruence. }
    rewrite Ha. cbn. destruct Hw as [->|(w & Hw & Hww & Hwu & Hws)]; [done|]. apply orb_true_iff. right.
    assert (get_by_workspace_and_user (ws_id v) (user_id u) t = Some w) as ->.
    { apply (find_unique (fun m => (wm_workspace m, wm_user m))); [done..| |].
      - by rewrite Hww, Hwu, !Z.eqb_refl.
      - intros y _ Hy. reflect_bools. congruence. }
    unfold is_active_workspace_member. by apply bool_decide_eq_true.
Qed.

(** *** What each query finds *)

Lemma people_spec pairs pair i :
  In (pair, i) (people_of pairs t) <->
  In pair pairs /\ pair.2 = Some (str_uuid i) /\ exists u, In u (users t) /\ user_id u = i.
Proof.
  unfold people_of. rewrite <- list_elem_of_In, list_elem_of_omap. split.
  - intros (x & Hx & Hp). destruct x.2 as [name|] eqn:E; [|done]. destruct (person_named name t) as [u|] eqn:Eu; [|done].
    injection Hp as <- <-. apply List.find_some in Eu as [Hu Hn]. reflect_bools.
    split_and!; [by apply list_elem_of_In|congruence|by exists u].
  - intros (Hp & E & u & Hu & <-). exists pair. split; [by apply list_elem_of_In|]. rewrite E.
    assert (person_named (str_uuid (user_id u)) t = Some u) as ->; [|done].
    apply (find_unique user_id); [done..|by apply bool_decide_eq_true|]. intros y _ Hy. reflect_bools.
    by apply (inj str_uuid).
Qed.

Context (people : list ((Z * option string) * Z)).

Lemma organizations_spec x o :
  In x people -> organizations_of people t !! x.1.1 = Some o <->
  exists v, In v (workspaces t) /\ ws_id v = x.1.1 /\ ws_organization v = o.
Proof.
  intros Hx. unfold organizations_of. rewrite dict_of_spec by (by apply NoDup_map_filter).
  split; intros (v & Hv & E & Ho); exists v; split_and!; try done.
  - by apply List.filter_In in Hv as [? _].
  - apply List.filter_In. split; [done|]. apply bool_decide_eq_true, list_elem_of_In, in_map_iff. by exists x.
Qed.

Lemma candidates_spec x :
  In x (candidates people t) <->
  In x people /\ is_set (organizations_of people t !! x.1.1) = true
  /\ exists u, In u (users t) /\ user_id u = x.2 /\ is_active u = true.
Proof.
  unfold candidates, get_active_ids. rewrite List.filter_In, andb_true_iff, bool_decide_eq_true, list_elem_of_In, in_map_iff.
  split.
  - intros (Hx & Ho & u & Hu & [Hin Ha]%List.filter_In). apply andb_prop in Ha as [_ Ha].
    split_and!; [done..|]. by exists u.
  - intros (Hx & Ho & u & Hu & E & Ha). split_and!; [done..|]. exists u. split; [done|]. apply List.filter_In.
    split; [done|]. rewrite Ha, andb_true_r. apply bool_decide_eq_true, list_elem_of_In, in_map_iff. by exists x.
Qed.

Lemma role_spec x role :
  In x (candidates people t) ->
  role_in people t x = Some role <-> exists organization, stands x.2 x.1.1 organization role.
Proof.
  intros Hc. pose proof Hc as (Hx & _ & Hu)%candidates_spec. unfold role_in, stands.
  destruct (organizations_of people t !! x.1.1) as [o|] eqn:Eo.
  - pose proof Eo as (v & Hv & Hi & Ho)%organizations_spec; [|done]. unfold get_active_roles.
    rewrite dict_of_spec by (by apply NoDup_map_filter). split.
    + intros (m & Hm & [= Hmo Hmu] & Hr). apply List.filter_In in Hm as [Hm Hp]. unfold is_active_member in Hp.
      reflect_bools. exists o. split_and!; [by exists v|done|]. exists m. by split_and!.
    + intros (o' & (v' & Hv' & Hi' & <-) & _ & m & Hm & Hmo & Hmu & Hs & Hr).
      assert (v' = v) as -> by (apply (same_key ws_id (workspaces t)); [done..|congruence]). exists m.
      split_and!; [|by rewrite Hmo, Hmu, Ho|done]. apply List.filter_In. split; [done|].
      unfold is_active_member. rewrite Hmo, Hmu, (bool_decide_true (om_status m = Active)), andb_true_r by done.
      apply andb_true_iff. split; apply bool_decide_eq_true.
      * apply list_elem_of_omap. exists x. split; [by apply list_elem_of_In|]. by rewrite Eo, Ho.
      * apply list_elem_of_In, in_map_iff. by exists x.
  - split; [done|]. intros (o & (v & Hv) & _).
    assert (organizations_of people t !! x.1.1 = Some o) as E by (apply organizations_spec; [done|by exists v]). congruence.
Qed.

Lemma explicit_spec x :
  In x (candidates people t) -> is_set (role_in people t x) = true ->
  (x.1.1, x.2) ∈ explicit people t <-> placed_in x.2 x.1.1.
Proof.
  intros Hc Hr. unfold explicit, get_active_pairs, placed_in. rewrite list_elem_of_In, in_map_iff. split.
  - intros (w & [= Hw Hi] & [Hin Hp]%List.filter_In). unfold is_active_workspace_member in Hp. reflect_bools.
    exists w. by split_and!.
  - intros (w & Hin & Hw & Hi & Hs). exists w. split; [by rewrite Hw, Hi|]. apply List.filter_In. split; [done|].
    unfold is_active_workspace_member. rewrite Hw, Hi, (bool_decide_true (wm_status w = Active)), andb_true_r by done.
    apply andb_true_iff.
    split; apply bool_decide_eq_true, list_elem_of_In, in_map_iff; exists x; (split; [done|]); by apply List.filter_In.
Qed.

End Batch.

(** Asked of many pairs at once, in four queries, who sees a workspace is answered as it is for each pair alone. *)
Theorem members_read_together pairs pair t :
  List.NoDup (map user_id (users t)) -> List.NoDup (map ws_id (workspaces t)) ->
  List.NoDup (map (fun m => (om_organization m, om_user m)) (members t)) ->
  List.NoDup (map (fun m => (wm_workspace m, wm_user m)) (workspace_members t)) ->
  In pair (workspace_members_among pairs t) <->
  In pair pairs /\ is_workspace_member pair.1 pair.2 t = true.
Proof.
  intros Hu Hw Hm Hr. unfold workspace_members_among. rewrite in_map_iff. split.
  - intros ([pair' i] & <- & [Hc Hs]%List.filter_In). cbn [fst]. pose proof Hc as (Hp & _)%candidates_spec.
    apply people_spec in Hp as (Hp & E & _); [|done]. split; [done|]. rewrite E.
    apply is_workspace_member_spec; [done..|]. unfold seeing in Hs.
    destruct (role_in _ t (pair', i)) as [role|] eqn:Er; [|done]. pose proof Er as (o & Ho)%role_spec; [|done..].
    exists i, o, role. split_and!; [done..|]. apply orb_true_iff in Hs as [Hs|Hs]; [by left|right].
    apply bool_decide_eq_true in Hs. apply (explicit_spec _ (people_of pairs t) (pair', i)); [done| |done]. by rewrite Er.
  - intros [Hp H]. destruct pair as [w [name|]]; [|done]. cbn [fst snd] in H.
    apply is_workspace_member_spec in H as (i & o & role & -> & Hst & H); [|done..].
    pose proof Hst as ((v & Hv) & (u & Hin & Hi & Ha) & _).
    assert (In ((w, Some (str_uuid i)), i) (people_of pairs t)) as Hpeople.
    { apply people_spec; [done|]. split_and!; [done..|]. by exists u. }
    assert (In ((w, Some (str_uuid i)), i) (candidates (people_of pairs t) t)) as Hc.
    { apply candidates_spec; [done..|]. split_and!; [done| |by exists u].
      assert (organizations_of (people_of pairs t) t !! w = Some o) as E; [|cbn; by rewrite E].
      apply (organizations_spec t Hw _ ((w, Some (str_uuid i)), i)); [done|]. by exists v. }
    exists ((w, Some (str_uuid i)), i). split; [done|]. apply List.filter_In. split; [done|].
    assert (role_in (people_of pairs t) t ((w, Some (str_uuid i)), i) = Some role) as Er
      by (apply role_spec; [done..|]; by exists o).
    unfold seeing. rewrite Er. apply orb_true_iff. destruct H as [H|H]; [by left|right].
    apply bool_decide_eq_true. apply (explicit_spec _ _ ((w, Some (str_uuid i)), i)); [done| |done]. by rewrite Er.
Qed.

Definition asked_pairs : list (Z * option string) :=
  [(1, Some "1"); (1, Some "2"); (1, Some "svc_x"); (2, Some "1"); (1, None)].
Lemma members_read_together_witness :
  workspace_members_among asked_pairs (deployment Member) = [(1, Some "1")]
  /\ workspace_members_among asked_pairs (deployment Admin) = [(1, Some "1"); (1, Some "2")]
  /\ (In (1, Some "2") (workspace_members_among asked_pairs (deployment Admin)) <->
      In (1, Some "2") asked_pairs /\ is_workspace_member 1 (Some "2") (deployment Admin) = true).
Proof.
  split; [by vm_compute|]. split; [by vm_compute|].
  apply (members_read_together asked_pairs (1, Some "2") (deployment Admin)); repeat constructor; cbn; intuition discriminate.
Defined.
