(* ===== verification/Streaming.v ===== *)
(** The generator every streamed response goes through, [streaming_generator] of [streaming.py]: it passes a
    provider's chunks on as they come, holds back the few that end the stream until its cost is known, and settles
    the request whichever way the stream ends.

    A run is given what the upstream does, each [upstream] the answer to one wait, and how long the client stays:
    [patience] frames, or to the end.  What it does is the list of its frames and of the callbacks it calls. *)
From S2P Require Import Prelude.
From stdpp Require Import base list option strings.
From Stdlib Require Import ZArith Lia.
Open Scope Z_scope.

(** ** Usage *)

Record StreamUsage : Type := mkUsage {
  prompt_tokens : Z;
  completion_tokens : Z;
  total_tokens : Z;
  cache_read_tokens : Z;
  cache_write_tokens : Z;
  cache_write_1h_tokens : Z;
  cache_tokens_in_prompt : bool;
  reasoning_tokens : Z;
  provider_web_searches : Z
}.

(** [CompletionUsage(prompt_tokens=0, completion_tokens=0, total_tokens=0)]. *)
Definition no_usage : StreamUsage := mkUsage 0 0 0 0 0 0 true 0 0.

(** [update or current]. *)
Definition or_current (update current : Z) : Z := if update =? 0 then current else update.

Definition merge_stream_usage (current update : StreamUsage) : StreamUsage := {|
  prompt_tokens := or_current (prompt_tokens update) (prompt_tokens current);
  completion_tokens := or_current (completion_tokens update) (completion_tokens current);
  total_tokens := or_current (total_tokens update) (total_tokens current);
  cache_read_tokens := or_current (cache_read_tokens update) (cache_read_tokens current);
  cache_write_tokens := or_current (cache_write_tokens update) (cache_write_tokens current);
  cache_write_1h_tokens := or_current (cache_write_1h_tokens update) (cache_write_1h_tokens current);
  cache_tokens_in_prompt := cache_tokens_in_prompt update && cache_tokens_in_prompt current;
  reasoning_tokens := or_current (reasoning_tokens update) (reasoning_tokens current);
  provider_web_searches := or_current (provider_web_searches update) (provider_web_searches current)
|}.

Definition _MAX_TERMINAL_BUFFER_CHUNKS : nat := 4.

Section Generator.
(** Chunks, what a settlement returns, and exceptions. *)
Context {C S X : Type}.

(** ** What it is given *)

Record arguments : Type := {
  format_chunk : C -> X + string;
  extract_usage : C -> X + option StreamUsage;
  (** What [on_complete] returns, and how many keepalives pass before it does. *)
  on_complete : StreamUsage -> X + option S;
  settling : nat;
  (** Whether these two are given. *)
  on_no_usage : bool;
  on_incomplete : bool;
  is_cost_carrier : option (C -> bool);
  (** The carrier as it leaves it, or what it raises. *)
  attach_settlement : option (S -> C -> X + C);
  (** Said of the chunks so far, after each. *)
  completes_stream : option (list C -> bool);
  keepalive : bool;
  yield_done_on_error : bool;
  IncompleteStreamError : nat -> X
}.

Context (args : arguments).

Inductive callback : Type := FirstChunk | Complete (usage : StreamUsage) | NoUsage | Error (e : X) | Incomplete.

Inductive action : Type :=
| Sent (data : string)
| KeepAlive
| DoneMarker
| ErrorEvent (e : X)
| Calls (c : callback)
| UpstreamClosed.

(** A wait on the upstream ends with a chunk, with its end, with an exception, with nothing for a keepalive's time,
    or with the cancellation of the response. *)
Inductive upstream : Type := Chunk (c : C) | Ends | Fails (e : X) | Idle | Cancelled.

(** ** Its state *)

Record generator : Type := {
  actions : list action;
  patience : option nat;
  received : list C;
  usage : StreamUsage;
  has_usage : bool;
  settled : bool;
  seen_first_chunk : bool;
  terminal_buffer : list C;
  cost_carrier : option C;
  buffering_terminal : bool
}.

Definition start (frames : option nat) : generator :=
  {| actions := []; patience := frames; received := []; usage := no_usage; has_usage := false; settled := false;
     seen_first_chunk := false; terminal_buffer := []; cost_carrier := None; buffering_terminal := false |}.

Definition acts (a : action) (g : generator) : generator :=
  {| actions := actions g ++ [a]; patience := patience g; received := received g; usage := usage g;
     has_usage := has_usage g; settled := settled g; seen_first_chunk := seen_first_chunk g;
     terminal_buffer := terminal_buffer g; cost_carrier := cost_carrier g; buffering_terminal := buffering_terminal g |}.
Definition with_patience (p : option nat) (g : generator) : generator :=
  {| actions := actions g; patience := p; received := received g; usage := usage g;
     has_usage := has_usage g; settled := settled g; seen_first_chunk := seen_first_chunk g;
     terminal_buffer := terminal_buffer g; cost_carrier := cost_carrier g; buffering_terminal := buffering_terminal g |}.
Definition receives (c : C) (g : generator) : generator :=
  {| actions := actions g; patience := patience g; received := received g ++ [c]; usage := usage g;
     has_usage := has_usage g; settled := settled g; seen_first_chunk := seen_first_chunk g;
     terminal_buffer := terminal_buffer g; cost_carrier := cost_carrier g; buffering_terminal := buffering_terminal g |}.
Definition reports (u : StreamUsage) (g : generator) : generator :=
  {| actions := actions g; patience := patience g; received := received g; usage := merge_stream_usage (usage g) u;
     has_usage := true; settled := settled g; seen_first_chunk := seen_first_chunk g;
     terminal_buffer := terminal_buffer g; cost_carrier := cost_carrier g; buffering_terminal := buffering_terminal g |}.
Definition settles (g : generator) : generator :=
  {| actions := actions g; patience := patience g; received := received g; usage := usage g;
     has_usage := has_usage g; settled := true; seen_first_chunk := seen_first_chunk g;
     terminal_buffer := terminal_buffer g; cost_carrier := cost_carrier g; buffering_terminal := buffering_terminal g |}.
Definition sees_first (g : generator) : generator :=
  {| actions := actions g; patience := patience g; received := received g; usage := usage g;
     has_usage := has_usage g; settled := settled g; seen_first_chunk := true;
     terminal_buffer := terminal_buffer g; cost_carrier := cost_carrier g; buffering_terminal := buffering_terminal g |}.
Definition holds (buffer : list C) (carrier : option C) (buffering : bool) (g : generator) : generator :=
  {| actions := actions g; patience := patience g; received := received g; usage := usage g;
     has_usage := has_usage g; settled := settled g; seen_first_chunk := seen_first_chunk g;
     terminal_buffer := buffer; cost_carrier := carrier; buffering_terminal := buffering |}.

(** ** Programs: [Raises] an exception, or [Gone], the [BaseException] of a client that left *)

Inductive stop : Type := Raises (e : X) | Gone.
Definition G (A : Type) : Type := generator -> (stop + A) * generator.

Definition ret {A} (a : A) : G A := fun g => (inr a, g).
Definition raise {A} (s : stop) : G A := fun g => (inl s, g).
Definition bind {A B} (m : G A) (f : A -> G B) : G B := fun g =>
  let '(r, g) := m g in match r with inr a => f a g | inl s => (inl s, g) end.
Definition modify (f : generator -> generator) : G unit := fun g => (inr tt, f g).
Definition lift {A} (r : X + A) : G A := match r with inr a => ret a | inl e => raise (Raises e) end.

Notation "'do!' x ':=' m 'in' k" := (bind m (fun x => k)) (at level 10, x pattern, m at level 100, k at level 200).
Notation "m ';;>' k" := (bind m (fun _ => k)) (at level 100, right associativity).

(** [yield]: the client takes the frame, and comes back for another or does not. *)
Definition yield (a : action) : G unit := fun g =>
  let g := acts a g in
  match patience g with
  | None => (inr tt, g)
  | Some O => (inl Gone, g)
  | Some (Datatypes.S n) => (inr tt, with_patience (Some n) g)
  end.

Definition call (c : callback) : G unit := modify (acts (Calls c)).

(** [_format_and_mark_first]. *)
Definition _format_and_mark_first (c : C) : G string :=
  do! formatted := lift (format_chunk args c) in
  do! seen := (fun g => (inr (seen_first_chunk g), g)) in
  (if seen : bool then ret tt else modify sees_first ;;> call FirstChunk) ;;>
  ret formatted.

Definition send (c : C) : G unit := do! formatted := _format_and_mark_first c in yield (Sent formatted).

Fixpoint send_all (l : list C) : G unit :=
  match l with [] => ret tt | c :: l => send c ;;> send_all l end.

(** The chunks held back, which are dropped from the buffer once all were sent. *)
Definition send_buffered : G unit := fun g => send_all (terminal_buffer g) g.

(** ** The body *)

Definition on_chunk (c : C) : G unit :=
  modify (receives c) ;;>
  do! chunk_usage := lift (extract_usage args c) in
  match chunk_usage with Some u => modify (reports u) | None => ret tt end ;;>
  if match is_cost_carrier args with Some p => p c | None => false end then
    send_buffered ;;>
    modify (holds [c] (Some c) true)
  else
    do! held := (fun g => (inr (buffering_terminal g, terminal_buffer g, cost_carrier g), g)) in
    let '(buffering, buffer, carrier) := held in
    if buffering : bool then
      if (_MAX_TERMINAL_BUFFER_CHUNKS <=? length buffer)%nat then
        send_buffered ;;>
        modify (holds [] None false) ;;>
        send c
      else modify (holds (buffer ++ [c]) carrier true)
    else send c.

Fixpoint read (script : list upstream) : G unit :=
  match script with
  | [] | Cancelled :: _ => raise Gone
  | Ends :: _ => ret tt
  | Fails e :: _ => raise (Raises e)
  | Idle :: script => (if keepalive args then yield KeepAlive else ret tt) ;;> read script
  | Chunk c :: script => on_chunk c ;;> read script
  end.

Definition completed (l : list C) : bool :=
  match completes_stream args, l with
  | None, _ => true
  | Some _, [] => false
  | Some p, l => p l
  end.

Fixpoint wait_alive (n : nat) : G unit :=
  match n with O => ret tt | Datatypes.S n => yield KeepAlive ;;> wait_alive n end.

(** A failed settlement is logged. *)
Definition settle : G (option S) :=
  modify settles ;;>
  do! reported := (fun g => (inr (has_usage g, usage g), g)) in
  if reported.1 : bool then
    call (Complete reported.2) ;;>
    (if keepalive args then wait_alive (settling args) else ret tt) ;;>
    ret (match on_complete args reported.2 with inr s => s | inl _ => None end)
  else
    (if on_no_usage args then call NoUsage else ret tt) ;;>
    ret None.

(** The carrier is the buffer's first chunk, which it changes in place. *)
Definition attach (settlement : option S) : G unit := fun g =>
  match settlement, attach_settlement args, cost_carrier g, terminal_buffer g with
  | Some s, Some f, Some c, _ :: rest =>
      match f s c with
      | inr c => (inr tt, holds (c :: rest) (Some c) (buffering_terminal g) g)
      | inl _ => (inr tt, g)
      end
  | _, _, _, _ => (inr tt, g)
  end.

Definition finish : G unit :=
  do! l := (fun g => (inr (received g), g)) in
  (if completed l then ret tt else raise (Raises (IncompleteStreamError args (length l)))) ;;>
  do! settlement := settle in
  attach settlement ;;>
  send_buffered ;;>
  modify (fun g => holds [] (cost_carrier g) (buffering_terminal g) g) ;;>
  yield DoneMarker.

(** ** [except Exception] and [finally] *)

Definition on_exception (e : X) : G unit :=
  send_buffered ;;>
  modify (fun g => holds [] (cost_carrier g) (buffering_terminal g) g) ;;>
  yield (ErrorEvent e) ;;>
  (if yield_done_on_error args then yield DoneMarker else ret tt) ;;>
  modify settles ;;>
  call (Error e).

Definition finally_settle (g : generator) : generator :=
  acts UpstreamClosed (if negb (settled g) && on_incomplete args then acts (Calls Incomplete) g else g).

Definition guarded (script : list upstream) : G unit := fun g =>
  let '(r, g) := (read script ;;> finish) g in
  match r with inl (Raises e) => on_exception e g | _ => (r, g) end.

Definition streaming_generator (script : list upstream) (frames : option nat) : (stop + unit) * generator :=
  let '(r, g) := guarded script (start frames) in (r, finally_settle g).

End Generator.

(** * Every streamed response settles its request once, and loses, repeats and reorders nothing it was sent. *)

Section Proofs.
Context {C S X : Type} (args : @arguments C S X).
Notation generator := (@generator C X).
Notation G := (@G C X).
Notation action := (@action X).
Notation upstream := (@upstream C X).
Implicit Types (g : generator) (c : C) (script : list upstream).

(** ** What a program leaves as it is *)

Definition keeps {V A} (v : generator -> V) (m : G A) : Prop := forall g, v (m g).2 = v g.

Definition is_settlement (a : action) : bool :=
  match a with Calls (Complete _) | Calls NoUsage | Calls (Error _) | Calls Incomplete => true | _ => false end.
Definition settlements (l : list action) : list action := List.filter is_settlement l.

(** What sending does not change. *)
Class Blind {V} (v : generator -> V) : Prop := {
  blind_acts a g : is_settlement a = false -> v (acts a g) = v g;
  blind_patience p g : v (with_patience p g) = v g;
  blind_first g : v (sees_first g) = v g;
  blind_holds l k b g : v (holds l k b g) = v g
}.

Section Keeps.
Context {V : Type} (v : generator -> V).

Lemma keeps_ret {A} (a : A) : keeps v (ret a).
Proof. done. Qed.
Lemma keeps_raise {A} s : keeps v (raise (A := A) s).
Proof. done. Qed.
Lemma keeps_look {A} (q : generator -> A) : keeps v (fun g => (inr (q g), g)).
Proof. done. Qed.
Lemma keeps_lift {A} (r : X + A) : keeps v (lift r).
Proof. by destruct r. Qed.
Lemma keeps_bind {A B} (m : G A) (f : A -> G B) : keeps v m -> (forall a, keeps v (f a)) -> keeps v (bind m f).
Proof.
  intros Hm Hf g. unfold bind. specialize (Hm g). destruct (m g) as [[s|a] g1]; [done|]. cbn in Hm. by rewrite Hf.
Qed.
Lemma keeps_modify f : (forall g, v (f g) = v g) -> keeps v (modify f).
Proof. intros H g. apply H. Qed.
Lemma keeps_if {A} (b : bool) (m m' : G A) : keeps v m -> keeps v m' -> keeps v (if b then m else m').
Proof. by destruct b. Qed.

Context {B : Blind v}.

Lemma keeps_yield a : is_settlement a = false -> keeps v (yield a).
Proof.
  intros H g. unfold yield. cbv zeta. destruct (patience (acts a g)) as [[|n]|]; cbn [snd];
    rewrite ?blind_patience; by apply blind_acts.
Qed.
Lemma keeps_holds l k b : keeps v (modify (holds l k b)).
Proof. intros g. apply blind_holds. Qed.
Lemma keeps_send c : keeps v (send args c).
Proof.
  intros g. unfold send, _format_and_mark_first, bind, lift, call, modify.
  destruct (format_chunk args c) as [e|f]; [done|]. cbn. destruct (seen_first_chunk g); cbn.
  - by apply keeps_yield.
  - rewrite (keeps_yield (Sent f)) by done. rewrite blind_acts by done. apply blind_first.
Qed.
Lemma keeps_send_all l : keeps v (send_all args l).
Proof. induction l; [apply keeps_ret|]. apply keeps_bind; [apply keeps_send|]. by intros []. Qed.
Lemma keeps_send_buffered : keeps v (send_buffered args).
Proof. intros g. apply keeps_send_all. Qed.
Lemma keeps_wait n : keeps v (wait_alive n).
Proof. induction n; cbn; [apply keeps_ret|]. apply keeps_bind; [by apply keeps_yield|]. by intros []. Qed.
Lemma keeps_attach s : keeps v (attach args s).
Proof.
  intros g. unfold attach. destruct s, (attach_settlement args) as [f|], (cost_carrier g) as [c|], (terminal_buffer g); try done.
  destruct (f _ _); [done|]. apply blind_holds.
Qed.
End Keeps.

Ltac keep :=
  repeat first
    [ progress (typeclasses eauto) | apply keeps_ret | apply keeps_raise | apply keeps_look | apply keeps_lift | apply keeps_holds | apply keeps_send
    | apply keeps_send_all | apply keeps_send_buffered | apply keeps_wait | apply keeps_attach
    | (apply keeps_yield; solve [typeclasses eauto | reflexivity]) | apply keeps_if | (apply keeps_bind; [|intros ?])
    | match goal with |- keeps _ (match ?x with _ => _ end) => destruct x end ].

(** ** What each chunk tells *)

Definition settling_of g : list action * bool := (settlements (actions g), settled g).
Definition told_of g : list C * StreamUsage * bool := (received g, usage g, has_usage g).

#[local] Instance settling_blind : Blind settling_of.
Proof.
  split; try done. intros a g Ha. unfold settling_of, settlements. cbn. rewrite List.filter_app. cbn.
  by rewrite Ha, app_nil_r.
Qed.
#[local] Instance told_blind : Blind told_of.
Proof. by split. Qed.

Definition reported (l : list C) : list StreamUsage :=
  omap (fun c => match extract_usage args c with inr u => u | inl _ => None end) l.
Definition merged (l : list C) : StreamUsage := fold_left merge_stream_usage (reported l) no_usage.
Definition reports_some (l : list C) : bool := match reported l with [] => false | _ => true end.

(** The chunks of a script, and whether the upstream ended it. *)
Fixpoint chunks_of script : list C :=
  match script with Chunk c :: script => c :: chunks_of script | Idle :: script => chunks_of script | _ => [] end.
Fixpoint ends script : bool :=
  match script with Ends :: _ => true | (Chunk _ | Idle) :: script => ends script | _ => false end.

Definition told_after (l : list C) g : list C * StreamUsage * bool :=
  (received g ++ l, fold_left merge_stream_usage (reported l) (usage g), has_usage g || reports_some l).

Lemma told_app c l g g1 :
  told_of g1 = told_after [c] g -> told_after l g1 = told_after (c :: l) g.
Proof.
  intros [= E1 E2 E3]. unfold told_after, reports_some, reported in *. rewrite E1, E2, E3. cbn.
  destruct (match extract_usage args c with inr u => u | inl _ => None end); cbn;
    by rewrite <- app_assoc, ?orb_true_r, ?orb_false_r.
Qed.

Lemma on_chunk_told c g : match on_chunk args c g with (inr tt, g') => told_of g' = told_after [c] g | _ => True end.
Proof.
  unfold on_chunk, bind at 1, modify at 1. unfold bind at 1, lift at 1. unfold told_after, reports_some, reported. cbn [omap list_omap].
  destruct (extract_usage args c) as [e|u]; [done|]. unfold ret at 1.
  match goal with |- match bind ?m ?k ?g0 with _ => _ end => set (next := k tt) end.
  assert (keeps told_of next) as Hk.
  { unfold next. keep. }
  unfold bind at 1. destruct u as [u|]; cbv beta iota delta [modify ret];
    match goal with |- context [next ?g1] => specialize (Hk g1); destruct (next g1) as [[s|[]] g']; [done|] end;
    cbn [snd] in Hk; rewrite Hk; unfold told_of; cbn; by rewrite ?orb_true_r, ?orb_false_r.
Qed.

Lemma read_told script g :
  match read args script g with
  | (inr tt, g') => ends script = true /\ told_of g' = told_after (chunks_of script) g
  | _ => True
  end.
Proof.
  revert g. induction script as [|[c| |e| |] script IH]; intros g; cbn [read chunks_of ends]; try done.
  - unfold bind at 1. pose proof (on_chunk_told c g) as Hc. destruct (on_chunk args c g) as [[s|[]] g1]; [done|].
    specialize (IH g1). destruct (read args script g1) as [[s|[]] g2]; [done|]. destruct IH as [He ->].
    split; [done|]. by apply told_app.
  - split; [done|]. unfold told_after, reports_some. cbn. by rewrite app_nil_r, orb_false_r.
  - assert (keeps told_of (if keepalive args then yield KeepAlive else ret tt)) as Hk.
    { keep. }
    unfold bind at 1. specialize (Hk g). revert Hk. generalize ((if keepalive args then yield KeepAlive else ret ()) g).
    intros [[s|[]] g1] Hk; [done|].
    cbn in Hk. specialize (IH g1). destruct (read args script g1) as [[s|[]] g2]; [done|]. destruct IH as [He ->].
    split; [done|]. unfold told_after. by injection Hk as -> -> ->.
Qed.
(** ** A chunk that cannot be written is met again *)

(** Sending leaves the buffer, and raises only over a chunk that cannot be written. *)
Lemma send_all_spec l g :
  let '(r, g') := send_all args l g in
  terminal_buffer g' = terminal_buffer g
  /\ match r with inl (Raises e) => exists c, In c l /\ format_chunk args c = inl e | _ => True end.
Proof.
  revert g. induction l as [|c l IH]; intros g; cbn [send_all]; [done|].
  assert (let '(r, g') := send args c g in
          terminal_buffer g' = terminal_buffer g
          /\ match r with inl (Raises e) => format_chunk args c = inl e | _ => True end) as Hc.
  { unfold send, _format_and_mark_first, bind, lift. destruct (format_chunk args c) as [e|f]; [done|]. cbn.
    destruct (seen_first_chunk g); cbn; unfold yield; cbn; by destruct (patience g) as [[|n]|]. }
  unfold bind. destruct (send args c g) as [[s|[]] g1], Hc as [E Hs].
  - split; [done|]. destruct s; [|done]. exists c. split; [by left|done].
  - specialize (IH g1). destruct (send_all args l g1) as [r g2], IH as [E' Hr]. split; [by rewrite E'|].
    destruct r as [[e|]|]; [|done..]. destruct Hr as (c' & ? & ?). exists c'. split; [by right|done].
Qed.

Lemma send_all_fails l g c e :
  In c l -> format_chunk args c = inl e -> exists s g', send_all args l g = (inl s, g').
Proof.
  revert g. induction l as [|x l IH]; intros g; [done|]. intros [->|Hc] He; cbn [send_all]; unfold bind.
  - unfold send, _format_and_mark_first, bind, lift. rewrite He. by eexists _, _.
  - destruct (send args x g) as [[s|[]] g1]; [by eexists _, _|]. by apply IH.
Qed.

(** ** One settlement *)

Notation finished := (@stop X + unit)%type.

(** How a run settled, when it did. *)
Definition verdict script g (settlement : @callback X) : Prop :=
  match settlement with
  | Complete u => ends script = true /\ completed args (chunks_of script) = true
                  /\ reported (chunks_of script) <> [] /\ u = merged (chunks_of script)
  | NoUsage => ends script = true /\ completed args (chunks_of script) = true /\ reported (chunks_of script) = []
  | Error e => In (ErrorEvent e) (actions g)
  | Incomplete | FirstChunk => False
  end.

Definition by_verdict script g : Prop :=
  exists settlement : @callback X, settling_of g = ([Calls settlement], true) /\ verdict script g settlement.
Definition unsettled g : Prop := settling_of g = ([], false).

Definition wps {A} (m : G A) (Q : @stop X + A -> generator -> Prop) g : Prop := let '(r, g') := m g in Q r g'.

Lemma wps_bind {A B} (m : G A) (f : A -> G B) Q g :
  wps m (fun r g' => match r with inr a => wps (f a) Q g' | inl s => Q (inl s) g' end) g -> wps (bind m f) Q g.
Proof. unfold wps, bind. by destruct (m g) as [[s|a] g']. Qed.

Lemma wps_keeps {V A} (v : generator -> V) (m : G A) (Q : @stop X + A -> generator -> Prop) g :
  keeps v m -> (forall r g', v g' = v g -> Q r g') -> wps m Q g.
Proof. intros H HQ. unfold wps. specialize (H g). destruct (m g) as [r g']. by apply HQ. Qed.

(** A frame the client took, or took and left. *)
Lemma wps_yield a (Q : @stop X + unit -> generator -> Prop) g :
  is_settlement a = false ->
  (forall r g', settling_of g' = settling_of g -> actions g' = actions g ++ [a] -> r = inr tt \/ r = inl Gone -> Q r g') ->
  wps (yield a) Q g.
Proof.
  intros Ha H. unfold wps. pose proof (keeps_yield settling_of a Ha g) as Hk. unfold yield in *. cbv zeta in *.
  destruct (patience (acts a g)) as [[|n]|]; apply H; auto.
Qed.

(** The handler settles with the error it told of, unless it cannot go on. *)
Lemma on_exception_settles e script g :
  unsettled g ->
  wps (on_exception args e) (fun r g' => match r with inr _ => by_verdict script g' | inl _ => unsettled g' end) g.
Proof.
  intros Hg. apply wps_bind, (wps_keeps settling_of); [keep|]. intros r g1 E1.
  destruct r as [s|[]]; [unfold unsettled; congruence|].
  apply wps_bind. unfold wps at 1, modify at 1. apply wps_bind, wps_yield; [done|].
  intros r g2 E2 Ha Hr. assert (unsettled g2) as Hg2 by (unfold unsettled; rewrite E2; exact (eq_trans E1 Hg)).
  destruct Hr as [->| ->]; [|done]. apply wps_bind.
  assert (wps (if yield_done_on_error args then yield DoneMarker else ret tt)
            (fun r g3 => settling_of g3 = settling_of g2 /\ In (ErrorEvent e) (actions g3)) g2) as Hd.
  { assert (In (ErrorEvent e) (actions g2)) as Hin by (rewrite Ha; apply in_or_app; right; by left).
    destruct (yield_done_on_error args); [|done]. apply wps_yield; [done|]. intros r g3 E3 Ha3 _.
    split; [done|]. rewrite Ha3. apply in_or_app. by left. }
  revert Hd. unfold wps. generalize ((if yield_done_on_error args then yield DoneMarker else ret ()) g2).
  intros [[s|[]] g3] [E3 Hin]; [exact (eq_trans E3 Hg2)|]. cbn. exists (Error e). split; [|apply in_or_app; by left].
  unfold settling_of, settlements. cbn. rewrite List.filter_app.
  assert (settlements (actions g3) = []) as H3 by (pose proof (eq_trans E3 Hg2) as [= H _]; exact H).
  unfold settlements in H3. by rewrite H3.
Qed.

(** *** Reading, then finishing *)

(** Settled by what the script alone tells. *)
Definition settled_by script (v : list action * bool) : Prop :=
  exists settlement : @callback X, v = ([Calls settlement], true) /\ forall g, verdict script g settlement.

Lemma settled_verdict script g : settled_by script (settling_of g) -> by_verdict script g.
Proof. intros (c & Hc & Hv). by exists c. Qed.

Lemma wait_gone n g : match wait_alive n g with (inl (Raises _), _) => False | _ => True end.
Proof.
  revert g. induction n as [|n IH]; intros g; cbn; [done|]. unfold bind, yield. cbv zeta.
  destruct (patience (acts KeepAlive g)) as [[|k]|]; [done|apply IH..].
Qed.

(** What is settled once the upstream has ended. *)
Lemma settle_verdict script g :
  on_no_usage args = true -> unsettled g -> ends script = true -> completed args (chunks_of script) = true ->
  told_of g = told_after (chunks_of script) (start None) ->
  wps (settle args) (fun r g' => match r with inl (Raises _) => False | _ => settled_by script (settling_of g') end) g.
Proof.
  intros Hn Hg He Hc [= Hrec Huse Hhas]. unfold settle. apply wps_bind. unfold wps at 1, modify at 1. apply wps_bind. unfold wps at 1.
  cbn [usage has_usage settles]. rewrite Huse, Hhas. cbn [fst snd].
  assert (forall a, settling_of (acts (Calls a) (settles g)) = (settlements [Calls a], true)) as Hcall.
  { intros a. unfold settling_of, settlements. cbn [actions acts settles settled]. rewrite List.filter_app.
    pose proof Hg as [= H _]. unfold settlements in H. by rewrite H. }
  unfold reports_some. cbn [has_usage start orb]. destruct (reported (chunks_of script)) as [|u l] eqn:Er.
  - rewrite Hn. apply wps_bind. unfold wps, call, modify, ret. exists NoUsage. by rewrite Hcall.
  - apply wps_bind. unfold wps at 1, call, modify. apply wps_bind.
    set (g1 := acts _ _).
    assert (settled_by script (settling_of g1)) as Hv.
    { exists (Complete (fold_left merge_stream_usage (u :: l) no_usage)). split; [apply Hcall|]. intros ?.
      cbn [verdict]. unfold merged. by rewrite Er. }
    assert (match wait_alive (X := X) (C := C) (settling args) g1 with (inl (Raises _), _) => False | _ => True end) as Hw by apply wait_gone.
    assert (keeps settling_of (if keepalive args then wait_alive (settling args) else ret tt)) as Hk by keep.
    specialize (Hk g1). unfold wps. destruct (keepalive args); [|exact Hv].
    destruct (wait_alive (settling args) g1) as [[[e|]|[]] g2]; [done|..]; cbn [snd] in Hk; unfold ret; by rewrite Hk.
Qed.

Lemma keeps_on_chunk c : keeps settling_of (on_chunk args c).
Proof.
  unfold on_chunk. apply keeps_bind; [by apply keeps_modify|]. intros []. keep; by apply keeps_modify.
Qed.
Lemma keeps_read script : keeps settling_of (read args script).
Proof.
  induction script as [|[c| |e| |] script IH]; cbn [read]; try done.
  - apply keeps_bind; [apply keeps_on_chunk|by intros []].
  - apply keeps_bind; [keep|by intros []].
Qed.

Lemma attach_returns settlement g : exists g', attach args settlement g = (inr tt, g').
Proof.
  unfold attach. destruct settlement, (attach_settlement args) as [f|], (cost_carrier g) as [c|], (terminal_buffer g) as [|x r];
    try (by eexists). destruct (f _ _); by eexists.
Qed.

(** What is sent after the settlement, and again if that raises, does not settle it again. *)
Lemma closing_settles script g :
  settled_by script (settling_of g) ->
  let '(r, g') := bind (send_buffered args) (fun _ => bind (modify (fun g => holds [] (cost_carrier g) (buffering_terminal g) g)) (fun _ => yield DoneMarker)) g in
  match r with inl (Raises e) => by_verdict script (on_exception args e g').2 | _ => by_verdict script g' end.
Proof.
  intros H3. unfold bind at 1. pose proof (send_all_spec (terminal_buffer g) g) as Hspec.
  pose proof (keeps_send_buffered settling_of g) as H4. unfold send_buffered in H4. unfold send_buffered at 1.
  destruct (send_all args (terminal_buffer g) g) as [[[e|]|[]] g4]; cbn [snd] in H4.
  - destruct Hspec as [Hb (c & Hin & Hf)]. unfold on_exception, bind at 1. unfold send_buffered at 1. rewrite Hb.
    destruct (send_all_fails (terminal_buffer g) g4 c e Hin Hf) as (s & g5 & E5).
    pose proof (keeps_send_all settling_of (terminal_buffer g) g4) as H5. rewrite E5 in H5 |- *. cbn in H5.
    apply settled_verdict. cbn [snd]. by rewrite H5, H4.
  - apply settled_verdict. by rewrite H4.
  - unfold bind, modify, yield. cbv zeta.
    assert (forall p, settling_of (acts DoneMarker (holds [] (cost_carrier g4) (buffering_terminal g4) g4)) = settling_of g4
                      /\ settling_of (with_patience p (acts DoneMarker (holds [] (cost_carrier g4) (buffering_terminal g4) g4))) = settling_of g4) as Hd.
    { intros p. rewrite blind_patience, blind_acts by done. by rewrite blind_holds. }
    destruct (patience _) as [[|n]|]; apply settled_verdict; [destruct (Hd None) as [-> _]|destruct (Hd (Some n)) as [_ ->]|destruct (Hd None) as [-> _]]; by rewrite H4.
Qed.

(** The run before [finally]: it settled, and says how; or it did not, and did not come to its end. *)
Lemma guarded_settles script frames :
  on_no_usage args = true ->
  wps (guarded args script) (fun r g => by_verdict script g \/ (unsettled g /\ r <> inr tt)) (start frames).
Proof.
  intros Hn. unfold wps, guarded, bind at 1.
  assert (unsettled (start frames)) as H0 by done.
  pose proof (read_told script (start frames)) as Hread.
  pose proof (keeps_read script) as Hk.
  specialize (Hk (start frames)). destruct (read args script (start frames)) as [[[e|]|[]] g1]; cbn [snd] in Hk.
  - pose proof (on_exception_settles e script g1 (eq_trans Hk H0)) as He. unfold wps in He.
    destruct (on_exception args e g1) as [[s|[]] g2]; [right|by left]. by split.
  - right. by split.
  - destruct Hread as [Hends Htold]. unfold finish at 1, bind at 1.
    assert (received g1 = chunks_of script) as -> by by injection Htold.
    destruct (completed args (chunks_of script)) eqn:Hc.
    2: { cbn. pose proof (on_exception_settles (IncompleteStreamError args (length (chunks_of script))) script g1 (eq_trans Hk H0)) as He.
         unfold wps in He. destruct (on_exception args _ g1) as [[s|[]] g2]; [right|by left]. by split. }
    unfold bind at 1, ret at 1. unfold bind at 1.
    pose proof (settle_verdict script g1 Hn (eq_trans Hk H0) Hends Hc Htold) as Hs. unfold wps in Hs.
    destruct (settle args g1) as [[[e|]|settlement] g2]; [done|left; by apply settled_verdict|].
    destruct (attach_returns settlement g2) as (g3 & Ha). pose proof (keeps_attach settling_of settlement g2) as E.
    unfold bind at 1. rewrite Ha in E |- *. cbn in E. rewrite <- E in Hs. pose proof (closing_settles script g3 Hs) as Hclose.
    destruct (bind _ _ g3) as [[[e|]|[]] g4]; [|by left..]. destruct (on_exception args e g4). by left.
Qed.

Lemma settles_once script frames :
  on_no_usage args = true -> on_incomplete args = true ->
  exists before (settlement : @callback X),
    let '(r, g) := streaming_generator args script frames in
    actions g = before ++ [UpstreamClosed] /\ settlements (actions g) = [Calls settlement]
    /\ match settlement with Incomplete => r <> inr tt | _ => verdict script g settlement end.
Proof.
  intros Hn Hi. unfold streaming_generator. pose proof (guarded_settles script frames Hn) as H. unfold wps in H.
  destruct (guarded args script (start frames)) as [r g]. unfold finally_settle. rewrite Hi, andb_true_r.
  destruct H as [(c & E & Hv)|[E Hr]]; injection E as E1 E2; rewrite E2; cbn [negb].
  - exists (actions g), c. unfold settlements in *. cbn. rewrite List.filter_app, E1. split_and!; [done..|].
    destruct c; try done. cbn in *. apply in_or_app. by left.
  - exists (actions g ++ [Calls Incomplete]), Incomplete. unfold settlements in *. cbn.
    rewrite !List.filter_app, E1. done.
Qed.
(** A run settles its request exactly once, whatever the upstream sends, fails at or never sends, and whenever the
    client leaves: with the usage of every chunk where the upstream ended complete and reported some, as a stream
    without usage where it reported none, with the error the client was sent where it failed, and otherwise as a
    stream left unfinished, which then does not come to its end.  It closes the upstream last. *)
Theorem streams_settle_once script frames :
  on_no_usage args = true -> on_incomplete args = true ->
  exists before (settlement : @callback X),
    let '(r, g) := streaming_generator args script frames in
    actions g = before ++ [UpstreamClosed] /\ settlements (actions g) = [Calls settlement]
    /\ match settlement with Incomplete => r <> inr tt | _ => verdict script g settlement end.
Proof. apply settles_once. Qed.
End Proofs.

(** ** Delivery *)

Section Delivery.
Context {C S X : Type} (args : @arguments C S X).
Notation generator := (@generator C X).
Notation G := (@G C X).
Notation upstream := (@upstream C X).
Implicit Types (g : generator) (c : C) (l : list C) (script : list upstream).

(** Every chunk can be written and read. *)
Context (fmt : C -> string) (writes : forall c, format_chunk args c = inr (fmt c)).
Context (reads : forall c, exists u, extract_usage args c = inr u).

Definition frames_of (l : list (@action X)) : list string :=
  omap (fun a => match a with Sent f => Some f | _ => None end) l.
Definition sent g : list string := frames_of (actions g).

(** What is held back, and behind what. *)
Definition held_of g : list C * option C * bool * list C := (terminal_buffer g, cost_carrier g, buffering_terminal g, received g).

Lemma sent_acts a g : sent (acts a g) = sent g ++ frames_of [a].
Proof. unfold sent, frames_of. cbn [actions acts]. by rewrite omap_app. Qed.

(** A client that takes every frame, or one that left after some. *)
Definition sends (fs : list string) g (r : @stop X + unit) g' : Prop :=
  held_of g' = held_of g
  /\ (r = inr tt /\ sent g' = sent g ++ fs \/ r = inl Gone /\ exists n, sent g' = sent g ++ take n fs).

Lemma yield_sends a g : wps (yield a) (sends (frames_of [a]) g) g.
Proof.
  unfold wps, yield. cbv zeta. destruct (patience (acts a g)) as [[|n]|]; split; try done; [right|left..].
  - split; [done|]. exists 1%nat. rewrite sent_acts. by destruct a.
  - by rewrite <- sent_acts.
  - by rewrite <- sent_acts.
Qed.

Lemma sends_after fs fs' g g1 r g' : sends fs g (inr tt) g1 -> sends fs' g1 r g' -> sends (fs ++ fs') g r g'.
Proof.
  intros [E [[_ Hs]|[? _]]]; [|done]. intros [E' Hr]. split; [congruence|].
  destruct Hr as [[-> Hs']|[-> [n Hs']]]; [left; by rewrite Hs', Hs, app_assoc|right]. split; [done|]. exists (length fs + n)%nat.
  by rewrite take_app_add, app_assoc, <- Hs, Hs'.
Qed.

Lemma wps_sends_bind {A} (m : G unit) (f : unit -> G A) fs (Q : @stop X + A -> generator -> Prop) g :
  wps m (sends fs g) g ->
  (forall g', sends fs g (inr tt) g' -> wps (f tt) Q g') ->
  (forall g', sends fs g (inl Gone) g' -> Q (inl Gone) g') -> wps (bind m f) Q g.
Proof.
  intros Hm Hf Hg. apply wps_bind. revert Hm. unfold wps at 1 2. destruct (m g) as [r g']. intros H.
  pose proof H as [_ [[-> _]|[-> _]]]; [by apply Hf|by apply Hg].
Qed.

Lemma send_sends c g : wps (send args c) (sends [fmt c] g) g.
Proof.
  unfold send, _format_and_mark_first, lift. rewrite writes. unfold wps, bind, ret, call, modify. cbv beta iota.
  destruct (seen_first_chunk g); [exact (yield_sends (Sent (fmt c)) g)|].
  pose proof (yield_sends (Sent (fmt c)) (acts (Calls FirstChunk) (sees_first g))) as H. revert H. unfold wps.
  destruct (yield _ _) as [r g']. unfold sends. by rewrite sent_acts, app_nil_r.
Qed.

Lemma send_all_sends l g : wps (send_all args l) (sends (map fmt l) g) g.
Proof.
  revert g. induction l as [|c l IH]; intros g; cbn [send_all map].
  - unfold wps, ret. split; [done|]. left. by rewrite app_nil_r.
  - apply (wps_sends_bind _ _ [fmt c]); [apply send_sends| |].
    + intros g' H. specialize (IH g'). revert IH. unfold wps. destruct (send_all args l g') as [r g2]. by apply (sends_after [fmt c]).
    + intros g' [E [[? _]|[_ [n Hn]]]]; [done|]. split; [done|]. right. split; [done|].
      exists (Nat.min n 1). rewrite Hn. by destruct n as [|[|n]].
Qed.

Definition carries c : bool := match is_cost_carrier args with Some p => p c | None => false end.

(** A chunk that carries the cost, and the few after it that do not. *)
Definition tail_of c (suf : list C) : Prop :=
  carries c = true /\ Forall (fun x => carries x = false) suf /\ (length suf < _MAX_TERMINAL_BUFFER_CHUNKS)%nat.

(** Everything received was sent or is held back, in its order; held are the last carrier and what follows it, and
    only while they are few. *)
Definition Held l g : Prop :=
  received g = l
  /\ (exists pre, l = pre ++ terminal_buffer g /\ sent g = map fmt pre)
  /\ if buffering_terminal g then exists c suf, terminal_buffer g = c :: suf /\ cost_carrier g = Some c /\ tail_of c suf
     else terminal_buffer g = [] /\ cost_carrier g = None /\ forall pre c suf, l = pre ++ c :: suf -> ~ tail_of c suf.

Definition delivers l (r : @stop X + unit) g : Prop := r = inr tt /\ Held l g \/ r = inl Gone /\ sent g `prefix_of` map fmt l.

Lemma held_sent l g : Held l g -> sent g ++ map fmt (terminal_buffer g) = map fmt l.
Proof. intros (_ & (pre & -> & ->) & _). by rewrite map_app. Qed.
Lemma held_sent_prefix l l' g : Held l g -> sent g `prefix_of` map fmt (l ++ l').
Proof. intros H. rewrite map_app, <- (held_sent l g H), <- app_assoc. by apply prefix_app_r. Qed.

Lemma sends_gone fs l g r g' : sends fs g r g' -> r <> inr tt -> sent g ++ fs `prefix_of` map fmt l -> r = inl Gone /\ sent g' `prefix_of` map fmt l.
Proof.
  intros [_ [[? _]|[-> [n ->]]]]; [done|]. intros _ Hp. split; [done|]. etrans; [|exact Hp].
  apply prefix_app. apply prefix_take.
Qed.

(** Nothing is held: a chunk sent leaves nothing held. *)
Lemma send_holds c l g :
  received g = l ++ [c] -> terminal_buffer g = [] -> cost_carrier g = None -> buffering_terminal g = false -> sent g = map fmt l ->
  (forall pre k suf, l ++ [c] = pre ++ k :: suf -> ~ tail_of k suf) ->
  wps (send args c) (delivers (l ++ [c])) g.
Proof.
  intros Hr Hb Hc Hbuf Hs Ht. pose proof (send_sends c g) as H. revert H. unfold wps. destruct (send args c g) as [r g']. intros H.
  assert (r = inr tt \/ r <> inr tt) as [->|Hne] by (destruct H as [_ [[-> _]|[-> _]]]; [by left|by right]).
  - left. destruct H as [E [[_ Hs']|[? _]]]; [|done]. split; [done|]. injection E as E1 E2 E3 E4.
    unfold Held. rewrite E1, E2, E3, E4, Hs', Hb, Hc, Hbuf, Hs, Hr. split_and!; try done.
    exists (l ++ [c]). by rewrite map_app, app_nil_r.
  - right. apply (sends_gone _ _ _ _ _ H Hne). by rewrite Hs, map_app.
Qed.

(** What is done with a chunk that was received and read. *)
Definition route c : G unit :=
  if match is_cost_carrier args with Some p => p c | None => false end then
    bind (send_buffered args) (fun _ => modify (holds [c] (Some c) true))
  else
    bind (fun g => (inr (buffering_terminal g, terminal_buffer g, cost_carrier g), g)) (fun '(buffering, buffer, carrier) =>
    if buffering : bool then
      if (_MAX_TERMINAL_BUFFER_CHUNKS <=? length buffer)%nat then
        bind (send_buffered args) (fun _ => bind (modify (holds [] None false)) (fun _ => send args c))
      else modify (holds (buffer ++ [c]) carrier true)
    else send args c).

Lemma buffer_sends c l g :
  sent g ++ map fmt (terminal_buffer g) = map fmt l ->
  forall (next : unit -> G unit),
  (forall g', sends (map fmt (terminal_buffer g)) g (inr tt) g' -> sent g' = map fmt l -> held_of g' = held_of g -> wps (next tt) (delivers (l ++ [c])) g') ->
  wps (bind (send_buffered args) next) (delivers (l ++ [c])) g.
Proof.
  intros Hs next Hn. apply (wps_sends_bind _ _ (map fmt (terminal_buffer g))); [apply send_all_sends|..].
  - intros g' H. pose proof H as [E [[_ Hs']|[? _]]]; [|done]. apply Hn; [done| |done]. by rewrite Hs'.
  - intros g' H. right. apply (sends_gone _ _ _ _ _ H); [done|]. rewrite Hs, map_app. by apply prefix_app_r.
Qed.

(** A chunk that does not carry the cost ends no tail that there was not before. *)
Lemma no_tail_snoc c l :
  carries c = false -> (forall pre k suf, l = pre ++ k :: suf -> ~ tail_of k suf) ->
  forall pre k suf, l ++ [c] = pre ++ k :: suf -> ~ tail_of k suf.
Proof.
  intros Hc Hl pre k suf E (Hk & Hsuf & Hn). destruct suf as [|x suf _] using rev_ind.
  - apply app_inj_tail in E as [_ <-]. congruence.
  - rewrite app_comm_cons, app_assoc in E. apply app_inj_tail in E as [E _]. apply (Hl pre k suf E).
    apply Forall_app in Hsuf as [Hsuf _]. rewrite length_app in Hn. split_and!; [done..|lia].
Qed.

(** A list has one last carrier. *)
Lemma carrier_not_after c pre pre' k suf suf' :
  carries c = true -> Forall (fun x => carries x = false) suf' -> pre ++ c :: suf = pre' ++ k :: suf' ->
  exists m, pre' = pre ++ m /\ c :: suf = m ++ k :: suf'.
Proof.
  intros Hc Hsuf E. apply app_eq_app in E as (m & [[E1 E2]|E]); [|by exists m].
  destruct m as [|x m]; [exists []; rewrite app_nil_r in E1; by rewrite E1, app_nil_r|]. injection E2 as _ E2. exfalso.
  rewrite E2, Forall_app, Forall_cons in Hsuf. destruct Hsuf as (_ & H & _). congruence.
Qed.

Lemma last_carrier_unique c k pre pre' suf suf' :
  carries c = true -> Forall (fun x => carries x = false) suf -> carries k = true -> Forall (fun x => carries x = false) suf' ->
  pre ++ c :: suf = pre' ++ k :: suf' -> c = k /\ suf = suf'.
Proof.
  intros Hc Hsuf Hk Hsuf' E. destruct (carrier_not_after _ _ _ _ _ _ Hc Hsuf' E) as (m & -> & E1).
  symmetry in E. destruct (carrier_not_after _ _ _ _ _ _ Hk Hsuf E) as (m' & Em & _).
  destruct m as [|x m]; [by injection E1|]. rewrite <- app_assoc in Em. apply (f_equal length) in Em.
  rewrite !length_app in Em. cbn in Em. lia.
Qed.

(** A full tail and a chunk more is none. *)
Lemma no_tail_full c pre k suf :
  carries c = false -> carries k = true -> Forall (fun x => carries x = false) suf -> (_MAX_TERMINAL_BUFFER_CHUNKS <= length (k :: suf))%nat ->
  forall pre' k' suf', (pre ++ k :: suf) ++ [c] = pre' ++ k' :: suf' -> ~ tail_of k' suf'.
Proof.
  intros Hc Hk Hsuf Hn pre' k' suf' E (Hk' & Hsuf' & Hn'). rewrite <- app_assoc in E.
  apply last_carrier_unique in E as [_ <-]; try done.
  - rewrite length_app in Hn'. cbn [length] in *. lia.
  - apply Forall_app. split; [done|by repeat constructor].
Qed.

Lemma route_holds c l g : Held l g -> wps (route c) (delivers (l ++ [c])) (receives c g).
Proof.
  intros H. pose proof (held_sent l g H) as Hs. destruct H as (Hr & (pre & Hl & Hpre) & Ht). set (g1 := receives c g).
  assert (Hr1 : received g1 = l ++ [c]) by (unfold g1; cbn; by rewrite Hr).
  change (sent g1 ++ map fmt (terminal_buffer g1) = map fmt l) in Hs.
  change (l = pre ++ terminal_buffer g1) in Hl. change (sent g1 = map fmt pre) in Hpre.
  unfold route. fold (carries c). destruct (carries c) eqn:Hc.
  - apply buffer_sends; [done|]. intros g2 _ Hs2 [= F1 F2 F3 F4]. left. split; [done|].
    unfold Held. cbn [snd holds received terminal_buffer buffering_terminal cost_carrier]. change (sent (holds _ _ _ g2)) with (sent g2).
    rewrite F4, Hs2. split_and!; [done|by exists l|]. exists c, []. repeat split; try done. apply Nat.ltb_lt. reflexivity.
  - apply wps_bind. unfold wps at 1. change (buffering_terminal g) with (buffering_terminal g1) in Ht.
    change (terminal_buffer g) with (terminal_buffer g1) in Ht. change (cost_carrier g) with (cost_carrier g1) in Ht.
    destruct (buffering_terminal g1) eqn:Hbuf.
    2: { destruct Ht as (Hb & Hk & Ht). apply send_holds; try done; [|by apply no_tail_snoc]. by rewrite <- Hs, Hb, app_nil_r. }
    destruct Ht as (k & suf & Hb & Hk & Hck & Hsuf & Hlen). destruct (_ <=? _)%nat eqn:Hfull.
    + apply Nat.leb_le in Hfull. rewrite Hb in Hl, Hfull.
      apply buffer_sends; [done|]. intros g2 _ Hs2 [= F1 F2 F3 F4]. apply wps_bind. unfold wps at 1, modify.
      apply send_holds; try done; [cbn [holds received]; by rewrite F4|]. rewrite Hl. by apply no_tail_full.
    + left. split; [done|]. unfold Held. cbn [snd holds received terminal_buffer buffering_terminal cost_carrier].
      change (sent (holds _ _ _ g1)) with (sent g1). apply Nat.leb_gt in Hfull. rewrite Hb in Hfull |- *. rewrite Hb in Hl. split_and!; [done| |].
      * exists pre. by rewrite Hl, <- app_assoc.
      * exists k, (suf ++ [c]). split; [done|]. split; [done|]. split; [done|].
        split; [apply Forall_app; split; [done|by repeat constructor]|]. rewrite length_app. cbn [length] in *. lia.
Qed.

Lemma on_chunk_holds c l g : Held l g -> wps (on_chunk args c) (delivers (l ++ [c])) g.
Proof.
  intros H. unfold on_chunk. apply wps_bind. unfold wps at 1, modify at 1. apply wps_bind.
  destruct (reads c) as [u Hu]. unfold wps at 1, lift at 1. rewrite Hu. apply wps_bind.
  assert (forall u, Held l (match u with Some u => reports u g | None => g end)) as Hk by (by intros []).
  specialize (Hk u). destruct u as [u|]; exact (route_holds c l _ Hk).
Qed.

Lemma read_holds script l g :
  Held l g ->
  wps (read args script)
    (fun r g' => r = inl Gone /\ sent g' `prefix_of` map fmt (l ++ chunks_of script)
                 \/ r <> inl Gone /\ Held (l ++ chunks_of script) g' /\ (r <> inr tt -> ends script = false)) g.
Proof.
  revert l g. induction script as [|[c| |e| |] script IH]; intros l g Hg; cbn [read chunks_of ends]; rewrite ?app_nil_r;
    try (right; split; [done|]; split; [exact Hg|done]);
    try (left; split; [done|]; pose proof (held_sent_prefix l [] g Hg) as Hp; by rewrite app_nil_r in Hp).
  - apply wps_bind. pose proof (on_chunk_holds c l g Hg) as H. revert H. unfold wps at 1 2.
    destruct (on_chunk args c g) as [r g1]. intros [[-> Hg1]|[-> Hp]].
    + replace (l ++ c :: chunks_of script) with ((l ++ [c]) ++ chunks_of script) by by rewrite <- app_assoc. by apply IH.
    + left. split; [done|]. etrans; [exact Hp|]. rewrite !map_app. by apply prefix_app, prefix_cons, prefix_nil.
  - destruct (keepalive args); [|exact (IH l g Hg)].
    apply (wps_sends_bind _ _ []); [exact (yield_sends KeepAlive g)| |].
    + intros g' [E [[_ Hs]|[? _]]]; [|done]. apply IH. unfold Held in *. injection E as E1 E2 E3 E4. by rewrite E1, E2, E3, E4, Hs, app_nil_r.
    + intros g' [E [[? _]|[_ [n Hs]]]]; [done|]. left. split; [done|]. rewrite Hs, take_nil, app_nil_r. by apply held_sent_prefix.
Qed.

(** *** The end *)

Lemma keeps_settle : keeps (fun g => (sent g, held_of g)) (settle args).
Proof.
  assert (forall a g, frames_of [a] = [] -> sent (acts a g) = sent g) as Ha by (intros a g E; by rewrite sent_acts, E, app_nil_r).
  assert (forall n, keeps (fun g => (sent g, held_of g)) (wait_alive (X := X) n)) as Hw.
  { induction n as [|n IH]; [apply keeps_ret|]. apply keeps_bind; [|by intros []]. intros g. unfold yield. cbv zeta.
    destruct (patience _) as [[|k]|]; cbn [snd]; apply (f_equal2 pair); first [exact (Ha KeepAlive g eq_refl)|done]. }
  unfold settle. apply keeps_bind; [by apply keeps_modify|]. intros _. apply keeps_bind; [apply keeps_look|]. intros [b u].
  apply keeps_if; (apply keeps_bind; [|intros ?; try apply keeps_ret]).
  - apply keeps_modify. intros g. apply (f_equal2 pair); [by apply Ha|done].
  - apply keeps_bind; [destruct (keepalive args); [apply Hw|apply keeps_ret]|]. intros ?. apply keeps_ret.
  - destruct (on_no_usage args); [|apply keeps_ret]. apply keeps_modify. intros g. apply (f_equal2 pair); [by apply Ha|done].
Qed.

(** What the settlement of a stream returned, where it settled with usage. *)
Definition settlement_of l : option S :=
  if reports_some args l then match on_complete args (merged args l) with inr s => s | inl _ => None end else None.

Lemma settle_returns l g :
  told_of g = told_after args l (start None) ->
  match settle args g with (inr s, _) => s = settlement_of l | (inl (Raises _), _) => False | _ => True end.
Proof.
  intros [= Hr Hu Hh]. unfold settle, bind, modify. cbn [has_usage usage settles start orb] in *. unfold settlement_of, merged. rewrite Hh, Hu. cbn [fst snd].
  destruct (reports_some args l).
  - unfold call, modify. destruct (keepalive args); [|done]. pose proof (wait_gone (C := C) (X := X)) as Hw.
    match goal with |- context [wait_alive ?n ?g] => specialize (Hw n g); destruct (wait_alive n g) as [[[e|]|[]] g'] end; done.
  - by destruct (on_no_usage args).
Qed.

(** The cost goes on the last carrier, where at most three chunks follow it and the upstream then ended, complete. *)
Definition costed script (l' : list C) : Prop :=
  exists pre c suf s f c',
    chunks_of script = pre ++ c :: suf /\ tail_of c suf /\ ends script = true /\ completed args (chunks_of script) = true
    /\ settlement_of (chunks_of script) = Some s /\ attach_settlement args = Some f /\ f s c = inr c' /\ l' = pre ++ c' :: suf.

(** Sends the chunks, with the cost on one of them where it can be; or some of the first, to a client that left. *)
Definition delivered script (r : @stop X + unit) g : Prop :=
  match r with
  | inr _ => exists l', sent g = map fmt l' /\ (costed script l' \/ l' = chunks_of script /\ forall l'', ~ costed script l'')
  | inl _ => exists l', sent g `prefix_of` map fmt l' /\ (costed script l' \/ l' = chunks_of script)
  end.

(** What is held is sent before the end of a run. *)
Lemma flush_sends {A} (next : unit -> G A) l g (Q : @stop X + A -> generator -> Prop) :
  sent g ++ map fmt (terminal_buffer g) = map fmt l ->
  (forall g', sent g' = map fmt l -> wps (next tt) Q g') ->
  (forall g', sent g' `prefix_of` map fmt l -> Q (inl Gone) g') -> wps (bind (send_buffered args) next) Q g.
Proof.
  intros Hs Hn Hg. apply (wps_sends_bind _ _ (map fmt (terminal_buffer g))); [apply send_all_sends|..].
  - intros g' [E [[_ Hs']|[? _]]]; [|done]. apply Hn. by rewrite Hs'.
  - intros g' H. apply Hg. apply (sends_gone _ l _ _ _ H); [done|]. by rewrite Hs.
Qed.

Lemma mark_sends a l g (Q : @stop X + unit -> generator -> Prop) :
  frames_of [a] = [] -> sent g = map fmt l ->
  (forall g', sent g' = map fmt l -> Q (inr tt) g' /\ Q (inl Gone) g') -> wps (yield a) Q g.
Proof.
  intros Ha Hs HQ. pose proof (yield_sends a g) as H. revert H. unfold wps. rewrite Ha. destruct (yield a g) as [r g'].
  intros [_ [[-> E]|[-> [n E]]]]; rewrite ?take_nil, app_nil_r in E; apply HQ; by rewrite E.
Qed.

Lemma on_exception_delivers e l g :
  sent g ++ map fmt (terminal_buffer g) = map fmt l ->
  wps (on_exception args e)
    (fun r g' => match r with inr _ => sent g' = map fmt l | inl _ => sent g' `prefix_of` map fmt l end) g.
Proof.
  intros Hs. apply (flush_sends _ l); [done| |done]. intros g1 H1. apply wps_bind. unfold wps at 1, modify at 1. apply wps_bind.
  apply (mark_sends _ l); [done..|]. intros g2 H2. split; [|by rewrite H2]. apply wps_bind.
  assert (forall g, sent g = map fmt l -> sent (acts (Calls (Error e)) (settles g)) = map fmt l) as Hend
    by (intros g3 H3; by rewrite sent_acts, app_nil_r).
  destruct (yield_done_on_error args); [|by apply Hend].
  apply (mark_sends _ l); [done..|]. intros g3 H3. split; [by apply Hend|by rewrite H3].
Qed.

Lemma attach_delivers script g g' settlement :
  Held (chunks_of script) g -> ends script = true -> completed args (chunks_of script) = true ->
  settlement = settlement_of (chunks_of script) -> attach args settlement g = (inr tt, g') ->
  exists l', sent g' ++ map fmt (terminal_buffer g') = map fmt l'
             /\ (costed script l' \/ l' = chunks_of script /\ forall l'', ~ costed script l'').
Proof.
  intros H He Hc Hs Ha. pose proof (held_sent _ _ H) as Hsent. destruct H as (_ & (pre & Hl & Hpre) & Ht).
  set (nothing := exists l', sent g ++ map fmt (terminal_buffer g) = map fmt l'
                    /\ (costed script l' \/ l' = chunks_of script /\ forall l'', ~ costed script l'')).
  assert ((forall l'', ~ costed script l'') -> nothing) as Hnone by (intros Hno; exists (chunks_of script); by split; [|right]).
  destruct (buffering_terminal g).
  - destruct Ht as (c & suf & Hb & Hk & Ht).
    assert (forall l'', costed script l'' -> exists s f c', settlement = Some s /\ attach_settlement args = Some f /\ f s c = inr c') as Hu.
    { intros l'' (pre' & k & suf' & s & f & c' & Hl' & Ht' & _ & _ & Hs' & Hf & Hc' & _). exists s, f, c'.
      rewrite Hl, Hb in Hl'. rewrite Hs, Hs'. destruct Ht as (? & ? & _), Ht' as (? & ? & _).
      by destruct (last_carrier_unique c k pre pre' suf suf') as [-> _]. }
    unfold attach in Ha. rewrite Hk, Hb in Ha.
    destruct settlement as [s|]; [|injection Ha as <-; apply Hnone; intros l'' Hl''; destruct (Hu l'' Hl'') as (? & ? & ? & ? & _); done].
    destruct (attach_settlement args) as [f|] eqn:Ef;
      [|injection Ha as <-; apply Hnone; intros l'' Hl''; destruct (Hu l'' Hl'') as (? & ? & ? & _ & ? & _); done].
    destruct (f s c) as [x|c'] eqn:Ec; injection Ha as <-.
    + apply Hnone. intros l'' Hl''. destruct (Hu l'' Hl'') as (s' & f' & c' & [= <-] & [= <-] & ?). congruence.
    + exists (pre ++ c' :: suf). cbn [holds terminal_buffer]. change (sent (holds _ _ _ g)) with (sent g).
      rewrite Hpre, map_app. split; [done|]. left. exists pre, c, suf, s, f, c'. rewrite Hb in Hl. by rewrite <- Hs.
  - destruct Ht as (Hb & Hk & Ht). assert (g' = g) as ->.
    { unfold attach in Ha. rewrite Hk in Ha. destruct settlement, (attach_settlement args); by injection Ha. }
    apply Hnone. intros l'' (pre' & k & suf' & s & f & c' & Hl' & Ht' & _). by apply (Ht pre' k suf').
Qed.

Lemma failure_delivers script e g :
  Held (chunks_of script) g -> (forall l', ~ costed script l') ->
  let '(r, g') := on_exception args e g in delivered script r g'.
Proof.
  intros Hg Hno. pose proof (on_exception_delivers e _ g (held_sent _ _ Hg)) as H. revert H. unfold wps.
  destruct (on_exception args e g) as [[s|[]] g']; intros H; exists (chunks_of script); split; auto.
Qed.

Lemma closing_delivers script l' g :
  sent g ++ map fmt (terminal_buffer g) = map fmt l' ->
  (costed script l' \/ l' = chunks_of script /\ forall l'', ~ costed script l'') ->
  wps (bind (send_buffered args) (fun _ => bind (modify (fun g => holds [] (cost_carrier g) (buffering_terminal g) g)) (fun _ => yield DoneMarker)))
    (fun r g' => delivered script r g' /\ forall e, r <> inl (Raises e)) g.
Proof.
  intros Hl' Hcost. assert (forall g', sent g' `prefix_of` map fmt l' -> delivered script (inl Gone) g') as Hgone.
  { intros g' Hg'. exists l'. split; [done|]. destruct Hcost as [?|[? _]]; auto. }
  apply (flush_sends _ l'); [done| |by auto]. intros g4 H4. apply wps_bind. unfold wps at 1, modify.
  apply (mark_sends _ l'); [done..|]. intros g5 H5. split; split; [by exists l'|done|by apply Hgone; rewrite H5|done].
Qed.

(** C5: a stream whose chunks can all be written and read loses none, repeats none and reorders none: a client that stays
    gets each of them in the order the upstream sent it, whether the upstream ends, fails or ends incomplete, and the
    cost on the last carrier where the stream settled with one and at most three chunks follow; a client that leaves
    got some of the first of these. *)
Theorem stream_delivers script frames :
  let '(r, g) := streaming_generator args script frames in delivered script r g.
Proof.
  unfold streaming_generator.
  assert (wps (guarded args script) (delivered script) (start frames)) as H.
  2: { revert H. unfold wps. destruct (guarded args script (start frames)) as [r g]. unfold delivered, finally_settle.
       destruct (negb (settled g) && on_incomplete args); rewrite ?sent_acts, ?app_nil_r; done. }
  assert (Held [] (start frames)) as H0 by (repeat split; [by exists []|by intros [] ? ?]).
  pose proof (read_holds script [] (start frames) H0) as Hread. pose proof (read_told args script (start frames)) as Htold.
  unfold wps, guarded, bind at 1. revert Hread Htold. unfold wps at 1.
  destruct (read args script (start frames)) as [[[e|]|[]] g1]; intros [[Hr Hp]|[Hr [HH Hends]]] Htold; try done.
  - apply failure_delivers; [done|]. intros l' (? & ? & ? & ? & ? & ? & _ & _ & He & _).
    by rewrite Hends in He.
  - exists (chunks_of script). auto.
  - destruct Htold as [He Htold]. unfold finish, bind at 1. assert (received g1 = chunks_of script) as -> by by injection Htold.
    destruct (completed args (chunks_of script)) eqn:Hc.
    2: { apply failure_delivers; [done|]. intros l' (? & ? & ? & ? & ? & ? & _ & _ & _ & Hc' & _).
         by rewrite Hc in Hc'. }
    unfold bind at 1, ret at 1. unfold bind at 1.
    pose proof (keeps_settle g1) as Hk. pose proof (settle_returns (chunks_of script) g1 Htold) as Hs.
    destruct (settle args g1) as [[[e|]|settlement] g2]; cbn [snd] in Hk; injection Hk as Ek E1 E2 E3 E4; [done|..].
    { exists (chunks_of script). split; [|by right]. rewrite Ek. pose proof (held_sent_prefix _ [] _ HH) as H. by rewrite app_nil_r in H. }
    assert (Held (chunks_of script) g2) as H2 by (unfold Held in *; by rewrite E1, E2, E3, E4, Ek).
    destruct (attach_returns args settlement g2) as (g3 & Ha). unfold bind at 1. rewrite Ha.
    destruct (attach_delivers script g2 g3 settlement H2 He Hc Hs Ha) as (l' & Hl' & Hcost).
    pose proof (closing_delivers script l' g3 Hl' Hcost) as H.
    revert H. unfold wps. destruct (bind _ _ g3) as [[[e|]|[]] g4]; intros [H Hne]; [|done..]. by destruct (Hne e).
Qed.
End Delivery.

(** ** A chat stream *)

Definition chat : @arguments (string * option StreamUsage) string string := {|
  format_chunk := fun c => inr ("data: " ++ c.1)%string;
  extract_usage := fun c => inr c.2;
  on_complete := fun _ => inr (Some " cost"%string);
  settling := 1;
  on_no_usage := true;
  on_incomplete := true;
  is_cost_carrier := Some (fun c => match c.2 with Some _ => true | None => false end);
  attach_settlement := Some (fun s c => inr (c.1 ++ s, c.2)%string);
  completes_stream := None;
  keepalive := true;
  yield_done_on_error := true;
  IncompleteStreamError := fun _ => "incomplete"%string
|}.

Definition chat_script : list (@upstream (string * option StreamUsage) string) :=
  [Chunk ("hel"%string, None); Idle; Chunk ("lo"%string, None); Chunk ("usage"%string, Some (mkUsage 5 2 7 0 0 0 true 0 0)); Ends].

Lemma streams_settle_once_witness :
  settlements (streaming_generator chat chat_script None).2.(actions) = [Calls (Complete (mkUsage 5 2 7 0 0 0 true 0 0))]
  /\ exists before (settlement : @callback string),
    let '(r, g) := streaming_generator chat chat_script (Some 1%nat) in
    actions g = before ++ [UpstreamClosed] /\ settlements (actions g) = [Calls settlement]
    /\ match settlement with Incomplete => r <> inr tt | _ => verdict chat chat_script g settlement end.
Proof. split; [reflexivity|]. by apply (streams_settle_once chat chat_script (Some 1%nat)). Defined.

Lemma stream_delivers_witness :
  sent (streaming_generator chat chat_script None).2 = ["data: hel"; "data: lo"; "data: usage cost"]%string
  /\ let '(r, g) := streaming_generator chat chat_script None in
     delivered chat (fun c => "data: " ++ c.1)%string chat_script r g.
Proof.
  split; [reflexivity|]. apply (stream_delivers chat (fun c => "data: " ++ c.1)%string); [done|]. intros c. by exists c.2.
Defined.

(** A held chunk that cannot be written: what was held before it is sent twice, the exception leaves the generator, and
    the client is sent neither an error event nor the end of the stream. *)
Definition unwritable_chat : @arguments (string * option StreamUsage) string string := {|
  format_chunk := fun c => if bool_decide (c.1 = "bad"%string) then inl "cannot be written"%string else inr ("data: " ++ c.1)%string;
  extract_usage := fun c => inr c.2;
  on_complete := fun _ => inr (Some " cost"%string);
  settling := 0;
  on_no_usage := true;
  on_incomplete := true;
  is_cost_carrier := Some (fun c => match c.2 with Some _ => true | None => false end);
  attach_settlement := Some (fun s c => inr (c.1 ++ s, c.2)%string);
  completes_stream := None;
  keepalive := false;
  yield_done_on_error := true;
  IncompleteStreamError := fun _ => "incomplete"%string
|}.

Theorem unwritable_chunk_repeats :
  let '(r, g) := streaming_generator unwritable_chat
                   [Chunk ("usage"%string, Some (mkUsage 5 2 7 0 0 0 true 0 0)); Chunk ("bad"%string, None); Ends] None in
  r = inl (Raises "cannot be written"%string) /\ sent g = ["data: usage cost"; "data: usage cost"]%string
  /\ existsb (fun x => match x with DoneMarker | ErrorEvent _ => true | _ => false end) (actions g) = false.
Proof. by vm_compute. Qed.
