(* ===== verification/ToolTally.v ===== *)
(** One request's count of the tool calls the gateway ran, [ToolUsageTally] of [services/tool_usage.py]: what it keeps
    of each call, what settlement reads of it, and that it loses no billed call and stays small whatever names the
    calls carry. *)
From Stdlib Require Import ZArith QArith Lia Ascii String.
From stdpp Require Import base strings list sorting sets.
From S2P Require Import Prelude Text MeteredPricing ToolPricing.

Local Open Scope string_scope.
Local Open Scope Z_scope.

(** ** What it keeps *)

Definition TOOL_ERROR_SENTINEL : string := "[tool error]".
Definition MAX_TOOL_NAMES : nat := 32.
Definition MAX_TOOL_NAME_CHARS : nat := 64.
Definition OVERFLOW_TOOL_NAME : string := "_other".
(** In USD. *)
Definition MAX_USD_COST : Q := 999999999999999999 # 1000000.

Definition is_tool_error (result : string) : bool := starts_with TOOL_ERROR_SENTINEL result.

Definition _usable_cost (value : option raw) : option Q :=
  match v ← value; to_decimal v with
  | Some c => if Qle_bool c MAX_USD_COST then Some c else None
  | None => None
  end.

Record _LabelTotals := mkTotals { label_calls_made : Z; label_unreported : Z; label_cost : Q }.
Definition no_totals : _LabelTotals := mkTotals 0 0 0.

Record counts := mkCounts { billed : Z; errors : Z }.
Definition no_counts : counts := mkCounts 0 0.

(** A tool's key, a call's label, its rate keys, and whose account ran it. *)
Definition label_key : Type := string * option string * option (list RateKey) * option bool.

Record ToolUsageTally := mkTally {
  _counts : list (string * counts);
  _labels : list (label_key * _LabelTotals);
  _overflowed : bool
}.
Definition empty_tally : ToolUsageTally := mkTally [] [] false.

(** ** Recording a call *)

Definition or_else (s other : string) : string := if bool_decide (s = "") then other else s.

Fixpoint without_nul (s : string) : string :=
  match s with
  | EmptyString => EmptyString
  | String c s => if bool_decide (c = zero) then without_nul s else String c (without_nul s)
  end.

(** The name a call is counted under, and whether it fell past the names kept. *)
Definition _key (t : ToolUsageTally) (tool : string) : string * bool :=
  let name := substring 0 MAX_TOOL_NAME_CHARS (or_else (without_nul tool) OVERFLOW_TOOL_NAME) in
  if bool_decide (name ∈ (_counts t).*1) then (name, false)
  else if (MAX_TOOL_NAMES <=? length (_counts t))%nat then (OVERFLOW_TOOL_NAME, true)
  else (name, false).

Definition count_call (billed_calls failed_calls : Z) (c : option counts) : counts :=
  let c := default no_counts c in mkCounts (billed c + billed_calls) (errors c + failed_calls).

Definition counted (tool : string) (billed_calls failed_calls : Z) (t : ToolUsageTally) : string * ToolUsageTally :=
  let '(key, over) := _key t tool in
  (key, mkTally (upsert key (count_call billed_calls failed_calls) (_counts t)) (_labels t) (_overflowed t || over)).

Definition _record (tool : string) (failed : bool) (t : ToolUsageTally) : string * ToolUsageTally :=
  if failed then counted tool 0 1 t else counted tool 1 0 t.

Definition labelled (k : label_key) (calls unreported : Z) (cost : Q) (t : ToolUsageTally) : ToolUsageTally :=
  mkTally (_counts t)
    (upsert k (fun l => let l := default no_totals l in
       mkTotals (label_calls_made l + calls) (label_unreported l + unreported) (label_cost l + cost)) (_labels t))
    (_overflowed t).

Definition record_success (tool : string) (label : option string) (rate_keys : option (list RateKey)) (cost : option raw)
    (deployment_paid : option bool) (t : ToolUsageTally) : ToolUsageTally :=
  let '(key, t) := _record tool false t in
  match _usable_cost cost with
  | None => labelled (key, label, rate_keys, deployment_paid) 1 1 0 t
  | Some reported => labelled (key, label, rate_keys, deployment_paid) 1 0 reported t
  end.

Definition record_failure (tool : string) (t : ToolUsageTally) : ToolUsageTally := (_record tool true t).2.

Definition record_result (tool text : string) (label : option string) (rate_keys : option (list RateKey)) (cost : option raw)
    (deployment_paid : option bool) (t : ToolUsageTally) : ToolUsageTally :=
  if is_tool_error text then record_failure tool t
  else record_success tool label rate_keys cost deployment_paid t.

Definition record_provider_searches (provider : string) (searches : Z) (deployment_paid : bool) (t : ToolUsageTally)
    : ToolUsageTally :=
  if searches <=? 0 then t
  else
    let '(key, t) := counted PROVIDER_WEB_SEARCH_TOOL searches 0 t in
    let label := provider_web_search_label provider in
    labelled (key, Some label, Some [ModelKey label], Some deployment_paid) searches searches 0 t.

(** ** What settlement reads *)

Definition is_empty (t : ToolUsageTally) : bool := match _counts t with [] => true | _ => false end.

Definition label_calls (t : ToolUsageTally) : list LabelCalls :=
  (fun '(tool, label, rate_keys, paid, l) =>
     mkCalls tool label rate_keys (label_calls_made l) (label_unreported l) (label_cost l) paid) <$> _labels t.

Definition by_name (a b : string * counts) : Prop := String.leb a.1 b.1 = true.
#[export] Instance by_name_dec : RelDecision by_name.
Proof. intros a b. unfold by_name. apply _. Defined.

Definition meters (t : ToolUsageTally) : list (string * counts) := merge_sort by_name (_counts t).

(** ** What was recorded *)

Inductive event : Type :=
| Returned (tool text : string) (label : option string) (rate_keys : option (list RateKey)) (cost : option raw) (paid : option bool)
| Read (tool : string) (label : option string) (rate_keys : option (list RateKey)) (cost : option raw) (paid : option bool)
| Raised (tool : string)
| Searched (provider : string) (searches : Z) (paid : bool).

Definition record (t : ToolUsageTally) (e : event) : ToolUsageTally :=
  match e with
  | Returned tool text label keys cost paid => record_result tool text label keys cost paid t
  | Read tool label keys cost paid => record_success tool label keys cost paid t
  | Raised tool => record_failure tool t
  | Searched provider n paid => record_provider_searches provider n paid t
  end.
Definition recorded (l : list event) : ToolUsageTally := fold_left record l empty_tally.

(** The calls an event bills, those it bills with no cost reported, and the cost it reports. *)
Definition bills (e : event) : Z :=
  match e with
  | Returned _ text _ _ _ _ => if is_tool_error text then 0 else 1
  | Read _ _ _ _ _ => 1
  | Raised _ => 0
  | Searched _ n _ => Z.max n 0
  end.
Definition reports (e : event) : Q :=
  match e with
  | Returned _ text _ _ cost _ => if is_tool_error text then 0 else default 0%Q (_usable_cost cost)
  | Read _ _ _ cost _ => default 0%Q (_usable_cost cost)
  | _ => 0
  end.
Definition fails (e : event) : Z :=
  match e with
  | Returned _ text _ _ _ _ => if is_tool_error text then 1 else 0
  | Raised _ => 1
  | _ => 0
  end.

Definition sum {A} (f : A -> Z) (l : list A) : Z := foldr (fun x n => f x + n) 0 l.
Definition sumQ {A} (f : A -> Q) (l : list A) : Q := foldr (fun x n => f x + n)%Q 0%Q l.

Definition of_tool (name : string) (e : LabelCalls) : Z := if bool_decide (tool e = name) then calls e else 0.

(** *** Sums over an updated association *)

Lemma sum_ext {A} (f g : A -> Z) l : (forall x, f x = g x) -> sum f l = sum g l.
Proof. intros H. unfold sum. induction l as [|x l IH]; cbn; [done|]. by rewrite H, IH. Qed.

Lemma sum_upsert {K V} `{EqDecision K} (f : K * V -> Z) (k : K) (g : option V -> V) n (l : list (K * V)) :
  (forall v, f (k, g (Some v)) = f (k, v) + n) -> f (k, g None) = n -> sum f (upsert k g l) = sum f l + n.
Proof.
  intros Hs Hn. unfold sum. induction l as [|[k' v] l IH]; cbn; [lia|]. destruct (decide (k' = k)) as [->|]; cbn; [rewrite Hs; lia|].
  rewrite IH. lia.
Qed.

Lemma upsert_fst {K V} `{EqDecision K} (k : K) (g : option V -> V) (l : list (K * V)) :
  (upsert k g l).*1 = if bool_decide (k ∈ l.*1) then l.*1 else (l.*1 ++ [k])%list.
Proof.
  induction l as [|[k' v] l IH]; cbn; [done|]. destruct (decide (k' = k)) as [->|Hne]; cbn.
  - by rewrite bool_decide_eq_true_2 by (apply list_elem_of_here).
  - rewrite IH. case_bool_decide as H1; case_bool_decide as H2; [done|..|done].
    + by destruct H2; apply list_elem_of_further.
    + by apply elem_of_cons in H2 as [->|].
Qed.

(** *** The state of a tally *)

Definition billed_under (name : string) (t : ToolUsageTally) : Z :=
  sum (fun c => if bool_decide (c.1 = name) then billed c.2 else 0) (_counts t).
Definition labelled_under (name : string) (t : ToolUsageTally) : Z :=
  sum (fun l => if bool_decide (l.1.1.1.1 = name) then label_calls_made l.2 else 0) (_labels t).

Record well_kept (t : ToolUsageTally) : Prop := {
  kept_once : NoDup (_counts t).*1;
  kept_few : (length (_counts t) <= MAX_TOOL_NAMES + (if bool_decide (OVERFLOW_TOOL_NAME ∈ (_counts t).*1) then 1 else 0))%nat;
  kept_short : Forall (fun n => String.length n <= MAX_TOOL_NAME_CHARS)%nat (_counts t).*1;
  kept_agree name : billed_under name t = labelled_under name t;
  kept_unreported : Forall (fun l => 0 <= label_unreported l.2 <= label_calls_made l.2) (_labels t)
}.

Lemma length_substring n m s : (String.length (substring n m s) <= m)%nat.
Proof.
  revert n m. induction s as [|a s IH]; intros [|n] [|m]; cbn; try lia; try apply IH.
  apply le_n_S, IH.
Qed.

Lemma key_cases t tool :
  let '(k, over) := _key t tool in
  (String.length k <= MAX_TOOL_NAME_CHARS)%nat
  /\ (k ∈ (_counts t).*1 \/ k = OVERFLOW_TOOL_NAME \/ (length (_counts t) < MAX_TOOL_NAMES)%nat).
Proof.
  unfold _key. cbv zeta. case_bool_decide; [|destruct (_ <=? _)%nat eqn:E].
  - split; [apply length_substring|by left].
  - split; [apply Nat.leb_le; reflexivity|by right; left].
  - split; [apply length_substring|]. right. right. by apply Nat.leb_gt.
Qed.

(** A count changes nothing but its tool's row, which it adds where there is none. *)
Lemma counted_kept tool b f t :
  0 <= b ->
  NoDup (_counts t).*1 ->
  (length (_counts t) <= MAX_TOOL_NAMES + (if bool_decide (OVERFLOW_TOOL_NAME ∈ (_counts t).*1) then 1 else 0))%nat ->
  Forall (fun n => String.length n <= MAX_TOOL_NAME_CHARS)%nat (_counts t).*1 ->
  let '(k, t') := counted tool b f t in
  NoDup (_counts t').*1
  /\ (length (_counts t') <= MAX_TOOL_NAMES + (if bool_decide (OVERFLOW_TOOL_NAME ∈ (_counts t').*1) then 1 else 0))%nat
  /\ Forall (fun n => String.length n <= MAX_TOOL_NAME_CHARS)%nat (_counts t').*1
  /\ _labels t' = _labels t
  /\ (forall name, billed_under name t' = billed_under name t + (if bool_decide (k = name) then b else 0))
  /\ sum (fun c => errors c.2) (_counts t') = sum (fun c => errors c.2) (_counts t) + f.
Proof.
  intros Hb Hnd Hfew Hshort. unfold counted. pose proof (key_cases t tool) as Hk. destruct (_key t tool) as [k over]. destruct Hk as [Hlen Hk].
  cbn [_counts _labels].
  assert ((upsert k (count_call b f) (_counts t)).*1 = (_counts t).*1 /\ k ∈ (_counts t).*1
          \/ (upsert k (count_call b f) (_counts t)).*1 = ((_counts t).*1 ++ [k])%list /\ k ∉ (_counts t).*1) as Hnames.
  { rewrite upsert_fst. destruct (decide (k ∈ (_counts t).*1)); [left|right].
    - by rewrite bool_decide_eq_true_2.
    - by rewrite bool_decide_eq_false_2. }
  split_and!.
  5: { intros name. unfold billed_under. cbn [_counts]. apply (sum_upsert (fun c => if bool_decide (c.1 = name) then billed c.2 else 0)).
       - cbn [fst snd]. destruct (bool_decide (k = name)); [done|lia].
       - cbn [fst snd]. by destruct (bool_decide (k = name)). }
  5: { apply (sum_upsert (fun c => errors c.2)); intros; cbn; lia. }
  4: done.
  - destruct Hnames as [[-> _]|[-> Hn]]; [done|]. apply NoDup_app. split_and!; [done|set_solver|apply NoDup_singleton].
  - rewrite <- (length_fmap fst). rewrite <- (length_fmap fst) in Hfew, Hk. destruct Hnames as [[-> _]|[-> Hn]]; [done|].
    rewrite length_app. cbn [length]. destruct Hk as [Hk|[->|Hk]]; [done|..].
    + rewrite bool_decide_eq_false_2 in Hfew by done. rewrite bool_decide_eq_true_2 by set_solver. lia.
    + destruct (bool_decide _); lia.
  - destruct Hnames as [[-> _]|[-> Hn]]; [done|]. apply Forall_app. split; [done|by apply Forall_singleton].
Qed.

Lemma Forall_upsert {K V} `{EqDecision K} (P : K * V -> Prop) (k : K) (g : option V -> V) (l : list (K * V)) :
  Forall P l -> (forall v, P (k, v) -> P (k, g (Some v))) -> P (k, g None) -> Forall P (upsert k g l).
Proof.
  intros Hl Hs Hn. induction Hl as [|[k' v] l Hx Hl IH]; cbn; [by apply Forall_singleton|].
  destruct (decide (k' = k)) as [->|]; apply Forall_cons; auto.
Qed.

(** A call under a name, counted as billed and labelled as many times. *)
Lemma labelled_kept tool label keys paid (n u : Z) (c : Q) t :
  0 <= u <= n ->
  let '(k, t1) := counted tool n 0 t in
  let t' := labelled (k, label, keys, paid) n u c t1 in
  well_kept t ->
  well_kept t'
  /\ sum (fun l => label_calls_made l.2) (_labels t') = sum (fun l => label_calls_made l.2) (_labels t) + n
  /\ sum (fun c => errors c.2) (_counts t') = sum (fun c => errors c.2) (_counts t).
Proof.
  intros Hu. pose proof (counted_kept tool n 0 t) as Hc. destruct (counted tool n 0 t) as [k t1]. intros t' [H1 H2 H3 H4 H5].
  destruct (Hc ltac:(lia) H1 H2 H3) as (A1 & A2 & A3 & A4 & A5 & A6). subst t'. split_and!.
  - split; [done..| |].
    + intros name. change (billed_under name (labelled _ n u c t1)) with (billed_under name t1). rewrite A5, H4.
      unfold labelled_under, labelled. cbn [_labels]. rewrite A4.
      symmetry. apply (sum_upsert (fun l => if bool_decide (l.1.1.1.1 = name) then label_calls_made l.2 else 0)); cbn [fst snd].
      * intros v. destruct (bool_decide (k = name)); [done|lia].
      * by destruct (bool_decide (k = name)).
    + unfold labelled. cbn [_labels]. rewrite A4. apply Forall_upsert; [done|cbn; lia|cbn; lia].
  - unfold labelled. cbn [_labels]. rewrite A4. by apply (sum_upsert (fun l => label_calls_made l.2)).
  - unfold labelled. cbn [_counts]. rewrite A6. lia.
Qed.

(** A call that failed. *)
Lemma failure_kept tool t :
  well_kept t ->
  let t' := record_failure tool t in
  well_kept t' /\ _labels t' = _labels t /\ sum (fun c => errors c.2) (_counts t') = sum (fun c => errors c.2) (_counts t) + 1.
Proof.
  intros [H1 H2 H3 H4 H5]. unfold record_failure, _record. pose proof (counted_kept tool 0 1 t ltac:(lia) H1 H2 H3) as Hc.
  destruct (counted tool 0 1 t) as [k t1]. destruct Hc as (A1 & A2 & A3 & A4 & A5 & A6). cbn [snd]. split_and!; [|done..].
  split; [done..| |by rewrite A4]. intros name. rewrite A5, H4. unfold labelled_under. rewrite A4. destruct (bool_decide (k = name)); lia.
Qed.

Definition calls_kept (t : ToolUsageTally) (n f : Z) : Prop :=
  well_kept t /\ sum (fun l => label_calls_made l.2) (_labels t) = n /\ sum (fun c => errors c.2) (_counts t) = f.

Lemma success_kept tool label keys cost paid t n f :
  calls_kept t n f -> calls_kept (record_success tool label keys cost paid t) (n + 1) f.
Proof.
  intros (Ht & Hn & Hf). unfold record_success, _record. destruct (_usable_cost cost) as [c|].
  - pose proof (labelled_kept tool label keys paid 1 0 c t ltac:(lia)) as H. destruct (counted tool 1 0 t) as [k t1].
    destruct (H Ht) as (? & ? & ?). split_and!; [done|lia|lia].
  - pose proof (labelled_kept tool label keys paid 1 1 0 t ltac:(lia)) as H. destruct (counted tool 1 0 t) as [k t1].
    destruct (H Ht) as (? & ? & ?). split_and!; [done|lia|lia].
Qed.

Lemma record_kept e t n f : calls_kept t n f -> calls_kept (record t e) (n + bills e) (f + fails e).
Proof.
  intros Ht. assert (forall tool, calls_kept (record_failure tool t) n (f + 1)) as Hfail.
  { intros tool. destruct Ht as (Ht & Hn & Hf). destruct (failure_kept tool t Ht) as (? & E & ?). split_and!; [done|by rewrite E|lia]. }
  destruct e as [tool text label keys cost paid|tool label keys cost paid|tool|provider m paid]; cbn [record bills fails];
    rewrite ?Z.add_0_r; [|by apply success_kept|done|].
  - unfold record_result. destruct (is_tool_error text); [by rewrite Z.add_0_r|]. rewrite Z.add_0_r. by apply success_kept.
  - unfold record_provider_searches. destruct (Z.leb_spec m 0) as [Hm|Hm]; [by replace (n + Z.max m 0) with n by lia|].
    replace (Z.max m 0) with m by lia. destruct Ht as (Ht & Hn & Hf).
    pose proof (labelled_kept PROVIDER_WEB_SEARCH_TOOL (Some (provider_web_search_label provider))
      (Some [ModelKey (provider_web_search_label provider)]) (Some paid) m m 0 t ltac:(lia)) as H.
    destruct (counted _ m 0 t) as [k t1]. destruct (H Ht) as (? & ? & ?). split_and!; [done|lia|lia].
Qed.

Lemma sum_label_calls (f : LabelCalls -> Z) t :
  sum f (label_calls t) = sum (fun '(k, l) => f (mkCalls k.1.1.1 k.1.1.2 k.1.2 (label_calls_made l) (label_unreported l) (label_cost l) k.2)) (_labels t).
Proof.
  unfold label_calls. induction (_labels t) as [|[[[[tl lb] ks] pd] l] ls IH]; [done|]. unfold sum in *. cbn. by rewrite IH.
Qed.

(** C32: whatever calls a request makes, and whatever names, labels and costs they carry, its tally keeps at most 33 names of
    at most 64 characters, each once; the calls it hands to settlement under a name are the calls counted as billed under
    it, and in all as many as succeeded, searches included; and every failed call is counted as an error and billed
    nowhere. *)
Theorem tally_keeps_every_call (l : list event) :
  let t := recorded l in
  NoDup (_counts t).*1 /\ (length (_counts t) <= MAX_TOOL_NAMES + 1)%nat
  /\ Forall (fun n => String.length n <= MAX_TOOL_NAME_CHARS)%nat (_counts t).*1
  /\ (forall name, sum (of_tool name) (label_calls t) = billed_under name t)
  /\ Forall (fun e => 0 <= unreported_calls e <= calls e) (label_calls t)
  /\ sum calls (label_calls t) = sum bills l
  /\ sum (fun c => errors c.2) (_counts t) = sum fails l.
Proof.
  assert (forall t n f, calls_kept t n f -> calls_kept (fold_left record l t) (n + sum bills l) (f + sum fails l)) as H.
  { induction l as [|e l IH]; intros t n f Ht; [by rewrite !Z.add_0_r|]. cbn [fold_left]. pose proof (IH _ _ _ (record_kept e t n f Ht)) as H.
    unfold sum in *. cbn [foldr]. by rewrite !Z.add_assoc. }
  destruct (H empty_tally 0 0) as ([H1 H2 H3 H4 H5] & Hn & Hf).
  { split_and!; [|done..]. split; [constructor|cbn; lia|constructor|done|constructor]. }
  cbv zeta. fold (recorded l) in *. split_and!; [done|destruct (bool_decide _); lia|done|..|done].
  - intros name. rewrite sum_label_calls, H4. apply sum_ext. by intros [[[[? ?] ?] ?] x].
  - unfold label_calls. apply Forall_fmap. eapply Forall_impl; [exact H5|]. intros [[[[? ?] ?] ?] x] Hx. exact Hx.
  - rewrite sum_label_calls. rewrite Z.add_0_l in Hn. rewrite <- Hn. apply sum_ext. by intros [[[[? ?] ?] ?] x].
Qed.
