(* ===== verification/StreamSettlement.v ===== *)
(** What settles a streamed request: [record_usage] and the four callbacks [build_streaming_response] of [_pipeline.py]
    hands to [streaming_generator], over the reservation's session.

    A request here is one the deployment does not pay for, so no organization's funds are charged, and its workspace is
    known.  The log writer has a session of its own, and answers [put]. *)
From Stdlib Require Import ZArith QArith Lia.
From stdpp Require Import base strings list gmap.
From S2P Require Import Prelude MeteredPricing UsagePricing ToolPricing PriceLookup Streaming ToolTally.
From S2P Require Import Tables Repositories Session ScopedEnforcement Ledger Reservations Settlement.
Open Scope Z_scope.

(** ** Usage, as pricing reads it *)

Definition gateway_usage (u : StreamUsage) : GatewayUsage :=
  mkGatewayUsage (Some (Streaming.prompt_tokens u)) (Some (Streaming.completion_tokens u))
    (Some (Streaming.cache_read_tokens u, Streaming.cache_write_tokens u, Streaming.cache_write_1h_tokens u,
           Streaming.cache_tokens_in_prompt u)) None.

(** A plain [CompletionUsage]. *)
Definition plain_usage (u : CompletionUsage) : StreamUsage :=
  mkUsage (Reservations.prompt_tokens u) (Reservations.completion_tokens u) (Reservations.total_tokens u) 0 0 0 true 0 0.

Definition _settled_tokens (u : option StreamUsage) : Z :=
  match u with Some u => Z.max (Streaming.total_tokens u) 0 | None => 0 end.

(** [_extract_usage]'s [reported_usage], after the usage of each chunk. *)
Definition report (reported : option StreamUsage) (u : StreamUsage) : option StreamUsage :=
  Some (match reported with None => u | Some r => merge_stream_usage r u end).

(** ** A request *)

Record request : Type := {
  provider : string;
  provider_type : option string;
  provider_key : string;
  model : string;
  organization : option string;
  (** The rate admission resolved, which settlement takes. *)
  prices : option (option ResolvedPricing);
  tables : PriceTables;
  tally : ToolUsageTally;
  policy : string;
  prompt_chars : option Z;
  streamed_chars : Z
}.

(** A caller that passes [record_usage] no [provider_type], and one that passes no [prices] either. *)
Definition untyped (r : request) : request :=
  {| provider := provider r; provider_type := None; provider_key := provider_key r; model := model r;
     organization := organization r; prices := prices r; tables := tables r; tally := tally r; policy := policy r;
     prompt_chars := prompt_chars r; streamed_chars := streamed_chars r |}.
Definition unpriced (r : request) : request :=
  {| provider := provider r; provider_type := None; provider_key := provider_key r; model := model r;
     organization := organization r; prices := None; tables := tables r; tally := tally r; policy := policy r;
     prompt_chars := prompt_chars r; streamed_chars := streamed_chars r |}.

Record LoggedUsage : Type := mkLogged { logged_cost : option Z; pricing_source : option PriceSource }.
Record SettledCost : Type := mkSettledCost { cost_usd : Z; settled_source : PriceSource }.

(** What is written of a request. *)
Record UsageRow : Type := mkRow {
  row_at : Z;
  row_usage : option StreamUsage;
  row_state : string;
  row_error : option string;
  row_cost : option Z;
  row_meters : list (string * counts)
}.

Section settlement.
Context (defaults : option string -> string -> Z -> option (ModelPricing * string)) (default_pricing_enabled : bool).
(** What the log writer does with a row: it may raise, though never over its database. *)
Context (put : UsageRow -> exn + unit).

(** [RequestPrices.resolve], or [resolve_model_pricing] for a caller with none. *)
Definition resolve (r : request) (as_of : Z) : prog (option ResolvedPricing) :=
  match prices r with
  | Some resolved => Ret resolved
  | None => query (fun _ _ => resolve_model_pricing defaults default_pricing_enabled (tables r) (Some (provider r)) (model r) as_of
                                true (organization r) false)
  end.

Definition _row_status (error : option string) (incomplete : bool) : string :=
  match error with None => if incomplete then "incomplete" else "success" | Some _ => "error" end.

(** The searches the provider ran are counted with the gateway's own calls. *)
Definition with_searches (r : request) (usage : option StreamUsage) : ToolUsageTally :=
  match usage with
  | Some u => if Streaming.provider_web_searches u =? 0 then tally r
              else record_provider_searches (default (provider_key r) (provider_type r)) (Streaming.provider_web_searches u) false (tally r)
  | None => tally r
  end.

(** What the row's tool calls add to its cost; where their rates cannot be read, nothing. *)
Definition _apply_tool_charges (r : request) (t : ToolUsageTally) (at_time : Z) (resolved : option ResolvedPricing) : prog Z :=
  if is_empty t then Ret 0
  else match label_calls t with
       | [] => Ret 0
       | calls =>
           try_except
             (query (fun _ _ => total (price_tool_calls default_pricing_enabled (tables r) (organization r) at_time
                (found ← resolved; rate ← model_search_rate (search_rate (Some (pricing found))); Some (rate, source found)) calls)))
             is_database_error (fun _ => Ret 0)
       end.

Definition record_usage (r : request) (usage : option StreamUsage) (error : option string) (incomplete : bool)
    (cost_override : option Z) : prog LoggedUsage :=
  let! timestamp := now in
  let succeeded := negb (is_set error) && negb incomplete in
  let! resolved := if is_set usage || succeeded || is_set cost_override then resolve r timestamp else Ret None in
  let! priced := match resolved with
                 | None => Ret None
                 | Some found => match price_completion (pricing found) (gateway_usage <$> usage) succeeded with
                                 | Some charged => Ret charged
                                 | None => Raise ValueError
                                 end
                 end in
  let source := match priced with Some _ => source <$> resolved | None => None end in
  let cost := match cost_override with
              | Some o => if estimate_settles (pricing <$> resolved) then Some o else fst <$> priced
              | None => fst <$> priced
              end in
  let t := with_searches r usage in
  let! tools := _apply_tool_charges r t timestamp resolved in
  let cost := if tools =? 0 then cost else Some (default 0 cost + tools) in
  of_reply (put (mkRow timestamp usage (_row_status error incomplete) error cost (meters t))) ;;!
  Ret (mkLogged cost source).

Definition bills_per_request (r : request) : prog bool :=
  let! as_of := now in
  let! resolved := resolve r as_of in
  Ret (match resolved with Some found => priced_per_request (columns (pricing found)) | None => false end).

Definition inline_settlement (l : LoggedUsage) : option SettledCost :=
  match logged_cost l, pricing_source l with Some c, Some s => Some (mkSettledCost c s) | _, _ => None end.

(** Truthy: a cost, and not zero. *)
Definition truthy (cost : option Z) : option Z :=
  match cost with Some c => if c =? 0 then None else Some c | None => None end.

(** ** The callbacks *)

Definition release_after_failed_settlement (h : option ReservationHandle) (logged : LoggedUsage) (actual_tokens : Z) : prog unit :=
  suppress is_database_error rollback ;;!
  match h with
  | None => Ret tt
  | Some h =>
      try_except
        (match logged_cost logged with
         | Some c => reconcile_reservation h c actual_tokens
         | None => refund_reservation h
         end)
        is_database_error (fun _ => suppress is_database_error rollback)
  end.

Definition _on_complete (r : request) (h : option ReservationHandle) (u : StreamUsage) : prog (option SettledCost) :=
  let tokens := _settled_tokens (Some u) in
  let! recorded := attempt (record_usage r (Some u) None false None) in
  match recorded with
  | inl e =>
      if is_database_error e then release_after_failed_settlement h (mkLogged None None) tokens ;;! Ret None else Raise e
  | inr logged =>
      match h with
      | None => Ret tt
      | Some h => try_except (reconcile_reservation h (default 0 (logged_cost logged)) tokens) is_database_error
                    (fun _ => release_after_failed_settlement (Some h) logged tokens)
      end ;;!
      Ret (inline_settlement logged)
  end.

Definition _on_no_usage (r : request) (h : option ReservationHandle) : prog unit :=
  match h with
  | None => Ret tt
  | Some h =>
      let! per_request := bills_per_request r in
      if per_request then
        let! logged := record_usage r None None false None in
        reconcile_reservation h (default 0 (logged_cost logged)) 0
      else if bool_decide (policy r = "allow_free"%string) then
        let! logged := record_usage (unpriced r) None None false None in
        match truthy (logged_cost logged) with
        | Some tool_cost => reconcile_reservation h tool_cost 0
        | None => refund_reservation h
        end
      else
        let! logged := try_except
          (record_usage (unpriced r) None
             (if bool_decide (policy r = "fail"%string) then Some "stream completed without usage data"%string else None)
             false (Some (estimate h)))
          (fun _ => true)
          (fun e => refund_reservation h ;;! Raise e) in
        reconcile_reservation h (default (estimate h) (truthy (logged_cost logged))) (token_estimate h)
  end.

Definition _on_error (r : request) (h : option ReservationHandle) (reported : option StreamUsage) (error : string) : prog unit :=
  let! logged := record_usage (unpriced r) reported (Some error) false None in
  match h with
  | None => Ret tt
  | Some h => match truthy (logged_cost logged) with
              | Some failed_cost => reconcile_reservation h failed_cost (_settled_tokens reported)
              | None => refund_reservation h
              end
  end.

(** [settle_abandoned_stream], over the usage a stream carries. *)
Definition abandoned_row (r : request) (reported : option StreamUsage) : option (option StreamUsage * bool * option string) :=
  let as_completion u := mkCompletionUsage (Streaming.prompt_tokens u) (Streaming.completion_tokens u) (Streaming.total_tokens u) in
  row ← settle_abandoned_stream (policy r) (prompt_chars r) (streamed_chars r) (as_completion <$> reported) (negb (is_empty (tally r)));
  Some (match reported with Some u => Some u | None => plain_usage <$> Reservations.usage row end, Reservations.incomplete row, Reservations.error row).

Definition _on_incomplete (r : request) (h : option ReservationHandle) (reported : option StreamUsage) : prog unit :=
  match h with
  | None => Ret tt
  | Some h =>
      match abandoned_row r reported with
      | Some (usage, incomplete, error) =>
          let! logged := record_usage (untyped r) usage error incomplete None in
          match truthy (logged_cost logged) with
          | Some abandoned_cost => reconcile_reservation h abandoned_cost (_settled_tokens usage)
          | None => refund_reservation h
          end
      | None => refund_reservation h
      end
  end.
End settlement.

(** ** Runs the database may fail *)

Definition is_fault (f : fault) : bool := match f with NoFault => false | _ => true end.
Definition faults (fs : list fault) : nat := length (List.filter is_fault fs).

Lemma next_faults fs :
  let '(f, fs') := next_fault fs in
  (f = NoFault /\ faults fs' = faults fs) \/ (is_fault f = true /\ S (faults fs') = faults fs).
Proof. destruct fs as [|[] fs]; cbn; auto. Qed.

(** What [p] leaves of the faults: as many where its run was none the worse, and fewer otherwise. *)
Definition leaves_faults {A} (p : prog A) (fs fs' : list fault) (x : tx) (w : world) : Prop :=
  (forall B (h : exn + A -> prog B), run (handle p h) fs x w = let '(r, x', w') := run p fs x w in run (h r) fs' x' w')
  /\ (run p fs x w = run p [] x w /\ faults fs' = faults fs \/ (faults fs' < faults fs)%nat).

#[local] Ltac fault_step :=
  match goal with |- exists fs', leaves_faults _ ?fs fs' _ _ =>
    pose proof (next_faults fs); unfold leaves_faults; cbn [handle run]; destruct (next_fault fs) as [f fs1]
  end.
#[local] Ltac fault_rest IH :=
  match goal with |- exists fs', (forall B h, run (handle (_ ?r) h) ?fs1 ?x ?w = _) /\ _ =>
    let H1 := fresh in let H2 := fresh in let fs' := fresh "fs" in
    destruct (IH r fs1 x w) as (fs' & H1 & H2); exists fs'; (split; [exact H1|]);
    match goal with H : (_ = NoFault /\ _) \/ _ |- _ => destruct H as [[? <-]|[? <-]] end; try done; destruct H2 as [[? ?]|?]; try (by left); right; lia
  end.

Lemma run_split {A} (p : prog A) fs x w : exists fs', leaves_faults p fs fs' x w.
Proof.
  revert fs x w. induction p as [a|e|k IH|k IH|C q k IH|C s k IH|site k IH|k IH]; intros fs x w.
  1,2: exists fs; split; [done|by left].
  - destruct (IH (clock w) fs x w) as (fs' & H). by exists fs'.
  - destruct (IH (next_id w) fs x (mkWorld (db w) (clock w) (S (next_id w)))) as (fs' & H). by exists fs'.
  - fault_step. match goal with |- context [match ?f with NoFault => _ | _ => _ end] => destruct f end; [destruct (reads_from x w) as [d|]|..]; fault_rest IH.
  - fault_step. destruct f; [destruct (reads_from x w) as [d|]; [destruct (s (clock w) d) as [[e|b] d'] eqn:Es|]|..]; fault_rest IH.
  - fault_step. destruct f, x; fault_rest IH.
  - fault_step. destruct f; fault_rest IH.
Qed.

(** The same, one [bind] or [try] at a time. *)
Lemma run_bind_split {A B} (p : prog A) (f : A -> prog B) fs x w :
  exists fs', (run (bind p f) fs x w =
    let '(r, x', w') := run p fs x w in match r with inr a => run (f a) fs' x' w' | inl e => (inl e, x', w') end)
  /\ (run p fs x w = run p [] x w /\ faults fs' = faults fs \/ (faults fs' < faults fs)%nat).
Proof.
  destruct (run_split p fs x w) as (fs' & H1 & H2). exists fs'. split; [|done]. unfold bind. rewrite H1.
  by destruct (run p fs x w) as [[[e|a] x'] w'].
Qed.

(** *** A transaction: its statements are not refused, and it commits last *)

Inductive statements {A} : prog A -> Prop :=
| st_ret a : statements (Ret a)
| st_now k : (forall t, statements (k t)) -> statements (Now k)
| st_read B (q : Z -> database -> B) k :
    (forall b, statements (k (inr b))) -> (forall e, k (inl e) = Raise e) -> statements (Read B q k)
| st_write B (s : Z -> database -> (exn + B) * database) k :
    (forall t d, exists b, (s t d).1 = inr b) ->
    (forall b, statements (k (inr b))) -> (forall e, k (inl e) = Raise e) -> statements (Write B s k).

Inductive transaction {A} : prog A -> Prop :=
| tr_now k : (forall t, transaction (k t)) -> transaction (Now k)
| tr_read B (q : Z -> database -> B) k :
    (forall b, transaction (k (inr b))) -> (forall e, k (inl e) = Raise e) -> transaction (Read B q k)
| tr_write B (s : Z -> database -> (exn + B) * database) k :
    (forall t d, exists b, (s t d).1 = inr b) ->
    (forall b, transaction (k (inr b))) -> (forall e, k (inl e) = Raise e) -> transaction (Write B s k)
| tr_commit site k a : k None = Ret a -> (forall e, k (Some e) = Raise e) -> transaction (Commit site k).

Lemma statements_bind {A B} (p : prog A) (f : A -> prog B) :
  statements p -> (forall a, statements (f a)) -> statements (bind p f).
Proof.
  intros Hp Hf. unfold bind. induction Hp as [a|k Hk IH|C q k Hk IH He|C s k Hs Hk IH He]; cbn [handle]; [done|constructor..]; auto;
    intros e; by rewrite He.
Qed.

Lemma transaction_bind {A B} (p : prog A) (f : A -> prog B) :
  statements p -> (forall a, transaction (f a)) -> transaction (bind p f).
Proof.
  intros Hp Hf. unfold bind. induction Hp as [a|k Hk IH|C q k Hk IH He|C s k Hs Hk IH He]; cbn [handle]; [done|constructor..]; auto;
    intros e; by rewrite He.
Qed.

Lemma fault_exn_is_database_error f : is_database_error (fault_exn f) = true.
Proof. by destruct f. Qed.

(** Such a program does all of its work or none of it, and says which except where its commit landed and reported
    failure. *)
Definition all_or_nothing {A} (p : prog A) fs x w : Prop :=
  let '(r, x', w') := run p fs x w in
  (w' = w /\ x' = Poisoned /\ exists e, r = inl e /\ is_database_error e = true)
  \/ w' = (run p [] x w).2 /\ (is_set (match r with inr a => Some a | inl _ => None end) = true /\ x' = Clean \/ x' = Poisoned /\ r = inl SQLAlchemyError).

Lemma transaction_runs {A} (p : prog A) : transaction p -> forall fs x w, all_or_nothing p fs x w.
Proof.
  assert (forall (q : prog A) f w0 fs w (P : exn + A -> tx -> world -> Prop), q = Raise (fault_exn f) -> w = w0 ->
    let '(r, x', w') := run q fs Poisoned w in
    (w' = w0 /\ x' = Poisoned /\ exists e, r = inl e /\ is_database_error e = true) \/ P r x' w') as Hfail
    by (intros q f w0 fs w P -> ->; left; eauto using fault_exn_is_database_error).
  unfold all_or_nothing. induction 1 as [k Hk IH|C q k Hk IH He|C s k Hs Hk IH He|site k a Hn He]; intros fs x w; cbn [run next_fault].
  - apply IH.
  - destruct (next_fault fs) as [f fs1]. destruct f, (reads_from x w) as [d|]; try apply IH.
    all: eapply Hfail; [apply He|done].
  - destruct (next_fault fs) as [f fs1]. destruct f, (reads_from x w) as [d|].
    1: { destruct (Hs (clock w) d) as (b & E). destruct (s (clock w) d) as [r d']. cbn in E. subst r. apply IH. }
    all: eapply Hfail; [apply He|done].
  - destruct (next_fault fs) as [f fs1]. destruct f, x; rewrite ?Hn, ?He; cbn; (first [solve [left; eauto using fault_exn_is_database_error]|solve [right; eauto]]).
Qed.

Lemma st_update f : statements (update_rowcount f).
Proof. apply st_write; [intros t d; by eexists|constructor|done]. Qed.
Lemma st_query {B} (q : Z -> database -> B) : statements (query q).
Proof. apply st_read; [constructor|done]. Qed.
Lemma st_terminate id s : statements (try_terminate id s).
Proof. destruct id; [apply st_update|constructor]. Qed.
Lemma st_reclaimed id : statements (try_settle_reclaimed id).
Proof. destruct id; [apply st_update|constructor]. Qed.
Lemma st_if {A} (b : bool) (p q : prog A) : statements p -> statements q -> statements (if b then p else q).
Proof. by destruct b. Qed.
Lemma st_update_unit f : statements (update f).
Proof. apply st_write; [intros t d; by eexists|constructor|done]. Qed.
Lemma tr_commit_at site : transaction (commit_at site).
Proof. by apply (tr_commit site _ tt). Qed.
Lemma tr_if {A} (b : bool) (p q : prog A) : transaction p -> transaction q -> transaction (if b then p else q).
Proof. by destruct b. Qed.

#[local] Ltac transact :=
  repeat first
    [ apply tr_commit_at | apply tr_if
    | (apply transaction_bind; [|intros ?]) | (apply statements_bind; [|intros ?])
    | apply st_query | apply st_terminate | apply st_reclaimed | apply st_update | apply st_update_unit
    | apply st_if | apply st_ret ].

Lemma reconcile_transaction h cost tok : transaction (reconcile_reservation h cost tok).
Proof. unfold reconcile_reservation, defer_commit_flush, ScopedEnforcement.settle. transact. Qed.
Lemma refund_transaction h : transaction (refund_reservation h).
Proof. unfold refund_reservation, defer_commit_flush, release. transact. Qed.

(** *** Programs that read *)

Inductive looks {A} : prog A -> Prop :=
| looks_ret a : looks (Ret a)
| looks_raise e : looks (Raise e)
| looks_now k : (forall t, looks (k t)) -> looks (Now k)
| looks_read B (q : Z -> database -> B) k : (forall r, looks (k r)) -> looks (Read B q k).

Lemma looks_handle {A B} (p : prog A) (h : exn + A -> prog B) : looks p -> (forall r, looks (h r)) -> looks (handle p h).
Proof. intros Hp Hh. induction Hp; cbn [handle]; [apply Hh..|constructor|constructor]; auto. Qed.
Lemma looks_bind {A B} (p : prog A) (f : A -> prog B) : looks p -> (forall a, looks (f a)) -> looks (bind p f).
Proof. intros Hp Hf. apply looks_handle; [done|]. intros [e|a]; [constructor|apply Hf]. Qed.
Lemma looks_try {A} (p : prog A) caught h : looks p -> (forall e, looks (h e)) -> looks (try_except p caught h).
Proof. intros Hp Hh. apply looks_handle; [done|]. intros [e|a]; [|constructor]. destruct (caught e); [apply Hh|constructor]. Qed.
Lemma looks_query {B} (q : Z -> database -> B) : looks (query q).
Proof. apply looks_read. intros [e|b]; constructor. Qed.
Lemma looks_reply {B} (r : exn + B) : looks (of_reply r).
Proof. destruct r; constructor. Qed.

Lemma looks_world {A} (p : prog A) : looks p -> forall fs x w, (run p fs x w).2 = w.
Proof.
  induction 1 as [a|e|k Hk IH|B q k Hk IH]; intros fs x w; cbn [run]; [done..|apply IH|].
  destruct (next_fault fs) as [[] ?], (reads_from x w); apply IH.
Qed.
Lemma looks_quiet {A} (p : prog A) : looks p -> forall w, (run_quiet p w).1.2 = Clean.
Proof. unfold run_quiet. induction 1 as [a|e|k Hk IH|B q k Hk IH]; intros w; cbn [run next_fault reads_from]; [done..|apply IH|apply IH]. Qed.

(** How a program may end, whatever the faults and from whatever transaction, and how it ends with neither. *)
Definition ends_in {A} (p : prog A) (Q : exn + A -> Prop) : Prop := forall fs x w, Q (run p fs x w).1.1.
Definition ends_well {A} (p : prog A) (Q : exn + A -> Prop) : Prop := forall w, Q (run_quiet p w).1.1.

Lemma ends_bind {A B} (p : prog A) (f : A -> prog B) (P : exn + A -> Prop) (Q : exn + B -> Prop) :
  ends_in p P -> (forall a, P (inr a) -> ends_in (f a) Q) -> (forall e, P (inl e) -> Q (inl e)) -> ends_in (bind p f) Q.
Proof.
  intros Hp Hf He fs x w. destruct (run_bind_split p f fs x w) as (fs' & -> & _). specialize (Hp fs x w).
  destruct (run p fs x w) as [[[e|a] x'] w']; [by apply He|by apply Hf].
Qed.
Lemma well_bind {A B} (p : prog A) (f : A -> prog B) (P : exn + A -> Prop) (Q : exn + B -> Prop) :
  looks p -> ends_well p P -> (forall a, P (inr a) -> ends_well (f a) Q) -> (forall e, P (inl e) -> Q (inl e)) -> ends_well (bind p f) Q.
Proof.
  intros Hl Hp Hf He w. specialize (Hp w). pose proof (looks_quiet p Hl w) as Hx. pose proof (looks_world p Hl [] Clean w) as Hw.
  unfold run_quiet in *. rewrite run_bind_quiet. destruct (run p [] Clean w) as [[[e|a] x'] w']; [by apply He|]. cbn in Hx, Hw. subst. by apply Hf.
Qed.

Definition returns {A} (r : exn + A) : Prop := match r with inr _ => True | inl _ => False end.
Definition returns_or_db {A} (r : exn + A) : Prop := match r with inr _ => True | inl e => is_database_error e = true end.

Lemma ends_query {B} (q : Z -> database -> B) (Q : exn + B -> Prop) :
  (forall t d, Q (inr (q t d))) -> (forall f, Q (inl (fault_exn f))) -> ends_in (query q) Q.
Proof.
  intros Hq Hf fs x w. unfold query. cbn [run]. destruct (next_fault fs) as [f fs1].
  destruct f, (reads_from x w) as [d|]; cbn; try apply Hq; (first [exact (Hf Fails)|exact (Hf TimesOut)]).
Qed.

(** ** Recording *)

Section recording.
Context (defaults : option string -> string -> Z -> option (ModelPricing * string)) (default_pricing_enabled : bool).
Context (put : UsageRow -> exn + unit).
Notation record_usage := (record_usage defaults default_pricing_enabled put).
Notation resolve := (resolve defaults default_pricing_enabled).

(** The rate a request settles at is one its usage can be priced with: every price of it is a number. *)
Definition rate_at (r : request) (t : Z) : option ResolvedPricing :=
  match prices r with
  | Some resolved => resolved
  | None => resolve_model_pricing defaults default_pricing_enabled (tables r) (Some (provider r)) (model r) t true (organization r) false
  end.
Definition readable (r : request) : Prop :=
  forall t found usage succeeded, rate_at r t = Some found -> price_completion (pricing found) usage succeeded <> None.

Lemma resolve_looks r t : looks (resolve r t).
Proof. unfold StreamSettlement.resolve. destruct (prices r); [constructor|apply looks_query]. Qed.
Lemma tool_charges_look r tl t resolved : looks (_apply_tool_charges default_pricing_enabled r tl t resolved).
Proof.
  unfold _apply_tool_charges. destruct (is_empty tl); [constructor|]. destruct (label_calls tl); [constructor|].
  apply looks_try; [apply looks_query|constructor].
Qed.
Lemma record_looks r u e i o : looks (record_usage r u e i o).
Proof.
  unfold StreamSettlement.record_usage, now. apply looks_bind; [constructor; constructor|]. intros t.
  apply looks_bind; [destruct (is_set u || _ || _); [apply resolve_looks|constructor]|]. intros resolved.
  apply looks_bind; [destruct resolved as [f|]; [destruct (price_completion _ _ _)|]; constructor|]. intros priced.
  apply looks_bind; [apply tool_charges_look|]. intros tools. apply looks_bind; [apply looks_reply|]. constructor.
Qed.
Lemma bills_per_request_looks r : looks (bills_per_request defaults default_pricing_enabled r).
Proof. unfold bills_per_request, now. apply looks_bind; [constructor; constructor|]. intros t. apply looks_bind; [apply resolve_looks|constructor]. Qed.

Lemma tool_charges_return r tl t resolved : ends_in (_apply_tool_charges default_pricing_enabled r tl t resolved) returns.
Proof.
  unfold _apply_tool_charges. destruct (is_empty tl); [by intros fs x w|]. destruct (label_calls tl); [by intros fs x w|].
  intros fs x w. unfold query, try_except. cbn [run handle]. destruct (next_fault fs) as [[] fs1], (reads_from x w); done.
Qed.

(** Recording returns what it logged, or raises what the database raised. *)
Lemma record_ends r u e i o : readable r -> (forall row, put row = inr tt) -> ends_in (record_usage r u e i o) returns_or_db.
Proof.
  intros Hr Hput. unfold StreamSettlement.record_usage.
  apply (ends_bind _ _ returns); [by intros fs x w| |done]. intros t _.
  apply (ends_bind _ _ (fun a => match a with inr (Some f) => rate_at r t = Some f | inr None => True | inl e => is_database_error e = true end)); [| |done].
  { destruct (is_set u || _ || _); [|by intros fs x w]. unfold StreamSettlement.resolve, readable, rate_at in *.
    destruct (prices r) as [[f|]|]; [by intros fs x w..|]. apply ends_query; [|by intros []]. intros t' d. by destruct (resolve_model_pricing _ _ _ _ _ _ _ _ _). }
  intros resolved Hres. apply (ends_bind _ _ returns); [| |by intros ? []].
  { destruct resolved as [f|]; [|by intros fs x w]. destruct (price_completion (pricing f) (gateway_usage <$> u) (negb (is_set e) && negb i)) eqn:E; [by intros fs x w|].
    by destruct (Hr t f _ _ Hres E). }
  intros priced _. apply (ends_bind _ _ returns); [apply tool_charges_return| |by intros ? []]. intros tools _.
  rewrite Hput. by intros fs x w.
Qed.

(** With nothing failing it returns, and changes nothing. *)
Lemma record_quiet r u e i o w :
  readable r -> (forall row, put row = inr tt) -> exists l, run_quiet (record_usage r u e i o) w = (inr l, Clean, w).
Proof.
  intros Hr Hput. pose proof (record_looks r u e i o) as Hl.
  assert (ends_well (record_usage r u e i o) returns) as H.
  { unfold StreamSettlement.record_usage. apply (well_bind _ _ returns); [by constructor; constructor|by intros ?| |done]. intros t _.
    apply (well_bind _ _ (fun a => match a with inr (Some f) => rate_at r t = Some f | inr None => True | inl e => False end));
      [destruct (is_set u || _ || _); [apply resolve_looks|constructor]| | |done].
    { destruct (is_set u || _ || _); [|by intros w']. unfold StreamSettlement.resolve, readable, rate_at in *. intros w'.
      destruct (prices r) as [[f|]|]; cbn; [done..|]. by destruct (resolve_model_pricing _ _ _ _ _ _ _ _ _). }
    intros resolved Hres. apply (well_bind _ _ returns); [destruct resolved as [f|]; [destruct (price_completion _ _ _)|]; constructor| | |done].
    { destruct resolved as [f|]; [|by intros w']. destruct (price_completion (pricing f) (gateway_usage <$> u) (negb (is_set e) && negb i)) eqn:E; [by intros w'|].
      by destruct (Hr t f _ _ Hres E). }
    intros priced _. apply (well_bind _ _ returns); [apply tool_charges_look|intros w'; apply tool_charges_return| |done]. intros tools _.
    rewrite Hput. by intros w'. }
  specialize (H w). pose proof (looks_quiet _ Hl w) as Hx. pose proof (looks_world _ Hl [] Clean w) as Hw. unfold run_quiet in *.
  destruct (run _ [] Clean w) as [[[e'|l] x'] w']; [done|]. cbn in Hx, Hw. subst. by exists l.
Qed.
End recording.

(** ** Settling a hold, with faults *)

Lemma no_faults {A} (p : prog A) fs x w : faults fs = 0%nat -> run p fs x w = run p [] x w.
Proof. intros H. destruct (run_split p fs x w) as (fs' & _ & [[? _]|?]); [done|lia]. Qed.

Lemma run_attempt {A} (p : prog A) fs x w : run (attempt p) fs x w = let '(r, x', w') := run p fs x w in (inr r, x', w').
Proof. destruct (run_split p fs x w) as (fs' & H & _). unfold attempt. rewrite H. by destruct (run p fs x w) as [[? ?] ?]. Qed.

Lemma transaction_poisoned {A} (p : prog A) : transaction p -> forall fs w, (run p fs Poisoned w).2 = w.
Proof.
  induction 1 as [k Hk IH|B q k Hk IH He|B s k Hs Hk IH He|site k a Hn He]; intros fs w; cbn [run reads_from]; [apply IH|..].
  - destruct (next_fault fs) as [[] ?]; by rewrite He.
  - destruct (next_fault fs) as [[] ?]; by rewrite He.
  - destruct (next_fault fs) as [[] ?]; by rewrite He.
Qed.

Lemma poisoned_raises {A} (p : prog A) : transaction p -> forall fs w a x' w', run p fs Poisoned w = (inr a, x', w') -> False.
Proof.
  induction 1 as [k Hk IH|B q k Hk IH He|B s k Hs Hk IH He|site k a0 Hn He]; intros fs w a x' w'; cbn [run reads_from]; [apply IH|..];
    destruct (next_fault fs) as [[] ?]; by rewrite He.
Qed.

Lemma looks_tx {A} (p : prog A) : looks p -> forall fs x w, x = Clean \/ x = Poisoned -> (run p fs x w).1.2 = Clean \/ (run p fs x w).1.2 = Poisoned.
Proof.
  induction 1 as [a|e|k Hk IH|B q k Hk IH]; intros fs x w Hx; cbn [run]; [done..|by apply IH|].
  destruct (next_fault fs) as [[] ?], (reads_from x w); apply IH; auto.
Qed.

(** The end of a hold: a cost and tokens spent, or nothing. *)
Definition settle_hold (h : ReservationHandle) (spent : option (Z * Z)) : prog unit :=
  match spent with Some (cost, tok) => reconcile_reservation h cost tok | None => refund_reservation h end.

Lemma settle_transaction h spent : transaction (settle_hold h spent).
Proof. destruct spent as [[cost tok]|]; [apply reconcile_transaction|apply refund_transaction]. Qed.

(** [w'] is [w] with the hold of row [i] ended so: what it held given back on every counter, what it spent spent on
    every counter of its legs, and no other row changed. *)
Definition hold_ended (h : ReservationHandle) (i : nat) (spent : option (Z * Z)) (w w' : world) : Prop :=
  exists d', w' = set_db w d'
  /\ (forall j, j <> i -> reservations d' !! j = reservations (db w) !! j)
  /\ row_status d' i = Some (match spent with Some _ => RESERVATION_SETTLED | None => RESERVATION_RELEASED end)
  /\ forall c,
      counter_used d' c = (match spent with Some (cost, tok) => fun x => add_held x (spends_on h cost tok c) | None => id end)
                            <$> counter_used (db w) c
      /\ counter_held d' c = gives_back h c <$> counter_held (db w) c.

Section hold.
Context (h : ReservationHandle) (i : nat) (w : world).
Context (Hid : reservation_id h = Some i) (Huser : held_nonneg (user_leg h)) (Hscoped : held_nonneg (scoped_leg h)).
Context (Hactive : row_status (db w) i = Some RESERVATION_ACTIVE).

Lemma settle_ends spent : exists w', run_quiet (settle_hold h spent) w = (inr tt, Clean, w') /\ hold_ended h i spent w w'.
Proof.
  destruct spent as [[cost tok]|]; cbn [settle_hold].
  - destruct (run_reconcile h cost tok i w Hid Huser Hscoped) as (d' & Hrun & Hj & H). rewrite Hactive in H. destruct H as [Hrow Hc].
    exists (set_db w d'). split; [done|]. by exists d'.
  - destruct (run_refund h i w Hid Hscoped) as (d' & Hrun & Hj & H). rewrite Hactive in H. destruct H as [Hrow Hc].
    exists (set_db w d'). split; [done|]. exists d'. split_and!; [done..|]. intros c. rewrite option_fmap_id. apply Hc.
Qed.

(** An ended hold is not settled again. *)
Lemma ended_stays spent spent' w' : hold_ended h i spent w w' -> run_quiet (settle_hold h spent') w' = (inr tt, Clean, w').
Proof.
  intros (d' & -> & _ & Hrow & _).
  assert (forall r, reservations (db (set_db w d')) !! i = Some r -> status r <> RESERVATION_ACTIVE /\ status r <> RESERVATION_EXPIRED) as Hd.
  { cbn. intros r Hr. unfold row_status in Hrow. rewrite Hr in Hrow. injection Hrow as Hrow. destruct spent; by rewrite Hrow. }
  destruct spent' as [[cost tok]|]; cbn [settle_hold]; [by apply (run_reconcile_finished h _ _ i)|].
  apply (run_refund_finished h i); [done|]. intros r Hr. by apply (Hd r Hr).
Qed.

(** Left as it was, or ended. *)
Definition ended_or_left (Q : option (Z * Z) -> Prop) (left : Prop) (w' : world) : Prop :=
  w' = w /\ left \/ exists spent, Q spent /\ hold_ended h i spent w w'.

(** One try at ending a hold, from a session with nothing pending. *)
Lemma try_settle spent fs x (Q : option (Z * Z) -> Prop) (left : Prop) w0 :
  x = Clean \/ x = Poisoned -> Q spent -> ended_or_left Q left w0 ->
  let '(r, x', w') := run (settle_hold h spent) fs x w0 in
  (r = inr tt /\ x' = Clean \/ (exists e, r = inl e /\ is_database_error e = true) /\ x' = Poisoned)
  /\ (r = inr tt -> ended_or_left Q False w') /\ ended_or_left Q left w'.
Proof.
  intros Hx HQ Hw0. pose proof (transaction_runs _ (settle_transaction h spent) fs x w0) as H.
  pose proof (transaction_poisoned _ (settle_transaction h spent) [] w0) as Hp'.
  unfold all_or_nothing in *. destruct (run (settle_hold h spent) fs x w0) as [[r x'] w'] eqn:E.
  assert (ended_or_left Q False (run_quiet (settle_hold h spent) w0).2) as Hquiet.
  { destruct Hw0 as [[-> _]|(s & Hs & He)].
    - destruct (settle_ends spent) as (w1 & -> & H1). right. by exists spent.
    - rewrite (ended_stays s spent w0 He). right. by exists s. }
  destruct H as [(-> & -> & e & -> & He)|[-> Hr]]; [split_and!; [right; eauto|done|done]|].
  destruct Hx as [->| ->].
  - split_and!.
    + destruct Hr as [[Hs ->]|[-> ->]]; [left; by destruct r as [e|[]]|right; eauto].
    + intros _. exact Hquiet.
    + destruct Hquiet as [[_ []]|?]. by right.
  - destruct (run (settle_hold h spent) [] Poisoned w0) as [[r0 x0] w1] eqn:E0. cbn in Hp'. subst w1. cbn [snd].
    split_and!; [| |done].
    + destruct Hr as [[Hs ->]|[-> ->]]; [left; by destruct r as [e|[]]|right; eauto].
    + intros ->. exfalso. by apply (poisoned_raises _ (settle_transaction h spent) fs w0 tt x' w0).
Qed.

(** The second try, after a rollback: it raises nothing, and ends the hold where no fault is left. *)
Lemma release_ends logged tok fs x w0 (Q : option (Z * Z) -> Prop) (left : Prop) :
  Q ((fun c => (c, tok)) <$> logged_cost logged) -> (faults fs = 0%nat \/ left) -> ended_or_left Q True w0 ->
  let '(r, x', w') := run (release_after_failed_settlement (Some h) logged tok) fs x w0 in
  r = inr tt /\ ended_or_left Q left w'.
Proof.
  intros HQ Hleft Hw0. unfold release_after_failed_settlement.
  destruct (run_bind_split (suppress is_database_error rollback)
    (fun _ => try_except (match logged_cost logged with Some c => reconcile_reservation h c tok | None => refund_reservation h end)
                is_database_error (fun _ => suppress is_database_error rollback)) fs x w0) as (fs1 & -> & Hfs).
  assert (exists x1, run (suppress is_database_error rollback) fs x w0 = (inr tt, x1, w0) /\ (x1 = Clean \/ x1 = Poisoned)) as (x1 & E & Hx1).
  { unfold suppress, rollback, try_except. cbn [handle run]. destruct (next_fault fs) as [[] ?]; cbn; eauto. }
  assert (faults fs = 0%nat -> faults fs1 = 0%nat) as Hleft1 by (intros H0; destruct Hfs as [[_ ?]|?]; lia).
  assert (faults fs = 0%nat -> x1 = Clean) as Hclean.
  { intros H0. rewrite no_faults in E by done. by injection E. }
  rewrite E. clear E.
  set (spent := (fun c => (c, tok)) <$> logged_cost logged) in *.
  assert (match logged_cost logged with Some c => reconcile_reservation h c tok | None => refund_reservation h end = settle_hold h spent) as ->
    by (unfold spent; by destruct (logged_cost logged)).
  unfold try_except. destruct (run_split (settle_hold h spent) fs1 x1 w0) as (fs2 & -> & _).
  pose proof (try_settle spent fs1 x1 Q True w0 Hx1 HQ Hw0) as Hs.
  destruct (run (settle_hold h spent) fs1 x1 w0) as [[r x2] w2] eqn:E2. destruct Hs as (Hend & Hdone & Hleft2).
  destruct Hend as [[-> _]|[(e & -> & He) _]].
  - split; [done|]. destruct (Hdone eq_refl) as [[_ []]|?]. by right.
  - rewrite He. assert (exists x3, run (suppress is_database_error rollback) fs2 x2 w2 = (inr tt, x3, w2)) as (x3 & ->).
    { unfold suppress, rollback, try_except. cbn [handle run]. destruct (next_fault fs2) as [[] ?]; cbn; eauto. }
    split; [done|]. destruct Hleft2 as [[-> _]|?]; [|by right]. destruct Hleft as [H0|?]; [|by left]. exfalso.
    rewrite (Hclean H0), (no_faults _ _ _ _ (Hleft1 H0)) in E2.
    destruct Hw0 as [[-> _]|(s & Hs & Hh)].
    + destruct (settle_ends spent) as (w1 & Hrun & _). unfold run_quiet in Hrun. by rewrite Hrun in E2.
    + pose proof (ended_stays s spent w0 Hh) as Hrun. unfold run_quiet in Hrun. by rewrite Hrun in E2.
Qed.
End hold.

(** ** A completed stream *)

Section completion.
Context (defaults : option string -> string -> Z -> option (ModelPricing * string)) (default_pricing_enabled : bool).
Context (put : UsageRow -> exn + unit) (puts : forall row, put row = inr tt).
Notation _on_complete := (_on_complete defaults default_pricing_enabled put).
Notation record_usage := (record_usage defaults default_pricing_enabled put).
Notation readable := (readable defaults default_pricing_enabled).

(** What a completed stream spends of a hold: a cost and its tokens, or nothing, when no row was written of it. *)
Definition for_tokens (tok : Z) (spent : option (Z * Z)) : Prop :=
  match spent with Some (_, t) => t = tok | None => True end.

Lemma completion_ends r h u i w fs :
  readable r -> reservation_id h = Some i -> held_nonneg (user_leg h) -> held_nonneg (scoped_leg h) ->
  row_status (db w) i = Some RESERVATION_ACTIVE ->
  let '(res, _, w') := run (_on_complete r (Some h) u) fs Clean w in
  (exists s, res = inr s) /\ ended_or_left h i w (for_tokens (_settled_tokens (Some u))) (2 <= faults fs)%nat w'.
Proof.
  intros Hr Hid Hu Hs Hact. unfold StreamSettlement._on_complete.
  match goal with |- context [bind (attempt ?p) ?k] => destruct (run_bind_split (attempt p) k fs Clean w) as (fs1 & -> & Hfs1) end.
  pose proof (record_ends defaults default_pricing_enabled put r (Some u) None false None Hr puts fs Clean w) as Hrec.
  pose proof (looks_world _ (record_looks defaults default_pricing_enabled put r (Some u) None false None) fs Clean w) as Hw.
  pose proof (looks_tx _ (record_looks defaults default_pricing_enabled put r (Some u) None false None) fs Clean w (or_introl eq_refl)) as Hx.
  destruct (record_quiet defaults default_pricing_enabled put r (Some u) None false None w Hr puts) as (l0 & Hq).
  rewrite !run_attempt in Hfs1. rewrite run_attempt. unfold run_quiet in Hq. rewrite Hq in Hfs1.
  destruct (run (record_usage r (Some u) None false None) fs Clean w) as [[rec x1] w1]. cbn [fst snd] in Hrec, Hw, Hx. subst w1.
  set (tok := _settled_tokens (Some u)). assert (ended_or_left h i w (for_tokens tok) True w) as H0 by (by left).
  destruct rec as [e|logged].
  - assert (faults fs1 < faults fs)%nat as Hlt by (destruct Hfs1 as [[? _]|?]; [congruence|done]). cbn in Hrec. rewrite Hrec.
    match goal with |- context [bind ?p ?k] => destruct (run_bind_split p k fs1 x1 w) as (fs2 & -> & _) end.
    pose proof (release_ends h i w Hid Hu Hs Hact (mkLogged None None) tok fs1 x1 w (for_tokens tok) (2 <= faults fs)%nat I ltac:(lia) H0) as H.
    destruct (run (release_after_failed_settlement _ _ _) fs1 x1 w) as [[r2 x2] w2]. destruct H as [-> H]. cbn. eauto.
  - assert (exists s, (inr (inline_settlement logged) : exn + option SettledCost) = inr s) as Hinr by eauto.
    match goal with |- context [bind ?p ?k] => destruct (run_bind_split p k fs1 x1 w) as (fs2 & -> & _) end.
    change (reconcile_reservation h (default 0 (logged_cost logged)) tok) with (settle_hold h (Some (default 0 (logged_cost logged), tok))).
    unfold try_except. destruct (run_split (settle_hold h (Some (default 0 (logged_cost logged), tok))) fs1 x1 w) as (fs3 & -> & Hfs3).
    pose proof (try_settle h i w Hid Hu Hs Hact (Some (default 0 (logged_cost logged), tok)) fs1 x1 (for_tokens tok) True w Hx eq_refl H0) as Ht.
    destruct (run (settle_hold h _) fs1 x1 w) as [[r3 x3] w3]. destruct Ht as (Hend & Hdone & Hleft). destruct Hend as [[-> _]|[(e & -> & He) _]].
    + split; [done|]. destruct (Hdone eq_refl) as [[_ []]|?]. by right.
    + rewrite He. assert (faults fs3 = 0%nat \/ (2 <= faults fs)%nat) as Hfew.
      { destruct Hfs1 as [[Hsame Hn]|Hlt]; [|destruct Hfs3 as [[_ ?]|?]; lia]. injection Hsame as -> ->.
        destruct Hfs3 as [[Hrun _]|?]; [|lia]. exfalso.
        destruct (settle_ends h i w Hid Hu Hs Hact (Some (default 0 (logged_cost l0), tok))) as (wq & Hwq & _). unfold run_quiet in Hwq. congruence. }
      pose proof (release_ends h i w Hid Hu Hs Hact logged tok fs3 x3 w3 (for_tokens tok) (2 <= faults fs)%nat) as H.
      destruct (run (release_after_failed_settlement _ _ _) fs3 x3 w3) as [[r4 x4] w4].
      destruct H as [-> H]; [by destruct (logged_cost logged)|done|done|]. by split.
Qed.
(** C6: the hold of a completed stream is ended exactly once, or left as it was for the sweep: one statement, commit or
    rollback that the database fails, wherever it strikes and even when a commit landed and reported failure, does not
    leave it, and whatever the database does it is not ended twice.  The response is served in every case. *)
Theorem completion_survives_a_fault r h u i w fs :
  readable r -> reservation_id h = Some i -> held_nonneg (user_leg h) -> held_nonneg (scoped_leg h) ->
  row_status (db w) i = Some RESERVATION_ACTIVE ->
  let '(res, _, w') := run (_on_complete r (Some h) u) fs Clean w in
  (exists s, res = inr s)
  /\ (w' = w /\ (2 <= faults fs)%nat
      \/ exists spent, for_tokens (_settled_tokens (Some u)) spent /\ hold_ended h i spent w w').
Proof. apply completion_ends. Qed.

(** Where the price list cannot be read, a stream that completed without usage keeps its hold until the sweep, under
    every policy: the refund that would give it back runs in the transaction the read failed. *)
Theorem unread_rate_keeps_the_hold r h w fs admitted :
  prices r = Some admitted ->
  match admitted with Some found => priced_per_request (columns (pricing found)) | None => false end = false ->
  (run (_on_no_usage defaults default_pricing_enabled put r (Some h)) (Fails :: fs) Clean w).2 = w.
Proof.
  intros Hp Hn. unfold _on_no_usage, bills_per_request, resolve. rewrite Hp. cbn [now bind handle run]. rewrite Hn.
  case_bool_decide.
  - unfold StreamSettlement.record_usage. by destruct (tally r).
  - match goal with |- context [bind (try_except ?p ?c ?g) ?k] =>
      destruct (run_bind_split (try_except p c g) k (Fails :: fs) Clean w) as (fs1 & -> & _); unfold try_except;
      destruct (run_split p (Fails :: fs) Clean w) as (fs2 & -> & _);
      assert (run p (Fails :: fs) Clean w = (inl SQLAlchemyError, Poisoned, w)) as -> by (by case_bool_decide)
    end.
    destruct (run_bind_split (refund_reservation h) (fun _ => Raise (A := LoggedUsage) SQLAlchemyError) fs2 Poisoned w) as (fs3 & -> & _).
    pose proof (transaction_poisoned _ (refund_transaction h) fs2 w) as Hw.
    by destruct (run (refund_reservation h) fs2 Poisoned w) as [[[e|[]] x'] w'].
Qed.
End completion.

(** ** A streamed response *)

Section response.
Context {C X : Type}.

(** What a dialect's adapter says of its chunks, and of an exception. *)
Record adapter : Type := {
  adapter_format : C -> X + string;
  extract_stream_usage : C -> X + option StreamUsage;
  _streamed_text_chars : C -> Z;
  is_stream_cost_carrier : C -> bool;
  attach_cost : SettledCost -> C -> X + C;
  stream_completion : option (list C -> bool);
  sends_keepalives : bool;
  done_on_error : bool;
  incomplete_stream : nat -> X;
  failure_error_message : X -> string;
  database_failure : exn -> X
}.

Context (a : adapter).
Context (defaults : option string -> string -> Z -> option (ModelPricing * string)) (default_pricing_enabled : bool).
Context (put : UsageRow -> exn + unit).

(** The usage reported, and the text streamed, of the chunks received. *)
Definition usages (l : list C) : list StreamUsage :=
  omap (fun c => match extract_stream_usage a c with inr u => u | inl _ => None end) l.
Definition reported_usage (l : list C) : option StreamUsage := fold_left report (usages l) None.
Definition after_streaming (l : list C) (r : request) : request :=
  {| provider := provider r; provider_type := provider_type r; provider_key := provider_key r; model := model r;
     organization := organization r; prices := prices r; tables := tables r; tally := tally r; policy := policy r;
     prompt_chars := prompt_chars r; streamed_chars := foldr (fun c n => _streamed_text_chars a c + n) 0 l |}.

(** The generator of the response; [settling] keepalives pass while it settles. *)
Definition build_streaming_response (r : request) (h : option ReservationHandle) (settling : nat) (w : world)
    : @arguments C SettledCost X := {|
  Streaming.format_chunk := adapter_format a;
  Streaming.extract_usage := extract_stream_usage a;
  Streaming.on_complete := fun u =>
    match (run_quiet (_on_complete defaults default_pricing_enabled put r h u) w).1.1 with
    | inr s => inr s | inl e => inl (database_failure a e) end;
  Streaming.settling := settling;
  Streaming.on_no_usage := true;
  Streaming.on_incomplete := true;
  Streaming.is_cost_carrier := Some (is_stream_cost_carrier a);
  Streaming.attach_settlement := Some (attach_cost a);
  Streaming.completes_stream := stream_completion a;
  Streaming.keepalive := sends_keepalives a;
  Streaming.yield_done_on_error := done_on_error a;
  Streaming.IncompleteStreamError := incomplete_stream a
|}.

Definition run_callback (r : request) (h : option ReservationHandle) (reported : option StreamUsage) (c : @callback X) : prog unit :=
  match c with
  | FirstChunk => Ret tt
  | Complete u => _on_complete defaults default_pricing_enabled put r h u ;;! Ret tt
  | NoUsage => _on_no_usage defaults default_pricing_enabled put r h
  | Error e => _on_error defaults default_pricing_enabled put r h reported (failure_error_message a e)
  | Incomplete => _on_incomplete defaults default_pricing_enabled put r h reported
  end.

(** What the callbacks a run called do, in their order; the generator logs what one of them raises. *)
Definition called (l : list (@action X)) : list (@callback X) := omap (fun x => match x with Calls c => Some c | _ => None end) l.
Definition settle_stream (r : request) (h : option ReservationHandle) (g : @generator C X) : prog unit :=
  let r := after_streaming (received g) r in
  for_each (called (actions g)) (fun c => suppress (fun _ => true) (run_callback r h (reported_usage (received g)) c)).

(** *** With nothing failing *)

Context (puts : forall row, put row = inr tt).
Context (h : ReservationHandle) (i : nat) (w : world).
Context (Hid : reservation_id h = Some i) (Huser : held_nonneg (user_leg h)) (Hscoped : held_nonneg (scoped_leg h)).
Context (Hactive : row_status (db w) i = Some RESERVATION_ACTIVE).
Notation readable := (readable defaults default_pricing_enabled).

Definition runs_to (p : prog unit) (spent : option (Z * Z)) : Prop :=
  exists w', run_quiet p w = (inr tt, Clean, w') /\ hold_ended h i spent w w'.

Lemma settles_to spent : runs_to (settle_hold h spent) spent.
Proof. by apply settle_ends. Qed.

(** *** What an end owes *)

(** What the searches and calls of its tools add to a row, at the rates of the moment; [rate] is the rate of its model. *)
Definition tool_charge (r : request) (rate : option ResolvedPricing) (usage : option StreamUsage) : Z :=
  let made := with_searches r usage in
  if is_empty made then 0
  else total (price_tool_calls default_pricing_enabled (tables r) (organization r) (clock w)
                (found ← rate; each ← model_search_rate (search_rate (Some (pricing found))); Some (each, source found)) (label_calls made)).

(** What a row costs: its usage at the rate of its model, or the [held] amount it is billed instead, and its tools; no
    amount where neither is priced.  The rate of a row of no usage that did not succeed is not looked up. *)
Definition bill (r : request) (usage : option StreamUsage) (succeeded : bool) (held : option Z) : option Z :=
  let rate := if is_set usage || succeeded || is_set held then rate_at defaults default_pricing_enabled r (clock w) else None in
  let priced := fst <$> (found ← rate; mjoin (price_completion (pricing found) (gateway_usage <$> usage) succeeded)) in
  let base := match held with Some amount => if estimate_settles (pricing <$> rate) then Some amount else priced | None => priced end in
  let tools := tool_charge r rate usage in
  if tools =? 0 then base else Some (default 0 base + tools).

(** The usage an abandoned stream is billed on: what was reported, or the estimate the policy asks for. *)
Definition left_usage (r : request) (reported : option StreamUsage) : option StreamUsage :=
  match reported with
  | Some u => Some u
  | None => plain_usage <$> estimate_abandoned_stream_usage (policy r) (prompt_chars r) (streamed_chars r)
  end.

(** A cost and tokens, or, for no cost, nothing. *)
Definition settled (cost : option Z) (tok : Z) : option (Z * Z) := (fun c => (c, tok)) <$> truthy cost.

(** What each end of a stream owes of its hold. *)
Definition owes (r : request) (reported : option StreamUsage) (c : @callback X) : option (Z * Z) :=
  match c with
  | FirstChunk => None
  | Complete u => Some (default 0 (bill r (Some u) true None), Z.max (Streaming.total_tokens u) 0)
  | NoUsage =>
      if from_option (fun found => priced_per_request (columns (pricing found))) false (rate_at defaults default_pricing_enabled r (clock w))
      then Some (default 0 (bill r None true None), 0)
      else if bool_decide (policy r = "allow_free"%string) then settled (bill (unpriced r) None true None) 0
      else Some (default (estimate h) (truthy (bill (unpriced r) None (negb (bool_decide (policy r = "fail"%string))) (Some (estimate h)))),
                 token_estimate h)
  | Error _ => settled (bill (unpriced r) reported false None) (_settled_tokens reported)
  | Incomplete => settled (bill (untyped r) (left_usage r reported) false None) (_settled_tokens (left_usage r reported))
  end.

Definition every_price_reads (r : request) : Prop := readable r /\ readable (unpriced r).

Lemma resolve_quiet r : run_quiet (resolve defaults default_pricing_enabled r (clock w)) w
  = (inr (rate_at defaults default_pricing_enabled r (clock w)), Clean, w).
Proof. unfold run_quiet, resolve, rate_at. by destruct (prices r). Qed.

Lemma tools_quiet r rate usage :
  run_quiet (_apply_tool_charges default_pricing_enabled r (with_searches r usage) (clock w) rate) w = (inr (tool_charge r rate usage), Clean, w).
Proof.
  unfold run_quiet, _apply_tool_charges, tool_charge. destruct (is_empty _); [done|]. by destruct (label_calls _).
Qed.

(** Recording logs the bill. *)
Lemma record_bills r u e k o : readable r ->
  exists l, run_quiet (record_usage defaults default_pricing_enabled put r u e k o) w = (inr l, Clean, w)
  /\ logged_cost l = bill r u (negb (is_set e) && negb k) o.
Proof.
  intros Hr. unfold run_quiet, record_usage, now, bill. rewrite run_bind_quiet. cbn [run].
  set (ok := negb (is_set e) && negb k). set (looked := is_set u || ok || is_set o). rewrite run_bind_quiet.
  set (rate := if looked then rate_at defaults default_pricing_enabled r (clock w) else None).
  assert (run (if looked then resolve defaults default_pricing_enabled r (clock w) else Ret None) [] Clean w = (inr rate, Clean, w)) as ->
    by (unfold rate; destruct looked; [apply resolve_quiet|done]).
  rewrite run_bind_quiet.
  assert (exists charged, (found ← rate; mjoin (price_completion (pricing found) (gateway_usage <$> u) ok)) = charged
    /\ run (match rate with
         | Some found => match price_completion (pricing found) (gateway_usage <$> u) ok with Some charged => Ret charged | None => Raise ValueError end
         | None => Ret None end) [] Clean w = (inr charged, Clean, w)) as (charged & -> & ->).
  { destruct rate as [found|] eqn:E; [|by exists None]. cbn [mbind option_bind].
    destruct (price_completion (pricing found) (gateway_usage <$> u) ok) as [c|] eqn:Ec; [by exists c|].
    unfold rate in E. destruct looked; [by destruct (Hr _ _ _ _ E Ec)|done]. }
  rewrite run_bind_quiet. pose proof (tools_quiet r rate u) as Ht. unfold run_quiet in Ht. rewrite Ht, run_bind_quiet, puts. cbn [of_reply run].
  eexists. split; [done|]. cbn [logged_cost]. by destruct (tool_charge r rate u =? 0).
Qed.

(** Nothing used and no tool run, nothing owed. *)
Lemma unused_is_free r : is_empty (tally r) = true -> bill r None false None = None.
Proof. intros Ht. unfold bill, tool_charge. cbn [is_set orb with_searches]. by rewrite Ht. Qed.

(** *** Each callback *)

Lemma recorded_to r u e k o (f : LoggedUsage -> prog unit) spent :
  readable r -> (forall l, logged_cost l = bill r u (negb (is_set e) && negb k) o -> runs_to (f l) spent) ->
  runs_to (let! logged := record_usage defaults default_pricing_enabled put r u e k o in f logged) spent.
Proof.
  intros Hr Hf. destruct (record_bills r u e k o Hr) as (l & Hl & Hb). destruct (Hf l Hb) as (w' & Hw & He).
  exists w'. split; [|done]. unfold run_quiet in *. by rewrite run_bind_quiet, Hl.
Qed.

(** A cost, or none: reconciled, or refunded. *)
Lemma truthy_to (cost : option Z) tok :
  runs_to (match truthy cost with Some c => reconcile_reservation h c tok | None => refund_reservation h end) (settled cost tok).
Proof. unfold settled. destruct (truthy cost) as [c|]; [apply (settles_to (Some (c, tok)))|apply (settles_to None)]. Qed.

Lemma complete_to r reported u :
  readable r -> runs_to (_on_complete defaults default_pricing_enabled put r (Some h) u ;;! Ret tt) (owes r reported (Complete u)).
Proof.
  intros Hr. destruct (record_bills r (Some u) None false None Hr) as (l & Hl & Hb). cbn [owes]. change (negb (is_set None) && negb false) with true in Hb.
  destruct (settles_to (Some (default 0 (logged_cost l), _settled_tokens (Some u)))) as (w' & Hw & He).
  exists w'. split; [|by rewrite <- Hb]. unfold run_quiet in *.
  unfold _on_complete. rewrite !run_bind_quiet, run_attempt, Hl. rewrite run_bind_quiet, run_try_quiet.
  cbn [settle_hold] in Hw. by rewrite Hw.
Qed.

Lemma no_usage_to r reported :
  every_price_reads r -> runs_to (_on_no_usage defaults default_pricing_enabled put r (Some h)) (owes r reported NoUsage).
Proof.
  intros [Hr Hr']. unfold _on_no_usage, bills_per_request, now. cbn [owes].
  assert (forall (f : bool -> prog unit) spent,
            runs_to (f (from_option (fun found => priced_per_request (columns (pricing found))) false (rate_at defaults default_pricing_enabled r (clock w)))) spent ->
            runs_to (bind (bind (Now Ret) (fun as_of => let! resolved := resolve defaults default_pricing_enabled r as_of in
              Ret (match resolved with Some found => priced_per_request (columns (pricing found)) | None => false end))) f) spent) as Hbind.
  { intros f spent (w' & Hw & He). exists w'. split; [|done]. unfold run_quiet in *. rewrite !run_bind_quiet. cbn [run]. rewrite run_bind_quiet.
    pose proof (resolve_quiet r) as Hq. unfold run_quiet in Hq. rewrite Hq. by destruct (rate_at _ _ r (clock w)). }
  apply Hbind. destruct (from_option _ false _).
  - apply recorded_to; [done|]. intros l Hl. rewrite Hl. apply (settles_to (Some (_, 0))).
  - case_bool_decide.
    + apply recorded_to; [done|]. intros l Hl. rewrite Hl. apply truthy_to.
    + set (e := if bool_decide (policy r = "fail"%string) then Some "stream completed without usage data"%string else None).
      destruct (record_bills (unpriced r) None e false (Some (estimate h)) Hr') as (l & Hl & Hb).
      assert (negb (is_set e) && negb false = negb (bool_decide (policy r = "fail"%string))) as E by (unfold e; by case_bool_decide).
      rewrite E in Hb. rewrite <- Hb.
      destruct (settles_to (Some (default (estimate h) (truthy (logged_cost l)), token_estimate h))) as (w' & Hw & He).
      exists w'. split; [|done]. unfold run_quiet in *. rewrite run_bind_quiet, run_try_quiet. by rewrite Hl.
Qed.

Lemma error_to r reported (e : X) :
  every_price_reads r -> runs_to (_on_error defaults default_pricing_enabled put r (Some h) reported (failure_error_message a e)) (owes r reported (Error e)).
Proof. intros [_ Hr]. apply recorded_to; [done|]. intros l ->. apply truthy_to. Qed.

Lemma incomplete_to r reported :
  every_price_reads r -> runs_to (_on_incomplete defaults default_pricing_enabled put r (Some h) reported) (owes r reported Incomplete).
Proof.
  intros [Hr _]. unfold _on_incomplete. cbn [owes].
  assert (match abandoned_row r reported with
    | Some (usage, incomplete, error) => usage = left_usage r reported /\ negb (is_set error) && negb incomplete = false
    | None => left_usage r reported = None /\ is_empty (tally r) = true end) as Ha.
  { unfold abandoned_row, settle_abandoned_stream, left_usage. destruct reported as [u|]; cbn [is_set fmap option_fmap option_map].
    - rewrite orb_true_r. by cbn.
    - destruct (estimate_abandoned_stream_usage _ _ _) as [n|], (is_empty (tally r)); by cbn. }
  destruct (abandoned_row r reported) as [[[u k] e]|]; destruct Ha as [Hu Hk].
  - rewrite <- Hu. apply recorded_to; [done|]. intros l ->. rewrite Hk. apply truthy_to.
  - rewrite Hu, unused_is_free by done. apply (settles_to None).
Qed.

(** *** A run *)

Lemma called_cons (y : @action X) l : called (y :: l) = match y with Calls c => c :: called l | _ => called l end.
Proof. by destruct y. Qed.

Lemma called_first l f :
  (forall x w', run (f FirstChunk) [] x w' = (inr tt, x, w')) ->
  forall x w', run (for_each (called l) f) [] x w' = run (for_each (called (settlements l)) f) [] x w'.
Proof.
  intros Hf. unfold settlements. induction l as [|y l IH]; intros x w'; [done|]. rewrite called_cons. cbn [List.filter].
  destruct y as [| | | |[]|]; cbn [is_settlement]; rewrite ?called_cons; try apply IH; cbn [for_each]; rewrite !run_bind_quiet, ?Hf; try apply IH.
  all: destruct (run (f _) [] x w') as [[[?|?] ?] ?]; [done|apply IH].
Qed.

(** C3: a streamed response ends the hold of its request exactly once, and gives all of it back, however the stream ends:
    whatever the upstream sends, fails at or leaves out and whenever the client leaves.  What it spends is what that end
    [owes], with nothing failing in the database: a stream the upstream ended, with usage, the bill of the usage its
    chunks reported together, and its tokens; one it ended without, the request price, nothing where that is free, or
    what it held; one that failed, as the client was told, or that the client left, the bill of what was reported or, under the policy for it, of
    the estimate, so nothing where nothing was reported and no tool ran. *)
Theorem streamed_request_settles_once r settling script frames :
  every_price_reads r ->
  exists c : @callback X,
    let '(_, g) := streaming_generator (build_streaming_response r (Some h) settling w) script frames in
    let spent := owes (after_streaming (received g) r) (reported_usage (received g)) c in
    settlements (actions g) = [Calls c] /\ runs_to (settle_stream r (Some h) g) spent
    /\ match c with
       | Complete u => ends script = true /\ reported (build_streaming_response r (Some h) settling w) (chunks_of script) <> []
           /\ u = merged (build_streaming_response r (Some h) settling w) (chunks_of script)
       | NoUsage => ends script = true /\ reported (build_streaming_response r (Some h) settling w) (chunks_of script) = []
       | Error e => In (ErrorEvent e) (actions g) /\ (reported_usage (received g) = None -> is_empty (tally r) = true -> spent = None)
       | Incomplete => reported_usage (received g) = None -> is_empty (tally r) = true -> policy r <> "estimate"%string -> spent = None
       | FirstChunk => False
       end.
Proof.
  intros Hr. destruct (settles_once (build_streaming_response r (Some h) settling w) script frames eq_refl eq_refl) as (before & c & H).
  destruct (streaming_generator _ script frames) as [res g]. destruct H as (_ & Hset & Hv). exists c. cbn zeta.
  set (r' := after_streaming (received g) r). assert (every_price_reads r') as Hr' by exact Hr.
  assert (forall spent, runs_to (run_callback r' (Some h) (reported_usage (received g)) c) spent -> runs_to (settle_stream r (Some h) g) spent) as Hrun.
  { intros spent (w' & Hw & He). exists w'. split; [|done]. unfold run_quiet, settle_stream in *. rewrite called_first by done.
    rewrite Hset. cbn [called omap list_omap for_each]. rewrite run_bind_quiet. unfold suppress. rewrite run_try_quiet. fold r'. by rewrite Hw. }
  destruct c as [|u| |e|]; [done|..]; (split; [done|split; [apply Hrun|]]).
  - apply complete_to, Hr'.
  - by destruct Hv as (? & _ & ? & ->).
  - by apply no_usage_to.
  - by destruct Hv as (? & _ & ?).
  - by apply error_to.
  - split; [done|]. intros Hu Ht. cbn [owes]. unfold settled. by rewrite Hu, unused_is_free.
  - by apply incomplete_to.
  - intros Hu Ht Hp. cbn [owes]. unfold settled, left_usage, estimate_abandoned_stream_usage.
    rewrite Hu, bool_decide_eq_false_2 by done. by rewrite unused_is_free.
Qed.
End response.

(** ** Ann's stream *)

(** Ten dollars a million tokens in, twenty out. *)
Definition token_rate : ModelPricing :=
  mkModelPricing (mkPricing (Some "p:chat"%string) None (Number 10) (Number 20) NoNumber NoNumber None) None.
Definition writes_row (_ : UsageRow) : exn + unit := inr tt.
Definition no_defaults (_ : option string) (_ : string) (_ : Z) : option (ModelPricing * string) := None.

Definition ann_stream : request := {|
  provider := "p"; provider_type := Some "p"; provider_key := "p"; model := "chat"; organization := None;
  prices := Some (Some (mkResolved token_rate DeploymentSource (Some "p:chat") (Some 0)));
  tables := mkTables [] [mkPriceRow MODEL_KIND "p:chat" 0 token_rate]; tally := empty_tally; policy := "estimate";
  prompt_chars := Some 40; streamed_chars := 0 |}%string.

Definition chat_adapter : @adapter (string * option StreamUsage) string := {|
  adapter_format := fun c => inr ("data: " ++ c.1)%string;
  extract_stream_usage := fun c => inr c.2;
  _streamed_text_chars := fun c => Z.of_nat (String.length c.1);
  is_stream_cost_carrier := fun c => match c.2 with Some _ => true | None => false end;
  attach_cost := fun s c => inr c;
  stream_completion := None;
  sends_keepalives := true;
  done_on_error := true;
  incomplete_stream := fun _ => "incomplete"%string;
  failure_error_message := fun e => e;
  database_failure := fun _ => "database"%string
|}.

Lemma token_rate_reads (u : option GatewayUsage) b : price_completion token_rate u b <> None.
Proof.
  unfold price_completion. change (priced_per_request (columns token_rate)) with false. destruct u as [u|]; [|done].
  change (has_completion_meter (Some token_rate)) with true. unfold calculate_metered_cost, price_billable_usage, price_meters.
  generalize (billable_usage_of u). intros v. change (effective_rates (columns token_rate) (total_input_tokens v)) with (Some (mkRates 10 20 None None None)).
  done.
Qed.

Lemma ann_stream_reads : every_price_reads no_defaults false ann_stream.
Proof.
  split; intros t found u b; [intros [= <-]; apply token_rate_reads|].
  assert (rate_at no_defaults false (unpriced ann_stream) t
          = if 0 <=? t then Some (mkResolved token_rate DeploymentSource (Some "p:chat"%string) (Some 0)) else None) as ->
    by (destruct t; vm_compute; reflexivity).
  destruct (0 <=? t); [|done]. intros [= <-]. apply token_rate_reads.
Qed.

Lemma ann_legs : held_nonneg (user_leg ann_handle) /\ held_nonneg (scoped_leg ann_handle).
Proof. split; apply mkHeld_nonneg; vm_compute; congruence. Qed.

Definition ann_settling : @arguments (string * option StreamUsage) SettledCost string :=
  build_streaming_response chat_adapter no_defaults false writes_row ann_stream (Some ann_handle) 1 ann_world.

Lemma streamed_request_settles_once_witness :
  (let g := (streaming_generator ann_settling chat_script None).2 in
   settlements (actions g) = [Calls (Complete (mkUsage 5 2 7 0 0 0 true 0 0))]
   /\ counter_used (db (run_quiet (settle_stream chat_adapter no_defaults false writes_row ann_stream (Some ann_handle) g) ann_world).2) (CUser "ann")
      = Some (mkHeld 90 7 1))
  /\ exists c : @callback string,
    let '(_, g) := streaming_generator ann_settling chat_script None in
    settlements (actions g) = [Calls c]
    /\ runs_to ann_handle 0 ann_world (settle_stream chat_adapter no_defaults false writes_row ann_stream (Some ann_handle) g)
         (owes no_defaults false ann_handle ann_world (after_streaming chat_adapter (received g) ann_stream)
            (reported_usage chat_adapter (received g)) c).
Proof.
  split; [by vm_compute|]. destruct ann_legs as [Hu Hs].
  destruct (streamed_request_settles_once chat_adapter no_defaults false writes_row (fun _ => eq_refl) ann_handle 0 ann_world
    eq_refl Hu Hs eq_refl ann_stream 1 chat_script None ann_stream_reads) as (c & H).
  exists c. unfold ann_settling. destruct (streaming_generator _ chat_script None) as [res g]. destruct H as (H1 & H2 & _). by split.
Defined.

Lemma completion_survives_a_fault_witness :
  let u := mkUsage 5 2 7 0 0 0 true 0 0 in
  (** The commit of the settlement lands and says it failed. *)
  let '(res, _, w') := run (_on_complete no_defaults false writes_row ann_stream (Some ann_handle) u)
                         [NoFault; NoFault; NoFault; Landed] Clean ann_world in
  counter_used (db w') (CUser "ann") = Some (mkHeld 90 7 1)
  /\ ((exists s, res = inr s)
      /\ (w' = ann_world /\ (2 <= 1)%nat
          \/ exists spent, for_tokens (_settled_tokens (Some u)) spent /\ hold_ended ann_handle 0 spent ann_world w')).
Proof.
  destruct ann_legs as [Hu Hs]. cbv zeta.
  pose proof (completion_survives_a_fault no_defaults false writes_row (fun _ => eq_refl) ann_stream ann_handle
    (mkUsage 5 2 7 0 0 0 true 0 0) 0 ann_world [NoFault; NoFault; NoFault; Landed] (proj1 ann_stream_reads) eq_refl Hu Hs eq_refl) as H.
  assert (counter_used (db (run (_on_complete no_defaults false writes_row ann_stream (Some ann_handle) (mkUsage 5 2 7 0 0 0 true 0 0))
                         [NoFault; NoFault; NoFault; Landed] Clean ann_world).2) (CUser "ann") = Some (mkHeld 90 7 1)) as Hc by by vm_compute.
  destruct (run _ _ Clean ann_world) as [[res x] w']. by split.
Defined.

Lemma unread_rate_keeps_the_hold_witness :
  (run (_on_no_usage no_defaults false writes_row ann_stream (Some ann_handle)) [Fails] Clean ann_world).2 = ann_world
  /\ row_status (db ann_world) 0 = Some RESERVATION_ACTIVE.
Proof. split; [|done]. by apply (unread_rate_keeps_the_hold no_defaults false writes_row ann_stream ann_handle ann_world [] (prices ann_stream ≫= id)). Defined.
