(* ===== verification/LogWriters.v ===== *)
(** The writers of usage rows, [services/log_writer.py]: one row a transaction, or a queue a background task writes in
    batches, retried and salvaged row by row; and the two wrappers that tell a trace and a port of each row.

    The batch writer is a machine: a step is one thing its task, its stop or a request does between two waits.  Its
    queue is touched by whoever runs, so requests put rows between any two steps. *)
From Stdlib Require Import ZArith QArith Lia String.
From stdpp Require Import base strings list option sets.
From S2P Require Import Prelude MeteredPricing.

Local Open Scope string_scope.
Local Open Scope Z_scope.

Definition SERVED_HERE_SLUG : string := "gateway".
Definition PLAYGROUND_USAGE_ENDPOINT : string := "/v1/playground/chat/completions".

(** ** Rows and what is told of them *)

(** The columns of a usage row the writers read; [None] also where a row does not set one. *)
Record UsageLog := mkLog {
  id : string;
  request_group_id : option string;
  timestamp : Z;
  workspace_id : string;
  user_id : option string;
  api_key_id : option string;
  provider : option string;
  model : string;
  endpoint : string;
  source : option string;
  status : string;
  status_code : option Z;
  log_prompt_tokens : option Z;
  log_completion_tokens : option Z;
  log_total_tokens : option Z;
  log_cache_read_tokens : option Z;
  log_cache_write_tokens : option Z;
  log_cache_tokens_in_prompt : option bool;
  log_reasoning_tokens : option Z;
  cost : option Q;
  latency_ms : option Z;
  deployment_paid : option bool;
  policy_name : option string;
  selection_reason : option string;
  attempt_position : option Z
}.

Record RecordedUsage := mkRecorded {
  usage_id : string;
  recorded_group : option string;
  recorded_at : Z;
  recorded_workspace : string;
  recorded_user : option string;
  recorded_key : option string;
  recorded_provider : option string;
  recorded_model : string;
  recorded_endpoint : string;
  recorded_source : string;
  recorded_status : string;
  recorded_status_code : option Z;
  recorded_prompt_tokens : option Z;
  recorded_completion_tokens : option Z;
  recorded_total_tokens : option Z;
  recorded_cost : option Q;
  recorded_latency_ms : option Z;
  integration_traffic : bool;
  recorded_deployment_paid : bool
}.

Definition _integration_traffic (source endpoint : string) : bool :=
  bool_decide (source = SERVED_HERE_SLUG) && negb (bool_decide (endpoint = PLAYGROUND_USAGE_ENDPOINT)).

Definition recorded_usage (log : UsageLog) : RecordedUsage :=
  let source := default SERVED_HERE_SLUG (source log) in
  {| usage_id := id log; recorded_group := request_group_id log; recorded_at := timestamp log;
     recorded_workspace := workspace_id log; recorded_user := user_id log; recorded_key := api_key_id log;
     recorded_provider := provider log; recorded_model := model log; recorded_endpoint := endpoint log;
     recorded_source := source; recorded_status := status log; recorded_status_code := status_code log;
     recorded_prompt_tokens := log_prompt_tokens log; recorded_completion_tokens := log_completion_tokens log;
     recorded_total_tokens := log_total_tokens log; recorded_cost := cost log; recorded_latency_ms := latency_ms log;
     integration_traffic := _integration_traffic source (endpoint log);
     recorded_deployment_paid := default false (deployment_paid log) |}.

Record LlmCall := mkLlmCall {
  attempt_id : string;
  ended : Z;
  call_latency_ms : option Z;
  call_status : string;
  call_status_code : option Z;
  call_model : string;
  call_provider : option string;
  call_input_tokens : option Z;
  call_output_tokens : option Z;
  call_cost : option Q;
  call_cache_read_tokens : option Z;
  call_cache_write_tokens : option Z;
  call_reasoning_tokens : option Z;
  call_policy_name : option string;
  call_selection_reason : option string;
  call_attempt_position : option Z
}.

Definition _llm_call (log : UsageLog) : LlmCall :=
  let tokens := billable_usage (default 0 (log_prompt_tokens log)) (default 0 (log_completion_tokens log))
    (default false (log_cache_tokens_in_prompt log)) (default 0 (log_cache_read_tokens log))
    (default 0 (log_cache_write_tokens log)) 0 in
  {| attempt_id := id log; ended := timestamp log; call_latency_ms := latency_ms log; call_status := status log;
     call_status_code := status_code log; call_model := model log; call_provider := provider log;
     call_input_tokens := (fun _ => total_input_tokens tokens) <$> log_prompt_tokens log;
     call_output_tokens := log_completion_tokens log; call_cost := cost log;
     call_cache_read_tokens := (fun _ => cache_read_tokens tokens) <$> log_cache_read_tokens log;
     call_cache_write_tokens := (fun _ => cache_write_tokens tokens) <$> log_cache_write_tokens log;
     call_reasoning_tokens := log_reasoning_tokens log; call_policy_name := policy_name log;
     call_selection_reason := selection_reason log; call_attempt_position := attempt_position log |}.

(** ** One write *)

(** How a transaction that adds rows may end: committed; refused for what the rows hold; the database out of reach;
    committed although the commit raised; or with an exception that is none of the database's. *)
Inductive outcome := Commits | RefusesRows | Unreachable | CommitsUnheard | Raises.

(** What [_write] raises: one of [DATA_ERRORS], another of [DATABASE_ERRORS], or anything else. *)
Inductive raised := DataError | DatabaseError | OtherError.

(** The rows the table has, and whether it takes [rows]: an id is a primary key. *)
Definition takes (db rows : list UsageLog) : bool :=
  bool_decide (NoDup (id <$> rows)) && forallb (fun row => bool_decide (id row ∉ id <$> db)) rows.

(** The table after it and what it raised; [None] where [o] cannot happen. *)
Definition _write (rows : list UsageLog) (o : outcome) (db : list UsageLog) : option (list UsageLog * option raised) :=
  match o with
  | Commits => if takes db rows then Some ((db ++ rows)%list, None) else None
  | CommitsUnheard => if takes db rows then Some ((db ++ rows)%list, Some DatabaseError) else None
  | RefusesRows => Some (db, Some DataError)
  | Unreachable => Some (db, Some DatabaseError)
  | Raises => Some (db, Some OtherError)
  end.

(** ** The batch writer *)

Record settings := mkSettings { max_batch : nat; max_queue : nat; retries : nat }.
Definition default_settings : settings := mkSettings 100 10000 3.

(** Where [_flush] waits: in a write of the whole batch, between two of them, or in [_salvage] in a write of the first of
    these rows. *)
Inductive flush := Writing (attempt : nat) | Sleeping (attempt : nat) | Salvaging (rest : list UsageLog).

(** Where [_run] waits: it has ended, waits on the queue, or flushes. *)
Inductive loop := NoTask | Collecting | Flushing (batch : list UsageLog) (f : flush).

(** Where [stop] is: not called, waiting for the task, or flushing the first of these chunks; [spent] once its timeout
    has fired.  It has returned at [Stopped], and raised at [StopFailed]. *)
Inductive stopping :=
| Serving
| AwaitingTask (spent : bool)
| Draining (chunk : list UsageLog) (f : flush) (chunks : list (list UsageLog)) (spent : bool)
| Stopped
| StopFailed.

Record writer := mkWriter {
  queue : list UsageLog;
  task : loop;
  stop_at : stopping;
  _taken : nat;
  usage_logs : list UsageLog;
  rows_written : nat;
  rows_dropped : nat
}.

Definition created : writer := mkWriter [] NoTask Serving 0 [] 0 0.

Definition with_queue (q : list UsageLog) (w : writer) : writer :=
  mkWriter q (task w) (stop_at w) (_taken w) (usage_logs w) (rows_written w) (rows_dropped w).
Definition with_task (t : loop) (w : writer) : writer :=
  mkWriter (queue w) t (stop_at w) (_taken w) (usage_logs w) (rows_written w) (rows_dropped w).
Definition with_stop (s : stopping) (w : writer) : writer :=
  mkWriter (queue w) (task w) s (_taken w) (usage_logs w) (rows_written w) (rows_dropped w).
Definition with_taken (n : nat) (w : writer) : writer :=
  mkWriter (queue w) (task w) (stop_at w) n (usage_logs w) (rows_written w) (rows_dropped w).
Definition with_table (db : list UsageLog) (w : writer) : writer :=
  mkWriter (queue w) (task w) (stop_at w) (_taken w) db (rows_written w) (rows_dropped w).
Definition counts_written (n : nat) (w : writer) : writer :=
  mkWriter (queue w) (task w) (stop_at w) (_taken w) (usage_logs w) (rows_written w + n) (rows_dropped w).
Definition counts_dropped (n : nat) (w : writer) : writer :=
  mkWriter (queue w) (task w) (stop_at w) (_taken w) (usage_logs w) (rows_written w) (rows_dropped w + n).

(** [asyncio.Queue] is full at [maxsize] rows, never where that is zero. *)
Definition full (c : settings) (w : writer) : bool := (0 <? max_queue c)%nat && (max_queue c <=? length (queue w))%nat.

Definition put (c : settings) (log : UsageLog) (w : writer) : bool * writer :=
  if full c w then (false, counts_dropped 1 w) else (true, with_queue (queue w ++ [log]) w).

(** *** [_flush] and [_salvage] *)

(** What the caller of [_flush] learns of a step of it. *)
Inductive progress := Waits (f : flush) | Returned | RaisedOut.

Definition _salvage (rest : list UsageLog) : progress :=
  match rest with [] => Returned | _ => Waits (Salvaging rest) end.

(** The wait in [f] ends with [o]. *)
Definition _flush (c : settings) (batch : list UsageLog) (f : flush) (o : outcome) (w : writer) : option (writer * progress) :=
  match f with
  | Sleeping _ => None
  | Writing attempt =>
      match _write batch o (usage_logs w) with
      | None => None
      | Some (db, None) => Some (counts_written (length batch) (with_table db w), Returned)
      | Some (db, Some DataError) => Some (with_table db w, _salvage batch)
      | Some (db, Some DatabaseError) =>
          if (attempt <? retries c)%nat then Some (with_table db w, Waits (Sleeping attempt))
          else Some (counts_dropped (length batch) (with_table db w), Returned)
      | Some (db, Some OtherError) => Some (with_table db w, RaisedOut)
      end
  | Salvaging [] => None
  | Salvaging (log :: rest) =>
      match _write [log] o (usage_logs w) with
      | None => None
      | Some (db, None) => Some (counts_written 1 (with_table db w), _salvage rest)
      | Some (db, Some OtherError) => Some (with_table db w, RaisedOut)
      | Some (db, Some _) => Some (counts_dropped 1 (with_table db w), _salvage rest)
      end
  end.

(** *** [_run] *)

Definition stop_called (w : writer) : bool := match stop_at w with Serving => false | _ => true end.

(** The [while] of [_run]. *)
Definition again (w : writer) : writer := with_task (if stop_called w then NoTask else Collecting) w.

(** The queue has a row: it and what follows it, up to a batch; then the first write of their flush. *)
Definition _collect_batch (c : settings) (w : writer) : writer :=
  let batch := take (Nat.max 1 (max_batch c)) (queue w) in
  with_task (Flushing batch (Writing 0))
    (with_taken (_taken w + length batch) (with_queue (drop (Nat.max 1 (max_batch c)) (queue w)) w)).

Definition after_flush (batch : list UsageLog) (r : writer * progress) : writer :=
  match r with
  | (w, Waits f) => with_task (Flushing batch f) w
  | (w, Returned) => again (with_taken (_taken w - length batch) w)
  | (w, RaisedOut) => again w
  end.

(** *** [stop] *)

(** What is left is counted as dropped. *)
Definition gives_up (w : writer) : writer :=
  let lost := (length (queue w) + _taken w)%nat in
  let w := if (0 <? lost)%nat then counts_dropped lost (with_taken 0 w) else w in
  with_stop Stopped w.

(** [batch[offset : offset + n]], for every [n]-th offset. *)
Fixpoint chunks_of (n fuel : nat) (batch : list UsageLog) : list (list UsageLog) :=
  match fuel, batch with
  | S fuel, _ :: _ => take n batch :: chunks_of n fuel (drop n batch)
  | _, _ => []
  end.

Definition flush_next (chunks : list (list UsageLog)) (spent : bool) (w : writer) : writer :=
  match chunks with
  | [] => gives_up w
  | chunk :: chunks => with_stop (Draining chunk (Writing 0) chunks spent) w
  end.

(** The rest of [_drain], once the task has ended. *)
Definition _flush_all (c : settings) (spent : bool) (w : writer) : writer :=
  flush_next (chunks_of (max_batch c) (length (queue w)) (queue w)) spent
    (with_taken (_taken w + length (queue w)) (with_queue [] w)).

Definition after_chunk (chunk : list UsageLog) (chunks : list (list UsageLog)) (spent : bool) (r : writer * progress) : writer :=
  match r with
  | (w, Waits f) => with_stop (Draining chunk f chunks spent) w
  | (w, Returned) => flush_next chunks spent (with_taken (_taken w - length chunk) w)
  | (w, RaisedOut) => with_stop StopFailed w
  end.

(** *** Steps *)

(** A cancelled flush: what it was writing may have landed. *)
Definition cancelled (batch : list UsageLog) (f : flush) (landed : bool) (w : writer) : option writer :=
  if negb landed then Some w
  else
    let rows := match f with Writing _ => batch | Sleeping _ => [] | Salvaging rest => take 1 rest end in
    if takes (usage_logs w) rows then Some (with_table (usage_logs w ++ rows) w) else None.

(** A request puts a row; [start] and [stop] are called; the queue wakes the task; a write ends; a backoff ends; the drain
    goes on after the task; the timeout of [stop] fires. *)
Inductive event :=
| Puts (log : UsageLog) | Starts | Stops | Collects | WriteEnds (o : outcome) | BackoffEnds | TaskEnded
| TimesOut (landed : bool).

Definition on_write (c : settings) (o : outcome) (w : writer) : option writer :=
  match task w, stop_at w with
  | Flushing batch f, _ => after_flush batch <$> _flush c batch f o w
  | _, Draining chunk f chunks spent => after_chunk chunk chunks spent <$> _flush c chunk f o w
  | _, _ => None
  end.

Definition on_backoff (w : writer) : option writer :=
  match task w, stop_at w with
  | Flushing batch (Sleeping attempt), _ => Some (with_task (Flushing batch (Writing (S attempt))) w)
  | _, Draining chunk (Sleeping attempt) chunks spent => Some (with_stop (Draining chunk (Writing (S attempt)) chunks spent) w)
  | _, _ => None
  end.

(** [stop] of a task that waits on the queue cancels it. *)
Definition on_stop (w : writer) : option writer :=
  match stop_at w, task w with
  | Serving, Collecting => Some (with_stop (AwaitingTask false) (with_task NoTask w))
  | Serving, _ => Some (with_stop (AwaitingTask false) w)
  | _, _ => None
  end.

(** The timeout cancels what [stop] waits for.  That is the task, which ends quietly, so that the drain goes on; or a
    flush of its own, which ends the drain. *)
Definition on_timeout (landed : bool) (w : writer) : option writer :=
  match stop_at w, task w with
  | AwaitingTask false, Flushing batch f =>
      with_stop (AwaitingTask true) ∘ with_task NoTask <$> cancelled batch f landed w
  | AwaitingTask false, _ => if landed then None else Some (with_stop (AwaitingTask true) w)
  | Draining chunk f _ false, _ => gives_up <$> cancelled chunk f landed w
  | _, _ => None
  end.

Definition step (c : settings) (e : event) (w : writer) : option writer :=
  match e with
  | Puts log => Some (put c log w).2
  | Starts =>
      match task w, stop_at w with
      | NoTask, (Serving | Stopped | StopFailed) => Some (with_task Collecting (with_stop Serving w))
      | _, _ => None
      end
  | Stops => on_stop w
  | Collects => match task w, queue w with Collecting, _ :: _ => Some (_collect_batch c w) | _, _ => None end
  | WriteEnds o => on_write c o w
  | BackoffEnds => on_backoff w
  | TaskEnded => match task w, stop_at w with NoTask, AwaitingTask spent => Some (_flush_all c spent w) | _, _ => None end
  | TimesOut landed => on_timeout landed w
  end.

Fixpoint run (c : settings) (es : list event) (w : writer) : option writer :=
  match es with
  | [] => Some w
  | e :: es => match step c e w with Some w => run c es w | None => None end
  end.

(** ** The other writers *)

(** What every writer promises a request: [put] says whether it accepted the row, or raises. *)
Class LogWriter (S : Type) := put_row : UsageLog -> S -> result raised bool * S.

#[export] Instance BatchLogWriter (c : settings) : LogWriter writer := fun log w => let '(b, w) := put c log w in (Ok b, w).

Module Single.
(** The table, how each write will end, and the counters. *)
Record writer := mkSingle { table : list UsageLog; ends : list outcome; written : nat; dropped : nat }.

(** Where no end is given, or the one given cannot be, the database is out of reach. *)
Definition put (log : UsageLog) (w : writer) : result raised bool * writer :=
  let o := default Unreachable (head (ends w)) in
  match default (table w, Some DatabaseError) (_write [log] o (table w)) with
  | (db, None) => (Ok true, mkSingle db (tail (ends w)) (written w + 1) (dropped w))
  | (db, Some OtherError) => (Err OtherError, mkSingle db (tail (ends w)) (written w) (dropped w))
  | (db, Some _) => (Ok false, mkSingle db (tail (ends w)) (written w) (dropped w + 1))
  end.
End Single.

#[export] Instance SingleLogWriter : LogWriter Single.writer := Single.put.

Section Wrappers.
Context {S : Type} `{inner : !LogWriter S}.

(** The wrapped writer, and the calls each request's trace was handed. *)
Definition traced : Type := S * list (string * LlmCall).

(** [traces] says which requests have a trace, and [takes_call] whether one takes the call or raises. *)
Definition tracing (traces : string -> bool) (takes_call : LlmCall -> bool) : LogWriter traced := fun log '(s, calls) =>
  let calls :=
    match request_group_id log with
    | Some group => if traces group && takes_call (_llm_call log) then (calls ++ [(group, _llm_call log)])%list else calls
    | None => calls
    end in
  let '(r, s) := put_row log s in (r, (s, calls)).

(** The wrapped writer, and what the port was told. *)
Definition signaled : Type := S * list RecordedUsage.

Definition signaling : LogWriter signaled := fun log '(s, told) =>
  let usage := recorded_usage log in
  match put_row log s with
  | (Ok true, s) => (Ok true, (s, (told ++ [usage])%list))
  | (r, s) => (r, (s, told))
  end.
End Wrappers.
