(* ===== verification/LogWritersProofs.v ===== *)
(** The batch writer of usage rows loses no row it does not count and writes none twice, whatever the database answers
    and whenever it is stopped; and stopping ends. *)
From Stdlib Require Import ZArith Lia String.
From stdpp Require Import base strings list option sets.
From S2P Require Import Prelude LogWriters.

Local Open Scope nat_scope.

(** ** What a flush still holds *)

Definition unsettled (batch : list UsageLog) (f : flush) : list UsageLog :=
  match f with Salvaging rest => rest | _ => batch end.

(** What a step of a flush of [batch] leaves of it. *)
Definition remaining (batch : list UsageLog) (p : progress) : list UsageLog :=
  match p with Waits f => unsettled batch f | _ => [] end.

(** ** The order of the table *)

(** [db] holds rows in the order of [settled] and then [u], each id once; nothing of [u], or all of it. *)
Definition written_in (settled u db : list UsageLog) : Prop :=
  db `sublist_of` settled ++ u /\ NoDup (id <$> db) /\ (db `sublist_of` settled \/ forall log, log ∈ u -> id log ∈ id <$> db).

Lemma takes_spec db rows : takes db rows = true ->
  NoDup (id <$> rows) /\ forall log, log ∈ rows -> id log ∉ id <$> db.
Proof.
  unfold takes. intros [H1 H2]%andb_prop. split; [by apply bool_decide_eq_true in H1|].
  intros log Hlog. rewrite forallb_forall in H2. specialize (H2 log ltac:(by apply list_elem_of_In)).
  by apply bool_decide_eq_true in H2.
Qed.

Lemma takes_nodup db rows : takes db rows = true -> NoDup (id <$> db) -> NoDup (id <$> db ++ rows).
Proof.
  intros [Hn Hf]%takes_spec Hdb. rewrite fmap_app. apply NoDup_app. split; [done|]. split; [|done].
  intros x Hx (log & -> & Hlog)%list_elem_of_fmap. by apply (Hf log).
Qed.

(** Rows at the front of [u] the table takes were not in it. *)
Lemma written_in_takes settled rows u db : written_in settled (rows ++ u) db -> takes db rows = true -> rows <> [] ->
  db `sublist_of` settled.
Proof.
  intros (_ & _ & [?|H]) [_ Hf]%takes_spec Hne; [done|]. destruct rows as [|log rows]; [done|].
  exfalso. apply (Hf log); [by left|]. apply H. by left.
Qed.

Lemma written_in_forgets settled more u db : written_in settled (more ++ u) db -> written_in (settled ++ more) u db.
Proof.
  intros (H1 & H2 & H3). rewrite app_assoc in H1. split; [done|]. split; [done|].
  destruct H3 as [?|H3]; [left; by apply sublist_inserts_r|]. right. intros log ?. apply H3. by apply elem_of_app; right.
Qed.

Lemma written_in_commits settled rows u db : written_in settled (rows ++ u) db -> takes db rows = true ->
  written_in (settled ++ rows) u (db ++ rows).
Proof.
  intros H Ht. destruct (decide (rows = [])) as [->|Hne].
  { rewrite !app_nil_r. done. }
  pose proof (written_in_takes _ _ _ _ H Ht Hne) as Hs. destruct H as (_ & Hn & _).
  assert ((db ++ rows) `sublist_of` (settled ++ rows)) by by apply sublist_app.
  split; [by apply sublist_inserts_r|]. split; [by apply takes_nodup|by left].
Qed.

(** A write of all of [u] that lands unheard. *)
Lemma written_in_lands settled u db : written_in settled u db -> takes db u = true -> written_in settled u (db ++ u).
Proof.
  intros H Ht. destruct (decide (u = [])) as [->|Hne]; [by rewrite app_nil_r|].
  rewrite <- (app_nil_r u) in H. pose proof (written_in_takes _ _ _ _ H Ht Hne) as Hs. destruct H as (_ & Hn & _).
  split; [by apply sublist_app|]. split; [by apply takes_nodup|]. right. intros log Hlog.
  rewrite fmap_app. apply elem_of_app. right. by apply list_elem_of_fmap_2.
Qed.

Lemma written_in_perhaps o settled u db db' : written_in settled u db ->
  (db' = db \/ o = CommitsUnheard /\ takes db u = true /\ db' = db ++ u) -> written_in settled u db'.
Proof. intros H [->|(_ & Ht & ->)]; [done|by apply written_in_lands]. Qed.

Section Batch.
Context (c : settings).

(** A flush sleeps only where it may try again, and salvages the end of its batch. *)
Definition flush_ok (batch : list UsageLog) (f : flush) : Prop :=
  match f with
  | Writing _ => True
  | Sleeping attempt => attempt < retries c
  | Salvaging rest => rest <> [] /\ exists done, batch = done ++ rest
  end.

(** The waits a flush may still make. *)
Definition waits_left (batch : list UsageLog) (f : flush) : nat :=
  match f with
  | Writing attempt => 2 * (retries c - attempt) + 1 + length batch
  | Sleeping attempt => 2 * (retries c - attempt) + length batch
  | Salvaging rest => length rest
  end.
Definition waits_after (batch : list UsageLog) (p : progress) : nat :=
  match p with Waits f => waits_left batch f | _ => 0 end.

(** ** One step of a flush *)

Definition progress_ok (batch : list UsageLog) (p : progress) : Prop :=
  match p with Waits f => flush_ok batch f | _ => True end.

(** The table after a write that raised: as it was, or with the rows that landed unheard. *)
Definition perhaps (o : outcome) (db rows db' : list UsageLog) : Prop :=
  db' = db \/ o = CommitsUnheard /\ takes db rows = true /\ db' = db ++ rows.

Inductive flush_case (batch : list UsageLog) (w : writer) : flush -> outcome -> writer -> progress -> Prop :=
| case_written n : takes (usage_logs w) batch = true ->
    flush_case batch w (Writing n) Commits (counts_written (length batch) (with_table (usage_logs w ++ batch) w)) Returned
| case_refused n : flush_case batch w (Writing n) RefusesRows (with_table (usage_logs w) w) (_salvage batch)
| case_retried n o db : n < retries c -> perhaps o (usage_logs w) batch db -> o = Unreachable \/ o = CommitsUnheard ->
    flush_case batch w (Writing n) o (with_table db w) (Waits (Sleeping n))
| case_dropped n o db : retries c <= n -> perhaps o (usage_logs w) batch db -> o = Unreachable \/ o = CommitsUnheard ->
    flush_case batch w (Writing n) o (counts_dropped (length batch) (with_table db w)) Returned
| case_raised n : flush_case batch w (Writing n) Raises (with_table (usage_logs w) w) RaisedOut
| case_row_written log rest : takes (usage_logs w) [log] = true ->
    flush_case batch w (Salvaging (log :: rest)) Commits
      (counts_written 1 (with_table (usage_logs w ++ [log]) w)) (_salvage rest)
| case_row_dropped log rest o db : perhaps o (usage_logs w) [log] db -> o <> Commits -> o <> Raises ->
    flush_case batch w (Salvaging (log :: rest)) o (counts_dropped 1 (with_table db w)) (_salvage rest)
| case_row_raised log rest : flush_case batch w (Salvaging (log :: rest)) Raises (with_table (usage_logs w) w) RaisedOut.

Lemma flush_cases batch f o w w' p : _flush c batch f o w = Some (w', p) -> flush_case batch w f o w' p.
Proof.
  destruct f as [n|n|[|log rest]]; simpl; [|done|done|]; unfold _write; intros H; split_matches_in H; simplify_eq;
    try (first [apply Nat.ltb_lt in E | apply Nat.ltb_ge in E]); try (first [apply Nat.ltb_lt in E0 | apply Nat.ltb_ge in E0]);
    try (econstructor; unfold perhaps; by auto).
Qed.

Lemma salvage_ok rest done batch : batch = done ++ rest -> progress_ok batch (_salvage rest).
Proof. intros ->. destruct rest; simpl; eauto. Qed.

Lemma salvage_remaining batch rest : remaining batch (_salvage rest) = rest.
Proof. by destruct rest. Qed.

Lemma salvage_waits batch rest : waits_after batch (_salvage rest) = length rest.
Proof. by destruct rest. Qed.

Lemma salvage_no_raise rest : _salvage rest <> RaisedOut.
Proof. by destruct rest. Qed.
Hint Resolve salvage_no_raise : core.

Lemma unsettled_within batch f : flush_ok batch f -> length (unsettled batch f) <= length batch.
Proof. destruct f as [n|n|rest]; simpl; [lia|lia|]. intros [_ [done ->]]. rewrite length_app. lia. Qed.

Section Step.
Context (batch : list UsageLog) (w : writer) (f : flush) (o : outcome) (w' : writer) (p : progress).
Context (Hok : flush_ok batch f) (Hstep : _flush c batch f o w = Some (w', p)).

Lemma flush_keeps : queue w' = queue w /\ task w' = task w /\ stop_at w' = stop_at w /\ _taken w' = _taken w.
Proof using Hstep. clear Hok. by destruct (flush_cases _ _ _ _ _ _ Hstep). Qed.

Lemma flush_progress : progress_ok batch p.
Proof using Hok Hstep.
  destruct (flush_cases _ _ _ _ _ _ Hstep) as [| | | | |log rest _|log rest| ]; simpl in *; auto.
  - by apply (salvage_ok _ []).
  - destruct Hok as [_ [done ->]]. apply (salvage_ok _ (done ++ [log])). by rewrite <- app_assoc.
  - destruct Hok as [_ [done ->]]. apply (salvage_ok _ (done ++ [log])). by rewrite <- app_assoc.
Qed.

Lemma flush_waits : waits_after batch p < waits_left batch f.
Proof using Hok Hstep.
  destruct (flush_cases _ _ _ _ _ _ Hstep); rewrite ?salvage_waits; simpl in *; lia.
Qed.

Lemma flush_counts :
  rows_written w' + rows_dropped w' + match p with RaisedOut => length (unsettled batch f) | _ => length (remaining batch p) end
  = rows_written w + rows_dropped w + length (unsettled batch f).
Proof using Hstep.
  clear Hok.
  destruct (flush_cases _ _ _ _ _ _ Hstep) as [| | | | |log rest _|log rest| ]; simpl; rewrite ?length_app; simpl; try lia.
  all: destruct (_salvage _) eqn:E; [| |by destruct (salvage_no_raise _ E)]; rewrite <- E, salvage_remaining; simpl; lia.
Qed.

(** A row counted as written is one the table took. *)
Lemma flush_writes : rows_written w' + length (usage_logs w) <= rows_written w + length (usage_logs w').
Proof using Hstep.
  clear Hok.
  destruct (flush_cases _ _ _ _ _ _ Hstep) as [| |n o' db _ Hdb|n o' db _ Hdb| |log rest _|log rest o' db Hdb| ];
    try destruct Hdb as [->|(_ & _ & ->)]; simpl; rewrite ?length_app; simpl; lia.
Qed.

Lemma flush_writes_heard : o <> CommitsUnheard ->
  rows_written w' + length (usage_logs w) = rows_written w + length (usage_logs w').
Proof using Hstep.
  clear Hok.
  intros Ho. destruct (flush_cases _ _ _ _ _ _ Hstep) as [| |n o' db _ Hdb|n o' db _ Hdb| |log rest _|log rest o' db Hdb| ];
    try destruct Hdb as [->|(? & _ & ->)]; simpl; rewrite ?length_app; simpl; try lia; done.
Qed.

Lemma flush_raised : p = RaisedOut -> o = Raises.
Proof using Hstep. clear Hok. destruct (flush_cases _ _ _ _ _ _ Hstep); try done; by intros ?%salvage_no_raise. Qed.

(** The rows that leave the flush join those behind it. *)
Lemma flush_orders settled : written_in settled (unsettled batch f) (usage_logs w) ->
  exists more, unsettled batch f = more ++ remaining batch p /\ written_in (settled ++ more) (remaining batch p) (usage_logs w').
Proof using Hstep.
  clear Hok.
  intros H. destruct (flush_cases _ _ _ _ _ _ Hstep) as [n Ht|n|n o' db _ Hdb|n o' db _ Hdb|n|log rest Ht|log rest o' db Hdb|log rest];
    rewrite ?salvage_remaining; simpl in *.
  - exists batch. rewrite app_nil_r. split; [done|]. apply written_in_commits; [|done]. by rewrite app_nil_r.
  - exists []. by rewrite app_nil_r.
  - exists []. rewrite app_nil_r. split; [done|]. by eapply written_in_perhaps.
  - exists batch. rewrite app_nil_r. split; [done|]. apply written_in_forgets. rewrite app_nil_r. by eapply written_in_perhaps.
  - exists batch. rewrite app_nil_r. split; [done|]. apply written_in_forgets. by rewrite app_nil_r.
  - exists [log]. split; [done|]. by apply written_in_commits.
  - exists [log]. split; [done|]. destruct Hdb as [->|(_ & Ht & ->)]; [by apply written_in_forgets|by apply written_in_commits].
  - exists (log :: rest). rewrite app_nil_r. split; [done|]. apply written_in_forgets. by rewrite app_nil_r.
Qed.
End Step.

(** ** The books of the writer *)

(** A flush that is held, with the chunks behind it. *)
Definition hold : Type := option (list UsageLog * flush * list (list UsageLog)).

Definition whole (h : hold) : list UsageLog := match h with Some (b, _, chunks) => b ++ concat chunks | None => [] end.
Definition current (h : hold) : list UsageLog := match h with Some (b, f, _) => unsettled b f | None => [] end.
Definition behind (h : hold) : list UsageLog := match h with Some (_, _, chunks) => concat chunks | None => [] end.
Definition hold_ok (h : hold) : Prop := match h with Some (b, f, _) => flush_ok b f | None => True end.

Definition next_hold (chunks : list (list UsageLog)) : hold :=
  match chunks with [] => None | b :: chunks => Some (b, Writing 0, chunks) end.

(** Where [n] rows were put and [accepted] of them accepted: [exact] where no salvage was cut short, [heard] where no
    commit went unheard. *)
Record accounts (n : nat) (exact heard : Prop) (accepted : list UsageLog) (h : hold) (w : writer) : Prop := {
  acc_hold : hold_ok h;
  acc_taken : length (whole h) <= _taken w;
  acc_counts : n <= rows_written w + rows_dropped w + (_taken w - length (whole h)) + length (current h) + length (behind h)
    + length (queue w);
  acc_exact : exact -> n = rows_written w + rows_dropped w + (_taken w - length (whole h)) + length (current h)
    + length (behind h) + length (queue w);
  acc_written : rows_written w <= length (usage_logs w);
  acc_heard : heard -> rows_written w = length (usage_logs w);
  acc_order : exists settled, accepted = settled ++ current h ++ behind h ++ queue w /\ written_in settled (current h) (usage_logs w)
}.

Lemma current_within h : hold_ok h -> length (current h) + length (behind h) <= length (whole h).
Proof. destruct h as [[[b f] chunks]|]; simpl; [|lia]. intros H%unsettled_within. rewrite length_app. lia. Qed.

Lemma whole_next chunks : whole (next_hold chunks) = concat chunks.
Proof. by destruct chunks. Qed.
Lemma next_ok chunks : hold_ok (next_hold chunks).
Proof. by destruct chunks. Qed.
Lemma next_concat chunks : current (next_hold chunks) ++ behind (next_hold chunks) = concat chunks.
Proof. by destruct chunks. Qed.
Lemma next_length chunks : length (current (next_hold chunks)) + length (behind (next_hold chunks)) = length (concat chunks).
Proof. by rewrite <- next_concat, length_app. Qed.

(** Rows nobody has begun to write may join those in hand. *)
Lemma written_in_takes_up settled u db : written_in settled [] db -> written_in settled u db.
Proof.
  intros (H1 & H2 & _). rewrite app_nil_r in H1. split; [by apply sublist_inserts_r|]. split; [done|by left].
Qed.

Lemma accounts_put n exact heard accepted h w log :
  accounts n exact heard accepted h w ->
  let '(ok, w') := put c log w in accounts (S n) exact heard (if ok then accepted ++ [log] else accepted) h w'.
Proof.
  intros [H1 H2 H3 H4 H5 H6 (settled & Hacc & Hw)]. unfold put.
  destruct (full c w); split; simpl; try done; rewrite ?length_app; simpl; try lia.
  - intros Hx. specialize (H4 Hx). lia.
  - by exists settled.
  - intros Hx. specialize (H4 Hx). lia.
  - exists settled. split; [|done]. rewrite Hacc, <- !app_assoc. done.
Qed.

(** What is on the queue's front goes into hand, where nothing is. *)
Lemma accounts_take n exact heard accepted w rows q chunks :
  accounts n exact heard accepted None w -> queue w = rows ++ q -> concat chunks = rows ->
  accounts n exact heard accepted (next_hold chunks) (with_taken (_taken w + length rows) (with_queue q w)).
Proof.
  intros [H1 H2 H3 H4 H5 H6 (settled & Hacc & Hw)] Hq <-. simpl in *. rewrite Hq in *. rewrite length_app in *.
  pose proof (next_length chunks). split; simpl; rewrite ?whole_next; try lia; [apply next_ok| |done|].
  - intros Hx. specialize (H4 Hx). lia.
  - exists settled. split; [|by apply written_in_takes_up]. by rewrite Hacc, <- (next_concat chunks), <- !app_assoc.
Qed.

(** What is in hand is let go of, at most the rows of the write it waited for having landed. *)
Lemma accounts_let_go n (exact heard exact' heard' : Prop) accepted h w db :
  accounts n exact heard accepted h w ->
  (exact' -> exact /\ length (current h) + length (behind h) = length (whole h)) ->
  (heard' -> heard /\ db = usage_logs w) ->
  length (usage_logs w) <= length db ->
  (forall settled, written_in settled (current h) (usage_logs w) ->
    db `sublist_of` settled ++ current h /\ NoDup (id <$> db)) ->
  accounts n exact' heard' accepted None (with_table db w).
Proof.
  intros [H1 H2 H3 H4 H5 H6 (settled & Hacc & Hw)] Hx Hh Hl Hdb. pose proof (current_within _ H1).
  split; simpl; try lia.
  - intros [E ?]%Hx. specialize (H4 E). lia.
  - intros [E ->]%Hh. auto.
  - exists (settled ++ current h ++ behind h). split; [by rewrite Hacc, <- !app_assoc|].
    specialize (Hdb _ Hw). rewrite app_assoc. destruct Hdb as (Ha & Hb).
    assert (db `sublist_of` (settled ++ current h) ++ behind h) by by apply sublist_inserts_r.
    split; [by rewrite app_nil_r|]. split; [done|by left].
Qed.

(** A hold after a step of its flush. *)
Definition hold_after (b : list UsageLog) (chunks : list (list UsageLog)) (p : progress) : hold :=
  match p with Waits f => Some (b, f, chunks) | Returned => next_hold chunks | RaisedOut => None end.

Definition is_salvage (f : flush) : bool := match f with Salvaging _ => true | _ => false end.

(** [_taken] once the caller of the flush has seen it return. *)
Definition settle_taken (b : list UsageLog) (p : progress) (w : writer) : writer :=
  match p with Returned => with_taken (_taken w - length b) w | _ => w end.

Lemma accounts_flush n (exact heard : Prop) accepted b f chunks o w w' p :
  accounts n exact heard accepted (Some (b, f, chunks)) w -> _flush c b f o w = Some (w', p) ->
  accounts n (exact /\ (o = Raises -> is_salvage f = false)) (heard /\ o <> CommitsUnheard) accepted
    (hold_after b chunks p) (settle_taken b p w').
Proof.
  intros [H1 H2 H3 H4 H5 H6 (settled & Hacc & Hw)] Hf. simpl in *.
  pose proof (flush_keeps _ _ _ _ _ _ Hf) as (Eq & _ & _ & Ek).
  pose proof (flush_progress _ _ _ _ _ _ H1 Hf) as Hp. pose proof (flush_counts _ _ _ _ _ _ Hf) as Hc.
  pose proof (flush_writes _ _ _ _ _ _ Hf) as Hwr. pose proof (flush_raised _ _ _ _ _ _ Hf) as Hr.
  pose proof (flush_writes_heard _ _ _ _ _ _ Hf) as Hh. pose proof (unsettled_within _ _ H1) as Hu.
  destruct (flush_orders _ _ _ _ _ _ Hf _ Hw) as (more & Emore & Hw').
  assert (Hm : length (unsettled b f) = length more + length (remaining b p)) by by rewrite Emore, length_app.
  rewrite length_app in *. pose proof (next_length chunks).
  assert (Hs : o = Raises -> is_salvage f = false -> length (unsettled b f) = length b) by by destruct f.
  split.
  - destruct p; [done|apply next_ok|done].
  - destruct p; simpl; rewrite ?whole_next, ?length_app, ?Ek; lia.
  - destruct p; simpl in *; rewrite ?whole_next, ?length_app, ?Ek, ?Eq; lia.
  - intros [Hx Ho]. specialize (H4 Hx). destruct p; simpl in *; rewrite ?whole_next, ?length_app, ?Ek, ?Eq; try lia.
    specialize (Hs (Hr eq_refl) (Ho (Hr eq_refl))). lia.
  - destruct p; simpl; lia.
  - intros [Hx Ho]. specialize (H6 Hx). specialize (Hh Ho). destruct p; simpl; lia.
  - assert (Hall : accepted = (settled ++ more) ++ remaining b p ++ concat chunks ++ queue w)
      by by rewrite Hacc, Emore, <- !app_assoc.
    destruct p as [g| |]; simpl in *; rewrite Eq.
    + by exists (settled ++ more).
    + exists (settled ++ more). split; [|by apply written_in_takes_up].
      by rewrite Hall, <- (next_concat chunks), <- !app_assoc.
    + exists ((settled ++ more) ++ concat chunks). split; [by rewrite Hall, <- !app_assoc|].
      destruct Hw' as (Ha & Hb & _). rewrite app_nil_r in Ha.
      assert (usage_logs w' `sublist_of` (settled ++ more) ++ concat chunks) by by apply sublist_inserts_r.
      split; [by rewrite app_nil_r|]. split; [done|by left].
Qed.

(** ** The machine *)

(** What of it holds rows. *)
Definition holding (w : writer) : hold :=
  match task w, stop_at w with
  | Flushing b f, _ => Some (b, f, [])
  | _, Draining b f chunks _ => Some (b, f, chunks)
  | _, _ => None
  end.

(** The task has ended wherever [stop] drains or has ended, and no longer waits for rows wherever [stop] was called. *)
Definition one_hand (w : writer) : Prop :=
  match stop_at w with
  | Serving => True
  | AwaitingTask _ => task w <> Collecting
  | _ => task w = NoTask
  end.

Definition salvaging (w : writer) : bool := match holding w with Some (_, f, _) => is_salvage f | None => false end.

(** A step that cuts no salvage short and starts nothing anew. *)
Definition calm (e : event) (w : writer) : bool :=
  match e with
  | WriteEnds Raises | TimesOut _ => negb (salvaging w)
  | Starts => match stop_at w with Serving => true | _ => false end
  | _ => true
  end.

(** A step in which no commit goes unheard. *)
Definition heard (e : event) : bool :=
  match e with WriteEnds CommitsUnheard | TimesOut true => false | _ => true end.

Definition rows_put (e : event) : nat := match e with Puts _ => 1 | _ => 0 end.
Definition accepts (e : event) (w : writer) : list UsageLog :=
  match e with Puts log => if (put c log w).1 then [log] else [] | _ => [] end.

Definition has_stopped (w : writer) : bool := match stop_at w with Stopped => true | _ => false end.

Definition books (n : nat) (x h : bool) (accepted : list UsageLog) (w : writer) : Prop :=
  one_hand w /\ accounts n (x = true /\ has_stopped w = false) (h = true) accepted (holding w) w.

Lemma accounts_mono n (exact heard exact' heard' : Prop) accepted h w :
  accounts n exact heard accepted h w -> (exact' -> exact) -> (heard' -> heard) -> accounts n exact' heard' accepted h w.
Proof. intros [] ? ?. split; auto. Qed.

Lemma accounts_with_task n exact heard accepted h t w :
  accounts n exact heard accepted h w -> accounts n exact heard accepted h (with_task t w).
Proof. by intros []. Qed.

Lemma accounts_with_stop n exact heard accepted h s w :
  accounts n exact heard accepted h w -> accounts n exact heard accepted h (with_stop s w).
Proof. by intros []. Qed.
Hint Resolve accounts_with_task accounts_with_stop : core.

(** [gives_up] settles the account. *)
Lemma accounts_gives_up n exact heard accepted w : accounts n exact heard accepted None w ->
  n <= rows_written (gives_up w) + rows_dropped (gives_up w) /\
  (exact -> n = rows_written (gives_up w) + rows_dropped (gives_up w)) /\
  forall exact' : Prop, (exact' -> False) -> accounts n exact' heard accepted None (gives_up w).
Proof.
  intros [H1 H2 H3 H4 H5 H6 H7]. unfold gives_up. simpl in *. split_and!.
  - case_match; simpl; reflect_bools; [lia|]. apply Nat.ltb_ge in H. lia.
  - intros Hx. specialize (H4 Hx). case_match; simpl; [lia|]. apply Nat.ltb_ge in H. lia.
  - intros exact' Hno. case_match; split; simpl; try done; lia.
Qed.

Lemma books_gives_up n x h accepted w (exact : Prop) : accounts n exact (h = true) accepted None w -> task w = NoTask ->
  books n x h accepted (gives_up w).
Proof.
  intros Ha Ht. destruct (accounts_gives_up _ _ _ _ _ Ha) as (_ & _ & Hg).
  assert (task (gives_up w) = NoTask /\ stop_at (gives_up w) = Stopped) as [Et Es] by (unfold gives_up; by case_match).
  split; [by unfold one_hand; rewrite Es|]. unfold holding. rewrite Et, Es. apply Hg. unfold has_stopped. rewrite Es. naive_solver.
Qed.

Lemma books_flush_next n x h accepted chunks spent w :
  accounts n (x = true) (h = true) accepted (next_hold chunks) w -> task w = NoTask ->
  books n x h accepted (flush_next chunks spent w).
Proof.
  intros Ha Ht. destruct chunks as [|b chunks]; simpl in *; [by eapply books_gives_up|].
  split; [done|]. unfold holding; simpl. rewrite Ht. apply accounts_with_stop. eapply accounts_mono; [done|naive_solver|done].
Qed.

Lemma concat_chunks_of k fuel l : 0 < k -> length l <= fuel -> concat (chunks_of k fuel l) = l.
Proof.
  intros Hk. revert l. induction fuel as [|fuel IH]; intros [|x l] Hl; simpl in *; try done; [lia|].
  destruct k as [|k]; [lia|]. simpl. f_equal. rewrite IH; [apply take_drop|]. rewrite length_drop. lia.
Qed.

(** ** Every step keeps them *)

Context (Hbatch : 0 < max_batch c).

Lemma calm_write o w b f chunks : calm (WriteEnds o) w = true -> holding w = Some (b, f, chunks) ->
  o = Raises -> is_salvage f = false.
Proof. unfold calm, salvaging. intros Hc Eh ->. rewrite Eh in Hc. by apply negb_true_iff in Hc. Qed.

Lemma heard_write o : heard (WriteEnds o) = true -> o <> CommitsUnheard.
Proof. by destruct o. Qed.

Lemma books_hold n x h accepted w b f chunks o w1 p :
  books n x h accepted w -> holding w = Some (b, f, chunks) -> has_stopped w = false -> _flush c b f o w = Some (w1, p) ->
  accounts n (x && calm (WriteEnds o) w = true) (h && heard (WriteEnds o) = true) accepted (hold_after b chunks p)
    (settle_taken b p w1).
Proof.
  intros [_ Ha] Eh Es Ef. rewrite Eh in Ha. pose proof (accounts_flush _ _ _ _ _ _ _ _ _ _ _ Ha Ef) as H.
  eapply accounts_mono; [exact H| |].
  - intros [-> Hc]%andb_prop. split; [done|]. by eapply calm_write.
  - intros [-> Hh]%andb_prop. split; [done|]. by apply heard_write.
Qed.

(** The task runs, or has yet to be waited out. *)
Definition before_drain (w : writer) : Prop := match stop_at w with Serving | AwaitingTask _ => True | _ => False end.

Lemma books_again n x h accepted w : before_drain w -> accounts n (x = true) (h = true) accepted None w ->
  books n x h accepted (again w).
Proof.
  intros Hd Ha. unfold before_drain, again in *. split.
  - unfold one_hand, stop_called; simpl. by destruct (stop_at w).
  - unfold holding, stop_called; simpl.
    destruct (stop_at w); try done; simpl; (eapply accounts_mono; [by apply accounts_with_task|naive_solver|done]).
Qed.

Lemma books_write n x h accepted o w w' : books n x h accepted w -> on_write c o w = Some w' ->
  books n (x && calm (WriteEnds o) w) (h && heard (WriteEnds o)) accepted w'.
Proof.
  intros Hb Hs. pose proof Hb as [Hone _]. unfold on_write, one_hand in *.
  destruct (task w) as [| |b f] eqn:Et.
  3: { destruct (_flush c b f o w) as [[w1 p]|] eqn:Ef; [|done]. simplify_eq/=.
    assert (Hst : has_stopped w = false) by (unfold has_stopped; by destruct (stop_at w)).
    pose proof (books_hold _ _ _ _ _ b f [] _ _ _ Hb ltac:(by unfold holding; rewrite Et) Hst Ef) as Ha.
    destruct (flush_keeps _ _ _ _ _ _ Ef) as (_ & _ & Es & _).
    assert (Hd : before_drain w1) by (unfold before_drain; rewrite Es; by destruct (stop_at w)).
    destruct p as [g| |]; simpl in *; [|by apply books_again..].
    split; [unfold one_hand; simpl; rewrite Es; by destruct (stop_at w)|].
    unfold holding; simpl. eapply accounts_mono; [by apply accounts_with_task|naive_solver|done]. }
  all: destruct (stop_at w) as [| |b f chunks spent| |] eqn:Es; try done.
  all: destruct (_flush c b f o w) as [[w1 p]|] eqn:Ef; [|done]; simplify_eq/=.
  pose proof (books_hold _ _ _ _ _ b f chunks _ _ _ Hb ltac:(by unfold holding; rewrite Et, Es)
    ltac:(by unfold has_stopped; rewrite Es) Ef) as Ha.
  destruct (flush_keeps _ _ _ _ _ _ Ef) as (_ & Et1 & _ & _). rewrite Et in Et1.
  destruct p as [g| |]; simpl in *; [|by apply books_flush_next|].
  all: split; [done|]; unfold holding; simpl; rewrite Et1;
    (eapply accounts_mono; [by apply accounts_with_stop|naive_solver|done]).
Qed.

Lemma books_backoff n x h accepted w w' : books n x h accepted w -> on_backoff w = Some w' -> books n x h accepted w'.
Proof.
  intros [Hone [H1 H2 H3 H4 H5 H6 H7]] Hs. unfold on_backoff, one_hand, holding, has_stopped in *.
  destruct (task w) as [| |b [|m|]] eqn:Et; try done.
  all: destruct (stop_at w) as [|spent|b' [|m'|] chunks spent| |] eqn:Es; try done; simplify_eq/=.
  all: split; [by unfold one_hand; simpl; rewrite ?Et, ?Es|]; unfold holding, has_stopped; simpl; rewrite ?Et, ?Es; by split.
Qed.

Lemma written_in_front settled rows u db : written_in settled (rows ++ u) db -> takes db rows = true ->
  (db ++ rows) `sublist_of` settled ++ rows ++ u /\ NoDup (id <$> db ++ rows).
Proof. intros H Ht. destruct (written_in_commits _ _ _ _ H Ht) as (H1 & H2 & _). by rewrite app_assoc. Qed.

(** A cancelled hold is let go of. *)
Lemma accounts_cancelled n (exact heard : Prop) accepted w b f chunks landed w1 :
  accounts n exact heard accepted (Some (b, f, chunks)) w -> cancelled b f landed w = Some w1 ->
  accounts n (exact /\ is_salvage f = false) (heard /\ landed = false) accepted None w1 /\
  task w1 = task w /\ stop_at w1 = stop_at w.
Proof.
  intros Ha Hc. set (rows := match f with Writing _ => b | Sleeping _ => [] | Salvaging rest => take 1 rest end) in *.
  assert (exists db, w1 = with_table db w /\ (landed = false -> db = usage_logs w) /\
    (db = usage_logs w \/ takes (usage_logs w) rows = true /\ db = usage_logs w ++ rows)) as (db & -> & Hl & Hdb).
  { unfold cancelled in Hc. fold rows in Hc. destruct landed; simpl in *.
    - destruct (takes _ rows) eqn:Et; [|done]. simplify_eq. eexists; split; [done|]. split; [done|by right].
    - simplify_eq. exists (usage_logs w1). split; [by destruct w1|]. by auto. }
  split; [|done]. eapply accounts_let_go; [exact Ha| | | |].
  - intros [? Hs]. split; [done|]. simpl. rewrite length_app. by destruct f.
  - naive_solver.
  - destruct Hdb as [->|[_ ->]]; rewrite ?length_app; lia.
  - intros settled Hw. destruct Hdb as [->|[Ht ->]]; [by destruct Hw as (? & ? & _)|].
    assert (exists u, unsettled b f = rows ++ u \/ rows = []) as (u & [Eu|Er]).
    { destruct f as [m|m|[|r rest]]; simpl in *; [exists []; left; by rewrite app_nil_r|exists []; by right|exists []; by right|].
      exists rest. by left. }
    + simpl. rewrite Eu. apply written_in_front; [by rewrite <- Eu|done].
    + rewrite Er, app_nil_r. by destruct Hw as (? & ? & _).
Qed.

Lemma books_timeout n x h accepted landed w w' : books n x h accepted w -> on_timeout landed w = Some w' ->
  books n (x && calm (TimesOut landed) w) (h && heard (TimesOut landed)) accepted w'.
Proof.
  intros [Hone Ha] Hs. unfold on_timeout, one_hand, calm, salvaging, holding, has_stopped in *.
  assert (Eh : heard (TimesOut landed) = negb landed) by by destruct landed. rewrite Eh.
  destruct (stop_at w) as [|[]|b f chunks []| |] eqn:Es; try done.
  - destruct (task w) as [| |b f] eqn:Et; [| done |].
    { destruct landed; [done|]. simplify_eq/=. split; [unfold one_hand; simpl; by rewrite Et|].
      unfold holding, has_stopped; simpl. rewrite Et, !andb_true_r. by apply accounts_with_stop. }
    destruct (cancelled b f landed w) as [w1|] eqn:Ec; [|done]. simplify_eq/=.
    destruct (accounts_cancelled _ _ _ _ _ _ _ _ _ _ Ha Ec) as (Hc & _ & _).
    split; [done|]. unfold holding, has_stopped; simpl. apply accounts_with_stop, accounts_with_task.
    eapply accounts_mono; [exact Hc| |]; [intros [[-> Hf]%andb_prop _]|intros [-> Hf]%andb_prop]; by apply negb_true_iff in Hf.
  - rewrite Hone in *. destruct (cancelled b f landed w) as [w1|] eqn:Ec; [|done]. simplify_eq/=.
    destruct (accounts_cancelled _ _ _ _ _ _ _ _ _ _ Ha Ec) as (Hc & Et & _).
    eapply books_gives_up; [eapply accounts_mono; [exact Hc|intros H; exact H|]|by rewrite Et].
    intros [-> Hf]%andb_prop. by apply negb_true_iff in Hf.
Qed.

Lemma books_put n x h accepted log w : books n x h accepted w ->
  books (S n) x h (accepted ++ accepts (Puts log) w) (put c log w).2.
Proof.
  intros [Hone Ha]. pose proof (accounts_put _ _ _ _ _ _ log Ha) as H. unfold accepts.
  assert (task (put c log w).2 = task w /\ stop_at (put c log w).2 = stop_at w) as [Et Es]
    by (unfold put; by destruct (full c w)).
  unfold books, one_hand, holding, has_stopped in *. rewrite Et, Es. split; [done|].
  destruct (put c log w) as [[] w']; simpl in *; [done|by rewrite app_nil_r].
Qed.

Lemma books_collect n x h accepted w : books n x h accepted w -> task w = Collecting -> books n x h accepted (_collect_batch c w).
Proof.
  intros [Hone Ha] Et. unfold one_hand, holding, has_stopped in *. rewrite Et in *.
  destruct (stop_at w) eqn:Es; try done. unfold _collect_batch. set (k := Nat.max 1 (max_batch c)).
  split; [by unfold one_hand; simpl; rewrite Es|]. unfold holding, has_stopped; simpl. rewrite Es.
  apply accounts_with_task. apply (accounts_take _ _ _ _ _ (take k (queue w)) _ [take k (queue w)]); [done| |apply app_nil_r].
  by rewrite take_drop.
Qed.

Lemma books_task_ended n x h accepted spent w : books n x h accepted w -> task w = NoTask -> stop_at w = AwaitingTask spent ->
  books n x h accepted (_flush_all c spent w).
Proof.
  intros [Hone Ha] Et Es. unfold holding, has_stopped in Ha. rewrite Et, Es in Ha. apply books_flush_next; [|done].
  apply (accounts_mono _ (x = true /\ false = false) (h = true)); [|done..].
  apply (accounts_take _ _ _ _ _ (queue w)); [done|by rewrite app_nil_r|by apply concat_chunks_of].
Qed.

Lemma books_step n x h accepted e w w' : books n x h accepted w -> step c e w = Some w' ->
  books (n + rows_put e) (x && calm e w) (h && heard e) (accepted ++ accepts e w) w'.
Proof.
  intros Hb Hs. destruct e as [log| | | |o| | |landed];
    try (simpl accepts; rewrite app_nil_r); try (simpl rows_put; rewrite Nat.add_0_r); simpl in Hs.
  - simplify_eq. simpl calm. simpl heard. rewrite !andb_true_r, Nat.add_1_r. by apply books_put.
  - simpl heard. rewrite andb_true_r. destruct Hb as [_ Ha]. unfold holding, has_stopped in *.
    destruct (task w) eqn:Et; try done. destruct (stop_at w) eqn:Es; try done; simplify_eq;
      (split; [done|]); unfold holding, has_stopped; simpl; rewrite Es; apply accounts_with_task, accounts_with_stop;
      (eapply accounts_mono; [exact Ha| |done]); intros [[-> ?]%andb_prop ?]; done.
  - simpl heard. simpl calm. rewrite !andb_true_r. destruct Hb as [Hone Ha]. unfold on_stop, holding, has_stopped, one_hand in *.
    destruct (stop_at w) eqn:Es; try done. destruct (task w) eqn:Et; simplify_eq;
      (split; [by unfold one_hand; simpl; rewrite ?Et|]); unfold holding, has_stopped; simpl; rewrite ?Et;
      try apply accounts_with_stop; try apply accounts_with_task; exact Ha.
  - simpl heard. simpl calm. rewrite !andb_true_r. destruct (task w) eqn:Et; try done. destruct (queue w); [done|]. simplify_eq.
    by apply books_collect.
  - by apply books_write.
  - simpl heard. simpl calm. rewrite !andb_true_r. by eapply books_backoff.
  - simpl heard. simpl calm. rewrite !andb_true_r. destruct (task w) eqn:Et; try done. destruct (stop_at w) eqn:Es; try done.
    simplify_eq. by apply books_task_ended.
  - by apply books_timeout.
Qed.

(** ** Runs *)

(** What a run puts, accepts, and whether each of its steps is calm and heard. *)
Fixpoint puts_of (es : list event) : nat := match es with [] => 0 | e :: es => rows_put e + puts_of es end.
Fixpoint accepted_of (es : list event) (w : writer) : list UsageLog :=
  match es with [] => [] | e :: es => accepts e w ++ match step c e w with Some w' => accepted_of es w' | None => [] end end.
Fixpoint calm_run (es : list event) (w : writer) : bool :=
  match es with [] => true | e :: es => calm e w && match step c e w with Some w' => calm_run es w' | None => true end end.

Lemma books_run es n x h accepted w w' : books n x h accepted w -> run c es w = Some w' ->
  books (n + puts_of es) (x && calm_run es w) (h && forallb heard es) (accepted ++ accepted_of es w) w'.
Proof.
  revert n x h accepted w. induction es as [|e es IH]; intros n x h accepted w Hb Hr; simpl in *.
  { simplify_eq. by rewrite Nat.add_0_r, !andb_true_r, app_nil_r. }
  destruct (step c e w) as [w1|] eqn:Es; [|done].
  pose proof (IH _ _ _ _ _ (books_step _ _ _ _ _ _ _ Hb Es) Hr) as H.
  by rewrite Nat.add_assoc, !andb_assoc, app_assoc.
Qed.

Lemma books_created : books 0 true true [] created.
Proof.
  split; [done|]. split; simpl; try done; try lia. exists []. split; [done|]. split; [done|]. split; [constructor|by left].
Qed.

(** ** Where [stop] returns *)

Definition accounted (n : nat) (x : bool) (w : writer) : Prop :=
  n <= rows_written w + rows_dropped w /\ (x = true -> n = rows_written w + rows_dropped w).

Lemma flush_next_settles n x heard accepted chunks spent w :
  accounts n (x = true) heard accepted (next_hold chunks) w -> has_stopped (flush_next chunks spent w) = true ->
  accounted n x (flush_next chunks spent w).
Proof.
  destruct chunks as [|b chunks]; [|done]. simpl. intros Ha _.
  by destruct (accounts_gives_up _ _ _ _ _ Ha) as (H1 & H2 & _).
Qed.

(** The steps that stop it. *)
Inductive stops_by (w w' : writer) : event -> Prop :=
| by_task spent : task w = NoTask -> stop_at w = AwaitingTask spent -> w' = _flush_all c spent w -> stops_by w w' TaskEnded
| by_write b f chunks spent o w1 : holding w = Some (b, f, chunks) -> _flush c b f o w = Some (w1, Returned) ->
    w' = flush_next chunks spent (with_taken (_taken w1 - length b) w1) -> stops_by w w' (WriteEnds o)
| by_timeout b f chunks landed w1 : holding w = Some (b, f, chunks) -> cancelled b f landed w = Some w1 -> w' = gives_up w1 ->
    stops_by w w' (TimesOut landed).

Lemma steps_that_stop e w w' : one_hand w -> step c e w = Some w' -> has_stopped w = false -> has_stopped w' = true ->
  stops_by w w' e.
Proof.
  intros Hone Hs H0 H1. unfold has_stopped, one_hand in *.
  destruct e as [log| | | |o| | |landed]; simpl in Hs.
  - simplify_eq. unfold put in H1. by destruct (full c w); simpl in H1; destruct (stop_at w).
  - by destruct (task w), (stop_at w); simplify_eq.
  - unfold on_stop in Hs. by destruct (stop_at w), (task w); simplify_eq.
  - destruct (task w), (queue w); simplify_eq; simpl in H1. by destruct (stop_at w).
  - unfold on_write in Hs. destruct (task w) as [| |b f] eqn:Et.
    3: { destruct (_flush c b f o w) as [[w1 p]|] eqn:Ef; [|done]. destruct (flush_keeps _ _ _ _ _ _ Ef) as (_ & _ & Es & _).
      simplify_eq/=. by destruct p; simpl in H1; rewrite Es in H1; destruct (stop_at w). }
    all: destruct (stop_at w) as [| |b f chunks spent| |] eqn:Es; try done.
    all: destruct (_flush c b f o w) as [[w1 p]|] eqn:Ef; [|done].
    all: simplify_eq/=; destruct p; try done.
    eapply (by_write _ _ b f chunks); [unfold holding; by rewrite Et, Es|done|done].
  - unfold on_backoff in Hs. by destruct (task w) as [| |? []], (stop_at w) as [| |? []| |] eqn:Es; simplify_eq/=; rewrite ?Es in H1.
  - destruct (task w) eqn:Et; try done. destruct (stop_at w) eqn:Es; simplify_eq. by eapply by_task.
  - unfold on_timeout in Hs. destruct (stop_at w) as [|[]|b f chunks []| |] eqn:Es; try done.
    + destruct (task w) as [| |b f]; [by destruct landed; simplify_eq| |].
      * by destruct landed; simplify_eq.
      * by destruct (cancelled b f landed w); simplify_eq/=.
    + destruct (cancelled b f landed w) as [w1|] eqn:Ec; simplify_eq/=.
      eapply (by_timeout _ _ b f chunks); [unfold holding; by rewrite Hone, Es|done|done].
Qed.

Lemma stop_settles n x h accepted e w w' : books n x h accepted w -> step c e w = Some w' ->
  has_stopped w = false -> has_stopped w' = true -> rows_put e = 0 /\ accounted n (x && calm e w) w'.
Proof.
  intros Hb Hs H0 H1. pose proof Hb as [Hone Ha].
  destruct (steps_that_stop _ _ _ Hone Hs H0 H1) as [spent Et Es ->|b f chunks spent o w1 Eh Ef ->|b f chunks landed w1 Eh Ec ->];
    (split; [done|]).
  - simpl calm. rewrite andb_true_r. unfold holding, has_stopped in Ha. rewrite Et, Es in Ha.
    eapply (flush_next_settles _ _ (h = true)); [|exact H1].
    apply (accounts_mono _ (x = true /\ false = false) (h = true)); [|done..].
    apply (accounts_take _ _ _ _ _ (queue w)); [done|by rewrite app_nil_r|by apply concat_chunks_of].
  - pose proof (books_hold _ _ _ _ _ _ _ _ _ _ _ Hb Eh H0 Ef) as Hh. by eapply flush_next_settles.
  - rewrite Eh, H0 in Ha. destruct (accounts_cancelled _ _ _ _ _ _ _ _ _ _ Ha Ec) as (Hc & _ & _).
    destruct (accounts_gives_up _ _ _ _ _ Hc) as (Hg & Hx & _). split; [done|].
    intros [-> Hcalm]%andb_prop. apply Hx. unfold calm, salvaging in Hcalm. rewrite Eh in Hcalm.
    by apply negb_true_iff in Hcalm.
Qed.

(** ** Stopping ends *)

(** The waits [stop] may still make: each batch a write and a backoff for every try and a write for each row. *)
Definition chunk_waits (chunk : list UsageLog) : nat := 2 * retries c + 1 + length chunk.
Definition hold_waits (h : hold) : nat :=
  match h with Some (b, f, chunks) => waits_left b f + sum_list_with chunk_waits chunks | None => 0 end.
Definition waits_of_stop (w : writer) : nat :=
  hold_waits (holding w) +
  match stop_at w with
  | AwaitingTask spent => (if spent then 1 else 2) + (2 * retries c + 2) * length (queue w)
  | _ => 0
  end.

Definition is_put (e : event) : bool := match e with Puts _ => true | _ => false end.

Lemma chunks_waits k fuel l : 0 < k -> sum_list_with chunk_waits (chunks_of k fuel l) <= (2 * retries c + 2) * length l.
Proof.
  intros Hk. revert l. induction fuel as [|fuel IH]; intros [|x l]; simpl; try lia.
  destruct k as [|k]; [lia|]. specialize (IH (drop k l)). simpl. rewrite length_drop in IH.
  unfold chunk_waits at 1. simpl length. rewrite length_take. nia.
Qed.

Lemma waits_positive b f : flush_ok b f -> 0 < waits_left b f.
Proof. destruct f as [|m|rest]; simpl; [lia|lia|]. intros [Hr _]. destruct rest; simpl; [done|lia]. Qed.

Lemma next_waits chunks : hold_waits (next_hold chunks) <= sum_list_with chunk_waits chunks.
Proof. destruct chunks as [|b chunks]; simpl; [lia|]. unfold chunk_waits at 2. lia. Qed.

(** Whether [stop] has been called and has to wait still. *)
Definition still_stopping (w : writer) : bool := match stop_at w with AwaitingTask _ | Draining _ _ _ _ => true | _ => false end.

Definition hold_ok_in (w : writer) : Prop := one_hand w /\ hold_ok (holding w).

Lemma books_shape n x h accepted w : books n x h accepted w -> hold_ok_in w.
Proof. by intros [? []]. Qed.

Lemma gives_up_waits w : task w = NoTask -> waits_of_stop (gives_up w) = 0 /\ stop_called (gives_up w) = true.
Proof. intros Et. unfold gives_up, waits_of_stop, holding. destruct (0 <? _); simpl; by rewrite Et. Qed.

Lemma flush_next_waits chunks spent w : task w = NoTask ->
  waits_of_stop (flush_next chunks spent w) <= sum_list_with chunk_waits chunks /\ stop_called (flush_next chunks spent w) = true.
Proof.
  intros Et. destruct chunks as [|b chunks]; simpl.
  - destruct (gives_up_waits _ Et) as [-> ->]. split; [lia|done].
  - unfold waits_of_stop, holding; simpl. rewrite Et. simpl. unfold chunk_waits at 2. split; [lia|done].
Qed.

(** A wait that ends leaves fewer. *)
Lemma write_waits o w w' : hold_ok_in w -> still_stopping w = true -> on_write c o w = Some w' ->
  waits_of_stop w' < waits_of_stop w /\ stop_called w' = true.
Proof.
  intros [Hone Hh] Hst Hs. unfold on_write, one_hand, holding, still_stopping in *.
  destruct (task w) as [| |b f] eqn:Et.
  3: { destruct (_flush c b f o w) as [[w1 p]|] eqn:Ef; [|done]. pose proof (flush_waits _ _ _ _ _ _ Hh Ef) as Hw.
    destruct (flush_keeps _ _ _ _ _ _ Ef) as (Eq & _ & Es & _).
    destruct (stop_at w) as [|spent| | |] eqn:Est; try done. simplify_eq/=.
    unfold waits_of_stop, holding. rewrite Et, Est.
    destruct p; unfold after_flush, again, stop_called; simpl; rewrite ?Es; simpl in *; rewrite ?Eq, ?Es; split; (lia || done). }
  all: destruct (stop_at w) as [| |b f chunks spent| |] eqn:Est; try done.
  destruct (_flush c b f o w) as [[w1 p]|] eqn:Ef; [|done]. pose proof (flush_waits _ _ _ _ _ _ Hh Ef) as Hw.
  destruct (flush_keeps _ _ _ _ _ _ Ef) as (_ & Et1 & _ & _). rewrite Et in Et1. simplify_eq/=.
  assert (waits_of_stop w = waits_left b f + sum_list_with chunk_waits chunks) as ->
    by (unfold waits_of_stop, holding; rewrite Et, Est; simpl; lia).
  destruct p as [g| |]; simpl in *.
  - unfold waits_of_stop, holding; simpl. rewrite Et1. simpl. split; [lia|done].
  - destruct (flush_next_waits chunks spent (with_taken (_taken w1 - length b) w1) Et1) as [H ->]. split; [lia|done].
  - unfold waits_of_stop, holding; simpl. rewrite Et1. simpl. split; [lia|done].
Qed.

Lemma timeout_waits landed w w' : hold_ok_in w -> on_timeout landed w = Some w' ->
  waits_of_stop w' < waits_of_stop w /\ stop_called w' = true.
Proof.
  intros [Hone Hh] Hs. unfold on_timeout, one_hand, holding in *.
  destruct (stop_at w) as [|[]|b f chunks []| |] eqn:Est; try done.
  - destruct (task w) as [| |b f] eqn:Et; [|done|].
    + destruct landed; simplify_eq. unfold waits_of_stop, holding; simpl. rewrite Et, Est. split; [lia|done].
    + pose proof (waits_positive _ _ Hh). unfold cancelled in Hs.
      unfold waits_of_stop, holding. rewrite Et, Est.
      destruct landed; simpl in Hs; [destruct (takes _ _)|]; simplify_eq/=; split; (lia || done).
  - rewrite Hone in *. pose proof (waits_positive _ _ Hh).
    assert (0 < waits_of_stop w) by (unfold waits_of_stop, holding; rewrite Hone, Est; simpl; lia).
    destruct (cancelled b f landed w) as [w1|] eqn:Ec; simplify_eq/=.
    assert (task w1 = NoTask) as Et by (unfold cancelled in Ec; destruct landed; simpl in Ec; [case_match|]; by simplify_eq).
    destruct (gives_up_waits _ Et) as [-> ->]. split; [lia|done].
Qed.

Lemma wait_ends e w w' : hold_ok_in w -> still_stopping w = true -> step c e w = Some w' ->
  waits_of_stop w' + (if is_put e then 0 else 1) <= waits_of_stop w + (2 * retries c + 2) * rows_put e /\ stop_called w' = true.
Proof.
  intros Hok Hst Hs. pose proof Hok as [Hone Hh]. unfold still_stopping, one_hand in *.
  destruct e as [log| | | |o| | |landed]; simpl in Hs; simpl is_put; simpl rows_put.
  - simplify_eq. unfold put, waits_of_stop, holding, stop_called.
    destruct (full c w); simpl; destruct (stop_at w); try done; split; rewrite ?length_app; simpl; (lia || done).
  - by destruct (task w), (stop_at w).
  - unfold on_stop in Hs. by destruct (stop_at w), (task w).
  - by destruct (stop_at w), (task w).
  - destruct (write_waits _ _ _ Hok Hst Hs). split; [lia|done].
  - unfold on_backoff in Hs. unfold waits_of_stop, holding, stop_called in *.
    destruct (task w) as [| |b [|m|]] eqn:Et, (stop_at w) as [|spent|b' [|m'|] chunks spent| |] eqn:Es;
      simplify_eq/=; rewrite ?Et, ?Es; simpl; split; (lia || done).
  - destruct (task w) eqn:Et; try done. destruct (stop_at w) as [|spent| | |] eqn:Es; simplify_eq.
    unfold _flush_all.
    destruct (flush_next_waits (chunks_of (max_batch c) (length (queue w)) (queue w)) spent
      (with_taken (_taken w + length (queue w)) (with_queue [] w)) Et) as [H1 ->]. split; [|done].
    pose proof (chunks_waits _ (length (queue w)) (queue w) Hbatch).
    unfold waits_of_stop at 2, holding. rewrite Et, Es. simpl. destruct spent; lia.
  - destruct (timeout_waits _ _ _ Hok Hs). split; [lia|done].
Qed.

(** A stop that waits is woken: by its write, by its backoff, or by the end of the task. *)
Lemma stop_goes_on w : hold_ok_in w -> still_stopping w = true ->
  is_Some (step c (WriteEnds Unreachable) w) \/ is_Some (step c BackoffEnds w) \/ is_Some (step c TaskEnded w).
Proof.
  intros [Hone Hh] Hst. unfold still_stopping, one_hand, holding in *. simpl. unfold on_write, on_backoff.
  assert (Hwakes : forall b f, flush_ok b f -> is_Some (_flush c b f Unreachable w) \/ exists m, f = Sleeping m).
  { intros b [m|m|rest] Hf; simpl; [left; destruct (m <? retries c); by eexists|right; by eexists|].
    destruct Hf as [Hr _]. left. destruct rest; [done|by eexists]. }
  destruct (task w) as [| |b f] eqn:Et, (stop_at w) as [|spent|b' f' chunks spent| |] eqn:Es; try done.
  - by right; right.
  - destruct (Hwakes _ _ Hh) as [[r ->]|[m ->]]; [by left|by right; left].
  - destruct (Hwakes _ _ Hh) as [[r ->]|[m ->]]; [by left|by right; left].
Qed.

(** ** What the writer promises *)

Definition reached (es : list event) (w : writer) : Prop := run c es created = Some w.

Lemma reached_books es w : reached es w ->
  books (puts_of es) (calm_run es created) (forallb heard es) (accepted_of es created) w.
Proof. intros H. exact (books_run _ _ _ _ _ _ _ books_created H). Qed.

(** What of a run waits for something else than a request. *)
Definition waits_of (es : list event) : nat := length (filter (fun e => is_put e = false) es).

Lemma waits_of_cons e es : waits_of (e :: es) = (if is_put e then 0 else 1) + waits_of es.
Proof. unfold waits_of. rewrite filter_cons. by destruct (is_put e). Qed.

Lemma run_app es es' w : run c (es ++ es') w = match run c es w with Some w' => run c es' w' | None => None end.
Proof. revert w. induction es as [|e es IH]; intros w; simpl; [done|]. by destruct (step c e w). Qed.

(** Only requests put rows once it has returned. *)
Lemma after_stop e w w' : stop_called w = true -> still_stopping w = false -> one_hand w -> e <> Starts -> step c e w = Some w' ->
  is_put e = true /\ waits_of_stop w' = waits_of_stop w /\ stop_called w' = true.
Proof.
  intros Hc Hst Hone He Hs. unfold stop_called, still_stopping, one_hand, waits_of_stop, holding in *.
  destruct e as [log| | | |o| | |landed]; simpl in Hs; unfold on_stop, on_write, on_backoff, on_timeout in Hs.
  1: { simplify_eq. unfold put. by destruct (full c w); simpl; destruct (stop_at w). }
  all: by destruct (stop_at w) eqn:Es; try done; rewrite ?Hone in Hs.
Qed.

Lemma stop_bounded es n x h accepted w w' : books n x h accepted w -> stop_called w = true -> Starts ∉ es ->
  run c es w = Some w' -> waits_of es <= waits_of_stop w + (2 * retries c + 2) * puts_of es.
Proof.
  revert n x h accepted w. induction es as [|e es IH]; intros n x h accepted w Hb Hc Hes Hr; [unfold waits_of; simpl; lia|].
  simpl in Hr. destruct (step c e w) as [w1|] eqn:Es; [|done]. apply not_elem_of_cons in Hes as [He Hes].
  rewrite waits_of_cons. simpl puts_of. pose proof (books_step _ _ _ _ _ _ _ Hb Es) as Hb1.
  destruct (still_stopping w) eqn:Hst.
  - destruct (wait_ends _ _ _ (books_shape _ _ _ _ _ Hb) Hst Es) as [Hw Hc1]. specialize (IH _ _ _ _ _ Hb1 Hc1 Hes Hr). lia.
  - destruct Hb as [Hone _]. destruct (after_stop _ _ _ Hc Hst Hone (not_eq_sym He) Es) as (Hput & Hw & Hc1). rewrite Hput.
    specialize (IH _ _ _ _ _ Hb1 Hc1 Hes Hr). lia.
Qed.

End Batch.

(** C33: Whatever the database answers, however requests, flushes and a stop interleave, and whatever is cut short or lands
    unheard, the batch writer writes each row at most once and in the order it was put, counts as written none the table
    did not take, and leaves no row uncounted: each one put is counted as written or dropped, or is still on the
    queue or taken off it. *)
Theorem batch_writer_loses_no_row c es w : 0 < max_batch c -> reached c es w ->
  NoDup (id <$> usage_logs w) /\ usage_logs w `sublist_of` accepted_of c es created /\
  rows_written w <= length (usage_logs w) /\ (forallb heard es = true -> rows_written w = length (usage_logs w)) /\
  puts_of es <= rows_written w + rows_dropped w + _taken w + length (queue w).
Proof.
  intros Hc Hr. destruct (reached_books _ Hc _ _ Hr) as [_ [H1 H2 H3 H4 H5 H6 (settled & Hacc & Ha & Hb & _)]].
  pose proof (current_within _ _ H1). split_and!; [done| |done|done|lia].
  rewrite Hacc, app_assoc. by apply sublist_inserts_r.
Qed.

(** C34: When a stop returns, every row put is counted as written or dropped, and exactly once where no salvage was cut
    short. *)
Theorem stop_accounts_for_every_row c es e w w' : 0 < max_batch c -> reached c es w -> step c e w = Some w' ->
  has_stopped w = false -> has_stopped w' = true ->
  puts_of es <= rows_written w' + rows_dropped w' /\
  (calm_run c es created && calm e w = true -> puts_of es = rows_written w' + rows_dropped w').
Proof. intros Hc Hr Hs H0 H1. by destruct (stop_settles _ Hc _ _ _ _ _ _ _ (reached_books _ Hc _ _ Hr) Hs H0 H1) as [_ ?]. Qed.

(** Once stop is called it returns: while it has not, something it waits for can end, and it waits a bounded number of
    times, each batch's tries and rows counted, plus as many for each row put meanwhile. *)
Theorem stop_returns c es w : 0 < max_batch c -> reached c es w -> stop_called w = true ->
  (still_stopping w = true ->
     is_Some (step c (WriteEnds Unreachable) w) \/ is_Some (step c BackoffEnds w) \/ is_Some (step c TaskEnded w)) /\
  (forall es' w', Starts ∉ es' -> run c es' w = Some w' ->
     waits_of es' <= waits_of_stop c w + (2 * retries c + 2) * puts_of es').
Proof.
  intros Hc Hr Hst. pose proof (reached_books _ Hc _ _ Hr) as Hb. split.
  - apply stop_goes_on. by eapply books_shape.
  - intros es' w'. by eapply stop_bounded.
Qed.

(** ** Runs *)

Definition row (name : string) : UsageLog :=
  mkLog name None 0 "w" None None None "m" "/v1/chat/completions" None "success" None None None None None None None None
    None None None None None None.

Definition small : settings := mkSettings 2 3 1.

(** A batch whose commit lands unheard is refused when it is tried again; the queue fills; and a stop drains it. *)
Definition busy : list event :=
  [Starts; Puts (row "a"); Puts (row "b"); Collects; Puts (row "c"); Puts (row "d"); Puts (row "e"); Puts (row "f");
   WriteEnds CommitsUnheard; BackoffEnds; WriteEnds RefusesRows; WriteEnds RefusesRows; Stops; WriteEnds RefusesRows;
   TaskEnded; WriteEnds Commits; WriteEnds Unreachable; BackoffEnds].

Definition after (c : settings) (es : list event) : writer := default created (run c es created).

Lemma batch_writer_loses_no_row_witness :
  reached small busy (after small busy) /\
  NoDup (id <$> usage_logs (after small busy)) /\ id <$> usage_logs (after small busy) = ["a"; "b"; "c"; "d"]%string /\
  rows_dropped (after small busy) = 3.
Proof.
  assert (H : reached small busy (after small busy)) by by vm_compute.
  destruct (batch_writer_loses_no_row small busy _ ltac:(simpl; lia) H) as (Hn & _).
  split; [exact H|]. split; [exact Hn|]. by vm_compute.
Defined.

Lemma stop_accounts_for_every_row_witness :
  let w := after small (busy ++ [WriteEnds Commits]) in
  has_stopped w = true /\ puts_of busy = rows_written w + rows_dropped w /\ rows_written w = 3.
Proof.
  assert (H : reached small busy (after small busy)) by by vm_compute.
  assert (Hs : step small (WriteEnds Commits) (after small busy) = Some (after small (busy ++ [WriteEnds Commits]))) by by vm_compute.
  destruct (stop_accounts_for_every_row small busy (WriteEnds Commits) _ _ ltac:(simpl; lia) H Hs
    ltac:(by vm_compute) ltac:(by vm_compute)) as (_ & Hx).
  split; [by vm_compute|]. split; [apply Hx; by vm_compute|by vm_compute].
Defined.

Lemma stop_returns_witness :
  stop_called (after small busy) = true /\ waits_of [WriteEnds Raises] <= waits_of_stop small (after small busy).
Proof.
  assert (H : reached small busy (after small busy)) by by vm_compute.
  assert (Hc : stop_called (after small busy) = true) by by vm_compute.
  destruct (stop_returns small busy _ ltac:(simpl; lia) H Hc) as (_ & Hb).
  split; [exact Hc|].
  assert (Hr : run small [WriteEnds Raises] (after small busy) = Some (after small (busy ++ [WriteEnds Raises]))) by by vm_compute.
  assert (Hn : Starts ∉ [WriteEnds Raises]) by by intros [?|[]%elem_of_nil]%elem_of_cons.
  specialize (Hb _ _ Hn Hr).
  by rewrite Nat.mul_0_r, Nat.add_0_r in Hb.
Defined.

(** The timeout of a stop that waits for the task is spent on the task's flush.  What is queued is then written with no
    timeout at all. *)
Lemma stop_outlasts_its_timeout :
  let es := [Starts; Puts (row "a"); Collects; Puts (row "b"); Stops; TimesOut false; TaskEnded] in
  still_stopping (after small es) = true /\ step small (TimesOut false) (after small es) = None /\
  still_stopping (after small (es ++ [WriteEnds Unreachable; BackoffEnds])) = true.
Proof. by vm_compute. Qed.

(** Cut short, a salvage has its rows counted as dropped again, those written and those dropped already among them. *)
Lemma interrupted_salvage_counts_twice :
  let es := [Starts; Puts (row "a"); Puts (row "b"); Collects; WriteEnds RefusesRows; WriteEnds Commits; Stops;
             TimesOut false; TaskEnded] in
  has_stopped (after small es) = true /\ puts_of es = 2 /\ id <$> usage_logs (after small es) = ["a"]%string /\
  rows_written (after small es) = 1 /\ rows_dropped (after small es) = 2.
Proof. by vm_compute. Qed.

(** An exception that is none of the database's: the batch is neither tried again nor counted, and raised from a drain it
    leaves [stop] with nothing counted. *)
Lemma other_errors_strand_rows :
  let es := [Starts; Puts (row "a"); Collects; WriteEnds Raises] in
  task (after small es) = Collecting /\ queue (after small es) = [] /\ usage_logs (after small es) = [] /\
  rows_dropped (after small es) = 0 /\
  let es := (es ++ [Puts (row "b"); Stops; TaskEnded; WriteEnds Raises])%list in
  stop_at (after small es) = StopFailed /\ rows_dropped (after small es) = 0.
Proof. by vm_compute. Qed.

(** ** The wrappers *)

Section Told.
Context {S : Type} `{inner : !LogWriter S}.

Fixpoint put_all (w : LogWriter S) (logs : list UsageLog) (s : S) : list (result raised bool) * S :=
  match logs with
  | [] => ([], s)
  | log :: logs => let '(r, s) := w log s in let '(rs, s) := put_all w logs s in (r :: rs, s)
  end.
End Told.

(** The rows a writer accepted, of those put. *)
Fixpoint accepted_by (logs : list UsageLog) (answers : list (result raised bool)) : list UsageLog :=
  match logs, answers with
  | log :: logs, Ok true :: answers => log :: accepted_by logs answers
  | _ :: logs, _ :: answers => accepted_by logs answers
  | _, _ => []
  end.

(** Whatever writer it wraps and however often it is put to, [SignalingLogWriter] answers as that writer, leaves it as it
    would be, and tells the port of exactly the rows that were accepted. *)
Lemma signaling_tells_accepted {S : Type} (inner : LogWriter S) logs s told :
  put_all (signaling (inner := inner)) logs (s, told) =
  let '(rs, s') := put_all inner logs s in (rs, (s', (told ++ (recorded_usage <$> accepted_by logs rs))%list)).
Proof.
  revert s told. induction logs as [|log logs IH]; intros s told; simpl; [by rewrite app_nil_r|].
  unfold signaling at 1, put_row. destruct (inner log s) as [r s1]. destruct r as [[]|e]; rewrite IH;
    destruct (put_all inner logs s1) as [rs s']; simpl; [by rewrite <- app_assoc|done..].
Qed.

Lemma tracing_put {S : Type} (inner : LogWriter S) traces takes_call log s calls :
  exists more, tracing (inner := inner) traces takes_call log (s, calls) =
    let '(r, s') := inner log s in (r, (s', (calls ++ more)%list)).
Proof.
  unfold tracing, put_row. destruct (inner log s) as [r s']. destruct (request_group_id log) as [group|].
  - destruct (traces group && takes_call (_llm_call log)); [by eexists|exists []; by rewrite app_nil_r].
  - exists []. by rewrite app_nil_r.
Qed.

(** Nor does a trace change how a row is written. *)
Lemma tracing_is_transparent {S : Type} (inner : LogWriter S) traces takes_call logs s calls :
  exists calls', put_all (tracing (inner := inner) traces takes_call) logs (s, calls) =
    let '(rs, s') := put_all inner logs s in (rs, (s', (calls ++ calls')%list)).
Proof.
  revert s calls. induction logs as [|log logs IH]; intros s calls; cbn [put_all]; [exists []; by rewrite app_nil_r|].
  destruct (tracing_put inner traces takes_call log s calls) as [more ->].
  destruct (inner log s) as [r s1]. destruct (IH s1 (calls ++ more)%list) as [calls' ->].
  destruct (put_all inner logs s1) as [rs s']. exists (more ++ calls')%list. by rewrite <- app_assoc.
Qed.
