(* ===== verification/ToolLoop.v ===== *)
(** The loop that runs the gateway's own tools between a provider's answers: the engine of [services/_tool_loop.py] and,
    of [services/mcp_loop.py], the strategy of the chat format it drives; with the pool of [services/tools/_combined_backend.py] and
    the caps of [services/tools/_use_budget.py].

    Providers and tools answer as functions of what the run has done before, so that each may answer anything at any
    time.  [json.loads], the SDK's objects and how a call is announced are arguments. *)
From Stdlib Require Import ZArith Lia String.
From stdpp Require Import base strings list option gmap.
From S2P Require Import Prelude ToolTally.

Local Open Scope string_scope.
Local Open Scope Z_scope.

(** ** Programs over a state *)

Definition M (S E A : Type) : Type := S -> result E A * S.
Definition ret {S E A} (a : A) : M S E A := fun s => (Ok a, s).
Definition raise {S E A} (e : E) : M S E A := fun s => (Err e, s).
Definition bind {S E A B} (m : M S E A) (k : A -> M S E B) : M S E B := fun s =>
  match m s with (Ok a, s) => k a s | (Err e, s) => (Err e, s) end.
Notation "'let!' x ':=' m 'in' k" := (bind m (fun x => k))
  (at level 10, x pattern, m at level 100, k at level 200) : otari_scope.
Local Open Scope otari_scope.

(** ** The engine *)

(** A [tool_choice]: no dict; or a dict, with the name its [function] carries where that is a dict, and its own; a name that
    is no string is none. *)
Inductive ToolChoice := ChoiceText (text : string) | ChoiceDict (function : option (option string)) (name : option string).

Definition _tool_name (entry : ToolChoice) : option string :=
  match entry with
  | ChoiceText _ => None
  | ChoiceDict (Some name) _ => name
  | ChoiceDict None name => name
  end.

Section Engine.
(** The state of a run, exceptions, results, messages of a transcript, tools, calls, what is carried across rounds, and
    the arguments of a provider the engine does not read. *)
Context {S E R Msg Tool Call Acc Rest : Type}.
Notation M := (M S E).

Record kwargs := mkKwargs {
  messages : option (list Msg);
  tools : option (list Tool);
  tool_choice : option ToolChoice;
  stream : option bool;
  others : Rest
}.

(** What each format contributes; the pool is in it, as is what the engine itself asks the pool. *)
Record ToolLoopStrategy := {
  openai_tools : list Tool;
  owns_tool : string -> bool;
  convert_pool_tools : list Tool -> list Tool;
  note : Msg;
  call : kwargs -> M R;
  new_usage_accumulator : Acc;
  accumulate_usage : Acc -> R -> Acc;
  fold_usage : R -> Acc -> R;
  exit_before_split : R -> bool;
  split_owned : R -> list Call * bool;
  exit_after_split : R -> bool;
  execute_owned : list Call -> Acc -> M Acc;
  filter_owned : R -> list Call -> R;
  advance_transcript : list Msg -> R -> list Call -> Acc -> M (list Msg * Acc)
}.

Context (strategy : ToolLoopStrategy).

(** [tools or []]. *)
Definition or_empty {A} (l : option (list A)) : list A := default [] l.

(** The transcript, the merged tools, the caller's tools, and the arguments every round shares. *)
Definition _prepare (k : kwargs) (drop_stream : bool) : list Msg * list Tool * list Tool * kwargs :=
  let user_tools := or_empty (tools k) in
  (or_empty (messages k), (user_tools ++ convert_pool_tools strategy (openai_tools strategy))%list, user_tools,
   mkKwargs None None (tool_choice k) (if drop_stream then None else stream k) (others k)).

Definition _round_kwargs (base : kwargs) (merged_tools user_tools : list Tool) (final : bool) : kwargs :=
  let round_tools := if final then user_tools else merged_tools in
  let declared := match round_tools with [] => None | _ => Some round_tools end in
  let choice :=
    if final then
      let names_owned := match tool_choice base ≫= _tool_name with Some name => owns_tool strategy name | None => false end in
      if negb (is_set declared) || names_owned then None else tool_choice base
    else tool_choice base in
  mkKwargs (messages base) declared choice (stream base) (others base).

Definition _round_transcript (transcript : list Msg) (final : bool) : list Msg :=
  if final then (transcript ++ [note strategy])%list else transcript.

Definition with_messages (transcript : list Msg) (s : option bool) (k : kwargs) : kwargs :=
  mkKwargs (Some transcript) (tools k) (tool_choice k) s (others k).

Context (MaxToolIterationsExceeded : E) (on_first_response : M unit) (check_first_response : R -> result E R).

(** The rounds that are left, [rounds_left]; [first] until a response has come. *)
Fixpoint rounds (rounds_left : nat) (base : kwargs) (merged_tools user_tools : list Tool) (transcript : list Msg) (acc : Acc)
    (first : bool) : M R :=
  match rounds_left with
  | O => raise MaxToolIterationsExceeded
  | Datatypes.S rounds_left =>
      let final := (rounds_left =? 0)%nat in
      let k := with_messages (_round_transcript transcript final) (Some false) (_round_kwargs base merged_tools user_tools final) in
      let! result := call strategy k in
      let! result :=
        (if first then
           match check_first_response result with
           | Err e => raise e
           | Ok result => let! _ := on_first_response in ret result
           end
         else ret result) in
      let acc := accumulate_usage strategy acc result in
      if exit_before_split strategy result then ret (fold_usage strategy result acc)
      else
        let '(owned, has_foreign) := split_owned strategy result in
        if has_foreign then
          match owned with
          | [] => ret (fold_usage strategy result acc)
          | _ =>
              let! acc := execute_owned strategy owned acc in
              ret (fold_usage strategy (filter_owned strategy result owned) acc)
          end
        else if (match owned with [] => true | _ => false end) || exit_after_split strategy result then
          ret (fold_usage strategy result acc)
        else
          let! (transcript, acc) := advance_transcript strategy transcript result owned acc in
          rounds rounds_left base merged_tools user_tools transcript acc false
  end.

Definition run_tool_loop (completion_kwargs : kwargs) (max_iterations : nat) : M R :=
  let '(transcript, merged_tools, user_tools, base) := _prepare completion_kwargs true in
  rounds max_iterations base merged_tools user_tools transcript (new_usage_accumulator strategy) true.
End Engine.
Arguments kwargs : clear implicits.
Arguments ToolLoopStrategy : clear implicits.
Arguments mkKwargs {Msg Tool Rest}.

(** ** Caps on calls *)

Definition MAX_USES_EXCEEDED_ERROR : string := "[tool error] max_uses_exceeded".

(** [_remaining]; absent where the request caps nothing. *)
Definition ToolUseBudget : Type := gmap string Z.

Definition caps (budget : ToolUseBudget) (owns : string -> bool) (name : string) : bool := is_set (budget !! name) && owns name.
Definition is_capped_call (budget : option ToolUseBudget) (owns : string -> bool) (name : string) : bool :=
  match budget with Some b => caps b owns name | None => false end.
Definition exhausted (budget : ToolUseBudget) (name : string) : bool :=
  match budget !! name with Some n => n <=? 0 | None => false end.
Definition record_use (budget : ToolUseBudget) (name result : string) : ToolUseBudget :=
  match budget !! name with
  | Some n => if is_tool_error result then budget else <[name := n - 1]> budget
  | None => budget
  end.

(** ** The chat format *)

Section Chat.
(** Arguments of a call, tools, messages of the caller, what a request says besides, exceptions of a provider, entries of
    [otari_tool_calls], and what the SDK keeps of a call besides. *)
Context {Args Tool Caller Rest X Entry Extra : Type}.
Context (loads : string -> option Args) (no_args : Args).

Record tool_call := mkCall { call_id : option string; call_name : string; call_arguments : string; extra_content : option Extra }.

(** A tool call of the SDK, with a [function] or of another kind. *)
Inductive sdk_call := FunctionCall (tc : tool_call) | OtherCall (custom : Extra).

(** [prompt_tokens_details] may carry a count of cached tokens. *)
Record CompletionUsage := mkUsage {
  prompt_tokens : Z; completion_tokens : Z; total_tokens : Z; prompt_tokens_details : option (option Z)
}.

Record choice := mkChoice { finish_reason : option string; content : option string; tool_calls : option (list sdk_call) }.

Record ChatCompletion := mkCompletion {
  choices : list choice; usage : option CompletionUsage; otari_tool_calls : option (list Entry)
}.

(** A transcript's messages: the caller's, those the loop adds, and [FINAL_ROUND_NOTE]. *)
Inductive message :=
| CallerMessage (m : Caller)
| AssistantCalls (calls : list tool_call)
| ToolMessage (tool_call_id content : string)
| FinalRoundNote.

Definition request : Type := kwargs message Tool Rest.

(** What a run does, in order. *)
Inductive action :=
| AsksProvider (k : request)
| LocksIn
| RunsTool (name : string) (args : Args)
| Reports (ended : bool) (entries : list Entry).

(** What a tool's call comes to: text, an exception, the limit the old backends raise, or an interruption. *)
Inductive called := Text (text : string) | Raised | LimitExceeded | Interrupted.

Inductive exn := MaxToolIterationsExceeded | EmptyCompletionError | ProviderError (x : X) | Interrupt.

Record run_state := mkRun { trace : list action; budget : option ToolUseBudget }.
Notation M := (M run_state exn).

Definition acts (a : action) : M unit := fun s => (Ok tt, mkRun (trace s ++ [a]) (budget s)).
Definition records (name text : string) : M unit := fun s =>
  (Ok tt, mkRun (trace s) ((fun b => record_use b name text) <$> budget s)).

(** *** Backends *)

Record ToolBackend := mkBackend {
  backend_tools : list Tool;
  owns : string -> bool;
  call_tool : list action -> string -> Args -> called;
  (** [None] where there is no such method, or it gives none. *)
  server_name_for_tool : string -> option string
}.

(** What the loop is given: one backend, or a [CombinedToolBackend]. *)
Inductive pool := One (b : ToolBackend) | Combined (bs : list ToolBackend).

Definition backend_for (bs : list ToolBackend) (name : string) : option ToolBackend := head (filter (fun b => owns b name = true) bs).

(** [CombinedToolBackend] has no [server_name_for_tool], and raises [KeyError] for a name nobody owns. *)
Definition as_backend (p : pool) : ToolBackend :=
  match p with
  | One b => b
  | Combined bs => {|
      backend_tools := concat (backend_tools <$> bs);
      owns name := is_set (backend_for bs name);
      call_tool t name args := match backend_for bs name with Some b => call_tool b t name args | None => Raised end;
      server_name_for_tool _ := None |}
  end.

Definition owning_backend (p : pool) (name : string) : ToolBackend :=
  match p with
  | One b => b
  | Combined bs => default (as_backend p) (backend_for bs name)
  end.

Definition tool_failure_detail (b : ToolBackend) (name : string) : string :=
  match server_name_for_tool b name with
  | Some server => if bool_decide (server = "") then "Gateway tool execution failed" else "MCP tool execution failed"
  | None => "Gateway tool execution failed"
  end.

(** *** Running the gateway's own calls *)

(** How the calls of a native tool, or of an MCP server's, are announced. *)
Record NativeRendering := mkRendering {
  started : tool_call -> list Entry; ran : tool_call -> string -> list Entry; refused : tool_call -> list Entry
}.

Context (p : pool) (native_rendering : string -> option NativeRendering).
Context (mcp_entry : tool_call -> string -> string -> option string -> Entry).

Definition reported (ended : bool) (entries : list Entry) : M (list (bool * list Entry)) :=
  let! _ := acts (Reports ended entries) in ret [(ended, entries)].
Definition unreported : M (list (bool * list Entry)) := ret [].

Definition id_or_empty (tc : tool_call) : string := default "" (call_id tc).

(** [json.loads(arguments or "{}")], nothing where that is no JSON. *)
Definition arguments_of (tc : tool_call) : Args :=
  default no_args (loads (if bool_decide (call_arguments tc = "") then "{}" else call_arguments tc)).

Definition is_capped (name : string) : M bool := fun s => (Ok (is_capped_call (budget s) (owns (as_backend p)) name), s).
Definition is_exhausted (name : string) : M bool := fun s =>
  (Ok (match budget s with Some b => exhausted b name | None => false end), s).
Definition tool_answers (b : ToolBackend) (name : string) (args : Args) : M called := fun s =>
  (Ok (call_tool b (trace s) name args), mkRun (trace s ++ [RunsTool name args]) (budget s)).

(** One turn of [_run_owned_calls]: the message of the call, and its reports. *)
Definition run_owned_call (tc : tool_call) : M (message * list (bool * list Entry)) :=
  let name := call_name tc in
  let args := arguments_of tc in
  let rendering := native_rendering name in
  let! capped := is_capped name in
  let! spent := is_exhausted name in
  if capped && spent then
    let! reports := match rendering with Some r => reported true (refused r tc) | None => unreported end in
    ret (ToolMessage (id_or_empty tc) MAX_USES_EXCEEDED_ERROR, reports)
  else
    let owner := owning_backend p name in
    let server := match rendering with Some _ => None | None => server_name_for_tool owner name end in
    let! begun :=
      match rendering, server with
      | Some r, _ => reported false (started r tc)
      | None, Some server => reported false [mcp_entry tc server "in_progress" None]
      | None, None => unreported
      end in
    let! outcome := tool_answers owner name args in
    let! text :=
      match outcome with
      | LimitExceeded =>
          let! _ := match rendering with Some r => reported true (refused r tc) | None => unreported end in
          raise MaxToolIterationsExceeded
      | Interrupted => raise Interrupt
      | Raised => ret ("[tool error] " ++ tool_failure_detail owner name)
      | Text text => let! _ := (if capped then records name text else ret tt) in ret text
      end in
    let! ended :=
      match rendering, server with
      | Some r, _ => reported true (ran r tc text)
      | None, Some server => reported true [mcp_entry tc server (if is_tool_error text then "failed" else "completed") (Some text)]
      | None, None => unreported
      end in
    ret (ToolMessage (id_or_empty tc) text, (begun ++ ended)%list).

Fixpoint _run_owned_calls (calls : list tool_call) : M (list message * list (bool * list Entry)) :=
  match calls with
  | [] => ret ([], [])
  | tc :: calls =>
      let! (m, reports) := run_owned_call tc in
      let! (ms, more) := _run_owned_calls calls in
      ret (m :: ms, (reports ++ more)%list)
  end.

(** The tool messages, and the entries of the calls that ended. *)
Definition _execute_mcp_calls (calls : list tool_call) : M (list message * list Entry) :=
  let! (results, reports) := _run_owned_calls calls in
  ret (results, concat (snd <$> filter (fun r => r.1 = true) reports)).

(** *** The strategy *)

Record _ChatTotals := mkTotals { prompt : Z; completion : Z; cache_read : Z; ended_calls : list Entry }.

Definition _add_usage (acc : _ChatTotals) (u : option CompletionUsage) : _ChatTotals :=
  match u with
  | None => acc
  | Some u =>
      mkTotals (prompt acc + prompt_tokens u) (completion acc + completion_tokens u)
        (cache_read acc + default 0 (default None (prompt_tokens_details u))) (ended_calls acc)
  end.

Definition _fold_usage (u : option CompletionUsage) (prompt_total completion_total cache_read_total : Z) : option CompletionUsage :=
  (fun u => mkUsage prompt_total completion_total (prompt_total + completion_total)
     (match prompt_tokens_details u with
      | Some _ => Some (Some cache_read_total)
      | None => if 0 <? cache_read_total then Some (Some cache_read_total) else None
      end)) <$> u.

Definition fold_chat (result : ChatCompletion) (acc : _ChatTotals) : ChatCompletion :=
  mkCompletion (choices result) (_fold_usage (usage result) (prompt acc) (completion acc) (cache_read acc))
    (match ended_calls acc with [] => otari_tool_calls result | entries => Some entries end).

Definition functions_of (calls : list sdk_call) : list tool_call :=
  omap (fun c => match c with FunctionCall tc => Some tc | OtherCall _ => None end) calls.

Definition _execute_split (calls : list tool_call) : list tool_call * bool :=
  (filter (fun tc => owns (as_backend p) (call_name tc) = true) calls,
   existsb (fun tc => negb (owns (as_backend p) (call_name tc))) calls).

Definition chat_exit_before_split (result : ChatCompletion) : bool :=
  match choices result with
  | [] => true
  | c :: _ => negb (bool_decide (finish_reason c = Some "tool_calls"))
  end.

Definition chat_split_owned (result : ChatCompletion) : list tool_call * bool :=
  match choices result with
  | [] => ([], false)
  | c :: _ => _execute_split (functions_of (or_empty (tool_calls c)))
  end.

(** [foreign_sdk_calls or None]. *)
Definition chat_filter_owned (result : ChatCompletion) : ChatCompletion :=
  match choices result with
  | [] => result
  | c :: rest =>
      let foreign := filter (fun call =>
        match call with FunctionCall tc => negb (owns (as_backend p) (call_name tc)) | OtherCall _ => false end = true)
        (or_empty (tool_calls c)) in
      mkCompletion (mkChoice (finish_reason c) (content c) (match foreign with [] => None | _ => Some foreign end) :: rest)
        (usage result) (otari_tool_calls result)
  end.

Definition _run_into (owned : list tool_call) (acc : _ChatTotals) : M (list message * _ChatTotals) :=
  let! (results, entries) := _execute_mcp_calls owned in
  ret (results, mkTotals (prompt acc) (completion acc) (cache_read acc) (ended_calls acc ++ entries)%list).

(** A provider answers a request as a function of what the run has done. *)
Context (acompletion : list action -> request -> result X ChatCompletion).

Definition chat_call (k : request) : M ChatCompletion := fun s =>
  (match acompletion (trace s) k with Ok r => Ok r | Err x => Err (ProviderError x) end,
   mkRun (trace s ++ [AsksProvider k]) (budget s)).

Definition _ChatToolLoopStrategy : ToolLoopStrategy run_state exn ChatCompletion message Tool tool_call _ChatTotals Rest := {|
  openai_tools := backend_tools (as_backend p);
  owns_tool := owns (as_backend p);
  convert_pool_tools tools := tools;
  note := FinalRoundNote;
  call := chat_call;
  new_usage_accumulator := mkTotals 0 0 0 [];
  accumulate_usage acc result := _add_usage acc (usage result);
  fold_usage := fold_chat;
  exit_before_split := chat_exit_before_split;
  split_owned := chat_split_owned;
  exit_after_split _ := false;
  execute_owned owned acc := let! (_, acc) := _run_into owned acc in ret acc;
  filter_owned result _ := chat_filter_owned result;
  advance_transcript transcript result owned acc :=
    let! (results, acc) := _run_into owned acc in
    ret ((transcript ++ AssistantCalls owned :: results)%list, acc)
|}.

Definition require_choices (result : ChatCompletion) : Prelude.result exn ChatCompletion :=
  match choices result with [] => Err EmptyCompletionError | _ => Ok result end.

Definition mcp_tool_loop (completion_kwargs : request) (max_iterations : nat) : M ChatCompletion :=
  run_tool_loop _ChatToolLoopStrategy MaxToolIterationsExceeded (acts LocksIn) require_choices completion_kwargs max_iterations.
End Chat.
