(* ===== verification/ToolLoopProofs.v ===== *)
(** What the loop that runs the gateway's tools promises: how often it asks a provider, that every call it was asked to
    make is answered, that the caller is handed no call only the gateway can make, that the usage of every round is
    counted, and that a cap on calls holds. *)
From Stdlib Require Import ZArith Lia String.
From stdpp Require Import base strings list option gmap.
From S2P Require Import Prelude ToolTally ToolLoop.

Local Open Scope Z_scope.
Local Open Scope otari_scope.

Section Loop.
Context {Args Tool Caller Rest X Entry Extra : Type}.
Context (loads : string -> option Args) (no_args : Args).
Abbreviation message := (@message Caller Extra).
Abbreviation action := (@action Args Tool Caller Rest Entry Extra).
Abbreviation request := (@request Tool Caller Rest Extra).
Abbreviation response := (@ChatCompletion Entry Extra).
Abbreviation tool_call := (@tool_call Extra).
Abbreviation run_state := (@run_state Args Tool Caller Rest Entry Extra).
Abbreviation pool := (@pool Args Tool Caller Rest Entry Extra).
Abbreviation NativeRendering := (@NativeRendering Entry Extra).
Abbreviation totals := (@_ChatTotals Entry).
Abbreviation exn := (@exn X).
Context (p : pool) (native_rendering : string -> option NativeRendering).
Context (mcp_entry : tool_call -> string -> string -> option string -> Entry).
Context (acompletion : list action -> request -> Prelude.result X response).

Abbreviation strategy := (_ChatToolLoopStrategy loads no_args p native_rendering mcp_entry acompletion).
Abbreviation run_into := (_run_into (X := X) loads no_args p native_rendering mcp_entry).
Abbreviation owned_name := (owns (as_backend p)).

(** ** One call *)

Abbreviation run_call := (run_owned_call (X := X) loads no_args p native_rendering mcp_entry).
Abbreviation run_calls := (_run_owned_calls (X := X) loads no_args p native_rendering mcp_entry).
Abbreviation args_of := (arguments_of loads no_args).
Abbreviation runs tc := (RunsTool (call_name tc) (args_of tc)).

(** Only reports. *)
Definition is_report (a : action) : bool := match a with Reports _ _ => true | _ => false end.
Definition quiet (t : list action) : Prop := Forall (fun a => is_report a = true) t.

Definition refused_in (s : run_state) (name : string) : bool :=
  is_capped_call (budget s) owned_name name && match budget s with Some b => exhausted b name | None => false end.

(** What the tool answers a call. *)
Definition tool_says (t : list action) (name : string) (args : Args) : called := call_tool (owning_backend p name) t name args.

(** The text the model reads, where the call gives one. *)
Definition text_of (name : string) (c : called) : option string :=
  match c with
  | Text text => Some text
  | Raised => Some ("[tool error] " ++ tool_failure_detail (owning_backend p name) name)%string
  | _ => None
  end.

(** The budget after a call of [name] the tool answered. *)
Definition charged (name : string) (c : called) (b : option ToolUseBudget) : option ToolUseBudget :=
  match c with
  | Text text => if is_capped_call b owned_name name then (fun b => record_use b name text) <$> b else b
  | _ => b
  end.

Inductive call_case (tc : tool_call) (s : run_state) : Prelude.result exn (message * list (bool * list Entry)) -> run_state -> Prop :=
| call_refused t reports : quiet t -> refused_in s (call_name tc) = true ->
    call_case tc s (Ok (ToolMessage (id_or_empty tc) MAX_USES_EXCEEDED_ERROR, reports)) (mkRun (trace s ++ t) (budget s))
| call_ran t t' text reports : quiet t -> quiet t' -> refused_in s (call_name tc) = false ->
    text_of (call_name tc) (tool_says (trace s ++ t) (call_name tc) (args_of tc)) = Some text ->
    call_case tc s (Ok (ToolMessage (id_or_empty tc) text, reports))
      (mkRun (trace s ++ t ++ runs tc :: t') (charged (call_name tc) (tool_says (trace s ++ t) (call_name tc) (args_of tc)) (budget s)))
| call_stopped t t' e : quiet t -> quiet t' -> refused_in s (call_name tc) = false ->
    match tool_says (trace s ++ t) (call_name tc) (args_of tc) with
    | LimitExceeded => e = MaxToolIterationsExceeded
    | Interrupted => e = Interrupt
    | _ => False
    end ->
    call_case tc s (Err e) (mkRun (trace s ++ t ++ runs tc :: t') (budget s)).

(** A report, or none, leaves a quiet trace. *)
Lemma reports_quietly (m : M run_state exn (list (bool * list Entry))) :
  (exists ended entries, m = reported ended entries) \/ m = unreported ->
  forall s, exists t reports, quiet t /\ m s = (Ok reports, mkRun (trace s ++ t) (budget s)).
Proof.
  intros [(ended & entries & ->)| ->] s.
  - exists [Reports ended entries], [(ended, entries)]. split; [by repeat constructor|done].
  - exists [], []. split; [constructor|]. unfold unreported, ret. rewrite app_nil_r. by destruct s.
Qed.

Lemma run_call_case tc s : let '(r, s') := run_call tc s in call_case tc s r s'.
Proof.
  unfold run_owned_call. cbv zeta.
  unfold bind at 1, is_capped. unfold bind at 1, is_exhausted. cbv beta iota.
  change (is_capped_call (budget s) owned_name (call_name tc) && match budget s with Some b => exhausted b (call_name tc) | None => false end)
    with (refused_in s (call_name tc)).
  destruct (refused_in s (call_name tc)) eqn:Er.
  - unfold bind at 1.
    match goal with |- context [match ?m s with _ => _ end] => destruct (reports_quietly m) with (s := s) as (t & reports & Hq & ->) end.
    { destruct (native_rendering (call_name tc)); [left; by do 2 eexists|by right]. }
    by apply call_refused.
  - unfold bind at 1.
    match goal with |- context [match ?m s with _ => _ end] => destruct (reports_quietly m) with (s := s) as (t & begun & Hq & ->) end.
    { destruct (native_rendering (call_name tc)); [left; by do 2 eexists|].
      destruct (server_name_for_tool _ _); [left; by do 2 eexists|by right]. }
    unfold bind at 1, tool_answers. cbv beta iota. cbn [trace budget].
    pose (ending text := match native_rendering (call_name tc), match native_rendering (call_name tc) with
        | Some _ => None | None => server_name_for_tool (owning_backend p (call_name tc)) (call_name tc) end with
      | Some r, _ => reported true (ran r tc text)
      | None, Some server => reported true [mcp_entry tc server (if is_tool_error text then "failed" else "completed")%string (Some text)]
      | None, None => unreported
      end : M run_state exn (list (bool * list Entry))).
    assert (Hend : forall text s, exists t reports, quiet t /\ ending text s = (Ok reports, mkRun (trace s ++ t) (budget s))).
    { intros text. apply reports_quietly. unfold ending.
      destruct (native_rendering (call_name tc)); [left; by do 2 eexists|].
      destruct (server_name_for_tool _ _); [left; by do 2 eexists|by right]. }
    match goal with |- context [bind ?m (fun text => bind _ _)] =>
      match goal with |- context [bind m ?k] => change k with (fun text => let! ended := ending text in
        ret (ToolMessage (id_or_empty tc) text, (begun ++ ended)%list) : M run_state exn (message * list (bool * list Entry))) end end.
    change (call_tool (owning_backend p (call_name tc)) (trace s ++ t) (call_name tc) (args_of tc))
      with (tool_says (trace s ++ t) (call_name tc) (args_of tc)).
    destruct (tool_says (trace s ++ t) (call_name tc) (args_of tc)) as [text| | |] eqn:Ec; unfold bind at 1.
    + pose proof (call_ran tc s t) as Hran. rewrite Ec in Hran. simpl in Hran.
      destruct (is_capped_call (budget s) owned_name (call_name tc)) eqn:Ecap; unfold bind, records, ret; cbn [trace budget].
      * match goal with |- context [ending ?x ?s1] => destruct (Hend x s1) as (t' & ended & Hq' & ->) end.
        cbn [trace budget]. rewrite <- !app_assoc. by apply Hran.
      * match goal with |- context [ending ?x ?s1] => destruct (Hend x s1) as (t' & ended & Hq' & ->) end.
        cbn [trace budget]. rewrite <- !app_assoc. by apply Hran.
    + pose proof (call_ran tc s t) as Hran. rewrite Ec in Hran. simpl in Hran. unfold bind, ret.
      match goal with |- context [ending ?x ?s1] => destruct (Hend x s1) as (t' & ended & Hq' & ->) end.
      cbn [trace budget]. rewrite <- !app_assoc. by apply Hran.
    + unfold bind.
      match goal with |- context [match ?m ?s1 with _ => _ end] => destruct (reports_quietly m) with (s := s1) as (t' & reports & Hq' & ->) end.
      { destruct (native_rendering (call_name tc)); [left; by do 2 eexists|by right]. }
      cbn [trace budget]. rewrite <- !app_assoc. apply call_stopped; auto. by rewrite Ec.
    + unfold raise. rewrite <- app_assoc. apply (call_stopped _ _ _ []); auto; [constructor|by rewrite Ec].
Qed.

(** ** The calls of one answer *)

Inductive calls_case : list tool_call -> run_state -> Prelude.result exn (list message) -> run_state -> Prop :=
| calls_done s : calls_case [] s (Ok []) s
| calls_stop tc calls s e s' : call_case tc s (Err e) s' -> calls_case (tc :: calls) s (Err e) s'
| calls_next tc calls s m reports s' r s'' : call_case tc s (Ok (m, reports)) s' -> calls_case calls s' r s'' ->
    calls_case (tc :: calls) s (match r with Ok ms => Ok (m :: ms) | Err e => Err e end) s''.

Lemma run_calls_case calls s : let '(r, s') := run_calls calls s in
  calls_case calls s (match r with Ok (ms, _) => Ok ms | Err e => Err e end) s'.
Proof.
  revert s. induction calls as [|tc calls IH]; intros s; cbn [_run_owned_calls]; [constructor|].
  unfold bind at 1. pose proof (run_call_case tc s) as H. destruct (run_call tc s) as [[[m reports]|e] s']; [|by constructor].
  unfold bind. specialize (IH s'). destruct (run_calls calls s') as [[[ms more]|e] s''].
  - by apply (calls_next _ _ _ _ _ _ (Ok ms) _ H).
  - by apply (calls_next _ _ _ _ _ _ (Err e) _ H).
Qed.

Lemma run_into_case calls acc s : let '(r, s') := run_into calls acc s in
  exists ms, calls_case calls s ms s' /\
  match r with
  | Ok (results, acc') => ms = Ok results /\ prompt acc' = prompt acc /\ completion acc' = completion acc /\ cache_read acc' = cache_read acc
  | Err e => ms = Err e
  end.
Proof.
  unfold _run_into, _execute_mcp_calls, bind, ret. pose proof (run_calls_case calls s) as H.
  destruct (run_calls calls s) as [[[ms reports]|e] s']; eexists; split; [exact H| |exact H|]; by simpl.
Qed.

(** *** What a trace shows *)

Definition requests_of (t : list action) : list request := omap (fun a => match a with AsksProvider k => Some k | _ => None end) t.
Definition tool_runs (t : list action) : list (string * Args) := omap (fun a => match a with RunsTool n x => Some (n, x) | _ => None end) t.

(** The calls of [name] that succeeded, after [before]. *)
Fixpoint successes (name : string) (before t : list action) : Z :=
  match t with
  | [] => 0
  | a :: t =>
      match a with
      | RunsTool n args =>
          match tool_says before n args with
          | Text text => if bool_decide (n = name) && negb (is_tool_error text) then 1 else 0
          | _ => 0
          end
      | _ => 0
      end + successes name (before ++ [a]) t
  end.

(** The responses a provider gave, after [before]. *)
Fixpoint responses (before t : list action) : list response :=
  match t with
  | [] => []
  | a :: t =>
      (match a with AsksProvider k => match acompletion before k with Ok r => [r] | Err _ => [] end | _ => [] end ++
       responses (before ++ [a]) t)%list
  end.

Lemma successes_app name before t t' : successes name before (t ++ t') = successes name before t + successes name (before ++ t) t'.
Proof.
  revert before. induction t as [|a t IH]; intros before; simpl; [by rewrite app_nil_r|].
  rewrite IH, <- app_assoc. simpl. lia.
Qed.

Lemma responses_app before t t' : responses before (t ++ t') = (responses before t ++ responses (before ++ t) t')%list.
Proof.
  revert before. induction t as [|a t IH]; intros before; simpl; [by rewrite app_nil_r|].
  by rewrite IH, <- !app_assoc.
Qed.

Lemma successes_nonneg name before t : 0 <= successes name before t.
Proof.
  revert before. induction t as [|a t IH]; intros before; simpl; [lia|]. specialize (IH (before ++ [a])%list).
  destruct a; try lia. destruct (tool_says _ _ _); try lia. destruct (_ && _); lia.
Qed.

Lemma quiet_shows t : quiet t ->
  requests_of t = [] /\ tool_runs t = [] /\ forall before, responses before t = [] /\ forall name, successes name before t = 0.
Proof.
  induction 1 as [|a t Ha _ (H1 & H2 & H3)]; [done|]. destruct a; try done. simpl. by split_and!.
Qed.

Lemma requests_of_app t t' : requests_of (t ++ t') = (requests_of t ++ requests_of t')%list.
Proof. apply omap_app. Qed.
Lemma tool_runs_app t t' : tool_runs (t ++ t') = (tool_runs t ++ tool_runs t')%list.
Proof. apply omap_app. Qed.

(** A message answers a call. *)
Definition answers (tc : tool_call) (m : message) : Prop := exists text, m = ToolMessage (id_or_empty tc) text.

(** What is kept of a cap: what is left of it is what it was less the calls that succeeded, never more than it allowed. *)
Definition cap_kept (s s' : run_state) (t : list action) : Prop := forall name b m, budget s = Some b -> b !! name = Some m ->
  exists b', budget s' = Some b' /\ b' !! name = Some (m - successes name (trace s) t) /\ successes name (trace s) t <= Z.max m 0.

Record calls_facts (calls : list tool_call) (s : run_state) (r : Prelude.result exn (list message)) (s' : run_state)
    (t : list action) : Prop := {
  facts_trace : trace s' = (trace s ++ t)%list;
  facts_requests : requests_of t = [] /\ responses (trace s) t = [];
  facts_runs : tool_runs t `sublist_of` ((fun tc => (call_name tc, args_of tc)) <$> calls);
  facts_all_run : budget s = None -> is_Some (match r with Ok ms => Some ms | Err _ => None end) ->
    tool_runs t = (fun tc => (call_name tc, args_of tc)) <$> calls;
  facts_answers : forall ms, r = Ok ms -> Forall2 answers calls ms;
  facts_error : forall e, r = Err e -> e = Interrupt \/ e = MaxToolIterationsExceeded /\ exists t n x, tool_says t n x = LimitExceeded;
  facts_caps : cap_kept s s' t;
  facts_no_budget : budget s = None -> budget s' = None
}.

(** One call counts against its own cap alone. *)
Definition succeeded (c : called) : Z := match c with Text text => if is_tool_error text then 0 else 1 | _ => 0 end.

Lemma successes_of_call name before t t' (tc : tool_call) : quiet t -> quiet t' ->
  successes name before (t ++ runs tc :: t') =
  if bool_decide (call_name tc = name) then succeeded (tool_says (before ++ t) (call_name tc) (args_of tc)) else 0.
Proof.
  intros (_ & _ & H1)%quiet_shows (_ & _ & H2)%quiet_shows. rewrite successes_app. destruct (H1 before) as [_ ->]. simpl.
  destruct (H2 ((before ++ t) ++ [runs tc])%list) as [_ ->]. unfold succeeded.
  destruct (tool_says _ _ _); case_bool_decide; simpl; try lia. destruct (is_tool_error text); simpl; lia.
Qed.

Lemma charged_lookup name c b m (tc : tool_call) : b !! name = Some m -> owned_name (call_name tc) = true ->
  exists b', charged (call_name tc) c (Some b) = Some b' /\
    b' !! name = Some (m - if bool_decide (call_name tc = name) then succeeded c else 0).
Proof.
  intros Hm Ho. unfold charged, succeeded, is_capped_call, caps, record_use. rewrite Ho, andb_true_r.
  destruct c as [text| | |]; try (exists b; split; [done|]; case_bool_decide; by rewrite Z.sub_0_r).
  destruct (decide (call_name tc = name)) as [->|Hn].
  - rewrite Hm, bool_decide_true by done. eexists; split; [done|]. cbv beta. rewrite Hm.
    destruct (is_tool_error text); [by rewrite Z.sub_0_r, Hm|apply lookup_insert_eq].
  - rewrite bool_decide_false, Z.sub_0_r by done. destruct (b !! call_name tc) as [k|] eqn:Ek; [|by exists b].
    eexists; split; [done|]. cbv beta. rewrite Ek.
    destruct (is_tool_error text); [done|]. etrans; [by apply lookup_insert_ne|done].
Qed.

Lemma unrefused_has_room s b (tc : tool_call) m : refused_in s (call_name tc) = false -> budget s = Some b -> b !! call_name tc = Some m ->
  owned_name (call_name tc) = true -> 0 < m.
Proof.
  unfold refused_in, is_capped_call, caps, exhausted. intros H Hb Hm Ho. rewrite Hb, Hm, Ho in H. simpl in H. by apply Z.leb_gt in H.
Qed.

Lemma succeeded_bounds c : 0 <= succeeded c <= 1.
Proof. destruct c; simpl; try lia. destruct (is_tool_error text); lia. Qed.

Lemma cap_kept_call (tc : tool_call) s t t' : owned_name (call_name tc) = true -> quiet t -> quiet t' -> refused_in s (call_name tc) = false ->
  cap_kept s (mkRun (trace s ++ t ++ runs tc :: t')
    (charged (call_name tc) (tool_says (trace s ++ t) (call_name tc) (args_of tc)) (budget s))) (t ++ runs tc :: t').
Proof.
  intros Ho Hq Hq' Hr name b m Hb Hm. rewrite (successes_of_call _ _ _ _ _ Hq Hq'). simpl. rewrite Hb.
  destruct (charged_lookup name (tool_says (trace s ++ t) (call_name tc) (args_of tc)) b m tc Hm Ho) as (b' & Hc & Hl).
  exists b'. split_and!; [done|done|]. case_bool_decide as Hn; [|lia]. subst name.
  pose proof (unrefused_has_room s b tc m Hr Hb Hm Ho). pose proof (succeeded_bounds (tool_says (trace s ++ t) (call_name tc) (args_of tc))).
  lia.
Qed.

Lemma cap_kept_quiet s t : quiet t -> cap_kept s (mkRun (trace s ++ t) (budget s)) t.
Proof.
  intros (_ & _ & Hq)%quiet_shows name b m Hb Hm. destruct (Hq (trace s)) as [_ ->]. exists b. rewrite Z.sub_0_r. split_and!; [done|done|lia].
Qed.

Lemma cap_kept_trans s s1 s2 t1 t2 : trace s1 = (trace s ++ t1)%list -> cap_kept s s1 t1 -> cap_kept s1 s2 t2 ->
  cap_kept s s2 (t1 ++ t2).
Proof.
  intros Ht H1 H2 name b m Hb Hm. destruct (H1 _ _ _ Hb Hm) as (b1 & Hb1 & Hm1 & Hle).
  destruct (H2 _ _ _ Hb1 Hm1) as (b2 & Hb2 & Hm2 & Hle2). rewrite Ht in *. exists b2. rewrite successes_app.
  pose proof (successes_nonneg name (trace s) t1). split_and!; [done|rewrite Hm2; f_equal; lia|lia].
Qed.

Lemma one_run_shows t t' (tc : tool_call) before : quiet t -> quiet t' ->
  requests_of (t ++ runs tc :: t') = [] /\ responses before (t ++ runs tc :: t') = [] /\
  tool_runs (t ++ runs tc :: t') = [(call_name tc, args_of tc)].
Proof.
  intros (H1 & H2 & H3)%quiet_shows (H1' & H2' & H3')%quiet_shows. rewrite requests_of_app, responses_app, tool_runs_app.
  simpl. rewrite H1, H1', H2, H2'. destruct (H3 before) as [-> _]. by destruct (H3' ((before ++ t) ++ [runs tc])%list) as [-> _].
Qed.

Lemma call_facts (tc : tool_call) s r s' : owned_name (call_name tc) = true -> call_case tc s r s' ->
  exists t, calls_facts [tc] s (match r with Ok (m, _) => Ok [m] | Err e => Err e end) s' t.
Proof.
  intros Ho [t reports Hq Hr|t t' text reports Hq Hq' Hr Ht|t t' e Hq Hq' Hr He].
  - exists t. destruct (quiet_shows t Hq) as (H1 & H2 & H3). split; simpl; try done.
    + split; [done|]. by destruct (H3 (trace s)).
    + rewrite H2. apply sublist_nil_l.
    + intros Hb _. unfold refused_in in Hr. by rewrite Hb in Hr.
    + intros ms [= <-]. constructor; [by eexists|constructor].
    + by apply cap_kept_quiet.
  - exists (t ++ runs tc :: t')%list. destruct (one_run_shows t t' tc (trace s) Hq Hq') as (H1 & H2 & H3). split; simpl; try done.
    + by rewrite H3.
    + intros ms [= <-]. constructor; [by eexists|constructor].
    + by apply cap_kept_call.
    + intros Hb. rewrite Hb. unfold charged. by destruct (tool_says _ _ _).
  - exists (t ++ runs tc :: t')%list. destruct (one_run_shows t t' tc (trace s) Hq Hq') as (H1 & H2 & H3). split; simpl; try done.
    + by rewrite H3.
    + intros e' [= <-]. destruct (tool_says _ _ _) eqn:Ec; try done; [right|by left]. split; [done|by do 3 eexists].
    + assert (Hch : charged (call_name tc) (tool_says (trace s ++ t) (call_name tc) (args_of tc)) (budget s) = budget s)
        by (unfold charged; by destruct (tool_says _ _ _)).
      rewrite <- Hch at 1. by apply cap_kept_call.
Qed.

Lemma calls_facts_trans tc calls s m s' r s'' t1 t2 : calls_facts [tc] s (Ok [m]) s' t1 -> calls_facts calls s' r s'' t2 ->
  calls_facts (tc :: calls) s (match r with Ok ms => Ok (m :: ms) | Err e => Err e end) s'' (t1 ++ t2).
Proof.
  intros [A1 [A2 A2'] A3 A4 A5 A6 A7 A8] [B1 [B2 B2'] B3 B4 B5 B6 B7 B8]. split.
  - by rewrite B1, A1, app_assoc.
  - rewrite requests_of_app, responses_app, A2, A2', B2, <- A1, B2'. done.
  - rewrite tool_runs_app. apply (sublist_app _ [_]); done.
  - intros Hb Hr. rewrite tool_runs_app, A4 by done. rewrite B4; [done|by auto|]. by destruct r.
  - intros ms Hms. destruct r as [ms'|e]; [|done]. simplify_eq. specialize (A5 _ eq_refl). constructor; [by inversion A5|by apply B5].
  - intros e He. destruct r as [ms'|e']; [done|]. simplify_eq. by apply B6.
  - by eapply cap_kept_trans.
  - auto.
Qed.

Lemma calls_facts_hold calls s r s' : Forall (fun tc => owned_name (call_name tc) = true) calls -> calls_case calls s r s' ->
  exists t, calls_facts calls s r s' t.
Proof.
  intros Ho H. induction H as [s|tc calls s e s' H|tc calls s m reports s' r s'' H _ IH].
  - exists []. split; simpl; try done; [by rewrite app_nil_r|by intros ms [= <-]|].
    intros name b m Hb Hm. exists b. simpl. rewrite Z.sub_0_r. split_and!; [done|done|lia].
  - inversion Ho as [|? ? Htc Hcalls]; subst. destruct (call_facts _ _ _ _ Htc H) as [t [A1 A2 A3 A4 A5 A6 A7 A8]].
    exists t. split; try done. etrans; [exact A3|]. simpl. apply sublist_skip, sublist_nil_l.
  - inversion Ho as [|? ? Htc Hcalls]; subst. destruct (call_facts _ _ _ _ Htc H) as [t1 H1].
    destruct (IH Hcalls) as [t2 H2]. exists (t1 ++ t2)%list. by eapply calls_facts_trans.
Qed.

(** ** The rounds as a relation *)

Section Rounds.
Context (base : request) (merged_tools user_tools : list Tool).

(** The request of a round with [n] after it. *)
Definition round_request (n : nat) (transcript : list message) : request :=
  with_messages (_round_transcript strategy transcript (n =? 0)%nat) (Some false)
    (_round_kwargs strategy base merged_tools user_tools (n =? 0)%nat).

(** After the provider has answered. *)
Definition answered (first : bool) (k : request) (s : run_state) : run_state :=
  mkRun (trace s ++ AsksProvider k :: if first then [LocksIn] else []) (budget s).

Definition owned_of (r : response) : list tool_call := (chat_split_owned p r).1.
Definition foreign_in (r : response) : bool := (chat_split_owned p r).2.

Inductive round_runs : nat -> list message -> totals -> bool -> run_state -> Prelude.result exn response -> run_state -> Prop :=
| out_of_rounds transcript acc first s : round_runs 0 transcript acc first s (Err MaxToolIterationsExceeded) s
| provider_fails n transcript acc first s x : acompletion (trace s) (round_request n transcript) = Err x ->
    round_runs (S n) transcript acc first s (Err (ProviderError x)) (answered false (round_request n transcript) s)
| first_is_empty n transcript acc s r : acompletion (trace s) (round_request n transcript) = Ok r -> choices r = [] ->
    round_runs (S n) transcript acc true s (Err EmptyCompletionError) (answered false (round_request n transcript) s)
| final_answer n transcript acc first s r : acompletion (trace s) (round_request n transcript) = Ok r ->
    (first = true -> choices r <> []) -> chat_exit_before_split r = true \/ owned_of r = [] ->
    round_runs (S n) transcript acc first s (Ok (fold_chat r (_add_usage acc (usage r))))
      (answered first (round_request n transcript) s)
| calls_fail n transcript acc first s r e s' : acompletion (trace s) (round_request n transcript) = Ok r ->
    chat_exit_before_split r = false ->
    run_into (owned_of r) (_add_usage acc (usage r)) (answered first (round_request n transcript) s) = (Err e, s') ->
    round_runs (S n) transcript acc first s (Err e) s'
| mixed_answer n transcript acc first s r results acc' s' : acompletion (trace s) (round_request n transcript) = Ok r ->
    chat_exit_before_split r = false -> owned_of r <> [] -> foreign_in r = true ->
    run_into (owned_of r) (_add_usage acc (usage r)) (answered first (round_request n transcript) s) = (Ok (results, acc'), s') ->
    round_runs (S n) transcript acc first s (Ok (fold_chat (chat_filter_owned p r) acc')) s'
| goes_on n transcript acc first s r results acc' s' answer s'' : acompletion (trace s) (round_request n transcript) = Ok r ->
    chat_exit_before_split r = false -> owned_of r <> [] -> foreign_in r = false ->
    run_into (owned_of r) (_add_usage acc (usage r)) (answered first (round_request n transcript) s) = (Ok (results, acc'), s') ->
    round_runs n (transcript ++ AssistantCalls (owned_of r) :: results) acc' false s' answer s'' ->
    round_runs (S n) transcript acc first s answer s''.

(** After the first response, which has choices, the engine locks the provider in. *)
Definition once_answered (first : bool) (r : response) : M run_state exn response :=
  if first then
    match require_choices r with Err e => raise e | Ok r => let! _ := acts LocksIn in ret r end
  else ret r.

Lemma once_answered_spec first r k s :
  choices r = [] /\ first = true /\ once_answered first r (answered false k s) = (Err EmptyCompletionError, answered false k s) \/
  (first = true -> choices r <> []) /\ once_answered first r (answered false k s) = (Ok r, answered first k s).
Proof.
  unfold once_answered, require_choices. destruct first; [|by right].
  destruct (choices r) eqn:Ec; [by left|]. right. split; [done|].
  unfold bind, acts, ret, answered. simpl. by rewrite <- app_assoc.
Qed.

Lemma rounds_run n transcript acc first s :
  let '(answer, s') := rounds strategy MaxToolIterationsExceeded (acts LocksIn) require_choices n base merged_tools user_tools
    transcript acc first s in
  round_runs n transcript acc first s answer s'.
Proof.
  revert transcript acc first s. induction n as [|n IH]; intros transcript acc first s; [constructor|].
  cbn [rounds]. change (with_messages _ _ _) with (round_request n transcript).
  unfold bind at 1. cbn [call _ChatToolLoopStrategy]. unfold chat_call.
  change (mkRun (trace s ++ [AsksProvider (round_request n transcript)]) (budget s))
    with (answered false (round_request n transcript) s).
  destruct (acompletion (trace s) (round_request n transcript)) as [r|x] eqn:Ea; [|by constructor].
  unfold bind at 1. change (if first then _ else _) with (once_answered first r).
  destruct (once_answered_spec first r (round_request n transcript) s) as [(Hc & -> & ->)|[Hc ->]]; [by econstructor|].
  cbn [exit_before_split split_owned accumulate_usage fold_usage exit_after_split execute_owned filter_owned advance_transcript
    _ChatToolLoopStrategy].
  destruct (chat_exit_before_split r) eqn:Eb; [apply final_answer; by auto|].
  destruct (chat_split_owned p r) as [owned foreign] eqn:Es.
  assert (Eo : owned_of r = owned) by (unfold owned_of; by rewrite Es).
  assert (Ef : foreign_in r = foreign) by (unfold foreign_in; by rewrite Es).
  destruct foreign; [destruct owned as [|tc owned]; [by apply final_answer; auto|]|].
  - rewrite <- Eo in *. unfold bind. cbv beta iota.
    destruct (run_into (owned_of r) (_add_usage acc (usage r)) (answered first (round_request n transcript) s)) as [[[results acc']|e] s'] eqn:Er; [|by eapply calls_fail].
    eapply mixed_answer; [done|done|by rewrite Eo|done|done].
  - destruct owned as [|tc owned]; [by apply final_answer; auto|]. change (false || false) with false.
    rewrite <- Eo in *. unfold bind at 1 2. cbv beta iota.
    destruct (run_into (owned_of r) (_add_usage acc (usage r)) (answered first (round_request n transcript) s)) as [[[results acc']|e] s'] eqn:Er; [|by eapply calls_fail].
    cbn -[rounds]. specialize (IH (transcript ++ AssistantCalls (owned_of r) :: results) acc' false s').
    destruct (rounds _ _ _ _ n _ _ _ _ _ _ s') as [answer s'']. eapply goes_on; [done|done|by rewrite Eo|done|done|exact IH].
Qed.
(** ** What a run of rounds shows *)

(** The calls a response asks the loop to make. *)
Definition asked_calls (r : response) : list (string * Args) :=
  if chat_exit_before_split r then [] else (fun tc => (call_name tc, args_of tc)) <$> owned_of r.

(** What the caller is handed of a response: all of it, less the gateway's own calls where it ended to make calls. *)
Definition handed (r : response) : list choice :=
  if chat_exit_before_split r then choices r
  else match owned_of r with [] => choices r | _ => choices (chat_filter_owned p r) end.

(** Where the first choice ended to make calls, they are for the caller to make. *)
Definition hides_owned (a : response) : Prop := forall c rest tc, choices a = c :: rest -> finish_reason c = Some "tool_calls"%string ->
  tc ∈ functions_of (or_empty (tool_calls c)) -> owned_name (call_name tc) = false.

Definition prompts (rs : list response) : Z := sumZ (fun r => match usage r with Some u => prompt_tokens u | None => 0 end) rs.
Definition completions (rs : list response) : Z := sumZ (fun r => match usage r with Some u => completion_tokens u | None => 0 end) rs.
Definition cached (rs : list response) : Z :=
  sumZ (fun r => match usage r with Some u => default 0 (default None (prompt_tokens_details u)) | None => 0 end) rs.

Definition no_response : response := mkCompletion [] None None.

(** [n] rounds at most. *)
Record rounds_facts (n : nat) (acc : totals) (s : run_state) (answer : Prelude.result exn response)
    (s' : run_state) (t : list action) : Prop := {
  rf_trace : trace s' = (trace s ++ t)%list;
  rf_count : (length (requests_of t) <= n)%nat;
  rf_runs : tool_runs t `sublist_of` concat (asked_calls <$> responses (trace s) t);
  rf_all_run : budget s = None -> (forall e, answer <> Err e) -> tool_runs t = concat (asked_calls <$> responses (trace s) t);
  rf_usage : forall a, answer = Ok a ->
    usage a = _fold_usage (usage (List.last (responses (trace s) t) no_response))
      (prompt acc + prompts (responses (trace s) t)) (ToolLoop.completion acc + completions (responses (trace s) t))
      (cache_read acc + cached (responses (trace s) t));
  rf_answered : forall a, answer = Ok a -> responses (trace s) t <> [];
  rf_handed : forall a, answer = Ok a -> choices a = handed (List.last (responses (trace s) t) no_response);
  rf_hides : forall a, answer = Ok a -> hides_owned a;
  rf_caps : cap_kept s s' t;
  rf_error : answer = Err MaxToolIterationsExceeded -> length (requests_of t) = n \/ exists t n x, tool_says t n x = LimitExceeded
}.

Definition asks (first : bool) (k : request) : list action := AsksProvider k :: if first then [LocksIn] else [].

Lemma asks_shows first k before : requests_of (asks first k) = [k] /\ tool_runs (asks first k) = [] /\
  responses before (asks first k) = (match acompletion before k with Ok r => [r] | Err _ => [] end) /\
  forall name, successes name before (asks first k) = 0.
Proof. destruct first; simpl; destruct (acompletion before k); done. Qed.

Lemma cap_kept_asks first k s : cap_kept s (answered first k s) (asks first k).
Proof.
  intros name b m Hb Hm. destruct (asks_shows first k (trace s)) as (_ & _ & _ & ->). exists b. rewrite Z.sub_0_r.
  split_and!; [done|done|lia].
Qed.

Lemma owned_of_owned r : Forall (fun tc => owned_name (call_name tc) = true) (owned_of r).
Proof.
  unfold owned_of, chat_split_owned. destruct (choices r); [constructor|]. simpl. apply Forall_forall. intros tc.
  by intros [? _]%list_elem_of_filter.
Qed.

Lemma exits_hide (r : response) : chat_exit_before_split r = true -> forall u e, hides_owned (mkCompletion (choices r) u e).
Proof.
  unfold chat_exit_before_split, hides_owned. simpl. intros H u e c rest tc Hc Hf. rewrite Hc in H. simpl in H.
  apply negb_true_iff, bool_decide_eq_false in H. done.
Qed.

Lemma nothing_owned_hides (r : response) : owned_of r = [] -> forall u e, hides_owned (mkCompletion (choices r) u e).
Proof.
  unfold owned_of, chat_split_owned, hides_owned. simpl. intros H u e c rest tc Hc _ Htc. rewrite Hc in H. simpl in H.
  destruct (owned_name (call_name tc)) eqn:Eo; [|done]. exfalso.
  assert (tc ∈ ([] : list tool_call)) as []%elem_of_nil. rewrite <- H. by apply list_elem_of_filter.
Qed.

Lemma filter_hides (r : response) : forall u e, hides_owned (mkCompletion (choices (chat_filter_owned p r)) u e).
Proof.
  unfold chat_filter_owned, hides_owned. intros u e c rest tc. destruct (choices r) as [|c0 rest0] eqn:Ec; simpl; [by rewrite Ec|].
  intros [= <- <-] _. simpl. set (foreign := filter _ _).
  assert (Hf : tc ∈ functions_of foreign -> owned_name (call_name tc) = false).
  { unfold functions_of. intros (c & Hc & Hs)%list_elem_of_omap. apply list_elem_of_filter in Hc as [Hp _].
    destruct c; simplify_eq. by apply negb_true_iff in Hp. }
  destruct foreign; [by intros ?%elem_of_nil|done].
Qed.

(** A round whose answer asked for calls. *)
Lemma round_shows first k s r acc answer s' : acompletion (trace s) k = Ok r ->
  run_into (owned_of r) acc (answered first k s) = (answer, s') -> chat_exit_before_split r = false ->
  exists t, trace s' = (trace s ++ t)%list /\ requests_of t = [k] /\ responses (trace s) t = [r] /\
    tool_runs t `sublist_of` asked_calls r /\ cap_kept s s' t /\ (budget s = None -> budget s' = None) /\
    match answer with
    | Ok (results, acc') => (budget s = None -> tool_runs t = asked_calls r) /\ Forall2 answers (owned_of r) results /\
        prompt acc' = prompt acc /\ ToolLoop.completion acc' = ToolLoop.completion acc /\ cache_read acc' = cache_read acc
    | Err e => e = MaxToolIterationsExceeded -> exists t n x, tool_says t n x = LimitExceeded
    end.
Proof.
  intros Ea Er Eb. pose proof (run_into_case (owned_of r) acc (answered first k s)) as H. rewrite Er in H.
  destruct H as (ms & Hc & Hms). destruct (calls_facts_hold _ _ _ _ (owned_of_owned r) Hc) as [t [A1 [A2 A2'] A3 A4 A5 A6 A7 A8]].
  destruct (asks_shows first k (trace s)) as (B1 & B2 & B3 & _). rewrite Ea in B3.
  assert (Et : trace (answered first k s) = (trace s ++ asks first k)%list) by done.
  exists (asks first k ++ t)%list. unfold asked_calls. rewrite Eb, requests_of_app, responses_app, tool_runs_app, B1, B2, B3, A2.
  rewrite Et in A2'. rewrite A2'. split_and!; try done.
  - by rewrite A1, Et, app_assoc.
  - eapply cap_kept_trans; [exact Et|apply cap_kept_asks|exact A7].
  - destruct answer as [[results acc']|e].
    + destruct Hms as (-> & ? & ? & ?). split_and!; try done; [|by apply A5]. intros Hb. apply A4; [done|by eexists].
    + intros ->. subst ms. by destruct (A6 _ eq_refl) as [?|[_ ?]].
Qed.

Lemma add_usage_totals (acc : totals) (r : response) rs :
  prompt (_add_usage acc (usage r)) + prompts rs = prompt acc + prompts (r :: rs) /\
  ToolLoop.completion (_add_usage acc (usage r)) + completions rs = ToolLoop.completion acc + completions (r :: rs) /\
  cache_read (_add_usage acc (usage r)) + cached rs = cache_read acc + cached (r :: rs).
Proof. unfold prompts, completions, cached. rewrite !sumZ_cons. destruct (usage r); simpl; lia. Qed.

Lemma filtered_usage (r : response) : usage (chat_filter_owned p r) = usage r.
Proof. unfold chat_filter_owned. by destruct (choices r). Qed.

Lemma round_runs_facts n transcript acc first s answer s' : round_runs n transcript acc first s answer s' ->
  exists t, rounds_facts n acc s answer s' t.
Proof.
  intros H. induction H as [transcript acc first s|n transcript acc first s x Ea|n transcript acc s r Ea Hc|
    n transcript acc first s r Ea Hc Hr|n transcript acc first s r e s' Ea Eb Er|n transcript acc first s r results acc' s' Ea Eb Ho Hf Er|
    n transcript acc first s r results acc' s' answer s'' Ea Eb Ho Hf Er _ IH].
  - exists []. split; simpl; try done; [by rewrite app_nil_r| |by left].
    intros name b m Hb Hm. exists b. simpl. rewrite Z.sub_0_r. split_and!; [done|done|lia].
  - set (k := round_request n transcript) in *. destruct (asks_shows false k (trace s)) as (B1 & B2 & B3 & _). rewrite Ea in B3.
    exists (asks false k). split; rewrite ?B1, ?B2, ?B3; try done; [simpl; lia|apply cap_kept_asks].
  - set (k := round_request n transcript) in *. destruct (asks_shows false k (trace s)) as (B1 & B2 & B3 & _). rewrite Ea in B3.
    exists (asks false k). split; rewrite ?B1, ?B2, ?B3; try done; [simpl; lia|apply sublist_nil_l| |apply cap_kept_asks].
    intros _ He. by destruct (He _ eq_refl).
  - set (k := round_request n transcript) in *. destruct (asks_shows first k (trace s)) as (B1 & B2 & B3 & _). rewrite Ea in B3.
    assert (Hasked : asked_calls r = []) by (unfold asked_calls; destruct Hr as [-> | ->]; [done|by destruct (chat_exit_before_split r)]).
    destruct (add_usage_totals acc r []) as (U1 & U2 & U3). unfold prompts, completions, cached in U1, U2, U3.
    rewrite sumZ_nil, Z.add_0_r in U1, U2, U3.
    exists (asks first k). split; rewrite ?B1, ?B2, ?B3; try done; [simpl; lia|apply sublist_nil_l| | | | |apply cap_kept_asks].
    + intros _ _. simpl. by rewrite Hasked.
    + intros a [= <-]. simpl. by rewrite U1, U2, U3.
    + intros a [= <-]. cbn. unfold handed. destruct Hr as [-> | ->]; [done|by destruct (chat_exit_before_split r)].
    + intros a [= <-]. destruct Hr as [Hr|Hr]; [by apply exits_hide|by apply nothing_owned_hides].
  - set (k := round_request n transcript) in *.
    destruct (round_shows _ _ _ _ _ _ _ Ea Er Eb) as (t & C1 & C2 & C3 & C4 & C5 & _ & C7).
    exists t. split; rewrite ?C2, ?C3; try done; [simpl; lia|by rewrite <- (app_nil_r (asked_calls r)) in C4| |].
    + intros _ He. by destruct (He _ eq_refl).
    + intros [= ->]. right. by apply C7.
  - set (k := round_request n transcript) in *.
    destruct (round_shows _ _ _ _ _ _ _ Ea Er Eb) as (t & C1 & C2 & C3 & C4 & C5 & _ & C7 & _ & P1 & P2 & P3).
    destruct (add_usage_totals acc r []) as (U1 & U2 & U3). unfold prompts, completions, cached in U1, U2, U3.
    rewrite sumZ_nil, Z.add_0_r in U1, U2, U3.
    exists t. split; rewrite ?C2, ?C3; try done; [simpl; lia|by rewrite <- (app_nil_r (asked_calls r)) in C4| | | | ].
    + intros Hb _. simpl. by rewrite app_nil_r, C7.
    + intros a [= <-]. simpl. by rewrite filtered_usage, P1, P2, P3, U1, U2, U3.
    + intros a [= <-]. cbn. unfold handed. rewrite Eb. by destruct (owned_of r).
    + intros a [= <-]. apply filter_hides.
  - set (k := round_request n transcript) in *.
    destruct (round_shows _ _ _ _ _ _ _ Ea Er Eb) as (t & C1 & C2 & C3 & C4 & C5 & C6 & C7 & C8 & P1 & P2 & P3).
    destruct IH as [t2 [D1 D2 D4 D5 D6 D6' Dh D7 D8 D9]].
    destruct (add_usage_totals acc r (responses (trace s') t2)) as (U1 & U2 & U3).
    rewrite C1 in D4, D5, D6, D6', Dh, U1, U2, U3.
    exists (t ++ t2)%list. split; rewrite ?requests_of_app, ?responses_app, ?tool_runs_app, ?C2, ?C3; try done.
    + by rewrite D1, C1, app_assoc.
    + simpl. lia.
    + simpl. by apply sublist_app.
    + intros Hb He. simpl. rewrite C7, D5 by auto. done.
    + intros a Ha. simpl. rewrite (D6 a Ha). specialize (D6' a Ha). destruct (responses _ t2) as [|r2 rs2] eqn:E2; [done|].
      by rewrite P1, P2, P3, U1, U2, U3.
    + intros a Ha. cbn [app]. rewrite (Dh a Ha). specialize (D6' a Ha). by destruct (responses _ t2).
    + by eapply cap_kept_trans.
    + intros Ha. destruct (D9 Ha) as [Hn|?]; [left; simpl; lia|by right].
Qed.
(** *** The conversation *)

Section Told.
Context (s0 : run_state).

(** What is left of the cap of [name]. *)
Definition cap_left (s : run_state) (name : string) : option Z := b ← budget s; b !! name.

(** [t0] is what was done since [s0]: the cap of [name] is spent when its calls succeeded as often as it allows. *)
Definition spent (t0 : list action) (name : string) : bool :=
  match cap_left s0 name with Some m => m <=? successes name (trace s0) t0 | None => false end.

(** [seg] runs the calls in turn, after [t0], and [ms] answers them, each by its id: with what the tool said to it, or what
    is said of its failure; a call whose cap is spent is not run, and is answered so. *)
Inductive plays : list action -> list tool_call -> list message -> list action -> Prop :=
| plays_none t0 : plays t0 [] [] []
| plays_refused t0 tc calls ms q seg : quiet q -> spent t0 (call_name tc) = true -> plays (t0 ++ q) calls ms seg ->
    plays t0 (tc :: calls) (ToolMessage (id_or_empty tc) MAX_USES_EXCEEDED_ERROR :: ms) (q ++ seg)
| plays_ran t0 tc calls text ms q q' seg : quiet q -> quiet q' -> spent t0 (call_name tc) = false ->
    text_of (call_name tc) (tool_says (trace s0 ++ t0 ++ q) (call_name tc) (args_of tc)) = Some text ->
    plays (t0 ++ q ++ runs tc :: q') calls ms seg ->
    plays t0 (tc :: calls) (ToolMessage (id_or_empty tc) text :: ms) (q ++ runs tc :: q' ++ seg).

(** What the turns done since [s0] added to the transcript: of each response, in order, the calls it made, all the
    gateway's, and the answers to them. *)
Inductive told : list action -> list message -> Prop :=
| told_nothing : told [] []
| told_turn t0 ms first k r results seg : told t0 ms -> acompletion (trace s0 ++ t0) k = Ok r ->
    chat_exit_before_split r = false -> owned_of r <> [] -> foreign_in r = false ->
    plays (t0 ++ asks first k) (owned_of r) results seg ->
    told (t0 ++ asks first k ++ seg) (ms ++ AssistantCalls (owned_of r) :: results).

Definition since (t0 : list action) (s : run_state) : Prop :=
  trace s = (trace s0 ++ t0)%list /\ forall name, cap_left s name = (fun m => m - successes name (trace s0) t0) <$> cap_left s0 name.

Lemma since_start : since [] s0.
Proof. split; [by rewrite app_nil_r|]. intros name. destruct (cap_left s0 name); [cbn; by rewrite Z.sub_0_r|done]. Qed.

Lemma since_app t0 t s b (f : string -> Z) : since t0 s ->
  (forall name, cap_left (mkRun (trace s ++ t) b) name = (fun m => m - f name) <$> cap_left s name) ->
  (forall name, successes name (trace s0 ++ t0) t = f name) -> since (t0 ++ t) (mkRun (trace s ++ t) b).
Proof.
  intros [Ht Hl] Hb Hf. split; [cbn [trace]; by rewrite Ht, app_assoc|]. intros name. rewrite Hb, Hl, successes_app, Hf.
  destruct (cap_left s0 name); [cbn; f_equal; lia|done].
Qed.

Lemma since_same t0 t s : since t0 s -> (forall name, successes name (trace s0 ++ t0) t = 0) -> since (t0 ++ t) (mkRun (trace s ++ t) (budget s)).
Proof.
  intros Hs Hn. eapply since_app; [done| |exact Hn]. intros name. change (cap_left (mkRun _ (budget s)) name) with (cap_left s name).
  destruct (cap_left s name); [cbn; by rewrite Z.sub_0_r|done].
Qed.

Lemma since_spent t0 s name : since t0 s -> owned_name name = true -> refused_in s name = spent t0 name.
Proof.
  intros [_ Hl] Ho. specialize (Hl name). unfold refused_in, spent, is_capped_call, caps, exhausted, cap_left in *. rewrite Ho.
  destruct (budget s) as [b|]; cbn [mbind option_bind] in Hl.
  - rewrite Hl. destruct (_ ≫= _) as [m|]; cbn; [|done]. apply eq_true_iff_eq. rewrite !Z.leb_le. lia.
  - by destruct (budget s0 ≫= _).
Qed.

Lemma charged_left name c b (tc : tool_call) t : owned_name (call_name tc) = true ->
  cap_left (mkRun t (charged (call_name tc) c b)) name
  = (fun m => m - if bool_decide (call_name tc = name) then succeeded c else 0) <$> cap_left (mkRun t b) name.
Proof.
  intros Ho. unfold cap_left. cbn [budget]. destruct b as [b|]; [|by destruct c]. cbn [mbind option_bind].
  destruct (b !! name) as [m|] eqn:Em; [by destruct (charged_lookup name c b m tc Em Ho) as (b' & -> & Hb')|].
  unfold charged, is_capped_call, caps, record_use. rewrite Ho, andb_true_r.
  destruct c as [text| | |]; cbn [mbind option_bind]; try by rewrite Em. destruct (b !! call_name tc) as [k|] eqn:Ek; cbn [is_set fmap option_fmap option_map mbind option_bind]; [|by rewrite Em].
  rewrite Ek. destruct (is_tool_error text); [by rewrite Em|].
  assert (<[call_name tc := k - 1]> b !! name = b !! name) as -> by (apply lookup_insert_ne; congruence). by rewrite Em.
Qed.

(** The calls of a response, run one by one. *)
Lemma calls_play calls s r s' t0 : Forall (fun tc => owned_name (call_name tc) = true) calls -> since t0 s -> calls_case calls s r s' ->
  exists seg, trace s' = (trace s ++ seg)%list /\ requests_of seg = [] /\ forall ms, r = Ok ms -> plays t0 calls ms seg /\ since (t0 ++ seg) s'.
Proof.
  intros Ho Hs H. revert t0 Hs. induction H as [s|tc calls s e s' H|tc calls s m reports s' r s'' H _ IH]; intros t0 Hs.
  - exists []. rewrite !app_nil_r. split_and!; [done..|]. intros ms [= <-]. split; [constructor|done].
  - inversion Ho as [|? ? Htc _]; subst. destruct (call_facts _ _ _ _ Htc H) as [t [A1 [A2 _] _ _ _ _ _ _]]. by exists t.
  - inversion Ho as [|? ? Htc Hcalls]; subst. remember (Ok (m, reports)) as out eqn:Eout.
    destruct H as [q reports' Hq Hr|q q' text reports' Hq Hq' Hr Ht|]; [..|done]; injection Eout as <- <-; rewrite (since_spent t0) in Hr by done.
    + pose proof (quiet_shows q Hq) as (Q1 & _ & Q3). assert (since (t0 ++ q) (mkRun (trace s ++ q) (budget s))) as Hs'.
      { apply since_same; [done|]. intros name. by destruct (Q3 (trace s0 ++ t0)%list) as [_ ->]. }
      destruct (IH Hcalls (t0 ++ q)%list Hs') as (seg & E1 & E2 & E3). exists (q ++ seg)%list. cbn [trace] in E1.
      rewrite requests_of_app, Q1, E2, E1, app_assoc. split_and!; [done..|]. intros ms Hms. destruct r as [ms'|]; [|done]. injection Hms as <-.
      destruct (E3 _ eq_refl) as [Hp Hn]. split; [by constructor|]. by rewrite app_assoc.
    + set (c := tool_says (trace s ++ q) (call_name tc) (args_of tc)) in *. set (t := (q ++ runs tc :: q')%list).
      destruct (one_run_shows q q' tc (trace s) Hq Hq') as (Q1 & _ & _).
      assert (since (t0 ++ t) (mkRun (trace s ++ t) (charged (call_name tc) c (budget s)))) as Hs'.
      { eapply (since_app _ _ _ _ (fun name => if bool_decide (call_name tc = name) then succeeded c else 0)); [done|intros name; by apply charged_left|].
        intros name. unfold t. rewrite (successes_of_call _ _ _ _ _ Hq Hq'). unfold c. by rewrite (proj1 Hs). }
      destruct (IH Hcalls (t0 ++ t)%list Hs') as (seg & E1 & E2 & E3). exists (t ++ seg)%list. cbn [trace] in E1.
      rewrite requests_of_app, E2, app_nil_r, E1. split_and!; [unfold t; by rewrite <- !app_assoc|exact Q1|]. intros ms Hms. destruct r as [ms'|]; [|done]. injection Hms as <-.
      destruct (E3 _ eq_refl) as [Hp Hn]. split; [|by rewrite app_assoc]. unfold t. rewrite <- app_assoc. cbn [app].
      apply plays_ran; [done..| |done]. rewrite app_assoc, <- (proj1 Hs). exact Ht.
Qed.

Lemma into_plays t0 first k s (r : response) (acc : totals) (answer : Prelude.result exn (list message * totals)) s' : since t0 s ->
  run_into (owned_of r) acc (answered first k s) = (answer, s') ->
  exists seg, trace s' = (trace s ++ asks first k ++ seg)%list /\ requests_of seg = []
    /\ match answer with
       | Ok (results, _) => plays (t0 ++ asks first k) (owned_of r) results seg /\ since (t0 ++ asks first k ++ seg) s'
       | Err _ => True
       end.
Proof.
  intros Hs E. pose proof (run_into_case (owned_of r) acc (answered first k s)) as H. rewrite E in H. destruct H as (ms & Hc & Hms).
  assert (since (t0 ++ asks first k) (answered first k s)) as Hs'.
  { apply (since_same t0 (asks first k) s Hs). intros name. by destruct (asks_shows first k (trace s0 ++ t0)) as (_ & _ & _ & ->). }
  destruct (calls_play _ _ _ _ _ (owned_of_owned r) Hs' Hc) as (seg & E1 & E2 & E3). exists seg. split_and!; [|done|].
  - rewrite E1. cbn [answered trace]. unfold asks. by rewrite <- app_assoc.
  - destruct answer as [[results acc']|e]; [|done]. destruct Hms as (-> & _). rewrite app_assoc. by apply E3.
Qed.

Lemma no_requests (seg t1 t2 : list action) k : requests_of seg = [] -> seg = (t1 ++ AsksProvider k :: t2)%list -> False.
Proof. intros H ->. rewrite requests_of_app in H. cbn in H. by apply app_eq_nil in H as [_ ?]. Qed.

(** The request of a round is its first act, and another is of a later round. *)
Lemma split_at_request first k (seg t' t1 t2 : list action) k' : requests_of seg = [] ->
  (asks first k ++ seg ++ t')%list = (t1 ++ AsksProvider k' :: t2)%list ->
  t1 = [] /\ k' = k \/ exists t1', t1 = (asks first k ++ seg ++ t1')%list /\ t' = (t1' ++ AsksProvider k' :: t2)%list.
Proof.
  intros Hseg H. destruct t1 as [|x t1]; [left; by injection H as -> _|right]. injection H as <- H.
  assert (exists t1', t1 = ((if first then [LocksIn] else []) ++ seg ++ t1')%list /\ t' = (t1' ++ AsksProvider k' :: t2)%list) as (t1' & -> & ->); [|by exists t1'].
  assert (exists locked, (if first then [LocksIn] else []) ++ seg ++ t' = locked ++ t' /\ (if first then [LocksIn] else []) ++ seg = locked /\ requests_of locked = [])%list
    as (locked & _ & El & Hlocked) by (eexists; split_and!; [by rewrite app_assoc|done|rewrite requests_of_app, Hseg; by destruct first]).
  rewrite app_assoc, El in H. apply app_eq_app in H as (m & [[-> Hm]|[-> ->]]).
  - destruct m as [|x m]; [exists []; rewrite !app_nil_r in *; by split|].
    exfalso. injection Hm as <- _. by apply (no_requests (t1 ++ AsksProvider k' :: m) t1 m k').
  - exists m. rewrite <- El. by rewrite <- app_assoc.
Qed.

(** Each request carries what the turns before it told. *)
Definition asks_as_told (initial : list message) (n : nat) (t0 t : list action) : Prop :=
  forall t1 k t2, t = (t1 ++ AsksProvider k :: t2)%list ->
    exists ms, told (t0 ++ t1) ms /\ k = round_request (n - 1 - length (requests_of t1)) (initial ++ ms).

Lemma asks_first initial n t0 ms first seg : told t0 ms -> requests_of seg = [] ->
  asks_as_told initial (S n) t0 (asks first (round_request n (initial ++ ms)) ++ seg).
Proof.
  intros Hms Hseg t1 k t2 E. rewrite <- (app_nil_r seg) in E. destruct (split_at_request first _ seg [] t1 t2 k Hseg E) as [[-> ->]|(t1' & _ & E')]; [|by destruct t1'].
  exists ms. rewrite app_nil_r. cbn [requests_of omap list_omap length]. by replace (S n - 1 - 0)%nat with n by lia.
Qed.

Lemma rounds_told initial n transcript acc first s answer s' : round_runs n transcript acc first s answer s' ->
  forall t0 ms, since t0 s -> told t0 ms -> transcript = (initial ++ ms)%list ->
  exists t, trace s' = (trace s ++ t)%list /\ asks_as_told initial n t0 t.
Proof.
  intros H. induction H as [transcript acc first s|n transcript acc first s x Ea|n transcript acc s r Ea Hc|
    n transcript acc first s r Ea Hc Hr|n transcript acc first s r e s' Ea Eb Er|n transcript acc first s r results acc' s' Ea Eb Ho Hf Er|
    n transcript acc first s r results acc' s' answer s'' Ea Eb Ho Hf Er _ IH]; intros t0 ms Hs Hms ->.
  - exists []. split; [by rewrite app_nil_r|]. intros [] k t2; done.
  - exists (asks false (round_request n (initial ++ ms)) ++ [])%list. split; [by rewrite app_nil_r|by apply asks_first].
  - exists (asks false (round_request n (initial ++ ms)) ++ [])%list. split; [by rewrite app_nil_r|by apply asks_first].
  - exists (asks first (round_request n (initial ++ ms)) ++ [])%list. split; [by rewrite app_nil_r|by apply asks_first].
  - destruct (into_plays t0 first (round_request n (initial ++ ms)) s r _ _ _ Hs Er) as (seg & E1 & E2 & _).
    exists (asks first (round_request n (initial ++ ms)) ++ seg)%list. split; [done|by apply asks_first].
  - destruct (into_plays t0 first (round_request n (initial ++ ms)) s r _ _ _ Hs Er) as (seg & E1 & E2 & _).
    exists (asks first (round_request n (initial ++ ms)) ++ seg)%list. split; [done|by apply asks_first].
  - set (k := round_request n (initial ++ ms)) in *.
    destruct (into_plays t0 first k s r _ _ _ Hs Er) as (seg & E1 & E2 & E3). destruct E3 as [Hp Hs'].
    destruct (IH (t0 ++ asks first k ++ seg)%list (ms ++ AssistantCalls (owned_of r) :: results)%list) as (t & Ht & Htold);
      [done|econstructor; [done|by rewrite <- (proj1 Hs)|done..]|by rewrite app_assoc|].
    exists (asks first k ++ seg ++ t)%list. split; [by rewrite Ht, E1, <- !app_assoc|].
    intros t1 k' t2 E. destruct (split_at_request first k seg t t1 t2 k' E2 E) as [[-> ->]|(t1' & -> & ->)].
    + exists ms. rewrite app_nil_r. cbn [requests_of omap list_omap length]. by replace (S n - 1 - 0)%nat with n by lia.
    + destruct (Htold t1' k' t2 eq_refl) as (ms' & Hms' & ->). exists ms'. split; [by rewrite <- !app_assoc in *|].
      rewrite !requests_of_app, E2. destruct (asks_shows first k []) as (-> & _). cbn [app length]. f_equal. lia.
Qed.
End Told.

(** Where a provider calls no gateway tool the request does not declare, the last round asks for none. *)
Lemma never_out_of_rounds n transcript acc first s answer s' : round_runs (S n) transcript acc first s answer s' ->
  (forall t transcript r, acompletion t (round_request 0 transcript) = Ok r -> owned_of r = []) ->
  answer = Err MaxToolIterationsExceeded -> exists t n x, tool_says t n x = LimitExceeded.
Proof.
  intros H Hlast. remember (S n) as m eqn:Em. revert n Em.
  induction H as [| | | |n transcript acc first s r e s' Ea Eb Er| |n transcript acc first s r results acc' s' answer s'' Ea Eb Ho Hf Er _ IH];
    intros m Em Ha; simplify_eq.
  - destruct (round_shows _ _ _ _ _ _ _ Ea Er Eb) as (t & _ & _ & _ & _ & _ & _ & C7). by apply C7.
  - destruct m as [|m]; [by destruct Ho; eapply Hlast|]. by eapply IH.
Qed.
End Rounds.

(** ** The loop of a request *)

Section Request.
Context (asked : request) (n : nat).

Definition caller_tools : list Tool := or_empty (tools asked).
Definition all_tools : list Tool := (caller_tools ++ backend_tools (as_backend p))%list.
Definition base_of : request := mkKwargs None None (tool_choice asked) None (others asked).

Notation loop := (mcp_tool_loop loads no_args p native_rendering mcp_entry acompletion asked n).
Notation facts := (rounds_facts n (mkTotals 0 0 0 [])).

Lemma loop_rounds s : let '(answer, s') := loop s in
  round_runs base_of all_tools caller_tools n (or_empty (messages asked)) (mkTotals 0 0 0 []) true s answer s'.
Proof. exact (rounds_run base_of all_tools caller_tools n _ _ true s). Qed.

Lemma loop_facts s answer s' : loop s = (answer, s') -> exists t, facts s answer s' t.
Proof.
  intros E. pose proof (loop_rounds s) as H. rewrite E in H.
  by eapply round_runs_facts.
Qed.

(** What the round with [after] more rounds allowed is asked. *)
Lemma request_spec after transcript : let k := round_request base_of all_tools caller_tools after transcript in
  let last := (after =? 0)%nat in
  messages k = Some (transcript ++ if last then [FinalRoundNote] else [])%list /\ stream k = Some false /\
  or_empty (tools k) = (if last then caller_tools else all_tools) /\
  (last = true -> forall c name, tool_choice k = Some c -> _tool_name c = Some name -> owned_name name = false).
Proof.
  unfold round_request, _round_transcript, _round_kwargs. simpl. split_and!.
  - destruct (after =? 0)%nat; [done|by rewrite app_nil_r].
  - done.
  - destruct (after =? 0)%nat; [by destruct caller_tools|by destruct all_tools].
  - intros ->. intros c name. destruct (tool_choice asked) as [c0|]; simpl; [|by destruct (_ || _)].
    destruct (negb _ || _) eqn:Eo; [done|]. intros [= <-] Hn. rewrite Hn in Eo. by apply orb_false_elim in Eo as [_ ?].
Qed.



(** C37: Allowed at least one round, the loop never runs out of them: where no provider calls a gateway tool its request
    does not declare and no caller declares a tool the gateway owns, only the old backends' own limit ends a run with
    [MaxToolIterationsExceeded]. *)
Theorem loop_answers_within_cap (tool_name : Tool -> string) s answer s' : (1 <= n)%nat ->
  (forall t k r, acompletion t k = Ok r -> forall tc, tc ∈ owned_of r ->
     exists tool, tool ∈ or_empty (tools k) /\ tool_name tool = call_name tc) ->
  (forall tool, tool ∈ caller_tools -> owned_name (tool_name tool) = false) ->
  loop s = (answer, s') -> answer = Err MaxToolIterationsExceeded -> exists t name args, tool_says t name args = LimitExceeded.
Proof.
  intros Hn Hfaithful Huser E Ha. destruct n as [|m] eqn:En; [lia|]. pose proof (loop_rounds s) as H.
  rewrite <- En in E. rewrite E, En in H. eapply never_out_of_rounds; [exact H| |exact Ha].
  intros t transcript r Hr. destruct (owned_of r) as [|tc tcs] eqn:Eo; [done|]. exfalso.
  destruct (Hfaithful _ _ _ Hr tc) as (tool & Ht & Hname); [rewrite Eo; by left|].
  assert (Ht' : or_empty (tools (round_request base_of all_tools caller_tools 0 transcript)) = caller_tools)
    by apply (request_spec 0 transcript).
  rewrite Ht' in Ht.
  pose proof (owned_of_owned r) as Hall. rewrite Eo in Hall. inversion Hall as [|? ? Howned _]; subst.
  specialize (Huser _ Ht). congruence.
Qed.
End Request.
End Loop.

(** ** A request *)

Module Demo.
Local Open Scope string_scope.

Abbreviation request := (request (Tool := string) (Caller := string) (Rest := unit) (Extra := unit)).
Abbreviation response := (ChatCompletion (Entry := unit) (Extra := unit)).
Abbreviation action := (action (Args := string) (Tool := string) (Caller := string) (Rest := unit) (Entry := unit) (Extra := unit)).

Definition search : @ToolBackend string string string unit unit unit :=
  mkBackend ["search"] (fun name => bool_decide (name = "search")) (fun _ _ args => Text ("found " ++ args)) (fun _ => None).

Definition asks_for (names : list string) : choice (Extra := unit) :=
  mkChoice (Some "tool_calls") None (Some ((fun name => FunctionCall (mkCall (Some name) name "q" None)) <$> names)).
Definition says (c : choice (Extra := unit)) : response := mkCompletion [c] (Some (mkUsage 10 2 12 (Some (Some 3)))) None.

(** It searches as long as it may, then calls the caller's tool; asked without tools it answers. *)
Definition provider (t : list action) (k : request) : Prelude.result unit response :=
  match tools k with
  | None => Ok (says (mkChoice (Some "stop") (Some "done") None))
  | Some declared =>
      if bool_decide ("search" ∈ declared) && (length (requests_of t) <? 2)%nat then Ok (says (asks_for ["search"; "search"]))
      else Ok (says (asks_for ["mine"]))
  end.

Definition asked : request := mkKwargs (Some [CallerMessage "hello"]) (Some ["mine"]) (Some (ChoiceDict (Some (Some "search")) None)) None tt.

Definition loop (rounds : nat) (b : option ToolUseBudget) :=
  mcp_tool_loop (X := unit) Some "" (One search) (fun _ => None) (fun _ _ _ _ => tt) provider asked rounds (mkRun [] b).
End Demo.



(** A provider that calls only what its request declares. *)
Lemma loop_answers_within_cap_witness :
  let '(answer, _) := Demo.loop 1 None in answer <> Err MaxToolIterationsExceeded.
Proof.
  destruct (Demo.loop 1 None) as [answer s'] eqn:E. intros Ha.
  destruct (loop_answers_within_cap Some ""%string (One Demo.search) (fun _ => None) (fun _ _ _ _ => tt) Demo.provider Demo.asked 1
    (fun tool => tool) (mkRun [] None) answer s' ltac:(lia)) as (t & name & args & Hl); [| |exact E|exact Ha|].
  - intros t k r Hr tc Htc. unfold Demo.provider in Hr. destruct (tools k) as [declared|].
    + destruct (bool_decide ("search"%string ∈ declared) && _) eqn:Ed; injection Hr as <-.
      * apply andb_prop in Ed as [Ed _]. apply bool_decide_eq_true in Ed. exists "search"%string. split; [done|].
        vm_compute in Htc. by apply elem_of_cons in Htc as [->|[->|[]%elem_of_nil]%elem_of_cons].
      * vm_compute in Htc. by apply elem_of_nil in Htc.
    + injection Hr as <-. vm_compute in Htc. by apply elem_of_nil in Htc.
  - intros tool Ht. apply list_elem_of_singleton in Ht as ->. by vm_compute.
  - done.
Defined.

(** The tokens of the rounds the loop hid are on no answer where the last round's provider reports no usage. *)
Lemma unreported_round_drops_usage :
  let provider t k := match Demo.provider t k with
    | Ok r => Ok (if bool_decide (length (requests_of t) = 2%nat) then mkCompletion (choices r) None None else r)
    | Err x => Err x end in
  match (mcp_tool_loop (X := unit) Some ""%string (One Demo.search) (fun _ => None) (fun _ _ _ _ => tt) provider Demo.asked 4
    (mkRun [] None)).1 with
  | Ok a => usage a = None
  | Err _ => False
  end.
Proof. by vm_compute. Qed.

(** A caller's own call of another kind than a function's is dropped beside a call the gateway runs. *)
Lemma custom_call_is_lost :
  let calls names := Demo.says (mkChoice (Some "tool_calls"%string) None (Some (OtherCall tt :: names))) in
  let mine := FunctionCall (mkCall (Some "m"%string) "mine"%string ""%string None) in
  let search := FunctionCall (mkCall (Some "s"%string) "search"%string ""%string None) in
  chat_split_owned (One Demo.search) (calls [search]) = ([mkCall (Some "s"%string) "search"%string ""%string None], false) /\
  tool_calls <$> choices (chat_filter_owned (One Demo.search) (calls [mine; search])) = [Some [mine]].
Proof. by vm_compute. Qed.
