(* ===== verification/ChatStream.v ===== *)
(** Streamed chat: a round, [_ChatToolLoopStrategy.observe] of [services/mcp_loop.py], and the loop of rounds,
    [run_tool_loop_stream] of [services/_tool_loop.py].  Of a provider's events the client is sent what is its own, with the
    tool calls the gateway makes itself taken out and the others numbered without a gap; what a client that puts the
    fragments together is left with.

    An index is an integer, and every fragment one the SDK can copy; whether it can copy a chunk is [copies].  A client
    reads to the end, and asked for no activity chunks. *)
From Stdlib Require Import ZArith Lia String.
From stdpp Require Import base strings list option gmap sorting.
From S2P Require Import Prelude ToolLoop ToolLoopProofs.

Local Open Scope string_scope.
Local Open Scope Z_scope.

Section Stream.
Context {Extra Rest : Type}.

(** ** Chunks *)

Record fragment_function := mkFunction { fn_name : option string; fn_arguments : option string }.

Record fragment := mkFragment {
  index : Z; fragment_id : option string; fragment_type : option string; function : option fragment_function;
  fragment_extra : option Extra
}.

Record delta := mkDelta { delta_content : option string; delta_tool_calls : option (list fragment) }.
Record chunk_choice := mkChunkChoice { choice_delta : option delta; choice_finish : option string }.

Record chunk := mkChunk {
  chunk_choices : list chunk_choice; chunk_usage : option CompletionUsage; chunk_rest : Rest
}.

(** ** The calls fragments make *)

Record slot := mkSlot { slot_id : option string; slot_type : string; slot_name : string; slot_arguments : string; slot_extra : option Extra }.
Definition new_slot : slot := mkSlot None "function" "" "" None.

(** A string that is there and not empty. *)
Definition given (o : option string) : option string := match o with Some "" => None | _ => o end.

Definition merge_fragment (s : slot) (f : fragment) : slot :=
  {| slot_id := match given (fragment_id f) with Some i => Some i | None => slot_id s end;
     slot_type := default (slot_type s) (given (fragment_type f));
     slot_name := (slot_name s ++ match function f with Some fn => default "" (given (fn_name fn)) | None => "" end)%string;
     slot_arguments := (slot_arguments s ++ match function f with Some fn => default "" (given (fn_arguments fn)) | None => "" end)%string;
     slot_extra := match fragment_extra f with Some e => Some e | None => slot_extra s end |}.

Definition merge_into (slots : gmap Z slot) (f : fragment) : gmap Z slot :=
  <[index f := merge_fragment (default new_slot (slots !! index f)) f]> slots.

Definition _accumulate_tool_call_deltas (slots : gmap Z slot) (deltas : list fragment) : gmap Z slot := foldl merge_into slots deltas.

(** ** The state of a round *)

Record _ChatStreamState := mkState {
  slots : gmap Z slot;
  finish_reason : option string;
  pending_terminal : option chunk;
  usage_chunks : list chunk;
  visible_tool_index : gmap Z Z;
  next_visible_tool_index : Z;
  first : option chunk;
  template : option chunk
}.
Definition new_stream_state : _ChatStreamState := mkState ∅ None None [] ∅ 0 None None.

Definition with_numbers (numbers : gmap Z Z) (next : Z) (s : _ChatStreamState) : _ChatStreamState :=
  mkState (slots s) (finish_reason s) (pending_terminal s) (usage_chunks s) numbers next (first s) (template s).
Definition with_slots (m : gmap Z slot) (s : _ChatStreamState) : _ChatStreamState :=
  mkState m (finish_reason s) (pending_terminal s) (usage_chunks s) (visible_tool_index s) (next_visible_tool_index s) (first s) (template s).
Definition with_finish (reason : option string) (s : _ChatStreamState) : _ChatStreamState :=
  mkState (slots s) reason (pending_terminal s) (usage_chunks s) (visible_tool_index s) (next_visible_tool_index s) (first s) (template s).
Definition with_terminal (c : chunk) (s : _ChatStreamState) : _ChatStreamState :=
  mkState (slots s) (finish_reason s) (Some c) (usage_chunks s) (visible_tool_index s) (next_visible_tool_index s) (first s) (template s).
Definition with_usage_chunk (c : chunk) (s : _ChatStreamState) : _ChatStreamState :=
  mkState (slots s) (finish_reason s) (pending_terminal s) (usage_chunks s ++ [c]) (visible_tool_index s) (next_visible_tool_index s) (first s) (template s).

(** The first chunk of the round, and its first with choices. *)
Definition remembers (c : chunk) (s : _ChatStreamState) : _ChatStreamState :=
  mkState (slots s) (finish_reason s) (pending_terminal s) (usage_chunks s) (visible_tool_index s) (next_visible_tool_index s)
    (match first s with Some f => Some f | None => match chunk_choices c with [] => None | _ => Some c end end)
    (match template s with Some t => Some t | None => Some c end).

Definition deferred_terminal (s : _ChatStreamState) : list chunk :=
  match pending_terminal s with Some c => c :: usage_chunks s | None => usage_chunks s end.
Definition usage_carrier (s : _ChatStreamState) : option chunk :=
  head (filter (fun c => is_set (chunk_usage c) = true) (reverse (deferred_terminal s))).

(** ** What the client is sent *)

Context (owns : string -> bool) (copies : chunk -> bool).

Definition _owned_fragment (s : _ChatStreamState) (f : fragment) : bool :=
  let name := match slots s !! index f with Some sl => slot_name sl | None => "" end in
  negb (bool_decide (name = "")) && owns name.

Definition _renumbered (s : _ChatStreamState) (f : fragment) : fragment * _ChatStreamState :=
  let s :=
    match visible_tool_index s !! index f with
    | Some _ => s
    | None => with_numbers (<[index f := next_visible_tool_index s]> (visible_tool_index s)) (next_visible_tool_index s + 1) s
    end in
  (mkFragment (default 0 (visible_tool_index s !! index f)) (fragment_id f) (fragment_type f) (function f) (fragment_extra f), s).

Fixpoint renumber_all (s : _ChatStreamState) (fs : list fragment) : list fragment * _ChatStreamState :=
  match fs with
  | [] => ([], s)
  | f :: fs => let '(f, s) := _renumbered s f in let '(fs, s) := renumber_all s fs in (f :: fs, s)
  end.

(** [None] where the chunk cannot be copied. *)
Definition _with_tool_calls (c : chunk) (fs : option (list fragment)) : option chunk :=
  match chunk_choices c with
  | ch :: _ =>
      match choice_delta ch with
      | Some d => if copies c then
          Some (mkChunk [mkChunkChoice (Some (mkDelta (delta_content d) fs)) (choice_finish ch)] (chunk_usage c) (chunk_rest c))
          else None
      | None => None
      end
  | [] => None
  end.

Definition _stripped_tool_calls (c : chunk) : chunk := default c (_with_tool_calls c None).

(** The chunk the client may see and whether it is hidden, once its fragments have been taken in. *)
Definition visible_of (s : _ChatStreamState) (c : chunk) (d : delta) (fs : list fragment) : chunk * bool * _ChatStreamState :=
  let s := with_slots (_accumulate_tool_call_deltas (slots s) fs) s in
  let foreign := filter (fun f => _owned_fragment s f = false) fs in
  let '(renumbered, s) := renumber_all s foreign in
  let rewritten calls := match _with_tool_calls c calls with Some c' => (c', false, s) | None => (c, true, s) end in
  if negb (length foreign =? length fs)%nat then
    if negb (bool_decide (length foreign = 0%nat)) || is_set (given (delta_content d)) then
      rewritten (match renumbered with [] => None | _ => Some renumbered end)
    else (c, true, s)
  else if negb (bool_decide (index <$> renumbered = index <$> foreign)) then rewritten (Some renumbered)
  else (c, false, s).

Inductive StreamAction := Forward | Defer.

(** Sticky: a later reason does not override [tool_calls]. *)
Definition next_reason (s : _ChatStreamState) (reason : string) : option string :=
  if bool_decide (finish_reason s = Some "tool_calls") && negb (bool_decide (reason = "tool_calls")) then finish_reason s
  else Some reason.

Definition observe (s : _ChatStreamState) (c : chunk) : StreamAction * chunk * _ChatStreamState :=
  let s := remembers c s in
  match chunk_choices c with
  | [] => if is_set (chunk_usage c) then (Defer, c, with_usage_chunk c s) else (Forward, c, s)
  | ch :: _ =>
      let '(visible, hide, s) :=
        match choice_delta ch with
        | Some d =>
            match delta_tool_calls d with
            | Some (f :: fs) => visible_of s c d (f :: fs)
            | _ => (c, false, s)
            end
        | None => (c, false, s)
        end in
      match given (choice_finish ch) with
      | Some reason =>
          let terminal := if hide then _stripped_tool_calls c else visible in
          (Defer, terminal, with_terminal terminal (with_finish (next_reason s reason) s))
      | None => if hide then (Defer, c, s) else (Forward, visible, s)
      end
  end.

(** The chunks of a round that are sent while it lasts, and its state at its end. *)
Fixpoint observe_all (s : _ChatStreamState) (events : list chunk) : list chunk * _ChatStreamState :=
  match events with
  | [] => ([], s)
  | c :: events =>
      let '(action, visible, s) := observe s c in
      let '(sent, s) := observe_all s events in
      (match action with Forward => visible :: sent | Defer => sent end, s)
  end.

(** *** The end of the round *)

Definition call_of (sl : slot) : tool_call := mkCall (slot_id sl) (slot_name sl) (slot_arguments sl) (slot_extra sl).

Definition by_index (a b : Z * slot) : Prop := a.1 <= b.1.
#[local] Instance by_index_dec : RelDecision by_index.
Proof. intros a b. unfold by_index. apply _. Defined.

(** In the order of their indices. *)
Definition _finalize_tool_calls (m : gmap Z slot) : list tool_call :=
  (fun p => call_of p.2) <$> merge_sort by_index (map_to_list m).

Definition split_calls (calls : list (tool_call (Extra := Extra))) : list tool_call * bool :=
  (filter (fun tc => owns (call_name tc) = true) calls, existsb (fun tc => negb (owns (call_name tc))) calls).

(** The gateway's calls of the round, and whether the loop ends with it. *)
Definition stream_exiting (s : _ChatStreamState) : list tool_call * bool :=
  if negb (bool_decide (finish_reason s = Some "tool_calls")) then ([], true)
  else
    let '(mcp_calls, has_foreign) := split_calls (_finalize_tool_calls (slots s)) in
    (mcp_calls, has_foreign || match mcp_calls with [] => true | _ => false end).

(** The totals of the rounds so far with this one's; and what is sent where the loop ends: the deferred chunks, the usage of
    the last that has any being the loop's. *)
Definition accumulate_stream_usage {Entry} (acc : _ChatTotals (Entry := Entry)) (s : _ChatStreamState) : _ChatTotals :=
  _add_usage acc (usage_carrier s ≫= chunk_usage).

Fixpoint fold_first {Entry} (acc : _ChatTotals (Entry := Entry)) (cs : list chunk) : list chunk :=
  match cs with
  | [] => []
  | c :: cs =>
      match chunk_usage c with
      | Some u =>
          let totals := _add_usage acc (Some u) in
          mkChunk (chunk_choices c) (_fold_usage (Some u) (prompt totals) (completion totals) (cache_read totals)) (chunk_rest c) :: cs
      | None => c :: fold_first acc cs
      end
  end.
Definition terminal_events {Entry} (s : _ChatStreamState) (acc : _ChatTotals (Entry := Entry)) : list chunk :=
  reverse (fold_first acc (reverse (deferred_terminal s))).

Local Open Scope list_scope.

(** ** What a client makes of it *)

Definition fragments (c : chunk) : list fragment :=
  match chunk_choices c with
  | ch :: _ => match choice_delta ch with Some d => default [] (delta_tool_calls d) | None => [] end
  | [] => []
  end.
Definition content_of (c : chunk) : option string :=
  match chunk_choices c with ch :: _ => choice_delta ch ≫= (fun d => given (delta_content d)) | [] => None end.
Definition finish_of (c : chunk) : option string :=
  match chunk_choices c with ch :: _ => given (choice_finish ch) | [] => None end.

Definition assembled (cs : list chunk) : gmap Z slot := _accumulate_tool_call_deltas ∅ (concat (fragments <$> cs)).

(** A chunk that says why the stream ends, and nothing else of the answer. *)
Definition bare (c : chunk) : Prop := fragments c = [] /\ content_of c = None.

(** A stream that ends: of its chunks with choices the last carries a finish reason, and any other that does carries that
    alone, as the [tool_calls] of Anthropic's before its trailing [stop]. *)
Definition ends (events : list chunk) : Prop := exists body last tail, events = body ++ last :: tail /\
  Forall (fun c => finish_of c = None \/ bare c) body /\ is_Some (finish_of last) /\ Forall (fun c => chunk_choices c = []) tail.

Definition name_in (f : fragment) : string := match function f with Some fn => default "" (given (fn_name fn)) | None => "" end.

(** A call's name comes with its first fragment. *)
Definition named_at_once (fs : list fragment) : Prop :=
  forall before f after, fs = before ++ f :: after -> index f ∈ index <$> before -> name_in f = "".

Definition owned_slot (sl : slot) : bool := negb (bool_decide (slot_name sl = "")) && owns (slot_name sl).
Definition owned_at (m : gmap Z slot) (i : Z) : bool := match m !! i with Some sl => owned_slot sl | None => false end.

(** ** The numbering *)

(** With [O] the indices of the gateway's calls: the others are numbered, [0] to [next], and a client that was sent their
    fragments alone has the calls [m] upstream has. *)
Record numbered (O : Z -> bool) (m : gmap Z slot) (numbers : gmap Z Z) (next : Z) (client : gmap Z slot) : Prop := {
  num_next : 0 <= next;
  num_range : forall i v, numbers !! i = Some v -> 0 <= v < next;
  num_inj : forall i j v, numbers !! i = Some v -> numbers !! j = Some v -> i = j;
  num_onto : forall v, 0 <= v < next -> exists i, numbers !! i = Some v;
  num_dom : forall i, is_Some (numbers !! i) <-> is_Some (m !! i) /\ O i = false;
  num_client : forall i v, numbers !! i = Some v -> client !! v = m !! i;
  num_only : forall v, is_Some (client !! v) -> 0 <= v < next
}.

Definition renumber (v : Z) (f : fragment) : fragment :=
  mkFragment v (fragment_id f) (fragment_type f) (function f) (fragment_extra f).

Lemma numbered_owned O m numbers next client f : numbered O m numbers next client -> O (index f) = true ->
  numbered O (merge_into m f) numbers next client.
Proof.
  intros [H1 H2 H3 H4 H5 H6 H7] Ho. unfold merge_into. split; try done.
  - intros i. rewrite H5. destruct (decide (i = index f)) as [->|Hn]; [|by rewrite lookup_insert_ne].
    rewrite Ho. split; by intros [_ ?].
  - intros i v Hv. assert (i <> index f). { intros ->. assert (is_Some (numbers !! index f)) as [_ ?]%H5 by eauto. congruence. }
    rewrite lookup_insert_ne by done. by apply H6.
Qed.

Lemma numbered_foreign O m numbers next client f : numbered O m numbers next client -> O (index f) = false ->
  match numbers !! index f with
  | Some v => numbered O (merge_into m f) numbers next (merge_into client (renumber v f))
  | None => numbered O (merge_into m f) (<[index f := next]> numbers) (next + 1) (merge_into client (renumber next f))
  end.
Proof.
  intros [H1 H2 H3 H4 H5 H6 H7] Ho. unfold merge_into, renumber. simpl. destruct (numbers !! index f) as [v|] eqn:Ev.
  - assert (Hm : is_Some (m !! index f)) by by apply (H5 (index f)).
    split; try done.
    + intros i. rewrite H5. destruct (decide (i = index f)) as [->|Hn]; [|by rewrite lookup_insert_ne].
      rewrite lookup_insert_eq. split; intros [? ?]; split; eauto.
    + intros i w Hw. destruct (decide (i = index f)) as [->|Hn].
      * simplify_eq. rewrite !lookup_insert_eq. by rewrite (H6 _ _ Ev).
      * rewrite !lookup_insert_ne; [by apply H6|done|]. intros ->. by apply Hn, (H3 _ _ w).
    + intros w. destruct (decide (w = v)) as [->|Hn]; [by intros _; apply (H2 (index f))|]. rewrite lookup_insert_ne by done. apply H7.
  - assert (Hm : m !! index f = None).
    { destruct (m !! index f) eqn:Em; [|done]. assert (is_Some (numbers !! index f)) as [? ?] by (apply H5; eauto). congruence. }
    assert (Hc : client !! next = None). { destruct (client !! next) eqn:Ec; [|done]. specialize (H7 next ltac:(eauto)). lia. }
    split.
    + lia.
    + intros i w [[<- <-]|[? ?%H2]]%lookup_insert_Some; lia.
    + intros i j w [[<- <-]|[? Hi]]%lookup_insert_Some [[<- Hj]|[? Hj]]%lookup_insert_Some; try done.
      * apply H2 in Hj. lia.
      * subst. apply H2 in Hi. lia.
      * by eapply H3.
    + intros w Hw. destruct (decide (w = next)) as [->|Hn]; [exists (index f); by rewrite lookup_insert_eq|].
      destruct (H4 w) as [i Hi]; [lia|]. exists i. rewrite lookup_insert_ne; [done|]. intros <-. congruence.
    + intros i. destruct (decide (i = index f)) as [->|Hn]; [rewrite !lookup_insert_eq; split; eauto|].
      rewrite !lookup_insert_ne by done. apply H5.
    + intros i w [[<- <-]|[? Hi]]%lookup_insert_Some; [by rewrite !lookup_insert_eq, Hm, Hc|].
      rewrite !lookup_insert_ne; [by apply H6|done|]. apply H2 in Hi. lia.
    + intros w. destruct (decide (w = next)) as [->|Hn]; [lia|]. rewrite lookup_insert_ne by done. intros ?%H7. lia.
Qed.

Lemma renumber_all_numbers O fs : forall s m client,
  numbered O m (visible_tool_index s) (next_visible_tool_index s) client ->
  let '(renumbered, s') := renumber_all s (filter (fun f => O (index f) = false) fs) in
  s' = with_numbers (visible_tool_index s') (next_visible_tool_index s') s /\
  numbered O (_accumulate_tool_call_deltas m fs) (visible_tool_index s') (next_visible_tool_index s')
    (_accumulate_tool_call_deltas client renumbered).
Proof.
  induction fs as [|f fs IH]; intros s m client Hn; simpl; [by destruct s|].
  destruct (O (index f)) eqn:Ho.
  - rewrite filter_cons_False by congruence. apply IH. by apply numbered_owned.
  - rewrite filter_cons_True by done. simpl. pose proof (numbered_foreign _ _ _ _ _ f Hn Ho) as Hf. unfold _renumbered.
    destruct (visible_tool_index s !! index f) as [v|] eqn:Ev.
    + rewrite Ev. specialize (IH s (merge_into m f) (merge_into client (renumber v f)) Hf).
      destruct (renumber_all s _) as [fs' s']. destruct IH as [Hs Hall]. by split.
    + set (s1 := with_numbers (<[index f := next_visible_tool_index s]> (visible_tool_index s)) (next_visible_tool_index s + 1) s).
      replace (visible_tool_index s1 !! index f) with (Some (next_visible_tool_index s)) by by (simpl; rewrite lookup_insert_eq).
      specialize (IH s1 (merge_into m f) (merge_into client (renumber (next_visible_tool_index s) f)) Hf).
      destruct (renumber_all s1 _) as [fs' s']. destruct IH as [Hs Hall]. split; [|done]. by rewrite Hs at 1.
Qed.

Lemma owned_fragment_at s f : _owned_fragment s f = owned_at (slots s) (index f).
Proof. unfold _owned_fragment, owned_at, owned_slot. by destruct (slots s !! index f). Qed.

Lemma renumber_all_length s fs : length (renumber_all s fs).1 = length fs.
Proof.
  revert s. induction fs as [|f fs IH]; intros s; cbn [renumber_all]; [done|].
  destruct (_renumbered s f) as [f' s1]. specialize (IH s1). destruct (renumber_all s1 fs) as [fs' s2]. simpl in *. by rewrite IH.
Qed.

(** Numbered as they came, they are as they came. *)
Lemma renumber_all_same s fs : index <$> (renumber_all s fs).1 = index <$> fs -> (renumber_all s fs).1 = fs.
Proof.
  revert s. induction fs as [|f fs IH]; intros s; cbn [renumber_all]; [done|].
  destruct (_renumbered s f) as [f' s1] eqn:Ef. specialize (IH s1). destruct (renumber_all s1 fs) as [fs' s2]. simpl in *.
  intros [= Hi Hfs]. rewrite (IH Hfs). f_equal. unfold _renumbered in Ef. injection Ef as <- _. simpl in *. rewrite Hi. by destruct f.
Qed.

Lemma filter_keeps_all {A} (P : A -> Prop) `{!forall x, Decision (P x)} (l : list A) : length (filter P l) = length l -> filter P l = l.
Proof.
  induction l as [|x l IH]; [done|]. rewrite filter_cons. pose proof (length_filter P l).
  case_decide; simpl; intros; [by rewrite IH by lia|lia].
Qed.

(** *** One chunk *)

(** What the client is sent of a chunk's fragments is those of its calls, and its content. *)
Lemma visible_of_spec s c d f fs ch rest visible hide s' : copies c = true -> chunk_choices c = ch :: rest -> choice_delta ch = Some d ->
  delta_tool_calls d = Some (f :: fs) -> visible_of s c d (f :: fs) = (visible, hide, s') ->
  let s1 := with_slots (_accumulate_tool_call_deltas (slots s) (f :: fs)) s in
  let '(renumbered, s2) := renumber_all s1 (filter (fun f => owned_at (slots s1) (index f) = false) (f :: fs)) in
  s' = s2 /\
  (if hide then renumbered = [] /\ content_of c = None
   else fragments visible = renumbered /\ content_of visible = content_of c /\ finish_of visible = finish_of c).
Proof.
  intros Hc Hch Hd Hf Hv s1.
  assert (Hfilter : filter (fun f => _owned_fragment s1 f = false) (f :: fs) = filter (fun f => owned_at (slots s1) (index f) = false) (f :: fs)).
  { apply list_filter_iff. intros g. by rewrite owned_fragment_at. }
  unfold visible_of in Hv. fold s1 in Hv. rewrite Hfilter in Hv. set (foreign := filter (fun f => owned_at (slots s1) (index f) = false) (f :: fs)) in *.
  pose proof (renumber_all_length s1 foreign) as Hlen. pose proof (renumber_all_same s1 foreign) as Hsame.
  destruct (renumber_all s1 foreign) as [renumbered s2]. simpl in Hlen, Hsame.
  assert (Hcopy : forall calls, _with_tool_calls c calls =
    Some (mkChunk [mkChunkChoice (Some (mkDelta (delta_content d) calls)) (choice_finish ch)] (chunk_usage c) (chunk_rest c))).
  { intros calls. unfold _with_tool_calls. by rewrite Hch, Hd, Hc. }
  rewrite !Hcopy in Hv.
  assert (Hwhole : forall calls : option (list fragment), let c' := mkChunk [mkChunkChoice (Some (mkDelta (delta_content d) calls)) (choice_finish ch)]
      (chunk_usage c) (chunk_rest c) in
    fragments c' = default [] calls /\ content_of c' = content_of c /\ finish_of c' = finish_of c).
  { intros calls. unfold fragments, content_of, finish_of. rewrite Hch. simpl. rewrite Hd. by destruct calls. }
  destruct (length foreign =? length (f :: fs))%nat eqn:El; simpl negb in Hv; cbv iota in Hv.
  - apply Nat.eqb_eq in El. assert (Hall : foreign = f :: fs) by by apply filter_keeps_all.
    destruct (bool_decide (index <$> renumbered = index <$> foreign)) eqn:Ei; simpl negb in Hv; cbv iota in Hv; simplify_eq.
    + apply bool_decide_eq_true in Ei. split; [done|]. split_and!; try done.
      unfold fragments. rewrite Hch, Hd, Hf. simpl. by rewrite <- Hall, (Hsame Ei).
    + split; [done|]. apply (Hwhole (Some renumbered)).
  - destruct (bool_decide (length foreign = 0%nat)) eqn:E0; simpl in Hv.
    + apply bool_decide_eq_true in E0. rewrite E0 in Hlen. destruct renumbered; [|done].
      destruct (given (delta_content d)) eqn:Eg; simpl in Hv; simplify_eq; (split; [done|]).
      * apply (Hwhole None).
      * split; [done|]. unfold content_of. by rewrite Hch, Hd.
    + simplify_eq. split; [done|]. destruct renumbered as [|g gs]; [apply bool_decide_eq_false in E0; by destruct E0|].
      apply (Hwhole (Some (g :: gs))).
Qed.

(** ** A round *)

Abbreviation accumulate := _accumulate_tool_call_deltas.
Abbreviation fragments_of cs := (concat (fragments <$> cs)).

Lemma fragments_cons c cs : fragments_of (c :: cs) = fragments c ++ fragments_of cs.
Proof. done. Qed.

Lemma fragments_app cs ds : fragments_of (cs ++ ds) = fragments_of cs ++ fragments_of ds.
Proof. by rewrite fmap_app, concat_app. Qed.

Lemma accumulate_app m fs gs : accumulate m (fs ++ gs) = accumulate (accumulate m fs) gs.
Proof. apply foldl_app. Qed.

Lemma accumulate_dom m fs i : is_Some (accumulate m fs !! i) <-> is_Some (m !! i) \/ i ∈ index <$> fs.
Proof.
  revert m. induction fs as [|f fs IH]; intros m; simpl; [rewrite elem_of_nil; tauto|].
  rewrite IH, elem_of_cons. unfold merge_into. destruct (decide (i = index f)) as [->|Hn].
  - rewrite lookup_insert_eq. split; eauto.
  - rewrite lookup_insert_ne by done. tauto.
Qed.

Lemma append_nil (s : string) : (s ++ "")%string = s.
Proof. induction s as [|x s IH]; [done|]. change (String x (s ++ "")%string = String x s). by f_equal. Qed.

(** A call keeps the name its first fragment gave it. *)
Lemma name_stays gs : forall fs i sl, named_at_once (fs ++ gs) -> i ∈ index <$> fs -> accumulate ∅ fs !! i = Some sl ->
  exists sl', accumulate (accumulate ∅ fs) gs !! i = Some sl' /\ slot_name sl' = slot_name sl.
Proof.
  induction gs as [|g gs IH]; intros fs i sl Hn Hi Hl; simpl; [by exists sl|].
  assert (exists sl1, merge_into (accumulate ∅ fs) g !! i = Some sl1 /\ slot_name sl1 = slot_name sl) as (sl1 & H1 & Hname).
  { unfold merge_into. destruct (decide (i = index g)) as [->|Hne]; [|rewrite lookup_insert_ne by done; by exists sl].
    rewrite lookup_insert_eq, Hl. eexists; split; [done|]. simpl. pose proof (Hn fs g gs eq_refl Hi) as Hg. unfold name_in in Hg.
    rewrite Hg. apply append_nil. }
  assert (Ea : merge_into (accumulate ∅ fs) g = accumulate ∅ (fs ++ [g])) by by rewrite accumulate_app.
  rewrite Ea in *. destruct (IH (fs ++ [g]) i sl1) as (sl' & Hl' & Hname'); [by rewrite <- app_assoc| |done|].
  - rewrite fmap_app. apply elem_of_app. by left.
  - exists sl'. split; [done|congruence].
Qed.

Lemma owned_stays fs gs i : named_at_once (fs ++ gs) -> is_Some (accumulate ∅ fs !! i) ->
  owned_at (accumulate ∅ fs) i = owned_at (accumulate ∅ (fs ++ gs)) i.
Proof.
  intros Hn [sl Hl]. assert (Hi : i ∈ index <$> fs).
  { destruct (accumulate_dom ∅ fs i) as [H _]. rewrite lookup_empty in H. by destruct (H (mk_is_Some _ _ Hl)) as [[? ?]|?]. }
  destruct (name_stays gs fs i sl Hn Hi Hl) as (sl' & Hl' & Hname). rewrite accumulate_app.
  unfold owned_at, owned_slot. by rewrite Hl, Hl', Hname.
Qed.

(** What holds of a round after the fragments [fs], where the client was sent the chunks [shown]. *)
Definition round (fs : list fragment) (s : _ChatStreamState) (shown : list chunk) : Prop :=
  slots s = accumulate ∅ fs /\
  numbered (owned_at (slots s)) (slots s) (visible_tool_index s) (next_visible_tool_index s) (assembled shown).

Lemma numbered_ext O O' m numbers next client : numbered O m numbers next client ->
  (forall i, is_Some (m !! i) -> O i = O' i) -> numbered O' m numbers next client.
Proof.
  intros [H1 H2 H3 H4 H5 H6 H7] HO. split; try done. intros i. rewrite H5. split; intros [Hm Ho]; (split; [done|]); specialize (HO i Hm); congruence.
Qed.

Lemma assembled_app cs c : assembled (cs ++ [c]) = accumulate (assembled cs) (fragments c).
Proof. unfold assembled. by rewrite fmap_app, concat_app, accumulate_app, <- (app_nil_r (fragments c)). Qed.

(** A chunk with nothing of a call in it. *)
Lemma round_quiet fs s s' shown : round fs s shown -> slots s' = slots s -> visible_tool_index s' = visible_tool_index s ->
  next_visible_tool_index s' = next_visible_tool_index s -> round fs s' shown.
Proof. unfold round. by intros [H1 H2] -> -> ->. Qed.

Lemma round_shows_quiet fs s shown c : round fs s shown -> fragments c = [] -> round fs s (shown ++ [c]).
Proof. unfold round. intros [H1 H2] Hc. by rewrite assembled_app, Hc. Qed.

Lemma round_visible fs s shown c ch rest d f gs visible hide s' : copies c = true -> chunk_choices c = ch :: rest ->
  choice_delta ch = Some d -> delta_tool_calls d = Some (f :: gs) -> named_at_once (fs ++ f :: gs) -> round fs s shown ->
  visible_of s c d (f :: gs) = (visible, hide, s') ->
  pending_terminal s' = pending_terminal s /\ usage_chunks s' = usage_chunks s /\ finish_reason s' = finish_reason s /\
  (if hide then content_of c = None /\ round (fs ++ f :: gs) s' shown
   else content_of visible = content_of c /\ finish_of visible = finish_of c /\ round (fs ++ f :: gs) s' (shown ++ [visible])).
Proof.
  intros Hc Hch Hd Hf Hn [Hs Hnum] Hv. pose proof (visible_of_spec _ _ _ _ _ _ _ _ _ _ Hc Hch Hd Hf Hv) as Hspec. simpl in Hspec.
  set (s1 := with_slots _ s) in Hspec.
  assert (Es1 : slots s1 = accumulate ∅ (fs ++ f :: gs)) by (unfold s1; simpl; by rewrite Hs, accumulate_app).
  pose proof (renumber_all_numbers (owned_at (slots s1)) (f :: gs) s1 (slots s) (assembled shown)) as Hr.
  change (filter _ (f :: gs)) with (filter (fun f => owned_at (slots s1) (index f) = false) (f :: gs)) in Hspec.
  destruct (renumber_all s1 _) as [renumbered s2]. destruct Hspec as [-> Hspec].
  destruct Hr as [Es2 Hr].
  { eapply numbered_ext; [exact Hnum|]. intros i Hi. rewrite Es1, Hs in *. by apply owned_stays. }
  assert (Eslots : slots s2 = accumulate ∅ (fs ++ f :: gs)) by (rewrite Es2; exact Es1).
  split_and!; [by rewrite Es2..|].
  assert (Hround : forall shown', assembled shown' = accumulate (assembled shown) renumbered -> round (fs ++ f :: gs) s2 shown').
  { intros shown' Es. split; [done|]. assert (slots s2 = slots s1) as Hslots by by rewrite Es2.
    rewrite Es, Hslots. exact Hr. }
  destruct hide.
  - destruct Hspec as [-> ?]. split; [done|]. by apply Hround.
  - destruct Hspec as (Hfr & ? & ?). split_and!; [done|done|]. apply Hround. by rewrite assembled_app, Hfr.
Qed.

Lemma stripped_shows c : copies c = true -> is_Some (finish_of c) -> content_of (_stripped_tool_calls c) = content_of c /\
  finish_of (_stripped_tool_calls c) = finish_of c /\ fragments (_stripped_tool_calls c) = [].
Proof.
  intros Hc [reason Hr]. unfold _stripped_tool_calls, _with_tool_calls. destruct (chunk_choices c) as [|ch rest] eqn:Hch;
    [by unfold finish_of in Hr; rewrite Hch in Hr|].
  destruct (choice_delta ch) as [d|] eqn:Hd.
  - rewrite Hc. simpl. unfold content_of, finish_of. by rewrite Hch, Hd.
  - simpl. unfold fragments. by rewrite Hch, Hd.
Qed.

(** What one event shows the client, now or at the end of the round. *)
Definition shows (action : StreamAction) (c visible : chunk) : list chunk :=
  match action, finish_of c with Defer, None => [] | _, _ => [visible] end.

Lemma with_terminal_round fs s shown c reason : round fs s shown -> round fs (with_terminal c (with_finish reason s)) shown.
Proof. by intros [H1 H2]. Qed.

Lemma observe_spec s c fs shown : copies c = true -> named_at_once (fs ++ fragments c) -> round fs s shown ->
  let '(action, visible, s') := observe s c in
  round (fs ++ fragments c) s' (shown ++ shows action c visible) /\
  omap content_of (shows action c visible) = omap content_of [c] /\
  (is_Some (finish_of c) -> action = Defer /\ pending_terminal s' = Some visible /\ finish_of visible = finish_of c) /\
  (finish_of c = None -> pending_terminal s' = pending_terminal s /\ finish_of visible = None) /\
  (chunk_choices c = [] -> visible = c) /\
  (Forall (fun c => chunk_choices c = []) (usage_chunks s) -> Forall (fun c => chunk_choices c = []) (usage_chunks s')).
Proof.
  intros Hc Hn Hr. unfold observe.
  assert (Hr1 : round fs (remembers c s) shown) by (apply (round_quiet _ s); done).
  destruct (chunk_choices c) as [|ch rest] eqn:Hch.
  { assert (Ef : finish_of c = None) by (unfold finish_of; by rewrite Hch).
    assert (Eg : fragments c = []) by (unfold fragments; by rewrite Hch).
    assert (Ec : content_of c = None) by (unfold content_of; by rewrite Hch).
    rewrite Eg, app_nil_r in *. unfold shows. rewrite Ef. destruct (is_set (chunk_usage c)).
    - rewrite app_nil_r. split_and!; try done; [by simpl; rewrite Ec|].
      intros Hu. simpl. apply Forall_app. split; [done|]. by constructor.
    - split_and!; try done. by apply round_shows_quiet. }
  set (seen := match choice_delta ch with Some d => _ | None => _ end).
  assert (Hseen : let '(visible, hide, s1) := seen in
    usage_chunks s1 = usage_chunks s /\ pending_terminal s1 = pending_terminal s /\
    if hide then content_of c = None /\ round (fs ++ fragments c) s1 shown
    else content_of visible = content_of c /\ finish_of visible = finish_of c /\ round (fs ++ fragments c) s1 (shown ++ [visible])).
  { assert (Hplain : fragments c = [] -> let '(visible, hide, s1) := (c, false, remembers c s) in
      usage_chunks s1 = usage_chunks s /\ pending_terminal s1 = pending_terminal s /\
      if hide then content_of c = None /\ round (fs ++ fragments c) s1 shown
      else content_of visible = content_of c /\ finish_of visible = finish_of c /\ round (fs ++ fragments c) s1 (shown ++ [visible])).
    { intros Eg. rewrite Eg, app_nil_r. split_and!; try done. by apply round_shows_quiet. }
    unfold seen. destruct (choice_delta ch) as [d|] eqn:Hd; [|apply Hplain; unfold fragments; by rewrite Hch, Hd].
    destruct (delta_tool_calls d) as [[|f gs]|] eqn:Hf; [apply Hplain; unfold fragments; by rewrite Hch, Hd, Hf| |
      apply Hplain; unfold fragments; by rewrite Hch, Hd, Hf].
    assert (Eg : fragments c = f :: gs) by (unfold fragments; by rewrite Hch, Hd, Hf).
    rewrite Eg in *. destruct (visible_of (remembers c s) c d (f :: gs)) as [[visible hide] s1] eqn:Hv.
    destruct (round_visible _ _ _ _ _ _ _ _ _ _ _ _ Hc Hch Hd Hf Hn Hr1 Hv) as (H1 & H2 & _ & H3). by split_and!. }
  destruct seen as [[visible hide] s1]. destruct Hseen as (Hu & Hp & Hseen).
  assert (Ef : finish_of c = given (choice_finish ch)) by (unfold finish_of; by rewrite Hch).
  unfold shows. rewrite Ef in *. destruct (given (choice_finish ch)) as [reason|] eqn:Eg.
  - simpl. rewrite Hu. destruct hide.
    + destruct Hseen as [Hct Hs]. destruct (stripped_shows c Hc) as (S1 & S2 & S3); [by rewrite Ef|].
      split_and!; rewrite ?S1, ?S2, ?Ef; try done.
      apply with_terminal_round. by apply round_shows_quiet.
    + destruct Hseen as (Hct & Hfn & Hs). by split_and!; rewrite ?Hct.
  - destruct hide; simpl.
    + destruct Hseen as [Hct Hs]. rewrite app_nil_r, Hct, Hu. by split_and!.
    + destruct Hseen as (Hct & Hfn & Hs). rewrite Hct, Hu. by split_and!.
Qed.

Abbreviation choiceless cs := (Forall (fun c => chunk_choices c = []) cs).
Abbreviation contents cs := (omap content_of cs).

Lemma named_prefix fs gs : named_at_once (fs ++ gs) -> named_at_once fs.
Proof. intros H before f after -> Hi. apply (H before f (after ++ gs)); [by rewrite <- app_assoc|done]. Qed.

(** A bare end is held back, for a later one to replace. *)
Lemma observe_bare s c fs shown : is_Some (finish_of c) -> bare c -> round fs s shown ->
  exists s', observe s c = (Defer, c, s') /\ round fs s' shown /\ usage_chunks s' = usage_chunks s.
Proof.
  intros [reason Hf] [Hg _] Hr. unfold observe, finish_of, fragments in *. destruct (chunk_choices c) as [|ch rest]; [done|]. rewrite Hf.
  assert (match choice_delta ch with
          | Some d => match delta_tool_calls d with Some (f :: gs) => visible_of (remembers c s) c d (f :: gs) | _ => (c, false, remembers c s) end
          | None => (c, false, remembers c s) end = (c, false, remembers c s)) as ->
    by (destruct (choice_delta ch) as [d|]; [by destruct (delta_tool_calls d) as [[|? ?]|]|done]).
  eexists. split_and!; [done| |done]. apply with_terminal_round. by apply (round_quiet fs s).
Qed.

(** Events before the one that ends the stream. *)
Lemma observe_body events : forall s fs shown, Forall (fun c => copies c = true) events ->
  Forall (fun c => finish_of c = None \/ bare c) events -> named_at_once (fs ++ fragments_of events) -> choiceless (usage_chunks s) ->
  round fs s shown ->
  let '(sent, s') := observe_all s events in
  round (fs ++ fragments_of events) s' (shown ++ sent) /\ contents sent = contents events /\
  (choiceless events -> pending_terminal s' = pending_terminal s) /\ choiceless (usage_chunks s') /\ (choiceless events -> choiceless sent) /\
  omap finish_of sent = [].
Proof.
  induction events as [|c events IH]; intros s fs shown Hc Hf Hn Hu Hr; simpl; [by rewrite !app_nil_r|].
  inversion Hc as [|? ? Hc1 Hc2]; subst. inversion Hf as [|? ? Hc0 Hf2]; subst. simpl in Hn. rewrite app_assoc in Hn.
  destruct (finish_of c) as [reason|] eqn:Hf1.
  { destruct Hc0 as [|Hb]; [done|]. destruct (observe_bare s c fs shown) as (s1 & -> & Hr1 & Hu1); [by eexists|done|done|].
    destruct Hb as [Hb1 Hb2]. rewrite Hb1, app_nil_r in *. cbn [app].
    specialize (IH s1 fs shown Hc2 Hf2 Hn ltac:(by rewrite Hu1) Hr1). destruct (observe_all s1 events) as [sent s'].
    destruct IH as (I1 & I2 & I3 & I4 & I5 & I6). split_and!; [done| |intros Hno|done|intros Hno|done].
    - trans (contents ([c] ++ events)); [|done]. rewrite omap_app, I2. simpl. by rewrite Hb2.
    - inversion Hno as [|? ? Hno1 _]; subst. unfold finish_of in Hf1. by rewrite Hno1 in Hf1.
    - inversion Hno; subst. auto. }
  pose proof (observe_spec s c fs shown Hc1 (named_prefix _ _ Hn) Hr) as Ho. unfold shows in Ho. rewrite Hf1 in Ho.
  destruct (observe s c) as [[action visible] s1]. destruct Ho as (H1 & H2 & _ & H3 & H4 & H5).
  destruct (H3 eq_refl) as [Hp Hv].
  specialize (IH s1 (fs ++ fragments c) (shown ++ match action with Forward => [visible] | Defer => [] end) Hc2 Hf2 Hn (H5 Hu)).
  destruct (observe_all s1 events) as [sent s']. destruct IH as (I1 & I2 & I3 & I4 & I5 & I6).
  { by destruct action. }
  rewrite app_assoc. split_and!; try done.
  - rewrite <- (app_assoc shown) in I1. destruct action; exact I1.
  - trans (contents ([c] ++ events)); [|done]. rewrite omap_app, <- H2, <- I2, <- omap_app. by destruct action.
  - intros Hno. inversion Hno; subst. by rewrite I3.
  - intros Hno. inversion Hno as [|? ? Hno1 Hno2]; subst. specialize (H4 Hno1). subst visible.
    destruct action; [by constructor; auto|by auto].
  - destruct action; simpl; [by rewrite Hv|done].
Qed.

Lemma observe_all_app s a b : observe_all s (a ++ b) =
  let '(sent1, s1) := observe_all s a in let '(sent2, s2) := observe_all s1 b in (sent1 ++ sent2, s2).
Proof.
  revert s. induction a as [|c a IH]; intros s; simpl; [by destruct (observe_all s b)|].
  destruct (observe s c) as [[action visible] s1]. rewrite IH. destruct (observe_all s1 a) as [sent1 s2].
  destruct (observe_all s2 b) as [sent2 s3]. by destruct action.
Qed.

Lemma choiceless_shows cs : choiceless cs -> fragments_of cs = [] /\ contents cs = [] /\ omap finish_of cs = [].
Proof.
  induction 1 as [|c cs Hc _ (IH1 & IH2 & IH3)]; [done|].
  assert (fragments c = [] /\ content_of c = None /\ finish_of c = None) as (H1 & H2 & H3)
    by (unfold fragments, content_of, finish_of; by rewrite Hc).
  split_and!.
  - change (fragments c ++ fragments_of cs = []). by rewrite H1, IH1.
  - trans (contents ([c] ++ cs)); [done|]. rewrite omap_app, IH2. simpl. by rewrite H2.
  - trans (omap finish_of ([c] ++ cs)); [done|]. rewrite omap_app, IH3. simpl. by rewrite H3.
Qed.

Lemma round_start : round [] new_stream_state [].
Proof.
  split; [done|]. split; simpl; try done.
  - lia.
  - intros i. rewrite !lookup_empty. split; [by intros [? ?]|by intros [[? ?] _]].
  - intros v [? ?]. done.
Qed.

Definition has_finish (c : chunk) : bool := is_set (finish_of c).

(** What comes before the last event that says why a stream ends. *)
Fixpoint until_end (events : list chunk) : list chunk :=
  match events with
  | [] => []
  | c :: events => if has_finish c && negb (existsb has_finish events) then [] else c :: until_end events
  end.

Lemma choiceless_unfinished cs : choiceless cs -> existsb has_finish cs = false.
Proof. induction 1 as [|c cs Hc _ IH]; [done|]. simpl. unfold has_finish at 1, finish_of. by rewrite Hc, IH. Qed.

Lemma until_end_of body last tail : is_Some (finish_of last) -> choiceless tail -> until_end (body ++ last :: tail) = body.
Proof.
  intros [reason Hl] Ht. assert (has_finish last = true) as Hlast by (unfold has_finish; by rewrite Hl).
  induction body as [|c body IH]; cbn [app until_end]; [by rewrite Hlast, choiceless_unfinished|].
  rewrite existsb_app. cbn [existsb]. by rewrite Hlast, orb_true_r, andb_false_r, IH.
Qed.

(** A client puts together from [client] exactly the calls of [events] that are its own to make, each as the provider made
    it, under numbers that begin at 0 and leave no gap. *)
Definition assembles_its_calls (client events : list chunk) : Prop := exists (numbers : gmap Z Z) (next : Z),
  (forall i sl, assembled events !! i = Some sl -> owned_slot sl = false ->
     exists v, numbers !! i = Some v /\ assembled client !! v = Some sl) /\
  (forall v, is_Some (assembled client !! v) <-> 0 <= v < next) /\
  (forall v sl, assembled client !! v = Some sl -> owned_slot sl = false /\
     exists i, numbers !! i = Some v /\ assembled events !! i = Some sl) /\
  (forall i j v, numbers !! i = Some v -> numbers !! j = Some v -> i = j).

(** A stream its client can follow: every chunk can be copied, it ends so, and a call's name comes at once. *)
Record well_formed (events : list chunk) : Prop := {
  formed_copies : Forall (fun c => copies c = true) events;
  formed_ends : ends events;
  formed_names : named_at_once (fragments_of events)
}.

(** A round loses its client neither content nor the reason the stream ended, and what is sent while it lasts is what comes
    before its end. *)
Lemma client_of_round events : well_formed events ->
  let '(sent, s) := observe_all new_stream_state events in
  let client := sent ++ deferred_terminal s in
  slots s = assembled events /\ contents client = contents events /\
  (exists reason, omap finish_of client = [reason] /\ list.last (omap finish_of events) = Some reason) /\
  assembles_its_calls client events /\ contents sent = contents (until_end events) /\ deferred_terminal s <> [].
Proof.
  intros [Hc (body & last & tail & -> & Hbody & Hlast & Htail) Hn].
  apply Forall_app in Hc as [Hcb Hc]. inversion Hc as [|? ? Hcl Hct]; subst.
  destruct (choiceless_shows _ Htail) as (Ft & Ct & Rt).
  rewrite observe_all_app. cbn [observe_all].
  assert (Efr : fragments_of (body ++ last :: tail) = fragments_of body ++ fragments last).
  { by rewrite fragments_app, fragments_cons, Ft, app_nil_r. }
  rewrite Efr in Hn. pose proof (named_prefix _ _ Hn) as Hnb.
  pose proof (observe_body body new_stream_state [] [] Hcb Hbody Hnb ltac:(constructor) round_start) as B.
  destruct (observe_all new_stream_state body) as [sent1 s1]. destruct B as (B1 & B2 & B3 & B4 & _ & B6).
  pose proof (observe_spec s1 last _ _ Hcl Hn B1) as O. destruct (observe s1 last) as [[action visible] s2].
  destruct O as (O1 & O2 & O3 & _ & _ & O6). destruct (O3 Hlast) as (-> & O7 & O8).
  unfold shows in O1, O2. destruct (finish_of last) as [reason|] eqn:El; [|by destruct Hlast].
  assert (Htf : Forall (fun c => finish_of c = None \/ bare c) tail).
  { eapply Forall_impl; [exact Htail|]. intros c Hch. left. unfold finish_of. by rewrite Hch. }
  pose proof (observe_body tail s2 (fragments_of body ++ fragments last) _ Hct Htf ltac:(by rewrite Ft, app_nil_r) (O6 B4) O1) as T.
  destruct (observe_all s2 tail) as [sent2 s3]. destruct T as (T1 & T2 & T3 & T4 & T5 & T6).
  destruct (choiceless_shows _ (T5 Htail)) as (F2 & C2 & R2). destruct (choiceless_shows _ T4) as (Fu & Cu & Ru).
  rewrite O7 in T3. unfold deferred_terminal. rewrite (T3 Htail).
  assert (Easm : assembled ((sent1 ++ sent2) ++ visible :: usage_chunks s3) = assembled ((sent1 ++ [visible]) ++ sent2)).
  { unfold assembled. f_equal. by rewrite !fragments_app, !fragments_cons, F2, Fu, !app_nil_r. }
  assert (Eev : accumulate ∅ (fragments_of (body ++ last :: tail)) = slots s3).
  { destruct T1 as [-> _]. by rewrite Efr, Ft, app_nil_r. }
  destruct T1 as [Hslots [N1 N2 N3 N4 N5 N6 N7]]. rewrite app_nil_l in N6, N7. rewrite <- Easm in N6, N7.
  set (client := (sent1 ++ sent2) ++ visible :: usage_chunks s3) in *.
  assert (Hown : forall i sl, slots s3 !! i = Some sl -> owned_at (slots s3) i = owned_slot sl).
  { intros i sl Hi. unfold owned_at. by rewrite Hi. }
  split_and!.
  - done.
  - unfold client. rewrite !omap_app, B2, C2, app_nil_r. trans (contents body ++ contents ([visible] ++ usage_chunks s3)); [done|].
    trans (contents body ++ contents ([last] ++ tail)); [|done]. by rewrite !(omap_app _ [_]), O2, Cu, Ct.
  - assert (Hends : forall c cs, finish_of c = Some reason -> omap finish_of cs = [] -> omap finish_of (c :: cs) = [reason]).
    { intros c cs Hf Hcs. trans (omap finish_of ([c] ++ cs)); [done|]. rewrite omap_app, Hcs. simpl. by rewrite Hf. }
    exists reason. split; [unfold client; by rewrite !omap_app, B6, R2, !Hends|]. by rewrite omap_app, Hends, last_snoc.
  - exists (visible_tool_index s3), (next_visible_tool_index s3).
    change (accumulate ∅ (fragments_of (body ++ last :: tail))) with (assembled (body ++ last :: tail)) in Eev. rewrite Eev.
    split_and!; [| | |exact N3].
    + intros i sl Hi Ho. destruct (N5 i) as [_ [v Hv]]; [split; [by eexists|by rewrite (Hown _ _ Hi)]|].
      exists v. split; [done|]. by rewrite (N6 _ _ Hv).
    + intros v. split; [apply N7|]. intros [i Hi]%N4. rewrite (N6 _ _ Hi). by apply (N5 i); eexists.
    + intros v sl Hv. destruct (N4 v) as [i Hi]; [apply N7; by eexists|]. rewrite (N6 _ _ Hi) in Hv.
      destruct (N5 i) as [[_ Ho] _]; [by eexists|]. rewrite (Hown _ _ Hv) in Ho. split; [done|]. by exists i.
  - rewrite until_end_of; [by rewrite omap_app, B2, C2, app_nil_r|rewrite El; by eexists|done].
  - done.
Qed.

(** *** What holds of any round *)

(** Nothing sent while a round lasts says that it ended. *)
Lemma rewritten_unfinished c fs c' : _with_tool_calls c fs = Some c' -> finish_of c' = finish_of c.
Proof.
  unfold _with_tool_calls, finish_of. destruct (chunk_choices c) as [|ch rest]; [done|].
  destruct (choice_delta ch); [|done]. destruct (copies c); [|done]. by intros [= <-].
Qed.

Lemma visible_finish s c d fs : finish_of (visible_of s c d fs).1.1 = finish_of c.
Proof.
  unfold visible_of. destruct (renumber_all _ _) as [renumbered s1]. repeat case_match; simpl; try done; by eapply rewritten_unfinished.
Qed.

Lemma forwards_unfinished s c : let '(action, visible, _) := observe s c in action = Forward -> finish_of visible = None.
Proof.
  unfold observe. destruct (chunk_choices c) as [|ch rest] eqn:Hch.
  { destruct (is_set _); [done|]. intros _. unfold finish_of. by rewrite Hch. }
  set (seen := match choice_delta ch with Some d => _ | None => _ end).
  assert (Hseen : finish_of seen.1.1 = finish_of c).
  { unfold seen. destruct (choice_delta ch) as [d|]; [|done]. destruct (delta_tool_calls d) as [[|f fs]|]; [done| |done].
    apply visible_finish. }
  destruct seen as [[visible hide] s1]. simpl in Hseen. unfold finish_of in Hseen at 2. rewrite Hch in Hseen.
  destruct (given (choice_finish ch)); [done|]. destruct hide; [done|]. by intros _.
Qed.

Lemma sent_unfinished s events : omap finish_of (observe_all s events).1 = [].
Proof.
  revert s. induction events as [|c events IH]; intros s; simpl; [done|]. pose proof (forwards_unfinished s c) as H.
  destruct (observe s c) as [[action visible] s1]. specialize (IH s1). destruct (observe_all s1 events) as [sent s2].
  destruct action; [|done]. simpl. by rewrite H.
Qed.

(** The usage of a loop is written over the last reported one, and over nothing else. *)
Definition reported (s : _ChatStreamState) : option CompletionUsage := usage_carrier s ≫= chunk_usage.

Lemma same_choices cs ds : chunk_choices <$> cs = chunk_choices <$> ds ->
  fragments_of cs = fragments_of ds /\ contents cs = contents ds /\ omap finish_of cs = omap finish_of ds.
Proof.
  revert ds. induction cs as [|c cs IH]; intros [|d ds] H; try done.
  injection H as Hc Hcs. destruct (IH ds Hcs) as (H1 & H2 & H3). assert (Hf : fragments c = fragments d) by (unfold fragments; by rewrite Hc).
  split_and!; [rewrite !fragments_cons; by rewrite Hf, H1| |].
  - change (contents ([c] ++ cs) = contents ([d] ++ ds)). rewrite !omap_app, H2. simpl. unfold content_of. by rewrite Hc.
  - change (omap finish_of ([c] ++ cs) = omap finish_of ([d] ++ ds)). rewrite !omap_app, H3. simpl. unfold finish_of. by rewrite Hc.
Qed.

Lemma fold_first_choices {Entry} (acc : _ChatTotals (Entry := Entry)) cs : chunk_choices <$> fold_first acc cs = chunk_choices <$> cs.
Proof. induction cs as [|c cs IH]; simpl; [done|]. destruct (chunk_usage c); [done|]. simpl. by f_equal. Qed.

Lemma terminal_choices {Entry} s (acc : _ChatTotals (Entry := Entry)) :
  chunk_choices <$> terminal_events s acc = chunk_choices <$> deferred_terminal s.
Proof.
  unfold terminal_events. rewrite fmap_reverse. trans (reverse (chunk_choices <$> reverse (deferred_terminal s))).
  - f_equal. apply fold_first_choices.
  - by rewrite <- fmap_reverse, reverse_involutive.
Qed.

Lemma fold_first_head {Entry} (acc : _ChatTotals (Entry := Entry)) cs u :
  head (filter (fun c => is_set (chunk_usage c) = true) cs) ≫= chunk_usage = Some u ->
  head (omap chunk_usage (fold_first acc cs)) =
    let totals := _add_usage acc (Some u) in _fold_usage (Some u) (prompt totals) (completion totals) (cache_read totals).
Proof.
  induction cs as [|c cs IH]; [done|]. simpl fold_first. rewrite filter_cons. destruct (chunk_usage c) as [u'|] eqn:Eu; simpl.
  - rewrite Eu. intros [= ->]. done.
  - rewrite Eu. exact IH.
Qed.

Lemma omap_reverse {A B} (f : A -> option B) l : omap f (reverse l) = reverse (omap f l).
Proof.
  induction l as [|x l IH]; [done|]. rewrite reverse_cons, omap_app, IH. simpl. destruct (f x); [by rewrite reverse_cons|by rewrite app_nil_r].
Qed.

Lemma terminal_usage {Entry} s (acc : _ChatTotals (Entry := Entry)) sent u : reported s = Some u ->
  last (omap chunk_usage (sent ++ terminal_events s acc)) =
    let totals := _add_usage acc (Some u) in _fold_usage (Some u) (prompt totals) (completion totals) (cache_read totals).
Proof.
  intros Hu. pose proof (fold_first_head acc _ _ Hu) as H. rewrite <- last_reverse, <- omap_reverse in H. fold (terminal_events s acc) in H.
  rewrite omap_app, last_app, H. by simpl.
Qed.

(** The usage of a stream: the last that a chunk without choices carries, or that of the chunk that last says why it ends. *)
Definition usage_told (events : list chunk) : option CompletionUsage :=
  match list.last (omap chunk_usage (filter (fun c => chunk_choices c = []) events)) with
  | Some u => Some u
  | None => list.last (filter (fun c => has_finish c = true) events) ≫= chunk_usage
  end.

Lemma rewritten_usage c fs c' : _with_tool_calls c fs = Some c' -> chunk_usage c' = chunk_usage c.
Proof.
  unfold _with_tool_calls. destruct (chunk_choices c) as [|ch rest]; [done|]. destruct (choice_delta ch); [|done].
  destruct (copies c); [|done]. by intros [= <-].
Qed.

Lemma stripped_usage c : chunk_usage (_stripped_tool_calls c) = chunk_usage c.
Proof. unfold _stripped_tool_calls. destruct (_with_tool_calls c None) eqn:E; [by eapply rewritten_usage|done]. Qed.

Lemma renumber_all_keeps fs : forall s, let s' := (renumber_all s fs).2 in usage_chunks s' = usage_chunks s /\ pending_terminal s' = pending_terminal s.
Proof.
  induction fs as [|f fs IH]; intros s; cbn [renumber_all]; [done|]. unfold _renumbered.
  set (s1 := match visible_tool_index s !! index f with Some _ => s | None => _ end). specialize (IH s1).
  destruct (renumber_all s1 fs) as [fs' s2]. cbn [snd] in *. destruct IH as [-> ->]. unfold s1. by destruct (visible_tool_index s !! index f).
Qed.

Lemma visible_keeps s c d fs : let '(visible, _, s') := visible_of s c d fs in
  chunk_usage visible = chunk_usage c /\ usage_chunks s' = usage_chunks s /\ pending_terminal s' = pending_terminal s.
Proof.
  unfold visible_of. set (s1 := with_slots _ s). set (foreign := filter _ fs). pose proof (renumber_all_keeps foreign s1) as H.
  destruct (renumber_all s1 foreign) as [renumbered s2]. cbn [snd] in H. destruct H as [H1 H2].
  repeat case_match; simplify_eq; split_and!; try done; by eapply rewritten_usage.
Qed.

(** What a chunk adds to what is held back. *)
Lemma observe_usage s c : let s' := (observe s c).2 in
  usage_chunks s' = usage_chunks s ++ match chunk_choices c with [] => if is_set (chunk_usage c) then [c] else [] | _ => [] end /\
  chunk_usage <$> pending_terminal s' = if has_finish c then Some (chunk_usage c) else chunk_usage <$> pending_terminal s.
Proof.
  unfold observe, has_finish, finish_of. destruct (chunk_choices c) as [|ch rest]; [by destruct (is_set (chunk_usage c)); cbn; rewrite ?app_nil_r|].
  set (seen := match choice_delta ch with Some d => _ | None => _ end).
  assert (let '(visible, _, s1) := seen in chunk_usage visible = chunk_usage c /\ usage_chunks s1 = usage_chunks s /\ pending_terminal s1 = pending_terminal s) as Hs.
  { unfold seen. destruct (choice_delta ch) as [d|]; [|done]. destruct (delta_tool_calls d) as [[|f fs]|]; [done| |done].
    exact (visible_keeps (remembers c s) c d (f :: fs)). }
  destruct seen as [[visible hide] s1]. destruct Hs as (H1 & H2 & H3). rewrite app_nil_r.
  destruct (given (choice_finish ch)); destruct hide; cbn; rewrite ?stripped_usage, ?H1, ?H2, ?H3; done.
Qed.

Lemma observe_all_usage events : forall s, let s' := (observe_all s events).2 in
  omap chunk_usage (usage_chunks s') = omap chunk_usage (usage_chunks s) ++ omap chunk_usage (filter (fun c => chunk_choices c = []) events) /\
  chunk_usage <$> pending_terminal s' = match list.last (filter (fun c => has_finish c = true) events) with
                                       | Some c => Some (chunk_usage c) | None => chunk_usage <$> pending_terminal s end.
Proof.
  induction events as [|c events IH] using rev_ind; intros s; [cbn; by rewrite app_nil_r|].
  rewrite observe_all_app. destruct (observe_all s events) as [sent1 s1] eqn:E1. cbn [observe_all].
  destruct (IH s) as [I1 I2]. rewrite E1 in I1, I2. cbn [snd] in I1, I2. pose proof (observe_usage s1 c) as [O1 O2].
  destruct (observe s1 c) as [[action visible] s2]. cbn [snd] in *. rewrite O1, O2, omap_app, I1, !filter_app, omap_app, I2, app_assoc. split.
  - f_equal. destruct (chunk_choices c) as [|ch rest] eqn:Ec.
    + rewrite filter_cons_True by done. cbn. destruct (chunk_usage c) eqn:Eu; cbn; [by rewrite Eu|done].
    + rewrite filter_cons_False by (by rewrite Ec). done.
  - destruct (has_finish c) eqn:Ef; [rewrite filter_cons_True by done; by rewrite filter_nil, last_snoc|].
    rewrite filter_cons_False by congruence. by rewrite filter_nil, app_nil_r.
Qed.

Lemma last_found (cs : list chunk) : head (filter (fun c => is_set (chunk_usage c) = true) (reverse cs)) ≫= chunk_usage = list.last (omap chunk_usage cs).
Proof.
  induction cs as [|c cs IH] using rev_ind; [done|]. rewrite reverse_snoc, omap_app, last_app. cbn [omap list_omap].
  destruct (chunk_usage c) as [u|] eqn:Eu.
  - rewrite filter_cons_True by (by rewrite Eu). cbn. by rewrite Eu.
  - rewrite filter_cons_False by (by rewrite Eu). exact IH.
Qed.

Lemma reported_told events : reported (observe_all new_stream_state events).2 = usage_told events.
Proof.
  unfold reported, usage_carrier, usage_told. rewrite last_found. destruct (observe_all_usage events new_stream_state) as [H1 H2].
  destruct (observe_all new_stream_state events) as [sent s]. cbn in H1, H2. unfold deferred_terminal.
  assert (forall c cs, omap chunk_usage (c :: cs) = option_list (chunk_usage c) ++ omap chunk_usage cs) as Hcons by (intros c cs; cbn; by destruct (chunk_usage c)).
  cbn [snd]. destruct (pending_terminal s) as [c|]; destruct (list.last (filter _ events)) as [c'|] eqn:El; try done; cbn in H2.
  - rewrite Hcons, last_app, H1. destruct (list.last (omap _ _)); [done|]. injection H2 as ->. cbn. by destruct (chunk_usage c').
  - rewrite H1. by destruct (list.last (omap chunk_usage (filter (fun c => chunk_choices c = []) events))).
Qed.

(** The calls of a round the loop goes on after are the gateway's, and its client is sent nothing of them. *)
Lemma all_owned m : owns "" = false -> (split_calls (_finalize_tool_calls m)).2 = false -> forall i sl, m !! i = Some sl -> owned_slot sl = true.
Proof.
  intros He Hs i sl Hi. simpl in Hs. rewrite <- not_true_iff_false, existsb_exists in Hs.
  assert (Ho : owns (slot_name sl) = true).
  { destruct (owns (slot_name sl)) eqn:Eo; [done|]. destruct Hs. exists (call_of sl). split; [|simpl; by rewrite Eo].
    apply list_elem_of_In, list_elem_of_fmap. exists (i, sl). split; [done|]. by rewrite merge_sort_Permutation, elem_of_map_to_list. }
  unfold owned_slot. rewrite Ho, andb_true_r. apply negb_true_iff, bool_decide_eq_false. intros E. congruence.
Qed.

Lemma no_fragments cs : assembled cs = ∅ -> fragments_of cs = [].
Proof.
  intros H. destruct (fragments_of cs) as [|f fs] eqn:E; [done|]. unfold assembled in H. rewrite E in H.
  assert (is_Some (accumulate ∅ (f :: fs) !! index f)) as [? Hf] by (apply accumulate_dom; right; by left).
  rewrite H in Hf. by rewrite lookup_empty in Hf.
Qed.

Lemma hidden_round events sent s calls : owns "" = false -> well_formed events -> observe_all new_stream_state events = (sent, s) ->
  stream_exiting s = (calls, false) ->
  (forall i sl, assembled events !! i = Some sl -> owned_slot sl = true) /\
  contents sent = contents (until_end events) /\ fragments_of sent = [].
Proof.
  intros He Hw Es Hx. pose proof (client_of_round events Hw) as H. rewrite Es in H. destruct H as (H1 & _ & _ & H4 & H5 & _).
  assert (Howned : forall i sl, assembled events !! i = Some sl -> owned_slot sl = true).
  { rewrite <- H1. apply all_owned; [done|]. unfold stream_exiting in Hx. destruct (negb _); [done|].
    destruct (split_calls _) as [owned foreign]. simplify_eq/=. by apply orb_false_elim in H0 as [-> _]. }
  split_and!; [done..|]. destruct H4 as (numbers & next & _ & _ & H4 & _).
  assert (Hnone : assembled (sent ++ deferred_terminal s) = ∅).
  { apply map_empty. intros v. destruct (assembled _ !! v) as [sl|] eqn:Ev; [|done]. destruct (H4 v sl Ev) as (Hf & i & _ & Hi).
    specialize (Howned _ _ Hi). congruence. }
  apply no_fragments in Hnone. rewrite fragments_app in Hnone. by apply app_eq_nil in Hnone as [? _].
Qed.

(** Whether [named_at_once] holds, after the indices [seen]. *)
Fixpoint named_from (seen : list Z) (fs : list fragment) : bool :=
  match fs with
  | [] => true
  | f :: fs => (negb (bool_decide (index f ∈ seen)) || bool_decide (name_in f = "")) && named_from (seen ++ [index f]) fs
  end.

Lemma named_from_sound fs : named_from [] fs = true -> named_at_once fs.
Proof.
  intros H before f after ->. change (index <$> before) with ([] ++ (index <$> before)). revert H. generalize (@nil Z).
  induction before as [|g before IH]; intros seen H Hi; simpl in H; apply andb_prop in H as [H1 H2].
  - rewrite app_nil_r in Hi. rewrite bool_decide_true in H1 by done. by apply bool_decide_eq_true in H1.
  - apply (IH _ H2). by rewrite <- app_assoc.
Qed.

End Stream.

Local Open Scope list_scope.

(** ** The loop of a stream *)

Section Loop.
Context {Args Tool Caller Rest X Entry Extra ChunkRest : Type}.
Context (loads : string -> option Args) (no_args : Args).
Context (p : pool (Args := Args) (Tool := Tool) (Caller := Caller) (Rest := Rest) (Entry := Entry) (Extra := Extra)).
Context (native_rendering : string -> option (NativeRendering (Entry := Entry) (Extra := Extra))).
Context (mcp_entry : tool_call (Extra := Extra) -> string -> string -> option string -> Entry).
Abbreviation event := (chunk (Extra := Extra) (Rest := ChunkRest)).
Abbreviation action := (action (Args := Args) (Tool := Tool) (Caller := Caller) (Rest := Rest) (Entry := Entry) (Extra := Extra)).
Abbreviation request := (request (Tool := Tool) (Caller := Caller) (Rest := Rest) (Extra := Extra)).
Abbreviation run_state := (run_state (Args := Args) (Tool := Tool) (Caller := Caller) (Rest := Rest) (Entry := Entry) (Extra := Extra)).
Abbreviation totals := (_ChatTotals (Entry := Entry)).
Context (copies : event -> bool).
(** A provider refuses the request, or streams these events and ends, or breaks off with an exception. *)
Context (open_stream : list action -> request -> Prelude.result X (list event * option X)).

Abbreviation owned := (owns (as_backend p)).
Abbreviation strategy := (_ChatToolLoopStrategy (X := X) loads no_args p native_rendering mcp_entry (fun _ _ => Ok (mkCompletion [] None None))).
Abbreviation run_calls := (_run_owned_calls (X := X) loads no_args p native_rendering mcp_entry).

(** The chunks sent, how the generator ends, and the state.  The chunks that report a call are not among those sent: they are
    the trace's [Reports] with entries. *)
Definition generated : Type := list event * Prelude.result (exn (X := X)) unit * run_state.

Fixpoint stream_rounds (rounds_left : nat) (base : request) (merged_tools user_tools : list Tool) (transcript : list message)
    (acc : totals) (first : bool) (s : run_state) : generated :=
  match rounds_left with
  | O => ([], Err MaxToolIterationsExceeded, s)
  | Datatypes.S rounds_left =>
      let final := (rounds_left =? 0)%nat in
      let k := with_messages (_round_transcript strategy transcript final) (stream base)
        (_round_kwargs strategy base merged_tools user_tools final) in
      let asked := mkRun (trace s ++ [AsksProvider k]) (budget s) in
      match open_stream (trace s) k with
      | Err x => ([], Err (ProviderError x), asked)
      | Ok (events, broken) =>
          let '(sent, state) := observe_all owned copies new_stream_state events in
          match broken with
          | Some x => (sent, Err (ProviderError x), asked)
          | None =>
              let s := if first then mkRun (trace asked ++ [LocksIn]) (budget asked) else asked in
              let '(mcp_calls, exiting) := stream_exiting owned state in
              match run_calls mcp_calls s with
              | (Err e, s) => (sent, Err e, s)
              | (Ok (results, _), s) =>
                  if exiting then (sent ++ terminal_events state acc, Ok tt, s)
                  else
                    let '(more, ending, s) := stream_rounds rounds_left base merged_tools user_tools
                      (transcript ++ AssistantCalls mcp_calls :: results) (accumulate_stream_usage acc state) false s in
                    (sent ++ more, ending, s)
              end
          end
      end
  end.

Definition mcp_tool_loop_stream (completion_kwargs : request) (max_iterations : nat) : run_state -> generated :=
  let '(transcript, merged_tools, user_tools, base) := _prepare strategy completion_kwargs false in
  stream_rounds max_iterations (mkKwargs (messages base) (tools base) (tool_choice base) (Some true) (others base))
    merged_tools user_tools transcript (mkTotals 0 0 0 []) true.

(** *** What a run shows *)

(** The streams a run was given, after [before]. *)
Fixpoint streams_of (before t : list action) : list (list event) :=
  match t with
  | [] => []
  | a :: t =>
      match a with AsksProvider k => match open_stream before k with Ok (events, _) => [events] | Err _ => [] end | _ => [] end ++
      streams_of (before ++ [a]) t
  end.

Lemma streams_of_app before t t' : streams_of before (t ++ t') = streams_of before t ++ streams_of (before ++ t) t'.
Proof.
  revert before. induction t as [|a t IH]; intros before; simpl; [by rewrite app_nil_r|]. by rewrite IH, <- !app_assoc.
Qed.

Lemma no_streams t : requests_of t = [] -> forall before, streams_of before t = [].
Proof.
  induction t as [|a t IH]; intros H before; [done|]. destruct a; try done; simpl; by apply IH.
Qed.

(** Calls of the gateway's ask no provider. *)
Lemma calls_stream_nothing (state : _ChatStreamState (Extra := Extra) (Rest := ChunkRest)) calls exiting s : stream_exiting owned state = (calls, exiting) ->
  exists t, trace (run_calls calls s).2 = trace s ++ t /\ forall before, streams_of before t = [].
Proof.
  intros Hx. pose proof (run_calls_case (X := X) loads no_args p native_rendering mcp_entry calls s) as H.
  destruct (run_calls calls s) as [r s'].
  assert (Ho : Forall (fun tc => owned (call_name tc) = true) calls).
  { unfold stream_exiting in Hx. destruct (negb _); [by injection Hx as <- _|]. simpl in Hx. injection Hx as <- _.
    apply Forall_forall. by intros tc [? _]%list_elem_of_filter. }
  destruct (calls_facts_hold loads no_args p (fun _ _ => Ok (mkCompletion [] None None) : Prelude.result X _) _ _ _ _ Ho H) as [t [Ht [Hr _] _ _ _ _ _ _]].
  exists t. split; [exact Ht|]. by apply no_streams.
Qed.

(** What a provider streams in one round, where it ends by itself. *)
Definition streams_well : Prop := forall t k events, open_stream t k = Ok (events, None) -> well_formed copies events.

(** The usage a round reports. *)
Definition round_usage (events : list event) : list CompletionUsage := option_list (usage_told events).
Lemma round_usage_reported events : round_usage events = option_list (reported (observe_all owned copies new_stream_state events).2).
Proof. by rewrite reported_told. Qed.
Definition of_rounds (f : CompletionUsage -> Z) (rounds : list (list event)) : Z := sumZ f (concat (round_usage <$> rounds)).
Definition cached_tokens (u : CompletionUsage) : Z := default 0 (default None (prompt_tokens_details u)).

(** Every call is the gateway's. *)
Definition gateway_only (events : list event) : Prop := forall i sl, assembled events !! i = Some sl -> owned_slot owned sl = true.

(** What a client that was [sent] this reads of the rounds [hidden], and of the [final] one, after the totals [acc]. *)
Record reads (acc : totals) (hidden : list (list event)) (final sent : list event) : Prop := {
  read_contents : omap content_of sent = concat ((fun events => omap content_of (until_end events)) <$> hidden) ++ omap content_of final;
  read_finish : exists reason, omap finish_of sent = [reason] /\ last (omap finish_of final) = Some reason;
  read_calls : assembles_its_calls owned sent final;
  read_hidden : Forall gateway_only hidden;
  read_usage : round_usage final <> [] -> exists u, last (omap chunk_usage sent) = Some u /\
    prompt_tokens u = prompt acc + of_rounds prompt_tokens (hidden ++ [final]) /\
    completion_tokens u = completion acc + of_rounds completion_tokens (hidden ++ [final]) /\
    total_tokens u = prompt_tokens u + completion_tokens u /\
    (forall d, prompt_tokens_details u = Some d -> d = Some (cache_read acc + of_rounds cached_tokens (hidden ++ [final])))
}.

Lemma of_rounds_cons f events rounds : of_rounds f (events :: rounds) = sumZ f (round_usage events) + of_rounds f rounds.
Proof. unfold of_rounds. by rewrite fmap_cons, concat_cons, sumZ_app. Qed.

Lemma add_stream_usage (acc : totals) events : let acc' := accumulate_stream_usage acc (observe_all owned copies new_stream_state events).2 in
  prompt acc' = prompt acc + sumZ prompt_tokens (round_usage events) /\
  completion acc' = completion acc + sumZ completion_tokens (round_usage events) /\
  cache_read acc' = cache_read acc + sumZ cached_tokens (round_usage events).
Proof.
  unfold accumulate_stream_usage. rewrite !round_usage_reported. unfold reported. destruct (_ ≫= _) as [u|]; cbn; rewrite ?Z.add_0_r; done.
Qed.

Lemma reads_final acc events sent state : well_formed copies events -> observe_all owned copies new_stream_state events = (sent, state) ->
  reads acc [] events (sent ++ terminal_events state acc).
Proof.
  intros Hw Es. pose proof (client_of_round owned copies events Hw) as H. rewrite Es in H. destruct H as (_ & H2 & H3 & H4 & _ & _).
  destruct (same_choices (sent ++ terminal_events state acc) (sent ++ deferred_terminal state)) as (S1 & S2 & S3).
  { rewrite !fmap_app. f_equal. apply terminal_choices. }
  split.
  - by rewrite S2, H2.
  - by rewrite S3.
  - unfold assembles_its_calls, assembled in *. rewrite S1. exact H4.
  - constructor.
  - unfold of_rounds. simpl. rewrite app_nil_r, round_usage_reported, Es. simpl.
    destruct (reported state) as [u|] eqn:Eu; [intros _|done]. rewrite (terminal_usage _ acc sent u Eu). cbn.
    eexists. split; [reflexivity|]. cbn. rewrite !Z.add_0_r. split_and!; [done..|].
    intros d. unfold cached_tokens. destruct (prompt_tokens_details u); [by intros [= <-]|]. simpl. destruct (0 <? _); by intros [= <-].
Qed.

Lemma reads_next acc events calls sent state hidden final more : owned "" = false -> well_formed copies events ->
  observe_all owned copies new_stream_state events = (sent, state) -> stream_exiting owned state = (calls, false) ->
  reads (accumulate_stream_usage acc state) hidden final more -> reads acc (events :: hidden) final (sent ++ more).
Proof.
  intros He Hw Es Hx [R1 R2 R3 R4 R5]. destruct (hidden_round _ _ _ _ _ _ He Hw Es Hx) as (H1 & H2 & H3).
  pose proof (sent_unfinished owned copies new_stream_state events) as Hf. rewrite Es in Hf.
  destruct (add_stream_usage acc events) as (U1 & U2 & U3). rewrite Es in U1, U2, U3. cbn [fst snd] in Hf, U1, U2, U3. split.
  - by rewrite omap_app, R1, fmap_cons, concat_cons, <- app_assoc, H2.
  - destruct R2 as (reason & R2 & R2'). exists reason. split; [by rewrite omap_app, R2, Hf|done].
  - unfold assembles_its_calls, assembled in *. rewrite fragments_app, H3. exact R3.
  - by constructor.
  - intros Hu. destruct (R5 Hu) as (u & Hl & P1 & P2 & P3 & P4). exists u. rewrite <- app_comm_cons, !of_rounds_cons.
    split_and!; [by rewrite omap_app, last_app, Hl|by rewrite P1, U1, Z.add_assoc|by rewrite P2, U2, Z.add_assoc|done|].
    intros d Hd. by rewrite (P4 d Hd), U3, Z.add_assoc.
Qed.

Lemma rounds_read n base mt ut : streams_well -> owned "" = false -> forall transcript acc first s sent s',
  stream_rounds n base mt ut transcript acc first s = (sent, Ok tt, s') ->
  exists t hidden final, trace s' = trace s ++ t /\ streams_of (trace s) t = hidden ++ [final] /\ (length hidden < n)%nat /\
    reads acc hidden final sent.
Proof.
  intros Hw He. induction n as [|n IH]; intros transcript acc first s sent s'; cbn [stream_rounds]; [done|].
  set (k := with_messages _ _ _). destruct (open_stream (trace s) k) as [[events [x|]]|x] eqn:Eo; [| |done].
  { by destruct (observe_all _ _ _ _). }
  destruct (observe_all owned copies new_stream_state events) as [sent1 state] eqn:Es.
  set (s1 := if first then _ else _).
  assert (exists t, trace s1 = trace s ++ t /\ streams_of (trace s) t = [events]) as (t1 & Ht1 & Hs1).
  { unfold s1. destruct first; cbn [trace].
    - exists [AsksProvider k; LocksIn]. split; [by rewrite <- app_assoc|]. simpl. by rewrite Eo.
    - exists [AsksProvider k]. split; [done|]. simpl. by rewrite Eo. }
  destruct (stream_exiting owned state) as [calls exiting] eqn:Ex.
  destruct (calls_stream_nothing state calls exiting s1 Ex) as (t2 & Ht2 & Hs2).
  destruct (run_calls calls s1) as [[[results reports]|e] s2]; [|done]. simpl in Ht2. rewrite Ht1, <- app_assoc in Ht2.
  assert (Hs : streams_of (trace s) (t1 ++ t2) = [events]) by by rewrite streams_of_app, Hs1, Hs2.
  pose proof (Hw _ _ _ Eo) as Hwf. destruct exiting.
  - intros [= <- <-]. exists (t1 ++ t2), [], events. split_and!; [done|done|simpl; lia|by apply reads_final].
  - destruct (stream_rounds n _ _ _ _ _ _ s2) as [[more ending] s3] eqn:Er. intros [= <- -> ->].
    destruct (IH _ _ _ _ _ _ Er) as (t3 & hidden & final & Ht3 & Hs3 & Hn & Hr).
    exists ((t1 ++ t2) ++ t3), (events :: hidden), final. split_and!.
    + by rewrite Ht3, Ht2, <- app_assoc.
    + by rewrite streams_of_app, Hs, <- Ht2, Hs3.
    + simpl. lia.
    + by eapply reads_next.
Qed.

(** Where the run fails, nothing it sent says that the answer ended. *)
Lemma failed_unfinished n base mt ut : forall transcript acc first s sent e s',
  stream_rounds n base mt ut transcript acc first s = (sent, Err e, s') -> omap finish_of sent = [].
Proof.
  induction n as [|n IH]; intros transcript acc first s sent e s'; cbn [stream_rounds]; [by intros [= <- _ _]|].
  destruct (open_stream _ _) as [[events broken]|x]; [|by intros [= <- _ _]].
  pose proof (sent_unfinished owned copies new_stream_state events) as Hf.
  destruct (observe_all _ _ _ events) as [sent1 state]. simpl in Hf. destruct broken; [by intros [= <- _ _]|].
  destruct (stream_exiting _ _) as [calls exiting]. destruct (run_calls calls _) as [[[results reports]|e'] s2]; [|by intros [= <- _ _]].
  destruct exiting; [done|]. destruct (stream_rounds n _ _ _ _ _ _ _) as [[more ending] s3] eqn:Er. intros [= <- -> _].
  by rewrite omap_app, Hf, (IH _ _ _ _ _ _ _ Er).
Qed.

End Loop.

(** ** Streams *)

Module Demo.
Abbreviation frag := (fragment (Extra := unit)).
Abbreviation event := (chunk (Extra := unit) (Rest := unit)).

Definition named (i : Z) (name : string) : frag := mkFragment i (Some name) None (Some (mkFunction (Some name) None)) None.
Definition args (i : Z) (text : string) : frag := mkFragment i None None (Some (mkFunction None (Some text))) None.
Definition event_of (text : option string) (fs : list frag) (reason : option string) : event :=
  mkChunk [mkChunkChoice (Some (mkDelta text (Some fs))) reason] None tt.
Definition usage_event : event := mkChunk [] (Some (mkUsage 10 2 12 None)) tt.

Definition owns (name : string) : bool := bool_decide (name = "search").
Definition observed (events : list event) : list event * _ChatStreamState := observe_all owns (fun _ => true) new_stream_state events.
Definition client (events : list event) : list event := (observed events).1 ++ deferred_terminal (observed events).2.

(** A call of the gateway's and one of the client's, in one stream. *)
Definition mixed : list event :=
  [event_of (Some "Hi") [] None; event_of None [named 0 "search"; named 1 "mine"] None; event_of (Some "!") [args 0 "q"] None;
   event_of None [args 1 "x"] None; event_of None [args 1 "y"] (Some "tool_calls"); usage_event].

(** A round of the gateway's own call, which ends as Anthropic's do, and then that one. *)
Definition searching : list event :=
  [event_of (Some "See: ") [] None; event_of None [named 0 "search"; args 0 "q"] None; event_of None [] (Some "tool_calls");
   event_of None [] (Some "stop"); usage_event].
Definition provider (t : list ToolLoopProofs.Demo.action) (k : ToolLoopProofs.Demo.request) : Prelude.result unit (list event * option unit) :=
  Ok (if bool_decide (requests_of t = []) then searching else mixed, None).

Definition loop := mcp_tool_loop_stream Some "" (One ToolLoopProofs.Demo.search) (fun _ => None) (fun _ _ _ _ => tt) (fun _ => true)
  provider ToolLoopProofs.Demo.asked 3 (mkRun [] None).

Lemma forms (events body : list event) last tail : events = body ++ last :: tail -> Forall (fun c => finish_of c = None \/ bare c) body -> is_Some (finish_of last) ->
  Forall (fun c => chunk_choices c = []) tail -> named_from [] (concat (fragments <$> events)) = true -> well_formed (fun _ => true) events.
Proof. split; [by apply Forall_forall|by exists body, last, tail|by apply named_from_sound]. Qed.
Ltac unended := repeat first [apply List.Forall_nil | apply List.Forall_cons; [first [by left|by right]|]].
End Demo.


(** A name in pieces: before the last of them the call is nobody's, so the client is sent a fragment of a call the gateway
    then makes. *)
Lemma split_name_leaks :
  let events := [Demo.event_of None [Demo.named 0 "sea"] None; Demo.event_of None [Demo.named 0 "rch"] None;
                 Demo.event_of None [] (Some "tool_calls")] in
  call_name <$> (stream_exiting Demo.owns (Demo.observed events).2).1 = ["search"] /\
  map_to_list (assembled (Demo.client events)) = [(0, mkSlot (Some "sea") "function" "sea" "" None)].
Proof. by vm_compute. Qed.

(** A chunk that ends the stream again takes the place of the one held back: the client is told [stop] where it has calls to
    make, and a call packed into the first is lost. *)
Lemma second_end_replaces_the_first :
  let events := [Demo.event_of None [Demo.named 0 "mine"] (Some "tool_calls"); Demo.event_of None [] (Some "stop")] in
  finish_reason (Demo.observed events).2 = Some "tool_calls" /\
  stream_exiting Demo.owns (Demo.observed events).2 = ([], true) /\
  omap finish_of (Demo.client events) = ["stop"] /\ assembled (Demo.client events) = ∅.
Proof. by vm_compute. Qed.

(** Text that comes with the end of a round the loop goes on after is not sent. *)
Lemma text_of_the_end_is_lost :
  let events := [Demo.event_of (Some "Looking it up.") [Demo.named 0 "search"] (Some "tool_calls")] in
  (stream_exiting Demo.owns (Demo.observed events).2).2 = false /\ (Demo.observed events).1 = [].
Proof. by vm_compute. Qed.
